(* ===== verification/_CoqProject ===== *)
-Q . S2P
Prelude.v
Storage.v
CacheState.v
BufferPool.v
ResourceGovernor.v
Scheduler.v
Sha256.v
ExpertRecord.v
Telemetry.v
Doubles.v
ExpertCache.v
ExpertCacheInv.v
ExpertCacheSteps.v
ExpertCachePrims.v
ExpertCacheEvict.v
ExpertCacheOps.v
ExpertCacheDrive.v
ExpertCachePublish.v
ExpertCacheSystem.v
ExpertCacheTheorems.v
Text.v
Json.v
JsonTheorems.v
JsonRoundTrip.v
Feasibility.v
RouteCensus.v
RouteCensusInv.v
RouteCensusWarm.v
RouteCensusFile.v
RouteCensusTheorems.v
GatherStorage.v
GatherStorageTheorems.v
Binary64.v
HybridDispatch.v
HybridDispatchTheorems.v
PlacementProfile.v
SpeculativeSampling.v
SpeculativeSamplingTheorems.v
AdaptivePlacement.v
AdaptivePlacementTheorems.v
WorkerContract.v
WorkerContractTheorems.v
ExpertCatalog.v
ExpertCatalogTheorems.v
ModelDescriptor.v
ModelDescriptorTheorems.v
ModelProgram.v
ModelProgramTheorems.v
ProviderRegistry.v
ProviderRegistryTheorems.v
Handles.v
ActiveExpert.v
ActiveExpertTheorems.v
ActiveExpertWire.v
ActiveExpertWireTheorems.v
ExpertStore.v
ExpertStoreTheorems.v
MoeVm.v
MoeVmTheorems.v
DescriptorText.v
DescriptorTextTheorems.v
ModelArtifact.v
ModelArtifactTheorems.v
TensorStore.v
TensorStoreTheorems.v
ResidentExperts.v
ProgramExecutor.v
ProgramExecutorLogic.v
ProgramExecutorSession.v
ProgramExecutorTheorems.v
