(* ===== verification/Prelude.v ===== *)
(** * Verification of the expert runtime

    The repository runs mixture-of-experts language models whose experts do not fit in
    the memory of the device. Its runtime keeps experts on disk, caches them in two tiers
    (host memory and device memory), batches the work of routed tokens over the experts
    that are resident, and records which experts are routed to. Its core library
    decides beforehand whether a model can run on a machine. This library models that
    logic from the C++ sources and proves what makes it correct.

    ** The parts and how they interact

    A client of [expert_cache.cpp] asks for experts by key. The cache reads missing ones
    through storage into a slot of the staging pool ([buffer_pool.cpp]), checks the bytes
    with the record validator ([expert_record.cpp], which hashes them with [sha256.cpp]),
    publishes them as host copies, uploads them to the device, and settles the promise of
    every waiter; it evicts other entries to make room. The state of an entry follows
    the table of [cache_state.cpp]. The scheduler ([scheduler.cpp]) groups the work of
    tokens by expert and hands out only work whose expert is resident. The governor
    ([resource_governor.cpp]) divides a memory budget among tiers such as the cache. The
    census ([route_census.cpp]) counts routes and tells the cache, at start, which
    experts to warm. A payload in several extents is read through [gather_storage.cpp],
    which splits one read into several on the storage below it. For each routed layer
    [hybrid_dispatch.cpp] divides the experts between processor and device, with costs
    and budgets that [placement_profile.cpp] derives from measurements; sampled tokens
    are proposed and corrected by [speculative_sampling.cpp], and [adaptive_placement.cpp]
    promotes the experts that the processor executes too often. The planner
    ([feasibility.cpp]) and the canonical JSON reader and printer ([json.cpp]) belong to
    the core library and run before any of this.

    A model comes as an artifact. [model_artifact.cpp] reads its manifest and its packs,
    [model_descriptor.cpp] the text of its descriptor, which it validates and compiles to a
    program of numeric indices; [expert_catalog.cpp] reads the index of the experts of a
    component and [model_tensor_store.cpp] serves the dense tensors. The registries of
    [execution_provider.cpp] choose who runs each kernel and which worker
    ([worker_provider.cpp]) runs the model; a worker is started with the options of
    [worker_contract.cpp]. [program_executor.cpp] prepares the operations of the program
    with their providers and runs it in sessions, one step at a time, operation by
    operation, as a whole, or as an exact decoding. For a routed layer a provider goes
    through [moe_virtual_machine.cpp] and [routed_expert_runtime.cpp], which turn a route
    into a union of requests for expert pages, to a store of [expert_store.cpp]. That store
    asks the cache, or names a remote owner, at which [active_expert_executor.cpp] executes
    the expert through frames that it sends and checks. [resident_expert_set.cpp] holds the
    leases of experts that are always active.

    ** The files, and what each models

    Sources are below [src/runtime/src], [src/runtime/include/expert/runtime] and
    [src/core].

    - [Prelude]: the state and error monad [ST] with its rules [wp] and [wpe], outcomes and
      exceptions, 64-bit integers with their wrap-around, list and map lemmas, the tactics.
    - [Storage]: [storage.hpp], [expert_key.hpp]. Statuses, payload records, keys.
    - [CacheState]: [cache_state.cpp]. [CacheState], [valid_cache_transition].
    - [BufferPool]: [buffer_pool.cpp]. The class [HostAllocator] is [IHostAllocator];
      [MonotonicHostAllocator] is an instance of it, and the pool is proved against the
      interface. A lease is a value; destroying it is [release_lease].
    - [ResourceGovernor]: [resource_governor.cpp]. The class [TierWorld] is
      [ITrimmableMemoryTier] over a world of shared tiers.
    - [Scheduler]: [scheduler.cpp]. The queues and the item table; [std::sort] is a
      parameter with its law.
    - [Sha256]: both implementations, and FIPS 180-4 written independently.
    - [ExpertRecord]: [expert_record.cpp]. The validator as a chain of checks over bytes.
    - [Telemetry], [Doubles]: the counters and the floating-point values the cache uses.
    - [ExpertCache]: [expert_cache.cpp]. Record [Core] is the state under the mutex
      ([ExpertCacheCore]), [Entry] is [Entry], one definition per critical section.
      [ExpertCacheInv] states the invariant; [ExpertCacheSteps], [ExpertCachePrims],
      [ExpertCacheEvict], [ExpertCacheOps], [ExpertCacheDrive] and [ExpertCachePublish]
      prove that each operation keeps it; [ExpertCacheSystem] lets clients, the I/O
      driver, the host worker and the uploader interleave these sections in any order;
      [ExpertCacheTheorems] draws the conclusions.
    - [Text]: byte strings, [std::to_string] and [std::from_chars] on integers.
    - [Json]: [core/src/json.cpp]. The parser is a state transformer over the bytes that
      are left and the position; [JsonTheorems] and [JsonRoundTrip] verify it.
    - [Feasibility]: [core/src/feasibility.cpp].
    - [RouteCensus]: [route_census.cpp], with its file format; [RouteCensusInv],
      [RouteCensusWarm], [RouteCensusFile] and [RouteCensusTheorems] verify it.
    - [GatherStorage]: [gather_storage.cpp]. [Pending] is [Impl::Pending]; the sections
      that [read], the completions and [cancel] run under a lock are tasks that any
      thread may run next. [GatherStorageTheorems] verifies it.
    - [Binary64]: IEEE doubles, with the operations of the Standard Library's [SpecFloat]
      and exact comparison.
    - [HybridDispatch]: [hybrid_dispatch.cpp]; [HybridDispatchTheorems] verifies it.
    - [PlacementProfile]: [placement_profile.cpp], composed with the planner and the
      governor it configures.
    - [SpeculativeSampling]: [speculative_sampling.cpp]; [SpeculativeSamplingTheorems]
      verifies it.
    - [AdaptivePlacement]: [adaptive_placement.cpp], over the class [PlacementCache], the
      cache and the clock that it asks; [AdaptivePlacementTheorems] verifies it.
    - [WorkerContract], [ExpertCatalog]: [worker_contract.cpp], [expert_catalog.cpp], each
      with its Theorems file.
    - [ModelDescriptor]: validation in [model_descriptor.cpp]; [ModelProgram]: its
      [compile_model_program]; [DescriptorText]: its reader of lines. The Theorems file of
      each verifies it; the printer of the format is in [DescriptorTextTheorems].
    - [ProviderRegistry]: [execution_provider.cpp] and [worker_provider.cpp].
    - [Handles]: handles with two callbacks that [active_expert_executor.cpp] and
      [expert_store.cpp] declare alike, and the rules by which a handle keeps a promise.
    - [ActiveExpert], [ActiveExpertWire]: [active_expert_executor.cpp], its frames, and the
      endpoint and the executor that exchange them. The class [ActiveExpertExecutor] stands
      for executors, [ActiveExpertTransport] for the transport.
    - [ExpertStore]: [expert_store.cpp], over the class [CacheClient]; [MoeVm]:
      [routed_expert_runtime.cpp] and [moe_virtual_machine.cpp], over the stores.
    - [ModelArtifact], [TensorStore]: [model_artifact.cpp], [model_tensor_store.cpp]. The
      file system is a snapshot, [Files]; mapping a file is a parameter.
    - [ResidentExperts]: [resident_expert_set.cpp] with its theorems.
    - [ProgramExecutor]: [program_executor.cpp], over the class [Providers], which is
      [IOperationProvider] with the objects it hands out. [ProgramExecutorLogic] holds the
      rules for code whose exceptions keep the state ([ewp]) and the promises of providers;
      [ProgramExecutorSession] the invariant of a session, [objects_ok], and that each
      operation keeps it; [ProgramExecutorTheorems] lets a client make any calls in any
      order and draws the conclusions.

    Operations correspond to methods by name; where a name would clash, a prefix or
    suffix says which. Effects are explicit: a method
    that changes its object returns the new state, and exceptions are values of
    [outcome]. Objects reached through references (memory tiers, the residency
    directory, files) live in a state that the calls thread through.

    ** What the theorems show

    - The cache: in every reachable state of every interleaving, each operation returns
      and throws nothing unexpected; byte and count totals are exact sums over the
      entries; every promise is settled exactly once or waits in one place; an expert in
      use is never evicted; bytes are validated before they are published; eviction takes
      the coldest eligible entry; capacity loops end and make the room they report;
      shutdown leaves nobody waiting.
    - Memory: leases are exclusive, banks are disjoint, background requests never take
      the demand reserve, reservations stay within the budget.
    - The scheduler: the item table is exactly the queued work, no work is handed out
      twice, a batch is a most urgent part of the eligible work.
    - Hashing and records: the streaming digest is FIPS 180-4 however the input is cut;
      an accepted record has disjoint sections, sane scales and the right digest.
    - JSON: parsing ends on every text, the canonical form reads back and identifies the
      value, escapes produce strict UTF-8.
    - The planner: the decision is impossible exactly when some demand does not fit in
      exact arithmetic; the printed decision is canonical JSON that reads back.
    - The census: every total is exact along every run, its file reads back, and a save
      stopped anywhere leaves a whole generation to load.
    - Gathered reads: exactly the tilings of the destination are accepted, and under every
      interleaving each request is answered once, after its last child, in bounded work.
    - Dispatch: every expert is placed once where it may run, by the shorter exact
      critical path; profiles ask for no more than fits their envelopes.
    - Sampling: a correction is a token the target favours, whatever was rounded, and
      random draws do not repeat along a counter.
    - Placement: promotions in flight are distinct, bounded and exactly the marked
      candidates; every queued candidate has its entry; draining and quiescing end.
    - Artifacts: what is loaded is complete, consistent and inside its root and packs; a
      refused load changes nothing; catalogs, tensor stores and resident sets likewise are
      loaded whole or not at all. Tensors come from packs of the announced digest.
    - Descriptors: validation accepts exactly the well-formed ones, single static
      assignment included; the compiled program denotes the model; a printed descriptor is
      read back, and a loaded one carries the identity of its hash.
    - Registries: the best offer is chosen whatever the order of registration.
    - Execution of programs: an executor carries out its plan; whatever a client does, a
      step of the interpreter that publishes success publishes a solution of the equations
      of the model; one step runs at a time; every call returns, whatever providers do;
      decodings stay within their bounds.
    - Pages and owners: a route becomes requests for exactly its pages; a store answers
      a union with all or nothing, each expert where it was asked for.
    - Remote execution: frames read back, a decoder accepts only what its encoder writes,
      the executor behind a transport keeps the promise of the executor at the owner, and
      the telemetry counts every request once.

    Some lemmas describe behaviour the code does not intend, and carry the runs that show
    it: the gauges of leased entries wrap below zero
    ([ExpertCacheTheorems.referenced_gauges_wrap]), a reservation of device memory
    outlives its request ([ExpertCacheTheorems.vram_reservation_outlives_request]), a
    token of probability zero can be drawn
    ([SpeculativeSamplingTheorems.draw_of_probability_zero]), texts in frames keep line
    breaks that were to be refused ([ActiveExpertTheorems.text_keeps_line_breaks]), a peer
    can overflow a deadline ([ActiveExpertTheorems.owner_clock_overflow]), a failed member
    of a union leaves its preloads going
    ([ExpertStoreTheorems.failed_member_leaves_preload]), and the operations outside the
    layers of a valid model hide from their binary search
    ([MoeVmTheorems.model_operations_misplaced]).

    ** Fuel and bounds

    Loops whose length is not structural take fuel, and the theorems show that it is
    never exhausted: [evict_loop] has one unit more than there are entries, the capacity
    loops one more than twice as many, since every round drops a host or a device copy;
    [ParseValue] has one unit per level of nesting and each loop over items one per round, both
    more than the bytes that are left; decimal printing has 20 digits, enough for 64
    bits; the padding of SHA-256 has 64 rounds. The tasks of gathered reads carry a
    measure, [work], that every section lowers. Draining the placement takes at most
    [drain_rounds] rounds: what is queued, in flight or a candidate, and one for each
    nanosecond of the last millisecond, in which it polls; [device_loop] takes one unit per
    byte of its text and [partition_point] one per element; [poll_loop] takes [poll_fuel],
    two more than the operations of the program. Integers are [Z] at the width of the
    code: sums wrap or saturate where the code's do, and a theorem that needs a counter
    not to have been exhausted says so.

    ** What is assumed

    Interfaces to code outside of the modelled files are classes, over a world that their
    operations change: allocators, tiers, the backing storage, the cache below the
    placement and the stores, executors, transports, providers of operations. Where a
    theorem relies on what such code does, the assumption is a named hypothesis:
    [ProviderSpec] says that a run of a prepared operation, when it succeeds, has computed
    that operation; [CivilProviders] that what providers throw can be caught; [quiet] that
    they do not throw where the code promises so; [ExecutorSpec] and [TransportSpec] that
    an executor keeps its promise and a transport delivers what was sent. Each is met by a
    small instance, on which the theorem is applied. Readings of the steady clock lie in
    [0, 2^62) nanoseconds where durations are added to them. The operations of a session of
    [program_executor.cpp] run one after another; what other threads do while an operation
    has left the lock of the session and calls a provider is not modelled.

    ** Not modelled

    - Kernels and device code ([src/runtime/src/cpu], [src/runtime/src/cuda]):
      floating-point numerics on hardware. The uploader and the residency directory there
      ([expert_uploader.cu], [expert_directory.cu]) run on the device as well; the cache
      sees them through interfaces, which are parameters of its model. The providers,
      runners and smoke tests under [src/runtime/tools], the compiler, scripts and vendored
      code: numerics, front ends and glue around the modelled library.
    - Operating system bindings ([windows_iocp_storage.cpp], virtual memory and mapped
      files, the cryptographic provider of Windows): they are parameters, where the model
      needs them.
    - The counters of [telemetry.cpp] that add up durations, and its log output; the stack
      of the machine, which bounds the nesting of JSON the program survives; a loss of
      power that reorders writes the program has flushed.
    - Threads below the level of critical sections: a mutex is taken to make its
      sections atomic.
*)

From stdpp Require Export prelude gmap sorting strings.
From Stdlib Require Export ZArith Lia.

#[export] Set Default Goal Selector "!".

(** ** Record update

    [Eta R] is the eta expansion of a record constructor; [Update proj] derives
    from it the function that replaces one field, so that a model with a
    twenty-field state writes one update per assignment of the source. *)

Class Eta (R : Type) := eta : R -> R.
Class Update {R T : Type} (proj : R -> T) := update : (T -> T) -> R -> R.

Ltac derive_update proj :=
  lazymatch type of proj with
  | ?R -> ?T =>
    let e := constr:(_ : Eta R) in
    let e := eval hnf in e in
    lazymatch eval pattern proj in e with
    | ?f _ =>
      let u := constr:(fun (g : T -> T) (r : R) => f (fun r' => g (proj r')) r) in
      let u := eval cbv beta in u in
      exact u
    end
  end.

#[export] Hint Extern 1 (@Update _ _ ?proj) => derive_update proj : typeclass_instances.

Declare Scope upd_scope.
Notation "r '<|' proj ':=' v '|>'" := (update (proj:=proj) (fun _ => v) r)
  (at level 1, left associativity, proj at level 9, v at level 99,
   format "r  '<|'  proj  ':='  v  '|>'") : upd_scope.
Notation "r '<|' proj '%=' f '|>'" := (update (proj:=proj) f r)
  (at level 1, left associativity, proj at level 9, f at level 99,
   format "r  '<|'  proj  '%='  f  '|>'") : upd_scope.
#[global] Open Scope upd_scope.

(** ** Machine integers

    An unsigned integer of the source is the [Z] of its value; every operation
    that can leave the range writes the reduction of C++ unsigned arithmetic.
    [std::size_t] is 64 bits wide on the supported targets. *)

#[global] Open Scope Z_scope.

Definition U32_MAX : Z := 2 ^ 32 - 1.
Definition U64_MAX : Z := 2 ^ 64 - 1.

Definition wrap32 (z : Z) : Z := z mod 2 ^ 32.
Definition wrap64 (z : Z) : Z := z mod 2 ^ 64.

Definition add32 (a b : Z) : Z := wrap32 (a + b).
Definition add64 (a b : Z) : Z := wrap64 (a + b).
Definition sub64 (a b : Z) : Z := wrap64 (a - b).
Definition mul64 (a b : Z) : Z := wrap64 (a * b).
Definition inc64 (a : Z) : Z := add64 a 1.
Definition dec64 (a : Z) : Z := sub64 a 1.

Definition u32 (z : Z) : Prop := 0 <= z <= U32_MAX.
Definition u64 (z : Z) : Prop := 0 <= z <= U64_MAX.

(** [left + right], or the largest 64-bit value when the sum does not fit. *)
Definition saturating_add (left right : Z) : Z :=
  if right >? U64_MAX - left then U64_MAX else left + right.

(** ** Outcomes of code that can throw *)

(** What the code throws, and two outcomes that are not exceptions: an operation
    whose behaviour the language leaves undefined, and a loop of the model that used
    up its fuel. Theorems show the last never happens. *)
Inductive exn : Type :=
| invalid_argument (what : string)
| logic_error (what : string)
| runtime_error (what : string)
| out_of_range
| bad_alloc
| undefined_behavior (what : string)
| out_of_fuel.

Inductive outcome (A : Type) : Type :=
| Ok (a : A)
| Throw (e : exn).
Arguments Ok {A} a.
Arguments Throw {A} e.

Definition obind {A B : Type} (m : outcome A) (k : A -> outcome B) : outcome B :=
  match m with Ok a => k a | Throw e => Throw e end.

Declare Scope outcome_scope.
Notation "'let!' p ':=' m 'in' k" := (obind m (fun p => k))
  (at level 10, p pattern, m at level 100, k at level 200) : outcome_scope.
#[global] Open Scope outcome_scope.

(** ** Stateful code that can throw

    [ST S A] runs on a state and either returns a value with the new state or
    throws. [wp m Q s]: from [s], [m] returns normally and [Q] holds of the value
    and the state it leaves. *)

Definition ST (S A : Type) : Type := S -> outcome (A * S).

Section StateMonad.
Context {S : Type}.

Definition ret {A} (a : A) : ST S A := fun s => Ok (a, s).
Definition bind {A B} (m : ST S A) (k : A -> ST S B) : ST S B :=
  fun s => match m s with Ok (a, s) => k a s | Throw e => Throw e end.
Definition throw {A} (e : exn) : ST S A := fun _ => Throw e.
Definition get : ST S S := fun s => Ok (s, s).
Definition modify (f : S -> S) : ST S unit := fun s => Ok (tt, f s).
Definition when (b : bool) (m : ST S unit) : ST S unit := if b then m else ret tt.

(** A loop over a list, in order. *)
Fixpoint for_each {A} (l : list A) (f : A -> ST S unit) : ST S unit :=
  match l with
  | [] => ret tt
  | a :: l => bind (f a) (fun _ => for_each l f)
  end.

Definition wp {A} (m : ST S A) (Q : A -> S -> Prop) (s : S) : Prop :=
  match m s with Ok (a, s) => Q a s | Throw _ => False end.

Lemma wp_ret {A} (a : A) Q s : Q a s -> wp (ret a) Q s.
Proof. done. Qed.

Lemma wp_bind {A B} (m : ST S A) (k : A -> ST S B) Q s :
  wp m (fun a => wp (k a) Q) s -> wp (bind m k) Q s.
Proof. unfold wp, bind. destruct (m s) as [[a s']|e]; done. Qed.

Lemma wp_get Q s : Q s s -> wp get Q s.
Proof. done. Qed.

Lemma wp_modify f Q s : Q tt (f s) -> wp (modify f) Q s.
Proof. done. Qed.

Lemma wp_mono {A} (m : ST S A) (P Q : A -> S -> Prop) s :
  wp m P s -> (forall a s', P a s' -> Q a s') -> wp m Q s.
Proof. unfold wp. destruct (m s) as [[a s']|e]; auto. Qed.

Lemma wp_when b (m : ST S unit) Q s :
  (b = true -> wp m Q s) -> (b = false -> Q tt s) -> wp (when b m) Q s.
Proof. destruct b; unfold when; auto using wp_ret. Qed.

(** [wpe m Q E s]: from [s], [m] either returns normally with [Q], or throws an
    exception of which [E] holds. *)
Definition wpe {A} (m : ST S A) (Q : A -> S -> Prop) (E : exn -> Prop) (s : S) : Prop :=
  match m s with Ok (a, s) => Q a s | Throw e => E e end.

Lemma wpe_ret {A} (a : A) Q E s : Q a s -> wpe (ret a) Q E s.
Proof. done. Qed.

Lemma wpe_throw {A} e (Q : A -> S -> Prop) (E : exn -> Prop) s : E e -> wpe (throw e) Q E s.
Proof. done. Qed.

Lemma wpe_bind {A B} (m : ST S A) (k : A -> ST S B) Q E s :
  wpe m (fun a => wpe (k a) Q E) E s -> wpe (bind m k) Q E s.
Proof. unfold wpe, bind. destruct (m s) as [[a s']|e]; done. Qed.

Lemma wpe_mono {A} (m : ST S A) (P Q : A -> S -> Prop) E s :
  wpe m P E s -> (forall a s', P a s' -> Q a s') -> wpe m Q E s.
Proof. unfold wpe. destruct (m s) as [[a s']|e]; auto. Qed.

Lemma bind_ok {A B} (m : ST S A) (k : A -> ST S B) s a s' :
  m s = Ok (a, s') -> bind m k s = k a s'.
Proof. unfold bind. by intros ->. Qed.

(** A loop keeps what its body keeps. *)
Lemma wp_for_each {A} (l : list A) (f : A -> ST S unit) (I : S -> Prop) s :
  (forall a s, a ∈ l -> I s -> wp (f a) (fun _ => I) s) -> I s ->
  wp (for_each l f) (fun _ => I) s.
Proof.
  revert s. induction l as [|a l IH]; intros s Hf Hs; simpl; [by apply wp_ret|].
  apply wp_bind. eapply wp_mono; [apply Hf; [constructor|done]|]. intros [] s' Hs'.
  apply IH; [|done]. intros b t Hb. apply Hf. by constructor.
Qed.
End StateMonad.

Notation "'let*' p ':=' m 'in' k" := (bind m (fun p => k))
  (at level 10, p pattern, m at level 100, k at level 200) : outcome_scope.
Notation "m ';*' k" := (bind m (fun _ => k))
  (at level 100, k at level 200, right associativity) : outcome_scope.

(** ** Arithmetic lemmas and automation *)

Create HintDb word.

Lemma wrap64_small z : u64 z -> wrap64 z = z.
Proof. unfold u64, U64_MAX, wrap64. intros. apply Z.mod_small. lia. Qed.

Lemma wrap32_small z : u32 z -> wrap32 z = z.
Proof. unfold u32, U32_MAX, wrap32. intros. apply Z.mod_small. lia. Qed.

Lemma wrap64_u64 z : u64 (wrap64 z).
Proof.
  unfold u64, U64_MAX, wrap64. pose proof (Z.mod_pos_bound z (2 ^ 64) eq_refl). lia.
Qed.

Lemma wrap32_u32 z : u32 (wrap32 z).
Proof.
  unfold u32, U32_MAX, wrap32. pose proof (Z.mod_pos_bound z (2 ^ 32) eq_refl). lia.
Qed.

(** Only the last reduction of a chain of wrapping operations counts. *)
Lemma wrap64_sub_l a b : wrap64 (wrap64 a - b) = wrap64 (a - b).
Proof. unfold wrap64. apply Zminus_mod_idemp_l. Qed.

Lemma wrap64_add_l a b : wrap64 (wrap64 a + b) = wrap64 (a + b).
Proof. unfold wrap64. apply Zplus_mod_idemp_l. Qed.

Lemma wrap64_add_r a b : wrap64 (a + wrap64 b) = wrap64 (a + b).
Proof. unfold wrap64. apply Zplus_mod_idemp_r. Qed.

Lemma saturating_add_min l r : saturating_add l r = Z.min U64_MAX (l + r).
Proof. unfold saturating_add. destruct (Z.gtb_spec r (U64_MAX - l)); lia. Qed.

Lemma saturating_add_u64 l r : u64 l -> u64 r -> u64 (saturating_add l r).
Proof. rewrite saturating_add_min. unfold u64. lia. Qed.

Lemma map_size_mono {K A B} `{Countable K} (m : gmap K A) (m' : gmap K B) :
  (forall k, is_Some (m !! k) -> is_Some (m' !! k)) -> (size m <= size m')%nat.
Proof.
  intros Hs. rewrite <- !size_dom. apply subseteq_size. intros k.
  rewrite !elem_of_dom. apply Hs.
Qed.

Lemma map_size_alter {K A} `{Countable K} (f : A -> A) k (m : gmap K A) :
  size (alter f k m) = size m.
Proof. by rewrite <- !size_dom, dom_alter_L. Qed.

(** Erasing a list of keys from a map, one after the other. *)
Definition erase_keys {K V} `{Countable K} (ks : list K) (m : gmap K V) : gmap K V :=
  foldl (fun m k => delete k m) m ks.

Lemma lookup_erase_keys {K V} `{Countable K} (ks : list K) (m : gmap K V) k :
  erase_keys ks m !! k = if decide (k ∈ ks) then None else m !! k.
Proof.
  revert m. induction ks as [|j ks IH]; intros m; simpl; [done|].
  unfold erase_keys in *. rewrite IH. destruct (decide (k = j)) as [->|Hne].
  - rewrite lookup_delete_eq. repeat case_decide; set_solver.
  - rewrite lookup_delete_ne by done. repeat case_decide; set_solver.
Qed.

#[export] Hint Resolve wrap64_u64 wrap32_u32 saturating_add_u64 : word.

(** An appended list, cut at a distance from its end. *)
Lemma take_app_sub {A} (l k : list A) n : length k = n -> take (length (l ++ k) - n) (l ++ k) = l.
Proof. intros <-. rewrite length_app. replace (_ + _ - _)%nat with (length l) by lia. apply take_app_length. Qed.

Lemma drop_app_sub {A} (l k : list A) n : length k = n -> drop (length (l ++ k) - n) (l ++ k) = k.
Proof. intros <-. rewrite length_app. replace (_ + _ - _)%nat with (length l) by lia. apply drop_app_length. Qed.

(** An OR of bits that do not overlap is a sum. *)
Lemma lor_disjoint a b n : 0 <= n -> 0 <= b < 2 ^ n -> Z.lor (Z.shiftl a n) b = Z.shiftl a n + b.
Proof.
  intros Hn Hb. rewrite <- Z.add_lor_land.
  replace (Z.land (Z.shiftl a n) b) with 0; [lia|]. symmetry. apply Z.bits_inj'. intros i Hi.
  rewrite Z.land_spec, Z.bits_0. destruct (Z.lt_ge_cases i n) as [Hlt|Hge].
  - by rewrite Z.shiftl_spec_low.
  - destruct (decide (b = 0)) as [->|]; [by rewrite Z.bits_0, andb_false_r|].
    rewrite (Z.bits_above_log2 b i), andb_false_r; [done|lia|]. apply Z.log2_lt_pow2; [lia|].
    eapply Z.lt_le_trans; [apply Hb|]. apply Z.pow_le_mono_r; lia.
Qed.

(** Turns the boolean comparisons of the code in the context into facts about
    [Z], one case per comparison of the goal. *)
Ltac zbool :=
  repeat match goal with
  | H : (_ && _) = true |- _ => apply andb_true_iff in H; destruct H
  | H : (_ || _) = false |- _ => apply orb_false_iff in H; destruct H
  | H : negb _ = true |- _ => apply negb_true_iff in H
  | H : negb _ = false |- _ => apply negb_false_iff in H
  | H : (_ =? _) = true |- _ => apply Z.eqb_eq in H
  | H : (_ =? _) = false |- _ => apply Z.eqb_neq in H
  | H : (_ <? _) = true |- _ => apply Z.ltb_lt in H
  | H : (_ <? _) = false |- _ => apply Z.ltb_ge in H
  | H : (_ <=? _) = true |- _ => apply Z.leb_le in H
  | H : (_ <=? _) = false |- _ => apply Z.leb_gt in H
  | H : (_ >? _) = true |- _ => apply Z.gtb_gt in H
  | H : (_ >? _) = false |- _ => rewrite Z.gtb_ltb in H; apply Z.ltb_ge in H
  | H : (_ >=? _) = true |- _ => rewrite Z.geb_leb in H; apply Z.leb_le in H
  | H : (_ >=? _) = false |- _ => rewrite Z.geb_leb in H; apply Z.leb_gt in H
  end.

(** Unfolds the word operations whose operands are known to be in range. *)
Ltac word_small :=
  unfold inc64, dec64, add64, sub64, mul64, add32 in *;
  repeat match goal with
  | |- context [wrap64 ?z] => rewrite (wrap64_small z) by (unfold u64, U64_MAX in *; lia)
  | |- context [wrap32 ?z] => rewrite (wrap32_small z) by (unfold u32, U32_MAX in *; lia)
  end.

(** ** Lists *)

Lemma list_alter_insert {A} (f : A -> A) (l : list A) i x :
  l !! i = Some x -> alter f i l = <[i := f x]> l.
Proof.
  intros Hx. apply list_eq. intros j. destruct (decide (i = j)) as [<-|Hne].
  - rewrite list_lookup_alter_eq, Hx, list_lookup_insert_eq; [done|].
    by apply lookup_lt_Some in Hx.
  - by rewrite list_lookup_alter_ne, list_lookup_insert_ne.
Qed.

(** ** Sorting

    [stable_sort ltb] is the result the standard prescribes for
    [std::stable_sort] with comparator [ltb]. The standard leaves the order of
    equivalent elements open for [std::sort], so a definition that calls it takes
    the sort as an instance of [StdSort] and its theorems hold for every lawful
    one ([StdSortSpec]); where no two elements are equivalent the two agree. *)

Section Sorting.
Context {A : Type} (ltb : A -> A -> bool).

Fixpoint insert_sorted (x : A) (l : list A) : list A :=
  match l with
  | [] => [x]
  | y :: l' => if ltb x y then x :: l else y :: insert_sorted x l'
  end.

Definition stable_sort (l : list A) : list A :=
  foldl (fun acc x => insert_sorted x acc) [] l.
End Sorting.

(** The C++ "strict weak ordering" requirement on comparators. *)
Class StrictWeakOrder {A} (ltb : A -> A -> bool) : Prop := {
  swo_asym x y : ltb x y = true -> ltb y x = false;
  swo_trans x y z : ltb y x = false -> ltb z y = false -> ltb z x = false }.

Section SortingFacts.
Context {A : Type} (ltb : A -> A -> bool) `{!StrictWeakOrder ltb}.

Abbreviation le x y := (ltb y x = false).

Lemma insert_sorted_perm x l : insert_sorted ltb x l ≡ₚ x :: l.
Proof.
  induction l as [|y l IH]; simpl; [done|]. case_match; [done|].
  rewrite IH. apply Permutation_swap.
Qed.

Lemma foldl_insert_perm l acc :
  foldl (fun acc x => insert_sorted ltb x acc) acc l ≡ₚ acc ++ l.
Proof.
  revert acc. induction l as [|x l IH]; intros acc; simpl; [by rewrite app_nil_r|].
  rewrite IH, insert_sorted_perm. simpl. by rewrite <- Permutation_middle.
Qed.

Lemma stable_sort_perm l : stable_sort ltb l ≡ₚ l.
Proof. unfold stable_sort. by rewrite foldl_insert_perm. Qed.

Lemma insert_sorted_sorted x l :
  StronglySorted (fun x y => le x y) l -> StronglySorted (fun x y => le x y) (insert_sorted ltb x l).
Proof.
  induction 1 as [|y l Hl IH Hy]; simpl; [repeat constructor|].
  destruct (ltb x y) eqn:E.
  - constructor; [by constructor|]. constructor; [by apply swo_asym|].
    eapply Forall_impl; [exact Hy|]. intros z Hz. simpl in *.
    eapply swo_trans; [by apply swo_asym|done].
  - constructor; [done|]. rewrite insert_sorted_perm. by constructor.
Qed.

Lemma stable_sort_sorted l : StronglySorted (fun x y => le x y) (stable_sort ltb l).
Proof.
  unfold stable_sort. assert (StronglySorted (fun x y => le x y) (@nil A)) as H by constructor.
  revert H. generalize (@nil A). induction l as [|x l IH]; intros acc Hacc; simpl; [done|].
  apply IH. by apply insert_sorted_sorted.
Qed.
End SortingFacts.

(** [std::sort]: some permutation that the comparator orders. *)
Class StdSort := std_sort : forall {A : Type}, (A -> A -> bool) -> list A -> list A.

Class StdSortSpec (S : StdSort) : Prop := {
  std_sort_perm {A} (ltb : A -> A -> bool) l : std_sort ltb l ≡ₚ l;
  std_sort_sorted {A} (ltb : A -> A -> bool) l :
    StrictWeakOrder ltb -> StronglySorted (fun x y => ltb y x = false) (std_sort ltb l) }.

Definition stable_std_sort : StdSort := fun A ltb l => stable_sort ltb l.

Lemma stable_std_sort_spec : StdSortSpec stable_std_sort.
Proof. split; intros; [apply stable_sort_perm|by apply stable_sort_sorted]. Qed.

(** ** Ordered maps

    A [std::map] is a [gmap]; iteration visits its entries in key order. *)
Section Ordered.
Context {K V : Type} `{Countable K} (ltb : K -> K -> bool).

Definition ordered (m : gmap K V) : list (K * V) :=
  stable_sort (fun a b => ltb a.1 b.1) (map_to_list m).

Lemma ordered_perm m : ordered m ≡ₚ map_to_list m.
Proof. apply stable_sort_perm. Qed.

Lemma elem_of_ordered m k v : (k, v) ∈ ordered m <-> m !! k = Some v.
Proof. by rewrite ordered_perm, elem_of_map_to_list. Qed.

Lemma ordered_keys_NoDup m : NoDup (ordered m).*1.
Proof. rewrite ordered_perm. apply NoDup_fst_map_to_list. Qed.

Lemma ordered_length m : length (ordered m) = size m.
Proof. rewrite ordered_perm. apply length_map_to_list. Qed.
End Ordered.

(** ** Sorted integers *)

#[export] Instance Zltb_order : StrictWeakOrder Z.ltb.
Proof. split; intros *; rewrite ?Z.ltb_lt, ?Z.ltb_ge; lia. Qed.

Lemma sorted_le l : StronglySorted (fun a b => (b <? a) = false) l -> StronglySorted Z.le l.
Proof.
  induction 1 as [|a l _ IH Ha]; constructor; [done|]. eapply Forall_impl; [exact Ha|].
  simpl. intros b. apply Z.ltb_ge.
Qed.

(** Integers sort in one way only. *)
Lemma sort_unique l k : StronglySorted Z.le k -> l ≡ₚ k -> stable_sort Z.ltb l = k.
Proof.
  intros Hk Hl. apply (StronglySorted_unique Z.le); [|done|by rewrite stable_sort_perm].
  apply sorted_le, (stable_sort_sorted Z.ltb).
Qed.

Lemma sorted_lt_le l : StronglySorted Z.lt l -> StronglySorted Z.le l.
Proof. induction 1 as [|a l _ IH Ha]; constructor; [done|]. eapply Forall_impl; [exact Ha|]. simpl. lia. Qed.

Lemma sort_sorted l : StronglySorted Z.lt l -> stable_sort Z.ltb l = l.
Proof. intros Hl. by apply sort_unique; [apply sorted_lt_le|]. Qed.

Lemma seqZ_sorted m n : StronglySorted Z.le (seqZ m n).
Proof.
  destruct (Z.le_gt_cases 0 n); [|rewrite seqZ_nil by lia; constructor]. rewrite <- (Z2Nat.id n) by done.
  generalize (Z.to_nat n). intros k. revert m. induction k as [|k IH]; intros m; [constructor|].
  rewrite seqZ_cons by lia. replace (Z.pred (Z.of_nat (S k))) with (Z.of_nat k) by lia.
  constructor; [apply IH|]. apply Forall_forall. intros x Hx%elem_of_seqZ. lia.
Qed.

(** [std::adjacent_find] finds something. *)
Fixpoint has_adjacent (l : list Z) : bool :=
  match l with
  | a :: ((b :: _) as l) => (a =? b) || has_adjacent l
  | _ => false
  end.

Lemma has_adjacent_sorted l :
  StronglySorted (fun a b => (b <? a) = false) l -> has_adjacent l = false -> StronglySorted Z.lt l.
Proof.
  induction 1 as [|a l Hl IH Ha]; intros Hadj; [constructor|].
  destruct l as [|b l]; [repeat constructor|]. simpl in Hadj. apply orb_false_iff in Hadj as [Hne Hadj].
  specialize (IH Hadj). constructor; [done|]. apply Forall_cons in Ha as [Hab _].
  apply Z.eqb_neq in Hne. apply Z.ltb_ge in Hab. inversion IH as [|? ? _ Hb]; subst.
  constructor; [lia|]. eapply Forall_impl; [exact Hb|]. simpl. intros. lia.
Qed.

Lemma sorted_lt_NoDup l : StronglySorted Z.lt l -> NoDup l.
Proof.
  induction 1 as [|a l _ IH Ha]; constructor; [|done].
  intros Hin. pose proof (proj1 (Forall_forall _ _) Ha a Hin). lia.
Qed.

Lemma has_adjacent_NoDup l :
  StronglySorted (fun a b => (b <? a) = false) l -> has_adjacent l = false -> NoDup l.
Proof. intros. by apply sorted_lt_NoDup, has_adjacent_sorted. Qed.

Lemma sorted_lt_no_adjacent l : StronglySorted Z.lt l -> has_adjacent l = false.
Proof.
  induction 1 as [|a l _ IH Ha]; [done|]. destruct l as [|b l]; [done|].
  apply Forall_cons in Ha as [Hab _]. simpl. apply orb_false_iff. split; [by apply Z.eqb_neq; lia|done].
Qed.

(** ** Sums *)

Definition sumZ (l : list Z) : Z := foldr Z.add 0 l.

Lemma sumZ_app l k : sumZ (l ++ k) = sumZ l + sumZ k.
Proof. induction l; simpl; lia. Qed.

Lemma sumZ_nonneg l : Forall (fun z => 0 <= z) l -> 0 <= sumZ l.
Proof. induction 1; simpl; lia. Qed.

#[export] Instance sumZ_perm : Proper ((≡ₚ) ==> (=)) sumZ.
Proof. intros l k H. induction H; simpl; lia. Qed.

(** The sum of a measure over the entries of a map. *)
Section MapSum.
Context {K V : Type} `{Countable K} (f : V -> Z).

Definition msum (m : gmap K V) : Z := sumZ ((fun kv => f kv.2) <$> map_to_list m).

Lemma msum_empty : msum ∅ = 0.
Proof. unfold msum. by rewrite map_to_list_empty. Qed.

Lemma msum_insert_new m k v : m !! k = None -> msum (<[k := v]> m) = msum m + f v.
Proof. intros Hk. unfold msum. rewrite map_to_list_insert, fmap_cons by done. apply Z.add_comm. Qed.

Lemma msum_delete m k v : m !! k = Some v -> msum m = msum (delete k m) + f v.
Proof.
  intros Hk. rewrite <- (insert_delete_id m k v Hk) at 1. apply msum_insert_new.
  apply lookup_delete_eq.
Qed.

Lemma msum_insert m k v w : m !! k = Some v -> msum (<[k := w]> m) = msum m - f v + f w.
Proof.
  intros Hk. rewrite <- insert_delete_eq, msum_insert_new by apply lookup_delete_eq.
  rewrite (msum_delete m k v Hk). lia.
Qed.

Lemma msum_nonneg m : (forall k v, m !! k = Some v -> 0 <= f v) -> 0 <= msum m.
Proof.
  intros Hf. unfold msum. apply sumZ_nonneg, Forall_fmap, Forall_forall.
  intros [k v] Hin. apply elem_of_map_to_list in Hin. by eapply Hf.
Qed.

Lemma msum_elem m k v :
  (forall k v, m !! k = Some v -> 0 <= f v) -> m !! k = Some v -> f v <= msum m.
Proof.
  intros Hf Hk. rewrite (msum_delete m k v Hk).
  assert (0 <= msum (delete k m)); [|lia]. apply msum_nonneg.
  intros j w. rewrite lookup_delete_Some. intros [_ ?]. by eapply Hf.
Qed.
End MapSum.
