(* ===== verification/Storage.v ===== *)
(** Shared vocabulary of the runtime ([runtime/include/expert/runtime/storage.hpp]
    and [expert_key.hpp]): statuses, payload records, asynchronous reads, and the
    key that identifies one immutable expert with its order and hash. *)

From S2P Require Import Prelude.

(** ** Status *)

Inductive ErrorCode : Type :=
| ok | cancelled | deadline_exceeded | backpressure | invalid_arg | open_failed
| io_failed | short_read | checksum_mismatch | upload_failed | internal.

#[export] Instance ErrorCode_eq_dec : EqDecision ErrorCode.
Proof. solve_decision. Defined.

Record Status := mkStatus { code : ErrorCode; message : string }.

#[export] Instance Status_eq_dec : EqDecision Status.
Proof. solve_decision. Defined.

Definition success : Status := mkStatus ok "".
Definition status_ok (s : Status) : bool := bool_decide (code s = ok).

Lemma status_ok_true s : status_ok s = true <-> code s = ok.
Proof. unfold status_ok. apply bool_decide_eq_true. Qed.

(** ** Payload records *)

Abbreviation OperationId := Z (only parsing).
Abbreviation bytes := (list Z) (only parsing).

Record PayloadExtent := mkPayloadExtent {
  pe_path : string;
  source_offset : Z;
  destination_offset : Z;
  pe_bytes : Z }.

#[export] Instance PayloadExtent_eq_dec : EqDecision PayloadExtent.
Proof. solve_decision. Defined.

Record PayloadRecord := mkPayloadRecord {
  path : string;
  extents : list PayloadExtent;
  record_offset : Z;
  stored_bytes : Z;
  decoded_bytes : Z;
  rec_device_bytes : Z;
  rec_hidden : Z;
  rec_intermediate : Z;
  quant_block_size : Z;
  source_abi : Z;
  record_abi : Z;
  header_bytes : Z;
  rec_alignment : Z;
  payload_sha256 : list Z }.

#[export] Instance PayloadRecord_eq_dec : EqDecision PayloadRecord.
Proof. solve_decision. Defined.

#[export] Instance eta_PayloadRecord : Eta PayloadRecord := fun r =>
  mkPayloadRecord (path r) (extents r) (record_offset r) (stored_bytes r)
    (decoded_bytes r) (rec_device_bytes r) (rec_hidden r) (rec_intermediate r)
    (quant_block_size r) (source_abi r) (record_abi r) (header_bytes r)
    (rec_alignment r) (payload_sha256 r).

(** The member initializers of [PayloadRecord]. *)
Definition default_record : PayloadRecord :=
  mkPayloadRecord "" [] 0 0 0 0 0 0 0 1 0 256 4096 (replicate 32 0%Z).

(** A destination buffer: an address ([None] for a null pointer) and a size. *)
Record MutableBuffer := mkMutableBuffer { data : option Z; buffer_capacity : Z }.

Record ReadRequest := mkReadRequest {
  rr_record : PayloadRecord;
  rr_destination : MutableBuffer;
  direct : bool }.

Record ReadResult := mkReadResult {
  rr_status : Status;
  requested_bytes : Z;
  read_bytes : Z }.

#[export] Instance ReadResult_eq_dec : EqDecision ReadResult.
Proof. solve_decision. Defined.

(** ** Expert keys *)

Record ExpertKey := mkExpertKey {
  model_id : Z;
  layer : Z;
  expert : Z;
  encoding_abi : Z }.

#[export] Instance ExpertKey_eq_dec : EqDecision ExpertKey.
Proof. solve_decision. Defined.

#[export] Instance ExpertKey_countable : Countable ExpertKey.
Proof.
  refine (inj_countable' (fun k => (model_id k, layer k, expert k, encoding_abi k))
            (fun '(m, l, e, a) => mkExpertKey m l e a) _).
  abstract (by intros []).
Defined.

(** The defaulted three-way comparison: lexicographic in member order. *)
Definition key_ltb (a b : ExpertKey) : bool :=
  if model_id a =? model_id b then
    if layer a =? layer b then
      if expert a =? expert b then encoding_abi a <? encoding_abi b
      else expert a <? expert b
    else layer a <? layer b
  else model_id a <? model_id b.

Definition key_le (a b : ExpertKey) : Prop := key_ltb b a = false.

#[export] Instance key_le_dec : RelDecision key_le.
Proof. intros a b. unfold key_le. apply _. Defined.

(** [ExpertKeyHash::operator()] on a 64-bit [std::size_t]. *)
Definition hash_mix (value part : Z) : Z :=
  Z.lxor value
    (add64 (add64 (add64 part 2654435769) (wrap64 (Z.shiftl value 6)))
       (Z.shiftr value 2)).

Definition expert_key_hash (k : ExpertKey) : Z :=
  let value := Z.lxor (model_id k) (Z.shiftr (model_id k) 32) in
  let value := hash_mix value (layer k) in
  let value := hash_mix value (expert k) in
  hash_mix value (encoding_abi k).

(** ** The order of keys *)

Lemma key_ltb_irrefl a : key_ltb a a = false.
Proof. unfold key_ltb. by rewrite !Z.eqb_refl, Z.ltb_irrefl. Qed.

Ltac key_cases :=
  unfold key_ltb in *;
  repeat match goal with
  | H : context [Z.eqb ?a ?b] |- _ => destruct (Z.eqb_spec a b)
  | |- context [Z.eqb ?a ?b] => destruct (Z.eqb_spec a b)
  end; rewrite ?Z.ltb_lt, ?Z.ltb_ge in *; try lia.

Lemma key_ltb_trans a b c :
  key_ltb a b = true -> key_ltb b c = true -> key_ltb a c = true.
Proof. intros. key_cases. Qed.

Lemma key_ltb_total a b : key_ltb a b = false -> key_ltb b a = false -> a = b.
Proof.
  destruct a, b. intros. key_cases; simpl in *; f_equal; lia.
Qed.

Lemma key_ltb_asym a b : key_ltb a b = true -> key_ltb b a = false.
Proof. intros. key_cases. Qed.

#[export] Instance key_le_total : Total key_le.
Proof.
  intros a b. unfold key_le. destruct (key_ltb a b) eqn:E; [left|by right].
  by apply key_ltb_asym.
Qed.

#[export] Instance key_le_trans : Transitive key_le.
Proof. intros a b c. unfold key_le. intros. key_cases. Qed.
