(* ===== verification/CacheState.v ===== *)
(** The residency state machine of one expert
    ([runtime/src/cache_state.cpp], [runtime/include/expert/runtime/cache_state.hpp]):
    the six states, their names, and the table of permitted transitions. *)

From S2P Require Import Prelude.

Inductive CacheState : Type :=
| absent | ssd_loading | ram_ready | gpu_uploading | vram_ready | failed.

#[export] Instance CacheState_eq_dec : EqDecision CacheState.
Proof. solve_decision. Defined.

Definition cache_state_index (s : CacheState) : Z :=
  match s with
  | absent => 0 | ssd_loading => 1 | ram_ready => 2
  | gpu_uploading => 3 | vram_ready => 4 | failed => 5
  end.

Definition cache_state_name (s : CacheState) : string :=
  match s with
  | absent => "ABSENT"
  | ssd_loading => "SSD_LOADING"
  | ram_ready => "RAM_READY"
  | gpu_uploading => "GPU_UPLOADING"
  | vram_ready => "VRAM_READY"
  | failed => "FAILED"
  end.

Definition valid_cache_transition (from to : CacheState) : bool :=
  match to with
  | failed => negb (bool_decide (from = failed))
  | _ =>
    match from with
    | absent => bool_decide (to = ssd_loading)
    | ssd_loading => bool_decide (to = ram_ready) || bool_decide (to = absent)
    | ram_ready => bool_decide (to = gpu_uploading) || bool_decide (to = absent)
    | gpu_uploading => bool_decide (to = vram_ready) || bool_decide (to = ram_ready)
    | vram_ready => bool_decide (to = ram_ready) || bool_decide (to = absent)
    | failed => bool_decide (to = absent)
    end
  end.

(** One permitted step of the machine, and the states a path of such steps
    visits, first to last. *)
Definition transition (from to : CacheState) : Prop :=
  valid_cache_transition from to = true.

Inductive path_to : CacheState -> list CacheState -> CacheState -> Prop :=
| path_refl s : path_to s [s] s
| path_step s t u visited :
    transition s t -> path_to t visited u -> path_to s (s :: visited) u.

(** Publication is separated from absence: along every path to [vram_ready] the
    load, the validated host copy and the upload appear, in this order. The
    three claims are proved together because a path may fall back and retry. *)
Lemma path_to_vram s l :
  path_to s l vram_ready ->
  (s <> vram_ready -> exists k, l !! k = Some gpu_uploading) /\
  (s <> vram_ready -> s <> gpu_uploading -> exists j k, (j < k)%nat /\
     l !! j = Some ram_ready /\ l !! k = Some gpu_uploading) /\
  (s = absent \/ s = ssd_loading \/ s = failed -> exists i j k, (i < j < k)%nat /\
     l !! i = Some ssd_loading /\ l !! j = Some ram_ready /\
     l !! k = Some gpu_uploading).
Proof.
  intros H. remember vram_ready as goal eqn:Hg.
  induction H as [s|s t u visited Hst Hp IH]; subst.
  { split_and!; [done|done|by intros [?|[?|?]]]. }
  destruct (IH eq_refl) as (H1 & H2 & H3). clear IH Hp.
  unfold transition in Hst.
  split_and!.
  - intros Hs. destruct s; try done; [| | | by exists 0%nat|];
      destruct t; try discriminate Hst;
      (destruct H1 as [k ?]; [done|by exists (S k)]).
  - intros Hs Hs'. destruct s; try done.
    all: destruct t; try discriminate Hst.
    all: try (destruct H2 as (j & k & ? & ? & ?); [done|done|];
              exists (S j), (S k); split_and!; [lia|done|done]).
    destruct H1 as [k ?]; [done|]. exists 0%nat, (S k). split_and!; [lia|done|done].
  - intros Hs. destruct s; try by destruct Hs as [?|[?|?]].
    all: destruct t; try discriminate Hst.
    all: try (destruct H3 as (i & j & k & ? & ? & ? & ?); [auto|];
              exists (S i), (S j), (S k); split_and!; [lia|lia|done|done|done]).
    destruct H2 as (j & k & ? & ? & ?); [done|done|].
    exists 0%nat, (S j), (S k). split_and!; [lia|lia|done|done|done].
Qed.

(** an expert that is absent, loading or quarantined becomes device-visible
    only after it has been loading, then validated in RAM, then uploading: the
    table has no path that publishes an expert while skipping a completion. *)
Theorem publication_needs_every_stage s l :
  path_to s l vram_ready ->
  s = absent \/ s = ssd_loading \/ s = failed ->
  exists i j k, (i < j < k)%nat /\ l !! i = Some ssd_loading /\
    l !! j = Some ram_ready /\ l !! k = Some gpu_uploading.
Proof. intros H Hs. by apply (path_to_vram s l H). Qed.

Lemma publication_needs_every_stage_witness :
  let l := [absent; ssd_loading; ram_ready; gpu_uploading; vram_ready] in
  path_to absent l vram_ready /\
  exists i j k, (i < j < k)%nat /\ l !! i = Some ssd_loading /\
    l !! j = Some ram_ready /\ l !! k = Some gpu_uploading.
Proof.
  assert (H : path_to absent [absent; ssd_loading; ram_ready; gpu_uploading; vram_ready]
                vram_ready).
  { apply (path_step _ ssd_loading); [reflexivity|].
    apply (path_step _ ram_ready); [reflexivity|].
    apply (path_step _ gpu_uploading); [reflexivity|].
    apply (path_step _ vram_ready); [reflexivity|]. apply path_refl. }
  split; [exact H|].
  apply (publication_needs_every_stage absent _ H). left. reflexivity.
Defined.
