(* ===== verification/BufferPool.v ===== *)
(** Host staging memory ([runtime/src/buffer_pool.cpp],
    [runtime/include/expert/runtime/buffer_pool.hpp]).

    [HostAllocator] is the interface [IHostAllocator]; its laws are what the
    pool relies on. [MonotonicHostAllocator] (one bank carved into records)
    discharges them. [FixedBufferPool] keeps a fixed number of slots, hands out
    leases and reserves a number of slots for demand requests. A lease is the
    pair of its slot and its class; [release_lease] is the destructor. *)

From S2P Require Import Prelude Storage.

(** ** The allocator interface *)

(** [IHostAllocator]: [allocate] returns [None] for a null pointer. *)
Class HostAllocator (S : Type) := {
  ha_allocate : Z -> Z -> S -> option Z * S;
  ha_deallocate : option Z -> S -> S;
  ha_page_locked : S -> bool }.

(** A block of memory: its first address and its size. *)
Definition block : Type := Z * Z.

Definition disjoint_blocks (a b : block) : Prop :=
  a.1 + a.2 <= b.1 \/ b.1 + b.2 <= a.1.

(** What a correct allocator promises: there is an invariant of its state and a
    list of the blocks it has handed out; a successful allocation is aligned and
    disjoint from all of them. *)
Class HostAllocatorSpec (S : Type) `{HostAllocator S} := {
  ha_inv : S -> Prop;
  ha_live : S -> list block;
  ha_allocate_spec n a s p s' :
    ha_inv s -> 0 < n -> u64 n -> u64 a ->
    ha_allocate n a s = (p, s') ->
    ha_inv s' /\
    match p with
    | None => ha_live s' = ha_live s
    | Some p => ha_live s' = (p, n) :: ha_live s /\ p mod a = 0 /\
        Forall (disjoint_blocks (p, n)) (ha_live s)
    end }.

(** ** MonotonicHostAllocator *)

Definition power_of_two_or_zero (a : Z) : bool := Z.land a (sub64 a 1) =? 0.

Record MonotonicHostAllocator := mkMonotonic {
  ma_base : Z;
  ma_capacity : Z;
  ma_alignment : Z;
  ma_cursor : Z;
  ma_page_locked : bool;
  (** the blocks handed out so far, a ghost of the pointers given to clients *)
  ma_blocks : list block }.

#[export] Instance eta_Monotonic : Eta MonotonicHostAllocator := fun m =>
  mkMonotonic (ma_base m) (ma_capacity m) (ma_alignment m) (ma_cursor m)
    (ma_page_locked m) (ma_blocks m).

(** The constructor; the upstream allocator is threaded through. *)
Definition monotonic_create {S} `{HostAllocator S} (capacity alignment : Z)
    (upstream : option S) : outcome (MonotonicHostAllocator * S) :=
  match upstream with
  | Some up =>
    if (capacity =? 0) || (alignment =? 0) || negb (power_of_two_or_zero alignment)
    then Throw (invalid_argument "invalid monotonic host allocator")
    else
      match ha_allocate capacity alignment up with
      | (Some base, up') =>
        Ok (mkMonotonic base capacity alignment 0 (ha_page_locked up') [], up')
      | (None, _) => Throw bad_alloc
      end
  | None => Throw (invalid_argument "invalid monotonic host allocator")
  end.

Definition monotonic_allocate (n alignment : Z) (m : MonotonicHostAllocator)
    : option Z * MonotonicHostAllocator :=
  if (n =? 0) || (alignment =? 0) || negb (power_of_two_or_zero alignment)
     || (alignment >? ma_alignment m)
  then (None, m)
  else
    let aligned :=
      mul64 (sub64 (add64 (ma_cursor m) alignment) 1 / alignment) alignment in
    if (aligned >? ma_capacity m) || (n >? sub64 (ma_capacity m) aligned)
    then (None, m)
    else
      let p := ma_base m + aligned in
      (Some p, m <| ma_cursor := add64 aligned n |> <| ma_blocks %= cons (p, n) |>).

Definition monotonic_deallocate (_ : option Z) (m : MonotonicHostAllocator)
    : MonotonicHostAllocator := m.

Definition monotonic_bytes_used (m : MonotonicHostAllocator) : Z := ma_cursor m.

#[export] Instance monotonic_allocator : HostAllocator MonotonicHostAllocator := {
  ha_allocate := monotonic_allocate;
  ha_deallocate := monotonic_deallocate;
  ha_page_locked := ma_page_locked }.

(** ** FixedBufferPool *)

Inductive BufferPoolClass : Type := demand_class | background_class.

#[export] Instance BufferPoolClass_eq_dec : EqDecision BufferPoolClass.
Proof. solve_decision. Defined.

Definition is_background (c : BufferPoolClass) : bool :=
  match c with background_class => true | demand_class => false end.

Record Slot := mkSlot { slot_pointer : Z; slot_used : bool }.

(** [FixedBufferPool::SharedState] without the allocator, which only the
    constructor and destructor use. *)
Record FixedBufferPool := mkPool {
  slot_bytes : Z;
  pool_alignment : Z;
  pool_page_locked : bool;
  slots : list Slot;
  used : Z;
  background_used : Z;
  reserved_demand_slots : Z;
  high_water_used : Z;
  background_high_water_used : Z;
  demand_acquires : Z;
  background_acquires : Z;
  demand_stalls : Z;
  background_stalls : Z }.

#[export] Instance eta_Pool : Eta FixedBufferPool := fun p =>
  mkPool (slot_bytes p) (pool_alignment p) (pool_page_locked p) (slots p) (used p)
    (background_used p) (reserved_demand_slots p) (high_water_used p)
    (background_high_water_used p) (demand_acquires p) (background_acquires p)
    (demand_stalls p) (background_stalls p).

Section Create.
Context {S : Type} `{HostAllocator S}.

(** The allocation loop of the constructor: pointers in slot order, or the
    pointers obtained before the first null one. *)
Fixpoint allocate_slots (count : nat) (n alignment : Z) (s : S)
    : (list Z + list Z) * S :=
  match count with
  | O => (inl [], s)
  | Datatypes.S count' =>
    match ha_allocate n alignment s with
    | (None, s') => (inr [], s')
    | (Some p, s') =>
      match allocate_slots count' n alignment s' with
      | (inl ps, s'') => (inl (p :: ps), s'')
      | (inr ps, s'') => (inr (p :: ps), s'')
      end
    end
  end.

(** The [catch (...)] clause frees every slot, the unfilled ones as null. *)
Definition free_slots (ps : list Z) (unfilled : nat) (s : S) : S :=
  foldl (fun s p => ha_deallocate p s) s
    (map Some ps ++ replicate unfilled None).

Definition pool_create (slot_count n alignment : Z) (allocator : option S)
    (reserved : Z) : outcome FixedBufferPool * option S :=
  match allocator with
  | None =>
    (Throw (invalid_argument "invalid fixed buffer pool configuration"), None)
  | Some s =>
    if (slot_count =? 0) || (n =? 0) || (alignment =? 0)
       || negb (power_of_two_or_zero alignment)
    then (Throw (invalid_argument "invalid fixed buffer pool configuration"), Some s)
    else if reserved >? slot_count
    then (Throw (invalid_argument "invalid fixed buffer pool demand reserve"), Some s)
    else
      match allocate_slots (Z.to_nat slot_count) n alignment s with
      | (inl ps, s') =>
        (Ok (mkPool n alignment (ha_page_locked s')
               (map (fun p => mkSlot p false) ps) 0 0 reserved 0 0 0 0 0 0), Some s')
      | (inr ps, s') =>
        (Throw bad_alloc,
         Some (free_slots ps (Z.to_nat slot_count - length ps) s'))
      end
  end.
End Create.

(** A lease names a slot and the class it was acquired under. *)
Record Lease := mkLease { lease_slot : nat; allocation_class : BufferPoolClass }.

(** The first free slot, in index order. *)
Fixpoint first_free (l : list Slot) : option nat :=
  match l with
  | [] => None
  | s :: l => if slot_used s then Datatypes.S <$> first_free l else Some 0%nat
  end.

Definition background_limit (p : FixedBufferPool) : Z :=
  sub64 (Z.of_nat (length (slots p))) (reserved_demand_slots p).

Definition stall (c : BufferPoolClass) (p : FixedBufferPool) : FixedBufferPool :=
  if is_background c then p <| background_stalls %= inc64 |>
  else p <| demand_stalls %= inc64 |>.

Definition try_acquire (n : Z) (c : BufferPoolClass) (p : FixedBufferPool)
    : option Lease * FixedBufferPool :=
  if n >? slot_bytes p then (None, p)
  else if is_background c && (background_used p >=? background_limit p)
  then (None, p <| background_stalls %= inc64 |>)
  else
    match first_free (slots p) with
    | None => (None, stall c p)
    | Some i =>
      let p := p <| slots := alter (fun s => mkSlot (slot_pointer s) true) i (slots p) |>
                 <| used %= inc64 |> in
      let p :=
        if is_background c then
          let p := p <| background_used %= inc64 |> <| background_acquires %= inc64 |> in
          p <| background_high_water_used :=
                 Z.max (background_high_water_used p) (background_used p) |>
        else p <| demand_acquires %= inc64 |> in
      let p := p <| high_water_used := Z.max (high_water_used p) (used p) |> in
      (Some (mkLease i c), p)
    end.

(** The destructor of a lease; [slots.at] throws out of a [noexcept] destructor
    when the slot does not exist. *)
Definition release_lease (l : Lease) (p : FixedBufferPool) : outcome FixedBufferPool :=
  match slots p !! lease_slot l with
  | None => Throw (logic_error "slot index out of range")
  | Some s =>
    let p := p <| slots := <[lease_slot l := mkSlot (slot_pointer s) false]> (slots p) |>
               <| used %= dec64 |> in
    Ok (if is_background (allocation_class l)
        then p <| background_used %= dec64 |> else p)
  end.

Definition lease_buffer (l : Lease) (p : FixedBufferPool) : MutableBuffer :=
  mkMutableBuffer (slot_pointer <$> slots p !! lease_slot l) (slot_bytes p).

Definition pool_bytes_in_use (p : FixedBufferPool) : Z := mul64 (used p) (slot_bytes p).

Record BufferPoolSnapshot := mkPoolSnapshot {
  snap_slots_in_use : Z;
  snap_demand_slots_in_use : Z;
  snap_background_slots_in_use : Z;
  snap_high_water_slots : Z;
  snap_background_high_water_slots : Z;
  snap_demand_acquires : Z;
  snap_background_acquires : Z;
  snap_demand_stalls : Z;
  snap_background_stalls : Z }.

Definition pool_snapshot (p : FixedBufferPool) : BufferPoolSnapshot :=
  mkPoolSnapshot (used p) (sub64 (used p) (background_used p)) (background_used p)
    (high_water_used p) (background_high_water_used p) (demand_acquires p)
    (background_acquires p) (demand_stalls p) (background_stalls p).

(** ** Powers of two *)

Lemma power_of_two_log2 a :
  u64 a -> 0 < a -> power_of_two_or_zero a = true -> a = 2 ^ Z.log2 a.
Proof.
  unfold u64, U64_MAX, power_of_two_or_zero. intros Ha Hpos Hp. zbool.
  unfold sub64 in Hp. rewrite wrap64_small in Hp by (unfold u64, U64_MAX; lia).
  pose proof (Z.log2_spec a Hpos) as [Hlo Hhi].
  destruct (Z.eq_dec a (2 ^ Z.log2 a)) as [|Hne]; [done|exfalso].
  assert (Hlog : Z.log2 (a - 1) = Z.log2 a).
  { apply Z.log2_unique; [apply Z.log2_nonneg|]. lia. }
  assert (Hb : Z.testbit (Z.land a (a - 1)) (Z.log2 a) = true).
  { rewrite Z.land_spec, Z.bit_log2 by done. rewrite <- Hlog at 1.
    apply Z.bit_log2.
    pose proof (Z.pow_pos_nonneg 2 (Z.log2 a) ltac:(lia) (Z.log2_nonneg a)). lia. }
  rewrite Hp, Z.testbit_0_l in Hb. done.
Qed.

Lemma power_of_two_divide a b :
  u64 a -> u64 b -> 0 < a <= b ->
  power_of_two_or_zero a = true -> power_of_two_or_zero b = true -> (a | b).
Proof.
  intros Ha Hb Hab Pa Pb.
  rewrite (power_of_two_log2 a), (power_of_two_log2 b) by (auto; lia).
  pose proof (Z.log2_nonneg a). pose proof (Z.log2_le_mono a b ltac:(lia)).
  exists (2 ^ (Z.log2 b - Z.log2 a)). rewrite <- Z.pow_add_r by lia. f_equal. lia.
Qed.

(** ** The monotonic bank is a correct allocator *)

(** The bank's own invariant. [base] is aligned, not null and inside the
    address space: what the documentation of the upstream allocation promises. *)
Record monotonic_inv (m : MonotonicHostAllocator) : Prop := {
  mi_alignment : u64 (ma_alignment m) /\ 0 < ma_alignment m;
  mi_pow : power_of_two_or_zero (ma_alignment m) = true;
  mi_base : 0 < ma_base m /\ ma_base m mod ma_alignment m = 0;
  mi_end : ma_base m + ma_capacity m <= 2 ^ 64;
  mi_cursor : 0 <= ma_cursor m <= ma_capacity m;
  mi_blocks : Forall (fun b => ma_base m <= b.1 /\ b.1 + b.2 <= ma_base m + ma_cursor m)
                (ma_blocks m) }.

(** The cursor arithmetic never wraps: a nonnull aligned base leaves at least one
    alignment unit above the bank. *)
Lemma monotonic_aligned_cursor m a :
  monotonic_inv m -> 0 < a <= ma_alignment m ->
  mul64 (sub64 (add64 (ma_cursor m) a) 1 / a) a = (ma_cursor m + a - 1) / a * a /\
  ma_cursor m <= (ma_cursor m + a - 1) / a * a.
Proof.
  intros [[_ Hal] _ [Hb Hm] He Hc _] Ha.
  assert (Hge : ma_alignment m <= ma_base m).
  { destruct (Z.le_gt_cases (ma_alignment m) (ma_base m)); [done|].
    rewrite Z.mod_small in Hm; lia. }
  assert (Hdiv : (ma_cursor m + a - 1) / a * a <= ma_cursor m + a - 1 /\
                 ma_cursor m <= (ma_cursor m + a - 1) / a * a).
  { pose proof (Z.div_mod (ma_cursor m + a - 1) a ltac:(lia)).
    pose proof (Z.mod_pos_bound (ma_cursor m + a - 1) a ltac:(lia)). nia. }
  unfold mul64, sub64, add64. split; [|lia].
  rewrite (wrap64_sub_l (ma_cursor m + a)).
  rewrite (wrap64_small (_ - 1)) by (unfold u64, U64_MAX; lia).
  rewrite wrap64_small; [done|]. unfold u64, U64_MAX. lia.
Qed.

Lemma monotonic_allocate_spec n a m p m' :
  monotonic_inv m -> 0 < n -> u64 n -> u64 a ->
  monotonic_allocate n a m = (p, m') ->
  monotonic_inv m' /\
  match p with
  | None => ma_blocks m' = ma_blocks m
  | Some p => ma_blocks m' = (p, n) :: ma_blocks m /\ p mod a = 0 /\
      Forall (disjoint_blocks (p, n)) (ma_blocks m)
  end.
Proof.
  intros Hi Hn Un Ua. pose proof Hi as [[Ual Hal] Hpow [Hb Hm] He Hc Hblocks].
  unfold monotonic_allocate.
  destruct (_ || _) eqn:E1; [by intros [= <- <-]|]. zbool.
  destruct (monotonic_aligned_cursor m a Hi) as [Hcur Hle]; [unfold u64 in Ua; lia|].
  rewrite Hcur. set (c := (_ + _ - 1) / a * a) in *.
  destruct (_ || _) eqn:E2; [by intros [= <- <-]|]. zbool.
  unfold sub64 in *. rewrite wrap64_small in * by (unfold u64, U64_MAX; lia).
  intros [= <- <-].
  assert (Hadd : add64 c n = c + n).
  { unfold add64. apply wrap64_small. unfold u64, U64_MAX. lia. }
  assert (Hmod : (ma_base m + c) mod a = 0).
  { assert ((a | ma_alignment m)) as [k Hk].
    { apply power_of_two_divide; auto. unfold u64 in Ua. lia. }
    apply Z.mod_divide in Hm as [j Hj]; [|lia].
    apply Z.mod_divide; [lia|]. exists (j * k + (ma_cursor m + a - 1) / a).
    subst c. rewrite Hj, Hk. ring. }
  split.
  - split; simpl; rewrite ?Hadd; auto; [lia|].
    constructor; simpl; [lia|]. eapply Forall_impl; [exact Hblocks|]. simpl. lia.
  - split; [done|]. split; [done|]. eapply Forall_impl; [exact Hblocks|].
    intros [q k]. unfold disjoint_blocks. simpl. lia.
Qed.

#[export] Instance monotonic_allocator_spec : HostAllocatorSpec MonotonicHostAllocator := {
  ha_inv := monotonic_inv;
  ha_live := ma_blocks;
  ha_allocate_spec := monotonic_allocate_spec }.

(** A sequence of [allocate] calls and the blocks it returns, newest first. *)
Fixpoint monotonic_run (reqs : list (Z * Z)) (m : MonotonicHostAllocator)
    : MonotonicHostAllocator :=
  match reqs with
  | [] => m
  | (n, a) :: reqs => monotonic_run reqs (monotonic_allocate n a m).2
  end.

Definition fresh_bank (base capacity alignment : Z) : MonotonicHostAllocator :=
  mkMonotonic base capacity alignment 0 false [].

Lemma monotonic_run_inv reqs m :
  monotonic_inv m -> Forall (fun r => 0 < r.1 /\ u64 r.1 /\ u64 r.2) reqs ->
  ForallOrdPairs disjoint_blocks (ma_blocks m) ->
  monotonic_inv (monotonic_run reqs m) /\
  ForallOrdPairs disjoint_blocks (ma_blocks (monotonic_run reqs m)) /\
  ma_base (monotonic_run reqs m) = ma_base m /\
  ma_capacity (monotonic_run reqs m) = ma_capacity m.
Proof.
  revert m. induction reqs as [|[n a] reqs IH]; intros m Hm Hr Hd; [done|].
  apply Forall_cons in Hr as [(Hn & Un & Ua) Hr]. simpl in *.
  destruct (monotonic_allocate n a m) as [p m'] eqn:E. simpl.
  destruct (monotonic_allocate_spec _ _ _ _ _ Hm Hn Un Ua E) as [Hm' Hp].
  assert (Hfix : ma_base m' = ma_base m /\ ma_capacity m' = ma_capacity m).
  { revert E. unfold monotonic_allocate. intros. repeat case_match; by simplify_eq/=. }
  destruct Hfix as [<- <-]. apply IH; [done|done|].
  destruct p; [|by rewrite Hp]. destruct Hp as (-> & _ & ?). by constructor.
Qed.

(** carving one bank: whatever sequence of requests is made, the records
    handed out lie inside the bank and are pairwise disjoint, even though the
    cursor is computed with wrapping 64-bit arithmetic. *)
Theorem monotonic_bank_disjoint base capacity alignment reqs :
  u64 alignment -> 0 < alignment -> power_of_two_or_zero alignment = true ->
  0 < base -> base mod alignment = 0 -> 0 <= capacity -> base + capacity <= 2 ^ 64 ->
  Forall (fun r => 0 < r.1 /\ u64 r.1 /\ u64 r.2) reqs ->
  let blocks := ma_blocks (monotonic_run reqs (fresh_bank base capacity alignment)) in
  ForallOrdPairs disjoint_blocks blocks /\
  Forall (fun b => base <= b.1 /\ b.1 + b.2 <= base + capacity) blocks.
Proof.
  intros Ua Ha Hp Hb Hm Hc He Hr blocks. subst blocks.
  destruct (monotonic_run_inv reqs (fresh_bank base capacity alignment))
    as (Hi & Hd & Hbase & Hcap).
  { split; simpl; auto; lia. }
  { exact Hr. }
  { constructor. }
  split; [done|]. simpl in *. destruct Hi. rewrite Hbase, Hcap in *.
  eapply Forall_impl; [eassumption|]. simpl. lia.
Qed.

Lemma monotonic_bank_disjoint_witness :
  let blocks := ma_blocks (monotonic_run [(100, 64); (1, 1); (5000, 4096)]
                             (fresh_bank 8192 16384 4096)) in
  blocks = [(12288, 5000); (8292, 1); (8192, 100)] /\
  ForallOrdPairs disjoint_blocks blocks.
Proof.
  split; [reflexivity|].
  apply (monotonic_bank_disjoint 8192 16384 4096 [(100, 64); (1, 1); (5000, 4096)]).
  all: try (unfold u64, U64_MAX; lia). all: try reflexivity.
  repeat constructor; unfold u64, U64_MAX; simpl; lia.
Defined.

(** ** The pool and its outstanding leases *)

Abbreviation background_leases ls :=
  (filter (fun l => is_background (allocation_class l) = true) ls).

Definition slot_is_used (l : list Slot) (i : nat) : Prop :=
  exists s, l !! i = Some s /\ slot_used s = true.

(** The pool's counters and flags against the list of outstanding leases. *)
Record pool_inv (ls : list Lease) (p : FixedBufferPool) : Prop := {
  pi_size : 0 < Z.of_nat (length (slots p)) <= U64_MAX;
  pi_reserved : 0 <= reserved_demand_slots p <= Z.of_nat (length (slots p));
  pi_nodup : NoDup (map lease_slot ls);
  pi_used_slots : forall i, slot_is_used (slots p) i <-> i ∈ map lease_slot ls;
  pi_used : used p = Z.of_nat (length ls);
  pi_background : background_used p = Z.of_nat (length (background_leases ls));
  pi_limit : background_used p <= Z.of_nat (length (slots p)) - reserved_demand_slots p;
  pi_high : used p <= high_water_used p;
  pi_bg_high : background_used p <= background_high_water_used p }.

(** One call by a client: an acquisition (granted or refused) or the
    destruction of an outstanding lease. *)
Inductive pool_step : list Lease * FixedBufferPool -> list Lease * FixedBufferPool -> Prop :=
| step_acquire n c ls p l p' :
    try_acquire n c p = (Some l, p') -> pool_step (ls, p) (l :: ls, p')
| step_refuse n c ls p p' :
    try_acquire n c p = (None, p') -> pool_step (ls, p) (ls, p')
| step_release ls1 l ls2 p p' :
    release_lease l p = Ok p' -> pool_step (ls1 ++ l :: ls2, p) (ls1 ++ ls2, p').

Definition pool_reachable (p0 : FixedBufferPool) (ls : list Lease) (p : FixedBufferPool) : Prop :=
  rtc pool_step ([], p0) (ls, p).

Lemma first_free_Some l i :
  first_free l = Some i -> exists s, l !! i = Some s /\ slot_used s = false.
Proof.
  revert i. induction l as [|s l IH]; intros i; simpl; [done|].
  destruct (slot_used s) eqn:E.
  - destruct (first_free l) as [j|]; simpl; [|done]. intros [= <-]. by apply IH.
  - intros [= <-]. by exists s.
Qed.

Lemma first_free_None l : first_free l = None <-> Forall (fun s => slot_used s = true) l.
Proof.
  induction l as [|s l IH]; simpl; [done|]. rewrite Forall_cons.
  destruct (slot_used s) eqn:E; [|naive_solver].
  rewrite <- IH. destruct (first_free l); naive_solver.
Qed.

Lemma nodup_below (l : list nat) n :
  NoDup l -> (forall i, i ∈ l -> (i < n)%nat) -> (length l <= n)%nat.
Proof.
  intros Hnd Hb. rewrite <- (length_seq n 0).
  apply submseteq_length, NoDup_submseteq; [done|].
  intros i Hi. apply elem_of_seq. specialize (Hb i Hi). lia.
Qed.

Lemma lease_slot_lt ls p i :
  pool_inv ls p -> i ∈ map lease_slot ls -> (i < length (slots p))%nat.
Proof.
  intros [] Hi. apply pi_used_slots0 in Hi as (s & Hs & _). by apply lookup_lt_Some in Hs.
Qed.

(** A slot without a lease leaves the leases strictly fewer than the slots. *)
Lemma leases_room ls p i s :
  pool_inv ls p -> slots p !! i = Some s -> slot_used s = false ->
  i ∉ map lease_slot ls /\ (length ls < length (slots p))%nat.
Proof.
  intros Hi Hs Hfree.
  assert (Hnew : i ∉ map lease_slot ls).
  { rewrite <- (pi_used_slots _ _ Hi). intros (s' & ? & ?). congruence. }
  split; [done|]. rewrite <- (length_map lease_slot ls).
  enough (length (i :: map lease_slot ls) <= length (slots p))%nat by (simpl in *; lia).
  apply nodup_below; [constructor; [done|apply Hi]|].
  intros j [->|Hj]%elem_of_cons; [by apply lookup_lt_Some in Hs|by eapply lease_slot_lt].
Qed.

(** A pool whose slots are all used has one lease per slot. *)
Lemma leases_full ls p :
  pool_inv ls p -> first_free (slots p) = None -> (length (slots p) <= length ls)%nat.
Proof.
  intros Hi Hf. apply first_free_None in Hf. rewrite Forall_lookup in Hf.
  rewrite <- (length_map lease_slot ls), <- (length_seq (length (slots p)) 0).
  apply submseteq_length, NoDup_submseteq; [apply NoDup_seq|].
  intros i Hlt%elem_of_seq. apply (pi_used_slots _ _ Hi).
  destruct (lookup_lt_is_Some_2 (slots p) i) as [s Hs]; [lia|].
  exists s. split; [done|by eapply Hf].
Qed.

Lemma leases_bounded ls p : pool_inv ls p -> (length ls <= length (slots p))%nat.
Proof.
  intros Hi. rewrite <- (length_map lease_slot ls). apply nodup_below; [apply Hi|].
  intros i. by apply lease_slot_lt.
Qed.

Lemma background_leases_le ls :
  (length (background_leases ls) <= length ls)%nat.
Proof. apply length_filter. Qed.

(** The used slots after a flag is set or cleared. *)
Lemma slot_is_used_set l i j q :
  (i < length l)%nat ->
  slot_is_used (<[i := mkSlot q true]> l) j <-> j = i \/ slot_is_used l j.
Proof.
  intros Hi. unfold slot_is_used. destruct (decide (j = i)) as [->|Hne].
  - rewrite list_lookup_insert_eq by done. naive_solver.
  - rewrite list_lookup_insert_ne by done. naive_solver.
Qed.

Lemma slot_is_used_clear l i j q :
  (i < length l)%nat ->
  slot_is_used (<[i := mkSlot q false]> l) j <-> j <> i /\ slot_is_used l j.
Proof.
  intros Hi. unfold slot_is_used. destruct (decide (j = i)) as [->|Hne].
  - rewrite list_lookup_insert_eq by done. naive_solver.
  - rewrite list_lookup_insert_ne by done. naive_solver.
Qed.

Lemma try_acquire_inv ls p n c o p' :
  pool_inv ls p -> try_acquire n c p = (o, p') ->
  pool_inv (match o with Some l => l :: ls | None => ls end) p'.
Proof.
  intros Hi. unfold try_acquire. destruct (_ >? _); [by intros [= <- <-]|].
  destruct (_ && _) eqn:E2; [intros [= <- <-]; by destruct Hi|].
  destruct (first_free (slots p)) as [i|] eqn:Ef; cycle 1.
  { intros [= <- <-]. unfold stall. case_match; by destruct Hi. }
  destruct (first_free_Some _ _ Ef) as (s & Hs & Hfree).
  destruct (leases_room _ _ _ _ Hi Hs Hfree) as [Hnew Hroom].
  assert (Hlt := lookup_lt_Some _ _ _ Hs).
  pose proof (background_leases_le ls) as Hbl.
  rewrite (list_alter_insert _ _ _ s) by done.
  destruct Hi, c; simpl in *; intros [= <- <-]; zbool.
  all: unfold background_limit, sub64 in *; simpl in *.
  all: rewrite ?wrap64_small in E2 by (unfold u64, U64_MAX in *; lia).
  all: split; simpl; rewrite ?length_insert; auto; word_small; try lia; try by constructor.
  all: intros j; rewrite slot_is_used_set, pi_used_slots0 by done; by rewrite elem_of_cons.
Qed.

Lemma release_lease_inv ls1 l ls2 p :
  pool_inv (ls1 ++ l :: ls2) p ->
  exists p', release_lease l p = Ok p' /\ pool_inv (ls1 ++ ls2) p'.
Proof.
  intros Hi. unfold release_lease.
  assert (Hin : lease_slot l ∈ map lease_slot (ls1 ++ l :: ls2)) by set_solver.
  pose proof (lease_slot_lt _ _ _ Hi Hin) as Hlt.
  destruct (lookup_lt_is_Some_2 _ _ Hlt) as [s Hs]. rewrite Hs.
  pose proof (leases_bounded _ _ Hi) as Hle.
  eexists; split; [done|]. destruct Hi, l as [i c]; simpl in *.
  rewrite map_app in *. simpl in *.
  assert (Hperm : map lease_slot ls1 ++ i :: map lease_slot ls2 ≡ₚ
                  i :: map lease_slot ls1 ++ map lease_slot ls2)
    by (symmetry; apply Permutation_middle).
  rewrite Hperm in pi_nodup0. apply NoDup_cons in pi_nodup0 as [Hni Hnd].
  rewrite !length_app, filter_app in *. simpl in *. rewrite !length_app in *.
  pose proof (background_leases_le ls1). pose proof (background_leases_le ls2).
  destruct c; simpl in *.
  all: rewrite ?filter_cons_True, ?filter_cons_False in * by done; simpl in *.
  all: split; simpl; rewrite ?length_insert, ?map_app, ?length_app, ?filter_app,
         ?length_app; auto; word_small; try lia.
  all: intros j; rewrite slot_is_used_clear, pi_used_slots0, Hperm, elem_of_cons by done.
  all: split; [naive_solver|]; intros Hj; split; [by intros ->|by right].
Qed.

Lemma pool_step_inv ls p ls' p' :
  pool_step (ls, p) (ls', p') -> pool_inv ls p -> pool_inv ls' p'.
Proof.
  intros Hstep Hi. inversion Hstep as [n c ? ? l ? Ht|n c ? ? ? Ht|? l ? ? ? Hr]; subst.
  - exact (try_acquire_inv _ _ _ _ _ _ Hi Ht).
  - exact (try_acquire_inv _ _ _ _ _ _ Hi Ht).
  - destruct (release_lease_inv _ _ _ _ Hi) as (p'' & Heq & ?). congruence.
Qed.

(** Calls never touch the geometry: slot pointers, slot size and reserve. *)
Definition pool_geometry (p : FixedBufferPool) : list Z * Z * Z :=
  (map slot_pointer (slots p), slot_bytes p, reserved_demand_slots p).

Lemma map_slot_pointer_insert l i s b :
  l !! i = Some s -> map slot_pointer (<[i := mkSlot (slot_pointer s) b]> l) = map slot_pointer l.
Proof.
  intros Hs. change (map slot_pointer) with (fmap (M:=list) slot_pointer).
  rewrite list_fmap_insert. apply list_insert_id. by rewrite list_lookup_fmap, Hs.
Qed.

Lemma pool_step_geometry ls p ls' p' :
  pool_step (ls, p) (ls', p') -> pool_geometry p' = pool_geometry p.
Proof.
  assert (Ht : forall n c o q, try_acquire n c p = (o, q) -> pool_geometry q = pool_geometry p).
  { intros n c o q. unfold try_acquire, stall, pool_geometry.
    destruct (_ >? _); [by intros; simplify_eq|].
    destruct (_ && _); [by intros; simplify_eq|].
    destruct (first_free (slots p)) as [i|] eqn:Ef; [|case_match; by intros; simplify_eq].
    destruct (first_free_Some _ _ Ef) as (s & Hs & _).
    rewrite (list_alter_insert _ _ _ _ Hs).
    destruct c; intros; simplify_eq/=; by rewrite map_slot_pointer_insert. }
  intros Hstep. inversion Hstep as [n c ? ? l ? E|n c ? ? ? E|? l ? ? ? E]; subst; eauto.
  revert E. unfold release_lease, pool_geometry. case_match eqn:Hs; [|done].
  case_match; intros; simplify_eq/=; by rewrite map_slot_pointer_insert.
Qed.

Lemma pool_reachable_inv p0 ls p :
  pool_inv [] p0 -> pool_reachable p0 ls p ->
  pool_inv ls p /\ pool_geometry p = pool_geometry p0.
Proof.
  intros H0 Hr.
  refine (rtc_ind_r (fun st => pool_inv st.1 st.2 /\ pool_geometry st.2 = pool_geometry p0)
            ([], p0) _ _ (ls, p) Hr); [done|].
  intros [ls1 p1] [ls2 p2] _ Hstep [Hi Hg]. simpl in *.
  split; [by eapply pool_step_inv|]. rewrite <- Hg. by eapply pool_step_geometry.
Qed.

(** What construction establishes, from the allocator's promises. *)
Section CreateSpec.
Context {S : Type} `{HostAllocatorSpec S}.

Lemma allocate_slots_spec count n a s ps s' :
  ha_inv s -> 0 < n -> u64 n -> u64 a ->
  allocate_slots count n a s = (inl ps, s') ->
  length ps = count /\ Forall (fun p => p mod a = 0) ps /\
  Forall (fun q => Forall (disjoint_blocks (q, n)) (ha_live s)) ps /\
  ForallOrdPairs (fun p q => disjoint_blocks (q, n) (p, n)) ps.
Proof.
  intros Hi Hn Un Ua. revert s ps Hi. induction count as [|count IH]; intros s ps Hi; simpl.
  { intros; simplify_eq/=. split_and!; auto; constructor. }
  destruct (ha_allocate n a s) as [[p|] s1] eqn:E; [|done].
  destruct (ha_allocate_spec n a s _ s1 Hi Hn Un Ua E) as (Hi1 & Hlive & Hal & Hdis).
  destruct (allocate_slots count n a s1) as [[ps1|] s2] eqn:E1; [|done].
  intros; simplify_eq/=. destruct (IH s1 ps1 Hi1 E1) as (Hlen & Hmod & Hfresh & Hpairs).
  rewrite Hlive in Hfresh. split_and!; [by rewrite Hlen|by constructor| |].
  - constructor; [done|]. eapply Forall_impl; [exact Hfresh|].
    intros q. by intros [_ ?]%Forall_cons.
  - constructor; [|done]. eapply Forall_impl; [exact Hfresh|].
    intros q. by intros [? _]%Forall_cons.
Qed.

Lemma pool_create_spec count n a s reserved p s' :
  ha_inv s -> u64 count -> u64 n -> u64 a -> 0 <= reserved ->
  pool_create count n a (Some s) reserved = (Ok p, s') ->
  pool_inv [] p /\ slot_bytes p = n /\ reserved_demand_slots p = reserved /\
  Z.of_nat (length (slots p)) = count /\
  Forall (fun q => q mod a = 0) (map slot_pointer (slots p)) /\
  ForallOrdPairs (fun p q => disjoint_blocks (q, n) (p, n)) (map slot_pointer (slots p)).
Proof.
  intros Hi Uc Un Ua Hr. unfold pool_create, u64 in *.
  destruct (_ || _) eqn:E1; [done|]. destruct (_ >? _) eqn:E2; [done|]. zbool.
  destruct (allocate_slots _ n a s) as [[ps|] s1] eqn:E; [|done].
  intros; simplify_eq/=.
  destruct (allocate_slots_spec _ n a s ps s1 Hi ltac:(lia) Un Ua E) as (Hlen & Hmod & _ & Hd).
  rewrite map_map, map_id, length_map, Hlen. split_and!; auto; [|lia].
  split; simpl; rewrite ?length_map, ?Hlen; try lia; [constructor|].
  intros i. split; [|by intros ?%elem_of_nil].
  intros (x & Hx & Hu). apply list_lookup_fmap_Some in Hx as (q & -> & _). done.
Qed.
End CreateSpec.

Lemma ForallOrdPairs_lookup {A} (R : A -> A -> Prop) l i j x y :
  ForallOrdPairs R l -> (i < j)%nat -> l !! i = Some x -> l !! j = Some y -> R x y.
Proof.
  intros HR. revert i j. induction HR as [|z l Hz HR IH]; intros i j Hij Hi Hj; [done|].
  destruct j as [|j]; [lia|]. destruct i as [|i]; simplify_eq/=.
  - rewrite Forall_lookup in Hz. by eapply Hz.
  - apply (IH i j); [lia|done|done].
Qed.

(** Two different leases hold two different slots. *)
Lemma leases_distinct ls p i j l1 l2 :
  pool_inv ls p -> i <> j -> ls !! i = Some l1 -> ls !! j = Some l2 ->
  lease_slot l1 <> lease_slot l2.
Proof.
  intros Hi Hij H1 H2 Heq. apply Hij. eapply (NoDup_lookup (map lease_slot ls)); [apply Hi| |].
  - change (map lease_slot) with (fmap (M:=list) lease_slot). by rewrite list_lookup_fmap, H1.
  - change (map lease_slot) with (fmap (M:=list) lease_slot). by rewrite list_lookup_fmap, H2, Heq.
Qed.

Lemma lease_pointer ls p l :
  pool_inv ls p -> l ∈ ls ->
  exists q, map slot_pointer (slots p) !! lease_slot l = Some q /\
    data (lease_buffer l p) = Some q.
Proof.
  intros Hi Hl. assert (Hin : lease_slot l ∈ map lease_slot ls) by set_solver.
  apply (pi_used_slots _ _ Hi) in Hin as (s & Hs & _).
  exists (slot_pointer s). change (map slot_pointer) with (fmap (M:=list) slot_pointer).
  split; [by rewrite list_lookup_fmap, Hs|]. unfold lease_buffer. simpl. by rewrite Hs.
Qed.

(** C16: a pool built over any correct allocator: after any interleaving of
    acquisitions and releases, two outstanding leases never share memory, every
    buffer has the size and the alignment the pool was built with, and
    destroying an outstanding lease never throws. *)
Theorem pool_leases_exclusive {S} `{HostAllocatorSpec S} (s : S) count n a reserved p0 s' ls p :
  ha_inv s -> u64 count -> u64 n -> u64 a -> 0 <= reserved ->
  pool_create count n a (Some s) reserved = (Ok p0, s') ->
  pool_reachable p0 ls p ->
  (forall i j l1 l2, i <> j -> ls !! i = Some l1 -> ls !! j = Some l2 ->
     exists q1 q2, data (lease_buffer l1 p) = Some q1 /\ data (lease_buffer l2 p) = Some q2 /\
       disjoint_blocks (q1, n) (q2, n)) /\
  (forall l, l ∈ ls -> buffer_capacity (lease_buffer l p) = n /\
     exists q, data (lease_buffer l p) = Some q /\ q mod a = 0) /\
  (forall ls1 l ls2, ls = ls1 ++ l :: ls2 -> exists p', release_lease l p = Ok p').
Proof.
  intros Hi Uc Un Ua Hr Hc Hreach.
  destruct (pool_create_spec _ _ _ _ _ _ _ Hi Uc Un Ua Hr Hc)
    as (Hp0 & Hn & _ & _ & Hmod & Hpairs).
  destruct (pool_reachable_inv _ _ _ Hp0 Hreach) as [Hinv Hg].
  injection Hg as Hptr Hsb _. rewrite <- Hptr in Hmod, Hpairs.
  split_and!.
  - intros i j l1 l2 Hij H1 H2.
    pose proof (leases_distinct _ _ _ _ _ _ Hinv Hij H1 H2) as Hne.
    apply list_elem_of_lookup_2 in H1, H2.
    destruct (lease_pointer _ _ _ Hinv H1) as (q1 & Hq1 & Hb1).
    destruct (lease_pointer _ _ _ Hinv H2) as (q2 & Hq2 & Hb2).
    exists q1, q2. split_and!; [done|done|].
    destruct (Nat.lt_total (lease_slot l1) (lease_slot l2)) as [Hlt|[?|Hlt]]; [|done|].
    + pose proof (ForallOrdPairs_lookup _ _ _ _ _ _ Hpairs Hlt Hq1 Hq2) as Hd.
      unfold disjoint_blocks in *. simpl in *. lia.
    + exact (ForallOrdPairs_lookup _ _ _ _ _ _ Hpairs Hlt Hq2 Hq1).
  - intros l Hl. split; [simpl; congruence|].
    destruct (lease_pointer _ _ _ Hinv Hl) as (q & Hq & Hb). exists q. split; [done|].
    rewrite Forall_lookup in Hmod. by eapply Hmod.
  - intros ls1 l ls2 ->. destruct (release_lease_inv _ _ _ _ Hinv) as (p' & ? & _). eauto.
Qed.

(** A three-slot pool over a fresh bank, with one slot reserved for demand, after
    two acquisitions and the release of the first. *)
Definition demo_bank : MonotonicHostAllocator := fresh_bank 8192 16384 4096.
Definition demo_pool : FixedBufferPool :=
  mkPool 4096 4096 false [mkSlot 8192 false; mkSlot 12288 false; mkSlot 16384 false]
    0 0 1 0 0 0 0 0 0.
Definition demo_pool_after : FixedBufferPool :=
  mkPool 4096 4096 false [mkSlot 8192 true; mkSlot 12288 true; mkSlot 16384 false]
    2 1 1 2 1 1 1 0 0.

Lemma demo_bank_inv : ha_inv demo_bank.
Proof. split; simpl; try (unfold u64, U64_MAX; lia); [done|split; done|constructor]. Qed.

Lemma demo_pool_reachable :
  pool_reachable demo_pool [mkLease 1 background_class; mkLease 0 demand_class] demo_pool_after.
Proof.
  eapply rtc_l; [eapply (step_acquire 10 demand_class); reflexivity|].
  eapply rtc_l; [eapply (step_acquire 4096 background_class); reflexivity|].
  apply rtc_refl.
Qed.

Lemma pool_leases_exclusive_witness :
  data (lease_buffer (mkLease 0 demand_class) demo_pool_after) = Some 8192 /\
  forall l, l ∈ [mkLease 1 background_class; mkLease 0 demand_class] ->
    buffer_capacity (lease_buffer l demo_pool_after) = 4096 /\
    exists q, data (lease_buffer l demo_pool_after) = Some q /\ q mod 4096 = 0.
Proof.
  split; [reflexivity|].
  assert (Hc : pool_create 3 4096 4096 (Some demo_bank) 1 =
               (Ok demo_pool, Some (monotonic_run [(4096, 4096); (4096, 4096); (4096, 4096)]
                                      demo_bank))) by reflexivity.
  apply (pool_leases_exclusive demo_bank 3 4096 4096 1 demo_pool _ _ _ demo_bank_inv
           ltac:(unfold u64, U64_MAX; lia) ltac:(unfold u64, U64_MAX; lia)
           ltac:(unfold u64, U64_MAX; lia) ltac:(lia) Hc demo_pool_reachable).
Defined.

(** the demand reserve: in every reachable state a demand request that fits
    a slot is refused only when every slot is leased, and then at least
    [reserved_demand_slots] of the leases are demand leases; a background
    request is refused exactly when the slots are exhausted or the background
    leases fill everything outside the reserve. *)
Theorem pool_demand_reserve p0 ls p n :
  pool_inv [] p0 -> pool_reachable p0 ls p -> n <= slot_bytes p ->
  let slots_total := Z.of_nat (length (slots p)) in
  let leased := Z.of_nat (length ls) in
  let background := Z.of_nat (length (background_leases ls)) in
  ((try_acquire n demand_class p).1 = None <-> leased = slots_total) /\
  ((try_acquire n demand_class p).1 = None ->
     reserved_demand_slots p <= leased - background) /\
  ((try_acquire n background_class p).1 = None <->
     leased = slots_total \/ slots_total - reserved_demand_slots p <= background).
Proof.
  intros H0 Hreach Hn. destruct (pool_reachable_inv _ _ _ H0 Hreach) as [Hi _]. simpl.
  pose proof (leases_bounded _ _ Hi) as Hle.
  assert (Hfree : first_free (slots p) = None <->
                  Z.of_nat (length ls) = Z.of_nat (length (slots p))).
  { split; [intros Hf; pose proof (leases_full _ _ Hi Hf); lia|].
    intros Heq. destruct (first_free (slots p)) as [i|] eqn:E; [exfalso|done].
    destruct (first_free_Some _ _ E) as (s & Hs & Hu).
    destruct (leases_room _ _ _ _ Hi Hs Hu). lia. }
  assert (Hlim : background_limit p = Z.of_nat (length (slots p)) - reserved_demand_slots p).
  { unfold background_limit, sub64. apply wrap64_small. destruct Hi. unfold u64. lia. }
  destruct Hi. unfold try_acquire. rewrite Hlim.
  destruct (Z.gtb_spec n (slot_bytes p)); [lia|]. simpl.
  split_and!.
  - rewrite <- Hfree. destruct (first_free (slots p)); naive_solver.
  - destruct (first_free (slots p)); [done|]. intros _.
    assert (Z.of_nat (length ls) = Z.of_nat (length (slots p))) by (by apply Hfree). lia.
  - destruct (_ >=? _) eqn:E; zbool; simpl; [split; [intros _; right; lia|done]|].
    rewrite <- Hfree. destruct (first_free (slots p)); simpl; [|naive_solver].
    split; [done|]. intros [?|?]; [done|lia].
Qed.

Lemma demo_pool_inv : pool_inv [] demo_pool.
Proof.
  apply (pool_create_spec 3 4096 4096 demo_bank 1 demo_pool
           (Some (monotonic_run [(4096, 4096); (4096, 4096); (4096, 4096)] demo_bank))).
  all: try (unfold u64, U64_MAX; lia).
  - exact demo_bank_inv.
  - reflexivity.
Qed.

Lemma pool_demand_reserve_witness :
  (try_acquire 10 background_class demo_pool_after).1 = Some (mkLease 2 background_class) /\
  ((try_acquire 10 demand_class demo_pool_after).1 = None <-> 2 = 3).
Proof.
  split; [reflexivity|].
  exact (proj1 (pool_demand_reserve demo_pool _ demo_pool_after 10 demo_pool_inv
                  demo_pool_reachable ltac:(simpl; lia))).
Defined.

(** The order in which leases are listed does not matter. *)
Lemma pool_inv_perm ls ls' p : ls ≡ₚ ls' -> pool_inv ls p -> pool_inv ls' p.
Proof.
  intros Hp []. split; auto.
  - change (NoDup (lease_slot <$> ls')). by rewrite <- Hp.
  - intros i. rewrite pi_used_slots0. change (i ∈ lease_slot <$> ls <-> i ∈ lease_slot <$> ls').
    by rewrite Hp.
  - by rewrite <- Hp.
  - by rewrite <- Hp.
Qed.
