(* ===== verification/ResourceGovernor.v ===== *)
(** Admission of memory ([runtime/src/resource_governor.cpp],
    [runtime/include/expert/runtime/resource_governor.hpp]): fitting a device
    cache into what is left, and the governor that makes trimmable tiers yield
    before it grants a reservation.

    Tiers are objects shared with their owners, so they live in a world [W] that
    the governor's calls thread through; [TierWorld] is the interface
    [ITrimmableMemoryTier] over pointers into that world. *)

From S2P Require Import Prelude Storage.

Inductive MemoryDomain : Type := host | device.

#[export] Instance MemoryDomain_eq_dec : EqDecision MemoryDomain.
Proof. solve_decision. Defined.

(** ** fit_device_cache_budget *)

Record DeviceCacheBudgetRequest := mkBudgetRequest {
  available_device_bytes : Z;
  fixed_device_bytes : Z;
  execution_workspace_bytes : Z;
  emergency_reserve_bytes : Z;
  requested_cache_bytes : Z;
  minimum_cache_bytes : Z }.

Record DeviceCacheBudgetResult := mkBudgetResult {
  budget_status : Status;
  effective_cache_bytes : Z }.

Definition fit_device_cache_budget (r : DeviceCacheBudgetRequest) : DeviceCacheBudgetResult :=
  if (available_device_bytes r =? 0) || (requested_cache_bytes r =? 0)
     || (minimum_cache_bytes r =? 0) || (requested_cache_bytes r <? minimum_cache_bytes r)
  then mkBudgetResult (mkStatus invalid_arg "invalid device cache budget request") 0
  else
    let non_cache_bytes :=
      saturating_add (saturating_add (fixed_device_bytes r) (execution_workspace_bytes r))
        (emergency_reserve_bytes r) in
    if non_cache_bytes >=? available_device_bytes r
    then mkBudgetResult
           (mkStatus backpressure "fixed device state leaves no cache capacity") 0
    else
      let available_cache_bytes := sub64 (available_device_bytes r) non_cache_bytes in
      if available_cache_bytes <? minimum_cache_bytes r
      then mkBudgetResult
             (mkStatus backpressure "available device cache is below the provider minimum") 0
      else mkBudgetResult success (Z.min (requested_cache_bytes r) available_cache_bytes).

(** ** Tiers *)

(** [ITrimmableMemoryTier]: every operation of the tier at a pointer, in a world. *)
Class TierWorld (W : Type) := {
  tier_name : Z -> W -> string;
  tier_domain : Z -> W -> MemoryDomain;
  tier_used_bytes : Z -> W -> Z;
  tier_protected_bytes : Z -> W -> Z;
  tier_trim_to : Z -> Z -> W -> Z * W }.

(** The contract of the interface: trimming reports the usage it reached, never
    grows any tier and does not move tiers between domains. *)
Class TierWorldSpec (W : Type) `{TierWorld W} := {
  tier_used_u64 p w : u64 (tier_used_bytes p w);
  tier_protected_u64 p w : u64 (tier_protected_bytes p w);
  tier_trim_spec p t w a w' :
    tier_trim_to p t w = (a, w') ->
    a = tier_used_bytes p w' /\
    (forall q, tier_used_bytes q w' <= tier_used_bytes q w) /\
    (forall q, tier_domain q w' = tier_domain q w) }.

(** A tier that can always yield down to the target, alone. *)
Class TierWorldExact (W : Type) `{TierWorldSpec W} := {
  tier_trim_exact p t w a w' :
    tier_trim_to p t w = (a, w') ->
    a = Z.min (tier_used_bytes p w) t /\
    (forall q, tier_protected_bytes q w' = tier_protected_bytes q w) /\
    (forall q, q <> p -> tier_used_bytes q w' = tier_used_bytes q w) }.

(** ** The governor *)

Record MemoryGovernorConfig := mkGovernorConfig {
  host_budget_bytes : Z;
  device_budget_bytes : Z;
  host_emergency_reserve_bytes : Z;
  device_emergency_reserve_bytes : Z }.

Record MemoryTierRegistration := mkRegistration {
  reg_tier : option Z;
  eviction_priority : Z }.

Record Governor := mkGovernor {
  gov_config : MemoryGovernorConfig;
  tiers : list (Z * Z);
  host_reserved : Z;
  device_reserved : Z;
  trim_calls : Z;
  trimmed_bytes : Z;
  rejected : Z }.

#[export] Instance eta_Governor : Eta Governor := fun g =>
  mkGovernor (gov_config g) (tiers g) (host_reserved g) (device_reserved g)
    (trim_calls g) (trimmed_bytes g) (rejected g).

Definition governor_create (c : MemoryGovernorConfig) : outcome Governor :=
  if (host_budget_bytes c =? 0) || (device_budget_bytes c =? 0)
     || (host_emergency_reserve_bytes c >=? host_budget_bytes c)
     || (device_emergency_reserve_bytes c >=? device_budget_bytes c)
  then Throw (invalid_argument "invalid memory governor configuration")
  else Ok (mkGovernor c [] 0 0 0 0 0).

Definition budget (d : MemoryDomain) (g : Governor) : Z :=
  match d with
  | host => host_budget_bytes (gov_config g)
  | device => device_budget_bytes (gov_config g)
  end.

Definition emergency (d : MemoryDomain) (g : Governor) : Z :=
  match d with
  | host => host_emergency_reserve_bytes (gov_config g)
  | device => device_emergency_reserve_bytes (gov_config g)
  end.

Definition reserved (d : MemoryDomain) (g : Governor) : Z :=
  match d with host => host_reserved g | device => device_reserved g end.

Definition set_reserved (d : MemoryDomain) (v : Z) (g : Governor) : Governor :=
  match d with
  | host => g <| host_reserved := v |>
  | device => g <| device_reserved := v |>
  end.

Section Governor.
Context {W : Type} `{TierWorld W}.

Definition tier_bytes (d : MemoryDomain) (g : Governor) (w : W) : Z :=
  foldl (fun total r =>
    if bool_decide (tier_domain r.1 w = d)
    then saturating_add total (tier_used_bytes r.1 w) else total) 0 (tiers g).

Definition fits (required limit tiers_used : Z) : bool :=
  (required <=? limit) && (tiers_used <=? sub64 limit required).

Definition rebalance_rejected (d : MemoryDomain) : Status :=
  mkStatus backpressure
    match d with
    | host => "host memory budget remains exhausted after trimming"
    | device => "device memory budget remains exhausted after trimming"
    end.

(** The loop over the registrations, lowest priority first. *)
Fixpoint rebalance_loop (d : MemoryDomain) (required limit tiers_used : Z)
    (rs : list (Z * Z)) (g : Governor) (w : W) : Status * Governor * W :=
  match rs with
  | [] => (rebalance_rejected d, g <| rejected %= inc64 |>, w)
  | (p, _) :: rs =>
    if bool_decide (tier_domain p w = d) then
      let used := tier_used_bytes p w in
      let other := if tiers_used >=? used then sub64 tiers_used used else 0 in
      let available := if required <=? limit then sub64 limit required else 0 in
      let target := if other <? available then sub64 available other else 0 in
      let protected_target := Z.max target (tier_protected_bytes p w) in
      let '(after, w) := tier_trim_to p protected_target w in
      let g := if used >? after
               then g <| trimmed_bytes %= fun b => add64 b (sub64 used after) |> else g in
      let tiers_used := saturating_add other after in
      if fits required limit tiers_used then (success, g, w)
      else rebalance_loop d required limit tiers_used rs g w
    else rebalance_loop d required limit tiers_used rs g w
  end.

Definition rebalance_locked (d : MemoryDomain) (additional : Z) (g : Governor) (w : W)
    : Status * Governor * W :=
  let limit := sub64 (budget d g) (emergency d g) in
  let required := saturating_add (reserved d g) additional in
  let tiers_used := tier_bytes d g w in
  if fits required limit tiers_used then (success, g, w)
  else rebalance_loop d required limit tiers_used (tiers g) (g <| trim_calls %= inc64 |>) w.

Definition register_tier (r : MemoryTierRegistration) (g : Governor) (w : W)
    : outcome Governor :=
  match reg_tier r with
  | None => Throw (invalid_argument "invalid memory tier registration")
  | Some p =>
    if bool_decide (tier_name p w = ""%string)
    then Throw (invalid_argument "invalid memory tier registration")
    else if existsb (fun e => e.1 =? p) (tiers g)
    then Throw (invalid_argument "duplicate memory tier")
    else Ok (g <| tiers := stable_sort (fun a b => a.2 <? b.2)
                             (tiers g ++ [(p, eviction_priority r)]) |>)
  end.

Definition reserve (d : MemoryDomain) (n : Z) (g : Governor) (w : W)
    : Status * Governor * W :=
  if n =? 0 then (mkStatus invalid_arg "zero-byte reservation", g, w)
  else
    let '(status, g, w) := rebalance_locked d n g w in
    if status_ok status
    then (success, set_reserved d (add64 (reserved d g) n) g, w)
    else (status, g, w).

Definition release (d : MemoryDomain) (n : Z) (g : Governor) : Governor :=
  let r := reserved d g in
  set_reserved d (if n <=? r then sub64 r n else 0) g.

Definition rebalance (d : MemoryDomain) (additional : Z) (g : Governor) (w : W)
    : Status * Governor * W :=
  rebalance_locked d additional g w.

Record MemoryGovernorSnapshot := mkGovernorSnapshot {
  gs_host_budget_bytes : Z;
  gs_device_budget_bytes : Z;
  gs_host_reserved_bytes : Z;
  gs_device_reserved_bytes : Z;
  gs_host_tier_bytes : Z;
  gs_device_tier_bytes : Z;
  gs_trim_calls : Z;
  gs_trimmed_bytes : Z;
  gs_rejected_reservations : Z }.

Definition governor_snapshot (g : Governor) (w : W) : MemoryGovernorSnapshot :=
  mkGovernorSnapshot (host_budget_bytes (gov_config g)) (device_budget_bytes (gov_config g))
    (host_reserved g) (device_reserved g) (tier_bytes host g w) (tier_bytes device g w)
    (trim_calls g) (trimmed_bytes g) (rejected g).
End Governor.

(** ** Fitting the device cache *)

(** The envelope is met exactly: fixed state, workspace, emergency reserve and
    the granted cache fit the device; the grant is never under the minimum nor
    over the request, and it is the largest such. *)
Definition budget_fits (r : DeviceCacheBudgetRequest) (c : Z) : Prop :=
  fixed_device_bytes r + execution_workspace_bytes r + emergency_reserve_bytes r + c
    <= available_device_bytes r /\
  minimum_cache_bytes r <= c <= requested_cache_bytes r.

(** [fit_device_cache_budget] succeeds exactly when some cache size of at
    least the provider's minimum fits beside everything that is not evictable,
    and then grants the largest one; on failure it grants nothing. Saturation of
    the intermediate sums never turns an impossible request into a success. *)
Theorem fit_device_cache_budget_spec r :
  u64 (available_device_bytes r) -> u64 (fixed_device_bytes r) ->
  u64 (execution_workspace_bytes r) -> u64 (emergency_reserve_bytes r) ->
  u64 (requested_cache_bytes r) -> 0 < minimum_cache_bytes r ->
  let res := fit_device_cache_budget r in
  (status_ok (budget_status res) = true <-> exists c, budget_fits r c) /\
  (status_ok (budget_status res) = true ->
     budget_fits r (effective_cache_bytes res) /\
     forall c, budget_fits r c -> c <= effective_cache_bytes res) /\
  (status_ok (budget_status res) = false -> effective_cache_bytes res = 0).
Proof.
  unfold u64, U64_MAX, budget_fits. intros Ha Hf Hw He Hq Hm. simpl.
  unfold fit_device_cache_budget. rewrite !saturating_add_min.
  destruct (_ || _) eqn:E1; simpl.
  { split_and!; try done. split; [done|]. intros (c & ?).
    repeat (apply orb_true_iff in E1 as [E1|E1]); zbool; lia. }
  zbool. destruct (_ >=? _) eqn:E2; simpl; zbool.
  { split_and!; try done. split; [done|]. intros (c & ?). unfold U64_MAX in *. lia. }
  unfold sub64. rewrite wrap64_small by (unfold u64, U64_MAX in *; lia).
  destruct (_ <? _) eqn:E3; simpl; zbool.
  { split_and!; try done. split; [done|]. intros (c & ?). unfold U64_MAX in *. lia. }
  split_and!; [|intros _; split; [|intros c]|done]; unfold U64_MAX in *; try lia.
  split; [|done]. intros _. exists (minimum_cache_bytes r). lia.
Qed.

Lemma fit_device_cache_budget_spec_witness :
  let r := mkBudgetRequest 24000 9000 2000 1000 20000 500 in
  effective_cache_bytes (fit_device_cache_budget r) = 12000 /\
  (status_ok (budget_status (fit_device_cache_budget r)) = true <-> exists c, budget_fits r c).
Proof.
  split; [reflexivity|].
  apply (fit_device_cache_budget_spec (mkBudgetRequest 24000 9000 2000 1000 20000 500)).
  all: unfold u64, U64_MAX; simpl; lia.
Defined.

(** ** The governor never overcommits *)

Section Sums.
Context {W : Type} `{TierWorld W}.

(** The bytes the registered tiers of a domain hold, without saturation, and the
    bytes they cannot be made to give up. *)
Definition domain_sum (f : Z -> W -> Z) (d : MemoryDomain) (rs : list (Z * Z)) (w : W) : Z :=
  foldr (fun r acc => (if bool_decide (tier_domain r.1 w = d) then f r.1 w else 0) + acc) 0 rs.

Definition domain_used := domain_sum tier_used_bytes.
Definition domain_floor := domain_sum (fun p w =>
  Z.min (tier_used_bytes p w) (tier_protected_bytes p w)).

Lemma domain_sum_nonneg f d rs w :
  (forall p, 0 <= f p w) -> 0 <= domain_sum f d rs w.
Proof.
  intros Hf. induction rs as [|r rs IH]; simpl; [lia|].
  specialize (Hf r.1). case_bool_decide; lia.
Qed.

Lemma domain_sum_le f f' d rs w w' :
  (forall p, tier_domain p w' = tier_domain p w) ->
  (forall p s, (p, s) ∈ rs -> tier_domain p w = d -> f p w <= f' p w') ->
  domain_sum f d rs w <= domain_sum f' d rs w'.
Proof.
  intros Hd. induction rs as [|[p s] rs IH]; intros Hf; simpl; [lia|].
  rewrite Hd. assert (domain_sum f d rs w <= domain_sum f' d rs w').
  { apply IH. intros q t Hq. apply (Hf q t). by constructor. }
  case_bool_decide; [|lia]. specialize (Hf p s ltac:(constructor) ltac:(done)). lia.
Qed.
End Sums.

Section GovernorSpec.
Context {W : Type} `{TierWorldSpec W}.

Lemma domain_used_nonneg d rs w : 0 <= domain_used d rs w.
Proof. apply domain_sum_nonneg. intros p. apply tier_used_u64. Qed.

Lemma tier_bytes_sum d g w : tier_bytes d g w = Z.min U64_MAX (domain_used d (tiers g) w).
Proof.
  unfold tier_bytes.
  assert (Hgen : forall rs acc, 0 <= acc <= U64_MAX ->
    foldl (fun total r => if bool_decide (tier_domain r.1 w = d)
             then saturating_add total (tier_used_bytes r.1 w) else total) acc rs
    = Z.min U64_MAX (acc + domain_used d rs w)).
  { induction rs as [|r rs IH]; intros acc Hacc; simpl; [lia|].
    pose proof (tier_used_u64 r.1 w) as Hu. unfold u64 in Hu.
    pose proof (domain_used_nonneg d rs w).
    rewrite IH; case_bool_decide; rewrite ?saturating_add_min; fold domain_used; lia. }
  rewrite Hgen; [f_equal; lia|]. unfold U64_MAX. lia.
Qed.

Lemma domain_used_elem d rs w p s :
  (p, s) ∈ rs -> tier_domain p w = d -> tier_used_bytes p w <= domain_used d rs w.
Proof.
  intros Hin Hd. induction rs as [|[q u] rs IH]; [by apply elem_of_nil in Hin|].
  pose proof (domain_used_nonneg d rs w). pose proof (tier_used_u64 q w) as Hq.
  unfold domain_used, u64 in *. simpl.
  apply elem_of_cons in Hin as [[= <- <-]|Hin].
  - rewrite bool_decide_true by done. lia.
  - specialize (IH Hin). case_bool_decide; lia.
Qed.

(** One trim of a registered tier lowers the total by what the tier gave up. *)
Lemma domain_used_trim d rs w p s t a w' :
  (p, s) ∈ rs -> tier_domain p w = d -> tier_trim_to p t w = (a, w') ->
  domain_used d rs w' <= domain_used d rs w - tier_used_bytes p w + a.
Proof.
  intros Hin Hd Ht. destruct (tier_trim_spec p t w a w' Ht) as (-> & Hle & Hdom).
  assert (Hall : forall l, domain_used d l w' <= domain_used d l w).
  { intros l. apply domain_sum_le; [done|]. intros; apply Hle. }
  induction rs as [|[q u] rs IH]; [by apply elem_of_nil in Hin|].
  simpl. rewrite Hdom. apply elem_of_cons in Hin as [[= <- <-]|Hin].
  - rewrite bool_decide_true by done. specialize (Hall rs). unfold domain_used in *. lia.
  - specialize (IH Hin). specialize (Hle q). unfold domain_used in *. case_bool_decide; lia.
Qed.

(** What every run of the loop keeps: registrations, configuration and
    reservations of the governor; domains and the absence of growth of tiers. *)
Definition undisturbed (g g' : Governor) (w w' : W) : Prop :=
  gov_config g' = gov_config g /\ tiers g' = tiers g /\
  host_reserved g' = host_reserved g /\ device_reserved g' = device_reserved g /\
  (forall q, tier_domain q w' = tier_domain q w) /\
  (forall q, tier_used_bytes q w' <= tier_used_bytes q w).

Lemma undisturbed_trans g1 g2 g3 w1 w2 w3 :
  undisturbed g1 g2 w1 w2 -> undisturbed g2 g3 w2 w3 -> undisturbed g1 g3 w1 w3.
Proof.
  intros (?&?&?&?&Hd&Hu) (?&?&?&?&Hd'&Hu'). split_and!; try congruence.
  intros q. specialize (Hu q). specialize (Hu' q). lia.
Qed.

Lemma rebalance_loop_spec d required limit tiers_used all rs g w st g' w' :
  u64 limit -> 0 <= required ->
  (forall r, r ∈ rs -> r ∈ all) ->
  domain_used d all w <= tiers_used <= U64_MAX ->
  rebalance_loop d required limit tiers_used rs g w = (st, g', w') ->
  undisturbed g g' w w' /\
  (status_ok st = true -> required + domain_used d all w' <= limit).
Proof.
  intros Hlim Hreq. revert tiers_used g w.
  induction rs as [|[p s] rs IH]; intros tiers_used g w Hsub Ht; simpl.
  { intros; simplify_eq. split; [by split_and!|by destruct d]. }
  assert (Hsub' : forall r, r ∈ rs -> r ∈ all) by (intros; apply Hsub; by constructor).
  case_bool_decide as Hd; [|by apply IH].
  set (target := Z.max _ _). destruct (tier_trim_to p target w) as [after w1] eqn:E.
  pose proof (tier_trim_spec p target w after w1 E) as (Hafter & Hle & Hdom).
  pose proof (Hsub (p, s) ltac:(constructor)) as Hin.
  pose proof (domain_used_trim d all w p s target after w1 Hin Hd E) as Htrim.
  pose proof (domain_used_elem d all w p s Hin Hd) as Hself.
  pose proof (tier_used_u64 p w) as Hu. pose proof (tier_used_u64 p w1) as Hu1.
  pose proof (domain_used_nonneg d all w1) as H0'. unfold u64 in *.
  rewrite (proj2 (Z.geb_le tiers_used (tier_used_bytes p w))) by lia.
  clearbody target.
  assert (sub64 tiers_used (tier_used_bytes p w) = tiers_used - tier_used_bytes p w) as ->.
  { unfold sub64. apply wrap64_small. unfold u64. lia. }
  rewrite saturating_add_min. set (next := Z.min _ _).
  assert (Hnext : domain_used d all w1 <= next <= U64_MAX).
  { subst next. specialize (Hle p). lia. }
  set (g1 := if tier_used_bytes p w >? after then _ else g).
  assert (Hg1 : undisturbed g g1 w w1) by (subst g1; case_match; by split_and!).
  destruct (fits required limit next) eqn:Ef.
  - intros; simplify_eq. split; [done|]. intros _. unfold fits, sub64 in Ef. zbool.
    rewrite wrap64_small in * by (unfold u64; lia). lia.
  - intros Hloop. destruct (IH next g1 w1 Hsub' Hnext Hloop) as [Hund Hok].
    split; [by eapply undisturbed_trans|done].
Qed.

(** A governor as construction and its own operations leave it. *)
Definition governor_ok (g : Governor) : Prop :=
  (forall d, 0 <= emergency d g < budget d g /\ budget d g - emergency d g < U64_MAX /\
     u64 (budget d g)) /\
  u64 (host_reserved g) /\ u64 (device_reserved g).

Lemma governor_limit d g :
  governor_ok g -> sub64 (budget d g) (emergency d g) = budget d g - emergency d g.
Proof.
  intros [Hb _]. specialize (Hb d). unfold sub64. apply wrap64_small. unfold u64 in *. lia.
Qed.

Lemma reserved_u64 d g : governor_ok g -> u64 (reserved d g).
Proof. intros (_ & ? & ?). by destruct d. Qed.

Lemma reserved_set d d' v g :
  reserved d' (set_reserved d v g) = if bool_decide (d = d') then v else reserved d' g.
Proof. by destruct d, d'. Qed.

Lemma undisturbed_reserved g g' w w' d : undisturbed g g' w w' -> reserved d g' = reserved d g.
Proof. intros (_ & _ & ? & ? & _). by destruct d. Qed.

Lemma rebalance_locked_spec d n g w st g' w' :
  governor_ok g -> u64 n -> domain_used d (tiers g) w <= U64_MAX ->
  rebalance_locked d n g w = (st, g', w') ->
  undisturbed g g' w w' /\
  (status_ok st = true ->
     reserved d g + n + domain_used d (tiers g) w' <= budget d g - emergency d g).
Proof.
  intros Hok Hn Hmax. unfold rebalance_locked.
  rewrite tier_bytes_sum, governor_limit, saturating_add_min by done.
  pose proof (reserved_u64 d g Hok) as Hr. destruct Hok as [Hb _].
  specialize (Hb d) as (He & Hlim & Hbud). unfold u64 in *.
  rewrite (Z.min_r U64_MAX (domain_used d (tiers g) w)) by done.
  destruct (fits _ _ _) eqn:Ef.
  - intros; simplify_eq. split; [by split_and!|]. intros _. unfold fits, sub64 in Ef. zbool.
    rewrite wrap64_small in * by (unfold u64, U64_MAX in *; lia). lia.
  - intros Hloop.
    pose proof (domain_used_nonneg d (tiers g) w).
    apply rebalance_loop_spec with (all := tiers g) in Hloop as [Hund Hst];
      unfold u64, U64_MAX in *; try done; try lia.
    split; [exact Hund|]. intros Hs. specialize (Hst Hs).
    pose proof (domain_used_nonneg d (tiers g) w'). lia.
Qed.

(** C17: admission never overcommits: when [reserve] succeeds, the domain's
    reservations and everything its registered tiers still hold fit the physical
    budget less the emergency reserve; when it fails, no reservation changed. In
    both cases no tier grew and registrations and limits are as before. *)
Theorem reserve_within_budget d n g w st g' w' :
  governor_ok g -> u64 n -> domain_used d (tiers g) w <= U64_MAX ->
  reserve d n g w = (st, g', w') ->
  tiers g' = tiers g /\ gov_config g' = gov_config g /\
  (forall q, tier_used_bytes q w' <= tier_used_bytes q w) /\
  (status_ok st = true ->
     reserved d g' = reserved d g + n /\
     (forall d', d' <> d -> reserved d' g' = reserved d' g) /\
     reserved d g' + domain_used d (tiers g') w' <= budget d g' - emergency d g') /\
  (status_ok st = false -> forall d', reserved d' g' = reserved d' g).
Proof.
  intros Hok Hn Hmax. unfold reserve. destruct (n =? 0) eqn:E0.
  { intros; simplify_eq. by split_and!. }
  destruct (rebalance_locked d n g w) as [[st1 g1] w1] eqn:E.
  destruct (rebalance_locked_spec _ _ _ _ _ _ _ Hok Hn Hmax E) as [Hund Hst].
  pose proof (undisturbed_reserved _ _ _ _ d Hund) as Hr.
  pose proof (fun d => undisturbed_reserved _ _ _ _ d Hund) as Hall.
  destruct Hund as (Hc & Ht & _ & _ & _ & Hu).
  destruct (status_ok st1) eqn:Es; intros; simplify_eq; cycle 1.
  { split_and!; [done..|by rewrite Es|done]. }
  specialize (Hst eq_refl). pose proof (reserved_u64 d g Hok).
  pose proof (domain_used_nonneg d (tiers g) w').
  destruct Hok as [Hb _]. specialize (Hb d) as (? & ? & ?).
  assert (Hsum : add64 (reserved d g1) n = reserved d g + n).
  { rewrite Hr. unfold add64. apply wrap64_small. unfold u64 in *. lia. }
  rewrite Hsum. split_and!; [by destruct d..|done| |done]. intros _.
  split; [by rewrite reserved_set, bool_decide_true|]. split.
  - intros d' Hd'. rewrite reserved_set, bool_decide_false by done. apply Hall.
  - rewrite reserved_set, bool_decide_true by done.
    replace (tiers (set_reserved d (reserved d g + n) g1)) with (tiers g) by (by destruct d).
    destruct d; simpl in *; rewrite Hc; lia.
Qed.
End GovernorSpec.

(** A world of two tiers, at pointers 1 and 2, that yield down to the target. *)
Definition twin_used (p : Z) (w : Z * Z) : Z :=
  if p =? 1 then wrap64 w.1 else if p =? 2 then wrap64 w.2 else 0.

#[export] Instance twin_tiers : TierWorld (Z * Z) := {
  tier_name _ _ := "tier"%string;
  tier_domain _ _ := host;
  tier_used_bytes := twin_used;
  tier_protected_bytes _ _ := 0;
  tier_trim_to p t w :=
    let w' := if p =? 1 then (Z.max 0 (Z.min (twin_used 1 w) t), w.2)
              else if p =? 2 then (w.1, Z.max 0 (Z.min (twin_used 2 w) t)) else w in
    (twin_used p w', w') }.

#[export] Instance twin_tiers_spec : TierWorldSpec (Z * Z).
Proof.
  split.
  - intros p w. simpl. unfold twin_used. repeat case_match; auto with word.
    unfold u64, U64_MAX. lia.
  - intros p w. simpl. unfold u64, U64_MAX. lia.
  - intros p t [a b] r w'. simpl. intros; simplify_eq. split_and!; [done| |done].
    pose proof (wrap64_u64 a) as Ha. pose proof (wrap64_u64 b) as Hb. unfold u64 in *.
    intros q. unfold twin_used.
    destruct (p =? 1) eqn:?, (p =? 2) eqn:?, (q =? 1) eqn:?, (q =? 2) eqn:?;
      simpl; zbool; try lia; rewrite (wrap64_small (Z.max _ _)) by (unfold u64; lia); lia.
Qed.

Lemma reserve_within_budget_witness :
  let g := mkGovernor (mkGovernorConfig 100 100 10 10) [(1, 5); (2, 7)] 20 0 0 0 0 in
  exists g' w', reserve host 50 g (40, 25) = (success, g', w') /\
    w' = (0, 20) /\
    reserved host g' + domain_used host (tiers g') w' <= budget host g' - emergency host g'.
Proof.
  simpl. eexists _, _. split; [vm_compute; reflexivity|]. split; [reflexivity|].
  apply (reserve_within_budget host 50
    (mkGovernor (mkGovernorConfig 100 100 10 10) [(1, 5); (2, 7)] 20 0 0 0 0) (40, 25) success).
  - unfold governor_ok, u64, U64_MAX. simpl. split; [intros []; simpl; lia|lia].
  - unfold u64, U64_MAX. lia.
  - vm_compute. discriminate.
  - vm_compute. reflexivity.
  - reflexivity.
Defined.
