(* ===== verification/Scheduler.v ===== *)
(** The continuous-batching scheduler ([runtime/src/scheduler.cpp],
    [runtime/include/expert/runtime/scheduler.hpp]): requests enqueue tokens, each
    token is one work item per routed expert, and [schedule] batches the items
    whose expert is resident, earliest deadline first and grouped by expert.

    Work ids come from a 64-bit counter that the model increments with its
    wrap-around; the theorems assume it has not been exhausted, which the step
    relation states as a premise of [enqueue]. A routing weight is the bit pattern
    of its float: the scheduler only moves it. *)

From S2P Require Import Prelude Storage.

Inductive ExpertResidency : Type := absent | ram_ready | vram_ready | failed.

Record SchedulerConfig := mkSchedulerConfig {
  maximum_requests : Z;
  maximum_queued_tokens : Z;
  maximum_batch_items : Z }.

Record RoutedExpert := mkRouted { routed_expert : Z; routed_weight : Z }.

Record TokenWork := mkTokenWork {
  tw_request : Z;
  tw_sequence : Z;
  tw_row : Z;
  tw_layer : Z;
  deadline_tick : Z;
  experts : list RoutedExpert }.

Record ScheduledItem := mkScheduled {
  work : Z;
  request : Z;
  sequence : Z;
  row : Z;
  layer : Z;
  expert : Z;
  routing_weight : Z }.

Record ExpertGroup := mkGroup {
  group_layer : Z;
  group_expert : Z;
  group_items : list ScheduledItem }.

Record SchedulerBatch := mkBatch {
  groups : list ExpertGroup;
  ready_items : Z;
  blocked_items : Z;
  failed_items : Z;
  unique_experts : Z }.

Record SchedulerSnapshot := mkSnapshot {
  active_requests : Z;
  queued_tokens : Z;
  pending_items : Z;
  admitted_requests : Z;
  rejected_requests : Z;
  cancelled_requests : Z;
  completed_tokens : Z;
  scheduled_items : Z;
  reused_items : Z }.

#[export] Instance eta_SchedulerSnapshot : Eta SchedulerSnapshot := fun s =>
  mkSnapshot (active_requests s) (queued_tokens s) (pending_items s) (admitted_requests s)
    (rejected_requests s) (cancelled_requests s) (completed_tokens s) (scheduled_items s)
    (reused_items s).

(** [TokenKey]: request and sequence, compared as the pair. *)
Abbreviation TokenKey := (Z * Z)%type.

Record Item := mkItem {
  value : ScheduledItem;
  deadline : Z;
  item_arrival : Z;
  in_flight : bool;
  complete : bool }.

#[export] Instance eta_Item : Eta Item := fun i =>
  mkItem (value i) (deadline i) (item_arrival i) (in_flight i) (complete i).

Record Token := mkToken {
  key : TokenKey;
  arrival : Z;
  token_work : list Z }.

Record Core := mkCore {
  config : SchedulerConfig;
  requests : gset Z;
  tokens : gmap TokenKey Token;
  items : gmap Z Item;
  next_work : Z;
  clock : Z;
  metrics : SchedulerSnapshot }.

#[export] Instance eta_Core : Eta Core := fun c =>
  mkCore (config c) (requests c) (tokens c) (items c) (next_work c) (clock c) (metrics c).

Definition size_z {K V} `{Countable K} (m : gmap K V) : Z := Z.of_nat (size m).
Definition set_size_z (s : gset Z) : Z := Z.of_nat (size s).

Definition scheduler_create (c : SchedulerConfig) : outcome Core :=
  if (maximum_requests c =? 0) || (maximum_queued_tokens c =? 0)
     || (maximum_batch_items c =? 0)
  then Throw (invalid_argument "scheduler limits must be positive")
  else Ok (mkCore c ∅ ∅ ∅ 1 0 (mkSnapshot 0 0 0 0 0 0 0 0 0)).

Definition admit_request (r : Z) (c : Core) : Status * Core :=
  if r =? 0 then (mkStatus invalid_arg "request id zero", c)
  else if bool_decide (r ∈ requests c)
  then (mkStatus invalid_arg "duplicate request id", c)
  else if set_size_z (requests c) >=? maximum_requests (config c)
  then (mkStatus backpressure "request capacity exhausted",
        c <| metrics %= fun m => m <| rejected_requests %= inc64 |> |>)
  else
    let c := c <| requests %= fun s => {[r]} ∪ s |> in
    (success, c <| metrics %= fun m =>
       m <| admitted_requests %= inc64 |> <| active_requests := set_size_z (requests c) |> |>).

(** The loop of [enqueue] over the token's routes: one fresh id and one item per
    route; [emplace] leaves an entry that already has the key. *)
Fixpoint enqueue_items (t : TokenWork) (arrived : Z) (routes : list RoutedExpert)
    (next : Z) (m : gmap Z Item) : list Z * Z * gmap Z Item :=
  match routes with
  | [] => ([], next, m)
  | r :: routes =>
    let scheduled := mkScheduled next (tw_request t) (tw_sequence t) (tw_row t) (tw_layer t)
                       (routed_expert r) (routed_weight r) in
    let item := mkItem scheduled (deadline_tick t) arrived false false in
    let m := match m !! next with Some _ => m | None => <[next := item]> m end in
    let '(ids, next', m) := enqueue_items t arrived routes (inc64 next) m in
    (next :: ids, next', m)
  end.

(** What the operations that add or remove tokens recompute. *)
Definition refresh_queue (c : Core) : Core :=
  c <| metrics %= fun m => m <| queued_tokens := size_z (tokens c) |>
                             <| pending_items := size_z (items c) |> |>.

Definition enqueue (t : TokenWork) (c : Core) : Status * Core :=
  if negb (bool_decide (tw_request t ∈ requests c)) || bool_decide (experts t = [])
  then (mkStatus invalid_arg "unknown request or empty route", c)
  else if size_z (tokens c) >=? maximum_queued_tokens (config c)
  then (mkStatus backpressure "token queue capacity exhausted", c)
  else
    let k := (tw_request t, tw_sequence t) in
    match tokens c !! k with
    | Some _ => (mkStatus invalid_arg "duplicate token sequence", c)
    | None =>
      let c := c <| clock %= inc64 |> in
      let '(ids, next, m) := enqueue_items t (clock c) (experts t) (next_work c) (items c) in
      let c := c <| next_work := next |> <| items := m |>
                 <| tokens %= fun ts => <[k := mkToken k (clock c) ids]> ts |> in
      (success, refresh_queue c)
    end.

(** The comparator of [schedule]: deadline (none is last), arrival, request,
    sequence, expert. *)
Definition schedule_key (i : Item) : list Z :=
  [if deadline i =? 0 then U64_MAX else deadline i; item_arrival i;
   request (value i); sequence (value i); expert (value i)].

(** [std::tie(...) < std::tie(...)] on tuples of one length. *)
Fixpoint lex_ltb (a b : list Z) : bool :=
  match a, b with
  | x :: a, y :: b => if x <? y then true else if y <? x then false else lex_ltb a b
  | _, _ => false
  end.

Definition schedule_ltb (l r : Item) : bool := lex_ltb (schedule_key l) (schedule_key r).

(** The keys of the map [grouped]. *)
Definition expert_of (i : ScheduledItem) : list Z := [layer i; expert i].
Definition group_key (g : ExpertGroup) : list Z := [group_layer g; group_expert g].

(** [grouped[{layer, expert}].push_back(value)] on the ordered map. *)
Fixpoint group_push (i : ScheduledItem) (gs : list ExpertGroup) : list ExpertGroup :=
  match gs with
  | [] => [mkGroup (layer i) (expert i) [i]]
  | g :: gs' =>
    if lex_ltb (expert_of i) (group_key g) then mkGroup (layer i) (expert i) [i] :: gs
    else if lex_ltb (group_key g) (expert_of i) then g :: group_push i gs'
    else mkGroup (group_layer g) (group_expert g) (group_items g ++ [i]) :: gs'
  end.

Definition mark_in_flight (m : gmap Z Item) (i : Item) : gmap Z Item :=
  alter (fun i => i <| in_flight := true |>) (work (value i)) m.

Section Schedule.
Context `{StdSort}.

(** The items [schedule] considers, in id order. *)
Definition waiting (c : Core) : list Item :=
  filter (fun i => negb (complete i || in_flight i)) (ordered Z.ltb (items c)).*2.

Definition count_where (f : ExpertResidency -> bool) (residency : Z -> Z -> ExpertResidency)
    (l : list Item) : Z :=
  Z.of_nat (length (filter (fun i => f (residency (layer (value i)) (expert (value i)))) l)).

Definition is_vram_ready r := match r with vram_ready => true | _ => false end.
Definition is_failed r := match r with failed => true | _ => false end.
Definition is_blocked r := match r with ram_ready | absent => true | _ => false end.

(** The resident items, most urgent first, cut to one batch. *)
Definition select (query : Z -> Z -> ExpertResidency) (c : Core) : list Item :=
  let ready := filter (fun i => is_vram_ready (query (layer (value i)) (expert (value i))))
                 (waiting c) in
  let ready := std_sort schedule_ltb ready in
  if Z.of_nat (length ready) >? maximum_batch_items (config c)
  then take (Z.to_nat (maximum_batch_items (config c))) ready else ready.

Definition schedule (residency : option (Z -> Z -> ExpertResidency)) (c : Core)
    : SchedulerBatch * Core :=
  match residency with
  | None => (mkBatch [] 0 0 0 0, c)
  | Some query =>
    let ready := select query c in
    let m := foldl mark_in_flight (items c) ready in
    let grouped := foldl (fun gs i => group_push (value i) gs) [] ready in
    let ready_count := Z.of_nat (length ready) in
    let unique := Z.of_nat (length grouped) in
    (mkBatch grouped ready_count (count_where is_blocked query (waiting c))
       (count_where is_failed query (waiting c)) unique,
     c <| items := m |>
       <| metrics %= fun s => s <| scheduled_items %= fun n => add64 n ready_count |>
            <| reused_items %= fun n => add64 n (sub64 ready_count unique) |> |>)
  end.
End Schedule.

(** The validation loop of [complete]. *)
Fixpoint complete_check (m : gmap Z Item) (ids : list Z) (unique : gset Z) : Status :=
  match ids with
  | [] => success
  | id :: ids =>
    if bool_decide (id ∈ unique) then mkStatus invalid_arg "duplicate completion id"
    else match m !! id with
         | Some i => if in_flight i && negb (complete i)
                     then complete_check m ids ({[id]} ∪ unique)
                     else mkStatus invalid_arg "completion is not in flight"
         | None => mkStatus invalid_arg "completion is not in flight"
         end
  end.

Definition mark_complete (m : gmap Z Item) (id : Z) : gmap Z Item :=
  alter (fun i => i <| in_flight := false |> <| complete := true |>) id m.

Definition complete_work (ids : list Z) (c : Core) : Status * Core :=
  let st := complete_check (items c) ids ∅ in
  if status_ok st then (success, c <| items %= fun m => foldl mark_complete m ids |>)
  else (st, c).

(** [std::all_of] over [items.at(id).complete], stopping at the first [false]. *)
Fixpoint all_complete (m : gmap Z Item) (ids : list Z) : outcome bool :=
  match ids with
  | [] => Ok true
  | id :: ids =>
    match m !! id with
    | None => Throw out_of_range
    | Some i => if complete i then all_complete m ids else Ok false
    end
  end.

Definition token_complete (r s : Z) (c : Core) : outcome bool :=
  match tokens c !! (r, s) with
  | None => Ok false
  | Some t => all_complete (items c) (token_work t)
  end.

Definition retire_token (r s : Z) (c : Core) : outcome Core :=
  match tokens c !! (r, s) with
  | None => Throw (logic_error "cannot retire incomplete token")
  | Some t =>
    let! done := token_complete r s c in
    if done then
      let c := c <| items %= erase_keys (token_work t) |> <| tokens %= delete (r, s) |>
                 <| metrics %= fun m => m <| completed_tokens %= inc64 |> |> in
      Ok (refresh_queue c)
    else Throw (logic_error "cannot retire incomplete token")
  end.

(** The loop of [cancel] over the tokens in key order. *)
Definition cancel_token (r : Z) (c : Core) (kt : TokenKey * Token) : Core :=
  if kt.1.1 =? r
  then c <| items %= erase_keys (token_work kt.2) |> <| tokens %= delete kt.1 |>
  else c.

Definition token_key_ltb (a b : TokenKey) : bool := lex_ltb [a.1; a.2] [b.1; b.2].

Definition cancel (r : Z) (c : Core) : Core :=
  if bool_decide (r ∈ requests c) then
    let c := c <| requests %= fun s => s ∖ {[r]} |> in
    let c := foldl (cancel_token r) c (ordered token_key_ltb (tokens c)) in
    let c := c <| metrics %= fun m => m <| cancelled_requests %= inc64 |>
                 <| active_requests := set_size_z (requests c) |> |> in
    refresh_queue c
  else c.

Definition finish (r : Z) (c : Core) : Core :=
  let has_tokens := existsb (fun kt => kt.1.1 =? r) (map_to_list (tokens c)) in
  let c := if has_tokens then c else c <| requests %= fun s => s ∖ {[r]} |> in
  c <| metrics %= fun m => m <| active_requests := set_size_z (requests c) |> |>.

Definition snapshot (c : Core) : SchedulerSnapshot := metrics c.

(** ** Maps under the loops of the operations *)

Lemma lookup_mark_in_flight l m id :
  foldl mark_in_flight m l !! id
  = if decide (id ∈ (fun i => work (value i)) <$> l)
    then (fun i => i <| in_flight := true |>) <$> m !! id else m !! id.
Proof.
  revert m. induction l as [|i l IH]; intros m; [done|].
  simpl. rewrite IH. unfold mark_in_flight. destruct (decide (id = work (value i))) as [->|Hne].
  - rewrite lookup_alter_eq. repeat case_decide; try set_solver.
    by destruct (m !! _).
  - rewrite lookup_alter_ne by done. repeat case_decide; set_solver.
Qed.

Lemma lookup_mark_complete ids m id :
  foldl mark_complete m ids !! id
  = if decide (id ∈ ids)
    then (fun i => i <| in_flight := false |> <| complete := true |>) <$> m !! id else m !! id.
Proof.
  revert m. induction ids as [|j l IH]; intros m; [done|].
  simpl. rewrite IH. unfold mark_complete. destruct (decide (id = j)) as [->|Hne].
  - rewrite lookup_alter_eq. repeat case_decide; try set_solver.
    by destruct (m !! _).
  - rewrite lookup_alter_ne by done. repeat case_decide; set_solver.
Qed.

Lemma size_mark_in_flight l m : size (foldl mark_in_flight m l) = size m.
Proof.
  revert m. induction l as [|i l IH]; intros m; simpl; [done|].
  rewrite IH. apply map_size_alter.
Qed.

Lemma size_mark_complete l m : size (foldl mark_complete m l) = size m.
Proof.
  revert m. induction l as [|i l IH]; intros m; simpl; [done|].
  rewrite IH. apply map_size_alter.
Qed.

(** The item [enqueue] files for a route under an id. *)
Definition item_of_route (t : TokenWork) (arrived id : Z) (r : RoutedExpert) : Item :=
  mkItem (mkScheduled id (tw_request t) (tw_sequence t) (tw_row t) (tw_layer t)
            (routed_expert r) (routed_weight r)) (deadline_tick t) arrived false false.

Lemma enqueue_items_spec t arrived routes next m ids next' m' :
  0 <= next -> next + Z.of_nat (length routes) <= U64_MAX ->
  (forall id i, m !! id = Some i -> id < next) ->
  enqueue_items t arrived routes next m = (ids, next', m') ->
  next' = next + Z.of_nat (length routes) /\
  ids = seqZ next (Z.of_nat (length routes)) /\
  (forall id, m' !! id =
     if decide (next <= id < next + Z.of_nat (length routes))
     then item_of_route t arrived id <$> routes !! Z.to_nat (id - next) else m !! id).
Proof.
  revert next m ids next' m'.
  induction routes as [|r routes IH]; intros next m ids next' m' H0 Hmax Hm; simpl.
  { intros; simplify_eq. split; [lia|]. split; [done|]. intros id. case_decide; [lia|done]. }
  assert (m !! next = None) as ->.
  { destruct (m !! next) as [i|] eqn:E; [|done]. apply Hm in E. lia. }
  simpl in Hmax.
  assert (Hinc : inc64 next = next + 1).
  { unfold inc64, add64. apply wrap64_small. unfold u64. lia. }
  rewrite Hinc. destruct (enqueue_items _ _ _ _ _) as [[ids1 n1] m1] eqn:E.
  intros; simplify_eq. apply IH in E as (-> & -> & Hl); [|lia|lia|].
  2:{ intros id i. rewrite lookup_insert_Some. intros [[<- _]|[_ ?%Hm]]; lia. }
  split; [lia|]. split.
  { rewrite (seqZ_cons next) by lia. do 2 f_equal; lia. }
  intros id. rewrite Hl. destruct (decide (id = next)) as [->|Hne].
  - rewrite lookup_insert_eq. repeat case_decide; try lia. by rewrite Z.sub_diag.
  - rewrite lookup_insert_ne by done. repeat case_decide; try lia; [|done].
    replace (Z.to_nat (id - next)) with (S (Z.to_nat (id - (next + 1)))) by lia. done.
Qed.

(** The tokens and items that are left once a request is cancelled. *)
Lemma cancel_fold r l c :
  NoDup l.*1 ->
  let c' := foldl (cancel_token r) c l in
  config c' = config c /\ requests c' = requests c /\ next_work c' = next_work c /\
  metrics c' = metrics c /\
  (forall k, tokens c' !! k = if decide (k.1 = r /\ k ∈ l.*1) then None else tokens c !! k) /\
  (forall id, items c' !! id =
     if decide (Exists (fun kt => kt.1.1 = r /\ id ∈ token_work kt.2) l)
     then None else items c !! id).
Proof.
  revert c. induction l as [|[k t] l IH]; intros c Hnd; simpl.
  { split_and!; try done; intros; case_decide; set_solver. }
  inversion Hnd as [|?? Hk Hl]; subst. destruct (IH (cancel_token r c (k, t)) Hl)
    as (-> & -> & -> & -> & Ht & Hi); clear IH.
  unfold cancel_token in *. simpl in *.
  destruct (Z.eqb_spec k.1 r) as [Hr|Hr]; split_and!; try done.
  - intros k'. rewrite Ht. simpl. destruct (decide (k' = k)) as [->|Hne].
    + rewrite lookup_delete_eq. repeat case_decide; set_solver.
    + rewrite lookup_delete_ne by done. repeat case_decide; set_solver.
  - intros id. rewrite Hi. simpl. rewrite lookup_erase_keys.
    repeat case_decide; rewrite ?Exists_cons in *; simpl in *; naive_solver.
  - intros k'. rewrite Ht. repeat case_decide; set_solver.
  - intros id. rewrite Hi. repeat case_decide; rewrite ?Exists_cons in *; simpl in *; naive_solver.
Qed.

(** ** The invariant *)

Definition owner (i : Item) : TokenKey := (request (value i), sequence (value i)).

(** Items and tokens index each other, every token belongs to an admitted request,
    no item is both in flight and complete, the limits hold and the gauges are the
    sizes they report. *)
Record sched_inv (c : Core) : Prop := {
  inv_item id i : items c !! id = Some i ->
    work (value i) = id /\ 1 <= id < next_work c /\ (in_flight i = true -> complete i = false) /\
    exists t, tokens c !! owner i = Some t /\ id ∈ token_work t;
  inv_token k t : tokens c !! k = Some t ->
    key t = k /\ k.1 ∈ requests c /\ NoDup (token_work t) /\ token_work t <> [] /\
    forall id, id ∈ token_work t -> exists i, items c !! id = Some i /\ owner i = k;
  inv_next : 1 <= next_work c <= U64_MAX;
  inv_request r : r ∈ requests c -> r <> 0;
  inv_limits : set_size_z (requests c) <= maximum_requests (config c) /\
    size_z (tokens c) <= maximum_queued_tokens (config c);
  inv_gauges : active_requests (metrics c) = set_size_z (requests c) /\
    queued_tokens (metrics c) = size_z (tokens c) /\
    pending_items (metrics c) = size_z (items c) }.

(** One call, with the ids of the work it hands out. Exhausting the 2^64 work ids
    is excluded in [step_enqueue]. *)
Inductive sched_step `{StdSort} (c : Core) : list Z -> Core -> Prop :=
| step_admit r : sched_step c [] (admit_request r c).2
| step_enqueue t :
    next_work c + Z.of_nat (length (experts t)) <= U64_MAX ->
    sched_step c [] (enqueue t c).2
| step_schedule residency :
    sched_step c ((fun i => work i) <$> (groups (schedule residency c).1 ≫= group_items))
      (schedule residency c).2
| step_complete ids : sched_step c [] (complete_work ids c).2
| step_retire r s c' : retire_token r s c = Ok c' -> sched_step c [] c'
| step_cancel r : sched_step c [] (cancel r c)
| step_finish r : sched_step c [] (finish r c).

(** A run from construction, with every work id handed out so far. *)
Inductive sched_run `{StdSort} (cfg : SchedulerConfig) : list Z -> Core -> Prop :=
| run_start c : scheduler_create cfg = Ok c -> sched_run cfg [] c
| run_step log c ids c' : sched_run cfg log c -> sched_step c ids c' ->
    sched_run cfg (log ++ ids) c'.

Lemma all_complete_total m ids :
  (forall id, id ∈ ids -> is_Some (m !! id)) ->
  all_complete m ids
  = Ok (forallb (fun id => match m !! id with Some i => complete i | None => false end) ids).
Proof.
  induction ids as [|id ids IH]; intros Hm; simpl; [done|].
  destruct (Hm id ltac:(constructor)) as [i ->]. destruct (complete i); [|done].
  apply IH. intros. apply Hm. by constructor.
Qed.

(** An operation that keeps every item's value and the index in place. *)
Lemma sched_inv_items c (m : gmap Z Item) :
  sched_inv c ->
  (forall id, option_map value (m !! id) = option_map value (items c !! id)) ->
  (forall id i, m !! id = Some i -> in_flight i = true -> complete i = false) ->
  sched_inv (c <| items := m |>).
Proof.
  intros [Hi Ht Hn Hr Hl Hg] Hv Hf. split; simpl; try done.
  - intros id i Hid. specialize (Hv id). rewrite Hid in Hv. simpl in Hv.
    destruct (items c !! id) as [j|] eqn:Hj; [|done]. injection Hv as Hv.
    destruct (Hi id j Hj) as (? & ? & _ & t & ? & ?). unfold owner in *. rewrite Hv.
    split_and!; [congruence|lia|lia|by eapply Hf|by exists t].
  - intros k t Hk. destruct (Ht k t Hk) as (? & ? & ? & ? & Hw). split_and!; try done.
    intros id Hid. destruct (Hw id Hid) as (j & Hj & Ho). specialize (Hv id).
    rewrite Hj in Hv. destruct (m !! id) as [i|]; [|done]. injection Hv as Hv.
    exists i. split; [done|]. unfold owner in *. by rewrite Hv.
  - destruct Hg as (? & ? & ->). split_and!; try done. unfold size_z. f_equal.
    apply Nat.le_antisymm; apply map_size_mono; intros id [x Hx]; specialize (Hv id);
      rewrite Hx in Hv; [by destruct (m !! id)|by destruct (items c !! id)].
Qed.

(** Metrics that are not gauges do not matter to the invariant. *)
Lemma sched_inv_metrics c f :
  sched_inv c ->
  active_requests (f (metrics c)) = active_requests (metrics c) ->
  queued_tokens (f (metrics c)) = queued_tokens (metrics c) ->
  pending_items (f (metrics c)) = pending_items (metrics c) ->
  sched_inv (c <| metrics %= f |>).
Proof.
  intros [Hi Ht Hn Hr Hl Hg] E1 E2 E3. split; simpl; try done. by rewrite E1, E2, E3.
Qed.

(** Dropping whole tokens with their items, and requests without tokens. *)
Lemma sched_inv_drop c c' (drop : TokenKey -> bool) :
  sched_inv c ->
  config c' = config c -> next_work c' = next_work c ->
  (forall k, tokens c' !! k = if drop k then None else tokens c !! k) ->
  (forall id, items c' !! id =
     match items c !! id with Some i => if drop (owner i) then None else Some i | None => None end) ->
  requests c' ⊆ requests c ->
  (forall k, is_Some (tokens c' !! k) -> k.1 ∈ requests c') ->
  active_requests (metrics c') = set_size_z (requests c') ->
  queued_tokens (metrics c') = size_z (tokens c') ->
  pending_items (metrics c') = size_z (items c') ->
  sched_inv c'.
Proof.
  intros [Hi Ht Hn Hr Hl Hg] Hc Hnext Htk Hit Hsub Hreq ???. split.
  - intros id i. rewrite Hit. destruct (items c !! id) as [j|] eqn:Hj; [|done].
    destruct (drop (owner j)) eqn:Hd; intros; simplify_eq. rewrite Hnext.
    destruct (Hi id i Hj) as (? & ? & ? & t & Hk & ?). split_and!; try done; try lia.
    exists t. by rewrite Htk, Hd.
  - intros k t Hk. pose proof (Hreq k ltac:(by eexists)). rewrite Htk in Hk.
    destruct (drop k) eqn:Hd; [done|]. destruct (Ht k t Hk) as (? & ? & ? & ? & Hw).
    split_and!; try done. intros id Hid. destruct (Hw id Hid) as (j & Hj & Ho).
    exists j. by rewrite Hit, Hj, Ho, Hd.
  - by rewrite Hnext.
  - intros r Hin. apply Hr. set_solver.
  - rewrite Hc. destruct Hl as [Hl1 Hl2]. split.
    + pose proof (subseteq_size _ _ Hsub). unfold set_size_z in *. lia.
    + assert (size (tokens c') <= size (tokens c))%nat; [|unfold size_z in *; lia].
      apply map_size_mono. intros k [t Hk]. rewrite Htk in Hk. by destruct (drop k).
  - done.
Qed.

Lemma create_inv cfg c : 
  0 <= maximum_requests cfg -> 0 <= maximum_queued_tokens cfg ->
  scheduler_create cfg = Ok c -> sched_inv c.
Proof.
  unfold scheduler_create. intros ??. case_match; intros; simplify_eq.
  split; simpl; try done; set_solver.
Qed.

Lemma admit_inv r c : sched_inv c -> sched_inv (admit_request r c).2.
Proof.
  intros Hinv. unfold admit_request. destruct (r =? 0) eqn:E0; [done|].
  case_bool_decide as Hr; [done|]. destruct (_ >=? _) eqn:Emax; simpl.
  { by apply sched_inv_metrics. }
  zbool. destruct Hinv as [Hi Ht Hn Hreq Hl Hg]. split; simpl; try done.
  - intros k t Hk. destruct (Ht k t Hk) as (? & ? & ? & ? & ?). split_and!; try done. set_solver.
  - intros r'. rewrite elem_of_union, elem_of_singleton. intros [->|?]; auto.
  - destruct Hl as [Hl1 Hl2]. split; [|done]. unfold set_size_z in *.
    rewrite size_union by set_solver. rewrite size_singleton. lia.
  - by destruct Hg as (? & ? & ?).
Qed.

Lemma enqueue_inv t c :
  sched_inv c -> next_work c + Z.of_nat (length (experts t)) <= U64_MAX ->
  sched_inv (enqueue t c).2.
Proof.
  intros [Hi Ht Hn Hreq Hl Hg] Hmax. unfold enqueue.
  destruct (_ || _) eqn:E1; [done|]. destruct (_ >=? _) eqn:E2; [done|].
  set (k := (tw_request t, tw_sequence t)). destruct (tokens c !! k) as [?|] eqn:Hk; [done|].
  zbool. apply bool_decide_eq_true in H. apply bool_decide_eq_false in H0. simpl.
  destruct (enqueue_items _ _ _ _ _) as [[ids next] m] eqn:E.
  apply enqueue_items_spec in E as (-> & -> & Hm); [|lia|done|].
  2:{ intros id i Hid. apply Hi in Hid. lia. }
  assert (Hpos : 0 < Z.of_nat (length (experts t))) by (destruct (experts t); [done|simpl; lia]).
  split; simpl.
  - intros id i. rewrite Hm. case_decide as Hr.
    + intros (r & Hlk & ->)%fmap_Some. simpl. split_and!; try done; try lia.
      eexists. rewrite lookup_insert_eq. split; [done|]. simpl. apply elem_of_seqZ. lia.
    + intros Hid. destruct (Hi id i Hid) as (? & ? & ? & t' & Ht' & ?).
      split_and!; try done; try lia. exists t'. rewrite lookup_insert_ne; [done|].
      congruence.
  - intros k' t'. rewrite lookup_insert_Some. intros [[<- <-]|[Hne Hk']]; simpl.
    + split_and!; try done; [apply NoDup_seqZ| |].
      { intros E. apply (f_equal length) in E. rewrite length_seqZ in E. simpl in E. lia. }
      intros id Hid%elem_of_seqZ. rewrite Hm, decide_True by lia.
      destruct (lookup_lt_is_Some_2 (experts t) (Z.to_nat (id - next_work c))) as [r ->]; [lia|].
      by eexists.
    + destruct (Ht k' t' Hk') as (? & ? & ? & ? & Hw). split_and!; try done.
      intros id Hid. destruct (Hw id Hid) as (i & Hlk & Ho). exists i.
      rewrite Hm, decide_False; [done|]. apply Hi in Hlk. lia.
  - lia.
  - done.
  - split; [apply Hl|]. zbool. unfold size_z in *. rewrite map_size_insert_None by done. lia.
  - destruct Hg as (? & ? & ?). done.
Qed.

Section ScheduleFacts.
Context `{StdSort, !StdSortSpec _}.
Implicit Types (c : Core) (query : Z -> Z -> ExpertResidency).

Lemma elem_of_waiting c i :
  sched_inv c ->
  i ∈ waiting c <->
  items c !! work (value i) = Some i /\ in_flight i = false /\ complete i = false.
Proof.
  intros Hinv. unfold waiting. rewrite list_elem_of_filter, list_elem_of_fmap. split.
  - intros [Hc ([id ?] & -> & Hin)]. apply elem_of_ordered in Hin. simpl in *.
    destruct (inv_item c Hinv _ _ Hin) as (-> & _). split; [done|].
    destruct (in_flight _), (complete _); naive_solver.
  - intros (Hlk & Hf & Hc). split; [by rewrite Hf, Hc|].
    exists (work (value i), i). by rewrite elem_of_ordered.
Qed.

(** An item [schedule] may hand out. *)
Definition eligible query c (i : Item) : Prop :=
  items c !! work (value i) = Some i /\ in_flight i = false /\ complete i = false /\
  query (layer (value i)) (expert (value i)) = vram_ready.

Definition eligible_items query c : list Item :=
  filter (fun i => is_vram_ready (query (layer (value i)) (expert (value i)))) (waiting c).

Lemma elem_of_eligible query c i :
  sched_inv c -> i ∈ eligible_items query c <-> eligible query c i.
Proof.
  intros Hinv. unfold eligible_items, eligible. rewrite list_elem_of_filter, elem_of_waiting by done.
  assert (forall r, is_vram_ready r <-> r = vram_ready) as -> by (intros []; simpl; naive_solver).
  naive_solver.
Qed.

Lemma lex_ltb_asym (a b : list Z) : lex_ltb a b = true -> lex_ltb b a = false.
Proof.
  revert b. induction a as [|x a IH]; intros [|y b]; simpl; try done.
  destruct (x <? y) eqn:E1, (y <? x) eqn:E2; zbool; try done; try lia. apply IH.
Qed.

Lemma lex_ltb_trans (a b c : list Z) :
  length a = length b -> length b = length c ->
  lex_ltb b a = false -> lex_ltb c b = false -> lex_ltb c a = false.
Proof.
  revert b c. induction a as [|x a IH]; intros [|y b] [|z c]; simpl; try done.
  destruct (y <? x) eqn:E1, (z <? y) eqn:E2; try done.
  destruct (x <? y) eqn:E3, (y <? z) eqn:E4, (z <? x) eqn:E5, (x <? z) eqn:E6;
    zbool; try done; try lia. intros. eapply (IH b); lia || done.
Qed.

#[local] Instance schedule_ltb_swo : StrictWeakOrder schedule_ltb.
Proof. split; intros; [by apply lex_ltb_asym|by eapply (lex_ltb_trans _ (schedule_key y))]. Qed.

(** The batch is a most urgent prefix: nothing left behind precedes what is taken. *)
Lemma select_split query c :
  0 <= maximum_batch_items (config c) ->
  exists rest, eligible_items query c ≡ₚ select query c ++ rest /\
    (forall i j, i ∈ select query c -> j ∈ rest -> schedule_ltb j i = false) /\
    length (select query c) =
      Nat.min (length (eligible_items query c)) (Z.to_nat (maximum_batch_items (config c))).
Proof.
  intros Hpos. unfold select. fold (eligible_items query c).
  set (l := std_sort schedule_ltb (eligible_items query c)).
  assert (Hl : l ≡ₚ eligible_items query c) by apply std_sort_perm.
  rewrite <- (Permutation_length Hl). destruct (_ >? _) eqn:E; zbool.
  - exists (drop (Z.to_nat (maximum_batch_items (config c))) l).
    rewrite take_drop. split; [done|]. split; [|rewrite length_take; lia].
    assert (StronglySorted (fun x y => schedule_ltb y x = false) l) as Hs
      by (apply std_sort_sorted, _).
    rewrite <- (take_drop (Z.to_nat (maximum_batch_items (config c))) l) in Hs.
    intros i j Hi Hj. exact (StronglySorted_app_1_elem_of _ _ _ i j Hs Hi Hj).
  - exists []. rewrite app_nil_r. split; [done|]. split; [set_solver|lia].
Qed.

Lemma elem_of_select query c i :
  sched_inv c -> 0 <= maximum_batch_items (config c) ->
  i ∈ select query c -> eligible query c i.
Proof.
  intros Hinv Hpos Hin. destruct (select_split query c Hpos) as (rest & Hp & _).
  apply elem_of_eligible; [done|]. rewrite Hp. set_solver.
Qed.

Lemma eligible_NoDup query c : sched_inv c -> NoDup (eligible_items query c).
Proof.
  intros Hinv. do 2 apply NoDup_filter. apply NoDup_fmap_2_strong.
  - intros [a x] [b y] Hx Hy Heq. simpl in Heq. subst y.
    apply elem_of_ordered in Hx, Hy.
    destruct (inv_item c Hinv _ _ Hx) as (<- & _).
    by destruct (inv_item c Hinv _ _ Hy) as (<- & _).
  - eapply (NoDup_fmap_1 fst), ordered_keys_NoDup.
Qed.

Lemma select_ids_NoDup query c :
  sched_inv c -> 0 <= maximum_batch_items (config c) ->
  NoDup ((fun i => work (value i)) <$> select query c).
Proof.
  intros Hinv Hpos.
  apply NoDup_fmap_2_strong.
  - intros i j Hi Hj Heq. apply elem_of_select in Hi as (Hi & _); [|done..].
    apply elem_of_select in Hj as (Hj & _); [|done..]. rewrite Heq in Hi. congruence.
  - destruct (select_split query c Hpos) as (rest & Hp & _).
    pose proof (eligible_NoDup query c Hinv) as Hnd.
    rewrite Hp in Hnd. by apply NoDup_app in Hnd as [? _].
Qed.

Lemma schedule_inv residency c :
  sched_inv c -> 0 <= maximum_batch_items (config c) -> sched_inv (schedule residency c).2.
Proof.
  intros Hinv Hpos. destruct residency as [q|]; [|done]. simpl.
  match goal with |- sched_inv (update (fun s => @?f s) (c <| items := ?m |>)) =>
    apply (sched_inv_metrics (c <| items := m |>) f) end; try done.
  apply sched_inv_items; [done| |].
  - intros id. rewrite lookup_mark_in_flight. case_decide; [|done]. by destruct (items c !! id).
  - intros id i. rewrite lookup_mark_in_flight.
    case_decide as Hin; [|intros; by eapply Hinv].
    intros (j & Hj & ->)%fmap_Some _. simpl.
    apply list_elem_of_fmap in Hin as (k & -> & (Hk & _ & Hc & _)%elem_of_select); [|done..].
    congruence.
Qed.
End ScheduleFacts.

Lemma complete_inv ids c : sched_inv c -> sched_inv (complete_work ids c).2.
Proof.
  intros Hinv. unfold complete_work. destruct (status_ok _); [|done]. simpl.
  apply (sched_inv_items c (foldl mark_complete (items c) ids)); [done| |].
  - intros id. rewrite lookup_mark_complete. case_decide; [|done]. by destruct (items c !! id).
  - intros id i. rewrite lookup_mark_complete. case_decide; [|by apply Hinv].
    by intros (j & Hj & ->)%fmap_Some.
Qed.

Lemma token_request c k t : sched_inv c -> tokens c !! k = Some t -> k.1 ∈ requests c.
Proof. intros Hinv Hk. by destruct (inv_token c Hinv _ _ Hk) as (_ & ? & _). Qed.

Lemma retire_inv r s c c' : sched_inv c -> retire_token r s c = Ok c' -> sched_inv c'.
Proof.
  intros Hinv. unfold retire_token. destruct (tokens c !! (r, s)) as [t|] eqn:Ht; [|done].
  destruct (token_complete r s c) as [[]|]; intros; simplify_eq/=.
  destruct (inv_token c Hinv _ _ Ht) as (? & Hreq & Hnd & Hne & Hw).
  destruct (inv_gauges c Hinv) as (? & ? & ?).
  eapply (sched_inv_drop c _ (fun k => bool_decide (k = (r, s)))); try done; simpl.
  - intros k. case_bool_decide as Hk; [subst; by rewrite lookup_delete_eq|].
    by rewrite lookup_delete_ne.
  - intros id. rewrite lookup_erase_keys. destruct (items c !! id) as [i|] eqn:Hi; [|by case_decide].
    case_decide as Hid; case_bool_decide as Ho; try done.
    + destruct (Hw id Hid) as (? & ? & ?). congruence.
    + destruct Hid. destruct (inv_item c Hinv _ _ Hi) as (_ & _ & _ & u & Hu & ?).
      rewrite Ho, Ht in Hu. by simplify_eq.
  - intros k [u Hu]. apply lookup_delete_Some in Hu as [_ Hu]. by eapply token_request.
Qed.

Lemma cancel_inv r c : sched_inv c -> sched_inv (cancel r c).
Proof.
  intros Hinv. unfold cancel. case_bool_decide as Hr; [|done]. simpl.
  destruct (cancel_fold r (ordered token_key_ltb (tokens c))
              (c <| requests %= fun s => s ∖ {[r]} |>)) as (Hc & Hq & Hn & Hm & Ht & Hi);
    [apply ordered_keys_NoDup|]. simpl in *.
  set (c1 := foldl _ _ _) in *.
  assert (Htk : forall k, tokens c1 !! k = if k.1 =? r then None else tokens c !! k).
  { intros k. rewrite Ht. case_decide as E; [by rewrite (proj2 (Z.eqb_eq _ _) (proj1 E))|].
    destruct (Z.eqb_spec k.1 r) as [Hk|]; [|done].
    destruct (tokens c !! k) as [t|] eqn:Hl; [|done].
    destruct E. split; [done|]. apply list_elem_of_fmap. exists (k, t).
    by rewrite elem_of_ordered. }
  eapply (sched_inv_drop c _ (fun k => k.1 =? r)); try done; simpl.
  - intros id. rewrite Hi. destruct (items c !! id) as [i|] eqn:Hl; [|by case_decide].
    destruct (inv_item c Hinv _ _ Hl) as (_ & _ & _ & t & Hto & Hid).
    case_decide as E; [rewrite Exists_exists in E; destruct E as ([k u] & Hin & Hk & Hu)|].
    + apply elem_of_ordered in Hin. destruct (inv_token c Hinv _ _ Hin) as (_ & _ & _ & _ & Hw).
      destruct (Hw id Hu) as (j & Hj & Ho). simpl in *. rewrite Hl in Hj. injection Hj as <-.
      apply (f_equal fst) in Ho. simpl in Ho.
      by rewrite Ho, Hk, Z.eqb_refl.
    + destruct (Z.eqb_spec (request (value i)) r); [|done]. destruct E. rewrite Exists_exists.
      exists (owner i, t). by rewrite elem_of_ordered.
  - rewrite Hq. set_solver.
  - rewrite Hq. intros k [t Hk]. rewrite Htk in Hk. destruct (Z.eqb_spec k.1 r); [done|].
    destruct (inv_token c Hinv _ _ Hk) as (_ & ? & _). set_solver.
Qed.

Lemma finish_inv r c : sched_inv c -> sched_inv (finish r c).
Proof.
  intros Hinv. destruct (inv_gauges c Hinv) as (? & ? & ?). unfold finish.
  assert (Hkeep : forall c', c' = c \/ (c' = c <| requests %= fun s => s ∖ {[r]} |> /\
            forall k t, tokens c !! k = Some t -> k.1 <> r) ->
    sched_inv (c' <| metrics %= fun m => m <| active_requests := set_size_z (requests c') |> |>)).
  { intros c' Hc'. eapply (sched_inv_drop c _ (fun _ => false)); try done;
      destruct Hc' as [->|[-> Hno]]; try done; simpl.
    - intros id. by destruct (items c !! id).
    - intros id. by destruct (items c !! id).
    - set_solver.
    - intros k [t Ht]. by eapply token_request.
    - intros k [t Ht]. specialize (Hno _ _ Ht). apply (inv_token c Hinv) in Ht. set_solver. }
  destruct (existsb _ _) eqn:E; apply Hkeep; [by left|right]. split; [done|].
  intros k t Hk Hr. apply not_true_iff_false in E. apply E, existsb_exists.
  exists (k, t). split; [|by apply Z.eqb_eq]. by apply list_elem_of_In, elem_of_map_to_list.
Qed.

Section Runs.
Context `{StdSort, !StdSortSpec _} (cfg : SchedulerConfig)
  (Hcfg : 0 <= maximum_requests cfg /\ 0 <= maximum_queued_tokens cfg /\
          0 <= maximum_batch_items cfg).

Lemma step_inv c ids c' :
  sched_inv c -> 0 <= maximum_batch_items (config c) -> sched_step c ids c' ->
  sched_inv c' /\ config c' = config c.
Proof.
  intros Hinv Hpos [r|t Ht|res|l|r s c1 Hr|r|r].
  - split; [by apply admit_inv|]. unfold admit_request. by repeat case_match.
  - split; [by apply enqueue_inv|]. unfold enqueue. repeat case_match; by simplify_eq.
  - split; [by apply schedule_inv|]. by destruct res.
  - split; [by apply complete_inv|]. unfold complete_work. by case_match.
  - split; [by eapply retire_inv|]. revert Hr. unfold retire_token.
    destruct (tokens c !! _); [|done]. destruct (token_complete r s c) as [[]|]; simpl; try done.
    by intros; simplify_eq.
  - split; [by apply cancel_inv|]. unfold cancel. case_match; [|done]. simpl.
    by destruct (cancel_fold r (ordered token_key_ltb (tokens c))
              (c <| requests %= fun s => s ∖ {[r]} |>) ltac:(apply ordered_keys_NoDup)) as [-> _].
  - split; [by apply finish_inv|]. unfold finish. by case_match.
Qed.

Lemma run_inv log c : sched_run cfg log c -> sched_inv c /\ config c = cfg.
Proof.
  induction 1 as [c Hc|log c ids c' Hrun [IH Heq] Hstep].
  - split; [by apply (create_inv cfg); try done; apply Hcfg|]. unfold scheduler_create in Hc.
    case_match; by simplify_eq.
  - rewrite <- Heq. apply (step_inv c ids); [done|rewrite Heq; lia|done].
Qed.
End Runs.

(** ** Grouping by expert *)

Definition groups_sorted (gs : list ExpertGroup) : Prop :=
  StronglySorted (fun g h => lex_ltb (group_key g) (group_key h) = true) gs.

Lemma lex_ltb_lt_trans (a b c : list Z) :
  lex_ltb a b = true -> lex_ltb b c = true -> lex_ltb a c = true.
Proof.
  revert b c. induction a as [|x a IH]; intros [|y b] [|z c]; simpl; try done.
  destruct (x <? y) eqn:E1, (y <? z) eqn:E2, (y <? x) eqn:E3, (z <? y) eqn:E4,
    (x <? z) eqn:E5, (z <? x) eqn:E6; zbool; try done; try lia. apply IH.
Qed.

Lemma lex_ltb_tie (a b : list Z) :
  length a = length b -> lex_ltb a b = false -> lex_ltb b a = false -> a = b.
Proof.
  revert b. induction a as [|x a IH]; intros [|y b]; simpl; try done.
  destruct (x <? y) eqn:E1, (y <? x) eqn:E2; zbool; try done; try lia.
  intros. f_equal; [lia|]. apply IH; lia || done.
Qed.

#[local] Arguments lex_ltb : simpl never.

(** One push extends the bucket of the item's expert, in its place. *)
Lemma group_push_spec i gs :
  groups_sorted gs ->
  groups_sorted (group_push i gs) /\
  (forall g, g ∈ group_push i gs ->
     (group_key g = expert_of i /\ exists pre, group_items g = pre ++ [i] /\
        (pre = [] \/ exists h, h ∈ gs /\ group_key h = expert_of i /\ group_items h = pre)) \/
     (g ∈ gs /\ group_key g <> expert_of i)) /\
  (group_push i gs ≫= group_items) ≡ₚ i :: (gs ≫= group_items).
Proof.
  induction 1 as [|g gs Hs IH Hg]; simpl.
  { split; [repeat constructor|]. split; [|done]. intros g ->%list_elem_of_singleton. left.
    split; [done|]. exists []. auto. }
  destruct (lex_ltb (expert_of i) (group_key g)) eqn:E1;
    [|destruct (lex_ltb (group_key g) (expert_of i)) eqn:E2].
  - split; [|split; [|done]].
    + constructor; [by constructor|]. constructor; [done|].
      eapply Forall_impl; [exact Hg|]. intros h Hh. by eapply lex_ltb_lt_trans.
    + intros h [->|Hh]%elem_of_cons; [left; split; [done|]; exists []; auto|].
      right. split; [done|]. intros Heq.
      assert (lex_ltb (expert_of i) (group_key h) = true) as Hlt.
      { apply elem_of_cons in Hh as [->|Hh]; [done|]. rewrite Forall_forall in Hg.
        eapply lex_ltb_lt_trans; [done|by apply Hg]. }
      rewrite Heq in Hlt. pose proof (lex_ltb_asym _ _ Hlt). congruence.
  - destruct IH as (IHs & IHg & IHp). split; [|split].
    + constructor; [done|]. apply Forall_forall. intros h Hh.
      apply IHg in Hh as [(-> & _)|[Hh _]]; [done|].
      rewrite Forall_forall in Hg. by apply Hg.
    + intros h [->|Hh]%elem_of_cons.
      * right. split; [constructor|]. intros Heq. rewrite Heq in E2.
        pose proof (lex_ltb_asym _ _ E2). congruence.
      * apply IHg in Hh as [(Hk & pre & Hi & Hpre)|[Hh Hk]].
        -- left. split; [done|]. exists pre. split; [done|].
           destruct Hpre as [->|(h' & ? & ? & ?)]; [by left|right].
           exists h'. split; [by constructor|done].
        -- right. split; [by constructor|done].
    + simpl. rewrite IHp. by rewrite Permutation_middle.
  - assert (Heq : expert_of i = group_key g) by (by apply lex_ltb_tie).
    split; [|split].
    + constructor; [done|]. exact Hg.
    + intros h [->|Hh]%elem_of_cons.
      * left. split; [done|]. exists (group_items g). split; [done|]. right.
        exists g. split; [constructor|done].
      * right. split; [by constructor|]. rewrite Heq. intros Hk.
        rewrite Forall_forall in Hg. specialize (Hg h Hh). rewrite Hk in Hg.
        pose proof (lex_ltb_asym _ _ Hg). congruence.
    + simpl. rewrite <- app_assoc. symmetry. apply Permutation_middle.
Qed.

(** The groups of a batch: one per expert in expert order, nothing lost, and each
    group's items are of its expert. *)
Lemma group_all_spec l :
  let gs := foldl (fun gs i => group_push (value i) gs) [] l in
  groups_sorted gs /\ (gs ≫= group_items) ≡ₚ value <$> l /\
  (forall g i, g ∈ gs -> i ∈ group_items g -> expert_of i = group_key g) /\
  (forall g, g ∈ gs -> group_items g <> []).
Proof.
  induction l as [|x l IH] using rev_ind; simpl.
  { split; [constructor|]. set_solver. }
  rewrite foldl_snoc. destruct IH as (Hs & Hp & Hk & Hne).
  destruct (group_push_spec (value x) _ Hs) as (Hs' & Hg & Hp'). split; [done|].
  split; [|split].
  - rewrite Hp', Hp, fmap_app. simpl. by rewrite <- Permutation_cons_append.
  - intros g i Hgin Hi. apply Hg in Hgin as [(-> & pre & Hgi & Hpre)|[Hgin _]]; [|by eapply Hk].
    rewrite Hgi in Hi. apply elem_of_app in Hi as [Hi|Hi%list_elem_of_singleton]; [|by subst].
    destruct Hpre as [->|(h & Hh & <- & <-)]; [by apply elem_of_nil in Hi|by eapply Hk].
  - intros g Hgin. apply Hg in Hgin as [(_ & pre & -> & _)|[Hgin _]]; [|by apply Hne].
    by destruct pre.
Qed.

Lemma count_partition query l :
  (length (filter (fun i => is_vram_ready (query (layer (value i)) (expert (value i)))) l)
   + length (filter (fun i => is_blocked (query (layer (value i)) (expert (value i)))) l)
   + length (filter (fun i => is_failed (query (layer (value i)) (expert (value i)))) l)
   = length l)%nat.
Proof.
  induction l as [|i l IH]; [done|]. rewrite !filter_cons.
  destruct (query _ _); simpl; lia.
Qed.

(** Work that is, or has been, handed out. *)
Definition busy (i : Item) : bool := in_flight i || complete i.

Lemma batch_ids_perm `{StdSort} query c :
  (fun i => work i) <$> (groups (schedule (Some query) c).1 ≫= group_items)
  ≡ₚ (fun i => work (value i)) <$> select query c.
Proof.
  simpl. destruct (group_all_spec (select query c)) as (_ & -> & _).
  by rewrite <- list_fmap_compose.
Qed.

Lemma cancel_items r c id i :
  items (cancel r c) !! id = Some i -> items c !! id = Some i.
Proof.
  unfold cancel. case_bool_decide; [|done]. simpl.
  destruct (cancel_fold r (ordered token_key_ltb (tokens c))
              (c <| requests %= fun s => s ∖ {[r]} |>)) as (_ & _ & _ & _ & _ & Hi);
    [apply ordered_keys_NoDup|]. simpl in Hi. rewrite Hi. by case_decide.
Qed.

Lemma cancel_next r c : next_work (cancel r c) = next_work c.
Proof.
  unfold cancel. case_bool_decide; [|done]. simpl.
  by destruct (cancel_fold r (ordered token_key_ltb (tokens c))
              (c <| requests %= fun s => s ∖ {[r]} |>) ltac:(apply ordered_keys_NoDup))
    as (_ & _ & -> & _).
Qed.

Lemma retire_items r s c c' :
  retire_token r s c = Ok c' ->
  next_work c' = next_work c /\
  exists t, tokens c !! (r, s) = Some t /\ tokens c' = delete (r, s) (tokens c) /\
    items c' = erase_keys (token_work t) (items c).
Proof.
  unfold retire_token. destruct (tokens c !! (r, s)) as [t|]; [|done].
  destruct (token_complete r s c) as [[]|]; intros; simplify_eq/=. split; [done|]. by exists t.
Qed.

(** What one call does to the work: the ids it hands out were idle, become busy,
    and nothing that was busy is idle again. *)
Lemma step_busy `{StdSort, !StdSortSpec _} c ids c' :
  sched_inv c -> 0 <= maximum_batch_items (config c) -> sched_step c ids c' ->
  next_work c <= next_work c' /\ NoDup ids /\
  (forall id, id ∈ ids -> exists i, items c !! id = Some i /\ busy i = false) /\
  (forall id i, id < next_work c -> items c' !! id = Some i ->
     (forall j, items c !! id = Some j -> id ∈ ids \/ busy j = true) -> busy i = true).
Proof.
  intros Hinv Hpos Hstep.
  assert (Hsub : ids = [] -> next_work c <= next_work c' ->
    (forall id i, id < next_work c -> items c' !! id = Some i ->
       exists j, items c !! id = Some j /\ (busy j = true -> busy i = true)) ->
    next_work c <= next_work c' /\ NoDup ids /\
    (forall id, id ∈ ids -> exists i, items c !! id = Some i /\ busy i = false) /\
    (forall id i, id < next_work c -> items c' !! id = Some i ->
       (forall j, items c !! id = Some j -> id ∈ ids \/ busy j = true) -> busy i = true)).
  { intros -> Hn Hi. split_and!; [done|constructor|set_solver|]. intros id i Hlt Hid Hj.
    destruct (Hi id i Hlt Hid) as (j & Hlk & Hb). apply Hb.
    destruct (Hj j Hlk) as [[]%elem_of_nil|?]; done. }
  destruct Hstep as [r|t Ht|res|l|r s c1 Hr|r|r].
  - apply Hsub; [done|unfold admit_request; by repeat case_match|].
    unfold admit_request. intros id i _. repeat case_match; eauto.
  - apply Hsub; [done|..]; unfold enqueue; destruct (_ || _); simpl; try done; eauto;
      destruct (_ >=? _); simpl; try done; eauto;
      destruct (tokens c !! _); simpl; try done; eauto;
      destruct (enqueue_items _ _ _ _ _) as [[ids next] m] eqn:E;
      apply enqueue_items_spec in E as (-> & -> & Hm); simpl; try lia; try done;
      try (pose proof (inv_next c Hinv); lia);
      try (intros id i Hid; apply (inv_item c Hinv) in Hid; lia).
    intros id i Hlt. rewrite Hm, decide_False by lia. eauto.
  - destruct res as [q|]; [|apply Hsub; simpl; try done; eauto].
    split_and!; [done| | |].
    + rewrite batch_ids_perm. by apply select_ids_NoDup.
    + intros id. rewrite batch_ids_perm.
      intros (i & -> & (Hi & Hf & Hc & _)%elem_of_select)%list_elem_of_fmap; [|done..].
      exists i. unfold busy. by rewrite Hf, Hc.
    + intros id i Hlt Hi Hj. setoid_rewrite batch_ids_perm in Hj. simpl in Hi.
      rewrite lookup_mark_in_flight in Hi. case_decide.
      * apply fmap_Some in Hi as (j & _ & ->). done.
      * by destruct (Hj i Hi).
  - apply Hsub; [done|unfold complete_work; by case_match|].
    intros id i _. unfold complete_work. case_match; simpl; eauto.
    rewrite lookup_mark_complete. case_decide; eauto.
    intros (j & ? & ->)%fmap_Some. exists j. split; [done|]. intros _. apply orb_true_r.
  - destruct (retire_items _ _ _ _ Hr) as (Hn & t & _ & _ & Hi). apply Hsub; [done|lia|].
    intros id i _. rewrite Hi, lookup_erase_keys. case_decide; [done|]. eauto.
  - apply Hsub; [done|by rewrite cancel_next|]. intros id i _ ?%cancel_items. eauto.
  - apply Hsub; [done|unfold finish; by case_match|]. intros id i _. unfold finish.
    case_match; simpl; eauto.
Qed.

Lemma complete_check_ok m ids u :
  status_ok (complete_check m ids u) = true <->
  NoDup ids /\ (forall id, id ∈ ids -> id ∉ u) /\
  forall id, id ∈ ids -> exists i, m !! id = Some i /\ in_flight i = true /\ complete i = false.
Proof.
  revert u. induction ids as [|id ids IH]; intros u; simpl.
  { split; [|done]. intros _. split; [constructor|]. set_solver. }
  rewrite NoDup_cons. case_bool_decide as Hu.
  { split; [done|]. intros (_ & Hn & _). by destruct (Hn id ltac:(constructor)). }
  destruct (m !! id) as [i|] eqn:Hi; cycle 1.
  { split; [done|]. intros (_ & _ & Hf). destruct (Hf id ltac:(constructor)) as (? & ? & _).
    congruence. }
  destruct (in_flight i && negb (complete i)) eqn:Eb; cycle 1.
  { split; [done|]. intros (_ & _ & Hf). destruct (Hf id ltac:(constructor)) as (j & ? & Hj & Hc).
    simplify_eq. by rewrite Hj, Hc in Eb. }
  zbool. rewrite IH. split.
  - intros (Hnd & Hdis & Hf). split_and!; [set_solver|done|set_solver|].
    intros id' [->|?]%elem_of_cons; [by exists i|by apply Hf].
  - intros ([Hni Hnd] & Hdis & Hf). split_and!; [done|set_solver|].
    intros id' ?. apply Hf. by constructor.
Qed.

(** ** What the scheduler promises *)

Section Promises.
Context `{StdSort, !StdSortSpec _}.

(** C18: in every state the scheduler reaches, the limits of its configuration hold,
    its gauges are exact, and tokens and items index each other: every item belongs
    to one live token of an admitted request and every token's items are present, so
    [items_.at] never misses. *)
Theorem scheduler_invariant cfg log c :
  0 <= maximum_requests cfg -> 0 <= maximum_queued_tokens cfg ->
  0 <= maximum_batch_items cfg -> sched_run cfg log c ->
  sched_inv c /\ config c = cfg /\
  (forall r s, exists b, token_complete r s c = Ok b) /\
  (forall r s e, retire_token r s c = Throw e ->
     token_complete r s c = Ok false /\
     e = logic_error "cannot retire incomplete token").
Proof.
  intros H1 H2 H3 Hrun. destruct (run_inv cfg ltac:(done) log c Hrun) as [Hinv Hc].
  split; [done|]. split; [done|].
  assert (Htot : forall r s, exists b, token_complete r s c = Ok b).
  { intros r s. unfold token_complete. destruct (tokens c !! (r, s)) as [t|] eqn:Ht; [|by eexists].
    eexists. apply all_complete_total. intros id Hid.
    destruct (inv_token c Hinv _ _ Ht) as (_ & _ & _ & _ & Hw).
    destruct (Hw id Hid) as (i & -> & _). done. }
  split; [done|]. intros r s e. unfold retire_token. destruct (Htot r s) as [b Hb].
  destruct (tokens c !! (r, s)) as [t|] eqn:Ht; rewrite ?Hb; simpl.
  - destruct b; [done|]. by intros [= <-].
  - intros [= <-]. split; [|done]. unfold token_complete in Hb. rewrite Ht in Hb. congruence.
Qed.

(** no work is handed out twice: over a whole run, however completions,
    cancellations and new requests interleave with the batches, the ids of all the
    scheduled items are distinct. *)
Theorem work_scheduled_once cfg log c :
  0 <= maximum_requests cfg -> 0 <= maximum_queued_tokens cfg ->
  0 <= maximum_batch_items cfg -> sched_run cfg log c -> NoDup log.
Proof.
  intros H1 H2 H3 Hrun.
  enough (NoDup log /\ forall id, id ∈ log -> id < next_work c /\
    forall i, items c !! id = Some i -> busy i = true) by tauto.
  induction Hrun as [|log c ids c' Hrun [Hnd Hlog] Hstep]; [by split; [constructor|set_solver]|].
  destruct (run_inv cfg ltac:(done) log c Hrun) as [Hinv Hc].
  destruct (step_busy c ids c') as (Hnext & Hids & Hold & Hbusy); [done|by rewrite Hc|done|].
  split.
  - apply NoDup_app. split_and!; try done. intros id Hid Hid'.
    destruct (Hold id Hid') as (i & Hi & Hb). destruct (Hlog id Hid) as [_ Hl].
    specialize (Hl i Hi). congruence.
  - intros id [Hid|Hid]%elem_of_app.
    + destruct (Hlog id Hid) as [Hlt Hl]. split; [lia|]. intros i Hi.
      apply (Hbusy id i); [done|done|]. intros j Hj. right. by apply Hl.
    + destruct (Hold id Hid) as (j & Hj & _). destruct (inv_item c Hinv _ _ Hj) as (_ & ? & _).
      split; [lia|]. intros i Hi. apply (Hbusy id i); [lia|done|]. by left.
Qed.

(** a batch is exactly a most urgent part of the eligible work. It never
    exceeds the batch limit and is full whenever enough work is eligible; it takes
    only idle items whose expert is resident, each once, marks them and nothing else
    in flight; whatever eligible item it leaves is not before any it takes. The
    batch has one group per expert, in expert order, none empty. *)
Theorem schedule_batch_spec query c b c' :
  sched_inv c -> 0 <= maximum_batch_items (config c) ->
  schedule (Some query) c = (b, c') ->
  exists taken rest,
    eligible_items query c ≡ₚ taken ++ rest /\ NoDup (taken ++ rest) /\
    (forall i, i ∈ taken ++ rest <-> eligible query c i) /\
    (groups b ≫= group_items) ≡ₚ value <$> taken /\
    ready_items b = Z.min (Z.of_nat (length (taken ++ rest))) (maximum_batch_items (config c)) /\
    (forall i j, i ∈ taken -> j ∈ rest -> schedule_ltb j i = false) /\
    (forall id, items c' !! id =
       if decide (id ∈ (fun i => work (value i)) <$> taken)
       then (fun i => i <| in_flight := true |>) <$> items c !! id else items c !! id) /\
    groups_sorted (groups b) /\
    (forall g, g ∈ groups b -> group_items g <> [] /\
       forall i, i ∈ group_items g -> expert_of i = group_key g) /\
    unique_experts b = Z.of_nat (length (groups b)) /\
    ready_items b = Z.of_nat (length taken) /\
    Z.of_nat (length (taken ++ rest)) + blocked_items b + failed_items b
      = Z.of_nat (length (waiting c)).
Proof.
  intros Hinv Hpos Hs. destruct (select_split query c Hpos) as (rest & Hp & Hurg & Hlen).
  exists (select query c), rest. simpl in Hs. simplify_eq/=.
  destruct (group_all_spec (select query c)) as (Hgs & Hgp & Hgk & Hgn).
  split_and!; try done.
  - rewrite <- Hp. by apply eligible_NoDup.
  - intros i. rewrite <- Hp. by apply elem_of_eligible.
  - rewrite <- Hp. lia.
  - intros id. apply lookup_mark_in_flight.
  - intros g Hg. split; [by apply Hgn|]. intros i Hi. by eapply Hgk.
  - rewrite <- Hp. pose proof (count_partition query (waiting c)).
    unfold count_where, eligible_items. lia.
Qed.

End Promises.

(** completion is all or nothing: it succeeds exactly when the ids are distinct
    and every one is in flight, then exactly those items become complete; otherwise
    the scheduler is unchanged. *)
Theorem complete_work_spec ids c st c' :
  complete_work ids c = (st, c') ->
  (status_ok st = true <->
     NoDup ids /\ forall id, id ∈ ids ->
       exists i, items c !! id = Some i /\ in_flight i = true /\ complete i = false) /\
  (status_ok st = false -> c' = c) /\
  (status_ok st = true -> tokens c' = tokens c /\ forall id, items c' !! id =
     if decide (id ∈ ids)
     then (fun i => i <| in_flight := false |> <| complete := true |>) <$> items c !! id
     else items c !! id).
Proof.
  unfold complete_work. pose proof (complete_check_ok (items c) ids ∅) as Hok.
  destruct (status_ok _) eqn:E; intros; simplify_eq/=.
  - split; [|split; [done|]].
    + split; [|done]. intros _. destruct Hok as [Hok _]. destruct (Hok eq_refl) as (? & _ & ?). done.
    + intros _. split; [done|]. intros id. apply lookup_mark_complete.
  - rewrite E. split; [|split; done]. split; [done|]. intros [Hnd Hf].
    apply Hok. split_and!; [done|set_solver|done].
Qed.

(** ** A run with two requests *)

Definition demo_config : SchedulerConfig := mkSchedulerConfig 2 4 3.

Definition demo_start : Core :=
  mkCore demo_config ∅ ∅ ∅ 1 0 (mkSnapshot 0 0 0 0 0 0 0 0 0).

Definition demo_core : Core :=
  let c := (admit_request 8 (admit_request 7 demo_start).2).2 in
  let c := (enqueue (mkTokenWork 7 0 0 1 0 [mkRouted 3 0; mkRouted 5 0]) c).2 in
  (enqueue (mkTokenWork 8 0 1 1 9 [mkRouted 5 0; mkRouted 4 0]) c).2.

(** Expert 4 is still in host memory; everything else is on the device. *)
Definition demo_residency (_ e : Z) : ExpertResidency :=
  if e =? 4 then ram_ready else vram_ready.

Lemma demo_run : @sched_run stable_std_sort demo_config [] demo_core.
Proof.
  eapply (@run_step stable_std_sort demo_config [] _ [] _);
    [|apply step_enqueue; vm_compute; discriminate].
  eapply (@run_step stable_std_sort demo_config [] _ [] _);
    [|apply step_enqueue; vm_compute; discriminate].
  eapply (@run_step stable_std_sort demo_config [] _ [] _); [|apply step_admit].
  eapply (@run_step stable_std_sort demo_config [] _ [] _); [|apply step_admit].
  by apply run_start.
Qed.

Lemma demo_inv : sched_inv demo_core.
Proof.
  apply (@run_inv stable_std_sort stable_std_sort_spec demo_config) with (log := []);
    [simpl; lia|apply demo_run].
Qed.

Lemma scheduler_invariant_witness :
  size (items demo_core) = 4%nat /\ sched_inv demo_core /\ config demo_core = demo_config.
Proof.
  split; [vm_compute; reflexivity|].
  destruct (@scheduler_invariant stable_std_sort stable_std_sort_spec demo_config [] demo_core)
    as (Hinv & Hc & _); [simpl; lia..|apply demo_run|].
  split; [exact Hinv|exact Hc].
Defined.

(** The most urgent item (deadline 9) is for expert 5; the other item for expert 5
    joins its group and expert 3 fills the batch. *)
Lemma schedule_batch_spec_witness :
  let b := (@schedule stable_std_sort (Some demo_residency) demo_core).1 in
  map (fun g => (group_expert g, map work (group_items g))) (groups b)
    = [(3, [1]); (5, [3; 2])] /\
  blocked_items b = 1 /\ groups_sorted (groups b).
Proof.
  split; [vm_compute; reflexivity|]. split; [vm_compute; reflexivity|].
  destruct (@schedule_batch_spec stable_std_sort stable_std_sort_spec demo_residency demo_core
    _ _ demo_inv ltac:(vm_compute; discriminate) eq_refl)
    as (taken & rest & _ & _ & _ & _ & _ & _ & _ & Hs & _).
  exact Hs.
Defined.

Lemma work_scheduled_once_witness :
  exists log, log = [1; 3; 2] /\ NoDup log.
Proof.
  exists [1; 3; 2]. split; [reflexivity|].
  apply (@work_scheduled_once stable_std_sort stable_std_sort_spec demo_config [1; 3; 2]
    (@schedule stable_std_sort (Some demo_residency) demo_core).2); [simpl; lia..|].
  apply (@run_step stable_std_sort demo_config [] demo_core [1; 3; 2] _ demo_run).
  exact (@step_schedule stable_std_sort demo_core (Some demo_residency)).
Defined.

Lemma complete_work_spec_witness :
  let c := (@schedule stable_std_sort (Some demo_residency) demo_core).2 in
  status_ok (complete_work [1; 3] c).1 = true /\ NoDup [1; 3].
Proof.
  split; [vm_compute; reflexivity|].
  destruct (complete_work_spec [1; 3] (@schedule stable_std_sort (Some demo_residency) demo_core).2
    _ _ eq_refl) as ([H _] & _).
  apply H. vm_compute. reflexivity.
Defined.
