(* ===== verification/Sha256.v ===== *)
(** SHA-256, twice: the streaming hasher of the runtime
    ([runtime/src/sha256.cpp], the portable path) and the one-shot hexadecimal
    digest of the core ([core/src/sha256.cpp]). Bytes and words are integers.

    [Sha256.update] is modelled with the buffer it keeps between calls, copied into
    as [memcpy] does. On Windows [sha256] first asks the operating system's
    provider, which is outside the sources; only the portable path is modelled. *)

From Stdlib Require Import Ascii String.
From S2P Require Import Prelude.

(** ** The compression function *)

Definition rotr (x n : Z) : Z :=
  Z.lor (Z.shiftr x n) (wrap32 (Z.shiftl x (32 - n))).

(** Eight constants per row. *)
Definition kRoundConstants : list Z :=
  [0x428a2f98; 0x71374491; 0xb5c0fbcf; 0xe9b5dba5; 0x3956c25b; 0x59f111f1; 0x923f82a4; 0xab1c5ed5] ++
  [0xd807aa98; 0x12835b01; 0x243185be; 0x550c7dc3; 0x72be5d74; 0x80deb1fe; 0x9bdc06a7; 0xc19bf174] ++
  [0xe49b69c1; 0xefbe4786; 0x0fc19dc6; 0x240ca1cc; 0x2de92c6f; 0x4a7484aa; 0x5cb0a9dc; 0x76f988da] ++
  [0x983e5152; 0xa831c66d; 0xb00327c8; 0xbf597fc7; 0xc6e00bf3; 0xd5a79147; 0x06ca6351; 0x14292967] ++
  [0x27b70a85; 0x2e1b2138; 0x4d2c6dfc; 0x53380d13; 0x650a7354; 0x766a0abb; 0x81c2c92e; 0x92722c85] ++
  [0xa2bfe8a1; 0xa81a664b; 0xc24b8b70; 0xc76c51a3; 0xd192e819; 0xd6990624; 0xf40e3585; 0x106aa070] ++
  [0x19a4c116; 0x1e376c08; 0x2748774c; 0x34b0bcb5; 0x391c0cb3; 0x4ed8aa4a; 0x5b9cca4f; 0x682e6ff3] ++
  [0x748f82ee; 0x78a5636f; 0x84c87814; 0x8cc70208; 0x90befffa; 0xa4506ceb; 0xbef9a3f7; 0xc67178f2].

Definition initial_state : list Z :=
  [0x6a09e667; 0xbb67ae85; 0x3c6ef372; 0xa54ff53a; 0x510e527f; 0x9b05688c; 0x1f83d9ab; 0x5be0cd19].

Definition word_at (block : list Z) (offset : nat) : Z :=
  Z.lor (Z.lor (Z.lor (Z.shiftl (nth offset block 0) 24) (Z.shiftl (nth (offset + 1) block 0) 16))
               (Z.shiftl (nth (offset + 2) block 0) 8)) (nth (offset + 3) block 0).

(** The second loop of [transform], which fills words 16 to 63. *)
Fixpoint extend_words (n : nat) (words : list Z) : list Z :=
  match n with
  | O => words
  | S n =>
    let i := length words in
    let w15 := nth (i - 15) words 0 in
    let w2 := nth (i - 2) words 0 in
    let small0 := Z.lxor (Z.lxor (rotr w15 7) (rotr w15 18)) (Z.shiftr w15 3) in
    let small1 := Z.lxor (Z.lxor (rotr w2 17) (rotr w2 19)) (Z.shiftr w2 10) in
    extend_words n
      (words ++ [add32 (add32 (add32 (nth (i - 16) words 0) small0) (nth (i - 7) words 0)) small1])
  end.

Definition message_words (block : list Z) : list Z :=
  extend_words 48 (map (fun i => word_at block (i * 4)) (seq 0 16)).

Record Registers := mkRegisters { ra : Z; rb : Z; rc : Z; rd : Z; re : Z; rf : Z; rg : Z; rh : Z }.

Definition round (r : Registers) (kw : Z * Z) : Registers :=
  let '(mkRegisters a b c d e f g h) := r in
  let big1 := Z.lxor (Z.lxor (rotr e 6) (rotr e 11)) (rotr e 25) in
  let choose := Z.lxor (Z.land e f) (Z.land (Z.lxor e U32_MAX) g) in
  let first := add32 (add32 (add32 (add32 h big1) choose) kw.1) kw.2 in
  let big0 := Z.lxor (Z.lxor (rotr a 2) (rotr a 13)) (rotr a 22) in
  let majority := Z.lxor (Z.lxor (Z.land a b) (Z.land a c)) (Z.land b c) in
  let second := add32 big0 majority in
  mkRegisters (add32 first second) a b c (add32 d first) e f g.

Definition transform (state block : list Z) : list Z :=
  let s i := nth i state 0 in
  let r := foldl round
    (mkRegisters (s 0%nat) (s 1%nat) (s 2%nat) (s 3%nat) (s 4%nat) (s 5%nat) (s 6%nat) (s 7%nat))
    (zip kRoundConstants (message_words block)) in
  [add32 (s 0%nat) (ra r); add32 (s 1%nat) (rb r); add32 (s 2%nat) (rc r); add32 (s 3%nat) (rd r);
   add32 (s 4%nat) (re r); add32 (s 5%nat) (rf r); add32 (s 6%nat) (rg r); add32 (s 7%nat) (rh r)].

(** ** The streaming hasher *)

Record Sha256 := mkSha256 {
  state : list Z;
  tail : list Z;
  tail_bytes : nat;
  total_bytes : Z;
  digest : list Z;
  finalized : bool }.

#[export] Instance eta_Sha256 : Eta Sha256 := fun s =>
  mkSha256 (state s) (tail s) (tail_bytes s) (total_bytes s) (digest s) (finalized s).

Definition sha256_init : Sha256 :=
  mkSha256 initial_state (replicate 64 0) 0 0 (replicate 32 0) false.

(** [memcpy] of [src] to [dst + offset]. *)
Definition copy_into (dst : list Z) (offset : nat) (src : list Z) : list Z :=
  take offset dst ++ src ++ drop (offset + length src) dst.

(** The block loop of [update]: [n] whole blocks from the front of the input. *)
Fixpoint absorb (n : nat) (st input : list Z) : list Z :=
  match n with
  | O => st
  | S n => absorb n (transform st (take 64 input)) (drop 64 input)
  end.

(** The first part of [update]: input that completes the kept tail; what is left
    of the input. *)
Definition fill_tail (input : list Z) (s : Sha256) : Sha256 * list Z :=
  if (tail_bytes s =? 0)%nat then (s, input)
  else
    let count := Nat.min (64 - tail_bytes s) (length input) in
    let s := s <| tail := copy_into (tail s) (tail_bytes s) (take count input) |>
               <| tail_bytes %= fun n => (n + count)%nat |> in
    let s := if (tail_bytes s =? 64)%nat
             then s <| state := transform (state s) (tail s) |> <| tail_bytes := O |> else s in
    (s, drop count input).

(** The second part: whole blocks, then the remainder to the tail. *)
Definition absorb_rest (input : list Z) (s : Sha256) : Sha256 :=
  let blocks := (length input / 64)%nat in
  let s := s <| state := absorb blocks (state s) input |> in
  let left := drop (blocks * 64) input in
  if bool_decide (left = []) then s
  else s <| tail_bytes := length left |> <| tail := copy_into (tail s) 0 left |>.

Definition update (input : list Z) (s : Sha256) : Sha256 :=
  if finalized s || bool_decide (input = []) then s
  else
    let s := s <| total_bytes %= fun n => add64 n (Z.of_nat (length input)) |> in
    let '(s, rest) := fill_tail input s in absorb_rest rest s.

Definition be_bytes (n : nat) (z : Z) : list Z :=
  map (fun i => Z.land (Z.shiftr z (8 * Z.of_nat (n - 1 - i))) 255) (seq 0 n).

(** The padding of [finalize] in its 128-byte array: the tail, the bit 1, zeros
    and the length in bits at the end of the one or two blocks used. *)
Definition final_blocks (s : Sha256) : list Z :=
  let area := replicate 128 0 in
  let area := copy_into area 0 (take (tail_bytes s) (tail s)) in
  let area := <[tail_bytes s := 128]> area in
  let padded := if (tail_bytes s <? 56)%nat then 64%nat else 128%nat in
  copy_into area (padded - 8) (be_bytes 8 (mul64 (total_bytes s) 8)).

Definition finalize (s : Sha256) : list Z * Sha256 :=
  if finalized s then (digest s, s)
  else
    let area := final_blocks s in
    let s := s <| state := transform (state s) (take 64 area) |> in
    let s := if (tail_bytes s <? 56)%nat then s
             else s <| state := transform (state s) (drop 64 area) |> in
    let s := s <| digest := state s ≫= be_bytes 4 |> <| finalized := true |> in
    (digest s, s).

Definition sha256 (input : list Z) : list Z := (finalize (update input sha256_init)).1.

(** No early exit: every byte is folded into the difference. *)
Definition constant_time_equal (left right : list Z) : bool :=
  foldl (fun d p => Z.lor d (Z.lxor p.1 p.2)) 0 (zip left right) =? 0.

(** ** The one-shot digest of the core *)

(** [while (padded.size() % 64 != 56) padded.push_back(0)]; at most 63 rounds. *)
Fixpoint pad_zeros (fuel : nat) (l : list Z) : list Z :=
  match fuel with
  | O => l
  | S fuel => if (length l mod 64 =? 56)%nat then l else pad_zeros fuel (l ++ [0])
  end.

Definition core_padded (input : list Z) : list Z :=
  pad_zeros 64 (input ++ [128]) ++ be_bytes 8 (mul64 (Z.of_nat (length input)) 8).

Definition hex_digit (n : Z) : ascii :=
  nth (Z.to_nat n) (String.list_ascii_of_string "0123456789abcdef") "0"%char.

(** [std::hex << std::setw(8) << std::setfill('0') << word]. *)
Definition hex_word (w : Z) : list ascii :=
  map (fun i => hex_digit (Z.land (Z.shiftr w (4 * Z.of_nat (7 - i))) 15)) (seq 0 8).

Definition Sha256Hex (input : list Z) : string :=
  let padded := core_padded input in
  let final := absorb (length padded / 64) initial_state padded in
  String.string_of_list_ascii (final ≫= hex_word).

(** ** The standard *)

(** The padded message of FIPS 180-4 and the hash of its blocks. *)
Definition padding (n : nat) : list Z :=
  [128] ++ replicate ((119 - n mod 64) mod 64) 0 ++ be_bytes 8 (8 * Z.of_nat n).

Definition padded_message (m : list Z) : list Z := m ++ padding (length m).

Definition sha256_words (m : list Z) : list Z :=
  absorb (length (padded_message m) / 64) initial_state (padded_message m).

Definition sha256_reference (m : list Z) : list Z := sha256_words m ≫= be_bytes 4.

(** ** Streaming agrees with the standard *)

Lemma absorb_app k n st a b :
  length a = (64 * k)%nat -> absorb (k + n) st (a ++ b) = absorb n (absorb k st a) b.
Proof.
  revert st a. induction k as [|k IH]; intros st a Ha; simpl.
  { apply nil_length_inv in Ha. by subst. }
  rewrite take_app_le, drop_app_le by lia. apply IH. rewrite length_drop. lia.
Qed.

Lemma length_be_bytes n z : length (be_bytes n z) = n.
Proof. unfold be_bytes. by rewrite length_map, length_seq. Qed.

Lemma length_copy_into dst o src :
  (o + length src <= length dst)%nat -> length (copy_into dst o src) = length dst.
Proof. intros. unfold copy_into. rewrite !length_app, length_take, length_drop. lia. Qed.

(** The hasher holds [m]: whole blocks are in the state, the rest is the valid
    prefix of the tail. *)
Definition holds (m : list Z) (s : Sha256) : Prop :=
  finalized s = false /\ length (tail s) = 64%nat /\ (tail_bytes s < 64)%nat /\
  exists k done, length done = (64 * k)%nat /\ state s = absorb k initial_state done /\
    m = done ++ take (tail_bytes s) (tail s).

Definition consumed (m : list Z) (s : Sha256) : Prop :=
  holds m s /\ total_bytes s = wrap64 (Z.of_nat (length m)).

Lemma consumed_init : consumed [] sha256_init.
Proof. split; [|done]. split_and!; [done|done|simpl; lia|]. by exists 0%nat, []. Qed.

#[local] Arguments Nat.div : simpl never.
#[local] Arguments Nat.modulo : simpl never.

Lemma take_copy_into dst o src :
  (o <= length dst)%nat -> take (o + length src) (copy_into dst o src) = take o dst ++ src.
Proof.
  intros Ho. unfold copy_into. rewrite app_assoc, take_app_length'; [done|].
  rewrite length_app, length_take. lia.
Qed.

Lemma absorb_rest_holds m s rest :
  holds m s -> tail_bytes s = O ->
  holds (m ++ rest) (absorb_rest rest s) /\ total_bytes (absorb_rest rest s) = total_bytes s.
Proof.
  intros (Hf & Hl & Hb & k & done & Hd & Hs & Hm) H0. unfold absorb_rest.
  set (blocks := (length rest / 64)%nat). set (left := drop (blocks * 64) rest).
  pose proof (Nat.div_mod_eq (length rest) 64) as Hdm.
  pose proof (Nat.mod_upper_bound (length rest) 64 ltac:(lia)) as Hmod. fold blocks in Hdm.
  assert (Hleft : length left = (length rest mod 64)%nat) by (unfold left; rewrite length_drop; lia).
  rewrite H0, take_0, app_nil_r in Hm. subst m.
  assert (Hstate : absorb blocks (state s) rest
                   = absorb (k + blocks) initial_state (done ++ take (blocks * 64) rest)).
  { rewrite absorb_app by done. rewrite <- Hs. rewrite <- (take_drop (blocks * 64) rest) at 1.
    replace blocks with (blocks + 0)%nat at 1 by lia.
    rewrite absorb_app; [done|]. rewrite length_take. lia. }
  assert (Hblk : length (done ++ take (blocks * 64) rest) = (64 * (k + blocks))%nat).
  { rewrite length_app, length_take. lia. }
  case_bool_decide as E; simpl; (split; [|done]); split_and!; simpl; try done; try lia.
  - exists (k + blocks)%nat, (done ++ take (blocks * 64) rest). split_and!; [done|done|].
    rewrite H0, take_0, app_nil_r. f_equal. rewrite <- (take_drop (blocks * 64) rest) at 1.
    fold left. by rewrite E, app_nil_r.
  - rewrite length_copy_into; lia.
  - exists (k + blocks)%nat, (done ++ take (blocks * 64) rest). split_and!; [done|done|].
    pose proof (take_copy_into (tail s) 0 left ltac:(lia)) as Htk. simpl in Htk.
    rewrite Htk, <- app_assoc. f_equal. simpl.
    by rewrite <- (take_drop (blocks * 64) rest) at 1.
Qed.

(** Either the tail is empty afterwards or the input is used up. *)
Lemma fill_tail_holds m s input s1 rest :
  holds m s -> fill_tail input s = (s1, rest) ->
  total_bytes s1 = total_bytes s /\
  exists got, input = got ++ rest /\ holds (m ++ got) s1 /\ (tail_bytes s1 = O \/ rest = []).
Proof.
  intros (Hf & Hl & Hb & k & done & Hd & Hs & Hm). unfold fill_tail.
  destruct (Nat.eqb_spec (tail_bytes s) 0) as [H0|H0].
  { intros [= <- <-]. split; [done|]. exists []. rewrite app_nil_r. split; [done|].
    split; [|by left]. split_and!; try done. by exists k, done. }
  set (count := Nat.min (64 - tail_bytes s) (length input)). simpl.
  assert (Htc : length (take count input) = count) by (rewrite length_take; lia).
  assert (Hlen : length (copy_into (tail s) (tail_bytes s) (take count input)) = 64%nat)
    by (rewrite length_copy_into; lia).
  assert (Htake : take (tail_bytes s + count) (copy_into (tail s) (tail_bytes s) (take count input))
                  = take (tail_bytes s) (tail s) ++ take count input).
  { rewrite <- Htc at 1. apply take_copy_into. lia. }
  intros [= <- <-]. split; [by case_match|]. exists (take count input). rewrite take_drop.
  split; [done|]. destruct (Nat.eqb_spec (tail_bytes s + count) 64) as [H64|H64]; simpl.
  - split; [|by left]. split_and!; simpl; try done; [lia|].
    rewrite H64, take_ge in Htake by lia.
    exists (k + 1)%nat, (done ++ copy_into (tail s) (tail_bytes s) (take count input)).
    split_and!.
    + rewrite length_app, Hlen. lia.
    + rewrite absorb_app by done. simpl. rewrite <- Hs. f_equal. symmetry. apply take_ge. lia.
    + by rewrite app_nil_r, Htake, Hm, <- app_assoc.
  - split; [|right; apply drop_ge; lia]. split_and!; simpl; try done; [lia|].
    exists k, done. split_and!; [done|done|]. by rewrite Htake, Hm, <- app_assoc.
Qed.

Lemma update_consumed m s input :
  consumed m s -> consumed (m ++ input) (update input s).
Proof.
  intros [Hh Ht]. unfold update. destruct Hh as (Hf & Hh). rewrite Hf.
  case_bool_decide as Hi; [rewrite Hi, app_nil_r; by split|]. simpl.
  destruct (fill_tail _ _) as [s1 rest] eqn:E.
  apply (fill_tail_holds m) in E as (Ht1 & got & Hin & Hh1 & Hor); [|by split].
  assert (Htot : total_bytes s1 = wrap64 (Z.of_nat (length (m ++ input)))).
  { rewrite Ht1. simpl. rewrite Ht. unfold add64. rewrite wrap64_add_l, length_app. f_equal. lia. }
  destruct Hor as [H0| ->].
  - destruct (absorb_rest_holds _ _ rest Hh1 H0) as [Hr Htr].
    split; [|congruence]. by rewrite Hin, app_assoc.
  - rewrite app_nil_r in Hin. subst. split; [|done]. unfold absorb_rest. simpl.
    destruct s1. exact Hh1.
Qed.

Lemma copy_into_zeros n src :
  copy_into (replicate n 0) 0 src = src ++ replicate (n - length src) 0.
Proof. unfold copy_into. simpl. by rewrite drop_replicate. Qed.

Lemma copy_into_zero_tail x n o src :
  (length x <= o)%nat ->
  copy_into (x ++ replicate n 0) o src
  = x ++ replicate (Nat.min (o - length x) n) 0 ++ src
      ++ replicate (n - (o + length src - length x)) 0.
Proof.
  intros Ho. unfold copy_into. rewrite take_app_ge, drop_app_ge by lia.
  by rewrite take_replicate, drop_replicate, <- app_assoc.
Qed.

(** [finalize] lays out exactly the padding of the standard. *)
Lemma final_blocks_padding s n :
  length (tail s) = 64%nat -> (tail_bytes s < 64)%nat -> (n mod 64 = tail_bytes s)%nat ->
  total_bytes s = Z.of_nat n -> 8 * Z.of_nat n <= U64_MAX ->
  final_blocks s = take (tail_bytes s) (tail s) ++ padding n
                   ++ replicate (if (tail_bytes s <? 56)%nat then 64 else 0) 0.
Proof.
  intros Hl Hb Hn Ht Hmax. unfold final_blocks, padding.
  assert (mul64 (total_bytes s) 8 = 8 * Z.of_nat n) as ->.
  { unfold mul64. rewrite wrap64_small; [lia|]. unfold u64. lia. }
  set (t := take (tail_bytes s) (tail s)).
  assert (Hlt : length t = tail_bytes s) by (unfold t; rewrite length_take; lia).
  set (be := be_bytes 8 (8 * Z.of_nat n)). assert (Hbe : length be = 8%nat) by apply length_be_bytes.
  rewrite Hn. clearbody t be.
  rewrite copy_into_zeros.
  set (b := tail_bytes s) in *. clearbody b.
  assert (<[b := 128]> (t ++ replicate (128 - length t) 0) = t ++ [128] ++ replicate (127 - b) 0) as ->.
  { replace b with (length t + 0)%nat at 1 by lia. rewrite insert_app_r.
    replace (128 - length t)%nat with (S (127 - b)) by lia. done. }
  rewrite app_assoc.
  destruct (Nat.ltb_spec b 56); rewrite copy_into_zero_tail, Hbe, length_app
    by (rewrite length_app; simpl; lia); simpl length; rewrite <- !app_assoc; do 3 f_equal.
  - f_equal. transitivity (55 - b)%nat; [lia|].
    replace (119 - b)%nat with (55 - b + 1 * 64)%nat by lia.
    rewrite Nat.Div0.mod_add. symmetry. apply Nat.mod_small. lia.
  - do 2 f_equal. lia.
  - f_equal. rewrite Nat.mod_small by lia. lia.
  - do 2 f_equal. lia.
Qed.

(** The padding always completes the last one or two blocks. *)
Lemma length_padding n :
  length (padding n) = ((if n mod 64 <? 56 then 64 else 128) - n mod 64)%nat.
Proof.
  unfold padding. rewrite !length_app, length_replicate, length_be_bytes. simpl.
  pose proof (Nat.mod_upper_bound n 64 ltac:(lia)). set (b := (n mod 64)%nat) in *. clearbody b.
  destruct (Nat.ltb_spec b 56).
  - replace (119 - b)%nat with (55 - b + 1 * 64)%nat by lia.
    rewrite Nat.Div0.mod_add, Nat.mod_small; lia.
  - rewrite Nat.mod_small; lia.
Qed.

Lemma finalize_consumed m s :
  consumed m s -> 8 * Z.of_nat (length m) <= U64_MAX ->
  (finalize s).1 = sha256_reference m /\ finalize (finalize s).2 = finalize s /\
  forall more, update more (finalize s).2 = (finalize s).2.
Proof.
  intros [(Hf & Hl & Hb & k & done & Hd & Hs & Hm) Ht] Hmax.
  set (t := take (tail_bytes s) (tail s)) in *.
  assert (Hlt : length t = tail_bytes s) by (unfold t; rewrite length_take; lia).
  assert (Hlen : (length m = 64 * k + tail_bytes s)%nat).
  { rewrite Hm, length_app. lia. }
  assert (Hmod : (length m mod 64 = tail_bytes s)%nat).
  { rewrite Hlen, Nat.mul_comm, Nat.add_comm, Nat.Div0.mod_add. apply Nat.mod_small. lia. }
  assert (Ht' : total_bytes s = Z.of_nat (length m)).
  { rewrite Ht. apply wrap64_small. unfold u64. lia. }
  assert (Hdig : state (finalize s).2 = sha256_words m).
  { unfold finalize. rewrite Hf. simpl. rewrite (final_blocks_padding s (length m)) by done.
    fold t. pose proof (length_padding (length m)) as Hp. rewrite Hmod in Hp.
    assert (Hpm : padded_message m = done ++ t ++ padding (length m)).
    { unfold padded_message. rewrite Hm at 1. by rewrite <- app_assoc. }
    assert (Hdl : forall j, length (t ++ padding (length m)) = (64 * j)%nat ->
      sha256_words m = absorb j (state s) (t ++ padding (length m))).
    { intros j Hj. unfold sha256_words. rewrite Hpm, length_app, Hd, Hj.
      rewrite <- Nat.mul_add_distr_l, Nat.mul_comm, Nat.div_mul by lia.
      rewrite absorb_app by done. by rewrite Hs. }
    destruct (Nat.ltb_spec (tail_bytes s) 56).
    - rewrite (Hdl 1%nat) by (rewrite length_app; lia). cbn [absorb].
      rewrite app_assoc, take_app_le by (rewrite length_app; lia). done.
    - rewrite (Hdl 2%nat) by (rewrite length_app; lia). cbn [absorb replicate]. rewrite app_nil_r.
      rewrite (take_ge (drop 64 _)) by (rewrite length_drop, length_app; lia). done. }
  assert (Hfin : (finalize s).1 = state (finalize s).2 ≫= be_bytes 4 /\
                 finalized (finalize s).2 = true /\ digest (finalize s).2 = (finalize s).1).
  { unfold finalize. rewrite Hf. split; [|split]; by destruct (_ <? _)%nat. }
  destruct Hfin as (Hst & Hfz & Hdg). split; [by rewrite Hst, Hdig|].
  split; [|intros more; unfold update; by rewrite Hfz].
  unfold finalize at 1. rewrite Hfz, Hdg. by destruct (finalize s).
Qed.



(** ** The core's hexadecimal digest *)

Definition hex_byte (b : Z) : list ascii := [hex_digit (Z.shiftr b 4); hex_digit (Z.land b 15)].

Definition hex_string (bytes : list Z) : string :=
  String.string_of_list_ascii (bytes ≫= hex_byte).

Lemma pad_zeros_spec z fuel l :
  ((length l + z) mod 64 = 56)%nat ->
  (forall y, (y < z)%nat -> ((length l + y) mod 64 <> 56)%nat) -> (z < fuel)%nat ->
  pad_zeros fuel l = l ++ replicate z 0.
Proof.
  revert fuel l. induction z as [|z IH]; intros [|fuel] l Hz Hmin Hf; try lia; simpl.
  - rewrite Nat.add_0_r in Hz. rewrite (proj2 (Nat.eqb_eq _ _) Hz). by rewrite app_nil_r.
  - assert (Hne : (length l mod 64 <> 56)%nat).
    { specialize (Hmin 0%nat ltac:(lia)). by rewrite Nat.add_0_r in Hmin. }
    rewrite (proj2 (Nat.eqb_neq _ _) Hne). rewrite IH.
    + by rewrite <- app_assoc.
    + rewrite length_app. simpl.
      by replace (length l + 1 + z)%nat with (length l + S z)%nat by lia.
    + intros y Hy. rewrite length_app. simpl. specialize (Hmin (S y) ltac:(lia)).
      by replace (length l + 1 + y)%nat with (length l + S y)%nat by lia.
    + lia.
Qed.

Lemma core_padded_spec m :
  8 * Z.of_nat (length m) <= U64_MAX -> core_padded m = padded_message m.
Proof.
  intros Hmax. unfold core_padded, padded_message, padding.
  assert (mul64 (Z.of_nat (length m)) 8 = 8 * Z.of_nat (length m)) as ->.
  { unfold mul64. rewrite wrap64_small; [lia|]. unfold u64. lia. }
  set (n := length m). set (z := ((119 - n mod 64) mod 64)%nat).
  pose proof (Nat.div_mod_eq n 64) as Hn.
  pose proof (Nat.mod_upper_bound n 64 ltac:(lia)) as Hr.
  assert (Hz : (n mod 64 < 56 /\ z = 55 - n mod 64 \/ 56 <= n mod 64 /\ z = 119 - n mod 64)%nat).
  { unfold z. destruct (Nat.ltb_spec (n mod 64) 56).
    - left. split; [lia|].
      replace (119 - n mod 64)%nat with (55 - n mod 64 + 1 * 64)%nat by lia.
      rewrite Nat.Div0.mod_add. apply Nat.mod_small. lia.
    - right. split; [lia|]. apply Nat.mod_small. lia. }
  clearbody z.
  assert (Hstep : forall y, (y < 127 - n mod 64)%nat ->
    ((length (m ++ [128%Z]) + y) mod 64 = if (n mod 64 + 1 + y <? 64)%nat then n mod 64 + 1 + y
       else n mod 64 + 1 + y - 64)%nat).
  { intros y Hy. rewrite length_app. simpl. fold n. rewrite Hn at 1.
    replace (64 * (n / 64) + n mod 64 + 1 + y)%nat with (n mod 64 + 1 + y + n / 64 * 64)%nat by lia.
    rewrite Nat.Div0.mod_add. destruct (Nat.ltb_spec (n mod 64 + 1 + y) 64).
    - apply Nat.mod_small. lia.
    - replace (n mod 64 + 1 + y)%nat with (n mod 64 + 1 + y - 64 + 1 * 64)%nat at 1 by lia.
      rewrite Nat.Div0.mod_add. apply Nat.mod_small. lia. }
  rewrite (pad_zeros_spec z).
  - by rewrite <- !app_assoc.
  - rewrite Hstep by lia. destruct (Nat.ltb_spec (n mod 64 + 1 + z) 64); lia.
  - intros y Hy. rewrite Hstep by lia. destruct (Nat.ltb_spec (n mod 64 + 1 + y) 64); lia.
  - lia.
Qed.

Lemma hex_word_bytes w : hex_word w = be_bytes 4 w ≫= hex_byte.
Proof.
  assert (Hhi : forall k, 0 <= k -> Z.shiftr (Z.land (Z.shiftr w k) 255) 4
                               = Z.land (Z.shiftr w (k + 4)) 15).
  { intros k Hk. rewrite Z.shiftr_land, Z.shiftr_shiftr by lia. done. }
  assert (Hlo : forall k, Z.land (Z.land (Z.shiftr w k) 255) 15 = Z.land (Z.shiftr w k) 15).
  { intros k. rewrite <- Z.land_assoc. done. }
  unfold hex_word, be_bytes. simpl. unfold hex_byte. by rewrite !Hhi, !Hlo by lia.
Qed.

(** the two SHA-256 implementations agree: the core's text digest is the
    hexadecimal form of the runtime's binary digest. *)
Theorem core_hex_is_runtime_digest m :
  8 * Z.of_nat (length m) <= U64_MAX -> Sha256Hex m = hex_string (sha256 m).
Proof.
  intros Hmax. unfold hex_string, Sha256Hex. rewrite core_padded_spec by done.
  pose proof (update_consumed [] sha256_init m consumed_init) as H1.
  destruct (finalize_consumed _ _ H1 Hmax) as (Hd & _). unfold sha256. rewrite Hd.
  unfold sha256_reference, sha256_words. f_equal.
  induction (absorb _ _ _) as [|w l IH]; [done|].
  by rewrite !bind_cons, bind_app, <- hex_word_bytes, <- IH.
Qed.

Lemma core_hex_is_runtime_digest_witness :
  8 * Z.of_nat (length [97; 98; 99]) <= U64_MAX /\
  hex_string (sha256 [97; 98; 99])
    = "ba7816bf8f01cfea414140de5dae2223b00361a396177a9cb410ff61f20015ad"%string.
Proof.
  split; [vm_compute; discriminate|].
  rewrite <- (core_hex_is_runtime_digest [97; 98; 99]); [vm_compute; reflexivity|].
  vm_compute. discriminate.
Defined.

Lemma constant_time_equal_spec l r :
  length l = length r -> (constant_time_equal l r = true <-> l = r).
Proof.
  unfold constant_time_equal. intros Hlen.
  assert (Hgen : forall l r d, length l = length r ->
    (foldl (fun d p => Z.lor d (Z.lxor p.1 p.2)) d (zip l r) = 0 <-> d = 0 /\ l = r)).
  { clear. induction l as [|x l IH]; intros [|y r] d Hlen; simpl; try done.
    { naive_solver. }
    rewrite IH by (simpl in Hlen; lia). rewrite Z.lor_eq_0_iff, Z.lxor_eq_0_iff. naive_solver. }
  rewrite Z.eqb_eq, Hgen by done. naive_solver.
Qed.

Lemma length_bind_bytes n (l : list Z) : length (l ≫= be_bytes n) = (n * length l)%nat.
Proof.
  induction l as [|x l IH]; [simpl; lia|]. rewrite bind_cons, length_app, IH, length_be_bytes. simpl. lia.
Qed.

Lemma length_sha256 m : length (sha256 m) = 32%nat.
Proof.
  pose proof (update_consumed [] sha256_init m consumed_init) as [(Hf & _) _]. unfold sha256.
  revert Hf. generalize (Sha256.update m sha256_init). intros s Hf. unfold finalize. rewrite Hf.
  cbv zeta. match goal with |- context [if ?b then _ else _] => destruct b end;
    (etrans; [apply length_bind_bytes|reflexivity]).
Qed.

Lemma sha256_byte m : Forall (fun b => 0 <= b < 256) (sha256 m).
Proof.
  pose proof (update_consumed [] sha256_init m consumed_init) as [(Hf & _) _]. unfold sha256.
  revert Hf. generalize (Sha256.update m sha256_init). intros s Hf. unfold finalize. rewrite Hf.
  cbn [fst]. apply Forall_bind, Forall_true. intros z. unfold be_bytes. apply Forall_fmap, Forall_true.
  intros i. cbn. change 255 with (Z.ones 8). rewrite Z.land_ones by lia. apply Z.mod_pos_bound. lia.
Qed.

Lemma constant_time_equal_refl l : constant_time_equal l l = true.
Proof. by apply constant_time_equal_spec. Qed.
