(* ===== verification/ExpertRecord.v ===== *)
(** The admission gate of an expert record ([runtime/src/expert_record.cpp],
    [runtime/include/expert/runtime/expert_record.hpp]): the header of the Expert
    Pack v1 format, the geometry of its four sections, the scale codes and the
    payload digest, checked before any span becomes visible to compute.

    A record is the list of its bytes. Reads past its end, which the checks before
    them exclude, read 0. *)

From S2P Require Import Prelude Storage Sha256.

Definition kExpertPackVersion : Z := 1.
Definition kExpertHeaderBytes : Z := 256.
Definition kExpertPackAlignment : Z := 4096.
Definition kExpertEncodingAbiInt8PerRow : Z := 1.
Definition kExpertEncodingAbiFp4Block32 : Z := 2.
Definition kExpertEncodingAbiNvfp4Block16W4A4 : Z := 3.
Definition kExpertRecordAbiInt8PerRow : Z := 1.
Definition kExpertRecordAbiFp4Block32 : Z := 3.
Definition kExpertRecordAbiFp4Relu2Block32 : Z := 4.
Definition kExpertRecordAbiNvfp4Block16W4A4 : Z := 5.
Definition kExpertFp4BlockSize : Z := 32.
Definition kExpertNvfp4BlockSize : Z := 16.
Definition kExpertSourceAbiExpertPackV1 : Z := 1.

Definition kMagic : list Z := [69; 80; 69; 88; 80; 82; 48; 49].
Definition kRequiredFlags : Z := 0x0f.
Definition kRelu2RequiredFlags : Z := 0x0d.
Definition kNvfp4RequiredFlags : Z := 0x07.
Definition kStructuredHeaderBytes : Z := 148.
Definition kSectionAlignment : Z := 256.

Record ExpertSections := mkSections {
  hidden : Z;
  intermediate : Z;
  gate_up_q_offset : Z;
  gate_up_q_bytes : Z;
  gate_up_scale_offset : Z;
  gate_up_scale_bytes : Z;
  down_q_offset : Z;
  down_q_bytes : Z;
  down_scale_offset : Z;
  down_scale_bytes : Z }.

Definition no_sections : ExpertSections := mkSections 0 0 0 0 0 0 0 0 0 0.

Record SplitExpertSections := mkSplit {
  w1_weight_offset : Z; w1_weight_bytes : Z; w1_scale_offset : Z; w1_scale_bytes : Z;
  w3_weight_offset : Z; w3_weight_bytes : Z; w3_scale_offset : Z; w3_scale_bytes : Z;
  w2_weight_offset : Z; w2_weight_bytes : Z; w2_scale_offset : Z; w2_scale_bytes : Z }.

Definition no_split : SplitExpertSections := mkSplit 0 0 0 0 0 0 0 0 0 0 0 0.

Record ExpertAdmissionValidation := mkAdmission {
  adm_status : Status;
  adm_target : ExpertSections;
  adm_compact : SplitExpertSections }.

(** The spans of [ValidatedExpertRecord] are the record and its payload. *)
Record ExpertRecordValidation := mkValidation {
  val_status : Status;
  val_sections : ExpertSections;
  val_payload : list Z }.

Definition failure (c : ErrorCode) (m : string) : ExpertRecordValidation :=
  mkValidation (mkStatus c m) no_sections [].

Definition admission_failure (c : ErrorCode) (m : string) : ExpertAdmissionValidation :=
  mkAdmission (mkStatus c m) no_sections no_split.

(** ** Reading the header *)

Definition byte_at (l : list Z) (i : Z) : Z := nth (Z.to_nat i) l 0.

(** [read_le<T>(raw + at)] for an unsigned [T] of [n] bytes. *)
Definition read_le (n : nat) (l : list Z) (at_ : Z) : Z :=
  foldl (fun v i => Z.lor v (Z.shiftl (byte_at l (at_ + Z.of_nat i)) (8 * Z.of_nat i))) 0 (seq 0 n).

(** The [std::int32_t] with these 32 bits. *)
Definition as_int32 (v : Z) : Z := if v <? 2 ^ 31 then v else v - 2 ^ 32.

Definition multiply (left right : Z) : option Z :=
  if negb (left =? 0) && (right >? U64_MAX / left) then None else Some (mul64 left right).

Definition valid_section (offset n previous_end record_bytes : Z) : bool :=
  (offset >=? previous_end) && (offset mod kSectionAlignment =? 0) && (n <=? record_bytes)
  && (offset <=? sub64 record_bytes n).

(** A [float] by its bits: finite, and greater than zero. *)
Definition float_finite (v : Z) : bool := negb (Z.land (Z.shiftr v 23) 255 =? 255).
Definition float_positive (v : Z) : bool :=
  (v <? 2 ^ 31) && negb (Z.land v (2 ^ 31 - 1) =? 0) && (v <=? 255 * 2 ^ 23).

Definition slice (l : list Z) (offset n : Z) : list Z :=
  take (Z.to_nat n) (drop (Z.to_nat offset) l).

Record Header := mkHeader {
  h_version : Z; h_header_bytes : Z; h_flags : Z; h_record_abi : Z; h_layer : Z; h_expert : Z;
  h_hidden : Z; h_intermediate : Z; h_fused_rows : Z; h_reserved : Z; h_record_bytes : Z }.

Definition read_header (raw : list Z) : Header :=
  mkHeader (read_le 2 raw 8) (read_le 2 raw 10) (read_le 4 raw 12) (read_le 4 raw 16)
    (as_int32 (read_le 4 raw 20)) (as_int32 (read_le 4 raw 24)) (read_le 4 raw 28)
    (read_le 4 raw 32) (read_le 4 raw 36) (read_le 4 raw 40) (read_le 8 raw 44).

Definition is_relu2 (h : Header) : bool := h_record_abi h =? kExpertRecordAbiFp4Relu2Block32.
Definition is_nvfp4 (h : Header) : bool := h_record_abi h =? kExpertRecordAbiNvfp4Block16W4A4.
Definition is_fp4 (h : Header) : bool :=
  (h_record_abi h =? kExpertRecordAbiFp4Block32) || is_relu2 h.

(** ** The checks, in the order of the code *)

Definition geometry_violated (bytes : list Z) (e : PayloadRecord) : bool :=
  negb (header_bytes e =? kExpertHeaderBytes) || negb (rec_alignment e =? kExpertPackAlignment)
  || negb (record_offset e mod kExpertPackAlignment =? 0)
  || (stored_bytes e <? kExpertHeaderBytes)
  || negb (stored_bytes e mod kExpertPackAlignment =? 0)
  || negb (stored_bytes e =? Z.of_nat (length bytes)).

Definition header_mismatch (h : Header) (k : ExpertKey) (e : PayloadRecord) : bool :=
  negb (h_version h =? kExpertPackVersion) || negb (h_header_bytes h =? kExpertHeaderBytes)
  || negb (h_flags h =? if is_nvfp4 h then kNvfp4RequiredFlags
                        else if is_relu2 h then kRelu2RequiredFlags else kRequiredFlags)
  || (negb (h_record_abi h =? kExpertRecordAbiInt8PerRow)
      && negb (h_record_abi h =? kExpertRecordAbiFp4Block32)
      && negb (h_record_abi h =? kExpertRecordAbiFp4Relu2Block32)
      && negb (h_record_abi h =? kExpertRecordAbiNvfp4Block16W4A4))
  || (negb (record_abi e =? 0) && negb (h_record_abi h =? record_abi e))
  || negb ((if is_nvfp4 h then kExpertEncodingAbiNvfp4Block16W4A4
            else if is_fp4 h then kExpertEncodingAbiFp4Block32
            else kExpertEncodingAbiInt8PerRow) =? encoding_abi k)
  || negb (h_reserved h =? 0)
  || (h_layer h <? 0) || (h_expert h <? 0) || negb (wrap32 (h_layer h) =? layer k)
  || negb (wrap32 (h_expert h) =? expert k)
  || negb (h_record_bytes h =? stored_bytes e) || (h_hidden h =? 0) || (h_intermediate h =? 0)
  || negb (h_fused_rows h =? if is_relu2 h then h_intermediate h
                             else wrap32 (2 * h_intermediate h)).

Definition read_sections (h : Header) (raw : list Z) : ExpertSections :=
  mkSections (h_hidden h) (h_intermediate h)
    (read_le 8 raw 52) (read_le 8 raw 60) (read_le 8 raw 68) (read_le 8 raw 76)
    (read_le 8 raw 84) (read_le 8 raw 92) (read_le 8 raw 100) (read_le 8 raw 108).

Definition nvfp4_dimensions (s : ExpertSections) (hi : Z) : bool :=
  (gate_up_q_bytes s =? hi)
  && (gate_up_scale_bytes s =? mul64 2 (add64 (hi / kExpertNvfp4BlockSize) 8))
  && (down_q_bytes s =? hi / 2)
  && (down_scale_bytes s =? add64 (hi / kExpertNvfp4BlockSize) 8).

Definition fp4_dimensions (relu2 : bool) (s : ExpertSections) (hi : Z) : bool :=
  (gate_up_q_bytes s =? if relu2 then hi / 2 else hi)
  && (gate_up_scale_bytes s =? (if relu2 then hi else mul64 2 hi) / kExpertFp4BlockSize)
  && (down_q_bytes s =? hi / 2)
  && (down_scale_bytes s =? hi / kExpertFp4BlockSize).

Definition int8_dimensions (s : ExpertSections) (hi : Z) : bool :=
  (gate_up_q_bytes s =? mul64 2 hi)
  && (gate_up_scale_bytes s =? mul64 (mul64 2 (intermediate s)) 4)
  && (down_q_bytes s =? hi)
  && (down_scale_bytes s =? mul64 (hidden s) 4).

Definition section_spans (s : ExpertSections) : list (Z * Z) :=
  [(gate_up_q_offset s, gate_up_q_bytes s); (gate_up_scale_offset s, gate_up_scale_bytes s);
   (down_q_offset s, down_q_bytes s); (down_scale_offset s, down_scale_bytes s)].

(** The loop over the spans with its [previous_end]. *)
Fixpoint spans_valid (l : list (Z * Z)) (previous_end record_bytes : Z) : bool :=
  match l with
  | [] => true
  | (offset, n) :: l =>
    valid_section offset n previous_end record_bytes
    && spans_valid l (add64 offset n) record_bytes
  end.

(** An E4M3FN code that is negative or not a number. *)
Definition bad_e4m3 (code : Z) : bool :=
  negb (Z.land code 0x80 =? 0) || (Z.land code 0x7f =? 0x7f).

Inductive ScaleCheck : Type := scales_ok | bad_scale | bad_divisor.

(** The loop over the three scale areas of an NVFP4 record. *)
Fixpoint nvfp4_scales (bytes : list Z) (local : Z) (offsets : list Z) : ScaleCheck :=
  match offsets with
  | [] => scales_ok
  | offset :: offsets =>
    if existsb bad_e4m3 (slice bytes offset local) then bad_scale
    else
      let weight_global := read_le 4 bytes (offset + local) in
      let input_global := read_le 4 bytes (offset + local + 4) in
      if negb (float_finite weight_global) || negb (float_finite input_global)
         || negb (float_positive weight_global) || negb (float_positive input_global)
      then bad_divisor
      else nvfp4_scales bytes local offsets
  end.

Definition bad_ue8m0 (code : Z) : bool := (code =? 0) || (code =? 255).

Definition validate_expert_record (bytes : list Z) (k : ExpertKey) (e : PayloadRecord)
    : ExpertRecordValidation :=
  if geometry_violated bytes e
  then failure invalid_arg "manifest record geometry violates Expert Pack v1"
  else if negb (bool_decide (take 8 bytes = kMagic))
  then failure checksum_mismatch "expert record magic mismatch"
  else
    let h := read_header bytes in
    if header_mismatch h k e
    then failure checksum_mismatch "expert header/manifest ABI mismatch"
    else if is_nvfp4 h && (negb (h_hidden h mod kExpertNvfp4BlockSize =? 0)
                           || negb (h_intermediate h mod kExpertNvfp4BlockSize =? 0))
    then failure checksum_mismatch "NVFP4 expert geometry is not block-aligned"
    else if is_fp4 h && (negb (h_hidden h mod kExpertFp4BlockSize =? 0)
                         || negb (h_intermediate h mod kExpertFp4BlockSize =? 0))
    then failure checksum_mismatch "FP4 expert geometry is not block-aligned"
    else if existsb (fun b => negb (b =? 0))
              (slice bytes kStructuredHeaderBytes (kExpertHeaderBytes - kStructuredHeaderBytes))
    then failure checksum_mismatch "expert header padding is non-zero"
    else
      let s := read_sections h bytes in
      match multiply (h_hidden h) (h_intermediate h) with
      | None => failure checksum_mismatch "expert section dimensions are inconsistent"
      | Some hi =>
        if is_nvfp4 h && negb (nvfp4_dimensions s hi)
        then failure checksum_mismatch "NVFP4 expert section dimensions are inconsistent"
        else if negb (is_nvfp4 h) && is_fp4 h && negb (fp4_dimensions (is_relu2 h) s hi)
        then failure checksum_mismatch "expert section dimensions are inconsistent"
        else if negb (is_nvfp4 h) && negb (is_fp4 h) && negb (int8_dimensions s hi)
        then failure checksum_mismatch "expert section dimensions are inconsistent"
        else if negb (spans_valid (section_spans s) kExpertHeaderBytes (h_record_bytes h))
        then failure checksum_mismatch
               "expert section is unaligned, overlapping, or out of range"
        else
          let scales :=
            if is_nvfp4 h then
              let local := hi / kExpertNvfp4BlockSize in
              nvfp4_scales bytes local
                [gate_up_scale_offset s; add64 (gate_up_scale_offset s) (local + 8);
                 down_scale_offset s]
            else if is_fp4 h then
              if existsb bad_ue8m0 (slice bytes (gate_up_scale_offset s) (gate_up_scale_bytes s))
                 || existsb bad_ue8m0 (slice bytes (down_scale_offset s) (down_scale_bytes s))
              then bad_scale else scales_ok
            else scales_ok in
          match scales with
          | bad_scale =>
            failure checksum_mismatch
              (if is_nvfp4 h then "NVFP4 expert contains an invalid E4M3FN scale"
               else "FP4 expert contains an invalid UE8M0 scale code")
          | bad_divisor =>
            failure checksum_mismatch "NVFP4 expert contains an invalid global divisor"
          | scales_ok =>
            let expected_decoded :=
              mul64 (mul64 (if is_relu2 h then 2 else 3) hi) 4 in
            if negb (decoded_bytes e =? 0) && negb (decoded_bytes e =? expected_decoded)
            then failure checksum_mismatch "expert decoded byte count mismatch"
            else
              let header_digest := slice bytes 116 32 in
              if negb (constant_time_equal header_digest (payload_sha256 e))
              then failure checksum_mismatch "header and manifest payload digests disagree"
              else
                let payload := drop (Z.to_nat kExpertHeaderBytes) bytes in
                if negb (constant_time_equal (sha256 payload) header_digest)
                then failure checksum_mismatch "expert payload SHA-256 mismatch"
                else mkValidation success s payload
          end
      end.

(** Splitting the fused gate and up sections into their two matrices. *)
Definition split_sections (k : ExpertKey) (e : PayloadRecord) (s : ExpertSections)
    : SplitExpertSections :=
  let product := mul64 (hidden s) (intermediate s) in
  let matrix_bytes := product / 2 in
  let native := encoding_abi k =? kExpertEncodingAbiNvfp4Block16W4A4 in
  let scale_bytes :=
    add64 (product / (if native then kExpertNvfp4BlockSize else kExpertFp4BlockSize))
      (if native then 8 else 0) in
  if record_abi e =? kExpertRecordAbiFp4Relu2Block32
  then mkSplit (gate_up_q_offset s) matrix_bytes (gate_up_scale_offset s) scale_bytes
         0 0 0 0 (down_q_offset s) matrix_bytes (down_scale_offset s) scale_bytes
  else mkSplit (gate_up_q_offset s) matrix_bytes (gate_up_scale_offset s) scale_bytes
         (add64 (gate_up_q_offset s) matrix_bytes) matrix_bytes
         (add64 (gate_up_scale_offset s) scale_bytes) scale_bytes
         (down_q_offset s) matrix_bytes (down_scale_offset s) scale_bytes.

Definition validate_expert_admission (bytes : list Z) (k : ExpertKey) (e : PayloadRecord)
    (verify_payload_sha256 : bool) : ExpertAdmissionValidation :=
  if ((encoding_abi k =? kExpertEncodingAbiInt8PerRow)
      || (encoding_abi k =? kExpertEncodingAbiFp4Block32)
      || (encoding_abi k =? kExpertEncodingAbiNvfp4Block16W4A4))
     && (source_abi e =? kExpertSourceAbiExpertPackV1)
  then
    let validated := validate_expert_record bytes k e in
    let split :=
      if status_ok (val_status validated)
         && ((encoding_abi k =? kExpertEncodingAbiFp4Block32)
             || (encoding_abi k =? kExpertEncodingAbiNvfp4Block16W4A4))
      then split_sections k e (val_sections validated) else no_split in
    mkAdmission (val_status validated) (val_sections validated) split
  else admission_failure invalid_arg "unsupported source/target expert ABI pair".

(** ** What acceptance guarantees *)

Lemma read_le_nonneg n l a : Forall (fun b => 0 <= b) l -> 0 <= read_le n l a.
Proof.
  intros Hl. unfold read_le.
  assert (Hgen : forall js v, 0 <= v ->
    0 <= foldl (fun v i => Z.lor v (Z.shiftl (byte_at l (a + Z.of_nat i)) (8 * Z.of_nat i))) v js).
  { induction js as [|i js IH]; intros v Hv; simpl; [done|]. apply IH.
    apply Z.lor_nonneg. split; [done|]. apply Z.shiftl_nonneg. unfold byte_at.
    destruct (nth_in_or_default (Z.to_nat (a + Z.of_nat i)) l 0) as [Hin| ->]; [|done].
    rewrite Forall_forall in Hl. apply Hl. by apply list_elem_of_In. }
  by apply Hgen.
Qed.

Lemma multiply_exact l r p :
  0 <= l -> 0 <= r -> multiply l r = Some p -> p = l * r /\ 0 <= p <= U64_MAX.
Proof.
  unfold multiply. intros Hl Hr. destruct (_ && _) eqn:E; [done|]. intros [= <-].
  assert (l * r <= U64_MAX).
  { destruct (Z.eq_dec l 0) as [->|Hne]; [unfold U64_MAX; lia|].
    rewrite (proj2 (Z.eqb_neq l 0) Hne) in E. simpl in E. zbool.
    pose proof (Z.mul_div_le U64_MAX l ltac:(lia)). nia. }
  unfold mul64. rewrite wrap64_small; [split; [done|nia]|unfold u64; nia].
Qed.

(** The sections lie one after the other behind the header, aligned, inside the
    record. *)
Fixpoint laid_out (l : list (Z * Z)) (previous_end record_bytes : Z) : Prop :=
  match l with
  | [] => previous_end <= record_bytes
  | (offset, n) :: l =>
    previous_end <= offset /\ offset mod kSectionAlignment = 0 /\ 0 <= n /\
    laid_out l (offset + n) record_bytes
  end.

Lemma spans_valid_laid_out l p r :
  0 <= p <= r -> r <= U64_MAX -> Forall (fun s => 0 <= s.2) l ->
  spans_valid l p r = true -> laid_out l p r.
Proof.
  revert p. induction l as [|[o n] l IH]; intros p Hp Hr Hl; simpl; [lia|].
  inversion Hl as [|? ? Hn Hl']; subst. simpl in Hn. unfold valid_section, add64, sub64.
  intros H. zbool. rewrite wrap64_small in * by (unfold u64; lia).
  split_and!; [done..|]. rewrite wrap64_small in * by (unfold u64; lia). apply IH; lia || done.
Qed.

(** The exact sizes of the four sections for each encoding; [hi] is the true
    product of the dimensions and [matrices] how many the first section fuses. *)
Definition exact_sizes (enc matrices : Z) (s : ExpertSections) : Prop :=
  let hi := hidden s * intermediate s in
  (enc = kExpertEncodingAbiInt8PerRow /\
     gate_up_q_bytes s = 2 * hi /\ gate_up_scale_bytes s = 2 * intermediate s * 4 /\
     down_q_bytes s = hi /\ down_scale_bytes s = hidden s * 4) \/
  (enc = kExpertEncodingAbiFp4Block32 /\ hidden s mod 32 = 0 /\ intermediate s mod 32 = 0 /\
     gate_up_q_bytes s = matrices * hi / 2 /\ gate_up_scale_bytes s = matrices * hi / 32 /\
     down_q_bytes s = hi / 2 /\ down_scale_bytes s = hi / 32) \/
  (enc = kExpertEncodingAbiNvfp4Block16W4A4 /\ hidden s mod 16 = 0 /\ intermediate s mod 16 = 0 /\
     gate_up_q_bytes s = hi /\ gate_up_scale_bytes s = 2 * (hi / 16 + 8) /\
     down_q_bytes s = hi / 2 /\ down_scale_bytes s = hi / 16 + 8).

(** Everything [validate_expert_record] checked, as equations. *)
Lemma validate_success bytes k e :
  status_ok (val_status (validate_expert_record bytes k e)) = true ->
  let h := read_header bytes in
  let s := read_sections h bytes in
  val_sections (validate_expert_record bytes k e) = s /\
  geometry_violated bytes e = false /\ header_mismatch h k e = false /\
  (is_nvfp4 h = true -> hidden s mod 16 = 0 /\ intermediate s mod 16 = 0) /\
  (is_fp4 h = true -> hidden s mod 32 = 0 /\ intermediate s mod 32 = 0) /\
  spans_valid (section_spans s) kExpertHeaderBytes (h_record_bytes h) = true /\
  constant_time_equal (slice bytes 116 32) (payload_sha256 e) = true /\
  constant_time_equal (sha256 (drop 256 bytes)) (slice bytes 116 32) = true /\
  exists hi, multiply (hidden s) (intermediate s) = Some hi /\
    (is_nvfp4 h = true -> nvfp4_dimensions s hi = true) /\
    (is_nvfp4 h = false -> is_fp4 h = true -> fp4_dimensions (is_relu2 h) s hi = true) /\
    (is_nvfp4 h = false -> is_fp4 h = false -> int8_dimensions s hi = true).
Proof.
  unfold validate_expert_record. set (h := read_header bytes).
  destruct (geometry_violated bytes e); [done|].
  destruct (negb (bool_decide _)); [done|].
  destruct (header_mismatch h k e); [done|].
  destruct (is_nvfp4 h && _) eqn:Ealn; [done|].
  destruct (is_fp4 h && _) eqn:Ealf; [done|].
  destruct (existsb _ _); [done|].
  set (s := read_sections h bytes).
  destruct (multiply (h_hidden h) (h_intermediate h)) as [hi|] eqn:Emul; [|done].
  destruct (_ && negb (nvfp4_dimensions _ _)) eqn:E1; [done|].
  destruct (_ && negb (fp4_dimensions _ _ _)) eqn:E2; [done|].
  destruct (_ && negb (int8_dimensions _ _)) eqn:E3; [done|].
  destruct (negb (spans_valid _ _ _)) eqn:E4; [done|].
  match goal with |- context [match ?x with scales_ok => _ | bad_scale => _ | bad_divisor => _ end] =>
    destruct x end; [|done..].
  destruct (negb (decoded_bytes e =? 0) && _); [done|].
  destruct (negb (constant_time_equal (slice _ _ _) _)) eqn:E6; [done|].
  destruct (negb (constant_time_equal (sha256 _) _)) eqn:E7; [done|].
  intros _. zbool. split_and!; try done.
  - intros Hn. rewrite Hn in Ealn. simpl in Ealn. by zbool.
  - intros Hn. rewrite Hn in Ealf. simpl in Ealf. by zbool.
  - exists hi. split; [done|]. destruct (is_nvfp4 h), (is_fp4 h); simpl in *; zbool; done.
Qed.

(** The compact view cuts the fused gate-and-up sections into matrices without
    gap or overlap, and takes the down sections whole. *)
Definition split_tiles (s : ExpertSections) (c : SplitExpertSections) : Prop :=
  w1_weight_offset c = gate_up_q_offset s /\ w1_scale_offset c = gate_up_scale_offset s /\
  w1_weight_bytes c + w3_weight_bytes c = gate_up_q_bytes s /\
  w1_scale_bytes c + w3_scale_bytes c = gate_up_scale_bytes s /\
  (w3_weight_bytes c = 0 \/ w3_weight_offset c = w1_weight_offset c + w1_weight_bytes c) /\
  (w3_scale_bytes c = 0 \/ w3_scale_offset c = w1_scale_offset c + w1_scale_bytes c) /\
  w2_weight_offset c = down_q_offset s /\ w2_weight_bytes c = down_q_bytes s /\
  w2_scale_offset c = down_scale_offset s /\ w2_scale_bytes c = down_scale_bytes s.

Lemma header_mismatch_facts h k e :
  header_mismatch h k e = false ->
  h_record_bytes h = stored_bytes e /\ h_hidden h <> 0 /\ h_intermediate h <> 0 /\
  wrap32 (h_layer h) = layer k /\ wrap32 (h_expert h) = expert k /\
  (record_abi e = 0 \/ h_record_abi h = record_abi e) /\
  encoding_abi k = (if is_nvfp4 h then kExpertEncodingAbiNvfp4Block16W4A4
                    else if is_fp4 h then kExpertEncodingAbiFp4Block32
                    else kExpertEncodingAbiInt8PerRow).
Proof.
  unfold header_mismatch. intros H. zbool. split_and!; try done; try congruence.
  match goal with H : negb (record_abi e =? 0) && _ = false |- _ =>
    apply andb_false_iff in H as [H|H] end; zbool; auto.
Qed.

Lemma geometry_facts bytes e :
  geometry_violated bytes e = false ->
  stored_bytes e = Z.of_nat (length bytes) /\ kExpertHeaderBytes <= stored_bytes e.
Proof. unfold geometry_violated. intros H. zbool. split; congruence || done. Qed.

Definition fused_matrices (bytes : list Z) : Z :=
  if is_relu2 (read_header bytes) then 1 else 2.

Lemma accepted_facts bytes k e :
  Forall (fun b => 0 <= b) bytes -> Z.of_nat (length bytes) < 2 ^ 60 ->
  let v := validate_expert_record bytes k e in
  status_ok (val_status v) = true ->
  let s := val_sections v in
  Z.of_nat (length bytes) = stored_bytes e /\
  laid_out (section_spans s) kExpertHeaderBytes (Z.of_nat (length bytes)) /\
  exact_sizes (encoding_abi k) (fused_matrices bytes) s /\ 0 < hidden s /\ 0 < intermediate s /\
  hidden s * intermediate s <= U64_MAX /\
  constant_time_equal (sha256 (drop 256 bytes)) (slice bytes 116 32) = true /\
  constant_time_equal (slice bytes 116 32) (payload_sha256 e) = true /\
  (record_abi e = 0 \/ h_record_abi (read_header bytes) = record_abi e) /\
  (encoding_abi k = kExpertEncodingAbiNvfp4Block16W4A4 -> is_nvfp4 (read_header bytes) = true).
Proof.
  intros Hb Hlen v Hok s. unfold v in *.
  destruct (validate_success _ _ _ Hok) as (Hs & Hg & Hh & Hnv & Hfp & Hsp & Hd1 & Hd2 &
    hi & Hmul & D1 & D2 & D3).
  apply geometry_facts in Hg as [Hst Hge].
  apply header_mismatch_facts in Hh as (Hrb & Hh0 & Hi0 & _ & _ & Habi & Henc).
  subst s. rewrite Hs in *. set (s := read_sections _ _) in *.
  assert (Hhn : 0 <= hidden s) by (by apply read_le_nonneg).
  assert (Hin : 0 <= intermediate s) by (by apply read_le_nonneg).
  assert (Hnz : hidden s <> 0 /\ intermediate s <> 0) by done.
  apply multiply_exact in Hmul as [-> Hp]; [|done..].
  assert (Hlay : laid_out (section_spans s) kExpertHeaderBytes (Z.of_nat (length bytes))).
  { rewrite <- Hst, <- Hrb. apply spans_valid_laid_out; [|unfold U64_MAX; lia| |done].
    - unfold kExpertHeaderBytes in *. lia.
    - repeat constructor; simpl; by apply read_le_nonneg. }
  split; [done|]. split; [done|]. split_and!; try done; try lia;
    [|intros H3; rewrite H3 in Henc; destruct (is_nvfp4 _), (is_fp4 _); done].
  unfold exact_sizes. rewrite Henc. clear Hok Hs Henc.
  assert (Hdq : 0 <= down_q_bytes s <= Z.of_nat (length bytes)).
  { unfold section_spans, laid_out, kExpertHeaderBytes in Hlay. lia. }
  assert (Hbound : down_q_bytes s = hidden s * intermediate s \/
                   down_q_bytes s = hidden s * intermediate s / 2 ->
                   hidden s * intermediate s < 2 ^ 61 + 2 /\ intermediate s < 2 ^ 61 + 2 /\
                   hidden s < 2 ^ 61 + 2).
  { intros Hor. assert (hidden s * intermediate s < 2 ^ 61 + 2); [|nia].
    destruct Hor as [Hq|Hq]; [lia|].
    pose proof (Z.div_mod (hidden s * intermediate s) 2 ltac:(lia)).
    pose proof (Z.mod_pos_bound (hidden s * intermediate s) 2 ltac:(lia)). lia. }
  destruct (is_nvfp4 _); [|destruct (is_fp4 _)].
  - right; right. destruct (Hnv eq_refl). specialize (D1 eq_refl).
    unfold nvfp4_dimensions, mul64, add64, kExpertNvfp4BlockSize in D1. zbool.
    destruct Hbound as (? & ? & ?); [auto|].
    pose proof (Z.div_pos (hidden s * intermediate s) 16 ltac:(lia) ltac:(lia)).
    pose proof (Z.div_le_upper_bound (hidden s * intermediate s) 16 (2 ^ 61) ltac:(lia) ltac:(lia)).
    rewrite !wrap64_small in * by (unfold u64, U64_MAX; rewrite ?wrap64_small by (unfold u64, U64_MAX; lia); lia).
    split_and!; done.
  - right; left. destruct (Hfp eq_refl). specialize (D2 eq_refl eq_refl).
    unfold fp4_dimensions, mul64, kExpertFp4BlockSize in D2. zbool.
    destruct Hbound as (? & ? & ?); [auto|].
    rewrite wrap64_small in * by (unfold u64, U64_MAX; lia).
    unfold fused_matrices. destruct (is_relu2 _); rewrite ?Z.mul_1_l; split_and!; try done.
    by rewrite (Z.mul_comm 2), Z.div_mul.
  - left. specialize (D3 eq_refl eq_refl). unfold int8_dimensions, mul64 in D3. zbool.
    destruct Hbound as (? & ? & ?); [auto|].
    rewrite !wrap64_small in *
      by (unfold u64, U64_MAX; rewrite ?wrap64_small by (unfold u64, U64_MAX; lia); lia).
    split_and!; done.
Qed.

Lemma mul_half a b n : 0 < n -> a mod n = 0 -> b mod n = 0 -> exists q, a * b = n * n * q.
Proof.
  intros Hn Ha Hb. exists (a / n * (b / n)).
  pose proof (Z.div_mod a n ltac:(lia)) as E1. pose proof (Z.div_mod b n ltac:(lia)) as E2.
  rewrite Ha in E1. rewrite Hb in E2. rewrite E1 at 1. rewrite E2 at 1. lia.
Qed.


(** for block-scaled records whose manifest names the record ABI, the compact
    view tiles the fused sections exactly, so the gate, up and down matrices and
    their scales never overlap. *)
Theorem accepted_split_tiles bytes k e verify :
  Forall (fun b => 0 <= b) bytes -> Z.of_nat (length bytes) < 2 ^ 60 ->
  record_abi e <> 0 -> encoding_abi k <> kExpertEncodingAbiInt8PerRow ->
  let v := validate_expert_admission bytes k e verify in
  status_ok (adm_status v) = true -> split_tiles (adm_target v) (adm_compact v).
Proof.
  intros Hb Hlen Habi Hi8 v Hok. unfold v, validate_expert_admission in *.
  destruct (_ && (source_abi e =? _)) eqn:Eg; [|done]. simpl in *. rewrite Hok. simpl.
  destruct (accepted_facts bytes k e Hb Hlen Hok)
    as (_ & Hlay & Hex & Hh & Hi & Hp & _ & _ & [?|Habi'] & Hnv); [done|].
  assert (Ee : (encoding_abi k =? kExpertEncodingAbiFp4Block32)
                || (encoding_abi k =? kExpertEncodingAbiNvfp4Block16W4A4) = true).
  { destruct Hex as [[? _]|[[-> _]|[-> _]]]; done. }
  rewrite Ee.
  clear Eg Hok v. set (s := val_sections _) in *. clearbody s.
  unfold split_sections, exact_sizes, split_tiles, fused_matrices, is_relu2, laid_out, section_spans,
    kExpertHeaderBytes in *.
  rewrite Habi' in Hex. set (hi := hidden s * intermediate s) in *.
  assert (Hhi : mul64 (hidden s) (intermediate s) = hi).
  { unfold mul64. apply wrap64_small. unfold u64. nia. }
  rewrite Hhi. assert (Hpos : 0 <= hi) by (unfold hi; nia).
  destruct Hex as [[? _]|[(Henc & Hm1 & Hm2 & Hg & Hgs & Hd & Hds)|(Henc & Hm1 & Hm2 & Hg & Hgs & Hd & Hds)]];
    [done|..]; rewrite Henc in *; simpl in *.
  - destruct (mul_half _ _ 32 ltac:(lia) Hm1 Hm2) as [q Hq]. fold hi in Hq.
    assert (hi / 2 = 512 * q) as E1 by (rewrite Hq; symmetry; apply Z.div_unique_exact; lia).
    assert (hi / 32 = 32 * q) as E2 by (rewrite Hq; symmetry; apply Z.div_unique_exact; lia).
    assert (2 * hi / 2 = 1024 * q) as E3 by (rewrite Hq; symmetry; apply Z.div_unique_exact; lia).
    assert (2 * hi / 32 = 64 * q) as E4 by (rewrite Hq; symmetry; apply Z.div_unique_exact; lia).
    clearbody hi. change kExpertFp4BlockSize with 32. rewrite E1, E2 in *.
    destruct (record_abi e =? _); simpl; rewrite ?Z.mul_1_l, ?E1, ?E2, ?E3, ?E4 in *;
      unfold add64; rewrite ?wrap64_small by (unfold u64, U64_MAX; rewrite ?wrap64_small by (unfold u64, U64_MAX; lia); lia);
      split_and!; lia.
  - assert (record_abi e =? kExpertRecordAbiFp4Relu2Block32 = false) as Hr.
    { specialize (Hnv eq_refl). unfold is_nvfp4 in Hnv.
      change (h_record_abi (read_header bytes)) with (read_le 4 bytes 16) in Hnv.
      rewrite Habi' in Hnv. zbool.
      by rewrite Hnv. }
    rewrite Hr in *. simpl.
    destruct (mul_half _ _ 16 ltac:(lia) Hm1 Hm2) as [q Hq]. fold hi in Hq.
    assert (hi / 2 = 128 * q) as E1 by (rewrite Hq; symmetry; apply Z.div_unique_exact; lia).
    assert (hi / 16 = 16 * q) as E2 by (rewrite Hq; symmetry; apply Z.div_unique_exact; lia).
    clearbody hi. change kExpertNvfp4BlockSize with 16. rewrite E1, E2 in *.
    unfold add64. rewrite ?wrap64_small by (unfold u64, U64_MAX; rewrite ?wrap64_small by (unfold u64, U64_MAX; lia); lia).
    split_and!; lia.
Qed.

(** ** A concrete record *)

Definition le_bytes (n : nat) (z : Z) : list Z :=
  map (fun i => Z.land (Z.shiftr z (8 * Z.of_nat i)) 255) (seq 0 n).

(** One fused 32x32 matrix with the squared-ReLU ABI, all payload bytes 1. *)
Definition relu2_payload : list Z := replicate 3840 1.

Definition relu2_digest : list Z := Eval vm_compute in sha256 relu2_payload.

Definition relu2_bytes : list Z :=
  kMagic ++ le_bytes 2 1 ++ le_bytes 2 256 ++ le_bytes 4 kRelu2RequiredFlags
  ++ le_bytes 4 kExpertRecordAbiFp4Relu2Block32 ++ le_bytes 4 2 ++ le_bytes 4 7
  ++ le_bytes 4 32 ++ le_bytes 4 32 ++ le_bytes 4 32 ++ le_bytes 4 0 ++ le_bytes 8 4096
  ++ le_bytes 8 256 ++ le_bytes 8 512 ++ le_bytes 8 768 ++ le_bytes 8 32
  ++ le_bytes 8 1024 ++ le_bytes 8 512 ++ le_bytes 8 1536 ++ le_bytes 8 32
  ++ relu2_digest ++ replicate 108 0 ++ relu2_payload.

Definition relu2_key : ExpertKey := mkExpertKey 1 2 7 kExpertEncodingAbiFp4Block32.

Definition relu2_manifest (abi : Z) : PayloadRecord :=
  default_record <| stored_bytes := 4096 |> <| record_abi := abi |>
    <| payload_sha256 := relu2_digest |>.

Definition relu2_sections : ExpertSections := mkSections 32 32 256 512 768 32 1024 512 1536 32.

Lemma relu2_accepted :
  validate_expert_record relu2_bytes relu2_key (relu2_manifest 0)
  = mkValidation success relu2_sections relu2_payload.
Proof. vm_compute. reflexivity. Qed.

Lemma relu2_accepted_named :
  validate_expert_record relu2_bytes relu2_key (relu2_manifest 4)
  = mkValidation success relu2_sections relu2_payload.
Proof. vm_compute. reflexivity. Qed.

Lemma relu2_nonneg : Forall (fun b => 0 <= b) relu2_bytes.
Proof. apply (bool_decide_unpack _). vm_compute. exact I. Qed.


Lemma accepted_split_tiles_witness :
  let v := validate_expert_admission relu2_bytes relu2_key (relu2_manifest 4) true in
  split_tiles (adm_target v) (adm_compact v).
Proof.
  apply accepted_split_tiles.
  - apply relu2_nonneg.
  - vm_compute. reflexivity.
  - discriminate.
  - discriminate.
  - unfold validate_expert_admission. by rewrite relu2_accepted_named.
Defined.

(** The manifest's record ABI 0 accepts any header. A squared-ReLU record is then
    validated as such, but split as if it fused two matrices: the "up" weights of
    the compact view are the scale section and what follows it. *)
Lemma relu2_wildcard_split_overlaps :
  let v := validate_expert_admission relu2_bytes relu2_key (relu2_manifest 0) true in
  status_ok (adm_status v) = true /\
  w3_weight_offset (adm_compact v) = gate_up_scale_offset (adm_target v) /\
  w3_weight_bytes (adm_compact v) = 512 /\
  ~ split_tiles (adm_target v) (adm_compact v).
Proof.
  unfold validate_expert_admission. rewrite relu2_accepted. simpl.
  split_and!; [done|done|done|]. intros (_ & _ & Hw & _). revert Hw. vm_compute. discriminate.
Qed.

(** The flag that should skip the digest for a trusted source changes nothing. *)
Lemma verify_flag_ignored bytes k e :
  validate_expert_admission bytes k e false = validate_expert_admission bytes k e true.
Proof. done. Qed.
