(* ===== verification/Telemetry.v ===== *)
(** The cache's counters ([runtime/src/telemetry.cpp],
    [runtime/include/expert/runtime/telemetry.hpp]): relaxed 64-bit atomics that the
    cache adds to, sets, or raises to a maximum.

    A counter is named by its member and, for the arrays, its index (0 for a plain
    member); the map holds the counters that have been touched. The counters that
    add up durations ([..._ns_]) are readings of a clock and are not modelled. *)

From S2P Require Import Prelude.

Definition Telemetry : Type := gmap (string * Z) Z.

Definition telemetry_get (m : string) (i : Z) (t : Telemetry) : Z := default 0 (t !! (m, i)).

Definition telemetry_add (m : string) (i v : Z) (t : Telemetry) : Telemetry :=
  <[(m, i) := add64 (telemetry_get m i t) v]> t.

Definition telemetry_set (m : string) (i v : Z) (t : Telemetry) : Telemetry :=
  <[(m, i) := v]> t.

(** The compare-and-swap loop of [maximize]: the counter ends at the larger value. *)
Definition telemetry_maximize (m : string) (i v : Z) (t : Telemetry) : Telemetry :=
  if telemetry_get m i t <? v then <[(m, i) := v]> t else t.
