(* ===== verification/Doubles.v ===== *)
(** The doubles the cache scores routes with: a value is a NaN, an infinity, or
    [m * 2^e]. Every operation of the code on them is exact (scaling by a power of
    two, comparison, [std::ceil]), so no rounding is modelled. *)

From S2P Require Import Prelude.

Inductive double : Type := DNan | DInf (negative : bool) | DFin (m e : Z).

Definition isfinite (d : double) : bool := match d with DFin _ _ => true | _ => false end.

(** [d <= 0.0] and [d < 0.0] of a finite value. *)
Definition nonpositive (d : double) : bool :=
  match d with DFin m _ => m <=? 0 | DInf n => n | DNan => false end.
Definition negative (d : double) : bool :=
  match d with DFin m _ => m <? 0 | DInf n => n | DNan => false end.

(** [std::ceil] of [m * 2^e]. *)
Definition ceil_scaled (m e : Z) : Z :=
  if 0 <=? e then m * 2 ^ e else - ((- m) / 2 ^ (- e)).

(** [std::min(maximum, 1.0)], then the ceiling of its product with [2^20]. *)
Definition ceil_capped_q20 (d : double) : Z :=
  match d with
  | DFin m e => Z.min (ceil_scaled m (e + 20)) (2 ^ 20)
  | _ => 0
  end.

(** [static_cast<std::uint64_t>(std::min(std::ceil(sum * 2^20), double(UINT64_MAX)))].
    The bound is [2^64] as a double; converting it is undefined ([None]). *)
Definition scaled_sum_q20 (d : double) : option Z :=
  match d with
  | DFin m e =>
    let v := Z.min (ceil_scaled m (e + 20)) (2 ^ 64) in
    if v <? 2 ^ 64 then Some v else None
  | _ => None
  end.
