(* ===== verification/ExpertCache.v ===== *)
(** The two-tier expert cache ([runtime/src/expert_cache.cpp],
    [runtime/include/expert/runtime/expert_cache.hpp]): every operation of
    [ExpertCacheCore] that runs under the cache's mutex, as a program in the state
    monad [ST] over the record [Core].

    A critical section of the code is one operation here; what the code does between
    two of them (issuing reads and uploads, validating and copying bytes) is an
    operation of its own or an argument. The residency directory is an interface
    over an abstract state; the staging pool is the model of [BufferPool]. A promise
    is settled by appending to [settled]. The clock readings are left out. *)

From S2P Require Import Prelude Storage CacheState BufferPool ExpertRecord Telemetry Doubles.

(** ** Data *)

Definition kStateCount : Z := 6.
Definition kRoutingScoreScale : Z := 2 ^ 20.

(** [IDeviceAllocation]: an identity and the bytes it reports. *)
Record DeviceAllocation := mkAllocation { allocation_id : Z; allocation_bytes : Z }.

#[export] Instance DeviceAllocation_eq_dec : EqDecision DeviceAllocation.
Proof. solve_decision. Defined.

(** [IDeviceResidencyDirectory], over the state [D] of the device side. *)
Class DeviceDirectory (D : Type) := {
  dir_publish : ExpertKey -> DeviceAllocation -> D -> Status * D;
  dir_retire : ExpertKey -> D -> D;
  dir_try_retire : ExpertKey -> D -> bool * D;
  dir_route_pinned : ExpertKey -> D -> bool }.

Record UploadResult := mkUploadResult {
  up_status : Status;
  up_allocation : option DeviceAllocation;
  uploaded_bytes : Z }.

Record TierBudget := mkTierBudget {
  capacity_bytes : Z;
  high_watermark_bytes : Z;
  low_watermark_bytes : Z }.

Record CachePlacementConfig := mkPlacement {
  layer_partition_count : Z;
  layers_per_partition : Z;
  ram_shared_burst_bytes : Z;
  vram_shared_burst_bytes : Z;
  placement_vram_transient_bytes : Z;
  placement_ram_protected_bytes : Z }.

#[export] Instance eta_Placement : Eta CachePlacementConfig := fun p =>
  mkPlacement (layer_partition_count p) (layers_per_partition p) (ram_shared_burst_bytes p)
    (vram_shared_burst_bytes p) (placement_vram_transient_bytes p)
    (placement_ram_protected_bytes p).

Record ExpertCacheConfig := mkCacheConfig {
  ram : TierBudget;
  vram : TierBudget;
  retain_host_copy : bool;
  placement : CachePlacementConfig;
  trusted_immutable_source : bool;
  ram_retention_minimum_frequency : Z }.

#[export] Instance eta_CacheConfig : Eta ExpertCacheConfig := fun c =>
  mkCacheConfig (ram c) (vram c) (retain_host_copy c) (placement c)
    (trusted_immutable_source c) (ram_retention_minimum_frequency c).

Inductive ExpertRequestPriority : Type := warm | prefetch | demand.

#[export] Instance Priority_eq_dec : EqDecision ExpertRequestPriority.
Proof. solve_decision. Defined.

Record ExpertAcquireOptions := mkAcquireOptions {
  acquire_priority : ExpertRequestPriority;
  acquire_record_access : bool;
  allow_host_retention : bool;
  protect_vram : bool;
  fail_fast_on_device_admission : bool }.

Record HostPreloadOptions := mkPreloadOptions {
  preload_priority : ExpertRequestPriority;
  protect_ram : bool;
  acquire_lease : bool }.

(** The settling of one promise, with the lease handed to the client; for a host
    lease the bytes it shows. A successful [try_acquire_host] has no promise. *)
Inductive Settlement : Type :=
| AcquireSettled (id : Z) (status : Status) (lease : option (ExpertKey * DeviceAllocation))
| PreloadSettled (id : Z) (status : Status) (retained : bool)
    (lease : option (ExpertKey * list Z)).

Record Entry := mkEntry {
  entry_key : ExpertKey;
  record : PayloadRecord;
  state : CacheState;
  waiters : gmap Z ExpertAcquireOptions;
  host_waiters : gmap Z HostPreloadOptions;
  host : option Lease;
  host_copy : option (list Z);
  device : option DeviceAllocation;
  validated_sections : option ExpertSections;
  validated_compact : SplitExpertSections;
  ram_reserved : Z;
  vram_reserved : Z;
  references : Z;
  last_access : Z;
  frequency : Z;
  routing_score_mass_q20 : Z;
  routing_score_peak_q20 : Z;
  successful_reads : Z;
  staging_priority : ExpertRequestPriority;
  upload_priority : ExpertRequestPriority;
  ram_protected : bool;
  ram_protected_requested : bool;
  ram_protection_persistent : bool;
  vram_resident : bool;
  vram_resident_requested : bool;
  force_host_retention : bool;
  host_preloaded : bool;
  preparing_host : bool;
  io_operation : Z;
  upload_operation : Z;
  abandon : bool }.

#[export] Instance eta_Entry : Eta Entry := fun e =>
  mkEntry (entry_key e) (record e) (state e) (waiters e) (host_waiters e) (host e)
    (host_copy e) (device e) (validated_sections e) (validated_compact e) (ram_reserved e)
    (vram_reserved e) (references e) (last_access e) (frequency e)
    (routing_score_mass_q20 e) (routing_score_peak_q20 e) (successful_reads e)
    (staging_priority e) (upload_priority e) (ram_protected e) (ram_protected_requested e)
    (ram_protection_persistent e) (vram_resident e) (vram_resident_requested e)
    (force_host_retention e) (host_preloaded e) (preparing_host e) (io_operation e)
    (upload_operation e) (abandon e).

(** The member initializers of [Entry], with the key and record of the request. *)
Definition new_entry (k : ExpertKey) (r : PayloadRecord) : Entry :=
  mkEntry k r absent ∅ ∅ None None None None no_split 0 0 0 0 0 0 0 0
    demand demand false false false true false false false false 0 0 false.

Inductive Task : Type :=
| TaskNone | TaskRead (k : ExpertKey) | TaskUpload (k : ExpertKey).

Record Core (D : Type) := mkCore {
  config : ExpertCacheConfig;
  buffers : FixedBufferPool;
  directory : option D;
  entries : gmap ExpertKey Entry;
  read_task_keys : list (gset ExpertKey);
  upload_task_keys : list (gset ExpertKey);
  metrics : Telemetry;
  next_waiter : Z;
  access_clock : Z;
  ram_bytes : Z;
  ram_probationary_bytes : Z;
  ram_protected_bytes : Z;
  vram_bytes : Z;
  vram_resident_bytes : Z;
  vram_transient_bytes : Z;
  vram_referenced_entries : Z;
  vram_referenced_bytes : Z;
  vram_transient_referenced_bytes : Z;
  ram_partition_bytes : list Z;
  vram_partition_bytes : list Z;
  host_prepare_queue : list ExpertKey;
  host_worker_stop : bool;
  shutting_down : bool;
  settled : list Settlement }.

Arguments mkCore {D}.
Arguments config {D}. Arguments buffers {D}. Arguments directory {D}. Arguments entries {D}.
Arguments read_task_keys {D}. Arguments upload_task_keys {D}. Arguments metrics {D}.
Arguments next_waiter {D}. Arguments access_clock {D}. Arguments ram_bytes {D}.
Arguments ram_probationary_bytes {D}. Arguments ram_protected_bytes {D}.
Arguments vram_bytes {D}. Arguments vram_resident_bytes {D}.
Arguments vram_transient_bytes {D}. Arguments vram_referenced_entries {D}.
Arguments vram_referenced_bytes {D}. Arguments vram_transient_referenced_bytes {D}.
Arguments ram_partition_bytes {D}. Arguments vram_partition_bytes {D}.
Arguments host_prepare_queue {D}. Arguments host_worker_stop {D}.
Arguments shutting_down {D}. Arguments settled {D}.

#[export] Instance eta_Core {D} : Eta (Core D) := fun c =>
  mkCore (config c) (buffers c) (directory c) (entries c) (read_task_keys c)
    (upload_task_keys c) (metrics c) (next_waiter c) (access_clock c) (ram_bytes c)
    (ram_probationary_bytes c) (ram_protected_bytes c) (vram_bytes c) (vram_resident_bytes c)
    (vram_transient_bytes c) (vram_referenced_entries c) (vram_referenced_bytes c)
    (vram_transient_referenced_bytes c) (ram_partition_bytes c) (vram_partition_bytes c)
    (host_prepare_queue c) (host_worker_stop c) (shutting_down c) (settled c).

Definition valid_budget (b : TierBudget) : bool :=
  negb (capacity_bytes b =? 0) && negb (high_watermark_bytes b =? 0)
  && (low_watermark_bytes b <=? high_watermark_bytes b)
  && (high_watermark_bytes b <=? capacity_bytes b).

Definition same_record (l r : PayloadRecord) : bool :=
  bool_decide (path l = path r) && bool_decide (extents l = extents r)
  && (record_offset l =? record_offset r) && (stored_bytes l =? stored_bytes r)
  && (decoded_bytes l =? decoded_bytes r) && (rec_device_bytes l =? rec_device_bytes r)
  && (rec_hidden l =? rec_hidden r) && (rec_intermediate l =? rec_intermediate r)
  && (quant_block_size l =? quant_block_size r) && (source_abi l =? source_abi r)
  && (record_abi l =? record_abi r) && (header_bytes l =? header_bytes r)
  && (rec_alignment l =? rec_alignment r)
  && Sha256.constant_time_equal (payload_sha256 l) (payload_sha256 r).

Definition device_bytes (r : PayloadRecord) : Z :=
  if rec_device_bytes r =? 0 then stored_bytes r else rec_device_bytes r.

Definition higher_priority (l r : ExpertRequestPriority) : bool :=
  match l, r with
  | demand, (warm | prefetch) | prefetch, warm => true
  | _, _ => false
  end.

Definition priority_index (p : ExpertRequestPriority) : nat :=
  match p with warm => 0 | prefetch => 1 | demand => 2 end.

Definition buffer_class (p : ExpertRequestPriority) : BufferPoolClass :=
  match p with demand => demand_class | _ => background_class end.

Definition is_some {A} (o : option A) : bool := match o with Some _ => true | None => false end.

(** [entry.host || entry.host_copy]. *)
Definition has_host_bytes (e : Entry) : bool := is_some (host e) || is_some (host_copy e).

Definition has_waiters_locked (e : Entry) : bool :=
  negb (bool_decide (waiters e = ∅)) || negb (bool_decide (host_waiters e = ∅)).

Definition effective_priority_locked (e : Entry) : ExpertRequestPriority :=
  let raise acc p := if higher_priority p acc then p else acc in
  let result := foldl (fun acc w => raise acc (acquire_priority w.2)) warm
                  (ordered Z.ltb (waiters e)) in
  foldl (fun acc w => raise acc (preload_priority w.2)) result (ordered Z.ltb (host_waiters e)).

Definition device_allows_host_retention_locked (e : Entry) : bool :=
  existsb (fun w => allow_host_retention w.2) (map_to_list (waiters e)).

(** [temperature_locked], with its saturations. *)
Definition temperature_locked (e : Entry) : Z :=
  let frequency_heat := frequency e * kRoutingScoreScale in
  let peak_heat := routing_score_peak_q20 e / 4 in
  let score_heat :=
    if peak_heat >? U64_MAX - routing_score_mass_q20 e then U64_MAX
    else routing_score_mass_q20 e + peak_heat in
  if score_heat >? U64_MAX - frequency_heat then U64_MAX else frequency_heat + score_heat.

(** The constructor's checks and initial state; the pool, storage and uploader may
    be null pointers. *)
Definition cache_create {D} (cfg : ExpertCacheConfig) (storage uploader : bool)
    (pool : option FixedBufferPool) (dir : option D) : outcome (Core D) :=
  let p := placement cfg in
  let bad :=
    negb (valid_budget (ram cfg)) || negb (valid_budget (vram cfg)) || negb storage
    || negb uploader
    || match pool with None => true | Some b => pool_alignment b <? kExpertPackAlignment end
    || (layer_partition_count p =? 0) || (layers_per_partition p =? 0)
    || (ram_shared_burst_bytes p >=? high_watermark_bytes (ram cfg))
    || (vram_shared_burst_bytes p >=? high_watermark_bytes (vram cfg))
    || (placement_vram_transient_bytes p >=? high_watermark_bytes (vram cfg))
    || (placement_ram_protected_bytes p >=? high_watermark_bytes (ram cfg)) in
  match pool with
  | Some b =>
    if bad then Throw (invalid_argument "invalid expert cache configuration")
    else
      let partitions := replicate (Z.to_nat (layer_partition_count p)) 0 in
      Ok (mkCore cfg b dir ∅ (replicate 3 ∅) (replicate 3 ∅) ∅ 1 0 0 0 0 0 0 0 0 0 0
            partitions partitions [] false false [])
  | None => Throw (invalid_argument "invalid expert cache configuration")
  end.

Section Operations.
Context {D : Type} `{DeviceDirectory D}.

Abbreviation M := (ST (Core D)).

(** ** State access *)

Definition count_by (m : string) (i v : Z) : M unit :=
  modify (fun c => c <| metrics %= telemetry_add m i v |>).
Definition count (m : string) : M unit := count_by m 0 1.
Definition count_at (m : string) (p : ExpertRequestPriority) : M unit :=
  count_by m (Z.of_nat (priority_index p)) 1.
Definition set_metric (m : string) (v : Z) : M unit :=
  modify (fun c => c <| metrics %= telemetry_set m 0 v |>).
Definition maximize_metric (m : string) (v : Z) : M unit :=
  modify (fun c => c <| metrics %= telemetry_maximize m 0 v |>).

Definition acquire_lock : M unit := count "mutex_acquisitions_".

(** Reading and assigning through an [Entry&]. *)
Definition entry_at (k : ExpertKey) : M Entry := fun c =>
  match entries c !! k with Some e => Ok (e, c) | None => Throw out_of_range end.
Definition set_entry (k : ExpertKey) (f : Entry -> Entry) : M unit :=
  modify (fun c => c <| entries %= alter f k |>).

Definition settle (s : Settlement) : M unit := modify (fun c => c <| settled %= fun l => l ++ [s] |>).

Definition partition_for (k : ExpertKey) (c : Core D) : nat :=
  let partition := layer k / layers_per_partition (placement (config c)) in
  Z.to_nat (Z.min partition (Z.of_nat (length (ram_partition_bytes c)) - 1)).

Definition partition_quota (tier : TierBudget) (shared_burst : Z) (c : Core D) : Z :=
  sub64 (high_watermark_bytes tier) shared_burst / layer_partition_count (placement (config c)).

Definition at_partition (l : list Z) (i : nat) : Z := nth i l 0.

(** ** Promises and task indexes *)

Definition record_waiter_completion (p : ExpertRequestPriority) : M unit :=
  count_at "completed_waiters_by_priority_" p.
Definition record_waiter_failure (p : ExpertRequestPriority) : M unit :=
  count_at "failed_waiters_by_priority_" p.

Definition erase_key (k : ExpertKey) (l : list (gset ExpertKey)) : list (gset ExpertKey) :=
  (fun s => s ∖ {[k]}) <$> l.
Definition insert_key (i : nat) (k : ExpertKey) (l : list (gset ExpertKey)) :
    list (gset ExpertKey) := alter (fun s => {[k]} ∪ s) i l.

Definition refresh_task_indexes_locked (k : ExpertKey) : M unit :=
  let* e := entry_at k in
  modify (fun c => c <| read_task_keys %= erase_key k |> <| upload_task_keys %= erase_key k |>) ;*
  if abandon e || negb (has_waiters_locked e) then ret tt
  else
    let slot := priority_index (effective_priority_locked e) in
    if bool_decide (state e = absent)
    then modify (fun c => c <| read_task_keys %= insert_key slot k |>)
    else if bool_decide (state e = ram_ready) && negb (bool_decide (waiters e = ∅))
            && has_host_bytes e
    then modify (fun c => c <| upload_task_keys %= insert_key slot k |>)
    else ret tt.

Definition transition_locked (k : ExpertKey) (next : CacheState) : M unit :=
  let* e := entry_at k in
  if valid_cache_transition (state e) next then
    count_by "state_transitions_"
      (cache_state_index (state e) * kStateCount + cache_state_index next) 1 ;*
    set_entry k (fun e => e <| state := next |>) ;*
    refresh_task_indexes_locked k
  else throw (logic_error "invalid expert cache state transition").

(** ** Reservations *)

Definition reserve_ram_locked (k : ExpertKey) (n : Z) (protected_class : bool) : M unit :=
  set_entry k (fun e => e <| ram_protected := protected_class |>
                          <| ram_reserved %= fun r => add64 r n |>) ;*
  modify (fun c => c <| ram_bytes %= fun r => add64 r n |>) ;*
  modify (fun c =>
    if protected_class then c <| ram_protected_bytes %= fun r => add64 r n |>
    else c <| ram_probationary_bytes %= fun r => add64 r n |>) ;*
  modify (fun c => c <| ram_partition_bytes %= alter (fun r => add64 r n) (partition_for k c) |>).

Definition reserve_vram_locked (k : ExpertKey) (n : Z) (resident : bool) : M unit :=
  set_entry k (fun e => e <| vram_resident := resident |>
                          <| vram_reserved %= fun r => add64 r n |>) ;*
  modify (fun c => c <| vram_bytes %= fun r => add64 r n |>) ;*
  modify (fun c =>
    if resident
    then c <| vram_resident_bytes %= fun r => add64 r n |>
           <| vram_partition_bytes %= alter (fun r => add64 r n) (partition_for k c) |>
    else c <| vram_transient_bytes %= fun r => add64 r n |>).

Definition update_usage_locked : M unit :=
  let* c := get in
  let staging := pool_bytes_in_use (buffers c) in
  set_metric "ram_bytes_" (ram_bytes c) ;*
  set_metric "ram_probationary_bytes_" (ram_probationary_bytes c) ;*
  set_metric "ram_protected_bytes_" (ram_protected_bytes c) ;*
  set_metric "vram_bytes_" (vram_bytes c) ;*
  set_metric "vram_resident_bytes_" (vram_resident_bytes c) ;*
  set_metric "vram_transient_bytes_" (vram_transient_bytes c) ;*
  set_metric "staging_bytes_" staging ;*
  maximize_metric "ram_high_water_" (ram_bytes c) ;*
  maximize_metric "ram_probationary_high_water_" (ram_probationary_bytes c) ;*
  maximize_metric "ram_protected_high_water_" (ram_protected_bytes c) ;*
  maximize_metric "vram_high_water_" (vram_bytes c) ;*
  maximize_metric "vram_resident_high_water_" (vram_resident_bytes c) ;*
  maximize_metric "vram_transient_high_water_" (vram_transient_bytes c) ;*
  maximize_metric "staging_high_water_" staging.

(** [entry.host.reset()]: the lease's destructor returns the slot to the pool. *)
Definition release_staging_locked (k : ExpertKey) : M unit :=
  let* e := entry_at k in
  match host e with
  | None => ret tt
  | Some l =>
    set_entry k (fun e => e <| host := None |>) ;*
    fun c => match release_lease l (buffers c) with
             | Ok p => Ok (tt, c <| buffers := p |>)
             | Throw x => Throw x
             end
  end.

(** Taking [n] bytes of the entry's class out of the RAM counters. *)
Definition discharge_ram (k : ExpertKey) (n : Z) (protected : bool) : M unit :=
  modify (fun c => c <| ram_partition_bytes %=
    alter (fun r => sub64 r n) (partition_for k c) |>) ;*
  modify (fun c => c <| ram_bytes %= fun r => sub64 r n |>) ;*
  modify (fun c =>
    if protected then c <| ram_protected_bytes %= fun r => sub64 r n |>
    else c <| ram_probationary_bytes %= fun r => sub64 r n |>) ;*
  set_entry k (fun e => e <| ram_reserved := 0 |>).

Definition release_host_locked (k : ExpertKey) : M unit :=
  let* e := entry_at k in
  when (host_preloaded e && is_some (host_copy e)) (
    count "preloaded_host_wasted_" ;*
    count_by "preloaded_host_wasted_bytes_" 0 (ram_reserved e) ;*
    set_entry k (fun e => e <| host_preloaded := false |>)) ;*
  release_staging_locked k ;*
  set_entry k (fun e => e <| host_copy := None |> <| validated_sections := None |>) ;*
  when (negb (ram_reserved e =? 0)) (discharge_ram k (ram_reserved e) (ram_protected e)) ;*
  set_entry k (fun e => e <| ram_protected := false |>) ;*
  when (negb (ram_protection_persistent e))
    (set_entry k (fun e => e <| ram_protected_requested := false |>)).

(** Taking [n] bytes of the entry's class out of the VRAM counters. *)
Definition discharge_vram (k : ExpertKey) (n : Z) (resident : bool) : M unit :=
  modify (fun c =>
    if resident
    then c <| vram_resident_bytes %= fun r => sub64 r n |>
           <| vram_partition_bytes %= alter (fun r => sub64 r n) (partition_for k c) |>
    else c <| vram_transient_bytes %= fun r => sub64 r n |>) ;*
  modify (fun c => c <| vram_bytes %= fun r => sub64 r n |>).

Definition release_device_locked (k : ExpertKey) (directory_entry_retired : bool) : M unit :=
  let* e := entry_at k in
  when (is_some (device e) && negb directory_entry_retired)
    (modify (fun c => c <| directory %= fmap (dir_retire k) |>)) ;*
  set_entry k (fun e => e <| device := None |>) ;*
  when (negb (vram_reserved e =? 0)) (
    discharge_vram k (vram_reserved e) (vram_resident e) ;*
    set_entry k (fun e => e <| vram_reserved := 0 |>)).

(** ** References *)

Definition publish_referenced : M unit :=
  let* c := get in
  set_metric "vram_referenced_entries_" (vram_referenced_entries c) ;*
  set_metric "vram_referenced_bytes_" (vram_referenced_bytes c) ;*
  set_metric "vram_transient_referenced_bytes_" (vram_transient_referenced_bytes c).

Definition add_reference_locked (k : ExpertKey) : M unit :=
  let* e := entry_at k in
  set_entry k (fun e => e <| references %= inc64 |>) ;*
  if negb (references e =? 0) || negb (is_some (device e)) then ret tt
  else
    modify (fun c => c <| vram_referenced_entries %= inc64 |>
                       <| vram_referenced_bytes %= fun r => add64 r (vram_reserved e) |>) ;*
    when (negb (vram_resident e)) (modify (fun c =>
      c <| vram_transient_referenced_bytes %= fun r => add64 r (vram_reserved e) |>)) ;*
    publish_referenced.

Definition remove_reference_locked (k : ExpertKey) : M unit :=
  let* e := entry_at k in
  if references e =? 0 then ret tt
  else
    set_entry k (fun e => e <| references %= dec64 |>) ;*
    if negb (dec64 (references e) =? 0) || negb (is_some (device e)) then ret tt
    else
      modify (fun c => c <| vram_referenced_entries %= dec64 |>
                         <| vram_referenced_bytes %= fun r => sub64 r (vram_reserved e) |>) ;*
      when (negb (vram_resident e)) (modify (fun c =>
        c <| vram_transient_referenced_bytes %= fun r => sub64 r (vram_reserved e) |>)) ;*
      publish_referenced.

(** ** Settling waiters *)

Definition satisfy_ready_waiters_locked (k : ExpertKey) : M unit :=
  let* e := entry_at k in
  for_each (ordered Z.ltb (waiters e)) (fun w =>
    record_waiter_completion (acquire_priority w.2) ;*
    add_reference_locked k ;*
    settle (AcquireSettled w.1 success ((fun a => (k, a)) <$> device e))) ;*
  set_entry k (fun e => e <| waiters := ∅ |>) ;*
  refresh_task_indexes_locked k.

Definition satisfy_host_waiters_locked (k : ExpertKey) : M unit :=
  let* e := entry_at k in
  match host_copy e, validated_sections e with
  | Some copy, Some _ =>
    for_each (ordered Z.ltb (host_waiters e)) (fun w =>
      record_waiter_completion (preload_priority w.2) ;*
      when (acquire_lease w.2) (add_reference_locked k) ;*
      settle (PreloadSettled w.1 success true
                (if acquire_lease w.2 then Some (k, copy) else None)) ;*
      count "host_preloads_completed_") ;*
    set_entry k (fun e => e <| host_preloaded := true |> <| host_waiters := ∅ |>) ;*
    refresh_task_indexes_locked k
  | _, _ => ret tt
  end.

Definition fail_waiters_locked (k : ExpertKey) (status : Status) : M unit :=
  let* e := entry_at k in
  for_each (ordered Z.ltb (waiters e)) (fun w =>
    record_waiter_completion (acquire_priority w.2) ;*
    record_waiter_failure (acquire_priority w.2) ;*
    settle (AcquireSettled w.1 status None)) ;*
  set_entry k (fun e => e <| waiters := ∅ |>) ;*
  for_each (ordered Z.ltb (host_waiters e)) (fun w =>
    record_waiter_completion (preload_priority w.2) ;*
    record_waiter_failure (preload_priority w.2) ;*
    settle (PreloadSettled w.1 status false None)) ;*
  set_entry k (fun e => e <| host_waiters := ∅ |>) ;*
  refresh_task_indexes_locked k.

Definition reject_blocked_device_waiters_locked (k : ExpertKey) : M bool :=
  let* e := entry_at k in
  let rejected := filter (fun w => fail_fast_on_device_admission w.2) (ordered Z.ltb (waiters e)) in
  for_each rejected (fun w =>
    record_waiter_completion (acquire_priority w.2) ;*
    record_waiter_failure (acquire_priority w.2) ;*
    settle (AcquireSettled w.1
      (mkStatus backpressure "device admission is blocked by the current placement") None) ;*
    set_entry k (fun e => e <| waiters %= delete w.1 |>) ;*
    count "device_admission_rejections_") ;*
  if bool_decide (rejected = []) then ret false
  else refresh_task_indexes_locked k ;* ret true.

Definition fail_entry_locked (k : ExpertKey) (status : Status) : M unit :=
  let* e := entry_at k in
  when (negb (bool_decide (state e = failed))) (transition_locked k failed) ;*
  fail_waiters_locked k status ;*
  release_host_locked k ;*
  release_device_locked k false ;*
  set_entry k (fun e => e <| io_operation := 0 |> <| upload_operation := 0 |>) ;*
  update_usage_locked.

(** ** Access heat *)

(** The aging sweep of one entry. [(frequency + 1U)] is 32-bit; the peak likewise. *)
Definition age_entry (e : Entry) : Entry :=
  e <| frequency %= fun f => wrap32 (f + 1) / 2 |>
    <| routing_score_mass_q20 %= fun m => add64 m 1 / 2 |>
    <| routing_score_peak_q20 %= fun p => wrap32 (p + 1) / 2 |>.

Definition touch_locked (k : ExpertKey) : M unit :=
  modify (fun c => c <| access_clock %= inc64 |>) ;*
  let* c := get in
  set_entry k (fun e => e <| last_access := access_clock c |>
    <| frequency %= fun f => if f =? U32_MAX then f else f + 1 |>) ;*
  when (Z.land (access_clock c) 0xffff =? 0)
    (modify (fun c => c <| entries %= fmap age_entry |>)).

Definition add_routing_score_locked (k : ExpertKey) (sum maximum : double) : M unit :=
  if negb (isfinite sum) || negb (isfinite maximum)
     || nonpositive sum || negative maximum
  then ret tt
  else
    match scaled_sum_q20 sum with
    | None => throw (undefined_behavior "conversion of 2^64 to std::uint64_t")
    | Some scaled_sum =>
      set_entry k (fun e =>
        e <| routing_score_mass_q20 %= fun m =>
               if scaled_sum >? U64_MAX - m then U64_MAX else m + scaled_sum |>
          <| routing_score_peak_q20 %= fun p => Z.max p (ceil_capped_q20 maximum) |>)
    end.

(** ** Eviction *)

(** The parameters of [evict_one_locked], with the defaults of its declaration. *)
Record Eviction := mkEviction {
  need_ram : bool;
  need_vram : bool;
  excluded : option ExpertKey;
  required_partition : option nat;
  over_quota_only : bool;
  required_vram_class : option bool;
  maximum_temperature_exclusive : option Z;
  required_ram_class : option bool }.

Definition plain_eviction (r v : bool) (x : option ExpertKey) : Eviction :=
  mkEviction r v x None false None None None.

(** What the scan skips before it looks at partitions. *)
Definition victim_barred (r : Eviction) (busy : gset ExpertKey) (c : Core D) (k : ExpertKey)
    (e : Entry) : bool :=
  match excluded r with Some x => bool_decide (k = x) | None => false end
  || bool_decide (k ∈ busy) || negb (references e =? 0) || has_waiters_locked e
  || preparing_host e || bool_decide (state e = ssd_loading)
  || bool_decide (state e = gpu_uploading) || bool_decide (state e = failed)
  || (need_vram r && is_some (device e)
      && match directory c with Some d => dir_route_pinned k d | None => false end)
  || negb ((need_ram r && has_host_bytes e) || (need_vram r && is_some (device e)))
  || (need_vram r && match required_vram_class r with
                     | Some b => negb (is_some (device e)) || negb (Bool.eqb (vram_resident e) b)
                     | None => false end)
  || (need_ram r && match required_ram_class r with
                    | Some b => negb (has_host_bytes e) || negb (Bool.eqb (ram_protected e) b)
                    | None => false end)
  || match maximum_temperature_exclusive r with
     | Some t => temperature_locked e >=? t
     | None => false
     end.

Definition victim_excess (r : Eviction) (c : Core D) (k : ExpertKey) : Z :=
  let ram_quota := partition_quota (ram (config c)) (ram_shared_burst_bytes (placement (config c))) c in
  let vram_quota :=
    partition_quota (vram (config c)) (vram_shared_burst_bytes (placement (config c))) c in
  let used_ram := at_partition (ram_partition_bytes c) (partition_for k c) in
  let used_vram := at_partition (vram_partition_bytes c) (partition_for k c) in
  Z.max (if need_ram r && (used_ram >? ram_quota) then sub64 used_ram ram_quota else 0)
        (if need_vram r && (used_vram >? vram_quota) then sub64 used_vram vram_quota else 0).

Definition victim_eligible (r : Eviction) (busy : gset ExpertKey) (c : Core D) (k : ExpertKey)
    (e : Entry) : bool :=
  negb (victim_barred r busy c k e)
  && match required_partition r with
     | Some p => bool_decide (partition_for k c = p)
     | None => true
     end
  && (negb (over_quota_only r) || negb (victim_excess r c k =? 0)).

(** The victim order: coldest, then most over quota, then least recently used, then
    smallest key. *)
Definition better_victim (r : Eviction) (c : Core D) (a b : ExpertKey * Entry) : bool :=
  let ta := temperature_locked a.2 in
  let tb := temperature_locked b.2 in
  let xa := victim_excess r c a.1 in
  let xb := victim_excess r c b.1 in
  (ta <? tb)
  || ((ta =? tb)
      && ((xa >? xb)
          || ((xa =? xb)
              && ((last_access a.2 <? last_access b.2)
                  || ((last_access a.2 =? last_access b.2) && key_ltb a.1 b.1))))).

(** The scan over the entries, in key order. *)
Definition scan_victims (r : Eviction) (busy : gset ExpertKey) (c : Core D)
    : option (ExpertKey * Entry) :=
  foldl (fun best ke =>
    if victim_eligible r busy c ke.1 ke.2 then
      match best with
      | None => Some ke
      | Some b => if better_victim r c ke b then Some ke else best
      end
    else best) None (ordered key_ltb (entries c)).

Definition when_some {A} (o : option A) (f : A -> M unit) : M unit :=
  match o with Some a => f a | None => ret tt end.

(** [directory->try_retire(key)]. *)
Definition try_retire (k : ExpertKey) : M bool := fun c =>
  match directory c with
  | None => Ok (true, c)
  | Some d => let '(b, d) := dir_try_retire k d in Ok (b, c <| directory := Some d |>)
  end.

(** What happens to the chosen victim. *)
Definition evict_entry (r : Eviction) (k : ExpertKey) (excess : Z) : M unit :=
  let* e := entry_at k in
  let evicted_ram_bytes := if need_ram r && has_host_bytes e then ram_reserved e else 0 in
  let evicted_vram_bytes := if need_vram r && is_some (device e) then vram_reserved e else 0 in
  let ram_class := if ram_protected e then 1 else 0 in
  let vram_class := if vram_resident e then 1 else 0 in
  when (need_ram r && has_host_bytes e) (release_host_locked k) ;*
  let* e := entry_at k in
  when (need_vram r && is_some (device e)) (
    release_device_locked k true ;*
    let* e := entry_at k in
    when (bool_decide (state e = vram_ready))
      (transition_locked k (if has_host_bytes e then ram_ready else absent))) ;*
  let* e := entry_at k in
  when (bool_decide (state e = ram_ready) && negb (has_host_bytes e))
    (transition_locked k absent) ;*
  count "eviction_count_" ;*
  when (negb (evicted_ram_bytes =? 0)) (
    count_by "ram_evictions_by_class_" ram_class 1 ;*
    count_by "ram_evicted_bytes_by_class_" ram_class evicted_ram_bytes) ;*
  when (negb (evicted_vram_bytes =? 0)) (
    count_by "vram_evictions_by_class_" vram_class 1 ;*
    count_by "vram_evicted_bytes_by_class_" vram_class evicted_vram_bytes) ;*
  (if is_some (required_partition r) then count "same_partition_evictions_"
   else when (negb (excess =? 0)) (count "over_quota_evictions_")) ;*
  update_usage_locked.

(** The [for (;;)] of [evict_one_locked]; each retry adds a busy entry, so one more
    round than there are entries is enough. *)
Fixpoint evict_loop (fuel : nat) (r : Eviction) (busy : gset ExpertKey) : M bool :=
  match fuel with
  | O => throw out_of_fuel
  | S fuel =>
    let* c := get in
    count "eviction_scan_calls_" ;*
    count_by "eviction_scan_candidates_" 0 (Z.of_nat (size (entries c))) ;*
    match scan_victims r busy c with
    | None => ret false
    | Some (k, e) =>
      let* retired := if need_vram r && is_some (device e) then try_retire k else ret true in
      if retired then evict_entry r k (victim_excess r c k) ;* ret true
      else count "eviction_retire_retries_" ;* evict_loop fuel r ({[k]} ∪ busy)
    end
  end.

Definition evict_one_locked (r : Eviction) : M bool :=
  let* c := get in evict_loop (S (size (entries c))) r ∅.

(** An upper bound on successful evictions: each empties one tier of one entry. *)
Definition evict_fuel (c : Core D) : nat := S (2 * size (entries c)).

(** ** Making room *)

Fixpoint partition_loop (fuel : nat) (ram_need ram_limit : Z) (k : ExpertKey) : M bool :=
  match fuel with
  | O => throw out_of_fuel
  | S fuel =>
    let* c := get in
    let p := partition_for k c in
    if add64 (at_partition (ram_partition_bytes c) p) ram_need >? ram_limit then
      let* evicted := evict_one_locked
        (mkEviction true false (Some k) (Some p) false None None None) in
      if evicted then partition_loop fuel ram_need ram_limit k
      else count "stalled_by_budget_" ;* ret false
    else ret true
  end.

Definition make_partition_capacity_locked (ram_need : Z) (k : ExpertKey) : M bool :=
  let* c := get in
  if layer_partition_count (placement (config c)) =? 1 then ret true
  else
    let burst := ram_shared_burst_bytes (placement (config c)) in
    let ram_limit := add64 (partition_quota (ram (config c)) burst c) burst in
    if ram_need >? ram_limit then ret false
    else partition_loop (evict_fuel c) ram_need ram_limit k.

Definition ram_class_usage (protected_class : bool) (c : Core D) : Z :=
  if protected_class then ram_protected_bytes c else ram_probationary_bytes c.

Definition ram_class_limit (protected_class : bool) (c : Core D) : Z :=
  if protected_class then placement_ram_protected_bytes (placement (config c))
  else sub64 (high_watermark_bytes (ram (config c)))
         (placement_ram_protected_bytes (placement (config c))).

Fixpoint ram_class_loop (fuel : nat) (ram_need limit : Z) (k : ExpertKey)
    (protected_class : bool) : M bool :=
  match fuel with
  | O => throw out_of_fuel
  | S fuel =>
    let* c := get in
    if add64 (ram_class_usage protected_class c) ram_need >? limit then
      let* evicted := evict_one_locked
        (mkEviction true false (Some k) None false None None (Some protected_class)) in
      if evicted then ram_class_loop fuel ram_need limit k protected_class
      else count "stalled_by_budget_" ;* ret false
    else ret true
  end.

Definition make_ram_class_capacity_locked (ram_need : Z) (k : ExpertKey)
    (protected_class : bool) : M bool :=
  let* c := get in
  if (ram_need =? 0) || (placement_ram_protected_bytes (placement (config c)) =? 0)
  then ret true
  else
    let limit := ram_class_limit protected_class c in
    if ram_need >? limit then ret false
    else ram_class_loop (evict_fuel c) ram_need limit k protected_class.

Definition promote_ram_locked (k : ExpertKey) (force : bool) : M unit :=
  let* e := entry_at k in
  let* c := get in
  if negb (is_some (host_copy e)) || ram_protected e || (ram_reserved e =? 0)
     || (placement_ram_protected_bytes (placement (config c)) =? 0) || negb force
  then ret tt
  else
    let* room := make_ram_class_capacity_locked (ram_reserved e) k true in
    if room then
      modify (fun c => c <| ram_probationary_bytes %= fun r => sub64 r (ram_reserved e) |>
                         <| ram_protected_bytes %= fun r => add64 r (ram_reserved e) |>) ;*
      set_entry k (fun e => e <| ram_protected := true |> <| ram_protected_requested := true |>) ;*
      count "ram_promotions_" ;*
      update_usage_locked
    else count "ram_promotion_failures_".

Definition vram_class_usage (resident : bool) (c : Core D) : Z :=
  if resident then vram_resident_bytes c else vram_transient_bytes c.

Definition vram_class_limit (resident : bool) (c : Core D) : Z :=
  if resident
  then sub64 (high_watermark_bytes (vram (config c)))
         (placement_vram_transient_bytes (placement (config c)))
  else placement_vram_transient_bytes (placement (config c)).

Fixpoint vram_class_loop (fuel : nat) (vram_need limit : Z) (k : ExpertKey) (resident : bool)
    (admission_limit : option Z) : M bool :=
  match fuel with
  | O => throw out_of_fuel
  | S fuel =>
    let* c := get in
    if add64 (vram_class_usage resident c) vram_need >? limit then
      let p := partition_for k c in
      let quota := partition_quota (vram (config c))
                     (vram_shared_burst_bytes (placement (config c))) c in
      let* evicted :=
        if resident && (layer_partition_count (placement (config c)) >? 1)
           && (add64 (at_partition (vram_partition_bytes c) p) vram_need >? quota)
        then evict_one_locked
               (mkEviction false true (Some k) (Some p) false (Some true) admission_limit None)
        else ret false in
      let* evicted :=
        if evicted then ret true
        else evict_one_locked
               (mkEviction false true (Some k) None false (Some resident) admission_limit None) in
      if evicted then vram_class_loop fuel vram_need limit k resident admission_limit
      else count "stalled_by_budget_" ;* ret false
    else ret true
  end.

Definition make_vram_class_capacity_locked (vram_need : Z) (k : ExpertKey) (resident : bool)
    (admission_temperature : Z) : M bool :=
  let* c := get in
  if vram_need =? 0 then ret true
  else
    let admission_limit :=
      if resident && negb (placement_vram_transient_bytes (placement (config c)) =? 0)
      then Some admission_temperature else None in
    let limit := vram_class_limit resident c in
    if vram_need >? limit then ret false
    else vram_class_loop (evict_fuel c) vram_need limit k resident admission_limit.

Definition promote_vram_locked (k : ExpertKey) (force : bool) : M unit :=
  let* e := entry_at k in
  let* c := get in
  if negb (is_some (device e)) || vram_resident e || (vram_reserved e =? 0)
     || (placement_vram_transient_bytes (placement (config c)) =? 0)
     || (negb force && (frequency e <? 2))
  then ret tt
  else
    let* room := make_vram_class_capacity_locked (vram_reserved e) k true (temperature_locked e) in
    if room then
      when (negb (references e =? 0)) (modify (fun c =>
        c <| vram_transient_referenced_bytes %= fun r => sub64 r (vram_reserved e) |>)) ;*
      modify (fun c => c <| vram_transient_bytes %= fun r => sub64 r (vram_reserved e) |>
        <| vram_resident_bytes %= fun r => add64 r (vram_reserved e) |>
        <| vram_partition_bytes %= alter (fun r => add64 r (vram_reserved e)) (partition_for k c) |>) ;*
      set_entry k (fun e => e <| vram_resident := true |> <| vram_resident_requested := true |>) ;*
      let* c := get in
      set_metric "vram_transient_referenced_bytes_" (vram_transient_referenced_bytes c) ;*
      count "vram_promotions_" ;*
      update_usage_locked
    else count "vram_promotion_failures_".

(** [while (ram_bytes + ram_need > high)]: an over-quota victim first. *)
Fixpoint ram_pressure_loop (fuel : nat) (ram_need : Z) (k : ExpertKey) : M bool :=
  match fuel with
  | O => throw out_of_fuel
  | S fuel =>
    let* c := get in
    if add64 (ram_bytes c) ram_need >? high_watermark_bytes (ram (config c)) then
      let* evicted := evict_one_locked
        (mkEviction true false (Some k) None true None None None) in
      let* evicted := if evicted then ret true
                      else evict_one_locked (plain_eviction true false (Some k)) in
      if evicted then ram_pressure_loop fuel ram_need k
      else count "stalled_by_budget_" ;* ret false
    else ret true
  end.

(** Eviction on towards the low watermark. *)
Fixpoint ram_low_loop (fuel : nat) (k : ExpertKey) : M unit :=
  match fuel with
  | O => throw out_of_fuel
  | S fuel =>
    let* c := get in
    if ram_bytes c >? low_watermark_bytes (ram (config c)) then
      let* evicted := evict_one_locked (plain_eviction true false (Some k)) in
      if evicted then ram_low_loop fuel k else ret tt
    else ret tt
  end.

(** [a && b] of two calls: the second runs only if the first succeeds. *)
Definition and_then (a b : M bool) : M bool :=
  let* x := a in if x then b else ret false.

Definition make_capacity_locked (ram_need vram_need : Z) (k : ExpertKey) (protected resident : bool)
    (admission_temperature : Z) : M bool :=
  let* c := get in
  if (ram_need >? high_watermark_bytes (ram (config c)))
     || (vram_need >? high_watermark_bytes (vram (config c)))
  then ret false
  else
    let* room :=
      and_then (make_partition_capacity_locked ram_need k)
        (and_then (make_ram_class_capacity_locked ram_need k protected)
           (make_vram_class_capacity_locked vram_need k resident admission_temperature)) in
    if negb room then ret false
    else
      let* c := get in
      let ram_pressured :=
        add64 (ram_bytes c) ram_need >? high_watermark_bytes (ram (config c)) in
      let* fits := ram_pressure_loop (evict_fuel c) ram_need k in
      if negb fits then ret false
      else
        when (ram_pressured && (layer_partition_count (placement (config c)) =? 1)
              && (placement_ram_protected_bytes (placement (config c)) =? 0))
          (ram_low_loop (evict_fuel c) k) ;*
        let* c := get in
        ret ((add64 (ram_bytes c) ram_need <=? high_watermark_bytes (ram (config c)))
             && (add64 (vram_bytes c) vram_need <=? high_watermark_bytes (vram (config c)))).

(** Returns whether the reservation is admitted, and as resident or transient. *)
Definition make_device_capacity_locked (k : ExpertKey) (ram_need : Z) (protected : bool)
    : M (bool * bool) :=
  let* e := entry_at k in
  let* c := get in
  let vram_need := device_bytes (record e) in
  let resident := (placement_vram_transient_bytes (placement (config c)) =? 0)
                  || vram_resident_requested e || (2 <=? frequency e) in
  let* admitted := make_capacity_locked ram_need vram_need k protected resident
                     (temperature_locked e) in
  if admitted then ret (true, resident)
  else if resident then
    let* admitted := make_capacity_locked ram_need vram_need k protected false
                       (temperature_locked e) in
    ret (admitted, false)
  else
    let* c := get in
    if add64 (vram_resident_bytes c) vram_need <=? vram_class_limit true c then
      let* admitted := make_capacity_locked ram_need vram_need k protected true
                         (temperature_locked e) in
      ret (admitted, admitted)
    else ret (false, false).

(** ** Choosing the next task *)

Definition key_set_at (l : list (gset ExpertKey)) (slot : nat) : list ExpertKey :=
  stable_sort key_ltb (elements (nth slot l ∅)).

(** One key of [upload_task_keys[slot]]: the upload, or [None] to go on. *)
Definition consider_upload (priority : ExpertRequestPriority) (k : ExpertKey) : M (option Task) :=
  let* c := get in
  match entries c !! k with
  | None => throw (logic_error "upload task index references a missing entry")
  | Some e =>
    count "task_selection_candidates_" ;*
    if bool_decide (waiters e = ∅) || abandon e
       || negb (bool_decide (effective_priority_locked e = priority))
       || negb (bool_decide (state e = ram_ready)) || negb (has_host_bytes e)
    then refresh_task_indexes_locked k ;* ret None
    else
      let* reserved :=
        if vram_reserved e =? 0 then
          let* (admitted, resident) := make_device_capacity_locked k 0 false in
          if admitted then
            reserve_vram_locked k (device_bytes (record e)) resident ;*
            update_usage_locked ;* ret true
          else
            let* _ := reject_blocked_device_waiters_locked k in ret false
        else ret true in
      if negb reserved then ret None
      else
        transition_locked k gpu_uploading ;*
        set_entry k (fun e => e <| upload_priority := priority |>) ;*
        count "upload_started_" ;*
        count_at "uploads_started_by_priority_" priority ;*
        ret (Some (TaskUpload k))
  end.

(** One key of [read_task_keys[slot]]. *)
Definition consider_read (priority : ExpertRequestPriority) (k : ExpertKey) : M (option Task) :=
  let* c := get in
  match entries c !! k with
  | None => throw (logic_error "read task index references a missing entry")
  | Some e =>
    count "task_selection_candidates_" ;*
    if negb (has_waiters_locked e) || abandon e
       || negb (bool_decide (effective_priority_locked e = priority))
       || negb (bool_decide (state e = absent))
    then refresh_task_indexes_locked k ;* ret None
    else if (stored_bytes (record e) >? slot_bytes (buffers c))
            || (stored_bytes (record e) >? U64_MAX)
    then fail_entry_locked k
           (mkStatus backpressure "expert record exceeds fixed staging slot") ;* ret None
    else
      let device_demand := negb (bool_decide (waiters e = ∅)) in
      if device_demand
         && (device_bytes (record e) >? high_watermark_bytes (vram (config c)))
      then ret None
      else
        let protected := ram_protected_requested e in
        let* (admitted, resident) :=
          if device_demand
          then make_device_capacity_locked k (stored_bytes (record e)) protected
          else
            let* admitted := make_capacity_locked (stored_bytes (record e)) 0 k protected false
                               (temperature_locked e) in
            ret (admitted, false) in
        if negb admitted then
          when device_demand (let* _ := reject_blocked_device_waiters_locked k in ret tt) ;*
          ret None
        else
          let* c := get in
          let '(lease, pool) := try_acquire (stored_bytes (record e)) (buffer_class priority)
                                  (buffers c) in
          modify (fun c => c <| buffers := pool |>) ;*
          match lease with
          | None =>
            count "stalled_by_budget_" ;*
            count_at "staging_stalls_by_priority_" priority ;* ret None
          | Some l =>
            set_entry k (fun e => e <| host := Some l |> <| staging_priority := priority |>) ;*
            reserve_ram_locked k (stored_bytes (record e)) protected ;*
            when device_demand (reserve_vram_locked k (device_bytes (record e)) resident) ;*
            when (negb (successful_reads e =? 0)) (
              count "reload_count_" ;*
              count_by "reread_bytes_" 0 (stored_bytes (record e))) ;*
            transition_locked k ssd_loading ;*
            count "load_started_" ;*
            count_at "reads_started_by_priority_" priority ;*
            count_by "requested_bytes_" 0 (stored_bytes (record e)) ;*
            update_usage_locked ;*
            ret (Some (TaskRead k))
          end
  end.

(** The first key whose body returns a task. A body only removes or re-inserts the
    key it visits, so walking the set as it was at the start visits the same keys. *)
Fixpoint first_task (f : ExpertKey -> M (option Task)) (ks : list ExpertKey) : M (option Task) :=
  match ks with
  | [] => ret None
  | k :: ks =>
    let* t := f k in
    match t with Some t => ret (Some t) | None => first_task f ks end
  end.

Fixpoint next_task_from (priorities : list ExpertRequestPriority) : M Task :=
  match priorities with
  | [] => ret TaskNone
  | p :: priorities =>
    let* c := get in
    let* t := first_task (consider_upload p) (key_set_at (upload_task_keys c) (priority_index p)) in
    match t with
    | Some t => ret t
    | None =>
      let* c := get in
      let* t := first_task (consider_read p) (key_set_at (read_task_keys c) (priority_index p)) in
      match t with Some t => ret t | None => next_task_from priorities end
    end
  end.

Definition next_task_locked : M Task :=
  let* t := next_task_from [demand; prefetch; warm] in
  count "task_selection_calls_" ;* ret t.

(** The critical section of one round of [drive]. *)
Definition drive_step : M Task :=
  acquire_lock ;*
  let* c := get in
  if shutting_down c then ret TaskNone else next_task_locked.

(** ** Reads *)

(** The request [start_read] hands to the storage. *)
Definition read_request (k : ExpertKey) : M (option ReadRequest) :=
  let* e := entry_at k in
  let* c := get in
  ret ((fun l => mkReadRequest (record e) (lease_buffer l (buffers c)) true) <$> host e).

(** After [storage->read] returned its operation: whether to cancel it at once. *)
Definition read_started (k : ExpertKey) (operation : Z) : M bool :=
  acquire_lock ;*
  let* e := entry_at k in
  if bool_decide (state e = ssd_loading)
  then set_entry k (fun e => e <| io_operation := operation |>) ;* ret (abandon e)
  else ret false.

Definition read_complete (k : ExpertKey) (result : ReadResult) : M unit :=
  acquire_lock ;*
  let* c := get in
  match entries c !! k with
  | None => ret tt
  | Some e =>
    if negb (bool_decide (state e = ssd_loading)) then ret tt
    else
      let p := staging_priority e in
      count_at "reads_completed_by_priority_" p ;*
      set_entry k (fun e => e <| io_operation := 0 |>) ;*
      count_by "read_bytes_" 0 (read_bytes result) ;*
      count_by "read_bytes_by_priority_" (Z.of_nat (priority_index p)) (read_bytes result) ;*
      if abandon e || negb (has_waiters_locked e) then
        transition_locked k absent ;* release_host_locked k ;* release_device_locked k false ;*
        update_usage_locked
      else if bool_decide (code (rr_status result) = cancelled) then
        transition_locked k absent ;* release_host_locked k ;* release_device_locked k false ;*
        set_entry k (fun e => e <| abandon := false |>) ;*
        update_usage_locked
      else if negb (status_ok (rr_status result)) then
        count_at "io_errors_by_priority_" p ;*
        (if bool_decide (code (rr_status result) = short_read) then count "short_read_errors_"
         else count "io_errors_") ;*
        fail_entry_locked k (rr_status result)
      else if negb (requested_bytes result =? stored_bytes (record e))
              || negb (read_bytes result =? stored_bytes (record e)) then
        count_at "io_errors_by_priority_" p ;*
        count "short_read_errors_" ;*
        fail_entry_locked k
          (mkStatus short_read "storage completed without the complete expert record")
      else
        set_entry k (fun e => e <| preparing_host := true |>) ;*
        modify (fun c => c <| host_prepare_queue %= fun q => q ++ [k] |>)
  end.

(** ** Host preparation *)

(** The worker takes the front of the queue; [None] when it has to wait or stop. *)
Definition host_worker_pop : M (option ExpertKey) :=
  acquire_lock ;*
  let* c := get in
  match host_prepare_queue c with
  | [] => ret None
  | k :: q => modify (fun c => c <| host_prepare_queue := q |>) ;* ret (Some k)
  end.

(** The failure sections of [prepare_host_entry]. *)
Definition fail_preparation (k : ExpertKey) (before : M unit) (status : Status) : M unit :=
  acquire_lock ;*
  let* e := entry_at k in
  when (bool_decide (state e = ssd_loading)) (
    set_entry k (fun e => e <| preparing_host := false |>) ;*
    before ;*
    fail_entry_locked k status).

(** The front of [prepare_host_entry] up to the copy loop, on the contents
    [staging] of the staging buffer. [None]: the preparation has ended. *)
Definition prepare_validate (k : ExpertKey) (staging : list Z)
    : M (option ExpertAdmissionValidation) :=
  let* e := entry_at k in
  let* c := get in
  let n := stored_bytes (record e) in
  let buffer := match host e with
                | Some l => lease_buffer l (buffers c)
                | None => mkMutableBuffer None 0
                end in
  if negb (is_some (data buffer)) || (buffer_capacity buffer <? n) then
    fail_preparation k (ret tt)
      (mkStatus internal "host preparation lost its staging record") ;* ret None
  else
    let validated := validate_expert_admission (take (Z.to_nat n) staging) (entry_key e) (record e)
                       (negb (trusted_immutable_source (config c))) in
    count "record_validations_" ;*
    if status_ok (adm_status validated) then ret (Some validated)
    else
      count "host_validation_failures_" ;*
      count_at "validation_errors_by_priority_" (staging_priority e) ;*
      fail_preparation k (count "checksum_errors_") (adm_status validated) ;* ret None.

Definition copy_required (e : Entry) (c : Core D) : bool :=
  retain_host_copy (config c)
  && (force_host_retention e
      || (device_allows_host_retention_locked e
          && (ram_retention_minimum_frequency (config c) <=? frequency e))).

(** The first section of the copy loop: [None] when the preparation has ended, else
    whether a retained copy is needed. *)
Definition prepare_need_copy (k : ExpertKey) : M (option bool) :=
  acquire_lock ;*
  let* e := entry_at k in
  let* c := get in
  if negb (bool_decide (state e = ssd_loading)) || shutting_down c then ret None
  else ret (Some (copy_required e c)).

(** The copy itself, outside the lock: the allocator's answer decides. *)
Definition prepare_copied (k : ExpertKey) (n : Z) : M unit :=
  let* e := entry_at k in
  count_by "host_copy_bytes_" 0 n ;*
  count_by "host_copy_bytes_by_priority_" (Z.of_nat (priority_index (staging_priority e))) n.

Definition prepare_allocation_failed (k : ExpertKey) : M unit :=
  fail_preparation k (ret tt) (mkStatus backpressure "cannot allocate pageable RAM cache copy").

Inductive PrepareOutcome : Type := prepare_exit | prepare_again | prepare_done.

(** The last section of the copy loop, with the retained copy, if one was made. *)
Definition prepare_commit (k : ExpertKey) (v : ExpertAdmissionValidation)
    (retained : option (list Z)) : M PrepareOutcome :=
  acquire_lock ;*
  let* e := entry_at k in
  let* c := get in
  if negb (bool_decide (state e = ssd_loading)) || shutting_down c then ret prepare_exit
  else if copy_required e c && negb (is_some retained) then ret prepare_again
  else
    set_entry k (fun e => e <| preparing_host := false |>) ;*
    if abandon e || negb (has_waiters_locked e) then
      transition_locked k absent ;* release_host_locked k ;* release_device_locked k false ;*
      update_usage_locked ;* ret prepare_done
    else
      set_entry k (fun e => e <| validated_sections := Some (adm_target v) |>
        <| validated_compact := adm_compact v |> <| host_copy := retained |>
        <| successful_reads %= fun n => wrap32 (n + 1) |>) ;*
      transition_locked k ram_ready ;*
      count "load_completed_" ;*
      count_by "useful_bytes_" 0 (stored_bytes (record e)) ;*
      when (ram_protected_requested e) (promote_ram_locked k true) ;*
      satisfy_host_waiters_locked k ;*
      let* e := entry_at k in
      let joined_demand :=
        existsb (fun w => bool_decide (acquire_priority w.2 = demand)) (map_to_list (waiters e)) in
      when (host_preloaded e && joined_demand) (
        count "preloaded_host_useful_" ;*
        count_by "preloaded_host_useful_bytes_" 0 (ram_reserved e) ;*
        set_entry k (fun e => e <| host_preloaded := false |>)) ;*
      when (bool_decide (waiters e = ∅)) (
        release_staging_locked k ;*
        let* e := entry_at k in
        when (negb (is_some (host_copy e))) (
          release_host_locked k ;* transition_locked k absent)) ;*
      update_usage_locked ;* ret prepare_done.

(** ** Uploads *)

(** Where the bytes of an upload come from. *)
Inductive UploadSource : Type := FromStaging (l : Lease) | FromCopy (bytes : list Z).

Record UploadRequest := mkUploadRequest {
  ur_key : ExpertKey;
  ur_source_abi : Z;
  ur_record_abi : Z;
  ur_sections : ExpertSections;
  ur_source : UploadSource;
  ur_compact : SplitExpertSections }.

(** The front of [start_upload]: the request for the uploader, or the failure of the
    entry. *)
Definition upload_request (k : ExpertKey) : M (option UploadRequest) :=
  let* e := entry_at k in
  let source := match host e, host_copy e with
                | Some l, _ => Some (FromStaging l)
                | None, Some b => Some (FromCopy b)
                | None, None => None
                end in
  match source, validated_sections e with
  | None, _ =>
    acquire_lock ;*
    fail_entry_locked k (mkStatus internal "RAM-ready expert has no host bytes") ;* ret None
  | Some _, None =>
    acquire_lock ;*
    fail_entry_locked k (mkStatus internal "RAM-ready expert was not host-validated") ;* ret None
  | Some s, Some sections =>
    when (negb (is_some (host e))) (count "validated_ram_reuses_") ;*
    ret (Some (mkUploadRequest (entry_key e) (source_abi (record e)) (record_abi (record e))
                 sections s (validated_compact e)))
  end.

Definition upload_started (k : ExpertKey) (operation : Z) : M bool :=
  acquire_lock ;*
  let* e := entry_at k in
  if bool_decide (state e = gpu_uploading)
  then set_entry k (fun e => e <| upload_operation := operation |>) ;* ret (abandon e)
  else ret false.

(** [directory->publish(key, allocation)]; success without a directory. *)
Definition publish (k : ExpertKey) (a : DeviceAllocation) : M Status := fun c =>
  match directory c with
  | None => Ok (success, c)
  | Some d => let '(s, d) := dir_publish k a d in Ok (s, c <| directory := Some d |>)
  end.

(** Returns what the allocation does not use of the reservation. *)
Definition shrink_reservation (k : ExpertKey) (n : Z) : M unit :=
  let* e := entry_at k in
  when (n <? vram_reserved e) (
    let released := sub64 (vram_reserved e) n in
    set_entry k (fun e => e <| vram_reserved %= fun r => sub64 r released |>) ;*
    discharge_vram k released (vram_resident e)).

Definition upload_invalid (e : Entry) (r : UploadResult) : bool :=
  negb (status_ok (up_status r))
  || match up_allocation r with
     | None => true
     | Some a => (uploaded_bytes r =? 0) || negb (uploaded_bytes r =? allocation_bytes a)
                 || (allocation_bytes a >? vram_reserved e)
     end.

(** The branch of [upload_complete] that publishes the allocation. *)
Definition upload_publish (k : ExpertKey) (a : DeviceAllocation) (n : Z) : M unit :=
  let* e := entry_at k in
  shrink_reservation k (allocation_bytes a) ;*
  let* published := publish k a in
  when (negb (status_ok published)) (
    count "upload_errors_" ;*
    count_at "upload_errors_by_priority_" (upload_priority e) ;*
    fail_entry_locked k published) ;*
  let* e := entry_at k in
  when (negb (bool_decide (state e = failed))) (
    set_entry k (fun e => e <| device := Some a |>) ;*
    transition_locked k vram_ready ;*
    count "upload_completed_" ;*
    count_at "uploads_completed_by_priority_" (upload_priority e) ;*
    count_by "uploaded_bytes_" 0 n ;*
    count_by "uploaded_bytes_by_priority_" (Z.of_nat (priority_index (upload_priority e))) n ;*
    let* c := get in
    (if negb (retain_host_copy (config c)) || negb (is_some (host_copy e))
     then release_host_locked k else release_staging_locked k) ;*
    update_usage_locked ;*
    satisfy_ready_waiters_locked k).

Definition upload_complete (k : ExpertKey) (result : UploadResult) : M unit :=
  acquire_lock ;*
  let* c := get in
  match entries c !! k with
  | None => ret tt
  | Some e =>
    if negb (bool_decide (state e = gpu_uploading)) then ret tt
    else
      set_entry k (fun e => e <| upload_operation := 0 |>) ;*
      if abandon e || bool_decide (waiters e = ∅) then
        transition_locked k ram_ready ;*
        release_device_locked k false ;*
        release_staging_locked k ;*
        when (negb (is_some (host_copy e))) (
          release_host_locked k ;* transition_locked k absent) ;*
        update_usage_locked
      else if upload_invalid e result then
        count "upload_errors_" ;*
        count_at "upload_errors_by_priority_" (upload_priority e) ;*
        fail_entry_locked k
          (if status_ok (up_status result)
           then mkStatus upload_failed "device upload returned an invalid allocation"
           else up_status result)
      else
        match up_allocation result with
        | Some a => upload_publish k a (uploaded_bytes result)
        | None => ret tt
        end
  end.

(** ** Requests *)

(** [next_waiter.fetch_add(1)]. *)
Definition take_waiter_id : M Z :=
  let* c := get in
  modify (fun c => c <| next_waiter %= inc64 |>) ;* ret (next_waiter c).

(** [entries.try_emplace(key)] with the initialization of a new entry. *)
Definition emplace_entry (k : ExpertKey) (r : PayloadRecord) : M unit :=
  modify (fun c => match entries c !! k with
                   | Some _ => c
                   | None => c <| entries %= <[k := new_entry k r]> |>
                   end).

(** The branches of [acquire] that settle at once. *)
Definition settle_acquire (p : ExpertRequestPriority) (id : Z) (failure : bool) (status : Status)
    (lease : option (ExpertKey * DeviceAllocation)) : M unit :=
  record_waiter_completion p ;*
  when failure (record_waiter_failure p) ;*
  settle (AcquireSettled id status lease).

(** The last branch of [acquire]: the waiter joins the entry. *)
Definition join_waiter (k : ExpertKey) (id : Z) (o : ExpertAcquireOptions)
    (previous : ExpertRequestPriority) : M unit :=
  let p := acquire_priority o in
  let* e := entry_at k in
  (if bool_decide (state e = ram_ready) || bool_decide (state e = gpu_uploading) then
     count "acquire_ram_hits_" ;*
     count_at "ram_hits_by_priority_" p ;*
     when (bool_decide (p = demand) && host_preloaded e) (
       count "preloaded_host_useful_" ;*
       count_by "preloaded_host_useful_bytes_" 0 (ram_reserved e) ;*
       set_entry k (fun e => e <| host_preloaded := false |>))
   else when (bool_decide (state e = absent) || bool_decide (state e = ssd_loading)) (
     count "acquire_ssd_misses_" ;*
     count_at "ssd_misses_by_priority_" p)) ;*
  when (negb (bool_decide (waiters e = ∅)) || negb (bool_decide (state e = absent)))
    (count "load_deduplicated_") ;*
  set_entry k (fun e => e <| waiters %= fun w => match w !! id with
                                                | Some _ => w
                                                | None => <[id := o]> w
                                                end |>) ;*
  when (higher_priority p previous) (count "priority_upgrades_") ;*
  set_entry k (fun e => e <| abandon := false |>) ;*
  refresh_task_indexes_locked k.

Definition previous_priority (e : Entry) (p : ExpertRequestPriority) : ExpertRequestPriority :=
  if has_waiters_locked e then effective_priority_locked e else p.

(** The critical section of [acquire]: the waiter's id and whether to drive. *)
Definition acquire (k : ExpertKey) (r : PayloadRecord) (o : ExpertAcquireOptions) : M (Z * bool) :=
  let p := acquire_priority o in
  let* id := take_waiter_id in
  acquire_lock ;*
  count_at "device_requests_" p ;*
  let* c := get in
  if shutting_down c then
    record_waiter_completion p ;*
    count_at "cancellations_by_priority_" p ;*
    count "cancellation_count_" ;*
    settle (AcquireSettled id (mkStatus cancelled "expert cache is shutting down") None) ;*
    ret (id, false)
  else
    emplace_entry k r ;*
    let* e := entry_at k in
    let previous := previous_priority e p in
    when (acquire_record_access o) (
      touch_locked k ;* promote_ram_locked k false ;* promote_vram_locked k false) ;*
    when (protect_vram o) (
      set_entry k (fun e => e <| vram_resident_requested := true |>) ;*
      promote_vram_locked k true) ;*
    let* e := entry_at k in
    if negb (same_record (record e) r) then
      settle_acquire p id true
        (mkStatus invalid_arg "same expert key references different immutable records") None ;*
      ret (id, false)
    else if bool_decide (state e = failed) then
      settle_acquire p id true
        (mkStatus checksum_mismatch "expert is quarantined after a failed load") None ;*
      ret (id, false)
    else
      match device e with
      | Some a =>
        if bool_decide (state e = vram_ready) then
          count "acquire_vram_hits_" ;*
          count_at "vram_hits_by_priority_" p ;*
          record_waiter_completion p ;*
          add_reference_locked k ;*
          settle (AcquireSettled id success (Some (k, a))) ;*
          ret (id, false)
        else join_waiter k id o previous ;* ret (id, true)
      | None => join_waiter k id o previous ;* ret (id, true)
      end.

(** The branch of [preload_host] on a resident record with a pageable copy. *)
Definition preload_hit (k : ExpertKey) (id : Z) (o : HostPreloadOptions) (copy : list Z) : M unit :=
  let p := preload_priority o in
  count_at "ram_hits_by_priority_" p ;*
  when (protect_ram o) (
    set_entry k (fun e => e <| ram_protected_requested := true |>
                            <| ram_protection_persistent := true |>) ;*
    promote_ram_locked k true) ;*
  when (acquire_lease o) (add_reference_locked k) ;*
  settle (PreloadSettled id success true (if acquire_lease o then Some (k, copy) else None)) ;*
  record_waiter_completion p ;*
  count "host_preloads_completed_".

Definition settle_preload_failure (p : ExpertRequestPriority) (id : Z) (status : Status) : M unit :=
  record_waiter_completion p ;* record_waiter_failure p ;*
  settle (PreloadSettled id status false None).

Definition join_host_waiter (k : ExpertKey) (id : Z) (o : HostPreloadOptions)
    (previous : ExpertRequestPriority) : M unit :=
  let p := preload_priority o in
  count_at "ssd_misses_by_priority_" p ;*
  set_entry k (fun e => e <| force_host_retention := true |>
    <| ram_protected_requested %= fun b => b || protect_ram o |>
    <| ram_protection_persistent %= fun b => b || protect_ram o |>
    <| host_waiters %= fun w => match w !! id with Some _ => w | None => <[id := o]> w end |>) ;*
  when (higher_priority p previous) (count "priority_upgrades_") ;*
  set_entry k (fun e => e <| abandon := false |>) ;*
  refresh_task_indexes_locked k.

Definition preload_host (k : ExpertKey) (r : PayloadRecord) (o : HostPreloadOptions)
    : M (Z * bool) :=
  let p := preload_priority o in
  let* id := take_waiter_id in
  acquire_lock ;*
  count "host_preloads_requested_" ;*
  count_at "host_requests_" p ;*
  let* c := get in
  if shutting_down c then
    record_waiter_completion p ;*
    count_at "cancellations_by_priority_" p ;*
    count "cancellation_count_" ;*
    settle (PreloadSettled id (mkStatus cancelled "expert cache is shutting down") false None) ;*
    ret (id, false)
  else
    emplace_entry k r ;*
    let* e := entry_at k in
    let previous := previous_priority e p in
    if negb (same_record (record e) r) then
      settle_preload_failure p id
        (mkStatus invalid_arg "same expert key references different immutable records") ;*
      ret (id, false)
    else if bool_decide (state e = failed) then
      settle_preload_failure p id
        (mkStatus checksum_mismatch "expert is quarantined after a failed load") ;*
      ret (id, false)
    else
      let resident := bool_decide (state e = ram_ready) || bool_decide (state e = vram_ready) in
      match host_copy e with
      | Some copy =>
        if is_some (validated_sections e) && resident
        then preload_hit k id o copy ;* ret (id, false)
        else if resident || bool_decide (state e = gpu_uploading) then
          count_at "host_lookup_misses_by_priority_" p ;*
          settle_preload_failure p id
            (mkStatus backpressure "resident expert has no pageable host copy") ;*
          ret (id, false)
        else join_host_waiter k id o previous ;* ret (id, true)
      | None =>
        if resident || bool_decide (state e = gpu_uploading) then
          count_at "host_lookup_misses_by_priority_" p ;*
          settle_preload_failure p id
            (mkStatus backpressure "resident expert has no pageable host copy") ;*
          ret (id, false)
        else join_host_waiter k id o previous ;* ret (id, true)
      end.

(** [try_acquire_host]: the leased bytes, or nothing. *)
Definition try_acquire_host (k : ExpertKey) (r : PayloadRecord) (record_access : bool)
    (p : ExpertRequestPriority) : M (option (ExpertKey * list Z)) :=
  acquire_lock ;*
  count_at "host_requests_" p ;*
  let* c := get in
  if shutting_down c then ret None
  else
    match entries c !! k with
    | None =>
      count_at "host_lookup_misses_by_priority_" p ;*
      count_at "ssd_misses_by_priority_" p ;*
      ret None
    | Some e =>
      let usable :=
        (source_abi r =? kExpertSourceAbiExpertPackV1) && same_record (record e) r
        && is_some (validated_sections e)
        && (bool_decide (state e = ram_ready) || bool_decide (state e = vram_ready)) in
      match host_copy e with
      | Some copy =>
        if usable then
          when record_access (
            touch_locked k ;* promote_ram_locked k false ;* promote_vram_locked k false) ;*
          add_reference_locked k ;*
          count "acquire_ram_hits_" ;*
          count_at "ram_hits_by_priority_" p ;*
          ret (Some (k, copy))
        else
          count_at "host_lookup_misses_by_priority_" p ;*
          when (bool_decide (state e = absent) || bool_decide (state e = ssd_loading))
            (count_at "ssd_misses_by_priority_" p) ;*
          ret None
      | None =>
        count_at "host_lookup_misses_by_priority_" p ;*
        when (bool_decide (state e = absent) || bool_decide (state e = ssd_loading))
          (count_at "ssd_misses_by_priority_" p) ;*
        ret None
      end
    end.

Fixpoint touch_times (n : nat) (k : ExpertKey) : M unit :=
  match n with O => ret tt | S n => touch_locked k ;* touch_times n k end.

Definition record_access (k : ExpertKey) (n : Z) : M bool :=
  if n =? 0 then ret false
  else
    acquire_lock ;*
    let* c := get in
    if shutting_down c then ret false
    else
      match entries c !! k with
      | None => ret false
      | Some _ =>
        touch_times (Z.to_nat n) k ;*
        promote_ram_locked k false ;* promote_vram_locked k false ;* ret true
      end.

Record ExpertAccess := mkAccess {
  access_key : ExpertKey;
  access_count : Z;
  routing_score_sum : double;
  routing_score_max : double }.

Fixpoint record_accesses_loop (l : list ExpertAccess) (recorded : Z) : M Z :=
  match l with
  | [] => ret recorded
  | a :: l =>
    let* c := get in
    if (access_count a =? 0) || negb (is_some (entries c !! access_key a))
    then record_accesses_loop l recorded
    else
      touch_times (Z.to_nat (access_count a)) (access_key a) ;*
      add_routing_score_locked (access_key a) (routing_score_sum a) (routing_score_max a) ;*
      promote_ram_locked (access_key a) false ;*
      promote_vram_locked (access_key a) false ;*
      record_accesses_loop l (add64 recorded (access_count a))
  end.

Definition record_accesses (l : list ExpertAccess) : M Z :=
  acquire_lock ;*
  let* c := get in
  if shutting_down c then ret 0 else record_accesses_loop l 0.

Definition protect (k : ExpertKey) (want_ram want_vram : bool) : M bool :=
  acquire_lock ;*
  let* c := get in
  if shutting_down c then ret false
  else
    match entries c !! k with
    | None => ret false
    | Some _ =>
      when want_ram (
        set_entry k (fun e => e <| ram_protected_requested := true |>) ;*
        promote_ram_locked k true) ;*
      when want_vram (
        set_entry k (fun e => e <| vram_resident_requested := true |>) ;*
        promote_vram_locked k true) ;*
      let* e := entry_at k in
      let* c := get in
      ret ((negb want_ram || negb (is_some (host_copy e)) || ram_protected e
            || (placement_ram_protected_bytes (placement (config c)) =? 0))
           && (negb want_vram || negb (is_some (device e)) || vram_resident e
               || (placement_vram_transient_bytes (placement (config c)) =? 0)))
    end.

(** ** Queries *)

Definition admission_candidate (k : ExpertKey) (e : Entry) (resident : bool) (c : Core D)
    (ck : ExpertKey) (ce : Entry) : bool :=
  negb (bool_decide (ck = k) || negb (is_some (device ce))
        || negb (Bool.eqb (vram_resident ce) resident) || negb (references ce =? 0)
        || has_waiters_locked ce
        || match directory c with Some d => dir_route_pinned ck d | None => false end
        || (temperature_locked ce >=? temperature_locked e)
        || bool_decide (state ce = gpu_uploading) || bool_decide (state ce = failed)).

(** The scan of [vram_admission_would_improve]: whether enough colder bytes are
    found, and how many candidates were looked at. *)
Fixpoint admission_scan (eligible : ExpertKey -> Entry -> bool) (l : list (ExpertKey * Entry))
    (deficit colder scanned : Z) : bool * Z :=
  match l with
  | [] => (false, scanned)
  | (ck, ce) :: l =>
    if eligible ck ce then
      let colder := add64 colder (vram_reserved ce) in
      if colder >=? deficit then (true, scanned + 1)
      else admission_scan eligible l deficit colder (scanned + 1)
    else admission_scan eligible l deficit colder (scanned + 1)
  end.

Definition vram_admission_would_improve (k : ExpertKey) (r : PayloadRecord) : M bool :=
  acquire_lock ;*
  let* c := get in
  if shutting_down c then ret false
  else
    match entries c !! k with
    | None => ret false
    | Some e =>
      if negb (same_record (record e) r) || is_some (device e) || negb (has_host_bytes e)
         || negb (bool_decide (state e = ram_ready))
      then ret false
      else
        let need := device_bytes (record e) in
        let resident := (placement_vram_transient_bytes (placement (config c)) =? 0)
                        || vram_resident_requested e || (2 <=? frequency e) in
        let limit := vram_class_limit resident c in
        let usage := vram_class_usage resident c in
        if add64 usage need <=? limit then ret true
        else
          let deficit := sub64 (add64 usage need) limit in
          let '(found, scanned) := admission_scan (admission_candidate k e resident c)
                                     (ordered key_ltb (entries c)) deficit 0 0 in
          count "vram_admission_scan_calls_" ;*
          count_by "vram_admission_scan_candidates_" 0 scanned ;*
          ret found
    end.

Definition stale_resident (minimum_age : Z) (c : Core D) (e : Entry) : bool :=
  negb (negb (is_some (device e)) || negb (references e =? 0)
        || negb (bool_decide (waiters e = ∅)) || bool_decide (state e = gpu_uploading)
        || bool_decide (state e = failed)
        || (sub64 (access_clock c) (last_access e) <? minimum_age)).

Definition vram_stale_resident_bytes (minimum_age : Z) : M Z :=
  acquire_lock ;*
  let* c := get in
  if shutting_down c then ret 0
  else ret (foldl (fun bytes ke =>
    if stale_resident minimum_age c ke.2 then saturating_add bytes (vram_reserved ke.2)
    else bytes) 0 (ordered key_ltb (entries c))).

Record CacheEntrySnapshot := mkEntrySnapshot {
  es_state : CacheState;
  es_reference_count : Z;
  es_waiter_count : Z;
  es_has_host_copy : bool;
  es_has_device_copy : bool;
  es_ram_protected : bool;
  es_vram_resident : bool;
  es_frequency : Z;
  es_routing_score_mass_q20 : Z;
  es_routing_score_peak_q20 : Z;
  es_placement_temperature : Z;
  es_last_access : Z }.

Definition inspect (k : ExpertKey) : M (option CacheEntrySnapshot) :=
  acquire_lock ;*
  let* c := get in
  ret ((fun e => mkEntrySnapshot (state e) (references e)
          (Z.of_nat (size (waiters e) + size (host_waiters e))) (has_host_bytes e)
          (is_some (device e)) (ram_protected e) (vram_resident e) (frequency e)
          (routing_score_mass_q20 e) (routing_score_peak_q20 e) (temperature_locked e)
          (last_access e)) <$> entries c !! k).

(** ** Cancellation, release, trimming, shutdown *)

(** The part of the two cancel functions that runs once the last waiter is gone; the
    operations to cancel outside the lock. *)
Definition abandon_entry (k : ExpertKey) : M (Z * Z) :=
  let* e := entry_at k in
  if has_waiters_locked e then ret (0, 0)
  else
    set_entry k (fun e => e <| abandon := true |>) ;*
    when (bool_decide (state e = ram_ready) && negb (preparing_host e)) (
      release_staging_locked k ;*
      when (negb (is_some (host_copy e))) (
        release_host_locked k ;* transition_locked k absent) ;*
      set_entry k (fun e => e <| abandon := false |>) ;*
      update_usage_locked) ;*
    ret (io_operation e, upload_operation e).

Definition cancel_waiter (k : ExpertKey) (id : Z) : M (Z * Z) :=
  acquire_lock ;*
  let* c := get in
  match entries c !! k ≫= (fun e => waiters e !! id) with
  | None => ret (0, 0)
  | Some o =>
    record_waiter_completion (acquire_priority o) ;*
    settle (AcquireSettled id (mkStatus cancelled "expert acquisition cancelled") None) ;*
    count_at "cancellations_by_priority_" (acquire_priority o) ;*
    set_entry k (fun e => e <| waiters %= delete id |>) ;*
    count "cancellation_count_" ;*
    let* operations := abandon_entry k in
    refresh_task_indexes_locked k ;* ret operations
  end.

Definition cancel_host_waiter (k : ExpertKey) (id : Z) : M (Z * Z) :=
  acquire_lock ;*
  let* c := get in
  match entries c !! k ≫= (fun e => host_waiters e !! id) with
  | None => ret (0, 0)
  | Some o =>
    record_waiter_completion (preload_priority o) ;*
    settle (PreloadSettled id (mkStatus cancelled "host preload cancelled") false None) ;*
    count_at "cancellations_by_priority_" (preload_priority o) ;*
    set_entry k (fun e => e <| host_waiters %= delete id |>) ;*
    count "cancellation_count_" ;*
    let* operations := abandon_entry k in
    refresh_task_indexes_locked k ;* ret operations
  end.

Definition release_reference (k : ExpertKey) : M unit :=
  acquire_lock ;*
  let* c := get in
  match entries c !! k with
  | None => ret tt
  | Some e =>
    if references e =? 0 then ret tt
    else
      remove_reference_locked k ;*
      modify (fun c => c <| access_clock %= inc64 |>) ;*
      let* c := get in
      set_entry k (fun e => e <| last_access := access_clock c |>)
  end.

Fixpoint trim_loop (fuel : nat) (ram_target vram_target : Z) : M unit :=
  match fuel with
  | O => throw out_of_fuel
  | S fuel =>
    let* c := get in
    if (ram_bytes c >? ram_target) || (vram_bytes c >? vram_target) then
      let* progress := evict_one_locked
        (plain_eviction (ram_bytes c >? ram_target) (vram_bytes c >? vram_target) None) in
      if progress then trim_loop fuel ram_target vram_target else ret tt
    else ret tt
  end.

Definition trim_to (ram_target vram_target : Z) : M (Z * Z) :=
  acquire_lock ;*
  let* c := get in
  trim_loop (evict_fuel c) ram_target vram_target ;*
  let* c := get in
  ret (ram_bytes c, vram_bytes c).

(** [ExpertCache::usage] and [ExpertCache::trim]: the difference to the counters last
    published. *)
Definition usage (c : Core D) : Z * Z :=
  (telemetry_get "ram_bytes_" 0 (metrics c), telemetry_get "vram_bytes_" 0 (metrics c)).

Definition trim : M Z :=
  let* c := get in
  let before := usage c in
  let* after := trim_to 0 0 in
  ret (add64 (sub64 before.1 after.1) (sub64 before.2 after.2)).

Definition configure_vram_budget (b : TierBudget) (transient : Z) : M Status :=
  acquire_lock ;*
  let* c := get in
  if shutting_down c then ret (mkStatus cancelled "expert cache is shutting down")
  else if negb (valid_budget b) || (transient >=? high_watermark_bytes b)
  then ret (mkStatus invalid_arg "invalid fitted expert VRAM budget")
  else if negb (vram_bytes c =? 0)
  then ret (mkStatus invalid_arg "expert VRAM budget cannot change after first admission")
  else
    modify (fun c => c <| config %= fun cfg => cfg <| vram := b |>
      <| placement %= fun p => p <| placement_vram_transient_bytes := transient |> |> |>) ;*
    ret success.

(** The critical section of [shutdown]: the operations to cancel afterwards. *)
Definition shutdown : M (list Z * list Z) :=
  acquire_lock ;*
  let* c := get in
  if shutting_down c then ret ([], [])
  else
    modify (fun c => c <| shutting_down := true |> <| host_worker_stop := true |>) ;*
    for_each (ordered key_ltb (entries c)).*1 (fun k =>
      fail_waiters_locked k (mkStatus cancelled "expert cache shutdown")) ;*
    let* c := get in
    let l := (ordered key_ltb (entries c)).*2 in
    ret (filter (fun o => o <> 0) (io_operation <$> l),
         filter (fun o => o <> 0) (upload_operation <$> l)).
End Operations.
