(* ===== verification/ExpertCacheInv.v ===== *)
(** The invariant of the expert cache, and what each primitive of [ExpertCache]
    does to it.

    [base g o c]: the bookkeeping of [c] is right. The ghost [g] carries what the
    core itself does not store: the leases clients hold, the waiter ids that are
    taken but neither pending in an entry nor settled, and the room a capacity check
    has just established. While an operation works on the entry at [k] the entry's
    own consistency is suspended ([o = Some k]); outside, [o = None]. *)

From S2P Require Import Prelude Storage CacheState BufferPool.
From S2P Require Import ExpertRecord Telemetry Doubles ExpertCache.

(** ** Entries *)

Definition record_ok (r : PayloadRecord) : Prop :=
  0 <= stored_bytes r <= U64_MAX /\ 0 <= rec_device_bytes r <= U64_MAX.

(** Residency: what each state of an entry means for its buffers. *)
Definition residency_ok (e : Entry) : Prop :=
  match state e with
  | absent => has_host_bytes e = false /\ device e = None
  | ssd_loading => is_Some (host e) /\ host_copy e = None /\ device e = None
  | ram_ready | gpu_uploading =>
      has_host_bytes e = true /\ device e = None /\ is_Some (validated_sections e)
  | vram_ready =>
      is_Some (device e) /\ (has_host_bytes e = true -> is_Some (validated_sections e))
  | failed => has_host_bytes e = false /\ device e = None /\ vram_reserved e = 0 /\
      waiters e = ∅ /\ host_waiters e = ∅
  end.

(** RAM is charged exactly while bytes are held; a device copy is charged its own
    size. *)
Definition charges_ok (e : Entry) : Prop :=
  ram_reserved e = (if has_host_bytes e then stored_bytes (record e) else 0) /\
  (forall a, device e = Some a -> vram_reserved e = allocation_bytes a).

Definition entry_ok (e : Entry) : Prop := residency_ok e /\ charges_ok e.

(** ** Measures over the entries *)

Definition protected_ram (e : Entry) : Z := if ram_protected e then ram_reserved e else 0.
Definition probationary_ram (e : Entry) : Z := if ram_protected e then 0 else ram_reserved e.

Definition part_of (cfg : ExpertCacheConfig) (k : ExpertKey) : nat :=
  Z.to_nat (Z.min (layer k / layers_per_partition (placement cfg))
                  (layer_partition_count (placement cfg) - 1)).

Definition partition_ram (cfg : ExpertCacheConfig) (p : nat) (e : Entry) : Z :=
  if bool_decide (part_of cfg (entry_key e) = p) then ram_reserved e else 0.

Definition leases (m : gmap ExpertKey Entry) : list Lease :=
  omap (fun ke => host ke.2) (map_to_list m).

(** How much there is left to evict. *)
Definition copies (e : Entry) : Z :=
  (if has_host_bytes e then 1 else 0) + (if is_some (device e) then 1 else 0).

(** ** Waiter ids *)

Definition settlement_id (s : Settlement) : Z :=
  match s with AcquireSettled id _ _ | PreloadSettled id _ _ _ => id end.

(** The leases a settlement hands out join those held. *)
Definition grant (held : list (ExpertKey * option DeviceAllocation)) (s : Settlement) :
    list (ExpertKey * option DeviceAllocation) :=
  match s with
  | AcquireSettled _ _ (Some (k, a)) => (k, Some a) :: held
  | PreloadSettled _ _ _ (Some (k, _)) => (k, None) :: held
  | _ => held
  end.

Definition grants (ss : list Settlement) held := foldl grant held ss.

(** [id] waits in [e], for the device ([true]) or for the host copy ([false]). *)
Definition waits_in (e : Entry) (b : bool) (id : Z) : Prop :=
  if b then is_Some (waiters e !! id) else is_Some (host_waiters e !! id).

(** ** Configuration *)

Definition config_ok (cfg : ExpertCacheConfig) : Prop :=
  0 < high_watermark_bytes (ram cfg) < 2 ^ 63 /\
  0 < high_watermark_bytes (vram cfg) < 2 ^ 63 /\
  0 <= placement_ram_protected_bytes (placement cfg) < high_watermark_bytes (ram cfg) /\
  0 <= placement_vram_transient_bytes (placement cfg) < high_watermark_bytes (vram cfg) /\
  1 <= layer_partition_count (placement cfg).

Definition protected_limit (cfg : ExpertCacheConfig) : Z :=
  placement_ram_protected_bytes (placement cfg).
Definition probationary_limit (cfg : ExpertCacheConfig) : Z :=
  high_watermark_bytes (ram cfg) - placement_ram_protected_bytes (placement cfg).

(** [id] waits in some entry other than [o]'s. *)
Definition pending {D} (o : option ExpertKey) (c : Core D) (id : Z) : Prop :=
  exists k e b, entries c !! k = Some e /\ o <> Some k /\ waits_in e b id.

(** ** The invariant *)

Record Ghost := mkGhost {
  g_cfg : ExpertCacheConfig;
  g_log : list Settlement;
  g_held : list (ExpertKey * option DeviceAllocation);
  g_taken : list Z;
  g_dead : gset ExpertKey;
  g_known : gmap ExpertKey PayloadRecord;
  g_ram_room : Z;
  g_protected_room : Z;
  g_probationary_room : Z;
  g_vram_room : Z }.

#[export] Instance eta_Ghost : Eta Ghost := fun g =>
  mkGhost (g_cfg g) (g_log g) (g_held g) (g_taken g) (g_dead g) (g_known g) (g_ram_room g)
    (g_protected_room g) (g_probationary_room g) (g_vram_room g).

(** [ss] are settled, what is left of the taken ids is [R]. *)
Definition settled_with (g : Ghost) (ss : list Settlement) (R : list Z) : Ghost :=
  g <| g_log %= fun l => l ++ ss |> <| g_held %= grants ss |> <| g_taken := R |>.

Definition held_count (k : ExpertKey) (held : list (ExpertKey * option DeviceAllocation)) : Z :=
  Z.of_nat (length (filter (fun h => h.1 = k) held)).

Record base {D} (g : Ghost) (o : option ExpertKey) (c : Core D) : Prop := {
  b_config : config c = g_cfg g;
  b_config_ok : config_ok (g_cfg g);
  b_log : settled c = g_log g;
  b_parts : length (ram_partition_bytes c) = Z.to_nat (layer_partition_count (placement (g_cfg g)))
    /\ length (vram_partition_bytes c) = length (ram_partition_bytes c);
  b_entry k e : entries c !! k = Some e ->
    entry_key e = k /\ record_ok (record e) /\ 0 <= ram_reserved e /\ 0 <= vram_reserved e;
  b_ok k e : entries c !! k = Some e -> o <> Some k -> entry_ok e;
  b_ram : ram_bytes c = msum ram_reserved (entries c);
  b_protected : ram_protected_bytes c = msum protected_ram (entries c);
  b_probationary : ram_probationary_bytes c = msum probationary_ram (entries c);
  b_partition p x : ram_partition_bytes c !! p = Some x ->
    x = msum (partition_ram (g_cfg g) p) (entries c);
  b_vram : vram_bytes c = msum vram_reserved (entries c);
  b_rooms : 0 <= g_ram_room g /\ 0 <= g_protected_room g /\ 0 <= g_probationary_room g /\
    0 <= g_vram_room g;
  b_ram_high : ram_bytes c + g_ram_room g <= high_watermark_bytes (ram (g_cfg g));
  b_classes : placement_ram_protected_bytes (placement (g_cfg g)) <> 0 ->
    ram_protected_bytes c + g_protected_room g <= protected_limit (g_cfg g) /\
    ram_probationary_bytes c + g_probationary_room g <= probationary_limit (g_cfg g);
  b_vram_high : vram_bytes c + g_vram_room g <= high_watermark_bytes (vram (g_cfg g));
  b_pool : pool_inv (leases (entries c)) (buffers c);
  b_index k s : s ∈ read_task_keys c ++ upload_task_keys c -> k ∈ s -> is_Some (entries c !! k);
  b_references k e : entries c !! k = Some e -> references e = held_count k (g_held g);
  b_held_bound : Z.of_nat (length (g_held g)) <= U64_MAX;
  b_held k a : (k, Some a) ∈ g_held g -> o <> Some k ->
    exists e, entries c !! k = Some e /\ state e = vram_ready /\ device e = Some a;
  b_present k x : (k, x) ∈ g_held g -> is_Some (entries c !! k);
  b_next : 1 <= next_waiter c;
  b_dead k : k ∈ g_dead g -> o <> Some k -> exists e, entries c !! k = Some e /\ state e = failed;
  b_known k r : g_known g !! k = Some r -> exists e, entries c !! k = Some e /\ record e = r;
  b_settled : NoDup (settlement_id <$> g_log g) /\
    forall id, id ∈ settlement_id <$> g_log g -> id < next_waiter c;
  b_taken : NoDup (g_taken g) /\
    forall id, id ∈ g_taken g -> 0 <= id < next_waiter c /\ id ∉ settlement_id <$> g_log g;
  b_pending k e b id : entries c !! k = Some e -> o <> Some k -> waits_in e b id ->
    0 <= id < next_waiter c /\ id ∉ settlement_id <$> g_log g /\ id ∉ g_taken g /\
    forall k' e' b', entries c !! k' = Some e' -> o <> Some k' -> waits_in e' b' id ->
      k' = k /\ b' = b;
  b_issued id : 1 <= id < next_waiter c ->
    id ∈ settlement_id <$> g_log g \/ id ∈ g_taken g \/ pending o c id }.

(** The focused form: the entry at [k] is [e] and is being worked on; [m] are the
    other entries. *)
Definition focus {D} (g : Ghost) (m : gmap ExpertKey Entry) (k : ExpertKey) (e : Entry)
    (c : Core D) : Prop :=
  base g (Some k) c /\ entries c !! k = Some e /\ delete k (entries c) = m.

(** The ids that wait in an entry. *)
Definition entry_ids (e : Entry) : list Z :=
  (map_to_list (waiters e)).*1 ++ (map_to_list (host_waiters e)).*1.

(** ** Lemmas on the measures *)

Lemma msum_split (m : gmap ExpertKey Entry) :
  msum ram_reserved m = msum protected_ram m + msum probationary_ram m.
Proof.
  induction m as [|k e m Hk IH] using map_ind; [by rewrite !msum_empty|].
  rewrite !msum_insert_new, IH by done. unfold protected_ram, probationary_ram.
  destruct (ram_protected e); lia.
Qed.

Lemma leases_delete (m : gmap ExpertKey Entry) k e :
  m !! k = Some e -> leases m ≡ₚ option_list (host e) ++ leases (delete k m).
Proof.
  intros Hk. unfold leases. rewrite <- (map_to_list_delete m k e Hk). simpl.
  by destruct (host e).
Qed.

Lemma leases_insert (m : gmap ExpertKey Entry) k e :
  leases (<[k := e]> m) ≡ₚ option_list (host e) ++ leases (delete k m).
Proof.
  rewrite (leases_delete _ k e) by apply lookup_insert_eq. by rewrite delete_insert_eq.
Qed.

Section Base.
Context {D : Type}.
Implicit Types (c : Core D) (g : Ghost).

Lemma b_nonneg g o c k e :
  base g o c -> entries c !! k = Some e -> 0 <= ram_reserved e /\ 0 <= vram_reserved e.
Proof. intros Hb Hk. by destruct (b_entry g o c Hb k e Hk) as (_ & _ & ? & ?). Qed.

(** Every counter is a sum of non-negative shares of [ram_bytes]. *)
Lemma b_ram_bounds g o c :
  base g o c ->
  0 <= ram_protected_bytes c /\ 0 <= ram_probationary_bytes c /\
  ram_protected_bytes c + ram_probationary_bytes c = ram_bytes c /\ ram_bytes c < 2 ^ 63 /\
  0 <= vram_bytes c < 2 ^ 63.
Proof.
  intros Hb. rewrite (b_ram _ _ _ Hb), (b_protected _ _ _ Hb), (b_probationary _ _ _ Hb),
    msum_split.
  pose proof (b_ram_high _ _ _ Hb) as Hh. pose proof (b_vram_high _ _ _ Hb) as Hv.
  pose proof (b_rooms _ _ _ Hb) as Hr. destruct (b_config_ok _ _ _ Hb) as (? & ? & _).
  rewrite (b_ram _ _ _ Hb), msum_split in Hh. rewrite (b_vram _ _ _ Hb) in *.
  assert (0 <= msum vram_reserved (entries c)).
  { apply msum_nonneg. intros k e Hk. by apply (b_nonneg _ _ _ _ _ Hb) in Hk as [_ ?]. }
  assert (0 <= msum protected_ram (entries c)).
  { apply msum_nonneg. intros k e Hk. apply (b_nonneg _ _ _ _ _ Hb) in Hk as [? _].
    unfold protected_ram. by case_match. }
  assert (0 <= msum probationary_ram (entries c)).
  { apply msum_nonneg. intros k e Hk. apply (b_nonneg _ _ _ _ _ Hb) in Hk as [? _].
    unfold probationary_ram. by case_match. }
  lia.
Qed.

Lemma b_partition_bounds g o c p x :
  base g o c -> ram_partition_bytes c !! p = Some x -> 0 <= x <= ram_bytes c.
Proof.
  intros Hb Hx. rewrite (b_partition _ _ _ Hb p x Hx), (b_ram _ _ _ Hb).
  pose proof (fun k e => b_nonneg g o c k e Hb) as Hn. clear - Hn.
  induction (entries c) as [|k e m Hk IH] using map_ind; [by rewrite !msum_empty|].
  rewrite !msum_insert_new by done.
  destruct (Hn k e) as [? _]; [apply lookup_insert_eq|].
  assert (0 <= msum (partition_ram (g_cfg g) p) m <= msum ram_reserved m).
  { apply IH. intros j w Hj. apply (Hn j). rewrite lookup_insert_ne; [done|]. congruence. }
  assert (0 <= partition_ram (g_cfg g) p e <= ram_reserved e)
    by (unfold partition_ram; case_bool_decide; lia). lia.
Qed.

Lemma b_partition_for g o c k :
  base g o c -> partition_for k c = part_of (g_cfg g) k /\
  (partition_for k c < length (ram_partition_bytes c))%nat.
Proof.
  intros Hb. destruct (b_parts _ _ _ Hb) as [Hp _]. destruct (b_config_ok _ _ _ Hb) as (_ & _ & _ & _ & ?).
  unfold partition_for, part_of. rewrite (b_config _ _ _ Hb), Hp. split; [|lia].
  by rewrite Z2Nat.id by lia.
Qed.

(** An entry's shares are part of the totals. *)
Lemma b_share g o c k e :
  base g o c -> entries c !! k = Some e ->
  ram_reserved e <= ram_bytes c /\ vram_reserved e <= vram_bytes c /\
  protected_ram e <= ram_protected_bytes c /\ probationary_ram e <= ram_probationary_bytes c /\
  (forall x, ram_partition_bytes c !! part_of (g_cfg g) k = Some x -> ram_reserved e <= x).
Proof.
  intros Hb Hk. pose proof (fun k e => b_nonneg g o c k e Hb) as Hn.
  rewrite (b_ram _ _ _ Hb), (b_vram _ _ _ Hb), (b_protected _ _ _ Hb), (b_probationary _ _ _ Hb).
  split_and!; try (eapply msum_elem; [|done]; intros j w Hj; specialize (Hn j w Hj);
    unfold protected_ram, probationary_ram; repeat case_match; lia).
  intros x Hx. rewrite (b_partition _ _ _ Hb _ _ Hx).
  replace (ram_reserved e) with (partition_ram (g_cfg g) (part_of (g_cfg g) k) e).
  - eapply msum_elem; [|done]. intros j w Hj. specialize (Hn j w Hj). unfold partition_ram.
    case_bool_decide; lia.
  - destruct (b_entry _ _ _ Hb _ _ Hk) as [Hkey _]. unfold partition_ram.
    by rewrite Hkey, bool_decide_true.
Qed.

(** ** One entry changes *)

Definition same_ghost (g g' : Ghost) : Prop :=
  g_cfg g' = g_cfg g /\ g_log g' = g_log g /\ g_held g' = g_held g /\ g_taken g' = g_taken g /\
  g_dead g' = g_dead g /\ g_known g' = g_known g.

Lemma same_ghost_refl g : same_ghost g g.
Proof. by split_and!. Qed.

Definition rooms_ok (g : Ghost) (c : Core D) : Prop :=
  (0 <= g_ram_room g /\ 0 <= g_protected_room g /\ 0 <= g_probationary_room g /\
    0 <= g_vram_room g) /\
  ram_bytes c + g_ram_room g <= high_watermark_bytes (ram (g_cfg g)) /\
  (placement_ram_protected_bytes (placement (g_cfg g)) <> 0 ->
    ram_protected_bytes c + g_protected_room g <= protected_limit (g_cfg g) /\
    ram_probationary_bytes c + g_probationary_room g <= probationary_limit (g_cfg g)) /\
  vram_bytes c + g_vram_room g <= high_watermark_bytes (vram (g_cfg g)).

Lemma b_rooms_ok g o c : base g o c -> rooms_ok g c.
Proof. intros []. done. Qed.

(** Pending ids only look at the entries. *)
Lemma pending_frame (A B : Prop) o c c' id :
  (forall j, o <> Some j -> entries c' !! j = entries c !! j) ->
  A \/ B \/ pending o c id -> A \/ B \/ pending o c' id.
Proof.
  intros Hj [?|[?|(j & w & b & Hw & Hne & Hb)]]; [by left|by right; left|right; right].
  exists j, w, b. by rewrite Hj.
Qed.

(** What an edit of the entry at [k] from [e] to [e'] must do to the counters. *)
Record edit (cfg : ExpertCacheConfig) (k : ExpertKey) (e e' : Entry) (c c' : Core D) : Prop := {
  ed_entries : entries c' = <[k := e']> (entries c);
  ed_config : config c' = config c;
  ed_log : settled c' = settled c;
  ed_next : next_waiter c' = next_waiter c;
  ed_index : read_task_keys c' = read_task_keys c /\ upload_task_keys c' = upload_task_keys c;
  ed_parts : length (ram_partition_bytes c') = length (ram_partition_bytes c) /\
    length (vram_partition_bytes c') = length (vram_partition_bytes c);
  ed_key : entry_key e' = entry_key e /\ record e' = record e /\ references e' = references e /\
    0 <= ram_reserved e' /\ 0 <= vram_reserved e';
  ed_ram : ram_bytes c' = ram_bytes c - ram_reserved e + ram_reserved e';
  ed_protected : ram_protected_bytes c' = ram_protected_bytes c - protected_ram e + protected_ram e';
  ed_probationary : ram_probationary_bytes c'
    = ram_probationary_bytes c - probationary_ram e + probationary_ram e';
  ed_partition p x : ram_partition_bytes c' !! p = Some x -> exists y,
    ram_partition_bytes c !! p = Some y /\
    x = y - (if bool_decide (part_of cfg k = p) then ram_reserved e else 0)
          + (if bool_decide (part_of cfg k = p) then ram_reserved e' else 0);
  ed_vram : vram_bytes c' = vram_bytes c - vram_reserved e + vram_reserved e';
  ed_pool : pool_inv (option_list (host e) ++ leases (delete k (entries c))) (buffers c) ->
    pool_inv (option_list (host e') ++ leases (delete k (entries c))) (buffers c') }.

Lemma focus_edit g g' m k e e' c c' :
  focus g m k e c -> same_ghost g g' -> edit (g_cfg g) k e e' c c' -> rooms_ok g' c' ->
  focus g' m k e' c'.
Proof.
  intros (Hb & Hk & Hm) (Gc & Gl & Gh & Gt & Gd & Gk) [] (R1 & R2 & R3 & R4).
  destruct ed_key0 as (Hkey & Hrec & Href & Hr0 & Hv0).
  assert (Hlk : forall j, j <> k -> entries c' !! j = entries c !! j).
  { intros j Hj. rewrite ed_entries0. by apply lookup_insert_ne. }
  assert (Hself : entries c' !! k = Some e') by (rewrite ed_entries0; apply lookup_insert_eq).
  destruct (b_entry _ _ _ Hb _ _ Hk) as (Hek & Hero & _).
  split; [|split; [done|by rewrite ed_entries0, delete_insert_eq]].
  split; rewrite ?Gc, ?Gl, ?Gh, ?Gt, ?Gd, ?Gk; try done; try apply Hb.
  - rewrite ed_config0. apply Hb.
  - rewrite ed_log0. apply Hb.
  - destruct ed_parts0 as [-> ->]. apply Hb.
  - intros j w. destruct (decide (j = k)) as [->|Hj].
    + rewrite Hself. intros [= <-]. rewrite Hkey, Hrec. done.
    + rewrite Hlk by done. apply Hb.
  - intros j w Hw Hj. rewrite Hlk in Hw by congruence. by eapply (b_ok _ _ _ Hb).
  - rewrite ed_ram0, ed_entries0, (msum_insert _ _ _ e) by done. by rewrite (b_ram _ _ _ Hb).
  - rewrite ed_protected0, ed_entries0, (msum_insert _ _ _ e) by done.
    by rewrite (b_protected _ _ _ Hb).
  - rewrite ed_probationary0, ed_entries0, (msum_insert _ _ _ e) by done.
    by rewrite (b_probationary _ _ _ Hb).
  - intros p x Hx. destruct (ed_partition0 p x Hx) as (y & Hy & ->).
    rewrite ed_entries0, (msum_insert _ _ _ e) by done. rewrite (b_partition _ _ _ Hb p y Hy).
    unfold partition_ram. by rewrite Hkey, Hek.
  - rewrite ed_vram0, ed_entries0, (msum_insert _ _ _ e) by done. by rewrite (b_vram _ _ _ Hb).
  - by rewrite <- Gc.
  - rewrite <- Gc. done.
  - by rewrite <- Gc.
  - rewrite ed_entries0. eapply pool_inv_perm; [symmetry; apply leases_insert|].
    apply ed_pool0. eapply pool_inv_perm; [apply leases_delete, Hk|]. apply Hb.
  - intros j s. destruct ed_index0 as [-> ->]. intros Hs Hj.
    destruct (b_index _ _ _ Hb j s Hs Hj) as [w Hw]. destruct (decide (j = k)) as [->|Hne].
    + by rewrite Hself.
    + by rewrite Hlk, Hw.
  - intros j w. destruct (decide (j = k)) as [->|Hj].
    + rewrite Hself. intros [= <-]. rewrite Href. by apply (b_references _ _ _ Hb).
    + rewrite Hlk by done. apply (b_references _ _ _ Hb).
  - intros j a Hin Hj. rewrite Hlk by congruence. by apply (b_held _ _ _ Hb).
  - intros j x Hin. destruct (decide (j = k)) as [->|Hj]; [by rewrite Hself|].
    rewrite Hlk by done. by eapply (b_present _ _ _ Hb).
  - rewrite ed_next0. apply Hb.
  - intros j Hin Hj. rewrite Hlk by congruence. by apply (b_dead _ _ _ Hb).
  - intros j r Hr. destruct (b_known _ _ _ Hb j r Hr) as (w & Hw & Hwr).
    destruct (decide (j = k)) as [->|Hj]; [|exists w; by rewrite Hlk].
    exists e'. split; [done|]. rewrite Hrec. congruence.
  - rewrite ed_next0. apply Hb.
  - rewrite ed_next0. apply Hb.
  - intros j w b id Hw Hj Hid. rewrite Hlk in Hw by congruence. rewrite ed_next0.
    destruct (b_pending _ _ _ Hb j w b id Hw Hj Hid) as (? & ? & ? & Hu). split_and!; try lia; try done.
    intros j' w' b' Hw' Hj'. rewrite Hlk in Hw' by congruence. by eapply Hu.
  - rewrite ed_next0. intros id Hid. eapply pending_frame, (b_issued _ _ _ Hb id Hid).
    intros j Hj. by rewrite Hlk by congruence.
Qed.

(** Changes the invariant does not see: metrics, clocks, the directory, the VRAM
    class counters, queues and flags. *)
Record quiet (c c' : Core D) : Prop := {
  q_entries : entries c' = entries c;
  q_config : config c' = config c;
  q_log : settled c' = settled c;
  q_next : next_waiter c' = next_waiter c;
  q_index k s : s ∈ read_task_keys c' ++ upload_task_keys c' -> k ∈ s ->
    is_Some (entries c !! k) \/ exists s', s' ∈ read_task_keys c ++ upload_task_keys c /\ k ∈ s';
  q_parts : ram_partition_bytes c' = ram_partition_bytes c /\
    length (vram_partition_bytes c') = length (vram_partition_bytes c);
  q_ram : ram_bytes c' = ram_bytes c /\ ram_protected_bytes c' = ram_protected_bytes c /\
    ram_probationary_bytes c' = ram_probationary_bytes c /\ vram_bytes c' = vram_bytes c;
  q_pool ls : pool_inv ls (buffers c) -> pool_inv ls (buffers c') }.

Lemma base_quiet g o c c' : quiet c c' -> base g o c -> base g o c'.
Proof.
  intros [He Hc Hl Hn Hi [Hp Hvp] (Hr & Hpr & Hpb & Hv) Hpool] Hb.
  split; rewrite ?He, ?Hc, ?Hl, ?Hn, ?Hp, ?Hvp, ?Hr, ?Hpr, ?Hpb, ?Hv; try apply Hb.
  - apply Hpool, Hb.
  - intros k s Hs Hk. destruct (Hi k s Hs Hk) as [?|(s' & ? & ?)]; [done|].
    by eapply (b_index _ _ _ Hb).
  - intros id Hid. eapply pending_frame, (b_issued _ _ _ Hb id Hid). intros. by rewrite He.
Qed.

Lemma focus_quiet g m k e c c' : quiet c c' -> focus g m k e c -> focus g m k e c'.
Proof.
  intros Hq (Hb & Hk & Hm). split; [by eapply base_quiet|]. by rewrite (q_entries _ _ Hq).
Qed.

(** ** Ids and leases *)

Lemma elem_of_entry_ids e id : id ∈ entry_ids e <-> exists b, waits_in e b id.
Proof.
  unfold entry_ids, waits_in. rewrite elem_of_app, !list_elem_of_fmap. split.
  - intros [([j w] & -> & Hin)|([j w] & -> & Hin)]; apply elem_of_map_to_list in Hin; simpl.
    + exists true. by eexists.
    + exists false. by eexists.
  - intros [[] [w Hw]]; [left|right]; exists (id, w); by rewrite elem_of_map_to_list.
Qed.

Lemma focus_open g c k e :
  base g None c -> entries c !! k = Some e ->
  focus (g <| g_taken %= app (entry_ids e) |>) (delete k (entries c)) k e c.
Proof.
  intros Hb Hk. split; [|done]. split; simpl; try apply Hb.
  - intros j w Hw _. by eapply (b_ok _ _ _ Hb).
  - intros j a Hin _. by apply (b_held _ _ _ Hb).
  - intros j Hin _. by apply (b_dead _ _ _ Hb).
  - split.
    + apply NoDup_app. split_and!; [|intros id [b Hid]%elem_of_entry_ids|apply Hb].
      * unfold entry_ids. apply NoDup_app. split_and!; try apply NoDup_fst_map_to_list.
        intros id Hid1 Hid2.
        assert (waits_in e true id /\ waits_in e false id) as [H1 H2].
        { apply list_elem_of_fmap in Hid1 as ([? w] & -> & Hw).
          apply list_elem_of_fmap in Hid2 as ([? w'] & Heq & Hw'). simpl in *. subst.
          apply elem_of_map_to_list in Hw, Hw'. split; by eexists. }
        destruct (b_pending _ _ _ Hb k e true id Hk ltac:(done) H1) as (_ & _ & _ & Hu).
        by destruct (Hu k e false Hk ltac:(done) H2).
      * by destruct (b_pending _ _ _ Hb k e b id Hk ltac:(done) Hid) as (_ & _ & ? & _).
    + intros id [[b Hid]%elem_of_entry_ids|Hid]%elem_of_app; [|by apply Hb].
      by destruct (b_pending _ _ _ Hb k e b id Hk ltac:(done) Hid) as (? & ? & _).
  - intros j w b id Hw Hj Hid.
    destruct (b_pending _ _ _ Hb j w b id Hw ltac:(done) Hid) as (? & ? & Hnt & Hu).
    split_and!; try lia; try done; [|intros; by eapply Hu].
    intros [[b' Hid']%elem_of_entry_ids|?]%elem_of_app; [|done].
    destruct (Hu k e b' Hk ltac:(done) Hid') as [-> _]. done.
  - intros id Hid. rewrite elem_of_app.
    destruct (b_issued _ _ _ Hb id Hid) as [?|[?|(j & w & b & Hw & _ & Hwb)]]; [by left|by auto|].
    destruct (decide (j = k)) as [->|Hj].
    + right. left. left. apply elem_of_entry_ids. exists b. congruence.
    + right. right. exists j, w, b. by split_and!; [|congruence|].
Qed.

Lemma focus_open_idle g c k e :
  base g None c -> entries c !! k = Some e -> waiters e = ∅ -> host_waiters e = ∅ ->
  focus g (delete k (entries c)) k e c.
Proof.
  intros Hb Hk Hw Hh. pose proof (focus_open _ _ _ _ Hb Hk) as HF. revert HF.
  unfold entry_ids. rewrite Hw, Hh, !map_to_list_empty. by destruct g.
Qed.

Lemma focus_close g m k e c R :
  focus g m k e c -> g_taken g ≡ₚ entry_ids e ++ R -> entry_ok e ->
  (forall a, (k, Some a) ∈ g_held g -> state e = vram_ready /\ device e = Some a) ->
  (k ∈ g_dead g -> state e = failed) ->
  base (g <| g_taken := R |>) None c.
Proof.
  intros (Hb & Hk & Hm) HR Hok Hheld Hdead. destruct (b_taken _ _ _ Hb) as [Hnd Htk].
  rewrite HR in Hnd. apply NoDup_app in Hnd as (Hnd1 & Hdisj & Hnd2).
  split; simpl; try apply Hb.
  - intros j w Hw _. destruct (decide (j = k)) as [->|Hj]; [congruence|].
    apply (b_ok _ _ _ Hb j); [done|congruence].
  - intros j a Hin _. destruct (decide (j = k)) as [->|Hj].
    + exists e. split; [done|by apply Hheld].
    + apply (b_held _ _ _ Hb); [done|congruence].
  - intros j Hin _. destruct (decide (j = k)) as [->|Hj].
    + exists e. split; [done|by apply Hdead].
    + apply (b_dead _ _ _ Hb); [done|congruence].
  - split; [done|]. intros id Hid. apply Htk. rewrite HR. set_solver.
  - assert (Hself : forall b id, waits_in e b id ->
      0 <= id < next_waiter c /\ id ∉ settlement_id <$> g_log g /\ id ∉ R /\ id ∈ g_taken g).
    { intros b id Hid. assert (id ∈ entry_ids e) as Hin by (apply elem_of_entry_ids; by exists b).
      assert (id ∈ g_taken g) as Ht by (rewrite HR; set_solver).
      destruct (Htk id Ht). split_and!; try lia; try done. by apply Hdisj. }
    assert (Hsame : forall b b' id, waits_in e b id -> waits_in e b' id -> b = b').
    { intros b b' id H1 H2. unfold entry_ids in Hnd1. apply NoDup_app in Hnd1 as (_ & Hd & _).
      specialize (Hd id). rewrite !list_elem_of_fmap in Hd.
      assert (Hex : waits_in e true id -> waits_in e false id -> False).
      { intros [w Hw] [w' Hw']. apply Hd; eexists (id, _);
          (split; [done|apply elem_of_map_to_list; done]). }
      destruct b, b'; try done; exfalso; by apply Hex. }
    intros j w b id Hw _ Hid. destruct (decide (j = k)) as [->|Hj].
    + assert (w = e) as -> by congruence. destruct (Hself b id Hid) as (? & ? & ? & Ht).
      split_and!; try lia; try done. intros j' w' b' Hw' _ Hid'. destruct (decide (j' = k)) as [->|Hj'].
      * assert (w' = e) as -> by congruence. split; [done|by eapply Hsame].
      * destruct (b_pending _ _ _ Hb j' w' b' id Hw' ltac:(congruence) Hid') as (_ & _ & Hn & _).
        done.
    + destruct (b_pending _ _ _ Hb j w b id Hw ltac:(congruence) Hid) as (? & ? & Hn & Hu).
      split_and!; try lia; try done; [intros Hin; apply Hn; rewrite HR; set_solver|].
      intros j' w' b' Hw' _ Hid'. destruct (decide (j' = k)) as [->|Hj'].
      * assert (w' = e) as -> by congruence. by destruct (Hself b' id Hid') as (_ & _ & _ & ?).
      * eapply Hu; [done|congruence|done].
  - intros id Hid. destruct (b_issued _ _ _ Hb id Hid) as [?|[Ht|(j & w & b & Hw & _ & Hwb)]].
    + by left.
    + rewrite HR in Ht. apply elem_of_app in Ht as [[b Hb']%elem_of_entry_ids|?]; [|by auto].
      right. right. by exists k, e, b.
    + right. right. by exists j, w, b.
Qed.

(** Closing when no id changed hands. *)
Lemma focus_close_same g m k e c :
  focus (g <| g_taken %= app (entry_ids e) |>) m k e c -> entry_ok e ->
  (forall a, (k, Some a) ∈ g_held g -> state e = vram_ready /\ device e = Some a) ->
  (k ∈ g_dead g -> state e = failed) -> base g None c.
Proof.
  intros HF Hok Hh Hd. replace g with (g <| g_taken %= app (entry_ids e) |> <| g_taken := g_taken g |>)
    by (by destruct g). by eapply focus_close.
Qed.

Lemma focus_close_idle g m k e c :
  focus g m k e c -> waiters e = ∅ -> host_waiters e = ∅ -> entry_ok e ->
  (forall a, (k, Some a) ∈ g_held g -> state e = vram_ready /\ device e = Some a) ->
  (k ∈ g_dead g -> state e = failed) -> base g None c.
Proof.
  intros HF Hw Hh Hok Hl Hd. eapply focus_close_same; try done. unfold entry_ids.
  rewrite Hw, Hh, !map_to_list_empty. by destruct g.
Qed.

Lemma base_settle g o c s R :
  base g o c -> g_taken g ≡ₚ settlement_id s :: R ->
  base (g <| g_log %= fun l => l ++ [s] |> <| g_taken := R |>) o
    (c <| settled %= fun l => l ++ [s] |>).
Proof.
  intros Hb HR. destruct (b_taken _ _ _ Hb) as [Hnd Htk].
  rewrite HR in Hnd. apply NoDup_cons in Hnd as [Hni Hnd].
  destruct (Htk (settlement_id s)) as [Hlt Hns]; [rewrite HR; set_solver|].
  split; simpl; try apply Hb.
  - by rewrite (b_log _ _ _ Hb).
  - rewrite fmap_app. simpl. split.
    + apply NoDup_app. split_and!; [apply Hb|set_solver|]. apply NoDup_singleton.
    + intros id [Hid|Hid%list_elem_of_singleton]%elem_of_app; [by apply Hb|subst; lia].
  - split; [done|]. intros id Hid. destruct (Htk id) as [? ?]; [rewrite HR; set_solver|].
    split; [done|]. rewrite fmap_app. simpl. set_solver.
  - intros j w b id Hw Hj Hid.
    destruct (b_pending _ _ _ Hb j w b id Hw Hj Hid) as (? & ? & Hn & ?).
    rewrite HR in Hn. rewrite fmap_app. simpl. split_and!; try lia; try done; set_solver.
  - intros id Hid. rewrite fmap_app. simpl.
    destruct (b_issued _ _ _ Hb id Hid) as [?|[Ht|?]]; [set_solver| |by auto].
    rewrite HR in Ht. set_solver.
Qed.

Lemma focus_settle g m k e c s R :
  focus g m k e c -> g_taken g ≡ₚ settlement_id s :: R ->
  focus (g <| g_log %= fun l => l ++ [s] |> <| g_taken := R |>) m k e
    (c <| settled %= fun l => l ++ [s] |>).
Proof. intros (Hb & Hf) HR. split; [by apply base_settle|done]. Qed.

Lemma base_rooms g g' o c : same_ghost g g' -> rooms_ok g' c -> base g o c -> base g' o c.
Proof.
  intros (Gc & Gl & Gh & Gt & Gd & Gk) (R1 & R2 & R3 & R4) Hb.
  split; rewrite ?Gc, ?Gl, ?Gh, ?Gt, ?Gd, ?Gk; try apply Hb; rewrite <- ?Gc; done.
Qed.

Lemma base_taken g o c R : g_taken g ≡ₚ R -> base g o c -> base (g <| g_taken := R |>) o c.
Proof.
  intros HR Hb. split; simpl; try apply Hb.
  - destruct (b_taken _ _ _ Hb) as [? Ht]. split; [by rewrite <- HR|].
    intros id. rewrite <- HR. apply Ht.
  - intros j w b id. rewrite <- HR. apply Hb.
  - intros id. rewrite <- HR. apply Hb.
Qed.

Lemma focus_taken g m k e c R :
  g_taken g ≡ₚ R -> focus g m k e c -> focus (g <| g_taken := R |>) m k e c.
Proof. intros HR (Hb & Hf). split; [by apply base_taken|done]. Qed.

Lemma length_grant held s : (length held <= length (grant held s))%nat.
Proof. destruct s as [? ? [[]|]|? ? ? [[]|]]; simpl; lia. Qed.

Lemma length_grants ss held : (length held <= length (grants ss held))%nat.
Proof.
  revert held. induction ss as [|s ss IH]; intros held; simpl; [done|].
  etrans; [apply (length_grant held s)|apply IH].
Qed.

Lemma held_count_cons k j o held :
  held_count k ((j, o) :: held) = held_count k held + (if decide (j = k) then 1 else 0).
Proof.
  unfold held_count. rewrite filter_cons. simpl. case_decide; simpl; lia.
Qed.

Lemma held_count_perm k l l' : l ≡ₚ l' -> held_count k l = held_count k l'.
Proof. intros Hp. unfold held_count. by rewrite Hp. Qed.

Lemma held_count_bound k l : 0 <= held_count k l <= Z.of_nat (length l).
Proof. unfold held_count. pose proof (length_filter (fun h => h.1 = k) l). lia. Qed.

(** The leases on [k] change by one; the entry's count follows. *)
Lemma focus_held g m k e e' c c' held :
  focus g m k e c -> quiet (c <| entries := <[k := e']> (entries c) |>) c' ->
  entry_key e' = entry_key e -> record e' = record e -> host e' = host e ->
  ram_reserved e' = ram_reserved e -> vram_reserved e' = vram_reserved e ->
  ram_protected e' = ram_protected e ->
  references e' = held_count k held -> Z.of_nat (length held) <= U64_MAX ->
  (forall j, j <> k -> held_count j held = held_count j (g_held g)) ->
  (forall j x, j <> k -> (j, x) ∈ held -> (j, x) ∈ g_held g) ->
  focus (g <| g_held := held |>) m k e' c'.
Proof.
  intros (Hb & Hk & Hm) Hq Ek Er Eh Err Evr Erp Href Hlen Hcnt Hin.
  apply (focus_quiet _ _ _ _ _ _ Hq). clear Hq c'.
  assert (Hlk : forall j, j <> k -> <[k := e']> (entries c) !! j = entries c !! j)
    by (intros; by apply lookup_insert_ne).
  split; [|split; [apply lookup_insert_eq|by simpl; rewrite delete_insert_eq]].
  destruct (b_entry _ _ _ Hb _ _ Hk) as (Hek & Hero & ? & ?).
  split; simpl; rewrite ?(msum_insert _ _ _ e) by done; try apply Hb.
  - intros j w. destruct (decide (j = k)) as [->|Hj].
    + rewrite lookup_insert_eq. intros [= <-]. rewrite Ek, Er, Err, Evr. done.
    + rewrite Hlk by done. apply Hb.
  - intros j w Hw Hj. rewrite Hlk in Hw by congruence. by eapply (b_ok _ _ _ Hb).
  - rewrite (b_ram _ _ _ Hb). lia.
  - rewrite (b_protected _ _ _ Hb). unfold protected_ram at 3 4. rewrite Err, Erp. lia.
  - rewrite (b_probationary _ _ _ Hb). unfold probationary_ram at 3 4. rewrite Err, Erp. lia.
  - intros p x Hx. rewrite (msum_insert _ _ _ e) by done. rewrite (b_partition _ _ _ Hb p x Hx).
    unfold partition_ram at 3 4. rewrite Err, Ek. lia.
  - rewrite (b_vram _ _ _ Hb). lia.
  - eapply pool_inv_perm; [|apply (b_pool _ _ _ Hb)].
    by rewrite leases_insert, (leases_delete _ _ _ Hk), Eh.
  - intros j s Hs Hj. destruct (b_index _ _ _ Hb j s Hs Hj) as [w Hw].
    destruct (decide (j = k)) as [->|Hne]; [by rewrite lookup_insert_eq|by rewrite Hlk, Hw].
  - intros j w. destruct (decide (j = k)) as [->|Hj].
    + rewrite lookup_insert_eq. by intros [= <-].
    + rewrite Hlk, Hcnt by done. apply (b_references _ _ _ Hb).
  - done.
  - intros j a Hj Hne. rewrite Hlk by congruence. apply (b_held _ _ _ Hb); [|done].
    apply Hin; [congruence|done].
  - intros j x Hj. destruct (decide (j = k)) as [->|Hne]; [by rewrite lookup_insert_eq|].
    rewrite Hlk by done. eapply (b_present _ _ _ Hb), Hin; done.
  - intros j Hj Hne. rewrite Hlk by congruence. by apply (b_dead _ _ _ Hb).
  - intros j r Hr. destruct (b_known _ _ _ Hb j r Hr) as (w & Hw & Hwr).
    destruct (decide (j = k)) as [->|Hj]; [|exists w; by rewrite Hlk].
    exists e'. rewrite lookup_insert_eq, Er. split; [done|congruence].
  - intros j w b id Hw Hj Hid. rewrite Hlk in Hw by congruence.
    destruct (b_pending _ _ _ Hb j w b id Hw Hj Hid) as (? & ? & ? & Hu).
    split_and!; try lia; try done.
    intros j' w' b' Hw' Hj'. rewrite Hlk in Hw' by congruence. by eapply Hu.
  - intros id Hid. eapply pending_frame, (b_issued _ _ _ Hb id Hid). intros. simpl.
    apply Hlk. congruence.
Qed.
End Base.
