(* ===== verification/ExpertCacheSteps.v ===== *)
(** Stepping through the operations of [ExpertCache] with the invariant of
    [ExpertCacheInv]: programs the invariant does not see ([QuietProg]), the rules
    for reading and editing the entry in focus, and the specification of every
    primitive: reservations, releases, transitions, references, settling. *)

From S2P Require Import Prelude Storage CacheState BufferPool.
From S2P Require Import ExpertRecord Telemetry Doubles ExpertCache ExpertCacheInv.

(** ** Quiet programs *)

Section Quiet.
Context {D : Type}.
Implicit Types (c : Core D).

Lemma quiet_refl c : quiet c c.
Proof. split; try done. intros k s Hs Hk. right. by exists s. Qed.

Lemma quiet_trans c1 c2 c3 : quiet c1 c2 -> quiet c2 c3 -> quiet c1 c3.
Proof.
  intros [He1 Hc1 Hl1 Hn1 Hi1 [Hp1 Hv1] (? & ? & ? & ?) Hpool1]
    [He2 Hc2 Hl2 Hn2 Hi2 [Hp2 Hv2] (? & ? & ? & ?) Hpool2].
  split; try congruence; try (split_and!; congruence); [|auto].
  intros k s Hs Hk. destruct (Hi2 k s Hs Hk) as [?|(s' & Hs' & Hk')]; [left; congruence|].
  by eapply Hi1.
Qed.

#[export] Typeclasses Opaque bind ret get modify when for_each throw count_by count count_at
  set_metric maximize_metric acquire_lock settle set_entry entry_at record_waiter_completion
  record_waiter_failure update_usage_locked publish_referenced.

(** A program that always returns and changes nothing the invariant sees. *)
Class QuietProg (m : ST (Core D) unit) : Prop :=
  quiet_prog c : exists c', m c = Ok (tt, c') /\ quiet c c'.

(** A property the invariant's blind spots cannot break. *)
Class QuietStable (P : Core D -> Prop) : Prop :=
  quiet_stable c c' : quiet c c' -> P c -> P c'.

#[export] Instance quiet_base g o : QuietStable (base g o).
Proof. intros c c'. apply base_quiet. Qed.

#[export] Instance quiet_focus g m k e : QuietStable (focus g m k e).
Proof. intros c c'. apply focus_quiet. Qed.

#[export] Instance quiet_and P Q : QuietStable P -> QuietStable Q ->
  QuietStable (fun c => P c /\ Q c).
Proof. intros HP HQ c c' Hq [? ?]. split; [by eapply HP|by eapply HQ]. Qed.

#[export] Instance quiet_entries E : QuietStable (fun c => entries c = E).
Proof. intros c c' [] ?. congruence. Qed.

Lemma quiet_metrics f c : quiet c (c <| metrics %= f |>).
Proof. split; try done. intros k s Hs Hk. right. by exists s. Qed.

#[export] Instance quiet_count_by m i v : QuietProg (count_by m i v).
Proof. intros c. eexists. split; [done|]. apply quiet_metrics. Qed.
#[export] Instance quiet_count m : QuietProg (count m).
Proof. apply quiet_count_by. Qed.
#[export] Instance quiet_count_at m p : QuietProg (count_at m p).
Proof. apply quiet_count_by. Qed.
#[export] Instance quiet_set_metric m v : QuietProg (set_metric m v).
Proof. intros c. eexists. split; [done|]. apply quiet_metrics. Qed.
#[export] Instance quiet_maximize_metric m v : QuietProg (maximize_metric m v).
Proof. intros c. eexists. split; [done|]. apply quiet_metrics. Qed.
#[export] Instance quiet_acquire_lock : QuietProg acquire_lock.
Proof. apply quiet_count_by. Qed.
#[export] Instance quiet_completion p : QuietProg (record_waiter_completion p).
Proof. apply quiet_count_by. Qed.
#[export] Instance quiet_failure p : QuietProg (record_waiter_failure p).
Proof. apply quiet_count_by. Qed.

#[export] Instance quiet_ret : QuietProg (ret tt).
Proof. intros c. exists c. split; [done|apply quiet_refl]. Qed.

#[export] Instance quiet_seq m1 m2 : QuietProg m1 -> QuietProg m2 -> QuietProg (m1 ;* m2).
Proof.
  intros H1 H2 c. destruct (H1 c) as (c1 & E1 & Q1). destruct (H2 c1) as (c2 & E2 & Q2).
  exists c2. unfold bind. rewrite E1. split; [done|by eapply quiet_trans].
Qed.

#[export] Instance quiet_when b m : QuietProg m -> QuietProg (when b m).
Proof. destruct b; [done|]. intros _. apply quiet_ret. Qed.

#[export] Instance quiet_if (b : bool) m1 m2 :
  QuietProg m1 -> QuietProg m2 -> QuietProg (if b then m1 else m2).
Proof. by destruct b. Qed.

#[export] Instance quiet_get (f : Core D -> ST (Core D) unit) :
  (forall c, QuietProg (f c)) -> QuietProg (bind get f).
Proof. intros Hf c. destruct (Hf c c) as (c' & ? & ?). by exists c'. Qed.

#[export] Instance quiet_update_usage : QuietProg update_usage_locked.
Proof. unfold update_usage_locked. apply _. Qed.
#[export] Instance quiet_publish_referenced : QuietProg publish_referenced.
Proof. unfold publish_referenced. apply _. Qed.

Lemma quiet_modify f : (forall c, quiet c (f c)) -> QuietProg (modify f).
Proof. intros Hf c. by exists (f c). Qed.

Lemma wp_quiet `{QuietProg m} `{QuietStable P} (Q : unit -> Core D -> Prop) c :
  P c -> (forall c', P c' -> Q tt c') -> wp m Q c.
Proof.
  intros HP HQ. destruct (quiet_prog c) as (c' & E & Hq). unfold wp. rewrite E.
  apply HQ. by eapply quiet_stable.
Qed.

Lemma wp_quiet_bind {B} `{QuietProg m} `{QuietStable P} (k : unit -> ST (Core D) B) Q c :
  P c -> (forall c', P c' -> wp (k tt) Q c') -> wp (bind m k) Q c.
Proof. intros HP HQ. apply wp_bind. eapply wp_quiet; [done|]. exact HQ. Qed.

Lemma wp_quiet_focus {B} `{QuietProg m} g s k e (K : unit -> ST (Core D) B) Q c :
  focus g s k e c -> (forall c', focus g s k e c' -> wp (K tt) Q c') -> wp (bind m K) Q c.
Proof. apply (wp_quiet_bind (P := focus g s k e)). Qed.

Lemma wp_quiet_base {B} `{QuietProg m} g o (K : unit -> ST (Core D) B) Q c :
  base g o c -> (forall c', base g o c' -> wp (K tt) Q c') -> wp (bind m K) Q c.
Proof. apply (wp_quiet_bind (P := base g o)). Qed.

(** ** The entry in focus *)

Lemma alter_insert_existing (f : Entry -> Entry) k e (m : gmap ExpertKey Entry) :
  m !! k = Some e -> alter f k m = <[k := f e]> m.
Proof.
  intros Hk. apply map_eq. intros j. destruct (decide (j = k)) as [->|Hj].
  - by rewrite lookup_alter_eq, lookup_insert_eq, Hk.
  - by rewrite lookup_alter_ne, lookup_insert_ne.
Qed.

Lemma alter_insert_eq (f : Entry -> Entry) k e e' (m : gmap ExpertKey Entry) :
  m !! k = Some e -> f e = e' -> alter f k m = <[k := e']> m.
Proof. intros Hk <-. by apply alter_insert_existing. Qed.

Lemma wp_entry_at {B} k e (f : Entry -> ST (Core D) B) Q c :
  entries c !! k = Some e -> wp (f e) Q c -> wp (bind (entry_at k) f) Q c.
Proof. intros Hk Hf. unfold wp, bind, entry_at. rewrite Hk. exact Hf. Qed.

(** An edit that keeps every charged field. *)
Definition neutral (e e' : Entry) : Prop :=
  entry_key e' = entry_key e /\ record e' = record e /\ references e' = references e /\
  host e' = host e /\ ram_reserved e' = ram_reserved e /\ vram_reserved e' = vram_reserved e /\
  (ram_protected e' = ram_protected e \/ ram_reserved e = 0).

Local Ltac solve_neutral := split_and!; try reflexivity; left; reflexivity.

Lemma focus_set_entry g m k e f c :
  focus g m k e c -> neutral e (f e) -> focus g m k (f e) (c <| entries %= alter f k |>).
Proof.
  intros HF (Hkey & Hrec & Href & Hh & Hr & Hv & Hp). pose proof HF as (Hb & Hk & Hm).
  destruct (b_entry _ _ _ Hb _ _ Hk) as (_ & _ & ? & ?).
  eapply focus_edit; [done|apply same_ghost_refl| |exact (b_rooms_ok g (Some k) c Hb)].
  split; simpl; try done; rewrite ?Hr, ?Hv; try lia.
  - by apply alter_insert_existing.
  - split_and!; congruence || lia.
  - unfold protected_ram. rewrite Hr. destruct Hp as [Hp|Hp]; rewrite Hp; repeat case_match; lia.
  - unfold probationary_ram. rewrite Hr. destruct Hp as [Hp|Hp]; rewrite Hp; repeat case_match; lia.
  - intros p x Hx. exists x. split; [done|]. rewrite ?Hr. lia.
  - by rewrite Hh.
Qed.

Lemma wp_set_entry {B} g m k e f (K : unit -> ST (Core D) B) Q c :
  focus g m k e c -> neutral e (f e) ->
  (forall c', focus g m k (f e) c' -> wp (K tt) Q c') -> wp (bind (set_entry k f) K) Q c.
Proof. intros HF Hn HK. apply wp_bind, wp_modify, HK. by apply focus_set_entry. Qed.

Lemma elem_of_erase_key k j s l : s ∈ erase_key k l -> j ∈ s -> exists s', s' ∈ l /\ j ∈ s'.
Proof.
  unfold erase_key. intros (s' & -> & Hs)%list_elem_of_fmap Hj. exists s'. set_solver.
Qed.

Lemma elem_of_insert_key i k j s l :
  s ∈ insert_key i k l -> j ∈ s -> j = k \/ exists s', s' ∈ l /\ j ∈ s'.
Proof.
  unfold insert_key. intros (p & Hp)%list_elem_of_lookup_1 Hj.
  destruct (decide (p = i)) as [->|Hne].
  - rewrite list_lookup_alter_eq in Hp. destruct (l !! i) as [t|] eqn:Et; [|done].
    simpl in Hp. injection Hp as <-. apply elem_of_union in Hj as [Hj|Hj]; [left; set_solver|].
    right. exists t. split; [by eapply list_elem_of_lookup_2|done].
  - rewrite list_lookup_alter_ne in Hp by done. right. exists s.
    split; [by eapply list_elem_of_lookup_2|done].
Qed.

(** Refreshing the task indexes of a present entry. *)
Lemma refresh_quiet k e c :
  entries c !! k = Some e -> exists c', refresh_task_indexes_locked k c = Ok (tt, c') /\ quiet c c'.
Proof.
  intros Hk. unfold refresh_task_indexes_locked, bind, entry_at. rewrite Hk. simpl.
  set (c1 := c <| read_task_keys %= erase_key k |> <| upload_task_keys %= erase_key k |>).
  assert (H1 : quiet c c1).
  { split; try done. simpl. intros j s Hs Hj. right.
    apply elem_of_app in Hs as [Hs|Hs];
      destruct (elem_of_erase_key _ _ _ _ Hs Hj) as (s' & ? & ?); exists s'; set_solver. }
  destruct (_ || _); [by exists c1|].
  assert (Hins : forall f, f = (fun c : Core D =>
        c <| read_task_keys %= insert_key (priority_index (effective_priority_locked e)) k |>) \/
      f = (fun c : Core D =>
        c <| upload_task_keys %= insert_key (priority_index (effective_priority_locked e)) k |>) ->
    quiet c1 (f c1)).
  { intros f [->| ->]; (split; try done); simpl; intros j s Hs Hj;
      apply elem_of_app in Hs as [Hs|Hs];
      try (destruct (elem_of_insert_key _ _ _ _ _ Hs Hj) as [->|(s' & ? & ?)];
           [left; by rewrite Hk|right; exists s'; set_solver]);
      right; exists s; set_solver. }
  destruct (bool_decide (state e = absent)).
  { eexists. split; [done|]. eapply quiet_trans; [done|]. apply (Hins _ (or_introl eq_refl)). }
  destruct (_ && _); [|by exists c1].
  eexists. split; [done|]. eapply quiet_trans; [done|]. apply (Hins _ (or_intror eq_refl)).
Qed.

Lemma wp_refresh `{QuietStable P} k e Q c :
  entries c !! k = Some e -> P c -> (forall c', P c' -> Q tt c') ->
  wp (refresh_task_indexes_locked k) Q c.
Proof.
  intros Hk HP HQ. destruct (refresh_quiet k e c Hk) as (c' & E & Hq). unfold wp. rewrite E.
  apply HQ. by eapply quiet_stable.
Qed.

Lemma wp_assoc {A B E} (n : ST (Core D) A) (f : A -> ST (Core D) B) (h : B -> ST (Core D) E) Q c :
  wp (let* a := n in let* b := f a in h b) Q c -> wp (bind (bind n f) h) Q c.
Proof. unfold wp, bind. by destruct (n c) as [[a c']|]. Qed.

Lemma wp_unassoc {A B E} (n : ST (Core D) A) (f : A -> ST (Core D) B) (h : B -> ST (Core D) E) Q c :
  wp (bind (bind n f) h) Q c -> wp (let* a := n in let* b := f a in h b) Q c.
Proof. unfold wp, bind. by destruct (n c) as [[a c']|]. Qed.

Lemma wp_get_bind {B} (f : Core D -> ST (Core D) B) Q c : wp (f c) Q c -> wp (bind get f) Q c.
Proof. done. Qed.

Lemma wp_ret_bind {A B} (a : A) (f : A -> ST (Core D) B) Q c : wp (f a) Q c -> wp (bind (ret a) f) Q c.
Proof. done. Qed.

Lemma wp_modify_bind {B} h (K : unit -> ST (Core D) B) Q c :
  wp (K tt) Q (h c) -> wp (bind (modify h) K) Q c.
Proof. done. Qed.

Lemma wp_when_bind {B} (b : bool) n (K : unit -> ST (Core D) B) Q c :
  (b = true -> wp (n ;* K tt) Q c) -> (b = false -> wp (K tt) Q c) -> wp (bind (when b n) K) Q c.
Proof.
  destruct b; intros H1 H2; [|by apply H2]. specialize (H1 eq_refl).
  unfold wp, bind, when in *. by destruct (n c) as [[[] c']|].
Qed.

Lemma wp_bind_mono {A B} (n : ST (Core D) A) (K : A -> ST (Core D) B) (P : A -> Core D -> Prop) Q c :
  wp n P c -> (forall a c', P a c' -> wp (K a) Q c') -> wp (bind n K) Q c.
Proof. intros Hn HK. apply wp_bind. by eapply wp_mono. Qed.

Lemma wp_transition g m k e next (Q : unit -> Core D -> Prop) c :
  focus g m k e c -> valid_cache_transition (state e) next = true ->
  (forall c', focus g m k (e <| state := next |>) c' -> Q tt c') ->
  wp (transition_locked k next) Q c.
Proof.
  intros HF Hv HQ. unfold transition_locked. eapply wp_entry_at; [apply HF|]. rewrite Hv.
  eapply wp_quiet_focus; [done|]. intros c1 H1.
  eapply wp_set_entry; [exact H1|solve_neutral|]. intros c2 H2.
  eapply (wp_refresh (P := focus g m k (e <| state := next |>))); [apply H2|exact H2|exact HQ].
Qed.
End Quiet.

Tactic Notation "assoc" := repeat apply wp_assoc; cbn beta.

Ltac solve_neutral := split_and!; try reflexivity; left; reflexivity.

(** One step of a program on the entry in focus: [HF] is the focus hypothesis, renewed
    by the step. *)
Ltac fstep HF :=
  cbn beta;
  lazymatch goal with
  | |- wp (bind (bind _ _) _) _ _ => apply wp_assoc; fstep HF
  | |- wp (bind (ret _) _) _ _ => apply wp_ret_bind; cbn beta
  | |- wp (bind get _) _ _ => apply wp_get_bind; cbn beta
  | |- wp (bind (entry_at _) _) _ _ => eapply wp_entry_at; [apply HF|]; cbn beta
  | |- wp (bind (set_entry _ _) _) _ _ =>
      eapply wp_set_entry; [exact HF|solve_neutral|];
      let c' := fresh "c" in clear HF; intros c' HF
  | |- wp (bind (when ?b _) _) _ _ =>
      first [ eapply wp_quiet_focus; [exact HF|];
              let c' := fresh "c" in clear HF; intros c' HF
            | apply wp_when_bind; [let E := fresh "E" in intros E; cbn beta
                                  |let E := fresh "E" in intros E; cbn beta] ]
  | |- wp (bind _ _) _ _ =>
      eapply wp_quiet_focus; [exact HF|]; let c' := fresh "c" in clear HF; intros c' HF
  | |- wp (ret _) _ _ => apply wp_ret; cbn beta
  end.

(** The routine clauses of [edit]: fields the edit leaves alone. *)
Ltac solve_edit :=
  split; simpl; unfold protected_ram, probationary_ram in *; simpl; try done;
    try (by apply alter_insert_existing);
    try (by split_and!; first [done|lia]);
    try (repeat case_match; lia);
    try (intros ? x ?; exists x; split; [done|lia]).

(** [partition_for] looks at the configuration and the number of partitions. *)
Ltac same_partition k c :=
  repeat match goal with
  | H : context [partition_for k ?c'] |- _ => progress change (partition_for k c') with (partition_for k c) in H
  | |- context [partition_for k ?c'] => progress change (partition_for k c') with (partition_for k c)
  end.

(** Changes of fields the invariant does not mention. *)
Ltac solve_quiet :=
  split; simpl; try done; try (split; [done|by rewrite ?length_alter]);
  intros ? s ? ?; right; by exists s.

#[export] Hint Extern 1 (QuietProg (modify _)) =>
  apply quiet_modify; intros; solve_quiet : typeclass_instances.
