(* ===== verification/ExpertCachePrims.v ===== *)
(** What each primitive of [ExpertCache] does to the entry in focus: reservations,
    releases, references, the settling of promises, failing an entry. *)

From S2P Require Import Prelude Storage CacheState BufferPool.
From S2P Require Import ExpertRecord Telemetry Doubles ExpertCache.
From S2P Require Import ExpertCacheInv ExpertCacheSteps.

Section Prims.
Context {D : Type} `{DeviceDirectory D}.
Implicit Types (c : Core D) (g : Ghost) (e : Entry) (Q : unit -> Core D -> Prop).

(** ** Bytes *)

(** What the host and device releases leave of an entry. *)
Record keeps (e e' : Entry) : Prop := {
  k_key : entry_key e' = entry_key e;
  k_record : record e' = record e;
  k_references : references e' = references e;
  k_state : state e' = state e;
  k_waiters : waiters e' = waiters e;
  k_host_waiters : host_waiters e' = host_waiters e;
  k_preparing : preparing_host e' = preparing_host e;
  k_abandon : abandon e' = abandon e }.

Lemma keeps_refl e : keeps e e.
Proof. by split. Qed.

Lemma keeps_trans e1 e2 e3 : keeps e1 e2 -> keeps e2 e3 -> keeps e1 e3.
Proof. intros [] []. split; congruence. Qed.

Lemma wp_release_staging g m k e Q c :
  focus g m k e c -> (forall c', focus g m k (e <| host := None |>) c' -> Q tt c') ->
  wp (release_staging_locked k) Q c.
Proof.
  intros HF HQ. unfold release_staging_locked. eapply wp_entry_at; [apply HF|]. cbn beta.
  destruct (host e) as [l|] eqn:El; cycle 1.
  { apply wp_ret, HQ. destruct e; simpl in *. by subst. }
  pose proof HF as (Hb & Hk & Hm). destruct (b_entry _ _ _ Hb _ _ Hk) as (_ & _ & ? & ?).
  pose proof (b_pool _ _ _ Hb) as Hp.
  eapply pool_inv_perm in Hp; [|apply leases_delete, Hk]. rewrite El in Hp.
  destruct (release_lease_inv [] l _ _ Hp) as (p' & Hrel & Hp').
  unfold wp, bind, set_entry, modify. simpl. rewrite Hrel. apply HQ.
  eapply focus_edit; [exact HF|apply same_ghost_refl| |exact (b_rooms_ok g _ c Hb)].
  solve_edit.
Qed.

Lemma wp_release_staging_bind {B} g m k e (K : unit -> ST (Core D) B) R c :
  focus g m k e c -> (forall c', focus g m k (e <| host := None |>) c' -> wp (K tt) R c') ->
  wp (bind (release_staging_locked k) K) R c.
Proof. intros HF HK. apply wp_bind. by eapply wp_release_staging. Qed.

Lemma lookup_alter_partition (f : Z -> Z) (l : list Z) q p x :
  alter f q l !! p = Some x ->
  exists y : Z, l !! p = Some y /\ x = if bool_decide (q = p) then f y else y.
Proof.
  case_bool_decide as Hq.
  - subst. rewrite list_lookup_alter_eq. destruct (l !! p); simpl; [|done].
    intros [= <-]. by eexists.
  - rewrite list_lookup_alter_ne by done. by exists x.
Qed.

(** Reserving uses up the room a capacity check has established. *)
Definition no_ram_room (g : Ghost) : Ghost :=
  g <| g_ram_room := 0 |> <| g_protected_room := 0 |> <| g_probationary_room := 0 |>.
Definition no_vram_room (g : Ghost) : Ghost := g <| g_vram_room := 0 |>.

Lemma wp_reserve_ram g m k e (n : Z) (protected : bool) Q c :
  focus g m k e c -> ram_reserved e = 0 -> 0 <= n <= g_ram_room g ->
  n <= (if protected then g_protected_room g else g_probationary_room g) ->
  (forall c', focus (no_ram_room g) m k (e <| ram_protected := protected |> <| ram_reserved := n |>) c' ->
    Q tt c') ->
  wp (reserve_ram_locked k n protected) Q c.
Proof.
  intros HF He Hn Hc HQ. pose proof HF as (Hb & Hk & Hm).
  destruct (b_ram_bounds _ _ _ Hb) as (? & ? & Hsum & ? & ?).
  destruct (b_entry _ _ _ Hb _ _ Hk) as (_ & _ & ? & ?).
  pose proof (b_rooms _ _ _ Hb). pose proof (b_ram_high _ _ _ Hb).
  destruct (b_config_ok _ _ _ Hb) as ([_ Hhigh] & _).
  destruct (b_partition_for _ _ _ k Hb) as [Hpf _].
  unfold reserve_ram_locked, bind, set_entry, modify, wp. simpl.
  eapply HQ, focus_edit; [exact HF|by split_and!| |].
  - destruct protected; (split; simpl; unfold protected_ram, probationary_ram; simpl; rewrite ?He;
      try done; try (by split_and!; first [done|lia])); try (rewrite ?length_alter; done).
    all: try (eapply alter_insert_eq; [exact Hk|unfold update; simpl; f_equal; word_small; lia]).
    all: try (word_small; repeat case_match; lia).
    all: intros p x Hx; same_partition k c; rewrite Hpf in Hx.
    all: destruct (lookup_alter_partition _ _ _ _ _ Hx) as (y & Hy & ->); exists y; split; [done|].
    all: pose proof (b_partition_bounds _ _ _ _ _ Hb Hy); word_small; case_bool_decide; lia.
  - pose proof (b_classes _ _ _ Hb) as Hcl. pose proof (b_vram_high _ _ _ Hb).
    split_and!; simpl; try lia; destruct protected; simpl; word_small; try lia; try done.
    all: intros Hz; specialize (Hcl Hz); lia.
Qed.

Lemma wp_reserve_vram g m k e (n : Z) (resident : bool) Q c :
  focus g m k e c -> 0 <= n <= g_vram_room g ->
  (forall c', focus (no_vram_room g) m k
      (e <| vram_resident := resident |> <| vram_reserved := vram_reserved e + n |>) c' -> Q tt c') ->
  wp (reserve_vram_locked k n resident) Q c.
Proof.
  intros HF Hn HQ. pose proof HF as (Hb & Hk & Hm).
  destruct (b_ram_bounds _ _ _ Hb) as (_ & _ & _ & _ & ?).
  destruct (b_entry _ _ _ Hb _ _ Hk) as (_ & _ & ? & ?).
  destruct (b_share _ _ _ _ _ Hb Hk) as (_ & ? & _).
  pose proof (b_vram_high _ _ _ Hb). destruct (b_config_ok _ _ _ Hb) as (_ & [_ Hhigh] & _).
  unfold reserve_vram_locked, bind, set_entry, modify, wp. simpl.
  eapply HQ, focus_edit; [exact HF|by split_and!| |].
  - destruct resident; (split; simpl; unfold protected_ram, probationary_ram; simpl;
      try done; try (by split_and!; first [done|lia])); try (rewrite ?length_alter; done).
    all: try (eapply alter_insert_eq; [exact Hk|unfold update; simpl; f_equal; word_small; lia]).
    all: try (word_small; repeat case_match; lia).
    all: intros p x Hx; exists x; split; [done|lia].
  - pose proof (b_ram_high _ _ _ Hb). pose proof (b_classes _ _ _ Hb). pose proof (b_rooms _ _ _ Hb).
    split_and!; simpl; try lia; destruct resident; simpl; word_small; try lia; done.
Qed.

Lemma wp_discharge_ram g m k e n p Q c :
  focus g m k e c -> n = ram_reserved e -> p = ram_protected e ->
  (forall c', focus g m k (e <| ram_reserved := 0 |>) c' -> Q tt c') ->
  wp (discharge_ram k n p) Q c.
Proof.
  intros HF -> -> HQ. pose proof HF as (Hb & Hk & Hm).
  destruct (b_ram_bounds _ _ _ Hb) as (? & ? & Hsum & ? & ?).
  destruct (b_entry _ _ _ Hb _ _ Hk) as (_ & _ & ? & ?).
  destruct (b_share _ _ _ _ _ Hb Hk) as (? & _ & Hsp & Hsb & Hpart).
  unfold protected_ram in Hsp. unfold probationary_ram in Hsb.
  destruct (b_partition_for _ _ _ k Hb) as [Hpf _].
  unfold discharge_ram, bind, set_entry, modify, wp. simpl.
  eapply HQ, focus_edit; [exact HF|apply same_ghost_refl| |].
  - destruct (ram_protected e) eqn:Ep;
      (split; simpl; unfold protected_ram, probationary_ram; simpl; rewrite ?Ep;
       try done; try (by split_and!; first [done|lia])); try (rewrite ?length_alter; done).
    all: try (by apply alter_insert_existing).
    all: try (word_small; lia).
    all: intros p x Hx; same_partition k c; rewrite Hpf in Hx.
    all: destruct (lookup_alter_partition _ _ _ _ _ Hx) as (y & Hy & ->); exists y; split; [done|].
    all: pose proof (b_partition_bounds _ _ _ _ _ Hb Hy); case_bool_decide; [|lia].
    all: subst p; specialize (Hpart y Hy); word_small; lia.
  - pose proof (b_classes _ _ _ Hb) as Hcl. pose proof (b_vram_high _ _ _ Hb).
    pose proof (b_ram_high _ _ _ Hb). pose proof (b_rooms _ _ _ Hb).
    split_and!; simpl; try lia; destruct (ram_protected e); simpl; word_small; try lia; try done.
    all: intros Hz; specialize (Hcl Hz); lia.
Qed.

(** The bytes an entry gives back. *)
Lemma wp_release_host g m k e Q c :
  focus g m k e c ->
  (forall e' c', keeps e e' -> host e' = None -> host_copy e' = None -> ram_reserved e' = 0 ->
    device e' = device e -> vram_reserved e' = vram_reserved e ->
    vram_resident e' = vram_resident e -> focus g m k e' c' -> Q tt c') ->
  wp (release_host_locked k) Q c.
Proof.
  intros HF HQ. unfold release_host_locked. fstep HF.
  assert (Hrest : forall e1 c, keeps e e1 -> ram_reserved e1 = ram_reserved e ->
    ram_protected e1 = ram_protected e -> device e1 = device e ->
    vram_reserved e1 = vram_reserved e -> vram_resident e1 = vram_resident e ->
    focus g m k e1 c ->
    wp (release_staging_locked k ;*
        set_entry k (fun e => e <| host_copy := None |> <| validated_sections := None |>) ;*
        when (negb (ram_reserved e =? 0)) (discharge_ram k (ram_reserved e) (ram_protected e)) ;*
        set_entry k (fun e => e <| ram_protected := false |>) ;*
        when (negb (ram_protection_persistent e))
          (set_entry k (fun e => e <| ram_protected_requested := false |>))) Q c).
  { clear c HF. intros e1 c Hke Hr Hp Hd Hv Hvr HF.
    apply wp_bind. eapply wp_release_staging; [exact HF|]. clear c HF. intros c HF. fstep HF.
    assert (Hlast : forall e2 c, keeps e1 e2 -> host e2 = None -> host_copy e2 = None ->
      ram_reserved e2 = 0 -> device e2 = device e1 -> vram_reserved e2 = vram_reserved e1 ->
      vram_resident e2 = vram_resident e1 -> focus g m k e2 c ->
      wp (set_entry k (fun e => e <| ram_protected := false |>) ;*
          when (negb (ram_protection_persistent e))
            (set_entry k (fun e => e <| ram_protected_requested := false |>))) Q c).
    { clear c c0 HF. intros e2 c Hk2 Hh Hc Hr2 Hd2 Hv2 Hvr2 HF.
      eapply wp_set_entry; [exact HF|split_and!; try reflexivity; by right|]. clear c HF.
      intros c HF.
      assert (Hk3 : keeps e (e2 <| ram_protected := false |>)).
      { eapply keeps_trans; [exact Hke|]. eapply keeps_trans; [exact Hk2|]. by split. }
      apply wp_when; intros _.
      - apply wp_modify. eapply HQ; cycle -1; [apply focus_set_entry; [exact HF|solve_neutral]|..];
          simpl; try congruence. eapply keeps_trans; [exact Hk3|]. by split.
      - eapply HQ; cycle -1; [exact HF|..]; simpl; congruence || done. }
    apply wp_when_bind; intros E.
    - apply wp_bind. eapply wp_discharge_ram; [exact HF|by simpl..|].
      clear c c0 HF. intros c HF. cbn beta. eapply Hlast; cycle -1; [exact HF|done || by split..].
    - zbool. eapply Hlast; cycle -1; [exact HF|..]; simpl; congruence || by split. }
  apply wp_when_bind; intros E; [do 3 fstep HF|];
    (eapply Hrest; cycle -1; [exact HF|by (done || split)..]).
Qed.

(** Giving back [n] of the reserved VRAM bytes, in either order of the code. *)
Lemma vram_discharged g m k e n r c c' :
  focus g m k e c -> 0 <= n <= vram_reserved e ->
  discharge_vram k n r c = Ok (tt, c') ->
  focus g m k (e <| vram_reserved := vram_reserved e - n |>)
    (c' <| entries := <[k := e <| vram_reserved := vram_reserved e - n |>]> (entries c) |>) /\
  entries c' = entries c.
Proof.
  intros HF Hn E. pose proof HF as (Hb & Hk & Hm).
  destruct (b_ram_bounds _ _ _ Hb) as (_ & _ & _ & _ & ?).
  destruct (b_entry _ _ _ Hb _ _ Hk) as (_ & _ & ? & ?).
  destruct (b_share _ _ _ _ _ Hb Hk) as (_ & ? & _).
  injection E as <-. split; [|by destruct r].
  eapply focus_edit; [exact HF|apply same_ghost_refl| |].
  - destruct r; (split; simpl; unfold protected_ram, probationary_ram; simpl;
      try done; try (by split_and!; first [done|lia])); try (rewrite ?length_alter; done).
    all: try (word_small; repeat case_match; lia).
    all: intros p x Hx; exists x; split; [done|lia].
  - pose proof (b_ram_high _ _ _ Hb). pose proof (b_classes _ _ _ Hb). pose proof (b_rooms _ _ _ Hb).
    pose proof (b_vram_high _ _ _ Hb).
    split_and!; simpl; try lia; destruct r; simpl; word_small; try lia; done.
Qed.

Lemma discharge_vram_entries k n r c0 f :
  exists c', discharge_vram k n r c0 = Ok (tt, c') /\
    discharge_vram k n r (c0 <| entries %= f |>) = Ok (tt, c' <| entries %= f |>).
Proof. eexists. split; [done|]. by destruct r. Qed.

Lemma wp_release_device g m k e retired Q c :
  focus g m k e c ->
  (forall c', focus g m k (e <| device := None |> <| vram_reserved := 0 |>) c' -> Q tt c') ->
  wp (release_device_locked k retired) Q c.
Proof.
  intros HF HQ. unfold release_device_locked. fstep HF.
  assert (HR : forall c, focus g m k e c -> wp (set_entry k (fun e => e <| device := None |>) ;*
    when (negb (vram_reserved e =? 0)) (
      discharge_vram k (vram_reserved e) (vram_resident e) ;*
      set_entry k (fun e => e <| vram_reserved := 0 |>))) Q c); cycle 1.
  { apply wp_when_bind; intros _; [|by apply HR]. apply wp_modify_bind, HR.
    eapply focus_quiet; [|exact HF]. split; try done. intros j s Hs Hj. right. by exists s. }
  clear c HF. intros c HF. fstep HF. apply wp_when; intros E; cycle 1.
  - zbool. apply HQ. revert HF. destruct e; simpl in *. by subst.
  - destruct (b_entry _ _ _ (proj1 HF) _ _ (proj1 (proj2 HF))) as (_ & _ & _ & ?).
    simpl in *. destruct (discharge_vram_entries k (vram_reserved e) (vram_resident e) c0 id)
      as (c' & E' & _).
    destruct (vram_discharged _ _ _ _ (vram_reserved e) _ _ _ HF ltac:(simpl; lia) E') as [HF' He].
    unfold wp, bind. rewrite E'. simpl. apply HQ. revert HF'. simpl.
    rewrite Z.sub_diag.
    replace (c' <| entries %= alter (fun e => e <| vram_reserved := 0 |>) k |>)
      with (c' <| entries := <[k := e <| device := None |> <| vram_reserved := 0 |>]> (entries c0) |>);
      [done|].
    unfold update. simpl. f_equal. rewrite He. symmetry. eapply alter_insert_eq; [apply HF|done].
Qed.

Lemma wp_shrink_reservation g m k e n Q c :
  focus g m k e c -> 0 <= n ->
  (forall c', focus g m k (e <| vram_reserved := Z.min n (vram_reserved e) |>) c' -> Q tt c') ->
  wp (shrink_reservation k n) Q c.
Proof.
  intros HF Hn HQ. unfold shrink_reservation. fstep HF. apply wp_when; intros E; zbool; cycle 1.
  - apply HQ. rewrite Z.min_r by lia. by destruct e.
  - pose proof HF as (Hb & Hk & _). destruct (b_ram_bounds _ _ _ Hb) as (_ & _ & _ & _ & ?).
    destruct (b_share _ _ _ _ _ Hb Hk) as (_ & ? & _).
    assert (Er : sub64 (vram_reserved e) n = vram_reserved e - n) by (word_small; lia).
    rewrite Er. set (d := vram_reserved e - n).
    destruct (discharge_vram_entries k d (vram_resident e) c
      (alter (fun e => e <| vram_reserved %= fun r => sub64 r d |>) k)) as (c' & E1 & E2).
    destruct (vram_discharged _ _ _ _ d _ _ _ HF ltac:(lia) E1) as [HF' He].
    unfold wp, bind, set_entry, modify. rewrite E2. apply HQ.
    replace (Z.min n (vram_reserved e)) with (vram_reserved e - d) by lia.
    replace (c' <| entries %= alter (fun e => e <| vram_reserved %= fun r => sub64 r d |>) k |>)
      with (c' <| entries := <[k := e <| vram_reserved := vram_reserved e - d |>]> (entries c) |>);
      [done|].
    unfold update. simpl. f_equal. rewrite He. symmetry. eapply alter_insert_eq; [apply HF|].
    unfold update. simpl. f_equal. word_small; lia.
Qed.

(** ** References *)

Lemma quiet_directory f c : quiet c (c <| directory %= f |>).
Proof. solve_quiet. Qed.

Lemma quiet_reference_counters (a : Z -> Z) (b : Z -> Z -> Z) e (r : bool) :
  QuietProg (D := D) (
    modify (fun c => c <| vram_referenced_entries %= a |>
                       <| vram_referenced_bytes %= fun r => b r (vram_reserved e) |>) ;*
    when r (modify (fun c =>
      c <| vram_transient_referenced_bytes %= fun r => b r (vram_reserved e) |>)) ;*
    publish_referenced).
Proof.
  apply quiet_seq; [apply quiet_modify; intros; solve_quiet|]. apply quiet_seq; [|apply _].
  apply quiet_when, quiet_modify. intros. solve_quiet.
Qed.

(** [h] is the new list of leases: one more on [k], or one fewer. *)
Lemma wp_referenced g m k e n (held : list (ExpertKey * option DeviceAllocation)) rest Q c :
  focus g m k e c -> QuietProg rest ->
  n (references e) = held_count k held -> Z.of_nat (length held) <= U64_MAX ->
  (forall j, j <> k -> held_count j held = held_count j (g_held g)) ->
  (forall j x, j <> k -> (j, x) ∈ held -> (j, x) ∈ g_held g) ->
  (forall c', focus (g <| g_held := held |>) m k (e <| references %= n |>) c' -> Q tt c') ->
  wp (set_entry k (fun e => e <| references %= n |>) ;* rest) Q c.
Proof.
  intros HF Hq Hn Hlen Hcnt Hin HQ. apply wp_bind, wp_modify.
  set (c1 := c <| entries %= alter (fun e => e <| references %= n |>) k |>).
  destruct (Hq c1) as (c' & E & Q1). unfold wp. rewrite E. apply HQ.
  eapply focus_held; [exact HF| |done..]. revert Q1. unfold c1, update. simpl.
  by rewrite (alter_insert_existing _ k e) by apply HF.
Qed.

Lemma wp_add_reference g m k e o Q c :
  focus g m k e c -> Z.of_nat (length (g_held g)) < U64_MAX ->
  (forall c', focus (g <| g_held %= cons (k, o) |>) m k (e <| references %= inc64 |>) c' -> Q tt c') ->
  wp (add_reference_locked k) Q c.
Proof.
  intros HF Hlen HQ. unfold add_reference_locked. eapply wp_entry_at; [apply HF|]. cbn beta.
  pose proof (held_count_bound k (g_held g)).
  assert (Hr : references e = held_count k (g_held g)) by apply (b_references _ _ _ (proj1 HF) k e), HF.
  eapply (wp_referenced g m k e inc64 ((k, o) :: g_held g)); [exact HF| | | | | |exact HQ].
  - apply quiet_if; [apply quiet_ret|apply quiet_reference_counters].
  - rewrite held_count_cons, decide_True, Hr by done. word_small; lia.
  - simpl. lia.
  - intros j Hj. rewrite held_count_cons, decide_False by done. lia.
  - intros j a Hj [[= -> _]|?]%elem_of_cons; done.
Qed.

Lemma wp_remove_reference g m k e o held Q c :
  focus g m k e c -> g_held g ≡ₚ (k, o) :: held ->
  (forall c', focus (g <| g_held := held |>) m k (e <| references %= dec64 |>) c' -> Q tt c') ->
  wp (remove_reference_locked k) Q c.
Proof.
  intros HF Hp HQ. unfold remove_reference_locked. eapply wp_entry_at; [apply HF|]. cbn beta.
  pose proof (held_count_bound k held). pose proof (b_held_bound _ _ _ (proj1 HF)) as Hlen.
  assert (Hr : references e = held_count k held + 1).
  { rewrite (b_references _ _ _ (proj1 HF) k e), (held_count_perm _ _ _ Hp), held_count_cons,
      decide_True by (done || apply HF). lia. }
  assert (length (g_held g) = S (length held)) as Hl by (by rewrite Hp).
  rewrite (proj2 (Z.eqb_neq _ _)) by lia.
  eapply (wp_referenced g m k e dec64 held); [exact HF| | | | | |exact HQ].
  - apply quiet_if; [apply quiet_ret|apply quiet_reference_counters].
  - rewrite Hr. word_small; lia.
  - lia.
  - intros j Hj. rewrite (held_count_perm _ _ _ Hp), held_count_cons, decide_False by done. lia.
  - intros j a Hj Hin. rewrite Hp. by right.
Qed.

Lemma wp_refresh_focus g m k e Q c :
  focus g m k e c -> (forall c', focus g m k e c' -> Q tt c') ->
  wp (refresh_task_indexes_locked k) Q c.
Proof. intros HF HQ. eapply (wp_refresh (P := focus g m k e)); [apply HF|exact HF|exact HQ]. Qed.

(** ** Settling *)

Lemma focus_references g m k e c :
  focus g m k e c -> e <| references := held_count k (g_held g) |> = e.
Proof.
  intros HF. rewrite <- (b_references _ _ _ (proj1 HF) k e) by apply HF. by destruct e.
Qed.

Lemma wp_settle {B} g m k e s R (K : unit -> ST (Core D) B) (Q : B -> Core D -> Prop) c :
  focus g m k e c -> g_taken g ≡ₚ settlement_id s :: R ->
  (forall c', focus (g <| g_log %= fun l => l ++ [s] |> <| g_taken := R |>) m k e c' -> wp (K tt) Q c') ->
  wp (bind (settle s) K) Q c.
Proof. intros HF HR HK. apply wp_bind, wp_modify, HK. by apply focus_settle. Qed.

(** A loop that settles one promise per round: the invariant of one round is enough. *)
Lemma wp_settle_loop {A} (l : list A) body (s : A -> Settlement) g m k e (R : list Z) Q c :
  focus g m k e c -> g_taken g ≡ₚ (settlement_id ∘ s <$> l) ++ R ->
  Z.of_nat (length (grants (s <$> l) (g_held g))) <= U64_MAX ->
  (forall a g c R, a ∈ l -> g_taken g ≡ₚ settlement_id (s a) :: R ->
    Z.of_nat (length (grant (g_held g) (s a))) <= U64_MAX ->
    focus g m k (e <| references := held_count k (g_held g) |>) c ->
    wp (body a) (fun _ c => focus (settled_with g [s a] R) m k
      (e <| references := held_count k (grant (g_held g) (s a)) |>) c) c) ->
  (forall c', focus (settled_with g (s <$> l) R) m k
    (e <| references := held_count k (grants (s <$> l) (g_held g)) |>) c' -> Q tt c') ->
  wp (for_each l body) Q c.
Proof.
  intros HF. rewrite <- (focus_references _ _ _ _ _ HF) in HF. revert g c HF.
  induction l as [|a l IH]; intros g c HF HR Hlen Hbody HQ; simpl in *.
  - apply wp_ret, HQ. unfold settled_with, update. simpl. rewrite app_nil_r.
    by apply (focus_taken g).
  - apply wp_bind. eapply wp_mono.
    { eapply Hbody; [by left|exact HR| |exact HF]. change (Z.of_nat (length (grants (s <$> l)
        (grant (g_held g) (s a)))) <= U64_MAX) in Hlen.
      pose proof (length_grants (s <$> l) (grant (g_held g) (s a))). lia. }
    intros [] c1 HF1. cbn beta. eapply IH; [exact HF1|done|done| |].
    + intros b g' c' R' Hb. apply Hbody. by right.
    + intros c' HF'. apply HQ. revert HF'. unfold settled_with, update. simpl.
      by rewrite <- app_assoc.
Qed.

(** The ids of an entry, in the order the code settles them. *)
Lemma entry_ids_ordered e :
  entry_ids e ≡ₚ (ordered Z.ltb (waiters e)).*1 ++ (ordered Z.ltb (host_waiters e)).*1.
Proof. unfold entry_ids. by rewrite !ordered_perm. Qed.

Definition failed_settlements (e : Entry) (s : Status) : list Settlement :=
  ((fun w => AcquireSettled w.1 s None) <$> ordered Z.ltb (waiters e)) ++
  ((fun w => PreloadSettled w.1 s false None) <$> ordered Z.ltb (host_waiters e)).

Lemma grants_failed {A} (f : A -> Settlement) l held :
  (forall a h, grant h (f a) = h) -> grants (f <$> l) held = held.
Proof. intros Hf. revert held. induction l as [|a l IH]; intros held; simpl; [done|]. by rewrite Hf. Qed.

Lemma wp_fail_waiters g m k e s R Q c :
  focus g m k e c -> g_taken g ≡ₚ entry_ids e ++ R ->
  (forall c', focus (g <| g_log %= fun l => l ++ failed_settlements e s |> <| g_taken := R |>) m k
    (e <| waiters := ∅ |> <| host_waiters := ∅ |>) c' -> Q tt c') ->
  wp (fail_waiters_locked k s) Q c.
Proof.
  intros HF HR HQ. unfold fail_waiters_locked. fstep HF.
  pose proof (b_held_bound _ _ _ (proj1 HF)) as Hlen.
  pose proof (focus_references _ _ _ _ _ HF) as Er.
  rewrite entry_ids_ordered, <- app_assoc in HR.
  apply wp_bind. eapply (wp_settle_loop _ _ (fun w => AcquireSettled w.1 s None));
    [exact HF|exact HR|by rewrite grants_failed| |].
  { clear c HF. intros w g' c R' _ HR' _ HF. do 2 fstep HF.
    apply wp_modify, (focus_settle _ _ _ _ _ _ _ HF HR'). }
  clear c HF. intros c HF. rewrite grants_failed, Er in HF by done. fstep HF.
  apply wp_bind. eapply wp_settle_loop with (s := fun w => PreloadSettled w.1 s false None) (R := R);
    [exact HF|reflexivity|simpl; by rewrite !grants_failed| |].
  { clear c HF. intros w g' c R' _ HR' _ HF. do 2 fstep HF.
    apply wp_modify, (focus_settle _ _ _ _ _ _ _ HF HR'). }
  clear c HF. intros c HF. simpl in HF. rewrite !grants_failed in HF by done. fstep HF.
  assert (Ee : e <| waiters := ∅ |> <| references := held_count k (g_held g) |> <| host_waiters := ∅ |>
      = e <| waiters := ∅ |> <| host_waiters := ∅ |>) by (apply (f_equal references) in Er; simpl in Er; rewrite Er; by destruct e).
  rewrite Ee in HF. eapply wp_refresh_focus; [exact HF|]. clear c c0 c1 HF. intros c HF. apply HQ.
  revert HF. unfold settled_with, failed_settlements, update. simpl.
  by rewrite !grants_failed, <- !app_assoc.
Qed.

Lemma length_grants_le ss held :
  (length (grants ss held) <= length ss + length held)%nat.
Proof.
  revert held. induction ss as [|s ss IH]; intros held; simpl; [done|].
  etrans; [apply IH|]. destruct s as [? ? [[]|]|? ? ? [[]|]]; simpl; lia.
Qed.

Definition ready_settlements (k : ExpertKey) (e : Entry) (a : DeviceAllocation) : list Settlement :=
  (fun w => AcquireSettled w.1 success (Some (k, a))) <$> ordered Z.ltb (waiters e).

Lemma wp_satisfy_ready g m k e a R Q c :
  focus g m k e c -> device e = Some a -> g_taken g ≡ₚ (map_to_list (waiters e)).*1 ++ R ->
  Z.of_nat (length (g_held g)) + Z.of_nat (size (waiters e)) <= U64_MAX ->
  (forall c', focus (settled_with g (ready_settlements k e a) R) m k
    (e <| references := held_count k (grants (ready_settlements k e a) (g_held g)) |>
       <| waiters := ∅ |>) c' -> Q tt c') ->
  wp (satisfy_ready_waiters_locked k) Q c.
Proof.
  intros HF Ha HR Hlen HQ. unfold satisfy_ready_waiters_locked. fstep HF.
  assert (Hlen' : Z.of_nat (length (grants (ready_settlements k e a) (g_held g))) <= U64_MAX).
  { pose proof (length_grants_le (ready_settlements k e a) (g_held g)) as Hle.
    unfold ready_settlements in Hle at 2. rewrite length_fmap, ordered_length in Hle. lia. }
  rewrite <- (ordered_perm Z.ltb) in HR.
  apply wp_bind. eapply wp_settle_loop with (s := fun w => AcquireSettled w.1 success (Some (k, a)));
    [exact HF|exact HR|exact Hlen'| |].
  { clear c HF HR HQ. intros w g' c R' _ HR' Hl HF. fstep HF. simpl in Hl.
    apply wp_bind. eapply (wp_add_reference _ _ _ _ (Some a)); [exact HF|lia|].
    clear c c0 HF. intros c HF. rewrite Ha. apply wp_modify.
    apply (focus_settle _ _ _ _ _ (AcquireSettled w.1 success (Some (k, a))) R') in HF; [|exact HR'].
    revert HF. unfold settled_with, update. simpl. rewrite held_count_cons, decide_True by done.
    pose proof (held_count_bound k (g_held g')).
    replace (inc64 (held_count k (g_held g'))) with (held_count k (g_held g') + 1) by (word_small; lia).
    done. }
  clear c HF. intros c HF. cbn beta. fstep HF. eapply wp_refresh_focus; [exact HF|exact HQ].
Qed.

Definition host_lease (k : ExpertKey) (copy : list Z) (o : HostPreloadOptions) :
    option (ExpertKey * list Z) := if acquire_lease o then Some (k, copy) else None.

Definition host_settlements (k : ExpertKey) (e : Entry) (copy : list Z) : list Settlement :=
  (fun w => PreloadSettled w.1 success true (host_lease k copy w.2)) <$>
    ordered Z.ltb (host_waiters e).

Lemma wp_satisfy_host g m k e copy s R Q c :
  focus g m k e c -> host_copy e = Some copy -> validated_sections e = Some s ->
  g_taken g ≡ₚ (map_to_list (host_waiters e)).*1 ++ R ->
  Z.of_nat (length (g_held g)) + Z.of_nat (size (host_waiters e)) <= U64_MAX ->
  (forall c', focus (settled_with g (host_settlements k e copy) R) m k
    (e <| references := held_count k (grants (host_settlements k e copy) (g_held g)) |>
       <| host_preloaded := true |> <| host_waiters := ∅ |>) c' -> Q tt c') ->
  wp (satisfy_host_waiters_locked k) Q c.
Proof.
  intros HF Hc Hs HR Hlen HQ. unfold satisfy_host_waiters_locked. fstep HF. rewrite Hc, Hs.
  assert (Hlen' : Z.of_nat (length (grants (host_settlements k e copy) (g_held g))) <= U64_MAX).
  { pose proof (length_grants_le (host_settlements k e copy) (g_held g)) as Hle.
    unfold host_settlements in Hle at 2. rewrite length_fmap, ordered_length in Hle. lia. }
  rewrite <- (ordered_perm Z.ltb) in HR.
  apply wp_bind. eapply wp_settle_loop
    with (s := fun w => PreloadSettled w.1 success true (host_lease k copy w.2));
    [exact HF|exact HR|exact Hlen'| |].
  { clear c HF HR HQ. intros w g' c R' _ HR' Hl HF. fstep HF. unfold host_lease in *.
    apply wp_when_bind; intros Eb; rewrite Eb in *; simpl in Hl.
    - apply wp_bind. eapply (wp_add_reference _ _ _ _ None); [exact HF|lia|].
      clear c c0 HF. intros c HF. cbn beta.
      eapply wp_settle with (s := PreloadSettled w.1 success true (Some (k, copy)));
        [exact HF|exact HR'|].
      clear c HF. intros c HF. eapply (wp_quiet (P := focus _ _ _ _)); [exact HF|].
      clear c HF. intros c HF. revert HF. unfold settled_with, update. simpl.
      rewrite held_count_cons, decide_True by done. pose proof (held_count_bound k (g_held g')).
      replace (inc64 (held_count k (g_held g'))) with (held_count k (g_held g') + 1) by (word_small; lia).
      done.
    - eapply wp_settle with (s := PreloadSettled w.1 success true None); [exact HF|exact HR'|].
      clear c c0 HF. intros c HF. by eapply (wp_quiet (P := focus _ _ _ _)); [exact HF|]. }
  clear c HF. intros c HF. cbn beta. fstep HF. eapply wp_refresh_focus; [exact HF|exact HQ].
Qed.

(** Rejecting keeps the ids of the entry and the taken ids in step. *)
Lemma entry_ids_delete e id o :
  waiters e !! id = Some o -> entry_ids e ≡ₚ id :: entry_ids (e <| waiters %= delete id |>).
Proof.
  intros Hid. unfold entry_ids. simpl. by rewrite <- (map_to_list_delete _ _ _ Hid).
Qed.

Definition rejections (l : list (Z * ExpertAcquireOptions)) : list Settlement :=
  (fun w => AcquireSettled w.1
     (mkStatus backpressure "device admission is blocked by the current placement") None) <$> l.

Definition blocked_waiters (e : Entry) : list (Z * ExpertAcquireOptions) :=
  filter (fun w => fail_fast_on_device_admission w.2) (ordered Z.ltb (waiters e)).

Lemma wp_reject_loop g m k e R l Q c :
  focus g m k e c -> g_taken g ≡ₚ entry_ids e ++ R -> NoDup l.*1 ->
  (forall w, w ∈ l -> waiters e !! w.1 = Some w.2) ->
  (forall c' W T, W = erase_keys l.*1 (waiters e) ->
    T ≡ₚ entry_ids (e <| waiters := W |>) ++ R ->
    focus (g <| g_log %= fun x => x ++ rejections l |> <| g_taken := T |>) m k (e <| waiters := W |>) c' ->
    Q tt c') ->
  wp (for_each l (fun w =>
    record_waiter_completion (acquire_priority w.2) ;*
    record_waiter_failure (acquire_priority w.2) ;*
    settle (AcquireSettled w.1
      (mkStatus backpressure "device admission is blocked by the current placement") None) ;*
    set_entry k (fun e => e <| waiters %= delete w.1 |>) ;*
    count "device_admission_rejections_")) Q c.
Proof.
  revert g e c. induction l as [|w l IH]; intros g e c HF HR Hnd Hl HQ; simpl.
  - apply wp_ret. eapply HQ; [done| |]; [by destruct e|].
    apply (focus_taken g) with (R := g_taken g) in HF; [|done]. revert HF.
    unfold rejections, update. simpl. rewrite app_nil_r. by destruct e.
  - apply NoDup_cons in Hnd as [Hni Hnd].
    assert (Hw := Hl w ltac:(by left)). rewrite (entry_ids_delete _ _ _ Hw) in HR.
    do 2 fstep HF. apply wp_assoc. eapply wp_settle; [exact HF|exact HR|].
    clear c c0 c1 HF. intros c HF. do 2 fstep HF. cbn beta.
    eapply IH; [exact HF|done|done| |].
    + intros x Hx. simpl. rewrite lookup_delete_ne; [apply Hl; by right|].
      intros Heq. apply Hni. rewrite Heq. apply list_elem_of_fmap. by exists x.
    + intros c' W T HW HT HF'. apply (HQ c' W T HW HT). revert HF'. unfold update. simpl.
      by rewrite <- app_assoc.
Qed.

Lemma blocked_waiters_spec e :
  NoDup (blocked_waiters e).*1 /\ forall w, w ∈ blocked_waiters e -> waiters e !! w.1 = Some w.2.
Proof.
  unfold blocked_waiters. split.
  - eapply sublist_NoDup; [apply (ordered_keys_NoDup Z.ltb (waiters e))|].
    apply fmap_sublist, sublist_filter.
  - intros [id o] [_ Hin]%list_elem_of_filter. by apply elem_of_ordered in Hin.
Qed.

Lemma wp_reject_blocked g m k e R (Q : bool -> Core D -> Prop) c :
  focus g m k e c -> g_taken g ≡ₚ entry_ids e ++ R ->
  (forall b c' W T, W = erase_keys (blocked_waiters e).*1 (waiters e) ->
    T ≡ₚ entry_ids (e <| waiters := W |>) ++ R ->
    focus (g <| g_log %= fun x => x ++ rejections (blocked_waiters e) |> <| g_taken := T |>) m k
      (e <| waiters := W |>) c' -> Q b c') ->
  wp (reject_blocked_device_waiters_locked k) Q c.
Proof.
  intros HF HR HQ. unfold reject_blocked_device_waiters_locked. fstep HF.
  destruct (blocked_waiters_spec e) as [Hnd Hl]. fold (blocked_waiters e).
  apply wp_bind. eapply wp_reject_loop; [exact HF|exact HR|exact Hnd|exact Hl|].
  clear c HF. intros c W T HW HT HF. cbn beta. case_bool_decide.
  - apply wp_ret. by eapply HQ.
  - apply wp_bind. eapply wp_refresh_focus; [exact HF|]. clear c HF. intros c HF.
    apply wp_ret. by eapply HQ.
Qed.

(** ** Failing an entry *)

Lemma entry_ids_empty e : waiters e = ∅ -> host_waiters e = ∅ -> entry_ids e = [].
Proof. intros Hw Hh. unfold entry_ids. by rewrite Hw, Hh, !map_to_list_empty. Qed.

Lemma wp_fail_entry g m k e s R Q c :
  focus g m k e c -> g_taken g ≡ₚ entry_ids e ++ R ->
  (forall a, (k, Some a) ∉ g_held g) ->
  (forall e' c', entries c' !! k = Some e' -> state e' = failed ->
    base (g <| g_log %= fun l => l ++ failed_settlements e s |> <| g_taken := R |>) None c' ->
    Q tt c') ->
  wp (fail_entry_locked k s) Q c.
Proof.
  intros HF HR Hheld HQ. unfold fail_entry_locked. fstep HF.
  assert (Hrest : forall c, focus g m k (e <| state := failed |>) c ->
    wp (fail_waiters_locked k s ;* release_host_locked k ;* release_device_locked k false ;*
        set_entry k (fun e => e <| io_operation := 0 |> <| upload_operation := 0 |>) ;*
        update_usage_locked) Q c); cycle 1.
  { apply wp_when_bind; intros E.
    - apply wp_bind. eapply wp_transition; [exact HF| |exact Hrest].
      apply negb_true_iff, bool_decide_eq_false in E. by destruct (state e).
    - apply Hrest. revert HF. apply negb_false_iff, bool_decide_eq_true in E. destruct e.
      simpl in *. by subst. }
  clear c HF. intros c HF.
  apply wp_bind. eapply wp_fail_waiters; [exact HF|exact HR|]. clear c HF. intros c HF. cbn beta.
  apply wp_bind. eapply wp_release_host; [exact HF|]. clear c HF.
  intros e1 c [_ _ _ Ks Kw Kh _ _] Hh Hc Hr Hd Hv _ HF. simpl in *. cbn beta.
  apply wp_bind. eapply wp_release_device; [exact HF|]. clear c HF. intros c HF. cbn beta.
  fstep HF. eapply (wp_quiet (P := focus _ _ _ _)); [exact HF|]. clear c c0 HF. intros c HF.
  eapply HQ; [apply HF|done|].
  assert (HB : base (g <| g_log %= fun l => l ++ failed_settlements e s |> <| g_taken := R |>
      <| g_taken := R |>) None c); [|done].
  eapply focus_close; [exact HF| | | |done].
  - by rewrite entry_ids_empty.
  - split; unfold residency_ok, charges_ok, has_host_bytes; simpl; rewrite ?Ks, Hh, Hc; simpl.
    + by rewrite Kw, Kh.
    + by rewrite Hr.
  - intros a Ha. by destruct (Hheld a).
Qed.

End Prims.
