(* ===== verification/ExpertCacheEvict.v ===== *)
(** Eviction and capacity: what [evict_one_locked] may take, that its loops and the
    capacity loops end within their fuel, and the room the capacity checks make. *)

From S2P Require Import Prelude Storage CacheState BufferPool.
From S2P Require Import ExpertRecord Telemetry Doubles ExpertCache.
From S2P Require Import ExpertCacheInv ExpertCacheSteps ExpertCachePrims.

Section Evict.
Context {D : Type} `{DeviceDirectory D}.
Implicit Types (c : Core D) (g : Ghost) (e : Entry).

(** ** What eviction leaves alone *)

Definition unevictable (x : option ExpertKey) (k : ExpertKey) (e : Entry) : Prop :=
  x = Some k \/ references e <> 0 \/ has_waiters_locked e = true \/ preparing_host e = true \/
  state e = ssd_loading \/ state e = gpu_uploading \/ state e = failed.

Definition only_evicts (x : option ExpertKey) (c c' : Core D) : Prop :=
  forall k e, entries c !! k = Some e -> unevictable x k e -> entries c' !! k = Some e.

Lemma only_evicts_refl x c : only_evicts x c c.
Proof. by intros k e. Qed.

Lemma only_evicts_trans x c1 c2 c3 :
  only_evicts x c1 c2 -> only_evicts x c2 c3 -> only_evicts x c1 c3.
Proof. intros H1 H2 k e Hk Hu. apply H2; [by apply H1|done]. Qed.

Lemma only_evicts_quiet x c1 c2 c3 : only_evicts x c1 c2 -> quiet c2 c3 -> only_evicts x c1 c3.
Proof. intros H1 [He] k e Hk Hu. rewrite He. by apply H1. Qed.

#[export] Instance quiet_only_evicts x c : QuietStable (only_evicts x c).
Proof. intros c1 c2 Hq Ho. by eapply only_evicts_quiet. Qed.

(** A victim the scan did not skip. *)
Record victim (r : Eviction) (k : ExpertKey) (e : Entry) : Prop := {
  v_excluded : excluded r <> Some k;
  v_references : references e = 0;
  v_waiters : waiters e = ∅;
  v_host_waiters : host_waiters e = ∅;
  v_preparing : preparing_host e = false;
  v_state : state e <> ssd_loading /\ state e <> gpu_uploading /\ state e <> failed;
  v_useful : need_ram r && has_host_bytes e || need_vram r && is_some (device e) = true }.

Lemma has_waiters_false e : has_waiters_locked e = false <-> waiters e = ∅ /\ host_waiters e = ∅.
Proof.
  unfold has_waiters_locked. rewrite orb_false_iff, !negb_false_iff, !bool_decide_eq_true. done.
Qed.

Lemma unbarred_victim r busy c k e :
  victim_barred r busy c k e = false -> victim r k e /\ k ∉ busy.
Proof.
  unfold victim_barred. rewrite !orb_false_iff.
  intros ((((((((((((Hx & Hbusy) & Href) & Hw) & Hp) & Hs1) & Hs2) & Hs3) & _) & Huse) & _) & _) & _).
  apply has_waiters_false in Hw as [? ?]. apply negb_false_iff in Href, Huse.
  apply bool_decide_eq_false in Hbusy, Hs1, Hs2, Hs3.
  split; [split; try done|done].
  - intros He. rewrite He in Hx. by apply bool_decide_eq_false in Hx.
  - by apply Z.eqb_eq.
Qed.

Lemma victim_not_unevictable r k e : victim r k e -> ~ unevictable (excluded r) k e.
Proof.
  intros [] [?|[?|[Hw|[?|[?|[?|?]]]]]]; try naive_solver congruence.
  assert (has_waiters_locked e = false) by (by apply has_waiters_false). congruence.
Qed.

Lemma held_count_zero k held o : held_count k held = 0 -> (k, o) ∉ held.
Proof.
  unfold held_count. intros Hz Hin. assert (Hf : (k, o) ∈ filter (fun h => h.1 = k) held).
  { by apply list_elem_of_filter. }
  destruct (filter (fun h => h.1 = k) held); [by apply not_elem_of_nil in Hf|done].
Qed.

Lemma focus_frame g m k e c x :
  focus g m k e c -> forall c0 e0, m = delete k (entries c0) -> entries c0 !! k = Some e0 ->
  ~ unevictable x k e0 -> only_evicts x c0 c.
Proof.
  intros (_ & Hk & Hm) c0 e0 -> Hk0 Hu j w Hj Hw. destruct (decide (j = k)) as [->|Hne].
  - destruct Hu. congruence.
  - rewrite <- (lookup_delete_ne _ k) by congruence. rewrite Hm.
    by rewrite lookup_delete_ne by congruence.
Qed.

Lemma focus_copies g m k e c : focus g m k e c -> msum copies (entries c) = msum copies m + copies e.
Proof. intros (_ & Hk & <-). by apply msum_delete. Qed.

(** Evicting a victim: the entry stays consistent and loses at least one copy. *)
Lemma evict_close g c0 k e e' c r (Q : unit -> Core D -> Prop) :
  base g None c0 -> entries c0 !! k = Some e -> victim r k e ->
  (forall c', base g None c' -> only_evicts (excluded r) c0 c' ->
    msum copies (entries c') < msum copies (entries c0) -> Q tt c') ->
  focus g (delete k (entries c0)) k e' c ->
  waiters e' = ∅ -> host_waiters e' = ∅ -> entry_ok e' -> copies e' < copies e -> Q tt c.
Proof.
  intros Hb Hk Hv HQ HF Hw Hh Hok Hcp. apply HQ.
  - eapply focus_close_idle; [exact HF|done..| |].
    + intros a Ha. exfalso. revert Ha. apply held_count_zero.
      rewrite <- (b_references _ _ _ Hb k e Hk). apply Hv.
    + intros Hd. destruct (b_dead _ _ _ Hb k Hd) as (w & Hw' & Hf); [done|].
      destruct (v_state _ _ _ Hv) as (_ & _ & []). congruence.
  - eapply focus_frame; [exact HF|done|done|]. by apply victim_not_unevictable.
  - rewrite (focus_copies _ _ _ _ _ HF), (msum_delete copies _ _ _ Hk). lia.
Qed.

Lemma wp_quiet_end g m k e n (Q : unit -> Core D -> Prop) c :
  QuietProg n -> focus g m k e c -> (forall c', focus g m k e c' -> Q tt c') -> wp n Q c.
Proof. intros Hq. apply (wp_quiet (P := focus g m k e)). Qed.

(** The last steps of an eviction. *)
Lemma wp_evict_settle g m k e tail (Q : unit -> Core D -> Prop) c :
  QuietProg tail -> focus g m k e c -> charges_ok e ->
  (state e = vram_ready /\ is_Some (device e) /\
     (has_host_bytes e = true -> is_Some (validated_sections e)) \/
   device e = None /\ (has_host_bytes e = true -> is_Some (validated_sections e)) /\
     (state e = ram_ready \/ state e = absent /\ has_host_bytes e = false)) ->
  (forall e' c', focus g m k e' c' -> entry_ok e' -> waiters e' = waiters e ->
    host_waiters e' = host_waiters e -> copies e' = copies e -> Q tt c') ->
  wp (let* e := entry_at k in
      when (bool_decide (state e = ram_ready) && negb (has_host_bytes e))
        (transition_locked k absent) ;* tail) Q c.
Proof.
  intros Ht HF Hch Hst HQ. fstep HF. apply wp_when_bind; intros E.
  - apply andb_true_iff in E as [E1%bool_decide_eq_true E2%negb_true_iff].
    destruct Hst as [[? _]|(Hd & _ & _)]; [congruence|].
    apply wp_bind. eapply wp_transition; [exact HF|by rewrite E1|]. clear c HF. intros c HF.
    eapply wp_quiet_end; [done|exact HF|]. clear c HF. intros c HF.
    eapply HQ; [exact HF| |done..]. by split.
  - eapply wp_quiet_end; [done|exact HF|]. clear c HF. intros c HF.
    eapply HQ; [exact HF| |done..]. split; [|done]. unfold residency_ok.
    destruct Hst as [(-> & ? & ?)|(Hd & Hs & [Hr|[-> ?]])]; [done| |done].
    rewrite Hr, bool_decide_true in E by done. simpl in E. apply negb_false_iff in E.
    rewrite Hr. auto.
Qed.

Lemma wp_evict_device g m k e (nv : bool) tail (Q : unit -> Core D -> Prop) c :
  QuietProg tail -> focus g m k e c -> charges_ok e ->
  (has_host_bytes e = true -> is_Some (validated_sections e)) ->
  (state e = vram_ready /\ is_Some (device e) \/ state e = ram_ready /\ device e = None) ->
  (forall e' c', focus g m k e' c' -> entry_ok e' -> waiters e' = waiters e ->
    host_waiters e' = host_waiters e ->
    copies e' = (if has_host_bytes e then 1 else 0)
      + (if nv then 0 else if is_some (device e) then 1 else 0) -> Q tt c') ->
  wp (let* e := entry_at k in
      when (nv && is_some (device e)) (
        release_device_locked k true ;*
        let* e := entry_at k in
        when (bool_decide (state e = vram_ready))
          (transition_locked k (if has_host_bytes e then ram_ready else absent))) ;*
      let* e := entry_at k in
      when (bool_decide (state e = ram_ready) && negb (has_host_bytes e))
        (transition_locked k absent) ;* tail) Q c.
Proof.
  intros Ht HF Hch Hsec Hst HQ. fstep HF. apply wp_when_bind; intros E; cycle 1.
  - eapply wp_evict_settle; [done|exact HF|done| |].
    + destruct Hst as [[? ?]|[? ?]]; [left|right]; auto.
    + clear c HF. intros e' c HF Hok Hw Hh Hc. eapply HQ; [exact HF|done..|]. rewrite Hc.
      unfold copies. destruct nv; [|done]. simpl in E. by rewrite E.
  - apply andb_true_iff in E as [-> Hdev]. destruct Hst as [[Hs _]|[_ Hd]]; [|by rewrite Hd in Hdev].
    apply wp_assoc, wp_bind. eapply wp_release_device; [exact HF|]. clear c HF. intros c HF. cbn beta.
    apply wp_assoc. fstep HF. rewrite bool_decide_true by done. simpl. apply wp_bind.
    eapply wp_transition; [exact HF|simpl; rewrite Hs; by destruct (has_host_bytes _)|].
    clear c HF. intros c HF. cbn beta.
    eapply wp_evict_settle; [done|exact HF| | |].
    + destruct Hch as [Hr _]. by split.
    + right. split_and!; [done|exact Hsec|]. simpl.
      change (has_host_bytes (e <| device := None |> <| vram_reserved := 0 |>)) with (has_host_bytes e).
      destruct (has_host_bytes e) eqn:Eb; [by left|right]. split; [done|exact Eb].
    + clear c HF. intros e' c HF Hok Hw Hh Hc. eapply HQ; [exact HF|done..|]. by rewrite Hc.
Qed.

Lemma wp_evict_entry g c0 r k e x (Q : unit -> Core D -> Prop) :
  base g None c0 -> entries c0 !! k = Some e -> victim r k e ->
  (forall c', base g None c' -> only_evicts (excluded r) c0 c' ->
    msum copies (entries c') < msum copies (entries c0) -> Q tt c') ->
  wp (evict_entry r k x) Q c0.
Proof.
  intros Hb Hk Hv HQ.
  pose proof (focus_open_idle _ _ _ _ Hb Hk (v_waiters _ _ _ Hv) (v_host_waiters _ _ _ Hv)) as HF.
  pose proof (fun e' c => evict_close g c0 k e e' c r Q Hb Hk Hv HQ) as Hclose.
  destruct (b_ok _ _ _ Hb k e Hk) as [Hres Hch]; [done|].
  destruct Hv as [_ Href Hw Hh Hp (Hs1 & Hs2 & Hs3) Huse].
  unfold evict_entry. fstep HF.
  set (tail := count "eviction_count_" ;* _). assert (Ht : QuietProg tail) by (unfold tail; apply _).
  clearbody tail. clear HQ Hb Hk.
  assert (Hst : (has_host_bytes e = true -> is_Some (validated_sections e)) /\
    (state e = vram_ready /\ is_Some (device e) \/ state e = ram_ready /\ device e = None)).
  { unfold residency_ok in Hres. destruct (state e); try done.
    - destruct Hres as [Hn Hd]. by rewrite Hn, Hd, !andb_false_r in Huse.
    - destruct Hres as (_ & ? & ?). auto.
    - destruct Hres as [? ?]. auto. }
  destruct Hst as [Hsec Hst]. apply wp_when_bind; intros E.
  - apply andb_true_iff in E as [Er Eb]. apply wp_bind. eapply wp_release_host; [exact HF|].
    clear HF. intros e1 c [_ _ _ Ks Kw Kh _ _] Hh1 Hc1 Hr1 Hd1 Hv1 _ HF. cbn beta.
    assert (Hb1 : has_host_bytes e1 = false) by (unfold has_host_bytes; by rewrite Hh1, Hc1).
    eapply wp_evict_device; [done|exact HF| |by rewrite Hb1|by rewrite Ks, Hd1|].
    + split; [by rewrite Hb1, Hr1|]. intros a. rewrite Hd1, Hv1. apply Hch.
    + clear c HF. intros e' c HF Hok Hw' Hh' Hc. eapply Hclose; [exact HF|congruence..|done|].
      rewrite Hc, Hb1, Hd1. unfold copies. rewrite Eb. destruct (need_vram r), (is_some (device e)); lia.
  - rewrite E in Huse. simpl in Huse. apply andb_true_iff in Huse as [Env Ed].
    eapply wp_evict_device; [done|exact HF|done..|]. clear HF. intros e' c HF Hok Hw' Hh' Hc.
    eapply Hclose; [exact HF|congruence..|done|]. rewrite Hc, Env. unfold copies. rewrite Ed. lia.
Qed.

(** ** Choosing the victim *)

Lemma better_victim_trans r c a b d :
  better_victim r c a b = true -> better_victim r c b d = true -> better_victim r c a d = true.
Proof.
  unfold better_victim.
  generalize (temperature_locked a.2) (temperature_locked b.2) (temperature_locked d.2)
    (victim_excess r c a.1) (victim_excess r c b.1) (victim_excess r c d.1)
    (last_access a.2) (last_access b.2) (last_access d.2).
  intros ta tb td xa xb xd la lb ld.
  rewrite !orb_true_iff, !andb_true_iff, !orb_true_iff, !andb_true_iff, !orb_true_iff,
    !andb_true_iff, !Z.ltb_lt, !Z.eqb_eq, !Z.gtb_gt.
  pose proof (key_ltb_trans a.1 b.1 d.1). intuition lia.
Qed.

Lemma better_victim_irrefl r c a : better_victim r c a a = false.
Proof.
  unfold better_victim. rewrite !Z.ltb_irrefl, Z.gtb_ltb, Z.ltb_irrefl, key_ltb_irrefl.
  by rewrite !andb_false_r.
Qed.

Lemma better_victim_asym r c a b : better_victim r c a b = true -> better_victim r c b a = false.
Proof.
  intros H1. destruct (better_victim r c b a) eqn:H2; [|done].
  pose proof (better_victim_trans _ _ _ _ _ H1 H2) as H3. by rewrite better_victim_irrefl in H3.
Qed.

Definition scan_step r busy c (best : option (ExpertKey * Entry)) (ke : ExpertKey * Entry) :=
  if victim_eligible r busy c ke.1 ke.2 then
    match best with
    | None => Some ke
    | Some b => if better_victim r c ke b then Some ke else best
    end
  else best.

Lemma scan_fold r busy c l best :
  (forall b, best = Some b -> victim_eligible r busy c b.1 b.2 = true) ->
  match foldl (scan_step r busy c) best l with
  | None => best = None /\ forall x, x ∈ l -> victim_eligible r busy c x.1 x.2 = false
  | Some v =>
      victim_eligible r busy c v.1 v.2 = true /\ (v ∈ l \/ best = Some v) /\
      (forall b, best = Some b -> v = b \/ better_victim r c v b = true) /\
      forall x, x ∈ l -> victim_eligible r busy c x.1 x.2 = true ->
        better_victim r c x v = false
  end.
Proof.
  revert best. induction l as [|a l IH]; intros best Hb; simpl.
  - destruct best as [b|]; [|by split; [|intros x ?%not_elem_of_nil]].
    split_and!; [by apply Hb|by right|intros ? [= ->]; by left|by intros x ?%not_elem_of_nil].
  - assert (Hb' : forall b, scan_step r busy c best a = Some b -> victim_eligible r busy c b.1 b.2 = true).
    { unfold scan_step. destruct (victim_eligible r busy c a.1 a.2) eqn:Ea; [|done].
      destruct best as [b|]; [|by intros ? [= ->]]. case_match; [by intros ? [= ->]|done]. }
    specialize (IH _ Hb'). destruct (foldl _ _ l) as [v|].
    + destruct IH as (Hv & Hin & Hbest & Hl).
      assert (Ha : victim_eligible r busy c a.1 a.2 = true -> better_victim r c a v = false).
      { intros Ea. unfold scan_step in Hbest. rewrite Ea in Hbest.
        destruct best as [b|]; [destruct (better_victim r c a b) eqn:Eab|].
        - destruct (Hbest a eq_refl) as [->|Hva]; [apply better_victim_irrefl|].
          by apply better_victim_asym.
        - destruct (better_victim r c a v) eqn:Eav; [|done].
          destruct (Hbest b eq_refl) as [->|Hvb]; [congruence|].
          pose proof (better_victim_trans _ _ _ _ _ Eav Hvb). congruence.
        - destruct (Hbest a eq_refl) as [->|Hva]; [apply better_victim_irrefl|].
          by apply better_victim_asym. }
      split_and!; [done| | |intros x [->|Hx]%elem_of_cons; auto].
      * destruct Hin as [?|Hin]; [left; by right|]. unfold scan_step in Hin.
        repeat case_match; simplify_eq; auto; left; by left.
      * intros b ->. unfold scan_step in Hbest.
        destruct (victim_eligible r busy c a.1 a.2); [|by apply Hbest].
        destruct (better_victim r c a b) eqn:Eab; [|by apply Hbest]. right.
        destruct (Hbest a eq_refl) as [->|Hva]; [done|]. by eapply better_victim_trans.
    + destruct IH as [Hn Hl]. unfold scan_step in Hn.
      destruct (victim_eligible r busy c a.1 a.2) eqn:Ea.
      * destruct best as [b|]; [|done]. by case_match.
      * split; [done|]. intros x [->|?]%elem_of_cons; auto.
Qed.

(** The scan finds an eligible entry that no eligible entry beats, or there is none. *)
Lemma scan_victims_spec r busy c :
  match scan_victims r busy c with
  | None => forall k e, entries c !! k = Some e -> victim_eligible r busy c k e = false
  | Some (k, e) =>
      entries c !! k = Some e /\ victim_eligible r busy c k e = true /\
      forall k' e', entries c !! k' = Some e' -> victim_eligible r busy c k' e' = true ->
        better_victim r c (k', e') (k, e) = false
  end.
Proof.
  pose proof (scan_fold r busy c (ordered key_ltb (entries c)) None ltac:(done)) as Hs.
  change (scan_victims r busy c) with
    (foldl (scan_step r busy c) None (ordered key_ltb (entries c))).
  destruct (foldl _ _ _) as [[k e]|].
  - destruct Hs as (He & [Hin|?] & _ & Hbest); [|done]. split_and!; [by apply elem_of_ordered in Hin|done|].
    intros k' e' Hk' He'. apply (Hbest (k', e')); [|done]. by apply elem_of_ordered.
  - destruct Hs as [_ Hn]. intros k e Hk. apply (Hn (k, e)). by apply elem_of_ordered.
Qed.

Lemma eligible_victim r busy c k e :
  victim_eligible r busy c k e = true -> victim r k e /\ k ∉ busy.
Proof.
  unfold victim_eligible. rewrite !andb_true_iff, negb_true_iff. intros [[Hb _] _].
  by eapply unbarred_victim.
Qed.

Lemma wp_try_retire k (Q : bool -> Core D -> Prop) c :
  (forall b c', quiet c c' -> Q b c') -> wp (try_retire k) Q c.
Proof.
  intros HQ. unfold wp, try_retire. destruct (directory c) as [d|]; [|apply HQ, quiet_refl].
  destruct (dir_try_retire k d) as [b d']. apply HQ. solve_quiet.
Qed.

(** A state the entries of [c0] still describe. *)
Definition based (g : Ghost) (c0 c : Core D) : Prop := base g None c /\ entries c = entries c0.

#[local] Instance quiet_based g c0 : QuietStable (based g c0).
Proof. intros c c' Hq [Hb He]. split; [by eapply base_quiet|]. by rewrite (q_entries _ _ Hq). Qed.

(** The loop of [evict_one_locked]: every round without an eviction makes one more
    entry busy, so the rounds do not outnumber the entries. *)
Lemma wp_evict_loop g c0 r fuel busy (Q : bool -> Core D -> Prop) c :
  based g c0 c -> busy ⊆ dom (entries c0) ->
  (size (dom (entries c0)) < fuel + size busy)%nat ->
  (forall b c', base g None c' -> only_evicts (excluded r) c0 c' ->
    msum copies (entries c') <= msum copies (entries c0) ->
    (b = true -> msum copies (entries c') < msum copies (entries c0)) -> Q b c') ->
  wp (evict_loop fuel r busy) Q c.
Proof.
  revert busy c. induction fuel as [|fuel IH]; intros busy c Hb Hsub Hfuel HQ.
  { apply subseteq_size in Hsub. lia. }
  simpl. apply wp_get_bind. pose proof (scan_victims_spec r busy c) as Hscan.
  eapply (wp_quiet_bind (P := based g c0)); [exact Hb|]. intros c1 Hb1.
  eapply (wp_quiet_bind (P := based g c0)); [exact Hb1|]. clear c1 Hb1. intros c1 Hb1.
  destruct (scan_victims r busy c) as [[k e]|]; cycle 1.
  { apply wp_ret. destruct Hb1 as [Hb1 He]. apply HQ; rewrite ?He; try done.
    intros j w. by rewrite He. }
  destruct Hscan as (Hk & Hv & _). destruct (eligible_victim _ _ _ _ _ Hv) as [Hvic Hnb].
  rewrite (proj2 Hb) in Hk.
  apply wp_bind. assert (Hafter : forall (b : bool) c1, based g c0 c1 ->
    wp (if b then evict_entry r k (victim_excess r c k) ;* ret true
        else count "eviction_retire_retries_" ;* evict_loop fuel r ({[k]} ∪ busy)) Q c1); cycle 1.
  { destruct (need_vram r && is_some (device e)); [|by apply (Hafter true)].
    apply wp_try_retire. intros b c2 Hq. apply Hafter. by eapply (quiet_stable (P := based g c0)). }
  clear Hb Hv c1 Hb1. intros b c1 [Hb He]. destruct b.
  - apply wp_bind. rewrite <- He in Hk. eapply wp_evict_entry; [exact Hb|exact Hk|exact Hvic|].
    intros c' Hb' Ho Hlt. apply wp_ret. unfold only_evicts in *. rewrite He in Ho, Hlt.
    apply HQ; [done|done|lia|done].
  - eapply (wp_quiet_bind (P := based g c0)); [by split|]. clear c1 Hb He. intros c1 Hb.
    apply IH; [done| | |exact HQ].
    + apply elem_of_dom_2 in Hk. set_solver.
    + rewrite size_union by set_solver. rewrite size_singleton. lia.
Qed.

(** [evict_one_locked] always returns; it keeps the invariant, touches only entries
    nobody uses, and leaves less to evict when it reports success. *)
Lemma wp_evict_one g r (Q : bool -> Core D -> Prop) c :
  base g None c ->
  (forall b c', base g None c' -> only_evicts (excluded r) c c' ->
    msum copies (entries c') <= msum copies (entries c) ->
    (b = true -> msum copies (entries c') < msum copies (entries c)) -> Q b c') ->
  wp (evict_one_locked r) Q c.
Proof.
  intros Hb HQ. unfold evict_one_locked. apply wp_get_bind.
  eapply (wp_evict_loop g c); [by split|set_solver| |done].
  rewrite size_dom, size_empty. lia.
Qed.

(** ** Loops that evict until there is room *)

Lemma copies_total (m : gmap ExpertKey Entry) : msum copies m < Z.of_nat (S (2 * size m)).
Proof.
  enough (msum copies m <= 2 * Z.of_nat (size m)) by lia.
  induction m as [|k e m Hk IH] using map_ind; [by rewrite msum_empty|].
  rewrite msum_insert_new, map_size_insert_None by done. unfold copies at 2.
  repeat case_match; lia.
Qed.

Lemma copies_nonneg (m : gmap ExpertKey Entry) : 0 <= msum copies m.
Proof. apply msum_nonneg. intros. unfold copies. repeat case_match; lia. Qed.

(** What one attempt may do. *)
Definition attempt_ok g k (n : ST (Core D) bool) c : Prop :=
  forall Q : bool -> Core D -> Prop,
  (forall b c', base g None c' -> only_evicts (Some k) c c' ->
    msum copies (entries c') <= msum copies (entries c) ->
    (b = true -> msum copies (entries c') < msum copies (entries c)) -> Q b c') ->
  wp n Q c.

Lemma attempt_evict g k r c :
  base g None c -> excluded r = Some k -> attempt_ok g k (evict_one_locked r) c.
Proof. intros Hb He Q HQ. eapply wp_evict_one; [exact Hb|]. by rewrite He. Qed.

Lemma attempt_ret g k c : base g None c -> attempt_ok g k (ret false) c.
Proof. intros Hb Q HQ. apply wp_ret, HQ; [done|apply only_evicts_refl|done|done]. Qed.

(** A second attempt when the first fails. *)
Lemma attempt_or g k n1 n2 c :
  attempt_ok g k n1 c -> (forall c', base g None c' -> attempt_ok g k n2 c') ->
  attempt_ok g k (let* b := n1 in if b then ret true else n2) c.
Proof.
  intros H1 H2 Q HQ. apply wp_bind, H1. intros b c1 Hb1 Ho1 Hle1 Hlt1. destruct b.
  - apply wp_ret, HQ; auto.
  - apply H2; [done|]. intros b c2 Hb2 Ho2 Hle2 Hlt2.
    apply HQ; [done|by eapply only_evicts_trans|lia|]. intros Hb. specialize (Hlt2 Hb). lia.
Qed.

Lemma wp_room_loop {g k} (cond : Core D -> bool) (try : Core D -> ST (Core D) bool)
    (loop : nat -> ST (Core D) bool) :
  (forall fuel (Q : bool -> Core D -> Prop) c,
    wp (if cond c then let* b := try c in
          if b then loop fuel else count "stalled_by_budget_" ;* ret false
        else ret true) Q c -> wp (loop (S fuel)) Q c) ->
  (forall c, base g None c -> attempt_ok g k (try c) c) ->
  forall fuel c (Q : bool -> Core D -> Prop),
  base g None c -> msum copies (entries c) < Z.of_nat fuel ->
  (forall b c', base g None c' -> only_evicts (Some k) c c' ->
    msum copies (entries c') <= msum copies (entries c) -> (b = true -> cond c' = false) -> Q b c') ->
  wp (loop fuel) Q c.
Proof.
  intros Hloop Htry. induction fuel as [|fuel IH]; intros c Q Hb Hf HQ.
  { pose proof (copies_nonneg (entries c)). lia. }
  apply Hloop. destruct (cond c) eqn:Ec; [|apply wp_ret, HQ; [done|apply only_evicts_refl|done..]].
  apply wp_bind, (Htry c Hb). intros b c1 Hb1 Ho1 Hle Hlt. destruct b.
  - apply IH; [done|specialize (Hlt eq_refl); lia|]. intros b c2 Hb2 Ho2 Hle2 Hc2.
    apply HQ; [done|by eapply only_evicts_trans|lia|done].
  - eapply (wp_quiet_bind (P := fun c' => (base g None c' /\ only_evicts (Some k) c c') /\
      entries c' = entries c1)); [by split_and!|]. intros c2 [[Hb2 Ho2] He].
    apply wp_ret, HQ; [done..|by rewrite He|done].
Qed.

(** ** The capacity checks *)

Implicit Types (Q : bool -> Core D -> Prop).

Lemma wp_make_partition g k n c Q :
  base g None c ->
  (forall b c', base g None c' -> only_evicts (Some k) c c' -> Q b c') ->
  wp (make_partition_capacity_locked n k) Q c.
Proof.
  intros Hb HQ. pose proof (only_evicts_refl (Some k) c).
  unfold make_partition_capacity_locked. apply wp_get_bind.
  destruct (_ =? 1); [by apply wp_ret, HQ|]. destruct (n >? _); [by apply wp_ret, HQ|].
  set (limit := add64 _ _).
  eapply (wp_room_loop (fun c => add64 (at_partition (ram_partition_bytes c) (partition_for k c)) n >? limit)
    (fun c => evict_one_locked (mkEviction true false (Some k) (Some (partition_for k c)) false None None None))
    (fun fuel => partition_loop fuel n limit k)).
  - done.
  - intros c' Hb'. by apply attempt_evict.
  - done.
  - apply copies_total.
  - intros b c' Hb' Ho _ _. by apply HQ.
Qed.

(** The room for [n] more bytes of RAM, in one of the classes. *)
Definition class_room (n : Z) (protected : bool) (g : Ghost) : Ghost :=
  if protected then g <| g_protected_room := n |> else g <| g_probationary_room := n |>.

Definition roomless (g : Ghost) : Prop :=
  g_ram_room g = 0 /\ g_protected_room g = 0 /\ g_probationary_room g = 0 /\ g_vram_room g = 0.

Lemma class_room_same n (p : bool) g : same_ghost g (class_room n p g).
Proof. by destruct p. Qed.

Lemma wp_make_ram_class g k (n : Z) (protected : bool) c Q :
  base g None c -> roomless g -> 0 <= n ->
  (forall (b : bool) c', base (if b then class_room n protected g else g) None c' ->
    only_evicts (Some k) c c' -> Q b c') ->
  wp (make_ram_class_capacity_locked n k protected) Q c.
Proof.
  intros Hb (R1 & R2 & R3 & R4) Hn HQ. pose proof (only_evicts_refl (Some k) c).
  assert (Hgrow : forall c', base g None c' ->
    (placement_ram_protected_bytes (placement (g_cfg g)) <> 0 -> n <> 0 ->
      ram_class_usage protected c' + n <=
        if protected then protected_limit (g_cfg g) else probationary_limit (g_cfg g)) ->
    base (class_room n protected g) None c').
  { intros c' Hb' Hn'. eapply base_rooms; [apply class_room_same| |exact Hb'].
    pose proof (b_ram_high _ _ _ Hb'). pose proof (b_classes _ _ _ Hb') as Hcl.
    pose proof (b_vram_high _ _ _ Hb'). unfold rooms_ok, class_room.
    rewrite ?R1, ?R2, ?R3, ?R4 in *. unfold ram_class_usage in Hn'.
    destruct protected; simpl; (split_and!; [lia..| |lia]); intros Hz; specialize (Hcl Hz);
      specialize (Hn' Hz); destruct (decide (n = 0)) as [->|Hnz]; try specialize (Hn' Hnz); lia. }
  unfold make_ram_class_capacity_locked. apply wp_get_bind. rewrite (b_config _ _ _ Hb).
  destruct ((n =? 0) || _) eqn:E0.
  { apply wp_ret, HQ; [|done]. apply Hgrow; [done|]. intros Hz Hnz.
    apply orb_true_iff in E0 as [E0|E0]; zbool; lia. }
  zbool. assert (Hlim : ram_class_limit protected c =
    if protected then protected_limit (g_cfg g) else probationary_limit (g_cfg g)).
  { unfold ram_class_limit. rewrite (b_config _ _ _ Hb). destruct protected; [done|].
    destruct (b_config_ok _ _ _ Hb) as (? & _ & ? & _). unfold probationary_limit. word_small; lia. }
  rewrite Hlim. destruct (n >? _) eqn:En; [by apply wp_ret, HQ|]. zbool.
  set (limit := if protected then _ else _) in *.
  assert (Hl : limit < 2 ^ 63).
  { destruct (b_config_ok _ _ _ Hb) as (? & _ & ? & _). unfold limit, protected_limit, probationary_limit.
    destruct protected; lia. }
  eapply (wp_room_loop (fun c => add64 (ram_class_usage protected c) n >? limit)
    (fun c => evict_one_locked (mkEviction true false (Some k) None false None None (Some protected)))
    (fun fuel => ram_class_loop fuel n limit k protected)).
  - done.
  - intros c' Hb'. by apply attempt_evict.
  - exact Hb.
  - apply copies_total.
  - intros b c' Hb' Ho _ Hc. apply HQ; [|done]. destruct b; [|done]. specialize (Hc eq_refl).
    apply Hgrow; [done|]. intros _ _.
    destruct (b_ram_bounds _ _ _ Hb') as (? & ? & ? & ? & ?). zbool. revert Hc.
    unfold ram_class_usage. destruct protected; word_small; lia.
Qed.

Lemma wp_make_vram_class g k (n : Z) (resident : bool) (t : Z) c Q :
  base g None c ->
  (forall b c', base g None c' -> only_evicts (Some k) c c' -> Q b c') ->
  wp (make_vram_class_capacity_locked n k resident t) Q c.
Proof.
  intros Hb HQ. pose proof (only_evicts_refl (Some k) c).
  unfold make_vram_class_capacity_locked. apply wp_get_bind.
  destruct (n =? 0); [by apply wp_ret, HQ|]. set (al := if _ && _ then Some t else None).
  destruct (n >? _); [by apply wp_ret, HQ|]. set (limit := vram_class_limit resident c).
  clearbody al limit.
  eapply (wp_room_loop (fun c => add64 (vram_class_usage resident c) n >? limit)
    (fun c => let* evicted :=
        if resident && (layer_partition_count (placement (config c)) >? 1)
           && (add64 (at_partition (vram_partition_bytes c) (partition_for k c)) n >?
               partition_quota (vram (config c)) (vram_shared_burst_bytes (placement (config c))) c)
        then evict_one_locked (mkEviction false true (Some k) (Some (partition_for k c)) false
               (Some true) al None)
        else ret false in
      if evicted then ret true
      else evict_one_locked (mkEviction false true (Some k) None false (Some resident) al None))
    (fun fuel => vram_class_loop fuel n limit k resident al)).
  - intros fuel Q' c' Hw. simpl. apply wp_get_bind. destruct (_ >? limit); [|done].
    by apply wp_unassoc.
  - intros c' Hb'. apply attempt_or.
    + destruct (_ && _); [by apply attempt_evict|by apply attempt_ret].
    + intros. by apply attempt_evict.
  - done.
  - apply copies_total.
  - intros b c' Hb' Ho _ _. by apply HQ.
Qed.

Lemma wp_ram_pressure g k n c Q :
  base g None c -> 0 <= n <= high_watermark_bytes (ram (g_cfg g)) ->
  (forall (b : bool) c', base g None c' -> only_evicts (Some k) c c' ->
    msum copies (entries c') <= msum copies (entries c) ->
    (b = true -> ram_bytes c' + n <= high_watermark_bytes (ram (g_cfg g))) -> Q b c') ->
  wp (ram_pressure_loop (evict_fuel c) n k) Q c.
Proof.
  intros Hb Hn HQ. destruct (b_config_ok _ _ _ Hb) as (? & _).
  eapply (wp_room_loop (fun c => add64 (ram_bytes c) n >? high_watermark_bytes (ram (config c)))
    (fun c => let* evicted := evict_one_locked (mkEviction true false (Some k) None true None None None) in
      if evicted then ret true else evict_one_locked (plain_eviction true false (Some k)))
    (fun fuel => ram_pressure_loop fuel n k)).
  - intros fuel Q' c' Hw. simpl. apply wp_get_bind. destruct (_ >? _); [|done].
    by apply wp_unassoc.
  - intros c' Hb'. apply attempt_or; [by apply attempt_evict|]. intros. by apply attempt_evict.
  - exact Hb.
  - apply copies_total.
  - intros b c' Hb' Ho Hle Hc. apply HQ; [done..|]. intros ->. specialize (Hc eq_refl).
    rewrite (b_config _ _ _ Hb') in Hc. destruct (b_ram_bounds _ _ _ Hb') as (? & ? & ? & ? & ?).
    zbool. revert Hc. word_small; lia.
Qed.

Lemma wp_ram_low g k c fuel (Q : unit -> Core D -> Prop) :
  base g None c -> msum copies (entries c) < Z.of_nat fuel ->
  (forall c', base g None c' -> only_evicts (Some k) c c' -> Q tt c') ->
  wp (ram_low_loop fuel k) Q c.
Proof.
  revert c. induction fuel as [|fuel IH]; intros c Hb Hf HQ.
  { pose proof (copies_nonneg (entries c)). lia. }
  simpl. apply wp_get_bind. pose proof (only_evicts_refl (Some k) c).
  destruct (_ >? _); [|by apply wp_ret, HQ].
  apply wp_bind. eapply wp_evict_one; [exact Hb|]. simpl. intros b c1 Hb1 Ho1 _ Hlt. destruct b.
  - apply IH; [done|specialize (Hlt eq_refl); lia|]. intros c2 Hb2 Ho2.
    apply HQ; [done|by eapply only_evicts_trans].
  - by apply wp_ret, HQ.
Qed.

(** The room a successful [make_capacity_locked] leaves. *)
Definition with_room (n v : Z) (protected : bool) (g : Ghost) : Ghost :=
  class_room n protected (g <| g_ram_room := n |> <| g_vram_room := v |>).

Lemma with_room_same n v (p : bool) g : same_ghost g (with_room n v p g).
Proof. by destruct p. Qed.

Lemma wp_and_then (m1 m2 : ST (Core D) bool) Q c :
  wp m1 (fun b c' => if b then wp m2 Q c' else Q false c') c -> wp (and_then m1 m2) Q c.
Proof. intros Hm. apply wp_bind. eapply wp_mono; [exact Hm|]. by intros [] c'. Qed.

Lemma class_room_drop n (p : bool) g c : roomless g -> base (class_room n p g) None c -> base g None c.
Proof.
  intros (R1 & R2 & R3 & R4) Hb. eapply base_rooms; [|  |exact Hb]; [by destruct p|].
  pose proof (b_ram_high _ _ _ Hb). pose proof (b_classes _ _ _ Hb) as Hcl.
  pose proof (b_vram_high _ _ _ Hb). pose proof (b_rooms _ _ _ Hb).
  unfold rooms_ok. rewrite R1, R2, R3, R4. revert Hcl. 
  destruct p; simpl in *; intros Hcl; (split_and!; try lia); intros Hz; specialize (Hcl Hz); lia.
Qed.

Lemma wp_make_capacity g k (n v : Z) (protected resident : bool) t c Q :
  base g None c -> roomless g -> 0 <= n -> 0 <= v ->
  (forall (b : bool) c', base (if b then with_room n v protected g else g) None c' ->
    only_evicts (Some k) c c' -> Q b c') ->
  wp (make_capacity_locked n v k protected resident t) Q c.
Proof.
  intros Hb Hroom Hn Hv HQ. pose proof (only_evicts_refl (Some k) c).
  unfold make_capacity_locked. apply wp_get_bind. rewrite (b_config _ _ _ Hb).
  destruct (_ || _) eqn:E0; [by apply wp_ret, HQ|]. zbool.
  apply wp_bind, wp_and_then. eapply wp_make_partition; [exact Hb|]. intros [] c1 Hb1 Ho1; cycle 1.
  { by apply wp_ret, HQ. }
  apply wp_and_then. eapply wp_make_ram_class; [exact Hb1|done|done|]. intros [] c2 Hb2 Ho2; cycle 1.
  { apply wp_ret, HQ; [done|by eapply only_evicts_trans]. }
  set (g1 := class_room n protected g) in *.
  eapply wp_make_vram_class; [exact Hb2|]. intros b c3 Hb3 Ho3.
  assert (Ho : only_evicts (Some k) c c3) by (do 2 (eapply only_evicts_trans; [eassumption|]); done).
  destruct b; cbn [negb]; cycle 1.
  { apply wp_ret, HQ; [by eapply class_room_drop|done]. }
  apply wp_get_bind. apply wp_bind.
  assert (Hcfg : g_cfg g1 = g_cfg g) by (by destruct protected).
  eapply wp_ram_pressure; [exact Hb3|rewrite Hcfg; lia|]. intros b c4 Hb4 Ho4 Hle4 Hfit.
  assert (Ho' : only_evicts (Some k) c c4) by (by eapply only_evicts_trans).
  destruct b; cbn [negb]; cycle 1.
  { apply wp_ret, HQ; [by eapply class_room_drop|done]. }
  assert (Hend : forall c5, base g1 None c5 -> only_evicts (Some k) c c5 ->
    wp (let* c := get in
        ret ((add64 (ram_bytes c) n <=? high_watermark_bytes (ram (config c)))
             && (add64 (vram_bytes c) v <=? high_watermark_bytes (vram (config c))))) Q c5).
  { intros c5 Hb5 Ho5. apply wp_get_bind, wp_ret, HQ; [|done].
    rewrite (b_config _ _ _ Hb5), Hcfg. destruct (b_ram_bounds _ _ _ Hb5) as (? & ? & ? & ? & ?).
    destruct (b_config_ok _ _ _ Hb) as (? & ? & _).
    destruct (_ && _) eqn:E; [|by eapply class_room_drop]. zbool.
    rename select (add64 (ram_bytes c5) n <= _) into Hr.
    rename select (add64 (vram_bytes c5) v <= _) into Hvr.
    revert Hr Hvr. word_small. intros Hr Hvr.
    eapply base_rooms; [| |exact Hb5]; [by destruct protected|].
    pose proof (b_classes _ _ _ Hb5) as Hcl. pose proof (b_rooms _ _ _ Hb5) as Hrm. revert Hcl Hrm.
    unfold with_room, g1, class_room. destruct protected; simpl; intros Hcl Hrm;
      (split_and!; simpl; [lia..| |lia]); exact Hcl. }
  apply wp_when_bind; intros _; [|by apply Hend].
  apply wp_bind. eapply wp_ram_low; [exact Hb4| |].
  { pose proof (copies_total (entries c3)). unfold evict_fuel. lia. }
  intros c5 Hb5 Ho5.
  apply Hend; [done|by eapply only_evicts_trans].
Qed.

Lemma only_evicts_self k c c' e :
  only_evicts (Some k) c c' -> entries c !! k = Some e -> entries c' !! k = Some e.
Proof. intros Ho Hk. apply Ho; [done|by left]. Qed.

Lemma device_bytes_bound r : record_ok r -> 0 <= device_bytes r <= U64_MAX.
Proof. intros [? ?]. unfold device_bytes. case_match; lia. Qed.

Lemma wp_make_device_capacity g k e (n : Z) (protected : bool) c (Q : bool * bool -> Core D -> Prop) :
  base g None c -> roomless g -> entries c !! k = Some e -> 0 <= n ->
  (forall (b r : bool) c',
    base (if b then with_room n (device_bytes (record e)) protected g else g) None c' ->
    only_evicts (Some k) c c' -> Q (b, r) c') ->
  wp (make_device_capacity_locked k n protected) Q c.
Proof.
  intros Hb Hroom Hk Hn HQ. unfold make_device_capacity_locked.
  eapply wp_entry_at; [exact Hk|]. cbn beta. apply wp_get_bind.
  destruct (b_entry _ _ _ Hb _ _ Hk) as (_ & Hrec & _). apply device_bytes_bound in Hrec.
  apply wp_bind. eapply wp_make_capacity; [exact Hb|done|done|lia|]. intros [] c1 Hb1 Ho1.
  { by apply wp_ret, HQ. }
  assert (Hagain : forall r, wp (make_capacity_locked n (device_bytes (record e)) k protected r
      (temperature_locked e)) (fun b c' => forall r', Q (b, r') c') c1).
  { intros r. eapply wp_make_capacity; [exact Hb1|done|done|lia|]. intros b c2 Hb2 Ho2 r'.
    apply HQ; [done|by eapply only_evicts_trans]. }
  destruct (_ || (2 <=? frequency e)).
  - apply wp_bind. eapply wp_mono; [apply Hagain|]. intros b c2 Hq. apply wp_ret, Hq.
  - apply wp_get_bind. destruct (_ <=? _); [|by apply wp_ret, HQ].
    apply wp_bind. eapply wp_mono; [apply Hagain|]. intros b c2 Hq. apply wp_ret, Hq.
Qed.

(** ** Promotion *)

(** What a promotion may change of the entry. *)
Definition promoted (e e' : Entry) : Prop :=
  exists p pr r rr, e' = e <| ram_protected := p |> <| ram_protected_requested := pr |>
    <| vram_resident := r |> <| vram_resident_requested := rr |>.

Lemma promoted_refl e : promoted e e.
Proof. exists (ram_protected e), (ram_protected_requested e), (vram_resident e), (vram_resident_requested e). by destruct e. Qed.

Lemma promoted_trans e1 e2 e3 : promoted e1 e2 -> promoted e2 e3 -> promoted e1 e3.
Proof. intros (a & b & d & f & ->) (p & pr & r & rr & ->). by exists p, pr, r, rr. Qed.

(** Edits of a consistent entry that keep it consistent, outside any operation. *)
Record mild (e e' : Entry) : Prop := {
  m_key : entry_key e' = entry_key e;
  m_record : record e' = record e;
  m_references : references e' = references e;
  m_state : state e' = state e;
  m_waiters : waiters e' = waiters e;
  m_host_waiters : host_waiters e' = host_waiters e;
  m_host : host e' = host e;
  m_host_copy : host_copy e' = host_copy e;
  m_device : device e' = device e;
  m_sections : validated_sections e' = validated_sections e;
  m_ram : ram_reserved e' = ram_reserved e;
  m_vram : vram_reserved e' = vram_reserved e }.

Lemma mild_ok e e' : mild e e' -> entry_ok e -> entry_ok e'.
Proof.
  intros []. unfold entry_ok, residency_ok, charges_ok, has_host_bytes.
  by rewrite m_record0, m_state0, m_waiters0, m_host_waiters0, m_host0, m_host_copy0, m_device0,
    m_sections0, m_ram0, m_vram0.
Qed.

Lemma promoted_mild e e' : promoted e e' -> mild e e'.
Proof. intros (p & pr & r & rr & ->). by split. Qed.

Lemma mild_ids e e' : mild e e' -> entry_ids e' = entry_ids e.
Proof. intros []. unfold entry_ids. by rewrite m_waiters0, m_host_waiters0. Qed.

(** Closing after a mild edit. *)
Lemma focus_close_mild g c0 k e m e' c :
  base g None c0 -> entries c0 !! k = Some e -> mild e e' ->
  focus (g <| g_taken %= app (entry_ids e) |>) m k e' c -> base g None c.
Proof.
  intros Hb Hk Hm HF. eapply focus_close_same; [by rewrite (mild_ids _ _ Hm)| | |].
  - eapply mild_ok; [exact Hm|]. by apply (b_ok _ _ _ Hb k).
  - intros a Ha. destruct (b_held _ _ _ Hb _ _ Ha) as (w & Hw & ? & ?); [done|].
    destruct Hm. split; congruence.
  - intros Hd. destruct (b_dead _ _ _ Hb _ Hd) as (w & Hw & ?); [done|]. destruct Hm. congruence.
Qed.

(** The invariant holds and [e] is the entry at [k]. *)
Definition rest (g : Ghost) (k : ExpertKey) (e : Entry) (c : Core D) : Prop :=
  base g None c /\ entries c !! k = Some e.

#[export] Instance quiet_rest g k e : QuietStable (rest g k e).
Proof. intros c c' Hq [Hb Hk]. split; [by eapply base_quiet|]. by rewrite (q_entries _ _ Hq). Qed.

Lemma wp_rest_quiet {B} `{QuietProg _ m} g k e (K : unit -> ST (Core D) B) (R : B -> Core D -> Prop) c :
  rest g k e c -> (forall c', rest g k e c' -> wp (K tt) R c') -> wp (bind m K) R c.
Proof. apply (wp_quiet_bind (P := rest g k e)). Qed.

Lemma wp_rest_set {B} g k e f (K : unit -> ST (Core D) B) (R : B -> Core D -> Prop) c :
  rest g k e c -> mild e (f e) -> ram_protected (f e) = ram_protected e ->
  (forall c', rest g k (f e) c' -> wp (K tt) R c') -> wp (bind (set_entry k f) K) R c.
Proof.
  intros [Hb Hk] Hm Hp HK. eapply wp_set_entry.
  - apply focus_open; [exact Hb|exact Hk].
  - destruct Hm. split_and!; [done..|by left].
  - intros c' HF. apply HK. split; [|apply HF]. by eapply focus_close_mild.
Qed.

Lemma rest_evicts g g' k e c c' :
  rest g k e c -> base g' None c' -> only_evicts (Some k) c c' -> rest g' k e c'.
Proof. intros [_ Hk] Hb Ho. split; [done|]. by eapply only_evicts_self. Qed.

Lemma wp_promote_ram g k e force c (Q : unit -> Core D -> Prop) :
  rest g k e c -> roomless g ->
  (forall e' c', rest g k e' c' -> promoted e e' -> Q tt c') ->
  wp (promote_ram_locked k force) Q c.
Proof.
  intros HR Hroom HQ. unfold promote_ram_locked. eapply wp_entry_at; [apply HR|]. cbn beta.
  apply wp_get_bind. destruct (_ || negb force) eqn:E; [by eapply wp_ret, HQ, promoted_refl|].
  rewrite !orb_false_iff in E. destruct E as ((((_ & Ep) & Er) & Ez) & _). zbool.
  destruct HR as [Hb Hk]. destruct (b_nonneg _ _ _ _ _ Hb Hk) as [Hr0 Hv0].
  apply wp_bind. eapply wp_make_ram_class; [exact Hb|done|done|]. intros [] c1 Hb1 Ho1; cycle 1.
  { eapply (wp_quiet (P := rest g k e)); [eapply rest_evicts; [split; [exact Hb|exact Hk]|exact Hb1|exact Ho1]|].
    intros c2 HR2. eapply HQ; [exact HR2|apply promoted_refl]. }
  pose proof (only_evicts_self _ _ _ _ Ho1 Hk) as Hk1.
  pose proof (focus_open _ _ _ _ Hb1 Hk1) as HF.
  destruct (b_ram_bounds _ _ _ Hb1) as (? & ? & ? & ? & ?).
  destruct (b_share _ _ _ _ _ Hb1 Hk1) as (? & _ & _ & Hpb & _).
  unfold probationary_ram in Hpb. rewrite Ep in Hpb.
  pose proof (b_classes _ _ _ Hb1) as Hcl. simpl in Hcl.
  pose proof (b_rooms _ _ _ Hb1) as Hrm. simpl in Hrm.
  set (f := fun e => e <| ram_protected := true |> <| ram_protected_requested := true |>).
  apply wp_modify_bind. apply wp_modify_bind. fold f.
  match goal with |- wp _ _ ?c2 => assert (HR2 : rest g k (f e) c2) end; cycle 1.
  { eapply wp_rest_quiet; [exact HR2|]. clear HR2. intros c2 HR2.
    eapply (wp_quiet (P := rest g k (f e))); [exact HR2|]. clear c2 HR2. intros c2 HR2.
    eapply HQ; [exact HR2|]. exists true, true, (vram_resident e), (vram_resident_requested e).
    by destruct e. }
  split; [|simpl; by rewrite lookup_alter_eq, Hk1]. simpl in Hcl.
  eapply (focus_close_mild g c k e (delete k (entries c1)) (f e)); [exact Hb|exact Hk|by split|].
  eapply focus_edit; [exact HF|by split_and!| |].
  - split; simpl; unfold protected_ram, probationary_ram; simpl; rewrite ?Ep; try done;
      try (by split_and!; first [done|lia]); try lia.
    + by apply alter_insert_existing.
    + word_small; lia.
    + word_small; lia.
    + intros p x Hx. exists x. split; [done|lia].
  - destruct Hroom as (R1 & R2 & R3 & R4). pose proof (b_ram_high _ _ _ Hb1).
    pose proof (b_vram_high _ _ _ Hb1). simpl in *.
    split_and!; simpl; try lia. intros Hz. specialize (Hcl Hz). word_small; lia.
Qed.

Lemma wp_promote_vram g k e force c (Q : unit -> Core D -> Prop) :
  rest g k e c ->
  (forall e' c', rest g k e' c' -> promoted e e' -> Q tt c') ->
  wp (promote_vram_locked k force) Q c.
Proof.
  intros HR HQ. unfold promote_vram_locked. eapply wp_entry_at; [apply HR|]. cbn beta.
  apply wp_get_bind. destruct (_ || (negb force && _)); [by eapply wp_ret, HQ, promoted_refl|].
  pose proof HR as [Hb Hk]. apply wp_bind. eapply wp_make_vram_class; [exact Hb|]. intros b c1 Hb1 Ho1.
  pose proof (rest_evicts _ _ _ _ _ _ HR Hb1 Ho1) as HR1. clear c HR Hb Hk Ho1 Hb1. destruct b; cycle 1.
  { eapply (wp_quiet (P := rest g k e)); [exact HR1|].
    intros c2 HR2. eapply HQ; [exact HR2|apply promoted_refl]. }
  eapply wp_rest_quiet; [exact HR1|]. clear c1 HR1. intros c1 HR1.
  eapply wp_rest_quiet; [exact HR1|]. clear c1 HR1. intros c1 HR1.
  eapply wp_rest_set; [exact HR1|by split|done|]. clear c1 HR1. intros c1 HR1.
  apply wp_get_bind. do 2 (eapply wp_rest_quiet; [exact HR1|]; clear c1 HR1; intros c1 HR1).
  eapply (wp_quiet (P := rest g k _)); [exact HR1|]. clear c1 HR1. intros c1 HR1.
  eapply HQ; [exact HR1|]. exists (ram_protected e), (ram_protected_requested e), true, true.
  by destruct e.
Qed.

End Evict.
