(* ===== verification/ExpertCacheOps.v ===== *)
(** Every operation of [ExpertCache] keeps the invariant and never throws: one
    specification per critical section. *)

From S2P Require Import Prelude Storage CacheState BufferPool.
From S2P Require Import ExpertRecord Telemetry Doubles ExpertCache.
From S2P Require Import ExpertCacheInv ExpertCacheSteps ExpertCachePrims ExpertCacheEvict.

(** One quiet step of a program between operations. *)
Ltac bstep HB :=
  first [ eapply wp_rest_quiet; [exact HB|] | eapply wp_quiet_base; [exact HB|]
        | eapply wp_quiet_bind; [exact HB|] ];
  let c' := fresh "c" in clear HB; intros c' HB.

Section Ops.
Context {D : Type} `{DeviceDirectory D}.
Implicit Types (c : Core D) (g : Ghost) (e : Entry).

(** ** Heat *)

Lemma msum_fmap (f : Entry -> Z) (h : Entry -> Entry) (m : gmap ExpertKey Entry) :
  (forall e, f (h e) = f e) -> msum f (h <$> m) = msum f m.
Proof.
  intros Hf. induction m as [|k e m Hk IH] using map_ind; [by rewrite fmap_empty|].
  rewrite fmap_insert, !msum_insert_new, IH, Hf; [done..|]. by rewrite lookup_fmap, Hk.
Qed.

Lemma leases_fmap (h : Entry -> Entry) (m : gmap ExpertKey Entry) :
  (forall e, host (h e) = host e) -> leases (h <$> m) ≡ₚ leases m.
Proof.
  intros Hh. induction m as [|k e m Hk IH] using map_ind; [by rewrite fmap_empty|].
  rewrite fmap_insert, !leases_insert, Hh, !delete_id; [by rewrite IH|done|].
  by rewrite lookup_fmap, Hk.
Qed.

(** A mild edit of every entry at once. *)
Lemma base_fmap g c h :
  base g None c -> (forall e, mild e (h e) /\ ram_protected (h e) = ram_protected e) ->
  base g None (c <| entries %= fmap h |>).
Proof.
  intros Hb Hh.
  assert (Hlk : forall k w, (h <$> entries c) !! k = Some w ->
    exists e, entries c !! k = Some e /\ w = h e /\ mild e w).
  { intros k w. rewrite lookup_fmap. destruct (entries c !! k) as [e|]; [|done].
    intros [= <-]. exists e. split_and!; [done..|apply Hh]. }
  assert (Hlk' : forall k e, entries c !! k = Some e -> (h <$> entries c) !! k = Some (h e)).
  { intros k e Hk. by rewrite lookup_fmap, Hk. }
  assert (Hf : forall f : Entry -> Z, (forall e w, mild e w -> ram_protected w = ram_protected e -> f w = f e) ->
    msum f (h <$> entries c) = msum f (entries c)).
  { intros f Hf. apply msum_fmap. intros e. destruct (Hh e). by apply Hf. }
  assert (Hwait : forall e w b id, mild e w -> waits_in w b id = waits_in e b id).
  { intros e w b id Hm. unfold waits_in. by rewrite (m_waiters _ _ Hm), (m_host_waiters _ _ Hm). }
  split; simpl; try apply Hb.
  - intros k w Hw. destruct (Hlk k w Hw) as (e & He & _ & Hm).
    rewrite (m_key _ _ Hm), (m_record _ _ Hm), (m_ram _ _ Hm), (m_vram _ _ Hm).
    by apply (b_entry _ _ _ Hb).
  - intros k w Hw _. destruct (Hlk k w Hw) as (e & He & _ & Hm). eapply mild_ok; [exact Hm|].
    by apply (b_ok _ _ _ Hb k).
  - rewrite Hf; [apply Hb|]. intros e w Hm _. apply Hm.
  - rewrite Hf; [apply Hb|]. intros e w Hm Hp. unfold protected_ram. by rewrite Hp, (m_ram _ _ Hm).
  - rewrite Hf; [apply Hb|]. intros e w Hm Hp. unfold probationary_ram. by rewrite Hp, (m_ram _ _ Hm).
  - intros p x Hx. rewrite Hf; [by apply Hb|]. intros e w Hm _. unfold partition_ram.
    by rewrite (m_key _ _ Hm), (m_ram _ _ Hm).
  - rewrite Hf; [apply Hb|]. intros e w Hm _. apply Hm.
  - eapply pool_inv_perm; [symmetry; apply leases_fmap|apply Hb]. intros e. apply Hh.
  - intros k s Hs Hk. destruct (b_index _ _ _ Hb k s Hs Hk) as [e He]. by rewrite (Hlk' _ _ He).
  - intros k w Hw. destruct (Hlk k w Hw) as (e & He & _ & Hm).
    rewrite (m_references _ _ Hm). by apply (b_references _ _ _ Hb).
  - intros k a Ha _. destruct (b_held _ _ _ Hb k a Ha) as (e & He & ? & ?); [done|].
    exists (h e). destruct (Hh e) as [Hm _]. rewrite (m_state _ _ Hm), (m_device _ _ Hm).
    split_and!; [by apply Hlk'|done..].
  - intros k x Hx. destruct (b_present _ _ _ Hb k x Hx) as [e He]. by rewrite (Hlk' _ _ He).
  - intros k Hd _. destruct (b_dead _ _ _ Hb k Hd) as (e & He & ?); [done|].
    exists (h e). rewrite (m_state _ _ (proj1 (Hh e))). split; [by apply Hlk'|done].
  - intros k r Hr. destruct (b_known _ _ _ Hb k r Hr) as (e & He & ?).
    exists (h e). rewrite (m_record _ _ (proj1 (Hh e))). split; [by apply Hlk'|done].
  - intros k w b id Hw _ Hid. destruct (Hlk k w Hw) as (e & He & _ & Hm).
    rewrite (Hwait _ _ _ _ Hm) in Hid.
    destruct (b_pending _ _ _ Hb k e b id He) as (? & ? & ? & Hu); [done..|].
    split_and!; try lia; try done; intros k' w' b' Hw' _ Hid'.
    destruct (Hlk k' w' Hw') as (e' & He' & _ & Hm'). rewrite (Hwait _ _ _ _ Hm') in Hid'.
    by eapply Hu.
  - intros id Hid. destruct (b_issued _ _ _ Hb id Hid) as [?|[?|(k & e & b & He & _ & Hwb)]]; auto.
    right. right. exists k, (h e), b. split_and!; [by apply Hlk'|done|].
    rewrite (Hwait e); [done|apply Hh].
Qed.

(** ** Operations between which every entry is consistent *)

(** Nothing is in the middle of an operation. *)
Definition idle (g : Ghost) : Prop := g_taken g = [] /\ roomless g.

(** The invariant again, some promises further. *)
Definition after (g : Ghost) (c : Core D) : Prop :=
  exists ss, base (settled_with g ss []) None c.

Lemma settled_with_nil g : g_taken g = [] -> settled_with g [] [] = g.
Proof.
  intros Ht. destruct g. unfold settled_with, update. simpl in *. subst. by rewrite app_nil_r.
Qed.

Lemma settled_with_app g s1 s2 R R' :
  settled_with (settled_with g s1 R) s2 R' = settled_with g (s1 ++ s2) R'.
Proof.
  unfold settled_with, update, grants. simpl. by rewrite foldl_app, app_assoc.
Qed.

Lemma idle_settled g ss : idle g -> idle (settled_with g ss []).
Proof. by intros [? ?]. Qed.

Lemma base_after g c : idle g -> base g None c -> after g c.
Proof. intros [Ht _] Hb. exists []. by rewrite settled_with_nil. Qed.

Lemma after_trans g ss c : after (settled_with g ss []) c -> after g c.
Proof. intros [s2 Hb]. exists (ss ++ s2). by rewrite <- (settled_with_app _ _ _ []). Qed.

#[export] Instance quiet_after g : QuietStable (after g).
Proof. intros c c' Hq [ss Hb]. exists ss. by eapply base_quiet. Qed.

(** The keys and records of the moment, remembered in the ghost. *)
Lemma base_learn g c m :
  base g None c -> (forall k r, m !! k = Some r -> exists e, entries c !! k = Some e /\ record e = r) ->
  base (g <| g_known := m |>) None c.
Proof. intros Hb Hm. split; simpl; try apply Hb. exact Hm. Qed.

Definition records_of (c : Core D) : gmap ExpertKey PayloadRecord := record <$> entries c.

Lemma base_learn_all g c : base g None c -> base (g <| g_known := records_of c |>) None c.
Proof.
  intros Hb. apply base_learn; [done|]. intros k r. unfold records_of. rewrite lookup_fmap.
  destruct (entries c !! k) as [e|]; [|done]. intros [= <-]. by exists e.
Qed.

Lemma known_present g o c k : base g o c -> is_Some (g_known g !! k) -> is_Some (entries c !! k).
Proof. intros Hb [r Hr]. destruct (b_known _ _ _ Hb k r Hr) as (e & He & _). by exists e. Qed.

Lemma after_forget g m c :
  (forall k r, g_known g !! k = Some r -> m !! k = Some r) ->
  after (g <| g_known := m |>) c -> after g c.
Proof.
  intros Hm [ss Hb]. exists ss.
  apply (base_learn _ _ (g_known g)) in Hb; [by destruct g|].
  intros k r Hr. apply (b_known _ _ _ Hb). simpl. by apply Hm.
Qed.

Lemma learn_forget g c c' : base g None c -> after (g <| g_known := records_of c |>) c' -> after g c'.
Proof.
  intros Hb. apply after_forget. intros k r Hr. unfold records_of.
  destruct (b_known _ _ _ Hb k r Hr) as (e & He & <-). by rewrite lookup_fmap, He.
Qed.

(** ** Heat, continued *)

Implicit Types (Q : unit -> Core D -> Prop).

Lemma mild_refl e : mild e e.
Proof. by split. Qed.

Lemma mild_trans e1 e2 e3 : mild e1 e2 -> mild e2 e3 -> mild e1 e3.
Proof. intros [] []. split; congruence. Qed.

Lemma wp_touch g k e Q c :
  rest g k e c -> (forall e' c', rest g k e' c' -> mild e e' -> Q tt c') ->
  wp (touch_locked k) Q c.
Proof.
  intros HR HQ. unfold touch_locked. eapply wp_rest_quiet; [exact HR|]. clear c HR. intros c HR.
  apply wp_get_bind. eapply wp_rest_set; [exact HR|by split|done|]. clear HR. intros c1 [Hb Hk].
  apply wp_when; intros _.
  - apply wp_modify. eapply HQ; [split|].
    + apply base_fmap; [exact Hb|]. intros w. by split.
    + simpl. rewrite lookup_fmap, Hk. reflexivity.
    + by split.
  - eapply HQ; [by split|]. by split.
Qed.

Lemma wp_touch_times n g k e Q c :
  rest g k e c -> (forall e' c', rest g k e' c' -> mild e e' -> Q tt c') ->
  wp (touch_times n k) Q c.
Proof.
  revert e c. induction n as [|n IH]; intros e c HR HQ; simpl.
  - eapply wp_ret, HQ; [exact HR|apply mild_refl].
  - apply wp_bind. eapply wp_touch; [exact HR|]. clear c HR. intros e1 c HR Hm.
    eapply IH; [exact HR|]. clear c HR. intros e2 c HR Hm2.
    eapply HQ; [exact HR|by eapply mild_trans].
Qed.

(** [touch_locked] and the two promotions that follow it. *)
Lemma wp_promote g k e b1 b2 Q c :
  rest g k e c -> roomless g -> (forall e' c', rest g k e' c' -> mild e e' -> Q tt c') ->
  wp (promote_ram_locked k b1 ;* promote_vram_locked k b2) Q c.
Proof.
  intros HR Hr HQ. apply wp_bind. eapply wp_promote_ram; [exact HR|done|].
  clear c HR. intros e1 c HR H1. eapply wp_promote_vram; [exact HR|].
  clear c HR. intros e2 c HR H2. eapply HQ; [exact HR|].
  apply promoted_mild. by eapply promoted_trans.
Qed.

Lemma wp_heat g k e Q c :
  rest g k e c -> roomless g -> (forall e' c', rest g k e' c' -> mild e e' -> Q tt c') ->
  wp (touch_locked k ;* promote_ram_locked k false ;* promote_vram_locked k false) Q c.
Proof.
  intros HR Hr HQ. apply wp_bind. eapply wp_touch; [exact HR|]. clear c HR. intros e1 c HR H1.
  eapply wp_promote; [exact HR|done|]. clear c HR. intros e2 c HR H2.
  eapply HQ; [exact HR|by eapply mild_trans].
Qed.

Lemma wp_add_routing_score {B} g k e s m (K : unit -> ST (Core D) B) (R : B -> Core D -> Prop) c :
  rest g k e c -> scaled_sum_q20 s <> None ->
  (forall e' c', rest g k e' c' -> mild e e' -> wp (K tt) R c') ->
  wp (bind (add_routing_score_locked k s m) K) R c.
Proof.
  intros HR Hs HK. unfold add_routing_score_locked.
  destruct (_ || negative m); [by eapply wp_ret_bind, HK, mild_refl|].
  destruct (scaled_sum_q20 s) as [x|]; [|done].
  set (f := fun w : Entry => w <| routing_score_mass_q20 %= _ |> <| routing_score_peak_q20 %= _ |>).
  eapply (wp_rest_set _ _ _ f); [exact HR|by split|done|].
  intros c' HR'. eapply HK; [exact HR'|by split].
Qed.

(** ** Requests *)

Lemma wp_take_waiter_id {B} g (K : Z -> ST (Core D) B) (R : B -> Core D -> Prop) c :
  base g None c -> g_taken g = [] -> next_waiter c < U64_MAX ->
  (forall c', next_waiter c' = next_waiter c + 1 -> entries c' = entries c ->
    base (g <| g_taken := [next_waiter c] |>) None c' -> wp (K (next_waiter c)) R c') ->
  wp (bind take_waiter_id K) R c.
Proof.
  intros Hb Ht Hn HK. pose proof (b_next _ _ _ Hb). unfold take_waiter_id. apply wp_assoc, wp_get_bind, wp_assoc.
  apply wp_modify_bind, wp_ret_bind.
  assert (En : inc64 (next_waiter c) = next_waiter c + 1) by (word_small; lia).
  apply HK; [exact En|done|].
  split; simpl; rewrite ?En; try apply Hb.
  - lia.
  - split; [apply Hb|]. intros id Hid. apply (b_settled _ _ _ Hb) in Hid. lia.
  - split; [apply NoDup_singleton|]. intros id ->%list_elem_of_singleton. split; [lia|].
    intros Hin. apply (b_settled _ _ _ Hb) in Hin. lia.
  - intros k e b id Hk Ho Hw. destruct (b_pending _ _ _ Hb k e b id Hk Ho Hw) as (? & ? & _ & ?).
    split_and!; try lia; try done. rewrite list_elem_of_singleton. lia.
  - intros id Hid. destruct (decide (id = next_waiter c)) as [->|Hne].
    + right. left. by left.
    + destruct (b_issued _ _ _ Hb id) as [?|[Hin|?]]; [lia|by left| |by right; right].
      rewrite Ht in Hin. by apply not_elem_of_nil in Hin.
Qed.

Lemma held_count_absent k held : (forall x, (k, x) ∉ held) -> held_count k held = 0.
Proof.
  intros Hk. unfold held_count. induction held as [|[j x] held IH]; [done|].
  rewrite filter_cons. simpl. case_decide; [subst; destruct (Hk x); by left|].
  apply IH. intros y Hy. apply (Hk y). by right.
Qed.

Lemma base_emplace g c k r :
  base g None c -> record_ok r -> entries c !! k = None ->
  base g None (c <| entries %= <[k := new_entry k r]> |>).
Proof.
  intros Hb Hr Hn.
  assert (Hne : forall j, is_Some (entries c !! j) -> j <> k) by (intros j [e He] ->; congruence).
  assert (Hlk : forall j, is_Some (entries c !! j) -> <[k := new_entry k r]> (entries c) !! j = entries c !! j).
  { intros j Hj. apply lookup_insert_ne. by apply not_eq_sym, Hne. }
  assert (Hinv : forall j w, <[k := new_entry k r]> (entries c) !! j = Some w ->
    (j = k /\ w = new_entry k r) \/ entries c !! j = Some w).
  { intros j w. destruct (decide (j = k)) as [->|Hj]; [rewrite lookup_insert_eq|rewrite lookup_insert_ne by done];
      [intros [= <-]; auto|auto]. }
  assert (Hz : forall f : Entry -> Z, f (new_entry k r) = 0 ->
    msum f (<[k := new_entry k r]> (entries c)) = msum f (entries c)).
  { intros f Hf. rewrite msum_insert_new, Hf by done. lia. }
  assert (Hid : forall b id, ~ waits_in (new_entry k r) b id).
  { intros [] id [w Hw]; simpl in Hw; by rewrite lookup_empty in Hw. }
  split; simpl; try apply Hb.
  - intros j w [[-> ->]|Hw]%Hinv; [by split_and!; try lia; try apply Hr|by apply Hb].
  - intros j w [[-> ->]|Hw]%Hinv _; [|by apply (b_ok _ _ _ Hb j)].
    by split; [|split].
  - rewrite Hz by done. apply Hb.
  - rewrite Hz by done. apply Hb.
  - rewrite Hz by done. apply Hb.
  - intros p x Hx. rewrite Hz; [by apply Hb|]. unfold partition_ram. by case_match.
  - rewrite Hz by done. apply Hb.
  - eapply pool_inv_perm; [|apply (b_pool _ _ _ Hb)]. rewrite leases_insert, delete_id by done. done.
  - intros j s Hs Hj. pose proof (b_index _ _ _ Hb j s Hs Hj). by rewrite Hlk.
  - intros j w [[-> ->]|Hw]%Hinv; [|by apply (b_references _ _ _ Hb)].
    rewrite held_count_absent; [done|]. intros x Hx. apply (b_present _ _ _ Hb) in Hx as [e He]. congruence.
  - intros j a Hin Ho. destruct (b_held _ _ _ Hb j a Hin Ho) as (w & Hw & ?).
    exists w. rewrite Hlk by done. by rewrite Hw.
  - intros j x Hin. pose proof (b_present _ _ _ Hb j x Hin). by rewrite Hlk.
  - intros j Hin Ho. destruct (b_dead _ _ _ Hb j Hin Ho) as (w & Hw & ?).
    exists w. by rewrite Hlk, Hw.
  - intros j s Hj. destruct (b_known _ _ _ Hb j s Hj) as (w & Hw & ?).
    exists w. by rewrite Hlk, Hw.
  - intros j w b id [[-> ->]|Hw]%Hinv _ Hwb; [by apply Hid in Hwb|].
    destruct (b_pending _ _ _ Hb j w b id Hw ltac:(done) Hwb) as (? & ? & ? & Hu).
    split_and!; try lia; try done. intros j' w' b' [[-> ->]|Hw']%Hinv _ Hwb'; [by apply Hid in Hwb'|].
    by eapply Hu.
  - intros id Hid'. destruct (b_issued _ _ _ Hb id Hid') as [?|[?|(j & w & b & Hw & _ & Hwb)]]; auto.
    right. right. exists j, w, b. by rewrite Hlk, Hw.
Qed.

Lemma wp_emplace {B} g k r (K : unit -> ST (Core D) B) (R : B -> Core D -> Prop) c :
  base g None c -> record_ok r ->
  (forall e c', rest g k e c' -> next_waiter c' = next_waiter c -> wp (K tt) R c') ->
  wp (bind (emplace_entry k r) K) R c.
Proof.
  intros Hb Hr HK. unfold emplace_entry. apply wp_modify_bind.
  destruct (entries c !! k) as [e|] eqn:Ek; [by eapply HK|].
  eapply HK; [split; [by apply base_emplace|apply lookup_insert_eq]|done].
Qed.

(** ** Settling a request at once *)

(** One promise settled, with the lease it hands out already counted. *)
Lemma after_settle g s c :
  base (g <| g_held := grant (g_held g) s |> <| g_taken := [settlement_id s] |>) None c ->
  after g (c <| settled %= fun l => l ++ [s] |>).
Proof. intros Hb. exists [s]. by eapply base_settle in Hb; [exact Hb|]. Qed.

Lemma wp_settle_base {B} g s (K : unit -> ST (Core D) B) (R : B -> Core D -> Prop) c :
  base (g <| g_taken := [settlement_id s] |>) None c -> grant (g_held g) s = g_held g ->
  (forall c', after g c' -> wp (K tt) R c') -> wp (bind (settle s) K) R c.
Proof.
  intros Hb Hg HK. apply wp_modify_bind, HK, after_settle. rewrite Hg. by destruct g.
Qed.

Lemma wp_after_quiet {B} `{QuietProg _ m} g (K : unit -> ST (Core D) B) (R : B -> Core D -> Prop) c :
  after g c -> (forall c', after g c' -> wp (K tt) R c') -> wp (bind m K) R c.
Proof. apply (wp_quiet_bind (P := after g)). Qed.

Lemma wp_rest_reference {B} g k e o (K : unit -> ST (Core D) B) (R : B -> Core D -> Prop) c :
  rest g k e c -> Z.of_nat (length (g_held g)) < U64_MAX ->
  (forall a, o = Some a -> state e = vram_ready /\ device e = Some a) ->
  (forall c', rest (g <| g_held %= cons (k, o) |>) k (e <| references %= inc64 |>) c' -> wp (K tt) R c') ->
  wp (bind (add_reference_locked k) K) R c.
Proof.
  intros [Hb Hk] Hlen Ho HK. pose proof (focus_open _ _ _ _ Hb Hk) as HF.
  apply wp_bind. eapply (wp_add_reference _ _ _ _ o); [exact HF|done|].
  clear HF. intros c' HF. apply HK. split; [|apply HF].
  eapply (focus_close_same (g <| g_held %= cons (k, o) |>) _ _ (e <| references %= inc64 |>));
    [exact HF|exact (b_ok _ _ _ Hb k e Hk ltac:(done))| |].
  - intros a [[= <-]|Hin]%elem_of_cons; [by apply Ho|].
    destruct (b_held _ _ _ Hb _ _ Hin) as (w & Hw & ?); [done|]. assert (w = e) as -> by congruence. done.
  - intros Hd. destruct (b_dead _ _ _ Hb _ Hd) as (w & Hw & ?); [done|]. assert (w = e) as -> by congruence. done.
Qed.

(** A waiter joins the entry. *)
Lemma insert_waiter_ids e id o :
  id ∉ entry_ids e ->
  entry_ids (e <| waiters %= fun w => match w !! id with Some _ => w | None => <[id := o]> w end |>)
    ≡ₚ id :: entry_ids e /\
  forall p, entry_ids (e <| host_waiters %= fun w => match w !! id with Some _ => w | None => <[id := p]> w end |>)
    ≡ₚ id :: entry_ids e.
Proof.
  intros Hn. assert (Hw : waiters e !! id = None /\ host_waiters e !! id = None).
  { split; apply eq_None_not_Some; intros Hs; apply Hn, elem_of_entry_ids; [by exists true|by exists false]. }
  destruct Hw as [Hw Hh]. unfold entry_ids, update. simpl. rewrite Hw, Hh. split.
  - by rewrite map_to_list_insert.
  - intros p. rewrite map_to_list_insert by done. simpl. by rewrite Permutation_middle.
Qed.

(** The end of a join: the id now waits in the entry. *)
Lemma join_close g k e0 e m id c c0 :
  idle g -> base (g <| g_taken := [id] |>) None c0 -> entries c0 !! k = Some e0 ->
  state e = state e0 -> device e = device e0 -> entry_ok e ->
  entry_ids e ≡ₚ id :: entry_ids e0 ->
  focus (g <| g_taken := entry_ids e0 ++ [id] |>) m k e c -> after g c.
Proof.
  intros Hi Hb Hk Hs Hd Hok Hids HF. apply base_after; [done|].
  assert (HB : base (g <| g_taken := entry_ids e0 ++ [id] |> <| g_taken := [] |>) None c); cycle 1.
  { destruct g. simpl in *. destruct Hi as [Ht _]. simpl in Ht. by subst. }
  eapply focus_close; [exact HF| |done| |]; simpl.
  - by rewrite Hids, app_nil_r, Permutation_app_comm.
  - intros a Ha. destruct (b_held _ _ _ Hb k a Ha) as (w & Hw & ?); [done|].
    assert (w = e0) as -> by congruence. by rewrite Hs, Hd.
  - intros Hdd. destruct (b_dead _ _ _ Hb k Hdd) as (w & Hw & ?); [done|].
    assert (w = e0) as -> by congruence. by rewrite Hs.
Qed.

Lemma fresh_id g k e id c :
  base (g <| g_taken := [id] |>) None c -> entries c !! k = Some e -> id ∉ entry_ids e.
Proof.
  intros Hb Hk [b Hw]%elem_of_entry_ids.
  destruct (b_pending _ _ _ Hb k e b id Hk ltac:(done) Hw) as (_ & _ & Hn & _). apply Hn. by left.
Qed.

(** How both joins end. *)
Lemma wp_join_end g k e id f q Q c :
  idle g -> rest (g <| g_taken := [id] |>) k e c -> state e <> failed ->
  neutral e (f e) -> state (f e) = state e -> device (f e) = device e ->
  (entry_ok e -> state e <> failed -> entry_ok (f e)) ->
  (id ∉ entry_ids e -> entry_ids (f e) ≡ₚ id :: entry_ids e) -> QuietProg q ->
  (forall c', after g c' -> Q tt c') ->
  wp (set_entry k f ;* q ;* set_entry k (fun e => e <| abandon := false |>) ;*
      refresh_task_indexes_locked k) Q c.
Proof.
  intros Hi [Hb Hk] Hs Hn Hst Hd Hok Hids Hq HQ.
  pose proof (focus_open _ _ _ _ Hb Hk) as HF. simpl in HF.
  eapply wp_set_entry; [exact HF|exact Hn|]. clear HF. intros c1 HF. do 2 fstep HF.
  eapply wp_refresh_focus; [exact HF|]. clear HF. intros c' HF. apply HQ.
  eapply (join_close _ _ _ ((f e) <| abandon := false |>)); [done|exact Hb|exact Hk|exact Hst|exact Hd| | |exact HF].
  - apply Hok; [|done]. by apply (b_ok _ _ _ Hb k).
  - by eapply Hids, fresh_id.
Qed.

Lemma wp_join_waiter g k e id o p Q c :
  idle g -> rest (g <| g_taken := [id] |>) k e c -> state e <> failed ->
  (forall c', after g c' -> Q tt c') -> wp (join_waiter k id o p) Q c.
Proof.
  intros Hi HR Hs HQ.
  assert (Htail : forall e1 c, mild e e1 -> rest (g <| g_taken := [id] |>) k e1 c ->
    wp (when (negb (bool_decide (waiters e = ∅)) || negb (bool_decide (state e = absent)))
         (count "load_deduplicated_") ;*
        set_entry k (fun e => e <| waiters %= fun w => match w !! id with
                                                | Some _ => w
                                                | None => <[id := o]> w
                                                end |>) ;*
        when (higher_priority (acquire_priority o) p) (count "priority_upgrades_") ;*
        set_entry k (fun e => e <| abandon := false |>) ;*
        refresh_task_indexes_locked k) Q c).
  { clear HR c. intros e1 c Hm HR. eapply wp_rest_quiet; [exact HR|]. clear c HR. intros c HR.
    eapply wp_join_end; [done|exact HR|by rewrite (m_state _ _ Hm)|solve_neutral|done|done| | |apply _|done].
    - intros [Hres Hch] Hf. split; [|exact Hch]. revert Hres Hf. unfold residency_ok. simpl.
      by destruct (state e1).
    - intros Hid. by apply insert_waiter_ids. }
  unfold join_waiter. eapply wp_entry_at; [apply HR|]. cbn beta.
  destruct (bool_decide (state e = ram_ready) || _); [|eapply wp_rest_quiet; [exact HR|]; clear c HR; intros c HR;
    by eapply Htail; [apply mild_refl|]].
  apply wp_assoc. eapply wp_rest_quiet; [exact HR|]. clear c HR. intros c HR.
  apply wp_assoc. eapply wp_rest_quiet; [exact HR|]. clear c HR. intros c HR.
  apply wp_when_bind; intros _; [|by eapply Htail; [apply mild_refl|]].
  do 2 (apply wp_assoc; eapply wp_rest_quiet; [exact HR|]; clear c HR; intros c HR).
  eapply wp_rest_set; [exact HR|by split|done|]. clear HR. intros c1 HR.
  by eapply Htail; [|exact HR].
Qed.

Lemma wp_join_host_waiter g k e id o p Q c :
  idle g -> rest (g <| g_taken := [id] |>) k e c -> state e <> failed ->
  (forall c', after g c' -> Q tt c') -> wp (join_host_waiter k id o p) Q c.
Proof.
  intros Hi HR Hs HQ. unfold join_host_waiter. eapply wp_rest_quiet; [exact HR|].
  clear c HR. intros c HR.
  eapply wp_join_end; [done|exact HR|done|solve_neutral|done|done| | |apply _|done].
  - intros [Hres Hch] Hf. split; [|exact Hch]. revert Hres Hf. unfold residency_ok. simpl.
    by destruct (state e).
  - intros Hid. apply (insert_waiter_ids e id (mkAcquireOptions warm false false false false) Hid).
Qed.

(** Room for one more promise and one more lease. *)
Definition capacity (g : Ghost) (c : Core D) : Prop :=
  Z.of_nat (length (g_held g)) + next_waiter c < U64_MAX.


Lemma wp_settle_acquire {B} g p id b st (K : unit -> ST (Core D) B) (R : B -> Core D -> Prop) c :
  base (g <| g_taken := [id] |>) None c ->
  (forall c', after g c' -> wp (K tt) R c') -> wp (bind (settle_acquire p id b st None) K) R c.
Proof.
  intros Hb HK. unfold settle_acquire. apply wp_assoc. bstep Hb. apply wp_assoc. bstep Hb.
  by eapply (wp_settle_base _ (AcquireSettled id st None)).
Qed.

Lemma wp_settle_preload_failure {B} g p id st (K : unit -> ST (Core D) B) (R : B -> Core D -> Prop) c :
  base (g <| g_taken := [id] |>) None c ->
  (forall c', after g c' -> wp (K tt) R c') -> wp (bind (settle_preload_failure p id st) K) R c.
Proof.
  intros Hb HK. unfold settle_preload_failure. apply wp_assoc. bstep Hb. apply wp_assoc. bstep Hb.
  by eapply (wp_settle_base _ (PreloadSettled id st false None)).
Qed.

Lemma wp_optional_heat {B} g k e (b : bool) (K : unit -> ST (Core D) B) (R : B -> Core D -> Prop) c :
  rest g k e c -> roomless g ->
  (forall e' c', rest g k e' c' -> mild e e' -> wp (K tt) R c') ->
  wp (bind (when b (touch_locked k ;* promote_ram_locked k false ;* promote_vram_locked k false)) K) R c.
Proof.
  intros HR Hr HK. apply wp_bind, wp_when; intros _.
  - eapply wp_heat; [exact HR|done|exact HK].
  - eapply HK; [exact HR|apply mild_refl].
Qed.

(** The decision [acquire] takes on the entry, heat aside. *)
Lemma wp_acquire_decide g k r o id previous e c :
  rest (g <| g_taken := [id] |>) k e c -> idle g -> Z.of_nat (length (g_held g)) < U64_MAX ->
  let p := acquire_priority o in
  wp (let* e := entry_at k in
    if negb (same_record (record e) r) then
      settle_acquire p id true
        (mkStatus invalid_arg "same expert key references different immutable records") None ;*
      ret (id, false)
    else if bool_decide (state e = failed) then
      settle_acquire p id true
        (mkStatus checksum_mismatch "expert is quarantined after a failed load") None ;*
      ret (id, false)
    else
      match device e with
      | Some a =>
        if bool_decide (state e = vram_ready) then
          count "acquire_vram_hits_" ;*
          count_at "vram_hits_by_priority_" p ;*
          record_waiter_completion p ;*
          add_reference_locked k ;*
          settle (AcquireSettled id success (Some (k, a))) ;*
          ret (id, false)
        else join_waiter k id o previous ;* ret (id, true)
      | None => join_waiter k id o previous ;* ret (id, true)
      end) (fun _ => after g) c.
Proof.
  intros HR Hi Hlen p. eapply wp_entry_at; [apply HR|]. cbn beta.
  destruct (negb _).
  { eapply wp_settle_acquire; [apply HR|]. intros ? Ha. by apply wp_ret. }
  case_bool_decide as Hs.
  { eapply wp_settle_acquire; [apply HR|]. intros ? Ha. by apply wp_ret. }
  assert (Hjoin : wp (join_waiter k id o previous ;* ret (id, true)) (fun _ => after g) c).
  { apply wp_bind. eapply wp_join_waiter; [done|exact HR|done|]. intros ? Ha. by apply wp_ret. }
  destruct (device e) as [a|] eqn:Ed; [|exact Hjoin]. case_bool_decide as Hv; [|exact Hjoin].
  clear Hjoin. do 3 bstep HR.
  eapply (wp_rest_reference _ _ _ (Some a)); [exact HR|done|by intros ? [= <-]|].
  clear HR. intros c' [HR _]. apply wp_modify_bind, wp_ret, after_settle, HR.
Qed.

Lemma wp_acquire g k r o c :
  base g None c -> idle g -> record_ok r -> capacity g c ->
  wp (acquire k r o) (fun _ => after g) c.
Proof.
  intros Hb Hi Hr Hc. unfold acquire, capacity in *. pose proof (b_next _ _ _ Hb).
  eapply wp_take_waiter_id; [exact Hb|apply Hi|lia|]. clear Hb.
  intros c1 Hn _ Hb. do 2 bstep Hb. apply wp_get_bind. destruct (shutting_down c2).
  { do 3 bstep Hb. eapply (wp_settle_base g (AcquireSettled _ _ None)); [exact Hb|done|].
    intros ? Ha. by apply wp_ret. }
  eapply wp_emplace; [exact Hb|done|]. clear Hb. intros e c3 HR _.
  eapply wp_entry_at; [apply HR|]. cbn beta.
  eapply wp_optional_heat; [exact HR|apply Hi|]. clear HR. intros e1 c4 HR _.
  apply wp_when_bind; intros _; [|eapply wp_acquire_decide; [exact HR|done|lia]].
  apply wp_assoc. eapply wp_rest_set; [exact HR|by split|done|]. clear HR. intros c5 HR. cbn beta.
  apply wp_bind. eapply wp_promote_vram; [exact HR|]. clear HR. intros e2 c6 HR _.
  eapply wp_acquire_decide; [exact HR|done|lia].
Qed.

Lemma wp_preload_hit g k e id o copy Q c :
  rest (g <| g_taken := [id] |>) k e c -> idle g -> Z.of_nat (length (g_held g)) < U64_MAX ->
  (forall c', after g c' -> Q tt c') -> wp (preload_hit k id o copy) Q c.
Proof.
  intros HR Hi Hlen HQ. unfold preload_hit. bstep HR.
  assert (Hrest : forall e c, rest (g <| g_taken := [id] |>) k e c ->
    wp (when (acquire_lease o) (add_reference_locked k) ;*
      settle (PreloadSettled id success true (if acquire_lease o then Some (k, copy) else None)) ;*
      record_waiter_completion (preload_priority o) ;*
      count "host_preloads_completed_") Q c).
  { clear dependent c. clear c0 HR. intros e1 c HR.
    assert (Hend : forall c, after g c -> wp (record_waiter_completion (preload_priority o) ;*
      count "host_preloads_completed_") Q c).
    { intros c1 Ha. by eapply (wp_quiet (P := after g)). }
    destruct (acquire_lease o); cbn [when].
    - eapply (wp_rest_reference _ _ _ None); [exact HR|done|done|]. clear HR. intros c1 [Hb _].
      apply wp_modify_bind, Hend, after_settle, Hb.
    - apply wp_ret_bind. eapply (wp_settle_base g (PreloadSettled id success true None));
        [apply HR|done|exact Hend]. }
  apply wp_when_bind; intros _; [|by eapply Hrest].
  apply wp_assoc. eapply wp_rest_set; [exact HR|by split|done|]. clear HR. intros c1 HR. cbn beta.
  apply wp_bind. eapply wp_promote_ram; [exact HR|apply Hi|]. clear HR. intros e1 c2 HR _.
  by eapply Hrest.
Qed.

Lemma wp_preload_host g k r o c :
  base g None c -> idle g -> record_ok r -> capacity g c ->
  wp (preload_host k r o) (fun _ => after g) c.
Proof.
  intros Hb Hi Hr Hc. unfold preload_host, capacity in *. pose proof (b_next _ _ _ Hb).
  eapply wp_take_waiter_id; [exact Hb|apply Hi|lia|]. clear Hb.
  intros c1 Hn _ Hb. do 3 bstep Hb. apply wp_get_bind. destruct (shutting_down _).
  { do 3 bstep Hb. eapply (wp_settle_base g (PreloadSettled _ _ false None)); [exact Hb|done|].
    intros ? Ha. by apply wp_ret. }
  eapply wp_emplace; [exact Hb|done|]. clear Hb. intros e c' HR _.
  eapply wp_entry_at; [apply HR|]. cbn beta.
  destruct (negb _).
  { eapply wp_settle_preload_failure; [apply HR|]. intros ? Ha. by apply wp_ret. }
  case_bool_decide as Hs.
  { eapply wp_settle_preload_failure; [apply HR|]. intros ? Ha. by apply wp_ret. }
  match goal with |- context [if ?b || bool_decide (state e = gpu_uploading) then _ else _] =>
    set (resident := b) end. clearbody resident.
  set (id := next_waiter _) in *. clearbody id.
  assert (Hno : wp (if resident || bool_decide (state e = gpu_uploading) then
      count_at "host_lookup_misses_by_priority_" (preload_priority o) ;*
      settle_preload_failure (preload_priority o) id
        (mkStatus backpressure "resident expert has no pageable host copy") ;* ret (id, false)
      else join_host_waiter k id o (previous_priority e (preload_priority o)) ;* ret (id, true))
      (fun _ => after g) c').
  { destruct (resident || _).
    - bstep HR. eapply wp_settle_preload_failure; [apply HR|]. intros ? Ha. by apply wp_ret.
    - apply wp_bind. eapply wp_join_host_waiter; [done|exact HR|done|]. intros ? Ha. by apply wp_ret. }
  destruct (host_copy e) as [copy|]; [|exact Hno]. destruct (_ && resident); [|exact Hno].
  apply wp_bind. eapply wp_preload_hit; [exact HR|done|lia|]. intros ? Ha. by apply wp_ret.
Qed.

Lemma quiet_rest_base g k e c : rest g k e c -> base g None c.
Proof. by intros [? _]. Qed.

Lemma wp_quiet_ret {A} `{QuietProg _ m} g (a : A) (R : A -> Core D -> Prop) c :
  base g None c -> (forall c', base g None c' -> R a c') -> wp (bind m (fun _ => ret a)) R c.
Proof. intros Hb HR. eapply wp_quiet_base; [exact Hb|]. intros c' Hb'. by apply wp_ret, HR. Qed.

(** A successful [try_acquire_host] hands out one host lease. *)
Lemma wp_try_acquire_host g k r b p c :
  base g None c -> idle g -> capacity g c ->
  wp (try_acquire_host k r b p) (fun x c' =>
    base (if x then g <| g_held %= cons (k, None) |> else g) None c' /\
    (forall lease, x = Some lease -> exists e, entries c !! k = Some e /\ lease.1 = k /\
      host_copy e = Some lease.2 /\ is_Some (validated_sections e))) c.
Proof.
  intros Hb Hi Hc. unfold try_acquire_host, capacity in *. pose proof (b_next _ _ _ Hb).
  eapply (wp_quiet_bind (P := fun c' => base g None c' /\ entries c' = entries c)); [done|].
  intros c1 H1. eapply (wp_quiet_bind (P := fun c' => base g None c' /\ entries c' = entries c)); [exact H1|].
  clear c1 H1. intros c1 [H1 He]. apply wp_get_bind.
  destruct (shutting_down c1); [by apply wp_ret|]. rewrite He.
  destruct (entries c !! k) as [e|] eqn:Ek; cycle 1.
  { do 2 bstep H1. by apply wp_ret. }
  destruct (host_copy e) as [copy|] eqn:Ec; cycle 1.
  { do 2 bstep H1. by apply wp_ret. }
  destruct (_ && _) eqn:Eu; cycle 1.
  { do 2 bstep H1. by apply wp_ret. }
  rewrite !andb_true_iff in Eu. destruct Eu as [[_ Hs] _].
  assert (HR : rest g k e c1) by (split; [done|by rewrite He]).
  eapply wp_optional_heat; [exact HR|apply Hi|]. clear HR. intros e1 c2 HR Hm.
  eapply (wp_rest_reference _ _ _ None); [exact HR|lia|done|]. clear HR. intros c3 HR.
  do 2 bstep HR. apply wp_ret. split; [apply HR|]. intros lease [= <-]. exists e.
  split_and!; try done. by destruct (validated_sections e).
Qed.

Lemma wp_record_access g k n c :
  base g None c -> idle g -> wp (record_access k n) (fun _ => base g None) c.
Proof.
  intros Hb Hi. unfold record_access. destruct (_ =? 0); [by apply wp_ret|].
  bstep Hb. apply wp_get_bind. destruct (shutting_down _); [by apply wp_ret|].
  destruct (entries c0 !! k) as [e|] eqn:Ek; [|by apply wp_ret].
  apply wp_bind. eapply wp_touch_times; [by split|]. intros e1 c1 HR _.
  apply wp_unassoc, wp_bind. eapply wp_promote; [exact HR|apply Hi|]. clear HR.
  intros e2 c2 [HR _] _. by apply wp_ret.
Qed.

Lemma wp_record_accesses_loop g l n c :
  base g None c -> idle g -> (forall a, a ∈ l -> scaled_sum_q20 (routing_score_sum a) <> None) ->
  wp (record_accesses_loop l n) (fun _ => base g None) c.
Proof.
  intros Hb Hi. revert n c Hb. induction l as [|a l IH]; intros n c Hb Hl; simpl; [by apply wp_ret|].
  apply wp_get_bind. destruct (_ || _) eqn:E.
  { apply IH; [done|]. intros b Hin. apply Hl. by right. }
  apply orb_false_iff in E as [_ E]. apply negb_false_iff in E.
  destruct (entries c !! access_key a) as [e|] eqn:Ek; [|done].
  apply wp_bind. eapply wp_touch_times; [by split|]. intros e1 c1 HR _.
  eapply wp_add_routing_score; [exact HR|apply Hl; by left|]. clear HR. intros e2 c2 HR _.
  apply wp_unassoc, wp_bind. eapply wp_promote; [exact HR|apply Hi|]. clear HR.
  intros e3 c3 [HR _] _. apply IH; [done|]. intros b Hin. apply Hl. by right.
Qed.

Lemma wp_record_accesses g l c :
  base g None c -> idle g -> (forall a, a ∈ l -> scaled_sum_q20 (routing_score_sum a) <> None) ->
  wp (record_accesses l) (fun _ => base g None) c.
Proof.
  intros Hb Hi Hl. unfold record_accesses. bstep Hb. apply wp_get_bind.
  destruct (shutting_down _); [by apply wp_ret|]. by apply wp_record_accesses_loop.
Qed.

Lemma wp_protect g k b1 b2 c :
  base g None c -> idle g -> wp (protect k b1 b2) (fun _ => base g None) c.
Proof.
  intros Hb Hi. unfold protect. bstep Hb. apply wp_get_bind.
  destruct (shutting_down _); [by apply wp_ret|].
  destruct (entries c0 !! k) as [e|] eqn:Ek; [|by apply wp_ret].
  assert (HR : rest g k e c0) by done. clear Hb Ek.
  assert (H2 : forall e c, rest g k e c -> wp (
    when b2 (
        set_entry k (fun e => e <| vram_resident_requested := true |>) ;*
        promote_vram_locked k true) ;*
    let* e := entry_at k in
    let* c := get in
    ret ((negb b1 || negb (is_some (host_copy e)) || ram_protected e
            || (placement_ram_protected_bytes (placement (config c)) =? 0))
           && (negb b2 || negb (is_some (device e)) || vram_resident e
               || (placement_vram_transient_bytes (placement (config c)) =? 0))))
    (fun _ => base g None) c).
  { clear dependent c0. clear e. intros e c1 HR. apply wp_when_bind; intros _.
    - apply wp_assoc. eapply wp_rest_set; [exact HR|by split|done|]. clear HR. intros c2 HR. cbn beta.
      apply wp_bind. eapply wp_promote_vram; [exact HR|]. clear HR. intros e2 c3 HR _.
      eapply wp_entry_at; [apply HR|]. cbn beta. apply wp_get_bind, wp_ret, HR.
    - eapply wp_entry_at; [apply HR|]. cbn beta. apply wp_get_bind, wp_ret, HR. }
  apply wp_when_bind; intros _; [|by eapply H2].
  apply wp_assoc. eapply wp_rest_set; [exact HR|by split|done|]. clear HR. intros c2 HR. cbn beta.
  apply wp_bind. eapply wp_promote_ram; [exact HR|apply Hi|]. clear HR. intros e2 c3 HR _.
  by eapply H2.
Qed.
End Ops.
