(* ===== verification/ExpertCacheDrive.v ===== *)
(** The operations behind [drive]: task selection, reads, host preparation, uploads,
    and the ends of requests, each with the invariant of [ExpertCacheInv]. *)

From S2P Require Import Prelude Storage CacheState BufferPool.
From S2P Require Import ExpertRecord Telemetry Doubles ExpertCache ExpertCacheInv.
From S2P Require Import ExpertCacheSteps ExpertCachePrims ExpertCacheEvict ExpertCacheOps.

Section Drive.
Context {D : Type} `{DeviceDirectory D}.
Implicit Types (c : Core D) (g : Ghost) (e : Entry) (Q : unit -> Core D -> Prop).

(** ** Opening and closing one entry *)

(** What closing an entry asks of it. *)
Definition closes (g : Ghost) (k : ExpertKey) (e : Entry) : Prop :=
  entry_ok e /\ (forall a, (k, Some a) ∈ g_held g -> state e = vram_ready /\ device e = Some a) /\
  (k ∈ g_dead g -> state e = failed).

Lemma rest_closes g k e c : rest g k e c -> closes g k e.
Proof.
  intros [Hb Hk]. split_and!; [by apply (b_ok _ _ _ Hb k)| |].
  - intros a Ha. destruct (b_held _ _ _ Hb k a Ha) as (w & Hw & ?); [done|].
    assert (w = e) as -> by congruence. done.
  - intros Hd. destruct (b_dead _ _ _ Hb k Hd) as (w & Hw & ?); [done|].
    assert (w = e) as -> by congruence. done.
Qed.

(** No leased device copy, not quarantined: the entry may change state. *)
Lemma rest_free g k e c :
  rest g k e c -> state e <> vram_ready -> state e <> failed ->
  (forall a, (k, Some a) ∉ g_held g) /\ k ∉ g_dead g.
Proof.
  intros HR Hv Hf. destruct (rest_closes _ _ _ _ HR) as (_ & Hl & Hd). split.
  - intros a Ha. by destruct (Hl a Ha).
  - intros Hk. by apply Hf, Hd.
Qed.

Lemma free_closes g k e :
  (forall a, (k, Some a) ∉ g_held g) -> k ∉ g_dead g -> entry_ok e -> closes g k e.
Proof. intros Hh Hd Hok. split_and!; [done|intros a Ha; by destruct (Hh a)|done]. Qed.

Lemma rest_open g k e c :
  rest g k e c -> exists m, focus (g <| g_taken %= app (entry_ids e) |>) m k e c.
Proof. intros [Hb Hk]. eexists. by apply focus_open. Qed.

Lemma idle_open g ids : idle g -> g <| g_taken %= app ids |> = settled_with g [] ids.
Proof.
  intros [Ht _]. destruct g. unfold settled_with, update. simpl in *. subst. by rewrite !app_nil_r.
Qed.

Lemma focus_after g ss T m k e c :
  focus (settled_with g ss T) m k e c -> T ≡ₚ entry_ids e -> closes (settled_with g ss []) k e ->
  after g c.
Proof.
  intros HF HT (Hok & Hl & Hd). exists ss.
  assert (HB : base ((settled_with g ss T) <| g_taken := [] |>) None c); [|exact HB].
  eapply focus_close; [exact HF|by rewrite app_nil_r|done..].
Qed.

(** The same entry ids, nothing settled: at rest again. *)
Lemma focus_rest g m k e ids c :
  focus (g <| g_taken %= app ids |>) m k e c -> ids = entry_ids e -> closes g k e -> rest g k e c.
Proof.
  intros HF -> (Hok & Hl & Hd). split; [by eapply focus_close_same|apply HF].
Qed.

(** ** Uploads: selection *)

Lemma wp_reject g k e (R : bool -> Core D -> Prop) c :
  rest g k e c -> idle g -> state e <> failed -> (forall b c', after g c' -> R b c') ->
  wp (reject_blocked_device_waiters_locked k) R c.
Proof.
  intros HR Hi Hs HQ. pose proof (rest_closes _ _ _ _ HR) as (Hok & Hl & Hd).
  destruct (rest_open _ _ _ _ HR) as [m HF]. rewrite idle_open in HF by done.
  eapply wp_reject_blocked; [exact HF|simpl; by rewrite app_nil_r|].
  clear HF. intros b c' W T HW HT HF. apply HQ.
  assert (HF' : focus (settled_with g (rejections (blocked_waiters e)) T) m k
    (e <| waiters := W |>) c').
  { revert HF. unfold settled_with, update. simpl. rewrite app_nil_r.
    unfold rejections. by rewrite grants_failed. }
  eapply focus_after; [exact HF'|by rewrite HT, app_nil_r|].
  unfold closes. simpl. unfold rejections. rewrite grants_failed by done. split_and!; [|done..].
  destruct Hok as [Hres Hch]. split; [|exact Hch]. revert Hres Hs. unfold residency_ok. simpl.
  by destruct (state e).
Qed.

(** Using up the room of a capacity check for a device reservation. *)
Lemma focus_ghost g g' m k e c : g = g' -> focus g m k e c -> focus g' m k e c.
Proof. by intros ->. Qed.

Lemma with_room_used n v (p : bool) g :
  roomless g -> no_vram_room (no_ram_room (with_room n v p g)) = g.
Proof.
  intros (R1 & R2 & R3 & R4). destruct p, g; simpl in R1, R2, R3, R4; subst; reflexivity.
Qed.

Lemma with_room_used_vram v (p : bool) g :
  roomless g -> no_vram_room (with_room 0 v p g) = g.
Proof.
  intros (R1 & R2 & R3 & R4). destruct p, g; simpl in R1, R2, R3, R4; subst; reflexivity.
Qed.

Lemma with_room_used_ram n (p : bool) g :
  roomless g -> no_ram_room (with_room n 0 p g) = g.
Proof.
  intros (R1 & R2 & R3 & R4). destruct p, g; simpl in R1, R2, R3, R4; subst; reflexivity.
Qed.

Lemma wp_start_upload g k e p c :
  rest g k e c -> idle g -> state e = ram_ready ->
  wp (transition_locked k gpu_uploading ;*
      set_entry k (fun e => e <| upload_priority := p |>) ;*
      count "upload_started_" ;*
      count_at "uploads_started_by_priority_" p ;*
      ret (Some (TaskUpload k))) (fun _ => after g) c.
Proof.
  intros HR Hi Hs. pose proof (rest_free _ _ _ _ HR ltac:(congruence) ltac:(congruence)) as [Hh Hd].
  pose proof (rest_closes _ _ _ _ HR) as ([Hres Hch] & _).
  destruct (rest_open _ _ _ _ HR) as [m HF]. clear HR.
  apply wp_bind. eapply wp_transition; [exact HF|by rewrite Hs|]. clear c HF. intros c HF.
  do 3 fstep HF. apply wp_ret, base_after; [done|].
  eapply (quiet_rest_base _ k), focus_rest; [exact HF|done|]. apply free_closes; [done|done|].
  split; [|exact Hch]. revert Hres. unfold residency_ok. rewrite Hs. done.
Qed.

Lemma wp_reserve_device {B} g v k e r (K : unit -> ST (Core D) B) (R : B -> Core D -> Prop) c :
  rest (with_room 0 v false g) k e c -> roomless g -> 0 <= v -> state e = ram_ready ->
  (forall e' c', rest g k e' c' -> state e' = ram_ready -> wp (K tt) R c') ->
  wp (bind (reserve_vram_locked k v r) K) R c.
Proof.
  intros HR Hroom Hv Hs HK. destruct (rest_open _ _ _ _ HR) as [m HF].
  pose proof (rest_closes _ _ _ _ HR) as ([Hres Hch] & Hl & Hd). clear HR.
  apply wp_bind. eapply wp_reserve_vram; [exact HF|simpl; lia|]. clear HF. intros c' HF.
  assert (HF' : focus (g <| g_taken %= app (entry_ids e) |>) m k
    (e <| vram_resident := r |> <| vram_reserved := vram_reserved e + v |>) c').
  { revert HF. change (no_vram_room ((with_room 0 v false g) <| g_taken %= app (entry_ids e) |>))
      with ((no_vram_room (with_room 0 v false g)) <| g_taken %= app (entry_ids e) |>).
    by rewrite with_room_used_vram. }
  eapply HK; [eapply focus_rest; [exact HF'|done|]|exact Hs].
  unfold closes. destruct g; split_and!; [|done..]. destruct Hch as [Hr _].
  revert Hres. unfold residency_ok. rewrite Hs. intros Hres. split.
  - unfold residency_ok. simpl. by rewrite Hs.
  - split; [exact Hr|]. simpl. intros a Ha. destruct Hres as (_ & Hn & _). congruence.
Qed.

Lemma rest_refresh {B} g k e (K : unit -> ST (Core D) B) (R : B -> Core D -> Prop) c :
  rest g k e c -> (forall c', rest g k e c' -> wp (K tt) R c') ->
  wp (bind (refresh_task_indexes_locked k) K) R c.
Proof. intros HR HK. apply wp_bind. by eapply (wp_refresh (P := rest g k e)); [apply HR|..]. Qed.

Lemma rest_after g k e c : idle g -> rest g k e c -> after g c.
Proof. intros Hi [Hb _]. by apply base_after. Qed.

Lemma wp_consider_upload g p k c :
  base g None c -> idle g -> is_Some (entries c !! k) ->
  wp (consider_upload p k) (fun _ => after g) c.
Proof.
  intros Hb Hi [e Hk]. unfold consider_upload. apply wp_get_bind. rewrite Hk.
  assert (HR : rest g k e c) by done. clear Hb Hk. bstep HR. destruct (_ || _) eqn:E.
  { eapply rest_refresh; [exact HR|]. clear HR. intros c1 HR. by eapply wp_ret, rest_after. }
  rewrite !orb_false_iff in E. destruct E as ((_ & Hs) & _).
  apply negb_false_iff, bool_decide_eq_true in Hs. destruct (vram_reserved e =? 0); cycle 1.
  { apply wp_ret_bind. by eapply wp_start_upload. }
  apply wp_assoc, wp_bind. destruct HR as [Hb Hk].
  eapply (wp_make_device_capacity g k e 0); [exact Hb|apply Hi|exact Hk|done|].
  intros [] r c1 Hb1 Ho1.
  - pose proof (rest_evicts g (with_room 0 (device_bytes (record e)) false g) k e _ _ (conj Hb Hk) Hb1 Ho1) as HR.
    destruct (b_entry _ _ _ Hb _ _ Hk) as (_ & Hrec & _). apply device_bytes_bound in Hrec.
    apply wp_assoc. eapply wp_reserve_device; [exact HR|apply Hi|lia|done|].
    clear HR. intros e1 c2 HR Hs1. apply wp_assoc. bstep HR. apply wp_ret_bind.
    by eapply wp_start_upload.
  - pose proof (rest_evicts g g k e _ _ (conj Hb Hk) Hb1 Ho1) as HR.
    apply wp_assoc, wp_bind. eapply wp_reject; [exact HR|done|congruence|].
    intros b c2 Ha. apply wp_ret_bind. by apply wp_ret.
Qed.

(** Taking a staging slot, with the lease put into the entry. *)
Lemma focus_pool g m k e l p c (n : Z) cls pr :
  focus g m k e c -> host e = None -> try_acquire n cls (buffers c) = (Some l, p) ->
  let f e := e <| host := Some l |> <| staging_priority := pr |> in
  focus g m k (f e) (c <| buffers := p |> <| entries %= alter f k |>).
Proof.
  intros HF Hh Ht f. pose proof HF as (Hb & Hk & Hm).
  destruct (b_entry _ _ _ Hb _ _ Hk) as (_ & _ & ? & ?).
  eapply focus_edit; [exact HF|apply same_ghost_refl| |exact (b_rooms_ok g _ c Hb)].
  solve_edit. rewrite Hh. intros Hp. by apply (try_acquire_inv _ _ _ _ _ _ Hp Ht).
Qed.

Lemma quiet_pool (n : Z) cls p c :
  try_acquire n cls (buffers c) = (None, p) -> quiet c (c <| buffers := p |>).
Proof.
  intros Ht. split; try done.
  - intros k s Hs Hk. right. by exists s.
  - intros ls Hp. by apply (try_acquire_inv _ _ _ _ _ _ Hp Ht).
Qed.

Lemma with_room_drop n v (p : bool) g o c :
  roomless g -> base (with_room n v p g) o c -> base g o c.
Proof.
  intros (R1 & R2 & R3 & R4) Hb. eapply base_rooms; [| |exact Hb]; [by destruct p|].
  pose proof (b_ram_high _ _ _ Hb). pose proof (b_classes _ _ _ Hb) as Hcl.
  pose proof (b_vram_high _ _ _ Hb). pose proof (b_rooms _ _ _ Hb).
  unfold rooms_ok. rewrite R1, R2, R3, R4. revert Hcl.
  destruct p; simpl in *; intros Hcl; (split_and!; try lia); intros Hz; specialize (Hcl Hz); lia.
Qed.

(** The staging slot, the reservations and the transition of a read. *)
Lemma wp_start_read g k e p (protected resident demanded : bool) c :
  let n := stored_bytes (record e) in
  let v := if demanded then device_bytes (record e) else 0 in
  rest (with_room n v protected g) k e c -> idle g -> record_ok (record e) -> state e = absent ->
  wp (let* c := get in
      let '(lease, pool) := try_acquire n (buffer_class p) (buffers c) in
      modify (fun c => c <| buffers := pool |>) ;*
      match lease with
      | None =>
        count "stalled_by_budget_" ;*
        count_at "staging_stalls_by_priority_" p ;* ret None
      | Some l =>
        set_entry k (fun e => e <| host := Some l |> <| staging_priority := p |>) ;*
        reserve_ram_locked k n protected ;*
        when demanded (reserve_vram_locked k (device_bytes (record e)) resident) ;*
        when (negb (successful_reads e =? 0)) (
          count "reload_count_" ;*
          count_by "reread_bytes_" 0 n) ;*
        transition_locked k ssd_loading ;*
        count "load_started_" ;*
        count_at "reads_started_by_priority_" p ;*
        count_by "requested_bytes_" 0 n ;*
        update_usage_locked ;*
        ret (Some (TaskRead k))
      end) (fun _ => after g) c.
Proof.
  intros n v HR Hi Hrec Hs. apply wp_get_bind.
  destruct (try_acquire n (buffer_class p) (buffers c)) as [[l|] pool] eqn:Et; apply wp_modify_bind; cycle 1.
  { destruct HR as [Hb _]. apply with_room_drop in Hb; [|apply Hi].
    eapply base_quiet in Hb; [|by eapply quiet_pool]. do 2 bstep Hb. by apply wp_ret, base_after. }
  destruct (rest_free _ _ _ _ HR ltac:(congruence) ltac:(congruence)) as [Hh Hd].
  pose proof (rest_closes _ _ _ _ HR) as ([Hres [Hch _]] & _).
  unfold residency_ok in Hres. rewrite Hs in Hres. destruct Hres as [Hbytes Hdev].
  rewrite Hbytes in Hch. unfold has_host_bytes in Hbytes. apply orb_false_iff in Hbytes as [Hhost Hcopy].
  destruct (host e) eqn:Ehost; [done|]. destruct (host_copy e) eqn:Ecopy; [done|]. clear Hhost Hcopy.
  destruct (rest_open _ _ _ _ HR) as [m HF]. clear HR.
  pose proof (focus_pool _ _ _ _ _ _ _ _ _ p HF Ehost Et) as HF'. clear HF. rename HF' into HF.
  apply device_bytes_bound in Hrec as Hdb. destruct Hrec as [Hn _]. fold n in Hn.
  apply wp_modify_bind. cbv zeta in HF. revert HF. generalize (c <| buffers := pool |>
    <| entries %= alter (fun e => e <| host := Some l |> <| staging_priority := p |>) k |>).
  clear c Et. intros c HF.
  apply wp_bind. eapply (wp_reserve_ram _ _ _ _ n protected); [exact HF| |destruct protected; simpl; lia..|].
  { exact Hch. }
  clear HF. intros c1 HF.
  assert (Hend : forall w r c, focus (g <| g_taken %= app (entry_ids e) |>) m k
      (e <| host := Some l |> <| staging_priority := p |> <| ram_protected := protected |>
         <| ram_reserved := n |> <| vram_resident := r |> <| vram_reserved := w |>) c ->
    wp (when (negb (successful_reads e =? 0)) (
          count "reload_count_" ;*
          count_by "reread_bytes_" 0 n) ;*
        transition_locked k ssd_loading ;*
        count "load_started_" ;*
        count_at "reads_started_by_priority_" p ;*
        count_by "requested_bytes_" 0 n ;*
        update_usage_locked ;*
        ret (Some (TaskRead k))) (fun _ => after g) c).
  { clear HF c1 c. intros w r c HF. fstep HF. apply wp_bind.
    eapply wp_transition; [exact HF|simpl; by rewrite Hs|]. clear c HF. intros c HF. do 4 fstep HF.
    apply wp_ret. eapply (rest_after g k); [done|]. eapply focus_rest; [exact HF|done|].
    apply free_closes; [by destruct g, protected|by destruct g, protected|]. split.
    - unfold residency_ok. simpl. rewrite Ecopy, Hdev. by split_and!.
    - split; simpl; [done|]. intros a. by rewrite Hdev. }
  apply wp_when_bind; intros Ed.
  - unfold v in HF. rewrite Ed in HF. apply wp_bind.
    eapply (wp_reserve_vram _ _ _ _ (device_bytes (record e)) resident); [exact HF|destruct protected; simpl; lia|].
    clear HF. intros c2 HF. eapply (Hend _ resident), focus_ghost; [|exact HF].
    exact (f_equal (fun g => g <| g_taken %= app (entry_ids e) |>)
             (with_room_used n (device_bytes (record e)) protected g (proj2 Hi))).
  - unfold v in HF. rewrite Ed in HF.
    apply (Hend (vram_reserved e) (vram_resident e)). eapply focus_ghost; [|exact HF].
    exact (f_equal (fun g => g <| g_taken %= app (entry_ids e) |>)
             (with_room_used_ram n protected g (proj2 Hi))).
Qed.

Lemma grants_failed_settlements e s held : grants (failed_settlements e s) held = held.
Proof.
  unfold failed_settlements, grants. rewrite foldl_app.
  change (grants ((fun w => PreloadSettled w.1 s false None) <$> ordered Z.ltb (host_waiters e))
    (grants ((fun w => AcquireSettled w.1 s None) <$> ordered Z.ltb (waiters e)) held) = held).
  by rewrite !grants_failed.
Qed.

(** Failing an entry nobody holds a device lease on. *)
Lemma wp_fail_focus g ss T m k e s Q c :
  focus (settled_with g ss T) m k e c -> T ≡ₚ entry_ids e ->
  (forall a, (k, Some a) ∉ grants ss (g_held g)) ->
  (forall e' c', rest (settled_with g (ss ++ failed_settlements e s) []) k e' c' -> state e' = failed ->
    Q tt c') ->
  wp (fail_entry_locked k s) Q c.
Proof.
  intros HF HT Hh HQ. eapply wp_fail_entry; [exact HF|simpl; by rewrite HT, app_nil_r|done|].
  intros e' c' Hk Hs Hb. eapply HQ; [|exact Hs]. split; [|exact Hk]. revert Hb.
  unfold settled_with, update. simpl. rewrite <- app_assoc. unfold grants at 2.
  rewrite foldl_app. change (foldl grant (foldl grant (g_held g) ss) (failed_settlements e s))
    with (grants (failed_settlements e s) (grants ss (g_held g))).
  by rewrite grants_failed_settlements.
Qed.

Lemma wp_fail_end g k e s Q c :
  rest g k e c -> idle g -> state e <> vram_ready -> state e <> failed ->
  (forall c', after g c' -> Q tt c') -> wp (fail_entry_locked k s) Q c.
Proof.
  intros HR Hi Hv Hf HQ. destruct (rest_free _ _ _ _ HR Hv Hf) as [Hh _].
  destruct (rest_open _ _ _ _ HR) as [m HF]. rewrite idle_open in HF by done.
  eapply wp_fail_focus; [exact HF|done|exact Hh|].
  intros e' c' HR' _. apply HQ. exists ([] ++ failed_settlements e s). apply HR'.
Qed.

Lemma wp_fail {B} g k e s (K : unit -> ST (Core D) B) (R : B -> Core D -> Prop) c :
  rest g k e c -> idle g -> state e <> vram_ready -> state e <> failed ->
  (forall c', after g c' -> wp (K tt) R c') -> wp (bind (fail_entry_locked k s) K) R c.
Proof. intros HR Hi Hv Hf HK. apply wp_bind. by eapply wp_fail_end. Qed.

Lemma wp_consider_read g p k c :
  base g None c -> idle g -> is_Some (entries c !! k) ->
  wp (consider_read p k) (fun _ => after g) c.
Proof.
  intros Hb Hi [e Hk]. unfold consider_read. apply wp_get_bind. rewrite Hk.
  assert (HR : rest g k e c) by done. clear Hb Hk. bstep HR. destruct (_ || _) eqn:E.
  { eapply rest_refresh; [exact HR|]. clear HR. intros c1 HR. by eapply wp_ret, rest_after. }
  rewrite !orb_false_iff in E. destruct E as (_ & Hs).
  apply negb_false_iff, bool_decide_eq_true in Hs.
  destruct (_ || _).
  { eapply wp_fail; [exact HR|done|congruence|congruence|]. intros c1 Ha. by apply wp_ret. }
  destruct (_ && _).
  { by eapply wp_ret, rest_after. }
  pose proof HR as [Hb Hk]. destruct (b_entry _ _ _ Hb _ _ Hk) as (_ & Hrec & _).
  pose proof (device_bytes_bound _ Hrec) as Hdb.
  set (demanded := negb (bool_decide (waiters e = ∅))).
  set (v := if demanded then device_bytes (record e) else 0).
  assert (Hafter : forall (b r : bool) c1,
    base (if b then with_room (stored_bytes (record e)) v (ram_protected_requested e) g else g) None c1 ->
    only_evicts (Some k) c0 c1 -> wp (if negb b then
          when demanded (let* _ := reject_blocked_device_waiters_locked k in ret tt) ;*
          ret None
        else
          let* c := get in
          let '(lease, pool) := try_acquire (stored_bytes (record e)) (buffer_class p)
                                  (buffers c) in
          modify (fun c => c <| buffers := pool |>) ;*
          match lease with
          | None =>
            count "stalled_by_budget_" ;*
            count_at "staging_stalls_by_priority_" p ;* ret None
          | Some l =>
            set_entry k (fun e => e <| host := Some l |> <| staging_priority := p |>) ;*
            reserve_ram_locked k (stored_bytes (record e)) (ram_protected_requested e) ;*
            when demanded (reserve_vram_locked k (device_bytes (record e)) r) ;*
            when (negb (successful_reads e =? 0)) (
              count "reload_count_" ;*
              count_by "reread_bytes_" 0 (stored_bytes (record e))) ;*
            transition_locked k ssd_loading ;*
            count "load_started_" ;*
            count_at "reads_started_by_priority_" p ;*
            count_by "requested_bytes_" 0 (stored_bytes (record e)) ;*
            update_usage_locked ;*
            ret (Some (TaskRead k))
          end) (fun _ => after g) c1).
  { intros [] r c1 Hb1 Ho1; cbn [negb].
    - pose proof (rest_evicts _ _ _ _ _ _ HR Hb1 Ho1) as HR1.
      eapply wp_start_read; [exact HR1|done|exact Hrec|exact Hs].
    - pose proof (rest_evicts _ _ _ _ _ _ HR Hb1 Ho1) as HR1.
      apply wp_when_bind; intros _; [|by eapply wp_ret, rest_after].
      apply wp_assoc, wp_bind. eapply wp_reject; [exact HR1|done|congruence|].
      intros b c2 Ha. apply wp_ret_bind. by apply wp_ret. }
  fold demanded. clearbody demanded. apply wp_bind. destruct demanded.
  - eapply (wp_make_device_capacity g k e); [exact Hb|apply Hi|exact Hk|apply Hrec|].
    intros b r c1 Hb1 Ho1. by apply (Hafter b r).
  - apply wp_bind. eapply (wp_make_capacity g k _ 0); [exact Hb|apply Hi|apply Hrec|done|].
    intros b c1 Hb1 Ho1. apply wp_ret. by apply (Hafter b false).
Qed.

(** ** The task loop *)

Lemma wp_first_task g (f : ExpertKey -> ST (Core D) (option Task)) ks (R : option Task -> Core D -> Prop) c :
  (forall g k c, base g None c -> idle g -> is_Some (entries c !! k) -> wp (f k) (fun _ => after g) c) ->
  base g None c -> idle g -> (forall k, k ∈ ks -> is_Some (g_known g !! k)) ->
  (forall t c', after g c' -> R t c') -> wp (first_task f ks) R c.
Proof.
  intros Hf Hb Hi Hks HR. revert g c Hb Hi Hks HR. induction ks as [|k ks IH]; intros g c Hb Hi Hks HR; simpl.
  { by apply wp_ret, HR, base_after. }
  apply wp_bind. eapply wp_mono.
  { apply Hf; [exact Hb|done|]. eapply known_present; [exact Hb|]. apply Hks. by left. }
  intros [t|] c1 Ha; [by apply wp_ret, HR|]. destruct Ha as [ss Hb1].
  eapply (IH (settled_with g ss [])); [exact Hb1|by apply idle_settled| |].
  - intros j Hj. apply (Hks j). by right.
  - intros t c2 Ha. by eapply HR, after_trans.
Qed.

Lemma elem_of_key_set_at l i k : k ∈ key_set_at l i -> exists s, s ∈ l /\ k ∈ s.
Proof.
  unfold key_set_at. rewrite stable_sort_perm, elem_of_elements. intros Hk.
  destruct (decide (i < length l)%nat) as [Hi|Hi].
  - exists (nth i l ∅). split; [|done]. apply list_elem_of_In. by apply nth_In.
  - rewrite nth_overflow in Hk by lia. set_solver.
Qed.

(** Going on after some promises were settled. *)
Lemma wp_continue {A} g (m : ST (Core D) A) c :
  after g c -> idle g -> (forall g', base g' None c -> idle g' -> wp m (fun _ => after g') c) ->
  wp m (fun _ => after g) c.
Proof.
  intros [ss Hb] Hi Hm. eapply wp_mono; [by apply Hm; [exact Hb|apply idle_settled]|].
  intros a c'. apply after_trans.
Qed.

Lemma wp_first_indexed g (f : ExpertKey -> ST (Core D) (option Task)) l i c :
  (forall g k c, base g None c -> idle g -> is_Some (entries c !! k) -> wp (f k) (fun _ => after g) c) ->
  base g None c -> idle g -> (forall s, s ∈ l -> s ∈ read_task_keys c ++ upload_task_keys c) ->
  wp (first_task f (key_set_at l i)) (fun _ => after g) c.
Proof.
  intros Hf Hb Hi Hl. eapply (wp_first_task (g <| g_known := records_of c |>));
    [exact Hf|by apply base_learn_all|exact Hi| |intros t c'; by apply learn_forget].
  intros k (s & Hs & Hk)%elem_of_key_set_at. simpl. unfold records_of.
  rewrite lookup_fmap, fmap_is_Some. eapply (b_index _ _ _ Hb); [by apply Hl|exact Hk].
Qed.

Lemma wp_next_task_from g ps c :
  base g None c -> idle g -> wp (next_task_from ps) (fun _ => after g) c.
Proof.
  revert g c. induction ps as [|p ps IH]; intros g c Hb Hi; simpl.
  { by apply wp_ret, base_after. }
  apply wp_get_bind. eapply wp_bind_mono.
  { apply (wp_first_indexed g); [|exact Hb|exact Hi|intros; apply elem_of_app; by right].
    intros. by apply wp_consider_upload. }
  intros [t|] c1 Ha; [by apply wp_ret|]. eapply wp_continue; [exact Ha|done|].
  clear g Hb Hi Ha. intros g Hb Hi. apply wp_get_bind. eapply wp_bind_mono.
  { apply (wp_first_indexed g); [|exact Hb|exact Hi|intros; apply elem_of_app; by left].
    intros. by apply wp_consider_read. }
  intros [t|] c2 Ha; [by apply wp_ret|]. eapply wp_continue; [exact Ha|done|].
  intros g' Hb' Hi'. by apply IH.
Qed.

(** One round of [drive]. *)
Lemma wp_drive_step g c : base g None c -> idle g -> wp drive_step (fun _ => after g) c.
Proof.
  intros Hb Hi. unfold drive_step. bstep Hb. apply wp_get_bind.
  destruct (shutting_down _); [by apply wp_ret, base_after|].
  unfold next_task_locked. eapply wp_bind_mono; [by apply wp_next_task_from|].
  intros t c1 Ha. bstep Ha. by apply wp_ret.
Qed.

(** ** Reads *)

Lemma wp_read_started g k n c :
  base g None c -> is_Some (entries c !! k) -> wp (read_started k n) (fun _ => base g None) c.
Proof.
  intros Hb [e Hk]. assert (HR : rest g k e c) by done. clear Hb Hk. unfold read_started.
  bstep HR. eapply wp_entry_at; [apply HR|]. cbn beta. case_match; [|apply wp_ret, HR].
  eapply wp_rest_set; [exact HR|by split|done|]. clear HR. intros c1 HR. apply wp_ret, HR.
Qed.

(** Giving up a read: the entry is absent again, with nothing charged for it. *)
Lemma wp_give_up {A} g k e (K : ST (Core D) A) (R : A -> Core D -> Prop) c :
  rest g k e c -> state e = ssd_loading ->
  (forall e' c', rest g k e' c' -> wp K R c') ->
  wp (transition_locked k absent ;* release_host_locked k ;* release_device_locked k false ;* K) R c.
Proof.
  intros HR Hs HK. destruct (rest_free _ _ _ _ HR ltac:(congruence) ltac:(congruence)) as [Hh Hd].
  destruct (rest_open _ _ _ _ HR) as [m HF]. clear HR.
  apply wp_bind. eapply wp_transition; [exact HF|by rewrite Hs|]. clear c HF. intros c HF.
  apply wp_bind. eapply wp_release_host; [exact HF|]. clear c HF.
  intros e1 c [_ _ _ Ks Kw Kh _ _] Hh1 Hc1 Hr1 Hd1 _ _ HF. cbn beta.
  apply wp_bind. eapply wp_release_device; [exact HF|]. clear c HF. intros c HF. cbn beta.
  eapply HK, focus_rest; [exact HF| |].
  - unfold entry_ids. simpl. by rewrite Kw, Kh.
  - apply free_closes; [done|done|].
    split; unfold residency_ok, charges_ok, has_host_bytes; simpl; rewrite ?Ks, Hh1, Hc1; simpl; by rewrite ?Hr1.
Qed.

Lemma wp_read_complete g k r c :
  base g None c -> idle g -> wp (read_complete k r) (fun _ => after g) c.
Proof.
  intros Hb Hi. unfold read_complete. bstep Hb. apply wp_get_bind.
  destruct (entries c0 !! k) as [e|] eqn:Hk; [|by apply wp_ret, base_after].
  case_bool_decide as Hs; cbn [negb]; [|by apply wp_ret, base_after].
  assert (HR : rest g k e c0) by done. clear Hb Hk. bstep HR.
  eapply wp_rest_set; [exact HR|by split|done|]. clear HR. intros c2 HR. do 2 bstep HR.
  assert (Hend : forall e c, rest g k e c -> wp update_usage_locked (fun _ => after g) c).
  { intros e' c' HR'. eapply (wp_quiet (P := rest g k e')); [exact HR'|]. intros. by eapply rest_after. }
  assert (Hfail : forall st c, rest g k (e <| io_operation := 0 |>) c ->
    wp (fail_entry_locked k st) (fun _ => after g) c).
  { clear HR. intros st c' HR. eapply wp_fail_end; [exact HR|done|simpl; congruence|simpl; congruence|done]. }
  destruct (_ || _).
  { eapply wp_give_up; [exact HR|done|]. intros e1 c5 HR1. by eapply Hend. }
  case_bool_decide.
  { eapply wp_give_up; [exact HR|done|]. intros e1 c5 HR1.
    eapply wp_rest_set; [exact HR1|by split|done|]. intros c6 HR6. by eapply Hend. }
  destruct (negb _).
  { bstep HR. bstep HR. by apply Hfail. }
  destruct (_ || _).
  { bstep HR. bstep HR. by apply Hfail. }
  eapply wp_rest_set; [exact HR|by split|done|]. clear HR. intros c5 HR.
  eapply (wp_quiet (P := rest g k _)); [exact HR|]. intros. by eapply rest_after.
Qed.
End Drive.
