(* ===== verification/ExpertCachePublish.v ===== *)
(** Host preparation and uploads: how bytes become a resident copy and how the
    waiters of an entry get their leases. *)

From S2P Require Import Prelude Storage CacheState BufferPool.
From S2P Require Import ExpertRecord Telemetry Doubles ExpertCache ExpertCacheInv.
From S2P Require Import ExpertCacheSteps ExpertCachePrims ExpertCacheEvict ExpertCacheOps.
From S2P Require Import ExpertCacheDrive.

Section Publish.
Context {D : Type} `{DeviceDirectory D}.
Implicit Types (c : Core D) (g : Ghost) (e : Entry) (Q : unit -> Core D -> Prop).

(** Waiter ids are distinct numbers below the counter, so an entry has no more
    waiters than ids were handed out. *)
Lemma distinct_below (l : list Z) n :
  NoDup l -> (forall x, x ∈ l -> 0 <= x < n) -> 0 <= n -> Z.of_nat (length l) <= n.
Proof.
  intros Hnd Hl Hn. assert (Hle : (length l <= length (seqZ 0 n))%nat); cycle 1.
  { rewrite length_seqZ in Hle. lia. }
  apply submseteq_length, NoDup_submseteq; [done|]. intros x Hx. apply elem_of_seqZ.
  specialize (Hl x Hx). lia.
Qed.

Lemma waiters_bound g k e c :
  rest g k e c -> Z.of_nat (size (waiters e)) + Z.of_nat (size (host_waiters e)) <= next_waiter c.
Proof.
  intros HR. destruct (rest_open _ _ _ _ HR) as [m [Hb _]]. pose proof (b_next _ _ _ Hb).
  destruct (b_taken _ _ _ Hb) as [Hnd Ht]. simpl in *. apply NoDup_app in Hnd as (Hnd & _ & _).
  assert (Hlen : Z.of_nat (length (entry_ids e)) <= next_waiter c).
  { apply distinct_below; [done| |lia]. intros x Hx. apply Ht. set_solver. }
  revert Hlen. unfold entry_ids. rewrite length_app, !length_fmap, !length_map_to_list. lia.
Qed.

(** ** Dropping the staging bytes of a RAM-ready entry *)

Lemma wp_drop_host {B} g m k e ids b (K : unit -> ST (Core D) B) (R : B -> Core D -> Prop) c :
  focus (g <| g_taken %= app ids |>) m k (e <| host := None |>) c -> ids = entry_ids e ->
  closes g k e -> state e = ram_ready -> (forall a, (k, Some a) ∉ g_held g) ->
  b = negb (is_some (host_copy e)) ->
  (forall e' c', rest g k e' c' -> keeps (e <| state := state e' |>) e' -> wp (K tt) R c') ->
  wp (bind (when b (release_host_locked k ;* transition_locked k absent)) K) R c.
Proof.
  intros HF -> ([Hres Hch] & _ & Hd) Hs Hh Hb HK.
  assert (Hd' : k ∉ g_dead g) by (intros Hk; specialize (Hd Hk); congruence).
  unfold residency_ok in Hres. rewrite Hs in Hres. destruct Hres as (Hbytes & Hdev & Hsec).
  apply wp_when_bind; intros E.
  - rewrite E in Hb. apply wp_assoc, wp_bind. eapply wp_release_host; [exact HF|]. clear HF.
    intros e1 c1 [Kk Kr Kf Ks Kw Kh Kp Ka] Hh1 Hc1 Hr1 Hd1 Hv1 _ HF. simpl in *. cbn beta.
    apply wp_bind. eapply wp_transition; [exact HF|by rewrite Ks, Hs|]. clear HF. intros c2 HF.
    eapply HK; [eapply focus_rest; [exact HF| |]|].
    + unfold entry_ids. simpl. by rewrite Kw, Kh.
    + apply free_closes; [done|done|].
      split; unfold residency_ok, charges_ok, has_host_bytes; simpl; rewrite Hh1, Hc1; simpl.
      * by rewrite Hd1.
      * split; [done|]. intros a. by rewrite Hd1, Hdev.
    + by split.
  - rewrite E in Hb. symmetry in Hb. apply negb_false_iff in Hb.
    assert (Hhb : has_host_bytes (e <| host := None |>) = true) by (unfold has_host_bytes; simpl; done).
    eapply HK; [eapply focus_rest; [exact HF|done|]|by split].
    apply free_closes; [done|done|]. split; unfold residency_ok, charges_ok.
    + rewrite Hhb. simpl. by rewrite Hs.
    + rewrite Hhb. destruct Hch as [Hr Hv]. rewrite Hbytes in Hr. done.
Qed.

(** ** Host preparation *)

Lemma wp_host_worker_pop g c : base g None c -> wp host_worker_pop (fun _ => base g None) c.
Proof.
  intros Hb. unfold host_worker_pop. bstep Hb. apply wp_get_bind.
  destruct (host_prepare_queue _); [by apply wp_ret|]. bstep Hb. by apply wp_ret.
Qed.

Lemma wp_fail_preparation {B} g k n st (K : unit -> ST (Core D) B) (R : B -> Core D -> Prop) c :
  QuietProg n -> base g None c -> idle g -> is_Some (entries c !! k) ->
  (forall c', after g c' -> wp (K tt) R c') ->
  wp (bind (fail_preparation k n st) K) R c.
Proof.
  intros Hq Hb Hi [e Hk] HK. assert (HR : rest g k e c) by done. clear Hb Hk.
  unfold fail_preparation. apply wp_assoc. bstep HR. apply wp_assoc.
  eapply wp_entry_at; [apply HR|]. cbn beta.
  apply wp_when_bind; intros E; [apply bool_decide_eq_true in E|by eapply HK, rest_after].
  apply wp_assoc. eapply wp_rest_set; [exact HR|by split|done|]. clear HR. intros c1 HR. cbn beta.
  apply wp_assoc. bstep HR.
  eapply wp_fail; [exact HR|done|simpl; congruence|simpl; congruence|exact HK].
Qed.

Lemma wp_prepare_validate g k staging c :
  base g None c -> idle g -> is_Some (entries c !! k) ->
  wp (prepare_validate k staging) (fun _ => after g) c.
Proof.
  intros Hb Hi Hk. unfold prepare_validate. destruct Hk as [e Hk].
  eapply wp_entry_at; [exact Hk|]. cbn beta. apply wp_get_bind.
  destruct (_ || _).
  { eapply wp_fail_preparation; [apply _|exact Hb|done|by exists e|]. intros c1 Ha. by apply wp_ret. }
  set (v := validate_expert_admission _ _ _ _). clearbody v.
  assert (HR : rest g k e c) by done. clear Hb Hk. bstep HR.
  destruct (status_ok _); [by eapply wp_ret, rest_after|]. do 2 bstep HR.
  eapply wp_fail_preparation; [apply _|apply HR|done|destruct HR; by exists e|].
  intros c3 Ha. by apply wp_ret.
Qed.

Lemma wp_prepare_need_copy g k c :
  base g None c -> is_Some (entries c !! k) -> wp (prepare_need_copy k) (fun _ => base g None) c.
Proof.
  intros Hb [e Hk]. assert (HR : rest g k e c) by done. clear Hb Hk. unfold prepare_need_copy.
  bstep HR. eapply wp_entry_at; [apply HR|]. cbn beta. apply wp_get_bind.
  case_match; apply wp_ret, HR.
Qed.

Lemma wp_prepare_copied g k n c :
  base g None c -> is_Some (entries c !! k) -> wp (prepare_copied k n) (fun _ => base g None) c.
Proof.
  intros Hb [e Hk]. unfold prepare_copied. eapply wp_entry_at; [exact Hk|]. cbn beta.
  bstep Hb. by eapply (wp_quiet (P := base g None)).
Qed.

Lemma wp_prepare_allocation_failed g k c :
  base g None c -> idle g -> is_Some (entries c !! k) ->
  wp (prepare_allocation_failed k) (fun _ => after g) c.
Proof.
  intros Hb Hi Hk. unfold prepare_allocation_failed.
  assert (Hw : wp (fail_preparation k (ret tt) (mkStatus backpressure
    "cannot allocate pageable RAM cache copy") ;* ret tt) (fun _ => after g) c).
  { eapply wp_fail_preparation; [apply _|exact Hb|done|done|]. intros c1 Ha. by apply wp_ret. }
  revert Hw. unfold wp, bind. by destruct (fail_preparation _ _ _ c) as [[[] ?]|].
Qed.

Lemma grants_host_device k e copy h held a :
  (h, Some a) ∈ grants (host_settlements k e copy) held <-> (h, Some a) ∈ held.
Proof.
  unfold host_settlements. generalize (ordered Z.ltb (host_waiters e)) as l. intros l. revert held.
  induction l as [|w l IH]; intros held; simpl; [done|].
  etrans; [apply IH|]. unfold host_lease. destruct (acquire_lease w.2); simpl; [|done].
  rewrite elem_of_cons. split; [by intros [|]|by right].
Qed.

(** Settling the host waiters of an entry at rest. *)
Lemma wp_satisfy_host_rest {B} g k e (K : unit -> ST (Core D) B) (R : B -> Core D -> Prop) c :
  rest g k e c -> idle g -> state e = ram_ready ->
  Z.of_nat (length (g_held g)) + Z.of_nat (size (host_waiters e)) <= U64_MAX ->
  (forall ss e' c', rest (settled_with g ss []) k e' c' -> state e' = ram_ready ->
    (forall a, (k, Some a) ∉ grants ss (g_held g)) -> wp (K tt) R c') ->
  wp (bind (satisfy_host_waiters_locked k) K) R c.
Proof.
  intros HR Hi Hs Hlen HK. pose proof (rest_closes _ _ _ _ HR) as ([Hres Hch] & _).
  destruct (rest_free _ _ _ _ HR ltac:(congruence) ltac:(congruence)) as [Hh Hd].
  assert (Hskip : wp (K tt) R c).
  { apply (HK [] e); [|done|done]. rewrite settled_with_nil; [done|apply Hi]. }
  destruct (host_copy e) as [copy|] eqn:Ec; [destruct (validated_sections e) as [s|] eqn:Es|].
  - destruct (rest_open _ _ _ _ HR) as [m HF]. rewrite idle_open in HF by done. clear Hskip HR.
    apply wp_bind. eapply (wp_satisfy_host _ _ _ _ copy s (map_to_list (waiters e)).*1);
      [exact HF|done|done|simpl; unfold entry_ids; by rewrite Permutation_app_comm|done|].
    clear HF. intros c1 HF. rewrite settled_with_app in HF. simpl in HF.
    eapply (HK (host_settlements k e copy)); [split; [|apply HF]|exact Hs|
      intros a; rewrite grants_host_device; apply Hh]. assert (HB : base ((settled_with g (host_settlements k e copy)
        (map_to_list (waiters e)).*1) <| g_taken := [] |>) None c1); [|exact HB].
    eapply focus_close; [exact HF| | | |done]; simpl.
    + unfold entry_ids. simpl. by rewrite map_to_list_empty, !app_nil_r.
    + split; [|exact Hch]. revert Hres. unfold residency_ok. simpl. by rewrite Hs.
    + intros a Ha. rewrite grants_host_device in Ha. by destruct (Hh a).
  - unfold satisfy_host_waiters_locked. apply wp_assoc. eapply wp_entry_at; [apply HR|]. cbn beta.
    rewrite Ec, Es. by apply wp_ret_bind.
  - unfold satisfy_host_waiters_locked. apply wp_assoc. eapply wp_entry_at; [apply HR|]. cbn beta.
    rewrite Ec. by apply wp_ret_bind.
Qed.

(** After the host waiters: the counters, and the staging bytes if nobody needs them. *)
Lemma wp_prepare_tail g k e c :
  rest g k e c -> idle g -> state e = ram_ready -> (forall a, (k, Some a) ∉ g_held g) ->
  wp (let* e := entry_at k in
      let joined_demand :=
        existsb (fun w => bool_decide (acquire_priority w.2 = demand)) (map_to_list (waiters e)) in
      when (host_preloaded e && joined_demand) (
        count "preloaded_host_useful_" ;*
        count_by "preloaded_host_useful_bytes_" 0 (ram_reserved e) ;*
        set_entry k (fun e => e <| host_preloaded := false |>)) ;*
      when (bool_decide (waiters e = ∅)) (
        release_staging_locked k ;*
        let* e := entry_at k in
        when (negb (is_some (host_copy e))) (
          release_host_locked k ;* transition_locked k absent)) ;*
      update_usage_locked ;* ret prepare_done) (fun _ => after g) c.
Proof.
  intros HR Hi Hs Hh. eapply wp_entry_at; [apply HR|]. cbn beta.
  assert (Hend : forall e c, rest g k e c -> wp (update_usage_locked ;* ret prepare_done) (fun _ => after g) c).
  { intros e' c' HR'. bstep HR'. by eapply wp_ret, rest_after. }
  assert (Htail : forall e1 c, rest g k e1 c -> mild e e1 ->
    wp (when (bool_decide (waiters e = ∅)) (
        release_staging_locked k ;*
        let* e := entry_at k in
        when (negb (is_some (host_copy e))) (
          release_host_locked k ;* transition_locked k absent)) ;*
      update_usage_locked ;* ret prepare_done) (fun _ => after g) c).
  { clear dependent c. intros e1 c HR Hm. apply wp_when_bind; intros _; [|by eapply Hend].
    destruct (rest_open _ _ _ _ HR) as [m HF]. apply wp_assoc.
    eapply wp_release_staging_bind; [exact HF|]. clear HF. intros c1 HF. apply wp_assoc.
    eapply wp_entry_at; [apply HF|]. cbn beta.
    eapply wp_drop_host; [exact HF|done|by eapply rest_closes|by rewrite (m_state _ _ Hm)|done|done|].
    intros e2 c2 HR2 _. by eapply Hend. }
  apply wp_when_bind; intros _; [|by eapply Htail; [|apply mild_refl]].
  do 2 (apply wp_assoc; bstep HR). eapply wp_rest_set; [exact HR|by split|done|].
  clear HR. intros c' HR. by eapply Htail; [|split].
Qed.

Lemma wp_prepare_commit g k v retained c :
  base g None c -> idle g -> capacity g c -> is_Some (entries c !! k) ->
  wp (prepare_commit k v retained) (fun _ => after g) c.
Proof.
  intros Hb Hi Hcap [e Hk]. assert (HR : rest g k e c) by done. clear Hb Hk.
  pose proof (waiters_bound _ _ _ _ HR) as Hwb. unfold capacity in Hcap.
  assert (Hlen : Z.of_nat (length (g_held g)) + Z.of_nat (size (host_waiters e)) <= U64_MAX) by lia.
  clear Hwb Hcap. unfold prepare_commit. bstep HR.
  eapply wp_entry_at; [apply HR|]. cbn beta. apply wp_get_bind.
  destruct (_ || _) eqn:E; [by eapply wp_ret, rest_after|].
  apply orb_false_iff in E as [Hs _]. apply negb_false_iff, bool_decide_eq_true in Hs.
  destruct (_ && _); [by eapply wp_ret, rest_after|].
  eapply wp_rest_set; [exact HR|by split|done|]. clear HR. intros c1 HR.
  destruct (_ || _).
  { eapply wp_give_up; [exact HR|done|]. intros e1 c5 HR1. bstep HR1. by eapply wp_ret, rest_after. }
  set (e1 := e <| preparing_host := false |>) in *.
  destruct (rest_free _ _ _ _ HR ltac:(simpl; congruence) ltac:(simpl; congruence)) as [Hh Hd].
  pose proof (rest_closes _ _ _ _ HR) as ([Hres Hch] & _).
  unfold residency_ok in Hres. simpl in Hres. rewrite Hs in Hres. destruct Hres as (Hhost & Hcopy & Hdev).
  destruct (rest_open _ _ _ _ HR) as [m HF]. clear HR.
  fstep HF. apply wp_bind. eapply wp_transition; [exact HF|simpl; by rewrite Hs|].
  clear HF. intros c' HF. do 2 fstep HF.
  match goal with |- wp _ _ ?cc => rename cc into c4 end.
  assert (HR : exists e2, rest g k e2 c4 /\ state e2 = ram_ready /\ host_waiters e2 = host_waiters e).
  { eexists. split; [eapply focus_rest; [exact HF|done|]|by split].
    destruct Hhost as [l Hl]. apply free_closes; [done|done|]. split; unfold residency_ok, charges_ok, has_host_bytes;
      simpl; rewrite Hl; simpl.
    - split_and!; [done|done|by eexists].
    - destruct Hch as [Hr Hv]. unfold has_host_bytes in Hr. simpl in Hr. rewrite Hl in Hr. by split. }
  clear HF. destruct HR as (e2 & HR & Hs2 & Hw2).
  assert (Htail : forall e3 c, rest g k e3 c -> mild e2 e3 ->
    wp (satisfy_host_waiters_locked k ;*
      let* e := entry_at k in
      let joined_demand :=
        existsb (fun w => bool_decide (acquire_priority w.2 = demand)) (map_to_list (waiters e)) in
      when (host_preloaded e && joined_demand) (
        count "preloaded_host_useful_" ;*
        count_by "preloaded_host_useful_bytes_" 0 (ram_reserved e) ;*
        set_entry k (fun e => e <| host_preloaded := false |>)) ;*
      when (bool_decide (waiters e = ∅)) (
        release_staging_locked k ;*
        let* e := entry_at k in
        when (negb (is_some (host_copy e))) (
          release_host_locked k ;* transition_locked k absent)) ;*
      update_usage_locked ;* ret prepare_done) (fun _ => after g) c).
  { clear dependent c4. intros e3 d HR Hm.
    eapply wp_satisfy_host_rest; [exact HR|done|by rewrite (m_state _ _ Hm)|by rewrite (m_host_waiters _ _ Hm), Hw2|].
    intros ss e4 c4 HR4 Hs4 Hh4. eapply (wp_mono _ (fun _ => after (settled_with g ss []))); [|intros ? ?; apply after_trans].
    eapply wp_prepare_tail; [exact HR4|by apply idle_settled|done|exact Hh4]. }
  apply wp_when_bind; intros _; [|by eapply Htail; [|apply mild_refl]].
  apply wp_bind. eapply wp_promote_ram; [exact HR|apply Hi|]. clear HR. intros e3 c9 HR Hp.
  eapply Htail; [exact HR|by apply promoted_mild].
Qed.

(** ** Uploads *)

(** On an entry whose upload was selected the request is always made: the two
    internal failures of [start_upload] cannot happen. *)
Lemma wp_upload_request g k e c :
  rest g k e c -> state e = gpu_uploading ->
  wp (upload_request k) (fun r c' => base g None c' /\ is_Some r) c.
Proof.
  intros HR Hs. pose proof (rest_closes _ _ _ _ HR) as ([Hres _] & _).
  unfold residency_ok in Hres. rewrite Hs in Hres. destruct Hres as (Hbytes & _ & [sec Hsec]).
  unfold upload_request. eapply wp_entry_at; [apply HR|]. cbn beta. rewrite Hsec.
  unfold has_host_bytes in Hbytes.
  destruct (host e) as [l|]; [|destruct (host_copy e) as [b|]; [|done]];
    (bstep HR; apply wp_ret; split; [apply HR|by eexists]).
Qed.

Lemma wp_upload_started g k n c :
  base g None c -> is_Some (entries c !! k) -> wp (upload_started k n) (fun _ => base g None) c.
Proof.
  intros Hb [e Hk]. assert (HR : rest g k e c) by done. clear Hb Hk. unfold upload_started.
  bstep HR. eapply wp_entry_at; [apply HR|]. cbn beta. case_match; [|apply wp_ret, HR].
  eapply wp_rest_set; [exact HR|by split|done|]. clear HR. intros c1 HR. apply wp_ret, HR.
Qed.

Lemma wp_publish k a (R : Status -> Core D -> Prop) c :
  (forall s c', quiet c c' -> R s c') -> wp (publish k a) R c.
Proof.
  intros HR. unfold wp, publish. destruct (directory c) as [d|]; [|apply HR, quiet_refl].
  destruct (dir_publish k a d) as [st d'] eqn:E. apply HR. solve_quiet.
Qed.

Lemma grants_ready k e a h held x :
  (h, Some x) ∈ grants (ready_settlements k e a) held -> (h = k /\ x = a) \/ (h, Some x) ∈ held.
Proof.
  unfold ready_settlements. generalize (ordered Z.ltb (waiters e)) as l. intros l. revert held.
  induction l as [|w l IH]; intros held; simpl; [by right|].
  intros Hin. destruct (IH _ Hin) as [?|[[= -> ->]|?]%elem_of_cons]; auto.
Qed.

(** The device copy is in place: the waiters get their leases. *)
Lemma wp_publish_ready g m k e a ids Q c :
  focus (g <| g_taken %= app ids |>) m k e c -> ids = entry_ids e -> idle g ->
  entry_ok e -> state e = vram_ready -> device e = Some a ->
  (forall x, (k, Some x) ∉ g_held g) -> k ∉ g_dead g ->
  Z.of_nat (length (g_held g)) + Z.of_nat (size (waiters e)) <= U64_MAX ->
  (forall c', after g c' -> Q tt c') ->
  wp (satisfy_ready_waiters_locked k) Q c.
Proof.
  intros HF -> Hi [Hres Hch] Hs Ha Hh Hd Hlen HQ. rewrite idle_open in HF by done.
  eapply (wp_satisfy_ready _ _ _ _ a (map_to_list (host_waiters e)).*1); [exact HF|done|done|done|].
  clear HF. intros c1 HF. rewrite settled_with_app in HF. simpl in HF. apply HQ.
  eapply focus_after; [exact HF|unfold entry_ids; simpl; by rewrite map_to_list_empty|].
  split_and!; [|simpl|done].
  - split; [|exact Hch]. revert Hres. unfold residency_ok. simpl. by rewrite Hs.
  - intros x Hx. apply grants_ready in Hx as [[_ ->]|Hx]; [done|]. by destruct (Hh x).
Qed.

Lemma wp_upload_publish g k e a n Q c :
  rest g k e c -> idle g -> state e = gpu_uploading ->
  0 <= allocation_bytes a <= vram_reserved e ->
  Z.of_nat (length (g_held g)) + Z.of_nat (size (waiters e)) <= U64_MAX ->
  (forall c', after g c' -> Q tt c') -> wp (upload_publish k a n) Q c.
Proof.
  intros HR Hi Hs Ha Hlen HQ. destruct (rest_free _ _ _ _ HR ltac:(congruence) ltac:(congruence)) as [Hh Hd].
  pose proof (rest_closes _ _ _ _ HR) as ([Hres [Hch _]] & _).
  unfold residency_ok in Hres. rewrite Hs in Hres. destruct Hres as (Hbytes & Hdev & Hsec).
  rewrite Hbytes in Hch. destruct (rest_open _ _ _ _ HR) as [m HF]. clear HR.
  unfold upload_publish. fstep HF. apply wp_bind.
  eapply (wp_shrink_reservation _ _ _ _ (allocation_bytes a)); [exact HF|lia|].
  clear HF. intros c1 HF. cbn beta. rewrite Z.min_l in HF by lia.
  apply wp_bind, wp_publish. intros st c2 Hq. eapply focus_quiet in HF; [|exact Hq]. clear c1 Hq.
  apply wp_when_bind; intros Est.
  { do 2 fstep HF. apply wp_bind. rewrite idle_open in HF by done.
    eapply wp_fail_focus; [exact HF|done|exact Hh|]. intros e' c' HR Hf.
    eapply wp_entry_at; [apply HR|]. cbn beta. rewrite Hf. simpl. apply wp_ret, HQ.
    exists ([] ++ failed_settlements (e <| vram_reserved := allocation_bytes a |>) st). apply HR. }
  fstep HF. apply wp_when; intros Ef; [|simpl in Ef; by rewrite Hs in Ef]. fstep HF.
  apply wp_bind. eapply wp_transition; [exact HF|simpl; by rewrite Hs|].
  clear HF. intros c3 HF. do 4 fstep HF. fstep HF.
  assert (Hend : forall e2 c, focus (g <| g_taken %= app (entry_ids e) |>) m k e2 c ->
    entry_ids e2 = entry_ids e -> waiters e2 = waiters e -> state e2 = vram_ready -> device e2 = Some a ->
    entry_ok e2 ->
    wp (update_usage_locked ;* satisfy_ready_waiters_locked k) Q c).
  { clear dependent c. clear HF. intros e2 d HF Hids Hw Hs2 Hd2 Hok. fstep HF.
    eapply wp_publish_ready; [exact HF|by rewrite Hids|done|done|done|exact Hd2|done|done|by rewrite Hw|done]. }
  destruct (_ || _) eqn:Eret.
  - apply wp_bind. eapply wp_release_host; [exact HF|]. clear HF.
    intros e2 c' [_ _ _ Ks Kw Kh _ _] Hh2 Hc2 Hr2 Hd2 Hv2 _ HF. simpl in *. cbn beta.
    eapply Hend; [exact HF|unfold entry_ids; by rewrite Kw, Kh|done|by rewrite Ks|done|].
    split; unfold residency_ok, charges_ok, has_host_bytes; rewrite ?Ks, Hh2, Hc2, Hd2; simpl.
    + split; [by eexists|done].
    + split; [done|]. intros x [= <-]. exact Hv2.
  - apply orb_false_iff in Eret as [_ Ec]. apply negb_false_iff in Ec.
    apply wp_bind. eapply wp_release_staging; [exact HF|]. clear HF. intros c' HF. cbn beta.
    eapply Hend; [exact HF|done|done|done|done|].
    split; unfold residency_ok, charges_ok, has_host_bytes; simpl in *; rewrite Ec.
    + split; [by eexists|done].
    + split; [done|]. by intros x [= <-].
Qed.

(** Releasing the staging bytes and, without a retained copy, everything else. *)
Lemma wp_drop_staging {B} g k e b (K : unit -> ST (Core D) B) (R : B -> Core D -> Prop) c :
  rest g k e c -> state e = ram_ready -> b = negb (is_some (host_copy e)) ->
  (forall e' c', rest g k e' c' -> wp (K tt) R c') ->
  wp (release_staging_locked k ;*
      let* u := when b (release_host_locked k ;* transition_locked k absent) in K u) R c.
Proof.
  intros HR Hs Hb HK. destruct (rest_free _ _ _ _ HR ltac:(congruence) ltac:(congruence)) as [Hh _].
  pose proof (rest_closes _ _ _ _ HR) as Hcl. destruct (rest_open _ _ _ _ HR) as [m HF].
  eapply wp_release_staging_bind; [exact HF|]. clear HF. intros c1 HF.
  eapply wp_drop_host; [exact HF|done..|]. intros e' c' HR' _. by eapply HK.
Qed.

Lemma wp_upload_complete g k r c :
  base g None c -> idle g -> capacity g c ->
  (forall a, up_allocation r = Some a -> 0 <= allocation_bytes a) ->
  wp (upload_complete k r) (fun _ => after g) c.
Proof.
  intros Hb Hi Hcap Hr. unfold capacity in Hcap. unfold upload_complete.
  eapply (wp_quiet_bind (P := fun c' => base g None c' /\ entries c' = entries c)); [done|].
  intros c1 [Hb1 He]. apply wp_get_bind. rewrite He.
  destruct (entries c !! k) as [e|] eqn:Hk; [|by apply wp_ret, base_after].
  case_bool_decide as Hs; cbn [negb]; [|by apply wp_ret, base_after].
  pose proof (waiters_bound g k e c (conj Hb Hk)) as Hwb.
  assert (HR : rest g k e c1) by (split; [done|by rewrite He]). clear Hb Hb1 Hk He.
  eapply wp_rest_set; [exact HR|by split|done|]. clear HR. intros c2 HR.
  destruct (abandon e || _).
  { destruct (rest_free _ _ _ _ HR ltac:(simpl; congruence) ltac:(simpl; congruence)) as [Hh Hd].
    pose proof (rest_closes _ _ _ _ HR) as ([Hres [Hch _]] & _).
    unfold residency_ok in Hres. simpl in Hres. rewrite Hs in Hres.
    destruct (rest_open _ _ _ _ HR) as [m HF]. clear HR.
    apply wp_bind. eapply wp_transition; [exact HF|simpl; by rewrite Hs|]. clear HF. intros c3 HF.
    apply wp_bind. eapply wp_release_device; [exact HF|]. clear HF. intros c4 HF. cbn beta.
    match type of HF with focus _ _ _ ?e' _ => set (e2 := e') in * end.
    assert (HR : rest g k e2 c4).
    { eapply focus_rest; [exact HF|done|]. apply free_closes; [done|done|]. destruct Hres as (? & ? & ?).
      split; unfold residency_ok; simpl; [by split_and!|]. by split. }
    eapply wp_drop_staging; [exact HR|done|done|]. intros e3 c5 HR3.
    eapply (wp_quiet (P := rest g k e3)); [exact HR3|]. intros. by eapply rest_after. }
  destruct (upload_invalid e r) eqn:Einv.
  { do 2 bstep HR. eapply wp_fail_end; [exact HR|done|simpl; congruence|simpl; congruence|done]. }
  unfold upload_invalid in Einv. apply orb_false_iff in Einv as [_ Einv].
  destruct (up_allocation r) as [a|]; [|done]. zbool. specialize (Hr a eq_refl).
  eapply wp_upload_publish; [exact HR|done|done|simpl; lia|simpl; lia|done].
Qed.

(** ** Cancellation *)

Lemma wp_abandon_entry {B} g k e (K : Z * Z -> ST (Core D) B) (R : B -> Core D -> Prop) c :
  rest g k e c -> (forall x e' c', rest g k e' c' -> wp (K x) R c') ->
  wp (bind (abandon_entry k) K) R c.
Proof.
  intros HR HK. unfold abandon_entry. apply wp_assoc. eapply wp_entry_at; [apply HR|]. cbn beta.
  destruct (has_waiters_locked e); [by eapply wp_ret_bind, HK|].
  apply wp_assoc. eapply wp_rest_set; [exact HR|by split|done|]. clear HR. intros c1 HR. cbn beta.
  apply wp_assoc, wp_when_bind; intros E; [|by eapply wp_ret_bind, HK].
  apply andb_true_iff in E as [E%bool_decide_eq_true _].
  destruct (rest_free _ _ _ _ HR ltac:(simpl; congruence) ltac:(simpl; congruence)) as [Hh _].
  pose proof (rest_closes _ _ _ _ HR) as Hcl. destruct (rest_open _ _ _ _ HR) as [m HF]. clear HR.
  apply wp_assoc. eapply wp_release_staging_bind; [exact HF|]. clear HF. intros c2 HF. apply wp_assoc.
  eapply wp_drop_host; [exact HF|done|done|done|done|done|]. intros e' c3 HR' _. apply wp_assoc.
  eapply wp_rest_set; [exact HR'|by split|done|]. clear HR'. intros c4 HR. cbn beta.
  bstep HR. by eapply wp_ret_bind, HK.
Qed.

(** A waiter leaves: its promise is settled, the entry goes on without it. *)
Lemma wp_leave g k e f s q c :
  rest g k e c -> idle g -> neutral e (f e) -> closes g k (f e) ->
  entry_ids e ≡ₚ settlement_id s :: entry_ids (f e) -> grant (g_held g) s = g_held g -> QuietProg q ->
  wp (settle s ;* q ;* set_entry k f ;* count "cancellation_count_" ;*
      let* operations := abandon_entry k in
      refresh_task_indexes_locked k ;* ret operations) (fun _ => after g) c.
Proof.
  intros HR Hi Hn (Hok & Hl & Hd) Hids Hg Hq. destruct (rest_open _ _ _ _ HR) as [m HF]. clear HR.
  rewrite idle_open in HF by done.
  eapply wp_settle; [exact HF|exact Hids|]. clear HF. intros c1 HF. fstep HF.
  eapply wp_set_entry; [exact HF|exact Hn|]. clear HF. intros c2 HF.
  assert (HR : rest (settled_with g [s] []) k (f e) c2).
  { split; [|apply HF]. eapply focus_close in HF; [|by rewrite app_nil_r|exact Hok|exact Hl|exact Hd].
    revert HF. unfold settled_with, update. simpl. by rewrite Hg, app_nil_r. }
  clear HF. bstep HR. eapply wp_abandon_entry; [exact HR|]. clear HR. intros x e' c' HR.
  eapply rest_refresh; [exact HR|]. clear HR. intros c5 HR. apply wp_ret. exists [s]. apply HR.
Qed.

Lemma closes_leave g k e f c :
  rest g k e c -> has_waiters_locked e = true ->
  (f e = e <| waiters := waiters (f e) |> \/ f e = e <| host_waiters := host_waiters (f e) |>) ->
  closes g k (f e).
Proof.
  intros HR Hw Hf. destruct (rest_closes _ _ _ _ HR) as ([Hres Hch] & Hl & Hd).
  assert (Hs : state e <> failed).
  { intros Hs. unfold residency_ok in Hres. rewrite Hs in Hres. destruct Hres as (_ & _ & _ & ? & ?).
    assert (has_waiters_locked e = false) by (by apply has_waiters_false). congruence. }
  destruct Hf as [-> | ->]; (split_and!; [|exact Hl|exact Hd]); (split; [|exact Hch]);
    revert Hres Hs; unfold residency_ok; simpl; by destruct (state e).
Qed.

Lemma entry_ids_delete_host e id o :
  host_waiters e !! id = Some o -> entry_ids e ≡ₚ id :: entry_ids (e <| host_waiters %= delete id |>).
Proof.
  intros Hid. unfold entry_ids. simpl. rewrite <- (map_to_list_delete (host_waiters e) id o Hid). simpl.
  by rewrite Permutation_middle.
Qed.

Lemma wp_cancel_waiter g k id c :
  base g None c -> idle g -> wp (cancel_waiter k id) (fun _ => after g) c.
Proof.
  intros Hb Hi. unfold cancel_waiter. bstep Hb. apply wp_get_bind.
  destruct (entries c0 !! k) as [e|] eqn:Hk; simpl; [|by apply wp_ret, base_after].
  destruct (waiters e !! id) as [o|] eqn:Hw; [|by apply wp_ret, base_after].
  assert (HR : rest g k e c0) by done. clear Hb Hk. bstep HR.
  eapply wp_leave; [exact HR|done|solve_neutral| |exact (entry_ids_delete _ _ _ Hw)|done|apply _].
  eapply closes_leave; [exact HR| |by left]. apply not_false_iff_true. rewrite has_waiters_false.
  intros [Hz _]. by rewrite Hz in Hw.
Qed.

Lemma wp_cancel_host_waiter g k id c :
  base g None c -> idle g -> wp (cancel_host_waiter k id) (fun _ => after g) c.
Proof.
  intros Hb Hi. unfold cancel_host_waiter. bstep Hb. apply wp_get_bind.
  destruct (entries c0 !! k) as [e|] eqn:Hk; simpl; [|by apply wp_ret, base_after].
  destruct (host_waiters e !! id) as [o|] eqn:Hw; [|by apply wp_ret, base_after].
  assert (HR : rest g k e c0) by done. clear Hb Hk. bstep HR.
  eapply wp_leave; [exact HR|done|solve_neutral| |exact (entry_ids_delete_host _ _ _ Hw)|done|apply _].
  eapply closes_leave; [exact HR| |by right]. apply not_false_iff_true. rewrite has_waiters_false.
  intros [_ Hz]. by rewrite Hz in Hw.
Qed.

(** ** Leases and trimming *)

Lemma wp_rest_set_end g k e f Q c :
  rest g k e c -> mild e (f e) -> ram_protected (f e) = ram_protected e ->
  (forall c', rest g k (f e) c' -> Q tt c') -> wp (set_entry k f) Q c.
Proof.
  intros HR Hm Hp HQ. assert (Hw : wp (set_entry k f ;* ret tt) Q c).
  { eapply wp_rest_set; [exact HR|done|done|]. intros c' HR'. by apply wp_ret, HQ. }
  exact Hw.
Qed.

Lemma wp_release_reference g k o held c :
  base g None c -> g_held g ≡ₚ (k, o) :: held ->
  wp (release_reference k) (fun _ => base (g <| g_held := held |>) None) c.
Proof.
  intros Hb Hp. unfold release_reference. bstep Hb. apply wp_get_bind.
  destruct (b_present _ _ _ Hb k o) as [e Hk]; [rewrite Hp; by left|]. rewrite Hk.
  assert (HR : rest g k e c0) by done.
  assert (Hr : references e <> 0).
  { rewrite (b_references _ _ _ Hb k e Hk), (held_count_perm _ _ _ Hp), held_count_cons, decide_True by done.
    pose proof (held_count_bound k held). lia. }
  rewrite (proj2 (Z.eqb_neq _ _) Hr). clear Hb Hk Hr.
  destruct (rest_closes _ _ _ _ HR) as ([Hres Hch] & Hl & Hd). destruct (rest_open _ _ _ _ HR) as [m HF].
  apply wp_bind. eapply (wp_remove_reference _ _ _ _ o held); [exact HF|done|]. clear HF. intros c1 HF. cbn beta.
  assert (HR1 : rest (g <| g_held := held |>) k (e <| references %= dec64 |>) c1).
  { eapply focus_rest; [exact HF|done|]. split_and!; [by split| |exact Hd].
    intros a Ha. apply Hl. rewrite Hp. by right. }
  bstep HR1. apply wp_get_bind. eapply wp_rest_set_end; [exact HR1|by split|done|].
  intros c' [Hb _]. exact Hb.
Qed.

Lemma wp_trim_loop g fuel r v c :
  base g None c -> msum copies (entries c) < Z.of_nat fuel ->
  wp (trim_loop fuel r v) (fun _ => base g None) c.
Proof.
  revert c. induction fuel as [|fuel IH]; intros c Hb Hf.
  { pose proof (copies_nonneg (entries c)). lia. }
  simpl. apply wp_get_bind. destruct (_ || _); [|by apply wp_ret].
  apply wp_bind. eapply wp_evict_one; [exact Hb|]. intros [] c1 Hb1 _ _ Hlt; [|by apply wp_ret].
  apply IH; [done|]. specialize (Hlt eq_refl). lia.
Qed.

Lemma wp_trim_to g r v c : base g None c -> wp (trim_to r v) (fun _ => base g None) c.
Proof.
  intros Hb. unfold trim_to. bstep Hb. apply wp_get_bind, wp_bind.
  eapply wp_mono; [apply wp_trim_loop; [exact Hb|apply copies_total]|].
  intros [] c1 Hb1. by apply wp_get_bind, wp_ret.
Qed.

Lemma wp_trim g c : base g None c -> wp trim (fun _ => base g None) c.
Proof.
  intros Hb. unfold trim. apply wp_get_bind, wp_bind.
  eapply wp_mono; [by apply wp_trim_to|]. intros x c1 Hb1. by apply wp_ret.
Qed.

(** ** The fitted VRAM budget *)

Definition fitted (cfg : ExpertCacheConfig) (b : TierBudget) (transient : Z) : ExpertCacheConfig :=
  cfg <| vram := b |> <| placement %= fun p => p <| placement_vram_transient_bytes := transient |> |>.

Lemma base_fitted g c b t :
  base g None c -> vram_bytes c = 0 -> g_vram_room g = 0 ->
  0 < high_watermark_bytes b < 2 ^ 63 -> 0 <= t < high_watermark_bytes b ->
  base (g <| g_cfg %= fun cfg => fitted cfg b t |>) None (c <| config %= fun cfg => fitted cfg b t |>).
Proof.
  intros Hb Hz Hr Hbud Ht. destruct (b_config_ok _ _ _ Hb) as (? & ? & ? & ? & ?).
  split; simpl; try apply Hb.
  - by rewrite (b_config _ _ _ Hb).
  - unfold config_ok. split_and!; simpl; lia.
  - rewrite Hz, Hr. lia.
Qed.

Lemma wp_configure g b t c :
  base g None c -> idle g -> high_watermark_bytes b < 2 ^ 63 -> 0 <= high_watermark_bytes b -> 0 <= t ->
  wp (configure_vram_budget b t) (fun s c' =>
    base (if status_ok s then g <| g_cfg %= fun cfg => fitted cfg b t |> else g) None c') c.
Proof.
  intros Hb Hi H1 H2 H3. unfold configure_vram_budget. bstep Hb. apply wp_get_bind.
  destruct (shutting_down _); [by apply wp_ret|].
  destruct (_ || _) eqn:E; [by apply wp_ret|]. apply orb_false_iff in E as [E1 E2].
  apply negb_false_iff in E1. unfold valid_budget in E1. rewrite !andb_true_iff in E1.
  destruct E1 as (((_ & E1) & _) & _). zbool.
  destruct (negb _) eqn:E3; [by apply wp_ret|]. zbool.
  apply wp_modify_bind, wp_ret. simpl. apply base_fitted; [done|done|apply Hi|lia|lia].
Qed.

(** ** Queries *)

Lemma wp_admission_query g k r c :
  base g None c -> wp (vram_admission_would_improve k r) (fun _ => base g None) c.
Proof.
  intros Hb. unfold vram_admission_would_improve. bstep Hb. apply wp_get_bind.
  destruct (shutting_down _); [by apply wp_ret|].
  destruct (entries c0 !! k) as [e|]; [|by apply wp_ret].
  destruct (_ || _); [by apply wp_ret|]. destruct (_ <=? _); [by apply wp_ret|].
  destruct (admission_scan _ _ _ _ _). do 2 bstep Hb. by apply wp_ret.
Qed.

Lemma wp_stale_query g n c :
  base g None c -> wp (vram_stale_resident_bytes n) (fun _ => base g None) c.
Proof.
  intros Hb. unfold vram_stale_resident_bytes. bstep Hb. apply wp_get_bind.
  destruct (shutting_down _); by apply wp_ret.
Qed.

Lemma wp_inspect g k c : base g None c -> wp (inspect k) (fun _ => base g None) c.
Proof. intros Hb. unfold inspect. bstep Hb. by apply wp_get_bind, wp_ret. Qed.

(** ** Shutdown *)

Definition waiterless (e : Entry) : Prop := waiters e = ∅ /\ host_waiters e = ∅.

Lemma wp_fail_waiters_rest g k e s c :
  rest g k e c -> idle g ->
  wp (fail_waiters_locked k s) (fun _ c' =>
    exists ss e', rest (settled_with g ss []) k e' c' /\ waiterless e' /\
      delete k (entries c') = delete k (entries c)) c.
Proof.
  intros HR Hi. pose proof (rest_closes _ _ _ _ HR) as ([Hres Hch] & Hl & Hd).
  destruct HR as [Hb Hk]. pose proof (focus_open _ _ _ _ Hb Hk) as HF. rewrite idle_open in HF by done.
  eapply wp_fail_waiters; [exact HF|simpl; by rewrite app_nil_r|].
  clear HF. intros c' HF. exists (failed_settlements e s), (e <| waiters := ∅ |> <| host_waiters := ∅ |>).
  split_and!; [|done..|apply HF]. split; [|apply HF].
  eapply (focus_close _ _ _ _ _ []) in HF; [|by unfold entry_ids; simpl; rewrite map_to_list_empty| | |exact Hd].
  - revert HF. unfold settled_with, update. simpl. by rewrite app_nil_r, grants_failed_settlements.
  - split; [|exact Hch]. revert Hres. unfold residency_ok. simpl.
    destruct (state e); try done. by intros (? & ? & ? & _).
  - exact Hl.
Qed.

Lemma wp_shutdown_loop g ks s c :
  base g None c -> idle g -> (forall k, k ∈ ks -> is_Some (g_known g !! k)) ->
  (forall k e, entries c !! k = Some e -> k ∈ ks \/ waiterless e) ->
  wp (for_each ks (fun k => fail_waiters_locked k s)) (fun _ c' =>
    after g c' /\ forall k e, entries c' !! k = Some e -> waiterless e) c.
Proof.
  revert g c. induction ks as [|k ks IH]; intros g c Hb Hi Hks Hw; simpl.
  - apply wp_ret. split; [by apply base_after|]. intros k e He.
    destruct (Hw k e He) as [Hin|?]; [by apply not_elem_of_nil in Hin|done].
  - destruct (known_present _ _ _ k Hb ltac:(apply Hks; by left)) as [e Hk].
    apply wp_bind. eapply wp_mono; [by eapply wp_fail_waiters_rest|].
    intros [] c1 (ss & e' & [Hb1 Hk1] & He' & Hdel).
    eapply wp_mono; [apply (IH (settled_with g ss [])); [exact Hb1|by apply idle_settled| |]|].
    + intros j Hj. apply (Hks j). by right.
    + intros j w Hj. destruct (decide (j = k)) as [->|Hne]; [right; congruence|].
      rewrite <- (lookup_delete_ne _ k) in Hj by done. rewrite Hdel, lookup_delete_ne in Hj by done.
      destruct (Hw j w Hj) as [[->|?]%elem_of_cons|?]; [done|by left|by right].
    + intros [] c2 [Ha Hall]. split; [by eapply after_trans|done].
Qed.

Lemma wp_shutdown g c :
  base g None c -> idle g ->
  wp shutdown (fun _ c' => after g c' /\
    (shutting_down c = false -> forall k e, entries c' !! k = Some e -> waiterless e)) c.
Proof.
  intros Hb Hi. unfold shutdown. apply (wp_modify_bind (fun c => c <| metrics %= telemetry_add _ _ _ |>)).
  apply wp_get_bind. simpl. set (c1 := c <| metrics %= _ |>).
  assert (Hb1 : base g None c1) by (eapply base_quiet; [apply quiet_metrics|done]).
  destruct (shutting_down c) eqn:Es.
  { apply wp_ret. split; [by apply base_after|done]. }
  apply wp_modify_bind. set (c2 := c1 <| shutting_down := true |> <| host_worker_stop := true |>).
  assert (Hb2 : base g None c2) by (eapply base_quiet; [|exact Hb1]; solve_quiet).
  apply wp_bind. eapply wp_mono; [apply (wp_shutdown_loop (g <| g_known := records_of c2 |>));
    [by apply base_learn_all|exact Hi| |]|].
  - intros k ([j e] & -> & Hin)%list_elem_of_fmap. apply elem_of_ordered in Hin. simpl.
    unfold records_of. rewrite lookup_fmap. eapply fmap_is_Some. eexists. exact Hin.
  - intros k e Hk. left. apply list_elem_of_fmap. exists (k, e). split; [done|]. by apply elem_of_ordered.
  - intros [] c3 [Ha Hall]. apply wp_get_bind, wp_ret. split; [by apply (learn_forget g c2)|done].
Qed.
End Publish.
