(* ===== verification/ExpertCacheSystem.v ===== *)
(** The expert cache as a transition system: clients, the I/O driver, the host worker
    and the uploader interleave their critical sections in any order; the leases held
    outside the cache are part of the state. *)

From S2P Require Import Prelude Storage CacheState BufferPool.
From S2P Require Import ExpertRecord Telemetry Doubles ExpertCache ExpertCacheInv.
From S2P Require Import ExpertCacheSteps ExpertCachePrims ExpertCacheEvict ExpertCacheOps.
From S2P Require Import ExpertCacheDrive ExpertCachePublish.

(** ** Critical sections *)

Inductive CacheOp : Type :=
| op_acquire (k : ExpertKey) (r : PayloadRecord) (o : ExpertAcquireOptions)
| op_preload_host (k : ExpertKey) (r : PayloadRecord) (o : HostPreloadOptions)
| op_try_acquire_host (k : ExpertKey) (r : PayloadRecord) (b : bool) (p : ExpertRequestPriority)
| op_record_access (k : ExpertKey) (n : Z)
| op_record_accesses (l : list ExpertAccess)
| op_protect (k : ExpertKey) (want_ram want_vram : bool)
| op_drive_step
| op_read_started (k : ExpertKey) (n : Z)
| op_read_complete (k : ExpertKey) (r : ReadResult)
| op_worker_pop
| op_prepare_validate (k : ExpertKey) (staging : list Z)
| op_prepare_need_copy (k : ExpertKey)
| op_prepare_copied (k : ExpertKey) (n : Z)
| op_prepare_allocation_failed (k : ExpertKey)
| op_prepare_commit (k : ExpertKey) (v : ExpertAdmissionValidation) (copy : option (list Z))
| op_upload_request (k : ExpertKey)
| op_upload_started (k : ExpertKey) (n : Z)
| op_upload_complete (k : ExpertKey) (r : UploadResult)
| op_cancel_waiter (k : ExpertKey) (id : Z)
| op_cancel_host_waiter (k : ExpertKey) (id : Z)
| op_trim_to (ram_target vram_target : Z)
| op_trim
| op_configure (b : TierBudget) (transient : Z)
| op_admission_query (k : ExpertKey) (r : PayloadRecord)
| op_stale_query (n : Z)
| op_inspect (k : ExpertKey)
| op_shutdown.

Section System.
Context {D : Type} `{DeviceDirectory D}.
Implicit Types (c : Core D) (g : Ghost) (e : Entry).

(** Dropping a result that is no lease. *)
Definition no_lease {A} (m : ST (Core D) A) : ST (Core D) (option (ExpertKey * list Z)) :=
  let* _ := m in ret None.

Definition run_op (op : CacheOp) : ST (Core D) (option (ExpertKey * list Z)) :=
  match op with
  | op_acquire k r o => no_lease (acquire k r o)
  | op_preload_host k r o => no_lease (preload_host k r o)
  | op_try_acquire_host k r b p => try_acquire_host k r b p
  | op_record_access k n => no_lease (record_access k n)
  | op_record_accesses l => no_lease (record_accesses l)
  | op_protect k a b => no_lease (protect k a b)
  | op_drive_step => no_lease drive_step
  | op_read_started k n => no_lease (read_started k n)
  | op_read_complete k r => no_lease (read_complete k r)
  | op_worker_pop => no_lease host_worker_pop
  | op_prepare_validate k l => no_lease (prepare_validate k l)
  | op_prepare_need_copy k => no_lease (prepare_need_copy k)
  | op_prepare_copied k n => no_lease (prepare_copied k n)
  | op_prepare_allocation_failed k => no_lease (prepare_allocation_failed k)
  | op_prepare_commit k v copy => no_lease (prepare_commit k v copy)
  | op_upload_request k => no_lease (upload_request k)
  | op_upload_started k n => no_lease (upload_started k n)
  | op_upload_complete k r => no_lease (upload_complete k r)
  | op_cancel_waiter k id => no_lease (cancel_waiter k id)
  | op_cancel_host_waiter k id => no_lease (cancel_host_waiter k id)
  | op_trim_to a b => no_lease (trim_to a b)
  | op_trim => no_lease trim
  | op_configure b t => no_lease (configure_vram_budget b t)
  | op_admission_query k r => no_lease (vram_admission_would_improve k r)
  | op_stale_query n => no_lease (vram_stale_resident_bytes n)
  | op_inspect k => no_lease (inspect k)
  | op_shutdown => no_lease shutdown
  end.

(** What the callers guarantee: sizes are 64-bit numbers; the sections that continue
    a task name an entry of the cache; an upload is requested for the entry it was
    selected for; routing scores are below the point where the conversion to an
    integer is undefined; fewer than 2^64 ids and leases were handed out. *)
Definition allowed (op : CacheOp) (c : Core D) (held : list (ExpertKey * option DeviceAllocation)) : Prop :=
  let room := Z.of_nat (length held) + next_waiter c < U64_MAX in
  match op with
  | op_acquire _ r _ | op_preload_host _ r _ => record_ok r /\ room
  | op_try_acquire_host _ _ _ _ => room
  | op_record_accesses l => forall a, a ∈ l -> scaled_sum_q20 (routing_score_sum a) <> None
  | op_read_started k _ | op_prepare_validate k _ | op_prepare_need_copy k
  | op_prepare_copied k _ | op_prepare_allocation_failed k | op_upload_started k _ =>
      is_Some (entries c !! k)
  | op_prepare_commit k _ _ => is_Some (entries c !! k) /\ room
  | op_upload_request k => exists e, entries c !! k = Some e /\ state e = gpu_uploading
  | op_upload_complete _ r =>
      room /\ forall a, up_allocation r = Some a -> 0 <= allocation_bytes a
  | op_configure b t => 0 <= high_watermark_bytes b < 2 ^ 63 /\ 0 <= t
  | _ => True
  end.

(** The cache and the leases its clients hold. *)
Record World := mkWorld { core : Core D; held : list (ExpertKey * option DeviceAllocation) }.

(** What an operation settled, and the leases that are out afterwards. *)
Definition new_settlements (c c' : Core D) : list Settlement :=
  drop (length (settled c)) (settled c').
Definition handed (x : option (ExpertKey * list Z)) (h : list (ExpertKey * option DeviceAllocation)) :=
  match x with Some l => (l.1, None) :: h | None => h end.

Inductive world_step : World -> World -> Prop :=
| step_op op c h x c' :
    allowed op c h -> run_op op c = Ok (x, c') ->
    world_step (mkWorld c h) (mkWorld c' (grants (new_settlements c c') (handed x h)))
| step_release k o c h h' c' :
    h ≡ₚ (k, o) :: h' -> release_reference k c = Ok (tt, c') ->
    world_step (mkWorld c h) (mkWorld c' h').

(** ** The invariant along the steps *)

Definition world_inv (g : Ghost) (w : World) : Prop :=
  base g None (core w) /\ idle g /\ g_held g = held w.

(** The ghost only moves forward: settled promises stay, quarantined keys and known
    records are kept. *)
Definition later (g g' : Ghost) : Prop :=
  (exists ss, g_log g' = g_log g ++ ss) /\ g_dead g' = g_dead g /\ g_known g' = g_known g.

Lemma later_refl g : later g g.
Proof. split_and!; [|done..]. exists []. by rewrite app_nil_r. Qed.

Lemma later_trans g1 g2 g3 : later g1 g2 -> later g2 g3 -> later g1 g3.
Proof.
  intros ([s1 E1] & ? & ?) ([s2 E2] & ? & ?). split_and!; try congruence.
  exists (s1 ++ s2). by rewrite E2, E1, app_assoc.
Qed.

(** What an operation may do: settle promises and grant their leases; hand out one
    host lease; change the VRAM budget. *)
Definition op_post g (c : Core D) (x : option (ExpertKey * list Z)) (c' : Core D) : Prop :=
  exists g', base g' None c' /\ idle g' /\ later g g' /\
    g_held g' = grants (new_settlements c c') (handed x (g_held g)).

Lemma new_settlements_log g g' c c' ss :
  base g None c -> base g' None c' -> g_log g' = g_log g ++ ss -> new_settlements c c' = ss.
Proof.
  intros Hb Hb' Hl. unfold new_settlements. rewrite (b_log _ _ _ Hb), (b_log _ _ _ Hb'), Hl.
  apply drop_app_length.
Qed.

Lemma op_post_after g c c' : base g None c -> idle g -> after g c' -> op_post g c None c'.
Proof.
  intros Hb Hi [ss Hb']. exists (settled_with g ss []).
  split_and!; [done|by apply idle_settled|split_and!; [by exists ss|done..]|].
  by rewrite (new_settlements_log g _ _ _ ss Hb Hb').
Qed.

Lemma op_post_base g c c' : base g None c -> idle g -> base g None c' -> op_post g c None c'.
Proof. intros Hb Hi Hb'. apply op_post_after; [done|done|by apply base_after]. Qed.

Lemma wp_no_lease {A} (m : ST (Core D) A) (P : Core D -> Prop) g c :
  wp m (fun _ => P) c -> (forall c', P c' -> op_post g c None c') ->
  wp (no_lease m) (op_post g c) c.
Proof. intros Hm HP. unfold no_lease. eapply wp_bind_mono; [exact Hm|]. intros a c' Hc. by apply wp_ret, HP. Qed.

Lemma wp_run_op g op c :
  base g None c -> idle g -> allowed op c (g_held g) -> wp (run_op op) (op_post g c) c.
Proof.
  intros Hb Hi Ha.
  pose proof (fun c' => op_post_after g c c' Hb Hi) as HA.
  pose proof (fun c' => op_post_base g c c' Hb Hi) as HB.
  destruct op; simpl in *.
  - destruct Ha. eapply wp_no_lease; [by apply wp_acquire|exact HA].
  - destruct Ha. eapply wp_no_lease; [by apply wp_preload_host|exact HA].
  - eapply wp_mono; [by apply wp_try_acquire_host|]. intros x c' [Hb' Hx].
    exists (if x then g <| g_held %= cons (k, None) |> else g).
    split_and!; [done|by destruct x| | ].
    { destruct x; (split_and!; [exists []; by rewrite app_nil_r|done..]). }
    rewrite (new_settlements_log g _ _ _ [] Hb Hb'); [|rewrite app_nil_r; by destruct x].
    destruct x as [l|]; [|done]. by destruct (Hx l eq_refl) as (e & _ & <- & _).
  - eapply wp_no_lease; [by apply wp_record_access|exact HB].
  - eapply wp_no_lease; [by apply wp_record_accesses|exact HB].
  - eapply wp_no_lease; [by apply wp_protect|exact HB].
  - eapply wp_no_lease; [by apply wp_drive_step|exact HA].
  - eapply wp_no_lease; [by apply wp_read_started|exact HB].
  - eapply wp_no_lease; [by apply wp_read_complete|exact HA].
  - eapply wp_no_lease; [by apply wp_host_worker_pop|exact HB].
  - eapply wp_no_lease; [by apply wp_prepare_validate|exact HA].
  - eapply wp_no_lease; [by apply wp_prepare_need_copy|exact HB].
  - eapply wp_no_lease; [by apply wp_prepare_copied|exact HB].
  - eapply wp_no_lease; [by apply wp_prepare_allocation_failed|exact HA].
  - destruct Ha. eapply wp_no_lease; [by apply wp_prepare_commit|exact HA].
  - destruct Ha as (e & Hk & Hs). eapply wp_no_lease; [|exact HB].
    eapply wp_mono; [by eapply wp_upload_request|]. by intros x c' [? _].
  - eapply wp_no_lease; [by apply wp_upload_started|exact HB].
  - destruct Ha. eapply wp_no_lease; [by apply wp_upload_complete|exact HA].
  - eapply wp_no_lease; [by apply wp_cancel_waiter|exact HA].
  - eapply wp_no_lease; [by apply wp_cancel_host_waiter|exact HA].
  - eapply wp_no_lease; [by apply wp_trim_to|exact HB].
  - eapply wp_no_lease; [by apply wp_trim|exact HB].
  - destruct Ha as [[? ?] ?]. unfold no_lease. eapply wp_bind_mono; [by apply wp_configure|].
    intros st c' Hb'. apply wp_ret. simpl in Hb'.
    exists (if status_ok st then g <| g_cfg %= fun cfg => fitted cfg b transient |> else g).
    split_and!; [done|by destruct (status_ok st)| |].
    + destruct (status_ok st); (split_and!; [exists []; by rewrite app_nil_r|done..]).
    + rewrite (new_settlements_log g _ _ _ [] Hb Hb'); [by destruct (status_ok st)|].
      rewrite app_nil_r. by destruct (status_ok st).
  - eapply wp_no_lease; [by apply wp_admission_query|exact HB].
  - eapply wp_no_lease; [by apply wp_stale_query|exact HB].
  - eapply wp_no_lease; [by apply wp_inspect|exact HB].
  - eapply wp_no_lease; [|exact HA]. eapply wp_mono; [by apply wp_shutdown|]. by intros x c' [? _].
Qed.

Lemma world_step_inv g w w' :
  world_inv g w -> world_step w w' -> exists g', world_inv g' w' /\ later g g'.
Proof.
  intros (Hb & Hi & Hh) Hs. destruct Hs as [op c h x c' Ha Hr|k o c h h' c' Hp Hr]; simpl in *.
  - pose proof (wp_run_op g op c Hb Hi) as Hw. rewrite Hh in Hw. specialize (Hw Ha).
    unfold wp in Hw. rewrite Hr in Hw. destruct Hw as (g' & Hb' & Hi' & Hl & Hg').
    exists g'. split; [|done]. split_and!; [done..|]. by rewrite Hg', Hh.
  - rewrite <- Hh in Hp. pose proof (wp_release_reference g k o h' c Hb Hp) as Hw.
    unfold wp in Hw. rewrite Hr in Hw. exists (g <| g_held := h' |>).
    split; [by split_and!|]. split_and!; [exists []; by rewrite app_nil_r|done..].
Qed.

Lemma world_steps_inv g w w' :
  world_inv g w -> rtc world_step w w' -> exists g', world_inv g' w' /\ later g g'.
Proof.
  intros Hw Hs. revert g Hw. induction Hs as [w|w1 w2 w3 H1 Hs IH]; intros g Hw.
  - exists g. split; [done|apply later_refl].
  - destruct (world_step_inv _ _ _ Hw H1) as (g2 & Hw2 & Hl2).
    destruct (IH _ Hw2) as (g3 & Hw3 & Hl3). exists g3. split; [done|by eapply later_trans].
Qed.

(** A new cache over a staging pool nobody uses yet. *)
Definition initial (w : World) : Prop :=
  exists cfg storage uploader pool dir c,
    w = mkWorld c [] /\ cache_create cfg storage uploader (Some pool) dir = Ok c /\
    pool_inv [] pool /\ 0 <= high_watermark_bytes (ram cfg) < 2 ^ 63 /\
    0 <= high_watermark_bytes (vram cfg) < 2 ^ 63 /\
    0 <= placement_ram_protected_bytes (placement cfg) /\
    0 <= placement_vram_transient_bytes (placement cfg) /\
    0 <= layer_partition_count (placement cfg).

Definition reachable (w : World) : Prop := exists w0, initial w0 /\ rtc world_step w0 w.

Lemma initial_inv w : initial w -> exists g, world_inv g w.
Proof.
  intros (cfg & st & up & pool & dir & c & -> & Hc & Hp & Hr & Hv & Hpr & Htr & Hn).
  exists (mkGhost cfg [] [] [] ∅ ∅ 0 0 0 0). split; [|by split]. simpl.
  unfold cache_create in Hc. destruct (_ || _) eqn:E; [done|]. injection Hc as <-.
  rewrite !orb_false_iff in E. destruct E as ((((((((((E1 & E2) & _) & _) & _) & E3) & _) & _) & _) & E4) & E5).
  apply negb_false_iff in E1, E2. unfold valid_budget in E1, E2. rewrite !andb_true_iff in E1, E2.
  destruct E1 as (((_ & E1) & _) & _), E2 as (((_ & E2) & _) & _). zbool.
  split; simpl; try done; try lia.
  - unfold config_ok. simpl. split_and!; lia.
  - rewrite length_replicate. done.
  - intros p x Hx. apply lookup_replicate in Hx as [-> _]. done.
  - intros _. unfold protected_limit, probationary_limit. lia.
  - intros k s Hs. repeat (apply elem_of_cons in Hs as [->|Hs]; [set_solver|]). by apply not_elem_of_nil in Hs.
  - intros k a Ha. by apply not_elem_of_nil in Ha.
  - intros k x Hx. by apply not_elem_of_nil in Hx.
  - split; [apply NoDup_nil_2|]. intros id Hid. by apply not_elem_of_nil in Hid.
  - split; [apply NoDup_nil_2|]. intros id Hid. by apply not_elem_of_nil in Hid.
Qed.

Lemma reachable_inv w : reachable w -> exists g, world_inv g w.
Proof.
  intros (w0 & H0 & Hs). destruct (initial_inv _ H0) as [g Hg].
  destruct (world_steps_inv _ _ _ Hg Hs) as (g' & Hw & _). by exists g'.
Qed.
End System.
