(* ===== verification/ExpertCacheTheorems.v ===== *)
(** What the expert cache guarantees in every state its critical sections can reach. *)

From S2P Require Import Prelude Storage CacheState BufferPool.
From S2P Require Import ExpertRecord Telemetry Doubles ExpertCache ExpertCacheInv.
From S2P Require Import ExpertCacheSteps ExpertCachePrims ExpertCacheEvict ExpertCacheOps.
From S2P Require Import ExpertCacheDrive ExpertCachePublish ExpertCacheSystem.

(** ** Runs *)

Section Runs.
Context {D : Type} `{DeviceDirectory D}.

(** One operation on a world; a world it is not defined on stays. *)
Definition exec (op : CacheOp) (w : World (D := D)) : World :=
  match run_op op (core w) with
  | Ok (x, c') => mkWorld c' (grants (new_settlements (core w) c') (handed x (held w)))
  | Throw _ => w
  end.

Definition drop_first (k : ExpertKey) : list (ExpertKey * option DeviceAllocation) ->
    list (ExpertKey * option DeviceAllocation) :=
  fix go l := match l with
              | [] => []
              | x :: l => if bool_decide (x.1 = k) then l else x :: go l
              end.

Definition exec_release (k : ExpertKey) (w : World (D := D)) : World :=
  match release_reference k (core w) with
  | Ok (_, c') => mkWorld c' (drop_first k (held w))
  | Throw _ => w
  end.

Lemma run_op_returns w op :
  reachable w -> allowed op (core w) (held w) -> exists x c', run_op op (core w) = Ok (x, c').
Proof.
  intros (g & Hb & Hi & Hh)%reachable_inv Ha. rewrite <- Hh in Ha.
  pose proof (wp_run_op g op _ Hb Hi Ha) as Hw. unfold wp in Hw.
  destruct (run_op op (core w)) as [[x c']|]; [by exists x, c'|done].
Qed.

Lemma reachable_trans w w' : reachable w -> rtc world_step w w' -> reachable w'.
Proof. intros (w0 & H0 & Hs) Hs'. exists w0. split; [done|]. by etrans. Qed.

Lemma reachable_exec op w : allowed op (core w) (held w) -> reachable w -> reachable (exec op w).
Proof.
  intros Ha Hw. destruct (run_op_returns w op Hw Ha) as (x & c' & Hr).
  eapply reachable_trans; [exact Hw|]. unfold exec. rewrite Hr. destruct w as [c h].
  apply rtc_once. by eapply step_op.
Qed.

Lemma drop_first_spec k l : k ∈ l.*1 -> exists o, l ≡ₚ (k, o) :: drop_first k l.
Proof.
  induction l as [|[j o] l IH]; simpl; [by intros ?%not_elem_of_nil|]. intros Hk.
  case_bool_decide as Hj; [subst; by exists o|]. apply elem_of_cons in Hk as [?|Hk]; [congruence|].
  destruct (IH Hk) as [o' Ho]. exists o'. rewrite Ho at 1. apply Permutation_swap.
Qed.

Lemma release_returns w k o :
  reachable w -> (k, o) ∈ held w -> exists c', release_reference k (core w) = Ok (tt, c').
Proof.
  intros (g & Hb & Hi & Hh)%reachable_inv Hin. rewrite <- Hh in Hin.
  apply list_elem_of_split in Hin as (l1 & l2 & Hl).
  assert (Hp : g_held g ≡ₚ (k, o) :: l1 ++ l2) by (rewrite Hl; by rewrite Permutation_middle).
  pose proof (wp_release_reference g k o _ _ Hb Hp) as Hw. unfold wp in Hw.
  destruct (release_reference k (core w)) as [[[] c']|]; [by exists c'|done].
Qed.

Lemma reachable_release k w :
  k ∈ (held w).*1 -> reachable w -> reachable (exec_release k w).
Proof.
  intros Hk Hw. destruct (drop_first_spec _ _ Hk) as [o Ho].
  destruct (release_returns w k o Hw) as [c' Hr]; [rewrite Ho; by left|].
  eapply reachable_trans; [exact Hw|]. unfold exec_release. rewrite Hr. destruct w as [c h].
  apply rtc_once. by eapply step_release.
Qed.
End Runs.

(** ** A small cache to run *)

#[export] Instance unit_directory : DeviceDirectory unit := {|
  dir_publish := fun _ _ d => (success, d);
  dir_retire := fun _ d => d;
  dir_try_retire := fun _ d => (true, d);
  dir_route_pinned := fun _ _ => false |}.

Definition demo_config : ExpertCacheConfig :=
  mkCacheConfig (mkTierBudget 16384 12288 4096) (mkTierBudget 16384 12288 4096) true
    (mkPlacement 1 64 0 0 0 0) false 0.

Definition demo_cache : Core unit :=
  match cache_create demo_config true true (Some demo_pool) (Some tt) with
  | Ok c => c
  | Throw _ => mkCore demo_config demo_pool None ∅ [] [] ∅ 1 0 0 0 0 0 0 0 0 0 0 [] [] [] false false []
  end.

Definition demo_start : World := mkWorld demo_cache [].

Lemma demo_start_reachable : reachable demo_start.
Proof.
  exists demo_start. split; [|apply rtc_refl].
  exists demo_config, true, true, demo_pool, (Some tt), demo_cache.
  split_and!; try done; exact demo_pool_inv.
Qed.

Definition demo_key : ExpertKey := mkExpertKey 1 2 3 1.
Definition demo_record : PayloadRecord :=
  mkPayloadRecord "experts.bin" [] 0 4096 4096 2048 0 0 32 1 1 128 4096 (replicate 32 0).
Definition demo_allocation : DeviceAllocation := mkAllocation 7 2048.
Definition demo_bytes : list Z := [1; 2; 3].
Definition demo_validation : ExpertAdmissionValidation := mkAdmission success no_sections no_split.

(** An acquisition from the first request to the device lease. *)
Definition demo_requested : World :=
  exec (op_acquire demo_key demo_record (mkAcquireOptions demand true true false false)) demo_start.
Definition demo_reading : World := exec op_drive_step demo_requested.
Definition demo_read : World :=
  exec (op_read_complete demo_key (mkReadResult success 4096 4096)) demo_reading.
Definition demo_prepared : World :=
  exec (op_prepare_commit demo_key demo_validation (Some demo_bytes)) demo_read.
Definition demo_uploading : World := exec op_drive_step demo_prepared.
Definition demo_leased : World :=
  exec (op_upload_complete demo_key (mkUploadResult success (Some demo_allocation) 2048)) demo_uploading.

Ltac demo_allowed := vm_compute; repeat split; try discriminate; try (eexists; reflexivity); intros; simplify_eq; discriminate.

Lemma demo_requested_reachable : reachable demo_requested.
Proof.
  apply reachable_exec; [|exact demo_start_reachable]. demo_allowed.
Qed.
Lemma demo_reading_reachable : reachable demo_reading.
Proof. apply reachable_exec; [done|exact demo_requested_reachable]. Qed.
Lemma demo_read_reachable : reachable demo_read.
Proof. apply reachable_exec; [done|exact demo_reading_reachable]. Qed.
Lemma demo_prepared_reachable : reachable demo_prepared.
Proof. apply reachable_exec; [|exact demo_read_reachable]. demo_allowed. Qed.
Lemma demo_uploading_reachable : reachable demo_uploading.
Proof. apply reachable_exec; [done|exact demo_prepared_reachable]. Qed.
Lemma demo_leased_reachable : reachable demo_leased.
Proof. apply reachable_exec; [|exact demo_uploading_reachable]. demo_allowed. Qed.

Lemma demo_leased_facts :
  held demo_leased = [(demo_key, Some demo_allocation)] /\
  settled (core demo_leased) = [AcquireSettled 1 success (Some (demo_key, demo_allocation))] /\
  ram_bytes (core demo_leased) = 4096 /\ vram_bytes (core demo_leased) = 2048.
Proof. split_and!; by vm_compute. Qed.

(** Host waiters and device waiters of one record. *)
Definition demo_preload (lease : bool) : CacheOp :=
  op_preload_host demo_key demo_record (mkPreloadOptions demand false lease).

(** A host lease taken while the record is only in RAM, then a device lease, then
    both released. *)
Definition demo_host_leased : World :=
  exec (op_prepare_commit demo_key demo_validation (Some demo_bytes))
    (exec (op_read_complete demo_key (mkReadResult success 4096 4096))
       (exec op_drive_step (exec (demo_preload true) demo_start))).
Definition demo_both_leased : World :=
  exec (op_upload_complete demo_key (mkUploadResult success (Some demo_allocation) 2048))
    (exec op_drive_step
       (exec (op_acquire demo_key demo_record (mkAcquireOptions demand true true false false))
          demo_host_leased)).
Definition demo_released : World := exec_release demo_key (exec_release demo_key demo_both_leased).

Lemma demo_released_reachable : reachable demo_released.
Proof.
  do 2 (apply reachable_release; [vm_compute; repeat constructor|]).
  apply reachable_exec; [demo_allowed|]. apply reachable_exec; [done|].
  apply reachable_exec; [demo_allowed|]. apply reachable_exec; [demo_allowed|].
  apply reachable_exec; [done|]. apply reachable_exec; [done|].
  apply reachable_exec; [demo_allowed|exact demo_start_reachable].
Qed.

(** A device waiter and a host waiter share a read; the device waiter leaves. *)
Definition demo_leaked : World :=
  exec op_trim
    (exec (op_prepare_commit demo_key demo_validation (Some demo_bytes))
       (exec (op_read_complete demo_key (mkReadResult success 4096 4096))
          (exec (op_cancel_waiter demo_key 2)
             (exec op_drive_step
                (exec (op_acquire demo_key demo_record (mkAcquireOptions demand true true false false))
                   (exec (demo_preload false) demo_start)))))).

Lemma demo_leaked_reachable : reachable demo_leaked.
Proof.
  apply reachable_exec; [done|]. apply reachable_exec; [demo_allowed|].
  apply reachable_exec; [done|]. apply reachable_exec; [done|]. apply reachable_exec; [done|].
  apply reachable_exec; [demo_allowed|].
  apply reachable_exec; [demo_allowed|exact demo_start_reachable].
Qed.

(** ** Theorems *)

Section Theorems.
Context {D : Type} `{DeviceDirectory D}.
Implicit Types (w : World (D := D)) (c : Core D) (e : Entry).



(** C3: no promise is settled twice or lost: the ids handed out so far are each
    either settled once or waiting in exactly one place. *)
Theorem cache_promises w :
  reachable w ->
  let c := core w in
  NoDup (settlement_id <$> settled c) /\
  forall id, 1 <= id < next_waiter c ->
    (id ∈ settlement_id <$> settled c /\ forall k e b, entries c !! k = Some e -> ~ waits_in e b id) \/
    (id ∉ settlement_id <$> settled c /\
     exists k e b, entries c !! k = Some e /\ waits_in e b id /\
       forall k' e' b', entries c !! k' = Some e' -> waits_in e' b' id -> k' = k /\ b' = b).
Proof.
  intros (g & Hb & [Ht _] & _)%reachable_inv. simpl. rewrite (b_log _ _ _ Hb).
  destruct (b_settled _ _ _ Hb) as [Hnd _]. split; [done|]. intros id Hid.
  destruct (b_issued _ _ _ Hb id Hid) as [Hs|[Hin|(k & e & b & Hk & _ & Hw)]].
  - left. split; [done|]. intros k e b Hk Hw.
    by destruct (b_pending _ _ _ Hb k e b id Hk ltac:(done) Hw) as (_ & ? & _).
  - rewrite Ht in Hin. by apply not_elem_of_nil in Hin.
  - right. destruct (b_pending _ _ _ Hb k e b id Hk ltac:(done) Hw) as (_ & ? & _ & Hu).
    split; [done|]. exists k, e, b. split_and!; [done..|]. intros k' e' b' Hk'. by apply Hu.
Qed.

(** C4: a device lease stays valid: while one is out its entry is resident with the
    very allocation that was handed out; and the reference count of every entry is
    the number of leases on it. *)
Theorem cache_leases w :
  reachable w ->
  (forall k a, (k, Some a) ∈ held w ->
     exists e, entries (core w) !! k = Some e /\ state e = vram_ready /\ device e = Some a /\
       references e <> 0) /\
  (forall k e, entries (core w) !! k = Some e -> references e = held_count k (held w)).
Proof.
  intros (g & Hb & _ & Hh)%reachable_inv. rewrite <- Hh. split; [|by apply (b_references _ _ _ Hb)].
  intros k a Hin. destruct (b_held _ _ _ Hb k a Hin) as (e & Hk & Hs & Hd); [done|].
  exists e. split_and!; try done. rewrite (b_references _ _ _ Hb k e Hk). intros Hz.
  by apply (held_count_zero _ _ (Some a)) in Hz.
Qed.


(** entries are never forgotten: along every run a key keeps its immutable record,
    a quarantined key stays quarantined, and settled promises stay settled. *)
Theorem cache_entries_persist w w' k e :
  reachable w -> rtc world_step w w' -> entries (core w) !! k = Some e ->
  (exists e', entries (core w') !! k = Some e' /\ record e' = record e /\
     (state e = failed -> state e' = failed)) /\
  exists ss, settled (core w') = settled (core w) ++ ss.
Proof.
  intros (g & Hb & Hi & Hh)%reachable_inv Hs Hk.
  set (g1 := g <| g_known := {[k := record e]} |>
    <| g_dead := if bool_decide (state e = failed) then {[k]} else ∅ |>).
  assert (Hw : world_inv g1 w).
  { split_and!; [|done..]. split; simpl; try apply Hb.
    - intros j Hj _. case_bool_decide; [|set_solver]. apply elem_of_singleton in Hj as ->. by exists e.
    - intros j r Hr. apply lookup_singleton_Some in Hr as [<- <-]. by exists e. }
  destruct (world_steps_inv _ _ _ Hw Hs) as (g' & (Hb' & _) & [ss Hl] & Hd & Hn).
  split; [|exists ss; by rewrite (b_log _ _ _ Hb'), Hl, <- (b_log _ _ _ (proj1 Hw))].
  destruct (b_known _ _ _ Hb' k (record e)) as (e' & Hk' & Hr).
  { rewrite Hn. apply lookup_singleton_eq. }
  exists e'. split_and!; [done..|]. intros Hf. destruct (b_dead _ _ _ Hb' k) as (e2 & Hk2 & ?); [|done|congruence].
  rewrite Hd. simpl. rewrite bool_decide_true by done. set_solver.
Qed.

(** C6: shutdown leaves nobody waiting: it returns, and then every id ever handed out
    is settled. *)
Theorem cache_shutdown_settles w :
  reachable w -> shutting_down (core w) = false ->
  exists x c', shutdown (core w) = Ok (x, c') /\
    forall id, 1 <= id < next_waiter c' -> id ∈ settlement_id <$> settled c'.
Proof.
  intros (g & Hb & Hi & Hh)%reachable_inv Hs.
  pose proof (wp_shutdown g _ Hb Hi) as Hw. unfold wp in Hw.
  destruct (shutdown (core w)) as [[x c']|]; [|done]. exists x, c'. split; [done|].
  destruct Hw as [[ss Hb'] Hall]. specialize (Hall Hs). intros id Hid. rewrite (b_log _ _ _ Hb').
  destruct (b_issued _ _ _ Hb' id Hid) as [?|[Hin|(k & e & b & Hk & _ & Hw)]]; [done| |].
  - by apply not_elem_of_nil in Hin.
  - destruct (Hall k e Hk) as [Hw1 Hw2]. destruct b, Hw as [o Ho]; [rewrite Hw1 in Ho|rewrite Hw2 in Ho];
      by rewrite lookup_empty in Ho.
Qed.
(** eviction takes the coldest: the scan finds nothing only when no entry is
    eligible; the entry it finds is not excluded, not busy and not in use in any way,
    no eligible entry is colder, and among equally cold ones none is further over its
    quota, or as far and used less recently. *)
Theorem eviction_takes_coldest r busy c :
  match scan_victims r busy c with
  | None => forall k e, entries c !! k = Some e -> victim_eligible r busy c k e = false
  | Some (k, e) =>
      entries c !! k = Some e /\ k ∉ busy /\ excluded r <> Some k /\ references e = 0 /\
      waiters e = ∅ /\ host_waiters e = ∅ /\ preparing_host e = false /\
      state e <> ssd_loading /\ state e <> gpu_uploading /\ state e <> failed /\
      forall k' e', entries c !! k' = Some e' -> victim_eligible r busy c k' e' = true ->
        temperature_locked e <= temperature_locked e' /\
        (temperature_locked e' = temperature_locked e ->
           victim_excess r c k' <= victim_excess r c k /\
           (victim_excess r c k' = victim_excess r c k -> last_access e <= last_access e'))
  end.
Proof.
  pose proof (scan_victims_spec r busy c) as Hs. destruct (scan_victims r busy c) as [[k e]|]; [|done].
  destruct Hs as (Hk & He & Hbest). destruct (eligible_victim _ _ _ _ _ He) as [[] Hbusy].
  destruct_and?. split_and!; try done. intros k' e' Hk' He'. specialize (Hbest k' e' Hk' He').
  unfold better_victim in Hbest. simpl in Hbest.
  rewrite !orb_false_iff, !andb_false_iff, !orb_false_iff, !andb_false_iff, !orb_false_iff in Hbest.
  zbool. intuition lia.
Qed.

(** evicting is safe and makes progress: in every reachable state the call returns;
    entries that are excluded, leased, waited for, being prepared, loading, uploading
    or quarantined are untouched; success means strictly fewer copies are cached. *)
Theorem eviction_safe w r :
  reachable w ->
  exists b c', evict_one_locked r (core w) = Ok (b, c') /\
    (forall k e, entries (core w) !! k = Some e -> unevictable (excluded r) k e ->
       entries c' !! k = Some e) /\
    (b = true -> msum copies (entries c') < msum copies (entries (core w))).
Proof.
  intros (g & Hb & Hi & Hh)%reachable_inv.
  pose proof (wp_evict_one g r (fun b c' => only_evicts (excluded r) (core w) c' /\
    (b = true -> msum copies (entries c') < msum copies (entries (core w)))) _ Hb
    (fun b c' _ Ho _ Hlt => conj Ho Hlt)) as Hw.
  unfold wp in Hw. destruct (evict_one_locked r (core w)) as [[b c']|]; [|done].
  exists b, c'. split; [done|]. exact Hw.
Qed.

(** a capacity check that succeeds has made the room: both tiers and the RAM class
    can take the request, and neither the entry it is made for nor any entry in use
    was touched. *)
Theorem capacity_makes_room w k n v protected resident t :
  reachable w -> 0 <= n -> 0 <= v ->
  exists b c', make_capacity_locked n v k protected resident t (core w) = Ok (b, c') /\
    (forall j e, entries (core w) !! j = Some e -> unevictable (Some k) j e ->
       entries c' !! j = Some e) /\
    (b = true ->
       ram_bytes c' + n <= high_watermark_bytes (ram (config (core w))) /\
       vram_bytes c' + v <= high_watermark_bytes (vram (config (core w))) /\
       (placement_ram_protected_bytes (placement (config (core w))) <> 0 ->
          if protected then ram_protected_bytes c' + n <= protected_limit (config (core w))
          else ram_probationary_bytes c' + n <= probationary_limit (config (core w)))).
Proof.
  intros (g & Hb & Hi & Hh)%reachable_inv Hn Hv.
  pose proof (wp_make_capacity g k n v protected resident t _ (fun b c' =>
    base (if b then with_room n v protected g else g) None c' /\ only_evicts (Some k) (core w) c')
    Hb (proj2 Hi) Hn Hv (fun b c' Hb' Ho => conj Hb' Ho)) as Hw.
  unfold wp in Hw. destruct (make_capacity_locked _ _ _ _ _ _ _) as [[b c']|]; [|done].
  destruct Hw as [Hb' Ho]. exists b, c'. split_and!; [done|exact Ho|]. intros ->.
  rewrite (b_config _ _ _ Hb). destruct (with_room_same n v protected g) as (Hc & _).
  pose proof (b_ram_high _ _ _ Hb') as H1. pose proof (b_vram_high _ _ _ Hb') as H2.
  pose proof (b_classes _ _ _ Hb') as H3. rewrite Hc in *.
  destruct protected; simpl in *; (split_and!; [lia|lia|]); intros Hz; specialize (H3 Hz); lia.
Qed.

(** staging slots are neither shared nor leaked: the used slots of the pool are
    exactly the slots of the leases in the entries, each in one entry. *)
Theorem staging_slots_exact w :
  reachable w ->
  let c := core w in
  NoDup (lease_slot <$> leases (entries c)) /\
  used (buffers c) = Z.of_nat (length (leases (entries c))) /\
  (forall i, slot_is_used (slots (buffers c)) i <->
     exists k e l, entries c !! k = Some e /\ host e = Some l /\ lease_slot l = i).
Proof.
  intros (g & Hb & _)%reachable_inv. simpl. pose proof (b_pool _ _ _ Hb) as Hp.
  split_and!; [exact (pi_nodup _ _ Hp)|exact (pi_used _ _ Hp)|]. intros i. rewrite (pi_used_slots _ _ Hp).
  change (i ∈ lease_slot <$> leases (entries (core w)) <->
    exists k e l, entries (core w) !! k = Some e /\ host e = Some l /\ lease_slot l = i).
  rewrite list_elem_of_fmap. unfold leases. split.
  - intros (l & -> & ([k e] & Hin & Hl)%list_elem_of_omap). apply elem_of_map_to_list in Hin. by exists k, e, l.
  - intros (k & e & l & Hk & Hl & <-). exists l. split; [done|]. apply list_elem_of_omap.
    exists (k, e). by rewrite elem_of_map_to_list.
Qed.

(** an upload that was selected can be started: the entry has validated bytes to
    send, so neither internal failure of [start_upload] can happen. *)
Theorem upload_request_succeeds w k e :
  reachable w -> entries (core w) !! k = Some e -> state e = gpu_uploading ->
  exists r c', upload_request k (core w) = Ok (Some r, c').
Proof.
  intros (g & Hb & _)%reachable_inv Hk Hs.
  pose proof (wp_upload_request g k e (core w) (conj Hb Hk) Hs) as Hw. unfold wp in Hw.
  destruct (upload_request k (core w)) as [[[r|] c']|]; [by exists r, c'|by destruct Hw as [_ []]|done].
Qed.
End Theorems.

(** ** Concrete runs *)



Lemma cache_promises_witness :
  settlement_id <$> settled (core demo_leased) = [1] /\
  NoDup (settlement_id <$> settled (core demo_leased)).
Proof. split; [by vm_compute|]. exact (proj1 (cache_promises demo_leased demo_leased_reachable)). Defined.

Lemma cache_leases_witness :
  held demo_leased = [(demo_key, Some demo_allocation)] /\
  exists e, entries (core demo_leased) !! demo_key = Some e /\ state e = vram_ready /\
    device e = Some demo_allocation /\ references e <> 0.
Proof.
  split; [by vm_compute|].
  apply (proj1 (cache_leases demo_leased demo_leased_reachable) demo_key demo_allocation).
  vm_compute. constructor.
Defined.


Lemma cache_entries_persist_witness :
  exists e, entries (core demo_leased) !! demo_key = Some e /\
    exists ss, settled (core demo_leased) = settled (core demo_leased) ++ ss.
Proof.
  destruct (entries (core demo_leased) !! demo_key) as [e|] eqn:Ek; [|vm_compute in Ek; discriminate].
  exists e. split; [done|].
  exact (proj2 (cache_entries_persist demo_leased demo_leased demo_key e demo_leased_reachable
                  (rtc_refl _ _) Ek)).
Defined.

Lemma cache_shutdown_settles_witness :
  settled (core demo_reading) = [] /\ next_waiter (core demo_reading) = 2 /\
  exists x c', shutdown (core demo_reading) = Ok (x, c') /\
    forall id, 1 <= id < next_waiter c' -> id ∈ settlement_id <$> settled c'.
Proof.
  split_and!; [by vm_compute..|].
  apply (cache_shutdown_settles demo_reading demo_reading_reachable). by vm_compute.
Defined.

Lemma eviction_safe_witness :
  let r := plain_eviction true true None in
  exists b c', evict_one_locked r (core demo_leased) = Ok (b, c') /\
    (forall k e, entries (core demo_leased) !! k = Some e -> unevictable (excluded r) k e ->
       entries c' !! k = Some e) /\
    (b = true -> msum copies (entries c') < msum copies (entries (core demo_leased))).
Proof. exact (eviction_safe demo_leased (plain_eviction true true None) demo_leased_reachable). Defined.

Lemma capacity_makes_room_witness :
  match make_capacity_locked 4096 2048 demo_key false true 0 (core demo_leased) with
  | Ok (b, _) => b
  | Throw _ => false
  end = true /\
  exists b c', make_capacity_locked 4096 2048 demo_key false true 0 (core demo_leased) = Ok (b, c') /\
    (b = true -> ram_bytes c' + 4096 <= high_watermark_bytes (ram (config (core demo_leased)))).
Proof.
  split; [by vm_compute|].
  destruct (capacity_makes_room demo_leased demo_key 4096 2048 false true 0 demo_leased_reachable)
    as (b & c' & Hr & _ & Hroom); [lia..|].
  exists b, c'. split; [exact Hr|]. intros Hb. exact (proj1 (Hroom Hb)).
Defined.

Lemma staging_slots_exact_witness :
  used (buffers (core demo_reading)) = 1 /\
  used (buffers (core demo_reading)) = Z.of_nat (length (leases (entries (core demo_reading)))).
Proof.
  split; [by vm_compute|]. exact (proj1 (proj2 (staging_slots_exact demo_reading demo_reading_reachable))).
Defined.

Lemma demo_uploading_entry :
  exists e, entries (core demo_uploading) !! demo_key = Some e /\ state e = gpu_uploading.
Proof. by vm_compute; eexists. Qed.

Lemma upload_request_succeeds_witness :
  exists r c', upload_request demo_key (core demo_uploading) = Ok (Some r, c').
Proof.
  destruct demo_uploading_entry as (e & Hk & Hs).
  exact (upload_request_succeeds demo_uploading demo_key e demo_uploading_reachable Hk Hs).
Defined.

(** ** Where the bookkeeping goes wrong *)

(** the gauges of leased device bytes can wrap around: a lease on the host copy,
    taken before the device copy exists, is not counted when it is taken but is when
    it is the last one to be released. *)
Theorem referenced_gauges_wrap :
  exists w : World (D := unit), reachable w /\ held w = [] /\
    vram_referenced_entries (core w) = U64_MAX /\
    vram_referenced_bytes (core w) = U64_MAX - 2047.
Proof. exists demo_released. split; [exact demo_released_reachable|]. by vm_compute. Qed.

(** a VRAM reservation can outlive every reason for it: after a device waiter has
    left a read it shared with a host waiter, the record is charged to VRAM although
    nothing is on the device, nobody waits and no lease is out, and trimming everything
    does not give the bytes back. *)
Theorem vram_reservation_outlives_request :
  exists w : World (D := unit), reachable w /\ held w = [] /\ 0 < vram_bytes (core w) /\
    forall k e, entries (core w) !! k = Some e ->
      state e = absent /\ device e = None /\ waiters e = ∅ /\ host_waiters e = ∅.
Proof.
  exists demo_leaked. split; [exact demo_leaked_reachable|]. split_and!; [by vm_compute..|].
  change (map_Forall (fun _ e => state e = absent /\ device e = None /\ waiters e = ∅ /\
    host_waiters e = ∅) (entries (core demo_leaked))).
  apply (bool_decide_unpack _). by vm_compute.
Qed.
