(* ===== verification/Text.v ===== *)
(** Byte strings: what the text formats of the repository share. A [std::string] is
    the list of its bytes, each an integer below 256; string literals are read
    through [bytes]. [std::to_string] and [std::from_chars] of the C++ standard
    library are written out for 64-bit integers, with the round trip between them. *)

From Stdlib Require Import Ascii String.
From S2P Require Import Prelude.

(** ** Literals *)

Definition bytes (s : string) : list Z :=
  map (fun c => Z.of_N (N_of_ascii c)) (String.list_ascii_of_string s).

Definition text (l : list Z) : string :=
  String.string_of_list_ascii (map (fun b => ascii_of_N (Z.to_N b)) l).

(** The bytes of a literal that writes its double quotes as single ones. *)
Definition quoted (s : string) : list Z := map (fun c => if c =? 39 then 34 else c) (bytes s).

Definition byte (b : Z) : Prop := 0 <= b < 256.

(** [static_cast<char>], as the byte it stores. *)
Definition to_char (z : Z) : Z := z mod 256.

Lemma bytes_app s t : bytes (s +:+ t) = bytes s ++ bytes t.
Proof.
  unfold bytes. induction s as [|c s IH]; simpl; [done|]. by rewrite IH.
Qed.

Lemma bytes_byte s : Forall byte (bytes s).
Proof.
  unfold bytes. apply Forall_fmap, Forall_true. intros c. simpl. unfold byte.
  pose proof (N_ascii_bounded c). lia.
Qed.

(** ** Scanning *)

Fixpoint span (p : Z -> bool) (l : list Z) : list Z * list Z :=
  match l with
  | [] => ([], [])
  | x :: l' => if p x then let '(a, b) := span p l' in (x :: a, b) else ([], l)
  end.

Definition is_digit (c : Z) : bool := (48 <=? c) && (c <=? 57).

Lemma span_app p l : (span p l).1 ++ (span p l).2 = l.
Proof.
  induction l as [|x l IH]; simpl; [done|]. destruct (p x); [|done].
  destruct (span p l). simpl in *. by rewrite IH.
Qed.

Lemma span_all p l : Forall (fun c => p c = true) (span p l).1.
Proof.
  induction l as [|x l IH]; simpl; [done|]. destruct (p x) eqn:E; [|done].
  destruct (span p l). by constructor.
Qed.

Definition stops (p : Z -> bool) (l : list Z) : Prop :=
  match l with [] => True | c :: _ => p c = false end.

Lemma span_rest p l : stops p (span p l).2.
Proof.
  induction l as [|x l IH]; simpl; [done|]. destruct (p x) eqn:E; [|done].
  by destruct (span p l).
Qed.

(** A run of accepted bytes before one that is not. *)
Lemma span_exact p a k : Forall (fun c => p c = true) a -> stops p k -> span p (a ++ k) = (a, k).
Proof.
  intros Ha Hk. induction Ha as [|x a Hx _ IH]; simpl.
  - destruct k as [|c k]; simpl in *; [done|]. by rewrite Hk.
  - by rewrite Hx, IH.
Qed.

(** ** Order *)

(** [std::less] on strings compares bytes. *)
Fixpoint bytes_ltb (a b : list Z) : bool :=
  match a, b with
  | _, [] => false
  | [], _ :: _ => true
  | x :: a, y :: b => if x <? y then true else if y <? x then false else bytes_ltb a b
  end.

Definition key_lt (a b : list Z) : Prop := bytes_ltb a b = true.

Lemma bytes_ltb_irrefl a : bytes_ltb a a = false.
Proof. induction a as [|x a IH]; simpl; [done|]. by rewrite Z.ltb_irrefl. Qed.

Lemma bytes_ltb_trans a b c : key_lt a b -> key_lt b c -> key_lt a c.
Proof.
  unfold key_lt. revert b c. induction a as [|x a IH]; intros [|y b] [|z c]; simpl; try done.
  destruct (Z.ltb_spec x y), (Z.ltb_spec y x), (Z.ltb_spec y z), (Z.ltb_spec z y),
    (Z.ltb_spec x z), (Z.ltb_spec z x); try lia; try done. apply IH.
Qed.

Lemma bytes_ltb_total a b : bytes_ltb a b = false -> bytes_ltb b a = false -> a = b.
Proof.
  revert b. induction a as [|x a IH]; intros [|y b]; simpl; try done.
  destruct (Z.ltb_spec x y), (Z.ltb_spec y x); try done. intros. f_equal; [lia|auto].
Qed.

#[export] Instance bytes_ltb_order : StrictWeakOrder bytes_ltb.
Proof.
  split.
  - intros x y Hxy. destruct (bytes_ltb y x) eqn:E; [|done].
    pose proof (bytes_ltb_trans _ _ _ Hxy E) as H. unfold key_lt in H. by rewrite bytes_ltb_irrefl in H.
  - intros x y z Hyx Hzy. destruct (bytes_ltb z x) eqn:E; [|done].
    destruct (bytes_ltb x y) eqn:E1.
    + by rewrite (bytes_ltb_trans _ _ _ E E1) in Hzy.
    + rewrite (bytes_ltb_total x y E1 Hyx) in E. by rewrite E in Hzy.
Qed.

(** ** Decimal integers *)

Fixpoint decimal_go (fuel : nat) (z : Z) (acc : list Z) : list Z :=
  match fuel with
  | O => acc
  | S fuel =>
    let acc := (48 + z mod 10) :: acc in
    if z <? 10 then acc else decimal_go fuel (z / 10) acc
  end.

(** [std::to_string] of a [std::uint64_t]; twenty digits are enough for it. *)
Definition to_string (z : Z) : list Z := decimal_go 20 z [].

(** [std::to_string] of a [std::int64_t]. *)
Definition to_string_signed (z : Z) : list Z :=
  if z <? 0 then 45 :: to_string (- z) else to_string z.

Definition decimal_value (l : list Z) : Z := foldl (fun v c => v * 10 + (c - 48)) 0 l.

(** [std::from_chars] in base ten: the value and what is left of the text, or [None]
    for an error code. *)
Definition from_chars_u64 (t : list Z) : option (Z * list Z) :=
  let '(ds, remaining) := span is_digit t in
  if bool_decide (ds = []) then None
  else if decimal_value ds <=? U64_MAX then Some (decimal_value ds, remaining) else None.

Definition from_chars_i64 (t : list Z) : option (Z * list Z) :=
  let negative := bool_decide (head t = Some 45) in
  let '(ds, remaining) := span is_digit (if negative then tail t else t) in
  if bool_decide (ds = []) then None
  else
    let v := if negative then - decimal_value ds else decimal_value ds in
    if (- 2 ^ 63 <=? v) && (v <? 2 ^ 63) then Some (v, remaining) else None.

Definition digits (l : list Z) : Prop := Forall (fun c => is_digit c = true) l.

Lemma is_digit_iff c : is_digit c = true <-> 48 <= c <= 57.
Proof. unfold is_digit. rewrite andb_true_iff, !Z.leb_le. done. Qed.

Lemma digits_byte l : digits l -> Forall byte l.
Proof.
  intros H. eapply Forall_impl; [exact H|]. intros c Hc. apply is_digit_iff in Hc.
  unfold byte. lia.
Qed.

Lemma decimal_value_snoc l c : decimal_value (l ++ [c]) = decimal_value l * 10 + (c - 48).
Proof. unfold decimal_value. by rewrite foldl_app. Qed.

Lemma decimal_foldl l v : foldl (fun v c => v * 10 + (c - 48)) v l = v * 10 ^ Z.of_nat (length l) + decimal_value l.
Proof.
  induction l as [|x l IH] using rev_ind; [unfold decimal_value; simpl; lia|].
  rewrite foldl_app, decimal_value_snoc, length_app. simpl foldl. rewrite IH. simpl length.
  rewrite Nat2Z.inj_add, Z.pow_add_r by lia. change (10 ^ Z.of_nat 1) with 10. lia.
Qed.

Lemma decimal_value_nonneg l : digits l -> 0 <= decimal_value l.
Proof.
  induction l as [|x l IH] using rev_ind; intros Hl; [done|].
  apply Forall_app in Hl as [Hl Hx]. rewrite decimal_value_snoc. specialize (IH Hl).
  inversion Hx as [|? ? Hd]; subst. apply is_digit_iff in Hd. lia.
Qed.

(** The digits [decimal_go] puts before what it is given. *)
Lemma decimal_go_spec fuel z acc :
  0 <= z < 10 ^ Z.of_nat fuel -> (0 < fuel)%nat ->
  exists ds, decimal_go fuel z acc = ds ++ acc /\ digits ds /\ decimal_value ds = z /\
    (z = 0 -> ds = [48]) /\ (0 < z -> exists d ds', ds = d :: ds' /\ 49 <= d <= 57).
Proof.
  revert z acc. induction fuel as [|fuel IH]; intros z acc Hz Hf; [lia|]. simpl decimal_go.
  rewrite Nat2Z.inj_succ, Z.pow_succ_r in Hz by lia.
  pose proof (Z.mod_pos_bound z 10 ltac:(lia)) as Hm.
  pose proof (Z.div_mod z 10 ltac:(lia)) as Hdm.
  destruct (Z.ltb_spec z 10) as [Hlt|Hge].
  - exists [48 + z mod 10]. rewrite Z.mod_small by lia. split_and!; [done| | | |].
    + constructor; [apply is_digit_iff; lia|constructor].
    + unfold decimal_value. simpl. lia.
    + intros ->. done.
    + intros. exists (48 + z), []. split; [done|lia].
  - assert (0 < z / 10 < 10 ^ Z.of_nat fuel) as Hq by
      (split; [apply Z.div_str_pos; lia|apply Z.div_lt_upper_bound; lia]).
    destruct fuel as [|fuel]; [simpl in Hq; lia|].
    destruct (IH (z / 10) ((48 + z mod 10) :: acc) ltac:(lia) ltac:(lia))
      as (ds & -> & Hds & Hv & _ & Hd).
    exists (ds ++ [48 + z mod 10]). rewrite <- app_assoc. split_and!; [done| | |lia|].
    + apply Forall_app. split; [done|]. constructor; [apply is_digit_iff; lia|constructor].
    + rewrite decimal_value_snoc, Hv. lia.
    + intros _. destruct (Hd ltac:(lia)) as (d & ds' & -> & ?). by exists d, (ds' ++ [48 + z mod 10]).
Qed.

Lemma to_string_spec z :
  u64 z ->
  digits (to_string z) /\ decimal_value (to_string z) = z /\
  (z = 0 -> to_string z = [48]) /\
  (0 < z -> exists d ds, to_string z = d :: ds /\ 49 <= d <= 57).
Proof.
  intros Hz. unfold to_string.
  destruct (decimal_go_spec 20 z []) as (ds & -> & H).
  - unfold u64, U64_MAX in Hz. change (10 ^ Z.of_nat 20) with 100000000000000000000. lia.
  - lia.
  - by rewrite app_nil_r.
Qed.

Lemma to_string_nonempty z : u64 z -> to_string z <> [].
Proof.
  intros Hz. destruct (to_string_spec z Hz) as (_ & _ & H0 & H1).
  destruct (decide (z = 0)) as [->|]; [by rewrite H0|].
  unfold u64 in Hz. destruct H1 as (d & ds & -> & _); [lia|done].
Qed.

(** ** [std::from_chars] reads back what [std::to_string] wrote *)

Lemma from_chars_to_string z k :
  u64 z -> stops is_digit k -> from_chars_u64 (to_string z ++ k) = Some (z, k).
Proof.
  intros Hz Hk. pose proof (to_string_nonempty z Hz) as Hne.
  destruct (to_string_spec z Hz) as (Hd & Hv & _). unfold from_chars_u64.
  rewrite (span_exact _ _ _ Hd Hk), Hv, bool_decide_eq_false_2 by done.
  unfold u64 in Hz. by rewrite (proj2 (Z.leb_le _ _)) by lia.
Qed.

Lemma from_chars_u64_range t v rest : from_chars_u64 t = Some (v, rest) -> u64 v.
Proof.
  unfold from_chars_u64. pose proof (span_all is_digit t) as Hd. destruct (span is_digit t) as [ds r]. simpl in Hd.
  case_match; [done|]. case_match eqn:E; [|done]. intros [= <- <-].
  apply Z.leb_le in E. split; [by apply decimal_value_nonneg|done].
Qed.

Lemma from_chars_to_string_signed z k :
  - 2 ^ 63 <= z < 0 -> stops is_digit k -> from_chars_i64 (to_string_signed z ++ k) = Some (z, k).
Proof.
  intros Hz Hk. assert (u64 (- z)) as Hu by (unfold u64, U64_MAX; lia).
  pose proof (to_string_nonempty _ Hu) as Hne.
  destruct (to_string_spec _ Hu) as (Hd & Hv & _). unfold from_chars_i64, to_string_signed.
  rewrite (proj2 (Z.ltb_lt z 0)) by lia. simpl head. rewrite bool_decide_eq_true_2 by done.
  simpl tail. rewrite (span_exact _ _ _ Hd Hk), Hv, bool_decide_eq_false_2 by done.
  rewrite Z.opp_involutive. rewrite (proj2 (Z.leb_le _ _)), (proj2 (Z.ltb_lt _ _)) by lia. done.
Qed.
