(* ===== verification/Json.v ===== *)
(** The JSON reader and canonical printer of the core ([core/src/json.cpp],
    [core/include/expert/core/json.hpp]): manifests are hashed in the canonical form,
    so that the form is unique and stable is what content addressing rests on.

    [Parser] holds [position_] and the part of [input_] from there on; each parsing
    method is a state transformer that returns or throws [json::Error] (a
    [std::runtime_error] without members of its own). [ParseValue] takes fuel, one unit
    for each level of nesting, and a loop over items or characters one for each round;
    both are given more than the bytes that are left, which is enough for any text. The
    machine's stack, which bounds the nesting the program survives, is not modelled. *)

From Stdlib Require Import Ascii String.
From S2P Require Import Prelude.
From S2P Require Import Text.

(** ** Values

    A [std::map] is the list of its entries in key order. *)

Inductive Value : Type :=
| VNull
| VBool (b : bool)
| VInt (z : Z)
| VUInt (z : Z)
| VNumber (token : list Z)
| VString (s : list Z)
| VArray (items : list Value)
| VObject (members : list (list Z * Value)).

(** [map::emplace]; [None] when the key is there already. *)
Fixpoint emplace (key : list Z) (v : Value) (m : list (list Z * Value))
    : option (list (list Z * Value)) :=
  match m with
  | [] => Some [(key, v)]
  | (key', v') :: m' =>
    if bytes_ltb key key' then Some ((key, v) :: m)
    else if bytes_ltb key' key then cons (key', v') <$> emplace key v m'
    else None
  end.

(** ** The parser *)

Record Parser := mkParser { position : Z; rest : list Z }.

Definition json_error (at_byte : Z) (message : string) : exn :=
  runtime_error ("JSON byte " +:+ text (to_string at_byte) +:+ ": " +:+ message).

Definition Fail {A} (message : string) : ST Parser A :=
  fun s => Throw (json_error (position s) message).

Definition advance (n : nat) : ST Parser unit :=
  modify (fun s => mkParser (position s + Z.of_nat n) (drop n (rest s))).

(** [input_[position_]], if the input goes on. *)
Definition peek : ST Parser (option Z) := fun s => Ok (head (rest s), s).

(** A loop that advances over the bytes [p] accepts. *)
Definition skip_while (p : Z -> bool) : ST Parser unit :=
  modify (fun s => let '(skipped, left_over) := span p (rest s) in
    mkParser (position s + Z.of_nat (length skipped)) left_over).

Definition is_space (c : Z) : bool := (c =? 32) || (c =? 10) || (c =? 13) || (c =? 9).

Definition SkipWhitespace : ST Parser unit := skip_while is_space.

Definition Consume (expected : Z) : ST Parser bool :=
  let* c := peek in
  if bool_decide (c = Some expected) then advance 1;* ret true else ret false.

Definition Expect (token : string) : ST Parser unit :=
  let* s := get in
  if bool_decide (take (length (bytes token)) (rest s) = bytes token)
  then advance (length (bytes token))
  else Fail ("expected " +:+ token).

(** *** Strings *)

Definition AppendUtf8 (output : list Z) (codepoint : Z) : list Z :=
  let low_six z := to_char (Z.lor 0x80 (Z.land z 0x3f)) in
  if codepoint <=? 0x7f then output ++ [to_char codepoint]
  else if codepoint <=? 0x7ff then
    output ++ [to_char (Z.lor 0xc0 (Z.shiftr codepoint 6)); low_six codepoint]
  else if codepoint <=? 0xffff then
    output ++ [to_char (Z.lor 0xe0 (Z.shiftr codepoint 12));
               low_six (Z.shiftr codepoint 6); low_six codepoint]
  else
    output ++ [to_char (Z.lor 0xf0 (Z.shiftr codepoint 18));
               low_six (Z.shiftr codepoint 12); low_six (Z.shiftr codepoint 6); low_six codepoint].

Definition hex_value (c : Z) : option Z :=
  if (48 <=? c) && (c <=? 57) then Some (c - 48)
  else if (97 <=? c) && (c <=? 102) then Some (c - 97 + 10)
  else if (65 <=? c) && (c <=? 70) then Some (c - 65 + 10)
  else None.

Fixpoint hex4_loop (n : nat) (value : Z) : ST Parser Z :=
  match n with
  | O => ret value
  | S n =>
    let* c := peek in
    match c with
    | None => throw (undefined_behavior "string_view index")
    | Some c =>
      advance 1;*
      match hex_value c with
      | Some d => hex4_loop n (Z.lor (wrap32 (Z.shiftl value 4)) d)
      | None => Fail "invalid unicode escape"
      end
    end
  end.

Definition ParseHex4 : ST Parser Z :=
  let* s := get in
  if (length (rest s) <? 4)%nat then Fail "truncated unicode escape" else hex4_loop 4 0.

(** The case ['u'] of the escapes. *)
Definition parse_codepoint : ST Parser Z :=
  let* codepoint := ParseHex4 in
  if (0xd800 <=? codepoint) && (codepoint <=? 0xdbff) then
    let* s := get in
    if bool_decide (take 2 (rest s) = [92; 117]) then
      advance 2;*
      let* low := ParseHex4 in
      if (low <? 0xdc00) || (low >? 0xdfff) then Fail "invalid low surrogate"
      else ret (0x10000 + Z.shiftl (codepoint - 0xd800) 10 + (low - 0xdc00))
    else Fail "high surrogate without low surrogate"
  else if (0xdc00 <=? codepoint) && (codepoint <=? 0xdfff) then Fail "unpaired low surrogate"
  else ret codepoint.

(** The byte a one-letter escape stands for. *)
Definition escape_byte (escaped : Z) : option Z :=
  if escaped =? 34 then Some 34
  else if escaped =? 92 then Some 92
  else if escaped =? 47 then Some 47
  else if escaped =? 98 then Some 8
  else if escaped =? 102 then Some 12
  else if escaped =? 110 then Some 10
  else if escaped =? 114 then Some 13
  else if escaped =? 116 then Some 9
  else None.

Definition parse_escape (output : list Z) : ST Parser (list Z) :=
  let* escaped := peek in
  match escaped with
  | None => Fail "truncated escape"
  | Some escaped =>
    advance 1;*
    match escape_byte escaped with
    | Some b => ret (output ++ [b])
    | None =>
      if escaped =? 117
      then let* codepoint := parse_codepoint in ret (AppendUtf8 output codepoint)
      else Fail "invalid escape"
    end
  end.

Fixpoint string_loop (fuel : nat) (output : list Z) : ST Parser (list Z) :=
  match fuel with
  | O => throw out_of_fuel
  | S fuel =>
    let* raw := peek in
    match raw with
    | None => Fail "unterminated string"
    | Some raw =>
      advance 1;*
      if raw =? 34 then ret output
      else if raw <? 0x20 then Fail "control character in string"
      else if negb (raw =? 92) then string_loop fuel (output ++ [raw])
      else let* output := parse_escape output in string_loop fuel output
    end
  end.

Definition ParseString : ST Parser (list Z) :=
  let* opened := Consume 34 in
  if negb opened then Fail "expected string"
  else let* s := get in string_loop (S (length (rest s))) [].

(** *** Numbers *)

Definition digit_next : ST Parser bool :=
  let* c := peek in ret (match c with Some c => is_digit c | None => false end).

Definition parse_integer_part : ST Parser unit :=
  let* c := peek in
  match c with
  | None => Fail "truncated integer"
  | Some c =>
    if c =? 48 then
      advance 1;*
      let* more := digit_next in
      if more then Fail "leading zero in integer" else ret tt
    else if (c <? 49) || (c >? 57) then Fail "invalid integer"
    else skip_while is_digit
  end.

(** One digit at least, then all that follow. *)
Definition some_digits (message : string) : ST Parser unit :=
  let* more := digit_next in
  if more then skip_while is_digit else Fail message.

Definition parse_fraction : ST Parser bool :=
  let* dot := Consume 46 in
  if dot then some_digits "fraction has no digits";* ret true else ret false.

Definition parse_exponent : ST Parser bool :=
  let* c := peek in
  if bool_decide (c = Some 101) || bool_decide (c = Some 69) then
    advance 1;*
    let* sign := peek in
    when (bool_decide (sign = Some 43) || bool_decide (sign = Some 45)) (advance 1);*
    some_digits "exponent has no digits";*
    ret true
  else ret false.

Definition integer_value (negative : bool) (token : list Z) : ST Parser Value :=
  if negative then
    match from_chars_i64 token with
    | Some (v, []) => ret (VInt v)
    | _ => Fail "signed integer out of range"
    end
  else
    match from_chars_u64 token with
    | Some (v, []) => ret (VUInt v)
    | _ => Fail "unsigned integer out of range"
    end.

Definition ParseNumber : ST Parser Value :=
  let* start := get in
  let* negative := Consume 45 in
  parse_integer_part;*
  let* fraction := parse_fraction in
  let* exponent := parse_exponent in
  let* stop := get in
  let token := take (Z.to_nat (position stop - position start)) (rest start) in
  if fraction || exponent then ret (VNumber token) else integer_value negative token.

(** *** Values, arrays and objects *)

Section Items.
Context (parse : ST Parser Value).

(** The loop of [ParseArray], which reads its items with [parse]. *)
Fixpoint array_loop (rounds : nat) (result : list Value) : ST Parser Value :=
  match rounds with
  | O => throw out_of_fuel
  | S rounds =>
    SkipWhitespace;*
    let* v := parse in
    let result := result ++ [v] in
    SkipWhitespace;*
    let* closed := Consume 93 in
    if closed then ret (VArray result)
    else
      let* comma := Consume 44 in
      if comma then array_loop rounds result else Fail "expected ',' or ']'"
  end.

Definition ParseArray : ST Parser Value :=
  Consume 91;*
  SkipWhitespace;*
  let* closed := Consume 93 in
  if closed then ret (VArray [])
  else let* s := get in array_loop (S (length (rest s))) [].

Fixpoint object_loop (rounds : nat) (result : list (list Z * Value)) : ST Parser Value :=
  match rounds with
  | O => throw out_of_fuel
  | S rounds =>
    SkipWhitespace;*
    let* c := peek in
    if negb (bool_decide (c = Some 34)) then Fail "expected object key"
    else
      let* key := ParseString in
      SkipWhitespace;*
      let* colon := Consume 58 in
      if negb colon then Fail "expected ':'"
      else
        SkipWhitespace;*
        let* v := parse in
        match emplace key v result with
        | None => Fail "duplicate object key"
        | Some result =>
          SkipWhitespace;*
          let* closed := Consume 125 in
          if closed then ret (VObject result)
          else
            let* comma := Consume 44 in
            if comma then object_loop rounds result else Fail "expected ',' or '}'"
        end
  end.

Definition ParseObject : ST Parser Value :=
  Consume 123;*
  SkipWhitespace;*
  let* closed := Consume 125 in
  if closed then ret (VObject [])
  else let* s := get in object_loop (S (length (rest s))) [].
End Items.

Fixpoint ParseValue (fuel : nat) : ST Parser Value :=
  match fuel with
  | O => throw out_of_fuel
  | S fuel =>
    let* c := peek in
    match c with
    | None => Fail "expected a value"
    | Some c =>
      if c =? 110 then Expect "null";* ret VNull
      else if c =? 116 then Expect "true";* ret (VBool true)
      else if c =? 102 then Expect "false";* ret (VBool false)
      else if c =? 34 then let* s := ParseString in ret (VString s)
      else if c =? 91 then ParseArray (ParseValue fuel)
      else if c =? 123 then ParseObject (ParseValue fuel)
      else if (c =? 45) || is_digit c then ParseNumber
      else Fail "unexpected token"
    end
  end.

Definition value_fuel (size : nat) : nat := S size.

Definition ParseDocument : ST Parser Value :=
  SkipWhitespace;*
  let* s := get in
  let* v := ParseValue (value_fuel (length (rest s))) in
  SkipWhitespace;*
  let* s := get in
  if bool_decide (rest s = []) then ret v else Fail "trailing content".

Definition Parse (input : list Z) : outcome Value :=
  match ParseDocument (mkParser 0 input) with Ok (v, _) => Ok v | Throw e => Throw e end.

(** ** The canonical form *)

Definition kHex : list Z := bytes "0123456789abcdef".

Definition escape_char (c : Z) : list Z :=
  if c =? 34 then [92; 34]
  else if c =? 92 then [92; 92]
  else if c =? 8 then [92; 98]
  else if c =? 12 then [92; 102]
  else if c =? 10 then [92; 110]
  else if c =? 13 then [92; 114]
  else if c =? 9 then [92; 116]
  else if c <? 0x20 then
    bytes "\u00" ++ [nth (Z.to_nat (Z.land (Z.shiftr c 4) 0x0f)) kHex 0;
                     nth (Z.to_nat (Z.land c 0x0f)) kHex 0]
  else [c].

Definition escaped (s : list Z) : list Z := 34 :: (s ≫= escape_char) ++ [34].

Definition AppendEscaped (output s : list Z) : list Z := output ++ escaped s.

(** Items with a comma before each but the first. *)
Definition comma_list (items : list (list Z)) : list Z :=
  match items with
  | [] => []
  | item :: items => item ++ (items ≫= cons 44)
  end.

Fixpoint canonical (v : Value) : list Z :=
  match v with
  | VNull => bytes "null"
  | VBool b => if b then bytes "true" else bytes "false"
  | VInt z => to_string_signed z
  | VUInt z => to_string z
  | VNumber token => token
  | VString s => escaped s
  | VArray items => 91 :: comma_list (map canonical items) ++ [93]
  | VObject members =>
    123 :: comma_list (map (fun m => escaped m.1 ++ 58 :: canonical m.2) members) ++ [125]
  end.

Definition AppendCanonical (output : list Z) (v : Value) : list Z := output ++ canonical v.

Definition Canonicalize (v : Value) : list Z := AppendCanonical [] v.

Definition CanonicalizeText (input : list Z) : outcome (list Z) :=
  let! v := Parse input in Ok (Canonicalize v).

(** ** Typed access *)

Definition must (where_ : list Z) (what : string) : exn :=
  runtime_error (text where_ +:+ what).

Definition AsObject (where_ : list Z) (v : Value) : outcome (list (list Z * Value)) :=
  match v with VObject m => Ok m | _ => Throw (must where_ " must be an object") end.

Definition AsArray (where_ : list Z) (v : Value) : outcome (list Value) :=
  match v with VArray l => Ok l | _ => Throw (must where_ " must be an array") end.

Definition AsString (where_ : list Z) (v : Value) : outcome (list Z) :=
  match v with VString s => Ok s | _ => Throw (must where_ " must be a string") end.

Definition AsBool (where_ : list Z) (v : Value) : outcome bool :=
  match v with VBool b => Ok b | _ => Throw (must where_ " must be boolean") end.

Definition AsU64 (where_ : list Z) (v : Value) : outcome Z :=
  match v with
  | VUInt z => Ok z
  | VInt z => if 0 <=? z then Ok z else Throw (must where_ " must be a non-negative integer")
  | _ => Throw (must where_ " must be a non-negative integer")
  end.

(** [map::find]. *)
Fixpoint member (key : list Z) (m : list (list Z * Value)) : option Value :=
  match m with
  | [] => None
  | (key', v) :: m => if bool_decide (key = key') then Some v else member key m
  end.

Definition Required (object : list (list Z * Value)) (key where_ : list Z) : outcome Value :=
  match member key object with
  | Some v => Ok v
  | None => Throw (must where_ (" is missing required key '" +:+ text key +:+ "'"))
  end.

Fixpoint require_all (object : list (list Z * Value)) (keys : list (list Z)) (where_ : list Z)
    : outcome unit :=
  match keys with
  | [] => Ok tt
  | key :: keys => let! _ := Required object key where_ in require_all object keys where_
  end.

Fixpoint known_only (members : list (list Z * Value)) (required optional : list (list Z))
    (where_ : list Z) : outcome unit :=
  match members with
  | [] => Ok tt
  | (key, _) :: members =>
    if negb (existsb (fun candidate => bool_decide (key = candidate)) required) &&
       negb (existsb (fun candidate => bool_decide (key = candidate)) optional)
    then Throw (must where_ (" contains unknown key '" +:+ text key +:+ "'"))
    else known_only members required optional where_
  end.

Definition RequireExactKeys (object : list (list Z * Value)) (required optional : list (list Z))
    (where_ : list Z) : outcome unit :=
  let! _ := require_all object required where_ in
  known_only object required optional where_.

Example parse_demo :
  CanonicalizeText (quoted " { 'b' : [ 1, -0, 2.50e1 ], 'a' : '\u00e9\n' } ")
  = Ok (quoted "{'a':'" ++ [195; 169] ++ quoted "\n','b':[1,0,2.50e1]}").
Proof. vm_compute. reflexivity. Qed.
