(* ===== verification/JsonTheorems.v ===== *)
(** What the JSON reader and printer promise: every text either parses to a
    well-formed value or is rejected with an error that points into the text; the
    canonical form reads back as the value it was printed from, so that it is stable
    and identifies the value. *)

From Stdlib Require Import Ascii String.
From S2P Require Import Prelude.
From S2P Require Import Text.
From S2P Require Import Json.

(** ** Keys *)

Definition sorted_keys (m : list (list Z * Value)) : Prop := StronglySorted key_lt m.*1.

Lemma emplace_elem key v m m' e : emplace key v m = Some m' -> e ∈ m' <-> e = (key, v) \/ e ∈ m.
Proof.
  revert m'. induction m as [|[k w] m IH]; intros m' H; simpl in H.
  - injection H as <-. set_solver.
  - destruct (bytes_ltb key k); [injection H as <-; set_solver|].
    destruct (bytes_ltb k key); [|done]. destruct (emplace key v m); [|done].
    injection H as <-. specialize (IH _ eq_refl). set_solver.
Qed.

(** [emplace] keeps the entries in order and inserts a key that was absent. *)
Lemma emplace_sorted key v m m' : sorted_keys m -> emplace key v m = Some m' -> sorted_keys m'.
Proof.
  unfold sorted_keys. revert m'. induction m as [|[k w] m IH]; intros m' Hs H; simpl in H.
  - injection H as <-. repeat constructor.
  - destruct (bytes_ltb key k) eqn:E1.
    + injection H as <-. simpl. constructor; [done|]. constructor; [done|].
      inversion Hs as [|? ? _ Hk]; subst. eapply Forall_impl; [exact Hk|].
      intros b Hb. by eapply bytes_ltb_trans.
    + destruct (bytes_ltb k key) eqn:E2; [|done].
      destruct (emplace key v m) as [m2|] eqn:E; [|done]. injection H as <-.
      inversion Hs as [|? ? Hs' Hk]; subst. simpl. constructor; [by apply IH|].
      apply Forall_forall. intros b Hb. apply list_elem_of_fmap in Hb as ([b' w'] & -> & Hb).
      apply (emplace_elem _ _ _ _ _ E) in Hb as [[= -> ->]|Hb]; [done|].
      eapply (proj1 (Forall_forall _ _) Hk). apply list_elem_of_fmap. by exists (b', w').
Qed.

Lemma emplace_last key v m :
  Forall (fun k => key_lt k key) m.*1 -> emplace key v m = Some (m ++ [(key, v)]).
Proof.
  induction m as [|[k w] m IH]; simpl; [done|]. intros [Hk Hm]%Forall_cons.
  rewrite (IH Hm). unfold key_lt in Hk. rewrite Hk.
  destruct (bytes_ltb key k) eqn:E; [|done].
  pose proof (bytes_ltb_trans _ _ _ E Hk) as Hc. unfold key_lt in Hc.
  by rewrite bytes_ltb_irrefl in Hc.
Qed.

(** ** Well-formed values

    [number_token] is the grammar of a number with a fraction or an exponent. *)

Definition sign_part (l : list Z) : Prop := l = [] \/ l = [45].
Definition integer_part (l : list Z) : Prop :=
  l = [48] \/ exists d ds, l = d :: ds /\ 49 <= d <= 57 /\ digits ds.
Definition some (l : list Z) : Prop := l <> [] /\ digits l.
Definition fraction_part (l : list Z) : Prop := l = [] \/ exists ds, l = 46 :: ds /\ some ds.
Definition exponent_part (l : list Z) : Prop :=
  l = [] \/ exists e s ds, l = e :: s ++ ds /\ (e = 101 \/ e = 69) /\
    (s = [] \/ s = [43] \/ s = [45]) /\ some ds.

Definition number_token (l : list Z) : Prop :=
  exists sign int frac exp, l = sign ++ int ++ frac ++ exp /\ sign_part sign /\
    integer_part int /\ fraction_part frac /\ exponent_part exp /\ frac ++ exp <> [].

Inductive wf : Value -> Prop :=
| wf_null : wf VNull
| wf_bool b : wf (VBool b)
| wf_int z : - 2 ^ 63 <= z < 2 ^ 63 -> wf (VInt z)
| wf_uint z : u64 z -> wf (VUInt z)
| wf_number token : number_token token -> wf (VNumber token)
| wf_string s : Forall byte s -> wf (VString s)
| wf_array items : Forall wf items -> wf (VArray items)
| wf_object members :
  sorted_keys members -> Forall (Forall byte) members.*1 -> Forall wf members.*2 ->
  wf (VObject members).

#[export] Hint Constructors wf : json.

(** The value a printed value reads back as: a signed integer that is not negative
    loses its type. *)
Fixpoint normalize (v : Value) : Value :=
  match v with
  | VInt z => if z <? 0 then VInt z else VUInt z
  | VArray items => VArray (map normalize items)
  | VObject members => VObject (map (fun m => (m.1, normalize m.2)) members)
  | v => v
  end.

Section ValueInduction.
Variable P : Value -> Prop.
Hypotheses (Hnull : P VNull) (Hbool : forall b, P (VBool b)) (Hint_ : forall z, P (VInt z))
  (Huint : forall z, P (VUInt z)) (Hnum : forall t, P (VNumber t)) (Hstr : forall s, P (VString s))
  (Harr : forall l, Forall P l -> P (VArray l))
  (Hobj : forall m, Forall (fun e => P e.2) m -> P (VObject m)).

(** Induction that reaches the values inside arrays and objects. *)
Fixpoint value_ind' (v : Value) : P v :=
  match v with
  | VNull => Hnull
  | VBool b => Hbool b
  | VInt z => Hint_ z
  | VUInt z => Huint z
  | VNumber t => Hnum t
  | VString s => Hstr s
  | VArray l => Harr l ((fix go l := match l return Forall P l with
      | [] => Forall_nil_2 _
      | v :: l => Forall_cons_2 _ _ _ (value_ind' v) (go l) end) l)
  | VObject m => Hobj m ((fix go m := match m return Forall (fun e => P e.2) m with
      | [] => Forall_nil_2 _
      | e :: m => Forall_cons_2 _ _ _ (value_ind' e.2) (go m) end) m)
  end.
End ValueInduction.

(** ** What a parsing step consumes *)

Definition ate (s s' : Parser) (w : list Z) : Prop :=
  rest s = w ++ rest s' /\ position s' = position s + Z.of_nat (length w).

Lemma ate_refl s : ate s s [].
Proof. split; simpl; [done|lia]. Qed.

Lemma ate_trans s s1 s2 a b : ate s s1 a -> ate s1 s2 b -> ate s s2 (a ++ b).
Proof.
  intros [H1 H2] [H3 H4]. split; [by rewrite H1, H3, app_assoc|].
  rewrite length_app. lia.
Qed.

#[export] Hint Resolve ate_refl ate_trans : json.

Section Safety.
Context (N : Z).

(** The text has [N] bytes in all. *)
Definition inv (s : Parser) : Prop :=
  0 <= position s /\ position s + Z.of_nat (length (rest s)) = N /\ Forall byte (rest s).

Definition rejected (e : exn) : Prop := exists p m, e = json_error p m /\ 0 <= p <= N.

(** [m] consumes a word and returns with [Q] of the result and the word, or rejects. *)
Definition eats {A} (m : ST Parser A) (s : Parser) (Q : A -> list Z -> Prop) : Prop :=
  wpe m (fun a s' => inv s' /\ exists w, ate s s' w /\ Q a w) rejected s.

Lemma inv_ate s s' w : inv s -> ate s s' w -> inv s' /\ Forall byte w.
Proof.
  intros (H1 & H2 & H3) [H4 H5]. rewrite H4 in H2, H3.
  apply Forall_app in H3 as [H3 H3']. rewrite length_app in H2. unfold inv. split_and!; [lia|lia|done|done].
Qed.

Lemma eats_bind {A B} (m : ST Parser A) (k : A -> ST Parser B) s Q R :
  eats m s Q ->
  (forall a w s', inv s' -> ate s s' w -> Q a w -> eats (k a) s' (fun b w' => R b (w ++ w'))) ->
  eats (bind m k) s R.
Proof.
  intros Hm Hk. unfold eats. apply wpe_bind. eapply wpe_mono; [exact Hm|].
  intros a s' (Hi & w & Hw & Hq). eapply wpe_mono; [by apply (Hk a w s')|].
  intros b s2 (Hi2 & w2 & Hw2 & Hr). split; [done|]. exists (w ++ w2). eauto with json.
Qed.

Lemma eats_mono {A} (m : ST Parser A) s (Q R : A -> list Z -> Prop) :
  eats m s Q -> (forall a w, Forall byte w -> Q a w -> R a w) -> inv s -> eats m s R.
Proof.
  intros Hm H Hs. eapply wpe_mono; [exact Hm|]. intros a s' (Hi & w & Hw & Hq).
  split; [done|]. exists w. split; [done|]. apply H; [|done]. by destruct (inv_ate _ _ _ Hs Hw).
Qed.

Lemma eats_ret {A} (a : A) s (Q : A -> list Z -> Prop) : inv s -> Q a [] -> eats (ret a) s Q.
Proof. intros Hi Hq. split; [done|]. exists []. eauto with json. Qed.

Lemma eats_fail {A} msg s (Q : A -> list Z -> Prop) : inv s -> eats (Fail msg) s Q.
Proof. intros (H1 & H2 & _). exists (position s), msg. split; [done|lia]. Qed.

Lemma eats_get {B} (k : Parser -> ST Parser B) s R : eats (k s) s R -> eats (bind get k) s R.
Proof. done. Qed.

Lemma eats_peek {B} (k : option Z -> ST Parser B) s R :
  eats (k (head (rest s))) s R -> eats (bind peek k) s R.
Proof. done. Qed.

(** Advancing over a known prefix of the input. *)
Lemma eats_advance n s w r :
  inv s -> rest s = w ++ r -> length w = n -> eats (advance n) s (fun _ w' => w' = w).
Proof.
  intros Hi Hr Hn. assert (ate s (mkParser (position s + Z.of_nat n) r) w) as Hate by (split; simpl; [done|lia]).
  unfold eats, wpe, advance, modify. rewrite Hr, drop_app_length' by done.
  split; [by apply (inv_ate _ _ _ Hi Hate)|]. by exists w.
Qed.

Lemma eats_step {B} c (k : unit -> ST Parser B) s r R :
  inv s -> rest s = c :: r ->
  (forall s', rest s' = r -> inv s' -> ate s s' [c] -> eats (k tt) s' (fun b w' => R b (c :: w'))) ->
  eats (bind (advance 1) k) s R.
Proof.
  intros Hi Hr Hk. eapply eats_bind; [by apply (eats_advance 1 s [c] r)|].
  intros [] w' s' Hi' Hate ->. apply Hk; [|done|done]. destruct Hate as [Hr' _].
  rewrite Hr in Hr'. by injection Hr'.
Qed.

Lemma eats_skip_while p s :
  inv s -> eats (skip_while p) s (fun _ w =>
    Forall (fun c => p c = true) w /\ w `prefix_of` rest s /\ (w = [] -> stops p (rest s))).
Proof.
  intros Hi. unfold eats, wpe, skip_while, modify.
  pose proof (span_app p (rest s)) as Ha. pose proof (span_all p (rest s)) as Hall.
  pose proof (span_rest p (rest s)) as Hst. destruct (span p (rest s)) as [w k]. simpl in *.
  assert (ate s (mkParser (position s + Z.of_nat (length w)) k) w) as Hate by (split; simpl; [done|lia]).
  split; [by apply (inv_ate _ _ _ Hi Hate)|]. exists w. split_and!; [done|done|by exists k|].
  intros ->. by rewrite <- Ha.
Qed.

Lemma eats_assoc {A B C} (m : ST Parser A) (f : A -> ST Parser B) (k : B -> ST Parser C) s R :
  eats (bind m (fun a => bind (f a) k)) s R -> eats (bind (bind m f) k) s R.
Proof. unfold eats, wpe, bind. by destruct (m s) as [[a s']|e]. Qed.

Lemma eats_consume {B} c (k : bool -> ST Parser B) s R :
  inv s ->
  (forall r s', rest s = c :: r -> rest s' = r -> inv s' -> ate s s' [c] ->
    eats (k true) s' (fun b w => R b (c :: w))) ->
  (head (rest s) <> Some c -> eats (k false) s R) -> eats (bind (Consume c) k) s R.
Proof.
  intros Hi H1 H2. apply eats_assoc, eats_peek.
  case_bool_decide as Hc; [|by apply H2].
  destruct (rest s) as [|c' r] eqn:Hr; simplify_eq/=.
  apply eats_assoc, (eats_step c _ _ r); [done..|]. intros s' Hr' Hi' Hate.
  by apply (H1 r).
Qed.

Lemma eats_expect t s : inv s -> eats (Expect t) s (fun _ w => w = bytes t).
Proof.
  intros Hi. apply eats_get. case_bool_decide as Ht; [|by apply eats_fail].
  apply (eats_advance _ _ _ (drop (length (bytes t)) (rest s))); [done| |done].
  by rewrite <- Ht at 1; rewrite take_drop.
Qed.

(** *** Strings *)

Lemma to_char_byte z : byte (to_char z).
Proof. unfold byte, to_char. pose proof (Z.mod_pos_bound z 256). lia. Qed.

Lemma AppendUtf8_byte out cp : Forall byte out -> Forall byte (AppendUtf8 out cp).
Proof.
  intros H. unfold AppendUtf8. repeat case_match; apply Forall_app; split; try done;
    repeat constructor; apply to_char_byte.
Qed.

Lemma eats_hex4_loop n v s :
  inv s -> (n <= length (rest s))%nat -> eats (hex4_loop n v) s (fun _ w => length w = n).
Proof.
  revert v s. induction n as [|n IH]; intros v s Hi Hn; simpl; [by apply eats_ret|].
  apply eats_peek. destruct (rest s) as [|c r] eqn:Hr; simpl in *; [lia|].
  apply (eats_step c _ _ r); [done..|]. intros s' Hr' Hi' _.
  destruct (hex_value c); [|by apply eats_fail].
  eapply eats_mono; [apply IH; [done|rewrite Hr'; lia]| |done]. simpl. auto.
Qed.

Lemma eats_ParseHex4 s : inv s -> eats ParseHex4 s (fun _ _ => True).
Proof.
  intros Hi. apply eats_get. destruct (Nat.ltb_spec (length (rest s)) 4); [by apply eats_fail|].
  eapply eats_mono; [by apply eats_hex4_loop|done|done].
Qed.

Lemma eats_parse_codepoint s : inv s -> eats parse_codepoint s (fun _ _ => True).
Proof.
  intros Hi. eapply eats_bind; [by apply eats_ParseHex4|]. intros cp w s1 Hi1 _ _.
  destruct ((0xd800 <=? cp) && (cp <=? 0xdbff)).
  - apply eats_get. case_bool_decide as Ht; [|by apply eats_fail].
    eapply eats_bind; [apply (eats_advance 2 s1 [92; 117] (drop 2 (rest s1))); [done| |done]|].
    { by rewrite <- Ht, take_drop. }
    intros [] w2 s2 Hi2 _ _. eapply eats_bind; [by apply eats_ParseHex4|].
    intros low w3 s3 Hi3 _ _. destruct (_ || _); [by apply eats_fail|by apply eats_ret].
  - destruct (_ && _); [by apply eats_fail|by apply eats_ret].
Qed.

Lemma escape_byte_byte c b : escape_byte c = Some b -> byte b.
Proof. unfold escape_byte, byte. repeat case_match; intros; simplify_eq; lia. Qed.

Lemma eats_parse_escape out s :
  inv s -> Forall byte out -> eats (parse_escape out) s (fun out _ => Forall byte out).
Proof.
  intros Hi Ho. apply eats_peek. destruct (rest s) as [|c r] eqn:Hr; simpl; [by apply eats_fail|].
  apply (eats_step c _ _ r); [done..|]. intros s' Hr' Hi' _.
  destruct (escape_byte c) as [b|] eqn:Hb.
  - apply eats_ret; [done|]. apply Forall_app. split; [done|].
    constructor; [by eapply escape_byte_byte|done].
  - destruct (c =? 117); [|by apply eats_fail].
    eapply eats_bind; [by apply eats_parse_codepoint|]. intros cp w s2 Hi2 _ _.
    apply eats_ret; [done|]. by apply AppendUtf8_byte.
Qed.

Lemma ate_length s s' w : ate s s' w -> length (rest s) = (length w + length (rest s'))%nat.
Proof. intros [-> _]. by rewrite length_app. Qed.

Lemma eats_string_loop n out s :
  inv s -> Forall byte out -> (length (rest s) < n)%nat ->
  eats (string_loop n out) s (fun out _ => Forall byte out).
Proof.
  revert out s. induction n as [|n IH]; intros out s Hi Ho Hn; [lia|]. simpl. apply eats_peek.
  destruct (rest s) as [|c r] eqn:Hr; simpl in *; [by apply eats_fail|].
  apply (eats_step c _ _ r); [done..|]. intros s' Hr' Hi' _.
  assert (byte c) as Hc by (destruct Hi as (_ & _ & Hb); rewrite Hr in Hb; by inversion Hb).
  destruct (c =? 34); [by apply eats_ret|].
  destruct (c <? 0x20); [by apply eats_fail|].
  destruct (negb (c =? 92)).
  - apply IH; [done| |rewrite Hr'; lia]. apply Forall_app. split; [done|by constructor].
  - eapply eats_bind; [by apply eats_parse_escape|]. intros out' w s2 Hi2 Ha Ho'.
    apply IH; [done|done|]. apply ate_length in Ha. rewrite Hr' in Ha. lia.
Qed.

Lemma eats_ParseString s :
  inv s -> eats ParseString s (fun out w => Forall byte out /\ w <> []).
Proof.
  intros Hi. apply eats_consume; [done| |intros _; by apply eats_fail].
  intros r s' Hr Hr' Hi' _. cbn [negb]. apply eats_get.
  eapply eats_mono; [apply eats_string_loop; [done|constructor|lia]| |done]. auto.
Qed.

(** *** Numbers *)

Lemma eats_digit_next {B} (k : bool -> ST Parser B) s R :
  (forall c r, rest s = c :: r -> is_digit c = true -> eats (k true) s R) ->
  eats (k false) s R -> eats (bind digit_next k) s R.
Proof.
  intros H1 H2. apply eats_assoc, eats_peek. destruct (rest s) as [|c r] eqn:Hr; simpl; [done|].
  destruct (is_digit c) eqn:Hc; [by eapply H1|done].
Qed.

Lemma eats_some_digits msg s : inv s -> eats (some_digits msg) s (fun _ w => some w).
Proof.
  intros Hi. apply eats_digit_next; [|by apply eats_fail]. intros c r Hr Hc.
  eapply eats_mono; [by apply eats_skip_while| |done]. intros _ w _ (Hw & _ & Hne).
  split; [|done]. intros ->. specialize (Hne eq_refl). rewrite Hr in Hne. simpl in Hne. congruence.
Qed.

Lemma eats_parse_integer_part s :
  inv s -> eats parse_integer_part s (fun _ w => integer_part w).
Proof.
  intros Hi. apply eats_peek. destruct (rest s) as [|c r] eqn:Hr; simpl; [by apply eats_fail|].
  destruct (Z.eqb_spec c 48) as [->|Hc].
  - apply (eats_step 48 _ _ r); [done..|]. intros s' Hr' Hi' _.
    apply eats_digit_next; [intros; by apply eats_fail|]. apply eats_ret; [done|by left].
  - destruct ((c <? 49) || (c >? 57)) eqn:E; [by apply eats_fail|]. zbool.
    eapply eats_mono; [by apply eats_skip_while| |done]. intros _ w _ (Hw & Hp & Hne).
    right. destruct w as [|d ds].
    + specialize (Hne eq_refl). rewrite Hr in Hne. simpl in Hne.
      rewrite (proj2 (is_digit_iff c)) in Hne by lia. done.
    + destruct Hp as [k Hk]. rewrite Hr in Hk. injection Hk as -> _. exists d, ds.
      inversion Hw; subst. split_and!; [done|lia|lia|done].
Qed.

Lemma eats_parse_fraction s :
  inv s -> eats parse_fraction s (fun b w => fraction_part w /\ (b = true -> w <> []) /\ (b = false -> w = [])).
Proof.
  intros Hi. apply eats_consume; [done| |].
  - intros r s' Hr Hr' Hi' _. eapply eats_bind; [by apply eats_some_digits|].
    intros [] w s2 Hi2 _ Hw. apply eats_ret; [done|]. rewrite app_nil_r.
    split_and!; [right; by exists w|done|done].
  - intros _. apply eats_ret; [done|]. split_and!; [by left|done|done].
Qed.

Lemma eats_parse_exponent s :
  inv s -> eats parse_exponent s (fun b w => exponent_part w /\ (b = true -> w <> []) /\ (b = false -> w = [])).
Proof.
  intros Hi. apply eats_peek.
  destruct (bool_decide (head (rest s) = Some 101) || bool_decide (head (rest s) = Some 69)) eqn:E;
    [|apply eats_ret; [done|]; split_and!; [by left|done|done]].
  destruct (rest s) as [|e r] eqn:Hr; [done|]. simpl in E.
  assert (e = 101 \/ e = 69) as He.
  { apply orb_true_iff in E as [E|E]; apply bool_decide_eq_true in E; injection E; auto. }
  apply (eats_step e _ _ r); [done..|]. intros s' Hr' Hi' _. apply eats_peek.
  eapply (eats_bind _ _ _ (fun _ w => w = [] \/ w = [43] \/ w = [45])).
  - clear E. unfold when.
    destruct (bool_decide (head (rest s') = Some 43) || bool_decide (head (rest s') = Some 45))
      eqn:E'; [|apply eats_ret; auto].
    destruct (rest s') as [|c r'] eqn:Hr2; [done|]. simpl in E'.
    eapply eats_mono; [by apply (eats_advance 1 s' [c] r')| |done]. intros _ w _ ->.
    apply orb_true_iff in E' as [E'|E']; apply bool_decide_eq_true in E'; injection E' as ->; auto.
  - intros [] sg s2 Hi2 _ Hsg. eapply eats_bind; [by apply eats_some_digits|].
    intros [] ds s3 Hi3 _ Hds. apply eats_ret; [done|]. rewrite app_nil_r.
    split_and!; [right|done|done]. by exists e, sg, ds.
Qed.

Lemma json_u64_range t v k : from_chars_u64 t = Some (v, k) -> u64 v.
Proof.
  unfold from_chars_u64. pose proof (span_all is_digit t) as Hd.
  destruct (span is_digit t) as [ds r]. simpl in Hd. case_bool_decide; [done|].
  destruct (Z.leb_spec (decimal_value ds) U64_MAX); [|done]. intros [= <- <-].
  pose proof (decimal_value_nonneg ds Hd). unfold u64. lia.
Qed.

Lemma from_chars_i64_range t v k : from_chars_i64 t = Some (v, k) -> - 2 ^ 63 <= v < 2 ^ 63.
Proof.
  unfold from_chars_i64. destruct (span is_digit _) as [ds r]. case_bool_decide; [done|].
  destruct (_ && _) eqn:E; [|done]. intros [= <- <-]. zbool. lia.
Qed.

Lemma eats_integer_value negative token s :
  inv s -> eats (integer_value negative token) s (fun v w => wf v /\ w = []).
Proof.
  intros Hi. unfold integer_value. destruct negative.
  - destruct (from_chars_i64 token) as [[v [|]]|] eqn:E; try by apply eats_fail.
    apply eats_ret; [done|]. split; [|done]. constructor. by eapply from_chars_i64_range.
  - destruct (from_chars_u64 token) as [[v [|]]|] eqn:E; try by apply eats_fail.
    apply eats_ret; [done|]. split; [|done]. constructor. by eapply json_u64_range.
Qed.

Lemma ate_token s s' w :
  ate s s' w -> take (Z.to_nat (position s' - position s)) (rest s) = w.
Proof.
  intros [Hr Hp]. rewrite Hr, take_app_length'; [done|]. lia.
Qed.

Lemma eats_ParseNumber s : inv s -> eats ParseNumber s (fun v w => wf v /\ w <> []).
Proof.
  intros Hi. apply eats_get.
  eapply (eats_bind _ _ _ (fun (b : bool) w => sign_part w)).
  { unfold Consume. apply eats_peek. case_bool_decide as Hc.
    - destruct (rest s) as [|c r] eqn:Hr; simplify_eq/=.
      apply (eats_step 45 _ _ r); [done..|]. intros. apply eats_ret; [done|by right].
    - apply eats_ret; [done|by left]. }
  intros negative sg s1 Hi1 A1 Hsg. eapply eats_bind; [by apply eats_parse_integer_part|].
  intros [] int s2 Hi2 A2 Hint_. eapply eats_bind; [by apply eats_parse_fraction|].
  intros fb frac s3 Hi3 A3 (Hf & Hf1 & Hf2). eapply eats_bind; [by apply eats_parse_exponent|].
  intros eb exp s4 Hi4 A4 (He & He1 & He2). apply eats_get.
  assert (sg ++ int ++ frac ++ exp <> []) as Hne.
  { destruct Hint_ as [->|(d & ds & -> & _)]; by destruct sg. }
  rewrite (ate_token s s4 (sg ++ int ++ frac ++ exp)) by eauto 6 with json.
  destruct (fb || eb) eqn:Hb.
  - apply eats_ret; [done|]. rewrite app_nil_r. split; [|done]. constructor.
    exists sg, int, frac, exp. split_and!; try done.
    apply orb_true_iff in Hb as [->| ->]; [destruct frac|destruct frac, exp]; naive_solver.
  - eapply eats_mono; [by apply eats_integer_value| |done]. intros v w _ [Hv ->].
    by rewrite app_nil_r.
Qed.
(** *** Values *)

Lemma eats_SkipWhitespace {B} (k : unit -> ST Parser B) s R :
  inv s ->
  (forall w s', inv s' -> ate s s' w -> eats (k tt) s' (fun b w' => R b (w ++ w'))) ->
  eats (bind SkipWhitespace k) s R.
Proof.
  intros Hi Hk. eapply eats_bind; [by apply eats_skip_while|]. intros [] w s' Hi' Ha _. by apply Hk.
Qed.

Definition object_wf (m : list (list Z * Value)) : Prop :=
  sorted_keys m /\ Forall (Forall byte) m.*1 /\ Forall wf m.*2.

Lemma emplace_wf key v m m' :
  emplace key v m = Some m' -> Forall byte key -> wf v -> object_wf m -> object_wf m'.
Proof.
  intros He Hk Hv (Hs & Hb & Hw). split_and!; [by eapply emplace_sorted| |];
    apply Forall_forall; intros x Hx; apply list_elem_of_fmap in Hx as ([k w] & -> & Hx);
    apply (emplace_elem _ _ _ _ _ He) in Hx as [[= -> ->]|Hx]; try done; simpl.
  - apply (proj1 (Forall_forall _ _) Hb). apply list_elem_of_fmap. by exists (k, w).
  - apply (proj1 (Forall_forall _ _) Hw). apply list_elem_of_fmap. by exists (k, w).
Qed.

(** [parse] reads a value from any input shorter than [n]. *)
Definition value_ok (n : nat) (parse : ST Parser Value) : Prop := forall s,
  inv s -> (length (rest s) < n)%nat -> eats parse s (fun v w => wf v /\ w <> []).

Lemma nonempty_length {A} (l : list A) : l <> [] -> (0 < length l)%nat.
Proof. destruct l; simpl; [done|lia]. Qed.

(** Lengths of what is left, from the words consumed. *)
Ltac lengths :=
  repeat match goal with
  | H : ate _ _ _ |- _ => apply ate_length in H
  | H : ?w <> [] |- _ => lazymatch type of w with list Z => apply nonempty_length in H end
  end; simpl length in *; lia.

Lemma eats_array_loop n parse rounds s acc :
  value_ok n parse -> inv s -> (length (rest s) < n)%nat -> (length (rest s) < rounds)%nat ->
  Forall wf acc -> eats (array_loop parse rounds acc) s (fun v _ => wf v).
Proof.
  intros Hv. revert s acc. induction rounds as [|rounds IH]; intros s acc Hi Hn Hr Hacc; [lia|].
  cbn [array_loop]. apply eats_SkipWhitespace; [done|].
  intros w1 s1 Hi1 A1. eapply eats_bind; [apply Hv; [done|lengths]|].
  intros v w2 s2 Hi2 A2 [Hwf Hw2]. apply eats_SkipWhitespace; [done|]. intros w3 s3 Hi3 A3.
  assert (Forall wf (acc ++ [v])) as Hacc' by (apply Forall_app; auto).
  apply eats_consume; [done| |].
  - intros. apply eats_ret; [done|]. by constructor.
  - intros _. apply eats_consume; [done| |intros; by apply eats_fail].
    intros r s4 _ _ Hi4 A4. eapply eats_mono; [apply IH; [done| | |done]|done|done]; lengths.
Qed.

Lemma eats_object_loop n parse rounds s acc :
  value_ok n parse -> inv s -> (length (rest s) < n)%nat -> (length (rest s) < rounds)%nat ->
  object_wf acc -> eats (object_loop parse rounds acc) s (fun v _ => wf v).
Proof.
  intros Hv. revert s acc. induction rounds as [|rounds IH]; intros s acc Hi Hn Hr Hacc; [lia|].
  cbn [object_loop]. apply eats_SkipWhitespace; [done|].
  intros w1 s1 Hi1 A1. apply eats_peek. destruct (negb _); [by apply eats_fail|].
  eapply eats_bind; [by apply eats_ParseString|]. intros key wk sk Hik Ak [Hkey _].
  apply eats_SkipWhitespace; [done|]. intros w2 s2 Hi2 A2.
  apply eats_consume; [done| |intros; by apply eats_fail]. intros r3 s3 _ _ Hi3 A3. cbn [negb].
  apply eats_SkipWhitespace; [done|]. intros w4 s4 Hi4 A4.
  eapply eats_bind; [apply Hv; [done|lengths]|]. intros v w5 s5 Hi5 A5 [Hwf Hw5].
  destruct (emplace key v acc) as [acc'|] eqn:He; [|by apply eats_fail].
  pose proof (emplace_wf _ _ _ _ He Hkey Hwf Hacc) as Hacc'.
  apply eats_SkipWhitespace; [done|]. intros w6 s6 Hi6 A6. apply eats_consume; [done| |].
  - intros. apply eats_ret; [done|]. destruct Hacc' as (? & ? & ?). by constructor.
  - intros _. apply eats_consume; [done| |intros; by apply eats_fail].
    intros r s7 _ _ Hi7 A7. eapply eats_mono; [apply IH; [done| | |done]|done|done]; lengths.
Qed.

Lemma eats_ParseArray n parse s r :
  value_ok n parse -> inv s -> rest s = 91 :: r -> (length r < n)%nat ->
  eats (ParseArray parse) s (fun v w => wf v /\ w <> []).
Proof.
  intros Hv Hi Hr Hn. apply eats_consume; [done| |by rewrite Hr]. intros r1 s1 Hr1 Hr1' Hi1 A1.
  rewrite Hr in Hr1. injection Hr1 as <-. apply eats_SkipWhitespace; [done|]. intros w s2 Hi2 A2.
  apply eats_consume; [done| |].
  - intros. apply eats_ret; [done|]. split; [by repeat constructor|done].
  - intros _. apply eats_get. eapply eats_mono; [apply (eats_array_loop n); [done|done| |lia|constructor]| |done].
    + rewrite <- Hr1' in Hn. lengths.
    + intros v w' _ Hw. done.
Qed.

Lemma eats_ParseObject n parse s r :
  value_ok n parse -> inv s -> rest s = 123 :: r -> (length r < n)%nat ->
  eats (ParseObject parse) s (fun v w => wf v /\ w <> []).
Proof.
  intros Hv Hi Hr Hn. apply eats_consume; [done| |by rewrite Hr]. intros r1 s1 Hr1 Hr1' Hi1 A1.
  rewrite Hr in Hr1. injection Hr1 as <-. apply eats_SkipWhitespace; [done|]. intros w s2 Hi2 A2.
  apply eats_consume; [done| |].
  - intros. apply eats_ret; [done|]. split; [by repeat constructor|done].
  - intros _. apply eats_get. eapply eats_mono; [apply (eats_object_loop n); [done|done| |lia|by repeat constructor]| |done].
    + rewrite <- Hr1' in Hn. lengths.
    + intros v w' _ Hw. done.
Qed.

(** A literal name. *)
Lemma eats_word t v s :
  inv s -> wf v -> bytes t <> [] -> eats (Expect t;* ret v) s (fun v w => wf v /\ w <> []).
Proof.
  intros Hi Hv Ht. eapply eats_bind; [by apply eats_expect|]. intros [] w s' Hi' _ ->.
  apply eats_ret; [done|]. by rewrite app_nil_r.
Qed.

Lemma eats_value n : value_ok n (ParseValue n).
Proof.
  induction n as [|n IH]; intros s Hi Hn; [lia|]. cbn [ParseValue]. apply eats_peek.
  destruct (rest s) as [|c r] eqn:Hr; [by apply eats_fail|]. cbn [head length] in *.
  destruct (c =? 110); [apply eats_word; [done|constructor|done]|].
  destruct (c =? 116); [apply eats_word; [done|constructor|done]|].
  destruct (c =? 102); [apply eats_word; [done|constructor|done]|].
  destruct (c =? 34).
  { eapply eats_bind; [by apply eats_ParseString|]. intros out w s' Hi' _ [Hout Hw].
    apply eats_ret; [done|]. rewrite app_nil_r. split; [by constructor|done]. }
  destruct (Z.eqb_spec c 91) as [->|_]; [apply (eats_ParseArray n _ _ r); [done|done|done|lia]|].
  destruct (Z.eqb_spec c 123) as [->|_]; [apply (eats_ParseObject n _ _ r); [done|done|done|lia]|].
  destruct (_ || _); [by apply eats_ParseNumber|by apply eats_fail].
Qed.

Lemma eats_document s : inv s -> eats ParseDocument s (fun v _ => wf v).
Proof.
  intros Hi. apply eats_SkipWhitespace; [done|]. intros w1 s1 Hi1 _. apply eats_get.
  eapply eats_bind; [apply eats_value; [done|unfold value_fuel; lia]|].
  intros v w2 s2 Hi2 _ [Hv _]. apply eats_SkipWhitespace; [done|]. intros w3 s3 Hi3 _.
  apply eats_get. case_bool_decide; [by apply eats_ret|by apply eats_fail].
Qed.
End Safety.

(** ** Every text is read or rejected *)

(** Reading a text always ends, and in one of two ways: with a value that is well
    formed (integers in the range of their type, number tokens in the grammar, object
    keys distinct and in order), or with an error that names a byte of the text. *)
Theorem json_parse_total input :
  Forall byte input ->
  (exists v, Parse input = Ok v /\ wf v) \/
  (exists p m, Parse input = Throw (json_error p m) /\ 0 <= p <= Z.of_nat (length input)).
Proof.
  intros Hb. assert (inv (Z.of_nat (length input)) (mkParser 0 input)) as Hi by
    (unfold inv; simpl; split_and!; [lia|lia|done]).
  pose proof (eats_document _ _ Hi) as H. unfold Parse, eats, wpe in *.
  destruct (ParseDocument _) as [[v s']|e].
  - left. exists v. split; [done|]. by destruct H as (_ & w & _ & Hv).
  - right. destruct H as (p & m & -> & Hp). by exists p, m.
Qed.
