(* ===== verification/JsonRoundTrip.v ===== *)
(** The canonical form reads back: [reads m w a k] says that on a text [w ++ k] the
    parsing step [m] consumes exactly [w] and returns [a]. Every printed value is read
    so, whence the canonical form is stable and determines the value. *)

From Stdlib Require Import Ascii String.
From S2P Require Import Prelude.
From S2P Require Import Text.
From S2P Require Import Json.
From S2P Require Import JsonTheorems.

Definition reads {A} (m : ST Parser A) (w : list Z) (a : A) (k : list Z) : Prop :=
  forall p, m (mkParser p (w ++ k)) = Ok (a, mkParser (p + Z.of_nat (length w)) k).

Lemma reads_bind {A B} (m : ST Parser A) (f : A -> ST Parser B) w1 w2 a b k :
  reads m w1 a (w2 ++ k) -> reads (f a) w2 b k -> reads (bind m f) (w1 ++ w2) b k.
Proof.
  intros H1 H2 p. rewrite <- app_assoc. rewrite (bind_ok _ _ _ _ _ (H1 p)), (H2 _).
  do 3 f_equal. rewrite length_app. lia.
Qed.

Lemma reads_bind0 {A B} (m : ST Parser A) (f : A -> ST Parser B) w a b k :
  reads m [] a (w ++ k) -> reads (f a) w b k -> reads (bind m f) w b k.
Proof. apply (reads_bind m f [] w). Qed.

Lemma reads_end {A B} (m : ST Parser A) (f : A -> ST Parser B) w a b k :
  reads m w a k -> reads (f a) [] b k -> reads (bind m f) w b k.
Proof. intros H1 H2. rewrite <- (app_nil_r w). by eapply reads_bind. Qed.

Lemma reads_cons {A B} (m : ST Parser A) (f : A -> ST Parser B) c w a b k :
  reads m [c] a (w ++ k) -> reads (f a) w b k -> reads (bind m f) (c :: w) b k.
Proof. apply (reads_bind m f [c] w). Qed.

Lemma reads_ret {A} (a : A) k : reads (ret a) [] a k.
Proof. intros p. unfold ret. do 3 f_equal. simpl. lia. Qed.

Lemma reads_peek {B} (f : option Z -> ST Parser B) w b k :
  reads (f (head (w ++ k))) w b k -> reads (bind peek f) w b k.
Proof. done. Qed.

Lemma reads_get {B} (f : Parser -> ST Parser B) w b k :
  (forall p, reads (f (mkParser p (w ++ k))) w b k) -> reads (bind get f) w b k.
Proof. intros H p. apply H. Qed.

Lemma reads_advance w k : reads (advance (length w)) w tt k.
Proof. intros p. unfold advance, modify. simpl. by rewrite drop_app_length. Qed.

Lemma reads_one c k : reads (advance 1) [c] tt k.
Proof. apply (reads_advance [c]). Qed.

Lemma reads_Consume c k : reads (Consume c) [c] true k.
Proof.
  apply reads_peek. simpl. rewrite bool_decide_eq_true_2 by done.
  eapply reads_end; [apply reads_one|apply reads_ret].
Qed.

Lemma reads_Consume_not c k : head k <> Some c -> reads (Consume c) [] false k.
Proof. intros H. apply reads_peek. simpl. rewrite bool_decide_eq_false_2 by done. apply reads_ret. Qed.

Lemma reads_skip_while p w k :
  Forall (fun c => p c = true) w -> stops p k -> reads (skip_while p) w tt k.
Proof. intros H1 H2 q. unfold skip_while, modify. simpl. by rewrite span_exact. Qed.

Lemma reads_Expect t k : reads (Expect t) (bytes t) tt k.
Proof.
  apply reads_get. intros p. simpl. rewrite take_app_length, bool_decide_eq_true_2 by done.
  apply reads_advance.
Qed.

Lemma reads_SkipWhitespace k : stops is_space k -> reads SkipWhitespace [] tt k.
Proof. by apply (reads_skip_while is_space []). Qed.

(** ** Strings *)

(** The control characters that are printed as a hexadecimal escape: the two digits
    of each are read as its halves. *)
Definition control_digits (c : Z) : bool :=
  bool_decide (hex_value (nth (Z.to_nat (Z.land (Z.shiftr c 4) 0x0f)) kHex 0) = Some (Z.shiftr c 4)) &&
  bool_decide (hex_value (nth (Z.to_nat (Z.land c 0x0f)) kHex 0) = Some (Z.land c 0x0f)) &&
  (Z.lor (wrap32 (Z.shiftl (Z.shiftr c 4) 4)) (Z.land c 0x0f) =? c) &&
  (wrap32 (Z.shiftl 0 4) =? 0) && (Z.lor 0 (Z.shiftr c 4) =? Z.shiftr c 4).

Lemma control_digits_ok c : 0 <= c < 32 -> control_digits c = true.
Proof.
  intros Hc. assert (forallb control_digits (seqZ 0 32) = true) as H by (vm_compute; reflexivity).
  rewrite forallb_forall in H. apply H. apply list_elem_of_In, elem_of_seqZ. lia.
Qed.

Lemma reads_hex n v c d a w k :
  hex_value c = Some d -> reads (hex4_loop n (Z.lor (wrap32 (Z.shiftl v 4)) d)) w a k ->
  reads (hex4_loop (S n) v) (c :: w) a k.
Proof.
  intros Hd H. simpl. apply reads_peek. simpl. eapply reads_cons; [apply reads_one|].
  by rewrite Hd.
Qed.

Lemma reads_control c k :
  0 <= c < 32 ->
  reads ParseHex4 [48; 48; nth (Z.to_nat (Z.land (Z.shiftr c 4) 0x0f)) kHex 0;
                     nth (Z.to_nat (Z.land c 0x0f)) kHex 0] c k.
Proof.
  intros Hc. pose proof (control_digits_ok c Hc) as H. unfold control_digits in H.
  apply andb_true_iff in H as [H H5]. apply andb_true_iff in H as [H H4].
  apply andb_true_iff in H as [H H3]. apply andb_true_iff in H as [H1 H2].
  apply bool_decide_eq_true in H1, H2. apply Z.eqb_eq in H3, H4, H5.
  apply reads_get. intros p. unfold ParseHex4.
  change (length (rest _) <? 4)%nat with false. cbv iota.
  apply (reads_hex _ _ _ 0); [done|]. rewrite H4. change (Z.lor 0 0) with 0.
  apply (reads_hex _ _ _ 0); [done|]. rewrite H4. change (Z.lor 0 0) with 0.
  eapply reads_hex; [exact H1|]. rewrite H4, H5.
  eapply reads_hex; [exact H2|]. rewrite H3. apply reads_ret.
Qed.

Lemma AppendUtf8_ascii out c : 0 <= c <= 0x7f -> AppendUtf8 out c = out ++ [c].
Proof.
  intros Hc. unfold AppendUtf8. rewrite (proj2 (Z.leb_le _ _)) by lia.
  unfold to_char. by rewrite Z.mod_small by lia.
Qed.

(** A one-letter escape. *)
Lemma reads_letter out e b k :
  escape_byte e = Some b -> reads (parse_escape out) [e] (out ++ [b]) k.
Proof.
  intros He. apply reads_peek. simpl. eapply reads_end; [apply reads_one|].
  rewrite He. apply reads_ret.
Qed.

Lemma reads_parse_escape out c k :
  byte c -> escape_char c <> [c] ->
  exists e, escape_char c = 92 :: e /\ reads (parse_escape out) e (out ++ [c]) k.
Proof.
  intros Hc Hne. unfold byte in Hc. unfold escape_char in *.
  destruct (Z.eqb_spec c 34) as [->|?]; [eexists; split; [done|by apply reads_letter]|].
  destruct (Z.eqb_spec c 92) as [->|?]; [eexists; split; [done|by apply reads_letter]|].
  destruct (Z.eqb_spec c 8) as [->|?]; [eexists; split; [done|by apply reads_letter]|].
  destruct (Z.eqb_spec c 12) as [->|?]; [eexists; split; [done|by apply reads_letter]|].
  destruct (Z.eqb_spec c 10) as [->|?]; [eexists; split; [done|by apply reads_letter]|].
  destruct (Z.eqb_spec c 13) as [->|?]; [eexists; split; [done|by apply reads_letter]|].
  destruct (Z.eqb_spec c 9) as [->|?]; [eexists; split; [done|by apply reads_letter]|].
  destruct (Z.ltb_spec c 32); [|done].
  eexists. split; [reflexivity|]. apply reads_peek. cbn [head app]. eapply reads_cons; [apply reads_one|].
  cbn -[ParseHex4 reads]. eapply reads_end; [|rewrite <- AppendUtf8_ascii by lia; apply reads_ret].
  unfold parse_codepoint. eapply reads_end.
  - apply reads_control. lia.
  - repeat (rewrite (proj2 (Z.leb_gt _ _)) by lia; cbn [andb]). apply reads_ret.
Qed.

Lemma escape_char_head c : byte c -> escape_char c = [c] -> c <> 34 /\ c <> 92 /\ 32 <= c.
Proof.
  intros Hc. unfold escape_char. repeat case_match; intros; simplify_eq; zbool; lia.
Qed.

Lemma reads_string_loop s n out k :
  Forall byte s -> (length s < n)%nat ->
  reads (string_loop n out) ((s ≫= escape_char) ++ [34]) (out ++ s) k.
Proof.
  revert n out. induction s as [|c s IH]; intros n out Hs Hn; destruct n as [|n]; simpl in Hn; try lia.
  - apply reads_peek. simpl. rewrite app_nil_r. eapply reads_end; [apply reads_one|apply reads_ret].
  - apply Forall_cons in Hs as [Hc Hs]. rewrite bind_cons, <- app_assoc.
    replace (out ++ c :: s) with ((out ++ [c]) ++ s) by (by rewrite <- app_assoc).
    destruct (decide (escape_char c = [c])) as [He|He].
    + rewrite He. destruct (escape_char_head c Hc He) as (? & ? & ?).
      apply reads_peek. simpl. eapply reads_cons; [apply reads_one|].
      rewrite (proj2 (Z.eqb_neq c 34)), (proj2 (Z.ltb_ge c 32)), (proj2 (Z.eqb_neq c 92)) by lia.
      cbn [negb]. apply IH; [done|lia].
    + destruct (reads_parse_escape out c (((s ≫= escape_char) ++ [34]) ++ k) Hc He) as (e & -> & Hr).
      apply reads_peek. simpl. eapply reads_cons; [apply reads_one|]. simpl.
      eapply reads_bind; [exact Hr|]. apply IH; [done|lia].
Qed.

Lemma escaped_length s : (length s <= length (s ≫= escape_char))%nat.
Proof.
  induction s as [|c s IH]; [done|]. rewrite bind_cons, length_app. simpl.
  assert (0 < length (escape_char c))%nat; [|lia].
  unfold escape_char. repeat case_match; simpl; lia.
Qed.

Lemma reads_ParseString s k : Forall byte s -> reads ParseString (escaped s) s k.
Proof.
  intros Hs. unfold escaped. eapply reads_cons; [apply reads_Consume|]. cbn [negb].
  apply reads_get. intros p. apply (reads_string_loop s _ [] k Hs). simpl rest.
  rewrite !length_app. pose proof (escaped_length s). lia.
Qed.

(** ** Numbers *)

(** What can follow a printed value: nothing, or one of [,], []] and [}]. *)
Definition delim (k : list Z) : Prop := match k with [] => True | c :: _ => c = 44 \/ c = 93 \/ c = 125 end.

(** Bytes that a number does not end before. *)
Definition number_stop (k : list Z) : Prop :=
  match k with [] => True | c :: _ => is_digit c = false /\ c <> 46 /\ c <> 101 /\ c <> 69 end.

Lemma delim_number_stop k : delim k -> number_stop k.
Proof. destruct k as [|c k]; [done|]. intros [->|[->| ->]]; done. Qed.

Lemma delim_space k : delim k -> stops is_space k.
Proof. destruct k as [|c k]; [done|]. intros [->|[->| ->]]; done. Qed.

Lemma number_stop_digit k : number_stop k -> stops is_digit k.
Proof. destruct k as [|c k]; [done|]. by intros []. Qed.

Lemma some_head ds k : some ds -> exists c t, ds ++ k = c :: t /\ is_digit c = true.
Proof. intros [Hne Hd]. destruct Hd as [|c t Hc]; [done|]. by exists c, (t ++ k). Qed.

Lemma reads_digit_yes {B} (f : bool -> ST Parser B) w b k c t :
  w ++ k = c :: t -> is_digit c = true -> reads (f true) w b k -> reads (bind digit_next f) w b k.
Proof. intros Hw Hc H p. specialize (H p). unfold digit_next, bind, peek, ret. simpl. rewrite Hw in *. simpl. by rewrite Hc. Qed.

Lemma reads_digit_no {B} (f : bool -> ST Parser B) w b k :
  stops is_digit (w ++ k) -> reads (f false) w b k -> reads (bind digit_next f) w b k.
Proof.
  intros Hw H p. specialize (H p). unfold digit_next, bind, peek, ret. simpl.
  destruct (w ++ k) as [|c t]; simpl in *; [done|]. by rewrite Hw.
Qed.

Lemma reads_some_digits msg ds k : some ds -> stops is_digit k -> reads (some_digits msg) ds tt k.
Proof.
  intros Hs Hk. destruct (some_head ds k Hs) as (c & t & Ht & Hc).
  eapply reads_digit_yes; [done|done|]. destruct Hs. by apply reads_skip_while.
Qed.

Lemma reads_integer_part int k :
  integer_part int -> stops is_digit k -> reads parse_integer_part int tt k.
Proof.
  intros [->|(d & ds & -> & Hd & Hds)] Hk; apply reads_peek; simpl.
  - eapply reads_end; [apply reads_one|]. apply reads_digit_no; [done|apply reads_ret].
  - rewrite (proj2 (Z.eqb_neq d 48)), (proj2 (Z.ltb_ge d 49)) by lia.
    rewrite (Z.gtb_ltb d 57), (proj2 (Z.ltb_ge 57 d)) by lia. simpl.
    apply reads_skip_while; [|done]. constructor; [apply is_digit_iff; lia|done].
Qed.

Lemma reads_fraction f k :
  fraction_part f -> stops is_digit k -> head k <> Some 46 ->
  reads parse_fraction f (negb (bool_decide (f = []))) k.
Proof.
  intros [->|(ds & -> & Hds)] Hk Hdot; unfold parse_fraction.
  - eapply reads_bind0; [by apply reads_Consume_not|apply reads_ret].
  - eapply reads_cons; [apply reads_Consume|]. eapply reads_end; [by apply reads_some_digits|apply reads_ret].
Qed.

Lemma reads_exponent e k :
  exponent_part e -> number_stop k -> reads parse_exponent e (negb (bool_decide (e = []))) k.
Proof.
  intros [->|(c & s & ds & -> & Hc & Hs & Hds)] Hk; apply reads_peek.
  - destruct k as [|c k]; simpl; [apply reads_ret|]. destruct Hk as (_ & _ & ? & ?).
    rewrite !bool_decide_eq_false_2 by congruence. apply reads_ret.
  - simpl head. replace (bool_decide (Some c = Some 101) || bool_decide (Some c = Some 69)) with true
      by (destruct Hc as [-> | ->]; done).
    eapply reads_cons; [apply reads_one|]. apply reads_peek.
    destruct (some_head ds k Hds) as (d & t & Ht & Hd). apply is_digit_iff in Hd.
    eapply (reads_bind _ _ s ds tt).
    + destruct Hs as [->|[->| ->]]; [|apply reads_one..]. simpl. rewrite Ht. simpl.
      rewrite !bool_decide_eq_false_2 by (intros [= ->]; lia). apply reads_ret.
    + eapply reads_end; [apply reads_some_digits; [done|by apply number_stop_digit]|apply reads_ret].
Qed.

Lemma exponent_head e k : exponent_part e -> number_stop k -> stops is_digit (e ++ k) /\ head (e ++ k) <> Some 46.
Proof.
  intros [->|(c & s & ds & -> & Hc & _)] Hk.
  - destruct k as [|c k]; simpl in *; [done|]. split; [by destruct Hk|]. intros [= ->]. by destruct Hk as (_ & ? & _).
  - simpl. split; [by destruct Hc as [-> | ->]|]. intros [= ->]. by destruct Hc.
Qed.

Lemma fraction_head f k :
  fraction_part f -> stops is_digit k -> stops is_digit (f ++ k).
Proof. intros [->|(ds & -> & _)]; done. Qed.

(** A number of the grammar: its token, or the integer it denotes. *)
Lemma reads_ParseNumber sign int frac exp v k :
  sign_part sign -> integer_part int -> fraction_part frac -> exponent_part exp -> number_stop k ->
  (frac ++ exp <> [] -> v = VNumber (sign ++ int ++ frac ++ exp)) ->
  (frac ++ exp = [] ->
    reads (integer_value (bool_decide (sign = [45])) (sign ++ int)) [] v k) ->
  reads ParseNumber (sign ++ int ++ frac ++ exp) v k.
Proof.
  intros Hs Hi Hf He Hk Hv1 Hv2. destruct (exponent_head exp k He Hk) as [He1 He2].
  assert (reads (Consume 45) sign (bool_decide (sign = [45])) ((int ++ frac ++ exp) ++ k)) as R1.
  { destruct Hs as [->| ->]; [|apply reads_Consume]. apply reads_Consume_not.
    destruct Hi as [->|(d & ds & -> & Hd & _)]; simpl; [done|]. intros [= ->]. lia. }
  assert (reads parse_integer_part int tt ((frac ++ exp) ++ k)) as R2.
  { apply reads_integer_part; [done|]. rewrite <- app_assoc. by apply fraction_head. }
  pose proof (reads_fraction frac (exp ++ k) Hf He1 He2) as R3.
  pose proof (reads_exponent exp k He Hk) as R4.
  intros p. unfold ParseNumber, bind at 1, get at 1.
  rewrite <- app_assoc, (bind_ok _ _ _ _ _ (R1 p)), <- app_assoc, (bind_ok _ _ _ _ _ (R2 _)),
    <- app_assoc, (bind_ok _ _ _ _ _ (R3 _)), (bind_ok _ _ _ _ _ (R4 _)).
  unfold bind at 1, get at 1. set (q := p + _ + _ + _ + _).
  assert (ate (mkParser p (sign ++ int ++ frac ++ exp ++ k)) (mkParser q k)
    (sign ++ int ++ frac ++ exp)) as Hate.
  { split; simpl; [by rewrite <- !app_assoc|]. rewrite !length_app. unfold q. lia. }
  rewrite (ate_token _ _ _ Hate). destruct Hate as [_ Hq]. simpl in Hq. rewrite <- Hq.
  destruct (decide (frac ++ exp = [])) as [Hn|Hn].
  - specialize (Hv2 Hn q). apply app_eq_nil in Hn as [-> ->]. rewrite !app_nil_r in *. simpl in *.
    by rewrite Hv2, Z.add_0_r.
  - rewrite (Hv1 Hn). by destruct frac, exp.
Qed.

Lemma reads_token t k : number_token t -> number_stop k -> reads ParseNumber t (VNumber t) k.
Proof.
  intros (sign & int & frac & exp & -> & Hs & Hi & Hf & He & Hne) Hk.
  by apply reads_ParseNumber.
Qed.

Lemma to_string_integer_part z : u64 z -> integer_part (to_string z).
Proof.
  intros Hz. destruct (to_string_spec z Hz) as (Hd & _ & H0 & H1).
  destruct (decide (z = 0)) as [->|]; [by left; rewrite H0|]. right.
  destruct H1 as (d & ds & E & ?); [unfold u64 in Hz; lia|]. rewrite E in Hd. inversion Hd; subst.
  by exists d, ds.
Qed.

Lemma reads_u64 z k : u64 z -> number_stop k -> reads ParseNumber (to_string z) (VUInt z) k.
Proof.
  intros Hz Hk. pose proof (reads_ParseNumber [] (to_string z) [] [] (VUInt z) k) as H.
  simpl in H. rewrite app_nil_r in H. apply H; [by left|by apply to_string_integer_part|by left|by left|done|intros Hx; by destruct Hx|].
  intros _. pose proof (from_chars_to_string z [] Hz I) as Hf. rewrite app_nil_r in Hf.
  unfold integer_value. rewrite Hf. apply reads_ret.
Qed.

Lemma reads_i64 z k :
  - 2 ^ 63 <= z < 0 -> number_stop k -> reads ParseNumber (to_string_signed z) (VInt z) k.
Proof.
  intros Hz Hk. assert (u64 (- z)) as Hu by (unfold u64, U64_MAX; lia).
  pose proof (from_chars_to_string_signed z [] Hz I) as Hf. rewrite app_nil_r in Hf.
  unfold to_string_signed in *. rewrite (proj2 (Z.ltb_lt z 0)) in * by lia.
  pose proof (reads_ParseNumber [45] (to_string (- z)) [] [] (VInt z) k) as H.
  simpl app in H. rewrite app_nil_r in H.
  apply H; [by right|by apply to_string_integer_part|by left|by left|done|intros Hx; by destruct Hx|].
  intros _. unfold integer_value. rewrite bool_decide_eq_true_2, Hf by done. apply reads_ret.
Qed.

(** ** Values *)

(** What a printed value begins with. *)
Definition value_head (c : Z) : Prop := is_space c = false /\ c <> 93 /\ c <> 125 /\ c <> 44.

Lemma digit_value_head d : is_digit d = true -> value_head d.
Proof.
  intros Hd%is_digit_iff. unfold value_head, is_space.
  repeat (rewrite (proj2 (Z.eqb_neq _ _)) by lia). split_and!; [done|lia..].
Qed.

Lemma integer_part_head int k : integer_part int -> exists d t, int ++ k = d :: t /\ is_digit d = true.
Proof.
  intros [->|(d & ds & -> & Hd & _)]; simpl; [by eexists _, _|].
  exists d, (ds ++ k). split; [done|]. apply is_digit_iff. lia.
Qed.

(** The first byte of a number, which is how [ParseValue] recognises it. *)
Lemma number_head sign int k :
  sign_part sign -> integer_part int ->
  exists c t, (sign ++ int) ++ k = c :: t /\ (c = 45 \/ is_digit c = true).
Proof.
  intros [->| ->] Hi; [|eexists _, _; split; [done|by left]].
  destruct (integer_part_head int k Hi) as (d & t & ? & ?). exists d, t. auto.
Qed.

(** The body of [ParseValue], by the byte it dispatches on. *)
Definition value_body (fuel : nat) (c : Z) : ST Parser Value :=
  if c =? 110 then Expect "null";* ret VNull
  else if c =? 116 then Expect "true";* ret (VBool true)
  else if c =? 102 then Expect "false";* ret (VBool false)
  else if c =? 34 then let* s := ParseString in ret (VString s)
  else if c =? 91 then ParseArray (ParseValue fuel)
  else if c =? 123 then ParseObject (ParseValue fuel)
  else if (c =? 45) || is_digit c then ParseNumber
  else Fail "unexpected token".

Lemma reads_ParseValue n c w v k t :
  w ++ k = c :: t -> reads (value_body n c) w v k -> reads (ParseValue (S n)) w v k.
Proof.
  intros Hw H p. specialize (H p). cbn [ParseValue]. unfold bind at 1, peek at 1.
  cbn [rest]. rewrite Hw in *. exact H.
Qed.

Lemma reads_number_value n w v k c t :
  w ++ k = c :: t -> (c = 45 \/ is_digit c = true) ->
  reads ParseNumber w v k -> reads (ParseValue (S n)) w v k.
Proof.
  intros Hw Hc H. eapply reads_ParseValue; [exact Hw|]. unfold value_body.
  replace ((c =? 45) || is_digit c) with true by (destruct Hc as [->| ->]; [done|by rewrite orb_true_r]).
  assert (c = 45 \/ 48 <= c <= 57) as Hr by (destruct Hc as [?|?%is_digit_iff]; auto).
  rewrite (proj2 (Z.eqb_neq c 110)), (proj2 (Z.eqb_neq c 116)), (proj2 (Z.eqb_neq c 102)),
    (proj2 (Z.eqb_neq c 34)), (proj2 (Z.eqb_neq c 91)), (proj2 (Z.eqb_neq c 123)) by lia.
  exact H.
Qed.

Lemma canonical_head v : wf v -> exists c t, canonical v = c :: t /\ value_head c.
Proof.
  assert (forall sign int k, sign_part sign -> integer_part int ->
    exists c t, sign ++ int ++ k = c :: t /\ value_head c) as Hnum.
  { intros sign int k Hs Hi. destruct (number_head sign int k Hs Hi) as (c & t & Ht & Hc).
    exists c, t. rewrite app_assoc. split; [done|]. destruct Hc as [->|Hc]; [done|by apply digit_value_head]. }
  intros Hv. destruct Hv as [|[]|z Hz|z Hz|t (sign & int & frac & exp & -> & ? & ? & _)|s Hs|l Hl|m Hm];
    try (by eexists _, _; split; [reflexivity|]).
  - simpl. unfold to_string_signed. destruct (Z.ltb_spec z 0); [by eexists _, _|].
    destruct (Hnum [] (to_string z) []) as (c & t & E & Hc); [by left|apply to_string_integer_part|].
    { unfold u64, U64_MAX. lia. }
    simpl in E. rewrite app_nil_r in E. by exists c, t.
  - destruct (Hnum [] (to_string z) []) as (c & t & E & Hc); [by left|by apply to_string_integer_part|].
    simpl in E. rewrite app_nil_r in E. by exists c, t.
  - simpl. by apply Hnum.
Qed.

Lemma comma_list_more a b l : comma_list (a :: b :: l) = a ++ 44 :: comma_list (b :: l).
Proof. done. Qed.

Lemma delim_head_space c k : value_head c -> stops is_space (c :: k).
Proof. by intros []. Qed.

(** Arithmetic on the lengths of texts put together from pieces. *)
Ltac lengths := repeat (rewrite length_app in * || cbn [length app] in *); lia.

(** [v] is read back from its canonical form, given fuel for what the text has left. *)
Definition reads_back (v : Value) : Prop := forall n k,
  delim k -> (length (canonical v ++ k) < n)%nat ->
  reads (ParseValue n) (canonical v) (normalize v) k.

(** White space is not skipped before a value. *)
Lemma skip_before_value v k : wf v -> reads SkipWhitespace [] tt (canonical v ++ k).
Proof.
  intros Hv. destruct (canonical_head v Hv) as (c & t & -> & Hc).
  apply reads_SkipWhitespace. by destruct Hc.
Qed.

Lemma reads_array_loop items v acc m n k :
  Forall (fun v => wf v /\ reads_back v) (v :: items) ->
  let w := comma_list (map canonical (v :: items)) ++ [93] in
  (length (w ++ k) < m)%nat -> (length (w ++ k) < n)%nat ->
  reads (array_loop (ParseValue m) n acc) w (VArray (acc ++ map normalize (v :: items))) k.
Proof.
  revert v acc n. induction items as [|v2 items IH]; intros v acc n Hall w Hm Hn;
    apply Forall_cons in Hall as [[Hv Hr] Hall]; (destruct n as [|n]; [lia|]); subst w;
    cbn [array_loop map].
  - simpl comma_list in *. rewrite app_nil_r in *.
    eapply reads_bind0; [rewrite <- app_assoc; by apply skip_before_value|].
    eapply reads_bind; [apply Hr; [by right; left|lengths]|].
    eapply reads_bind0; [by apply reads_SkipWhitespace|].
    eapply reads_end; [apply reads_Consume|]. apply reads_ret.
  - rewrite map_cons in *. cbn [map] in *. rewrite comma_list_more, <- !app_assoc in *.
    simpl app in *.
    eapply reads_bind0; [rewrite <- app_assoc; by apply skip_before_value|].
    eapply reads_bind; [apply Hr; [by left|clear IH; lengths]|].
    eapply reads_bind0; [by apply reads_SkipWhitespace|].
    eapply reads_bind0; [by apply reads_Consume_not|].
    eapply reads_cons; [apply reads_Consume|]. cbv iota.
    specialize (IH v2 (acc ++ [normalize v]) n Hall). cbn [map] in IH.
    replace (acc ++ normalize v :: normalize v2 :: map normalize items)
      with ((acc ++ [normalize v]) ++ normalize v2 :: map normalize items) by (by rewrite <- app_assoc).
    apply IH; clear IH; lengths.
Qed.

(** A printed member, and the member it reads back as. *)
Definition entry (m : list Z * Value) : list Z := escaped m.1 ++ 58 :: canonical m.2.
Definition normal_entry (m : list Z * Value) : list Z * Value := (m.1, normalize m.2).

Definition entry_ok (m : list Z * Value) : Prop :=
  Forall byte m.1 /\ wf m.2 /\ reads_back m.2.

(** One round of the loop up to the value of the member. *)
Lemma reads_member m n acc e k w b :
  entry_ok e -> delim (w ++ k) -> Forall (fun k => key_lt k e.1) acc.*1 ->
  (length (entry e ++ w ++ k) < m)%nat ->
  reads (SkipWhitespace;*
    let* closed := Consume 125 in
    if closed then ret (VObject (acc ++ [normal_entry e]))
    else let* comma := Consume 44 in
         if comma then object_loop (ParseValue m) n (acc ++ [normal_entry e]) else Fail "expected ',' or '}'") w b k ->
  reads (object_loop (ParseValue m) (S n) acc) (entry e ++ w) b k.
Proof.
  destruct e as [key v]. intros (Hb & Hv & Hr) Hk Hlt Hn H. cbn [fst snd] in *.
  unfold entry, normal_entry in *. cbn [fst snd object_loop] in *.
  eapply reads_bind0; [by apply reads_SkipWhitespace|].
  apply reads_peek. cbn [escaped app head]. cbn [negb bool_decide decide decide_rel].
  rewrite bool_decide_eq_true_2 by done. cbn [negb].
  rewrite <- app_assoc. cbn [app] in *.
  eapply (reads_bind ParseString _ (escaped key)); [by apply reads_ParseString|].
  eapply reads_bind0; [by apply reads_SkipWhitespace|].
  eapply reads_cons; [apply reads_Consume|]. cbn [negb].
  eapply reads_bind0; [rewrite <- app_assoc; by apply skip_before_value|].
  eapply reads_bind.
  - apply Hr; [done|lengths].
  - rewrite emplace_last by done. exact H.
Qed.

Lemma sorted_snoc_lt (acc : list (list Z * Value)) e members :
  sorted_keys (acc ++ e :: members) -> Forall (fun k => key_lt k e.1) acc.*1.
Proof.
  unfold sorted_keys. rewrite fmap_app, fmap_cons. induction acc as [|a acc IH]; [done|].
  simpl. intros Hs. inversion Hs as [|? ? Hs' Hall]; subst. constructor; [|by apply IH].
  apply Forall_app in Hall as [_ Hall]. by apply Forall_cons in Hall as [? _].
Qed.

Lemma normal_entry_keys m : (map normal_entry m).*1 = m.*1.
Proof. induction m as [|e m IH]; [done|]. cbn [map]. by rewrite !fmap_cons, IH. Qed.

Lemma reads_object_loop members e acc m n k :
  Forall entry_ok (e :: members) -> sorted_keys (acc ++ e :: members) ->
  let w := comma_list (map entry (e :: members)) ++ [125] in
  (length (w ++ k) < m)%nat -> (length (w ++ k) < n)%nat ->
  reads (object_loop (ParseValue m) n acc) w (VObject (acc ++ map normal_entry (e :: members))) k.
Proof.
  revert e acc n. induction members as [|e2 members IH]; intros e acc n Hall Hs w Hm Hn;
    apply Forall_cons in Hall as [He Hall]; (destruct n as [|n]; [lia|]); subst w;
    pose proof (sorted_snoc_lt _ _ _ Hs) as Hlt; cbn [map] in *.
  - change (comma_list [entry e]) with (entry e ++ []) in *. rewrite app_nil_r in *.
    apply reads_member; [done|by right; right|done|lengths|].
    eapply reads_bind0; [by apply reads_SkipWhitespace|].
    eapply reads_end; [apply reads_Consume|]. apply reads_ret.
  - rewrite comma_list_more, <- !app_assoc in *. cbn [app] in *.
    apply reads_member; [done|by left|done|clear IH; lengths|].
    eapply reads_bind0; [by apply reads_SkipWhitespace|].
    eapply reads_bind0; [by apply reads_Consume_not|].
    eapply reads_cons; [apply reads_Consume|]. cbv iota.
    specialize (IH e2 (acc ++ [normal_entry e]) n Hall). cbn [map] in IH.
    replace (acc ++ normal_entry e :: normal_entry e2 :: map normal_entry members)
      with ((acc ++ [normal_entry e]) ++ normal_entry e2 :: map normal_entry members)
      by (by rewrite <- app_assoc).
    apply IH.
    + unfold sorted_keys in *. rewrite !fmap_app in *. cbn [fmap list_fmap] in *.
      by rewrite <- app_assoc.
    + clear IH; lengths.
    + clear IH; lengths.
Qed.

Lemma reads_quoted_value n s k : Forall byte s -> reads (ParseValue (S n)) (escaped s) (VString s) k.
Proof.
  intros Hs. eapply reads_ParseValue; [reflexivity|]. unfold value_body. simpl (_ =? _). cbv iota.
  eapply reads_end; [by apply reads_ParseString|apply reads_ret].
Qed.

Lemma reads_word n t v k c u :
  bytes t = c :: u -> value_body n c = (Expect t;* ret v) -> reads (ParseValue (S n)) (bytes t) v k.
Proof.
  intros Ht Hb. eapply reads_ParseValue; [by rewrite Ht|]. rewrite Hb.
  eapply reads_end; [apply reads_Expect|apply reads_ret].
Qed.

Lemma reads_array n items k :
  Forall (fun v => wf v /\ reads_back v) items ->
  (length (canonical (VArray items) ++ k) < n)%nat ->
  reads (ParseValue n) (canonical (VArray items)) (normalize (VArray items)) k.
Proof.
  intros Hall Hn. destruct n as [|n]; [lia|]. cbn [canonical normalize] in *.
  eapply reads_ParseValue; [reflexivity|]. unfold value_body. simpl (_ =? _). cbv iota.
  unfold ParseArray.
  eapply reads_cons; [apply reads_Consume|]. destruct items as [|v items].
  - eapply reads_bind0; [by apply reads_SkipWhitespace|].
    eapply reads_end; [apply reads_Consume|apply reads_ret].
  - pose proof Hall as [[Hv _] _]%Forall_cons.
    destruct (canonical_head v Hv) as (c & t & Hc & Hcs & Hcn & _).
    assert (forall k, head ((comma_list (map canonical (v :: items)) ++ [93]) ++ k) = Some c) as Hh
      by (intros k'; cbn [map comma_list]; by rewrite Hc).
    eapply reads_bind0; [apply reads_SkipWhitespace|].
    { cbn [map comma_list]. by rewrite Hc. }
    eapply reads_bind0; [apply reads_Consume_not; rewrite Hh; congruence|]. cbv iota.
    apply reads_get. intros p. cbn [rest].
    apply (reads_array_loop items v [] n _ k Hall); lengths.
Qed.

Lemma reads_object n members k :
  Forall entry_ok members -> sorted_keys members ->
  (length (canonical (VObject members) ++ k) < n)%nat ->
  reads (ParseValue n) (canonical (VObject members)) (normalize (VObject members)) k.
Proof.
  intros Hall Hs Hn. destruct n as [|n]; [lia|]. cbn [canonical normalize] in *.
  eapply reads_ParseValue; [reflexivity|]. unfold value_body. simpl (_ =? _). cbv iota.
  unfold ParseObject.
  eapply reads_cons; [apply reads_Consume|]. destruct members as [|e members].
  - eapply reads_bind0; [by apply reads_SkipWhitespace|].
    eapply reads_end; [apply reads_Consume|apply reads_ret].
  - eapply reads_bind0; [by apply reads_SkipWhitespace|].
    eapply reads_bind0; [by apply reads_Consume_not|]. cbv iota.
    apply reads_get. intros p. cbn [rest].
    apply (reads_object_loop members e [] n _ k Hall Hs); unfold entry; lengths.
Qed.

Lemma wf_reads_back v : wf v -> reads_back v.
Proof.
  induction v as [| | | | | |l IH|m IH] using value_ind'; intros Hv n k Hk Hn;
    inversion Hv; subst; try (destruct n as [|n]; [lia|]);
    pose proof (delim_number_stop k Hk) as Hstop.
  - by eapply (reads_word _ "null").
  - destruct b; [by eapply (reads_word _ "true")|by eapply (reads_word _ "false")].
  - cbn [canonical normalize]. unfold to_string_signed at 1. destruct (Z.ltb_spec z 0) as [Hz|Hz].
    + destruct (number_head [45] (to_string (- z)) k) as (c & t & Ht & Hc);
        [by right|apply to_string_integer_part; unfold u64, U64_MAX; lia|].
      eapply reads_number_value; [exact Ht|done|].
      pose proof (reads_i64 z k) as Hr. unfold to_string_signed in Hr.
      rewrite (proj2 (Z.ltb_lt z 0)) in Hr by lia. apply Hr; [lia|done].
    + assert (u64 z) as Hu by (unfold u64, U64_MAX; lia).
      destruct (number_head [] (to_string z) k) as (c & t & Ht & Hc);
        [by left|by apply to_string_integer_part|].
      eapply reads_number_value; [exact Ht|done|]. by apply reads_u64.
  - destruct (number_head [] (to_string z) k) as (c & t & Ht & Hc);
      [by left|by apply to_string_integer_part|].
    eapply reads_number_value; [exact Ht|done|]. by apply reads_u64.
  - cbn [canonical normalize].
    match goal with H : number_token _ |- _ => pose proof H as (sg & i & f & e & -> & ? & ? & _) end.
    destruct (number_head sg i ((f ++ e) ++ k)) as (c & u & Hu & Hc); [done|done|].
    eapply reads_number_value; [|exact Hc|by apply reads_token].
    rewrite <- Hu. by rewrite <- !app_assoc.
  - by apply reads_quoted_value.
  - apply (reads_array (S n)); [|lia].
    match goal with H : Forall wf l |- _ => revert IH H end. clear.
    induction 1 as [|v l Hv _ IH]; intros Hl; constructor; inversion Hl; subst; auto.
  - apply (reads_object (S n)); [|done|lia].
    match goal with H : Forall wf m.*2 |- _ => revert H end.
    match goal with H : Forall (Forall byte) m.*1 |- _ => revert H end. revert IH. clear.
    induction 1 as [|e m Hv _ IH]; intros Hb Hw; constructor; simpl in *;
      inversion Hb; inversion Hw; subst; [by split_and!; [..|apply Hv]|auto].
Qed.

(** ** The canonical form *)

Lemma normalize_wf v : wf v -> wf (normalize v).
Proof.
  induction v as [| | | | | |l IH|m IH] using value_ind'; intros Hv; inversion Hv; subst; simpl; try done.
  - destruct (Z.ltb_spec z 0); constructor; [done|unfold u64, U64_MAX; lia].
  - constructor. match goal with H : Forall wf l |- _ => revert IH H end. clear.
    induction 1 as [|v l Hv _ IH]; intros Hl; simpl; constructor; inversion Hl; subst; auto.
  - constructor.
    + unfold sorted_keys. by rewrite normal_entry_keys.
    + by rewrite normal_entry_keys.
    + match goal with H : Forall wf m.*2 |- _ => revert IH H end. clear.
      induction 1 as [|e m Hv _ IH]; intros Hm; [constructor|]. cbn [map] in *.
      rewrite fmap_cons in *. constructor; inversion Hm; subst; auto.
Qed.

Lemma canonical_normalize v : canonical (normalize v) = canonical v.
Proof.
  induction v as [| | | | | |l IH|m IH] using value_ind'; simpl; try done.
  - unfold to_string_signed. by destruct (Z.ltb_spec z 0); simpl;
      unfold to_string_signed; rewrite ?(proj2 (Z.ltb_lt z 0)) by lia.
  - do 2 f_equal. f_equal. induction IH as [|v l Hv _ IH]; simpl; [done|]. by rewrite Hv, IH.
  - do 2 f_equal. f_equal. induction IH as [|e m Hv _ IH]; simpl; [done|]. by rewrite Hv, IH.
Qed.

Lemma parse_canonical v : wf v -> Parse (Canonicalize v) = Ok (normalize v).
Proof.
  intros Hv. unfold Canonicalize, AppendCanonical. simpl. unfold Parse, ParseDocument.
  pose proof (skip_before_value v [] Hv 0) as Hs. rewrite app_nil_r in Hs. simpl in Hs.
  rewrite (bind_ok _ _ _ _ _ Hs). unfold bind at 1, get at 1. cbn [rest].
  pose proof (wf_reads_back v Hv (value_fuel (length (canonical v))) [] I) as Hr.
  rewrite app_nil_r in Hr. specialize (Hr ltac:(unfold value_fuel; lia) 0).
  rewrite app_nil_r in Hr. by rewrite (bind_ok _ _ _ _ _ Hr).
Qed.

(** C12: A well-formed value printed in canonical form is read back, entirely, as the same
    value up to the type of integers that are not negative. *)
Theorem json_round_trip v : wf v -> Parse (Canonicalize v) = Ok (normalize v).
Proof. apply parse_canonical. Qed.

Lemma parse_wf input v : Forall byte input -> Parse input = Ok v -> wf v.
Proof.
  intros Hb Hp. assert (inv (Z.of_nat (length input)) (mkParser 0 input)) as Hi by
    (unfold inv; simpl; split_and!; [lia|lia|done]).
  pose proof (eats_document _ _ Hi) as H. unfold Parse, eats, wpe in *.
  destruct (ParseDocument _) as [[w s']|e]; simplify_eq. by destruct H as (_ & ? & _ & Hv).
Qed.

(** The canonical form of a text is a fixed point: reading and printing it again
    changes nothing, whatever white space, key order, escapes or minus zeros the text
    had; and two texts have the same canonical form exactly when they denote the same
    value. *)
Theorem canonical_form_identifies a b ca cb :
  Forall byte a -> Forall byte b -> CanonicalizeText a = Ok ca -> CanonicalizeText b = Ok cb ->
  CanonicalizeText ca = Ok ca /\
  (ca = cb <-> exists v w, Parse a = Ok v /\ Parse b = Ok w /\ normalize v = normalize w).
Proof.
  unfold CanonicalizeText, obind. intros Ha Hb H1 H2.
  destruct (Parse a) as [v|] eqn:Ea; simplify_eq. destruct (Parse b) as [w|] eqn:Eb; simplify_eq.
  pose proof (parse_canonical v (parse_wf _ _ Ha Ea)) as Rv.
  pose proof (parse_canonical w (parse_wf _ _ Hb Eb)) as Rw. split.
  - rewrite Rv. unfold Canonicalize, AppendCanonical. by rewrite canonical_normalize.
  - split.
    + intros E. exists v, w. split_and!; [done|done|]. rewrite E, Rw in Rv. congruence.
    + intros (v' & w' & ? & ? & E); simplify_eq. unfold Canonicalize, AppendCanonical.
      by rewrite <- (canonical_normalize v'), <- (canonical_normalize w'), E.
Qed.

(** ** Unicode escapes *)

Definition scalar_value (cp : Z) : Prop := 0 <= cp < 0xd800 \/ 0xe000 <= cp <= 0x10ffff.

Definition continuation (b : Z) : bool := (0x80 <=? b) && (b <=? 0xbf).

(** The UTF-8 decoder of RFC 3629, which refuses overlong forms and surrogates. *)
Definition utf8_decode (l : list Z) : option (Z * list Z) :=
  match l with
  | b0 :: l =>
    if b0 <=? 0x7f then Some (b0, l)
    else if (0xc2 <=? b0) && (b0 <=? 0xdf) then
      match l with
      | b1 :: l => if continuation b1 then Some ((b0 - 0xc0) * 64 + (b1 - 0x80), l) else None
      | _ => None
      end
    else if (0xe0 <=? b0) && (b0 <=? 0xef) then
      match l with
      | b1 :: b2 :: l =>
        let cp := (b0 - 0xe0) * 4096 + (b1 - 0x80) * 64 + (b2 - 0x80) in
        if continuation b1 && continuation b2 && (0x800 <=? cp) &&
           negb ((0xd800 <=? cp) && (cp <=? 0xdfff)) then Some (cp, l) else None
      | _ => None
      end
    else if (0xf0 <=? b0) && (b0 <=? 0xf4) then
      match l with
      | b1 :: b2 :: b3 :: l =>
        let cp := (b0 - 0xf0) * 262144 + (b1 - 0x80) * 4096 + (b2 - 0x80) * 64 + (b3 - 0x80) in
        if continuation b1 && continuation b2 && continuation b3 &&
           (0x10000 <=? cp) && (cp <=? 0x10ffff) then Some (cp, l) else None
      | _ => None
      end
    else None
  | [] => None
  end.

Lemma low_six z : to_char (Z.lor 0x80 (Z.land z 0x3f)) = 0x80 + z mod 64.
Proof.
  change 0x3f with (Z.ones 6). rewrite Z.land_ones by lia. change (2 ^ 6) with 64.
  pose proof (Z.mod_pos_bound z 64 ltac:(lia)). change 0x80 with (Z.shiftl 2 6).
  rewrite lor_disjoint by (change (2 ^ 6) with 64; lia). unfold to_char. change (Z.shiftl 2 6) with 128.
  apply Z.mod_small. lia.
Qed.

(** The leading byte of a sequence, whose mark is in the bits above [n]. *)
Lemma lead_byte m mark n z :
  m = Z.shiftl mark n -> 0 <= n -> 0 <= z < 2 ^ n -> 0 <= m -> m + 2 ^ n <= 256 ->
  to_char (Z.lor m z) = m + z.
Proof. intros -> ? ? ? ?. rewrite lor_disjoint by lia. unfold to_char. apply Z.mod_small. lia. Qed.

Lemma continuation_low z : continuation (0x80 + z mod 64) = true.
Proof.
  pose proof (Z.mod_pos_bound z 64 ltac:(lia)). unfold continuation.
  by rewrite !(proj2 (Z.leb_le _ _)) by lia.
Qed.

Ltac tests := repeat first
  [ rewrite (proj2 (Z.leb_le _ _)) by lia | rewrite (proj2 (Z.leb_gt _ _)) by lia
  | rewrite continuation_low ].

Lemma utf8_decode_AppendUtf8 cp k :
  scalar_value cp -> utf8_decode (AppendUtf8 [] cp ++ k) = Some (cp, k).
Proof.
  intros Hs. unfold AppendUtf8, scalar_value in *. rewrite !low_six, !Z.shiftr_div_pow2 by lia.
  change (2 ^ 6) with 64. change (2 ^ 12) with 4096. change (2 ^ 18) with 262144.
  assert (0 <= cp <= 0x10ffff) as Hcp by lia.
  pose proof (Z.div_mod cp 64 ltac:(lia)). pose proof (Z.mod_pos_bound cp 64 ltac:(lia)).
  pose proof (Z.div_mod (cp / 64) 64 ltac:(lia)). pose proof (Z.mod_pos_bound (cp / 64) 64 ltac:(lia)).
  pose proof (Z.div_mod (cp / 4096) 64 ltac:(lia)). pose proof (Z.mod_pos_bound (cp / 4096) 64 ltac:(lia)).
  assert (cp / 64 / 64 = cp / 4096) by (by rewrite Z.div_div by lia).
  assert (cp / 4096 / 64 = cp / 262144) by (by rewrite Z.div_div by lia).
  destruct (Z.leb_spec cp 0x7f).
  { unfold to_char. rewrite Z.mod_small by lia. simpl. by tests. }
  destruct (Z.leb_spec cp 0x7ff).
  { rewrite (lead_byte 192 6 5) by (reflexivity || (change (2 ^ 5) with 32; lia)). simpl. tests. simpl. do 2 f_equal. lia. }
  destruct (Z.leb_spec cp 0xffff).
  { rewrite (lead_byte 224 14 4) by (reflexivity || (change (2 ^ 4) with 16; lia)). simpl. tests. simpl.
    replace ((224 + cp / 4096 - 224) * 4096 + (128 + (cp / 64) mod 64 - 128) * 64 + (128 + cp mod 64 - 128))
      with cp by lia.
    destruct Hs; tests; done. }
  rewrite (lead_byte 240 30 3) by (reflexivity || (change (2 ^ 3) with 8; lia)). simpl. tests. simpl.
  replace ((240 + cp / 262144 - 240) * 262144 + (128 + (cp / 4096) mod 64 - 128) * 4096 +
    (128 + (cp / 64) mod 64 - 128) * 64 + (128 + cp mod 64 - 128)) with cp by lia.
  by tests.
Qed.

Lemma hex_value_range c d : hex_value c = Some d -> 0 <= d < 16.
Proof.
  unfold hex_value. intros H.
  repeat match type of H with context [if ?b then _ else _] => destruct b eqn:? end;
    simplify_eq; zbool; lia.
Qed.

(** [n] more hexadecimal digits after a number of [j] bits. *)
Lemma hex4_loop_range n v j s a s' :
  0 <= j -> j + 4 * Z.of_nat n <= 16 -> 0 <= v < 2 ^ j -> hex4_loop n v s = Ok (a, s') ->
  0 <= a < 2 ^ (j + 4 * Z.of_nat n).
Proof.
  revert v j s. induction n as [|n IH]; intros v j s Hj Hn Hv; cbn [hex4_loop].
  - unfold ret. intros [= <- <-]. by rewrite Z.add_0_r.
  - unfold bind at 1, peek at 1. destruct (head (rest s)) as [c|]; [|done].
    unfold bind, advance, modify. destruct (hex_value c) as [d|] eqn:Hd; [|done].
    apply hex_value_range in Hd. intros H.
    replace (j + 4 * Z.of_nat (S n)) with ((j + 4) + 4 * Z.of_nat n) by lia.
    eapply (IH _ (j + 4)); [lia|lia| |exact H].
    rewrite Z.pow_add_r by lia. change (2 ^ 4) with 16.
    assert (2 ^ j <= 2 ^ 12) by (apply Z.pow_le_mono_r; lia).
    rewrite wrap32_small by (rewrite Z.shiftl_mul_pow2 by lia; unfold u32, U32_MAX; lia).
    rewrite lor_disjoint by lia. rewrite Z.shiftl_mul_pow2 by lia. change (2 ^ 4) with 16. lia.
Qed.

Lemma ParseHex4_range s a s' : ParseHex4 s = Ok (a, s') -> 0 <= a < 65536.
Proof.
  unfold ParseHex4, bind at 1, get at 1. case_match; [done|].
  apply (hex4_loop_range 4 0 0); [lia|simpl; lia|simpl; lia].
Qed.

(** The escape [\u], and the pair of them that encodes a character outside the basic
    plane, only ever produce Unicode scalar values, and what is appended for one is its
    UTF-8 form: the strict decoder reads exactly that character back. A surrogate alone,
    in either half, is an error. *)
Theorem unicode_escapes_are_utf8 s cp s' k :
  parse_codepoint s = Ok (cp, s') ->
  scalar_value cp /\ utf8_decode (AppendUtf8 [] cp ++ k) = Some (cp, k).
Proof.
  intros H. cut (scalar_value cp); [eauto using utf8_decode_AppendUtf8|]. revert H.
  unfold parse_codepoint, bind at 1. destruct (ParseHex4 s) as [[v s1]|] eqn:E1; [|done].
  apply ParseHex4_range in E1. destruct ((0xd800 <=? v) && (v <=? 0xdbff)) eqn:C1.
  - unfold bind at 1, get at 1. case_bool_decide; [|done]. unfold bind, advance, modify.
    destruct (ParseHex4 _) as [[low s2]|] eqn:E2; [|done]. destruct (_ || _) eqn:C2; [done|].
    unfold ret. intros [= <- <-]. zbool. rewrite Z.shiftl_mul_pow2 by lia. change (2 ^ 10) with 1024.
    unfold scalar_value. lia.
  - destruct ((0xdc00 <=? v) && (v <=? 0xdfff)) eqn:C2; [done|]. unfold ret. intros [= <- <-].
    unfold scalar_value. apply andb_false_iff in C1, C2.
    rewrite !Z.leb_gt in C1, C2. lia.
Qed.

(** ** Required keys *)

Lemma member_Some key m : is_Some (member key m) <-> key ∈ m.*1.
Proof.
  induction m as [|[k v] m IH]; simpl.
  - split; [by intros []|intros H; inversion H].
  - rewrite elem_of_cons. case_bool_decide; [subst; split; eauto|]. rewrite IH. naive_solver.
Qed.

Lemma require_all_ok object keys w :
  require_all object keys w = Ok tt <-> forall key, key ∈ keys -> key ∈ object.*1.
Proof.
  induction keys as [|key keys IH]; simpl; [set_solver|]. unfold Required.
  destruct (member key object) as [v|] eqn:E; simpl.
  - rewrite IH. assert (key ∈ object.*1) by (apply member_Some; eauto). set_solver.
  - split; [done|]. intros H. specialize (H key ltac:(set_solver)).
    apply member_Some in H as [v Hv]. congruence.
Qed.

Lemma existsb_key (key : list Z) l :
  existsb (fun candidate => bool_decide (key = candidate)) l = true <-> key ∈ l.
Proof.
  rewrite existsb_exists. setoid_rewrite bool_decide_eq_true. setoid_rewrite <- list_elem_of_In.
  naive_solver.
Qed.

Lemma known_only_ok members required optional w :
  known_only members required optional w = Ok tt <->
  forall key, key ∈ members.*1 -> key ∈ required \/ key ∈ optional.
Proof.
  induction members as [|[key v] members IH];
    [split; [intros _ key Hk; inversion Hk|done]|]. cbn [known_only].
  rewrite fmap_cons. destruct (negb _ && negb _) eqn:E.
  - split; [done|]. intros H. apply andb_true_iff in E as [E1%negb_true_iff E2%negb_true_iff].
    destruct (H key ltac:(set_solver)) as [Hk|Hk]; apply existsb_key in Hk; congruence.
  - rewrite IH. apply andb_false_iff in E. rewrite !negb_false_iff, !existsb_key in E. set_solver.
Qed.

(** [RequireExactKeys] accepts an object exactly when every required key is there and
    no key is neither required nor optional; otherwise it throws. *)
Theorem exact_keys object required optional w :
  (RequireExactKeys object required optional w = Ok tt <->
    (forall key, key ∈ required -> key ∈ object.*1) /\
    (forall key, key ∈ object.*1 -> key ∈ required \/ key ∈ optional)) /\
  (RequireExactKeys object required optional w = Ok tt \/
    exists m, RequireExactKeys object required optional w = Throw (runtime_error m)).
Proof.
  unfold RequireExactKeys.
  rewrite <- (require_all_ok object required w), <- (known_only_ok object required optional w). split.
  - destruct (require_all _ _ _) as [[]|]; simpl; [tauto|]. split; [done|by intros []].
  - assert (forall e, require_all object required w = Throw e -> exists m, e = runtime_error m) as H1.
    { induction required as [|key ks IH]; simpl; [done|]. intros e. unfold Required.
      destruct (member key object); simpl; [apply IH|intros [= <-]; by eexists]. }
    assert (forall e m, known_only m required optional w = Throw e -> exists m, e = runtime_error m) as H2.
    { intros e m. induction m as [|[key v] m IH]; [done|]. cbn [known_only].
      destruct (_ && _); [intros [= <-]; by eexists|apply IH]. }
    destruct (require_all _ _ _) as [[]|e]; simpl.
    + destruct (known_only _ _ _ _) as [[]|e] eqn:E; [by left|right].
      destruct (H2 _ _ E) as [m ->]. by exists m.
    + right. destruct (H1 _ eq_refl) as [m ->]. by exists m.
Qed.

(** ** Instances *)

(** A document with every kind of value. *)
Definition sample : Value :=
  VObject [(bytes "a", VArray [VInt (-5); VUInt U64_MAX; VNull; VNumber (bytes "1.5e-3")]);
           (bytes "b", VString [10; 34; 1]); (bytes "c", VBool true); (bytes "d", VInt 0)].

Definition sample_text : list Z := quoted " { 'b' : 'x\u0041\uD83D\uDE00' , 'a' : [ -0 , 1e5 ] } ".

Lemma sample_wf : wf sample.
Proof.
  repeat constructor; unfold u64, U64_MAX, byte; try lia.
  exists [], [49], [46; 53], (bytes "e-3"). split_and!; [done|by left| | | |done].
  - right. exists 49, []. split_and!; [done|lia|lia|constructor].
  - right. exists [53]. split; [done|]. by split; [|repeat constructor].
  - right. exists 101, [45], [51]. split_and!; [done|by left|by right; right|].
    by split; [|repeat constructor].
Qed.

Lemma json_round_trip_witness : wf sample /\ Parse (Canonicalize sample) = Ok (normalize sample).
Proof. split; [apply sample_wf|]. apply (json_round_trip sample), sample_wf. Defined.

Lemma bytes_decide l : forallb (fun b => (0 <=? b) && (b <? 256)) l = true -> Forall byte l.
Proof.
  rewrite forallb_forall. intros H. apply Forall_forall. intros b Hb.
  specialize (H b (proj1 (list_elem_of_In _ _) Hb)). zbool. unfold byte. lia.
Qed.

Lemma json_parse_total_witness :
  Forall byte (bytes "[01]") /\ Parse (bytes "[01]") = Throw (json_error 2 "leading zero in integer") /\
  ((exists v, Parse (bytes "[01]") = Ok v /\ wf v) \/
   (exists p m, Parse (bytes "[01]") = Throw (json_error p m) /\ 0 <= p <= Z.of_nat (length (bytes "[01]")))).
Proof.
  assert (Forall byte (bytes "[01]")) as H by (apply bytes_decide; vm_compute; reflexivity).
  split_and!; [done|vm_compute; reflexivity|]. by apply (json_parse_total (bytes "[01]")).
Defined.

Lemma sample_text_bytes : Forall byte sample_text.
Proof. apply bytes_decide. vm_compute. reflexivity. Qed.

Definition sample_canonical : list Z :=
  quoted "{'a':[0,1e5],'b':'xA" ++ [240; 159; 152; 128] ++ quoted "'}".

Lemma sample_text_canonical : CanonicalizeText sample_text = Ok sample_canonical.
Proof. vm_compute. reflexivity. Qed.

Lemma canonical_form_identifies_witness :
  CanonicalizeText sample_text = Ok sample_canonical /\
  CanonicalizeText sample_canonical = Ok sample_canonical.
Proof.
  split; [apply sample_text_canonical|].
  apply (canonical_form_identifies sample_text sample_text sample_canonical sample_canonical
    sample_text_bytes sample_text_bytes sample_text_canonical sample_text_canonical).
Defined.

Lemma unicode_escapes_are_utf8_witness :
  let s := mkParser 0 (bytes "D83D\uDE00") in
  parse_codepoint s = Ok (0x1F600, mkParser 10 []) /\ scalar_value 0x1F600 /\
  utf8_decode (AppendUtf8 [] 0x1F600 ++ []) = Some (0x1F600, []).
Proof.
  intros s. assert (parse_codepoint s = Ok (0x1F600, mkParser 10 [])) as H by (vm_compute; reflexivity).
  split; [exact H|]. by apply (unicode_escapes_are_utf8 s 0x1F600 (mkParser 10 []) []).
Defined.
