(* ===== verification/Feasibility.v ===== *)
(** The feasibility planner of the core ([core/src/feasibility.cpp],
    [core/include/expert/core/feasibility.hpp]): integer arithmetic that decides whether
    a model meets a service level on given hardware, and the canonical JSON of the
    decision, which is printed by hand and not through the JSON library. *)

From Stdlib Require Import Ascii String.
From S2P Require Import Prelude.
From S2P Require Import Text.
From S2P Require Import Json.
From S2P Require Import JsonTheorems.
From S2P Require Import JsonRoundTrip.

(** ** Data *)

Definition kPartsPerMillion : Z := 1000000.
Definition kDegradedMarginPpm : Z := 100000.

Record ManifestResources := mkManifestResources {
  manifest_sha256 : list Z;
  total_file_bytes : Z;
  resident_dense_bytes : Z;
  total_expert_bytes : Z;
  active_expert_bytes_per_token : Z;
  average_expert_record_bytes : Z }.

Record HardwareResources := mkHardwareResources {
  total_ram_bytes : Z;
  available_ram_bytes : Z;
  vram_total_bytes : Z;
  vram_available_bytes : Z;
  disk_free_bytes : Z;
  sustained_storage_read_bytes_per_second : Z;
  sustained_h2d_bytes_per_second : Z;
  storage_bandwidth_measured : bool;
  h2d_bandwidth_measured : bool }.

Record SloRequest := mkSloRequest {
  target_tokens_per_second_milli : Z;
  concurrency : Z;
  vram_expert_budget_bytes : Z;
  ram_expert_budget_bytes : Z;
  expected_vram_hit_ppm : Z;
  expected_ram_hit_ppm : Z;
  minimum_workspace_bytes : Z;
  minimum_staging_bytes : Z;
  kv_bytes_per_request : Z;
  measured_non_io_nanoseconds_per_token : Z }.

Inductive FeasibilityStatus := kFeasible | kDegraded | kImpossible.

Record Constraint := mkConstraint {
  resource : list Z;
  formula : list Z;
  required : Z;
  available : Z;
  passes : bool }.

Record FeasibilityDecision := mkFeasibilityDecision {
  status : FeasibilityStatus;
  limiting_resource : list Z;
  cold_bytes_per_token_budget : Z;
  h2d_bytes_per_token_budget : Z;
  expected_cold_bytes_per_token : Z;
  expected_h2d_bytes_per_token : Z;
  required_storage_avoidance_ppm : Z;
  required_vram_hit_ppm : Z;
  theoretical_minimum_concurrency : Z;
  vram_expert_capacity_count : Z;
  ram_expert_capacity_count : Z;
  measured_non_io_ceiling_tokens_per_second_milli : Z;
  constraints : list Constraint }.

#[export] Instance eta_FeasibilityDecision : Eta FeasibilityDecision := fun d =>
  mkFeasibilityDecision (status d) (limiting_resource d) (cold_bytes_per_token_budget d)
    (h2d_bytes_per_token_budget d) (expected_cold_bytes_per_token d)
    (expected_h2d_bytes_per_token d) (required_storage_avoidance_ppm d)
    (required_vram_hit_ppm d) (theoretical_minimum_concurrency d)
    (vram_expert_capacity_count d) (ram_expert_capacity_count d)
    (measured_non_io_ceiling_tokens_per_second_milli d) (constraints d).

(** ** Saturating arithmetic *)

Definition SaturatingAdd (left_ right_ : Z) : Z :=
  if left_ >? U64_MAX - right_ then U64_MAX else left_ + right_.

Definition SaturatingMultiply (left_ right_ : Z) : Z :=
  if negb (left_ =? 0) && (right_ >? U64_MAX / left_) then U64_MAX else left_ * right_.

(** A zero divisor throws; the callers below pass a positive one. *)
Definition CeilDivide (numerator denominator : Z) : outcome Z :=
  if denominator =? 0 then Throw (invalid_argument "division by zero")
  else Ok (numerator / denominator + Z.b2z (negb (numerator mod denominator =? 0))).

(** The division by zero that the language leaves undefined comes first. *)
Definition MultiplyDivideCeil (value multiplier divisor : Z) : outcome Z :=
  if divisor =? 0 then Throw (undefined_behavior "division by zero")
  else
    let quotient := value / divisor in
    let remainder := value mod divisor in
    let whole := SaturatingMultiply quotient multiplier in
    let! partial := CeilDivide (SaturatingMultiply remainder multiplier) divisor in
    Ok (SaturatingAdd whole partial).

Definition RequiredAvoidancePpm (active_bytes byte_budget : Z) : outcome Z :=
  if (active_bytes =? 0) || (byte_budget >=? active_bytes) then Ok 0
  else MultiplyDivideCeil (active_bytes - byte_budget) kPartsPerMillion active_bytes.

Definition HasLowMargin (c : Constraint) : outcome bool :=
  if negb (passes c) || (available c =? 0) then Ok false
  else
    let headroom := sub64 (available c) (required c) in
    let! margin := MultiplyDivideCeil headroom kPartsPerMillion (available c) in
    Ok (margin <? kDegradedMarginPpm).

(** [std::find_if]. *)
Fixpoint find_if {A} (p : A -> outcome bool) (l : list A) : outcome (option A) :=
  match l with
  | [] => Ok None
  | a :: l => let! found := p a in if found then Ok (Some a) else find_if p l
  end.

(** ** The decision *)

Definition check_request (manifest : ManifestResources) (request : SloRequest) : outcome unit :=
  if target_tokens_per_second_milli request =? 0
  then Throw (invalid_argument "target_tokens_per_second_milli must be positive")
  else if concurrency request =? 0
  then Throw (invalid_argument "concurrency must be positive")
  else if (expected_vram_hit_ppm request >? kPartsPerMillion) ||
          (expected_ram_hit_ppm request >? kPartsPerMillion) ||
          (add64 (expected_vram_hit_ppm request) (expected_ram_hit_ppm request) >? kPartsPerMillion)
  then Throw (invalid_argument "VRAM and RAM hit fractions must sum to <= 1000000 ppm")
  else if (average_expert_record_bytes manifest =? 0) && negb (total_expert_bytes manifest =? 0)
  then Throw (invalid_argument "average_expert_record_bytes must be positive")
  else Ok tt.

(** The figures of the decision that do not depend on the constraints. *)
Definition plan_figures (manifest : ManifestResources) (hardware : HardwareResources)
    (request : SloRequest) : outcome FeasibilityDecision :=
  let target := target_tokens_per_second_milli request in
  let active := active_expert_bytes_per_token manifest in
  let cold_budget :=
    SaturatingMultiply (sustained_storage_read_bytes_per_second hardware) 1000 / target in
  let h2d_budget := SaturatingMultiply (sustained_h2d_bytes_per_second hardware) 1000 / target in
  let cold_fraction_ppm :=
    sub64 (sub64 kPartsPerMillion (expected_vram_hit_ppm request)) (expected_ram_hit_ppm request) in
  let h2d_fraction_ppm := sub64 kPartsPerMillion (expected_vram_hit_ppm request) in
  let! expected_cold := MultiplyDivideCeil active cold_fraction_ppm kPartsPerMillion in
  let! expected_h2d := MultiplyDivideCeil active h2d_fraction_ppm kPartsPerMillion in
  let! avoidance := RequiredAvoidancePpm active cold_budget in
  let! vram_hit := RequiredAvoidancePpm active h2d_budget in
  let! minimum_concurrency :=
    if cold_budget =? 0 then Ok U64_MAX else CeilDivide active cold_budget in
  let average := average_expert_record_bytes manifest in
  let '(vram_count, ram_count) :=
    if negb (average =? 0)
    then (vram_expert_budget_bytes request / average, ram_expert_budget_bytes request / average)
    else (0, 0) in
  let non_io_ceiling :=
    if negb (measured_non_io_nanoseconds_per_token request =? 0)
    then SaturatingMultiply 1000000000 1000 / measured_non_io_nanoseconds_per_token request
    else 0 in
  Ok (mkFeasibilityDecision kImpossible [] cold_budget h2d_budget expected_cold expected_h2d
        avoidance vram_hit minimum_concurrency vram_count ram_count non_io_ceiling []).

(** The lambda [add]. *)
Definition add_constraint (resource formula : string) (required available : Z)
    (l : list Constraint) : list Constraint :=
  l ++ [mkConstraint (bytes resource) (bytes formula) required available (required <=? available)].

Definition list_constraints (manifest : ManifestResources) (hardware : HardwareResources)
    (request : SloRequest) (expected_cold expected_h2d : Z) : outcome (list Constraint) :=
  let target := target_tokens_per_second_milli request in
  let kv_bytes := SaturatingMultiply (kv_bytes_per_request request) (concurrency request) in
  let vram_resident :=
    SaturatingAdd (SaturatingAdd (resident_dense_bytes manifest) (minimum_workspace_bytes request))
      kv_bytes in
  let vram_with_experts := SaturatingAdd vram_resident (vram_expert_budget_bytes request) in
  let ram_required :=
    SaturatingAdd (minimum_staging_bytes request) (ram_expert_budget_bytes request) in
  let! storage_required_bps := MultiplyDivideCeil expected_cold target 1000 in
  let! h2d_required_bps := MultiplyDivideCeil expected_h2d target 1000 in
  let l := add_constraint "vram_resident"
    "dense + workspace + kv_per_request * concurrency <= available_vram"
    vram_resident (vram_available_bytes hardware) [] in
  let l := add_constraint "vram_total" "resident_vram + vram_expert_budget <= available_vram"
    vram_with_experts (vram_available_bytes hardware) l in
  let l := add_constraint "ram" "staging + ram_expert_budget <= available_ram"
    ram_required (available_ram_bytes hardware) l in
  let l := add_constraint "disk_capacity" "container_file_bytes <= disk_free_bytes"
    (total_file_bytes manifest) (disk_free_bytes hardware) l in
  let! l :=
    if negb (measured_non_io_nanoseconds_per_token request =? 0) then
      let! required_non_io :=
        MultiplyDivideCeil (measured_non_io_nanoseconds_per_token request) target 1000 in
      Ok (add_constraint "measured_non_io_ceiling"
        "measured_non_io_ns_per_token * target_tokens_per_second <= 1 second"
        required_non_io 1000000000 l)
    else Ok l in
  let l := add_constraint "storage_bandwidth"
    "cold_bytes_per_token * target_tokens_per_second <= sustained_storage_read_bytes_per_second"
    storage_required_bps (sustained_storage_read_bytes_per_second hardware) l in
  let l := add_constraint "pcie_h2d_bandwidth"
    "h2d_bytes_per_token * target_tokens_per_second <= sustained_h2d_bytes_per_second"
    h2d_required_bps (sustained_h2d_bytes_per_second hardware) l in
  Ok l.

(** The verdict over the constraints. *)
Definition judge (hardware : HardwareResources) (result : FeasibilityDecision)
    : outcome FeasibilityDecision :=
  let! failure := find_if (fun c => Ok (negb (passes c))) (constraints result) in
  match failure with
  | Some c => Ok (result <| status := kImpossible |> <| limiting_resource := resource c |>)
  | None =>
    let modeled_bandwidth :=
      negb (storage_bandwidth_measured hardware) || negb (h2d_bandwidth_measured hardware) in
    let! low_margin := find_if HasLowMargin (constraints result) in
    match modeled_bandwidth, low_margin with
    | true, _ =>
      Ok (result <| status := kDegraded |> <| limiting_resource := bytes "unmeasured_bandwidth" |>)
    | false, Some c => Ok (result <| status := kDegraded |> <| limiting_resource := resource c |>)
    | false, None => Ok (result <| status := kFeasible |> <| limiting_resource := bytes "none" |>)
    end
  end.

Definition EvaluateFeasibility (manifest : ManifestResources) (hardware : HardwareResources)
    (request : SloRequest) : outcome FeasibilityDecision :=
  let! _ := check_request manifest request in
  let! result := plan_figures manifest hardware request in
  let! l := list_constraints manifest hardware request
    (expected_cold_bytes_per_token result) (expected_h2d_bytes_per_token result) in
  judge hardware (result <| constraints := l |>).

(** ** The canonical JSON of a decision *)

Definition ToString (s : FeasibilityStatus) : list Z :=
  match s with
  | kFeasible => bytes "feasible"
  | kDegraded => bytes "degraded"
  | kImpossible => bytes "impossible"
  end.

Definition escape_decision_char (c : Z) : list Z :=
  if c =? 34 then [92; 34]
  else if c =? 92 then [92; 92]
  else if c =? 10 then [92; 110]
  else if c =? 13 then [92; 114]
  else if c =? 9 then [92; 116]
  else [c].

Definition EscapeJson (value : list Z) : list Z :=
  34 :: (value ≫= escape_decision_char) ++ [34].

Definition constraint_json (item : Constraint) : list Z :=
  quoted "{'available':" ++ to_string (available item)
  ++ quoted ",'formula':" ++ EscapeJson (formula item)
  ++ quoted ",'passes':" ++ (if passes item then bytes "true" else bytes "false")
  ++ quoted ",'required':" ++ to_string (required item)
  ++ quoted ",'resource':" ++ EscapeJson (resource item) ++ bytes "}".

(** The loop over the constraints, with a comma before each but the first. *)
Fixpoint constraints_json (index : nat) (items : list Constraint) : list Z :=
  match items with
  | [] => []
  | item :: items =>
    (if negb (index =? 0)%nat then bytes "," else []) ++ constraint_json item
    ++ constraints_json (S index) items
  end.

Definition DecisionToCanonicalJson (d : FeasibilityDecision) : list Z :=
  quoted "{'cold_bytes_per_token_budget':" ++ to_string (cold_bytes_per_token_budget d)
  ++ quoted ",'constraints':[" ++ constraints_json 0 (constraints d)
  ++ quoted "],'expected_cold_bytes_per_token':" ++ to_string (expected_cold_bytes_per_token d)
  ++ quoted ",'expected_h2d_bytes_per_token':" ++ to_string (expected_h2d_bytes_per_token d)
  ++ quoted ",'h2d_bytes_per_token_budget':" ++ to_string (h2d_bytes_per_token_budget d)
  ++ quoted ",'limiting_resource':" ++ EscapeJson (limiting_resource d)
  ++ quoted ",'measured_non_io_ceiling_tokens_per_second_milli':"
  ++ to_string (measured_non_io_ceiling_tokens_per_second_milli d)
  ++ quoted ",'ram_expert_capacity_count':" ++ to_string (ram_expert_capacity_count d)
  ++ quoted ",'required_storage_avoidance_ppm':" ++ to_string (required_storage_avoidance_ppm d)
  ++ quoted ",'required_vram_hit_ppm':" ++ to_string (required_vram_hit_ppm d)
  ++ quoted ",'status':" ++ EscapeJson (ToString (status d))
  ++ quoted ",'theoretical_minimum_concurrency':" ++ to_string (theoretical_minimum_concurrency d)
  ++ quoted ",'vram_expert_capacity_count':" ++ to_string (vram_expert_capacity_count d)
  ++ bytes "}".

(** ** Saturating arithmetic is exact below the bound *)

Lemma SaturatingAdd_min a b : SaturatingAdd a b = Z.min U64_MAX (a + b).
Proof. unfold SaturatingAdd. destruct (Z.gtb_spec a (U64_MAX - b)); lia. Qed.

Lemma SaturatingMultiply_min a b :
  0 <= a -> 0 <= b -> SaturatingMultiply a b = Z.min U64_MAX (a * b).
Proof.
  intros Ha Hb. unfold SaturatingMultiply. destruct (Z.eqb_spec a 0) as [->|Hne]; simpl.
  - unfold U64_MAX. lia.
  - pose proof (Z.div_mod U64_MAX a Hne). pose proof (Z.mod_pos_bound U64_MAX a ltac:(lia)).
    destruct (Z.gtb_spec b (U64_MAX / a)); nia.
Qed.

(** [⌈n / d⌉]. *)
Definition ceil_div (n d : Z) : Z := (n + d - 1) / d.

Lemma ceil_div_spec n d : 0 < d -> d * (ceil_div n d - 1) < n <= d * ceil_div n d.
Proof.
  intros Hd. unfold ceil_div. pose proof (Z.div_mod (n + d - 1) d ltac:(lia)).
  pose proof (Z.mod_pos_bound (n + d - 1) d Hd). lia.
Qed.

Lemma ceil_div_unique n d c : 0 < d -> d * (c - 1) < n <= d * c -> c = ceil_div n d.
Proof. intros Hd H. pose proof (ceil_div_spec n d Hd). nia. Qed.

Lemma ceil_div_le n d c : 0 < d -> ceil_div n d <= c <-> n <= d * c.
Proof. intros Hd. pose proof (ceil_div_spec n d Hd). split; nia. Qed.

Lemma CeilDivide_exact n d : 0 < d -> CeilDivide n d = Ok (ceil_div n d).
Proof.
  intros Hd. unfold CeilDivide. rewrite (proj2 (Z.eqb_neq d 0)) by lia. f_equal.
  apply ceil_div_unique; [done|]. pose proof (Z.div_mod n d ltac:(lia)).
  pose proof (Z.mod_pos_bound n d Hd). destruct (Z.eqb_spec (n mod d) 0); simpl; lia.
Qed.

(** What [MultiplyDivideCeil] returns for any operands. *)
Lemma MultiplyDivideCeil_value v m d :
  0 <= v -> 0 <= m -> 0 < d ->
  MultiplyDivideCeil v m d =
  Ok (Z.min U64_MAX (Z.min U64_MAX (v / d * m) + ceil_div (Z.min U64_MAX (v mod d * m)) d)).
Proof.
  intros Hv Hm Hd. unfold MultiplyDivideCeil. rewrite (proj2 (Z.eqb_neq d 0)) by lia.
  pose proof (Z.mod_pos_bound v d Hd). pose proof (Z.div_pos v d Hv Hd).
  rewrite CeilDivide_exact by done. simpl. by rewrite SaturatingAdd_min, !SaturatingMultiply_min by lia.
Qed.

Lemma MultiplyDivideCeil_exact v m d :
  0 <= v -> 0 <= m -> 0 < d -> v mod d * m <= U64_MAX ->
  MultiplyDivideCeil v m d = Ok (Z.min U64_MAX (ceil_div (v * m) d)).
Proof.
  intros Hv Hm Hd Hr. rewrite MultiplyDivideCeil_value by done. f_equal.
  rewrite (Z.min_r U64_MAX (v mod d * m)) by done.
  assert (ceil_div (v * m) d = v / d * m + ceil_div (v mod d * m) d) as ->.
  { symmetry. apply ceil_div_unique; [done|]. pose proof (ceil_div_spec (v mod d * m) d Hd).
    pose proof (Z.div_mod v d ltac:(lia)). nia. }
  assert (0 <= ceil_div (v mod d * m) d); [|lia].
  pose proof (Z.mod_pos_bound v d Hd). pose proof (ceil_div_spec (v mod d * m) d Hd). nia.
Qed.

(** The result never exceeds the exact quotient: when it is wrong it is too small. *)
Lemma MultiplyDivideCeil_le v m d r :
  0 <= v -> 0 <= m -> 0 < d -> MultiplyDivideCeil v m d = Ok r -> 0 <= r <= ceil_div (v * m) d.
Proof.
  intros Hv Hm Hd. rewrite MultiplyDivideCeil_value by done. intros [= <-].
  pose proof (Z.mod_pos_bound v d Hd). pose proof (Z.div_pos v d Hv Hd).
  pose proof (Z.div_mod v d ltac:(lia)). pose proof (ceil_div_spec (v * m) d Hd) as Hc1.
  set (s := Z.min U64_MAX (v mod d * m)). pose proof (ceil_div_spec s d Hd) as Hc2.
  assert (0 <= s <= v mod d * m) as Hs by (unfold s, U64_MAX; nia).
  assert (0 <= ceil_div s d) by nia. assert (0 <= v / d * m) by nia.
  assert (ceil_div s d <= ceil_div (v * m) d - v / d * m); [|unfold U64_MAX; lia].
  apply ceil_div_le; [done|]. nia.
Qed.

(** [MultiplyDivideCeil] is the quotient rounded up, capped at the largest 64-bit
    value, whenever the product of its remainder fits in 64 bits; otherwise the answer
    can only be too small. *)
Theorem multiply_divide_ceil_spec v m d :
  u64 v -> u64 m -> 0 < d <= U64_MAX ->
  exists r, MultiplyDivideCeil v m d = Ok r /\ u64 r /\ r <= ceil_div (v * m) d /\
    ((d - 1) * m <= U64_MAX -> r = Z.min U64_MAX (ceil_div (v * m) d)).
Proof.
  intros Hv Hm Hd. unfold u64 in *. pose proof (Z.mod_pos_bound v d ltac:(lia)).
  eexists. split; [apply MultiplyDivideCeil_value; lia|].
  pose proof (MultiplyDivideCeil_le v m d _ ltac:(lia) ltac:(lia) ltac:(lia)
    (MultiplyDivideCeil_value v m d ltac:(lia) ltac:(lia) ltac:(lia))) as Hle.
  split_and!; [lia|lia|lia|]. intros Hfit.
  assert (v mod d * m <= U64_MAX) as Hr by nia.
  pose proof (MultiplyDivideCeil_exact v m d ltac:(lia) ltac:(lia) ltac:(lia) Hr) as He.
  rewrite MultiplyDivideCeil_value in He by lia. congruence.
Qed.

(** ** Ranges *)

Definition manifest_u64 (m : ManifestResources) : Prop :=
  u64 (total_file_bytes m) /\ u64 (resident_dense_bytes m) /\ u64 (total_expert_bytes m) /\
  u64 (active_expert_bytes_per_token m) /\ u64 (average_expert_record_bytes m).

Definition hardware_u64 (h : HardwareResources) : Prop :=
  u64 (total_ram_bytes h) /\ u64 (available_ram_bytes h) /\ u64 (vram_total_bytes h) /\
  u64 (vram_available_bytes h) /\ u64 (disk_free_bytes h) /\
  u64 (sustained_storage_read_bytes_per_second h) /\ u64 (sustained_h2d_bytes_per_second h).

Definition request_u64 (r : SloRequest) : Prop :=
  u64 (target_tokens_per_second_milli r) /\ u64 (concurrency r) /\
  u64 (vram_expert_budget_bytes r) /\ u64 (ram_expert_budget_bytes r) /\
  u64 (expected_vram_hit_ppm r) /\ u64 (expected_ram_hit_ppm r) /\
  u64 (minimum_workspace_bytes r) /\ u64 (minimum_staging_bytes r) /\
  u64 (kv_bytes_per_request r) /\ u64 (measured_non_io_nanoseconds_per_token r).

(** What a request must satisfy to be evaluated. *)
Definition request_valid (m : ManifestResources) (r : SloRequest) : Prop :=
  0 < target_tokens_per_second_milli r /\ 0 < concurrency r /\
  expected_vram_hit_ppm r + expected_ram_hit_ppm r <= kPartsPerMillion /\
  (average_expert_record_bytes m = 0 -> total_expert_bytes m = 0).

Lemma check_request_ok m r :
  request_u64 r -> check_request m r = Ok tt <-> request_valid m r.
Proof.
  unfold request_u64, request_valid, check_request, u64, kPartsPerMillion. intros Hr.
  destruct (Z.eqb_spec (target_tokens_per_second_milli r) 0); [split; [done|lia]|].
  destruct (Z.eqb_spec (concurrency r) 0); [split; [done|lia]|].
  destruct (Z.gtb_spec (expected_vram_hit_ppm r) 1000000); [split; [done|lia]|].
  destruct (Z.gtb_spec (expected_ram_hit_ppm r) 1000000); [split; [done|lia]|]. simpl.
  unfold add64. rewrite wrap64_small by (unfold u64, U64_MAX; lia).
  destruct (Z.gtb_spec (expected_vram_hit_ppm r + expected_ram_hit_ppm r) 1000000); [split; [done|lia]|].
  destruct (Z.eqb_spec (average_expert_record_bytes m) 0),
    (Z.eqb_spec (total_expert_bytes m) 0); simpl; split; try done; lia.
Qed.

(** The expected traffic per token, which [MultiplyDivideCeil] computes exactly. *)
Definition cold_bytes (m : ManifestResources) (r : SloRequest) : Z :=
  ceil_div (active_expert_bytes_per_token m *
    (kPartsPerMillion - expected_vram_hit_ppm r - expected_ram_hit_ppm r)) kPartsPerMillion.
Definition h2d_bytes (m : ManifestResources) (r : SloRequest) : Z :=
  ceil_div (active_expert_bytes_per_token m * (kPartsPerMillion - expected_vram_hit_ppm r))
    kPartsPerMillion.

(** A part of [active] bytes, given in parts per million. *)
Lemma part_of_active active f :
  u64 active -> 0 <= f <= kPartsPerMillion ->
  MultiplyDivideCeil active f kPartsPerMillion = Ok (ceil_div (active * f) kPartsPerMillion) /\
  0 <= ceil_div (active * f) kPartsPerMillion <= active.
Proof.
  unfold u64, kPartsPerMillion. intros Ha Hf.
  pose proof (Z.mod_pos_bound active 1000000 ltac:(lia)).
  assert (0 <= ceil_div (active * f) 1000000 <= active) as Hr.
  { pose proof (ceil_div_spec (active * f) 1000000 ltac:(lia)). split; [nia|].
    apply ceil_div_le; [lia|]. nia. }
  split; [|done]. rewrite MultiplyDivideCeil_exact by (unfold U64_MAX; nia).
  by rewrite Z.min_r by lia.
Qed.

Lemma MultiplyDivideCeil_total v m d :
  0 <= v -> 0 <= m -> 0 < d -> exists r, MultiplyDivideCeil v m d = Ok r /\ u64 r.
Proof.
  intros Hv Hm Hd. pose proof (MultiplyDivideCeil_value v m d Hv Hm Hd) as H.
  pose proof (MultiplyDivideCeil_le v m d _ Hv Hm Hd H).
  eexists. split; [exact H|]. unfold u64. lia.
Qed.

Lemma RequiredAvoidancePpm_ok active budget :
  0 <= active -> exists z, RequiredAvoidancePpm active budget = Ok z /\ u64 z.
Proof.
  unfold RequiredAvoidancePpm. intros Ha.
  destruct (_ || _) eqn:E; [exists 0; split; [done|unfold u64, U64_MAX; lia]|].
  apply orb_false_iff in E as [E1 E2]. zbool.
  apply MultiplyDivideCeil_total; unfold kPartsPerMillion; lia.
Qed.

Lemma div_u64 a b : u64 a -> 0 <= b -> u64 (a / b).
Proof.
  unfold u64. intros Ha Hb. destruct (decide (b = 0)) as [->|]; [rewrite Zdiv_0_r; lia|].
  pose proof (Z.div_pos a b). pose proof (Z.div_le_upper_bound a b a). nia.
Qed.

Lemma SaturatingMultiply_u64 a b : 0 <= a -> 0 <= b -> u64 (SaturatingMultiply a b).
Proof. intros. rewrite SaturatingMultiply_min by done. unfold u64, U64_MAX. nia. Qed.

Lemma SaturatingAdd_u64 a b : 0 <= a -> 0 <= b -> u64 (SaturatingAdd a b).
Proof. intros. rewrite SaturatingAdd_min by done. unfold u64, U64_MAX. lia. Qed.

Definition constraint_u64 (c : Constraint) : Prop := u64 (required c) /\ u64 (available c).

(** The texts of a decision have none of the characters [EscapeJson] forgets. *)
Definition escapable (s : list Z) : Prop :=
  Forall byte s /\ Forall (fun c => 32 <= c \/ c = 9 \/ c = 10 \/ c = 13) s.

Definition figures_u64 (d : FeasibilityDecision) : Prop :=
  u64 (cold_bytes_per_token_budget d) /\ u64 (h2d_bytes_per_token_budget d) /\
  u64 (expected_cold_bytes_per_token d) /\ u64 (expected_h2d_bytes_per_token d) /\
  u64 (required_storage_avoidance_ppm d) /\ u64 (required_vram_hit_ppm d) /\
  u64 (theoretical_minimum_concurrency d) /\ u64 (vram_expert_capacity_count d) /\
  u64 (ram_expert_capacity_count d) /\ u64 (measured_non_io_ceiling_tokens_per_second_milli d).

Section Evaluation.
Context (m : ManifestResources) (h : HardwareResources) (r : SloRequest).
Context (Hm : manifest_u64 m) (Hh : hardware_u64 h) (Hr : request_u64 r) (Hv : request_valid m r).

Lemma plan_figures_ok :
  exists d, plan_figures m h r = Ok d /\ figures_u64 d /\
    expected_cold_bytes_per_token d = cold_bytes m r /\
    expected_h2d_bytes_per_token d = h2d_bytes m r.
Proof.
  destruct Hm as (? & ? & ? & Ha & ?), Hh as (? & ? & ? & ? & ? & Hs & Hd), Hr as (Ht & ? & ? & ? & Hev & Her & ? & ? & ? & Hn).
  destruct Hv as (Htp & _ & Hsum & _). unfold u64 in *.
  unfold plan_figures, sub64.
  rewrite (wrap64_small (kPartsPerMillion - expected_vram_hit_ppm r)),
    (wrap64_small (kPartsPerMillion - expected_vram_hit_ppm r - expected_ram_hit_ppm r))
    by (unfold u64, U64_MAX, kPartsPerMillion in *; lia).
  destruct (part_of_active (active_expert_bytes_per_token m)
    (kPartsPerMillion - expected_vram_hit_ppm r - expected_ram_hit_ppm r)) as [-> Hc]; [done|lia|].
  destruct (part_of_active (active_expert_bytes_per_token m)
    (kPartsPerMillion - expected_vram_hit_ppm r)) as [-> Hh2]; [done|lia|]. cbn [obind].
  set (cb := SaturatingMultiply (sustained_storage_read_bytes_per_second h) 1000 / _).
  set (hb := SaturatingMultiply (sustained_h2d_bytes_per_second h) 1000 / _).
  assert (u64 cb) as Hcb by (apply div_u64; [apply SaturatingMultiply_u64; lia|lia]).
  assert (u64 hb) as Hhb by (apply div_u64; [apply SaturatingMultiply_u64; lia|lia]).
  destruct (RequiredAvoidancePpm_ok (active_expert_bytes_per_token m) cb) as (z1 & -> & Hz1); [lia|].
  destruct (RequiredAvoidancePpm_ok (active_expert_bytes_per_token m) hb) as (z2 & -> & Hz2); [lia|].
  cbn [obind].
  assert (exists mc, (if cb =? 0 then Ok U64_MAX else CeilDivide (active_expert_bytes_per_token m) cb)
    = Ok mc /\ u64 mc) as (mc & -> & Hmc).
  { unfold u64 in *. destruct (Z.eqb_spec cb 0); [eexists; split; [done|unfold U64_MAX; lia]|].
    rewrite CeilDivide_exact by lia. eexists. split; [done|].
    pose proof (ceil_div_spec (active_expert_bytes_per_token m) cb ltac:(lia)).
    split; [nia|]. apply ceil_div_le; [lia|]. nia. }
  cbn [obind]. destruct (negb (average_expert_record_bytes m =? 0)); eexists; (split; [reflexivity|]);
    (split; [|split; [reflexivity|reflexivity]]); unfold figures_u64; simpl;
    (split_and!; try done; try (unfold u64 in *; lia);
      try (apply div_u64; [done|unfold u64 in *; lia]);
      try (destruct (negb _); [apply div_u64; [apply SaturatingMultiply_u64|]; lia|unfold u64, U64_MAX; lia]);
      unfold u64, U64_MAX; lia).
Qed.
(** The demands of the service level, as exact inequalities. *)
Definition demands_fit : Prop :=
  let target := target_tokens_per_second_milli r in
  let resident := resident_dense_bytes m + minimum_workspace_bytes r +
    kv_bytes_per_request r * concurrency r in
  resident <= vram_available_bytes h /\
  resident + vram_expert_budget_bytes r <= vram_available_bytes h /\
  minimum_staging_bytes r + ram_expert_budget_bytes r <= available_ram_bytes h /\
  total_file_bytes m <= disk_free_bytes h /\
  measured_non_io_nanoseconds_per_token r * target <= 1000 * 1000000000 /\
  cold_bytes m r * target <= 1000 * sustained_storage_read_bytes_per_second h /\
  h2d_bytes m r * target <= 1000 * sustained_h2d_bytes_per_second h.

(** Capacities below the value that stands for "too much", and a target rate whose
    product with a remainder fits. *)
Definition capacities_finite : Prop :=
  vram_available_bytes h < U64_MAX /\ available_ram_bytes h < U64_MAX /\
  sustained_storage_read_bytes_per_second h < U64_MAX /\
  sustained_h2d_bytes_per_second h < U64_MAX /\
  999 * target_tokens_per_second_milli r <= U64_MAX.

Lemma min_le x a : a < U64_MAX -> Z.min U64_MAX x <= a <-> x <= a.
Proof. lia. Qed.

(** A rate in milli-units per second against a bound per second. *)
Lemma rate_ok bytes_ :
  0 <= bytes_ -> capacities_finite ->
  MultiplyDivideCeil bytes_ (target_tokens_per_second_milli r) 1000 =
    Ok (Z.min U64_MAX (ceil_div (bytes_ * target_tokens_per_second_milli r) 1000)).
Proof.
  intros Hb (_ & _ & _ & _ & Ht). destruct Hr as (Ht0 & _). unfold u64 in Ht0.
  apply MultiplyDivideCeil_exact; [lia|lia|lia|].
  pose proof (Z.mod_pos_bound bytes_ 1000 ltac:(lia)). nia.
Qed.

Lemma rate_u64 bytes_ : 0 <= bytes_ ->
  u64 (Z.min U64_MAX (ceil_div (bytes_ * target_tokens_per_second_milli r) 1000)).
Proof.
  intros Hb. destruct Hr as (Ht0 & _). unfold u64 in *.
  pose proof (ceil_div_spec (bytes_ * target_tokens_per_second_milli r) 1000 ltac:(lia)).
  unfold U64_MAX in *. nia.
Qed.

Lemma vram_required_exact :
  SaturatingAdd (SaturatingAdd (resident_dense_bytes m) (minimum_workspace_bytes r))
    (SaturatingMultiply (kv_bytes_per_request r) (concurrency r)) =
  Z.min U64_MAX (resident_dense_bytes m + minimum_workspace_bytes r +
    kv_bytes_per_request r * concurrency r) /\
  SaturatingAdd (Z.min U64_MAX (resident_dense_bytes m + minimum_workspace_bytes r +
    kv_bytes_per_request r * concurrency r)) (vram_expert_budget_bytes r) =
  Z.min U64_MAX (resident_dense_bytes m + minimum_workspace_bytes r +
    kv_bytes_per_request r * concurrency r + vram_expert_budget_bytes r).
Proof.
  destruct Hm as (_ & Hd & _), Hr as (_ & Hc & Hvb & _ & _ & _ & Hw & _ & Hk & _). unfold u64 in *.
  rewrite !SaturatingAdd_min, SaturatingMultiply_min by lia. split; nia.
Qed.

Lemma byte_text_escapable s :
  forallb (fun c => (32 <=? c) && (c <? 256)) (bytes s) = true -> escapable (bytes s).
Proof.
  intros H. split; [apply bytes_byte|]. rewrite forallb_forall in H. apply Forall_forall.
  intros c Hc. specialize (H c (proj1 (list_elem_of_In _ _) Hc)). zbool. by left.
Qed.

Definition constraint_ok (c : Constraint) : Prop :=
  constraint_u64 c /\ passes c = (required c <=? available c) /\ escapable (resource c) /\ escapable (formula c).

Lemma add_constraint_ok res form req av l :
  Forall constraint_ok l -> u64 req -> u64 av ->
  forallb (fun c => (32 <=? c) && (c <? 256)) (bytes res) = true ->
  forallb (fun c => (32 <=? c) && (c <? 256)) (bytes form) = true ->
  Forall constraint_ok (add_constraint res form req av l).
Proof.
  intros Hl Hq Ha H1 H2. unfold add_constraint. apply Forall_app. split; [done|].
  constructor; [|done]. split_and!; [done|done|by apply byte_text_escapable|by apply byte_text_escapable].
Qed.

Lemma add_constraint_passes res form req av l :
  Forall (fun c => passes c = true) (add_constraint res form req av l) <->
  Forall (fun c => passes c = true) l /\ req <= av.
Proof.
  unfold add_constraint. rewrite Forall_app, Forall_singleton. simpl. by rewrite Z.leb_le.
Qed.

(** The constraints are well formed, and they all pass exactly when the demands fit. *)
Lemma list_constraints_ok :
  capacities_finite ->
  exists l, list_constraints m h r (cold_bytes m r) (h2d_bytes m r) = Ok l /\
    Forall constraint_ok l /\ (Forall (fun c => passes c = true) l <-> demands_fit).
Proof.
  intros Hf. pose proof Hf as (Hf1 & Hf2 & Hf3 & Hf4 & Hf5).
  pose proof vram_required_exact as [V1 V2].
  destruct Hm as (? & ? & ? & Ha & ?), Hh as (? & ? & ? & ? & ? & Hs & Hd),
    Hr as (Ht & ? & ? & ? & Hev & Her & ? & ? & ? & Hn), Hv as (_ & _ & Hsum & _).
  destruct (part_of_active (active_expert_bytes_per_token m)
    (kPartsPerMillion - expected_vram_hit_ppm r - expected_ram_hit_ppm r)) as [_ Hc];
    [done|unfold u64 in *; lia|].
  destruct (part_of_active (active_expert_bytes_per_token m)
    (kPartsPerMillion - expected_vram_hit_ppm r)) as [_ Hp]; [done|unfold u64 in *; lia|].
  fold (cold_bytes m r) in Hc. fold (h2d_bytes m r) in Hp.
  assert (0 <= kv_bytes_per_request r * concurrency r) as Hkv by (unfold u64 in *; nia).
  unfold list_constraints. rewrite V1, V2.
  rewrite !rate_ok by (done || lia). cbn [obind].
  pose proof (rate_u64 (cold_bytes m r) ltac:(lia)). pose proof (rate_u64 (h2d_bytes m r) ltac:(lia)).
  pose proof (rate_u64 (measured_non_io_nanoseconds_per_token r) ltac:(unfold u64 in *; lia)).
  rewrite SaturatingAdd_min.
  assert (forall x, 0 <= x -> u64 (Z.min U64_MAX x)) as Hmin by (unfold u64, U64_MAX; intros; lia).
  assert (u64 1000000000) by (unfold u64, U64_MAX; lia).
  destruct (Z.eqb_spec (measured_non_io_nanoseconds_per_token r) 0) as [E|E]; cbn [negb];
    [|rewrite rate_ok by (done || (unfold u64 in *; lia))]; cbn [obind]; (eexists; split; [reflexivity|]; split;
    [repeat apply add_constraint_ok; try done; apply Hmin; unfold u64 in *; lia|]);
    rewrite !add_constraint_passes, !min_le, !ceil_div_le by (done || (unfold U64_MAX; lia));
    unfold demands_fit; rewrite ?E, Forall_nil; unfold u64 in *; intuition lia.
Qed.
End Evaluation.

(** ** The verdict *)

Lemma HasLowMargin_ok c :
  constraint_ok c -> exists b, HasLowMargin c = Ok b /\
    (b = false -> passes c = true -> available c <> 0 ->
     99999 * available c < (available c - required c) * 1000000).
Proof.
  intros ([Hq Ha] & Hp & _). unfold u64 in *. unfold HasLowMargin.
  destruct (passes c); cbn [negb orb]; [|by exists false]. symmetry in Hp. apply Z.leb_le in Hp.
  destruct (Z.eqb_spec (available c) 0); [by exists false|].
  unfold sub64. rewrite wrap64_small by (unfold u64; lia).
  destruct (MultiplyDivideCeil_total (available c - required c) kPartsPerMillion (available c))
    as (z & E & Hz); [lia|unfold kPartsPerMillion; lia|lia|].
  assert (0 <= z <= ceil_div ((available c - required c) * kPartsPerMillion) (available c)) as Hle
    by (eapply MultiplyDivideCeil_le; [| | |exact E]; unfold kPartsPerMillion; lia).
  rewrite E. cbn [obind]. eexists. split; [reflexivity|]. intros Hm _ _.
  unfold kDegradedMarginPpm in Hm. zbool.
  pose proof (ceil_div_spec ((available c - required c) * kPartsPerMillion) (available c) ltac:(lia)).
  unfold kPartsPerMillion in *. nia.
Qed.

Lemma find_if_total {A} (p : A -> outcome bool) l :
  Forall (fun a => exists b, p a = Ok b) l ->
  exists o, find_if p l = Ok o /\
    match o with
    | None => Forall (fun a => p a = Ok false) l
    | Some a => p a = Ok true /\ exists l1 l2, l = l1 ++ a :: l2 /\ Forall (fun a => p a = Ok false) l1
    end.
Proof.
  induction 1 as [|a l [b Hb] _ (o & E & Ho)]; [by exists None|]. simpl. rewrite Hb. simpl.
  destruct b; [exists (Some a); split; [done|]; split; [done|]; by exists [], l|].
  exists o. split; [done|]. destruct o as [a'|]; [|by constructor].
  destruct Ho as (Ha & l1 & l2 & -> & Hl). split; [done|]. exists (a :: l1), l2. split; [done|by constructor].
Qed.

(** The verdict over well-formed constraints. *)
Record verdict (h : HardwareResources) (d d' : FeasibilityDecision) : Prop := {
  v_constraints : constraints d' = constraints d;
  v_escapable : escapable (limiting_resource d');
  v_figures : figures_u64 d -> figures_u64 d';
  v_impossible : status d' = kImpossible <-> ~ Forall (fun c => passes c = true) (constraints d);
  v_first : status d' = kImpossible -> exists l1 c l2, constraints d = l1 ++ c :: l2 /\
    Forall (fun c => passes c = true) l1 /\ passes c = false /\ limiting_resource d' = resource c;
  v_feasible : status d' = kFeasible ->
    storage_bandwidth_measured h = true /\ h2d_bandwidth_measured h = true /\
    forall c, c ∈ constraints d -> available c <> 0 ->
      99999 * available c < (available c - required c) * 1000000 }.

Lemma forall_passes l :
  Forall (fun c : Constraint => Ok (negb (passes c)) = Ok false) l <-> Forall (fun c => passes c = true) l.
Proof.
  rewrite !Forall_forall. split; intros H c Hc; specialize (H c Hc); [|by rewrite H].
  injection H. apply negb_false_iff.
Qed.

Lemma judge_ok h d :
  Forall constraint_ok (constraints d) -> exists d', judge h d = Ok d' /\ verdict h d d'.
Proof.
  intros Hok. unfold judge.
  destruct (find_if_total (fun c => Ok (negb (passes c))) (constraints d)) as (o & -> & Ho).
  { eapply Forall_impl; [exact Hok|]. eauto. }
  cbn [obind]. destruct o as [c|].
  - destruct Ho as (Hc & l1 & l2 & El & Hl). rewrite forall_passes in Hl.
    injection Hc as Hc. apply negb_true_iff in Hc. eexists. split; [reflexivity|].
    rewrite El in Hok. apply Forall_app in Hok as [_ Hok]. apply Forall_cons in Hok as [Hcok _].
    split; simpl; try done.
    + by destruct Hcok as (_ & _ & ? & _).
    + split; [|done]. intros _ Hall. rewrite El in Hall. apply Forall_app in Hall as [_ Hall].
      apply Forall_cons in Hall as [? _]. congruence.
    + intros _. by exists l1, c, l2.
  - rewrite forall_passes in Ho.
    assert (forall f : FeasibilityDecision, status f <> kImpossible ->
      (status f = kImpossible <-> ~ Forall (fun c => passes c = true) (constraints d))) as Hi by (split; done).
    destruct (find_if_total HasLowMargin (constraints d)) as (o & -> & Hlow).
    { eapply Forall_impl; [exact Hok|]. intros c Hc. destruct (HasLowMargin_ok c Hc) as (b & ? & _). eauto. }
    cbn [obind].
    destruct (negb (storage_bandwidth_measured h) || negb (h2d_bandwidth_measured h)) eqn:Emod.
    { eexists. split; [reflexivity|]. split; simpl; try done; first [by apply byte_text_escapable|by apply Hi]. }
    apply orb_false_iff in Emod as [E1%negb_false_iff E2%negb_false_iff]. destruct o as [c|].
    + destruct Hlow as (_ & l1 & l2 & El & _). eexists. split; [reflexivity|].
      rewrite El in Hok. apply Forall_app in Hok as [_ Hok]. apply Forall_cons in Hok as [Hcok _].
      split; simpl; try done; first [by destruct Hcok as (_ & _ & ? & _)|by apply Hi].
    + eexists. split; [reflexivity|].
      split; simpl; try done; [by apply byte_text_escapable|]. intros _.
      split_and!; [done|done|]. intros c Hc Ha. rewrite Forall_forall in Hlow, Ho, Hok.
      destruct (HasLowMargin_ok c (Hok c Hc)) as (b & Eb & Hb). apply Hb; [|by apply Ho|done].
      specialize (Hlow c Hc). congruence.
Qed.

(** What [EvaluateFeasibility] returns on a request it accepts. *)
Lemma evaluate_ok m h r :
  manifest_u64 m -> hardware_u64 h -> request_u64 r -> request_valid m r -> capacities_finite h r ->
  exists d d', EvaluateFeasibility m h r = Ok d' /\ verdict h d d' /\ figures_u64 d' /\
    Forall constraint_ok (constraints d') /\
    (Forall (fun c => passes c = true) (constraints d) <-> demands_fit m h r).
Proof.
  intros Hm Hh Hr Hv Hf. unfold EvaluateFeasibility.
  rewrite (proj2 (check_request_ok m r Hr) Hv). cbn [obind].
  destruct (plan_figures_ok m h r Hm Hh Hr Hv) as (d & -> & Hd & E1 & E2). cbn [obind].
  rewrite E1, E2. destruct (list_constraints_ok m h r Hm Hh Hr Hv Hf) as (l & -> & Hl & Hfit).
  cbn [obind]. destruct (judge_ok h (d <| constraints := l |>)) as (d' & -> & Hd'); [exact Hl|].
  exists (d <| constraints := l |>), d'. split_and!; [done|done| | |done].
  - by apply (v_figures _ _ _ Hd').
  - by rewrite (v_constraints _ _ _ Hd').
Qed.


(** ** The printed decision is in canonical form *)

Lemma escape_decision s : escapable s -> EscapeJson s = escaped s.
Proof.
  intros [Hb Hs]. unfold EscapeJson, escaped. do 2 f_equal. induction Hs as [|c s Hc _ IH]; [done|].
  apply Forall_cons in Hb as [_ Hb]. rewrite !bind_cons, IH by done. f_equal.
  unfold escape_decision_char, escape_char.
  destruct (Z.eqb_spec c 34); [done|]. destruct (Z.eqb_spec c 92); [done|].
  rewrite (proj2 (Z.eqb_neq c 8)), (proj2 (Z.eqb_neq c 12)) by lia.
  destruct (Z.eqb_spec c 10); [done|]. destruct (Z.eqb_spec c 13); [done|].
  destruct (Z.eqb_spec c 9); [done|]. by rewrite (proj2 (Z.ltb_ge c 0x20)) by lia.
Qed.

Definition constraint_value (c : Constraint) : Value :=
  VObject [(bytes "available", VUInt (available c)); (bytes "formula", VString (formula c));
           (bytes "passes", VBool (passes c)); (bytes "required", VUInt (required c));
           (bytes "resource", VString (resource c))].

(** The decision as a JSON value. *)
Definition decision_value (d : FeasibilityDecision) : Value :=
  VObject [(bytes "cold_bytes_per_token_budget", VUInt (cold_bytes_per_token_budget d));
    (bytes "constraints", VArray (map constraint_value (constraints d)));
    (bytes "expected_cold_bytes_per_token", VUInt (expected_cold_bytes_per_token d));
    (bytes "expected_h2d_bytes_per_token", VUInt (expected_h2d_bytes_per_token d));
    (bytes "h2d_bytes_per_token_budget", VUInt (h2d_bytes_per_token_budget d));
    (bytes "limiting_resource", VString (limiting_resource d));
    (bytes "measured_non_io_ceiling_tokens_per_second_milli",
      VUInt (measured_non_io_ceiling_tokens_per_second_milli d));
    (bytes "ram_expert_capacity_count", VUInt (ram_expert_capacity_count d));
    (bytes "required_storage_avoidance_ppm", VUInt (required_storage_avoidance_ppm d));
    (bytes "required_vram_hit_ppm", VUInt (required_vram_hit_ppm d));
    (bytes "status", VString (ToString (status d)));
    (bytes "theoretical_minimum_concurrency", VUInt (theoretical_minimum_concurrency d));
    (bytes "vram_expert_capacity_count", VUInt (vram_expert_capacity_count d))].

Definition decision_ok (d : FeasibilityDecision) : Prop :=
  figures_u64 d /\ escapable (limiting_resource d) /\ Forall constraint_ok (constraints d).

Lemma sorted_keys_decide m :
  forallb (fun p => bytes_ltb p.1 p.2) (zip m.*1 (tl m.*1)) = true -> sorted_keys m.
Proof.
  unfold sorted_keys. generalize (m.*1). clear m. intros l H. apply Sorted_StronglySorted.
  { intros a b c. apply bytes_ltb_trans. }
  induction l as [|a [|b l] IH]; [constructor|repeat constructor|]. simpl in H.
  apply andb_true_iff in H as [Ha H]. constructor; [by apply IH|by constructor].
Qed.

Lemma keys_byte_decide (m : list (list Z * Value)) :
  forallb (forallb (fun b => (0 <=? b) && (b <? 256))) m.*1 = true -> Forall (Forall byte) m.*1.
Proof.
  rewrite forallb_forall. intros H. apply Forall_forall. intros k Hk. apply bytes_decide.
  apply H. by apply list_elem_of_In.
Qed.

Lemma constraint_value_wf c : constraint_ok c -> wf (constraint_value c).
Proof.
  intros ([Hq Ha] & _ & [Hrb _] & [Hfb _]). constructor.
  - apply sorted_keys_decide. vm_compute. reflexivity.
  - apply keys_byte_decide. vm_compute. reflexivity.
  - repeat constructor; try done; apply Hq || apply Ha.
Qed.

Lemma ToString_escapable s : escapable (ToString s).
Proof. destruct s; by apply byte_text_escapable. Qed.

Lemma decision_value_wf d : decision_ok d -> wf (decision_value d).
Proof.
  intros ((?&?&?&?&?&?&?&?&?&?) & [Hl _] & Hc). constructor.
  - apply sorted_keys_decide. vm_compute. reflexivity.
  - apply keys_byte_decide. vm_compute. reflexivity.
  - unfold decision_value. cbn [fmap list_fmap snd].
    repeat (constructor; [first [by constructor|idtac]|]); [| |constructor].
    + constructor. apply Forall_forall. intros v Hv. apply list_elem_of_In, in_map_iff in Hv as (c & <- & Hin).
      apply constraint_value_wf. rewrite Forall_forall in Hc. apply Hc. by apply list_elem_of_In.
    + constructor. by destruct (ToString_escapable (status d)).
Qed.

(** One member of a printed object, from the literals the source writes. *)
Lemma escaped_key (s : string) :
  forallb (fun c => (32 <=? c) && negb (c =? 34) && negb (c =? 92)) (bytes s) = true ->
  escaped (bytes s) = 34 :: bytes s ++ [34].
Proof.
  intros H. unfold escaped. do 2 f_equal. induction (bytes s) as [|c l IH]; [done|].
  simpl in H. apply andb_true_iff in H as [Hc H]. rewrite bind_cons, IH by done.
  apply andb_true_iff in Hc as [Hc H2]. apply andb_true_iff in Hc as [Hc H1].
  unfold escape_char. zbool. repeat (rewrite (proj2 (Z.eqb_neq _ _)) by lia).
  by rewrite (proj2 (Z.ltb_ge c 0x20)) by lia.
Qed.

Lemma constraint_json_canonical c : constraint_ok c -> constraint_json c = canonical (constraint_value c).
Proof.
  intros (_ & _ & Hr & Hf). unfold constraint_json. rewrite !escape_decision by done.
  unfold constraint_value. cbn [canonical map comma_list fst snd].
  rewrite !escaped_key by reflexivity. rewrite !bind_cons, !app_nil_r.
  cbn -[to_string escaped]. rewrite <- !app_assoc. cbn -[to_string escaped].
  rewrite <- !app_assoc. cbn -[to_string escaped]. repeat (rewrite <- !app_assoc; cbn -[to_string escaped]).
  reflexivity.
Qed.

Lemma constraints_json_canonical l :
  Forall constraint_ok l -> constraints_json 0 l = comma_list (map canonical (map constraint_value l)).
Proof.
  intros Hl. destruct Hl as [|c l Hc Hl]; [done|]. cbn [constraints_json map comma_list].
  rewrite (constraint_json_canonical c Hc). cbn [Nat.eqb negb]. cbn [app]. f_equal.
  generalize O. induction Hl as [|c2 l Hc2 _ IH]; intros n; [done|].
  cbn [constraints_json map]. rewrite bind_cons, IH, (constraint_json_canonical c2 Hc2).
  reflexivity.
Qed.

Lemma decision_json_canonical d :
  decision_ok d -> DecisionToCanonicalJson d = Canonicalize (decision_value d).
Proof.
  intros (_ & Hl & Hc). unfold DecisionToCanonicalJson, Canonicalize, AppendCanonical.
  rewrite constraints_json_canonical by done.
  rewrite !escape_decision by (done || apply ToString_escapable).
  unfold decision_value. cbn [canonical map comma_list fst snd app].
  rewrite !escaped_key by reflexivity. rewrite !bind_cons, !app_nil_r.
  generalize (map canonical (map constraint_value (constraints d))). intros cs.
  repeat (cbn -[to_string escaped comma_list ToString]; rewrite <- ?app_assoc). reflexivity.
Qed.

(** The decision printed by hand is byte for byte the canonical form of the JSON
    library: reading it and printing it again gives the same text, and two decisions
    that are printed alike have the same figures. *)
Theorem decision_json_is_canonical m h r d :
  manifest_u64 m -> hardware_u64 h -> request_u64 r -> capacities_finite h r ->
  EvaluateFeasibility m h r = Ok d ->
  Parse (DecisionToCanonicalJson d) = Ok (decision_value d) /\
  CanonicalizeText (DecisionToCanonicalJson d) = Ok (DecisionToCanonicalJson d).
Proof.
  intros Hm Hh Hr Hf He.
  assert (request_valid m r) as Hv.
  { rewrite <- check_request_ok by done. unfold EvaluateFeasibility in He.
    by destruct (check_request m r) as [[]|]. }
  destruct (evaluate_ok m h r Hm Hh Hr Hv Hf) as (d0 & d' & E & Hd & Hfig & Hcs & _).
  rewrite He in E. injection E as <-.
  assert (decision_ok d) as Hok by exact (conj Hfig (conj (v_escapable _ _ _ Hd) Hcs)).
  assert (normalize (decision_value d) = decision_value d) as Hn.
  { unfold decision_value. cbn [normalize map fst snd].
    replace (map normalize (map constraint_value (constraints d)))
      with (map constraint_value (constraints d)); [done|].
    clear. induction (constraints d) as [|c l IH]; [done|]. cbn [map]. by rewrite <- IH. }
  pose proof (parse_canonical _ (decision_value_wf d Hok)) as Hp. rewrite Hn in Hp.
  rewrite (decision_json_canonical d Hok). split; [done|].
  unfold CanonicalizeText. rewrite Hp. done.
Qed.

(** ** The margin of a large resource *)

(** The headroom test multiplies before it divides: for a resource of 200 TB or more
    the product saturates, so that any use of it at all, however small, is reported as a
    low margin, and a fitting deployment as degraded. *)
Theorem large_resource_has_low_margin res form req av :
  200000000000000 <= av <= U64_MAX -> 0 < req <= av ->
  HasLowMargin (mkConstraint res form req av true) = Ok true.
Proof.
  intros Ha Hq. unfold HasLowMargin. cbn [passes available required negb orb].
  rewrite (proj2 (Z.eqb_neq av 0)) by lia.
  unfold sub64. rewrite wrap64_small by (unfold u64; lia).
  rewrite MultiplyDivideCeil_value by (unfold kPartsPerMillion; lia). cbn [obind].
  rewrite Z.div_small, Z.mod_small by lia. rewrite Z.mul_0_l. f_equal. apply Z.ltb_lt.
  assert (ceil_div (Z.min U64_MAX ((av - req) * kPartsPerMillion)) av < kDegradedMarginPpm);
    [|unfold U64_MAX in *; lia].
  assert (ceil_div (Z.min U64_MAX ((av - req) * kPartsPerMillion)) av <= 92234);
    [|unfold kDegradedMarginPpm; lia].
  apply ceil_div_le; [lia|]. unfold U64_MAX. lia.
Qed.

(** ** Instances *)

Definition demo_manifest : ManifestResources :=
  mkManifestResources [] 40000000000 3000000000 30000000000 1000000000 2000000.
Definition demo_hardware : HardwareResources :=
  mkHardwareResources 64000000000 50000000000 24000000000 20000000000 300000000000000
    7000000000 25000000000 true true.
Definition demo_request : SloRequest :=
  mkSloRequest 10000 1 8000000000 20000000000 600000 300000 500000000 1000000000 100000000 0.

Lemma demo_ranges :
  manifest_u64 demo_manifest /\ hardware_u64 demo_hardware /\ request_u64 demo_request /\
  capacities_finite demo_hardware demo_request /\ request_valid demo_manifest demo_request.
Proof.
  unfold manifest_u64, hardware_u64, request_u64, capacities_finite, request_valid, u64, U64_MAX,
    kPartsPerMillion. simpl. split_and!; lia.
Qed.

Definition demo_decision : FeasibilityDecision :=
  match EvaluateFeasibility demo_manifest demo_hardware demo_request with
  | Ok d => d
  | Throw _ => mkFeasibilityDecision kImpossible [] 0 0 0 0 0 0 0 0 0 0 []
  end.

Lemma demo_evaluates : EvaluateFeasibility demo_manifest demo_hardware demo_request = Ok demo_decision.
Proof. vm_compute. reflexivity. Qed.


Lemma decision_json_is_canonical_witness :
  Parse (DecisionToCanonicalJson demo_decision) = Ok (decision_value demo_decision).
Proof.
  destruct demo_ranges as (Hm & Hh & Hr & Hf & _).
  apply (decision_json_is_canonical demo_manifest demo_hardware demo_request demo_decision
    Hm Hh Hr Hf demo_evaluates).
Defined.

Lemma multiply_divide_ceil_spec_witness :
  MultiplyDivideCeil 10 3 7 = Ok 5 /\ u64 10 /\
  exists r, MultiplyDivideCeil 10 3 7 = Ok r /\ u64 r /\ r <= ceil_div (10 * 3) 7 /\
    ((7 - 1) * 3 <= U64_MAX -> r = Z.min U64_MAX (ceil_div (10 * 3) 7)).
Proof.
  split_and!; [vm_compute; reflexivity|unfold u64, U64_MAX; lia|].
  apply (multiply_divide_ceil_spec 10 3 7); unfold u64, U64_MAX; lia.
Defined.

Lemma large_resource_has_low_margin_witness :
  HasLowMargin (mkConstraint [] [] 1 250000000000000 true) = Ok true.
Proof. apply (large_resource_has_low_margin [] [] 1 250000000000000); unfold U64_MAX; lia. Defined.
