(* ===== verification/RouteCensus.v ===== *)
(** The route census ([runtime/src/route_census.cpp],
    [runtime/include/expert/runtime/route_census.hpp]): counts of which experts a model
    routes to, a decaying heat for each, the transitions between the routes of a layer,
    and their authenticated file format with two alternating slots.

    Every method runs under the mutex of the census, so that a method is one transition
    of the state. The file system is a map from paths to contents; a save is a list of
    actions on it, so that stopping after any of them, or in the middle of a write, is a
    state of its own. *)

From Stdlib Require Import Ascii String.
From S2P Require Import Prelude.
From S2P Require Import Storage.
From S2P Require Import Text.
From S2P Require Import Sha256.

(** ** Data *)

Definition kMagic : list Z := Text.bytes "QRTCENS1".
Definition kVersion : Z := 2.
Definition kLegacyVersion : Z := 1.
Definition kHeatUnitQ20 : Z := Z.shiftl 1 20.
Definition kDigestBytes : nat := 32.
Definition kFixedHeaderBytes : Z := 124.

Record RouteCensusConfig := mkRouteCensusConfig {
  c_model_id : Z;
  model_content_hash : list Z;
  c_encoding_abi : Z;
  layer_count : Z;
  experts_per_layer : Z;
  route_width : Z;
  decay_interval_observations : Z }.

#[export] Instance RouteCensusConfig_eq_dec : EqDecision RouteCensusConfig.
Proof. solve_decision. Defined.

Record Cell := mkCell {
  total : Z;
  heat_q20 : Z;
  heat_observation : Z;
  last_seen : Z;
  cpu : Z;
  gpu : Z }.

#[export] Instance eta_Cell : Eta Cell := fun c =>
  mkCell (total c) (heat_q20 c) (heat_observation c) (last_seen c) (cpu c) (gpu c).

Record LayerState := mkLayerState {
  observations : Z;
  consecutive_reuse : Z;
  previous_route : list Z }.

#[export] Instance eta_LayerState : Eta LayerState := fun l =>
  mkLayerState (observations l) (consecutive_reuse l) (previous_route l).

Record RouteCensus := mkRouteCensus {
  config_ : RouteCensusConfig;
  cells_ : list Cell;
  layers_ : list LayerState;
  transitions_ : list Z;
  generation_ : Z;
  observation_ : Z;
  completed_routes_ : Z;
  total_selections_ : Z;
  consecutive_reuse_selections_ : Z }.

#[export] Instance eta_RouteCensus : Eta RouteCensus := fun c =>
  mkRouteCensus (config_ c) (cells_ c) (layers_ c) (transitions_ c) (generation_ c)
    (observation_ c) (completed_routes_ c) (total_selections_ c)
    (consecutive_reuse_selections_ c).

Definition nonzero_digest (d : list Z) : bool := existsb (fun b => negb (b =? 0)) d.

Definition valid_config (c : RouteCensusConfig) : bool :=
  let cells := mul64 (layer_count c) (experts_per_layer c) in
  let transitions := mul64 cells (experts_per_layer c) in
  negb (c_model_id c =? 0) && nonzero_digest (model_content_hash c) &&
  negb (c_encoding_abi c =? 0) && negb (layer_count c =? 0) &&
  negb (experts_per_layer c =? 0) && negb (route_width c =? 0) &&
  (route_width c <=? experts_per_layer c) && negb (decay_interval_observations c =? 0) &&
  (cells <=? 1000000) && (transitions <=? 8000000).

Definition saturated_add (left_ right_ : Z) : Z :=
  if right_ >? U64_MAX - left_ then U64_MAX else left_ + right_.

Definition empty_cell : Cell := mkCell 0 0 0 0 0 0.

(** The constructor. *)
Definition census_create (config : RouteCensusConfig) : outcome RouteCensus :=
  if negb (valid_config config)
  then Throw (invalid_argument "invalid route census configuration")
  else
    let cells := (Z.to_nat (layer_count config) * Z.to_nat (experts_per_layer config))%nat in
    Ok (mkRouteCensus config (replicate cells empty_cell)
          (replicate (Z.to_nat (layer_count config))
             (mkLayerState 0 0 (replicate (Z.to_nat (route_width config)) 0)))
          (replicate (cells * Z.to_nat (experts_per_layer config)) 0) 0 0 0 0 0).

(** ** Observations *)

Definition effective_heat (c : RouteCensus) (cell : Cell) : Z :=
  if (heat_q20 cell =? 0) || (observation_ c <=? heat_observation cell) then heat_q20 cell
  else
    let shifts := (observation_ c - heat_observation cell) /
                  decay_interval_observations (config_ c) in
    if shifts >=? 64 then 0 else Z.shiftr (heat_q20 cell) shifts.

Definition cell_index (c : RouteCensus) (layer expert : Z) : nat :=
  Z.to_nat (layer * experts_per_layer (config_ c) + expert).

Definition transition_index (c : RouteCensus) (layer previous expert : Z) : nat :=
  Z.to_nat (layer * experts_per_layer (config_ c) * experts_per_layer (config_ c)
            + previous * experts_per_layer (config_ c) + expert).

(** The first validation loop, after the experts [seen]. *)
Fixpoint routed_valid (experts : Z) (seen l : list Z) : bool :=
  match l with
  | [] => true
  | e :: l =>
    if (e >=? experts) || bool_decide (e ∈ seen) then false
    else routed_valid experts (seen ++ [e]) l
  end.

(** The second. *)
Fixpoint cpu_valid (routed seen l : list Z) : bool :=
  match l with
  | [] => true
  | e :: l =>
    if negb (bool_decide (e ∈ routed)) || bool_decide (e ∈ seen) then false
    else cpu_valid routed (seen ++ [e]) l
  end.

Definition bump_transition (t : Z) : Z := if negb (t =? U32_MAX) then t + 1 else t.

Definition record_transitions (layer : Z) (previous_ routed : list Z) (c : RouteCensus)
    : RouteCensus :=
  foldl (fun c previous =>
    foldl (fun c expert =>
      c <| transitions_ %= alter bump_transition (transition_index c layer previous expert) |>)
      c routed) c previous_.

Definition record_reuse (layer : Z) (previous_ routed : list Z) (c : RouteCensus) : RouteCensus :=
  foldl (fun c expert =>
    if bool_decide (expert ∈ previous_) then
      c <| layers_ %= alter (fun l => l <| consecutive_reuse %= fun n => saturated_add n 1 |>)
             (Z.to_nat layer) |>
        <| consecutive_reuse_selections_ %= fun n => saturated_add n 1 |>
    else c) c routed.

(** What one routed expert adds to its cell. *)
Definition record_cell (c : RouteCensus) (on_cpu : bool) (cell : Cell) : Cell :=
  let cell := cell <| heat_q20 := effective_heat c cell |> in
  let cell := cell <| heat_observation := observation_ c |> in
  let cell := cell <| heat_q20 %= fun n => saturated_add n kHeatUnitQ20 |> in
  let cell := cell <| total %= fun n => saturated_add n 1 |> in
  let cell := cell <| last_seen := observation_ c |> in
  if on_cpu then cell <| cpu %= fun n => saturated_add n 1 |>
  else cell <| gpu %= fun n => saturated_add n 1 |>.

Definition record_cells (layer : Z) (routed cpu_experts : list Z) (c : RouteCensus) : RouteCensus :=
  foldl (fun c expert =>
    c <| cells_ %= alter (record_cell c (bool_decide (expert ∈ cpu_experts)))
           (cell_index c layer expert) |>) c routed.

Definition layer_at (c : RouteCensus) (layer : Z) : LayerState :=
  nth (Z.to_nat layer) (layers_ c) (mkLayerState 0 0 []).

(** [observe] after its checks. *)
Definition record_route (layer : Z) (routed cpu_experts : list Z) (c : RouteCensus) : RouteCensus :=
  let c := c <| observation_ %= fun n => saturated_add n 1 |> in
  let c := c <| completed_routes_ %= fun n => saturated_add n 1 |> in
  let c := c <| total_selections_ %= fun n => saturated_add n (Z.of_nat (length routed)) |> in
  let previous := previous_route (layer_at c layer) in
  let c :=
    if negb (observations (layer_at c layer) =? 0)
    then record_reuse layer previous routed (record_transitions layer previous routed c)
    else c in
  let c := c <| layers_ %= alter (fun l =>
      l <| observations %= fun n => saturated_add n 1 |> <| previous_route := routed |>)
      (Z.to_nat layer) |> in
  record_cells layer routed cpu_experts c.

Definition observe (layer : Z) (routed cpu_experts : list Z) (c : RouteCensus)
    : Status * RouteCensus :=
  if (layer >=? layer_count (config_ c)) ||
     negb (Z.of_nat (length routed) =? route_width (config_ c)) ||
     (length routed <? length cpu_experts)%nat
  then (mkStatus invalid_arg "invalid route census observation", c)
  else if negb (routed_valid (experts_per_layer (config_ c)) [] routed)
  then (mkStatus invalid_arg "route census expert is invalid or duplicated", c)
  else if negb (cpu_valid routed [] cpu_experts)
  then (mkStatus invalid_arg "route census CPU selection is not a unique routed expert", c)
  else (success, record_route layer routed cpu_experts c).

(** ** Queries *)

Record RouteCensusWarmEntry := mkWarmEntry {
  w_key : ExpertKey;
  total_selections : Z;
  effective_heat_q20 : Z;
  last_seen_observation : Z;
  cpu_selections : Z;
  gpu_selections : Z }.

(** [0, 1, ..., n-1] as a [std::uint32_t] loop runs through them. *)
Definition indices (n : Z) : list Z := map Z.of_nat (seq 0 (Z.to_nat n)).

Definition cell_at (c : RouteCensus) (layer expert : Z) : Cell :=
  nth (cell_index c layer expert) (cells_ c) empty_cell.

Definition warm_candidate (c : RouteCensus) (layer expert : Z) : option RouteCensusWarmEntry :=
  let cell := cell_at c layer expert in
  if total cell =? 0 then None
  else Some (mkWarmEntry
    (mkExpertKey (c_model_id (config_ c)) layer expert (c_encoding_abi (config_ c)))
    (total cell) (effective_heat c cell) (last_seen cell) (cpu cell) (gpu cell)).

Definition warm_candidates (c : RouteCensus) : list RouteCensusWarmEntry :=
  indices (layer_count (config_ c)) ≫= fun layer =>
  omap (warm_candidate c layer) (indices (experts_per_layer (config_ c))).

Definition warmer (a b : RouteCensusWarmEntry) : bool :=
  if negb (effective_heat_q20 a =? effective_heat_q20 b)
  then effective_heat_q20 a >? effective_heat_q20 b
  else if negb (total_selections a =? total_selections b)
  then total_selections a >? total_selections b
  else if negb (last_seen_observation a =? last_seen_observation b)
  then last_seen_observation a >? last_seen_observation b
  else key_ltb (w_key a) (w_key b).

(** The selection loop, with the entries chosen so far in [result]; the count of a layer
    is the number of its entries among them. *)
Definition chosen_of_layer (layer : Z) (result : list RouteCensusWarmEntry) : nat :=
  length (filter (fun e => Storage.layer (w_key e) = layer) result).

Fixpoint select_warm (maximum_entries maximum_per_layer : nat)
    (candidates result : list RouteCensusWarmEntry) : list RouteCensusWarmEntry :=
  match candidates with
  | [] => result
  | candidate :: candidates =>
    if (length result =? maximum_entries)%nat then result
    else if negb (maximum_per_layer =? 0)%nat &&
            (maximum_per_layer <=? chosen_of_layer (Storage.layer (w_key candidate)) result)%nat
    then select_warm maximum_entries maximum_per_layer candidates result
    else select_warm maximum_entries maximum_per_layer candidates (result ++ [candidate])
  end.

Definition stable_warm_set `{StdSort} (c : RouteCensus) (maximum_entries maximum_per_layer : nat)
    : list RouteCensusWarmEntry :=
  select_warm maximum_entries maximum_per_layer (std_sort warmer (warm_candidates c)) [].

Record RouteCensusPrediction := mkPrediction { p_key : ExpertKey; transition_score : Z }.

Definition transition_at (c : RouteCensus) (layer previous expert : Z) : Z :=
  nth (transition_index c layer previous expert) (transitions_ c) 0.

Definition prediction (c : RouteCensus) (layer : Z) (current_route : list Z) (candidate : Z)
    : option RouteCensusPrediction :=
  if bool_decide (candidate ∈ current_route) then None
  else
    let score := foldl (fun score previous =>
      saturated_add score (transition_at c layer previous candidate)) 0 current_route in
    if negb (score =? 0) then Some (mkPrediction
      (mkExpertKey (c_model_id (config_ c)) layer candidate (c_encoding_abi (config_ c))) score)
    else None.

Definition likelier (a b : RouteCensusPrediction) : bool :=
  if negb (transition_score a =? transition_score b)
  then transition_score a >? transition_score b
  else key_ltb (p_key a) (p_key b).

Definition predict_next `{StdSort} (c : RouteCensus) (layer : Z) (current_route : list Z)
    (maximum_entries : nat) : list RouteCensusPrediction :=
  if (layer >=? layer_count (config_ c)) ||
     negb (Z.of_nat (length current_route) =? route_width (config_ c)) ||
     (maximum_entries =? 0)%nat
  then []
  else if existsb (fun expert => expert >=? experts_per_layer (config_ c)) current_route then []
  else
    let candidates := std_sort likelier
      (omap (prediction c layer current_route) (indices (experts_per_layer (config_ c)))) in
    if (maximum_entries <? length candidates)%nat then take maximum_entries candidates
    else candidates.

Record RouteCensusSnapshot := mkSnapshot {
  s_generation : Z;
  s_completed_routes : Z;
  s_total_selections : Z;
  s_consecutive_reuse_selections : Z;
  observed_experts : Z;
  serialized_bytes : Z }.

Definition serialized_size (c : RouteCensus) : Z :=
  kFixedHeaderBytes + Z.of_nat (length (cells_ c)) * 48
  + Z.of_nat (length (layers_ c)) * (16 + route_width (config_ c) * 4)
  + 8 + Z.of_nat (length (transitions_ c)) * 4 + Z.of_nat kDigestBytes.

Definition snapshot (c : RouteCensus) : RouteCensusSnapshot :=
  mkSnapshot (generation_ c) (completed_routes_ c) (total_selections_ c)
    (consecutive_reuse_selections_ c)
    (Z.of_nat (length (filter (fun cell => total cell <> 0) (cells_ c)))) (serialized_size c).

(** ** The file format *)

Definition le_bytes (n : nat) (v : Z) : list Z :=
  map (fun i => Z.land (Z.shiftr v (8 * Z.of_nat i)) 0xff) (seq 0 n).

Definition append_u32 (output : list Z) (value : Z) : list Z := output ++ le_bytes 4 value.
Definition append_u64 (output : list Z) (value : Z) : list Z := output ++ le_bytes 8 value.

Definition cell_bytes (cell : Cell) : list Z :=
  append_u64 (append_u64 (append_u64 (append_u64 (append_u64 (append_u64 []
    (total cell)) (heat_q20 cell)) (heat_observation cell)) (last_seen cell)) (cpu cell)) (gpu cell).

Definition layer_bytes (l : LayerState) : list Z :=
  foldl append_u32 (append_u64 (append_u64 [] (observations l)) (consecutive_reuse l))
    (previous_route l).

Definition header_bytes (c : RouteCensus) (generation : Z) : list Z :=
  let output := append_u32 kMagic kVersion in
  let output := append_u64 output generation in
  let output := append_u64 output (c_model_id (config_ c)) in
  let output := append_u32 output (c_encoding_abi (config_ c)) in
  let output := append_u32 output (layer_count (config_ c)) in
  let output := append_u32 output (experts_per_layer (config_ c)) in
  let output := append_u32 output (route_width (config_ c)) in
  let output := append_u64 output (decay_interval_observations (config_ c)) in
  let output := output ++ model_content_hash (config_ c) in
  let output := append_u64 output (observation_ c) in
  let output := append_u64 output (completed_routes_ c) in
  let output := append_u64 output (total_selections_ c) in
  let output := append_u64 output (consecutive_reuse_selections_ c) in
  append_u64 output (Z.of_nat (length (cells_ c))).

(** Everything that is authenticated. *)
Definition body_bytes (c : RouteCensus) (generation : Z) : list Z :=
  let output := header_bytes c generation in
  let output := foldl (fun output cell => output ++ cell_bytes cell) output (cells_ c) in
  let output := foldl (fun output l => output ++ layer_bytes l) output (layers_ c) in
  let output := append_u64 output (Z.of_nat (length (transitions_ c))) in
  foldl append_u32 output (transitions_ c).

Definition serialize (c : RouteCensus) (generation : Z) : list Z :=
  let output := body_bytes c generation in output ++ sha256 output.

(** *** Reading

    A reader takes bytes from the front of what is left or fails with a status. *)

Definition Reader (A : Type) : Type := list Z -> (A * list Z) + Status.

Definition rbind {A B} (m : Reader A) (k : A -> Reader B) : Reader B :=
  fun b => match m b with inl (a, b) => k a b | inr s => inr s end.
Definition rret {A} (a : A) : Reader A := fun b => inl (a, b).
Definition rfail {A} (s : Status) : Reader A := fun _ => inr s.

Declare Scope reader_scope.
Notation "'read!' p ':=' m 'in' k" := (rbind m (fun p => k))
  (at level 10, p pattern, m at level 100, k at level 200) : reader_scope.
#[local] Open Scope reader_scope.

Fixpoint le_loop (shift value : Z) (l : list Z) : Z :=
  match l with
  | [] => value
  | b :: l => le_loop (shift + 8) (Z.lor value (Z.shiftl b shift)) l
  end.

(** [take_u32], [take_u64] and [take]: [s] is the status when the bytes run out. *)
Definition take_bytes (n : nat) (s : Status) : Reader (list Z) :=
  fun b => if (length b <? n)%nat then inr s else inl (take n b, drop n b).
Definition take_le (n : nat) (s : Status) : Reader Z :=
  read! b := take_bytes n s in rret (le_loop 0 0 b).
Definition take_u32 : Status -> Reader Z := take_le 4.
Definition take_u64 : Status -> Reader Z := take_le 8.

(** The same reader a number of times, as the loops over resized vectors do. *)
Fixpoint read_many {A} (n : nat) (m : Reader A) : Reader (list A) :=
  match n with
  | O => rret []
  | S n => read! a := m in read! l := read_many n m in rret (a :: l)
  end.

Definition kTruncated : Status := mkStatus io_failed "route census header is truncated".
Definition kIdentity : Status :=
  mkStatus invalid_arg "route census model or schema identity mismatch".
Definition kBadCell : Status := mkStatus io_failed "route census cell is invalid or truncated".
Definition kBadLayer : Status := mkStatus io_failed "route census layer state is invalid".
Definition kBadRoute : Status := mkStatus io_failed "route census previous route is invalid".
Definition kBadTransitionHeader : Status :=
  mkStatus io_failed "route census transition header is invalid".
Definition kBadTransitions : Status :=
  mkStatus io_failed "route census transition table is truncated".
Definition kAccounting : Status :=
  mkStatus io_failed "route census aggregate accounting mismatch".

Record Header := mkHeader {
  h_version : Z;
  h_generation : Z;
  h_model_id : Z;
  h_observation : Z;
  h_completed_routes : Z;
  h_total_selections : Z;
  h_consecutive_reuse : Z }.

Definition read_header (expected : RouteCensusConfig) : Reader Header :=
  let expected_cells := mul64 (layer_count expected) (experts_per_layer expected) in
  read! magic := take_bytes 8 kTruncated in
  read! version := take_u32 kTruncated in
  read! generation := take_u64 kTruncated in
  read! model_id := take_u64 kTruncated in
  read! encoding_abi := take_u32 kTruncated in
  read! layers := take_u32 kTruncated in
  read! experts := take_u32 kTruncated in
  read! width := take_u32 kTruncated in
  read! decay_interval := take_u64 kTruncated in
  read! model_hash := take_bytes 32 kTruncated in
  read! observation := take_u64 kTruncated in
  read! completed_routes := take_u64 kTruncated in
  read! total_selections := take_u64 kTruncated in
  read! consecutive_reuse := take_u64 kTruncated in
  read! cell_count := take_u64 kTruncated in
  if negb (bool_decide (magic = kMagic)) ||
     (negb (version =? kVersion) && negb (version =? kLegacyVersion)) ||
     (generation =? 0) ||
     negb (encoding_abi =? c_encoding_abi expected) ||
     negb (layers =? layer_count expected) ||
     negb (experts =? experts_per_layer expected) ||
     negb (width =? route_width expected) ||
     negb (decay_interval =? decay_interval_observations expected) ||
     negb (bool_decide (model_hash = model_content_hash expected)) ||
     negb (cell_count =? expected_cells)
  then rfail kIdentity
  else rret (mkHeader version generation model_id observation completed_routes total_selections
               consecutive_reuse).

Definition read_cell (observation : Z) : Reader Cell :=
  read! total := take_u64 kBadCell in
  read! heat_q20 := take_u64 kBadCell in
  read! heat_observation := take_u64 kBadCell in
  read! last_seen := take_u64 kBadCell in
  read! cpu := take_u64 kBadCell in
  read! gpu := take_u64 kBadCell in
  if (heat_observation >? observation) || (last_seen >? observation) ||
     (add64 cpu gpu <? cpu) || negb (add64 cpu gpu =? total)
  then rfail kBadCell
  else rret (mkCell total heat_q20 heat_observation last_seen cpu gpu).

Definition read_route_expert (expected : RouteCensusConfig) : Reader Z :=
  read! expert := take_u32 kBadRoute in
  if expert >=? experts_per_layer expected then rfail kBadRoute else rret expert.

Definition read_layer (expected : RouteCensusConfig) : Reader LayerState :=
  read! observations := take_u64 kBadLayer in
  read! reuse := take_u64 kBadLayer in
  if (observations >? U64_MAX / route_width expected) ||
     (reuse >? mul64 observations (route_width expected))
  then rfail kBadLayer
  else
    read! route := read_many (Z.to_nat (route_width expected)) (read_route_expert expected) in
    rret (mkLayerState observations reuse route).

Definition read_transitions (count : nat) : Reader (list Z) :=
  read! transition_count := take_u64 kBadTransitionHeader in
  if negb (transition_count =? Z.of_nat count) then rfail kBadTransitionHeader
  else read_many count (take_u32 kBadTransitions).

(** The authenticated part, into the census built for [expected]. *)
Definition read_census (expected : RouteCensusConfig) (census : RouteCensus)
    : Reader (RouteCensus * bool) :=
  read! h := read_header expected in
  read! cells := read_many (length (cells_ census)) (read_cell (h_observation h)) in
  read! layers := read_many (length (layers_ census)) (read_layer expected) in
  let observed_sum := foldl (fun sum l => saturated_add sum (observations l)) 0 layers in
  let reuse_sum := foldl (fun sum l => saturated_add sum (consecutive_reuse l)) 0 layers in
  read! transitions :=
    if h_version h =? kVersion then read_transitions (length (transitions_ census))
    else rret (transitions_ census) in
  let selection_sum := foldl (fun sum cell => saturated_add sum (total cell)) 0 cells in
  fun left_over =>
    if negb (bool_decide (left_over = [])) ||
       negb (h_observation h =? h_completed_routes h) ||
       negb (observed_sum =? h_completed_routes h) ||
       negb (selection_sum =? h_total_selections h) ||
       negb (reuse_sum =? h_consecutive_reuse h)
    then inr kAccounting
    else inl (mkRouteCensus expected cells layers transitions (h_generation h) (h_observation h)
                (h_completed_routes h) (h_total_selections h) (h_consecutive_reuse h),
              negb (h_model_id h =? c_model_id expected), left_over).

Record RouteCensusLoadResult := mkLoadResult {
  lr_status : Status;
  census : option RouteCensus;
  namespace_rebound : bool }.

Definition load_failed (s : Status) : RouteCensusLoadResult := mkLoadResult s None false.

(** [decode_file] on the bytes read. *)
Definition decode_bytes (expected : RouteCensusConfig) (b : list Z) : outcome RouteCensusLoadResult :=
  if (length b <=? kDigestBytes)%nat
  then Ok (load_failed (mkStatus checksum_mismatch "route census authentication is absent"))
  else
    let authenticated := take (length b - kDigestBytes) b in
    let stored_digest := drop (length b - kDigestBytes) b in
    if negb (constant_time_equal (sha256 authenticated) stored_digest)
    then Ok (load_failed (mkStatus checksum_mismatch "route census checksum mismatch"))
    else
      let! fresh := census_create expected in
      match read_census expected fresh authenticated with
      | inl (c, rebound, _) => Ok (mkLoadResult success (Some c) rebound)
      | inr s => Ok (load_failed s)
      end.

(** ** Files *)

Abbreviation Path := (list Z) (only parsing).

(** [readable p]: reading [p] does not fail. *)
Record Disk := mkDisk { files : gmap Path (list Z); readable : Path -> bool }.

#[export] Instance eta_Disk : Eta Disk := fun d => mkDisk (files d) (readable d).

Definition slot_path (prefix : Path) (slot : Z) : Path := prefix ++ Text.bytes "." ++ to_string slot.
Definition temporary_path (destination : Path) : Path := destination ++ Text.bytes ".tmp".

Definition decode_file (d : Disk) (path : Path) (expected : RouteCensusConfig)
    : outcome RouteCensusLoadResult :=
  let expected_cells := mul64 (layer_count expected) (experts_per_layer expected) in
  let expected_transitions := mul64 expected_cells (experts_per_layer expected) in
  let upper_bound :=
    add64 (add64 (add64 264 (mul64 expected_cells 48))
                 (mul64 (layer_count expected) (add64 16 (mul64 4 (route_width expected)))))
          (mul64 expected_transitions 4) in
  let size_error := Ok (load_failed (mkStatus io_failed "invalid route census file size")) in
  match files d !! path with
  | None => size_error
  | Some b =>
    let file_bytes := Z.of_nat (length b) in
    if (file_bytes <? 128) || (file_bytes >? upper_bound) then size_error
    else if negb (readable d path)
    then Ok (load_failed (mkStatus io_failed "route census read failed"))
    else decode_bytes expected b
  end.

(** One round of the loop of [load], with the newest census so far. *)
Definition load_slot (d : Disk) (prefix : Path) (expected : RouteCensusConfig) (slot : Z)
    (newest : RouteCensusLoadResult) : outcome RouteCensusLoadResult :=
  let path := slot_path prefix slot in
  if negb (bool_decide (is_Some (files d !! path))) then Ok newest
  else
    let! decoded := decode_file d path expected in
    match census decoded, census newest with
    | None, None => Ok (mkLoadResult (lr_status decoded) None false)
    | None, Some _ => Ok newest
    | Some c, None => Ok decoded
    | Some c, Some n => Ok (if generation_ c >? generation_ n then decoded else newest)
    end.

Definition load (d : Disk) (prefix : Path) (expected : RouteCensusConfig) : RouteCensusLoadResult :=
  if bool_decide (prefix = []) || negb (valid_config expected)
  then load_failed (mkStatus invalid_arg "invalid route census load contract")
  else
    match
      (let! first := load_slot d prefix expected 0
        (load_failed (mkStatus open_failed "no route census generation exists")) in
       load_slot d prefix expected 1 first)
    with
    | Ok r => r
    | Throw (invalid_argument what) => load_failed (mkStatus io_failed what)
    | Throw _ => load_failed (mkStatus io_failed "")
    end.

(** *** Saving *)

Inductive DiskAction :=
| Truncate (p : Path)
| Write (p : Path) (b : list Z)
| Remove (p : Path)
| Rename (from to : Path).

Definition apply_action (a : DiskAction) (d : Disk) : Disk :=
  match a with
  | Truncate p => d <| files %= <[p := []]> |>
  | Write p b => d <| files %= <[p := b]> |>
  | Remove p => d <| files %= delete p |>
  | Rename from to =>
    match files d !! from with
    | Some b => d <| files %= fun m => <[to := b]> (delete from m) |>
    | None => d
    end
  end.

Definition run_actions (l : list DiskAction) (d : Disk) : Disk :=
  foldl (fun d a => apply_action a d) d l.

Definition next_generation (c : RouteCensus) : Z := saturated_add (generation_ c) 1.
Definition destination (prefix : Path) (c : RouteCensus) : Path :=
  slot_path prefix (Z.land (next_generation c) 1).

(** What a save does to the files when every call succeeds. *)
Definition save_actions (prefix : Path) (c : RouteCensus) : list DiskAction :=
  let b := serialize c (next_generation c) in
  let dest := destination prefix c in
  let temporary := temporary_path dest in
  [Truncate temporary; Write temporary b; Remove dest; Rename temporary dest].

(** The calls of the file system that can fail, as they turned out; [None] for a write
    that succeeded, otherwise the part that reached the file. *)
Record SaveIo := mkSaveIo {
  directories_ok : bool;
  open_ok : bool;
  torn_write : option (list Z);
  rename_ok : bool }.

Definition save (io : SaveIo) (prefix : Path) (c : RouteCensus) (d : Disk)
    : Status * RouteCensus * Disk :=
  if bool_decide (prefix = [])
  then (mkStatus invalid_arg "route census prefix is empty", c, d)
  else
    let b := serialize c (next_generation c) in
    let dest := destination prefix c in
    let temporary := temporary_path dest in
    if negb (directories_ok io)
    then (mkStatus open_failed "route census directory creation failed", c, d)
    else if negb (open_ok io)
    then (mkStatus open_failed "route census temporary open failed", c, d)
    else
      match torn_write io with
      | Some part =>
        (mkStatus io_failed "route census write failed", c,
         run_actions [Truncate temporary; Write temporary part; Remove temporary] d)
      | None =>
        if negb (rename_ok io)
        then (mkStatus io_failed "route census publication failed", c,
              run_actions [Truncate temporary; Write temporary b; Remove dest; Remove temporary] d)
        else (success, c <| generation_ := next_generation c |>, run_actions (save_actions prefix c) d)
      end.
