(* ===== verification/RouteCensusInv.v ===== *)
(** The invariant of the route census: shapes, ranges and the agreement of every total
    with the sum it stands for, which every observation keeps as long as no counter can
    saturate. *)

From S2P Require Import Prelude.
From S2P Require Import Storage.
From S2P Require Import Text.
From S2P Require Import Sha256.
From S2P Require Import RouteCensus.

(** ** Sums over vectors *)

Lemma sumZ_fmap_cons {A} (f : A -> Z) x l : sumZ (f <$> x :: l) = f x + sumZ (f <$> l).
Proof. done. Qed.

Lemma sumZ_alter {A} (f : A -> Z) (g : A -> A) i (l : list A) x :
  l !! i = Some x -> sumZ (f <$> alter g i l) = sumZ (f <$> l) + (f (g x) - f x).
Proof.
  revert i. induction l as [|y l IH]; intros [|i] H; cbn in H; try done.
  - injection H as ->. change (alter g 0%nat (x :: l)) with (g x :: l). rewrite !sumZ_fmap_cons. lia.
  - change (alter g (S i) (y :: l)) with (y :: alter g i l). rewrite !sumZ_fmap_cons, (IH i H). lia.
Qed.

Lemma Forall_alter_at {A} (P : A -> Prop) (g : A -> A) i (l : list A) :
  Forall P l -> (forall x, l !! i = Some x -> P x -> P (g x)) -> Forall P (alter g i l).
Proof. intros Hl Hg. apply Forall_alter; [done|]. intros x Hx Hp. by apply Hg. Qed.

Lemma sumZ_elem {A} (f : A -> Z) (l : list A) i x :
  Forall (fun x => 0 <= f x) l -> l !! i = Some x -> f x <= sumZ (f <$> l).
Proof.
  intros Hl. revert i. induction Hl as [|y l Hy Hl IH]; intros [|i] H; cbn in H; try done.
  - injection H as ->. assert (0 <= sumZ (f <$> l)) by (apply sumZ_nonneg; by apply Forall_fmap).
    rewrite sumZ_fmap_cons. lia.
  - specialize (IH i H). rewrite sumZ_fmap_cons. lia.
Qed.

Lemma sumZ_replicate_zero {A} (f : A -> Z) n x : f x = 0 -> sumZ (f <$> replicate n x) = 0.
Proof. intros Hx. induction n as [|n IH]; [done|]. cbn [replicate]. rewrite sumZ_fmap_cons. lia. Qed.

(** ** Configurations *)

Definition config_types (c : RouteCensusConfig) : Prop :=
  u64 (c_model_id c) /\ Forall byte (model_content_hash c) /\
  length (model_content_hash c) = 32%nat /\ u32 (c_encoding_abi c) /\ u32 (layer_count c) /\
  u32 (experts_per_layer c) /\ u32 (route_width c) /\ u64 (decay_interval_observations c).

Definition config_ok (c : RouteCensusConfig) : Prop := config_types c /\ valid_config c = true.

(** What [valid_config] establishes, products included. *)
Record config_facts (c : RouteCensusConfig) : Prop := {
  f_model : c_model_id c <> 0;
  f_layers : 0 < layer_count c;
  f_experts : 0 < experts_per_layer c;
  f_width : 0 < route_width c <= experts_per_layer c;
  f_decay : 0 < decay_interval_observations c <= U64_MAX;
  f_cells : layer_count c * experts_per_layer c <= 1000000;
  f_transitions : layer_count c * experts_per_layer c * experts_per_layer c <= 8000000;
  f_mul_cells : mul64 (layer_count c) (experts_per_layer c) = layer_count c * experts_per_layer c }.

Lemma valid_config_facts c : config_ok c -> config_facts c.
Proof.
  intros [(Hm & _ & _ & Ha & Hl & He & Hw & Hd) Hv]. unfold u64, u32, U64_MAX, U32_MAX in *.
  unfold valid_config in Hv. repeat (apply andb_true_iff in Hv as [Hv ?]). zbool.
  assert (mul64 (layer_count c) (experts_per_layer c) = layer_count c * experts_per_layer c) as Em
    by (unfold mul64; apply wrap64_small; unfold u64, U64_MAX; nia).
  rewrite Em in *. unfold mul64 in *. rewrite wrap64_small in * by (unfold u64, U64_MAX; nia).
  split; unfold U64_MAX; try lia. unfold mul64. apply wrap64_small. unfold u64, U64_MAX. lia.
Qed.

Lemma nat_cells c :
  config_facts c ->
  (Z.to_nat (layer_count c) * Z.to_nat (experts_per_layer c))%nat
  = Z.to_nat (layer_count c * experts_per_layer c).
Proof. intros []. by rewrite Z2Nat.inj_mul by lia. Qed.

(** ** The invariant *)

Definition cell_ok (obs : Z) (cell : Cell) : Prop :=
  total cell = cpu cell + gpu cell /\ 0 <= cpu cell /\ 0 <= gpu cell /\ u64 (heat_q20 cell) /\
  0 <= heat_observation cell <= obs /\ 0 <= last_seen cell <= obs.

Definition layer_ok (cfg : RouteCensusConfig) (l : LayerState) : Prop :=
  0 <= observations l /\ 0 <= consecutive_reuse l <= observations l * route_width cfg /\
  Z.of_nat (length (previous_route l)) = route_width cfg /\
  Forall (fun e => 0 <= e < experts_per_layer cfg) (previous_route l).

Record census_ok (c : RouteCensus) : Prop := {
  ok_config : config_ok (config_ c);
  ok_cells : Z.of_nat (length (cells_ c)) = layer_count (config_ c) * experts_per_layer (config_ c);
  ok_layers : Z.of_nat (length (layers_ c)) = layer_count (config_ c);
  ok_transitions : Z.of_nat (length (transitions_ c))
    = layer_count (config_ c) * experts_per_layer (config_ c) * experts_per_layer (config_ c);
  ok_cell : Forall (cell_ok (observation_ c)) (cells_ c);
  ok_layer : Forall (layer_ok (config_ c)) (layers_ c);
  ok_transition : Forall u32 (transitions_ c);
  ok_generation : u64 (generation_ c);
  ok_observation : observation_ c = completed_routes_ c;
  ok_nonneg : 0 <= completed_routes_ c;
  ok_total : sumZ (total <$> cells_ c) = total_selections_ c;
  ok_selections : total_selections_ c = completed_routes_ c * route_width (config_ c);
  ok_observations : sumZ (observations <$> layers_ c) = completed_routes_ c;
  ok_reuse : sumZ (consecutive_reuse <$> layers_ c) = consecutive_reuse_selections_ c;
  ok_bound : completed_routes_ c * route_width (config_ c) <= U64_MAX }.

Lemma census_create_ok cfg : config_ok cfg -> exists c, census_create cfg = Ok c /\ census_ok c /\
  config_ c = cfg /\ generation_ c = 0 /\ completed_routes_ c = 0.
Proof.
  intros Hc. pose proof (valid_config_facts cfg Hc) as F. unfold census_create.
  destruct Hc as [Ht Hv]. rewrite Hv. cbn [negb]. eexists. split; [reflexivity|].
  split; [|done]. destruct F. split; simpl; rewrite ?length_replicate, ?Z2Nat.id by lia;
    try (rewrite !Nat2Z.inj_mul, !Z2Nat.id by lia); try done; try lia.
  - apply Forall_replicate. unfold cell_ok, u64, U64_MAX. simpl. lia.
  - apply Forall_replicate. unfold layer_ok. simpl. rewrite length_replicate, Z2Nat.id by lia.
    split_and!; try lia. apply Forall_replicate. lia.
  - apply Forall_replicate. unfold u32, U32_MAX. lia.
  - by apply sumZ_replicate_zero.
  - by apply sumZ_replicate_zero.
  - by apply sumZ_replicate_zero.
Qed.

(** ** The steps of an observation *)

Lemma saturated_add_small a b : a + b <= U64_MAX -> saturated_add a b = a + b.
Proof. intros H. unfold saturated_add. destruct (Z.gtb_spec b (U64_MAX - a)); lia. Qed.

Lemma saturated_add_u64 a b : u64 a -> u64 b -> u64 (saturated_add a b).
Proof. unfold u64, saturated_add. destruct (Z.gtb_spec b (U64_MAX - a)); lia. Qed.

Lemma effective_heat_le c cell :
  0 < decay_interval_observations (config_ c) -> 0 <= heat_q20 cell ->
  0 <= effective_heat c cell <= heat_q20 cell.
Proof.
  intros Hd Hh. unfold effective_heat. destruct (_ || _) eqn:E; [lia|].
  apply orb_false_iff in E as [_ E]. zbool. case_match; [lia|].
  assert (0 <= (observation_ c - heat_observation cell) / decay_interval_observations (config_ c))
    by (apply Z.div_pos; lia).
  rewrite Z.shiftr_div_pow2 by done. split; [apply Z.div_pos; [done|]; apply Z.pow_pos_nonneg; lia|].
  apply Z.div_le_upper_bound; [apply Z.pow_pos_nonneg; lia|].
  pose proof (Z.pow_pos_nonneg 2 ((observation_ c - heat_observation cell) /
    decay_interval_observations (config_ c)) ltac:(lia) ltac:(done)). nia.
Qed.

(** Recording transitions touches nothing but the table. *)
Lemma record_transitions_only layer p routed c :
  exists ts, record_transitions layer p routed c = c <| transitions_ := ts |> /\
    length ts = length (transitions_ c) /\ (Forall u32 (transitions_ c) -> Forall u32 ts).
Proof.
  assert (forall l c, exists ts,
    foldl (fun (c : RouteCensus) (i : nat) => c <| transitions_ %= alter bump_transition i |>) c l
      = c <| transitions_ := ts |> /\
    length ts = length (transitions_ c) /\ (Forall u32 (transitions_ c) -> Forall u32 ts)) as H.
  { clear. induction l as [|i l IH]; intros c; simpl.
    - exists (transitions_ c). by destruct c.
    - destruct (IH (c <| transitions_ %= alter bump_transition i |>)) as (ts & -> & Hl & Hu).
      exists ts. simpl in *. rewrite Hl, length_alter. split_and!; [done|done|]. intros Hc. apply Hu.
      apply Forall_alter_at; [done|]. intros x _ Hx. unfold bump_transition, u32, U32_MAX in *.
      destruct (Z.eqb_spec x (2 ^ 32 - 1)); simpl; lia. }
  specialize (H (p ≫= fun previous => map (transition_index c layer previous) routed) c).
  destruct H as (ts & H & Hts). exists ts. rewrite <- H. split; [|done]. clear.
  unfold record_transitions.
  assert (forall c', config_ c' = config_ c ->
    foldl (fun c previous => foldl (fun c expert =>
      c <| transitions_ %= alter bump_transition (transition_index c layer previous expert) |>) c routed) c' p
    = foldl (fun (c : RouteCensus) (i : nat) => c <| transitions_ %= alter bump_transition i |>) c'
        (p ≫= fun previous => map (transition_index c layer previous) routed)) as G; [|by apply G].
  induction p as [|a p IH]; intros c' Hc; [done|]. cbn [foldl]. rewrite bind_cons, foldl_app.
  assert (foldl (fun c expert =>
      c <| transitions_ %= alter bump_transition (transition_index c layer a expert) |>) c' routed
    = foldl (fun (c : RouteCensus) (i : nat) => c <| transitions_ %= alter bump_transition i |>) c'
        (map (transition_index c layer a) routed) /\
    config_ (foldl (fun c expert =>
      c <| transitions_ %= alter bump_transition (transition_index c layer a expert) |>) c' routed)
      = config_ c) as [<- Hc'].
  { clear IH. revert c' Hc. induction routed as [|e r IHr]; intros c' Hc; [done|]. cbn [foldl map].
    assert (transition_index c' layer a e = transition_index c layer a e) as ->
      by (unfold transition_index; by rewrite Hc). apply IHr. exact Hc. }
  by apply IH.
Qed.

(** Recording reuse adds one number, at most that of the routed experts, to the layer and
    to the whole. *)
Lemma record_reuse_effect layer p routed c l :
  layers_ c !! Z.to_nat layer = Some l ->
  consecutive_reuse l + Z.of_nat (length routed) <= U64_MAX ->
  consecutive_reuse_selections_ c + Z.of_nat (length routed) <= U64_MAX ->
  exists k, 0 <= k <= Z.of_nat (length routed) /\
    record_reuse layer p routed c =
      c <| layers_ := <[Z.to_nat layer := l <| consecutive_reuse := consecutive_reuse l + k |>]> (layers_ c) |>
        <| consecutive_reuse_selections_ := consecutive_reuse_selections_ c + k |>.
Proof.
  revert c l. induction routed as [|e r IH]; intros c l Hl Hb1 Hb2.
  - exists 0. split; [simpl; lia|]. cbn [record_reuse foldl]. rewrite !Z.add_0_r.
    destruct l, c. unfold Prelude.update. simpl in *. by rewrite list_insert_id.
  - cbn [record_reuse foldl]. cbn [length] in *. case_bool_decide as He.
    + set (l1 := l <| consecutive_reuse := consecutive_reuse l + 1 |>).
      assert (c <| layers_ %= alter (fun l => l <| consecutive_reuse %= fun n => saturated_add n 1 |>)
             (Z.to_nat layer) |> <| consecutive_reuse_selections_ %= fun n => saturated_add n 1 |>
        = c <| layers_ := <[Z.to_nat layer := l1]> (layers_ c) |>
            <| consecutive_reuse_selections_ := consecutive_reuse_selections_ c + 1 |>) as ->.
      { transitivity (c <| layers_ := alter (fun l => l <| consecutive_reuse %= fun n => saturated_add n 1 |>)
               (Z.to_nat layer) (layers_ c) |>
            <| consecutive_reuse_selections_ := saturated_add (consecutive_reuse_selections_ c) 1 |>); [done|].
        rewrite (list_alter_insert _ _ _ _ Hl), (saturated_add_small (consecutive_reuse_selections_ c))
          by lia.
        replace (l <| consecutive_reuse %= fun n => saturated_add n 1 |>) with l1; [done|].
        unfold l1, Prelude.update. cbv beta. by rewrite saturated_add_small by lia. }
      destruct (IH (c <| layers_ := <[Z.to_nat layer := l1]> (layers_ c) |>
            <| consecutive_reuse_selections_ := consecutive_reuse_selections_ c + 1 |>) l1) as (k & Hk & Hr).
      * apply list_lookup_insert_eq. by apply lookup_lt_Some in Hl.
      * unfold l1, Prelude.update. simpl. lia.
      * unfold Prelude.update. simpl. lia.
      * exists (k + 1). split; [lia|]. unfold record_reuse in Hr. rewrite Hr.
        destruct c, l. unfold l1, Prelude.update. simpl. rewrite list_insert_insert_eq. f_equal; [|lia].
        do 2 f_equal. lia.
    + destruct (IH c l Hl ltac:(lia) ltac:(lia)) as (k & Hk & Hr). exists k. split; [lia|]. exact Hr.
Qed.

(** One routed expert in its cell, field by field. *)
Lemma record_cell_eq c on_cpu cell :
  record_cell c on_cpu cell =
  mkCell (saturated_add (total cell) 1) (saturated_add (effective_heat c cell) kHeatUnitQ20)
    (observation_ c) (observation_ c)
    (if on_cpu then saturated_add (cpu cell) 1 else cpu cell)
    (if on_cpu then gpu cell else saturated_add (gpu cell) 1).
Proof. by destruct on_cpu. Qed.

Lemma record_cell_ok c on_cpu cell obs :
  0 < decay_interval_observations (config_ c) -> observation_ c = obs -> 0 <= obs ->
  cell_ok obs cell -> total cell + 1 <= U64_MAX ->
  cell_ok obs (record_cell c on_cpu cell) /\ total (record_cell c on_cpu cell) = total cell + 1.
Proof.
  intros Hd Ho Hobs (Ht & Hc & Hg & Hh & Hho & Hls) Hb.
  pose proof (effective_heat_le c cell Hd ltac:(unfold u64 in *; lia)) as He.
  assert (u64 (saturated_add (effective_heat c cell) kHeatUnitQ20)) as Hs.
  { apply saturated_add_u64; unfold u64, U64_MAX in *; [lia|].
    change kHeatUnitQ20 with 1048576. lia. }
  rewrite record_cell_eq. unfold cell_ok. simpl. rewrite Ho.
  destruct on_cpu; rewrite !saturated_add_small by lia; split_and!; try done; lia.
Qed.

Lemma record_cells_effect layer routed cpus c :
  0 < decay_interval_observations (config_ c) -> 0 <= observation_ c ->
  (forall e, e ∈ routed -> (cell_index c layer e < length (cells_ c))%nat) ->
  Forall (cell_ok (observation_ c)) (cells_ c) ->
  sumZ (total <$> cells_ c) + Z.of_nat (length routed) <= U64_MAX ->
  exists cs, record_cells layer routed cpus c = c <| cells_ := cs |> /\
    length cs = length (cells_ c) /\ Forall (cell_ok (observation_ c)) cs /\
    sumZ (total <$> cs) = sumZ (total <$> cells_ c) + Z.of_nat (length routed) /\
    (forall i, i ∉ map (cell_index c layer) routed -> cs !! i = cells_ c !! i) /\
    (NoDup (map (cell_index c layer) routed) -> forall e, e ∈ routed ->
      cs !! cell_index c layer e =
        record_cell c (bool_decide (e ∈ cpus)) <$> cells_ c !! cell_index c layer e).
Proof.
  revert c. induction routed as [|e r IH]; intros c Hd Ho Hi Hok Hb.
  - exists (cells_ c). simpl. split_and!; [by destruct c|done|done|lia|done|].
    intros _ e He. by apply elem_of_nil in He.
  - cbn [record_cells foldl]. cbn [length] in *.
    destruct (lookup_lt_is_Some_2 (cells_ c) (cell_index c layer e)) as [x Hx]; [apply Hi; set_solver|].
    assert (cell_ok (observation_ c) x) as Hxok by (eapply (proj1 (Forall_lookup _ _)); eauto).
    assert (total x <= sumZ (total <$> cells_ c)) as Hle.
    { eapply sumZ_elem; [|exact Hx]. eapply Forall_impl; [exact Hok|]. intros y (-> & ? & ? & _). lia. }
    destruct (record_cell_ok c (bool_decide (e ∈ cpus)) x (observation_ c) Hd eq_refl Ho Hxok)
      as [Hnew Htot]; [lia|].
    set (c1 := c <| cells_ %= alter (record_cell c (bool_decide (e ∈ cpus))) (cell_index c layer e) |>).
    assert (sumZ (total <$> cells_ c1) = sumZ (total <$> cells_ c) + 1) as Hsum.
    { unfold c1, Prelude.update. simpl. rewrite (sumZ_alter _ _ _ _ _ Hx). lia. }
    assert (length (cells_ c1) = length (cells_ c)) as Hlen by (unfold c1, Prelude.update; simpl; apply length_alter).
    destruct (IH c1) as (cs & E & Hl & Hf & Hs & Ha & Hn); [exact Hd|exact Ho| | |lia|].
    + intros e' He'. rewrite Hlen. apply (Hi e'). set_solver.
    + unfold c1, Prelude.update. simpl. apply Forall_alter_at; [done|]. intros y Hy _. by simplify_eq.
    + exists cs. unfold record_cells in E. rewrite E. split_and!; [done|congruence|exact Hf|lia| |].
      * intros i Hi'. cbn [map] in Hi'. rewrite not_elem_of_cons in Hi'. destruct Hi' as [Hi1 Hi2].
        rewrite (Ha i Hi2). unfold c1, Prelude.update. simpl. by apply list_lookup_alter_ne.
      * cbn [map]. intros [Hne Hnd]%NoDup_cons e' He'. apply elem_of_cons in He' as [->|He'].
        -- rewrite (Ha _ Hne). unfold c1, Prelude.update. simpl. apply list_lookup_alter_eq.
        -- change (cell_index c layer e') with (cell_index c1 layer e'). rewrite (Hn Hnd e' He').
           assert (cell_index c1 layer e' <> cell_index c layer e) as Hdiff.
           { intros Heq. apply Hne. rewrite <- Heq. by apply list_elem_of_fmap_2. }
           change (record_cell c1) with (record_cell c). f_equal.
           unfold c1, Prelude.update. simpl. by apply list_lookup_alter_ne.
Qed.

(** ** Observation keeps the invariant *)

Lemma routed_valid_spec experts seen l :
  routed_valid experts seen l = true <->
  Forall (fun e => e < experts) l /\ NoDup l /\ (forall e, e ∈ l -> e ∉ seen).
Proof.
  revert seen. induction l as [|e l IH]; intros seen; cbn [routed_valid].
  - split; [intros _; split_and!; [done|constructor|set_solver]|done].
  - rewrite Forall_cons, NoDup_cons.
    destruct (Z.geb_spec e experts); [split; [done|intros ((? & _) & _); lia]|]. cbn [orb].
    case_bool_decide as Hs; [split; [done|set_solver]|]. rewrite IH. split.
    + intros (H1 & H2 & H3). split_and!; [lia|done|set_solver|done|set_solver].
    + intros ((_ & H1) & (H2 & H3) & H4). split_and!; [done|done|set_solver].
Qed.

Lemma cpu_valid_spec routed seen l :
  cpu_valid routed seen l = true <->
  (forall e, e ∈ l -> e ∈ routed) /\ NoDup l /\ (forall e, e ∈ l -> e ∉ seen).
Proof.
  revert seen. induction l as [|e l IH]; intros seen; cbn [cpu_valid].
  - split; [intros _; split_and!; [set_solver|constructor|set_solver]|done].
  - rewrite NoDup_cons. case_bool_decide as Hr; cbn [negb orb]; [|split; [done|set_solver]].
    case_bool_decide as Hs; [split; [done|set_solver]|]. rewrite IH. set_solver.
Qed.

(** The arguments [observe] accepts. *)
Definition observation_valid (c : RouteCensus) (layer : Z) (routed cpus : list Z) : Prop :=
  layer < layer_count (config_ c) /\ Z.of_nat (length routed) = route_width (config_ c) /\
  Forall (fun e => e < experts_per_layer (config_ c)) routed /\ NoDup routed /\
  (forall e, e ∈ cpus -> e ∈ routed) /\ NoDup cpus.

Lemma observe_valid c layer routed cpus :
  observation_valid c layer routed cpus ->
  observe layer routed cpus c = (success, record_route layer routed cpus c).
Proof.
  intros (Hl & Hw & He & Hn & Hc & Hcn). unfold observe.
  destruct (Z.geb_spec layer (layer_count (config_ c))); [lia|].
  rewrite (proj2 (Z.eqb_eq _ _) Hw). cbn [negb orb].
  assert (length cpus <= length routed)%nat by (apply submseteq_length, NoDup_submseteq; [done|set_solver]).
  rewrite (proj2 (Nat.ltb_ge _ _)) by done.
  rewrite (proj2 (routed_valid_spec _ _ _)) by (split_and!; [done|done|set_solver]). cbn [negb].
  by rewrite (proj2 (cpu_valid_spec _ _ _)) by (split_and!; [done|done|set_solver]).
Qed.

Lemma observe_invalid c layer routed cpus :
  ~ observation_valid c layer routed cpus ->
  exists m, observe layer routed cpus c = (mkStatus invalid_arg m, c).
Proof.
  intros Hn. unfold observe.
  destruct (Z.geb_spec layer (layer_count (config_ c))) as [|Hl]; [by eexists|].
  destruct (Z.eqb_spec (Z.of_nat (length routed)) (route_width (config_ c))) as [Hw|]; [|by eexists].
  cbn [negb orb]. destruct (_ <? _)%nat; [by eexists|].
  destruct (routed_valid _ _ _) eqn:Hr; [|by eexists].
  destruct (cpu_valid _ _ _) eqn:Hc; [|by eexists]. destruct Hn.
  apply routed_valid_spec in Hr as (? & ? & _). apply cpu_valid_spec in Hc as (? & ? & _).
  split_and!; try done; lia.
Qed.

Lemma cell_index_lt c layer e :
  census_ok c -> 0 <= layer < layer_count (config_ c) -> 0 <= e < experts_per_layer (config_ c) ->
  (cell_index c layer e < length (cells_ c))%nat.
Proof. intros H Hl He. pose proof (ok_cells c H). unfold cell_index. nia. Qed.

Lemma sumZ_insert {A} (f : A -> Z) i (l : list A) x y :
  l !! i = Some x -> sumZ (f <$> <[i := y]> l) = sumZ (f <$> l) + (f y - f x).
Proof.
  intros H. rewrite <- (sumZ_alter f (fun _ => y) i l x H).
  by rewrite (list_alter_insert _ _ _ _ H).
Qed.

(** One more observation moves the clock past what the cells hold. *)
Lemma cell_ok_later obs obs' cell : obs <= obs' -> cell_ok obs cell -> cell_ok obs' cell.
Proof. unfold cell_ok. intuition lia. Qed.

Lemma sumZ_le_mul {A} (f g : A -> Z) w (l : list A) :
  Forall (fun x => f x <= g x * w) l -> sumZ (f <$> l) <= sumZ (g <$> l) * w.
Proof. induction 1 as [|x l Hx _ IH]; [done|]. rewrite !sumZ_fmap_cons. lia. Qed.

Section Record.
Context (c : RouteCensus) (layer : Z) (routed cpus : list Z).
Context (Hok : census_ok c) (Hlayer : 0 <= layer) (Hpos : Forall (fun e => 0 <= e) routed).
Context (Hvalid : observation_valid c layer routed cpus).
Context (Hbound : (completed_routes_ c + 1) * route_width (config_ c) <= U64_MAX).

(** The layer that is observed, and what its counts leave room for. *)
Lemma observed_layer :
  exists l, layers_ c !! Z.to_nat layer = Some l /\ layer_ok (config_ c) l /\
    observations l <= completed_routes_ c /\
    consecutive_reuse l + Z.of_nat (length routed) <= U64_MAX /\
    consecutive_reuse_selections_ c + Z.of_nat (length routed) <= U64_MAX /\
    completed_routes_ c + 1 <= U64_MAX.
Proof.
  destruct Hvalid as (Hl & Hw & _). pose proof (valid_config_facts _ (ok_config c Hok)) as F.
  destruct (f_width _ F) as [Hwp _].
  destruct (lookup_lt_is_Some_2 (layers_ c) (Z.to_nat layer)) as [l El];
    [pose proof (ok_layers c Hok); lia|].
  assert (layer_ok (config_ c) l) as Hlok by (eapply (proj1 (Forall_lookup _ _) (ok_layer c Hok)); eauto).
  assert (observations l <= completed_routes_ c) as Hobs.
  { rewrite <- (ok_observations c Hok). eapply sumZ_elem; [|exact El].
    eapply Forall_impl; [exact (ok_layer c Hok)|]. by intros x (? & _). }
  pose proof (ok_nonneg c Hok).
  assert (consecutive_reuse_selections_ c <= completed_routes_ c * route_width (config_ c)) as Hr.
  { rewrite <- (ok_reuse c Hok), <- (ok_observations c Hok). apply sumZ_le_mul.
    eapply Forall_impl; [exact (ok_layer c Hok)|]. intros x (_ & ? & _). lia. }
  exists l. destruct Hlok as (? & ? & Hrest). split_and!; try done; nia.
Qed.

(** What an observation leaves, field by field. *)
Lemma record_route_shape l :
  layers_ c !! Z.to_nat layer = Some l ->
  exists ts k cs,
    record_route layer routed cpus c =
      mkRouteCensus (config_ c) cs
        (<[Z.to_nat layer := mkLayerState (observations l + 1) (consecutive_reuse l + k) routed]> (layers_ c))
        ts (generation_ c) (observation_ c + 1) (completed_routes_ c + 1)
        (RouteCensus.total_selections_ c + Z.of_nat (length routed))
        (consecutive_reuse_selections_ c + k) /\
    length ts = length (transitions_ c) /\ Forall u32 ts /\
    0 <= k <= Z.of_nat (length routed) /\
    length cs = length (cells_ c) /\ Forall (cell_ok (observation_ c + 1)) cs /\
    sumZ (total <$> cs) = sumZ (total <$> cells_ c) + Z.of_nat (length routed) /\
    (forall i, i ∉ map (cell_index c layer) routed -> cs !! i = cells_ c !! i) /\
    (NoDup (map (cell_index c layer) routed) -> forall e, e ∈ routed ->
      cs !! cell_index c layer e =
        record_cell (c <| observation_ := observation_ c + 1 |>) (bool_decide (e ∈ cpus))
          <$> cells_ c !! cell_index c layer e).
Proof.
  intros El. destruct observed_layer as (l' & El' & Hlok & Hobs & Hb1 & Hb2 & Hb3). simplify_eq.
  pose proof (valid_config_facts _ (ok_config c Hok)) as F. destruct (f_width _ F) as [Hwp _].
  pose proof (f_decay _ F) as Hdec.
  destruct Hvalid as (Hl & Hw & He & _). pose proof (ok_nonneg c Hok) as Hn.
  assert (layer_at c layer = l) as Hat by (unfold layer_at; by apply nth_lookup_Some).
  unfold record_route.
  set (c1 := c <| observation_ %= fun n => saturated_add n 1 |>
    <| completed_routes_ %= fun n => saturated_add n 1 |>
    <| total_selections_ %= fun n => saturated_add n (Z.of_nat (length routed)) |>).
  assert (c1 = mkRouteCensus (config_ c) (cells_ c) (layers_ c) (transitions_ c) (generation_ c)
    (observation_ c + 1) (completed_routes_ c + 1)
    (RouteCensus.total_selections_ c + Z.of_nat (length routed)) (consecutive_reuse_selections_ c)) as Ec1.
  { unfold c1, Prelude.update. simpl. pose proof (ok_observation c Hok) as Ho.
    pose proof (ok_selections c Hok) as Hs.
    rewrite !saturated_add_small; [done|..]; nia. }
  change (layer_at c1 layer) with (layer_at c layer). rewrite Hat.
  assert (exists ts k,
    (if negb (observations l =? 0)
     then record_reuse layer (previous_route l) routed (record_transitions layer (previous_route l) routed c1)
     else c1)
    = mkRouteCensus (config_ c) (cells_ c)
        (<[Z.to_nat layer := l <| consecutive_reuse := consecutive_reuse l + k |>]> (layers_ c)) ts
        (generation_ c) (observation_ c + 1) (completed_routes_ c + 1)
        (RouteCensus.total_selections_ c + Z.of_nat (length routed)) (consecutive_reuse_selections_ c + k) /\
    length ts = length (transitions_ c) /\ Forall u32 ts /\ 0 <= k <= Z.of_nat (length routed))
    as (ts & k & -> & Hts1 & Hts2 & Hk).
  { destruct (negb (observations l =? 0)).
    - destruct (record_transitions_only layer (previous_route l) routed c1) as (ts & Et & Hl1 & Hu).
      rewrite Et, Ec1. rewrite Ec1 in Hl1, Hu. clear Et.
      destruct (record_reuse_effect layer (previous_route l) routed
        (mkRouteCensus (config_ c) (cells_ c) (layers_ c) ts (generation_ c)
          (observation_ c + 1) (completed_routes_ c + 1)
          (RouteCensus.total_selections_ c + Z.of_nat (length routed)) (consecutive_reuse_selections_ c)) l El Hb1 Hb2) as (k & Hk & Er).
      exists ts, k. split_and!; [exact Er|done|apply Hu, (ok_transition c Hok)|lia|lia].
    - exists (transitions_ c), 0. rewrite Ec1, !Z.add_0_r. split_and!; [|done|apply (ok_transition c Hok)|lia|lia].
      f_equal. destruct l. symmetry. by apply list_insert_id. }
  set (l2 := mkLayerState (observations l + 1) (consecutive_reuse l + k) routed).
  match goal with |- context [record_cells _ _ _ ?x] => set (c3 := x) end.
  assert (c3 = mkRouteCensus (config_ c) (cells_ c) (<[Z.to_nat layer := l2]> (layers_ c)) ts
        (generation_ c) (observation_ c + 1) (completed_routes_ c + 1)
        (RouteCensus.total_selections_ c + Z.of_nat (length routed)) (consecutive_reuse_selections_ c + k)) as Ec3.
  { unfold c3, Prelude.update. cbn [config_ cells_ layers_ transitions_ generation_ observation_
      completed_routes_ total_selections_ consecutive_reuse_selections_]. f_equal.
    erewrite list_alter_insert by (apply list_lookup_insert_eq; by apply lookup_lt_Some in El).
    rewrite list_insert_insert_eq. f_equal. unfold l2. simpl. by rewrite saturated_add_small by lia. }
  rewrite Ec3. clear c3 Ec3.
  destruct (record_cells_effect layer routed cpus
    (mkRouteCensus (config_ c) (cells_ c) (<[Z.to_nat layer := l2]> (layers_ c)) ts
        (generation_ c) (observation_ c + 1) (completed_routes_ c + 1)
        (RouteCensus.total_selections_ c + Z.of_nat (length routed)) (consecutive_reuse_selections_ c + k)))
    as (cs & -> & Hcl & Hcf & Hcs & Hca & Hcn).
  - simpl. lia.
  - simpl. rewrite (ok_observation c Hok). lia.
  - intros e Hin. apply (cell_index_lt c layer e Hok); [lia|].
    rewrite Forall_forall in He, Hpos. auto.
  - simpl. eapply Forall_impl; [exact (ok_cell c Hok)|]. intros x. apply cell_ok_later. lia.
  - simpl. rewrite (ok_total c Hok), (ok_selections c Hok). nia.
  - exists ts, k, cs. split_and!; [done|done|done|lia|lia|done|done|done|exact Hca|exact Hcn].
Qed.

Lemma record_route_ok :
  census_ok (record_route layer routed cpus c) /\
  config_ (record_route layer routed cpus c) = config_ c /\
  generation_ (record_route layer routed cpus c) = generation_ c /\
  completed_routes_ (record_route layer routed cpus c) = completed_routes_ c + 1.
Proof.
  destruct observed_layer as (l & El & (Hl1 & Hl2 & Hl3 & Hl4) & Hobs & Hb1 & Hb2 & Hb3).
  destruct (record_route_shape l El) as (ts & k & cs & -> & Hts1 & Hts2 & Hk & Hcl & Hcf & Hcs & _).
  destruct Hvalid as (Hl & Hw & He & _). split; [|done].
  pose proof (ok_nonneg c Hok). split; simpl.
  - apply (ok_config c Hok).
  - rewrite Hcl. apply (ok_cells c Hok).
  - rewrite length_insert. apply (ok_layers c Hok).
  - rewrite Hts1. apply (ok_transitions c Hok).
  - done.
  - apply Forall_insert; [apply (ok_layer c Hok)|]. split_and!; simpl; [lia|lia|lia|done|].
    rewrite Forall_forall in *. auto.
  - done.
  - apply (ok_generation c Hok).
  - by rewrite (ok_observation c Hok).
  - lia.
  - rewrite Hcs, (ok_total c Hok). done.
  - rewrite (ok_selections c Hok), Hw. lia.
  - rewrite (sumZ_insert _ _ _ _ _ El), (ok_observations c Hok). simpl. lia.
  - rewrite (sumZ_insert _ _ _ _ _ El), (ok_reuse c Hok). simpl. lia.
  - done.
Qed.
End Record.
