(* ===== verification/RouteCensusWarm.v ===== *)
(** What the queries of the route census return: the warm set is the hottest set within
    its bounds, and predictions are the likeliest successors. *)

From S2P Require Import Prelude.
From S2P Require Import Storage.
From S2P Require Import Text.
From S2P Require Import RouteCensus.

(** ** The orders *)

(** Descending by a number, then by another order. *)
Lemma swo_descending {A} (f : A -> Z) (next : A -> A -> bool) :
  StrictWeakOrder next ->
  StrictWeakOrder (fun a b => if negb (f a =? f b) then f a >? f b else next a b).
Proof.
  intros [Ha Ht]. split.
  - intros x y. destruct (Z.eqb_spec (f x) (f y)) as [E|E]; simpl.
    + rewrite E, Z.eqb_refl. simpl. apply Ha.
    + rewrite (proj2 (Z.eqb_neq (f y) (f x))) by congruence. simpl. rewrite !Z.gtb_ltb.
      intros H%Z.ltb_lt. apply Z.ltb_ge. lia.
  - intros x y z. destruct (Z.eqb_spec (f y) (f x)), (Z.eqb_spec (f z) (f y)),
      (Z.eqb_spec (f z) (f x)); simpl; rewrite ?Z.gtb_ltb, ?Z.ltb_ge; try lia. apply Ht.
Qed.

Lemma swo_on {A B} (f : A -> B) (ltb : B -> B -> bool) :
  StrictWeakOrder ltb -> StrictWeakOrder (fun a b => ltb (f a) (f b)).
Proof. intros [Ha Ht]. split; intros; [by apply Ha|by eapply Ht]. Qed.

#[export] Instance key_order : StrictWeakOrder key_ltb.
Proof. split; intros; key_cases. Qed.

#[export] Instance warmer_order : StrictWeakOrder warmer.
Proof.
  apply (swo_descending effective_heat_q20), (swo_descending total_selections),
    (swo_descending last_seen_observation), (swo_on w_key). apply _.
Qed.

#[export] Instance likelier_order : StrictWeakOrder likelier.
Proof. apply (swo_descending transition_score), (swo_on p_key). apply _. Qed.

(** ** The selection *)

(** [a] comes no later than [b]. *)
Definition no_later (a b : RouteCensusWarmEntry) : Prop := warmer b a = false.

Section Select.
Context (n p : nat).

(** Why [x] was left out of [r]. *)
Definition left_out (r : list RouteCensusWarmEntry) (x : RouteCensusWarmEntry) : Prop :=
  (length r = n /\ forall y, y ∈ r -> no_later y x) \/
  (p <> O /\ exists first, first `prefix_of` r /\
    chosen_of_layer (Storage.layer (w_key x)) first = p /\
    forall y, y ∈ first -> no_later y x).

Definition within (r : list RouteCensusWarmEntry) : Prop :=
  (length r <= n)%nat /\ (p <> O -> forall layer, (chosen_of_layer layer r <= p)%nat).

Lemma chosen_snoc layer r x :
  chosen_of_layer layer (r ++ [x]) =
  (chosen_of_layer layer r + if decide (Storage.layer (w_key x) = layer) then 1 else 0)%nat.
Proof.
  unfold chosen_of_layer. rewrite filter_app, length_app. f_equal.
  rewrite filter_cons, filter_nil. by case_decide.
Qed.

Lemma select_warm_spec cands r :
  within r -> StronglySorted no_later (r ++ cands) ->
  let s := select_warm n p cands r in
  within s /\ StronglySorted no_later s /\ r `prefix_of` s /\ s `sublist_of` r ++ cands /\
  (forall x, x ∈ cands -> x ∈ s \/ left_out s x).
Proof.
  revert r. induction cands as [|c cands IH]; intros r Hr Hs; cbn [select_warm].
  - rewrite app_nil_r in Hs. split_and!; try done; [by rewrite app_nil_r|].
    intros x Hx. by apply elem_of_nil in Hx.
  - destruct Hr as [Hr1 Hr2].
    assert (StronglySorted no_later r /\ forall y x, y ∈ r -> x ∈ c :: cands -> no_later y x) as [Hsr Hbefore].
    { clear - Hs. induction r as [|a r IH]; simpl in *; [split; [constructor|intros y x Hy; inversion Hy]|].
      inversion Hs as [|? ? Hs' Hall]; subst. destruct (IH Hs') as [H1 H2].
      apply Forall_app in Hall as [Hall1 Hall2]. split; [by constructor|].
      intros y x Hy Hx. apply elem_of_cons in Hy as [->|Hy]; [|by apply H2].
      rewrite Forall_forall in Hall2. auto. }
    destruct (Nat.eqb_spec (length r) n) as [Hn|Hn].
    + split_and!; try done; [by apply sublist_inserts_r|]. intros x Hx. right. left.
      split; [done|]. intros y Hy. by apply Hbefore.
    + destruct (negb (p =? 0)%nat && (p <=? chosen_of_layer (Storage.layer (w_key c)) r)%nat) eqn:E.
      * apply andb_true_iff in E as [E1 E2]. apply negb_true_iff, Nat.eqb_neq in E1.
        apply Nat.leb_le in E2. specialize (IH r (conj Hr1 Hr2)).
        destruct IH as (H1 & H2 & H3 & H4 & H5).
        { clear - Hs. revert Hs. induction r as [|a r IH]; simpl; intros Hs; inversion Hs as [|? ? Hs' Hall]; subst.
          - done.
          - constructor; [by apply IH|]. rewrite Forall_app in *. destruct Hall as [? Hall].
            split; [done|]. by apply Forall_cons in Hall as [_ ?]. }
        refine (conj H1 (conj H2 (conj H3 (conj _ _)))).
        { etrans; [exact H4|]. apply sublist_app; [done|]. by apply sublist_cons. }
        intros x Hx. apply elem_of_cons in Hx as [->|Hx]; [|by apply H5]. right. right.
        split; [done|]. exists r. split; [done|]. split; [|intros y Hy; apply Hbefore; [done|constructor]].
        specialize (Hr2 E1 (Storage.layer (w_key c))). lia.
      * specialize (IH (r ++ [c])). rewrite <- app_assoc in IH.
        destruct IH as (H1 & H2 & H3 & H4 & H5); [|exact Hs|].
        { split; [rewrite length_app; simpl; lia|]. intros Hp layer. rewrite chosen_snoc.
          specialize (Hr2 Hp layer). case_decide as Hl; [subst layer|lia].
          apply andb_false_iff in E as [E|E].
          - by apply negb_false_iff, Nat.eqb_eq in E.
          - apply Nat.leb_gt in E. lia. }
        refine (conj H1 (conj H2 (conj _ (conj H4 _)))).
        { etrans; [|exact H3]. by apply prefix_app_r. }
        intros x Hx. apply elem_of_cons in Hx as [->|Hx]; [|by apply H5]. left.
        destruct H3 as [k ->]. set_solver.
Qed.
End Select.

Lemma StronglySorted_nil_before : StronglySorted no_later [].
Proof. constructor. Qed.

Lemma elem_of_indices n x : 0 <= n -> x ∈ indices n <-> 0 <= x < n.
Proof.
  intros Hn. unfold indices. rewrite list_elem_of_In, in_map_iff. split.
  - intros (i & <- & Hi). apply in_seq in Hi. lia.
  - intros Hx. exists (Z.to_nat x). split; [lia|]. apply in_seq. lia.
Qed.

(** The candidates are the entries of the experts that were ever selected. *)
Lemma elem_of_warm_candidates c e :
  0 <= layer_count (config_ c) -> 0 <= experts_per_layer (config_ c) ->
  e ∈ warm_candidates c <->
  exists l x, 0 <= l < layer_count (config_ c) /\ 0 <= x < experts_per_layer (config_ c) /\
    warm_candidate c l x = Some e.
Proof.
  intros Hl He. unfold warm_candidates. rewrite list_elem_of_bind. split.
  - intros (l & Hin & Hli). apply elem_of_indices in Hli; [|done].
    apply list_elem_of_omap in Hin as (x & Hx & E). apply elem_of_indices in Hx; [|done]. by exists l, x.
  - intros (l & x & Hli & Hx & E). exists l. split; [|by apply elem_of_indices].
    apply list_elem_of_omap. exists x. split; [by apply elem_of_indices|done].
Qed.

(** The warm set holds entries of experts that were selected, hottest first, within
    the total and the per-layer bound. Whatever it leaves out is justified: either the
    set is full of entries at least as warm, or the layer of the expert already had its
    share, all of it at least as warm. *)
Theorem stable_warm_set_spec `{StdSort, !StdSortSpec _} c maximum_entries maximum_per_layer :
  let s := stable_warm_set c maximum_entries maximum_per_layer in
  (length s <= maximum_entries)%nat /\
  (maximum_per_layer <> O -> forall layer, (chosen_of_layer layer s <= maximum_per_layer)%nat) /\
  StronglySorted no_later s /\ s ⊆+ warm_candidates c /\
  forall x, x ∈ warm_candidates c -> x ∈ s \/ left_out maximum_entries maximum_per_layer s x.
Proof.
  pose proof (std_sort_perm warmer (warm_candidates c)) as Hp.
  pose proof (std_sort_sorted warmer (warm_candidates c) _) as Hs.
  destruct (select_warm_spec maximum_entries maximum_per_layer (std_sort warmer (warm_candidates c)) [])
    as ([H1 H2] & H3 & _ & H5 & H6).
  - split; [simpl; lia|]. intros _ layer. unfold chosen_of_layer. rewrite filter_nil. simpl. lia.
  - exact Hs.
  - unfold stable_warm_set. split_and!; [exact H1|exact H2|exact H3| |].
    + etrans; [by apply sublist_submseteq|]. simpl. by rewrite Hp.
    + intros x Hx. apply H6. by rewrite Hp.
Qed.
