(* ===== verification/RouteCensusFile.v ===== *)
(** The files of the route census: what is written is read back, and no interruption of
    a save loses the newest complete generation.

    [consumes m w a]: on any input that begins with [w], the reader [m] takes exactly
    [w] and returns [a]. *)

From S2P Require Import Prelude.
From S2P Require Import Storage.
From S2P Require Import Text.
From S2P Require Import Sha256.
From S2P Require Import RouteCensus.
From S2P Require Import RouteCensusInv.

#[local] Open Scope reader_scope.

(** ** Little-endian integers *)

Lemma length_le_bytes n v : length (le_bytes n v) = n.
Proof. unfold le_bytes. by rewrite length_map, length_seq. Qed.

Lemma le_bytes_byte n v : Forall byte (le_bytes n v).
Proof.
  unfold le_bytes. apply Forall_forall. intros b Hb. apply list_elem_of_In, in_map_iff in Hb as (i & <- & _).
  change 0xff with (Z.ones 8). rewrite Z.land_ones by lia. change (2 ^ 8) with 256.
  unfold byte. pose proof (Z.mod_pos_bound (Z.shiftr v (8 * Z.of_nat i)) 256). lia.
Qed.

Lemma le_loop_bytes v k n :
  0 <= v ->
  le_loop (8 * Z.of_nat k) (v mod 2 ^ (8 * Z.of_nat k))
    (map (fun i => Z.land (Z.shiftr v (8 * Z.of_nat i)) 0xff) (seq k n))
  = v mod 2 ^ (8 * Z.of_nat (k + n)).
Proof.
  intros Hv. revert k. induction n as [|n IH]; intros k; cbn [seq map le_loop].
  - by rewrite Nat.add_0_r.
  - replace (8 * Z.of_nat k + 8) with (8 * Z.of_nat (S k)) by lia.
    replace (k + S n)%nat with (S k + n)%nat by lia. rewrite <- IH. f_equal.
    change 0xff with (Z.ones 8). rewrite Z.land_ones, Z.shiftr_div_pow2 by lia.
    pose proof (Z.mod_pos_bound v (2 ^ (8 * Z.of_nat k)) ltac:(lia)) as Hm.
    rewrite Z.lor_comm, lor_disjoint by lia. rewrite Z.shiftl_mul_pow2 by lia.
    replace (8 * Z.of_nat (S k)) with (8 * Z.of_nat k + 8) by lia. rewrite Z.pow_add_r by lia.
    rewrite Z.rem_mul_r by (try apply Z.pow_nonzero; lia). change (2 ^ 8) with 256. lia.
Qed.

Lemma le_value_bytes n v : 0 <= v < 2 ^ (8 * Z.of_nat n) -> le_loop 0 0 (le_bytes n v) = v.
Proof.
  intros Hv. pose proof (le_loop_bytes v 0 n ltac:(lia)) as H.
  change (8 * Z.of_nat 0) with 0 in H. change (2 ^ 0) with 1 in H. rewrite Z.mod_1_r in H.
  unfold le_bytes. rewrite H. by apply Z.mod_small.
Qed.

(** ** Readers *)

Definition consumes {A} (m : Reader A) (w : list Z) (a : A) : Prop :=
  forall k, m (w ++ k) = inl (a, k).

Lemma consumes_ret {A} (a : A) : consumes (rret a) [] a.
Proof. done. Qed.

Lemma consumes_bind {A B} (m : Reader A) (f : A -> Reader B) w1 w2 a b :
  consumes m w1 a -> consumes (f a) w2 b -> consumes (rbind m f) (w1 ++ w2) b.
Proof. intros H1 H2 k. unfold rbind. by rewrite <- app_assoc, H1, H2. Qed.

Lemma consumes_last {A B} (m : Reader A) (f : A -> Reader B) w a b :
  consumes m w a -> consumes (f a) [] b -> consumes (rbind m f) w b.
Proof. intros H1 H2. rewrite <- (app_nil_r w). by eapply consumes_bind. Qed.

Lemma consumes_take_bytes w s : consumes (take_bytes (length w) s) w w.
Proof.
  intros k. unfold take_bytes. rewrite length_app.
  rewrite (proj2 (Nat.ltb_ge _ _)) by lia. by rewrite take_app_length, drop_app_length.
Qed.

Lemma consumes_le n v s :
  0 <= v < 2 ^ (8 * Z.of_nat n) -> consumes (take_le n s) (le_bytes n v) v.
Proof.
  intros Hv. eapply consumes_last.
  - rewrite <- (length_le_bytes n v) at 1. apply consumes_take_bytes.
  - by rewrite le_value_bytes.
Qed.

Lemma consumes_u32 v s : u32 v -> consumes (take_u32 s) (le_bytes 4 v) v.
Proof. intros [H1 H2]. apply consumes_le. unfold U32_MAX in H2. simpl. lia. Qed.

Lemma consumes_u64 v s : u64 v -> consumes (take_u64 s) (le_bytes 8 v) v.
Proof. intros [H1 H2]. apply consumes_le. unfold U64_MAX in H2. simpl. lia. Qed.

Lemma consumes_many {A} (m : Reader A) (bytes_of : A -> list Z) l :
  Forall (fun a => consumes m (bytes_of a) a) l ->
  consumes (read_many (length l) m) (l ≫= bytes_of) l.
Proof.
  induction 1 as [|a l Ha _ IH]; [apply consumes_ret|]. cbn [length read_many].
  rewrite bind_cons. eapply consumes_bind; [exact Ha|]. by eapply consumes_last; [exact IH|apply consumes_ret].
Qed.

(** Appending item by item is appending all. *)
Lemma foldl_append {A} (f : A -> list Z) l out :
  foldl (fun out a => out ++ f a) out l = out ++ (l ≫= f).
Proof.
  revert out. induction l as [|a l IH]; intros out; simpl; [by rewrite app_nil_r|].
  by rewrite IH, <- app_assoc.
Qed.

(** ** Cells and layers *)

Definition cell_words (c : Cell) : list Z :=
  [total c; heat_q20 c; heat_observation c; last_seen c; cpu c; gpu c].

Lemma cell_bytes_words c : cell_bytes c = cell_words c ≫= le_bytes 8.
Proof.
  unfold cell_bytes, append_u64, cell_words. rewrite !bind_cons.
  change ([] ≫= le_bytes 8) with (@nil Z). by rewrite app_nil_r, <- !app_assoc.
Qed.

Lemma layer_bytes_words l :
  layer_bytes l = le_bytes 8 (observations l) ++ le_bytes 8 (consecutive_reuse l) ++
    (previous_route l ≫= le_bytes 4).
Proof.
  unfold layer_bytes, append_u64, append_u32. rewrite foldl_append. by rewrite <- app_assoc.
Qed.

Lemma consumes_cell obs cell :
  u64 obs -> cell_ok obs cell -> u64 (total cell) -> consumes (read_cell obs) (cell_bytes cell) cell.
Proof.
  intros Ho (Ht & Hc & Hg & Hh & Hho & Hls) Hu. rewrite cell_bytes_words. unfold cell_words.
  rewrite !bind_cons. unfold u64 in *.
  do 5 (eapply consumes_bind; [apply consumes_u64; unfold u64; lia|]).
  eapply consumes_bind; [apply consumes_u64; unfold u64; lia|].
  unfold add64. rewrite wrap64_small by (unfold u64; lia).
  rewrite !Z.gtb_ltb, !(proj2 (Z.ltb_ge _ _)) by lia. rewrite (proj2 (Z.eqb_eq _ _)) by lia.
  cbn [negb orb]. destruct cell. apply consumes_ret.
Qed.

Lemma consumes_route cfg e :
  0 <= e < experts_per_layer cfg -> u32 (experts_per_layer cfg) ->
  consumes (read_route_expert cfg) (le_bytes 4 e) e.
Proof.
  intros He Hu. eapply consumes_last; [apply consumes_u32; unfold u32 in *; lia|].
  rewrite Z.geb_leb, (proj2 (Z.leb_gt _ _)) by lia. apply consumes_ret.
Qed.

Lemma consumes_layer cfg l :
  config_ok cfg -> layer_ok cfg l -> observations l * route_width cfg <= U64_MAX ->
  consumes (read_layer cfg) (layer_bytes l) l.
Proof.
  intros Hcfg (Ho & Hr & Hw & He) Hb. pose proof (valid_config_facts cfg Hcfg) as F.
  destruct (f_width _ F) as [Hwp _]. destruct Hcfg as [(_ & _ & _ & _ & _ & Hue & _) _].
  assert (observations l <= U64_MAX / route_width cfg) by (apply Z.div_le_lower_bound; lia).
  assert (observations l <= U64_MAX) by nia.
  rewrite layer_bytes_words. unfold read_layer.
  eapply consumes_bind; [apply consumes_u64; unfold u64; lia|].
  eapply consumes_bind; [apply consumes_u64; unfold u64; lia|].
  unfold mul64. rewrite wrap64_small by (unfold u64; lia).
  rewrite !Z.gtb_ltb, !(proj2 (Z.ltb_ge _ _)) by lia. cbn [orb].
  replace (Z.to_nat (route_width cfg)) with (length (previous_route l)) by lia.
  eapply consumes_last.
  - apply consumes_many. eapply Forall_impl; [exact He|]. intros e Hin. by apply consumes_route.
  - destruct l. apply consumes_ret.
Qed.

Lemma foldl_saturated {A} (f : A -> Z) (l : list A) acc :
  Forall (fun a => 0 <= f a) l -> 0 <= acc -> acc + sumZ (f <$> l) <= U64_MAX ->
  foldl (fun sum a => saturated_add sum (f a)) acc l = acc + sumZ (f <$> l).
Proof.
  intros Hl. revert acc. induction Hl as [|a l Ha Hl IH]; intros acc Hacc Hb; [cbn; unfold sumZ; simpl; lia|].
  rewrite sumZ_fmap_cons in *. cbn [foldl].
  assert (0 <= sumZ (f <$> l)) by (apply sumZ_nonneg; by apply Forall_fmap).
  rewrite saturated_add_small by lia. rewrite IH by lia. lia.
Qed.

(** ** The whole file *)

Definition body_words (c : RouteCensus) (generation : Z) : list Z :=
  kMagic ++ le_bytes 4 kVersion ++ le_bytes 8 generation ++ le_bytes 8 (c_model_id (config_ c)) ++
  le_bytes 4 (c_encoding_abi (config_ c)) ++ le_bytes 4 (layer_count (config_ c)) ++
  le_bytes 4 (experts_per_layer (config_ c)) ++ le_bytes 4 (route_width (config_ c)) ++
  le_bytes 8 (decay_interval_observations (config_ c)) ++ model_content_hash (config_ c) ++
  le_bytes 8 (observation_ c) ++ le_bytes 8 (completed_routes_ c) ++
  le_bytes 8 (RouteCensus.total_selections_ c) ++ le_bytes 8 (consecutive_reuse_selections_ c) ++
  le_bytes 8 (Z.of_nat (length (cells_ c))) ++ (cells_ c ≫= cell_bytes) ++
  (layers_ c ≫= layer_bytes) ++ le_bytes 8 (Z.of_nat (length (transitions_ c))) ++
  (transitions_ c ≫= le_bytes 4).

Lemma body_bytes_words c g : body_bytes c g = body_words c g.
Proof.
  unfold body_bytes, header_bytes, append_u32, append_u64, body_words.
  rewrite !foldl_append. by rewrite <- !app_assoc.
Qed.

(** The ranges of a census, for what is written as machine words. *)
Lemma census_words c :
  census_ok c ->
  u64 (observation_ c) /\ u64 (completed_routes_ c) /\ u64 (RouteCensus.total_selections_ c) /\
  u64 (consecutive_reuse_selections_ c) /\ u64 (Z.of_nat (length (cells_ c))) /\
  u64 (Z.of_nat (length (transitions_ c))) /\
  Forall (fun cell => 0 <= total cell /\ u64 (total cell)) (cells_ c) /\
  Forall (fun l => 0 <= observations l /\ 0 <= consecutive_reuse l /\
    observations l * route_width (config_ c) <= U64_MAX) (layers_ c).
Proof.
  intros H. pose proof (valid_config_facts _ (ok_config c H)) as F. destruct (f_width _ F) as [Hw _].
  pose proof (ok_nonneg c H). pose proof (ok_bound c H). pose proof (ok_observation c H).
  pose proof (ok_selections c H). pose proof (ok_total c H). pose proof (ok_cells c H).
  pose proof (ok_transitions c H). pose proof (f_cells _ F). pose proof (f_transitions _ F).
  assert (Forall (fun l => 0 <= observations l /\ 0 <= consecutive_reuse l /\
    consecutive_reuse l <= observations l * route_width (config_ c)) (layers_ c)) as Hl.
  { eapply Forall_impl; [exact (ok_layer c H)|]. intros l (? & ? & _). lia. }
  assert (0 <= consecutive_reuse_selections_ c <= completed_routes_ c * route_width (config_ c)) as Hr.
  { rewrite <- (ok_reuse c H), <- (ok_observations c H). split.
    - apply sumZ_nonneg, Forall_fmap. eapply Forall_impl; [exact Hl|]. simpl. lia.
    - apply sumZ_le_mul. eapply Forall_impl; [exact Hl|]. simpl. lia. }
  unfold u64. split_and!; try lia; try nia; try (unfold U64_MAX; lia).
  - apply Forall_lookup. intros i cell Hi.
    pose proof (proj1 (Forall_lookup _ _) (ok_cell c H) i cell Hi) as (? & ? & ? & _).
    assert (total cell <= sumZ (total <$> cells_ c)) as Hle.
    { eapply sumZ_elem; [|exact Hi]. eapply Forall_impl; [exact (ok_cell c H)|]. intros x (? & ? & ? & _). lia. }
    nia.
  - apply Forall_lookup. intros i l Hi. pose proof (proj1 (Forall_lookup _ _) Hl i l Hi) as (? & ? & ?).
    assert (observations l <= sumZ (observations <$> layers_ c)) as Hle.
    { eapply sumZ_elem; [|exact Hi]. eapply Forall_impl; [exact Hl|]. simpl. lia. }
    rewrite (ok_observations c H) in Hle. split_and!; nia.
Qed.

(** The last reader of [read_census]: nothing left, and the totals agree. *)
Definition with_generation (c : RouteCensus) (g : Z) : RouteCensus := c <| generation_ := g |>.

Lemma consumes_header c g :
  census_ok c -> 0 < g <= U64_MAX ->
  consumes (read_header (config_ c))
    (kMagic ++ le_bytes 4 kVersion ++ le_bytes 8 g ++ le_bytes 8 (c_model_id (config_ c)) ++
     le_bytes 4 (c_encoding_abi (config_ c)) ++ le_bytes 4 (layer_count (config_ c)) ++
     le_bytes 4 (experts_per_layer (config_ c)) ++ le_bytes 4 (route_width (config_ c)) ++
     le_bytes 8 (decay_interval_observations (config_ c)) ++ model_content_hash (config_ c) ++
     le_bytes 8 (observation_ c) ++ le_bytes 8 (completed_routes_ c) ++
     le_bytes 8 (RouteCensus.total_selections_ c) ++ le_bytes 8 (consecutive_reuse_selections_ c) ++
     le_bytes 8 (Z.of_nat (length (cells_ c))))
    (mkHeader kVersion g (c_model_id (config_ c)) (observation_ c) (completed_routes_ c)
       (RouteCensus.total_selections_ c) (consecutive_reuse_selections_ c)).
Proof.
  intros H Hg. destruct (census_words c H) as (W1 & W2 & W3 & W4 & W5 & _).
  pose proof (valid_config_facts _ (ok_config c H)) as F.
  destruct (ok_config c H) as [(T1 & T2 & T3 & T4 & T5 & T6 & T7 & T8) _].
  unfold read_header.
  eapply consumes_bind; [apply (consumes_take_bytes kMagic)|].
  eapply consumes_bind; [apply consumes_u32; unfold u32, U32_MAX, kVersion; lia|].
  eapply consumes_bind; [apply consumes_u64; unfold u64; lia|].
  eapply consumes_bind; [by apply consumes_u64|].
  eapply consumes_bind; [by apply consumes_u32|].
  eapply consumes_bind; [by apply consumes_u32|].
  eapply consumes_bind; [by apply consumes_u32|].
  eapply consumes_bind; [by apply consumes_u32|].
  eapply consumes_bind; [by apply consumes_u64|].
  eapply consumes_bind; [rewrite <- T3; apply consumes_take_bytes|].
  eapply consumes_bind; [by apply consumes_u64|].
  eapply consumes_bind; [by apply consumes_u64|].
  eapply consumes_bind; [by apply consumes_u64|].
  eapply consumes_bind; [by apply consumes_u64|].
  eapply consumes_last; [by apply consumes_u64|].
  rewrite (f_mul_cells _ F), <- (ok_cells c H).
  rewrite !bool_decide_eq_true_2 by done. rewrite !Z.eqb_refl, (proj2 (Z.eqb_neq g 0)) by lia.
  apply consumes_ret.
Qed.

Lemma read_census_body c g fresh :
  census_ok c -> 0 < g <= U64_MAX ->
  length (cells_ fresh) = length (cells_ c) -> length (layers_ fresh) = length (layers_ c) ->
  length (transitions_ fresh) = length (transitions_ c) ->
  read_census (config_ c) fresh (body_bytes c g) = inl (with_generation c g, false, []).
Proof.
  intros H Hg Hc Hl Ht. destruct (census_words c H) as (W1 & W2 & W3 & W4 & W5 & W6 & W7 & W8).
  pose proof (valid_config_facts _ (ok_config c H)) as F. destruct (f_width _ F) as [Hw _].
  rewrite body_bytes_words. unfold body_words.
  pose proof (consumes_header c g H Hg) as Hh. unfold read_census.
  rewrite Hc, Hl, Ht.
  assert (forall k, read_many (length (cells_ c)) (read_cell (observation_ c)) ((cells_ c ≫= cell_bytes) ++ k)
    = inl (cells_ c, k)) as Rc.
  { apply consumes_many, Forall_lookup. intros i cell Hi. apply consumes_cell; [done| |].
    - eapply (proj1 (Forall_lookup _ _)); [apply (ok_cell c H)|done].
    - by apply (proj1 (Forall_lookup _ _) W7 i cell Hi). }
  assert (forall k, read_many (length (layers_ c)) (read_layer (config_ c)) ((layers_ c ≫= layer_bytes) ++ k)
    = inl (layers_ c, k)) as Rl.
  { apply consumes_many, Forall_lookup. intros i l Hi. apply consumes_layer; [apply (ok_config c H)| |].
    - eapply (proj1 (Forall_lookup _ _)); [apply (ok_layer c H)|done].
    - by apply (proj1 (Forall_lookup _ _) W8 i l Hi). }
  assert (read_transitions (length (transitions_ c))
    (le_bytes 8 (Z.of_nat (length (transitions_ c))) ++ (transitions_ c ≫= le_bytes 4))
    = inl (transitions_ c, [])) as Rt.
  { unfold read_transitions, rbind. rewrite (consumes_u64 _ _ W6), Z.eqb_refl. cbn [negb].
    rewrite <- (app_nil_r (transitions_ c ≫= _)). apply consumes_many.
    eapply Forall_impl; [exact (ok_transition c H)|]. intros t. apply consumes_u32. }
  specialize (Hh ((cells_ c ≫= cell_bytes) ++ (layers_ c ≫= layer_bytes) ++
    le_bytes 8 (Z.of_nat (length (transitions_ c))) ++ (transitions_ c ≫= le_bytes 4))).
  rewrite <- !app_assoc in Hh. unfold rbind at 1. rewrite Hh. cbn [h_observation].
  unfold rbind at 1. rewrite Rc. unfold rbind at 1. rewrite Rl. unfold rbind at 1.
  cbn [h_version]. change (kVersion =? kVersion) with true. cbv iota. rewrite Rt.
  cbn [h_version h_generation h_model_id h_observation h_completed_routes h_total_selections h_consecutive_reuse].
  rewrite !foldl_saturated; rewrite ?Z.add_0_l; try lia.
  1: rewrite (ok_observations c H), (ok_total c H), (ok_reuse c H), (ok_observation c H), !Z.eqb_refl;
    rewrite bool_decide_eq_true_2 by done; cbn [negb orb];
    unfold with_generation, Prelude.update; cbn; by rewrite (ok_observation c H).
  all: first
    [ eapply Forall_impl; [exact W7|]; simpl; lia | eapply Forall_impl; [exact W8|]; simpl; lia
    | rewrite ?(ok_total c H), ?(ok_reuse c H), ?(ok_observations c H); unfold u64 in *; lia ].
Qed.

Lemma with_generation_ok c g : census_ok c -> u64 g -> census_ok (with_generation c g).
Proof. intros [] Hg. by split. Qed.

(** ** Whole files *)

Lemma decode_serialize c g :
  census_ok c -> 0 < g <= U64_MAX ->
  decode_bytes (config_ c) (serialize c g) = Ok (mkLoadResult success (Some (with_generation c g)) false).
Proof.
  intros H Hg. unfold decode_bytes, serialize. pose proof (length_sha256 (body_bytes c g)) as Hs.
  rewrite (take_app_sub _ _ kDigestBytes Hs), (drop_app_sub _ _ kDigestBytes Hs).
  rewrite constant_time_equal_refl. cbn [negb].
  destruct (Nat.leb_spec (length (body_bytes c g ++ sha256 (body_bytes c g))) kDigestBytes) as [Hle|_].
  { exfalso. rewrite length_app, Hs in Hle. unfold kDigestBytes in Hle.
    assert (0 < length (body_bytes c g))%nat; [|lia].
    rewrite body_bytes_words. unfold body_words. rewrite length_app. unfold kMagic. simpl. lia. }
  destruct (census_create_ok (config_ c) (ok_config c H)) as (fresh & -> & Hf & Ecfg & _). cbn [obind].
  rewrite (read_census_body c g fresh H Hg); [done|..].
  - pose proof (ok_cells c H). pose proof (ok_cells fresh Hf). rewrite Ecfg in *. lia.
  - pose proof (ok_layers c H). pose proof (ok_layers fresh Hf). rewrite Ecfg in *. lia.
  - pose proof (ok_transitions c H). pose proof (ok_transitions fresh Hf). rewrite Ecfg in *. lia.
Qed.

(** The size announced by [snapshot] is the size of the file. *)
Lemma length_serialize c g : census_ok c -> Z.of_nat (length (serialize c g)) = serialized_size c.
Proof.
  intros H. destruct (ok_config c H) as [(_ & _ & T3 & _) _].
  unfold serialize. rewrite length_app, length_sha256, body_bytes_words. unfold body_words, serialized_size.
  assert (length (cells_ c ≫= cell_bytes) = (48 * length (cells_ c))%nat) as E1.
  { clear. induction (cells_ c) as [|x l IH]; [done|]. rewrite bind_cons, length_app, IH.
    rewrite cell_bytes_words. unfold cell_words. rewrite !bind_cons, !length_app, !length_le_bytes.
    simpl length. lia. }
  assert (length (transitions_ c ≫= le_bytes 4) = (4 * length (transitions_ c))%nat) as E2.
  { clear. induction (transitions_ c) as [|x l IH]; [done|].
    rewrite bind_cons, length_app, IH, length_le_bytes. simpl length. lia. }
  assert (Z.of_nat (length (layers_ c ≫= layer_bytes)) =
    Z.of_nat (length (layers_ c)) * (16 + route_width (config_ c) * 4)) as E3.
  { pose proof (ok_layer c H) as Hl. induction Hl as [|l ls (_ & _ & Hw & _) _ IH]; [done|].
    rewrite bind_cons, length_app, Nat2Z.inj_add, IH, layer_bytes_words, !length_app, !length_le_bytes.
    assert (forall r, length (r ≫= le_bytes 4) = (4 * length r)%nat) as ->.
    { clear. induction r as [|x r IH]; [done|]. rewrite bind_cons, length_app, IH, length_le_bytes.
      simpl length. lia. }
    cbn [length]. lia. }
  rewrite !length_app, !length_le_bytes, T3, E1, E2.
  change (length kMagic) with 8%nat. unfold kFixedHeaderBytes, kDigestBytes. lia.
Qed.

(** ** Slots *)

(** What [decode_file] accepts without asking the contents: the size. *)
Lemma decode_file_serialized d path c g :
  census_ok c -> 0 < g <= U64_MAX -> readable d path = true -> files d !! path = Some (serialize c g) ->
  decode_file d path (config_ c) = Ok (mkLoadResult success (Some (with_generation c g)) false).
Proof.
  intros H Hg Hr Hf. unfold decode_file. rewrite Hf, Hr, (length_serialize c g H). cbn [negb].
  pose proof (valid_config_facts _ (ok_config c H)) as F. destruct (f_width _ F) as [Hw Hwe].
  pose proof (f_cells _ F). pose proof (f_transitions _ F). pose proof (f_layers _ F). pose proof (f_experts _ F).
  pose proof (ok_cells c H) as E1. pose proof (ok_layers c H) as E2. pose proof (ok_transitions c H) as E3.
  assert (layer_count (config_ c) * route_width (config_ c) <= 1000000) by nia.
  rewrite (f_mul_cells _ F).
  assert (0 <= layer_count (config_ c) * experts_per_layer (config_ c)) by nia.
  set (cells := layer_count (config_ c) * experts_per_layer (config_ c)) in *.
  set (transitions := cells * experts_per_layer (config_ c)) in *.
  assert (0 <= transitions) by (unfold transitions; nia).
  assert (layer_count (config_ c) <= 1000000) by (unfold cells in *; nia).
  assert (route_width (config_ c) <= 1000000) by (unfold cells in *; nia).
  assert (layer_count (config_ c) * (16 + 4 * route_width (config_ c)) <= 20000000) as Hlw by nia.
  assert (0 <= layer_count (config_ c) * (16 + 4 * route_width (config_ c))) by nia.
  unfold serialized_size, kFixedHeaderBytes, kDigestBytes. rewrite E1, E2, E3.
  set (lw := layer_count (config_ c) * (16 + 4 * route_width (config_ c))) in *.
  replace (layer_count (config_ c) * (16 + route_width (config_ c) * 4)) with lw by (unfold lw; lia).
  unfold add64, mul64. fold transitions.
  rewrite (wrap64_small transitions), (wrap64_small (4 * route_width (config_ c))),
    (wrap64_small (16 + 4 * route_width (config_ c))), (wrap64_small (transitions * 4)),
    (wrap64_small (cells * 48)) by (unfold u64, U64_MAX; lia).
  fold lw. rewrite (wrap64_small lw), (wrap64_small (264 + cells * 48)),
    (wrap64_small (264 + cells * 48 + lw)), wrap64_small by (unfold u64, U64_MAX; lia).
  rewrite (proj2 (Z.ltb_ge _ 128)) by lia. rewrite Z.gtb_ltb, (proj2 (Z.ltb_ge _ _)) by lia. cbn [orb].
  by apply decode_serialize.
Qed.

(** ** Paths *)

Lemma slot_paths_differ prefix : slot_path prefix 0 <> slot_path prefix 1.
Proof. unfold slot_path. intros H. by apply app_inj_1 in H as [_ H]. Qed.

Lemma temporary_not_slot prefix a b :
  a = 0 \/ a = 1 -> b = 0 \/ b = 1 -> temporary_path (slot_path prefix a) <> slot_path prefix b.
Proof.
  intros Ha Hb H. apply (f_equal length) in H. unfold temporary_path, slot_path in H.
  rewrite !length_app in H. destruct Ha as [-> | ->], Hb as [-> | ->]; simpl in H; lia.
Qed.

Definition other (slot : Z) : Z := 1 - slot.

Lemma land_1 g : Z.land g 1 = g mod 2.
Proof. exact (Z.land_ones g 1 ltac:(lia)). Qed.

Lemma parity g : Z.land g 1 = 0 \/ Z.land g 1 = 1.
Proof. rewrite land_1. pose proof (Z.mod_pos_bound g 2). lia. Qed.

Lemma parity_next g : Z.land (g + 1) 1 = other (Z.land g 1).
Proof.
  rewrite !land_1. unfold other. pose proof (Z.mod_pos_bound g 2). pose proof (Z.div_mod g 2).
  destruct (decide (g mod 2 = 0)) as [E|E].
  - rewrite E. symmetry. apply (Z.mod_unique _ _ (g / 2)); lia.
  - replace (1 - g mod 2) with 0 by lia. symmetry. apply (Z.mod_unique _ _ (g / 2 + 1)); lia.
Qed.

Lemma slot_other_path prefix s : s = 0 \/ s = 1 -> slot_path prefix s <> slot_path prefix (other s).
Proof. intros [-> | ->]; [apply slot_paths_differ|]. intros H. symmetry in H. by apply slot_paths_differ in H. Qed.

(** ** The newest generation *)

(** A slot that holds a census of generation [g], with the result of reading it. *)
Definition slot_holds (d : Disk) (prefix : list Z) (cfg : RouteCensusConfig) (slot : Z)
    (r : RouteCensusLoadResult) (g : Z) : Prop :=
  is_Some (files d !! slot_path prefix slot) /\
  decode_file d (slot_path prefix slot) cfg = Ok r /\
  exists c, census r = Some c /\ generation_ c = g.

(** A slot that is absent, damaged, or older than [g]. *)
Definition slot_older (d : Disk) (prefix : list Z) (cfg : RouteCensusConfig) (slot g : Z) : Prop :=
  files d !! slot_path prefix slot = None \/
  exists r, decode_file d (slot_path prefix slot) cfg = Ok r /\
    forall c, census r = Some c -> generation_ c < g.

Lemma load_newest d prefix cfg s r g :
  prefix <> [] -> valid_config cfg = true -> s = 0 \/ s = 1 ->
  slot_holds d prefix cfg s r g -> slot_older d prefix cfg (other s) g -> load d prefix cfg = r.
Proof.
  intros Hp Hv Hs (Hf & Hd & c & Hc & Hg) Hold. unfold load.
  rewrite bool_decide_eq_false_2, Hv by done. cbn [negb orb].
  unfold load_slot. destruct Hs as [-> | ->]; [change (other 0) with 1 in Hold|change (other 1) with 0 in Hold].
  - rewrite (bool_decide_eq_true_2 (is_Some (files d !! slot_path prefix 0))) by done. cbn [negb].
    rewrite Hd. cbn [obind census load_failed]. rewrite Hc. cbn [obind].
    destruct Hold as [->|(r1 & E1 & H1)].
    + rewrite bool_decide_eq_false_2 by (by intros []). done.
    + case_bool_decide; [|done]. cbn [negb]. rewrite E1. cbn [obind]. rewrite Hc.
      destruct (census r1) as [c1|]; [|done]. specialize (H1 c1 eq_refl).
      rewrite Z.gtb_ltb, (proj2 (Z.ltb_ge _ _)) by lia. done.
  - rewrite (bool_decide_eq_true_2 (is_Some (files d !! slot_path prefix 1))) by done. cbn [negb].
    destruct Hold as [->|(r0 & E0 & H0)].
    + rewrite bool_decide_eq_false_2 by (by intros []). cbn [negb obind]. rewrite Hd. cbn [obind load_failed census].
      by rewrite Hc.
    + rewrite E0. case_bool_decide; cbn [negb obind load_failed census].
      * destruct (census r0) as [c0|] eqn:Ec0; cbn [obind]; rewrite Hd; cbn [obind census]; rewrite Hc, ?Ec0; [|done].
        specialize (H0 c0 eq_refl). rewrite Z.gtb_ltb, (proj2 (Z.ltb_lt _ _)) by lia. done.
      * rewrite Hd. cbn [obind]. by rewrite Hc.
Qed.

(** ** Interruptions *)

(** The states in which a list of actions can stop: before any of them, or with a part of
    the bytes of a write in the file. *)
Inductive stopped : list DiskAction -> Disk -> Disk -> Prop :=
| stopped_here acts d : stopped acts d d
| stopped_torn p b part acts d :
  part `prefix_of` b -> stopped (Write p b :: acts) d (apply_action (Write p part) d)
| stopped_later a acts d d' : stopped acts (apply_action a d) d' -> stopped (a :: acts) d d'.

(** [d'] is [d] up to the two files a save touches. *)
Definition framed (t dest : list Z) (d d' : Disk) : Prop :=
  readable d' = readable d /\ forall p, p <> t -> p <> dest -> files d' !! p = files d !! p.

Lemma framed_refl t dest d : framed t dest d d.
Proof. done. Qed.

Lemma framed_trans t dest d1 d2 d3 : framed t dest d1 d2 -> framed t dest d2 d3 -> framed t dest d1 d3.
Proof. intros [E1 H1] [E2 H2]. split; [congruence|]. intros p Ht Hd. rewrite H2 by done. by apply H1. Qed.

Lemma apply_framed t dest a d :
  (exists b, a = Truncate t \/ a = Write t b \/ a = Remove t \/ a = Remove dest \/ a = Rename t dest) ->
  framed t dest d (apply_action a d).
Proof.
  intros (b & [->|[->|[->|[->| ->]]]]); split; try (cbn; try case_match; done); intros p Ht Hd;
    cbn; unfold Prelude.update; cbn; try case_match; cbn;
    rewrite ?lookup_insert_ne, ?lookup_delete_ne by done; done.
Qed.

(** A save that is interrupted leaves every other file, and its destination either as it
    was, or missing, or complete. *)
Lemma save_stopped prefix c d d' :
  stopped (save_actions prefix c) d d' ->
  temporary_path (destination prefix c) <> destination prefix c ->
  framed (temporary_path (destination prefix c)) (destination prefix c) d d' /\
  (files d' !! destination prefix c = files d !! destination prefix c \/
   files d' !! destination prefix c = None \/
   files d' !! destination prefix c = Some (serialize c (next_generation c))).
Proof.
  unfold save_actions. set (t := temporary_path _). set (dest := destination prefix c).
  set (b := serialize _ _). intros Hs Hne.
  assert (forall x, files (apply_action (Truncate t) d) !! dest = files d !! dest /\
    files (apply_action (Write t x) (apply_action (Truncate t) d)) !! dest = files d !! dest) as Hd.
  { intros x. cbn. unfold Prelude.update. cbn. by rewrite !lookup_insert_ne by done. }
  set (d1 := apply_action (Truncate t) d) in *.
  assert (framed t dest d d1) as F1 by (apply apply_framed; exists []; auto).
  assert (forall x, framed t dest d (apply_action (Write t x) d1)) as F2.
  { intros x. eapply framed_trans; [exact F1|]. apply apply_framed. exists x. auto. }
  set (d2 := apply_action (Write t b) d1) in *.
  set (d3 := apply_action (Remove dest) d2).
  assert (framed t dest d d3) as F3.
  { eapply framed_trans; [exact (F2 b)|]. apply apply_framed. exists []. auto. }
  set (d4 := apply_action (Rename t dest) d3).
  assert (framed t dest d d4) as F4.
  { eapply framed_trans; [exact F3|]. apply apply_framed. exists []. auto 6. }
  assert (files d3 !! dest = None) as N3 by (cbn; unfold Prelude.update; cbn; apply lookup_delete_eq).
  assert (files d4 !! dest = Some b) as N4.
  { assert (files d3 !! t = Some b) as Et.
    { cbn. unfold Prelude.update. cbn. rewrite lookup_delete_ne by done. apply lookup_insert_eq. }
    unfold d4. cbn [apply_action]. rewrite Et. unfold Prelude.update. cbn [files]. apply lookup_insert_eq. }
  inversion Hs as [|?|? ? ? ? H1]; subst; [split; [apply framed_refl|by left]|].
  inversion H1 as [|? ? part ? ? Hp|? ? ? ? H2]; subst; [split; [exact F1|left; apply (Hd [])]| |].
  { split; [exact (F2 part)|left; apply (Hd part)]. }
  inversion H2 as [|?|? ? ? ? H3]; subst; [split; [exact (F2 b)|left; apply (Hd b)]|].
  inversion H3 as [|?|? ? ? ? H4]; subst; [split; [exact F3|right; by left]|].
  inversion H4; subst. split; [exact F4|right; by right].
Qed.

Lemma decode_file_frame d d' path cfg :
  files d' !! path = files d !! path -> readable d' = readable d ->
  decode_file d' path cfg = decode_file d path cfg.
Proof. intros H1 H2. unfold decode_file. by rewrite H1, H2. Qed.
