(* ===== verification/RouteCensusTheorems.v ===== *)
(** What the route census guarantees: exact accounting along every run of observations,
    the effect of one observation, the round trip of its file format, and the survival
    of a complete generation through an interrupted save. *)

From Stdlib Require Import String.
From S2P Require Import Prelude.
From S2P Require Import Storage.
From S2P Require Import Text.
From S2P Require Import Sha256.
From S2P Require Import RouteCensus.
From S2P Require Import RouteCensusInv.
From S2P Require Import RouteCensusWarm.
From S2P Require Import RouteCensusFile.

(** ** Runs *)

Record Observation := mkObservation { o_layer : Z; o_routed : list Z; o_cpu : list Z }.

(** The arguments are unsigned integers. *)
Definition observation_typed (o : Observation) : Prop :=
  0 <= o_layer o /\ Forall (fun e => 0 <= e) (o_routed o).

Definition observe_all (l : list Observation) (c : RouteCensus) : RouteCensus :=
  foldl (fun c o => (observe (o_layer o) (o_routed o) (o_cpu o) c).2) c l.

#[export] Instance observation_valid_dec c layer routed cpus :
  Decision (observation_valid c layer routed cpus).
Proof.
  unfold observation_valid.
  destruct (decide (Forall (fun e => e ∈ routed) cpus)) as [H|H].
  - assert (forall e, e ∈ cpus -> e ∈ routed) as H' by (by apply Forall_forall). 
    refine (cast_if (decide (layer < layer_count (config_ c) /\
      Z.of_nat (length routed) = route_width (config_ c) /\
      Forall (fun e => e < experts_per_layer (config_ c)) routed /\ NoDup routed /\ NoDup cpus))); tauto.
  - right. intros (_ & _ & _ & _ & H' & _). apply H. by apply Forall_forall.
Defined.

Lemma observe_all_ok l c :
  census_ok c -> Forall observation_typed l ->
  (completed_routes_ c + Z.of_nat (length l)) * route_width (config_ c) <= U64_MAX ->
  census_ok (observe_all l c) /\ config_ (observe_all l c) = config_ c.
Proof.
  revert c. induction l as [|o l IH]; intros c Hc Hl Hb; [done|]. cbn [observe_all foldl].
  apply Forall_cons in Hl as [[Ho1 Ho2] Hl]. cbn [length] in Hb.
  destruct (f_width _ (valid_config_facts _ (ok_config c Hc))) as [Hw _].
  destruct (decide (observation_valid c (o_layer o) (o_routed o) (o_cpu o))) as [Hv|Hv].
  - rewrite observe_valid by done. cbn [snd].
    destruct (record_route_ok c (o_layer o) (o_routed o) (o_cpu o) Hc Ho1 Ho2 Hv) as (Hc' & Ec & _ & En); [nia|].
    destruct (IH _ Hc' Hl) as [H1 H2]; [rewrite Ec, En; nia|]. split; [exact H1|]. by rewrite <- Ec.
  - destruct (observe_invalid _ _ _ _ Hv) as [m ->]. cbn [snd]. apply IH; [done|done|]. nia.
Qed.

(** Along every run of observations of a new census, as long as the number of
    selections fits a 64-bit counter, every total is exact: selections are the routes
    times the route width and the sum over the cells, a cell is the sum of its CPU and
    GPU selections, the routes are the sum over the layers, and no layer reuses more
    experts than it selected; a rejected observation changes nothing. *)
Theorem census_invariant cfg l c :
  config_ok cfg -> Forall observation_typed l ->
  Z.of_nat (length l) * route_width cfg <= U64_MAX -> census_create cfg = Ok c ->
  census_ok (observe_all l c) /\ config_ (observe_all l c) = cfg.
Proof.
  intros Hcfg Hl Hb Hc. destruct (census_create_ok cfg Hcfg) as (c' & E & Hok & Ecfg & _ & En).
  assert (c' = c) as -> by congruence. rewrite <- Ecfg. apply observe_all_ok; [done|done|].
  rewrite En, Ecfg. lia.
Qed.

(** ** One observation *)

Lemma effective_heat_closed c cell :
  0 < decay_interval_observations (config_ c) -> u64 (heat_q20 cell) ->
  0 <= heat_observation cell <= observation_ c ->
  effective_heat c cell =
  heat_q20 cell / 2 ^ ((observation_ c - heat_observation cell) / decay_interval_observations (config_ c)).
Proof.
  intros Hd Hh Ho. unfold effective_heat.
  set (s := (observation_ c - heat_observation cell) / decay_interval_observations (config_ c)).
  assert (0 <= s) as Hs by (apply Z.div_pos; lia).
  destruct (Z.eqb_spec (heat_q20 cell) 0) as [->|]; cbn [orb]; [by rewrite Z.div_0_l by (apply Z.pow_nonzero; lia)|].
  destruct (Z.leb_spec (observation_ c) (heat_observation cell)).
  - assert (s = 0) as ->; [|by rewrite Z.pow_0_r, Z.div_1_r].
    unfold s. replace (observation_ c - heat_observation cell) with 0 by lia. apply Z.div_0_l. lia.
  - destruct (Z.geb_spec s 64).
    + symmetry. apply Z.div_small. unfold u64, U64_MAX in Hh. split; [lia|].
      assert (2 ^ 64 <= 2 ^ s) by (apply Z.pow_le_mono_r; lia). lia.
    + by apply Z.shiftr_div_pow2.
Qed.

Lemma cell_index_inj c layer layer' e e' :
  0 <= layer -> 0 <= layer' -> 0 <= e < experts_per_layer (config_ c) ->
  0 <= e' < experts_per_layer (config_ c) ->
  cell_index c layer e = cell_index c layer' e' -> layer = layer' /\ e = e'.
Proof. unfold cell_index. intros. assert (layer = layer') by nia. split; [done|]. nia. Qed.

(** An observation whose layer, width or experts are invalid is refused with a status
    and changes nothing. A valid one changes exactly the cells of the routed experts:
    the heat is halved once per decay interval since it was last raised and then raised
    by one unit (or saturates), and the selection is counted for the processor that
    takes it. *)
Theorem observe_effect c layer routed cpus :
  census_ok c -> 0 <= layer -> Forall (fun e => 0 <= e) routed ->
  (completed_routes_ c + 1) * route_width (config_ c) <= U64_MAX ->
  (~ observation_valid c layer routed cpus ->
    exists m, observe layer routed cpus c = (mkStatus invalid_arg m, c)) /\
  (observation_valid c layer routed cpus -> exists c',
    observe layer routed cpus c = (success, c') /\ config_ c' = config_ c /\
    completed_routes_ c' = completed_routes_ c + 1 /\
    forall layer' e, 0 <= layer' < layer_count (config_ c) -> 0 <= e < experts_per_layer (config_ c) ->
      let old := cell_at c layer' e in
      let now := observation_ c + 1 in
      cell_at c' layer' e =
        if decide (layer' = layer /\ e ∈ routed) then
          mkCell (total old + 1)
            (saturated_add
              (heat_q20 old / 2 ^ ((now - heat_observation old) / decay_interval_observations (config_ c)))
              kHeatUnitQ20) now now
            (cpu old + if decide (e ∈ cpus) then 1 else 0) (gpu old + if decide (e ∈ cpus) then 0 else 1)
        else old).
Proof.
  intros Hc Hlayer Hpos Hb. split; [apply observe_invalid|]. intros Hv.
  rewrite (observe_valid c layer routed cpus Hv). eexists. split; [reflexivity|].
  destruct (record_route_ok c layer routed cpus Hc Hlayer Hpos Hv Hb) as (Hc' & E1 & _ & E2).
  split; [exact E1|]. split; [exact E2|].
  destruct (observed_layer c layer routed cpus Hc Hlayer Hv Hb) as (l & El & _ & _ & _ & _ & Hcr).
  destruct (record_route_shape c layer routed cpus Hc Hlayer Hpos Hv Hb l El)
    as (ts & k & cs & E & _ & _ & _ & _ & _ & _ & Hother & Hsame).
  destruct Hv as (Hl & Hw & He & Hnd & _).
  assert (forall x, x ∈ routed -> 0 <= x < experts_per_layer (config_ c)) as Hrange.
  { rewrite Forall_forall in He, Hpos. auto. }
  intros layer' e Hl' He' old now. unfold cell_at at 1.
  change (cell_index (record_route layer routed cpus c) layer' e) with
    (Z.to_nat (layer' * experts_per_layer (config_ (record_route layer routed cpus c)) + e)).
  rewrite E1. fold (cell_index c layer' e). rewrite E. cbn [cells_].
  pose proof (cell_index_lt c layer' e Hc Hl' He') as Hlt.
  destruct (lookup_lt_is_Some_2 (cells_ c) _ Hlt) as [x Hx].
  assert (old = x) as Hold by (by apply nth_lookup_Some). clearbody old. subst old.
  pose proof (proj1 (Forall_lookup _ _) (ok_cell c Hc) _ _ Hx) as (Ht & Hcp & Hgp & Hh & Hho & _).
  destruct (f_decay _ (valid_config_facts _ (ok_config c Hc))) as [Hdec _].
  case_decide as Hin.
  - destruct Hin as [-> Hin]. apply nth_lookup_Some. rewrite Hsame, Hx; [|clear - Hnd Hrange Hlayer|done].
    + cbn [fmap option_fmap option_map]. f_equal. rewrite record_cell_eq.
      rewrite (effective_heat_closed _ x); [|exact Hdec|done|cbn; lia].
      assert (total x + 1 <= U64_MAX) as Hmax.
      { assert (total x <= sumZ (total <$> cells_ c)) as Hle.
        { eapply sumZ_elem; [|exact Hx]. eapply Forall_impl; [exact (ok_cell c Hc)|].
          intros y (? & ? & ? & _). lia. }
        rewrite (ok_total c Hc), (ok_selections c Hc) in Hle.
        destruct (f_width _ (valid_config_facts _ (ok_config c Hc))) as [Hwp _]. nia. }
      cbn. unfold now. repeat case_bool_decide; repeat case_decide; try done;
        rewrite (saturated_add_small (total x)), ?(saturated_add_small (cpu x)),
          ?(saturated_add_small (gpu x)) by lia; f_equal; lia.
    + induction Hnd as [|a r Ha _ IH]; [constructor|]. cbn [map]. constructor; [|apply IH; set_solver].
      intros Hm. apply list_elem_of_In, in_map_iff in Hm as (b & Heq & Hb). apply list_elem_of_In in Hb.
      apply cell_index_inj in Heq as [_ ->]; [done|done|done|apply Hrange; set_solver|apply Hrange; set_solver].
  - apply nth_lookup_Some. rewrite Hother, Hx; [done|]. intros Hm.
    apply list_elem_of_In, in_map_iff in Hm as (b & Heq & Hb'). apply list_elem_of_In in Hb'.
    apply cell_index_inj in Heq as [-> ->]; [tauto|done|lia|by apply Hrange|done].
Qed.

(** ** Files *)

(** C15: A census written to a file is read back unchanged, with the generation it was
    written under, and the file has the size that [snapshot] announces. *)
Theorem census_file_round_trip c g :
  census_ok c -> 0 < g <= U64_MAX ->
  decode_bytes (config_ c) (serialize c g) = Ok (mkLoadResult success (Some (with_generation c g)) false) /\
  Z.of_nat (length (serialize c g)) = serialized_bytes (snapshot c).
Proof. intros Hc Hg. split; [by apply decode_serialize|by apply length_serialize]. Qed.

(** What the new generation reads as. *)
Definition saved (c : RouteCensus) : RouteCensusLoadResult :=
  mkLoadResult success (Some (with_generation c (generation_ c + 1))) false.

Section Save.
Context (c : RouteCensus) (d : Disk) (prefix : list Z) (r : RouteCensusLoadResult).
Context (Hc : census_ok c) (Hg : 0 < generation_ c < U64_MAX) (Hprefix : prefix <> []).
Context (Hread : forall p, readable d p = true).
Context (Hnow : slot_holds d prefix (config_ c) (Z.land (generation_ c) 1) r (generation_ c)).
Context (Hold : slot_older d prefix (config_ c) (other (Z.land (generation_ c) 1)) (generation_ c)).

Lemma next_is_successor : next_generation c = generation_ c + 1.
Proof. unfold next_generation. apply saturated_add_small. lia. Qed.

Lemma destination_other : destination prefix c = slot_path prefix (other (Z.land (generation_ c) 1)).
Proof. unfold destination. by rewrite next_is_successor, parity_next. Qed.

(** The slot of the current generation is none of the files a save touches. *)
Lemma current_untouched d' :
  framed (temporary_path (destination prefix c)) (destination prefix c) d d' ->
  slot_holds d' prefix (config_ c) (Z.land (generation_ c) 1) r (generation_ c).
Proof.
  intros [Er Hf]. destruct Hnow as (Hs & Hd & Hcen).
  assert (files d' !! slot_path prefix (Z.land (generation_ c) 1) =
          files d !! slot_path prefix (Z.land (generation_ c) 1)) as E.
  { apply Hf; rewrite destination_other; [|by apply slot_other_path, parity].
    intros H. symmetry in H. revert H. apply temporary_not_slot; [|apply parity].
    unfold other. destruct (parity (generation_ c)) as [-> | ->]; [by right|by left]. }
  split; [by rewrite E|]. split; [|done]. by rewrite (decode_file_frame d d' _ _ E Er).
Qed.

Lemma temporary_differs : temporary_path (destination prefix c) <> destination prefix c.
Proof.
  rewrite destination_other. unfold other.
  destruct (parity (generation_ c)) as [-> | ->]; apply temporary_not_slot; auto.
Qed.

(** Once the new generation is in its slot it is the newest. *)
Lemma saved_is_newest d' :
  framed (temporary_path (destination prefix c)) (destination prefix c) d d' ->
  files d' !! destination prefix c = Some (serialize c (next_generation c)) ->
  slot_holds d' prefix (config_ c) (Z.land (next_generation c) 1) (saved c) (next_generation c) /\
  slot_older d' prefix (config_ c) (other (Z.land (next_generation c) 1)) (next_generation c).
Proof.
  intros Hf Hd. pose proof (current_untouched d' Hf) as (Hs & Hdec & cen & Ecen & Egen). split.
  - split; [unfold destination in Hd; by rewrite Hd|]. split.
    + rewrite next_is_successor in Hd. apply decode_file_serialized; [done|lia| |exact Hd].
      destruct Hf as [-> _]. apply Hread.
    + exists (with_generation c (generation_ c + 1)). split; [done|]. by rewrite next_is_successor.
  - right. exists r. rewrite next_is_successor, parity_next. unfold other.
    replace (1 - (1 - Z.land (generation_ c) 1)) with (Z.land (generation_ c) 1) by lia.
    split; [exact Hdec|]. intros cen' E. rewrite Ecen in E. injection E as <-. lia.
Qed.

Lemma load_after d' :
  framed (temporary_path (destination prefix c)) (destination prefix c) d d' ->
  files d' !! destination prefix c = files d !! destination prefix c \/
  files d' !! destination prefix c = None -> load d' prefix (config_ c) = r.
Proof.
  intros Hf Hd. destruct (ok_config c Hc) as [_ Hv].
  apply (load_newest d' prefix (config_ c) (Z.land (generation_ c) 1) r (generation_ c));
    [done|done|apply parity|by apply current_untouched|].
  unfold slot_older. rewrite <- destination_other.
  destruct Hd as [E|E]; [|by left]. destruct Hf as [Er _].
  unfold slot_older in Hold. rewrite <- destination_other in Hold. rewrite E.
  destruct Hold as [|(r1 & E1 & H1)]; [by left|right]. exists r1.
  by rewrite (decode_file_frame d d' _ _ E Er).
Qed.

Lemma load_saved d' :
  framed (temporary_path (destination prefix c)) (destination prefix c) d d' ->
  files d' !! destination prefix c = Some (serialize c (next_generation c)) ->
  load d' prefix (config_ c) = saved c.
Proof.
  intros Hf Hd. destruct (saved_is_newest d' Hf Hd) as [H1 H2]. destruct (ok_config c Hc) as [_ Hv].
  by apply (load_newest d' prefix (config_ c) (Z.land (next_generation c) 1) (saved c) (next_generation c));
    [done|done|apply parity|..].
Qed.

(** C14: Saving is atomic. With the current generation complete in its slot, stopping a
    save anywhere, also in the middle of writing the temporary file, leaves files from
    which [load] returns either the current generation or the new one, whole; a save
    that reports failure leaves the current one, a save that reports success the new
    one, and then the two slots are ready for the next save. *)
Theorem save_is_atomic :
  (forall d', stopped (save_actions prefix c) d d' ->
    load d' prefix (config_ c) = r \/ load d' prefix (config_ c) = saved c) /\
  (forall io s c' d', save io prefix c d = (s, c', d') ->
    if status_ok s then
      load d' prefix (config_ c) = saved c /\ c' = with_generation c (generation_ c + 1) /\
      slot_holds d' prefix (config_ c) (Z.land (generation_ c') 1) (saved c) (generation_ c') /\
      slot_older d' prefix (config_ c) (other (Z.land (generation_ c') 1)) (generation_ c')
    else c' = c /\ load d' prefix (config_ c) = r).
Proof.
  pose proof temporary_differs as Hne. split.
  - intros d' Hs. destruct (save_stopped prefix c d d' Hs Hne) as [Hf [E|[E|E]]].
    + left. apply load_after; auto.
    + left. apply load_after; auto.
    + right. by apply load_saved.
  - intros io s c' d' E. unfold save in E. rewrite bool_decide_eq_false_2 in E by done.
    set (t := temporary_path (destination prefix c)) in *. set (dest := destination prefix c) in *.
    assert (load d prefix (config_ c) = r) as H0 by (apply load_after; [apply framed_refl|by left]).
    assert (forall l, Forall (fun a => exists b, a = Truncate t \/ a = Write t b \/ a = Remove t \/
      a = Remove dest \/ a = Rename t dest) l -> framed t dest d (run_actions l d)) as Hrun.
    { intros l Hl. generalize d. induction Hl as [|a l Ha _ IH]; intros d0; [apply framed_refl|].
      eapply framed_trans; [by apply apply_framed|apply IH]. }
    destruct (directories_ok io); cbn [negb] in E; [|by injection E as <- <- <-].
    destruct (open_ok io); cbn [negb] in E; [|by injection E as <- <- <-].
    destruct (torn_write io) as [part|].
    { injection E as <- <- <-. change (status_ok _) with false. cbv iota. split; [done|].
      apply load_after.
      - apply (Hrun [Truncate t; Write t part; Remove t]).
        repeat constructor; [exists []|exists part|exists []]; auto.
      - left. unfold run_actions, Prelude.update. cbn. by rewrite lookup_delete_ne, !lookup_insert_ne by done. }
    destruct (rename_ok io); cbn [negb] in E.
    + assert (s = success /\ c' = with_generation c (next_generation c) /\
        d' = run_actions (save_actions prefix c) d) as (-> & -> & ->) by (by injection E as <- <- <-).
      assert (framed t dest d (run_actions (save_actions prefix c) d)) as Hf.
      { apply Hrun. unfold save_actions. fold dest. fold t.
        repeat constructor; [exists []|eexists|exists []|exists []]; auto 6. }
      assert (files (run_actions (save_actions prefix c) d) !! dest = Some (serialize c (next_generation c))) as Hd.
      { unfold save_actions, run_actions. fold dest. fold t. cbn [foldl apply_action]. unfold Prelude.update.
        cbn [files]. rewrite lookup_delete_ne by done. rewrite lookup_insert_eq. cbn [files]. apply lookup_insert_eq. }
      destruct (saved_is_newest _ Hf Hd) as [H1 H2].
      change (status_ok success) with true. cbv iota. rewrite next_is_successor in H1, H2.
      split; [exact (load_saved _ Hf Hd)|].
      rewrite next_is_successor. split; [done|]. split; [exact H1|exact H2].
    + injection E as <- <- <-. change (status_ok _) with false. cbv iota. split; [done|].
      apply load_after.
      * apply (Hrun [Truncate t; Write t (serialize c (next_generation c)); Remove dest; Remove t]).
        repeat constructor; [exists []|eexists|exists []|exists []]; auto 6.
      * right. unfold run_actions, Prelude.update. cbn. rewrite lookup_delete_ne by done. apply lookup_delete_eq.
Qed.
End Save.

(** ** Instances *)

(** Two layers of three experts, two of which are routed to. *)
Definition demo_config : RouteCensusConfig := mkRouteCensusConfig 7 (replicate 32 1) 1 2 3 2 4.

Definition demo_run : list Observation :=
  [mkObservation 0 [0; 2] [2]; mkObservation 0 [2; 1] []; mkObservation 5 [0; 1] []; mkObservation 1 [1; 0] [1; 0]].

Definition demo_fresh : RouteCensus :=
  mkRouteCensus demo_config (replicate 6 empty_cell) (replicate 2 (mkLayerState 0 0 [0; 0]))
    (replicate 18 0) 0 0 0 0 0.

Definition demo_census : RouteCensus := observe_all demo_run demo_fresh.

Lemma demo_config_ok : config_ok demo_config.
Proof.
  split; [|vm_compute; reflexivity]. unfold config_types, u64, u32, U64_MAX, U32_MAX, demo_config.
  cbn [c_model_id model_content_hash c_encoding_abi layer_count experts_per_layer route_width
    decay_interval_observations].
  split_and!; try lia; [|by rewrite length_replicate]. apply Forall_replicate. unfold byte. lia.
Qed.

Lemma demo_created : census_create demo_config = Ok demo_fresh.
Proof. vm_compute. reflexivity. Qed.

Lemma demo_run_typed : Forall observation_typed demo_run.
Proof. repeat constructor; simpl; lia. Qed.

Lemma demo_run_bound : Z.of_nat (length demo_run) * route_width demo_config <= U64_MAX.
Proof. unfold U64_MAX. simpl. lia. Qed.

Lemma census_invariant_witness :
  census_ok (observe_all demo_run demo_fresh) /\ completed_routes_ demo_census = 3 /\
  RouteCensus.total_selections_ demo_census = 6 /\ consecutive_reuse_selections_ demo_census = 1.
Proof.
  split_and!; [|vm_compute; reflexivity..].
  apply (census_invariant demo_config demo_run demo_fresh demo_config_ok demo_run_typed demo_run_bound demo_created).
Defined.

Lemma demo_census_ok : census_ok demo_census /\ config_ demo_census = demo_config.
Proof.
  destruct (census_create_ok demo_config demo_config_ok) as (c & E & Hok & Ec & _ & En).
  assert (c = demo_fresh) as -> by (rewrite demo_created in E; congruence).
  rewrite <- Ec. apply observe_all_ok; [done|apply demo_run_typed|]. rewrite En, Ec. apply demo_run_bound.
Qed.

Lemma observe_effect_witness :
  observation_valid demo_census 1 [1; 2] [2] /\
  exists c', observe 1 [1; 2] [2] demo_census = (success, c') /\
    cell_at c' 1 1 = mkCell 2 2097152 4 4 1 1 /\ cell_at c' 0 0 = cell_at demo_census 0 0.
Proof.
  destruct demo_census_ok as [Hok Hcfg].
  assert (observation_valid demo_census 1 [1; 2] [2]) as Hv.
  { unfold observation_valid. rewrite Hcfg. cbn [layer_count route_width experts_per_layer demo_config].
    split_and!; [lia|done|repeat constructor; lia| |set_solver|]; apply (bool_decide_unpack _); vm_compute; exact I. }
  assert ((completed_routes_ demo_census + 1) * route_width (config_ demo_census) <= U64_MAX) as Hb
    by (apply Z.leb_le; vm_compute; reflexivity).
  assert (Forall (fun e => 0 <= e) [1; 2]) as Hpos by (repeat constructor; lia).
  split; [exact Hv|].
  destruct (observe_effect demo_census 1 [1; 2] [2] Hok ltac:(lia) Hpos Hb) as [_ H].
  destruct (H Hv) as (c' & E & _ & _ & Hcell). exists c'. split; [exact E|].
  split; (rewrite Hcell; rewrite ?Hcfg; [|cbn; lia..]); vm_compute; reflexivity.
Defined.

Lemma census_file_round_trip_witness :
  0 < 1 <= U64_MAX /\ Z.of_nat (length (serialize demo_census 1)) = 572 /\
  decode_bytes (config_ demo_census) (serialize demo_census 1) =
    Ok (mkLoadResult success (Some (with_generation demo_census 1)) false).
Proof.
  destruct demo_census_ok as [Hok _]. split; [unfold U64_MAX; lia|].
  destruct (census_file_round_trip demo_census 1 Hok ltac:(unfold U64_MAX; lia)) as [H1 H2].
  split; [rewrite H2; vm_compute; reflexivity|exact H1].
Defined.

Lemma stable_warm_set_spec_witness :
  (length (@stable_warm_set stable_std_sort demo_census 2 1) <= 2)%nat /\
  map (fun e => (Storage.layer (w_key e), expert (w_key e)))
    (@stable_warm_set stable_std_sort demo_census 2 1) = [(0, 2); (1, 0)].
Proof.
  split; [|vm_compute; reflexivity].
  destruct (@stable_warm_set_spec stable_std_sort stable_std_sort_spec demo_census 2 1) as [H _].
  exact H.
Defined.

(** A directory in which generation one was saved. *)
Definition demo_prefix : list Z := Text.bytes "census".
Definition demo_first : RouteCensus := with_generation demo_census 1.
Definition demo_disk : Disk :=
  mkDisk {[slot_path demo_prefix 1 := serialize demo_census 1]} (fun _ => true).
Definition demo_loaded : RouteCensusLoadResult :=
  mkLoadResult success (Some (with_generation demo_census 1)) false.

#[local] Opaque serialize demo_census.

Lemma with_generation_fields c g :
  config_ (with_generation c g) = config_ c /\ generation_ (with_generation c g) = g.
Proof. done. Qed.

Lemma demo_first_config : config_ demo_first = config_ demo_census.
Proof. apply with_generation_fields. Qed.

Lemma demo_file : files demo_disk !! slot_path demo_prefix 1 = Some (serialize demo_census 1).
Proof. unfold demo_disk, files. apply lookup_singleton_eq. Qed.

Lemma demo_slot_now : slot_holds demo_disk demo_prefix (config_ demo_first) 1 demo_loaded 1.
Proof.
  destruct demo_census_ok as [Hok _]. split; [|split].
  - rewrite demo_file. by eexists.
  - rewrite demo_first_config. apply (decode_file_serialized _ _ demo_census 1 Hok); [unfold U64_MAX; lia|exact eq_refl|apply demo_file].
  - exists (with_generation demo_census 1). split; [exact eq_refl|apply with_generation_fields].
Qed.

Lemma demo_slot_older : slot_older demo_disk demo_prefix (config_ demo_first) 0 1.
Proof.
  left. cbn [files demo_disk]. apply lookup_singleton_ne. intros H. symmetry in H. revert H.
  apply slot_paths_differ.
Qed.

(** A save that stops after it removed the old slot: generation one is still there. *)
Lemma save_is_atomic_witness :
  let d' := run_actions (take 3 (save_actions demo_prefix demo_first)) demo_disk in
  load d' demo_prefix (config_ demo_first) = demo_loaded \/
  load d' demo_prefix (config_ demo_first) = saved demo_first.
Proof.
  destruct demo_census_ok as [Hok _]. intros d'.
  assert (census_ok demo_first) as Hok1 by (apply with_generation_ok; [done|unfold u64, U64_MAX; lia]).
  apply (save_is_atomic demo_first demo_disk demo_prefix demo_loaded Hok1).
  - unfold demo_first. rewrite (proj2 (with_generation_fields _ _)). unfold U64_MAX. lia.
  - discriminate.
  - intros p. exact eq_refl.
  - exact demo_slot_now.
  - exact demo_slot_older.
  - unfold d', save_actions. cbn [take run_actions foldl]. do 3 apply stopped_later. apply stopped_here.
Defined.
