(* ===== verification/GatherStorage.v ===== *)
(** Reads gathered from several extents ([runtime/src/gather_storage.cpp],
    [runtime/include/expert/runtime/gather_storage.hpp]): one logical read becomes one
    child read of the backing storage per extent, and is answered once, when the last
    child has been.

    Any thread may run a completion of the backing storage, call [cancel] or call
    [read]; a call holds a mutex only for its critical sections. Each critical section
    is a function here, what a thread has still to do after it is a [Task], and a
    [Gather] is the object with the tasks of all threads in flight: the step relation
    picks any of them. A [shared_ptr<Pending>] is the id of the operation, which no
    other operation has. *)

From S2P Require Import Prelude.
From S2P Require Import Storage.

(** ** Validation *)

Definition by_destination (left right : PayloadExtent) : bool :=
  destination_offset left <? destination_offset right.

(** The loop over the sorted extents; the result is the final cursor. *)
Fixpoint tile_cursor (stored cursor : Z) (l : list PayloadExtent) : option Z :=
  match l with
  | [] => Some cursor
  | extent :: l =>
    if bool_decide (pe_path extent = ""%string) || (pe_bytes extent =? 0) ||
       negb (destination_offset extent =? cursor) ||
       (sub64 stored cursor <? pe_bytes extent) ||
       (U64_MAX - pe_bytes extent <? source_offset extent)
    then None
    else tile_cursor stored (add64 cursor (pe_bytes extent)) l
  end.

Definition validate_gather `{StdSort} (request : ReadRequest) : Status :=
  let record := rr_record request in
  if bool_decide (extents record = []) then
    mkStatus invalid_arg "extent gather requires a multi-extent payload"
  else if bool_decide (data (rr_destination request) = None) || (stored_bytes record =? 0) ||
          (buffer_capacity (rr_destination request) <? stored_bytes record) then
    mkStatus invalid_arg "invalid extent gather destination"
  else
    match tile_cursor (stored_bytes record) 0 (std_sort by_destination (extents record)) with
    | None => mkStatus invalid_arg "payload extents must exactly and safely cover the destination"
    | Some cursor =>
      if cursor =? stored_bytes record then success
      else mkStatus invalid_arg "payload extents do not cover stored_bytes"
    end.

(** ** The operation in flight *)

Record Pending := mkPending {
  p_request : ReadRequest;
  children : list OperationId;
  remaining : Z;
  p_read_bytes : Z;
  p_status : Status;
  launching : bool;
  p_cancelled : bool;
  finished : bool }.

#[export] Instance eta_Pending : Eta Pending := fun p =>
  mkPending (p_request p) (children p) (remaining p) (p_read_bytes p) (p_status p)
    (launching p) (p_cancelled p) (finished p).

Definition new_pending (request : ReadRequest) : Pending :=
  mkPending request [] (Z.of_nat (length (extents (rr_record request)))) 0 success true false false.

(** The read issued for one extent. The address is that of a non-null destination. *)
Definition child_request (request : ReadRequest) (extent : PayloadExtent) : ReadRequest :=
  let record := rr_record request in
  mkReadRequest
    (mkPayloadRecord (pe_path extent) [] (source_offset extent) (pe_bytes extent)
       (decoded_bytes record) 0 (rec_hidden record) (rec_intermediate record)
       (quant_block_size record) (source_abi record) (record_abi record) 0 1
       (payload_sha256 record))
    (mkMutableBuffer
       (option_map (fun base => base + destination_offset extent) (data (rr_destination request)))
       (pe_bytes extent))
    false.

(** The critical section of a child's completion; whether it was the last. *)
Definition child_completed (result : ReadResult) (p : Pending) : Pending * bool :=
  let p := if negb (status_ok (rr_status result)) && status_ok (p_status p)
           then p <| p_status := rr_status result |> else p in
  let p := p <| p_read_bytes %= fun b => add64 b (read_bytes result) |> in
  let p := if negb (remaining p =? 0) then p <| remaining %= fun n => n - 1 |> else p in
  (p, (remaining p =? 0) && negb (launching p)).

(** The section after a child was issued; whether it has to be cancelled at once. *)
Definition child_issued (child : OperationId) (p : Pending) : Pending * bool :=
  let p := p <| children %= fun l => (l ++ [child])%list |> in (p, p_cancelled p).

(** The section at the end of [read]; whether every child was done before. *)
Definition launched (p : Pending) : Pending * bool :=
  let p := p <| launching := false |> in (p, remaining p =? 0).

(** The second section of [cancel]; the children to cancel. *)
Definition cancel_pending (p : Pending) : Pending * list OperationId :=
  let p := p <| p_cancelled := true |> in
  let p := if status_ok (p_status p)
           then p <| p_status := mkStatus cancelled "extent gather cancelled" |> else p in
  (p, children p).

(** The first section of [finish]: the answer, unless another thread has it. *)
Definition take_result (p : Pending) : option (Pending * ReadResult) :=
  if finished p then None
  else Some (p <| finished := true |>,
             mkReadResult (p_status p) (stored_bytes (rr_record (p_request p))) (p_read_bytes p)).

(** ** Threads *)

Inductive Task : Type :=
(** [read], about to issue the next of these extents *)
| Launch (id : OperationId) (rest : list PayloadExtent)
(** [read], between the call of the backing storage and the record of the child *)
| Issued (id : OperationId) (child : OperationId) (rest : list PayloadExtent)
(** a child read that the backing storage has not completed *)
| Outstanding (id : OperationId) (request : ReadRequest)
(** [finish], before each of its sections and before the callback *)
| Finish (id : OperationId)
| Erase (id : OperationId) (result : ReadResult)
| Deliver (id : OperationId) (result : ReadResult)
(** [cancel], before the lookup and after it *)
| Cancel (id : OperationId)
| CancelFound (id : OperationId).

(** What happened to an operation, in order. *)
Inductive Event : Type :=
| child_event (request : ReadRequest) (result : ReadResult)
| cancel_event.

Record Gather := mkGather {
  next_id : OperationId;
  operations : gset OperationId;
  (** the objects behind the shared pointers, which outlive their entry *)
  heap : gmap OperationId Pending;
  tasks : list Task;
  (** what the outside world has seen: events, answers, cancelled children, and the
      requests that came with a completion *)
  events : list (OperationId * Event);
  answers : list (OperationId * ReadResult);
  cancelled_children : list OperationId;
  asked : list (OperationId * ReadRequest) }.

#[export] Instance eta_Gather : Eta Gather := fun g =>
  mkGather (next_id g) (operations g) (heap g) (tasks g) (events g) (answers g)
    (cancelled_children g) (asked g).

(** The constructor; [false] for a null backing storage. *)
Definition gather_create (backing : bool) : outcome Gather :=
  if backing then Ok (mkGather 1 ∅ ∅ [] [] [] [] [])
  else Throw (invalid_argument "gather storage requires backing").

Definition spawn (l : list Task) (g : Gather) : Gather := g <| tasks %= app l |>.
Definition store (id : OperationId) (p : Pending) (g : Gather) : Gather :=
  g <| heap %= insert id p |>.

(** [read] up to its loop; [false] for an empty completion. *)
Definition read `{StdSort} (request : ReadRequest) (completion : bool) (g : Gather) : Gather :=
  let id := next_id g in
  let g := g <| next_id := inc64 id |> in
  if negb completion then g
  else
    let g := g <| asked %= cons (id, request) |> in
    let validation := validate_gather request in
    if negb (status_ok validation) then
      spawn [Deliver id (mkReadResult validation (stored_bytes (rr_record request)) 0)] g
    else
      let g := store id (new_pending request) g in
      let g := g <| operations %= union {[id]} |> in
      spawn [Launch id (extents (rr_record request))] g.

(** One critical section of a thread. The backing storage chooses the id of a new
    child and the result of a completed one. *)
Definition run_task (child : OperationId) (result : ReadResult) (t : Task) (g : Gather) : Gather :=
  match t with
  | Launch id (extent :: rest) =>
    match heap g !! id with
    | Some p => spawn [Outstanding id (child_request (p_request p) extent); Issued id child rest] g
    | None => g
    end
  | Issued id child rest =>
    match heap g !! id with
    | Some p =>
      let '(p, cancel_child) := child_issued child p in
      let g := spawn [Launch id rest] (store id p g) in
      if cancel_child then g <| cancelled_children %= fun l => (l ++ [child])%list |> else g
    | None => g
    end
  | Launch id [] =>
    match heap g !! id with
    | Some p =>
      let '(p, complete) := launched p in
      spawn (if complete then [Finish id] else []) (store id p g)
    | None => g
    end
  | Outstanding id request =>
    match heap g !! id with
    | Some p =>
      let '(p, complete) := child_completed result p in
      let g := g <| events %= fun l => (l ++ [(id, child_event request result)])%list |> in
      spawn (if complete then [Finish id] else []) (store id p g)
    | None => g
    end
  | Finish id =>
    match heap g !! id with
    | Some p =>
      match take_result p with
      | Some (p, result) => spawn [Erase id result] (store id p g)
      | None => g
      end
    | None => g
    end
  | Erase id result => spawn [Deliver id result] (g <| operations %= fun s => s ∖ {[id]} |>)
  | Deliver id result => g <| answers %= fun l => (l ++ [(id, result)])%list |>
  | Cancel id => if bool_decide (id ∈ operations g) then spawn [CancelFound id] g else g
  | CancelFound id =>
    match heap g !! id with
    | Some p =>
      let '(p, children) := cancel_pending p in
      let g := g <| events %= fun l => (l ++ [(id, cancel_event)])%list |> in
      (store id p g) <| cancelled_children %= fun l => (l ++ children)%list |>
    | None => g
    end
  end.

Definition cancel (id : OperationId) (g : Gather) : Gather := spawn [Cancel id] g.

(** [shutdown], and the destructor: the ids are taken under the mutex. *)
Definition shutdown (g : Gather) : Gather := spawn (map Cancel (elements (operations g))) g.

(** A thread in flight runs its next section. *)
Inductive internal_step (g : Gather) : Gather -> Prop :=
| step_task child result t ts :
  tasks g ≡ₚ t :: ts ->
  internal_step g (run_task child result t (g <| tasks := ts |>)).

(** Clients call; the counter of ids is assumed not to run out. *)
Inductive step `{StdSort} (g : Gather) : Gather -> Prop :=
| step_read request completion : next_id g < U64_MAX -> step g (read request completion g)
| step_cancel id : step g (cancel id g)
| step_shutdown : step g (shutdown g)
| step_internal g' : internal_step g g' -> step g g'.

Inductive reachable `{StdSort} : Gather -> Prop :=
| reachable_create g : gather_create true = Ok g -> reachable g
| reachable_step g g' : reachable g -> step g g' -> reachable g'.
