(* ===== verification/GatherStorageTheorems.v ===== *)
(** What gathered reads guarantee: the extents of an accepted request tile its
    destination exactly, and every request is answered exactly once, after the last of
    its children, with what the children and cancellations amount to. *)

From S2P Require Import Prelude.
From S2P Require Import Storage.
From S2P Require Import GatherStorage.

(** ** Validation *)

Definition typed_extent (e : PayloadExtent) : Prop :=
  u64 (source_offset e) /\ u64 (destination_offset e) /\ u64 (pe_bytes e).

Definition typed_request (r : ReadRequest) : Prop :=
  u64 (stored_bytes (rr_record r)) /\ Forall typed_extent (extents (rr_record r)).

(** Byte [k] of the destination is read from [e]. *)
Definition covers (k : Z) (e : PayloadExtent) : Prop :=
  destination_offset e <= k < destination_offset e + pe_bytes e.

Definition apart (a b : PayloadExtent) : Prop :=
  destination_offset a + pe_bytes a <= destination_offset b \/
  destination_offset b + pe_bytes b <= destination_offset a.

Definition proper_extent (e : PayloadExtent) : Prop :=
  pe_path e <> ""%string /\ 0 < pe_bytes e /\ source_offset e + pe_bytes e <= U64_MAX.

(** A request whose extents fill its destination exactly and without overlap. *)
Record tiled (r : ReadRequest) : Prop := mkTiled {
  tiled_data : data (rr_destination r) <> None;
  tiled_fits : 0 < stored_bytes (rr_record r) <= buffer_capacity (rr_destination r);
  tiled_proper : Forall proper_extent (extents (rr_record r));
  tiled_cover k :
    0 <= k < stored_bytes (rr_record r) <-> Exists (covers k) (extents (rr_record r));
  tiled_apart : ForallOrdPairs apart (extents (rr_record r)) }.

(** The extents follow each other from [c] to [c']. *)
Fixpoint consecutive (c : Z) (l : list PayloadExtent) (c' : Z) : Prop :=
  match l with
  | [] => c = c'
  | e :: l => destination_offset e = c /\ consecutive (c + pe_bytes e) l c'
  end.

Lemma consecutive_le c l c' : Forall proper_extent l -> consecutive c l c' -> c <= c'.
Proof.
  intros Hl. revert c. induction Hl as [|e l (_ & He & _) _ IH]; intros c; [simpl; lia|].
  intros [_ H%IH]. lia.
Qed.

Lemma tile_cursor_consecutive stored l c c' :
  u64 stored -> Forall typed_extent l -> 0 <= c <= stored ->
  tile_cursor stored c l = Some c' <->
  Forall proper_extent l /\ consecutive c l c' /\ c' <= stored.
Proof.
  intros Hs Hl. revert c. induction Hl as [|e l (H1 & H2 & H3) _ IH]; intros c Hc; simpl.
  - split; [intros [= <-]; repeat split; [done|lia]|by intros (_ & -> & _)].
  - unfold sub64. rewrite (wrap64_small (stored - c)) by (unfold u64, U64_MAX in *; lia).
    assert (forall P Q R S T : bool, P || Q || R || S || T = false <->
      P = false /\ Q = false /\ R = false /\ S = false /\ T = false) as Hor
      by (intros; rewrite !orb_false_iff; tauto).
    destruct (_ || _) eqn:E.
    + split; [done|]. intros ([(Hp & Hb & Hsrc) Hall]%Forall_cons & [Hd Hrest] & Hle).
      assert (false = true) as [=]. rewrite <- E. symmetry. apply Hor.
      apply consecutive_le in Hrest; [|done]. unfold u64, U64_MAX in *.
      split_and!; [by rewrite bool_decide_eq_false|by apply Z.eqb_neq; lia|
        by apply negb_false_iff, Z.eqb_eq|apply Z.ltb_ge; lia|apply Z.ltb_ge; lia].
    + apply Hor in E as (E1 & E2 & E3 & E4 & E5). apply bool_decide_eq_false in E1.
      apply Z.eqb_neq in E2. apply negb_false_iff, Z.eqb_eq in E3. apply Z.ltb_ge in E4, E5.
      unfold add64. rewrite wrap64_small by (unfold u64, U64_MAX in *; lia).
      rewrite IH by (unfold u64 in *; lia). split.
      * intros (Ha & Hb & Hle). split_and!; [|done|done|done]. constructor; [|done].
        split_and!; [done|unfold u64 in *; lia|lia].
      * intros ([_ Ha]%Forall_cons & [_ Hb] & Hle). done.
Qed.

Lemma consecutive_tiles c l c' :
  Forall proper_extent l -> consecutive c l c' ->
  (forall k, c <= k < c' <-> Exists (covers k) l) /\ ForallOrdPairs apart l.
Proof.
  intros Hl. revert c. induction Hl as [|e l (_ & He & _) Hl IH]; intros c.
  - simpl. intros <-. split; [|constructor]. intros k. split; [lia|by intros ?%Exists_nil].
  - intros [Hd Hc]. destruct (IH _ Hc) as [Hcov Hap]. apply consecutive_le in Hc; [|done]. split.
    + intros k. rewrite Exists_cons, <- Hcov. unfold covers. lia.
    + constructor; [|done]. apply List.Forall_forall. intros e' Hin.
      destruct (proj1 (Forall_forall _ _) Hl e') as (_ & He' & _); [by apply list_elem_of_In|].
      assert (c + pe_bytes e <= destination_offset e' < c') as H; [|unfold apart; lia].
      apply Hcov, Exists_exists. exists e'. split; [by apply list_elem_of_In|unfold covers; lia].
Qed.

Lemma tiles_consecutive c l c' :
  StronglySorted (fun a b => by_destination b a = false) l -> Forall proper_extent l ->
  c <= c' -> (forall k, c <= k < c' <-> Exists (covers k) l) -> ForallOrdPairs apart l ->
  consecutive c l c'.
Proof.
  intros Hs. revert c. induction Hs as [|e l _ IH Hmin]; intros c Hp Hc Hcov Hap; simpl.
  - destruct (decide (c = c')); [done|]. assert (Exists (covers c) []) as Hx by (apply Hcov; lia). by apply Exists_nil in Hx.
  - apply Forall_cons in Hp as [(_ & He & _) Hp]. inversion Hap as [|? ? Hap1 Hap2]; subst.
    assert (forall k, covers k e -> c <= k < c') as Hin by (intros k Hk; apply Hcov; by left).
    pose proof (Hin (destination_offset e) ltac:(unfold covers; lia)) as Hb.
    pose proof (Hin (destination_offset e + pe_bytes e - 1) ltac:(unfold covers; lia)) as Hb'.
    assert (destination_offset e = c) as Hd.
    { pose proof (proj1 (Hcov c) ltac:(lia)) as [Hk|Hk]%Exists_cons; [unfold covers in Hk; lia|].
      apply Exists_exists in Hk as (e' & Hel & Hk).
      pose proof (proj1 (Forall_forall _ _) Hmin e' Hel) as Hle.
      unfold by_destination in Hle. apply Z.ltb_ge in Hle. unfold covers in Hk. lia. }
    split; [done|]. apply IH; [done|lia| |done]. intros k. split.
    + intros Hk. pose proof (proj1 (Hcov k) ltac:(lia)) as [Hk'|Hk']%Exists_cons; [|done].
      unfold covers in Hk'. lia.
    + intros Hk. assert (c <= k < c') as Hr by (apply Hcov; by right).
      apply Exists_exists in Hk as (e' & Hel & Hk).
      pose proof (proj1 (List.Forall_forall _ _) Hap1 e' (proj1 (list_elem_of_In _ _) Hel)) as Ha.
      unfold apart, covers in *. lia.
Qed.

#[export] Instance by_destination_order : StrictWeakOrder by_destination.
Proof. split; unfold by_destination; intros *; rewrite ?Z.ltb_lt, ?Z.ltb_ge; lia. Qed.

Lemma ordpairs_perm {A} (R : A -> A -> Prop) l l' :
  (forall a b, R a b -> R b a) -> l ≡ₚ l' -> ForallOrdPairs R l -> ForallOrdPairs R l'.
Proof.
  intros Hsym. induction 1 as [|x l l' Hp IH|x y l|l l' l'' _ IH1 _ IH2]; intros H.
  - constructor.
  - inversion H as [|? ? Hx Hl]; subst. constructor; [|auto].
    eapply Permutation_Forall; [exact Hp|done].
  - inversion H as [|? ? Hy Hl]; subst. inversion Hl as [|? ? Hx Hl']; subst.
    inversion Hy; subst. constructor; [by constructor; [apply Hsym|]|by constructor].
  - auto.
Qed.

Lemma apart_sym a b : apart a b -> apart b a.
Proof. unfold apart. lia. Qed.

(** Validation by sorting and scanning decides [tiled]. *)
Lemma validate_gather_iff `{StdSort, !StdSortSpec _} r :
  typed_request r -> (validate_gather r = success <-> tiled r).
Proof.
  intros [Hs Ht]. unfold validate_gather. set (l := extents (rr_record r)) in *.
  set (n := stored_bytes (rr_record r)) in *.
  assert (forall k, Exists (covers k) (std_sort by_destination l) <-> Exists (covers k) l) as Hex.
  { intros k. rewrite !Exists_exists. by setoid_rewrite (std_sort_perm by_destination l). }
  assert (typed : Forall typed_extent (std_sort by_destination l)) by (by rewrite std_sort_perm).
  destruct (bool_decide_reflect (l = [])) as [E|E].
  { split; [done|]. intros [_ Hf _ Hc _]. fold l n in Hf, Hc.
    rewrite E in Hc. assert (Exists (covers 0) []) as Hx by (apply Hc; lia). by apply Exists_nil in Hx. }
  destruct (bool_decide_reflect (data (rr_destination r) = None)) as [E1|E1]; simpl.
  { split; [done|]. by intros []. }
  destruct (_ || _) eqn:E2.
  { split; [done|]. intros [_ Hf _ _ _]. fold n in Hf.
    apply orb_true_iff in E2 as [E2%Z.eqb_eq|E2%Z.ltb_lt]; lia. }
  apply orb_false_iff in E2 as [E2%Z.eqb_neq E3%Z.ltb_ge]. assert (0 < n) by (unfold u64 in Hs; lia).
  pose proof (tile_cursor_consecutive n (std_sort by_destination l) 0 n Hs typed ltac:(lia)) as Hspec.
  transitivity (tile_cursor n 0 (std_sort by_destination l) = Some n).
  { destruct (tile_cursor _ _ _) as [c|]; [|by split]. destruct (Z.eqb_spec c n); split; try done; congruence. }
  rewrite Hspec. split.
  - intros (Hp & Hc & _). destruct (consecutive_tiles _ _ _ Hp Hc) as [Hcov Hap].
    split; fold l n; [done|lia|by rewrite std_sort_perm in Hp|intros k; by rewrite Hcov, Hex|].
    by apply (ordpairs_perm _ (std_sort by_destination l)); [apply apart_sym|apply std_sort_perm|].
  - intros [_ _ Hp Hcov Hap]. fold l n in Hp, Hcov, Hap.
    assert (Forall proper_extent (std_sort by_destination l)) by (by rewrite std_sort_perm).
    split_and!; [done| |lia]. apply tiles_consecutive; [by apply std_sort_sorted, _|done|lia| |].
    + intros k. by rewrite Hex.
    + by apply (ordpairs_perm _ l); [apply apart_sym|symmetry; apply std_sort_perm|].
Qed.

(** A gathered read is accepted exactly when its extents, in whatever order, fill the
    destination exactly, byte for byte and without overlap, within its capacity, and
    none of them is empty, unnamed or past the 64-bit range of its source. *)
Theorem gather_accepts_tilings `{StdSort, !StdSortSpec _} r :
  typed_request r -> (validate_gather r = success <-> tiled r).
Proof. apply validate_gather_iff. Qed.

(** ** The invariant

    [view id g] is everything about one operation that the state holds: its object, what
    the threads have still to do for it, and what the outside has seen of it. *)

Definition select {A} (id : OperationId) (l : list (OperationId * A)) : list A :=
  l ≫= fun e => if decide (e.1 = id) then [e.2] else [].

Lemma select_app {A} id (l k : list (OperationId * A)) : select id (l ++ k) = select id l ++ select id k.
Proof. apply bind_app. Qed.

Lemma select_one {A} id j (a : A) : select id [(j, a)] = if decide (j = id) then [a] else [].
Proof. unfold select. simpl. by rewrite app_nil_r. Qed.

Definition task_requests (id : OperationId) (t : Task) : list ReadRequest :=
  match t with Outstanding i r => if decide (i = id) then [r] else [] | _ => [] end.
Definition task_launches (id : OperationId) (t : Task) : list (list PayloadExtent) :=
  match t with Launch i l | Issued i _ l => if decide (i = id) then [l] else [] | _ => [] end.
Definition task_finish (id : OperationId) (t : Task) : list unit :=
  match t with Finish i => if decide (i = id) then [tt] else [] | _ => [] end.
Definition task_erase (id : OperationId) (t : Task) : list ReadResult :=
  match t with Erase i r => if decide (i = id) then [r] else [] | _ => [] end.
Definition task_deliver (id : OperationId) (t : Task) : list ReadResult :=
  match t with Deliver i r => if decide (i = id) then [r] else [] | _ => [] end.
Definition task_found (id : OperationId) (t : Task) : list unit :=
  match t with CancelFound i => if decide (i = id) then [tt] else [] | _ => [] end.

Record View := mkView {
  v_pending : option Pending;
  v_requests : list ReadRequest;
  v_launches : list (list PayloadExtent);
  v_finish : list unit;
  v_erase : list ReadResult;
  v_deliver : list ReadResult;
  v_found : list unit;
  v_events : list Event;
  v_operation : bool;
  v_answers : list ReadResult;
  v_asked : list ReadRequest }.

Definition view (id : OperationId) (g : Gather) : View :=
  mkView (heap g !! id) (tasks g ≫= task_requests id) (tasks g ≫= task_launches id)
    (tasks g ≫= task_finish id) (tasks g ≫= task_erase id) (tasks g ≫= task_deliver id)
    (tasks g ≫= task_found id) (select id (events g)) (bool_decide (id ∈ operations g))
    (select id (answers g)) (select id (asked g)).

(** What the events of an operation amount to: the first failure, and the bytes read. *)
Definition event_status (e : Event) : Status :=
  match e with
  | child_event _ result => rr_status result
  | cancel_event => mkStatus cancelled "extent gather cancelled"
  end.

Definition event_bytes (e : Event) : Z :=
  match e with child_event _ result => read_bytes result | cancel_event => 0 end.

Definition event_request (e : Event) : option ReadRequest :=
  match e with child_event request _ => Some request | cancel_event => None end.

Definition first_failure (l : list Event) : Status :=
  foldl (fun s e => if status_ok s && negb (status_ok (event_status e)) then event_status e else s)
    success l.

Definition summary (request : ReadRequest) (l : list Event) : ReadResult :=
  mkReadResult (first_failure l) (stored_bytes (rr_record request))
    (wrap64 (sumZ (map event_bytes l))).

Definition child_requests (request : ReadRequest) : list ReadRequest :=
  map (child_request request) (extents (rr_record request)).

(** [result] sums up every child and the cancellations before it was taken. *)
Definition sums_up (request : ReadRequest) (l : list Event) (result : ReadResult) : Prop :=
  exists before after, l = before ++ after /\
    omap event_request before ≡ₚ child_requests request /\ result = summary request before.

(** How far an operation has come on its way to the answer. *)
Inductive stage (p : Pending) (l : list Event) :
    list unit -> list ReadResult -> list ReadResult -> list ReadResult -> bool -> Prop :=
| stage_active :
  launching p = true \/ 0 < remaining p -> finished p = false -> stage p l [] [] [] [] true
| stage_finish :
  launching p = false -> remaining p = 0 -> finished p = false -> stage p l [tt] [] [] [] true
| stage_erase result :
  launching p = false -> remaining p = 0 -> finished p = true ->
  sums_up (p_request p) l result -> stage p l [] [result] [] [] true
| stage_deliver result :
  launching p = false -> remaining p = 0 -> finished p = true ->
  sums_up (p_request p) l result -> stage p l [] [] [result] [] false
| stage_answered result :
  launching p = false -> remaining p = 0 -> finished p = true ->
  sums_up (p_request p) l result -> stage p l [] [] [] [result] false.

Section Invariant.
Context {sort : StdSort}.

Record tracked (p : Pending) (v : View) : Prop := mkTracked {
  tr_launches : exists rest,
    v_launches v = (if launching p then [rest] else []) /\ (launching p = false -> rest = []) /\
    child_requests (p_request p) ≡ₚ
      omap event_request (v_events v) ++ v_requests v ++ map (child_request (p_request p)) rest /\
    remaining p = Z.of_nat (length (v_requests v) + length rest);
  tr_status : p_status p = first_failure (v_events v);
  tr_bytes : p_read_bytes p = wrap64 (sumZ (map event_bytes (v_events v)));
  tr_stage : stage p (v_events v) (v_finish v) (v_erase v) (v_deliver v) (v_answers v) (v_operation v);
  tr_asked : v_asked v = [p_request p];
  tr_valid : status_ok (validate_gather (p_request p)) = true }.

(** The answer to a request that does not validate. *)
Definition refusal (r : ReadRequest) : ReadResult :=
  mkReadResult (validate_gather r) (stored_bytes (rr_record r)) 0.

(** Operations that were refused, or had no completion, or do not exist yet. *)
Record untracked (v : View) : Prop := mkUntracked {
  un_tasks : v_requests v = [] /\ v_launches v = [] /\ v_finish v = [] /\ v_erase v = [] /\ v_found v = [];
  un_events : v_events v = [];
  un_operation : v_operation v = false;
  un_answer : v_deliver v ++ v_answers v = map refusal (v_asked v);
  un_once : (length (v_asked v) <= 1)%nat;
  un_refused : Forall (fun r => status_ok (validate_gather r) = false) (v_asked v) }.

Definition coherent (v : View) : Prop :=
  match v_pending v with Some p => tracked p v | None => untracked v end.

Definition inv (g : Gather) : Prop :=
  forall id, coherent (view id g) /\ (next_id g <= id -> v_pending (view id g) = None /\ v_asked (view id g) = []).

(** The order of the tasks does not matter. *)
Lemma bind_perm {A B} (f : A -> list B) l k : l ≡ₚ k -> (l ≫= f) ≡ₚ (k ≫= f).
Proof. intros H. by rewrite H. Qed.

Lemma short_perm {A} (l k : list A) : (length l <= 1)%nat -> l ≡ₚ k -> l = k.
Proof.
  destruct l as [|x [|]]; simpl; intros H; [by intros ?%Permutation_nil_l|intros Hp; by apply Permutation_singleton_l|lia].
Qed.

Lemma inv_perm g l : tasks g ≡ₚ l -> inv g -> inv (g <| tasks := l |>).
Proof.
  intros Hp H id. destruct (H id) as [Hc Hn]. split; [|exact Hn]. clear H Hn.
  unfold coherent, view in *. cbn [v_pending heap] in *. simpl (heap _).
  pose proof (bind_perm (task_requests id) _ _ Hp) as P1.
  pose proof (bind_perm (task_launches id) _ _ Hp) as P2.
  pose proof (bind_perm (task_finish id) _ _ Hp) as P3.
  pose proof (bind_perm (task_erase id) _ _ Hp) as P4.
  pose proof (bind_perm (task_deliver id) _ _ Hp) as P5.
  pose proof (bind_perm (task_found id) _ _ Hp) as P6.
  revert P1 P2 P3 P4 P5 P6 Hc. simpl (tasks _).
  generalize (tasks g ≫= task_requests id) (l ≫= task_requests id)
    (tasks g ≫= task_launches id) (l ≫= task_launches id) (tasks g ≫= task_finish id)
    (l ≫= task_finish id) (tasks g ≫= task_erase id) (l ≫= task_erase id)
    (tasks g ≫= task_deliver id) (l ≫= task_deliver id) (tasks g ≫= task_found id) (l ≫= task_found id).
  intros a1 b1 a2 b2 a3 b3 a4 b4 a5 b5 a6 b6 P1 P2 P3 P4 P5 P6.
  destruct (heap g !! id) as [p|]; simpl.
  - intros [(rest & E & Hl & Hr & Hn) Hs Hb Hst Ha Hv]; simpl in *. split; simpl; [|done|done| |done|done].
    + exists rest. rewrite <- P1. split_and!; [|done|done|done].
      destruct (launching p); subst a2; [by apply Permutation_singleton_r|by apply Permutation_nil_r].
    + inversion Hst; subst; repeat match goal with
        | H : [] ≡ₚ _ |- _ => apply Permutation_nil_l in H
        | H : [_] ≡ₚ _ |- _ => apply Permutation_singleton_l in H
        end; subst; by constructor.
  - intros [(E1 & E2 & E3 & E4 & E6) He Ho Ha Hon Hr]; simpl in *. subst.
    split; simpl; try done.
    + split_and!; symmetry; by apply Permutation_nil_l.
    + rewrite <- (short_perm a5 b5); [done| |done].
      apply (f_equal length) in Ha. rewrite length_app, length_map in Ha. lia.
Qed.

(** ** The steps *)

(** Operations other than the one a task works on see nothing of it. *)
Definition task_id (t : Task) : OperationId :=
  match t with
  | Launch i _ | Issued i _ _ | Outstanding i _ | Finish i | Erase i _ | Deliver i _
  | Cancel i | CancelFound i => i
  end.

Lemma view_run_other child result t ts g id :
  task_id t <> id ->
  view id (run_task child result t (g <| tasks := ts |>)) =
  view id (g <| tasks := t :: ts |>).
Proof.
  intros Hne. destruct t as [i [|e l]|i c l|i r|i|i r|i r|i|i]; simpl in Hne; unfold run_task; simpl (heap _).
  all: try destruct (heap g !! i) as [p|] eqn:Hp.
  all: unfold child_issued, launched, child_completed, cancel_pending, take_result; try case_match; simplify_eq/=.
  all: repeat case_match; simplify_eq/=.
  all: unfold view; simpl; rewrite ?select_app, ?select_one, ?lookup_insert_ne by done.
  all: rewrite ?(decide_False (P := i = id)) by done; rewrite ?app_nil_r; try done.
  all: f_equal; apply bool_decide_ext; set_solver.
Qed.

Lemma decide_refl {A} (x y : A) (i : Z) : (if decide (i = i) then x else y) = x.
Proof. by rewrite decide_True. Qed.

Ltac own := unfold coherent, view; simpl; rewrite ?decide_refl; simpl; unfold mbind in *.

Lemma run_Launch child result i e l ts g :
  coherent (view i (g <| tasks := Launch i (e :: l) :: ts |>)) ->
  coherent (view i (run_task child result (Launch i (e :: l)) (g <| tasks := ts |>))).
Proof.
  own. destruct (heap g !! i) as [p|] eqn:Hp; [|by intros [(_ & [=] & _) _ _ _ _ _]].
  own. rewrite Hp. intros [(rest & E & _ & Hr & Hn) Hs Hb Hst Ha Hv]; simpl in *.
  destruct (launching p) eqn:El; [|done]. injection E as <- E2. split; simpl; try done.
  exists l. rewrite E2. split_and!; [by rewrite El|by rewrite El| |].
  - rewrite Hr. simpl. by rewrite <- Permutation_middle.
  - rewrite Hn. simpl. lia.
Qed.

(** The stage depends on the object only through these members, and later events do not
    undo it. *)
Lemma stage_later p p' l l' f e d a o :
  launching p' = launching p -> remaining p' = remaining p -> finished p' = finished p ->
  p_request p' = p_request p -> stage p l f e d a o -> stage p' (l ++ l') f e d a o.
Proof.
  intros E1 E2 E3 E4 H.
  assert (forall r, sums_up (p_request p) l r -> sums_up (p_request p') (l ++ l') r) as Hs.
  { rewrite E4. intros r (b & c & -> & Hb). exists b, (c ++ l'). by rewrite app_assoc. }
  inversion H; subst; constructor; rewrite ?E1, ?E2, ?E3; auto.
Qed.

Lemma first_failure_app l e :
  first_failure (l ++ [e]) =
  if status_ok (first_failure l) && negb (status_ok (event_status e)) then event_status e
  else first_failure l.
Proof. unfold first_failure. by rewrite foldl_app. Qed.

Lemma event_bytes_app l e :
  wrap64 (sumZ (map event_bytes (l ++ [e]))) =
  add64 (wrap64 (sumZ (map event_bytes l))) (event_bytes e).
Proof.
  unfold add64. rewrite map_app, sumZ_app. simpl. rewrite Z.add_0_r. by rewrite wrap64_add_l.
Qed.

Lemma run_Issued child result i c l ts g :
  coherent (view i (g <| tasks := Issued i c l :: ts |>)) ->
  coherent (view i (run_task child result (Issued i c l) (g <| tasks := ts |>))).
Proof.
  own. destruct (heap g !! i) as [p|] eqn:Hp; [|by intros [(_ & [=] & _) _ _ _ _ _]].
  intros Htr. unfold child_issued. simpl. destruct (p_cancelled p); own; rewrite lookup_insert_eq.
  all: destruct Htr as [(rest & E & Hl & Hr & Hn) Hs Hb Hst Ha Hv]; simpl in *.
  all: split; simpl; try done; [by exists rest|].
  all: rewrite <- (app_nil_r (select i (events g))); eapply stage_later; [..|exact Hst]; done.
Qed.

Lemma stage_under_way p l f e d a o :
  stage p l f e d a o -> launching p = true \/ 0 < remaining p ->
  finished p = false /\ f = [] /\ e = [] /\ d = [] /\ a = [] /\ o = true.
Proof. intros []; try (intros [?|?]; (congruence || lia)). auto 6. Qed.

Lemma run_launched child result i ts g :
  coherent (view i (g <| tasks := Launch i [] :: ts |>)) ->
  coherent (view i (run_task child result (Launch i []) (g <| tasks := ts |>))).
Proof.
  own. destruct (heap g !! i) as [p|] eqn:Hp; [|by intros [(_ & [=] & _) _ _ _ _ _]].
  intros [(rest & E & _ & Hr & Hn) Hs Hb Hst Ha Hv]; simpl in *.
  destruct (launching p) eqn:El; [|done]. injection E as <- E2.
  rewrite Z.eqb_sym. destruct (Z.eqb_spec 0 (remaining p)) as [H0|H0].
  all: own; rewrite lookup_insert_eq; (split; simpl; [by exists []|done|done| |done|done]).
  all: unfold mbind in *; destruct (stage_under_way _ _ _ _ _ _ _ Hst ltac:(by left)) as (? & -> & -> & -> & -> & ->).
  - by apply stage_finish.
  - apply stage_active; simpl; [right; lia|done].
Qed.

(** What a child's completion does to the object, in terms of its events. *)
Lemma child_completed_spec result r p evs p' complete :
  p_status p = first_failure evs -> p_read_bytes p = wrap64 (sumZ (map event_bytes evs)) ->
  0 < remaining p -> child_completed result p = (p', complete) ->
  remaining p' = remaining p - 1 /\
  p_status p' = first_failure (evs ++ [child_event r result]) /\
  p_read_bytes p' = wrap64 (sumZ (map event_bytes (evs ++ [child_event r result]))) /\
  launching p' = launching p /\ finished p' = finished p /\ p_request p' = p_request p /\
  complete = (remaining p' =? 0) && negb (launching p').
Proof.
  intros Hs Hb Hn. rewrite first_failure_app, event_bytes_app, <- Hs, <- Hb.
  simpl (event_status _). simpl (event_bytes _).
  unfold child_completed. rewrite (andb_comm (status_ok (p_status p))).
  destruct (_ && _); simpl; (destruct (Z.eqb_spec (remaining p) 0); [lia|]); simpl;
    intros [= <- <-]; simpl; split_and!; done.
Qed.

#[local] Opaque child_completed.

Lemma run_Outstanding child result i r ts g :
  coherent (view i (g <| tasks := Outstanding i r :: ts |>)) ->
  coherent (view i (run_task child result (Outstanding i r) (g <| tasks := ts |>))).
Proof.
  own. destruct (heap g !! i) as [p|] eqn:Hp; [|by intros [([=] & _) _ _ _ _ _]].
  intros [(rest & E & Hl & Hr & Hn) Hs Hb Hst Ha Hv]; simpl in *.
  destruct (child_completed result p) as [p' complete] eqn:Ec.
  destruct (child_completed_spec _ r _ _ _ _ Hs Hb ltac:(lia) Ec)
    as (R1 & R2 & R3 & R4 & R5 & R6 & R7). clear Ec.
  destruct (stage_under_way _ _ _ _ _ _ _ Hst ltac:(right; lia)) as (F1 & F2 & F3 & F4 & F5 & F6).
  own. rewrite lookup_insert_eq, select_app, select_one, decide_refl.
  unfold mbind in *.
  assert (exists rest, list_bind _ _ (task_launches i) ts = (if launching p' then [rest] else []) /\
    (launching p' = false -> rest = []) /\
    child_requests (p_request p') ≡ₚ omap event_request (select i (events g) ++ [child_event r result]) ++
      list_bind _ _ (task_requests i) ts ++ map (child_request (p_request p')) rest /\
    remaining p' = Z.of_nat (length (list_bind _ _ (task_requests i) ts) + length rest)) as Hrest.
  { exists rest. rewrite R4, R6. split_and!; [done|done| |lia].
    rewrite Hr, omap_app. simpl. by rewrite <- !app_assoc. }
  destruct complete; (split; simpl; [exact Hrest|exact R2|exact R3| |by rewrite R6|by rewrite R6]);
    rewrite ?decide_refl, F2, F3, F4, F5, F6; simpl; rewrite R4 in R7.
  - symmetry in R7. apply andb_true_iff in R7 as [E1%Z.eqb_eq E2%negb_true_iff].
    apply stage_finish; congruence.
  - symmetry in R7. apply andb_false_iff in R7 as [E1%Z.eqb_neq|E1%negb_false_iff];
      (apply stage_active; [|congruence]); [right; lia|left; congruence].
Qed.

(** The stage read off the task that runs. *)
Lemma stage_finishing p l x f e d a o :
  stage p l (x :: f) e d a o ->
  launching p = false /\ remaining p = 0 /\ finished p = false /\
  f = [] /\ e = [] /\ d = [] /\ a = [] /\ o = true.
Proof. inversion 1; subst. auto 8. Qed.

Lemma stage_erasing p l r f e d a o :
  stage p l f (r :: e) d a o ->
  launching p = false /\ remaining p = 0 /\ finished p = true /\ sums_up (p_request p) l r /\
  f = [] /\ e = [] /\ d = [] /\ a = [].
Proof. inversion 1; subst. auto 8. Qed.

Lemma stage_delivering p l r f e d a o :
  stage p l f e (r :: d) a o ->
  launching p = false /\ remaining p = 0 /\ finished p = true /\ sums_up (p_request p) l r /\
  f = [] /\ e = [] /\ d = [] /\ a = [] /\ o = false.
Proof. inversion 1; subst. auto 10. Qed.

Lemma run_Finish child result i ts g :
  coherent (view i (g <| tasks := Finish i :: ts |>)) ->
  coherent (view i (run_task child result (Finish i) (g <| tasks := ts |>))).
Proof.
  own. destruct (heap g !! i) as [p|] eqn:Hp; [|by intros [(_ & _ & [=] & _) _ _ _ _ _]].
  intros [(rest & E & Hl & Hr & Hn) Hs Hb Hst Ha Hv]; simpl in *.
  destruct (stage_finishing _ _ _ _ _ _ _ _ Hst) as (E1 & E2 & E3 & E4 & E5 & E6 & E7 & E8).
  unfold take_result. rewrite E3. own. rewrite lookup_insert_eq.
  (split; simpl; [by exists rest|done|done| |done|done]).
  rewrite E4, E5, E6, E7, E8. apply stage_erase; try done.
  exists (select i (events g)), []. rewrite app_nil_r. split_and!; [done| |].
  - rewrite Hr. rewrite E2 in Hn. destruct rest; [|simpl in Hn; lia]. unfold mbind in *.
    destruct (list_bind _ _ (task_requests i) ts); [|simpl in Hn; lia]. simpl. by rewrite app_nil_r.
  - unfold summary. by rewrite Hs, Hb.
Qed.

Lemma run_Erase child result i r ts g :
  coherent (view i (g <| tasks := Erase i r :: ts |>)) ->
  coherent (view i (run_task child result (Erase i r) (g <| tasks := ts |>))).
Proof.
  own. destruct (heap g !! i) as [p|] eqn:Hp; [|by intros [(_ & _ & _ & [=] & _) _ _ _ _ _]].
  intros [Hl Hs Hb Hst Ha Hv]; simpl in *. own. (split; simpl; [done|done|done| |done|done]).
  destruct (stage_erasing _ _ _ _ _ _ _ _ Hst) as (E1 & E2 & E3 & E4 & E5 & E6 & E7 & E8).
  rewrite bool_decide_eq_false_2 by set_solver. rewrite E5, E6, E7, E8. by apply stage_deliver.
Qed.

Lemma run_Deliver child result i r ts g :
  coherent (view i (g <| tasks := Deliver i r :: ts |>)) ->
  coherent (view i (run_task child result (Deliver i r) (g <| tasks := ts |>))).
Proof.
  own. rewrite select_app, select_one, decide_refl.
  destruct (heap g !! i) as [p|] eqn:Hp.
  - intros [Hl Hs Hb Hst Ha Hv]; simpl in *. (split; simpl; [done|done|done| |done|done]).
    destruct (stage_delivering _ _ _ _ _ _ _ _ Hst) as (E1 & E2 & E3 & E4 & E5 & E6 & E7 & E8 & E9).
    rewrite E5, E6, E7, E8, E9. by apply stage_answered.
  - intros [Ht He Ho Ha Hon Hr]; simpl in *. split; simpl; try done.
    unfold mbind in *. destruct (select i (asked g)) as [|req [|]]; [done| |simpl in Hon; lia].
    injection Ha as -> [E1 E2]%app_nil. by rewrite E1, E2.
Qed.

Lemma cancel_pending_spec p evs p' l :
  p_status p = first_failure evs -> p_read_bytes p = wrap64 (sumZ (map event_bytes evs)) ->
  cancel_pending p = (p', l) ->
  p_status p' = first_failure (evs ++ [cancel_event]) /\
  p_read_bytes p' = wrap64 (sumZ (map event_bytes (evs ++ [cancel_event]))) /\
  launching p' = launching p /\ remaining p' = remaining p /\ finished p' = finished p /\
  p_request p' = p_request p.
Proof.
  intros Hs Hb. rewrite first_failure_app, event_bytes_app, <- Hs, <- Hb. simpl (event_bytes _).
  unfold cancel_pending. simpl. unfold add64. rewrite Z.add_0_r, andb_true_r.
  replace (wrap64 (p_read_bytes p)) with (p_read_bytes p) by (rewrite Hb; unfold wrap64; by rewrite Zmod_mod).
  destruct (status_ok (p_status p)); intros [= <- <-]; by split_and!.
Qed.

#[local] Opaque cancel_pending.

Lemma run_CancelFound child result i ts g :
  coherent (view i (g <| tasks := CancelFound i :: ts |>)) ->
  coherent (view i (run_task child result (CancelFound i) (g <| tasks := ts |>))).
Proof.
  own. destruct (heap g !! i) as [p|] eqn:Hp; [|by intros [(_ & _ & _ & _ & [=]) _ _ _ _ _]].
  intros [(rest & E & Hl & Hr & Hn) Hs Hb Hst Ha Hv]; simpl in *.
  destruct (cancel_pending p) as [p' l] eqn:Ec.
  destruct (cancel_pending_spec _ _ _ _ Hs Hb Ec) as (R1 & R2 & R3 & R4 & R5 & R6). clear Ec.
  own. rewrite lookup_insert_eq, select_app, select_one, decide_refl.
  (split; simpl; [|exact R1|exact R2| |by rewrite R6|by rewrite R6]).
  - exists rest. rewrite R3, R4, R6, omap_app. simpl. rewrite app_nil_r. by split_and!.
  - eapply stage_later; [..|exact Hst]; done.
Qed.

Lemma run_Cancel child result i ts g :
  coherent (view i (g <| tasks := Cancel i :: ts |>)) ->
  coherent (view i (run_task child result (Cancel i) (g <| tasks := ts |>))).
Proof.
  intros H. cbn [run_task]. destruct (bool_decide _) eqn:Hi; revert H; [|done].
  own. destruct (heap g !! i) as [p|] eqn:Hp.
  - intros [H1 H2 H3 H4 H5 H6]. by split.
  - intros [_ _ Ho _ _ _]. simpl in Ho. simpl in Hi. congruence.
Qed.

Lemma run_task_inv child result t ts g :
  inv (g <| tasks := t :: ts |>) -> inv (run_task child result t (g <| tasks := ts |>)).
Proof.
  intros H id. destruct (H id) as [Hc Hn].
  assert (next_id (run_task child result t (g <| tasks := ts |>)) = next_id g /\ (v_pending (view id (g <| tasks := t :: ts |>)) = None ->
     v_pending (view id (run_task child result t (g <| tasks := ts |>))) = None) /\ v_asked (view id (run_task child result t (g <| tasks := ts |>))) =
    v_asked (view id (g <| tasks := t :: ts |>))) as (E1 & E2 & E3).
  { clear H Hc Hn.
    destruct t as [i [|e l]|i c l|i r|i|i r|i r|i|i]; simpl; try case_bool_decide; try done.
    all: destruct (heap g !! i) as [p|] eqn:Hp; try done; unfold child_issued, take_result;
      repeat case_match; simplify_eq/=; (split_and!; try done).
    all: rewrite lookup_insert_None; intros ?; split; congruence. }
  split; [|rewrite E1, E3; intros [Hp ?]%Hn; by split; [apply E2|]].
  clear Hn E1 E2 E3. destruct (decide (task_id t = id)) as [<-|Hne]; [|by rewrite view_run_other].
  destruct t as [i [|e l]|i c l|i r|i|i r|i r|i|i]; revert Hc.
  - apply run_launched.
  - apply run_Launch.
  - apply run_Issued.
  - apply run_Outstanding.
  - apply run_Finish.
  - apply run_Erase.
  - apply run_Deliver.
  - apply run_Cancel.
  - apply run_CancelFound.
Qed.

Lemma view_cancels l id g : view id (spawn (map Cancel l) g) = view id g.
Proof. unfold view. simpl. rewrite !bind_app. by induction l. Qed.

Lemma inv_cancels l g : inv g -> inv (spawn (map Cancel l) g).
Proof. intros Hi id. rewrite view_cancels. exact (Hi id). Qed.

Lemma view_read_other request completion g id :
  next_id g <> id -> view id (read request completion g) = view id g.
Proof.
  intros Hne. unfold read. destruct completion; [|done]. simpl.
  destruct (status_ok _); unfold view; simpl; rewrite ?(decide_False (P := next_id g = id)) by done;
    simpl; [|done]. rewrite lookup_insert_ne by done. f_equal. apply bool_decide_ext. set_solver.
Qed.

Lemma read_inv request completion g : next_id g < U64_MAX -> 0 < next_id g -> inv g -> inv (read request completion g).
Proof.
  intros Hlt Hpos Hi id.
  assert (next_id (read request completion g) = next_id g + 1) as En.
  { unfold read. assert (inc64 (next_id g) = next_id g + 1) as E
      by (unfold inc64, add64; apply wrap64_small; unfold u64; lia).
    destruct completion; [|done]. simpl. by destruct (status_ok _). }
  rewrite En. destruct (decide (next_id g = id)) as [<-|Hne].
  2: { rewrite view_read_other by done. destruct (Hi id) as [Hc Hn]. split; [done|]. intros ?. apply Hn. lia. }
  split; [|lia]. destruct (Hi (next_id g)) as [Hc [Hp Ha]]; [lia|]. revert Hc. clear Hi En.
  unfold coherent. rewrite Hp. intros [(E1 & E2 & E3 & E4 & E6) He Ho Han _ _].
  rewrite Ha in Han. apply app_nil in Han as [Hd Han].
  unfold view in *. simpl in *. unfold mbind in *. unfold read.
  destruct completion; simpl.
  2: { rewrite Hp. split; simpl; rewrite ?Ha, ?Hd, ?Han; [by split_and!|done|done|done|simpl; lia|constructor]. }
  destruct (status_ok (validate_gather request)) eqn:Hv; simpl.
  - rewrite lookup_insert_eq. unfold mbind. rewrite !decide_refl, E1, E2, E3, E4, E6, He, Ha, Hd, Han.
    rewrite bool_decide_eq_true_2 by set_solver. split; simpl; try done.
    + by exists (extents (rr_record request)).
    + apply stage_active; [by left|done].
  - rewrite Hp. unfold mbind. rewrite !decide_refl, E1, E2, E3, E4, E6, He, Ha, Hd, Han, Ho.
    split; simpl; try done. by constructor.
Qed.

Lemma gather_reachable_inv g : reachable g -> inv g /\ 0 < next_id g.
Proof.
  induction 1 as [g Hg|g g' _ [IH Hpos] Hstep].
  - injection Hg as <-. split; [|done]. intros id. split; [|done].
    unfold coherent, view. simpl. rewrite lookup_empty. split; try done; simpl. lia.
  - destruct Hstep as [request completion Hlt|id| |g' [child result t ts Hp]].
    + split; [by apply read_inv|]. unfold read.
      assert (inc64 (next_id g) = next_id g + 1) as E
        by (unfold inc64, add64; apply wrap64_small; unfold u64; lia).
      destruct completion; simpl; [destruct (status_ok _)|]; simpl; lia.
    + split; [|done]. by apply (inv_cancels [id]).
    + split; [|done]. by apply inv_cancels.
    + split; [by apply run_task_inv, inv_perm|].
      destruct t as [i [|e l]|i c l|i r|i|i r|i r|i|i]; simpl; try case_bool_decide; try done.
      all: destruct (heap g !! i); try done; unfold child_issued, take_result; repeat case_match; by simplify_eq/=.
Qed.
End Invariant.

(** ** What clients see *)

Lemma elem_of_select_id {A} id (a : A) l : a ∈ select id l <-> (id, a) ∈ l.
Proof.
  unfold select. rewrite list_elem_of_bind. split.
  - intros ([j b] & Hin & Hl). simpl in Hin. case_decide as Hd; [|set_solver].
    apply list_elem_of_singleton in Hin as ->. by subst.
  - intros Hl. exists (id, a). simpl. rewrite decide_True by done. set_solver.
Qed.

Lemma select_keys {A} id (l : list (OperationId * A)) : id ∈ l.*1 <-> select id l <> [].
Proof.
  rewrite list_elem_of_fmap. split.
  - intros ([j a] & -> & Hin%elem_of_select_id) E. simpl in *. rewrite E in Hin. set_solver.
  - destruct (select id l) as [|a k] eqn:E; [done|]. intros _. exists (id, a). split; [done|].
    apply elem_of_select_id. rewrite E. set_solver.
Qed.

Lemma select_NoDup {A} (l : list (OperationId * A)) :
  (forall id, (length (select id l) <= 1)%nat) -> NoDup l.*1.
Proof.
  induction l as [|[j a] l IH]; intros H; [constructor|]. rewrite fmap_cons. simpl. constructor.
  - intros Hin%select_keys. simpl in Hin. specialize (H j). change ((j, a) :: l) with ([(j, a)] ++ l) in H.
    rewrite select_app, select_one, decide_refl in H. simpl in H. by destruct (select j l); [|simpl in H; lia].
  - apply IH. intros id. specialize (H id). change ((j, a) :: l) with ([(j, a)] ++ l) in H.
    rewrite select_app, length_app in H. lia.
Qed.

(** An operation with its answer, in any reachable state. *)
Lemma answered_view `{StdSort} g id :
  reachable g -> select id (answers g) <> [] ->
  exists request result,
    select id (asked g) = [request] /\ select id (answers g) = [result] /\
    tasks g ≫= task_requests id = [] /\ tasks g ≫= task_launches id = [] /\
    if status_ok (validate_gather request) then sums_up request (select id (events g)) result
    else result = refusal request.
Proof.
  intros [Hi _]%gather_reachable_inv Hans. destruct (Hi id) as [Hc _]. unfold coherent in Hc.
  destruct (v_pending (view id g)) as [p|].
  - destruct Hc as [(rest & E & Hl & Hr & Hn) _ _ Hst Ha Hv]; simpl in *.
    inversion Hst; subst; try congruence. exists (p_request p), result.
    rewrite Hv. split_and!; try done; unfold mbind in *.
    + destruct (list_bind _ _ (task_requests id) (tasks g)); [done|simpl in Hn; lia].
    + rewrite E. match goal with H : launching p = false |- _ => by rewrite H end.
  - destruct Hc as [(E1 & E2 & _) _ _ Ha Hon Hr]; simpl in *.
    destruct (select id (asked g)) as [|request [|]]; [|destruct (tasks g ≫= task_deliver id)|simpl in Hon; lia].
    + by apply app_nil in Ha as [_ ?].
    + simpl in Ha. exists request, (refusal request). split_and!; try done.
      apply Forall_cons in Hr as [Hr _]. by rewrite Hr.
    + injection Ha as _ Ha. by apply app_nil in Ha as [_ ?].
Qed.

(** C21: No client is answered twice: an answer names a request that was made, and it is
    the refusal of a request that does not validate, or sums up all of its children (the
    first failure or cancellation before it, and the bytes read). By then no child of
    the request is in flight any more and none will be issued, so that nothing writes to
    its destination after the answer. *)
Theorem gather_answers_once `{StdSort} g id result :
  reachable g -> (id, result) ∈ answers g ->
  NoDup (answers g).*1 /\
  exists request, (id, request) ∈ asked g /\
    (forall child, Outstanding id child ∉ tasks g) /\ (forall rest, Launch id rest ∉ tasks g) /\
    if status_ok (validate_gather request) then sums_up request (select id (events g)) result
    else result = refusal request.
Proof.
  intros Hr Hin. split.
  - apply select_NoDup. intros j. destruct (select j (answers g)) eqn:E; [simpl; lia|].
    destruct (answered_view g j Hr) as (? & ? & _ & E' & _); [congruence|]. rewrite <- E, E'. simpl. lia.
  - apply elem_of_select_id in Hin.
    destruct (answered_view g id Hr) as (request & r & Ha & Hs & Hq & Hl & Hres);
      [intros E; rewrite E in Hin; by apply not_elem_of_nil in Hin|].
    rewrite Hs in Hin. apply list_elem_of_singleton in Hin as ->. exists request. split_and!; [..|done].
    + apply elem_of_select_id. rewrite Ha. by apply list_elem_of_singleton.
    + intros c Hc. assert (c ∈ tasks g ≫= task_requests id) as Hx; [|rewrite Hq in Hx; by apply not_elem_of_nil in Hx].
      apply list_elem_of_bind. exists (Outstanding id c). simpl. rewrite decide_refl.
      split; [by apply list_elem_of_singleton|done].
    + intros c Hc. assert (c ∈ tasks g ≫= task_launches id) as Hx; [|rewrite Hl in Hx; by apply not_elem_of_nil in Hx].
      apply list_elem_of_bind. exists (Launch id c). simpl. rewrite decide_refl.
      split; [by apply list_elem_of_singleton|done].
Qed.

(** What is left to do for the threads in flight. *)
Definition task_work (t : Task) : nat :=
  match t with
  | Launch _ rest => 4 + 6 * length rest
  | Issued _ _ rest => 5 + 6 * length rest
  | Outstanding _ _ => 4
  | Finish _ => 3
  | Erase _ _ => 2
  | Deliver _ _ => 1
  | Cancel _ => 2
  | CancelFound _ => 1
  end.

Definition work (g : Gather) : nat := list_sum (map task_work (tasks g)).

Lemma run_task_work child result t g :
  (work (run_task child result t g) < task_work t + work g)%nat.
Proof.
  destruct t as [i [|e l]|i c l|i r|i|i r|i r|i|i]; unfold run_task, work.
  all: try (destruct (heap g !! i) as [p|]; [|simpl; lia]).
  all: unfold child_issued, launched, take_result; repeat case_match; simplify_eq/=; lia.
Qed.

Lemma internal_step_work g g' : internal_step g g' -> (work g' < work g)%nat.
Proof.
  intros [child result t ts Hp].
  assert (work g = task_work t + work (g <| tasks := ts |>))%nat as ->.
  { unfold work. simpl. change (list_sum (map task_work (tasks g)) = list_sum (map task_work (t :: ts))).
    by rewrite Hp. }
  apply run_task_work.
Qed.

Lemma nsteps_work n g g' : nsteps internal_step n g g' -> (n + work g' <= work g)%nat.
Proof. induction 1 as [|n g g' g'' Hs%internal_step_work _ IH]; lia. Qed.

(** C22: Everyone is answered: however the threads are scheduled and whatever the backing
    storage returns, they come to an end after a bounded number of sections, and where
    they end, every request with a completion has exactly one answer and no operation
    is left registered. *)
Theorem gather_answers_everyone `{StdSort} g :
  reachable g ->
  (forall n g', nsteps internal_step n g g' -> (n <= work g)%nat) /\
  (forall g', rtc internal_step g g' ->
     (exists g'', internal_step g' g'') \/
     ((answers g').*1 ≡ₚ (asked g').*1 /\ NoDup (asked g').*1 /\ operations g' = ∅)).
Proof.
  intros Hr. split; [intros n g' Hn%nsteps_work; lia|]. intros g' Hrtc.
  assert (reachable g') as Hr'.
  { induction Hrtc as [|g g' g'' Hs _ IH]; [done|]. apply IH. econstructor; [done|by constructor]. }
  clear g Hr Hrtc. destruct (tasks g') as [|t ts] eqn:Et.
  2: { left. eexists. apply (step_task g' 0 (mkReadResult success 0 0) t ts). by rewrite Et. }
  right. pose proof (proj1 (gather_reachable_inv g' Hr')) as Hi.
  assert (forall id, length (select id (answers g')) = length (select id (asked g')) /\
    (length (select id (asked g')) <= 1)%nat /\ id ∉ operations g') as Hall.
  { intros id. destruct (Hi id) as [Hc _]. unfold coherent, view in Hc. rewrite Et in Hc. simpl in Hc.
    destruct (heap g' !! id) as [p|].
    - destruct Hc as [(rest & E & Hl & _ & Hn) _ _ Hst Ha Hv]; simpl in *.
      rewrite Ha. destruct (launching p) eqn:El; [done|]. rewrite (Hl eq_refl) in Hn. simpl in Hn.
      inversion Hst as [[|]| | | |]; subst; try (congruence || lia).
      simpl. split_and!; [done|lia|]. apply (proj1 (bool_decide_eq_false (id ∈ operations g'))). congruence.
    - destruct Hc as [_ _ Ho Ha Hon _]; simpl in *. rewrite Ha, length_map. split_and!; [done|done|].
      by apply (proj1 (bool_decide_eq_false (id ∈ operations g'))). }
  assert (NoDup (asked g').*1) as Hnd by (apply select_NoDup; intros id; apply Hall).
  split_and!; [|done|apply set_eq; intros id; specialize (Hall id); set_solver].
  apply NoDup_Permutation; [apply select_NoDup; intros id; destruct (Hall id); lia|done|].
  intros id. rewrite !select_keys. destruct (Hall id) as [E _].
  destruct (select id (answers g')), (select id (asked g')); simpl in E; by try lia.
Qed.

(** ** Examples *)

(** Twelve bytes from three ranges of two files, listed out of order. *)
Definition demo_request : ReadRequest :=
  mkReadRequest
    (default_record <| stored_bytes := 12 |> <| extents :=
       [mkPayloadExtent "shard-a" 303 7 5; mkPayloadExtent "shard-a" 101 0 4;
        mkPayloadExtent "shard-b" 202 4 3] |>)
    (mkMutableBuffer (Some 4096) 12) true.

Lemma gather_accepts_tilings_witness :
  typed_request demo_request /\ validate_gather (H := stable_std_sort) demo_request = success /\
  (validate_gather (H := stable_std_sort) demo_request = success <-> tiled demo_request).
Proof.
  assert (typed_request demo_request) as Ht.
  { unfold typed_request, demo_request, typed_extent, u64, U64_MAX; simpl.
    split; [lia|]. repeat (constructor; [simpl; lia|]). constructor. }
  split; [exact Ht|]. split; [reflexivity|].
  exact (gather_accepts_tilings (H := stable_std_sort) (StdSortSpec0 := stable_std_sort_spec)
           demo_request Ht).
Defined.

(** A schedule: which task runs next, and what the backing storage answers it. *)
Fixpoint run_schedule (l : list (nat * OperationId * ReadResult)) (g : Gather) : Gather :=
  match l with
  | [] => g
  | (k, child, result) :: l =>
    match tasks g !! k with
    | Some t => run_schedule l (run_task child result t (g <| tasks := delete k (tasks g) |>))
    | None => run_schedule l g
    end
  end.

Lemma run_schedule_reachable `{StdSort} l g : reachable g -> reachable (run_schedule l g).
Proof.
  revert g. induction l as [|[[k child] result] l IH]; intros g Hg; simpl; [done|].
  destruct (tasks g !! k) as [t|] eqn:Hk; apply IH; [|done].
  eapply reachable_step; [done|]. apply step_internal. constructor.
  rewrite <- (take_drop_middle _ _ _ Hk) at 1. rewrite delete_take_drop. by rewrite Permutation_middle.
Qed.

Definition demo_start : Gather :=
  read (H := stable_std_sort) demo_request true (mkGather 1 ∅ ∅ [] [] [] [] []).

Definition demo_ok (bytes : Z) : ReadResult := mkReadResult success bytes bytes.

(** The second child completes before the third is issued; the first one fails, short. *)
Definition demo_end : Gather :=
  run_schedule
    [(0%nat, 11, demo_ok 0); (1%nat, 0, demo_ok 0); (0%nat, 12, demo_ok 0); (0%nat, 0, demo_ok 4);
     (0%nat, 0, demo_ok 0); (0%nat, 13, demo_ok 0); (0%nat, 0, demo_ok 3); (0%nat, 0, demo_ok 0);
     (0%nat, 0, demo_ok 0);
     (0%nat, 0, mkReadResult (mkStatus short_read "eof") 5 2);
     (0%nat, 0, demo_ok 0); (0%nat, 0, demo_ok 0); (0%nat, 0, demo_ok 0)] demo_start.

Lemma demo_gather_reachable : reachable (H := stable_std_sort) demo_start.
Proof.
  apply (reachable_step (H := stable_std_sort) (mkGather 1 ∅ ∅ [] [] [] [] [])).
  - apply reachable_create. reflexivity.
  - apply step_read. reflexivity.
Qed.

Example demo_answers :
  answers demo_end = [(1, mkReadResult (mkStatus short_read "eof") 12 9)] /\ tasks demo_end = [].
Proof. vm_compute. split; reflexivity. Qed.

Lemma gather_answers_once_witness :
  reachable (H := stable_std_sort) demo_end /\
  (1, mkReadResult (mkStatus short_read "eof") 12 9) ∈ answers demo_end /\ NoDup (answers demo_end).*1.
Proof.
  assert (reachable (H := stable_std_sort) demo_end) as Hr.
  { apply (run_schedule_reachable (H := stable_std_sort)), demo_gather_reachable. }
  assert ((1, mkReadResult (mkStatus short_read "eof") 12 9) ∈ answers demo_end) as Hin.
  { rewrite (proj1 demo_answers). left. }
  split; [exact Hr|]. split; [exact Hin|].
  exact (proj1 (gather_answers_once (H := stable_std_sort) demo_end _ _ Hr Hin)).
Defined.

Lemma gather_answers_everyone_witness :
  reachable (H := stable_std_sort) demo_start /\ work demo_start = 22%nat /\
  (forall n g', nsteps internal_step n demo_start g' -> (n <= work demo_start)%nat).
Proof.
  pose proof demo_gather_reachable as Hr. split; [exact Hr|]. split; [reflexivity|].
  exact (proj1 (gather_answers_everyone (H := stable_std_sort) demo_start Hr)).
Defined.
