(* ===== verification/Binary64.v ===== *)
(** Doubles with rounding: IEEE binary64 numbers with the arithmetic that the Standard
    Library specifies (round to nearest, ties to even), comparison by exact value, and
    the conversions between doubles and integers that the cost models use. *)

From Stdlib Require Import Floats.SpecFloat.
From S2P Require Import Prelude.
From S2P Require Import Doubles.

Definition f64 : Type := spec_float.

#[export] Instance f64_eq_dec : EqDecision f64.
Proof. solve_decision. Defined.

Definition fmul : f64 -> f64 -> f64 := SFmul 53 1024.
Definition fdiv : f64 -> f64 -> f64 := SFdiv 53 1024.
Definition fadd : f64 -> f64 -> f64 := SFadd 53 1024.
Definition fsub : f64 -> f64 -> f64 := SFsub 53 1024.

(** The double nearest to [m * 2^e], and to an integer ([static_cast<double>]). *)
Definition f64_of (m e : Z) : f64 := binary_normalize 53 1024 m e false.
Definition f64_of_Z (z : Z) : f64 := f64_of z 0.

Definition fzero : f64 := S754_zero false.
Definition fone : f64 := f64_of_Z 1.

Definition f64_isfinite (x : f64) : bool :=
  match x with S754_zero _ | S754_finite _ _ _ => true | _ => false end.

(** A finite double as an exact [m * 2^e]. *)
Definition exact (x : f64) : Z * Z :=
  match x with S754_finite s m e => (if s then Z.neg m else Z.pos m, e) | _ => (0, 0) end.

Definition exact_compare (a b : Z * Z) : comparison :=
  let e := Z.min a.2 b.2 in Z.compare (a.1 * 2 ^ (a.2 - e)) (b.1 * 2 ^ (b.2 - e)).

Definition fcompare (x y : f64) : option comparison :=
  match x, y with
  | S754_nan, _ | _, S754_nan => None
  | S754_infinity s, S754_infinity s' =>
    Some (match s, s' with true, false => Lt | false, true => Gt | _, _ => Eq end)
  | S754_infinity s, _ => Some (if s then Lt else Gt)
  | _, S754_infinity s => Some (if s then Gt else Lt)
  | _, _ => Some (exact_compare (exact x) (exact y))
  end.

Definition fltb (x y : f64) : bool := bool_decide (fcompare x y = Some Lt).
Definition fleb (x y : f64) : bool := fltb x y || bool_decide (fcompare x y = Some Eq).
Definition feqb (x y : f64) : bool := bool_decide (fcompare x y = Some Eq).

(** [std::ceil] of a finite double, as the integer it is. *)
Definition fceil (x : f64) : Z := ceil_scaled (exact x).1 (exact x).2.

(** [isfinite(x) && x > 0.0], as the guards of the code put it. *)
Definition positive_finite (x : f64) : bool := f64_isfinite x && negb (fleb x fzero).

Lemma two64 : f64_of_Z U64_MAX = S754_finite false (2 ^ 52) 12.
Proof. vm_compute. reflexivity. Qed.

(** The ceiling is the least integer above. *)
Lemma ceil_scaled_le m e : m * 2 ^ Z.max e 0 <= ceil_scaled m e * 2 ^ Z.max (- e) 0.
Proof.
  unfold ceil_scaled. destruct (Z.leb_spec 0 e).
  - rewrite (Z.max_l e), (Z.max_r (- e)), Z.pow_0_r by lia. lia.
  - rewrite (Z.max_r e), (Z.max_l (- e)), Z.pow_0_r by lia.
    pose proof (Z.pow_pos_nonneg 2 (- e) ltac:(lia) ltac:(lia)).
    pose proof (Z.mul_div_le (- m) (2 ^ (- e)) ltac:(lia)). nia.
Qed.

Lemma ceil_scaled_ge m e n : n <= ceil_scaled m e -> (n - 1) * 2 ^ Z.max (- e) 0 < m * 2 ^ Z.max e 0.
Proof.
  unfold ceil_scaled. destruct (Z.leb_spec 0 e).
  - rewrite (Z.max_l e), (Z.max_r (- e)), Z.pow_0_r by lia. intros H1. lia.
  - rewrite (Z.max_r e), (Z.max_l (- e)), Z.pow_0_r by lia. intros H1.
    pose proof (Z.pow_pos_nonneg 2 (- e) ltac:(lia) ltac:(lia)).
    pose proof (Z.mul_succ_div_gt (- m) (2 ^ (- e)) ltac:(lia)). nia.
Qed.

(** Comparing [m * 2^e] with an integer. *)
Lemma exact_compare_integer m e n k : 0 <= k ->
  exact_compare (m, e) (n, k) = Z.compare (m * 2 ^ Z.max e 0) (n * 2 ^ k * 2 ^ Z.max (- e) 0).
Proof.
  intros Hk. unfold exact_compare. simpl.
  assert (forall a b c, 0 < c -> Z.compare a b = Z.compare (a * c) (b * c)) as Hscale.
  { intros a b c Hc. destruct (Z.compare_spec a b), (Z.compare_spec (a * c) (b * c)); nia || done. }
  rewrite <- Z.mul_assoc, <- Z.pow_add_r by lia.
  destruct (Z.le_gt_cases 0 e) as [He|He].
  - rewrite (Z.max_l e), (Z.max_r (- e)), Z.add_0_r by lia.
    rewrite (Hscale _ _ (2 ^ Z.min e k)) by (apply Z.pow_pos_nonneg; lia).
    rewrite <- !Z.mul_assoc, <- !Z.pow_add_r by lia. by rewrite !Z.sub_add.
  - rewrite (Z.max_r e), (Z.max_l (- e)), (Z.min_l e) by lia.
    rewrite Z.sub_diag. by replace (k - e) with (k + - e) by lia.
Qed.

Lemma exact_compare_opp a b : exact_compare b a = CompOpp (exact_compare a b).
Proof. unfold exact_compare. by rewrite Z.min_comm, Z.compare_antisym. Qed.

Lemma fltb_finite x y : f64_isfinite x = true -> f64_isfinite y = true ->
  fltb x y = bool_decide (exact_compare (exact x) (exact y) = Lt).
Proof.
  intros Hx Hy. unfold fltb. assert (fcompare x y = Some (exact_compare (exact x) (exact y))) as ->
    by (by destruct x, y). apply bool_decide_ext. split; [by intros [= ->]|by intros ->].
Qed.

(** ** Results of arithmetic have at most 53 bits *)

Definition short (x : f64) : Prop :=
  match x with S754_finite _ m _ => Z.pos m < 2 ^ 53 | _ => True end.

Lemma digits2_pos_bound p : Z.pos p < 2 ^ Z.pos (digits2_pos p).
Proof.
  induction p as [p IH|p IH|]; simpl digits2_pos; [| |done];
    rewrite Pos2Z.inj_succ, Z.pow_succ_r by lia; lia.
Qed.

Lemma Zdigits2_bound m : 0 <= m -> m < 2 ^ Zdigits2 m.
Proof. destruct m; simpl; [lia|intros _; apply digits2_pos_bound|lia]. Qed.

Lemma shr_1_spec mrs : 0 <= shr_m mrs -> shr_m (shr_1 mrs) = shr_m mrs / 2.
Proof.
  destruct mrs as [[|[p|p|]|] r s]; simpl; intros H; try done; try lia.
  - rewrite Pos2Z.inj_xI. rewrite Z.add_comm, Z.mul_comm, Z.div_add by lia. done.
  - rewrite Pos2Z.inj_xO, Z.mul_comm, Z.div_mul by lia. done.
Qed.

Lemma iter_shr_spec p mrs : 0 <= shr_m mrs ->
  shr_m (SpecFloat.iter_pos shr_1 p mrs) = shr_m mrs / 2 ^ Z.pos p.
Proof.
  revert mrs. induction p as [p IH|p IH|]; intros mrs H; simpl SpecFloat.iter_pos.
  - pose proof (shr_1_spec mrs H) as H1.
    assert (0 <= shr_m (shr_1 mrs)) by (rewrite H1; apply Z.div_pos; lia).
    assert (0 <= shr_m (SpecFloat.iter_pos shr_1 p (shr_1 mrs))) by (rewrite IH by done; apply Z.div_pos; lia).
    rewrite !IH, H1 by done. rewrite !Z.div_div by lia. f_equal.
    rewrite (Pos2Z.inj_xI p), Z.pow_add_r, Z.pow_1_r by lia.
    replace (2 * Z.pos p) with (Z.pos p + Z.pos p) by lia. rewrite Z.pow_add_r by lia. lia.
  - assert (0 <= shr_m (SpecFloat.iter_pos shr_1 p mrs)) by (rewrite IH by done; apply Z.div_pos; lia).
    rewrite !IH by done. rewrite !Z.div_div by lia. f_equal.
    rewrite (Pos2Z.inj_xO p). replace (2 * Z.pos p) with (Z.pos p + Z.pos p) by lia.
    by rewrite Z.pow_add_r by lia.
  - by rewrite shr_1_spec.
Qed.

Lemma shr_fexp_short m e l : 0 <= m -> 0 <= shr_m (shr_fexp 53 1024 m e l).1 < 2 ^ 53.
Proof.
  intros Hm. unfold shr_fexp.
  assert (shr_m (shr_record_of_loc m l) = m) as Hr by (by destruct l as [|[]]).
  set (n := fexp 53 1024 (Zdigits2 m + e) - e).
  assert (Zdigits2 m - 53 <= n) as Hn by (unfold n, fexp; lia).
  pose proof (Zdigits2_bound m Hm) as Hb. unfold shr. destruct n as [|p|p] eqn:En; simpl.
  1, 3: rewrite Hr; split; [done|]; apply (Z.lt_le_trans _ _ _ Hb), Z.pow_le_mono_r; lia.
  rewrite iter_shr_spec, Hr by (by rewrite Hr). split; [apply Z.div_pos; lia|].
  apply Z.div_lt_upper_bound; [lia|]. rewrite <- Z.pow_add_r by lia.
  apply (Z.lt_le_trans _ _ _ Hb), Z.pow_le_mono_r; lia.
Qed.

Lemma round_nearest_even_nonneg m l : 0 <= m -> 0 <= round_nearest_even m l.
Proof. destruct l as [|[]]; simpl; try lia. destruct (Z.even m); lia. Qed.

Lemma round_aux_short s m e l : 0 <= m -> short (binary_round_aux 53 1024 s m e l).
Proof.
  intros Hm. unfold binary_round_aux.
  pose proof (shr_fexp_short m e l Hm) as H1. destruct (shr_fexp 53 1024 m e l) as [mrs e']. simpl in H1.
  pose proof (shr_fexp_short (round_nearest_even (shr_m mrs) (loc_of_shr_record mrs)) e' loc_Exact
    (round_nearest_even_nonneg _ _ (proj1 H1))) as H2.
  destruct (shr_fexp _ _ (round_nearest_even _ _) _ _) as [mrs' e'']. simpl in H2.
  destruct (shr_m mrs') as [|p|p] eqn:E; simpl; [done| |done]. destruct (e'' <=? 1024 - 53); simpl; lia.
Qed.

Lemma normalize_short m e s : short (binary_normalize 53 1024 m e s).
Proof.
  destruct m as [|p|p]; simpl; [done|..]; unfold binary_round;
    destruct (shl_align _ _ _) as [q e']; by apply round_aux_short.
Qed.

Lemma fmul_short x y : short (fmul x y).
Proof. destruct x, y; simpl; try done. by apply round_aux_short. Qed.

Lemma fdiv_short x y : short (fdiv x y).
Proof.
  destruct x as [| | |s m e], y as [| | |s' m' e']; simpl; try done.
  unfold SFdiv_core_binary. simpl.
  match goal with |- context [Z.div_eucl ?a ?b] => pose proof (Z.div_eucl_eq a b ltac:(done)) as Hq;
    assert (0 <= a) as Ha by (repeat case_match; rewrite ?Z.shiftl_nonneg; lia);
    pose proof (Z.div_pos a b Ha ltac:(lia)) as Hd; unfold Z.div in Hd;
    destruct (Z.div_eucl a b) as [q r] end.
  by apply round_aux_short.
Qed.
