(* ===== verification/HybridDispatch.v ===== *)
(** The planner that splits the routed experts of a layer between the processor and the
    device ([runtime/src/hybrid_dispatch.cpp],
    [runtime/include/expert/runtime/hybrid_dispatch.hpp]): cost estimates as running
    averages of observations, a greedy assignment by projected critical path, telemetry
    and a bounded trace of decisions.

    Every method runs under the mutex of the planner, so that a method is one transition
    of its state. Costs are doubles with their rounding ([Binary64]). *)

From S2P Require Import Prelude.
From S2P Require Import Storage.
From S2P Require Import Binary64.

(** ** Data *)

Inductive HybridExecutor : Type := gpu_resident | gpu_upload | cpu_local.

Inductive HybridDispatchReason : Type :=
| resident_gpu | cpu_only | gpu_only | cpu_lower_critical_path | gpu_lower_critical_path
| cpu_stable_tie | gpu_stable_tie | cpu_calibration | gpu_cache_warm.

#[export] Instance HybridExecutor_eq_dec : EqDecision HybridExecutor.
Proof. solve_decision. Defined.
#[export] Instance HybridDispatchReason_eq_dec : EqDecision HybridDispatchReason.
Proof. solve_decision. Defined.

Record HybridDispatchConfig := mkDispatchConfig {
  initial_cpu_ns_per_selection : f64;
  initial_gpu_ns_per_selection : f64;
  initial_h2d_bytes_per_second : f64;
  observation_ewma_alpha : f64;
  maximum_candidates : Z;
  maximum_trace_decisions : Z;
  require_live_h2d_before_cpu : bool;
  bootstrap_cpu_probe : bool;
  prefer_gpu_on_tie : bool;
  minimum_gpu_uploads : Z }.

(** The member initializers. *)
Definition default_dispatch_config : HybridDispatchConfig :=
  mkDispatchConfig (f64_of_Z 112652) (f64_of_Z 6954) (f64_of_Z (8 * 1024 * 1024 * 1024))
    (f64_of 1 (-3)) 4096 256 false false false 0.

Record HybridDispatchCandidate := mkCandidate {
  hc_expert : Z;
  selections : Z;
  record_bytes : Z;
  is_gpu_resident : bool;
  cpu_available : bool;
  gpu_available : bool;
  placement_temperature : Z;
  last_access : Z }.

Record HybridDispatchDecision := mkDecision {
  hd_expert : Z;
  executor : HybridExecutor;
  reason : HybridDispatchReason;
  cpu_choice_critical_ns : Z;
  gpu_choice_critical_ns : Z }.

Record HybridDispatchPlan := mkPlan {
  plan_status : Status;
  decisions : list HybridDispatchDecision;
  projected_cpu_ns : Z;
  projected_gpu_ns : Z;
  projected_h2d_ns : Z;
  projected_critical_ns : Z }.

#[export] Instance eta_Plan : Eta HybridDispatchPlan := fun p =>
  mkPlan (plan_status p) (decisions p) (projected_cpu_ns p) (projected_gpu_ns p)
    (projected_h2d_ns p) (projected_critical_ns p).

Record HybridDispatchTelemetry := mkDispatchTelemetry {
  plans : Z;
  t_candidates : Z;
  t_resident_gpu : Z;
  t_cpu_only : Z;
  t_gpu_only : Z;
  cpu_cost_wins : Z;
  gpu_cost_wins : Z;
  stable_ties : Z;
  cpu_calibrations : Z;
  gpu_cache_warms : Z;
  rejected_plans : Z;
  cpu_observations : Z;
  gpu_observations : Z;
  h2d_observations : Z;
  cpu_ns_per_selection : f64;
  gpu_ns_per_selection : f64;
  h2d_bytes_per_second : f64 }.

#[export] Instance eta_DispatchTelemetry : Eta HybridDispatchTelemetry := fun t =>
  mkDispatchTelemetry (plans t) (t_candidates t) (t_resident_gpu t) (t_cpu_only t) (t_gpu_only t)
    (cpu_cost_wins t) (gpu_cost_wins t) (stable_ties t) (cpu_calibrations t) (gpu_cache_warms t)
    (rejected_plans t) (cpu_observations t) (gpu_observations t) (h2d_observations t)
    (cpu_ns_per_selection t) (gpu_ns_per_selection t) (h2d_bytes_per_second t).

Record Planner := mkPlanner {
  config : HybridDispatchConfig;
  telemetry : HybridDispatchTelemetry;
  trace_ : list HybridDispatchDecision;
  next_trace_slot : nat }.

#[export] Instance eta_Planner : Eta Planner := fun p =>
  mkPlanner (config p) (telemetry p) (trace_ p) (next_trace_slot p).

(** ** Costs *)

(** The conversion at the end is of a double below [2^64]. *)
Definition rounded_cost (value : f64) : Z :=
  if negb (f64_isfinite value) || fleb (f64_of_Z U64_MAX) value then U64_MAX
  else if fleb value fzero then 0 else fceil value.

Definition update_ewma (estimate observed alpha : f64) : f64 :=
  if negb (f64_isfinite observed) || fleb observed fzero then estimate
  else fadd (fmul estimate (fsub fone alpha)) (fmul observed alpha).

Definition cpu_cost (t : HybridDispatchTelemetry) (c : HybridDispatchCandidate) : Z :=
  rounded_cost (fmul (cpu_ns_per_selection t) (f64_of_Z (selections c))).

Definition gpu_cost (t : HybridDispatchTelemetry) (c : HybridDispatchCandidate) : Z :=
  rounded_cost (fmul (gpu_ns_per_selection t) (f64_of_Z (selections c))).

Definition h2d_cost (t : HybridDispatchTelemetry) (c : HybridDispatchCandidate) : Z :=
  rounded_cost (fdiv (fmul (f64_of_Z (record_bytes c)) (f64_of_Z (10 ^ 9))) (h2d_bytes_per_second t)).

(** ** Construction and observations *)

Definition valid_dispatch_config (c : HybridDispatchConfig) : bool :=
  positive_finite (initial_cpu_ns_per_selection c) &&
  positive_finite (initial_gpu_ns_per_selection c) &&
  positive_finite (initial_h2d_bytes_per_second c) &&
  positive_finite (observation_ewma_alpha c) &&
  negb (fltb fone (observation_ewma_alpha c)) &&
  negb (maximum_candidates c =? 0) && negb (maximum_trace_decisions c =? 0).

Definition planner_create (c : HybridDispatchConfig) : outcome Planner :=
  if valid_dispatch_config c then
    Ok (mkPlanner c
      (mkDispatchTelemetry 0 0 0 0 0 0 0 0 0 0 0 0 0 0 (initial_cpu_ns_per_selection c)
         (initial_gpu_ns_per_selection c) (initial_h2d_bytes_per_second c)) [] 0)
  else Throw (invalid_argument "invalid hybrid dispatch configuration").

Definition ewma (observed : f64) (p : Planner) (estimate : f64) : f64 :=
  update_ewma estimate observed (observation_ewma_alpha (config p)).

Definition observe_cpu (elapsed_ns selections : Z) (p : Planner) : Planner :=
  if (elapsed_ns =? 0) || (selections =? 0) then p
  else
    let observed := fdiv (f64_of_Z elapsed_ns) (f64_of_Z selections) in
    let p := p <| telemetry %= fun t => t <| cpu_ns_per_selection %= ewma observed p |> |> in
    p <| telemetry %= fun t => t <| cpu_observations %= inc64 |> |>.

Definition observe_gpu (elapsed_ns selections : Z) (p : Planner) : Planner :=
  if (elapsed_ns =? 0) || (selections =? 0) then p
  else
    let observed := fdiv (f64_of_Z elapsed_ns) (f64_of_Z selections) in
    let p := p <| telemetry %= fun t => t <| gpu_ns_per_selection %= ewma observed p |> |> in
    p <| telemetry %= fun t => t <| gpu_observations %= inc64 |> |>.

Definition observe_h2d (elapsed_ns bytes : Z) (p : Planner) : Planner :=
  if (elapsed_ns =? 0) || (bytes =? 0) then p
  else
    let observed := fdiv (fmul (f64_of_Z bytes) (f64_of_Z (10 ^ 9))) (f64_of_Z elapsed_ns) in
    let p := p <| telemetry %= fun t => t <| h2d_bytes_per_second %= ewma observed p |> |> in
    p <| telemetry %= fun t => t <| h2d_observations %= inc64 |> |>.

(** ** Planning *)

(** The trace is a ring once it is full. *)
Definition record_trace (d : HybridDispatchDecision) (p : Planner) : Planner :=
  if Z.of_nat (length (trace_ p)) <? maximum_trace_decisions (config p) then
    p <| trace_ %= fun l => l ++ [d] |>
  else
    let p := p <| trace_ %= fun l => <[next_trace_slot p := d]> l |> in
    p <| next_trace_slot := Z.to_nat ((Z.of_nat (next_trace_slot p) + 1) mod maximum_trace_decisions (config p)) |>.

Definition count_reason (r : HybridDispatchReason) (t : HybridDispatchTelemetry) : HybridDispatchTelemetry :=
  match r with
  | resident_gpu => t <| t_resident_gpu %= inc64 |>
  | cpu_only => t <| t_cpu_only %= inc64 |>
  | gpu_only => t <| t_gpu_only %= inc64 |>
  | cpu_lower_critical_path => t <| cpu_cost_wins %= inc64 |>
  | gpu_lower_critical_path => t <| gpu_cost_wins %= inc64 |>
  | cpu_stable_tie | gpu_stable_tie => t <| stable_ties %= inc64 |>
  | cpu_calibration => t <| cpu_calibrations %= inc64 |>
  | gpu_cache_warm => t <| gpu_cache_warms %= inc64 |>
  end.

(** A planner in the middle of a plan. *)
Definition Work : Type := Planner * HybridDispatchPlan.

Definition append (d : HybridDispatchDecision) (w : Work) : Work :=
  let r := w.2 <| decisions %= fun l => l ++ [d] |> in
  let p := record_trace d w.1 in
  (p <| telemetry %= count_reason (reason d) |>, r).

Definition gpu_finish (r : HybridDispatchPlan) : Z :=
  saturating_add (projected_h2d_ns r) (projected_gpu_ns r).

(** A candidate that has no choice. *)
Definition assign_fixed (w : Work) (c : HybridDispatchCandidate) : Work :=
  let t := telemetry w.1 in
  if is_gpu_resident c then
    let r := w.2 <| projected_gpu_ns %= fun n => saturating_add n (gpu_cost t c) |> in
    append (mkDecision (hc_expert c) gpu_resident resident_gpu 0 (gpu_finish r)) (w.1, r)
  else if cpu_available c then
    let r := w.2 <| projected_cpu_ns %= fun n => saturating_add n (cpu_cost t c) |> in
    append (mkDecision (hc_expert c) cpu_local cpu_only (projected_cpu_ns r) 0) (w.1, r)
  else
    let r := w.2 <| projected_h2d_ns %= fun n => saturating_add n (h2d_cost t c) |> in
    let r := r <| projected_gpu_ns %= fun n => saturating_add n (gpu_cost t c) |> in
    append (mkDecision (hc_expert c) gpu_upload gpu_only 0 (gpu_finish r)) (w.1, r).

Definition flexible_before (t : HybridDispatchTelemetry) (left right : HybridDispatchCandidate) : bool :=
  let left_cost := cpu_cost t left in
  let right_cost := cpu_cost t right in
  if negb (left_cost =? right_cost) then left_cost >? right_cost
  else if negb (placement_temperature left =? placement_temperature right)
  then placement_temperature left >? placement_temperature right
  else if negb (last_access left =? last_access right) then last_access left >? last_access right
  else hc_expert left <? hc_expert right.

(** The choice for a flexible candidate, with the counters of the loop. *)
Record Choice := mkChoice { on_gpu : bool; ch_reason : HybridDispatchReason }.

Definition choose (cfg : HybridDispatchConfig) (t : HybridDispatchTelemetry) (gpu_uploads : Z)
    (cpu_probe_pending : bool) (cpu_critical gpu_critical : Z) : Choice :=
  let h2d_unmeasured := require_live_h2d_before_cpu cfg && (h2d_observations t =? 0) in
  let warm_gpu := gpu_uploads <? minimum_gpu_uploads cfg in
  if h2d_unmeasured || warm_gpu then
    mkChoice true (if warm_gpu then gpu_cache_warm else gpu_lower_critical_path)
  else if cpu_probe_pending then mkChoice false cpu_calibration
  else if (gpu_critical <? cpu_critical) || ((gpu_critical =? cpu_critical) && prefer_gpu_on_tie cfg) then
    mkChoice true (if gpu_critical =? cpu_critical then gpu_stable_tie else gpu_lower_critical_path)
  else
    mkChoice false (if gpu_critical =? cpu_critical then cpu_stable_tie else cpu_lower_critical_path).

Definition assign_flexible (s : Work * Z * bool) (c : HybridDispatchCandidate) : Work * Z * bool :=
  let '((p, r), gpu_uploads, cpu_probe_pending) := s in
  let t := telemetry p in
  let cpu_finish := saturating_add (projected_cpu_ns r) (cpu_cost t c) in
  let cpu_critical := Z.max cpu_finish (gpu_finish r) in
  let h2d_finish := saturating_add (projected_h2d_ns r) (h2d_cost t c) in
  let gpu_compute_finish := saturating_add (projected_gpu_ns r) (gpu_cost t c) in
  let gpu_critical := Z.max (projected_cpu_ns r) (saturating_add h2d_finish gpu_compute_finish) in
  let choice := choose (config p) t gpu_uploads cpu_probe_pending cpu_critical gpu_critical in
  if on_gpu choice then
    let r := r <| projected_h2d_ns := h2d_finish |> in
    let r := r <| projected_gpu_ns := gpu_compute_finish |> in
    (append (mkDecision (hc_expert c) gpu_upload (ch_reason choice) cpu_critical gpu_critical) (p, r),
     gpu_uploads + 1, cpu_probe_pending)
  else
    let r := r <| projected_cpu_ns := cpu_finish |> in
    (append (mkDecision (hc_expert c) cpu_local (ch_reason choice) cpu_critical gpu_critical) (p, r),
     gpu_uploads, cpu_probe_pending && negb (bool_decide (ch_reason choice = cpu_calibration))).

(** The validation loop: the candidates without and with a choice, in order. *)
Fixpoint split_candidates (seen : gset Z) (l : list HybridDispatchCandidate)
    : option (list HybridDispatchCandidate * list HybridDispatchCandidate) :=
  match l with
  | [] => Some ([], [])
  | c :: l =>
    if (selections c =? 0) || (negb (cpu_available c) && negb (gpu_available c) && negb (is_gpu_resident c)) ||
       bool_decide (hc_expert c ∈ seen)
    then None
    else
      match split_candidates ({[hc_expert c]} ∪ seen) l with
      | None => None
      | Some (fixed, flexible) =>
        if negb (is_gpu_resident c) && cpu_available c && gpu_available c
        then Some (fixed, c :: flexible) else Some (c :: fixed, flexible)
      end
  end.

Definition by_expert (left right : HybridDispatchCandidate) : bool := hc_expert left <? hc_expert right.
Definition decision_by_expert (left right : HybridDispatchDecision) : bool := hd_expert left <? hd_expert right.

Definition empty_plan : HybridDispatchPlan := mkPlan success [] 0 0 0 0.

Definition reject (status : Status) (p : Planner) : Planner * HybridDispatchPlan :=
  (p <| telemetry %= fun t => t <| rejected_plans %= inc64 |> |>, empty_plan <| plan_status := status |>).

Definition is_upload (d : HybridDispatchDecision) : bool := bool_decide (executor d = gpu_upload).

Definition plan `{StdSort} (candidates : list HybridDispatchCandidate) (p : Planner)
    : Planner * HybridDispatchPlan :=
  if bool_decide (candidates = []) then
    reject (mkStatus invalid_arg "hybrid dispatch requires at least one candidate") p
  else if maximum_candidates (config p) <? Z.of_nat (length candidates) then
    reject (mkStatus backpressure "hybrid dispatch candidate bound exceeded") p
  else
    match split_candidates ∅ candidates with
    | None => reject (mkStatus invalid_arg "invalid or duplicate hybrid dispatch candidate") p
    | Some (fixed, flexible) =>
      let w := foldl assign_fixed (p, empty_plan) (std_sort by_expert fixed) in
      let flexible := std_sort (flexible_before (telemetry w.1)) flexible in
      let gpu_uploads := Z.of_nat (length (filter is_upload (decisions w.2))) in
      let cpu_probe_pending :=
        bootstrap_cpu_probe (config w.1) && negb (h2d_observations (telemetry w.1) =? 0) &&
        (cpu_observations (telemetry w.1) =? 0) in
      let '((p, r), _, _) := foldl assign_flexible (w, gpu_uploads, cpu_probe_pending) flexible in
      let r := r <| decisions %= std_sort decision_by_expert |> in
      let r := r <| projected_critical_ns := Z.max (projected_cpu_ns r) (gpu_finish r) |> in
      let p := p <| telemetry %= fun t => t <| plans %= inc64 |> |> in
      let p := p <| telemetry %= fun t =>
                 t <| t_candidates %= fun n => add64 n (Z.of_nat (length candidates)) |> |> in
      (p, r)
    end.

Definition trace (p : Planner) : list HybridDispatchDecision :=
  if (Z.of_nat (length (trace_ p)) <? maximum_trace_decisions (config p)) || (next_trace_slot p =? 0)%nat
  then trace_ p
  else drop (next_trace_slot p) (trace_ p) ++ take (next_trace_slot p) (trace_ p).
