(* ===== verification/HybridDispatchTheorems.v ===== *)
(** What the dispatch planner guarantees: every candidate is assigned once, to an
    executor it allows; the projected times are the exact sums of the costs of the
    assignment; every free choice takes the shorter critical path; the trace holds the
    latest decisions in order. *)

From Stdlib Require Import Floats.SpecFloat.
From S2P Require Import Prelude.
From S2P Require Import Storage.
From S2P Require Import Doubles.
From S2P Require Import Binary64.
From S2P Require Import HybridDispatch.

(** ** Costs *)

Lemma fcompare_integer x n k : f64_isfinite x = true -> 0 < n -> 0 <= k ->
  fcompare x (S754_finite false (Z.to_pos n) k) =
  Some (Z.compare ((exact x).1 * 2 ^ Z.max (exact x).2 0) (n * 2 ^ k * 2 ^ Z.max (- (exact x).2) 0)).
Proof.
  intros Hx Hn Hk. rewrite <- exact_compare_integer by done.
  destruct x; try done; simpl; by rewrite Z2Pos.id by lia.
Qed.

Lemma fcompare_opp x y : fcompare y x = option_map CompOpp (fcompare x y).
Proof.
  destruct x as [|[]| |], y as [|[]| |]; simpl; try done; by rewrite exact_compare_opp.
Qed.

Lemma fleb_finite x y : f64_isfinite x = true -> f64_isfinite y = true ->
  fleb x y = bool_decide (exact_compare (exact x) (exact y) <> Gt).
Proof.
  intros Hx Hy. unfold fleb, fltb. assert (fcompare x y = Some (exact_compare (exact x) (exact y))) as ->
    by (by destruct x, y). by destruct (exact_compare _ _).
Qed.

(** A rounded cost is the exact cost rounded up, within the range of 64 bits. *)
Lemma rounded_cost_spec value : f64_isfinite value = true -> short value ->
  rounded_cost value = Z.max 0 (Z.min U64_MAX (fceil value)).
Proof.
  intros Hf Hshort. unfold rounded_cost. rewrite Hf, two64. simpl negb. simpl orb.
  set (v := (exact value).1 * 2 ^ Z.max (exact value).2 0).
  set (d := 2 ^ Z.max (- (exact value).2) 0).
  assert (0 < d) as Hd by (apply Z.pow_pos_nonneg; lia).
  assert (fleb (S754_finite false (2 ^ 52) 12) value = bool_decide (2 ^ 64 * d <= v)) as ->.
  { rewrite fleb_finite, exact_compare_opp by done. simpl (exact (S754_finite _ _ _)).
    rewrite (surjective_pairing (exact value)), exact_compare_integer by lia. simpl.
    fold v d. change (Z.pos (2 ^ 52) * 2 ^ 12) with (2 ^ 64). apply bool_decide_ext.
    destruct (Z.compare_spec v (2 ^ 64 * d)); simpl; (split; [intros ?|intros ?]; (lia || congruence)). }
  assert (fleb value fzero = bool_decide (v <= 0)) as ->.
  { rewrite fleb_finite by done. simpl (exact fzero).
    rewrite (surjective_pairing (exact value)), exact_compare_integer by lia. simpl. fold v.
    rewrite !Z.mul_0_l. apply bool_decide_ext. destruct (Z.compare_spec v 0); (split; [intros ?|intros ?]; (lia || congruence)). }
  unfold fceil. set (c := ceil_scaled _ _). unfold U64_MAX.
  pose proof (ceil_scaled_le (exact value).1 (exact value).2) as Hle.
  pose proof (ceil_scaled_ge (exact value).1 (exact value).2) as Hge. fold c v d in Hle, Hge.
  case_bool_decide as H1; [|case_bool_decide as H2].
  - destruct (Z.lt_ge_cases c (2 ^ 64)) as [Hc|Hc]; [nia|lia].
  - destruct (Z.le_gt_cases c 0) as [Hc|Hc]; [lia|]. specialize (Hge 1 ltac:(lia)). nia.
  - destruct (Z.lt_ge_cases c 1) as [Hc|Hc]; [nia|].
    destruct (Z.lt_ge_cases (2 ^ 64 - 1) c) as [Hc'|Hc']; [|lia].
    exfalso. specialize (Hge (2 ^ 64) ltac:(lia)).
    assert (Z.abs (exact value).1 < 2 ^ 53) as Hm by (destruct value as [| | |[] m e]; simpl in *; lia).
    subst v d. destruct (Z.le_gt_cases 0 (exact value).2) as [He|He].
    + rewrite (Z.max_r (- _)), Z.pow_0_r in * by lia. lia.
    + rewrite (Z.max_r _ 0), Z.pow_0_r in * by lia. nia.
Qed.

Lemma rounded_cost_u64 value : short value -> u64 (rounded_cost value).
Proof.
  intros Hs. destruct (f64_isfinite value) eqn:Hf.
  - rewrite rounded_cost_spec by done. unfold u64, U64_MAX. lia.
  - unfold rounded_cost. rewrite Hf. unfold u64, U64_MAX. simpl. lia.
Qed.

Lemma cpu_cost_nonneg t c : 0 <= cpu_cost t c.
Proof. apply rounded_cost_u64, fmul_short. Qed.

Lemma gpu_cost_nonneg t c : 0 <= gpu_cost t c.
Proof. apply rounded_cost_u64, fmul_short. Qed.

Lemma h2d_cost_nonneg t c : 0 <= h2d_cost t c.
Proof. apply rounded_cost_u64, fdiv_short. Qed.

#[local] Hint Resolve cpu_cost_nonneg gpu_cost_nonneg h2d_cost_nonneg : core.

(** Costs depend on the estimates only. *)
Record same_estimates (t t' : HybridDispatchTelemetry) : Prop := mkSame {
  se_cpu : cpu_ns_per_selection t' = cpu_ns_per_selection t;
  se_gpu : gpu_ns_per_selection t' = gpu_ns_per_selection t;
  se_h2d : h2d_bytes_per_second t' = h2d_bytes_per_second t;
  se_cpu_observations : cpu_observations t' = cpu_observations t;
  se_h2d_observations : h2d_observations t' = h2d_observations t }.

Lemma same_estimates_refl t : same_estimates t t.
Proof. by split. Qed.

Lemma same_estimates_costs t t' : same_estimates t t' ->
  cpu_cost t' = cpu_cost t /\ gpu_cost t' = gpu_cost t /\ h2d_cost t' = h2d_cost t.
Proof. intros [E1 E2 E3 _ _]. unfold cpu_cost, gpu_cost, h2d_cost. by rewrite E1, E2, E3. Qed.

Lemma count_reason_estimates r t t' : same_estimates t t' -> same_estimates t (count_reason r t').
Proof. intros []. by destruct r; split. Qed.

(** ** An assignment, and what a plan in progress has made of it *)

Definition assignment : Type := list (HybridDispatchCandidate * HybridDispatchDecision).

(** The executor is one the candidate allows. *)
Definition allowed (c : HybridDispatchCandidate) (e : HybridExecutor) : Prop :=
  if is_gpu_resident c then e = gpu_resident
  else (e = cpu_local /\ cpu_available c = true) \/
       (e = gpu_upload /\ gpu_available c = true).

Definition fits (cd : HybridDispatchCandidate * HybridDispatchDecision) : Prop :=
  hd_expert cd.2 = hc_expert cd.1 /\ allowed cd.1 (executor cd.2).

Definition on_cpu (cd : HybridDispatchCandidate * HybridDispatchDecision) : bool :=
  bool_decide (executor cd.2 = cpu_local).

(** The exact cost of the parts of an assignment. *)
Definition cpu_part (t : HybridDispatchTelemetry) cd : Z := if on_cpu cd then cpu_cost t cd.1 else 0.
Definition gpu_part (t : HybridDispatchTelemetry) cd : Z := if on_cpu cd then 0 else gpu_cost t cd.1.
Definition h2d_part (t : HybridDispatchTelemetry) cd : Z := if is_upload cd.2 then h2d_cost t cd.1 else 0.

Definition capped (f : HybridDispatchCandidate * HybridDispatchDecision -> Z) (l : assignment) : Z :=
  Z.min U64_MAX (sumZ (map f l)).

(** [append] on the planner: the decision enters the trace and its counter. *)
Definition note (p : Planner) (d : HybridDispatchDecision) : Planner :=
  (record_trace d p) <| telemetry %= count_reason (reason d) |>.

Definition note_all (p : Planner) (l : list HybridDispatchDecision) : Planner := foldl note p l.

Lemma note_same p d : config (note p d) = config p /\ same_estimates (telemetry p) (telemetry (note p d)).
Proof.
  unfold note, record_trace. destruct (_ <? _); simpl; (split; [done|]);
    apply count_reason_estimates, same_estimates_refl.
Qed.

Lemma note_all_same p l :
  config (note_all p l) = config p /\ same_estimates (telemetry p) (telemetry (note_all p l)).
Proof.
  revert p. induction l as [|d l IH]; intros p; [by split; [|apply same_estimates_refl]|].
  destruct (note_same p d) as [Hc []]. destruct (IH (note p d)) as [Hc' []].
  split; [unfold note_all in *; simpl; congruence|]. split; unfold note_all in *; simpl; congruence.
Qed.

Record in_progress (p : Planner) (l : assignment) (w : Work) : Prop := mkProgress {
  ip_planner : w.1 = note_all p l.*2;
  ip_decisions : decisions w.2 = l.*2;
  ip_status : plan_status w.2 = success;
  ip_cpu : projected_cpu_ns w.2 = capped (cpu_part (telemetry p)) l;
  ip_gpu : projected_gpu_ns w.2 = capped (gpu_part (telemetry p)) l;
  ip_h2d : projected_h2d_ns w.2 = capped (h2d_part (telemetry p)) l }.

Lemma capped_snoc f l cd : 0 <= f cd -> capped f (l ++ [cd]) = saturating_add (capped f l) (f cd).
Proof. intros H. unfold capped. rewrite map_app, sumZ_app, saturating_add_min. simpl. lia. Qed.

Lemma capped_snoc_zero f l cd : f cd = 0 -> capped f (l ++ [cd]) = capped f l.
Proof. intros H. unfold capped. rewrite map_app, sumZ_app. simpl. f_equal. lia. Qed.

Lemma append_progress p l c d r w :
  in_progress p l w -> decisions r = decisions w.2 -> plan_status r = success ->
  projected_cpu_ns r = capped (cpu_part (telemetry p)) (l ++ [(c, d)]) ->
  projected_gpu_ns r = capped (gpu_part (telemetry p)) (l ++ [(c, d)]) ->
  projected_h2d_ns r = capped (h2d_part (telemetry p)) (l ++ [(c, d)]) ->
  in_progress p (l ++ [(c, d)]) (append d (w.1, r)).
Proof.
  intros [H1 H2 H3 H4 H5 H6] E1 E2 E3 E4 E5. split; simpl; try done.
  - rewrite fmap_app. unfold note_all. rewrite foldl_app. simpl. fold (note_all p l.*2). by rewrite <- H1.
  - by rewrite E1, H2, fmap_app.
Qed.

Lemma progress_same p l w : in_progress p l w ->
  config w.1 = config p /\ same_estimates (telemetry p) (telemetry w.1) /\
  cpu_cost (telemetry w.1) = cpu_cost (telemetry p) /\ gpu_cost (telemetry w.1) = gpu_cost (telemetry p) /\
  h2d_cost (telemetry w.1) = h2d_cost (telemetry p).
Proof.
  intros []. rewrite ip_planner0. destruct (note_all_same p l.*2) as [Hc He].
  split_and!; [done|done|by apply same_estimates_costs..].
Qed.

(** ** The two loops *)

Lemma assign_fixed_progress p l w c :
  in_progress p l w -> is_gpu_resident c = true \/ cpu_available c = true \/ gpu_available c = true ->
  exists d, in_progress p (l ++ [(c, d)]) (assign_fixed w c) /\ fits (c, d) /\
    reason d <> cpu_calibration.
Proof.
  intros Hw Hc. destruct (progress_same _ _ _ Hw) as (_ & _ & E1 & E2 & E3).
  pose proof Hw as [H1 H2 H3 H4 H5 H6]. unfold assign_fixed. rewrite E1, E2, E3.
  destruct (is_gpu_resident c) eqn:Er; [|destruct (cpu_available c) eqn:Ec].
  all: eexists; split; [apply append_progress; simpl; [done..| | |]|
    split; [split; simpl; [done|unfold allowed; rewrite Er, ?Ec; destruct Hc as [|[|]]; simplify_eq; auto]|done]].
  all: try (rewrite capped_snoc_zero by done; done).
  all: rewrite ?H4, ?H5, ?H6, capped_snoc; [reflexivity|]; unfold cpu_part, gpu_part, h2d_part; simpl; auto.
Qed.

Lemma fixed_progress p l w cs :
  in_progress p l w ->
  Forall (fun c => is_gpu_resident c = true \/ cpu_available c = true \/ gpu_available c = true) cs ->
  exists l', in_progress p (l ++ l') (foldl assign_fixed w cs) /\ l'.*1 = cs /\ Forall fits l' /\
    Forall (fun cd => reason cd.2 <> cpu_calibration) l'.
Proof.
  intros Hw Hcs. revert l w Hw. induction Hcs as [|c cs Hc _ IH]; intros l w Hw; simpl.
  - exists []. by rewrite app_nil_r.
  - destruct (assign_fixed_progress p l w c Hw Hc) as (d & Hd & Hf & Hn).
    destruct (IH _ _ Hd) as (l' & Hl' & E & Hfit & Hns). exists ((c, d) :: l').
    rewrite <- app_assoc in Hl'. split_and!; [done|by rewrite fmap_cons, E|by constructor|by constructor].
Qed.

(** Why a decision about a candidate with a choice is right. *)
Definition justified (cfg : HybridDispatchConfig) (t : HybridDispatchTelemetry)
    (d : HybridDispatchDecision) : Prop :=
  let cpu := cpu_choice_critical_ns d in
  let gpu := gpu_choice_critical_ns d in
  match reason d with
  | cpu_lower_critical_path => executor d = cpu_local /\ cpu < gpu
  | cpu_stable_tie => executor d = cpu_local /\ cpu = gpu /\ prefer_gpu_on_tie cfg = false
  | gpu_stable_tie => executor d = gpu_upload /\ gpu = cpu /\ prefer_gpu_on_tie cfg = true
  | gpu_lower_critical_path =>
    executor d = gpu_upload /\
    (gpu < cpu \/ (require_live_h2d_before_cpu cfg = true /\ h2d_observations t = 0))
  | gpu_cache_warm => executor d = gpu_upload /\ 0 < minimum_gpu_uploads cfg
  | cpu_calibration =>
    executor d = cpu_local /\ bootstrap_cpu_probe cfg = true /\ h2d_observations t <> 0 /\
    cpu_observations t = 0
  | _ => False
  end.

Lemma choose_justified cfg t uploads pending cpu gpu e :
  0 <= uploads ->
  (pending = true -> bootstrap_cpu_probe cfg = true /\ h2d_observations t <> 0 /\ cpu_observations t = 0) ->
  let choice := choose cfg t uploads pending cpu gpu in
  justified cfg t (mkDecision e (if on_gpu choice then gpu_upload else cpu_local) (ch_reason choice) cpu gpu) /\
  (require_live_h2d_before_cpu cfg = true -> h2d_observations t = 0 -> on_gpu choice = true) /\
  (uploads < minimum_gpu_uploads cfg -> on_gpu choice = true).
Proof.
  intros Hu Hp. unfold choose.
  destruct (require_live_h2d_before_cpu cfg) eqn:Er, (Z.eqb_spec (h2d_observations t) 0),
    (Z.ltb_spec uploads (minimum_gpu_uploads cfg)); simpl.
  all: try (unfold justified; simpl; split_and!; (done || lia || auto); fail).
  all: destruct pending; simpl; [unfold justified; simpl; split_and!; (done || lia || naive_solver)|].
  all: destruct (Z.ltb_spec gpu cpu), (Z.eqb_spec gpu cpu), (prefer_gpu_on_tie cfg) eqn:Ep; simpl;
    unfold justified; simpl; split_and!; (done || lia || naive_solver).
Qed.

(** The projected critical path of an assignment. *)
Definition critical (t : HybridDispatchTelemetry) (l : assignment) : Z :=
  Z.max (capped (cpu_part t) l) (saturating_add (capped (h2d_part t) l) (capped (gpu_part t) l)).

Definition placed (c : HybridDispatchCandidate) (e : HybridExecutor) : assignment :=
  [(c, mkDecision (hc_expert c) e cpu_only 0 0)].

(** The decision taken after [l] weighs the critical paths of both choices. *)
Definition weighed (p : Planner) (l : assignment) (cd : HybridDispatchCandidate * HybridDispatchDecision) : Prop :=
  justified (config p) (telemetry p) cd.2 /\
  cpu_choice_critical_ns cd.2 = critical (telemetry p) (l ++ placed cd.1 cpu_local) /\
  gpu_choice_critical_ns cd.2 = critical (telemetry p) (l ++ placed cd.1 gpu_upload).

(** What the flexible loop carries: uploads so far, and whether a probe is due. *)
Definition uploads (l : assignment) : Z := Z.of_nat (length (filter is_upload l.*2)).

Definition probe_due (p : Planner) (l : assignment) : bool :=
  bootstrap_cpu_probe (config p) && negb (h2d_observations (telemetry p) =? 0) &&
  (cpu_observations (telemetry p) =? 0) &&
  negb (existsb (fun cd => bool_decide (reason cd.2 = cpu_calibration)) l).

Lemma probe_due_true p l : probe_due p l = true ->
  bootstrap_cpu_probe (config p) = true /\ h2d_observations (telemetry p) <> 0 /\
  cpu_observations (telemetry p) = 0.
Proof.
  unfold probe_due. intros [[[? ?%negb_true_iff%Z.eqb_neq]%andb_true_iff ?%Z.eqb_eq]%andb_true_iff _]%andb_true_iff.
  done.
Qed.

Lemma uploads_snoc l cd : uploads (l ++ [cd]) = uploads l + (if is_upload cd.2 then 1 else 0).
Proof.
  unfold uploads. rewrite fmap_app, filter_app, length_app. simpl. unfold filter. simpl.
  destruct (is_upload cd.2); simpl; lia.
Qed.

Lemma probe_due_snoc p l cd :
  probe_due p (l ++ [cd]) = probe_due p l && negb (bool_decide (reason cd.2 = cpu_calibration)).
Proof.
  unfold probe_due. rewrite existsb_app. simpl. by rewrite orb_false_r, negb_orb, andb_assoc.
Qed.

(** What the flexible loop guarantees of each decision. *)
Definition flexible_right (p : Planner) (l : assignment) (cd : HybridDispatchCandidate * HybridDispatchDecision) : Prop :=
  weighed p l cd /\
  (require_live_h2d_before_cpu (config p) = true -> h2d_observations (telemetry p) = 0 ->
   executor cd.2 = gpu_upload) /\
  (uploads l < minimum_gpu_uploads (config p) -> executor cd.2 = gpu_upload) /\
  (reason cd.2 = cpu_calibration -> probe_due p l = true).

(** The state after a decision, and the decision itself, in either lane. *)
Ltac finish_flexible Hw Hr J1 H4 H5 H6 :=
  split; [eapply (append_progress _ _ _ _ _ _ Hw); [done|done|..]|]; simpl;
  [..|split; [split; simpl; [done|unfold allowed; simpl; rewrite Hr; auto]|
      split; [split; [exact J1|by split]|split_and!; simpl; naive_solver]]];
  try (rewrite capped_snoc_zero by done; done);
  (rewrite ?H4, ?H5, ?H6, capped_snoc;
    [reflexivity|unfold cpu_part, gpu_part, h2d_part; simpl; auto]).

Lemma assign_flexible_progress p l w c :
  in_progress p l w -> is_gpu_resident c = false -> cpu_available c = true -> gpu_available c = true ->
  exists d w',
    assign_flexible (w, uploads l, probe_due p l) c =
      (w', uploads (l ++ [(c, d)]), probe_due p (l ++ [(c, d)])) /\
    in_progress p (l ++ [(c, d)]) w' /\ fits (c, d) /\ flexible_right p l (c, d).
Proof.
  intros Hw Hr Hc Hg. destruct (progress_same _ _ _ Hw) as (Ecfg & Et & E1 & E2 & E3).
  pose proof Hw as [H1 H2 H3 H4 H5 H6]. destruct w as [q r]. simpl in *.
  unfold assign_flexible. rewrite E1, E2, E3, Ecfg. unfold gpu_finish.
  set (cpu := Z.max _ (saturating_add (projected_h2d_ns r) _)).
  set (gpu := Z.max _ (saturating_add (saturating_add _ _) _)).
  assert (cpu = critical (telemetry p) (l ++ placed c cpu_local)) as Ecpu.
  { unfold cpu, critical, placed. rewrite H4, H5, H6.
    rewrite (capped_snoc_zero (gpu_part _)), (capped_snoc_zero (h2d_part _)), capped_snoc by
      (reflexivity || (unfold cpu_part; simpl; auto)). done. }
  assert (gpu = critical (telemetry p) (l ++ placed c gpu_upload)) as Egpu.
  { unfold gpu, critical, placed. rewrite H4, H5, H6.
    rewrite (capped_snoc_zero (cpu_part _)), (capped_snoc (gpu_part _)), (capped_snoc (h2d_part _)) by
      (reflexivity || (unfold gpu_part, h2d_part; simpl; auto)). done. }
  assert (choose (config p) (telemetry q) (uploads l) (probe_due p l) cpu gpu =
    choose (config p) (telemetry p) (uploads l) (probe_due p l) cpu gpu) as ->.
  { unfold choose. by rewrite (se_h2d_observations _ _ Et). }
  pose proof (choose_justified (config p) (telemetry p) (uploads l) (probe_due p l) cpu gpu (hc_expert c)
    ltac:(unfold uploads; lia) (probe_due_true p l)) as (J1 & J2 & J3).
  assert (ch_reason (choose (config p) (telemetry p) (uploads l) (probe_due p l) cpu gpu) = cpu_calibration ->
    probe_due p l = true) as J4.
  { unfold choose. repeat case_match; simpl; done. }
  destruct (choose _ _ _ _ _ _) as [[] why]; simpl in *.
  1: exists (mkDecision (hc_expert c) gpu_upload why cpu gpu).
  2: exists (mkDecision (hc_expert c) cpu_local why cpu gpu).
  all: eexists; rewrite uploads_snoc, probe_due_snoc; simpl; rewrite ?Z.add_0_r; split.
  - assert (why <> cpu_calibration) as Hwhy.
    { intros ->. unfold justified in J1. simpl in J1. by destruct J1. }
    rewrite (bool_decide_eq_false_2 (why = _)) by done. by rewrite andb_true_r.
  - finish_flexible Hw Hr J1 H4 H5 H6.
  - done.
  - finish_flexible Hw Hr J1 H4 H5 H6.
Qed.

Definition has_choice (c : HybridDispatchCandidate) : bool :=
  negb (is_gpu_resident c) && cpu_available c && gpu_available c.

Lemma has_choice_true c :
  has_choice c = true -> is_gpu_resident c = false /\ cpu_available c = true /\ gpu_available c = true.
Proof. unfold has_choice. by intros [[?%negb_true_iff ?]%andb_true_iff ?]%andb_true_iff. Qed.

Lemma flexible_progress p l w cs :
  in_progress p l w -> Forall (fun c => has_choice c = true) cs ->
  exists l' w',
    foldl assign_flexible (w, uploads l, probe_due p l) cs = (w', uploads (l ++ l'), probe_due p (l ++ l')) /\
    in_progress p (l ++ l') w' /\ l'.*1 = cs /\ Forall fits l' /\
    (forall l1 cd l2, l' = l1 ++ cd :: l2 -> flexible_right p (l ++ l1) cd).
Proof.
  intros Hw Hcs. revert l w Hw. induction Hcs as [|c cs Hc _ IH]; intros l w Hw; cbn [foldl].
  - exists [], w. rewrite !app_nil_r. split_and!; [done|done|done|constructor|by intros [|] ? ?].
  - apply has_choice_true in Hc as (Hr & Hc & Hg).
    destruct (assign_flexible_progress p l w c Hw Hr Hc Hg) as (d & w' & E & Hd & Hf & Hright).
    rewrite E. destruct (IH _ _ Hd) as (l' & w'' & E' & Hl' & Ecs & Hfit & Hall).
    rewrite <- app_assoc in *. simpl in *. exists ((c, d) :: l'), w''.
    split_and!; [done|done|by rewrite fmap_cons, Ecs|by constructor|].
    intros [|cd1 l1] cd l2 Hl; simpl in Hl; injection Hl as <- ->.
    + by rewrite app_nil_r.
    + specialize (Hall l1 cd l2 eq_refl). by rewrite <- app_assoc in Hall.
Qed.

(** ** Validation *)

Definition valid_candidate (c : HybridDispatchCandidate) : Prop :=
  selections c <> 0 /\ (is_gpu_resident c = true \/ cpu_available c = true \/ gpu_available c = true).

Lemma split_candidates_spec seen l :
  match split_candidates seen l with
  | Some (fixed, flexible) =>
    fixed ++ flexible ≡ₚ l /\ Forall valid_candidate l /\ NoDup (map hc_expert l) /\
    Forall (fun e => e ∉ seen) (map hc_expert l) /\ Forall (fun c => has_choice c = true) flexible
  | None => ~ (Forall valid_candidate l /\ NoDup (map hc_expert l) /\ Forall (fun e => e ∉ seen) (map hc_expert l))
  end.
Proof.
  revert seen. induction l as [|c l IH]; intros seen; simpl.
  - split_and!; constructor.
  - destruct (_ || bool_decide _) eqn:E.
    { intros ([[Hs Hav] _]%Forall_cons & _ & [Hn _]%Forall_cons).
      apply orb_true_iff in E as [[E|E]%orb_true_iff|E%bool_decide_eq_true]; [by apply Z.eqb_eq in E| |done].
      apply andb_true_iff in E as [[E1%negb_true_iff E2%negb_true_iff]%andb_true_iff E3%negb_true_iff].
      destruct Hav as [|[|]]; congruence. }
    apply orb_false_iff in E as [[E1%Z.eqb_neq E2]%orb_false_iff E3%bool_decide_eq_false].
    assert (valid_candidate c) as Hv.
    { split; [done|]. destruct (is_gpu_resident c), (cpu_available c), (gpu_available c); simpl in E2; auto. }
    specialize (IH ({[hc_expert c]} ∪ seen)).
    assert (Forall (fun e => e ∉ {[hc_expert c]} ∪ seen) (map hc_expert l) <->
      hc_expert c ∉ map hc_expert l /\ Forall (fun e => e ∉ seen) (map hc_expert l)) as Hnew.
    { rewrite !Forall_forall. set_solver. }
    destruct (split_candidates _ l) as [[fixed flexible]|].
    + destruct IH as (Hp & Hval & Hnd & [Hn Hs]%Hnew & Hfl).
      fold (has_choice c). destruct (has_choice c) eqn:Hc; split_and!; try (by constructor); try done.
      by rewrite <- Permutation_middle, Hp.
    + intros ([_ Hval]%Forall_cons & [Hn Hnd]%NoDup_cons & [_ Hs]%Forall_cons). apply IH.
      split_and!; [done|done|]. by apply Hnew.
Qed.

(** When a plan is made at all. *)
Definition plannable (p : Planner) (cs : list HybridDispatchCandidate) : Prop :=
  cs <> [] /\ Z.of_nat (length cs) <= maximum_candidates (config p) /\
  Forall valid_candidate cs /\ NoDup (map hc_expert cs).

(** The whole of a plan, in terms of the assignment in the order it was made. *)
Record planned `{StdSort} (p : Planner) (cs : list HybridDispatchCandidate) (p' : Planner)
    (r : HybridDispatchPlan) (fixed flexible : assignment) : Prop := mkPlanned {
  pl_candidates : (fixed ++ flexible).*1 ≡ₚ cs;
  pl_flexible : Forall (fun cd => has_choice cd.1 = true) flexible;
  pl_order : exists l, flexible.*1 = std_sort (flexible_before (telemetry p)) l;
  pl_fits : Forall fits (fixed ++ flexible);
  pl_right l1 cd l2 : flexible = l1 ++ cd :: l2 -> flexible_right p (fixed ++ l1) cd;
  pl_decisions : decisions r = std_sort decision_by_expert (fixed ++ flexible).*2;
  pl_status : plan_status r = success;
  pl_cpu : projected_cpu_ns r = capped (cpu_part (telemetry p)) (fixed ++ flexible);
  pl_gpu : projected_gpu_ns r = capped (gpu_part (telemetry p)) (fixed ++ flexible);
  pl_h2d : projected_h2d_ns r = capped (h2d_part (telemetry p)) (fixed ++ flexible);
  pl_critical : projected_critical_ns r = critical (telemetry p) (fixed ++ flexible);
  pl_planner : p' = (note_all p (fixed ++ flexible).*2) <| telemetry %= fun t => t <| plans %= inc64 |> |>
    <| telemetry %= fun t => t <| t_candidates %= fun n => add64 n (Z.of_nat (length cs)) |> |> }.

Lemma plan_cases `{StdSort, !StdSortSpec _} p cs :
  let '(p', r) := plan cs p in
  (plannable p cs /\ exists fixed flexible, planned p cs p' r fixed flexible) \/
  (~ plannable p cs /\ p' = p <| telemetry %= fun t => t <| rejected_plans %= inc64 |> |> /\
   decisions r = [] /\ plan_status r <> success).
Proof.
  unfold plan, plannable. case_bool_decide as E1; [right; split_and!; try done; by intros []|].
  destruct (Z.ltb_spec (maximum_candidates (config p)) (Z.of_nat (length cs))) as [E2|E2];
    [right; split_and!; try done; intros (_ & ? & _); lia|].
  pose proof (split_candidates_spec ∅ cs) as Hs. destruct (split_candidates ∅ cs) as [[fx fl]|].
  2: { right. split_and!; try done. intros (_ & _ & Hv & Hnd). apply Hs. split_and!; [done|done|].
       apply Forall_forall. set_solver. }
  destruct Hs as (Hp & Hval & Hnd & _ & Hch).
  destruct (foldl assign_fixed _ _) as [q r] eqn:Ef.
  assert (in_progress p [] (p, empty_plan)) as H0 by (by split).
  destruct (fixed_progress p [] _ (std_sort by_expert fx) H0) as (lf & Hlf & Ecf & Hff & Hcal).
  { rewrite std_sort_perm. apply Forall_forall. intros c Hc.
    apply (proj1 (Forall_forall _ _) Hval c). rewrite <- Hp. set_solver. }
  rewrite Ef in Hlf. simpl app in Hlf.
  destruct (progress_same _ _ _ Hlf) as (Ecfg & [_ _ _ Eco Eho] & Ec & _ & _). simpl in Ecfg, Eco, Eho, Ec.
  destruct (flexible_progress p lf (q, r) (std_sort (flexible_before (telemetry q)) fl) Hlf) as
    (lx & [p' r'] & E & Hlx & Ecx & Hfx & Hright); [by rewrite std_sort_perm|].
  pose proof (ip_decisions _ _ _ Hlf) as Ed. cbn [fst snd] in *. rewrite Ecfg, Eco, Eho, Ed.
  change (Z.of_nat (length (filter is_upload lf.*2))) with (uploads lf).
  assert (probe_due p lf = bootstrap_cpu_probe (config p) && negb (h2d_observations (telemetry p) =? 0) &&
    (cpu_observations (telemetry p) =? 0)) as <-.
  { unfold probe_due. replace (existsb _ lf) with false; [by rewrite andb_true_r|].
    symmetry. apply not_true_iff_false. intros (cd & Hin & Hr)%existsb_exists.
    apply bool_decide_eq_true in Hr. apply list_elem_of_In in Hin.
    by apply (proj1 (Forall_forall _ _) Hcal cd Hin). }
  rewrite E. left. split; [done|]. exists lf, lx. destruct Hlx as [I1 I2 I3 I4 I5 I6]; simpl in *.
  split; simpl; try done.
  - rewrite fmap_app, Ecf, Ecx, !std_sort_perm. done.
  - rewrite <- (Forall_fmap fst (fun c => has_choice c = true)), Ecx. by rewrite std_sort_perm.
  - exists fl. rewrite Ecx. f_equal. unfold flexible_before. by rewrite Ec.
  - by apply Forall_app.
  - by rewrite I2.
  - unfold critical, gpu_finish. simpl. by rewrite I4, I5, I6.
  - by rewrite I1.
Qed.

(** ** Properties *)

Lemma capped_perm f l l' : l ≡ₚ l' -> capped f l = capped f l'.
Proof.
  intros Hp. unfold capped. by rewrite Hp.
Qed.

Lemma critical_perm t l l' : l ≡ₚ l' -> critical t l = critical t l'.
Proof. intros Hp. unfold critical. by rewrite !(capped_perm _ _ _ Hp). Qed.

#[export] Instance decision_by_expert_order : StrictWeakOrder decision_by_expert.
Proof. split; unfold decision_by_expert; intros *; rewrite ?Z.ltb_lt, ?Z.ltb_ge; lia. Qed.

(** Ordered by expert, and each expert once. *)
Lemma sorted_strictly l :
  StronglySorted (fun a b => decision_by_expert b a = false) l -> NoDup (map hd_expert l) ->
  StronglySorted (fun a b => hd_expert a < hd_expert b) l.
Proof.
  induction 1 as [|d l _ IH Hd]; intros Hnd; [constructor|].
  apply NoDup_cons in Hnd as [Hn Hnd]. constructor; [auto|]. apply Forall_forall. intros d' Hin.
  pose proof (proj1 (Forall_forall _ _) Hd d' Hin) as Hle. unfold decision_by_expert in Hle.
  apply Z.ltb_ge in Hle. destruct (decide (hd_expert d = hd_expert d')) as [E|]; [|lia].
  destruct Hn. rewrite E. change (hd_expert d' ∈ hd_expert <$> l). apply list_elem_of_fmap. eauto.
Qed.

Lemma fits_experts (l : assignment) : Forall fits l -> map hd_expert l.*2 = map hc_expert l.*1.
Proof. induction 1 as [|[c d] l [E _] _ IH]; [done|].
  rewrite !fmap_cons. cbn [map fst snd] in *. f_equal; [exact E|exact IH].
Qed.

(** C23: A plan is made exactly when there is a candidate, not too many, each is selected
    and has an executor, and none comes twice; otherwise nothing is decided and only the
    count of rejections changes. A plan decides for each candidate once, in the order of
    the experts, on an executor the candidate allows, a resident one staying on the
    device; and the projected times are the exact sums of the costs of that assignment,
    capped at 64 bits. *)
Theorem plan_assigns_each_once `{StdSort, !StdSortSpec _} p cs p' r :
  plan cs p = (p', r) ->
  (plan_status r = success <-> plannable p cs) /\
  (plan_status r <> success ->
     decisions r = [] /\ p' = p <| telemetry %= fun t => t <| rejected_plans %= inc64 |> |>) /\
  (plan_status r = success ->
     StronglySorted (fun a b => hd_expert a < hd_expert b) (decisions r) /\
     exists l : assignment, l.*1 ≡ₚ cs /\ l.*2 = decisions r /\ Forall fits l /\
       projected_cpu_ns r = capped (cpu_part (telemetry p)) l /\
       projected_gpu_ns r = capped (gpu_part (telemetry p)) l /\
       projected_h2d_ns r = capped (h2d_part (telemetry p)) l /\
       projected_critical_ns r = critical (telemetry p) l).
Proof.
  intros E. pose proof (plan_cases p cs) as Hc. rewrite E in Hc.
  destruct Hc as [[Hok (fx & fl & [H1 _ _ H4 _ H6 H7 H8 H9 H10 H11 _])]|(Hno & Hp' & Hd & Hst)];
    [|by split_and!].
  split; [by split|]. split; [done|]. intros _.
  assert (decisions r ≡ₚ (fx ++ fl).*2) as Hperm by (by rewrite H6, std_sort_perm).
  split.
  - apply sorted_strictly; [rewrite H6; apply std_sort_sorted, _|].
    assert (map hd_expert (decisions r) ≡ₚ map hc_expert cs) as ->; [|apply Hok].
    rewrite Hperm, fits_experts by done. by rewrite H1.
  - apply Permutation_map_inv in Hperm as (l & E2 & Hl). exists l.
    split_and!; [|done|by rewrite <- Hl| | | |]; rewrite <- ?H1, ?H8, ?H9, ?H10, ?H11.
    + by rewrite Hl.
    + by apply capped_perm.
    + by apply capped_perm.
    + by apply capped_perm.
    + by apply critical_perm.
Qed.

Lemma critical_executor t l c d :
  critical t (l ++ [(c, d)]) =
  critical t (l ++ placed c (if bool_decide (executor d = cpu_local) then cpu_local
                             else if is_upload d then gpu_upload else gpu_resident)).
Proof.
  unfold critical, capped, placed. rewrite !map_app, !sumZ_app. simpl.
  unfold cpu_part, gpu_part, h2d_part, on_cpu, is_upload. simpl. by destruct (executor d).
Qed.

(** Uploads that are due are made as long as there are candidates for them. *)
Lemma uploads_due p fixed flexible :
  (forall l1 cd l2, flexible = l1 ++ cd :: l2 -> flexible_right p (fixed ++ l1) cd) ->
  Z.min (minimum_gpu_uploads (config p)) (uploads fixed + Z.of_nat (length flexible)) <=
  uploads (fixed ++ flexible).
Proof.
  induction flexible as [|cd l IH] using rev_ind; intros H; [rewrite app_nil_r; simpl; lia|].
  destruct (H l cd []) as (_ & _ & Hup & _); [done|].
  rewrite app_assoc, uploads_snoc, length_app. simpl.
  assert (Z.min (minimum_gpu_uploads (config p)) (uploads fixed + Z.of_nat (length l)) <= uploads (fixed ++ l)) as IH'.
  { apply IH. intros l1 cd' l2 ->. apply (H l1 cd' (l2 ++ [cd])). by rewrite <- app_assoc. }
  destruct (Z.lt_ge_cases (uploads (fixed ++ l)) (minimum_gpu_uploads (config p))) as [Hlt|Hge].
  - unfold is_upload. rewrite (Hup Hlt), bool_decide_eq_true_2 by done. lia.
  - destruct (is_upload cd.2); lia.
Qed.

(** The plan is greedy in the order of decreasing work: the candidates without a choice
    come first; then each candidate with a choice is decided knowing the exact critical
    path of both choices after what was decided before, and for the stated reason: the
    shorter path, the preferred lane on a tie, the one probe of an unmeasured processor,
    uploads while transfers are unmeasured, and uploads until the configured minimum is
    reached, which it is when there are enough candidates. *)
Theorem plan_is_greedy `{StdSort, !StdSortSpec _} p cs p' r :
  plan cs p = (p', r) -> plan_status r = success ->
  exists fixed flexible : assignment,
    (fixed ++ flexible).*1 ≡ₚ cs /\ (fixed ++ flexible).*2 ≡ₚ decisions r /\
    Forall (fun cd => has_choice cd.1 = true) flexible /\
    Z.min (minimum_gpu_uploads (config p)) (uploads fixed + Z.of_nat (length flexible)) <=
      uploads (fixed ++ flexible) /\
    forall l1 c d l2, flexible = l1 ++ (c, d) :: l2 ->
      weighed p (fixed ++ l1) (c, d) /\
      (reason d = cpu_calibration -> Forall (fun cd => reason cd.2 <> cpu_calibration) l1) /\
      (reason d <> cpu_calibration -> reason d <> gpu_cache_warm ->
       require_live_h2d_before_cpu (config p) = false \/ h2d_observations (telemetry p) <> 0 ->
       critical (telemetry p) (fixed ++ l1 ++ [(c, d)]) =
       Z.min (critical (telemetry p) (fixed ++ l1 ++ placed c cpu_local))
             (critical (telemetry p) (fixed ++ l1 ++ placed c gpu_upload))).
Proof.
  intros E Hs. pose proof (plan_cases p cs) as Hc. rewrite E in Hc.
  destruct Hc as [[_ (fx & fl & [H1 H2 _ _ H5 H6 _ _ _ _ _ _])]|(_ & _ & _ & ?)]; [|done].
  exists fx, fl. split_and!; [done|by rewrite H6, std_sort_perm|done|by apply uploads_due|].
  intros l1 c d l2 Hfl. destruct (H5 l1 (c, d) l2 Hfl) as (Hw & Hlive & Hup & Hcal).
  split; [done|]. split.
  - intros Hr. specialize (Hcal Hr). apply Forall_forall. intros cd Hin Hcd.
    unfold probe_due in Hcal. apply andb_true_iff in Hcal as [_ Hcal%negb_true_iff].
    apply not_true_iff_false in Hcal. apply Hcal, existsb_exists. exists cd. split.
    + apply list_elem_of_In. set_solver.
    + by apply bool_decide_eq_true.
  - intros Hr1 Hr2 Hm. destruct Hw as (J & Ec & Eg). simpl in Ec, Eg.
    rewrite !app_assoc, critical_executor, <- Ec, <- Eg. unfold is_upload.
    unfold justified in J. simpl in J.
    destruct (reason d); try done; (destruct J as [-> J]); simpl;
      rewrite <- ?Ec, <- ?Eg; try lia. destruct J as [?|[? ?]]; [lia|]. destruct Hm; congruence.
Qed.

(** ** The life of a planner *)

(** The states of a planner, with the plans it has returned. *)
Inductive planner_reachable `{StdSort} (cfg : HybridDispatchConfig) : Planner -> list HybridDispatchPlan -> Prop :=
| pr_create p : planner_create cfg = Ok p -> planner_reachable cfg p []
| pr_cpu p rs ns n : planner_reachable cfg p rs -> planner_reachable cfg (observe_cpu ns n p) rs
| pr_gpu p rs ns n : planner_reachable cfg p rs -> planner_reachable cfg (observe_gpu ns n p) rs
| pr_h2d p rs ns n : planner_reachable cfg p rs -> planner_reachable cfg (observe_h2d ns n p) rs
| pr_plan p rs cs p' r :
  planner_reachable cfg p rs -> plan cs p = (p', r) -> planner_reachable cfg p' (rs ++ [r]).

(** The counter a reason belongs to. *)
Definition counter (r : HybridDispatchReason) (t : HybridDispatchTelemetry) : Z :=
  match r with
  | resident_gpu => t_resident_gpu t
  | cpu_only => t_cpu_only t
  | gpu_only => t_gpu_only t
  | cpu_lower_critical_path => cpu_cost_wins t
  | gpu_lower_critical_path => gpu_cost_wins t
  | cpu_stable_tie | gpu_stable_tie => stable_ties t
  | cpu_calibration => cpu_calibrations t
  | gpu_cache_warm => gpu_cache_warms t
  end.

Definition same_counter (r r' : HybridDispatchReason) : bool :=
  let merge r := if bool_decide (r = gpu_stable_tie) then cpu_stable_tie else r in
  bool_decide (merge r = merge r').

Definition counted (r : HybridDispatchReason) (h : list HybridDispatchDecision) : Z :=
  wrap64 (sumZ (map (fun d => if same_counter r (reason d) then 1 else 0) h)).

(** The trace of a planner that has decided [h], in the order of deciding. *)
Record remembers (p : Planner) (h : list HybridDispatchDecision) : Prop := mkRemembers {
  re_bound : 0 < maximum_trace_decisions (config p);
  re_length : Z.of_nat (length (trace_ p)) <= maximum_trace_decisions (config p);
  re_slot : Z.of_nat (next_trace_slot p) < maximum_trace_decisions (config p);
  re_start : Z.of_nat (length (trace_ p)) < maximum_trace_decisions (config p) -> next_trace_slot p = 0%nat;
  re_trace : trace p = drop (length h - Z.to_nat (maximum_trace_decisions (config p))) h;
  re_size : length (trace_ p) = Nat.min (length h) (Z.to_nat (maximum_trace_decisions (config p)));
  re_counts r : counter r (telemetry p) = counted r h }.

Lemma counter_note r p d :
  counter r (telemetry (note p d)) =
  if same_counter r (reason d) then inc64 (counter r (telemetry p)) else counter r (telemetry p).
Proof.
  unfold note. simpl. assert (telemetry (record_trace d p) = telemetry p) as ->.
  { unfold record_trace. by destruct (_ <? _). }
  by destruct r, (reason d).
Qed.

Lemma trace_record d p :
  0 < maximum_trace_decisions (config p) ->
  Z.of_nat (length (trace_ p)) <= maximum_trace_decisions (config p) ->
  Z.of_nat (next_trace_slot p) < maximum_trace_decisions (config p) ->
  (Z.of_nat (length (trace_ p)) < maximum_trace_decisions (config p) -> next_trace_slot p = 0%nat) ->
  let p' := record_trace d p in
  Z.of_nat (length (trace_ p')) <= maximum_trace_decisions (config p) /\
  Z.of_nat (next_trace_slot p') < maximum_trace_decisions (config p) /\
  (Z.of_nat (length (trace_ p')) < maximum_trace_decisions (config p) -> next_trace_slot p' = 0%nat) /\
  if Z.of_nat (length (trace_ p)) <? maximum_trace_decisions (config p)
  then trace p' = trace p ++ [d] /\ length (trace_ p') = S (length (trace_ p))
  else trace p' = tail (trace p) ++ [d] /\ length (trace_ p') = length (trace_ p).
Proof.
  set (N := maximum_trace_decisions (config p)). intros HN Hlen Hslot Hstart p'.
  unfold p', record_trace. fold N. destruct (Z.ltb_spec (Z.of_nat (length (trace_ p))) N) as [Hlt|Hge].
  - unfold trace. simpl. fold N. rewrite (Hstart Hlt), length_app. simpl. rewrite !orb_true_r.
    split_and!; [lia|lia|done|done|lia].
  - assert (length (trace_ p) = Z.to_nat N) as HL by lia.
    assert (next_trace_slot p < length (trace_ p))%nat as Hs by lia.
    destruct (lookup_lt_is_Some_2 (trace_ p) (next_trace_slot p) Hs) as [x Hx].
    pose proof (take_drop_middle _ _ _ Hx) as Hmid. unfold trace. simpl. fold N.
    rewrite !length_insert. rewrite (proj2 (Z.ltb_ge (Z.of_nat (length (trace_ p))) N)) by lia. simpl.
    set (s := next_trace_slot p) in *. set (T := trace_ p) in *.
    assert (drop s T = x :: drop (S s) T) as Hdrop by (by apply drop_S).
    assert (<[s := d]> T = take s T ++ d :: drop (S s) T) as -> by (by apply insert_take_drop).
    assert (tail (if (s =? 0)%nat then T else drop s T ++ take s T) = drop (S s) T ++ take s T) as ->.
    { destruct (Nat.eqb_spec s 0) as [->|]; [|by rewrite Hdrop]. simpl. rewrite app_nil_r. by destruct T. }
    assert (length (take s T) = s) as Hts by (rewrite length_take; lia).
    destruct (Z.eq_dec (Z.of_nat s + 1) N) as [E|E].
    + rewrite E, Z.mod_same by lia. simpl. split_and!; [lia|lia|done| |done].
      rewrite (drop_ge T (S s)) by lia. done.
    + rewrite Z.mod_small by lia. split_and!; [lia|lia|lia| |done].
      replace (Z.to_nat (Z.of_nat s + 1)) with (S s) by lia. simpl (S s =? 0)%nat. cbv iota.
      rewrite drop_app_ge, take_app_ge by lia. rewrite Hts.
      replace (S s - s)%nat with 1%nat by lia. simpl. rewrite take_0, drop_0. by rewrite <- app_assoc.
Qed.

Lemma note_remembers p h d : remembers p h -> remembers (note p d) (h ++ [d]).
Proof.
  intros [H1 H2 H3 H4 H5 H6 H7].
  destruct (trace_record d p H1 H2 H3 H4) as (R1 & R2 & R3 & R4).
  assert (config (note p d) = config p) as Ec by apply note_same.
  assert (trace (note p d) = trace (record_trace d p)) as Et by done.
  split; rewrite ?Ec; simpl (trace_ _); simpl (next_trace_slot _); try done; rewrite ?Et.
  - set (N := Z.to_nat (maximum_trace_decisions (config p))) in *. rewrite H5 in R4.
    rewrite length_app. simpl. destruct (Z.ltb_spec (Z.of_nat (length (trace_ p))) (maximum_trace_decisions (config p))).
    + destruct R4 as [-> _]. rewrite drop_app_le by lia. do 2 f_equal. lia.
    + destruct R4 as [-> _]. rewrite drop_app_le by lia. f_equal.
      replace (length h + 1 - N)%nat with (S (length h - N)) by lia.
      assert (forall l : list HybridDispatchDecision, tail l = drop 1 l) as -> by (by intros []).
      rewrite drop_drop. f_equal. lia.
  - rewrite length_app. simpl. destruct (Z.ltb_spec (Z.of_nat (length (trace_ p))) (maximum_trace_decisions (config p)));
      destruct R4 as [_ ->]; lia.
  - intros r. rewrite counter_note, H7. unfold counted. rewrite map_app, sumZ_app. simpl.
    destruct (same_counter r (reason d)); [|by rewrite !Z.add_0_r].
    unfold inc64, add64. rewrite wrap64_add_l. f_equal; lia.
Qed.

Lemma note_all_remembers p h l : remembers p h -> remembers (note_all p l) (h ++ l).
Proof.
  revert p h. induction l as [|d l IH]; intros p h Hp; [by rewrite app_nil_r|].
  change (d :: l) with ([d] ++ l). rewrite app_assoc. apply (IH (note p d)), note_remembers, Hp.
Qed.

(** Nothing but the decisions moves the trace and its counters. *)
Lemma remembers_telemetry p h t :
  (forall r, counter r t = counter r (telemetry p)) -> remembers p h -> remembers (p <| telemetry := t |>) h.
Proof. intros Ht []. split; try done. intros r. simpl. by rewrite Ht. Qed.

Lemma observe_remembers p h ns n :
  remembers p h ->
  remembers (observe_cpu ns n p) h /\ remembers (observe_gpu ns n p) h /\ remembers (observe_h2d ns n p) h.
Proof.
  intros Hp. unfold observe_cpu, observe_gpu, observe_h2d. destruct (_ || _); [done|].
  split_and!; (apply (remembers_telemetry _ _ _); [by intros []|];
    apply (remembers_telemetry _ _ _); [by intros []|done]).
Qed.

(** However long a planner lives, its trace is the latest decisions of all its plans,
    at most as many as configured, in the order they were made, and each counter of its
    telemetry is the number of decisions made for that reason, up to the width of the
    counter. *)
Theorem planner_trace_is_recent `{StdSort, !StdSortSpec _} cfg p rs :
  0 <= maximum_trace_decisions cfg -> planner_reachable cfg p rs ->
  exists made : list (list HybridDispatchDecision),
    Forall2 (fun r ds => ds ≡ₚ decisions r) rs made /\
    trace p = drop (length (concat made) - Z.to_nat (maximum_trace_decisions cfg)) (concat made) /\
    forall reason, counter reason (telemetry p) = counted reason (concat made).
Proof.
  intros Hmax Hr.
  enough (config p = cfg /\ exists made, Forall2 (fun r ds => ds ≡ₚ decisions r) rs made /\
    remembers p (concat made)) as (Hc & made & Hf & [_ _ _ _ Ht _ Hn]).
  { exists made. rewrite Hc in Ht. done. }
  induction Hr as [p Hp|p rs ns n _ [Hc (made & Hf & IH)]|p rs ns n _ [Hc (made & Hf & IH)]|
    p rs ns n _ [Hc (made & Hf & IH)]|p rs cs p' r _ [Hc (made & Hf & IH)] Hp].
  - unfold planner_create in Hp. destruct (valid_dispatch_config cfg) eqn:Hv; [|done]. injection Hp as <-.
    unfold valid_dispatch_config in Hv.
    apply andb_true_iff in Hv as [_ Hv%negb_true_iff%Z.eqb_neq].
    split; [done|]. exists []. split; [constructor|]. split; simpl; try lia.
    + unfold trace. simpl. by rewrite orb_true_r.
    + by intros [].
  - destruct (observe_remembers _ _ ns n IH) as (H1 & _ & _). split; [|by exists made].
    unfold observe_cpu. by destruct (_ || _).
  - destruct (observe_remembers _ _ ns n IH) as (_ & H1 & _). split; [|by exists made].
    unfold observe_gpu. by destruct (_ || _).
  - destruct (observe_remembers _ _ ns n IH) as (_ & _ & H1). split; [|by exists made].
    unfold observe_h2d. by destruct (_ || _).
  - pose proof (plan_cases p cs) as Hcase. rewrite Hp in Hcase.
    destruct Hcase as [[_ (fx & fl & [_ _ _ _ _ Hd _ _ _ _ _ ->])]|(_ & -> & Hd & _)].
    + split; [simpl; by rewrite (proj1 (note_all_same p _))|]. exists (made ++ [(fx ++ fl).*2]). split.
      * apply Forall2_app; [done|]. constructor; [|constructor]. by rewrite Hd, std_sort_perm.
      * rewrite concat_app. simpl concat. rewrite app_nil_r.
        apply (remembers_telemetry _ _ _); [by intros []|].
        apply (remembers_telemetry _ _ _); [by intros []|]. by apply note_all_remembers.
    + split; [done|]. exists (made ++ [[]]). split.
      * apply Forall2_app; [done|]. constructor; [by rewrite Hd|constructor].
      * rewrite concat_app. simpl concat. rewrite app_nil_r.
        apply (remembers_telemetry _ _ _); [by intros []|done].
Qed.

(** ** Examples *)

(** Two experts of eight selections each are free, one is resident, one has no device. *)
Definition demo_candidates : list HybridDispatchCandidate :=
  [mkCandidate 7 8 4194304 false true true 3 1; mkCandidate 2 4 4194304 true true true 0 0;
   mkCandidate 5 2 4194304 false true false 0 0; mkCandidate 1 8 4194304 false true true 9 2].

Definition demo_planner : Planner :=
  mkPlanner default_dispatch_config
    (mkDispatchTelemetry 0 0 0 0 0 0 0 0 0 0 0 0 0 0 (f64_of_Z 112652) (f64_of_Z 6954)
       (f64_of_Z (8 * 1024 * 1024 * 1024))) [] 0.

Example demo_planner_created : planner_create default_dispatch_config = Ok demo_planner.
Proof. vm_compute. reflexivity. Qed.

Definition demo_plan : Planner * HybridDispatchPlan := plan (H := stable_std_sort) demo_candidates demo_planner.

Example demo_plan_value :
  map (fun d => (hd_expert d, executor d, reason d)) (decisions demo_plan.2) =
    [(1, gpu_upload, gpu_lower_critical_path); (2, gpu_resident, resident_gpu);
     (5, cpu_local, cpu_only); (7, gpu_upload, gpu_lower_critical_path)] /\
  projected_critical_ns demo_plan.2 = 1115644 /\ plan_status demo_plan.2 = success.
Proof. vm_compute. done. Qed.

Lemma demo_plan_eq : plan (H := stable_std_sort) demo_candidates demo_planner = (demo_plan.1, demo_plan.2).
Proof. unfold demo_plan. apply surjective_pairing. Qed.

Lemma plan_assigns_each_once_witness :
  plan (H := stable_std_sort) demo_candidates demo_planner = (demo_plan.1, demo_plan.2) /\
  plan_status demo_plan.2 = success /\ plannable demo_planner demo_candidates.
Proof.
  split; [exact demo_plan_eq|]. split; [exact (proj2 (proj2 demo_plan_value))|].
  exact (proj1 (proj1 (plan_assigns_each_once (H := stable_std_sort) (StdSortSpec0 := stable_std_sort_spec)
    _ _ _ _ demo_plan_eq)) (proj2 (proj2 demo_plan_value))).
Defined.

Lemma plan_is_greedy_witness :
  plan_status demo_plan.2 = success /\
  exists fixed flexible : assignment, (fixed ++ flexible).*1 ≡ₚ demo_candidates.
Proof.
  split; [exact (proj2 (proj2 demo_plan_value))|].
  destruct (plan_is_greedy (H := stable_std_sort) (StdSortSpec0 := stable_std_sort_spec)
    _ _ _ _ demo_plan_eq (proj2 (proj2 demo_plan_value))) as (fixed & flexible & Hp & _).
  exists fixed, flexible. exact Hp.
Defined.

Lemma planner_trace_is_recent_witness :
  0 <= maximum_trace_decisions default_dispatch_config /\
  planner_reachable (H := stable_std_sort) default_dispatch_config demo_plan.1 [demo_plan.2] /\
  exists made, Forall2 (fun r ds => ds ≡ₚ decisions r) [demo_plan.2] made /\
    trace demo_plan.1 = drop (length (concat made) - Z.to_nat (maximum_trace_decisions default_dispatch_config)) (concat made).
Proof.
  assert (0 <= maximum_trace_decisions default_dispatch_config) as H0 by (simpl; lia).
  assert (planner_reachable (H := stable_std_sort) default_dispatch_config demo_plan.1 ([] ++ [demo_plan.2])) as Hr.
  { exact (pr_plan (H := stable_std_sort) _ demo_planner [] demo_candidates _ _
      (pr_create (H := stable_std_sort) _ _ demo_planner_created) demo_plan_eq). }
  split; [exact H0|]. split; [exact Hr|].
  destruct (planner_trace_is_recent (H := stable_std_sort) (StdSortSpec0 := stable_std_sort_spec)
    _ _ _ H0 Hr) as (made & Hf & Ht & _).
  exists made. split; [exact Hf|exact Ht].
Defined.
