(* ===== verification/PlacementProfile.v ===== *)
(** Placement profiles ([runtime/src/placement_profile.cpp],
    [runtime/include/expert/runtime/placement_profile.hpp]): measured costs and memory
    envelopes become the configurations of the dispatch planner and of the memory
    governor, or are rejected. The theorem shows that both accept what it makes, and that
    the governor grants the fixed state beside a full cache. *)

From S2P Require Import Prelude.
From S2P Require Import Storage.
From S2P Require Import Binary64.
From S2P Require Import HybridDispatch.
From S2P Require Import ResourceGovernor.

Record PlacementCostProfile := mkCosts {
  c_cpu_ns_per_selection : f64;
  c_gpu_ns_per_selection : f64;
  c_h2d_bytes_per_second : f64;
  cpu_samples : Z;
  gpu_samples : Z;
  h2d_sample_bytes : Z }.

Record PlacementDomainInput := mkDomainInput {
  usable_bytes : Z;
  fixed_bytes : Z;
  d_emergency_reserve_bytes : Z;
  expert_record_bytes : Z;
  minimum_expert_slots : Z;
  maximum_expert_slots : Z }.

Record PlacementProfileInput := mkProfileInput {
  costs : PlacementCostProfile;
  in_host : PlacementDomainInput;
  in_device : PlacementDomainInput;
  in_observation_ewma_alpha : f64;
  maximum_dispatch_candidates : Z;
  maximum_dispatch_trace_decisions : Z }.

Record PlacementProfilePlan := mkProfilePlan {
  pp_status : Status;
  dispatch : HybridDispatchConfig;
  governor : MemoryGovernorConfig;
  host_cache_bytes : Z;
  device_cache_bytes : Z;
  host_expert_slots : Z;
  device_expert_slots : Z }.

Definition default_governor_config : MemoryGovernorConfig := mkGovernorConfig 0 0 0 0.

Definition rejected_profile (status : Status) : PlacementProfilePlan :=
  mkProfilePlan status default_dispatch_config default_governor_config 0 0 0 0.

Record DomainPlan := mkDomainPlan { dp_status : Status; cache_bytes : Z; slots : Z }.

Definition add_overflows (left right : Z) : bool := U64_MAX - left <? right.

Definition solve_domain (input : PlacementDomainInput) (name : string) : DomainPlan :=
  if (usable_bytes input =? 0) || (expert_record_bytes input =? 0) ||
     (usable_bytes input <=? d_emergency_reserve_bytes input) ||
     add_overflows (fixed_bytes input) (d_emergency_reserve_bytes input) ||
     (usable_bytes input <? add64 (fixed_bytes input) (d_emergency_reserve_bytes input))
  then mkDomainPlan (mkStatus invalid_arg ("invalid " +:+ name +:+ " placement envelope")) 0 0
  else
    let available :=
      sub64 (sub64 (usable_bytes input) (fixed_bytes input)) (d_emergency_reserve_bytes input) in
    let slots := available / expert_record_bytes input in
    let slots := if negb (maximum_expert_slots input =? 0)
                 then Z.min slots (maximum_expert_slots input) else slots in
    if slots <? minimum_expert_slots input
    then mkDomainPlan
           (mkStatus backpressure (name +:+ " placement cannot satisfy minimum expert slots")) 0 slots
    else mkDomainPlan success (mul64 slots (expert_record_bytes input)) slots.

Definition costs_measured (input : PlacementProfileInput) : bool :=
  positive_finite (c_cpu_ns_per_selection (costs input)) &&
  positive_finite (c_gpu_ns_per_selection (costs input)) &&
  positive_finite (c_h2d_bytes_per_second (costs input)) &&
  negb (cpu_samples (costs input) =? 0) && negb (gpu_samples (costs input) =? 0) &&
  negb (h2d_sample_bytes (costs input) =? 0) &&
  positive_finite (in_observation_ewma_alpha input) &&
  negb (fltb fone (in_observation_ewma_alpha input)) &&
  negb (maximum_dispatch_candidates input =? 0) &&
  negb (maximum_dispatch_trace_decisions input =? 0).

Definition solve_placement_profile (input : PlacementProfileInput) : PlacementProfilePlan :=
  if negb (costs_measured input) then
    rejected_profile (mkStatus invalid_arg "placement profile requires measured finite costs")
  else
    let host := solve_domain (in_host input) "host" in
    if negb (status_ok (dp_status host)) then rejected_profile (dp_status host)
    else
      let device := solve_domain (in_device input) "device" in
      if negb (status_ok (dp_status device)) then rejected_profile (dp_status device)
      else
        mkProfilePlan success
          (mkDispatchConfig (c_cpu_ns_per_selection (costs input)) (c_gpu_ns_per_selection (costs input))
             (c_h2d_bytes_per_second (costs input)) (in_observation_ewma_alpha input)
             (maximum_dispatch_candidates input) (maximum_dispatch_trace_decisions input)
             false false false 0)
          (mkGovernorConfig (usable_bytes (in_host input)) (usable_bytes (in_device input))
             (d_emergency_reserve_bytes (in_host input)) (d_emergency_reserve_bytes (in_device input)))
          (cache_bytes host) (cache_bytes device) (slots host) (slots device).

(** ** What a solved domain fits *)

Definition typed_domain (i : PlacementDomainInput) : Prop :=
  u64 (usable_bytes i) /\ u64 (fixed_bytes i) /\ u64 (d_emergency_reserve_bytes i) /\
  u64 (expert_record_bytes i) /\ u64 (minimum_expert_slots i) /\ u64 (maximum_expert_slots i).

(** [n] records fit beside the fixed state and the emergency reserve, within the cap. *)
Definition slots_fit (i : PlacementDomainInput) (n : Z) : Prop :=
  fixed_bytes i + d_emergency_reserve_bytes i + n * expert_record_bytes i <= usable_bytes i /\
  (maximum_expert_slots i <> 0 -> n <= maximum_expert_slots i).

Definition envelope (i : PlacementDomainInput) : Prop :=
  0 < expert_record_bytes i /\ d_emergency_reserve_bytes i < usable_bytes i.

Lemma solve_domain_spec i name :
  typed_domain i ->
  (status_ok (dp_status (solve_domain i name)) = true <->
   envelope i /\ slots_fit i (minimum_expert_slots i)) /\
  (status_ok (dp_status (solve_domain i name)) = true ->
   slots_fit i (slots (solve_domain i name)) /\
   (forall n, slots_fit i n -> n <= slots (solve_domain i name)) /\
   cache_bytes (solve_domain i name) = slots (solve_domain i name) * expert_record_bytes i).
Proof.
  unfold typed_domain, slots_fit, envelope, u64, U64_MAX. intros (H1 & H2 & H3 & H4 & H5 & H6).
  unfold solve_domain, add_overflows, U64_MAX.
  destruct (Z.eqb_spec (usable_bytes i) 0); simpl; [split; [split; [done|intros; exfalso; lia]|done]|].
  destruct (Z.eqb_spec (expert_record_bytes i) 0); simpl; [split; [split; [done|intros; exfalso; lia]|done]|].
  destruct (Z.leb_spec (usable_bytes i) (d_emergency_reserve_bytes i)); simpl; [split; [split; [done|intros; exfalso; lia]|done]|].
  destruct (Z.ltb_spec (2 ^ 64 - 1 - fixed_bytes i) (d_emergency_reserve_bytes i)); simpl;
    [split; [split; [done|intros; exfalso; nia]|done]|].
  unfold add64. rewrite wrap64_small by (unfold u64, U64_MAX; lia).
  destruct (Z.ltb_spec (usable_bytes i) (fixed_bytes i + d_emergency_reserve_bytes i)); simpl;
    [split; [split; [done|intros; exfalso; nia]|done]|].
  unfold sub64. rewrite (wrap64_small (usable_bytes i - fixed_bytes i)) by (unfold u64, U64_MAX; lia).
  rewrite (wrap64_small (_ - d_emergency_reserve_bytes i)) by (unfold u64, U64_MAX; lia).
  set (a := usable_bytes i - fixed_bytes i - d_emergency_reserve_bytes i).
  set (r := expert_record_bytes i) in *.
  pose proof (Z.mul_div_le a r ltac:(lia)). pose proof (Z.mul_succ_div_gt a r ltac:(lia)).
  assert (0 <= a / r) by (apply Z.div_pos; lia).
  set (k := if negb (maximum_expert_slots i =? 0) then Z.min (a / r) (maximum_expert_slots i) else a / r).
  assert (0 <= k <= a / r /\ (maximum_expert_slots i <> 0 -> k <= maximum_expert_slots i) /\
    (k = a / r \/ k = maximum_expert_slots i /\ maximum_expert_slots i <> 0)) as (Hn & Hcap & Hlargest).
  { unfold k. destruct (Z.eqb_spec (maximum_expert_slots i) 0); simpl; lia. }
  assert (forall m m', m <= m' -> m * r <= m' * r) as Hmono by (intros; apply Z.mul_le_mono_nonneg_r; lia).
  pose proof (Hmono _ _ (proj2 Hn)) as Hk. assert (k * r <= a) as Ha by lia.
  assert (0 <= k * r) by (apply Z.mul_nonneg_nonneg; lia).
  assert (forall m, m * r <= a -> m <= a / r) as Hdiv by (intros; apply Z.div_le_lower_bound; lia).
  destruct (Z.ltb_spec k (minimum_expert_slots i)); simpl.
  - split; [split; [done|]|done]. intros [_ [Hm Hc]].
    specialize (Hdiv (minimum_expert_slots i) ltac:(lia)). lia.
  - specialize (Hmono (minimum_expert_slots i) k ltac:(lia)).
    unfold mul64. rewrite wrap64_small by (unfold u64, U64_MAX; lia).
    split; [split; [intros _|done]; split_and!; lia|]. intros _. split_and!; [lia|lia| |done].
    intros m [Hm Hc]. specialize (Hdiv m ltac:(lia)). lia.
Qed.

Definition domain_input (i : PlacementProfileInput) (d : MemoryDomain) : PlacementDomainInput :=
  match d with host => in_host i | device => in_device i end.

Definition domain_cache (r : PlacementProfilePlan) (d : MemoryDomain) : Z :=
  match d with host => host_cache_bytes r | device => device_cache_bytes r end.

Definition domain_slots (r : PlacementProfilePlan) (d : MemoryDomain) : Z :=
  match d with host => host_expert_slots r | device => device_expert_slots r end.

(** Reserving fits without trimming when the tiers leave room. *)
Lemma reserve_beside_tiers {W} `{TierWorld W} d n g w :
  u64 (budget d g) -> u64 (emergency d g) -> 0 < n -> 0 <= reserved d g ->
  0 <= tier_bytes d g w ->
  reserved d g + n + tier_bytes d g w + emergency d g <= budget d g ->
  reserve d n g w = (success, set_reserved d (reserved d g + n) g, w).
Proof.
  unfold u64. intros Hb He Hn Hr Ht Hfit. unfold reserve.
  destruct (Z.eqb_spec n 0); [lia|]. unfold rebalance_locked, fits.
  rewrite saturating_add_min, Z.min_r by (unfold U64_MAX in *; lia).
  unfold sub64. rewrite !wrap64_small by (unfold u64, U64_MAX in *; lia).
  rewrite !(proj2 (Z.leb_le _ _)) by lia. simpl. unfold add64.
  by rewrite wrap64_small by (unfold u64, U64_MAX in *; lia).
Qed.

(** A profile is accepted exactly when its costs are measured and, in each memory
    domain, the fixed state, the emergency reserve and the minimum of expert slots fit
    the usable bytes; the slots it grants are the most that fit. The dispatch planner and
    the governor accept the configurations it makes, and as long as the cache of a domain
    keeps to its granted bytes, the governor reserves the fixed state beside it without
    trimming anything: a profile never overcommits. *)
Theorem placement_profile_fits i :
  typed_domain (in_host i) -> typed_domain (in_device i) ->
  let r := solve_placement_profile i in
  (status_ok (pp_status r) = true <->
     costs_measured i = true /\
     forall d, envelope (domain_input i d) /\
       slots_fit (domain_input i d) (minimum_expert_slots (domain_input i d))) /\
  (status_ok (pp_status r) = true ->
     (exists p, planner_create (dispatch r) = Ok p) /\
     exists g, governor_create (governor r) = Ok g /\
     forall d, let i := domain_input i d in
       slots_fit i (domain_slots r d) /\ (forall n, slots_fit i n -> n <= domain_slots r d) /\
       domain_cache r d = domain_slots r d * expert_record_bytes i /\
       forall W (HW : TierWorld W) (w : W) g', gov_config g' = gov_config g -> reserved d g' = 0 ->
         0 < fixed_bytes i -> 0 <= tier_bytes d g' w <= domain_cache r d ->
         reserve d (fixed_bytes i) g' w = (success, set_reserved d (fixed_bytes i) g', w)).
Proof.
  intros Hh Hd. destruct (solve_domain_spec _ "host" Hh) as [Ih Rh].
  destruct (solve_domain_spec _ "device" Hd) as [Id Rd].
  unfold solve_placement_profile. cbv zeta.
  destruct (costs_measured i) eqn:Hc; simpl; [|split; [split; [done|intros [[=] _]]|done]].
  destruct (status_ok (dp_status (solve_domain (in_host i) "host"))) eqn:Eh; simpl.
  2: { rewrite Eh. split; [split; [done|intros [_ Ha]; apply Ih, (Ha host)]|done]. }
  destruct (status_ok (dp_status (solve_domain (in_device i) "device"))) eqn:Ed; simpl.
  2: { rewrite Ed. split; [split; [done|intros [_ Ha]; apply Id, (Ha device)]|done]. }
  split; [split; [intros _; split; [done|intros []; [by apply Ih|by apply Id]]|done]|]. intros _.
  destruct (proj1 Ih eq_refl) as [[Eh1 Eh2] _]. destruct (proj1 Id eq_refl) as [[Ed1 Ed2] _].
  split.
  { unfold planner_create, valid_dispatch_config. simpl. unfold costs_measured in Hc.
    repeat match goal with H : _ && _ = true |- _ => apply andb_true_iff in H as [H ?] end.
    eexists. repeat match goal with H : _ = true |- _ => rewrite H; clear H end. reflexivity. }
  unfold typed_domain, u64 in *. unfold governor_create. simpl. rewrite !Z.geb_leb.
  rewrite !(proj2 (Z.eqb_neq _ 0)), !(proj2 (Z.leb_gt _ _)) by lia. simpl.
  eexists. split; [reflexivity|]. intros [].
  - destruct (Rh eq_refl) as (F1 & F2 & F3). split_and!; try done.
    intros W HW w g' Hg' Hr Hf Ht. simpl in *. rewrite reserve_beside_tiers; rewrite ?Hr; simpl; rewrite ?Hg'; simpl;
      unfold u64, slots_fit in *; try lia; by rewrite Hr.
  - destruct (Rd eq_refl) as (F1 & F2 & F3). split_and!; try done.
    intros W HW w g' Hg' Hr Hf Ht. simpl in *. rewrite reserve_beside_tiers; rewrite ?Hr; simpl; rewrite ?Hg'; simpl;
      unfold u64, slots_fit in *; try lia; by rewrite Hr.
Qed.

(** ** Example *)

(** Sixty-four gigabytes of memory and a device of sixteen; records of four megabytes. *)
Definition demo_input : PlacementProfileInput :=
  mkProfileInput
    (mkCosts (f64_of_Z 100000) (f64_of_Z 7000) (f64_of_Z (8 * 1024 * 1024 * 1024)) 10 10 4194304)
    (mkDomainInput (64 * 2 ^ 30) (8 * 2 ^ 30) (4 * 2 ^ 30) (4 * 2 ^ 20) 64 0)
    (mkDomainInput (16 * 2 ^ 30) (6 * 2 ^ 30) (2 ^ 30) (4 * 2 ^ 20) 64 1000)
    (f64_of 1 (-3)) 4096 256.

Example demo_profile :
  status_ok (pp_status (solve_placement_profile demo_input)) = true /\
  host_expert_slots (solve_placement_profile demo_input) = 13312 /\
  device_expert_slots (solve_placement_profile demo_input) = 1000.
Proof. vm_compute. done. Qed.

Lemma placement_profile_fits_witness :
  typed_domain (in_host demo_input) /\ typed_domain (in_device demo_input) /\
  exists g, governor_create (governor (solve_placement_profile demo_input)) = Ok g.
Proof.
  assert (typed_domain (in_host demo_input)) as Hh by
    (unfold typed_domain, u64, U64_MAX; simpl; lia).
  assert (typed_domain (in_device demo_input)) as Hd by
    (unfold typed_domain, u64, U64_MAX; simpl; lia).
  split; [exact Hh|]. split; [exact Hd|].
  destruct (proj2 (placement_profile_fits demo_input Hh Hd) (proj1 demo_profile)) as (_ & g & Hg & _).
  exists g. exact Hg.
Defined.
