(* ===== verification/SpeculativeSampling.v ===== *)
(** Speculative sampling ([runtime/src/speculative_sampling.cpp],
    [runtime/include/expert/runtime/speculative_sampling.hpp]): the sampling distribution
    of sorted logits, one draw from it, one accept-or-correct decision, and the
    counter-based uniforms.

    Probabilities are doubles with their rounding ([Binary64]); a float is the double of
    the same value. The exponential of the mathematical library is the parameter [exp]. *)

From Stdlib Require Import Floats.SpecFloat.
From S2P Require Import Prelude.
From S2P Require Import Binary64.

Record TokenProbability := mkToken { token : Z; tp_probability : f64 }.

(** [SamplingDistribution] has one member, [entries]. *)
Definition SamplingDistribution : Type := list TokenProbability.

(** ** Uniforms *)

Definition splitmix64 (value : Z) : Z :=
  let value := add64 value 0x9e3779b97f4a7c15 in
  let value := mul64 (Z.lxor value (Z.shiftr value 30)) 0xbf58476d1ce4e5b9 in
  let value := mul64 (Z.lxor value (Z.shiftr value 27)) 0x94d049bb133111eb in
  Z.lxor value (Z.shiftr value 31).

Definition counter (seed position stream index : Z) : Z :=
  let counter := seed in
  let counter := Z.lxor counter (mul64 position 0xd2b74407b1ce6e93) in
  let counter := Z.lxor counter (mul64 stream 0xca5a826395121157) in
  Z.lxor counter (mul64 index 0x9e3779b185ebca87).

Definition counter_uniform (seed position stream index : Z) : f64 :=
  let bits := splitmix64 (counter seed position stream index) in
  fmul (f64_of_Z (Z.shiftr bits 11)) (fdiv fone (f64_of_Z 9007199254740992)).

Definition require_uniform (value : f64) : outcome unit :=
  if negb (f64_isfinite value) || fltb value fzero || negb (fltb value fone)
  then Throw (invalid_argument "sampling uniform must be in [0, 1)")
  else Ok tt.

(** ** Distributions *)

Fixpoint probability (d : SamplingDistribution) (t : Z) : f64 :=
  match d with
  | [] => fzero
  | entry :: d => if token entry =? t then tp_probability entry else probability d t
  end.

(** [std::abs] of a double, and the two literals of the validation. *)
Definition fabs (x : f64) : f64 := SFabs x.
Definition tolerance : f64 := fdiv fone (f64_of_Z (10 ^ 10)).

Definition sum_probabilities (d : SamplingDistribution) : f64 :=
  foldl (fun total entry => fadd total (tp_probability entry)) fzero d.

Definition validate_distribution `{StdSort} (d : SamplingDistribution) : outcome unit :=
  if bool_decide (d = []) then Throw (invalid_argument "sampling distribution is empty")
  else if existsb (fun entry => negb (f64_isfinite (tp_probability entry)) ||
                                fltb (tp_probability entry) fzero) d
  then Throw (invalid_argument "sampling probability is invalid")
  else
    let total := sum_probabilities d in
    let tokens := std_sort Z.ltb (map token d) in
    if has_adjacent tokens || negb (f64_isfinite total) || fltb tolerance (fabs (fsub total fone))
    then Throw (invalid_argument "sampling distribution is not normalized")
    else Ok tt.

(** ** The distribution of sorted logits *)

(** [current > previous], or the same value with a smaller token. *)
Fixpoint candidates_ordered (l : list (f64 * Z)) : bool :=
  match l with
  | (previous, previous_token) :: (((current, current_token) :: _) as l) =>
    negb ((negb (bool_decide (current = S754_nan)) && fltb previous current) ||
          (feqb current previous && (current_token <? previous_token)))
    && candidates_ordered l
  | _ => true
  end.

Section Sampling.
Context (exp : f64 -> f64).

Definition weight (maximum inverse_temperature logit : f64) : f64 :=
  if f64_isfinite logit then exp (fmul (fsub logit maximum) inverse_temperature) else fzero.

(** The retained candidates with their weights. *)
Definition retained (maximum inverse_temperature minimum_relative : f64) (l : list (f64 * Z))
    : list (Z * f64) :=
  l ≫= fun c =>
    let w := weight maximum inverse_temperature c.1 in
    if fltb w minimum_relative then [] else [(c.2, w)].

Definition total_weight (l : list (Z * f64)) : f64 := foldl (fun total c => fadd total c.2) fzero l.

(** How many candidates the nucleus keeps: up to the first that reaches [top_p]. *)
Fixpoint nucleus (total top_p cumulative : f64) (l : list (Z * f64)) : nat :=
  match l with
  | [] => 0
  | c :: l =>
    let cumulative := fadd cumulative (fdiv c.2 total) in
    if fleb top_p cumulative then 1 else S (nucleus total top_p cumulative l)
  end.

Definition ppm (n : Z) : f64 := fdiv (f64_of_Z n) (f64_of_Z 1000000).

Definition make_sampling_distribution (sorted_logits : list f64) (sorted_tokens : list Z)
    (temperature_ppm top_p_ppm min_p_ppm : Z) : outcome SamplingDistribution :=
  match sorted_logits with
  | [] => Throw (invalid_argument "invalid sorted sampling candidates")
  | front :: _ =>
    if negb (length sorted_logits =? length sorted_tokens)%nat ||
       (temperature_ppm =? 0) || (2000000 <? temperature_ppm) ||
       (top_p_ppm =? 0) || (1000000 <? top_p_ppm) || (1000000 <? min_p_ppm) ||
       negb (f64_isfinite front)
    then Throw (invalid_argument "invalid sorted sampling candidates")
    else if negb (candidates_ordered (combine sorted_logits sorted_tokens))
    then Throw (invalid_argument "sampling candidates are not ordered")
    else
      let inverse_temperature := fdiv (f64_of_Z 1000000) (f64_of_Z temperature_ppm) in
      let kept := retained front inverse_temperature (ppm min_p_ppm) (combine sorted_logits sorted_tokens) in
      let total := total_weight kept in
      if bool_decide (kept = []) || negb (f64_isfinite total) || negb (fltb fzero total)
      then Throw (invalid_argument "sampling distribution has no retained mass")
      else
        let kept := take (nucleus total (ppm top_p_ppm) fzero kept) kept in
        let total := total_weight kept in
        Ok (map (fun c => mkToken c.1 (fdiv c.2 total)) kept)
  end.
End Sampling.

(** ** Drawing *)

(** The loop of a draw: the first entry whose cumulated probability passes [threshold]. *)
Fixpoint draw (threshold cumulative : f64) (l : list (Z * f64)) : option Z :=
  match l with
  | [] => None
  | (token, probability) :: l =>
    let cumulative := fadd cumulative probability in
    if fltb threshold cumulative then Some token else draw threshold cumulative l
  end.

Definition entry_pair (e : TokenProbability) : Z * f64 := (token e, tp_probability e).

Definition sample_distribution `{StdSort} (d : SamplingDistribution) (uniform : f64) : outcome Z :=
  let! _ := validate_distribution d in
  let! _ := require_uniform uniform in
  match draw uniform fzero (map entry_pair d) with
  | Some token => Ok token
  | None => match last d with Some entry => Ok (token entry) | None =>
                    Throw (undefined_behavior "back of an empty vector") end
  end.

(** ** Rejection sampling *)

Record RejectionSamplingResult := mkRejection {
  accepted : bool;
  rs_token : Z;
  target_probability : f64;
  draft_probability : f64 }.

(** [std::min(1.0, x)] and [std::max(0.0, x)]. *)
Definition min_one (x : f64) : f64 := if fltb x fone then x else fone.
Definition max_zero (x : f64) : f64 := if fltb fzero x then x else fzero.

(** The map [residual]; a key that is looked up with [operator[]] starts at [0.0]. *)
Definition residual (target draft : SamplingDistribution) : gmap Z f64 :=
  let m := foldl (fun m e => <[token e := tp_probability e]> m) ∅ target in
  foldl (fun m e => <[token e := max_zero (fsub (default fzero (m !! token e)) (tp_probability e))]> m)
    m draft.

Definition residual_total (l : list (Z * f64)) : f64 := foldl (fun total e => fadd total e.2) fzero l.

(** The last token of positive probability. *)
Definition last_positive (l : list (Z * f64)) : option Z :=
  last ((filter (fun e => fltb fzero e.2 = true) l).*1).

Definition rejection_sample `{StdSort} (proposal : Z) (target draft : SamplingDistribution)
    (acceptance_uniform correction_uniform : f64) : outcome RejectionSamplingResult :=
  let! _ := validate_distribution target in
  let! _ := validate_distribution draft in
  let! _ := require_uniform acceptance_uniform in
  let! _ := require_uniform correction_uniform in
  let target_probability := probability target proposal in
  let draft_probability := probability draft proposal in
  if negb (fltb fzero draft_probability)
  then Throw (invalid_argument "proposal has zero draft probability")
  else
    let acceptance := min_one (fdiv target_probability draft_probability) in
    if fltb acceptance_uniform acceptance
    then Ok (mkRejection true proposal target_probability draft_probability)
    else
      let residual := ordered Z.ltb (residual target draft) in
      let total := residual_total residual in
      if negb (f64_isfinite total) || negb (fltb fzero total)
      then Throw (runtime_error "rejected proposal has no correction mass")
      else
        let threshold := fmul correction_uniform total in
        match draw threshold fzero residual with
        | Some token => Ok (mkRejection false token target_probability draft_probability)
        | None =>
          match last_positive residual with
          | Some token => Ok (mkRejection false token target_probability draft_probability)
          | None => Throw (runtime_error "rejected proposal has no positive correction")
          end
        end.
