(* ===== verification/SpeculativeSamplingTheorems.v ===== *)
(** What speculative sampling guarantees: uniforms lie in the unit interval and streams
    do not repeat a draw; a correction is drawn from the tokens the draft had given too
    little to, never from others. *)

From Stdlib Require Import Floats.SpecFloat.
From S2P Require Import Prelude.
From S2P Require Import Doubles.
From S2P Require Import Binary64.
From S2P Require Import SpeculativeSampling.

(** ** The mixer is a bijection *)

Lemma xorshift_inverse x s : 0 < s -> 0 <= x < 2 ^ (4 * s) ->
  let y := Z.lxor x (Z.shiftr x s) in
  let z := Z.lxor y (Z.shiftr y s) in
  Z.lxor z (Z.shiftr z (2 * s)) = x.
Proof.
  intros Hs Hx y z.
  assert (forall a t, 0 <= t -> Z.lxor (Z.lxor a (Z.shiftr a t)) (Z.shiftr (Z.lxor a (Z.shiftr a t)) t) =
    Z.lxor a (Z.shiftr a (2 * t))) as Hstep.
  { intros a t Ht. rewrite Z.shiftr_lxor, Z.shiftr_shiftr by lia.
    replace (t + t) with (2 * t) by lia.
    rewrite Z.lxor_assoc, <- (Z.lxor_assoc (Z.shiftr a t)), Z.lxor_nilpotent. by rewrite Z.lxor_0_l. }
  unfold z, y. rewrite Hstep by lia. rewrite Hstep by lia.
  rewrite (Z.shiftr_div_pow2 x) by lia. replace (2 * (2 * s)) with (4 * s) by lia.
  rewrite Z.div_small by lia. apply Z.lxor_0_r.
Qed.

Lemma xorshift_inj x y s : 0 < s -> 0 <= x < 2 ^ (4 * s) -> 0 <= y < 2 ^ (4 * s) ->
  Z.lxor x (Z.shiftr x s) = Z.lxor y (Z.shiftr y s) -> x = y.
Proof.
  intros Hs Hx Hy E. rewrite <- (xorshift_inverse x s Hs Hx), <- (xorshift_inverse y s Hs Hy).
  cbv zeta. by rewrite E.
Qed.

Lemma mul64_inj c c' x y : (c * c') mod 2 ^ 64 = 1 -> u64 x -> u64 y -> mul64 x c = mul64 y c -> x = y.
Proof.
  intros Hc Hx Hy E. assert (forall a, u64 a -> mul64 (mul64 a c) c' = a) as Hinv.
  { intros a Ha. unfold mul64, wrap64. rewrite Zmult_mod_idemp_l, <- Z.mul_assoc, <- Zmult_mod_idemp_r, Hc, Z.mul_1_r.
    apply Z.mod_small. unfold u64, U64_MAX in Ha. lia. }
  by rewrite <- (Hinv x Hx), <- (Hinv y Hy), E.
Qed.

Lemma xor_u64 a b : u64 a -> u64 b -> u64 (Z.lxor a b).
Proof.
  unfold u64, U64_MAX. intros Ha Hb. split; [apply Z.lxor_nonneg; split; lia|].
  destruct (Z.eq_dec (Z.lxor a b) 0) as [->|]; [lia|].
  assert (forall c, 0 <= c < 2 ^ 64 -> Z.log2 c < 64) as Hlog.
  { intros c Hc. destruct (Z.eq_dec c 0) as [->|]; [done|]. apply Z.log2_lt_pow2; lia. }
  assert (Z.lxor a b < 2 ^ 64); [|lia]. pose proof (proj2 (Z.lxor_nonneg a b) ltac:(split; lia)).
  apply Z.log2_lt_pow2; [lia|]. apply (Z.le_lt_trans _ _ _ (Z.log2_lxor a b ltac:(lia) ltac:(lia))).
  apply Z.max_lub_lt; apply Hlog; lia.
Qed.

Lemma shiftr_u64 a s : u64 a -> 0 <= s -> u64 (Z.shiftr a s).
Proof.
  unfold u64. intros Ha Hs. rewrite Z.shiftr_div_pow2 by done.
  split; [apply Z.div_pos; lia|]. apply (Z.le_trans _ a); [|lia]. apply Z.div_le_upper_bound; nia.
Qed.

Ltac word_range :=
  repeat first [assumption | apply xor_u64 | apply shiftr_u64 | apply wrap64_u64 | lia].

Lemma splitmix64_inj x y : u64 x -> u64 y -> splitmix64 x = splitmix64 y -> x = y.
Proof.
  intros Hx Hy. unfold splitmix64.
  assert (forall s, 16 <= s -> forall a, u64 a -> 0 <= a < 2 ^ (4 * s)) as Hlt.
  { intros s Hs a. unfold u64, U64_MAX. intros Ha. split; [lia|].
    apply (Z.lt_le_trans _ (2 ^ 64)); [lia|]. apply Z.pow_le_mono_r; lia. }
  intros E. apply xorshift_inj in E; [|lia|apply Hlt; [lia|word_range]..].
  apply (mul64_inj _ 3573116690164977347) in E; [|reflexivity|word_range..].
  apply xorshift_inj in E; [|lia|apply Hlt; [lia|word_range]..].
  apply (mul64_inj _ 10871156337175269513) in E; [|reflexivity|word_range..].
  apply xorshift_inj in E; [|lia|apply Hlt; [lia|word_range]..].
  unfold add64, wrap64, u64, U64_MAX in *.
  pose proof (Z.mod_small x (2 ^ 64) ltac:(lia)). pose proof (Z.mod_small y (2 ^ 64) ltac:(lia)).
  assert ((x + 11400714819323198485 - 11400714819323198485) mod 2 ^ 64 =
          (y + 11400714819323198485 - 11400714819323198485) mod 2 ^ 64) as E'.
  { rewrite (Zminus_mod (x + _)), (Zminus_mod (y + _)), E. done. }
  rewrite !Z.add_simpl_r in E'. congruence.
Qed.

(** ** Uniforms are exact *)

Lemma iter_xO p n : Z.pos (Pos.iter xO p n) = Z.pos p * 2 ^ Z.pos n.
Proof.
  revert p. induction n as [|n IH] using Pos.peano_ind; intros p; [simpl; lia|].
  rewrite Pos.iter_succ, Pos2Z.inj_xO, IH, Pos2Z.inj_succ, Z.pow_succ_r by lia. lia.
Qed.

Lemma iter_xO_digits p n : digits2_pos (Pos.iter xO p n) = (digits2_pos p + n)%positive.
Proof.
  induction n as [|n IH] using Pos.peano_ind; [simpl; lia|].
  rewrite Pos.iter_succ. simpl. rewrite IH. lia.
Qed.

Lemma iter_shr_exact n m :
  SpecFloat.iter_pos shr_1 n (Build_shr_record (Z.pos (Pos.iter xO m n)) false false) =
  Build_shr_record (Z.pos m) false false.
Proof.
  revert m. induction n as [n IH|n IH|]; intros m; simpl SpecFloat.iter_pos; [| |done].
  - change (shr_1 (Build_shr_record (Z.pos (Pos.iter xO m n~1)) false false)) with
      (Build_shr_record (Z.pos (Pos.iter xO (Pos.iter xO m n) n)) false false). by rewrite !IH.
  - change (Pos.iter xO m n~0) with (Pos.iter xO (Pos.iter xO m n) n). by rewrite !IH.
Qed.

(** A mantissa of 53 bits in the normal range is not rounded. *)
Lemma round_aux_exact s m e :
  digits2_pos m = 53%positive -> -1074 <= e <= 971 ->
  binary_round_aux 53 1024 s (Z.pos m) e loc_Exact = S754_finite s m e.
Proof.
  intros Hd He. unfold binary_round_aux, shr_fexp. simpl Zdigits2. rewrite Hd.
  assert (fexp 53 1024 (53 + e) - e = 0) as E by (unfold fexp, emin; lia).
  change (Z.pos 53) with 53. rewrite E. simpl. rewrite Hd. change (Z.pos 53) with 53. rewrite E. simpl.
  by rewrite (proj2 (Z.leb_le _ _)) by lia.
Qed.

(** An integer of at most 53 bits is a double, with a full mantissa. *)
Lemma f64_of_Z_exact z : 0 < z < 2 ^ 53 ->
  exists m e, f64_of_Z z = S754_finite false m e /\ digits2_pos m = 53%positive /\
    -52 <= e <= 0 /\ Z.pos m = z * 2 ^ (- e).
Proof.
  intros Hz. destruct z as [|p|]; [lia| |lia].
  assert (Z.pos (digits2_pos p) <= 53) as Hd.
  { destruct (Z.le_gt_cases (Z.pos (digits2_pos p)) 53) as [|Hgt]; [done|exfalso].
    assert (forall q, 2 ^ (Z.pos (digits2_pos q) - 1) <= Z.pos q) as Hlow.
    { induction q as [q IH|q IH|]; simpl digits2_pos; [| |done];
        (replace (Z.pos (Pos.succ (digits2_pos q)) - 1) with (Z.succ (Z.pos (digits2_pos q) - 1)) by lia);
        rewrite Z.pow_succ_r by lia; lia. }
    specialize (Hlow p). assert (2 ^ 53 <= 2 ^ (Z.pos (digits2_pos p) - 1)) by (apply Z.pow_le_mono_r; lia). lia. }
  unfold f64_of_Z, f64_of, binary_normalize, binary_round, shl_align.
  assert (fexp 53 1024 (Z.pos (digits2_pos p) + 0) = Z.pos (digits2_pos p) - 53) as -> by (unfold fexp, emin; lia).
  rewrite Z.sub_0_r. destruct (Z.pos (digits2_pos p) - 53) as [|d|d] eqn:E; [| lia|].
  - exists p, 0. rewrite round_aux_exact by lia. split_and!; [done|lia|lia|lia|]. simpl. lia.
  - exists (Pos.iter xO p d), (Z.neg d). rewrite round_aux_exact by (rewrite ?iter_xO_digits; lia).
    split_and!; [done|rewrite iter_xO_digits; lia|lia|lia|]. apply iter_xO.
Qed.

(** [fmul] by [2^-53] is exact on such a number. *)
Lemma fmul_unit m e :
  digits2_pos m = 53%positive -> -52 <= e <= 0 ->
  fmul (S754_finite false m e) (fdiv fone (f64_of_Z 9007199254740992)) = S754_finite false m (e - 53).
Proof.
  intros Hd He.
  assert (fdiv fone (f64_of_Z 9007199254740992) = S754_finite false 4503599627370496 (-105)) as -> by (vm_compute; done).
  unfold fmul, SFmul. simpl xorb.
  assert (m * 4503599627370496 = Pos.iter xO m 52)%positive as -> by
    (apply Pos2Z.inj; rewrite iter_xO, Pos2Z.inj_mul; done).
  unfold binary_round_aux, shr_fexp. cbn [Zdigits2]. rewrite iter_xO_digits, Hd.
  change (Z.pos (53 + 52)) with 105. assert (fexp 53 1024 (105 + (e + -105)) - (e + -105) = 52) as E
    by (unfold fexp, emin; lia).
  rewrite E.
  assert (shr (shr_record_of_loc (Z.pos (Pos.iter xO m 52)) loc_Exact) (e + -105) 52 =
    (Build_shr_record (Z.pos m) false false, e - 53)) as ->.
  { unfold shr, shr_record_of_loc. rewrite (iter_shr_exact 52). f_equal. lia. }
  cbn [shr_m loc_of_shr_record round_nearest_even Zdigits2]. rewrite Hd. change (Z.pos 53) with 53.
  assert (fexp 53 1024 (53 + (e - 53)) - (e - 53) = 0) as -> by (unfold fexp, emin; lia).
  simpl. by rewrite (proj2 (Z.leb_le _ _)) by lia.
Qed.

Lemma unit_double k : 0 <= k < 2 ^ 53 ->
  let u := fmul (f64_of_Z k) (fdiv fone (f64_of_Z 9007199254740992)) in
  exact_compare (exact u) (k, -53) = Eq /\ require_uniform u = Ok tt.
Proof.
  intros Hk. destruct (Z.eq_dec k 0) as [->|Hne]; [by vm_compute|].
  destruct (f64_of_Z_exact k ltac:(lia)) as (m & e & -> & Hd & He & Hm).
  rewrite fmul_unit by done. intros u. unfold u. split.
  - unfold exact_compare. simpl fst. simpl snd. rewrite Z.min_l by lia. rewrite Z.sub_diag, Hm.
    replace (-53 - (e - 53)) with (- e) by lia. apply Z.compare_eq_iff. lia.
  - unfold require_uniform. simpl f64_isfinite. simpl negb.
    rewrite !fltb_finite by done. assert (exact fone = (2 ^ 52, -52)) as -> by (vm_compute; done).
    change (exact fzero) with (0, 0). unfold exact_compare. simpl fst. simpl snd.
    rewrite (Z.min_l (e - 53) 0), (Z.min_l (e - 53) (-52)), Z.sub_diag by lia.
    rewrite bool_decide_eq_false_2 by (simpl Z.mul; rewrite Z.compare_lt_iff; lia).
    rewrite bool_decide_eq_true_2; [done|]. apply Z.compare_lt_iff.
    rewrite <- Z.pow_add_r, Hm by lia. replace (52 + (-52 - (e - 53))) with (53 + (- e)) by lia.
    rewrite Z.pow_add_r by lia. pose proof (Z.pow_pos_nonneg 2 (- e) ltac:(lia) ltac:(lia)). nia.
Qed.

Lemma lxor_inj_l a b c : Z.lxor a b = Z.lxor a c -> b = c.
Proof.
  intros E. assert (forall x, Z.lxor a (Z.lxor a x) = x) as H
    by (intros; by rewrite <- Z.lxor_assoc, Z.lxor_nilpotent, Z.lxor_0_l).
  by rewrite <- (H b), <- (H c), E.
Qed.

Lemma lxor_inj_r a b c : Z.lxor b a = Z.lxor c a -> b = c.
Proof. rewrite !(Z.lxor_comm _ a). apply lxor_inj_l. Qed.

Lemma u32_u64 z : u32 z -> u64 z.
Proof. unfold u32, u64, U32_MAX, U64_MAX. lia. Qed.

(** A counter uniform is an exact multiple of [2^-53] in the unit interval, so that it is
    never refused by the samplers; and draws do not repeat along a counter: two positions,
    two streams or two indices, all else equal, never get the same 64 random bits. *)
Theorem counter_uniform_streams seed position stream index :
  u64 seed -> u32 position -> u32 stream -> u32 index ->
  let bits p s i := splitmix64 (counter seed p s i) in
  let u := counter_uniform seed position stream index in
  (exists k, 0 <= k < 2 ^ 53 /\ k = bits position stream index / 2 ^ 11 /\
     exact_compare (exact u) (k, -53) = Eq) /\
  require_uniform u = Ok tt /\
  (forall p, u32 p -> bits p stream index = bits position stream index -> p = position) /\
  (forall s, u32 s -> bits position s index = bits position stream index -> s = stream) /\
  (forall i, u32 i -> bits position stream i = bits position stream index -> i = index).
Proof.
  intros Hseed Hp%u32_u64 Hs%u32_u64 Hi%u32_u64 bits u.
  assert (forall p s i, u64 (counter seed p s i)) as Hc by (intros; unfold counter; word_range).
  assert (u64 (bits position stream index)) as Hb.
  { unfold bits, splitmix64. word_range. }
  assert (0 <= Z.shiftr (bits position stream index) 11 < 2 ^ 53) as Hk.
  { rewrite Z.shiftr_div_pow2 by lia. unfold u64, U64_MAX in Hb.
    split; [apply Z.div_pos; lia|]. apply Z.div_lt_upper_bound; lia. }
  destruct (unit_double _ Hk) as [He Hr]. split_and!.
  - exists (Z.shiftr (bits position stream index) 11).
    split_and!; [lia|lia|by rewrite Z.shiftr_div_pow2 by lia|exact He].
  - exact Hr.
  - intros p Hp'%u32_u64 E. apply splitmix64_inj in E; [|apply Hc..]. unfold counter in E.
    apply lxor_inj_r, lxor_inj_r, lxor_inj_l in E.
    by apply (mul64_inj _ 17722620821612781467) in E.
  - intros s Hs'%u32_u64 E. apply splitmix64_inj in E; [|apply Hc..]. unfold counter in E.
    apply lxor_inj_r, lxor_inj_l in E. by apply (mul64_inj _ 1720225421544090215) in E.
  - intros i Hi'%u32_u64 E. apply splitmix64_inj in E; [|apply Hc..]. unfold counter in E.
    apply lxor_inj_l in E. by apply (mul64_inj _ 614540362697595703) in E.
Qed.

Lemma counter_uniform_streams_witness :
  u64 0x0123456789abcdef /\ u32 7 /\ u32 3 /\ u32 0 /\
  require_uniform (counter_uniform 0x0123456789abcdef 7 3 0) = Ok tt.
Proof.
  assert (u64 0x0123456789abcdef) as H1 by (unfold u64, U64_MAX; lia).
  assert (u32 7) as H2 by (unfold u32, U32_MAX; lia).
  assert (u32 3) as H3 by (unfold u32, U32_MAX; lia).
  assert (u32 0) as H4 by (unfold u32, U32_MAX; lia).
  repeat (split; [assumption|]).
  exact (proj1 (proj2 (counter_uniform_streams _ 7 3 0 H1 H2 H3 H4))).
Defined.

(** ** Signs *)

Definition positive (x : f64) : Prop := fltb fzero x = true.
Definition is_zero (x : f64) : Prop := exists s, x = S754_zero s.
Definition nonneg (x : f64) : Prop := f64_isfinite x = true /\ fltb x fzero = false.

(** The sign of a result that is not zero. *)
Definition signed (s : bool) (x : f64) : Prop :=
  match x with S754_finite s' _ _ | S754_infinity s' => s' = s | _ => True end.

Lemma round_aux_signed s m e l : signed s (binary_round_aux 53 1024 s m e l).
Proof.
  unfold binary_round_aux. destruct (shr_fexp 53 1024 m e l) as [mrs e'].
  destruct (shr_fexp _ _ _ _ _) as [mrs' e'']. destruct (shr_m mrs') as [| |]; simpl; try done.
  by destruct (e'' <=? _).
Qed.

Lemma exact_compare_zero m e : exact_compare (m, e) (0, 0) = (m ?= 0).
Proof.
  unfold exact_compare. cbn [fst snd]. rewrite Z.mul_0_l.
  pose proof (Z.pow_pos_nonneg 2 (e - Z.min e 0) ltac:(lia) ltac:(lia)).
  destruct (Z.compare_spec m 0) as [->|Hm|Hm].
  - by rewrite Z.mul_0_l.
  - apply Z.compare_lt_iff. nia.
  - apply Z.compare_gt_iff. nia.
Qed.

Lemma fltb_zero_neg m e : fltb fzero (S754_finite true m e) = false.
Proof.
  rewrite fltb_finite, exact_compare_opp by done. simpl exact. by rewrite exact_compare_zero.
Qed.

Lemma fltb_neg_zero m e : fltb (S754_finite true m e) fzero = true.
Proof. rewrite fltb_finite by done. simpl exact. by rewrite exact_compare_zero. Qed.

Lemma fltb_zero_pos m e : fltb fzero (S754_finite false m e) = true.
Proof.
  rewrite fltb_finite, exact_compare_opp by done. simpl exact. by rewrite exact_compare_zero.
Qed.

Lemma signed_true_not_positive x : signed true x -> fltb fzero x = false.
Proof. destruct x as [|[]| |[] m e]; intros H; try done. apply fltb_zero_neg. Qed.

Lemma signed_false_not_negative x : signed false x -> fltb x fzero = false.
Proof.
  destruct x as [|[]| |[] m e]; intros H; try done.
  apply not_true_iff_false. intros E. pose proof (fltb_zero_pos m e) as H1.
  rewrite fltb_finite in E, H1 by done. apply bool_decide_eq_true in E, H1.
  rewrite exact_compare_opp, H1 in E. done.
Qed.

(** What is not negative is a zero or a positive number. *)
Lemma nonneg_cases x : nonneg x -> is_zero x \/ exists m e, x = S754_finite false m e.
Proof.
  intros [Hf Hn]. destruct x as [s| | |[] m e]; try done; [left; by exists s| |right; eauto].
  by rewrite fltb_neg_zero in Hn.
Qed.

Lemma fadd_zero t c z : is_zero z -> fltb t (fadd c z) = fltb t c.
Proof. intros [s ->]. unfold fltb. by destruct c as [[]|[]| |[] m e], s, t as [|[]| |]. Qed.

Lemma shl_align_exact m e e' : e' <= e -> Z.pos (shl_align m e e').1 = Z.pos m * 2 ^ (e - e').
Proof.
  intros He. unfold shl_align. destruct (e' - e) as [|d|d] eqn:E; simpl; [|lia|].
  - replace (e - e') with 0 by lia. lia.
  - rewrite iter_xO. do 2 f_equal. lia.
Qed.

(** A positive difference means that the first number is the greater. *)
Lemma fsub_positive p q : nonneg p -> nonneg q -> positive (fsub p q) -> fltb q p = true.
Proof.
  intros Hp Hq. destruct (nonneg_cases p Hp) as [[s ->]|(m & e & ->)], (nonneg_cases q Hq) as [[s' ->]|(m' & e' & ->)].
  - by destruct s, s'.
  - simpl. intros H. unfold positive in H. by rewrite fltb_zero_neg in H.
  - intros _. apply fltb_zero_pos.
  - unfold positive, fsub, SFsub. simpl cond_Zopp. rewrite !shl_align_exact by lia. intros H.
    rewrite fltb_finite by done. simpl exact. unfold exact_compare. simpl fst. simpl snd.
    rewrite (Z.min_comm e' e). set (a := Z.pos m * _). set (b := Z.pos m' * _).
    change (Z.pos m * 2 ^ (e - Z.min e e')) with a in H. change (Z.pos m' * 2 ^ (e' - Z.min e e')) with b in H.
    apply bool_decide_eq_true, Z.compare_lt_iff. destruct (Z.le_gt_cases (a - b) 0) as [Hle|]; [|lia].
    exfalso. change (a + - b) with (a - b) in H. destruct (a - b) as [|d|d] eqn:E; simpl in H; [done|lia|].
    rewrite signed_true_not_positive in H; [done|]. unfold binary_round.
    destruct (shl_align _ _ _). apply round_aux_signed.
Qed.

Lemma nonneg_lt_positive p q : nonneg p -> nonneg q -> fltb q p = true -> positive p.
Proof.
  intros Hp Hq. destruct (nonneg_cases p Hp) as [[s ->]|(m & e & ->)]; [|intros; apply fltb_zero_pos].
  destruct Hq as [_ Hq]. unfold fltb in *. destruct q; simpl in *; congruence.
Qed.

(** ** Drawing *)

Definition weighs (x : f64) : Prop := positive x \/ is_zero x.

Lemma draw_positive t l c k :
  Forall (fun e => weighs e.2) l -> fltb t c = false -> draw t c l = Some k ->
  exists v, (k, v) ∈ l /\ positive v.
Proof.
  intros Hl. revert c. induction Hl as [|[k' v] l Hv _ IH]; intros c Hc; simpl; [done|].
  destruct (fltb t (fadd c v)) eqn:E.
  - intros [= <-]. exists v. split; [left|]. destruct Hv as [|Hv]; [done|].
    simpl in Hv. rewrite fadd_zero in E by done. congruence.
  - intros H. destruct (IH _ E H) as (v' & Hin & Hp). exists v'. split; [by right|done].
Qed.

Lemma zero_total l c : Forall (fun e : Z * f64 => is_zero e.2) l -> is_zero c ->
  is_zero (foldl (fun total e => fadd total e.2) c l).
Proof.
  intros Hl. revert c. induction Hl as [|e l [s Hs] _ IH]; intros c [s' ->]; simpl; [by exists s'|].
  apply IH. rewrite Hs. destruct s, s'; simpl; by eexists.
Qed.

(** ** Validation *)

(** A distribution that passes validation. *)
Record valid_distribution (d : SamplingDistribution) : Prop := mkValid {
  vd_nonempty : d <> [];
  vd_nonneg : Forall (fun e => nonneg (tp_probability e)) d;
  vd_distinct : NoDup (map token d) }.

Lemma validate_distribution_ok `{StdSort, !StdSortSpec _} d :
  validate_distribution d = Ok tt -> valid_distribution d.
Proof.
  unfold validate_distribution. case_bool_decide as E; [done|].
  destruct (existsb _ d) eqn:Ex; [done|]. destruct (_ || fltb _ _) eqn:E2; [done|]. intros _.
  apply orb_false_iff in E2 as [[Hadj _]%orb_false_iff _]. split; [done| |].
  - apply Forall_forall. intros e Hin. apply not_true_iff_false in Ex. unfold nonneg.
    destruct (f64_isfinite (tp_probability e)) eqn:Ef, (fltb (tp_probability e) fzero) eqn:El; [|done|..];
      destruct Ex; apply existsb_exists; exists e; (split; [by apply list_elem_of_In|]); by rewrite ?Ef, ?El.
  - apply has_adjacent_NoDup in Hadj; [|apply std_sort_sorted, _]. by rewrite std_sort_perm in Hadj.
Qed.

Lemma nonneg_fzero : nonneg fzero.
Proof. by split. Qed.

Lemma probability_nonneg d t : Forall (fun e => nonneg (tp_probability e)) d -> nonneg (probability d t).
Proof.
  induction 1 as [|e d He _ IH]; simpl; [apply nonneg_fzero|]. by destruct (token e =? t).
Qed.

Lemma probability_absent d t : t ∉ map token d -> probability d t = fzero.
Proof.
  induction d as [|e d IH]; simpl; [done|]. intros Hn. rewrite (proj2 (Z.eqb_neq _ _)) by set_solver.
  apply IH. set_solver.
Qed.

Lemma probability_present d t : fltb fzero (probability d t) = true -> t ∈ map token d.
Proof.
  intros Hp. destruct (decide (t ∈ map token d)); [done|]. by rewrite probability_absent in Hp.
Qed.

(** ** The residual *)

(** A loop that updates one key per entry, each key once. *)
Lemma fold_update (f : f64 -> option f64 -> f64) d (m : gmap Z f64) t :
  NoDup (map token d) ->
  foldl (fun m e => <[token e := f (tp_probability e) (m !! token e)]> m) m d !! t =
  if bool_decide (t ∈ map token d) then Some (f (probability d t) (m !! t)) else m !! t.
Proof.
  revert m. induction d as [|e d IH]; intros m Hnd; cbn [foldl map probability].
  - by rewrite bool_decide_eq_false_2 by set_solver.
  - apply NoDup_cons in Hnd as [Hn Hnd]. rewrite IH by done.
    destruct (Z.eqb_spec (token e) t) as [<-|Hne].
    + rewrite (bool_decide_eq_false_2 _ Hn), bool_decide_eq_true_2 by set_solver. apply lookup_insert_eq.
    + rewrite lookup_insert_ne by done.
      assert (bool_decide (t ∈ map token d) = bool_decide (t ∈ token e :: map token d)) as ->; [|done].
      apply bool_decide_ext. set_solver.
Qed.

Lemma residual_lookup target draft t :
  NoDup (map token target) -> NoDup (map token draft) ->
  residual target draft !! t =
  if bool_decide (t ∈ map token draft)
  then Some (max_zero (fsub (probability target t) (probability draft t)))
  else if bool_decide (t ∈ map token target) then Some (probability target t) else None.
Proof.
  intros Ht Hd. unfold residual.
  rewrite (fold_update (fun q old => max_zero (fsub (default fzero old) q))) by done.
  rewrite (fold_update (fun p _ => p)) by done. rewrite lookup_empty.
  destruct (bool_decide_reflect (t ∈ map token draft)); [|done].
  destruct (bool_decide_reflect (t ∈ map token target)); [done|]. by rewrite (probability_absent target).
Qed.

Lemma max_zero_weighs x : weighs (max_zero x).
Proof. unfold max_zero. destruct (fltb fzero x) eqn:E; [by left|right; by exists false]. Qed.

Lemma residual_weighs target draft :
  valid_distribution target -> valid_distribution draft ->
  Forall (fun e => weighs e.2) (ordered Z.ltb (residual target draft)).
Proof.
  intros [_ Hn Ht] [_ _ Hd]. apply Forall_forall. intros [t v] Hin. simpl.
  apply elem_of_ordered in Hin. rewrite residual_lookup in Hin by done.
  destruct (bool_decide _); [injection Hin as <-; apply max_zero_weighs|].
  destruct (bool_decide _); [|done]. injection Hin as <-.
  destruct (nonneg_cases _ (probability_nonneg target t Hn)) as [|(m & e & ->)]; [by right|].
  left. apply fltb_zero_pos.
Qed.

(** Positive residual mass means that the draft gave a token too little. *)
Lemma residual_positive target draft t v :
  valid_distribution target -> valid_distribution draft ->
  (t, v) ∈ ordered Z.ltb (residual target draft) -> positive v ->
  fltb (probability draft t) (probability target t) = true /\ positive (probability target t).
Proof.
  intros [_ Hn Ht] [_ Hn' Hd] Hin Hv. apply elem_of_ordered in Hin.
  rewrite residual_lookup in Hin by done.
  pose proof (probability_nonneg target t Hn) as Hp. pose proof (probability_nonneg draft t Hn') as Hq.
  assert (fltb (probability draft t) (probability target t) = true) as Hlt.
  { case_bool_decide as E.
    - injection Hin as <-. apply fsub_positive; [done..|]. unfold max_zero in Hv.
      by destruct (fltb fzero (fsub _ _)) eqn:E2.
    - rewrite (probability_absent draft) by done. case_bool_decide; [|done]. by injection Hin as <-. }
  split; [done|]. by apply nonneg_lt_positive with (probability draft t).
Qed.

Lemma last_positive_spec l :
  match last_positive l with
  | Some t => exists v, (t, v) ∈ l /\ positive v
  | None => Forall (fun e => ~ positive e.2) l
  end.
Proof.
  unfold last_positive. rewrite fmap_last. destruct (last (filter _ l)) as [[t v]|] eqn:E; simpl.
  - apply last_Some_elem_of in E. apply list_elem_of_filter in E as [Hv Hin]. by exists v.
  - apply last_None in E. apply Forall_forall. intros e Hin Hp.
    assert (e ∈ filter (fun e => fltb fzero e.2 = true) l) as Hx by (by apply list_elem_of_filter).
    rewrite E in Hx. by apply not_elem_of_nil in Hx.
Qed.

Lemma threshold_nonneg v total :
  require_uniform v = Ok tt -> f64_isfinite total = true -> fltb fzero total = true ->
  fltb (fmul v total) fzero = false.
Proof.
  unfold require_uniform. destruct (negb (f64_isfinite v)) eqn:Hf; [done|].
  destruct (fltb v fzero) eqn:Hl; [done|]. intros _ Htf Ht. apply negb_false_iff in Hf.
  destruct (nonneg_cases v (conj Hf Hl)) as [[s ->]|(m & e & ->)].
  - by destruct s, total as [[]|[]| |[]].
  - apply signed_false_not_negative. destruct total as [[]|[]| |[] m' e']; try done.
    + by rewrite fltb_zero_neg in Ht.
    + apply round_aux_signed.
Qed.


(** ** Examples *)

Definition half : f64 := f64_of 1 (-1).

(** The draft proposes token 4, to which the target gives half of what the draft gives;
    it is refused for a large uniform and corrected to token 9. *)
Example demo_rejection :
  rejection_sample (H := stable_std_sort) 4 [mkToken 4 (f64_of 1 (-2)); mkToken 9 (f64_of 3 (-2))]
    [mkToken 9 half; mkToken 4 half] (f64_of 3 (-2)) half =
  Ok (mkRejection false 9 (f64_of 1 (-2)) half).
Proof. vm_compute. reflexivity. Qed.

(** A draw from a distribution falls back on its last token when the probabilities add
    up to less than the uniform, within the tolerance of the validation; unlike the
    correction above, it does not look at the probability of that token. *)
Example draw_of_probability_zero :
  let d := [mkToken 1 (f64_of (2 ^ 34 - 1) (-34)); mkToken 2 fzero] in
  sample_distribution (H := stable_std_sort) d (f64_of (2 ^ 40 - 1) (-40)) = Ok 2 /\
  probability d 2 = fzero.
Proof. vm_compute. split; reflexivity. Qed.

