(* ===== verification/AdaptivePlacement.v ===== *)
(** Model of [adaptive_placement.cpp]: the controller that promotes experts from host to
    device memory while the processor executes them. Every miss adds to the debt of its
    expert; a debt that covers the cost of the upload puts the expert into a queue, and
    the queue is drained into a bounded number of promotions in flight. The cache below
    is an interface. *)

From S2P Require Import Prelude.
From S2P Require Import Storage.
From S2P Require Import Doubles.
From S2P Require Import Binary64.

(** ** Conversions of doubles *)

Definition ftrunc (x : f64) : Z :=
  let '(m, e) := exact x in if 0 <=? e then m * 2 ^ e else Z.quot m (2 ^ (- e)).

(** [static_cast<std::uint64_t>]; a value outside the range is undefined. *)
Definition static_cast_u64 (x : f64) : outcome Z :=
  if f64_isfinite x && (0 <=? ftrunc x) && (ftrunc x <=? U64_MAX) then Ok (ftrunc x)
  else Throw (undefined_behavior "double outside the range of uint64").

Definition std_ceil (x : f64) : f64 := if f64_isfinite x then f64_of_Z (fceil x) else x.

(** [std::clamp(x, 0.0, 1.0)]. *)
Definition clamp_unit (x : f64) : f64 := if fltb x fzero then fzero else if fltb fone x then fone else x.

(** ** What the controller asks of the cache, its handles and the clock

    Every call may let the world move on: other threads run meanwhile. Times are
    nanoseconds, timeouts are milliseconds. *)
Class PlacementCache (W Handle : Type) := {
  admission_would_improve : ExpertKey -> PayloadRecord -> W -> bool * W;
  cache_acquire : ExpertKey -> PayloadRecord -> W -> Handle * W;
  (** Whether the result is there after waiting so long. *)
  wait_for : Handle -> Z -> W -> bool * W;
  (** Takes the result of a handle that is ready: whether it is a lease, which is dropped. *)
  take_lease : Handle -> W -> bool * W;
  cancel_handle : Handle -> W -> unit * W;
  steady_now : W -> Z * W }.

(** ** State *)

Record AdaptivePlacementConfig := mkPlacementConfig {
  enable_prefetch : bool;
  conservative_h2d_bytes_per_second : f64;
  admission_margin : f64;
  initial_cpu_ns : f64;
  cpu_cost_ewma_alpha : f64;
  routing_score_reuse_weight : f64;
  maximum_inflight_promotions : Z;
  maximum_candidates : Z;
  minimum_recent_observations : Z;
  candidate_ttl_epochs : Z }.

Definition default_placement_config : AdaptivePlacementConfig :=
  mkPlacementConfig true (f64_of_Z (8 * 1024 * 1024 * 1024)) (f64_of 5 (-2)) (f64_of_Z 100000)
    (f64_of 1 (-3)) fone 1 4096 2 192.

Record AdaptivePlacementTelemetry := mkPlacementTelemetry {
  considered : Z; admission_rejected : Z; scheduled : Z; completed : Z; failed : Z;
  scheduled_bytes : Z; useful_prefetches : Z; useful_prefetch_bytes : Z;
  wasted_prefetches : Z; wasted_prefetch_bytes : Z; stale_cancellations : Z;
  candidate_evictions : Z; credit_rejections : Z }.

#[export] Instance eta_PlacementTelemetry : Eta AdaptivePlacementTelemetry := fun t =>
  mkPlacementTelemetry (considered t) (admission_rejected t) (scheduled t) (completed t) (failed t)
    (scheduled_bytes t) (useful_prefetches t) (useful_prefetch_bytes t) (wasted_prefetches t)
    (wasted_prefetch_bytes t) (stale_cancellations t) (candidate_evictions t) (credit_rejections t).

Record Candidate := mkCandidate {
  c_record : PayloadRecord;
  debt_ns : Z;
  last_seen_epoch : Z;
  predicted_epoch : Z;
  queue_generation : Z;
  observations : Z;
  routing_score_ewma : f64;
  queued : bool;
  c_pending : bool;
  demanded : bool;
  ready_prediction : bool }.

#[export] Instance eta_Candidate : Eta Candidate := fun c =>
  mkCandidate (c_record c) (debt_ns c) (last_seen_epoch c) (predicted_epoch c) (queue_generation c)
    (observations c) (routing_score_ewma c) (queued c) (c_pending c) (demanded c) (ready_prediction c).

(** [Candidate{}]. *)
Definition new_candidate : Candidate :=
  mkCandidate default_record 0 0 0 0 0 fzero false false false false.

Record Pending (Handle : Type) := mkPending {
  p_key : ExpertKey;
  handle : Handle;
  scheduled_epoch : Z;
  p_bytes : Z;
  p_cancelled : bool }.
Arguments mkPending {Handle} _ _ _ _ _.
Arguments p_key {Handle} _.
Arguments handle {Handle} _.
Arguments scheduled_epoch {Handle} _.
Arguments p_bytes {Handle} _.
Arguments p_cancelled {Handle} _.

Record Eligible := mkEligible { e_priority : f64; e_key : ExpertKey; e_generation : Z }.

(** [operator<] of [Eligible]: the greatest comes first. *)
Definition eligible_less (a b : Eligible) : bool :=
  if negb (feqb (e_priority a) (e_priority b)) then fltb (e_priority a) (e_priority b)
  else key_ltb (e_key b) (e_key a).

(** [top] and [pop] of the priority queue. Entries that tie have the same key; which of
    them comes first makes no difference, since all that are not current are skipped. *)
Fixpoint pop_top (l : list Eligible) : option (Eligible * list Eligible) :=
  match l with
  | [] => None
  | e :: l =>
    match pop_top l with
    | None => Some (e, [])
    | Some (top, rest) => if eligible_less e top then Some (top, e :: rest) else Some (e, top :: rest)
    end
  end.

Record Placement (Handle : Type) := mkPlacement {
  config : AdaptivePlacementConfig;
  cpu_ns_per_selection : f64;
  epoch : Z;
  candidates : gmap ExpertKey Candidate;
  eligible : list Eligible;
  pending : list (Pending Handle);
  metrics : AdaptivePlacementTelemetry;
  frozen : bool }.
Arguments mkPlacement {Handle} _ _ _ _ _ _ _ _.
Arguments config {Handle} _.
Arguments cpu_ns_per_selection {Handle} _.
Arguments epoch {Handle} _.
Arguments candidates {Handle} _.
Arguments eligible {Handle} _.
Arguments pending {Handle} _.
Arguments metrics {Handle} _.
Arguments frozen {Handle} _.

#[export] Instance eta_Placement {Handle} : Eta (Placement Handle) := fun p =>
  mkPlacement (config p) (cpu_ns_per_selection p) (epoch p) (candidates p) (eligible p) (pending p)
    (metrics p) (frozen p).

Definition valid_placement_config (c : AdaptivePlacementConfig) : bool :=
  positive_finite (conservative_h2d_bytes_per_second c) &&
  f64_isfinite (admission_margin c) && negb (fltb (admission_margin c) fone) &&
  positive_finite (initial_cpu_ns c) &&
  positive_finite (cpu_cost_ewma_alpha c) && negb (fltb fone (cpu_cost_ewma_alpha c)) &&
  f64_isfinite (routing_score_reuse_weight c) && negb (fltb (routing_score_reuse_weight c) fzero) &&
  negb (maximum_inflight_promotions c =? 0) && negb (maximum_candidates c =? 0) &&
  negb (minimum_recent_observations c =? 0) && negb (candidate_ttl_epochs c =? 0).

Definition zero_metrics : AdaptivePlacementTelemetry := mkPlacementTelemetry 0 0 0 0 0 0 0 0 0 0 0 0 0.

Definition placement_create {Handle} (c : AdaptivePlacementConfig) : outcome (Placement Handle) :=
  if valid_placement_config c
  then Ok (mkPlacement c (initial_cpu_ns c) 0 ∅ [] [] zero_metrics false)
  else Throw (invalid_argument "invalid adaptive placement configuration").

(** ** Operations *)

Section Operations.
Context {W Handle : Type} `{PlacementCache W Handle}.

Definition M (A : Type) : Type := ST (Placement Handle * W) A.

Definition current : M (Placement Handle) := fun s => Ok (s.1, s).
Definition alter_state (f : Placement Handle -> Placement Handle) : M unit := modify (fun s => (f s.1, s.2)).
Definition call {A} (f : W -> A * W) : M A := fun s => let '(a, w) := f s.2 in Ok (a, (s.1, w)).
Definition lift {A} (o : outcome A) : M A := fun s => let! a := o in Ok (a, s).

(** [f(metrics)], and [f] of the candidate of a key. *)
Definition tally (f : AdaptivePlacementTelemetry -> AdaptivePlacementTelemetry) (p : Placement Handle)
  : Placement Handle := p <| metrics %= f |>.
Definition on_candidate (k : ExpertKey) (f : Candidate -> Candidate) (p : Placement Handle)
  : Placement Handle := p <| candidates %= alter f k |>.

Definition count_useful (bytes : Z) (m : AdaptivePlacementTelemetry) : AdaptivePlacementTelemetry :=
  let m := m <| useful_prefetches %= inc64 |> in
  m <| useful_prefetch_bytes %= fun n => add64 n bytes |>.
Definition count_wasted (bytes : Z) (m : AdaptivePlacementTelemetry) : AdaptivePlacementTelemetry :=
  let m := m <| wasted_prefetches %= inc64 |> in
  m <| wasted_prefetch_bytes %= fun n => add64 n bytes |>.

Definition observe (elapsed_ns selections : Z) (p : Placement Handle) : Placement Handle :=
  if (elapsed_ns =? 0) || (selections =? 0) then p
  else
    let observed := fdiv (f64_of_Z elapsed_ns) (f64_of_Z selections) in
    let alpha := cpu_cost_ewma_alpha (config p) in
    p <| cpu_ns_per_selection %= fun ns => fadd (fmul ns (fsub fone alpha)) (fmul observed alpha) |>.

Definition upload_cost (c : AdaptivePlacementConfig) (candidate : Candidate) : outcome Z :=
  let cost := fmul (fdiv (fmul (f64_of_Z (stored_bytes (c_record candidate))) (f64_of_Z (10 ^ 9)))
                         (conservative_h2d_bytes_per_second c)) (admission_margin c) in
  let! n := static_cast_u64 (std_ceil cost) in Ok (Z.max 1 n).

Definition effective_debt (c : AdaptivePlacementConfig) (candidate : Candidate) : f64 :=
  fmul (f64_of_Z (debt_ns candidate))
    (fadd fone (fmul (routing_score_reuse_weight c) (routing_score_ewma candidate))).

Definition attribute_resident_use (k : ExpertKey) (p : Placement Handle) : Placement Handle :=
  match candidates p !! k with
  | Some candidate =>
    if ready_prediction candidate then
      let p := tally (count_useful (stored_bytes (c_record candidate))) p in
      on_candidate k (fun c => let c := c <| ready_prediction := false |> in c <| debt_ns := 0 |>) p
    else p
  | None => p
  end.

(** A prediction that did not help: what is forgotten about its candidate. *)
Definition forget (c : Candidate) : Candidate :=
  let c := c <| ready_prediction := false |> in
  let c := c <| debt_ns := 0 |> in
  c <| observations := 0 |>.

Definition attribute_missing_use (k : ExpertKey) (p : Placement Handle) : Placement Handle :=
  match candidates p !! k with
  | Some candidate =>
    if c_pending candidate then on_candidate k (fun c => c <| demanded := true |>) p
    else if ready_prediction candidate then
      tally (count_wasted (stored_bytes (c_record candidate))) (on_candidate k forget p)
    else p
  | None => p
  end.

(** The result of one promotion; [lease]: whether it succeeded. *)
Definition complete_one (lease : bool) (item : Pending Handle) (p : Placement Handle) : Placement Handle :=
  match candidates p !! p_key item with
  | None => p
  | Some candidate =>
    let p := on_candidate (p_key item) (fun c => c <| c_pending := false |>) p in
    if lease then
      let p := tally (fun m => m <| completed %= inc64 |>) p in
      if demanded candidate then
        let p := tally (count_useful (p_bytes item)) p in
        on_candidate (p_key item) (fun c => let c := c <| demanded := false |> in c <| debt_ns := 0 |>) p
      else
        let now := epoch p in
        on_candidate (p_key item)
          (fun c => let c := c <| ready_prediction := true |> in c <| predicted_epoch := now |>) p
    else if negb (p_cancelled item) then tally (fun m => m <| failed %= inc64 |>) p
    else p
  end.

(** The loop of [complete_ready]; the result is what stays pending. *)
Fixpoint complete_loop (l : list (Pending Handle)) : M (list (Pending Handle)) :=
  match l with
  | [] => ret []
  | item :: l =>
    let* ready := call (wait_for (handle item) 0) in
    if negb ready then
      let* kept := complete_loop l in ret (item :: kept)
    else
      let* lease := call (take_lease (handle item)) in
      alter_state (complete_one lease item) ;* complete_loop l
  end.

Definition complete_ready : M unit :=
  let* p := current in
  let* kept := complete_loop (pending p) in
  alter_state (fun p => p <| pending := kept |>).

Definition stale_pending (p : Placement Handle) (item : Pending Handle) : bool :=
  match candidates p !! p_key item with
  | Some candidate =>
    negb (p_cancelled item) && negb (demanded candidate) &&
    (candidate_ttl_epochs (config p) <? sub64 (epoch p) (scheduled_epoch item))
  | None => false
  end.

Definition count_stale (m : AdaptivePlacementTelemetry) : AdaptivePlacementTelemetry :=
  m <| stale_cancellations %= inc64 |>.

Fixpoint cancel_stale (l : list (Pending Handle)) : M (list (Pending Handle)) :=
  match l with
  | [] => ret []
  | item :: l =>
    let* p := current in
    if stale_pending p item then
      call (cancel_handle (handle item)) ;*
      alter_state (fun p => tally (count_wasted (p_bytes item)) (tally count_stale p)) ;*
      let* l := cancel_stale l in
      ret (mkPending (p_key item) (handle item) (scheduled_epoch item) (p_bytes item) true :: l)
    else
      let* l := cancel_stale l in ret (item :: l)
  end.

Definition expire_candidate (k : ExpertKey) (p : Placement Handle) : Placement Handle :=
  match candidates p !! k with
  | None => p
  | Some candidate =>
    let ttl := candidate_ttl_epochs (config p) in
    let p :=
      if ready_prediction candidate && (ttl <? sub64 (epoch p) (predicted_epoch candidate)) then
        tally (count_wasted (stored_bytes (c_record candidate))) (on_candidate k forget p)
      else p in
    if queued candidate && (ttl <? sub64 (epoch p) (last_seen_epoch candidate)) then
      let p := on_candidate k (fun c => c <| queued := false |>) p in
      let p := on_candidate k (fun c => c <| queue_generation %= inc64 |>) p in
      tally count_stale p
    else p
  end.

Definition candidate_keys (p : Placement Handle) : list ExpertKey := (ordered key_ltb (candidates p)).*1.

Definition expire_stale : M unit :=
  let* p := current in
  let* l := cancel_stale (pending p) in
  alter_state (fun p => p <| pending := l |>) ;*
  alter_state (fun p => foldl (fun p k => expire_candidate k p) p (candidate_keys p)) ;*
  complete_ready.

Definition observe_routes (gpu_resident missing : list ExpertKey) : M unit :=
  complete_ready ;*
  alter_state (fun p => p <| epoch %= inc64 |>) ;*
  alter_state (fun p => foldl (fun p k => attribute_resident_use k p) p gpu_resident) ;*
  alter_state (fun p => foldl (fun p k => attribute_missing_use k p) p missing) ;*
  let* p := current in
  when (negb (bool_decide (pending p = [])) || (Z.land (epoch p) 63 =? 0)) expire_stale.

(** The scan for a candidate to drop: the one seen least recently. *)
Definition capacity_victim (l : list (ExpertKey * Candidate)) : option (ExpertKey * Candidate) :=
  foldl (fun victim kc =>
    if queued kc.2 || c_pending kc.2 || ready_prediction kc.2 then victim
    else
      match victim with
      | None => Some kc
      | Some v => if last_seen_epoch kc.2 <? last_seen_epoch v.2 then Some kc else victim
      end) None l.

Definition ensure_candidate_capacity (k : ExpertKey) (p : Placement Handle) : bool * Placement Handle :=
  match candidates p !! k with
  | Some _ => (true, p)
  | None =>
    if Z.of_nat (size (candidates p)) <? maximum_candidates (config p) then (true, p)
    else
      match capacity_victim (ordered key_ltb (candidates p)) with
      | None => (false, tally (fun m => m <| credit_rejections %= inc64 |>) p)
      | Some (victim, _) =>
        (true, tally (fun m => m <| candidate_evictions %= inc64 |>) (p <| candidates %= delete victim |>))
      end
  end.

Definition in_flight_full (p : Placement Handle) : bool :=
  maximum_inflight_promotions (config p) <=? Z.of_nat (length (pending p)).

Definition queue_if_profitable (k : ExpertKey) : M unit :=
  let* p := current in
  match candidates p !! k with
  | None => throw out_of_range
  | Some candidate =>
    let* cost := lift (upload_cost (config p) candidate) in
    let debt := effective_debt (config p) candidate in
    if negb (enable_prefetch (config p)) || frozen p || queued candidate || c_pending candidate ||
       (cost =? 0) || (observations candidate <? minimum_recent_observations (config p)) ||
       fltb debt (f64_of_Z cost)
    then ret tt
    else
      alter_state (on_candidate k (fun c => c <| queued := true |>)) ;*
      alter_state (on_candidate k (fun c => c <| queue_generation %= inc64 |>)) ;*
      alter_state (fun p => p <| eligible %= fun l =>
        l ++ [mkEligible (fdiv debt (f64_of_Z cost)) k (inc64 (queue_generation candidate))] |>) ;*
      when (in_flight_full p) (alter_state (tally (fun m => m <| credit_rejections %= inc64 |>)))
  end.

(** The bookkeeping of a promotion that was started. *)
Definition schedule (k : ExpertKey) (candidate : Candidate) (h : Handle) (p : Placement Handle)
  : Placement Handle :=
  let n := stored_bytes (c_record candidate) in
  let now := epoch p in
  let p := p <| pending %= fun l => l ++ [mkPending k h now n false] |> in
  let p := on_candidate k (fun c =>
             let c := c <| debt_ns := 0 |> in
             let c := c <| c_pending := true |> in
             c <| demanded := false |>) p in
  tally (fun m => let m := m <| scheduled %= inc64 |> in
                  m <| scheduled_bytes %= fun b => add64 b n |>) p.

(** The loop of [fill_slots]: every round takes an entry off the queue. *)
Fixpoint fill_loop (fuel : nat) : M unit :=
  match fuel with
  | O => throw out_of_fuel
  | S fuel =>
    let* p := current in
    if in_flight_full p then ret tt
    else
      match pop_top (eligible p) with
      | None => ret tt
      | Some (next, rest) =>
        alter_state (fun p => p <| eligible := rest |>) ;*
        match candidates p !! e_key next with
        | None => fill_loop fuel
        | Some candidate =>
          if negb (queued candidate) || negb (queue_generation candidate =? e_generation next)
          then fill_loop fuel
          else
            alter_state (on_candidate (e_key next) (fun c => c <| queued := false |>)) ;*
            if c_pending candidate then fill_loop fuel
            else
              let* improves := call (admission_would_improve (e_key next) (c_record candidate)) in
              if negb improves then
                alter_state (tally (fun m => m <| admission_rejected %= inc64 |>)) ;* fill_loop fuel
              else
                let* h := call (cache_acquire (e_key next) (c_record candidate)) in
                alter_state (schedule (e_key next) candidate h) ;*
                complete_ready ;* fill_loop fuel
        end
      end
  end.

Definition fill_slots : M unit :=
  let* p := current in
  if frozen p then ret tt else fill_loop (S (length (eligible p))).

(** What a use of an expert adds to its candidate. *)
Definition accrue (c : AdaptivePlacementConfig) (now : Z) (record : PayloadRecord) (average_score : f64)
    (addition : Z) (candidate : Candidate) : Candidate :=
  let candidate := candidate <| c_record := record |> in
  let candidate :=
    if negb (last_seen_epoch candidate =? 0) &&
       (candidate_ttl_epochs c <? sub64 now (last_seen_epoch candidate))
    then
      let candidate := candidate <| debt_ns := 0 |> in
      let candidate := candidate <| observations := 0 |> in
      candidate <| routing_score_ewma := fzero |>
    else candidate in
  let candidate := candidate <| last_seen_epoch := now |> in
  let candidate :=
    if negb (observations candidate =? U32_MAX) then candidate <| observations %= fun n => n + 1 |>
    else candidate in
  let candidate := candidate <| routing_score_ewma %= fun e =>
    fadd (fmul e (f64_of 3 (-2))) (fmul average_score (f64_of 1 (-2))) |> in
  candidate <| debt_ns %= fun d => d + Z.min (U64_MAX - d) addition |>.

Definition average_score (routing_score_sum : f64) (selections : Z) : f64 :=
  if f64_isfinite routing_score_sum then clamp_unit (fdiv routing_score_sum (f64_of_Z selections))
  else fzero.

(** [candidates[key]]. *)
Definition emplace_candidate (k : ExpertKey) (p : Placement Handle) : Placement Handle :=
  match candidates p !! k with
  | Some _ => p
  | None => p <| candidates %= insert k new_candidate |>
  end.

Definition consider (k : ExpertKey) (record : PayloadRecord) (selections : Z) (routing_score_sum : f64)
  : M unit :=
  complete_ready ;*
  if selections =? 0 then ret tt
  else
    let* p := current in
    let '(room, p) := ensure_candidate_capacity k p in
    alter_state (fun _ => p) ;*
    if negb room then ret tt
    else
      alter_state (tally (fun m => m <| considered %= inc64 |>)) ;*
      alter_state (emplace_candidate k) ;*
      let* addition := lift (static_cast_u64 (fmul (cpu_ns_per_selection p) (f64_of_Z selections))) in
      alter_state (on_candidate k
        (accrue (config p) (epoch p) record (average_score routing_score_sum selections) addition)) ;*
      queue_if_profitable k ;*
      fill_slots.

Definition enqueue_profitable_candidates : M unit :=
  let* p := current in
  if negb (enable_prefetch (config p)) || frozen p then ret tt
  else for_each (candidate_keys p) queue_if_profitable.

(** The loop of [drain], up to a deadline. *)
Fixpoint drain_loop (fuel : nat) (deadline : Z) : M Status :=
  match fuel with
  | O => throw out_of_fuel
  | S fuel =>
    complete_ready ;*
    fill_slots ;*
    let* p := current in
    match pending p with
    | [] => if bool_decide (eligible p = []) then ret success else drain_loop fuel deadline
    | front :: _ =>
      let* now := call steady_now in
      if deadline <=? now then ret (mkStatus cancelled "adaptive placement drain timed out")
      else
        let* _ := call (wait_for (handle front) ((deadline - now) / 10 ^ 6)) in
        drain_loop fuel deadline
    end
  end.

Definition drain (fuel : nat) (timeout : Z) : M Status :=
  let* now := call steady_now in
  enqueue_profitable_candidates ;*
  drain_loop fuel (now + timeout * 10 ^ 6).

Definition poll : M unit := complete_ready ;* fill_slots.

Definition quiesce (fuel : nat) (timeout : Z) : M Status :=
  let* status := drain fuel timeout in
  when (status_ok status) (alter_state (fun p => p <| frozen := true |>)) ;*
  ret status.

Definition resume (p : Placement Handle) : Placement Handle := p <| frozen := false |>.
End Operations.
