(* ===== verification/AdaptivePlacementTheorems.v ===== *)
(** What the placement controller guarantees: its bookkeeping along every run, that a drain
    ends, and that a quiesced controller promotes nothing until it is resumed. *)

From S2P Require Import Prelude.
From S2P Require Import Storage.
From S2P Require Import Doubles.
From S2P Require Import Binary64.
From S2P Require Import AdaptivePlacement.

(** ** What the controller relies on

    Results stay where they are once they are there; a wait that gives up has waited; the
    clock is monotonic and a call takes time. [promotions] are the acquisitions made
    through this interface. *)
Class PlacementCacheSpec (W Handle : Type) `{PlacementCache W Handle} := {
  later : W -> W -> Prop;
  settled : Handle -> W -> Prop;
  clock : W -> Z;
  promotions : W -> list ExpertKey;
  later_preorder :: PreOrder later;
  later_settled w w' h : later w w' -> settled h w -> settled h w';
  later_clock w w' : later w w' -> clock w <= clock w';
  improve_later k r w : later w (admission_would_improve k r w).2;
  improve_promotions k r w : promotions (admission_would_improve k r w).2 = promotions w;
  acquire_later k r w : later w (cache_acquire k r w).2;
  acquire_promotions k r w : promotions (cache_acquire k r w).2 = promotions w ++ [k];
  wait_later h t w : later w (wait_for h t w).2;
  wait_promotions h t w : promotions (wait_for h t w).2 = promotions w;
  wait_ready h t w : settled h w -> (wait_for h t w).1 = true;
  wait_settled h t w : (wait_for h t w).1 = true -> settled h (wait_for h t w).2;
  wait_patient h t w : (wait_for h t w).1 = false ->
    clock w + t * 10 ^ 6 <= clock (wait_for h t w).2 /\ clock w < clock (wait_for h t w).2;
  take_later h w : later w (take_lease h w).2;
  take_promotions h w : promotions (take_lease h w).2 = promotions w;
  cancel_later h w : later w (cancel_handle h w).2;
  cancel_promotions h w : promotions (cancel_handle h w).2 = promotions w;
  now_later w : later w (steady_now w).2;
  now_promotions w : promotions (steady_now w).2 = promotions w;
  now_clock w : (steady_now w).1 = clock (steady_now w).2 }.

#[export] Hint Resolve improve_later acquire_later wait_later take_later cancel_later now_later : placement.
#[export] Hint Rewrite @improve_promotions @acquire_promotions @wait_promotions @take_promotions
  @cancel_promotions @now_promotions : promotions.

(** ** The bookkeeping *)

Section Invariant.
Context {Handle : Type}.
Implicit Types (p : Placement Handle) (l : list (Pending Handle)).

Definition keys_of l : list ExpertKey := map p_key l.

(** [l]: the promotions in flight, the field [pending] outside of the loops over it. *)
Record inv l p : Prop := mkInv {
  i_once : NoDup (keys_of l);
  i_flight : Z.of_nat (length l) <= maximum_inflight_promotions (config p);
  i_positive : 0 < maximum_inflight_promotions (config p);
  i_known k : k ∈ keys_of l -> is_Some (candidates p !! k);
  i_flag k c : candidates p !! k = Some c -> (c_pending c = true <-> k ∈ keys_of l);
  i_room : Z.of_nat (size (candidates p)) <= maximum_candidates (config p);
  i_queued k c : candidates p !! k = Some c -> queued c = true ->
    exists e, e ∈ eligible p /\ e_key e = k /\ e_generation e = queue_generation c;
  i_debt k c : candidates p !! k = Some c -> u64 (debt_ns c);
  i_frozen : frozen p = true -> eligible p = [] }.

(** What the invariant does not look at. *)
Lemma inv_ext l p p' :
  config p' = config p -> candidates p' = candidates p -> eligible p' = eligible p ->
  frozen p' = frozen p -> inv l p -> inv l p'.
Proof. intros E1 E2 E3 E4 []. split; rewrite ?E1, ?E2, ?E3, ?E4; done. Qed.

(** A change of a candidate that neither queues it nor changes its promotion. *)
Definition mild (f : Candidate -> Candidate) : Prop :=
  forall c, c_pending (f c) = c_pending c /\
    (queued (f c) = true -> queued c = true /\ queue_generation (f c) = queue_generation c) /\
    (u64 (debt_ns c) -> u64 (debt_ns (f c))).

Lemma inv_alter l p p' k f :
  config p' = config p -> candidates p' = alter f k (candidates p) -> eligible p' = eligible p ->
  frozen p' = frozen p -> mild f -> inv l p -> inv l p'.
Proof.
  intros E1 E2 E3 E4 Hf [H1 H2 H2' H3 H4 H5 H6 H7 H8].
  assert (forall j c', alter f k (candidates p) !! j = Some c' ->
    exists c, candidates p !! j = Some c /\ (c' = c \/ c' = f c)) as Hl.
  { intros j c'. destruct (decide (k = j)) as [->|].
    - rewrite lookup_alter_eq. destruct (candidates p !! j) as [c|]; [|done]. simpl. intros [= <-]. eauto.
    - rewrite lookup_alter_ne by done. eauto. }
  split; rewrite ?E1, ?E2, ?E3, ?E4; try done.
  - intros j Hj. destruct (H3 j Hj) as [c Hc]. destruct (decide (k = j)) as [->|].
    + rewrite lookup_alter_eq, Hc. by eexists.
    + rewrite lookup_alter_ne by done. by eexists.
  - intros j c' (c & Hc & [->| ->])%Hl; [by apply H4|].
    rewrite (proj1 (Hf c)). by apply H4.
  - by rewrite map_size_alter.
  - intros j c' (c & Hc & [->| ->])%Hl; [by apply H6|].
    intros [Hq ->]%Hf. by apply H6.
  - intros j c' (c & Hc & [->| ->])%Hl; [by eapply H7|]. apply Hf. by eapply H7.
Qed.

Lemma u64_zero : u64 0.
Proof. unfold u64, U64_MAX. lia. Qed.

Lemma alter_twice {A} (f g : A -> A) (k : ExpertKey) (m : gmap ExpertKey A) :
  alter f k (alter g k m) = alter (f ∘ g) k m.
Proof.
  apply map_eq. intros j. destruct (decide (k = j)) as [->|].
  - rewrite !lookup_alter_eq. by destruct (m !! j).
  - by rewrite !lookup_alter_ne.
Qed.

(** The promotion of [item] is over. *)
Lemma complete_one_fields lease (item : Pending Handle) p c :
  candidates p !! p_key item = Some c ->
  let p' := complete_one lease item p in
  config p' = config p /\ eligible p' = eligible p /\ frozen p' = frozen p /\
  pending p' = pending p /\ epoch p' = epoch p /\
  exists f, candidates p' = alter f (p_key item) (candidates p) /\
    forall c, c_pending (f c) = false /\ queued (f c) = queued c /\
      queue_generation (f c) = queue_generation c /\ (u64 (debt_ns c) -> u64 (debt_ns (f c))).
Proof.
  intros Hc. unfold complete_one. rewrite Hc.
  destruct lease; [destruct (demanded c)|destruct (negb (p_cancelled item))]; simpl;
    (split_and!; try done); eexists;
    (split; [try reflexivity; rewrite alter_twice; reflexivity|]);
    intros []; simpl; split_and!; auto using u64_zero.
Qed.

Lemma inv_complete_one lease (item : Pending Handle) l k p :
  inv (k ++ item :: l) p -> inv (k ++ l) (complete_one lease item p).
Proof.
  intros [H1 H2 H2' H3 H4 H5 H6 H7 H8]. unfold keys_of in *.
  rewrite map_app in H1, H3, H4. simpl in *.
  rewrite length_app in H2. simpl in H2.
  destruct (H3 (p_key item)) as [c Hc]; [set_solver|].
  destruct (complete_one_fields lease item p c Hc) as (E1 & E2 & E3 & _ & _ & f & E4 & Hf).
  apply NoDup_app in H1 as (N1 & N2 & N3). apply NoDup_cons in N3 as [N3 N4].
  assert (forall j c', candidates (complete_one lease item p) !! j = Some c' ->
    exists c, candidates p !! j = Some c /\ ((j = p_key item /\ c' = f c) \/ (j <> p_key item /\ c' = c))) as Hl.
  { intros j c'. rewrite E4. destruct (decide (p_key item = j)) as [<-|].
    - rewrite lookup_alter_eq. destruct (candidates p !! _) as [c0|]; [|done]. simpl. intros [= <-]. eauto 6.
    - rewrite lookup_alter_ne by done. eauto 6. }
  split; rewrite ?E1, ?E2, ?E3; unfold keys_of; rewrite ?map_app, ?length_app; try done.
  - apply NoDup_app. split_and!; [done| |done]. intros x Hx. specialize (N2 x Hx). set_solver.
  - lia.
  - intros j Hj. destruct (H3 j ltac:(set_solver)) as [c0 Hc0]. rewrite E4.
    destruct (decide (p_key item = j)) as [<-|]; [rewrite lookup_alter_eq, Hc0|rewrite lookup_alter_ne by done]; eauto.
  - intros j c' (c0 & Hc0 & [[-> ->]|[Hne ->]])%Hl.
    + destruct (Hf c0) as (-> & _). split; [done|]. intros Hin. exfalso.
      apply elem_of_app in Hin as [Hin|Hin]; [|done]. apply (N2 _ Hin). set_solver.
    + rewrite (H4 _ _ Hc0). set_solver.
  - by rewrite E4, map_size_alter.
  - intros j c' (c0 & Hc0 & [[-> ->]|[Hne ->]])%Hl; [|by apply H6].
    destruct (Hf c0) as (_ & -> & -> & _). by apply H6.
  - intros j c' (c0 & Hc0 & [[-> ->]|[Hne ->]])%Hl; [|by eapply H7].
    apply (Hf c0). by eapply H7.
Qed.

Lemma inv_keys l l' p : keys_of l' = keys_of l -> inv l p -> inv l' p.
Proof.
  intros E. assert (length l' = length l) as El by (apply (f_equal length) in E; unfold keys_of in E; by rewrite !length_map in E).
  intros []. split; rewrite ?E, ?El; done.
Qed.

(** ** The queue *)

Lemma pop_top_perm (q : list Eligible) top rest : pop_top q = Some (top, rest) -> q ≡ₚ top :: rest.
Proof.
  revert top rest. induction q as [|e q IH]; simpl; [done|]. intros top rest.
  destruct (pop_top q) as [[t r]|] eqn:E.
  - specialize (IH t r eq_refl). destruct (eligible_less e t); intros [= <- <-]; rewrite IH; [|done].
    apply Permutation_swap.
  - destruct q as [|e' q]; [by intros [= <- <-]|]. exfalso. simpl in E.
    destruct (pop_top q) as [[? ?]|]; [|done]. by destruct (eligible_less _ _).
Qed.

Lemma pop_top_None (q : list Eligible) : pop_top q = None -> q = [].
Proof.
  destruct q as [|e q]; [done|]. simpl. destruct (pop_top q) as [[? ?]|]; [|done].
  by destruct (eligible_less _ _).
Qed.

(** An entry that is not current is dropped. *)
Lemma inv_pop l p next rest :
  pop_top (eligible p) = Some (next, rest) ->
  (forall c, candidates p !! e_key next = Some c -> queued c = true ->
     queue_generation c <> e_generation next) ->
  inv l p -> inv l (p <| eligible := rest |>).
Proof.
  intros Hp%pop_top_perm Hs []. split; simpl; try done.
  - intros k c Hc Hq. destruct (i_queued0 k c Hc Hq) as (e & He & Hk & Hg).
    rewrite Hp in He. apply elem_of_cons in He as [->|He]; [|eauto].
    subst k. destruct (Hs c Hc Hq). done.
  - intros Hf. rewrite (i_frozen0 Hf) in Hp. by apply Permutation_nil_cons in Hp.
Qed.

(** A current entry is taken. *)
Lemma inv_take l p next rest :
  pop_top (eligible p) = Some (next, rest) -> inv l p ->
  inv l (on_candidate (e_key next) (fun c => c <| queued := false |>) (p <| eligible := rest |>)).
Proof.
  intros Hp [H1 H2 H2' H3 H4 H5 H6 H7 H8].
  assert (forall j c', alter (fun c : Candidate => c <| queued := false |>) (e_key next) (candidates p) !! j = Some c' ->
    exists c, candidates p !! j = Some c /\
      ((j = e_key next /\ c' = c <| queued := false |>) \/ (j <> e_key next /\ c' = c))) as Hl.
  { intros j c'. destruct (decide (e_key next = j)) as [<-|].
    - rewrite lookup_alter_eq. destruct (candidates p !! _) as [c0|]; [|done]. simpl. intros [= <-]. eauto 6.
    - rewrite lookup_alter_ne by done. eauto 6. }
  split; simpl; try done.
  - intros k Hk. destruct (H3 k Hk) as [c Hc]. destruct (decide (e_key next = k)) as [<-|].
    + rewrite lookup_alter_eq, Hc. by eexists.
    + rewrite lookup_alter_ne by done. by eexists.
  - intros j c' (c0 & Hc0 & [[-> ->]|[Hne ->]])%Hl; by apply H4 in Hc0.
  - by rewrite map_size_alter.
  - intros j c' (c0 & Hc0 & [[-> ->]|[Hne ->]])%Hl Hq; [done|].
    destruct (H6 j c0 Hc0 Hq) as (e & He & Hk & Hg). exists e. split; [|done].
    rewrite (pop_top_perm _ _ _ Hp) in He. apply elem_of_cons in He as [->|]; [congruence|done].
  - intros j c' (c0 & Hc0 & [[-> ->]|[Hne ->]])%Hl; by apply H7 in Hc0.
  - intros Hf. rewrite (H8 Hf) in Hp. done.
Qed.

(** A promotion is started. *)
Lemma inv_schedule k c c0 (h : Handle) l p :
  in_flight_full (p <| pending := l |>) = false -> candidates p !! k = Some c0 -> c_pending c0 = false ->
  inv l p -> inv (l ++ [mkPending k h (epoch p) (stored_bytes (c_record c)) false]) (schedule k c h p).
Proof.
  intros Hr Hc Hn [H1 H2 H2' H3 H4 H5 H6 H7 H8]. unfold in_flight_full in Hr. simpl in Hr.
  apply Z.leb_gt in Hr. assert (k ∉ keys_of l) as Hk by (rewrite <- (H4 k c0 Hc); by rewrite Hn).
  set (f := fun c : Candidate => (c <| debt_ns := 0 |> <| c_pending := true |> <| demanded := false |>)).
  assert (candidates (schedule k c h p) = alter f k (candidates p)) as E by done.
  split; rewrite ?E; unfold keys_of; rewrite ?map_app, ?length_app; simpl; try done.
  - apply NoDup_app. split_and!; [done|set_solver|apply NoDup_singleton].
  - lia.
  - intros j Hj. destruct (decide (k = j)) as [<-|]; [rewrite lookup_alter_eq, Hc; by eexists|].
    rewrite lookup_alter_ne by done. apply H3. set_solver.
  - intros j c'. destruct (decide (k = j)) as [<-|].
    + rewrite lookup_alter_eq, Hc. simpl. intros [= <-]. simpl. split; [set_solver|done].
    + rewrite lookup_alter_ne by done. intros Hj. rewrite (H4 j c' Hj). set_solver.
  - by rewrite map_size_alter.
  - intros j c'. destruct (decide (k = j)) as [<-|].
    + rewrite lookup_alter_eq, Hc. simpl. intros [= <-]. simpl. eauto.
    + rewrite lookup_alter_ne by done. eauto.
  - intros j c'. destruct (decide (k = j)) as [<-|].
    + rewrite lookup_alter_eq, Hc. simpl. intros [= <-]. apply u64_zero.
    + rewrite lookup_alter_ne by done. eauto.
Qed.
End Invariant.

(** ** The operations keep it *)

Section Operations.
Context {W Handle : Type} `{Spec : PlacementCacheSpec W Handle}.
Notation State := (Placement Handle * W)%type.
Implicit Types (p : Placement Handle) (s : State) (l : list (Pending Handle)).

Definition ok s : Prop := inv (pending s.1) s.1.

(** Time passes, the configuration stays, and a frozen controller stays frozen and promotes
    nothing. *)
Record moves s s' : Prop := mkMoves {
  m_later : later s.2 s'.2;
  m_config : config s'.1 = config s.1;
  m_frozen : frozen s'.1 = frozen s.1;
  m_promotions : frozen s.1 = true -> promotions s'.2 = promotions s.2;
  m_pending : frozen s.1 = true -> (length (pending s'.1) <= length (pending s.1))%nat }.

#[export] Instance moves_preorder : PreOrder moves.
Proof.
  split.
  - intros s. split; done.
  - intros s t u [A1 A2 A3 A4 A5] [B1 B2 B3 B4 B5]. split.
    + by etrans.
    + by rewrite B2.
    + by rewrite B3.
    + intros Hf. rewrite B4, A4; congruence.
    + intros Hf. specialize (A5 Hf). specialize (B5 ltac:(congruence)). lia.
Qed.

(** The queue is left alone. *)
Record calm s s' : Prop := mkCalm {
  calm_later : later s.2 s'.2;
  calm_config : config s'.1 = config s.1;
  calm_frozen : frozen s'.1 = frozen s.1;
  calm_eligible : eligible s'.1 = eligible s.1;
  calm_promotions : promotions s'.2 = promotions s.2;
  calm_pending : (length (pending s'.1) <= length (pending s.1))%nat }.

#[export] Instance calm_preorder : PreOrder calm.
Proof.
  split.
  - intros s. split; done.
  - intros s t u [A1 A2 A3 A4 A5 A6] [B1 B2 B3 B4 B5 B6]. split; [by etrans|..|lia]; congruence.
Qed.

Lemma calm_moves s s' : calm s s' -> moves s s'.
Proof. intros []. by split. Qed.

Lemma wpe_call {A} (f : W -> A * W) (Q : A -> State -> Prop) E s :
  Q (f s.2).1 (s.1, (f s.2).2) -> wpe (call f) Q E s.
Proof. unfold wpe, call. by destruct (f s.2). Qed.

Lemma wpe_current (Q : Placement Handle -> State -> Prop) E s : Q s.1 s -> wpe current Q E s.
Proof. done. Qed.

Lemma wpe_alter f (Q : unit -> State -> Prop) E s : Q tt (f s.1, s.2) -> wpe (alter_state f) Q E s.
Proof. done. Qed.

Lemma calm_call {A} p (f : W -> A * W) w :
  later w (f w).2 -> promotions (f w).2 = promotions w -> calm (p, w) (p, (f w).2).
Proof. by split. Qed.

Definition never : exn -> Prop := fun _ => False.

Lemma complete_loop_spec l k s :
  inv (k ++ l) s.1 ->
  wpe (complete_loop l) (fun kept s' =>
    inv (k ++ kept) s'.1 /\ calm s s' /\ (length kept <= length l)%nat /\
    ((exists item, item ∈ l /\ settled (handle item) s.2) -> (length kept < length l)%nat)) never s.
Proof.
  revert k s. induction l as [|item l IH]; intros k s Hi; simpl.
  { apply wpe_ret. split_and!; [done|done|done|]. intros (item & Hin & _). by apply not_elem_of_nil in Hin. }
  apply wpe_bind, wpe_call. destruct s as [p w]. simpl in *.
  pose proof (wait_ready (handle item) 0 w) as Hready.
  pose proof (wait_later (handle item) 0 w) as Hl. pose proof (wait_promotions (handle item) 0 w) as Hpr.
  destruct (wait_for (handle item) 0 w) as [ready w1]. simpl in *.
  assert (calm (p, w) (p, w1)) as C1 by by split.
  destruct ready; simpl.
  - apply wpe_bind, wpe_call. simpl. pose proof (take_later (handle item) w1) as Hl2.
    pose proof (take_promotions (handle item) w1) as Hpr2.
    destruct (take_lease (handle item) w1) as [lease w2]. simpl in *.
    apply wpe_bind, wpe_alter. simpl.
    assert (calm (p, w1) (complete_one lease item p, w2)) as C2.
    { destruct (i_known _ _ Hi (p_key item)) as [c Hc]; [unfold keys_of; rewrite map_app; set_solver|].
      destruct (complete_one_fields lease item p c Hc) as (? & ? & ? & E & _). split; try done. simpl. by rewrite E. }
    eapply wpe_mono; [apply (IH k); by apply inv_complete_one|].
    intros kept s' (Hi' & C & Hlen & _). split_and!; [done|by rewrite C1, C2|lia|intros _; lia].
  - apply wpe_bind. eapply wpe_mono; [apply (IH (k ++ [item]) (p, w1)); by rewrite <- app_assoc|].
    intros kept s' (Hi' & C & Hlen & Hset). apply wpe_ret. simpl in *.
    rewrite <- app_assoc in Hi'. split_and!; [done|by rewrite C1|lia|].
    intros (it & Hin & Hs). apply elem_of_cons in Hin as [->|Hin]; [by apply Hready in Hs|].
    apply -> Nat.succ_lt_mono. apply Hset. exists it. split; [done|]. by apply (later_settled w w1).
Qed.

Lemma complete_ready_spec s :
  ok s ->
  wpe complete_ready (fun _ s' =>
    ok s' /\ calm s s' /\ (length (pending s'.1) <= length (pending s.1))%nat /\
    ((exists item, item ∈ pending s.1 /\ settled (handle item) s.2) ->
     (length (pending s'.1) < length (pending s.1))%nat)) never s.
Proof.
  intros Hi. unfold complete_ready. apply wpe_bind, wpe_current, wpe_bind.
  eapply wpe_mono; [by apply (complete_loop_spec (pending s.1) [])|].
  intros kept s' (Hi' & C & Hlen & Hset). apply wpe_alter. simpl.
  split_and!; [by eapply inv_ext; [..|exact Hi']| |done|done]. destruct C. by split.
Qed.

(** What is left to do for a drain: every promotion takes an entry off the queue. *)
Definition load p : nat := 2 * length (eligible p) + length (pending p).

Lemma fill_loop_spec fuel s :
  (length (eligible s.1) < fuel)%nat -> ok s ->
  wpe (fill_loop fuel) (fun _ s' =>
    ok s' /\ moves s s' /\ (load s'.1 <= load s.1)%nat /\
    (in_flight_full s'.1 = true \/ eligible s'.1 = [])) never s.
Proof.
  revert s. induction fuel as [|fuel IH]; intros s Hfuel Hi; [lia|]. simpl.
  apply wpe_bind, wpe_current. destruct (in_flight_full s.1) eqn:Hr.
  { apply wpe_ret. split_and!; [done|done|done|by left]. }
  destruct (pop_top (eligible s.1)) as [[next rest]|] eqn:Hpop.
  2: { apply wpe_ret. split_and!; [done|done|done|right; by apply pop_top_None]. }
  pose proof (Permutation_length (pop_top_perm _ _ _ Hpop)) as Hlen. simpl in Hlen.
  assert (frozen s.1 = false) as Hnf.
  { destruct (frozen s.1) eqn:E; [|done]. by rewrite (i_frozen _ _ Hi E) in Hpop. }
  assert (forall s1, ok s1 -> later s.2 s1.2 -> config s1.1 = config s.1 -> frozen s1.1 = false ->
    (length (eligible s1.1) <= length rest)%nat ->
    (length (pending s1.1) <= S (length (pending s.1)))%nat ->
    wpe (fill_loop fuel) (fun _ s' =>
      ok s' /\ moves s s' /\ (load s'.1 <= load s.1)%nat /\
      (in_flight_full s'.1 = true \/ eligible s'.1 = [])) never s1) as Hgo.
  { intros s1 Hok Hlat Hcfg Hfr He Hp. eapply wpe_mono; [apply IH; [lia|done]|].
    intros _ s' (Hok' & [M1 M2 M3 _ _] & Hload & Hend). split_and!; [done| |unfold load in *; lia|done].
    split; [by etrans|congruence|congruence|by rewrite Hnf|by rewrite Hnf]. }
  destruct s as [p w]. simpl in *.
  apply wpe_bind, wpe_alter. simpl.
  destruct (candidates p !! e_key next) as [c|] eqn:Hc.
  2: { apply Hgo; simpl; try done; try lia. apply (inv_pop _ _ _ _ Hpop); [|done]. intros ? Hc'. congruence. }
  destruct (negb (queued c) || negb (queue_generation c =? e_generation next)) eqn:Hstale.
  { apply Hgo; simpl; try done; try lia. apply (inv_pop _ _ _ _ Hpop); [|done].
    intros c' Hc' Hq. simplify_eq. rewrite Hq in Hstale. simpl in Hstale.
    by apply negb_true_iff, Z.eqb_neq in Hstale. }
  apply wpe_bind, wpe_alter. simpl.
  pose proof (inv_take _ _ _ _ Hpop Hi) as Ht. set (p1 := on_candidate _ _ _) in *.
  destruct (c_pending c) eqn:Hcp; [apply Hgo; simpl; try done; lia|].
  apply wpe_bind, wpe_call. simpl. pose proof (improve_later (e_key next) (c_record c) w) as Hl1.
  destruct (admission_would_improve (e_key next) (c_record c) w) as [improves w1]. simpl in *.
  destruct improves; simpl.
  2: { apply wpe_bind, wpe_alter. simpl. apply Hgo; simpl; try done; try lia. by eapply inv_ext; [..|exact Ht]. }
  apply wpe_bind, wpe_call. simpl. pose proof (acquire_later (e_key next) (c_record c) w1) as Hl2.
  destruct (cache_acquire (e_key next) (c_record c) w1) as [h w2]. simpl in *.
  apply wpe_bind, wpe_alter. simpl.
  assert (ok (schedule (e_key next) c h p1, w2)) as Hok2.
  { pose proof (inv_schedule (e_key next) c (c <| queued := false |>) h (pending p1) p1) as Hs.
    apply Hs; [done| |done|done]. simpl. by rewrite lookup_alter_eq, Hc. }
  apply wpe_bind. eapply wpe_mono; [by apply complete_ready_spec|].
  intros _ s2 (Hok3 & [D1 D2 D3 D4 _] & Hp2 & _). simpl in *. apply Hgo; try done.
  - do 2 (etrans; [eassumption|]). done.
  - by rewrite D3.
  - by rewrite D4.
  - rewrite length_app in Hp2. simpl in Hp2. lia.
Qed.

Lemma fill_slots_spec s :
  ok s ->
  wpe fill_slots (fun _ s' =>
    ok s' /\ moves s s' /\ (load s'.1 <= load s.1)%nat /\ (pending s'.1 = [] -> eligible s'.1 = [])) never s.
Proof.
  intros Hi. unfold fill_slots. apply wpe_bind, wpe_current. destruct (frozen s.1) eqn:Hf.
  - apply wpe_ret. split_and!; [done|done|done|]. intros _. by apply (i_frozen _ _ Hi).
  - eapply wpe_mono; [apply fill_loop_spec; [lia|done]|]. intros _ s' (Hok & Hm & Hload & Hend).
    split_and!; try done. intros Hp. destruct Hend as [Hr|]; [|done]. unfold in_flight_full in Hr.
    pose proof (i_positive _ _ Hok). rewrite Hp in Hr. simpl in Hr. apply Z.leb_le in Hr. lia.
Qed.

(** *** Changes of the candidates *)

Record tame p p' : Prop := mkTame {
  tame_config : config p' = config p;
  tame_eligible : eligible p' = eligible p;
  tame_frozen : frozen p' = frozen p;
  tame_pending : pending p' = pending p;
  tame_inv l : inv l p -> inv l p' }.

#[export] Instance tame_preorder : PreOrder tame.
Proof.
  split; [by split|]. intros p q r [A1 A2 A3 A4 A5] [B1 B2 B3 B4 B5].
  split; [congruence..|]. auto.
Qed.

Lemma tame_tally f p : tame p (tally f p).
Proof. split; try done. intros l. by apply inv_ext. Qed.

Lemma tame_alter k f p : mild f -> tame p (on_candidate k f p).
Proof. intros Hf. split; try done. intros l. by eapply inv_alter. Qed.

Lemma tame_fold {A} (f : Placement Handle -> A -> Placement Handle) (l : list A) p :
  (forall p a, tame p (f p a)) -> tame p (foldl f p l).
Proof.
  intros Hf. revert p. induction l as [|a l IH]; intros p; simpl; [done|]. etrans; [apply Hf|apply IH].
Qed.

Ltac mild := intros []; simpl; unfold is_true; split_and!; auto using u64_zero; intros; split_and?; congruence.

Lemma tame_resident k p : tame p (attribute_resident_use k p).
Proof.
  unfold attribute_resident_use. destruct (candidates p !! k) as [c|]; [|done].
  destruct (ready_prediction c); [|done]. etrans; [apply tame_tally|]. apply tame_alter. mild.
Qed.

Lemma tame_missing k p : tame p (attribute_missing_use k p).
Proof.
  unfold attribute_missing_use. destruct (candidates p !! k) as [c|]; [|done].
  destruct (c_pending c); [apply tame_alter; mild|]. destruct (ready_prediction c); [|done].
  etrans; [|apply tame_tally]. apply tame_alter. mild.
Qed.

Lemma tame_expire p k : tame p (expire_candidate k p).
Proof.
  unfold expire_candidate. destruct (candidates p !! k) as [c|]; [|done].
  set (p1 := if _ && (_ <? sub64 (epoch p) (predicted_epoch c)) then _ else _).
  assert (tame p p1) as H1.
  { unfold p1. destruct (_ && _); [|done]. etrans; [|apply tame_tally]. apply tame_alter. mild. }
  destruct (queued c && _); [|done]. etrans; [exact H1|]. etrans; [|apply tame_tally].
  split; try done. intros l Hi.
  eapply (inv_alter l p1 _ k (fun c => c <| queued := false |> <| queue_generation %= inc64 |>)); try done.
  - simpl. by rewrite alter_twice.
Qed.

Lemma tame_calm p p' w : tame p p' -> calm (p, w) (p', w).
Proof. intros [? ? ? E _]. split; try done. simpl. by rewrite E. Qed.

Lemma keys_length l l' : keys_of l' = keys_of l -> length l' = length l.
Proof. intros E. apply (f_equal length) in E. unfold keys_of in E. by rewrite !length_map in E. Qed.

Lemma cancel_stale_spec l s :
  wpe (cancel_stale l) (fun l' s' =>
    keys_of l' = keys_of l /\ calm s s' /\ candidates s'.1 = candidates s.1 /\ pending s'.1 = pending s.1)
    never s.
Proof.
  revert s. induction l as [|item l IH]; intros s; simpl; [by apply wpe_ret|].
  apply wpe_bind, wpe_current. destruct (stale_pending s.1 item).
  - apply wpe_bind, wpe_call, wpe_bind, wpe_alter, wpe_bind. simpl.
    eapply wpe_mono; [apply IH|]. intros l' s' (Hk & C & Hc & Hp). apply wpe_ret. simpl in *.
    split_and!; [by f_equal| |done|done]. etrans; [|exact C]. destruct s as [p w]. split; try done.
    + apply cancel_later.
    + apply cancel_promotions.
  - apply wpe_bind. eapply wpe_mono; [apply IH|]. intros l' s' (Hk & C & Hc & Hp). apply wpe_ret.
    split_and!; [by simpl; f_equal|done|done|done].
Qed.

Lemma expire_stale_spec s : ok s -> wpe expire_stale (fun _ s' => ok s' /\ calm s s') never s.
Proof.
  intros Hi. unfold expire_stale. apply wpe_bind, wpe_current, wpe_bind.
  eapply wpe_mono; [apply cancel_stale_spec|]. intros l [p w] (Hk & C & Hc & Hp). simpl in *.
  apply wpe_bind, wpe_alter. simpl. apply wpe_bind, wpe_alter. simpl.
  set (p1 := p <| pending := l |>). set (p2 := foldl _ p1 _).
  assert (tame p1 p2) as Ht by (apply tame_fold; intros; apply tame_expire).
  assert (ok (p2, w)) as Hok.
  { unfold ok. simpl. rewrite (tame_pending _ _ Ht). apply Ht. simpl.
    eapply inv_keys; [exact Hk|]. destruct C. by eapply inv_ext; [..|exact Hi]. }
  eapply wpe_mono; [by apply complete_ready_spec|]. intros _ s' (Hok' & C' & _). split; [done|].
  etrans; [exact C|]. etrans; [|exact C']. etrans; [|apply tame_calm, Ht].
  split; try done. simpl. by rewrite (keys_length _ _ Hk), Hp.
Qed.

Lemma observe_routes_spec resident missing s :
  ok s -> wpe (observe_routes resident missing) (fun _ s' => ok s' /\ calm s s') never s.
Proof.
  intros Hi. unfold observe_routes. apply wpe_bind.
  eapply wpe_mono; [by apply complete_ready_spec|]. intros _ [p w] (Hok & C & _).
  apply wpe_bind, wpe_alter, wpe_bind, wpe_alter, wpe_bind, wpe_alter. simpl.
  set (p1 := p <| epoch %= inc64 |>). set (p3 := foldl _ (foldl _ p1 _) _).
  assert (tame p p3) as Ht.
  { assert (tame p p1) as T1 by (split; try done; intros l; by apply inv_ext). etrans; [exact T1|].
    unfold p3. etrans; [|apply tame_fold; intros; apply tame_missing].
    apply tame_fold; intros; apply tame_resident. }
  assert (ok (p3, w)) as Hok3.
  { unfold ok. simpl. rewrite (tame_pending _ _ Ht). apply Ht, Hok. }
  assert (calm s (p3, w)) as C3 by (etrans; [exact C|by apply tame_calm]).
  apply wpe_bind, wpe_current. simpl. destruct (_ || _); simpl.
  - eapply wpe_mono; [by apply expire_stale_spec|]. intros _ s' [? ?]. split; [done|by etrans].
  - by apply wpe_ret.
Qed.

(** *** Admission of candidates *)

Definition undefined (e : exn) : Prop := exists what, e = undefined_behavior what.

Lemma wpe_outcome {A} (o : outcome A) (Q : A -> State -> Prop) (E : exn -> Prop) s :
  (forall a, o = Ok a -> Q a s) -> (forall e, o = Throw e -> E e) -> wpe (lift o) Q E s.
Proof. intros HQ HE. unfold wpe, lift. destruct o; simpl; auto. Qed.

Lemma wpe_weaken {A} (m : ST State A) Q (E E' : exn -> Prop) s :
  (forall e, E e -> E' e) -> wpe m Q E s -> wpe m Q E' s.
Proof. unfold wpe. destruct (m s) as [[? ?]|]; auto. Qed.

Lemma static_cast_undefined x e : static_cast_u64 x = Throw e -> undefined e.
Proof. unfold static_cast_u64. case_match; [done|]. intros [= <-]. by eexists. Qed.

Lemma static_cast_u64_range x n : static_cast_u64 x = Ok n -> u64 n.
Proof.
  unfold static_cast_u64. case_match eqn:E; [|done]. intros [= <-].
  apply andb_true_iff in E as [[_ E1%Z.leb_le]%andb_true_iff E2%Z.leb_le]. done.
Qed.

Lemma upload_cost_undefined c candidate e : upload_cost c candidate = Throw e -> undefined e.
Proof.
  unfold upload_cost. destruct (static_cast_u64 _) eqn:E; [done|]. intros [= <-].
  by apply static_cast_undefined in E.
Qed.

Lemma capacity_victim_from (v : option (ExpertKey * Candidate)) kcs w :
  foldl (fun victim kc =>
    if queued kc.2 || c_pending kc.2 || ready_prediction kc.2 then victim
    else
      match victim with
      | None => Some kc
      | Some v => if last_seen_epoch kc.2 <? last_seen_epoch v.2 then Some kc else victim
      end) v kcs = Some w ->
  v = Some w \/ (w ∈ kcs /\ queued w.2 = false /\ c_pending w.2 = false).
Proof.
  revert v. induction kcs as [|kc kcs IH]; intros v; simpl; [by left|].
  intros [Hv|(? & ? & ?)]%IH; [|right; split_and!; [by right|done|done]].
  destruct (queued kc.2 || c_pending kc.2 || ready_prediction kc.2) eqn:E; [by left|].
  apply orb_false_iff in E as [[E1 E2]%orb_false_iff _].
  destruct v as [v|]; [destruct (last_seen_epoch kc.2 <? last_seen_epoch v.2)|]; simplify_eq; auto;
    right; split_and!; try done; by left.
Qed.

(** After the check for room the candidate can be there. *)
Lemma ensure_capacity_spec k p room p' :
  ensure_candidate_capacity k p = (room, p') ->
  config p' = config p /\ eligible p' = eligible p /\ frozen p' = frozen p /\ pending p' = pending p /\
  (forall l, inv l p -> inv l p' /\
    (room = true -> is_Some (candidates p' !! k) \/
       Z.of_nat (size (candidates p')) < maximum_candidates (config p))).
Proof.
  unfold ensure_candidate_capacity. intros E.
  destruct (candidates p !! k) as [c|] eqn:Hk; simplify_eq.
  { split_and!; try done. intros l Hi. split; [done|]. intros _. left. by rewrite Hk. }
  destruct (Z.ltb_spec (Z.of_nat (size (candidates p))) (maximum_candidates (config p))); simplify_eq.
  { split_and!; try done. auto. }
  destruct (capacity_victim _) as [[v c]|] eqn:Hv; simplify_eq.
  2: { split_and!; try done. intros l Hi. split; [|done]. by eapply inv_ext; [..|exact Hi]. }
  split_and!; try done. intros l Hi.
  apply capacity_victim_from in Hv as [?|(Hin & Hq & Hp)]; [done|]. simpl in *.
  apply elem_of_ordered in Hin. destruct Hi as [H1 H2 H2' H3 H4 H5 H6 H7 H8].
  assert (Z.of_nat (size (delete v (candidates p))) < maximum_candidates (config p)) as Hs.
  { rewrite map_size_delete_Some by (by eexists). assert (size (candidates p) <> 0)%nat; [|lia].
    intros E0%map_size_empty_inv. by rewrite E0, lookup_empty in Hin. }
  split; [|by right]. split; simpl; try done.
  - intros j Hj. destruct (decide (v = j)) as [<-|]; [|rewrite lookup_delete_ne by done; by apply H3].
    rewrite <- (H4 _ _ Hin) in Hj. congruence.
  - intros j c' [Hne Hj]%lookup_delete_Some. by apply H4.
  - lia.
  - intros j c' [Hne Hj]%lookup_delete_Some. by apply H6.
  - intros j c' [Hne Hj]%lookup_delete_Some. by eapply H7.
Qed.

Lemma inv_emplace k l p :
  is_Some (candidates p !! k) \/ Z.of_nat (size (candidates p)) < maximum_candidates (config p) ->
  inv l p -> inv l (emplace_candidate k p).
Proof.
  intros Hroom Hi. unfold emplace_candidate. destruct (candidates p !! k) as [c|] eqn:Hk; [done|].
  destruct Hroom as [[? ?]|Hroom]; [done|]. destruct Hi as [H1 H2 H2' H3 H4 H5 H6 H7 H8].
  split; simpl; try done.
  - intros j Hj. destruct (decide (k = j)) as [<-|]; [rewrite lookup_insert_eq; by eexists|].
    rewrite lookup_insert_ne by done. by apply H3.
  - intros j c [[<- <-]|[Hne Hj]]%lookup_insert_Some; [|by apply H4]. simpl. split; [done|].
    intros Hj. destruct (H3 _ Hj). congruence.
  - rewrite map_size_insert_None by done. lia.
  - intros j c [[<- <-]|[Hne Hj]]%lookup_insert_Some; [done|by apply H6].
  - intros j c [[<- <-]|[Hne Hj]]%lookup_insert_Some; [apply u64_zero|by eapply H7].
Qed.

Lemma accrue_mild cfg now record score addition : u64 addition -> mild (accrue cfg now record score addition).
Proof.
  intros Ha [r d ls pe g o e q pd dm rp]. unfold accrue. simpl.
  destruct (negb (ls =? 0) && (candidate_ttl_epochs cfg <? sub64 now ls)); simpl; repeat case_match; simpl;
    (split_and!; [done|done|]); unfold u64, U64_MAX in *; lia.
Qed.

Lemma inv_enqueue k c pr l p :
  candidates p !! k = Some c -> frozen p = false -> inv l p ->
  inv l (on_candidate k (fun c => c <| queue_generation %= inc64 |>)
           (on_candidate k (fun c => c <| queued := true |>) p)
         <| eligible %= fun q => q ++ [mkEligible pr k (inc64 (queue_generation c))] |>).
Proof.
  intros Hc Hf [H1 H2 H2' H3 H4 H5 H6 H7 H8].
  set (f := fun c : Candidate => c <| queued := true |> <| queue_generation %= inc64 |>).
  match goal with |- inv _ ?q => set (p' := q) end. assert (candidates p' = alter f k (candidates p)) as E.
  { simpl. by rewrite alter_twice. }
  assert (forall j c', candidates p' !! j = Some c' ->
    (j = k /\ c' = f c) \/ (j <> k /\ candidates p !! j = Some c')) as Hl.
  { intros j c'. rewrite E. destruct (decide (k = j)) as [<-|].
    - rewrite lookup_alter_eq, Hc. simpl. intros [= <-]. auto.
    - rewrite lookup_alter_ne by done. auto. }
  split; try done.
  - intros j Hj. rewrite E. destruct (decide (k = j)) as [<-|]; [rewrite lookup_alter_eq, Hc; by eexists|].
    rewrite lookup_alter_ne by done. by apply H3.
  - intros j c' [[-> ->]|[Hne Hj]]%Hl; [by apply (H4 k c)|by apply H4].
  - rewrite E, map_size_alter. exact H5.
  - intros j c' [[-> ->]|[Hne Hj]]%Hl Hq.
    + eexists. split; [apply elem_of_app; right; by apply list_elem_of_singleton|done].
    + destruct (H6 j c' Hj Hq) as (e & He & ?). exists e. split; [|done]. apply elem_of_app. by left.
  - intros j c' [[-> ->]|[Hne Hj]]%Hl; [by apply (H7 k c)|by eapply H7].
  - simpl. congruence.
Qed.

Lemma queue_spec k s :
  is_Some (candidates s.1 !! k) -> ok s ->
  wpe (queue_if_profitable k) (fun _ s' => ok s' /\ moves s s' /\ promotions s'.2 = promotions s.2 /\
    pending s'.1 = pending s.1 /\ (length (eligible s'.1) <= S (length (eligible s.1)))%nat /\
    (forall j, is_Some (candidates s.1 !! j) -> is_Some (candidates s'.1 !! j)))
    undefined s.
Proof.
  intros [c Hc] Hi. unfold queue_if_profitable. apply wpe_bind, wpe_current. rewrite Hc.
  apply wpe_bind, wpe_outcome; [|apply upload_cost_undefined]. intros cost _.
  destruct (frozen s.1) eqn:Hf.
  { rewrite orb_true_r. simpl. apply wpe_ret. split_and!; done || lia. }
  destruct (_ || _ || _); [apply wpe_ret; split_and!; done || lia|].
  apply wpe_bind, wpe_alter, wpe_bind, wpe_alter, wpe_bind, wpe_alter. simpl.
  pose proof (inv_enqueue k c (fdiv (effective_debt (config s.1) c) (f64_of_Z cost)) _ _ Hc Hf Hi) as Hi'.
  match type of Hi' with inv _ ?q => set (p1 := q) in Hi' |- * end.
  assert (forall j, is_Some (candidates s.1 !! j) -> is_Some (candidates p1 !! j)) as Hk.
  { intros j [c' Hj]. simpl. rewrite alter_twice.
    destruct (decide (k = j)) as [<-|]; [rewrite lookup_alter_eq, Hc|rewrite lookup_alter_ne, Hj by done]; by eexists. }
  destruct (in_flight_full s.1); simpl; [apply wpe_alter|apply wpe_ret]; simpl; split_and!; try done;
    try (rewrite length_app; simpl; lia).
  by eapply inv_ext; [..|exact Hi'].
Qed.

Lemma fill_kept s : ok s -> wpe fill_slots (fun _ s' => ok s' /\ moves s s') undefined s.
Proof.
  intros Hi. eapply wpe_weaken; [|eapply wpe_mono; [by apply fill_slots_spec|]]; [done|].
  by intros _ s' (? & ? & _).
Qed.

Lemma complete_kept s : ok s -> wpe complete_ready (fun _ s' => ok s' /\ moves s s') undefined s.
Proof.
  intros Hi. eapply wpe_weaken; [|eapply wpe_mono; [by apply complete_ready_spec|]]; [done|].
  intros _ s' (? & ? & _). split; [done|by apply calm_moves].
Qed.

Lemma poll_spec s : ok s -> wpe poll (fun _ s' => ok s' /\ moves s s') undefined s.
Proof.
  intros Hi. unfold poll. apply wpe_bind. eapply wpe_mono; [by apply complete_kept|].
  intros _ s1 [Hok Hm]. eapply wpe_mono; [by apply fill_kept|]. intros _ s2 [? ?]. split; [done|by etrans].
Qed.

Lemma consider_spec k record selections score s :
  ok s -> wpe (consider k record selections score) (fun _ s' => ok s' /\ moves s s') undefined s.
Proof.
  intros Hi. unfold consider. apply wpe_bind. eapply wpe_mono; [by apply complete_kept|].
  intros _ [p w] [Hok Hm]. destruct (selections =? 0); [by apply wpe_ret|].
  apply wpe_bind, wpe_current. cbn [fst snd].
  destruct (ensure_candidate_capacity k p) as [room p1] eqn:E.
  destruct (ensure_capacity_spec _ _ _ _ E) as (E1 & E2 & E3 & E4 & Hinv).
  destruct (Hinv _ Hok) as [Hi1 Hroom]. apply wpe_bind, wpe_alter. cbn [fst snd].
  assert (moves s (p1, w)) as Hm1.
  { etrans; [exact Hm|]. apply calm_moves. split; try done. simpl. by rewrite E4. }
  destruct room; simpl; [|apply wpe_ret; split; [unfold ok; simpl; by rewrite E4|done]].
  apply wpe_bind, wpe_alter, wpe_bind, wpe_alter. cbn [fst snd].
  set (p2 := emplace_candidate k _).
  assert (inv (pending p) p2) as Hi2.
  { apply inv_emplace; [simpl; rewrite E1; apply Hroom; done|]. by eapply inv_ext; [..|exact Hi1]. }
  assert (config p2 = config p1 /\ frozen p2 = frozen p1 /\ pending p2 = pending p1) as (C1 & C2 & C3).
  { unfold p2, emplace_candidate. by case_match. }
  assert (is_Some (candidates p2 !! k)) as Hsome.
  { unfold p2, emplace_candidate. destruct (candidates (tally _ p1) !! k) eqn:Ek; [by eexists|].
    simpl. rewrite lookup_insert_eq. by eexists. }
  apply wpe_bind, wpe_outcome; [|apply static_cast_undefined]. intros addition Ha%static_cast_u64_range.
  apply wpe_bind, wpe_alter. cbn [fst snd].
  match goal with |- context [on_candidate k ?f p2] => pose proof (tame_alter k f p2) as Ht; set (p3 := on_candidate k f p2) in * end.
  specialize (Ht (accrue_mild _ _ _ _ _ Ha)).
  assert (ok (p3, w)) as Hok3.
  { unfold ok. simpl. rewrite C3, E4. apply Ht, Hi2. }
  assert (moves s (p3, w)) as Hm3.
  { etrans; [exact Hm1|]. destruct Ht as [T1 T2 T3 T4 _]. split; simpl; rewrite ?C3; congruence || done. }
  apply wpe_bind. eapply wpe_mono; [apply queue_spec; [|done]|].
  - simpl. destruct Hsome as [c Hc]. rewrite lookup_alter_eq, Hc. by eexists.
  - intros _ s4 (Hok4 & Hm4 & _). eapply wpe_mono; [by apply fill_kept|].
    intros _ s5 [Hok5 Hm5]. split; [done|]. do 2 (etrans; [eassumption|]). done.
Qed.

Lemma enqueue_spec s :
  ok s -> wpe enqueue_profitable_candidates (fun _ s' =>
    ok s' /\ moves s s' /\ promotions s'.2 = promotions s.2 /\ pending s'.1 = pending s.1 /\
    (load s'.1 <= load s.1 + 2 * size (candidates s.1))%nat) undefined s.
Proof.
  intros Hi. unfold enqueue_profitable_candidates. apply wpe_bind, wpe_current.
  destruct (_ || _); [apply wpe_ret; split_and!; done || lia|].
  assert (length (candidate_keys s.1) = size (candidates s.1)) as <-.
  { unfold candidate_keys. by rewrite length_fmap, ordered_length. }
  assert (forall k, k ∈ candidate_keys s.1 -> is_Some (candidates s.1 !! k)) as Hk.
  { intros k ((k' & c) & -> & Hin)%list_elem_of_fmap. apply elem_of_ordered in Hin. by eexists. }
  revert Hk. generalize (candidate_keys s.1). intros ks. revert s Hi.
  induction ks as [|k ks IH]; intros s Hi Hk; simpl; [apply wpe_ret; split_and!; done || lia|].
  apply wpe_bind. eapply wpe_mono; [apply queue_spec; [apply Hk; by left|done]|].
  intros _ s1 (Hok & Hm & Hp & Hpe & He & Hk1). eapply wpe_mono; [apply IH; [done|]|].
  - intros j Hj. apply Hk1, Hk. by right.
  - intros _ s2 (? & ? & ? & ? & Hl). split_and!; [done|by etrans|congruence|congruence|].
    unfold load in *. rewrite Hpe in Hl. lia.
Qed.

(** ** Draining *)

Definition timed_out : Status := mkStatus cancelled "adaptive placement drain timed out".

(** How many more waits can give up before the deadline: the first but the last
    millisecond, and the clock ticks after that. *)
Definition ticks (deadline : Z) (w : W) : nat := Z.to_nat (Z.min (10 ^ 6) (Z.max 0 (deadline - clock w))).

Lemma ticks_later deadline w w' : later w w' -> (ticks deadline w' <= ticks deadline w)%nat.
Proof. intros H1%later_clock. unfold ticks. lia. Qed.

Lemma ticks_wait deadline w now h :
  now <= clock w -> now < deadline ->
  (wait_for h ((deadline - now) / 10 ^ 6) w).1 = false ->
  (ticks deadline (wait_for h ((deadline - now) / 10 ^ 6) w).2 < ticks deadline w)%nat \/
  deadline <= clock w.
Proof.
  intros Hn Hd [H1 H2]%wait_patient. unfold ticks.
  pose proof (Z.mod_pos_bound (deadline - now) (10 ^ 6) ltac:(lia)).
  pose proof (Z.div_mod (deadline - now) (10 ^ 6) ltac:(lia)). lia.
Qed.

Lemma drain_loop_spec deadline fuel m s :
  ok s ->
  (load s.1 <= m \/ load s.1 <= S m /\ exists item, item ∈ pending s.1 /\ settled (handle item) s.2)%nat ->
  (m + ticks deadline s.2 < fuel)%nat ->
  wpe (drain_loop fuel deadline) (fun r s' =>
    ok s' /\ moves s s' /\
    (r = success /\ pending s'.1 = [] /\ eligible s'.1 = [] \/ r = timed_out /\ deadline <= clock s'.2))
    never s.
Proof.
  revert m s. induction fuel as [|fuel IH]; intros m s Hi Hm Hf; [lia|]. simpl.
  apply wpe_bind. eapply wpe_mono; [by apply complete_ready_spec|].
  intros _ s1 (Hok1 & C1 & Hlen & Hset). assert (load s1.1 <= m)%nat as Hl1.
  { unfold load in *. rewrite (calm_eligible _ _ C1). destruct Hm as [Hm|[Hm Hs]]; [lia|].
    specialize (Hset Hs). lia. }
  apply wpe_bind. eapply wpe_mono; [by apply fill_slots_spec|].
  intros _ s2 (Hok2 & M2 & Hl2 & Hempty). apply wpe_bind, wpe_current.
  assert (moves s s2) as M12 by (etrans; [apply calm_moves, C1|done]).
  destruct (pending s2.1) as [|front rest] eqn:Hp.
  { rewrite bool_decide_true by auto. apply wpe_ret. split_and!; [done|done|]. left. auto. }
  apply wpe_bind, wpe_call. destruct s2 as [p w]. cbn [fst snd] in *.
  pose proof (now_later w) as Hnl. pose proof (now_clock w) as Hnc. pose proof (now_promotions w) as Hnp.
  destruct (steady_now w) as [now w1]. cbn [fst snd] in *.
  assert (moves s (p, w1)) as M13 by (etrans; [exact M12|]; apply calm_moves; by split).
  destruct (Z.leb_spec deadline now) as [Hd|Hd].
  { apply wpe_ret. split_and!; [done|done|]. right. simpl. split; [done|lia]. }
  apply wpe_bind, wpe_call. cbn [fst snd].
  pose proof (wait_later (handle front) ((deadline - now) / 10 ^ 6) w1) as Hwl.
  pose proof (wait_promotions (handle front) ((deadline - now) / 10 ^ 6) w1) as Hwp.
  assert (moves s (p, (wait_for (handle front) ((deadline - now) / 10 ^ 6) w1).2)) as M14
    by (etrans; [exact M13|]; apply calm_moves; by split).
  assert (ticks deadline w1 <= ticks deadline s.2)%nat as Ht by (apply ticks_later, M13).
  set (wt := wait_for _ _ _) in *. destruct wt.1 eqn:Ew.
  - assert (1 <= load p)%nat as Hpos by (unfold load; rewrite Hp; simpl; lia).
    eapply wpe_mono; [apply (IH (m - 1)%nat); [done| |]|].
    + right. split; [simpl; lia|]. exists front. simpl. rewrite Hp. split; [by left|].
      by apply wait_settled.
    + pose proof (ticks_later deadline _ _ Hwl) as Htk. fold wt in Htk. cbn [fst snd]. lia.
    + intros r s' (? & ? & ?). split_and!; [done|by etrans|done].
  - destruct (ticks_wait deadline w1 now (handle front)) as [Hlt|]; [lia|lia|done| |lia].
    eapply wpe_mono; [apply (IH m); [done|left; simpl; lia|]|].
    + fold wt in Hlt. cbn [fst snd]. lia.
    + intros r s' (? & ? & ?). split_and!; [done|by etrans|done].
Qed.

(** Enough rounds for a drain: the promotions in flight, queued or about to be queued, and
    the waits of less than a millisecond before the deadline. *)
Definition drain_rounds p : Z := Z.of_nat (load p) + 2 * Z.of_nat (size (candidates p)) + 10 ^ 6 + 1.

Lemma drain_spec fuel timeout s :
  ok s -> drain_rounds s.1 <= Z.of_nat fuel ->
  wpe (drain fuel timeout) (fun r s' =>
    ok s' /\ moves s s' /\
    (r = success /\ pending s'.1 = [] /\ eligible s'.1 = [] \/
     r = timed_out /\ clock s.2 + timeout * 10 ^ 6 <= clock s'.2)) undefined s.
Proof.
  intros Hi Hf. unfold drain. apply wpe_bind, wpe_call. destruct s as [p w]. cbn [fst snd] in *.
  pose proof (now_later w) as Hnl. pose proof (now_clock w) as Hnc. pose proof (now_promotions w) as Hnp.
  pose proof (later_clock _ _ Hnl) as Hcl.
  destruct (steady_now w) as [now w1]. cbn [fst snd] in *.
  apply wpe_bind. eapply wpe_mono; [by apply enqueue_spec|].
  intros _ s1 (Hok1 & M1 & _ & _ & Hload). simpl in Hload.
  eapply wpe_weaken; [|eapply wpe_mono; [eapply (drain_loop_spec _ _ (load s1.1)); [done|by left|]|]]; [done| |].
  - unfold ticks, drain_rounds in *. lia.
  - intros r s' (? & ? & Hr). split_and!; [done| |].
    + etrans; [|done]. etrans; [|done]. apply calm_moves. by split.
    + destruct Hr as [Hr|[? ?]]; [by left|right]. split; [done|lia].
Qed.

Lemma quiesce_spec fuel timeout s :
  ok s -> drain_rounds s.1 <= Z.of_nat fuel ->
  wpe (quiesce fuel timeout) (fun r s' => ok s' /\ config s'.1 = config s.1 /\
    (frozen s.1 = true -> moves s s') /\
    (r = success -> pending s'.1 = [] /\ eligible s'.1 = [] /\ frozen s'.1 = true)) undefined s.
Proof.
  intros Hi Hf. unfold quiesce. apply wpe_bind. eapply wpe_mono; [by apply drain_spec|].
  intros r s1 (Hok & Hm & Hr). apply wpe_bind. destruct (status_ok r) eqn:Er; simpl.
  - apply wpe_alter, wpe_ret. destruct Hr as [(-> & Hp & He)|[-> _]]; [|done]. cbn [fst snd].
    split_and!; [|apply Hm| |done].
    + destruct Hok. split; try done.
    + intros Hfr. destruct Hm as [? ? E ? ?]. by split.
  - apply wpe_ret, wpe_ret. split_and!; [done|apply Hm|done|by intros ->].
Qed.

(** ** Runs *)

(** What clients do with a controller, [resume] apart; meanwhile the world moves on. *)
Inductive placement_step s : State -> Prop :=
| step_observe ns n : placement_step s (observe ns n s.1, s.2)
| step_routes resident missing s' :
  observe_routes resident missing s = Ok (tt, s') -> placement_step s s'
| step_consider k record n score s' :
  consider k record n score s = Ok (tt, s') -> placement_step s s'
| step_poll s' : poll s = Ok (tt, s') -> placement_step s s'
| step_drain fuel timeout r s' :
  drain_rounds s.1 <= Z.of_nat fuel -> drain fuel timeout s = Ok (r, s') -> placement_step s s'
| step_quiesce fuel timeout r s' :
  drain_rounds s.1 <= Z.of_nat fuel -> quiesce fuel timeout s = Ok (r, s') -> placement_step s s'
| step_world w : later s.2 w -> promotions w = promotions s.2 -> placement_step s (s.1, w).

Inductive placement_reachable (cfg : AdaptivePlacementConfig) : State -> Prop :=
| reach_create p w : placement_create cfg = Ok p -> placement_reachable cfg (p, w)
| reach_step s s' : placement_reachable cfg s -> placement_step s s' -> placement_reachable cfg s'
| reach_resume s : placement_reachable cfg s -> placement_reachable cfg (resume s.1, s.2).

Lemma wpe_ok {A} (m : ST State A) Q E s a s' : m s = Ok (a, s') -> wpe m Q E s -> Q a s'.
Proof. unfold wpe. by intros ->. Qed.

Lemma observe_calm ns n p w : calm (p, w) (observe ns n p, w) /\ candidates (observe ns n p) = candidates p.
Proof. unfold observe. by destruct (_ || _). Qed.

Lemma step_keeps s s' :
  ok s -> placement_step s s' -> ok s' /\ config s'.1 = config s.1 /\ (frozen s.1 = true -> moves s s').
Proof.
  intros Hi [ns n|resident missing t E|k record n score t E|t E|fuel timeout r t Hf E|fuel timeout r t Hf E|w Hl Hp].
  - destruct s as [p w]. destruct (observe_calm ns n p w) as [C Ec]. simpl. split_and!.
    + unfold ok in *. simpl in *. assert (pending (observe ns n p) = pending p) as ->
        by (unfold observe; by destruct (_ || _)). destruct C. by eapply inv_ext; [..|exact Hi].
    + apply C.
    + intros _. by apply calm_moves.
  - destruct (wpe_ok _ _ _ _ _ _ E (observe_routes_spec _ _ _ Hi)) as [Hok C%calm_moves].
    split_and!; [done|apply C|done].
  - destruct (wpe_ok _ _ _ _ _ _ E (consider_spec _ _ _ _ _ Hi)) as [Hok C]. split_and!; [done|apply C|done].
  - destruct (wpe_ok _ _ _ _ _ _ E (poll_spec _ Hi)) as [Hok C]. split_and!; [done|apply C|done].
  - destruct (wpe_ok _ _ _ _ _ _ E (drain_spec _ _ _ Hi Hf)) as (Hok & C & _). split_and!; [done|apply C|done].
  - destruct (wpe_ok _ _ _ _ _ _ E (quiesce_spec _ _ _ Hi Hf)) as (Hok & C & Hfr & _). done.
  - split_and!; [done|done|]. intros _. by split.
Qed.

Lemma placement_reachable_ok cfg s :
  0 <= maximum_inflight_promotions cfg -> 0 <= maximum_candidates cfg ->
  placement_reachable cfg s -> ok s /\ config s.1 = cfg.
Proof.
  intros H1 H2 Hr. induction Hr as [p w Hc|s s' _ [IH IHc] Hs|s _ [IH IHc]].
  - unfold placement_create in Hc. destruct (valid_placement_config cfg) eqn:Hv; [|done].
    injection Hc as <-. split; [|done]. unfold valid_placement_config in Hv.
    apply andb_true_iff in Hv as [[[Hv _]%andb_true_iff _]%andb_true_iff _].
    apply andb_true_iff in Hv as [_ Hv%negb_true_iff%Z.eqb_neq].
    split; simpl; try done.
    + constructor.
    + lia.
    + by intros k ?%elem_of_nil.
  - destruct (step_keeps _ _ IH Hs) as (? & ? & _). split; [done|congruence].
  - split; [|done]. destruct IH. by split.
Qed.


(** A drain ends: within a bounded number of rounds it reports success with nothing
    queued and nothing in flight, or it gives up, and then not before its deadline. It
    never spins on a queue that cannot move. *)
Theorem drain_ends cfg s fuel timeout :
  0 <= maximum_inflight_promotions cfg -> 0 <= maximum_candidates cfg ->
  placement_reachable cfg s -> drain_rounds s.1 <= Z.of_nat fuel ->
  match drain fuel timeout s with
  | Ok (r, s') =>
    r = success /\ pending s'.1 = [] /\ eligible s'.1 = [] \/
    r = timed_out /\ clock s.2 + timeout * 10 ^ 6 <= clock s'.2
  | Throw e => undefined e
  end.
Proof.
  intros H1 H2 Hr Hf. destruct (placement_reachable_ok cfg s H1 H2 Hr) as [Hi _].
  pose proof (drain_spec fuel timeout s Hi Hf) as Hs. unfold wpe in Hs.
  destruct (drain fuel timeout s) as [[r s']|]; [apply Hs|done].
Qed.

(** Once a controller was quiesced, whatever feedback it is given and however often it
    is polled or drained, it has nothing in flight and promotes no expert, until it is
    resumed: the placement of a decoding epoch does not move. *)
Theorem quiesced_until_resumed cfg s fuel timeout s1 s2 :
  0 <= maximum_inflight_promotions cfg -> 0 <= maximum_candidates cfg ->
  placement_reachable cfg s -> drain_rounds s.1 <= Z.of_nat fuel ->
  quiesce fuel timeout s = Ok (success, s1) -> rtc placement_step s1 s2 ->
  pending s2.1 = [] /\ eligible s2.1 = [] /\ promotions s2.2 = promotions s1.2.
Proof.
  intros H1 H2 Hr Hf Hq Hrun. destruct (placement_reachable_ok cfg s H1 H2 Hr) as [Hi _].
  destruct (wpe_ok _ _ _ _ _ _ Hq (quiesce_spec _ _ _ Hi Hf)) as (Hok & _ & _ & Hs).
  destruct (Hs eq_refl) as (Hp & He & Hfr). clear Hs Hq.
  assert (ok s2 /\ moves s1 s2) as [Hok2 [_ _ Hfr2 Hpr Hlen]].
  { induction Hrun as [s1|s1 s1' s2 Hstep _ IH]; [done|].
    destruct (step_keeps _ _ Hok Hstep) as (Hok' & _ & Hm). specialize (Hm Hfr).
    assert (frozen s1'.1 = true) as Hfr' by (destruct Hm; congruence).
    destruct IH as [? ?]; [done| | |done|].
    - pose proof (m_pending _ _ Hm Hfr) as Hl. rewrite Hp in Hl. by apply nil_length_inv; destruct (pending s1'.1); [|simpl in Hl; lia].
    - by apply (i_frozen _ _ Hok').
    - split; [done|by etrans]. }
  split_and!; [|apply (i_frozen _ _ Hok2); congruence|by apply Hpr].
  specialize (Hlen Hfr). rewrite Hp in Hlen. destruct (pending s2.1); [done|simpl in Hlen; lia].
Qed.
End Operations.

(** ** An instance of the interface, and runs *)

(** A cache whose promotions take five milliseconds and always succeed; a handle is the
    time its result is there, and asking for one that is not takes ten microseconds. *)
Record DemoWorld := mkDemoWorld { demo_clock : Z; demo_made : list ExpertKey }.

#[export] Instance demo_cache : PlacementCache DemoWorld Z := {
  admission_would_improve _ _ w := (true, w);
  cache_acquire k _ w := (demo_clock w + 5 * 10 ^ 6, mkDemoWorld (demo_clock w) (demo_made w ++ [k]));
  wait_for h t w :=
    let late := demo_clock w + Z.max 0 (t * 10 ^ 6) in
    if h <=? demo_clock w then (true, w)
    else if h <=? late then (true, mkDemoWorld h (demo_made w))
    else (false, mkDemoWorld (late + 10000) (demo_made w));
  take_lease _ w := (true, w);
  cancel_handle _ w := (tt, w);
  steady_now w := (demo_clock w, w) }.

#[export] Instance demo_cache_spec : PlacementCacheSpec DemoWorld Z.
Proof.
  refine {| later w w' := demo_clock w <= demo_clock w'; settled h w := h <= demo_clock w;
            clock := demo_clock; promotions := demo_made |};
    try (intros; simpl in *; repeat case_match; simpl in *; done || lia).
  - split; [intros x; lia|intros x y z; lia].
Defined.

Definition demo_key : ExpertKey := mkExpertKey 1 2 3 0.
Definition demo_state : Placement Z * DemoWorld :=
  (mkPlacement default_placement_config (initial_cpu_ns default_placement_config) 0 ∅ [] [] zero_metrics false,
   mkDemoWorld 0 []).

Definition demo_after {A} (m : M (W := DemoWorld) (Handle := Z) A) s : Placement Z * DemoWorld :=
  match m s with Ok (_, s') => s' | Throw _ => s end.

(** Two misses of ten selections each are worth a promotion. *)
Definition demo_miss : M (W := DemoWorld) (Handle := Z) unit := consider demo_key default_record 10 fone.
Definition demo_promoting : Placement Z * DemoWorld := demo_after demo_miss (demo_after demo_miss demo_state).
Definition demo_quiesced : Placement Z * DemoWorld := demo_after (quiesce (Z.to_nat 2000000) 100) demo_promoting.
Definition demo_later : Placement Z * DemoWorld := demo_after demo_miss (demo_after demo_miss demo_quiesced).

Lemma demo_placement_created : placement_create default_placement_config = Ok demo_state.1.
Proof. vm_compute. reflexivity. Qed.

Lemma demo_promoting_reachable : placement_reachable default_placement_config demo_promoting.
Proof.
  eapply (reach_step _ (demo_after demo_miss demo_state)).
  - eapply (reach_step _ demo_state).
    + apply (reach_create _ demo_state.1 demo_state.2), demo_placement_created.
    + apply (step_consider _ demo_key default_record 10 fone). vm_compute. reflexivity.
  - apply (step_consider _ demo_key default_record 10 fone). vm_compute. reflexivity.
Qed.

Lemma demo_rounds : drain_rounds demo_promoting.1 <= Z.of_nat (Z.to_nat 2000000).
Proof. rewrite Z2Nat.id by lia. vm_compute. discriminate. Qed.

Lemma demo_quiesces : quiesce (Z.to_nat 2000000) 100 demo_promoting = Ok (success, demo_quiesced).
Proof. vm_compute. reflexivity. Qed.


Definition demo_late : Placement Z * DemoWorld := demo_after (drain (Z.to_nat 2000000) 1) demo_promoting.

Lemma demo_times_out : drain (Z.to_nat 2000000) 1 demo_promoting = Ok (timed_out, demo_late).
Proof. vm_compute. reflexivity. Qed.

Lemma drain_ends_witness :
  timed_out = success /\ pending demo_late.1 = [] /\ eligible demo_late.1 = [] \/
  timed_out = timed_out /\ clock demo_promoting.2 + 1 * 10 ^ 6 <= clock demo_late.2.
Proof.
  pose proof (drain_ends default_placement_config demo_promoting (Z.to_nat 2000000) 1) as H.
  rewrite demo_times_out in H. apply H; [vm_compute; discriminate|vm_compute; discriminate|
    exact demo_promoting_reachable|exact demo_rounds].
Defined.

Lemma quiesced_until_resumed_witness :
  pending demo_later.1 = [] /\ promotions demo_later.2 = [demo_key].
Proof.
  destruct (quiesced_until_resumed default_placement_config demo_promoting (Z.to_nat 2000000) 100
    demo_quiesced demo_later) as (H1 & _ & H2);
    [vm_compute; discriminate|vm_compute; discriminate|exact demo_promoting_reachable|exact demo_rounds
    |exact demo_quiesces| |split; [exact H1|rewrite H2; vm_compute; reflexivity]].
  eapply (rtc_l _ _ (demo_after demo_miss demo_quiesced)); [|apply rtc_once];
    apply (step_consider _ demo_key default_record 10 fone); vm_compute; reflexivity.
Defined.
