(* ===== verification/WorkerContract.v ===== *)
(** Model of [worker_contract.cpp]: the launch options of a worker, parsed from canonical
    [--name=value] arguments. *)

From S2P Require Import Prelude.
From S2P Require Import Storage.
From S2P Require Import Text.

Definition INT_MAX : Z := 2 ^ 31 - 1.

(** The raw options: [std::map<std::string, std::optional<std::string>>]. *)
Notation Raw := (gmap (list Z) (option (list Z))).

Record WorkerLaunchOptions := mkWorkerOptions {
  max_context : Z;
  ram_cache_gib : Z;
  vram_cache_gib : Z;
  routed_vram_policy : list Z;
  capacity : Z;
  kv_cache_mib : Z;
  kv_page_tokens : Z;
  kv_cache_dtype : list Z;
  placement_profile : list Z;
  prefill_chunk_limit : option Z;
  placement_settle_steps : option Z;
  profile_gpu_phases : bool;
  discover_active_expert_devices : bool;
  active_expert_devices : list Z;
  active_expert_device_cache_gib : Z;
  active_expert_host_cache_gib : Z;
  extensions : Raw }.

(** [WorkerLaunchOptions{}]. *)
Definition default_worker_options : WorkerLaunchOptions :=
  mkWorkerOptions 0 0 0 (bytes "fixed") 0 0 0 (bytes "artifact") [] None None false false [] 0 0 ∅.

Definition unsigned_integer (t : list Z) : outcome Z :=
  match from_chars_u64 t with
  | Some (value, []) => Ok value
  | _ => Throw (invalid_argument "worker option is not canonical unsigned decimal")
  end.

Definition parse_u32 (t : list Z) (allow_zero : bool) : outcome Z :=
  let! value := unsigned_integer t in
  if (negb allow_zero && (value =? 0)) || (U32_MAX <? value)
  then Throw (invalid_argument "worker option is outside uint32 range")
  else Ok value.

Definition required_value (raw : Raw) (name : string) : outcome (list Z) :=
  match raw !! bytes name with
  | Some (Some (c :: t)) => Ok (c :: t)
  | _ => Throw (invalid_argument ("required worker option is absent: --" +:+ name))
  end.

(** The loop over the parts of a device list, from position [first]. *)
Fixpoint device_loop (fuel : nat) (t : list Z) : outcome (list Z) :=
  match fuel with
  | O => Throw out_of_fuel
  | S fuel =>
    match t with
    | [] => Ok []
    | _ =>
      let '(part, rest) := span (fun c => negb (c =? 44)) t in
      let! value := unsigned_integer part in
      if INT_MAX <? value then Throw (invalid_argument "active expert device is outside int range")
      else
        match rest with
        | [] => Ok [value]
        | _ :: rest => let! values := device_loop fuel rest in Ok (value :: values)
        end
    end
  end.

(** Integers sort in one way only, whatever the algorithm. *)
Definition device_list (t : list Z) : outcome (list Z) :=
  let! result := device_loop (S (length t)) t in
  if bool_decide (result = []) then Throw (invalid_argument "active expert device list is empty")
  else
    let result := stable_sort Z.ltb result in
    if has_adjacent result then Throw (invalid_argument "active expert device is duplicated")
    else Ok result.

Definition valid_name (c : Z) : bool := ((97 <=? c) && (c <=? 122)) || is_digit c || (c =? 45).

(** One argument: its name, and its value if there is a separator. *)
Definition parse_argument (argument : list Z) : outcome (list Z * option (list Z)) :=
  match argument with
  | 45 :: 45 :: ((_ :: _) as body) =>
    let '(name, rest) := span (fun c => negb (c =? 61)) body in
    if bool_decide (name = []) then Throw (invalid_argument "worker option name is empty")
    else if bool_decide (head name = Some 45) || bool_decide (last name = Some 45) || negb (forallb valid_name name)
    then Throw (invalid_argument "worker option name is not canonical")
    else
      match rest with
      | [] => Ok (name, None)
      | _ :: [] => Throw (invalid_argument "worker option value is empty")
      | _ :: value => Ok (name, Some value)
      end
  | _ => Throw (invalid_argument "worker launch contains a positional option")
  end.

Fixpoint parse_arguments (raw : Raw) (arguments : list (list Z)) : outcome Raw :=
  match arguments with
  | [] => Ok raw
  | argument :: arguments =>
    let! nv := parse_argument argument in
    match raw !! nv.1 with
    | Some _ => Throw (invalid_argument "worker option is duplicated")
    | None => parse_arguments (<[nv.1 := nv.2]> raw) arguments
    end
  end.

Definition common_names : list (list Z) := map bytes
  ["max-context"; "ram-cache-gib"; "vram-cache-gib"; "routed-vram-policy"; "capacity"; "kv-cache-mib";
   "kv-page-tokens"; "kv-cache-dtype"; "placement-profile"; "prefill-chunk-limit";
   "placement-settle-steps"; "profile-gpu-phases"; "active-expert-devices";
   "active-expert-device-cache-gib"; "active-expert-host-cache-gib"].

(** [if (raw.find(name) != raw.end()) f(); else keep the default]. *)
Definition if_present {A : Type} (raw : Raw) (name : string) (default : A) (f : option (list Z) -> outcome A)
  : outcome A :=
  match raw !! bytes name with Some value => f value | None => Ok default end.

Definition valid_policy (t : list Z) : bool := bool_decide (t = bytes "fixed") || bool_decide (t = bytes "fit").
Definition valid_profile (t : list Z) : bool :=
  bool_decide (t = bytes "latency") || bool_decide (t = bytes "balanced") || bool_decide (t = bytes "capacity").

Definition extensions_of (raw : Raw) : Raw := filter (fun nv => nv.1 ∉ common_names) raw.

(** The body of the parser after its loop over the arguments. *)
Definition interpret_options (raw : Raw) : outcome WorkerLaunchOptions :=
  let! t := required_value raw "max-context" in
  let! max_context := parse_u32 t false in
  let! t := required_value raw "ram-cache-gib" in
  let! ram_cache_gib := unsigned_integer t in
  let! t := required_value raw "vram-cache-gib" in
  let! vram_cache_gib := unsigned_integer t in
  let! policy := if_present raw "routed-vram-policy" (bytes "fixed")
                   (fun _ => required_value raw "routed-vram-policy") in
  let! t := required_value raw "capacity" in
  let! capacity := parse_u32 t false in
  let! t := required_value raw "kv-cache-mib" in
  let! kv_cache_mib := unsigned_integer t in
  let! t := required_value raw "kv-page-tokens" in
  let! kv_page_tokens := parse_u32 t false in
  let! dtype := if_present raw "kv-cache-dtype" (bytes "artifact")
                  (fun _ => required_value raw "kv-cache-dtype") in
  let! profile := required_value raw "placement-profile" in
  if (ram_cache_gib =? 0) || (vram_cache_gib =? 0) || (kv_cache_mib =? 0) ||
     negb (valid_policy policy) || negb (valid_profile profile)
  then Throw (invalid_argument "worker resource contract is invalid")
  else
    let! prefill := if_present raw "prefill-chunk-limit" None (fun _ =>
      let! t := required_value raw "prefill-chunk-limit" in
      let! n := parse_u32 t false in Ok (Some n)) in
    let! settle := if_present raw "placement-settle-steps" None (fun _ =>
      let! t := required_value raw "placement-settle-steps" in
      let! n := parse_u32 t true in Ok (Some n)) in
    let! phases := if_present raw "profile-gpu-phases" false (fun value =>
      match value with
      | Some _ => Throw (invalid_argument "boolean worker option profile-gpu-phases has a value")
      | None => Ok true
      end) in
    let! active := if_present raw "active-expert-devices" (false, []) (fun _ =>
      let! devices := required_value raw "active-expert-devices" in
      if bool_decide (devices = bytes "auto") then Ok (true, [])
      else let! l := device_list devices in Ok (false, l)) in
    let '(discover, devices) := active in
    let! device_cache := if_present raw "active-expert-device-cache-gib" 0 (fun _ =>
      let! t := required_value raw "active-expert-device-cache-gib" in unsigned_integer t) in
    let! host_cache := if_present raw "active-expert-host-cache-gib" 0 (fun _ =>
      let! t := required_value raw "active-expert-host-cache-gib" in unsigned_integer t) in
    let active_expert_tier_configured := discover || negb (bool_decide (devices = [])) in
    if negb (eqb active_expert_tier_configured (negb (device_cache =? 0))) ||
       negb (eqb active_expert_tier_configured (negb (host_cache =? 0)))
    then Throw (invalid_argument
                  "active expert devices and cache budgets must be configured together")
    else
      Ok (mkWorkerOptions max_context ram_cache_gib vram_cache_gib policy capacity kv_cache_mib
            kv_page_tokens dtype profile prefill settle phases discover devices device_cache host_cache
            (extensions_of raw)).

Definition parse_worker_launch_options (arguments : list (list Z)) : Status * WorkerLaunchOptions :=
  match (let! raw := parse_arguments ∅ arguments in interpret_options raw) with
  | Ok options => (success, options)
  | Throw (invalid_argument what) =>
    (mkStatus invalid_arg ("invalid worker launch contract: " +:+ what), default_worker_options)
  | Throw _ => (mkStatus invalid_arg "invalid worker launch contract: ", default_worker_options)
  end.

(** The launch of an ordinary worker. *)
Example demo_launch :
  parse_worker_launch_options (map bytes
    ["--max-context=4096"; "--ram-cache-gib=64"; "--vram-cache-gib=24"; "--capacity=8";
     "--kv-cache-mib=512"; "--kv-page-tokens=16"; "--placement-profile=latency";
     "--active-expert-devices=2,0"; "--active-expert-device-cache-gib=8";
     "--active-expert-host-cache-gib=016"; "--vendor-flag"]) =
  (success, mkWorkerOptions 4096 64 24 (bytes "fixed") 8 512 16 (bytes "artifact") (bytes "latency")
     None None false false [0; 2] 8 16 {[bytes "vendor-flag" := None]}).
Proof. vm_compute. reflexivity. Qed.
