(* ===== verification/WorkerContractTheorems.v ===== *)
(** What the launch contract promises: options survive being printed as arguments and read
    again, whatever is accepted is within its bounds, nothing is dropped, and the order of
    the arguments does not matter. *)

From S2P Require Import Prelude.
From S2P Require Import Storage.
From S2P Require Import Text.
From S2P Require Import WorkerContract.

(** ** Well-formed options *)

Definition positive_u32 (z : Z) : Prop := 1 <= z <= U32_MAX.
Definition positive_u64 (z : Z) : Prop := 1 <= z <= U64_MAX.

Definition canonical_name (n : list Z) : Prop :=
  n <> [] /\ head n <> Some 45 /\ last n <> Some 45 /\ forallb valid_name n = true.

Record wf_options (o : WorkerLaunchOptions) : Prop := mkWfOptions {
  wf_context : positive_u32 (max_context o);
  wf_ram : positive_u64 (ram_cache_gib o);
  wf_vram : positive_u64 (vram_cache_gib o);
  wf_policy : valid_policy (routed_vram_policy o) = true;
  wf_capacity : positive_u32 (capacity o);
  wf_kv : positive_u64 (kv_cache_mib o);
  wf_page : positive_u32 (kv_page_tokens o);
  wf_dtype : kv_cache_dtype o <> [];
  wf_profile : valid_profile (placement_profile o) = true;
  wf_prefill n : prefill_chunk_limit o = Some n -> positive_u32 n;
  wf_settle n : placement_settle_steps o = Some n -> u32 n;
  wf_devices : StronglySorted Z.lt (active_expert_devices o) /\
    Forall (fun d => 0 <= d <= INT_MAX) (active_expert_devices o);
  wf_discover : discover_active_expert_devices o = true -> active_expert_devices o = [];
  wf_device_cache : u64 (active_expert_device_cache_gib o) /\
    (active_expert_device_cache_gib o <> 0 <->
     discover_active_expert_devices o = true \/ active_expert_devices o <> []);
  wf_host_cache : u64 (active_expert_host_cache_gib o) /\
    (active_expert_host_cache_gib o <> 0 <->
     discover_active_expert_devices o = true \/ active_expert_devices o <> []);
  wf_extensions n v : extensions o !! n = Some v ->
    n ∉ common_names /\ canonical_name n /\ v <> Some [] }.

(** ** Printing *)

Definition print_argument (nv : list Z * option (list Z)) : list Z :=
  45 :: 45 :: nv.1 ++ match nv.2 with None => [] | Some t => 61 :: t end.

Fixpoint join_devices (l : list Z) : list Z :=
  match l with
  | [] => []
  | [d] => to_string d
  | d :: l => to_string d ++ 44 :: join_devices l
  end.

(** The entry of each common option; [None] where it is left out. *)
Definition value (t : list Z) : option (option (list Z)) := Some (Some t).
Definition budget (n : Z) : option (option (list Z)) := if n =? 0 then None else value (to_string n).

Definition common_entries (o : WorkerLaunchOptions) : list (list Z * option (option (list Z))) :=
  combine common_names
    [value (to_string (max_context o)); value (to_string (ram_cache_gib o));
     value (to_string (vram_cache_gib o)); value (routed_vram_policy o); value (to_string (capacity o));
     value (to_string (kv_cache_mib o)); value (to_string (kv_page_tokens o)); value (kv_cache_dtype o);
     value (placement_profile o); option_map (fun n => Some (to_string n)) (prefill_chunk_limit o);
     option_map (fun n => Some (to_string n)) (placement_settle_steps o);
     (if profile_gpu_phases o then Some None else None);
     (if discover_active_expert_devices o then value (bytes "auto")
      else if bool_decide (active_expert_devices o = []) then None
      else value (join_devices (active_expert_devices o)));
     budget (active_expert_device_cache_gib o); budget (active_expert_host_cache_gib o)].

Definition present {A} (l : list (list Z * option A)) : list (list Z * A) :=
  omap (fun nv => pair nv.1 <$> nv.2) l.

Definition raw_of (o : WorkerLaunchOptions) : Raw := list_to_map (present (common_entries o)) ∪ extensions o.

Definition print_worker_options (o : WorkerLaunchOptions) : list (list Z) :=
  map print_argument (map_to_list (raw_of o)).

(** ** Numbers and lists of them *)

Lemma unsigned_integer_to_string z : u64 z -> unsigned_integer (to_string z) = Ok z.
Proof.
  intros Hz. unfold unsigned_integer. rewrite <- (app_nil_r (to_string z)).
  by rewrite from_chars_to_string.
Qed.

Lemma parse_u32_to_string z b : u32 z -> (b = true \/ z <> 0) -> parse_u32 (to_string z) b = Ok z.
Proof.
  intros Hz Hb. unfold parse_u32. rewrite unsigned_integer_to_string by (unfold u32, u64, U32_MAX, U64_MAX in *; lia).
  simpl. unfold u32 in Hz. destruct (_ || _) eqn:E; [|done].
  apply orb_true_iff in E as [[E1 E2%Z.eqb_eq]%andb_true_iff|E%Z.ltb_lt]; [|lia].
  apply negb_true_iff in E1. destruct Hb; congruence.
Qed.

Lemma unsigned_integer_range t z : unsigned_integer t = Ok z -> u64 z.
Proof.
  unfold unsigned_integer. repeat case_match; try done. intros [= <-]. by eapply from_chars_u64_range.
Qed.

Lemma parse_u32_range t b z : parse_u32 t b = Ok z -> u32 z /\ (b = false -> z <> 0).
Proof.
  unfold parse_u32. destruct (unsigned_integer t) as [v|] eqn:E; [|done]. simpl.
  apply unsigned_integer_range in E. destruct (_ || _) eqn:E2; [done|]. intros [= <-].
  apply orb_false_iff in E2 as [E2 E3%Z.ltb_ge]. unfold u32, u64 in *. split; [lia|]. intros ->.
  simpl in E2. by apply Z.eqb_neq.
Qed.

Definition device (d : Z) : Prop := 0 <= d <= INT_MAX.

Lemma device_u64 d : device d -> u64 d.
Proof. unfold device, u64, INT_MAX, U64_MAX. lia. Qed.

Lemma to_string_no_comma d : u64 d -> Forall (fun c => negb (c =? 44) = true) (to_string d).
Proof.
  intros Hd. destruct (to_string_spec d) as [Hs _]; [done|]. eapply Forall_impl; [exact Hs|].
  simpl. intros c Hc%is_digit_iff. apply negb_true_iff, Z.eqb_neq. lia.
Qed.

Lemma device_loop_join l fuel :
  Forall device l -> (length l < fuel)%nat -> device_loop fuel (join_devices l) = Ok l.
Proof.
  intros Hl. revert fuel. induction Hl as [|d l Hd Hl IH]; intros fuel Hf; (destruct fuel as [|fuel]; [simpl in Hf; lia|]);
    [done|].
  pose proof (to_string_nonempty d (device_u64 d Hd)) as Hne.
  pose proof (to_string_no_comma d (device_u64 d Hd)) as Hc.
  assert (forall k, stops (fun c => negb (c =? 44)) k ->
    device_loop (S fuel) (to_string d ++ k) =
    match k with [] => Ok [d] | _ :: rest => let! values := device_loop fuel rest in Ok (d :: values) end) as Hstep.
  { intros k Hk. simpl. destruct (to_string d ++ k) eqn:E; [apply app_eq_nil in E as [? _]; done|].
    rewrite <- E, (span_exact _ _ _ Hc Hk), unsigned_integer_to_string by (by apply device_u64). simpl.
    unfold device in Hd. rewrite (proj2 (Z.ltb_ge _ _)) by lia. done. }
  destruct l as [|d' l].
  - simpl join_devices. rewrite <- (app_nil_r (to_string d)). by rewrite Hstep.
  - change (join_devices (d :: d' :: l)) with (to_string d ++ 44 :: join_devices (d' :: l)).
    rewrite Hstep by done. rewrite IH by (simpl in *; lia). done.
Qed.

Lemma join_length l : Forall device l -> (length l <= length (join_devices l))%nat.
Proof.
  induction 1 as [|d l Hd _ IH]; [done|]. pose proof (to_string_nonempty d (device_u64 d Hd)) as Hne.
  assert (1 <= length (to_string d))%nat by (destruct (to_string d); [done|simpl; lia]).
  destruct l as [|d' l]; [simpl; lia|].
  change (join_devices (d :: d' :: l)) with (to_string d ++ 44 :: join_devices (d' :: l)).
  rewrite length_app. simpl in *. lia.
Qed.

Lemma device_list_join l :
  l <> [] -> StronglySorted Z.lt l -> Forall device l -> device_list (join_devices l) = Ok l.
Proof.
  intros Hne Hs Hd. unfold device_list. rewrite device_loop_join; [|done|].
  - simpl. rewrite bool_decide_false by done. by rewrite sort_sorted, sorted_lt_no_adjacent.
  - pose proof (join_length l Hd). lia.
Qed.

Lemma device_loop_range fuel t l : device_loop fuel t = Ok l -> Forall device l.
Proof.
  revert t l. induction fuel as [|fuel IH]; intros t l; [done|]. simpl.
  destruct t as [|c t]; [intros [= <-]; constructor|]. destruct (span _ (c :: t)) as [part rest].
  destruct (unsigned_integer part) as [v|] eqn:E; [|done]. simpl. apply unsigned_integer_range in E.
  destruct (INT_MAX <? v) eqn:Hv; [done|]. apply Z.ltb_ge in Hv.
  assert (device v) by (unfold device, u64 in *; lia).
  destruct rest as [|c' rest]; [intros [= <-]; by apply Forall_singleton|].
  destruct (device_loop fuel rest) as [vs|] eqn:E2; [|done]. simpl. intros [= <-].
  constructor; [done|by eapply IH].
Qed.

Lemma device_loop_fuel fuel t : (length t < fuel)%nat -> device_loop fuel t <> Throw out_of_fuel.
Proof.
  revert t. induction fuel as [|fuel IH]; intros t Hf; [lia|]. simpl.
  destruct t as [|c t]; [done|]. destruct (span _ (c :: t)) as [part rest] eqn:Esp.
  unfold unsigned_integer. repeat (case_match; simpl; try done).
  pose proof (span_app (fun c => negb (c =? 44)) (c :: t)) as Ha. rewrite Esp in Ha. simpl in Ha.
  apply (f_equal length) in Ha. rewrite length_app in Ha. subst. simpl in *.
  match goal with |- context [device_loop fuel ?r] => specialize (IH r ltac:(lia)); destruct (device_loop fuel r) end;
    simpl; congruence.
Qed.

Lemma device_list_range t l : device_list t = Ok l -> l <> [] /\ StronglySorted Z.lt l /\ Forall device l.
Proof.
  unfold device_list. destruct (device_loop _ t) as [r|] eqn:E; [|done]. simpl.
  case_bool_decide as Hr; [done|]. destruct (has_adjacent _) eqn:Ha; [done|]. intros [= <-].
  pose proof (stable_sort_perm Z.ltb r) as Hp. split_and!.
  - intros E2. rewrite E2 in Hp. by apply Permutation_nil_l in Hp.
  - apply has_adjacent_sorted; [apply (stable_sort_sorted Z.ltb)|done].
  - rewrite Hp. by eapply device_loop_range.
Qed.

(** ** Arguments *)

Lemma valid_name_not_equals n : forallb valid_name n = true -> Forall (fun c => negb (c =? 61) = true) n.
Proof.
  intros Hn. apply Forall_forall. intros c Hc. apply list_elem_of_In in Hc.
  pose proof (proj1 (forallb_forall _ _) Hn c Hc) as Hv. unfold valid_name, is_digit in Hv. lia.
Qed.

Lemma parse_print_argument n v :
  canonical_name n -> v <> Some [] -> parse_argument (print_argument (n, v)) = Ok (n, v).
Proof.
  intros (H1 & H2 & H3 & H4) Hv. unfold print_argument. cbn [fst snd].
  pose proof (valid_name_not_equals n H4) as Hn.
  set (tail := match v with None => [] | Some t => 61 :: t end).
  assert (stops (fun c => negb (c =? 61)) tail) as Hs by (unfold tail; by destruct v).
  unfold parse_argument. destruct (n ++ tail) as [|c body] eqn:E.
  { by apply app_eq_nil in E as [? _]. }
  rewrite <- E, (span_exact _ _ _ Hn Hs), !bool_decide_false, H4 by done. simpl.
  unfold tail. destruct v as [[|c' t]|]; done.
Qed.

Lemma parse_argument_canonical argument n v :
  parse_argument argument = Ok (n, v) -> canonical_name n /\ v <> Some [].
Proof.
  unfold parse_argument. repeat (case_match; try done). all: intros [= <- <-].
  all: repeat match goal with H : _ || _ = false |- _ => apply orb_false_iff in H as [? ?]
       | H : negb _ = false |- _ => apply negb_false_iff in H | H : bool_decide _ = false |- _ => apply bool_decide_eq_false in H end.
  all: done.
Qed.

(** A run of the loop: the arguments parse to pairs of distinct names. *)
Lemma parse_arguments_spec args raw raw' :
  parse_arguments raw args = Ok raw' <->
  exists nvs, Forall2 (fun a nv => parse_argument a = Ok nv) args nvs /\ NoDup nvs.*1 /\
    (forall n, n ∈ nvs.*1 -> raw !! n = None) /\ raw' = list_to_map nvs ∪ raw.
Proof.
  revert raw. induction args as [|a args IH]; intros raw; simpl.
  { split.
    - intros [= <-]. exists []. split_and!; [constructor|constructor|by intros ? ?%elem_of_nil|].
      simpl. by rewrite (left_id_L ∅ (∪)).
    - intros (nvs & Hf & _ & _ & ->). apply Forall2_nil_inv_l in Hf as ->. simpl. by rewrite (left_id_L ∅ (∪)). }
  split.
  - destruct (parse_argument a) as [[n v]|] eqn:E; [|done]. simpl. destruct (raw !! n) eqn:En; [done|].
    intros (nvs & Hf & Hnd & Hr & ->)%IH. exists ((n, v) :: nvs). rewrite fmap_cons. simpl.
    assert (n ∉ nvs.*1) as Hn.
    { intros Hin. specialize (Hr n Hin). by rewrite lookup_insert_eq in Hr. }
    split_and!; [by constructor|by constructor| |].
    + intros m [->|Hm]%elem_of_cons; [done|]. specialize (Hr m Hm). by apply lookup_insert_None in Hr as [? _].
    + rewrite <- insert_union_l, insert_union_r; [done|]. by apply not_elem_of_list_to_map_1.
  - intros (nvs & Hf & Hnd & Hr & ->). apply Forall2_cons_inv_l in Hf as ([n v] & nvs' & E & Hf & ->).
    rewrite fmap_cons in Hnd, Hr. simpl in *. apply NoDup_cons in Hnd as [Hn Hnd].
    rewrite E. simpl. rewrite (Hr n) by (by left). apply IH. exists nvs'. split_and!; [done|done| |].
    + intros m Hm. apply lookup_insert_None. split; [apply Hr; by right|by intros ->].
    + rewrite <- insert_union_l, insert_union_r; [done|]. by apply not_elem_of_list_to_map_1.
Qed.

Lemma parse_arguments_empty args raw :
  parse_arguments ∅ args = Ok raw <->
  exists nvs, Forall2 (fun a nv => parse_argument a = Ok nv) args nvs /\ NoDup nvs.*1 /\ raw = list_to_map nvs.
Proof.
  rewrite parse_arguments_spec. split.
  - intros (nvs & ? & ? & _ & ->). exists nvs. split_and!; [done|done|]. by rewrite (right_id_L ∅ (∪)).
  - intros (nvs & ? & ? & ->). exists nvs. split_and!; [done|done|done|]. by rewrite (right_id_L ∅ (∪)).
Qed.

Lemma parse_printed (raw : Raw) :
  (forall n v, raw !! n = Some v -> canonical_name n /\ v <> Some []) ->
  parse_arguments ∅ (map print_argument (map_to_list raw)) = Ok raw.
Proof.
  intros Hraw. apply parse_arguments_empty. exists (map_to_list raw). split_and!.
  - rewrite Forall2_fmap_l. apply Forall2_same_length_lookup_2; [done|].
    intros i [n v] [n' v'] E1 E2. simpl. assert ((n, v) = (n', v')) as [= <- <-] by congruence.
    apply list_elem_of_lookup_2, elem_of_map_to_list, Hraw in E1 as [? ?]. by apply parse_print_argument.
  - apply NoDup_fst_map_to_list.
  - by rewrite list_to_map_to_list.
Qed.

(** ** The printed options *)

Lemma common_names_NoDup : NoDup common_names.
Proof. apply (bool_decide_unpack _). vm_compute. exact I. Qed.

Lemma common_entries_names o : (common_entries o).*1 = common_names.
Proof. reflexivity. Qed.

Lemma elem_of_present {A} (l : list (list Z * option A)) n v : (n, v) ∈ present l <-> (n, Some v) ∈ l.
Proof.
  unfold present. rewrite list_elem_of_omap. split.
  - intros ([m [w|]] & Hin & E); simpl in E; by simplify_eq.
  - intros Hin. exists (n, Some v). done.
Qed.

Lemma present_names {A} (l : list (list Z * option A)) : (present l).*1 `sublist_of` l.*1.
Proof.
  induction l as [|[n [v|]] l IH]; simpl; [done| |]; rewrite ?fmap_cons; by constructor.
Qed.

Lemma lookup_present {A} (l : list (list Z * option A)) n v :
  NoDup l.*1 -> (n, v) ∈ l -> (list_to_map (present l) : gmap (list Z) A) !! n = v.
Proof.
  intros Hnd Hin. assert (NoDup (present l).*1) as Hp by (eapply sublist_NoDup; [done|apply present_names]).
  destruct v as [v|].
  - apply elem_of_list_to_map; [done|]. by apply elem_of_present.
  - apply not_elem_of_list_to_map. intros ([m w] & -> & Hw%elem_of_present)%list_elem_of_fmap.
    simpl in Hin. clear Hp. induction l as [|[a b] l IH]; [by apply elem_of_nil in Hin|].
    rewrite fmap_cons in Hnd. simpl in Hnd. apply NoDup_cons in Hnd as [Ha Hnd].
    assert (forall x, (m, x) ∈ l -> m ∈ l.*1) as Hl by (intros x Hx; apply list_elem_of_fmap; by exists (m, x)).
    apply elem_of_cons in Hin as [Hin|Hin], Hw as [Hw|Hw]; simplify_eq; eauto.
Qed.

Section Printed.
Context (o : WorkerLaunchOptions) (Hwf : wf_options o).

Lemma raw_lookup n v : (n, v) ∈ common_entries o -> raw_of o !! n = v.
Proof using Hwf.
  intros Hin. assert (n ∈ common_names) as Hn.
  { rewrite <- (common_entries_names o). apply list_elem_of_fmap. by exists (n, v). }
  unfold raw_of. rewrite lookup_union, (lookup_present _ n v); [|by rewrite common_entries_names; apply common_names_NoDup|done].
  destruct (extensions o !! n) as [w|] eqn:E; [by destruct (wf_extensions o Hwf n w E)|].
  by rewrite (right_id_L None (∪)).
Qed.

Lemma raw_extension n : n ∉ common_names -> raw_of o !! n = extensions o !! n.
Proof using Hwf.
  intros Hn. unfold raw_of. rewrite lookup_union.
  assert ((list_to_map (present (common_entries o)) : Raw) !! n = None) as ->.
  { apply not_elem_of_list_to_map. intros ([m w] & -> & Hw%elem_of_present)%list_elem_of_fmap.
    apply Hn. rewrite <- (common_entries_names o). apply list_elem_of_fmap. by exists (m, Some w). }
  by rewrite (left_id_L None (∪)).
Qed.

Lemma extensions_raw_of : extensions_of (raw_of o) = extensions o.
Proof using Hwf.
  apply map_eq. intros n. unfold extensions_of. destruct (decide (n ∈ common_names)) as [Hn|Hn].
  - rewrite map_lookup_filter_None_2 by (right; intros ? _; simpl; tauto).
    destruct (extensions o !! n) as [w|] eqn:E; [by destruct (wf_extensions o Hwf n w E)|done].
  - destruct (raw_of o !! n) as [v|] eqn:E.
    + rewrite (map_lookup_filter_Some_2 _ _ n v) by done. by rewrite <- E, raw_extension.
    + rewrite map_lookup_filter_None_2 by auto. by rewrite <- raw_extension, E.
Qed.

Lemma value_required name t : raw_of o !! bytes name = value t -> t <> [] -> required_value (raw_of o) name = Ok t.
Proof. intros E Ht. unfold required_value, value in *. rewrite E. by destruct t. Qed.

Lemma value_nonempty z : u64 z -> value (to_string z) <> Some (Some []).
Proof. intros Hz [=]. by apply (to_string_nonempty z). Qed.

Lemma entries_nonempty : Forall (fun nv => nv.2 <> Some (Some [])) (common_entries o).
Proof using Hwf.
  destruct Hwf. assert (forall z, positive_u32 z -> u64 z) as H32
    by (intros z; unfold positive_u32, u64, U32_MAX, U64_MAX; lia).
  assert (forall z, positive_u64 z -> u64 z) as H64 by (intros z; unfold positive_u64, u64; lia).
  assert (forall n, u64 n -> budget n <> Some (Some [])) as Hb.
  { intros n Hn. unfold budget. destruct (n =? 0); [done|by apply value_nonempty]. }
  unfold common_entries, common_names. cbn [map combine].
  repeat (apply Forall_cons; split); cbn [snd]; try (apply value_nonempty; auto); try (apply Hb; tauto).
  - unfold value. intros [= E]. by rewrite E in wf_policy0.
  - unfold value. intros [= E]. done.
  - unfold value. intros [= E]. by rewrite E in wf_profile0.
  - destruct (prefill_chunk_limit o) as [n|]; [|done]. apply value_nonempty. auto.
  - destruct (placement_settle_steps o) as [n|]; [|done]. apply value_nonempty.
    specialize (wf_settle0 n eq_refl). unfold u32, u64, U32_MAX, U64_MAX in *. lia.
  - by destruct (profile_gpu_phases o).
  - destruct (discover_active_expert_devices o); [done|]. case_bool_decide as Hd; [done|].
    unfold value. intros [= E]. destruct wf_devices0 as [_ Hf].
    pose proof (join_length _ Hf) as Hl. rewrite E in Hl. simpl in Hl.
    destruct (active_expert_devices o); [done|simpl in Hl; lia].
  - constructor.
Qed.

Lemma printed_names n v : raw_of o !! n = Some v -> canonical_name n /\ v <> Some [].
Proof using Hwf.
  intros E. destruct (decide (n ∈ common_names)) as [Hn|Hn].
  - split.
    + assert (Forall (fun n => n <> [] /\ head n <> Some 45 /\ last n <> Some 45 /\ forallb valid_name n = true)
        common_names) as Hc by (apply (bool_decide_unpack _); vm_compute; exact I).
      exact (proj1 (Forall_forall _ _) Hc n Hn).
    + rewrite <- (common_entries_names o) in Hn. apply list_elem_of_fmap in Hn as ([m w] & -> & Hin).
      simpl in E. rewrite (raw_lookup m w Hin) in E. subst w.
      pose proof (proj1 (Forall_forall _ _) entries_nonempty _ Hin) as He. simpl in He. congruence.
  - rewrite raw_extension in E by done. by destruct (wf_extensions o Hwf n v E).
Qed.

Lemma entry i n v : common_entries o !! i = Some (n, v) -> raw_of o !! n = v.
Proof using Hwf. intros Hi. apply raw_lookup. by eapply list_elem_of_lookup_2. Qed.

Lemma required_number name z :
  raw_of o !! bytes name = value (to_string z) -> u64 z -> required_value (raw_of o) name = Ok (to_string z).
Proof. intros. apply value_required; [done|by apply to_string_nonempty]. Qed.

Lemma absent {A : Type} name (d : A) f : raw_of o !! bytes name = None -> if_present (raw_of o) name d f = Ok d.
Proof. intros E. unfold if_present. by rewrite E. Qed.

Lemma given {A : Type} name (d : A) f t :
  raw_of o !! bytes name = value t -> if_present (raw_of o) name d f = f (Some t).
Proof. intros E. unfold if_present. by rewrite E. Qed.

Lemma small_positive z : positive_u32 z -> u64 z /\ u32 z /\ z <> 0.
Proof. unfold positive_u32, u32, u64, U32_MAX, U64_MAX. lia. Qed.

Lemma large_positive z : positive_u64 z -> u64 z /\ z <> 0.
Proof. unfold positive_u64, u64. lia. Qed.

Lemma printed_prefill :
  if_present (raw_of o) "prefill-chunk-limit" None (fun _ =>
    let! t := required_value (raw_of o) "prefill-chunk-limit" in
    let! n := parse_u32 t false in Ok (Some n)) = Ok (prefill_chunk_limit o).
Proof using Hwf.
  pose proof (entry 9 _ _ eq_refl) as L. pose proof (wf_prefill o Hwf) as Hp.
  destruct (prefill_chunk_limit o) as [n|]; [|by apply absent].
  destruct (small_positive n (Hp n eq_refl)) as (? & ? & ?).
  rewrite (given _ _ _ _ L), (required_number _ n) by done. simpl.
  rewrite parse_u32_to_string; [done|done|by right].
Qed.

Lemma printed_settle :
  if_present (raw_of o) "placement-settle-steps" None (fun _ =>
    let! t := required_value (raw_of o) "placement-settle-steps" in
    let! n := parse_u32 t true in Ok (Some n)) = Ok (placement_settle_steps o).
Proof using Hwf.
  pose proof (entry 10 _ _ eq_refl) as L. pose proof (wf_settle o Hwf) as Hp.
  destruct (placement_settle_steps o) as [n|]; [|by apply absent]. specialize (Hp n eq_refl).
  assert (u64 n) by (unfold u32, u64, U32_MAX, U64_MAX in *; lia).
  rewrite (given _ _ _ _ L), (required_number _ n) by done. simpl.
  rewrite parse_u32_to_string; [done|done|by left].
Qed.

Lemma printed_phases :
  if_present (raw_of o) "profile-gpu-phases" false (fun value =>
    match value with
    | Some _ => Throw (invalid_argument "boolean worker option profile-gpu-phases has a value")
    | None => Ok true
    end) = Ok (profile_gpu_phases o).
Proof using Hwf.
  pose proof (entry 11 _ _ eq_refl) as L. destruct (profile_gpu_phases o); [|by apply absent].
  unfold if_present. by rewrite L.
Qed.

Lemma join_nonempty l : Forall device l -> l <> [] -> join_devices l <> [].
Proof. intros Hf Hl E. pose proof (join_length l Hf) as Hn. rewrite E in Hn. destruct l; [done|simpl in Hn; lia]. Qed.

Lemma printed_devices :
  if_present (raw_of o) "active-expert-devices" (false, []) (fun _ =>
    let! devices := required_value (raw_of o) "active-expert-devices" in
    if bool_decide (devices = bytes "auto") then Ok (true, [])
    else let! l := device_list devices in Ok (false, l)) =
  Ok (discover_active_expert_devices o, active_expert_devices o).
Proof using Hwf.
  pose proof (entry 12 _ _ eq_refl) as L. pose proof (wf_discover o Hwf) as Hd.
  destruct (wf_devices o Hwf) as [Hs Hf]. destruct (discover_active_expert_devices o).
  - rewrite (given _ _ _ _ L), (value_required _ _ L) by done. simpl. by rewrite Hd.
  - case_bool_decide as El; [rewrite El; by apply absent|].
    rewrite (given _ _ _ _ L), (value_required _ _ L) by (by apply join_nonempty). simpl.
    rewrite device_list_join by done. rewrite bool_decide_false; [done|]. intros E.
    pose proof (device_list_join _ El Hs Hf) as Hj. rewrite E in Hj. by vm_compute in Hj.
Qed.

Lemma printed_budget name n :
  raw_of o !! bytes name = budget n -> u64 n ->
  if_present (raw_of o) name 0 (fun _ => let! t := required_value (raw_of o) name in unsigned_integer t) = Ok n.
Proof.
  intros E Hn. unfold budget in E. destruct (Z.eqb_spec n 0) as [En|En]; [rewrite En; by apply absent|].
  rewrite (given _ _ _ _ E), (required_number _ n) by done. simpl. by apply unsigned_integer_to_string.
Qed.

Lemma printed_text name d t :
  raw_of o !! bytes name = value t -> t <> [] ->
  if_present (raw_of o) name d (fun _ => required_value (raw_of o) name) = Ok t.
Proof. intros L Ht. rewrite (given _ _ _ _ L). by apply value_required. Qed.

Lemma interpret_printed : interpret_options (raw_of o) = Ok o.
Proof using Hwf.
  pose proof (fun i n v => entry i n v) as L. destruct Hwf.
  apply small_positive in wf_context0 as (? & ? & ?), wf_capacity0 as (? & ? & ?), wf_page0 as (? & ? & ?).
  apply large_positive in wf_ram0 as [? ?], wf_vram0 as [? ?], wf_kv0 as [? ?].
  assert (routed_vram_policy o <> [] /\ placement_profile o <> []) as [Hpol Hprof]
    by (split; intros E; by rewrite E in *).
  unfold interpret_options.
  rewrite (required_number _ _ (L 0%nat _ _ eq_refl)), (required_number _ _ (L 1%nat _ _ eq_refl)),
    (required_number _ _ (L 2%nat _ _ eq_refl)), (printed_text _ _ _ (L 3%nat _ _ eq_refl)),
    (required_number _ _ (L 4%nat _ _ eq_refl)), (required_number _ _ (L 5%nat _ _ eq_refl)),
    (required_number _ _ (L 6%nat _ _ eq_refl)), (printed_text _ _ _ (L 7%nat _ _ eq_refl)),
    (value_required _ _ (L 8%nat _ _ eq_refl)) by done. cbn [obind].
  rewrite !parse_u32_to_string, !unsigned_integer_to_string by auto. cbn [obind].
  rewrite printed_prefill, printed_settle, printed_phases, printed_devices,
    (printed_budget _ _ (L 13%nat _ _ eq_refl)), (printed_budget _ _ (L 14%nat _ _ eq_refl)) by tauto.
  cbn [obind]. rewrite wf_policy0, wf_profile0, !(proj2 (Z.eqb_neq _ 0)) by done. cbn [negb orb].
  assert (forall n, n <> 0 <-> discover_active_expert_devices o = true \/ active_expert_devices o <> [] ->
    eqb (discover_active_expert_devices o || negb (bool_decide (active_expert_devices o = [])))
        (negb (n =? 0)) = true) as Hc.
  { intros n Hn. apply eqb_true_iff, eq_true_iff_eq.
    rewrite orb_true_iff, !negb_true_iff, bool_decide_eq_false, Z.eqb_neq. tauto. }
  rewrite !Hc by tauto. cbn [negb orb]. rewrite extensions_raw_of. by destruct o.
Qed.
End Printed.

(** ** What is accepted *)

Lemma obind_inv {A B : Type} (m : outcome A) (k : A -> outcome B) b :
  obind m k = Ok b -> exists a, m = Ok a /\ k a = Ok b.
Proof. destruct m as [a|e]; [by exists a|done]. Qed.

Lemma required_value_inv raw name t : required_value raw name = Ok t -> raw !! bytes name = Some (Some t) /\ t <> [].
Proof. unfold required_value. repeat case_match; try done. by intros [= <-]. Qed.

Lemma if_present_inv {A : Type} raw name (d : A) f a :
  if_present raw name d f = Ok a -> raw !! bytes name = None /\ a = d \/ exists v, raw !! bytes name = Some v /\ f v = Ok a.
Proof. unfold if_present. destruct (raw !! bytes name); intros E; [right; eauto|left; split; congruence]. Qed.

Lemma parse_positive t n : parse_u32 t false = Ok n -> positive_u32 n.
Proof. intros [H1 H2]%parse_u32_range. specialize (H2 eq_refl). unfold positive_u32, u32 in *. lia. Qed.

Lemma positive_nonzero z : u64 z -> z <> 0 -> positive_u64 z.
Proof. unfold u64, positive_u64. lia. Qed.

(** The options every launch has to give. *)
Definition mandatory : list string :=
  ["max-context"; "ram-cache-gib"; "vram-cache-gib"; "capacity"; "kv-cache-mib"; "kv-page-tokens";
   "placement-profile"].

Lemma tier_configured discover (devices : list Z) (n : Z) :
  negb (eqb (discover || negb (bool_decide (devices = []))) (negb (n =? 0))) = false ->
  n <> 0 <-> discover = true \/ devices <> [].
Proof.
  intros E%negb_false_iff%eqb_prop. rewrite <- Z.eqb_neq, <- negb_true_iff, <- E, orb_true_iff, negb_true_iff.
  by rewrite bool_decide_eq_false.
Qed.

Lemma budget_range raw name n :
  if_present raw name 0 (fun _ => let! t := required_value raw name in unsigned_integer t) = Ok n -> u64 n.
Proof.
  intros [[_ ->]|(v & _ & (t & _ & Ht)%obind_inv)]%if_present_inv; [unfold u64, U64_MAX; lia|].
  by apply unsigned_integer_range in Ht.
Qed.

Lemma interpret_accepts raw o :
  (forall n v, raw !! n = Some v -> canonical_name n /\ v <> Some []) ->
  interpret_options raw = Ok o ->
  wf_options o /\ extensions o = extensions_of raw /\
  Forall (fun n => exists t, raw !! bytes n = Some (Some t)) mandatory.
Proof.
  intros Hraw E. unfold interpret_options in E.
  apply obind_inv in E as (t0 & T0 & E), E as (n0 & N0 & E), E as (t1 & T1 & E), E as (n1 & N1 & E),
    E as (t2 & T2 & E), E as (n2 & N2 & E), E as (p3 & P3 & E), E as (t4 & T4 & E), E as (n4 & N4 & E),
    E as (t5 & T5 & E), E as (n5 & N5 & E), E as (t6 & T6 & E), E as (n6 & N6 & E), E as (p7 & P7 & E),
    E as (p8 & P8 & E).
  destruct (_ || _ || _ || _ || _) eqn:Hb in E; [done|].
  apply orb_false_iff in Hb as [[[[B1%Z.eqb_neq B2%Z.eqb_neq]%orb_false_iff B3%Z.eqb_neq]%orb_false_iff
    B4%negb_false_iff]%orb_false_iff B5%negb_false_iff].
  apply obind_inv in E as (o9 & P9 & E), E as (o10 & P10 & E), E as (o11 & P11 & E), E as ([d l] & P12 & E),
    E as (c13 & P13 & E), E as (c14 & P14 & E).
  destruct (_ || _) eqn:Hc in E; [done|]. apply orb_false_iff in Hc as [C1%tier_configured C2%tier_configured].
  injection E as <-.
  apply required_value_inv in T0 as [T0 _], T1 as [T1 _], T2 as [T2 _], T4 as [T4 _], T5 as [T5 _],
    T6 as [T6 _], P8 as [P8 _].
  apply parse_positive in N0, N4, N6. apply unsigned_integer_range in N1, N2, N5.
  apply budget_range in P13, P14.
  assert (p7 <> []) as Hp7.
  { apply if_present_inv in P7 as [[_ ->]|(v & _ & [_ Ht]%required_value_inv)]; done. }
  assert ((d = true -> l = []) /\ StronglySorted Z.lt l /\ Forall device l) as (Hd & Hs & Hf).
  { apply if_present_inv in P12 as [[_ [= -> ->]]|(v & _ & (t & _ & Ht)%obind_inv)]; [by repeat constructor|].
    case_bool_decide; [injection Ht as <- <-; by repeat constructor|].
    apply obind_inv in Ht as (l' & (_ & Hl & Hf)%device_list_range & [= <- <-]). done. }
  split; [|split; [done|repeat (apply Forall_cons; split; [by eexists|]); constructor]].
  split; simpl; auto using positive_nonzero.
  - intros n ->. apply if_present_inv in P9 as [[_ ?]|(v & _ & (t & _ & (m & Hm & [= ->])%obind_inv)%obind_inv)];
      [done|by apply parse_positive in Hm].
  - intros n ->. apply if_present_inv in P10 as [[_ ?]|(v & _ & (t & _ & (m & Hm & [= ->])%obind_inv)%obind_inv)];
      [done|by apply parse_u32_range in Hm as [? _]].
  - intros n v [Hv Hn]%map_lookup_filter_Some. destruct (Hraw n v Hv). done.
Qed.

Lemma parsed_names args raw n v :
  parse_arguments ∅ args = Ok raw -> raw !! n = Some v -> canonical_name n /\ v <> Some [].
Proof.
  intros (nvs & Hf & Hnd & ->)%parse_arguments_empty Hn%elem_of_list_to_map; [|done].
  apply list_elem_of_lookup_1 in Hn as [i Hi]. destruct (Forall2_lookup_r _ _ _ _ _ Hf Hi) as (a & _ & Ha).
  by apply parse_argument_canonical in Ha.
Qed.

Lemma parse_arguments_perm args args' raw :
  args' ≡ₚ args -> parse_arguments ∅ args = Ok raw -> parse_arguments ∅ args' = Ok raw.
Proof.
  intros Hp (nvs & Hf & Hnd & ->)%parse_arguments_empty. apply parse_arguments_empty.
  symmetry in Hp. destruct (Permutation_Forall2 Hp Hf) as (nvs' & Hp' & Hf'). exists nvs'.
  split_and!; [done|by rewrite <- Hp'|]. by apply list_to_map_proper.
Qed.

Lemma parse_success args o :
  parse_worker_launch_options args = (success, o) <->
  exists raw, parse_arguments ∅ args = Ok raw /\ interpret_options raw = Ok o.
Proof.
  unfold parse_worker_launch_options. split.
  - destruct (parse_arguments ∅ args) as [raw|e] eqn:E; simpl; [|by destruct e].
    destruct (interpret_options raw) as [o'|e] eqn:E'; [|by destruct e]. intros [= <-]. by exists raw.
  - intros (raw & -> & E). simpl. by rewrite E.
Qed.

(** Options survive a launch: whatever well-formed options a launcher prints as
    arguments, with provider extensions of any name and value that is canonical, the
    worker reads back the same options. *)
Theorem launch_options_round_trip o :
  wf_options o -> parse_worker_launch_options (print_worker_options o) = (success, o).
Proof.
  intros Hwf. apply parse_success. exists (raw_of o). split.
  - apply parse_printed. intros n v. by apply printed_names.
  - by apply interpret_printed.
Qed.

(** A launch that is accepted names every resource option, stays within the bounds of
    each, configures the secondary tier all or nothing, drops no argument that is not
    understood but passes it on as an extension, does not depend on the order of the
    arguments, and can be repeated from the options. A launch that is refused yields the
    defaults and an error that says so. *)
Theorem launch_contract_enforced args st o :
  parse_worker_launch_options args = (st, o) ->
  (st = success ->
     wf_options o /\ parse_worker_launch_options (print_worker_options o) = (success, o) /\
     (forall args', args' ≡ₚ args -> parse_worker_launch_options args' = (success, o)) /\
     exists raw, parse_arguments ∅ args = Ok raw /\ extensions o = extensions_of raw /\
       Forall (fun n => exists t, raw !! bytes n = Some (Some t)) mandatory) /\
  (st <> success -> code st = invalid_arg /\ o = default_worker_options).
Proof.
  intros E. split.
  - intros ->. pose proof E as (raw & Hraw & Ho)%parse_success.
    destruct (interpret_accepts raw o) as (Hwf & He & Hm); [intros n v; by eapply parsed_names|done|].
    split_and!; [done| | |by exists raw].
    + by apply launch_options_round_trip.
    + intros args' Hp. apply parse_success. exists raw. split; [by eapply parse_arguments_perm|done].
  - unfold parse_worker_launch_options in E. intros Hst.
    destruct (obind _ _) as [o'|[]]; injection E as <- <-; done.
Qed.

Definition demo_options : WorkerLaunchOptions :=
  mkWorkerOptions 4096 64 24 (bytes "fit") 8 512 16 (bytes "fp8") (bytes "balanced")
    (Some 256) (Some 0) true false [0; 2] 8 16 {[bytes "vendor-x" := Some (bytes "a=b")]}.

Definition demo_arguments : list (list Z) := print_worker_options demo_options.

Lemma demo_options_wf : wf_options demo_options.
Proof.
  split; simpl; try done; try (intros ? [= <-]); unfold positive_u32, positive_u64, u32, u64, U32_MAX, U64_MAX;
    try lia.
  - split; repeat constructor; unfold INT_MAX; lia.
  - split; [lia|]. split; [by right|done].
  - split; [lia|]. split; [by right|done].
  - intros n v [<- <-]%lookup_singleton_Some. split; [|split; [by apply (bool_decide_unpack _)|done]].
    apply (bool_decide_unpack _). vm_compute. exact I.
Qed.

Lemma launch_options_round_trip_witness :
  parse_worker_launch_options (print_worker_options demo_options) = (success, demo_options).
Proof. exact (launch_options_round_trip demo_options demo_options_wf). Defined.

Definition demo_arguments_short : list (list Z) := map bytes
  ["--capacity=8"; "--max-context=4096"; "--ram-cache-gib=64"; "--vram-cache-gib=24";
   "--kv-cache-mib=512"; "--kv-page-tokens=16"; "--placement-profile=latency"; "--trace"].

Lemma launch_contract_enforced_witness :
  wf_options (parse_worker_launch_options demo_arguments_short).2 /\
  parse_worker_launch_options (rev demo_arguments_short) =
    (success, (parse_worker_launch_options demo_arguments_short).2).
Proof.
  destruct (launch_contract_enforced demo_arguments_short success
    (parse_worker_launch_options demo_arguments_short).2) as [H _]; [vm_compute; reflexivity|].
  destruct (H eq_refl) as (Hwf & _ & Hperm & _). split; [exact Hwf|].
  apply Hperm. symmetry. apply Permutation_rev.
Defined.
