(* ===== verification/ExpertCatalog.v ===== *)
(** Model of [expert_catalog.cpp]: the immutable index of the experts of one component,
    read from two tab-separated files or built from records. *)

From S2P Require Import Prelude.
From S2P Require Import Storage.
From S2P Require Import Text.

Record ExpertCatalogLayout := mkLayout {
  extent_header : list Z;
  catalog_header : list Z;
  extents_per_expert : Z;
  payload_is_catalog_relative : bool }.

Record ExpertCatalogConfig := mkCatalogConfig {
  catalog_root : list Z;
  source_root : list Z;
  layer_count : Z;
  experts_per_layer : Z;
  cc_hidden_size : Z;
  cc_intermediate_size : Z;
  cc_quant_block_size : Z;
  cc_stored_bytes : Z;
  cc_decoded_bytes : Z;
  cc_device_bytes : Z;
  cc_source_abi : Z;
  cc_record_abi : Z;
  cc_header_bytes : Z;
  cc_alignment : Z;
  layouts : list ExpertCatalogLayout }.

Record ExpertCatalog := mkCatalog {
  records_ : list PayloadRecord;
  source_bytes_ : Z;
  layers_ : Z;
  experts_ : Z }.

Definition empty_catalog : ExpertCatalog := mkCatalog [] 0 0 0.

(** ** Text *)

(** What [std::getline] reads from a file, line by line. *)
Fixpoint lines_from (line : list Z) (t : list Z) : list (list Z) :=
  match t with
  | [] => if bool_decide (line = []) then [] else [rev line]
  | c :: t => if c =? 10 then rev line :: lines_from [] t else lines_from (c :: line) t
  end.

(** A file: its bytes, and whether reading ended at its end and not in an error. *)
Record File := mkFile { content : list Z; at_eof : bool }.
Definition file_lines (f : File) : list (list Z) := lines_from [] (content f).

Fixpoint fields_from (field : list Z) (t : list Z) : list (list Z) :=
  match t with
  | [] => [rev field]
  | c :: t => if c =? 9 then rev field :: fields_from [] t else fields_from (c :: field) t
  end.
Definition fields (line : list Z) : list (list Z) := fields_from [] line.

(** A plain file name; paths are those of a POSIX system, where a name that has a slash has
    a parent or a root. *)
Definition relative_path (t : list Z) : outcome (list Z) :=
  if bool_decide (t = []) || bool_decide (47 ∈ t)
  then Throw (invalid_argument "catalog source path is not a file name")
  else if bool_decide (t = [46; 46])
  then Throw (invalid_argument "catalog source path escapes its root")
  else Ok t.

(** [root / name]. *)
Definition join_path (root name : list Z) : list Z :=
  match last root with
  | None => name
  | Some c => if c =? 47 then root ++ name else root ++ 47 :: name
  end.

Definition unsigned_integer (t : list Z) : outcome Z :=
  match from_chars_u64 t with
  | Some (value, []) => Ok value
  | _ => Throw (invalid_argument "catalog integer is not canonical unsigned decimal")
  end.

Definition nibble (c : Z) : outcome Z :=
  if (48 <=? c) && (c <=? 57) then Ok (c - 48)
  else if (97 <=? c) && (c <=? 102) then Ok (c - 97 + 10)
  else if (65 <=? c) && (c <=? 70) then Ok (c - 65 + 10)
  else Throw (invalid_argument "catalog SHA-256 contains an invalid digit").

Fixpoint digest_bytes (t : list Z) : outcome (list Z) :=
  match t with
  | high :: low :: t =>
    let! h := nibble high in
    let! l := nibble low in
    let! rest := digest_bytes t in
    Ok (Z.lor (Z.shiftl h 4) l :: rest)
  | _ => Ok []
  end.

Definition digest (t : list Z) : outcome (list Z) :=
  if negb (length t =? 64)%nat then Throw (invalid_argument "catalog SHA-256 has the wrong length")
  else digest_bytes t.

Definition valid (c : ExpertCatalogConfig) : bool :=
  negb (bool_decide (catalog_root c = [])) && negb (bool_decide (source_root c = [])) &&
  negb (layer_count c =? 0) && negb (experts_per_layer c =? 0) && negb (cc_hidden_size c =? 0) &&
  negb (cc_intermediate_size c =? 0) && negb (cc_stored_bytes c =? 0) && negb (cc_decoded_bytes c =? 0) &&
  negb (cc_device_bytes c =? 0) && negb (cc_source_abi c =? 0) && negb (cc_alignment c =? 0) &&
  negb (bool_decide (layouts c = [])) && (mul64 (layer_count c) (experts_per_layer c) <=? U64_MAX).

(** ** Loading *)

(** One row of the extent index. *)
Definition parse_extent (payload_root line : list Z) : outcome PayloadExtent :=
  match fields line with
  | [item0; item1; item2; item3] =>
    let! name := relative_path item3 in
    let! source := unsigned_integer item2 in
    let! destination := unsigned_integer item0 in
    let! n := unsigned_integer item1 in
    Ok (mkPayloadExtent (text (join_path payload_root name)) source destination n)
  | _ => Throw (invalid_argument "extent index row has the wrong shape")
  end.

Fixpoint parse_all {A : Type} (f : list Z -> outcome A) (l : list (list Z)) : outcome (list A) :=
  match l with
  | [] => Ok []
  | line :: l => let! a := f line in let! rest := parse_all f l in Ok (a :: rest)
  end.

(** The loop that checks that extents follow each other. *)
Fixpoint contiguous (destination : Z) (l : list PayloadExtent) : outcome Z :=
  match l with
  | [] => Ok destination
  | extent :: l =>
    if negb (destination_offset extent =? destination)
    then Throw (invalid_argument "expert extents are not contiguous")
    else contiguous (add64 destination (pe_bytes extent)) l
  end.

(** The range of an iterator pair; outside of the vector it is undefined. *)
Definition slice {A : Type} (l : list A) (first count : Z) : outcome (list A) :=
  if first + count <=? Z.of_nat (length l) then Ok (take (Z.to_nat count) (drop (Z.to_nat first) l))
  else Throw (undefined_behavior "iterator outside of the vector").

(** One row of the catalog, the [index]-th. *)
Definition parse_record (c : ExpertCatalogConfig) (per_expert : Z) (extents : list PayloadExtent)
    (index : Z) (line : list Z) : outcome PayloadRecord :=
  match fields line with
  | [item0; item1; item2; item3; item4; item5] =>
    let! layer := unsigned_integer item0 in
    let! expert := unsigned_integer item1 in
    let! stored := unsigned_integer item2 in
    let! first := unsigned_integer item4 in
    let! count := unsigned_integer item5 in
    if negb (layer =? index / experts_per_layer c) || negb (expert =? index mod experts_per_layer c) ||
       negb (stored =? cc_stored_bytes c) || negb (first =? mul64 index per_expert) ||
       negb (count =? per_expert) || (Z.of_nat (length extents) <? add64 first count)
    then Throw (invalid_argument "catalog ordering or geometry is invalid")
    else
      let! own := slice extents first count in
      let! destination := contiguous 0 own in
      if negb (destination =? stored)
      then Throw (invalid_argument "expert extents do not cover the record")
      else
        let! sha := digest item3 in
        Ok (mkPayloadRecord "" own 0 stored (cc_decoded_bytes c) (cc_device_bytes c) (cc_hidden_size c)
              (cc_intermediate_size c) (cc_quant_block_size c) (cc_source_abi c) (cc_record_abi c)
              (cc_header_bytes c) (cc_alignment c) sha)
  | _ => Throw (invalid_argument "catalog row has the wrong shape")
  end.

(** The loop over the rows: the records, and the sum of their sizes. *)
Fixpoint parse_records (c : ExpertCatalogConfig) (per_expert : Z) (extents : list PayloadExtent)
    (index source : Z) (l : list (list Z)) : outcome (list PayloadRecord * Z) :=
  match l with
  | [] => Ok ([], source)
  | line :: l =>
    let! record := parse_record c per_expert extents index line in
    let! rest := parse_records c per_expert extents (inc64 index) (add64 source (stored_bytes record)) l in
    Ok (record :: rest.1, rest.2)
  end.

Definition header (f : option File) : option (list Z * list (list Z)) :=
  match f with
  | Some f => match file_lines f with [] => None | h :: l => Some (h, l) end
  | None => None
  end.

Definition eof (f : option File) : bool := match f with Some f => at_eof f | None => false end.

(** The body of [load]; the files are those below [catalog_root], [None] if they do not open. *)
Definition load_catalog (c : ExpertCatalogConfig) (extent_file catalog_file : option File)
    : outcome ExpertCatalog :=
  match header extent_file with
  | None => Throw (invalid_argument "extent index has no header")
  | Some (line, rows) =>
    match find (fun l => bool_decide (extent_header l = line)) (layouts c) with
    | None => Throw (invalid_argument "extent index layout is unsupported")
    | Some selected =>
      if bool_decide (catalog_header selected = []) || (extents_per_expert selected =? 0)
      then Throw (invalid_argument "extent index layout is unsupported")
      else
        let expert_count := mul64 (layer_count c) (experts_per_layer c) in
        let payload_root := if payload_is_catalog_relative selected then catalog_root c else source_root c in
        let! extents := parse_all (parse_extent payload_root) rows in
        if negb (eof extent_file) ||
           negb (Z.of_nat (length extents) =? mul64 expert_count (extents_per_expert selected))
        then Throw (invalid_argument "extent index is incomplete")
        else
          match header catalog_file with
          | None => Throw (invalid_argument "catalog header does not match extent layout")
          | Some (line, rows) =>
            if negb (bool_decide (line = catalog_header selected))
            then Throw (invalid_argument "catalog header does not match extent layout")
            else
              let! parsed := parse_records c (extents_per_expert selected) extents 0 0 rows in
              if negb (eof catalog_file) || negb (Z.of_nat (length parsed.1) =? expert_count)
              then Throw (invalid_argument "catalog is incomplete")
              else Ok (mkCatalog parsed.1 parsed.2 (layer_count c) (experts_per_layer c))
          end
    end
  end.

Definition load (c : ExpertCatalogConfig) (extent_file catalog_file : option File)
    (destination : ExpertCatalog) : Status * ExpertCatalog :=
  if negb (bool_decide (records_ destination = []))
  then (mkStatus invalid_arg "expert catalog destination is not empty", destination)
  else if negb (valid c) then (mkStatus invalid_arg "expert catalog config is invalid", destination)
  else
    match load_catalog c extent_file catalog_file with
    | Ok candidate => (success, candidate)
    | Throw (invalid_argument what) =>
      (mkStatus invalid_arg ("invalid expert catalog: " +:+ what), destination)
    | Throw _ => (mkStatus invalid_arg "invalid expert catalog: ", destination)
    end.

(** ** From records *)

Fixpoint sum_records (source : Z) (l : list PayloadRecord) : Status * Z :=
  match l with
  | [] => (success, source)
  | record :: l =>
    if (stored_bytes record =? 0) || (source_abi record =? 0)
    then (mkStatus invalid_arg "in-memory expert catalog contains an invalid record", source)
    else if U64_MAX - stored_bytes record <? source
    then (mkStatus invalid_arg "in-memory expert catalog byte count overflows", source)
    else sum_records (add64 source (stored_bytes record)) l
  end.

Definition from_records (layer_count experts_per_layer : Z) (records : list PayloadRecord)
    (destination : ExpertCatalog) : Status * ExpertCatalog :=
  if negb (bool_decide (records_ destination = [])) || (layer_count =? 0) || (experts_per_layer =? 0) ||
     negb (Z.of_nat (length records) =? mul64 layer_count experts_per_layer)
  then (mkStatus invalid_arg "in-memory expert catalog cardinality is invalid", destination)
  else
    let '(status, source) := sum_records 0 records in
    if negb (status_ok status) then (status, destination)
    else (success, mkCatalog records source layer_count experts_per_layer).

(** ** Queries *)

(** [nullptr] is [None]. *)
Definition find_record (layer expert : Z) (c : ExpertCatalog) : option PayloadRecord :=
  if (layers_ c <=? layer) || (experts_ c <=? expert) ||
     negb (Z.of_nat (length (records_ c)) =? mul64 (layers_ c) (experts_ c))
  then None
  else records_ c !! Z.to_nat (add64 (mul64 layer (experts_ c)) expert).

Definition clear (_ : ExpertCatalog) : ExpertCatalog := empty_catalog.
