(* ===== verification/ExpertCatalogTheorems.v ===== *)
(** What a catalog promises: the row of every expert is found under its layer and number,
    the index of extents is never read outside of its bounds, and its records are reads
    that the gathering storage accepts. *)

From S2P Require Import Prelude.
From S2P Require Import Storage.
From S2P Require Import Text.
From S2P Require Import GatherStorage.
From S2P Require Import GatherStorageTheorems.
From S2P Require Import ExpertCatalog.

(** ** Failures *)

Definition refused {A : Type} (m : outcome A) : Prop :=
  match m with Ok _ => True | Throw e => exists what, e = invalid_argument what end.

Lemma refused_bind {A B : Type} (m : outcome A) (k : A -> outcome B) :
  refused m -> (forall a, m = Ok a -> refused (k a)) -> refused (obind m k).
Proof. destruct m as [a|e]; simpl; auto. Qed.

Lemma refused_throw {A : Type} what : refused (Throw (A := A) (invalid_argument what)).
Proof. by exists what. Qed.

Lemma refused_ok {A : Type} (a : A) : refused (Ok a).
Proof. exact I. Qed.

Create HintDb refused.
#[export] Hint Resolve refused_throw refused_ok : refused.

Lemma refused_unsigned t : refused (unsigned_integer t).
Proof. unfold unsigned_integer. repeat case_match; auto with refused. Qed.

Lemma refused_path t : refused (relative_path t).
Proof. unfold relative_path. repeat case_match; auto with refused. Qed.

Lemma refused_nibble c : refused (nibble c).
Proof. unfold nibble. repeat case_match; auto with refused. Qed.

#[export] Hint Resolve refused_unsigned refused_path refused_nibble : refused.

Lemma refused_digest t : refused (digest t).
Proof.
  unfold digest. case_match; [auto with refused|]. clear. 
  assert (forall n l, (length l <= n)%nat -> refused (digest_bytes l)) as H; [|by apply (H (length t))].
  induction n as [|n IH]; intros [|a [|b l]] Hn; simpl in *; auto with refused; [lia|].
  apply refused_bind; [auto with refused|]. intros h _. apply refused_bind; [auto with refused|]. intros l' _.
  apply refused_bind; [apply IH; lia|auto with refused].
Qed.

Lemma refused_contiguous d l : refused (contiguous d l).
Proof.
  revert d. induction l as [|e l IH]; intros d; simpl; [auto with refused|].
  case_match; [auto with refused|apply IH].
Qed.

#[export] Hint Resolve refused_digest refused_contiguous : refused.

Ltac refuse := repeat (first [apply refused_bind; [auto with refused|intros ? ?] | case_match | progress auto with refused]).

Lemma refused_extent root line : refused (parse_extent root line).
Proof. unfold parse_extent. refuse. Qed.

Lemma refused_all {A : Type} (f : list Z -> outcome A) l : (forall x, refused (f x)) -> refused (parse_all f l).
Proof.
  intros Hf. induction l as [|x l IH]; simpl; [auto with refused|].
  apply refused_bind; [auto|]. intros a _. apply refused_bind; [done|auto with refused].
Qed.

Lemma parse_all_Forall2 {A : Type} (f : list Z -> outcome A) l r :
  parse_all f l = Ok r <-> Forall2 (fun x a => f x = Ok a) l r.
Proof.
  revert r. induction l as [|x l IH]; intros r; simpl.
  { split; [intros [= <-]; constructor|by intros ->%Forall2_nil_inv_l]. }
  split.
  - destruct (f x) as [a|] eqn:E; [|done]. simpl. destruct (parse_all f l) as [k|]; [|done].
    simpl. intros [= <-]. constructor; [done|by apply IH].
  - intros (a & k & Ha & Hk & ->)%Forall2_cons_inv_l. rewrite Ha. simpl. by rewrite (proj2 (IH k) Hk).
Qed.

(** ** The rows *)

(** The extents of the [i]-th expert. *)
Definition own_extents (per_expert : Z) (extents : list PayloadExtent) (i : nat) : list PayloadExtent :=
  take (Z.to_nat per_expert) (drop (i * Z.to_nat per_expert) extents).

(** Row [i] of the catalog describes [r], and names its layer and number. *)
Record row_describes (c : ExpertCatalogConfig) (per_expert : Z) (extents : list PayloadExtent)
    (i : nat) (line : list Z) (r : PayloadRecord) : Prop := mkDescribes {
  rd_layer : exists t rest, fields line = t :: rest /\
    unsigned_integer t = Ok (Z.of_nat i / experts_per_layer c);
  rd_expert : exists s t rest, fields line = s :: t :: rest /\
    unsigned_integer t = Ok (Z.of_nat i mod experts_per_layer c);
  rd_digest : exists t, fields line !! 3%nat = Some t /\ digest t = Ok (payload_sha256 r);
  rd_extents : Storage.extents r = own_extents per_expert extents i;
  rd_inside : ((i + 1) * Z.to_nat per_expert <= length extents)%nat;
  rd_contiguous : contiguous 0 (Storage.extents r) = Ok (cc_stored_bytes c);
  rd_geometry : r <| payload_sha256 := [] |> <| Storage.extents := [] |> =
    mkPayloadRecord "" [] 0 (cc_stored_bytes c) (cc_decoded_bytes c) (cc_device_bytes c)
      (cc_hidden_size c) (cc_intermediate_size c) (cc_quant_block_size c) (cc_source_abi c)
      (cc_record_abi c) (cc_header_bytes c) (cc_alignment c) [] }.

Section Rows.
Context (c : ExpertCatalogConfig) (per : Z) (exts : list PayloadExtent).
Context (Hper : 0 < per) (Hsize : Z.of_nat (length exts) < 2 ^ 63).

Lemma parse_record_spec i line :
  Z.of_nat i * per <= Z.of_nat (length exts) ->
  (i = 0%nat \/ per <= Z.of_nat (length exts)) -> per <= U64_MAX ->
  refused (parse_record c per exts (Z.of_nat i) line) /\
  forall r, parse_record c per exts (Z.of_nat i) line = Ok r -> row_describes c per exts i line r.
Proof using Hper Hsize.
  intros Hi Hi0 Hmax. unfold parse_record.
  destruct (fields line) as [|f0 [|f1 [|f2 [|f3 [|f4 [|f5 [|]]]]]]] eqn:Ef; try (split; [auto with refused|done]).
  destruct (unsigned_integer f0) as [layer|] eqn:E0; [|split; [pose proof (refused_unsigned f0) as R; by rewrite E0 in R|done]].
  destruct (unsigned_integer f1) as [expert|] eqn:E1; [|split; [pose proof (refused_unsigned f1) as R; by rewrite E1 in R|done]].
  destruct (unsigned_integer f2) as [stored|] eqn:E2; [|split; [pose proof (refused_unsigned f2) as R; by rewrite E2 in R|done]].
  destruct (unsigned_integer f4) as [first|] eqn:E4; [|split; [pose proof (refused_unsigned f4) as R; by rewrite E4 in R|done]].
  destruct (unsigned_integer f5) as [count|] eqn:E5; [|split; [pose proof (refused_unsigned f5) as R; by rewrite E5 in R|done]].
  cbn [obind]. destruct (_ || _ || _ || _ || _ || _) eqn:Hb; [split; [auto with refused|done]|].
  apply orb_false_iff in Hb as [Hb B6%Z.ltb_ge].
  apply orb_false_iff in Hb as [[[[B1%negb_false_iff%Z.eqb_eq B2%negb_false_iff%Z.eqb_eq]%orb_false_iff
    B3%negb_false_iff%Z.eqb_eq]%orb_false_iff B4%negb_false_iff%Z.eqb_eq]%orb_false_iff
    B5%negb_false_iff%Z.eqb_eq].
  subst. unfold mul64, add64 in *.
  rewrite (wrap64_small (Z.of_nat i * per)) in * by (unfold u64, U64_MAX; lia).
  assert (Z.of_nat i * per + per <= Z.of_nat (length exts)) as Hin.
  { destruct Hi0 as [->|Hi0].
    - rewrite wrap64_small in B6; unfold u64; lia.
    - rewrite wrap64_small in B6; unfold u64, U64_MAX in *; lia. }
  unfold slice. rewrite (proj2 (Z.leb_le _ _)) by lia. cbn [obind].
  replace (Z.to_nat (Z.of_nat i * per)) with (i * Z.to_nat per)%nat by lia.
  fold (own_extents per exts i). set (own := own_extents per exts i).
  destruct (contiguous 0 own) as [d|] eqn:Ec; [|split; [pose proof (refused_contiguous 0 own) as R; by rewrite Ec in R|done]].
  cbn [obind]. destruct (Z.eqb_spec d (cc_stored_bytes c)) as [->|]; cbn [negb]; [|split; [auto with refused|done]].
  destruct (digest f3) as [sha|] eqn:E3; [|split; [pose proof (refused_digest f3) as R; by rewrite E3 in R|done]].
  cbn [obind]. split; [auto with refused|]. intros r [= <-]. split; simpl; try done.
  - by exists f0, [f1; f2; f3; f4; f5].
  - by exists f0, f1, [f2; f3; f4; f5].
  - exists f3. by rewrite Ef.
  - lia.
Qed.

(** A loop that did not run out of the index so far does not do so later. *)
Lemma parse_records_spec i source l :
  Z.of_nat i * per <= Z.of_nat (length exts) -> (i = 0%nat \/ per <= Z.of_nat (length exts)) ->
  per <= U64_MAX ->
  refused (parse_records c per exts (Z.of_nat i) source l) /\
  forall rs n, parse_records c per exts (Z.of_nat i) source l = Ok (rs, n) ->
    length rs = length l /\
    (u64 source -> n = wrap64 (source + Z.of_nat (length l) * cc_stored_bytes c)) /\
    forall j line, l !! j = Some line ->
      exists r, rs !! j = Some r /\ row_describes c per exts (i + j) line r.
Proof using Hper Hsize.
  revert i source. induction l as [|line l IH]; intros i source Hi Hi0 Hmax; simpl.
  { split; [auto with refused|]. intros rs n [= <- <-]. split_and!; [done| |done].
    intros Hs. rewrite Z.mul_0_l, Z.add_0_r. by rewrite wrap64_small. }
  destruct (parse_record_spec i line Hi Hi0 Hmax) as [R D].
  destruct (parse_record c per exts (Z.of_nat i) line) as [r|e] eqn:E; [|by split]. cbn [obind].
  specialize (D r eq_refl). pose proof (rd_inside _ _ _ _ _ _ D) as Hin.
  assert (inc64 (Z.of_nat i) = Z.of_nat (S i)) as ->.
  { unfold inc64, add64. rewrite wrap64_small; [lia|]. unfold u64, U64_MAX. nia. }
  destruct (IH (S i) (add64 source (stored_bytes r))) as [R' D']; [lia|right; lia|done|].
  destruct (parse_records c per exts (Z.of_nat (S i)) _ l) as [[rs n]|e']; [|by split]. cbn [obind fst snd].
  split; [auto with refused|]. intros rs' n' [= <- <-]. destruct (D' rs n eq_refl) as (Hl & Hn & Hr).
  assert (stored_bytes r = cc_stored_bytes c) as Es.
  { pose proof (f_equal stored_bytes (rd_geometry _ _ _ _ _ _ D)) as G. by destruct r. }
  split_and!; [by simpl; f_equal| |].
  - intros Hs. rewrite Hn, Es by (unfold add64; apply wrap64_u64). unfold add64. rewrite wrap64_add_l. f_equal.
    rewrite Nat2Z.inj_succ. lia.
  - intros [|j] line' Hj; simpl in Hj.
    + injection Hj as <-. exists r. by rewrite Nat.add_0_r.
    + destruct (Hr j line' Hj) as (r' & ? & ?). exists r'. split; [done|]. by rewrite Nat.add_succ_r.
Qed.
End Rows.

(** ** Loading *)

Record typed_catalog (c : ExpertCatalogConfig) : Prop := mkTypedCatalog {
  tc_layers : u32 (layer_count c);
  tc_experts : u32 (experts_per_layer c);
  tc_stored : u64 (cc_stored_bytes c);
  tc_layouts : Forall (fun l => u64 (extents_per_expert l)) (layouts c) }.

(** The extent index is a file that fits the address space. *)
Definition index_fits (f : option File) : Prop :=
  match f with Some f => Z.of_nat (length (content f)) < 2 ^ 63 - 1 | None => True end.

Lemma lines_from_length line t : (length (lines_from line t) <= S (length t))%nat.
Proof.
  revert line. induction t as [|ch t IH]; intros line; simpl; [case_bool_decide; simpl; lia|].
  case_match; simpl; [specialize (IH [])|specialize (IH (ch :: line))]; lia.
Qed.

Lemma header_rows f h rows :
  header f = Some (h, rows) -> index_fits f -> Z.of_nat (length rows) < 2 ^ 63.
Proof.
  destruct f as [f|]; [|done]. unfold header, file_lines. pose proof (lines_from_length [] (content f)) as Hl.
  destruct (lines_from [] (content f)) as [|h' l]; [done|]. intros [= -> ->]. simpl in *. lia.
Qed.

(** The extents of a loaded catalog. *)
Definition extent_index (c : ExpertCatalogConfig) (selected : ExpertCatalogLayout) (rows : list (list Z))
    (exts : list PayloadExtent) : Prop :=
  selected ∈ layouts c /\ 0 < extents_per_expert selected /\
  Forall2 (fun line e => parse_extent (if payload_is_catalog_relative selected then catalog_root c
                                       else source_root c) line = Ok e) rows exts.

(** What [load_catalog] returns, or why not. *)
Lemma load_catalog_spec c ef cf :
  valid c = true -> typed_catalog c -> index_fits ef ->
  match load_catalog c ef cf with
  | Ok k =>
    exists selected h erows exts rows,
      header ef = Some (extent_header selected, erows) /\ extent_index c selected erows exts /\
      header cf = Some (h, rows) /\ h = catalog_header selected /\
      Z.of_nat (length rows) = layer_count c * experts_per_layer c /\
      layers_ k = layer_count c /\ experts_ k = experts_per_layer c /\
      source_bytes_ k = wrap64 (Z.of_nat (length rows) * cc_stored_bytes c) /\
      length (records_ k) = length rows /\
      forall j line, rows !! j = Some line -> exists r, records_ k !! j = Some r /\
        row_describes c (extents_per_expert selected) exts j line r
  | Throw e => exists what, e = invalid_argument what
  end.
Proof.
  intros Hv [Hl He Hst Hla] Hfit. unfold load_catalog.
  destruct (header ef) as [[h erows]|] eqn:Hef; [|by eexists].
  destruct (find _ (layouts c)) as [sel|] eqn:Hf; [|by eexists].
  apply find_some in Hf as [Hin Hh]. apply bool_decide_eq_true in Hh. subst h. apply list_elem_of_In in Hin.
  pose proof (proj1 (Forall_forall _ _) Hla sel Hin) as Hper. simpl in Hper.
  destruct (_ || _) eqn:Hb; [by eexists|]. apply orb_false_iff in Hb as [_ Hnz%Z.eqb_neq].
  set (root := if payload_is_catalog_relative sel then _ else _).
  pose proof (refused_all (parse_extent root) erows (refused_extent root)) as Re.
  destruct (parse_all (parse_extent root) erows) as [exts|] eqn:Hpe; [|done]. cbn [obind].
  apply parse_all_Forall2 in Hpe as Hf2. pose proof (Forall2_length _ _ _ Hf2) as Hlen.
  destruct (negb (eof ef) || _) eqn:Hb; [by eexists|]. apply orb_false_iff in Hb as [_ Hcount%negb_false_iff%Z.eqb_eq].
  destruct (header cf) as [[h rows]|] eqn:Hcf; [|by eexists].
  destruct (negb (bool_decide _)) eqn:Hhc; [by eexists|]. apply negb_false_iff, bool_decide_eq_true in Hhc.
  pose proof (header_rows _ _ _ Hef Hfit) as Hrows. rewrite Hlen in Hrows.
  assert (0 < extents_per_expert sel) as Hpos by (unfold u64 in Hper; lia).
  destruct (parse_records_spec c (extents_per_expert sel) exts Hpos Hrows 0 0 rows) as [R D];
    [simpl; lia|by left|unfold u64 in Hper; lia|].
  change (Z.of_nat 0) with 0 in R, D. destruct (parse_records c _ exts 0 0 rows) as [[rs n]|] eqn:Hpr; [|exact R]. cbn [obind fst snd].
  destruct (negb (eof cf) || _) eqn:Hb; [by eexists|]. apply orb_false_iff in Hb as [_ Hn%negb_false_iff%Z.eqb_eq].
  destruct (D rs n eq_refl) as (Hrl & Hsrc & Hr).
  assert (mul64 (layer_count c) (experts_per_layer c) = layer_count c * experts_per_layer c) as Em.
  { unfold mul64. apply wrap64_small. unfold u32, u64, U32_MAX, U64_MAX in *. nia. }
  exists sel, h, erows, exts, rows. simpl. split_and!; try done; try lia.
  rewrite Hsrc by (unfold u64, U64_MAX; lia). f_equal.
Qed.

(** C26: A catalog is loaded whole or not at all. What is loaded has one record for every
    layer and expert, found under exactly these, described by the row of the file that
    names them, with the geometry of the configuration, the digest of the row, and its
    own extents, which follow each other up to the stored size. A refused load leaves
    the destination alone and never reads the index outside of its bounds. *)
Theorem catalog_load_finds c ef cf dest st k :
  typed_catalog c -> index_fits ef -> load c ef cf dest = (st, k) ->
  (st <> success -> k = dest /\ code st = invalid_arg) /\
  (st = success ->
    exists selected h erows exts rows,
      header ef = Some (extent_header selected, erows) /\ extent_index c selected erows exts /\
      header cf = Some (h, rows) /\ h = catalog_header selected /\
      source_bytes_ k = wrap64 (layer_count c * experts_per_layer c * cc_stored_bytes c) /\
      (forall layer expert, u32 layer -> u32 expert ->
        if (layer <? layer_count c) && (expert <? experts_per_layer c) then
          exists i line r, i = Z.to_nat (layer * experts_per_layer c + expert) /\ rows !! i = Some line /\
            find_record layer expert k = Some r /\
            row_describes c (extents_per_expert selected) exts i line r /\
            Z.of_nat i / experts_per_layer c = layer /\ Z.of_nat i mod experts_per_layer c = expert
        else find_record layer expert k = None)) /\
  (valid c = true -> forall e, load_catalog c ef cf = Throw e -> exists what, e = invalid_argument what).
Proof.
  intros Ht Hfit E. assert (valid c = true -> forall e, load_catalog c ef cf = Throw e ->
    exists what, e = invalid_argument what) as Hthrow.
  { intros Hv e Ee. pose proof (load_catalog_spec c ef cf Hv Ht Hfit) as Hs. by rewrite Ee in Hs. }
  unfold load in E. case_bool_decide as Hd; simpl in E; [|injection E as <- <-; by split_and!].
  destruct (valid c) eqn:Hv; simpl in E; [|injection E as <- <-; by split_and!].
  pose proof (load_catalog_spec c ef cf Hv Ht Hfit) as Hs.
  destruct (load_catalog c ef cf) as [k'|e]; [|destruct e; injection E as <- <-; by split_and!].
  injection E as <- <-. split; [done|]. split; [|done]. intros _.
  destruct Hs as (sel & h & erows & exts & rows & H1 & H2 & H3 & H4 & Hn & Hl & He & Hsrc & Hlen & Hr).
  exists sel, h, erows, exts, rows. split_and!; try done; [by rewrite Hsrc, Hn|].
  intros layer expert Hlayer Hexpert. unfold find_record. rewrite Hl, He, Hlen, Hn.
  destruct Ht as [T1 T2 _ _]. unfold u32, U32_MAX in *.
  assert (mul64 (layer_count c) (experts_per_layer c) = layer_count c * experts_per_layer c) as ->
    by (unfold mul64; apply wrap64_small; unfold u64, U64_MAX; nia).
  rewrite Z.eqb_refl. simpl. rewrite orb_false_r.
  destruct (Z.ltb_spec layer (layer_count c)); destruct (Z.ltb_spec expert (experts_per_layer c)); simpl;
    rewrite ?(proj2 (Z.leb_gt _ _)), ?(proj2 (Z.leb_le _ _)) by lia; simpl; try done.
  assert (add64 (mul64 layer (experts_per_layer c)) expert = layer * experts_per_layer c + expert) as ->.
  { unfold mul64, add64. rewrite wrap64_add_l, wrap64_small; [done|]. unfold u64, U64_MAX. nia. }
  assert (layer * experts_per_layer c + expert < layer_count c * experts_per_layer c) as Hlt by nia.
  set (i := Z.to_nat (layer * experts_per_layer c + expert)).
  destruct (lookup_lt_is_Some_2 rows i) as [line Hline]; [unfold i; nia|].
  destruct (Hr i line Hline) as (r & Hri & Hd'). exists i, line, r. split_and!; try done.
  - unfold i. rewrite Z2Nat.id by nia. symmetry. apply (Z.div_unique _ _ _ expert); [lia|ring].
  - unfold i. rewrite Z2Nat.id by nia. symmetry. apply (Z.mod_unique _ _ layer); [lia|ring].
Qed.

(** ** Reading the records *)

Definition payload_bytes (r : PayloadRecord) : Z := sumZ (map pe_bytes (Storage.extents r)).

(** No extent is empty or runs past the 64-bit range of its file. *)
Definition readable (e : PayloadExtent) : Prop := 0 < pe_bytes e /\ source_offset e + pe_bytes e <= U64_MAX.

Lemma contiguous_sum l d d' :
  0 <= d -> Forall (fun e => 0 < pe_bytes e) l -> d + sumZ (map pe_bytes l) <= U64_MAX ->
  contiguous d l = Ok d' -> consecutive d l d' /\ d' = d + sumZ (map pe_bytes l).
Proof.
  intros Hd Hl. revert d Hd. induction Hl as [|e l He Hl IH]; intros d Hd Hs; simpl in *.
  { intros [= ->]. split; [done|lia]. }
  destruct (Z.eqb_spec (destination_offset e) d) as [Ed|]; [|done]. simpl.
  assert (0 <= sumZ (map pe_bytes l)) as Hn.
  { apply sumZ_nonneg, Forall_fmap. eapply Forall_impl; [exact Hl|]. simpl. lia. }
  unfold add64. rewrite wrap64_small by (unfold u64; lia).
  intros [Hc ->]%IH; [|lia|lia]. split; [done|lia].
Qed.

Lemma contiguous_inside l d d' :
  0 <= d -> Forall (fun e => 0 < pe_bytes e /\ destination_offset e + pe_bytes e <= U64_MAX) l ->
  contiguous d l = Ok d' -> d' = d + sumZ (map pe_bytes l).
Proof.
  intros Hd Hl. revert d Hd. induction Hl as [|e l [He He'] Hl IH]; intros d Hd; simpl in *.
  { intros [= ->]. lia. }
  destruct (Z.eqb_spec (destination_offset e) d) as [Ed|]; [|done]. simpl.
  unfold add64. rewrite wrap64_small by (unfold u64; lia). intros ->%IH; lia.
Qed.

Lemma parse_extent_typed root line e : parse_extent root line = Ok e -> typed_extent e /\ pe_path e <> ""%string.
Proof.
  unfold parse_extent. destruct (fields line) as [|f0 [|f1 [|f2 [|f3 [|]]]]]; try done.
  destruct (relative_path f3) as [name|] eqn:En; [|done]. cbn [obind].
  destruct (unsigned_integer f2) as [a|] eqn:E2; [|done]. destruct (unsigned_integer f0) as [b|] eqn:E0; [|done].
  destruct (unsigned_integer f1) as [n|] eqn:E1; [|done]. cbn [obind]. intros [= <-].
  assert (forall t v, unsigned_integer t = Ok v -> u64 v) as Hu.
  { intros t v. unfold unsigned_integer. repeat case_match; try done. intros [= <-].
    by eapply from_chars_u64_range. }
  split; [split_and!; simpl; eauto|]. simpl. unfold relative_path in En.
  destruct (_ || _) eqn:Hb in En; [done|]. apply orb_false_iff in Hb as [Hb%bool_decide_eq_false _].
  case_bool_decide; [done|]. injection En as <-. unfold join_path.
  assert (forall l : list Z, l <> [] -> text l <> ""%string) as Ht by (by intros [|]).
  destruct (last root) as [z|]; [case_match|]; apply Ht; [|by destruct root|done]. by destruct root, f3.
Qed.

Lemma own_extents_Forall (P : PayloadExtent -> Prop) per exts i : Forall P exts -> Forall P (own_extents per exts i).
Proof. intros H. by apply Forall_take, Forall_drop. Qed.

(** A record of a loaded catalog and the row it came from. *)
Lemma loaded_record c ef cf k layer expert r :
  typed_catalog c -> index_fits ef -> load c ef cf empty_catalog = (success, k) ->
  u32 layer -> u32 expert -> find_record layer expert k = Some r ->
  Forall typed_extent (Storage.extents r) /\ Forall (fun e => pe_path e <> ""%string) (Storage.extents r) /\
  contiguous 0 (Storage.extents r) = Ok (stored_bytes r) /\ stored_bytes r = cc_stored_bytes c /\
  0 < cc_stored_bytes c.
Proof.
  intros Ht Hfit E Hl He Hr. unfold load in E. simpl in E.
  destruct (valid c) eqn:Hv; simpl in E; [|done].
  pose proof (load_catalog_spec c ef cf Hv Ht Hfit) as Hs.
  destruct (load_catalog c ef cf) as [k'|e]; [|by destruct e]. injection E as ->.
  destruct Hs as (sel & h & erows & exts & rows & _ & (_ & _ & Hf2) & _ & _ & Hn & _ & _ & _ & Hlen & Hrec).
  unfold find_record in Hr. destruct (_ || _) eqn:Hb in Hr; [done|].
  destruct (lookup_lt_is_Some_2 rows (Z.to_nat (add64 (mul64 layer (experts_ k)) expert))) as [line Hline].
  { rewrite <- Hlen. by eapply lookup_lt_Some. }
  destruct (Hrec _ _ Hline) as (r' & Hr' & [D1 D2 D3 D4 D5 D6 D7]). simplify_eq.
  assert (stored_bytes r = cc_stored_bytes c) as Es by (apply (f_equal stored_bytes) in D7; by destruct r).
  assert (Forall (fun e => typed_extent e /\ pe_path e <> ""%string) exts) as Hall.
  { apply Forall_forall. intros e [i Hi]%list_elem_of_lookup_1.
    destruct (Forall2_lookup_r _ _ _ _ _ Hf2 Hi) as (x & _ & Hx). by eapply parse_extent_typed. }
  rewrite D4, Es. split_and!.
  - apply own_extents_Forall. eapply Forall_impl; [exact Hall|]. by intros ? [? _].
  - apply own_extents_Forall. eapply Forall_impl; [exact Hall|]. by intros ? [_ ?].
  - by rewrite <- D4.
  - done.
  - unfold valid in Hv. repeat rewrite andb_true_iff in Hv. destruct Ht as [_ _ T3 _].
    assert (cc_stored_bytes c <> 0) by (apply Z.eqb_neq, negb_true_iff; tauto). unfold u64 in T3. lia.
Qed.

(** The records of a catalog are requests for the gathering storage: into any buffer
    that is large enough, the read of a record that was found is accepted exactly when
    none of its extents is empty or past the end of the 64-bit range, and their sizes
    add up to the stored size without wrapping around, which the catalog itself does not
    check. *)
Theorem catalog_records_gather `{StdSort, !StdSortSpec _} c ef cf k layer expert r buffer direct :
  typed_catalog c -> index_fits ef -> load c ef cf empty_catalog = (success, k) ->
  u32 layer -> u32 expert -> find_record layer expert k = Some r ->
  data buffer <> None -> stored_bytes r <= buffer_capacity buffer ->
  (validate_gather (mkReadRequest r buffer direct) = success <->
   Forall readable (Storage.extents r) /\ payload_bytes r = stored_bytes r).
Proof.
  intros Ht Hfit E Hl He Hr Hdata Hcap.
  destruct (loaded_record c ef cf k layer expert r Ht Hfit E Hl He Hr) as (Hty & Hpath & Hc & Hst & Hpos).
  destruct Ht as [_ _ T3 _]. rewrite <- Hst in *.
  rewrite validate_gather_iff by (split; done). unfold payload_bytes. split.
  - intros [_ _ Hp Hcov _]. simpl in *. split.
    + eapply Forall_impl; [exact Hp|]. intros e (_ & ? & ?). done.
    + symmetry. rewrite <- (Z.add_0_l (sumZ _)). apply (contiguous_inside _ 0); [done| |done].
      apply Forall_forall. intros e Hin. destruct (proj1 (Forall_forall _ _) Hp e Hin) as (_ & Hpe & _).
      split; [done|]. destruct (proj1 (Forall_forall _ _) Hty e Hin) as (_ & Hd & _). unfold u64 in *.
      assert (Exists (covers (destination_offset e + pe_bytes e - 1)) (Storage.extents r)) as Hex
        by (apply Exists_exists; exists e; split; [done|unfold covers; lia]).
      apply Hcov in Hex. lia.
  - intros [Hre Hsum]. destruct (contiguous_sum (Storage.extents r) 0 (stored_bytes r) ltac:(lia)) as [Hcons _].
    + eapply Forall_impl; [exact Hre|]. by intros ? [? _].
    + rewrite Hsum. unfold u64 in T3. lia.
    + exact Hc.
    + assert (Forall proper_extent (Storage.extents r)) as Hpr.
      { apply Forall_forall. intros e Hin. destruct (proj1 (Forall_forall _ _) Hre e Hin).
        split_and!; [by apply (proj1 (Forall_forall _ _) Hpath e Hin)|done|done]. }
      destruct (consecutive_tiles _ _ _ Hpr Hcons) as [Hcov Hap]. split; simpl; try done. 
Qed.

(** ** From records *)

Definition sound_record (r : PayloadRecord) : Prop := stored_bytes r <> 0 /\ source_abi r <> 0.

Lemma sum_records_spec l source :
  u64 source -> Forall (fun r => u64 (stored_bytes r)) l ->
  (status_ok (sum_records source l).1 = true <->
   Forall sound_record l /\ source + sumZ (map stored_bytes l) <= U64_MAX) /\
  (status_ok (sum_records source l).1 = true ->
   (sum_records source l).2 = source + sumZ (map stored_bytes l)).
Proof.
  intros Hs Hl. revert source Hs. induction Hl as [|r l Hr Hl IH]; intros source Hs; simpl.
  { split; [|lia]. split; [|done]. intros _. split; [constructor|]. unfold u64 in Hs. lia. }
  assert (0 <= sumZ (map stored_bytes l)) as Hn.
  { apply sumZ_nonneg, Forall_fmap. eapply Forall_impl; [exact Hl|]. unfold u64. simpl. lia. }
  destruct (_ || _) eqn:Hb.
  { split; [|done]. split; [done|]. intros [[[? ?] _]%Forall_cons _].
    apply orb_true_iff in Hb as [?%Z.eqb_eq|?%Z.eqb_eq]; congruence. }
  apply orb_false_iff in Hb as [B1%Z.eqb_neq B2%Z.eqb_neq]. unfold u64 in *.
  destruct (Z.ltb_spec (U64_MAX - stored_bytes r) source).
  { split; [|done]. split; [done|]. intros [_ ?]. lia. }
  destruct (IH (add64 source (stored_bytes r))) as [H1 H2];
    [unfold add64; rewrite wrap64_small by (unfold u64; lia); lia|].
  unfold add64 in *. rewrite wrap64_small in * by (unfold u64; lia). split.
  - rewrite H1, Forall_cons. split; intros [? ?]; (split; [|lia]); [by split|tauto].
  - intros Hok. rewrite H2 by done. lia.
Qed.

(** A catalog is built from records exactly when they are as many as announced, each has a
    size and an ABI, and the total fits 64 bits; the total is then exact. *)
Lemma from_records_spec layers experts rs st k :
  u32 layers -> u32 experts -> Forall (fun r => u64 (stored_bytes r)) rs ->
  from_records layers experts rs empty_catalog = (st, k) ->
  (st = success <->
   layers <> 0 /\ experts <> 0 /\ Z.of_nat (length rs) = layers * experts /\
   Forall sound_record rs /\ sumZ (map stored_bytes rs) <= U64_MAX) /\
  (st = success -> source_bytes_ k = sumZ (map stored_bytes rs) /\
     forall layer expert, 0 <= layer < layers -> 0 <= expert < experts ->
       find_record layer expert k = rs !! Z.to_nat (layer * experts + expert)).
Proof.
  intros Hl He Hrs. unfold from_records. simpl. unfold u32, U32_MAX in *.
  assert (mul64 layers experts = layers * experts) as Em
    by (unfold mul64; apply wrap64_small; unfold u64, U64_MAX; nia).
  rewrite Em. destruct (_ || _ || _) eqn:Hb.
  { intros [= <- <-]. split; [|done]. split; [done|]. intros (? & ? & ? & _).
    apply orb_true_iff in Hb as [[?%Z.eqb_eq|?%Z.eqb_eq]%orb_true_iff|?%negb_true_iff%Z.eqb_neq]; congruence. }
  apply orb_false_iff in Hb as [[B1%Z.eqb_neq B2%Z.eqb_neq]%orb_false_iff B3%negb_false_iff%Z.eqb_eq].
  destruct (sum_records_spec rs 0 ltac:(unfold u64, U64_MAX; lia) Hrs) as [H1 H2].
  destruct (sum_records 0 rs) as [status source]. simpl in *. destruct (status_ok status) eqn:Hok; simpl.
  - intros [= <- <-]. simpl. split; [tauto|]. intros _. split; [by apply H2|].
    intros layer expert ? ?. unfold find_record. simpl. rewrite Em, B3, Z.eqb_refl.
    rewrite !(proj2 (Z.leb_gt _ _)) by lia. simpl. do 2 f_equal. unfold mul64, add64.
    rewrite wrap64_add_l. apply wrap64_small. unfold u64, U64_MAX. nia.
  - intros [= <- <-]. split; [|by intros ->]. split; [by intros ->|]. intros (_ & _ & _ & ? & ?).
    exfalso. assert (false = true); [|done]. apply H1. split; [done|lia].
Qed.

(** ** A catalog of two experts *)

Definition demo_line (items : list string) : list Z :=
  foldr (fun item rest => match rest with [] => bytes item | _ => bytes item ++ 9 :: rest end) [] items ++ [10].

Definition demo_digest : string :=
  "000102030405060708090a0b0c0d0e0f101112131415161718191A1B1C1D1E1F".

Definition demo_catalog_config : ExpertCatalogConfig :=
  mkCatalogConfig (bytes "pack") (bytes "shards/") 1 2 64 32 16 100 100 100 1 0 256 4096
    [mkLayout (bytes "extents-v1") (bytes "catalog-v1") 2 false].

Definition demo_extent_file : File := mkFile (demo_line ["extents-v1"] ++
  demo_line ["0"; "60"; "4096"; "a.safetensors"] ++ demo_line ["60"; "40"; "0"; "b.safetensors"] ++
  demo_line ["0"; "50"; "8192"; "a.safetensors"] ++ demo_line ["50"; "50"; "40"; "b.safetensors"]) true.

Definition demo_catalog_file : File := mkFile (demo_line ["catalog-v1"] ++
  demo_line ["0"; "0"; "100"; demo_digest; "0"; "2"] ++ demo_line ["0"; "1"; "100"; demo_digest; "2"; "2"]) true.

Definition demo_catalog : ExpertCatalog :=
  (load demo_catalog_config (Some demo_extent_file) (Some demo_catalog_file) empty_catalog).2.

Example demo_catalog_loads :
  load demo_catalog_config (Some demo_extent_file) (Some demo_catalog_file) empty_catalog = (success, demo_catalog) /\
  option_map Storage.extents (find_record 0 1 demo_catalog) =
    Some [mkPayloadExtent "shards/a.safetensors" 8192 0 50; mkPayloadExtent "shards/b.safetensors" 40 50 50].
Proof. split; vm_compute; reflexivity. Qed.

Lemma demo_catalog_typed : typed_catalog demo_catalog_config.
Proof. split; repeat constructor; simpl; unfold U32_MAX, U64_MAX; lia. Qed.

Lemma catalog_load_finds_witness :
  find_record 0 1 demo_catalog <> None /\ find_record 1 0 demo_catalog = None.
Proof.
  destruct (catalog_load_finds demo_catalog_config (Some demo_extent_file) (Some demo_catalog_file) empty_catalog
    success demo_catalog demo_catalog_typed) as (_ & H & _); [vm_compute; reflexivity|apply demo_catalog_loads|].
  destruct (H eq_refl) as (sel & h & erows & exts & rows & _ & _ & _ & _ & _ & Hf). split.
  - destruct (Hf 0 1 ltac:(unfold u32, U32_MAX; lia) ltac:(unfold u32, U32_MAX; lia)) as (i & line & r & _ & _ & Hr & _).
    rewrite Hr. discriminate.
  - exact (Hf 1 0 ltac:(unfold u32, U32_MAX; lia) ltac:(unfold u32, U32_MAX; lia)).
Defined.

Definition demo_found : PayloadRecord := default default_record (find_record 0 1 demo_catalog).

Lemma catalog_records_gather_witness :
  validate_gather (H := stable_std_sort) (mkReadRequest demo_found (mkMutableBuffer (Some 4096) 128) false) = success.
Proof.
  apply (catalog_records_gather (H := stable_std_sort) (StdSortSpec0 := stable_std_sort_spec)
    demo_catalog_config (Some demo_extent_file) (Some demo_catalog_file) demo_catalog 0 1 demo_found
    (mkMutableBuffer (Some 4096) 128) false demo_catalog_typed).
  - vm_compute. reflexivity.
  - apply demo_catalog_loads.
  - unfold u32, U32_MAX. lia.
  - unfold u32, U32_MAX. lia.
  - vm_compute. reflexivity.
  - discriminate.
  - vm_compute. discriminate.
  - split; [|vm_compute; reflexivity].
    change (Storage.extents demo_found) with
      [mkPayloadExtent "shards/a.safetensors" 8192 0 50; mkPayloadExtent "shards/b.safetensors" 40 50 50].
    repeat constructor; simpl; unfold U64_MAX; lia.
Defined.
