(* ===== verification/ModelDescriptor.v ===== *)
(** Model of [model_descriptor.cpp]: the description of a model that an artifact carries,
    its validation, and its compilation into a program of numeric indices. A [std::map] is
    a [gmap] visited in key order, strings are byte strings; what a provider validates
    about a model is the provider's own code, a parameter. *)

From S2P Require Import Prelude.
From S2P Require Import Storage.
From S2P Require Import Text.

(** ** The descriptor *)

Notation Parameters := (gmap (list Z) Z).
Notation TensorBindings := (gmap (list Z) (list Z)).

Definition kModelLevelOperationLayer : Z := U32_MAX.

Record RouterProgramDescriptor := mkRouter {
  rt_capability : list Z;
  rt_abi_version : Z;
  rt_parameters : Parameters }.

Record RoutedExpertComponentDescriptor := mkComponent {
  rc_name : list Z;
  rc_namespace_id : Z;
  rc_layer_count : Z;
  rc_experts_per_layer : Z;
  rc_route_width : Z;
  rc_shared_experts_per_layer : Z;
  rc_hidden_size : Z;
  rc_intermediate_size : Z;
  rc_execution_capability : list Z;
  rc_execution_abi : Z;
  rc_source_abi : Z;
  rc_encoding_abi : Z;
  rc_encoding : list Z;
  rc_attributes : Parameters;
  rc_router : RouterProgramDescriptor }.

Record KernelRequirement := mkRequirement { kr_capability : list Z; kr_abi_version : Z }.

Record LayerProgramDescriptor := mkLayer {
  ly_logical_layer : Z;
  ly_block_capability : list Z;
  ly_block_abi_version : Z;
  ly_routed_component : list Z;
  ly_component_layer : Z;
  ly_parameters : Parameters }.

(** [ValueBinding] and [ProgramEndpointDescriptor]: a value and its ABI. *)
Record ValueBinding := mkBinding { vb_value : list Z; vb_abi : list Z }.

Record OperationProgramDescriptor := mkOperation {
  op_logical_operation : Z;
  op_logical_layer : Z;
  op_capability : list Z;
  op_abi_version : Z;
  op_routed_component : list Z;
  op_component_layer : Z;
  op_parameters : Parameters;
  op_tensor_bindings : TensorBindings;
  op_input_bindings : gmap (list Z) ValueBinding;
  op_output_bindings : gmap (list Z) ValueBinding }.

Record ExactDecodeProgramDescriptor := mkDecode {
  ed_capability : list Z;
  ed_abi_version : Z;
  ed_maximum_emitted_tokens : Z;
  ed_parameters : Parameters;
  ed_tensor_bindings : TensorBindings }.

Record ModelDescriptor := mkDescriptor {
  schema_version : Z;
  architecture_id : list Z;
  content_hash : list Z;
  vocab_size : Z;
  max_context_tokens : Z;
  hidden_size : Z;
  attributes : Parameters;
  tensor_bindings : TensorBindings;
  routed_components : list RoutedExpertComponentDescriptor;
  required_kernels : list KernelRequirement;
  layer_program : list LayerProgramDescriptor;
  operation_program : list OperationProgramDescriptor;
  program_inputs : gmap (list Z) ValueBinding;
  program_outputs : gmap (list Z) ValueBinding;
  exact_decode_program : option ExactDecodeProgramDescriptor }.

(** A capability a provider offers. [kc_validate] is the provider's own check of a whole
    model; like any [std::function] it can throw. *)
Record KernelCapability := mkCapability {
  kc_capability : list Z;
  kc_minimum_abi : Z;
  kc_maximum_abi : Z;
  kc_validate : option (ModelDescriptor -> outcome Status) }.

(** ** Small helpers *)

Definition valid_atom (t : list Z) : bool :=
  negb (bool_decide (t = [])) && forallb (fun c => negb ((c =? 9) || (c =? 13) || (c =? 10))) t.

Definition expert_table_entries (c : RoutedExpertComponentDescriptor) : Z :=
  mul64 (rc_layer_count c) (rc_experts_per_layer c).

Definition find_routed_component (d : ModelDescriptor) (name : list Z)
  : option RoutedExpertComponentDescriptor :=
  snd <$> list_find (fun c => rc_name c = name) (routed_components d).

(** The first eight bytes, the least significant first; zero is not an identity. *)
Definition namespace_id_from_content_hash (digest : list Z) : Z :=
  let value := foldr (fun b v => Z.lor b (Z.shiftl v 8)) 0 (take 8 digest) in
  if value =? 0 then 1 else value.

(** ** Code that returns a status early *)

Definition checked (A : Type) : Type := (Status + A)%type.
Definition invalid {A : Type} (message : string) : checked A := inl (mkStatus invalid_arg message).
Definition cbind {A B : Type} (m : checked A) (k : A -> checked B) : checked B :=
  match m with inl s => inl s | inr a => k a end.

Declare Scope checked_scope.
Notation "'let?' p ':=' m 'in' k" := (cbind m (fun p => k))
  (at level 10, p pattern, m at level 100, k at level 200) : checked_scope.
#[global] Open Scope checked_scope.

(** [if (refused) return invalid(message);] *)
Definition guard_not (refused : bool) (message : string) : checked unit :=
  if refused then invalid message else inr tt.

(** A loop that updates its state or returns. *)
Fixpoint check_each {A S : Type} (f : A -> S -> checked S) (l : list A) (s : S) : checked S :=
  match l with [] => inr s | a :: l => let? s := f a s in check_each f l s end.

(** The status of a function whose last statement returns success. *)
Definition status_of {A : Type} (m : checked A) : Status := match m with inl s => s | inr _ => success end.

(** ** Validation *)

Definition validate_routed_component (item : RoutedExpertComponentDescriptor) (model_hidden_size : Z)
  : Status :=
  if bool_decide (rc_name item = []) || (rc_namespace_id item =? 0) || (rc_layer_count item =? 0) ||
     (rc_experts_per_layer item =? 0) || (rc_route_width item =? 0) ||
     (rc_experts_per_layer item <? rc_route_width item) || (rc_hidden_size item =? 0) ||
     (rc_intermediate_size item =? 0) || (rc_source_abi item =? 0) || (rc_encoding_abi item =? 0) ||
     bool_decide (rc_execution_capability item = []) || (rc_execution_abi item =? 0) ||
     bool_decide (rc_encoding item = []) || negb (rc_hidden_size item =? model_hidden_size)
  then mkStatus invalid_arg "routed expert component geometry or identity is invalid"
  else if U64_MAX / 128 <? expert_table_entries item
  then mkStatus invalid_arg "routed expert table exceeds addressable metadata"
  else success.

Definition incomplete (d : ModelDescriptor) : bool :=
  (negb (schema_version d =? 1) && negb (schema_version d =? 2) && negb (schema_version d =? 3)) ||
  bool_decide (architecture_id d = []) || (vocab_size d =? 0) || (max_context_tokens d =? 0) ||
  (hidden_size d =? 0) || bool_decide (layer_program d = []) || bool_decide (required_kernels d = []).

Definition valid_tensors (m : TensorBindings) : bool :=
  forallb (fun kv => valid_atom kv.1 && valid_atom kv.2) (ordered bytes_ltb m).

Definition valid_ports (m : gmap (list Z) ValueBinding) : bool :=
  forallb (fun kv => valid_atom kv.1 && valid_atom (vb_value kv.2) && valid_atom (vb_abi kv.2))
    (ordered bytes_ltb m).

Definition check_component (d : ModelDescriptor) (item : RoutedExpertComponentDescriptor)
    (seen : gset (list Z) * gset Z) : checked (gset (list Z) * gset Z) :=
  let component_status := validate_routed_component item (hidden_size d) in
  if negb (status_ok component_status) then inl component_status
  else if bool_decide (rc_name item ∈ seen.1) || bool_decide (rc_namespace_id item ∈ seen.2)
  then invalid "routed expert component geometry or identity is invalid"
  else inr ({[rc_name item]} ∪ seen.1, {[rc_namespace_id item]} ∪ seen.2).

Definition requirement_key (item : KernelRequirement) : list Z * Z := (kr_capability item, kr_abi_version item).

Definition check_requirement (item : KernelRequirement) (requirements : gset (list Z * Z))
  : checked (gset (list Z * Z)) :=
  if bool_decide (kr_capability item = []) || (kr_abi_version item =? 0) ||
     bool_decide (requirement_key item ∈ requirements)
  then invalid "kernel requirement is invalid or duplicated"
  else inr ({[requirement_key item]} ∪ requirements).

Definition check_exact_decode (d : ModelDescriptor) (requirements : gset (list Z * Z)) : checked unit :=
  match exact_decode_program d with
  | None => inr tt
  | Some decode =>
    let? _ := guard_not ((schema_version d <? 3) || negb (valid_atom (ed_capability decode)) ||
                (ed_abi_version decode =? 0) || (ed_maximum_emitted_tokens decode <? 2) ||
                negb (bool_decide ((ed_capability decode, ed_abi_version decode) ∈ requirements)))
                "exact decode program is invalid or unsupported" in
    let? _ := guard_not (negb (forallb (fun kv => valid_atom kv.1) (ordered bytes_ltb (ed_parameters decode))))
                "exact decode program parameter is invalid" in
    guard_not (negb (valid_tensors (ed_tensor_bindings decode))) "exact decode tensor binding is invalid"
  end.

Definition check_component_kernels (d : ModelDescriptor) (requirements : gset (list Z * Z))
    (item : RoutedExpertComponentDescriptor) (_ : unit) : checked unit :=
  let? _ := guard_not (negb (bool_decide ((rc_execution_capability item, rc_execution_abi item) ∈ requirements)))
              "routed component lacks its execution kernel requirement" in
  let router := rc_router item in
  let has_router := negb (bool_decide (rt_capability router = [])) in
  guard_not (((2 <=? schema_version d) && negb has_router) ||
             (has_router &&
              ((rt_abi_version router =? 0) ||
               negb (bool_decide ((rt_capability router, rt_abi_version router) ∈ requirements)))))
    "routed component lacks its routing kernel requirement".

(** A layer or operation that names a component names an existing layer of it. *)
Definition component_available (d : ModelDescriptor) (name : list Z) (component_layer : Z) : bool :=
  match find_routed_component d name with
  | None => false
  | Some component => component_layer <? rc_layer_count component
  end.

Definition check_layer (d : ModelDescriptor) (requirements : gset (list Z * Z))
    (layer : LayerProgramDescriptor) (logical_layers : gset Z) : checked (gset Z) :=
  if bool_decide (ly_block_capability layer = []) || (ly_block_abi_version layer =? 0) ||
     negb (ly_logical_layer layer =? Z.of_nat (size logical_layers)) ||
     bool_decide (ly_logical_layer layer ∈ logical_layers) ||
     negb (bool_decide ((ly_block_capability layer, ly_block_abi_version layer) ∈ requirements))
  then invalid "layer program is invalid or lacks a kernel requirement"
  else if negb (bool_decide (ly_routed_component layer = [])) then
    if negb (component_available d (ly_routed_component layer) (ly_component_layer layer))
    then invalid "layer program references an unavailable expert component"
    else inr ({[ly_logical_layer layer]} ∪ logical_layers)
  else if negb (ly_component_layer layer =? 0)
  then invalid "dense layer program has a routed component index"
  else inr ({[ly_logical_layer layer]} ∪ logical_layers).

(** [*begin() != 0 || *rbegin() + 1 != size()] on a set, which is not empty there. *)
Definition not_contiguous (s : gset Z) : bool :=
  let ascending := stable_sort Z.ltb (elements s) in
  negb (bool_decide (head ascending = Some 0)) ||
  negb (bool_decide ((fun last => last + 1) <$> last ascending = Some (Z.of_nat (size s)))).

(** The variables of the loop over the operations. *)
Record OperationScan := mkScan {
  logical_operations : gset Z;
  operation_layers : gset Z;
  previous_layer : Z;
  first_operation : bool }.

Definition check_operation (d : ModelDescriptor) (requirements : gset (list Z * Z)) (logical_layers : gset Z)
    (operation : OperationProgramDescriptor) (s : OperationScan) : checked OperationScan :=
  let model_level := op_logical_layer operation =? kModelLevelOperationLayer in
  let? _ := guard_not (bool_decide (op_capability operation = []) || (op_abi_version operation =? 0) ||
              negb (op_logical_operation operation =? Z.of_nat (size (logical_operations s))) ||
              bool_decide (op_logical_operation operation ∈ logical_operations s) ||
              (negb model_level && negb (bool_decide (op_logical_layer operation ∈ logical_layers))) ||
              (model_level && (schema_version d <? 3)) ||
              (negb model_level && negb (first_operation s) && (op_logical_layer operation <? previous_layer s)) ||
              negb (bool_decide ((op_capability operation, op_abi_version operation) ∈ requirements)))
              "operation program is invalid or unsupported" in
  let? _ := guard_not (negb (valid_tensors (op_tensor_bindings operation)))
              "operation tensor binding is invalid" in
  let? _ := guard_not (negb (valid_ports (op_input_bindings operation))) "operation input binding is invalid" in
  let? _ := guard_not (negb (valid_ports (op_output_bindings operation))) "operation output binding is invalid" in
  let s := mkScan ({[op_logical_operation operation]} ∪ logical_operations s) (operation_layers s)
             (previous_layer s) (first_operation s) in
  let s := if negb model_level
           then mkScan (logical_operations s) ({[op_logical_layer operation]} ∪ operation_layers s)
                  (op_logical_layer operation) false
           else s in
  if negb (bool_decide (op_routed_component operation = [])) then
    if model_level then invalid "model-level operation references an expert component"
    else if negb (component_available d (op_routed_component operation) (op_component_layer operation))
    then invalid "operation program references an unavailable expert component"
    else inr s
  else if negb (op_component_layer operation =? 0)
  then invalid "model-level operation has a component-local index"
  else inr s.

(** Some operation of the layer has this capability and the layer's component. *)
Definition operation_present (d : ModelDescriptor) (layer : LayerProgramDescriptor) (capability : list Z) (abi : Z)
  : bool :=
  existsb (fun operation =>
    (op_logical_layer operation =? ly_logical_layer layer) &&
    bool_decide (op_routed_component operation = ly_routed_component layer) &&
    (op_component_layer operation =? ly_component_layer layer) &&
    bool_decide (op_capability operation = capability) && (op_abi_version operation =? abi))
    (operation_program d).

Definition check_routed_layer (d : ModelDescriptor) (layer : LayerProgramDescriptor) (_ : unit) : checked unit :=
  if bool_decide (ly_routed_component layer = []) then inr tt
  else
    guard_not
      match find_routed_component d (ly_routed_component layer) with
      | None => true
      | Some component =>
        negb (operation_present d layer (rt_capability (rc_router component)) (rt_abi_version (rc_router component))) ||
        negb (operation_present d layer (rc_execution_capability component) (rc_execution_abi component))
      end "routed layer lacks explicit router or expert operations".

Definition check_operations (d : ModelDescriptor) (requirements : gset (list Z * Z)) (logical_layers : gset Z)
  : checked unit :=
  let? _ := guard_not ((2 <=? schema_version d) && bool_decide (operation_program d = []))
              "schema v2 model descriptor lacks its operation program" in
  if bool_decide (operation_program d = []) then inr tt
  else
    let? s := check_each (check_operation d requirements logical_layers) (operation_program d)
                (mkScan ∅ ∅ 0 true) in
    let? _ := guard_not (not_contiguous (logical_operations s) || negb (bool_decide (operation_layers s = logical_layers)))
                "operation program indices or layer coverage are invalid" in
    if 2 <=? schema_version d then check_each (check_routed_layer d) (layer_program d) tt else inr tt.

(** The values an operation can use: their names and ABIs. *)
Notation Values := (gmap (list Z) (list Z)).

Definition check_input (kv : list Z * ValueBinding) (available : Values) : checked Values :=
  if negb (valid_atom kv.1) || negb (valid_atom (vb_value kv.2)) || negb (valid_atom (vb_abi kv.2)) ||
     bool_decide (is_Some (available !! vb_value kv.2))
  then invalid "schema v3 program input is invalid or duplicated"
  else inr (<[vb_value kv.2 := vb_abi kv.2]> available).

Definition value_available (available : Values) (b : ValueBinding) : bool :=
  bool_decide (available !! vb_value b = Some (vb_abi b)).

Definition check_output (kv : list Z * ValueBinding) (available : Values) : checked Values :=
  if bool_decide (is_Some (available !! vb_value kv.2))
  then invalid "schema v3 operation output has multiple producers"
  else inr (<[vb_value kv.2 := vb_abi kv.2]> available).

Definition check_data_flow (operation : OperationProgramDescriptor) (available : Values) : checked Values :=
  let? _ := guard_not (bool_decide (op_input_bindings operation = ∅) && bool_decide (op_output_bindings operation = ∅))
              "schema v3 operation lacks explicit data flow" in
  let? _ := guard_not (negb (forallb (fun kv => value_available available kv.2)
                                 (ordered bytes_ltb (op_input_bindings operation))))
              "schema v3 operation input is unavailable or has the wrong ABI" in
  check_each check_output (ordered bytes_ltb (op_output_bindings operation)) available.

Definition check_endpoint (available : Values) (kv : list Z * ValueBinding) : bool :=
  valid_atom kv.1 && valid_atom (vb_value kv.2) && valid_atom (vb_abi kv.2) && value_available available kv.2.

Definition check_program (d : ModelDescriptor) : checked unit :=
  if schema_version d <? 3 then
    guard_not (negb (bool_decide (program_inputs d = ∅)) || negb (bool_decide (program_outputs d = ∅)) ||
               negb (bool_decide (exact_decode_program d = None)) ||
               existsb (fun item => negb (bool_decide (op_input_bindings item = ∅)) ||
                                    negb (bool_decide (op_output_bindings item = ∅))) (operation_program d))
      "legacy model descriptor contains schema v3 data flow"
  else
    let? _ := guard_not (bool_decide (program_inputs d = ∅) || bool_decide (program_outputs d = ∅))
                "schema v3 model descriptor lacks program endpoints" in
    let? available := check_each check_input (ordered bytes_ltb (program_inputs d)) ∅ in
    let? available := check_each check_data_flow (operation_program d) available in
    guard_not (negb (forallb (check_endpoint available) (ordered bytes_ltb (program_outputs d))))
      "schema v3 program output is unavailable or invalid".

Definition validate_model_descriptor (d : ModelDescriptor) : Status :=
  status_of
    (let? _ := guard_not (incomplete d) "model descriptor architecture is incomplete" in
     let? _ := guard_not (negb (valid_tensors (tensor_bindings d))) "model tensor binding is invalid" in
     let? _ := check_each (check_component d) (routed_components d) (∅, ∅) in
     let? requirements := check_each check_requirement (required_kernels d) ∅ in
     let? _ := check_exact_decode d requirements in
     let? _ := check_each (check_component_kernels d requirements) (routed_components d) tt in
     let? logical_layers := check_each (check_layer d requirements) (layer_program d) ∅ in
     let? _ := guard_not (not_contiguous logical_layers) "layer program logical indices are not contiguous" in
     let? _ := check_operations d requirements logical_layers in
     check_program d).

(** ** Negotiation with a provider *)

Definition implements (required : KernelRequirement) (available : KernelCapability) : bool :=
  bool_decide (kc_capability available = kr_capability required) &&
  (kc_minimum_abi available <=? kr_abi_version required) && (kr_abi_version required <=? kc_maximum_abi available).

(** The loop over the requirements. *)
Fixpoint supports_loop (d : ModelDescriptor) (capabilities : list KernelCapability) (l : list KernelRequirement)
  : outcome Status :=
  match l with
  | [] => Ok success
  | required :: l =>
    match list_find (fun c => implements required c = true) capabilities with
    | None =>
      Ok (mkStatus invalid_arg ("execution provider lacks required kernel capability: " +:+ text (kr_capability required)))
    | Some (_, found) =>
      match kc_validate found with
      | None => supports_loop d capabilities l
      | Some validate =>
        let! constrained := validate d in
        if negb (status_ok constrained) then Ok constrained else supports_loop d capabilities l
      end
    end
  end.

(** What an exception says: its message is the thrower's. *)
Definition what (e : exn) : string :=
  match e with
  | invalid_argument s | logic_error s | runtime_error s | undefined_behavior s => s
  | out_of_range => "out of range"
  | bad_alloc => "bad allocation"
  | out_of_fuel => ""
  end.

(** [catch (const std::exception& error)]. *)
Definition catching (prefix : string) (m : outcome Status) : Status :=
  match m with Ok s => s | Throw e => mkStatus internal (prefix +:+ what e) end.

Definition provider_supports_model (d : ModelDescriptor) (capabilities : list KernelCapability) : Status :=
  catching "execution provider validation failed: "
    (let valid := validate_model_descriptor d in
     if negb (status_ok valid) then Ok valid else supports_loop d capabilities (required_kernels d)).
