(* ===== verification/ModelDescriptorTheorems.v ===== *)
(** What the validation of a model descriptor decides: exactly the well-formedness below,
    which says of the names, kernels, layers, operations and values of a model what the
    loops of [validate_model_descriptor] check one at a time. *)

From S2P Require Import Prelude.
From S2P Require Import Storage.
From S2P Require Import Text.
From S2P Require Import ModelDescriptor.

(** ** Well-formed models *)

Definition atom (t : list Z) : Prop := t <> [] /\ 9 ∉ t /\ 10 ∉ t /\ 13 ∉ t.

Definition atoms (m : TensorBindings) : Prop := forall k v, m !! k = Some v -> atom k /\ atom v.

Definition ports_ok (m : gmap (list Z) ValueBinding) : Prop :=
  forall k b, m !! k = Some b -> atom k /\ atom (vb_value b) /\ atom (vb_abi b).

Definition kernel_required (d : ModelDescriptor) (capability : list Z) (abi : Z) : Prop :=
  mkRequirement capability abi ∈ required_kernels d.

Record component_ok (d : ModelDescriptor) (c : RoutedExpertComponentDescriptor) : Prop := mkComponentOk {
  ck_named : rc_name c <> [] /\ rc_encoding c <> [] /\ rc_execution_capability c <> [];
  ck_ids : rc_namespace_id c <> 0 /\ rc_source_abi c <> 0 /\ rc_encoding_abi c <> 0 /\ rc_execution_abi c <> 0;
  ck_shape : rc_layer_count c <> 0 /\ rc_experts_per_layer c <> 0 /\ rc_intermediate_size c <> 0 /\
    rc_route_width c <> 0 /\ rc_route_width c <= rc_experts_per_layer c /\
    rc_hidden_size c = hidden_size d;
  ck_table : rc_layer_count c * rc_experts_per_layer c <= U64_MAX / 128 }.

Definition router_ok (d : ModelDescriptor) (c : RoutedExpertComponentDescriptor) : Prop :=
  kernel_required d (rc_execution_capability c) (rc_execution_abi c) /\
  (2 <= schema_version d -> rt_capability (rc_router c) <> []) /\
  (rt_capability (rc_router c) <> [] ->
   rt_abi_version (rc_router c) <> 0 /\
   kernel_required d (rt_capability (rc_router c)) (rt_abi_version (rc_router c))).

(** What a layer or an operation says of its component: none, or an existing layer of it. *)
Definition component_named (d : ModelDescriptor) (name : list Z) (component_layer : Z) : Prop :=
  (name = [] /\ component_layer = 0) \/
  (name <> [] /\ exists c, c ∈ routed_components d /\ rc_name c = name /\ component_layer < rc_layer_count c).

Definition layer_ok (d : ModelDescriptor) (i : nat) (l : LayerProgramDescriptor) : Prop :=
  ly_logical_layer l = Z.of_nat i /\ ly_block_capability l <> [] /\ ly_block_abi_version l <> 0 /\
  kernel_required d (ly_block_capability l) (ly_block_abi_version l) /\
  component_named d (ly_routed_component l) (ly_component_layer l).

Definition model_level (o : OperationProgramDescriptor) : Prop := op_logical_layer o = kModelLevelOperationLayer.

Definition operation_ok (d : ModelDescriptor) (i : nat) (o : OperationProgramDescriptor) : Prop :=
  op_logical_operation o = Z.of_nat i /\ op_capability o <> [] /\ op_abi_version o <> 0 /\
  kernel_required d (op_capability o) (op_abi_version o) /\
  atoms (op_tensor_bindings o) /\ ports_ok (op_input_bindings o) /\ ports_ok (op_output_bindings o) /\
  component_named d (op_routed_component o) (op_component_layer o) /\
  (model_level o /\ 3 <= schema_version d /\ op_routed_component o = [] \/
   ~ model_level o /\ 0 <= op_logical_layer o < Z.of_nat (length (layer_program d))).

(** The layers of the operations that belong to one, in order. *)
Definition operation_levels (l : list OperationProgramDescriptor) : list Z :=
  filter (fun n => n <> kModelLevelOperationLayer) (op_logical_layer <$> l).

Definition has_operation (d : ModelDescriptor) (l : LayerProgramDescriptor) (capability : list Z) (abi : Z) : Prop :=
  exists o, o ∈ operation_program d /\ op_logical_layer o = ly_logical_layer l /\
    op_routed_component o = ly_routed_component l /\ op_component_layer o = ly_component_layer l /\
    op_capability o = capability /\ op_abi_version o = abi.

Definition decode_ok (d : ModelDescriptor) (e : ExactDecodeProgramDescriptor) : Prop :=
  3 <= schema_version d /\ atom (ed_capability e) /\ ed_abi_version e <> 0 /\
  2 <= ed_maximum_emitted_tokens e /\ kernel_required d (ed_capability e) (ed_abi_version e) /\
  (forall k v, ed_parameters e !! k = Some v -> atom k) /\ atoms (ed_tensor_bindings e).

(** The values of a program in the order in which they are defined: its inputs, then the
    outputs of one operation after the other. *)
Definition bindings_of (m : gmap (list Z) ValueBinding) : list ValueBinding := (ordered bytes_ltb m).*2.
Definition produced (l : list OperationProgramDescriptor) : list ValueBinding :=
  l ≫= fun o => bindings_of (op_output_bindings o).
Definition producers_before (d : ModelDescriptor) (i : nat) : list ValueBinding :=
  bindings_of (program_inputs d) ++ produced (take i (operation_program d)).
Definition producers (d : ModelDescriptor) : list ValueBinding :=
  bindings_of (program_inputs d) ++ produced (operation_program d).

(** Static single assignment: every value has one producer and is used after it. *)
Record data_flow_ok (d : ModelDescriptor) : Prop := mkFlow {
  fl_endpoints : program_inputs d <> ∅ /\ program_outputs d <> ∅;
  fl_inputs : ports_ok (program_inputs d);
  fl_outputs : ports_ok (program_outputs d);
  fl_connected : forall o, o ∈ operation_program d -> op_input_bindings o <> ∅ \/ op_output_bindings o <> ∅;
  fl_single : NoDup (vb_value <$> producers d);
  fl_uses : forall i o port b, operation_program d !! i = Some o ->
    op_input_bindings o !! port = Some b -> b ∈ producers_before d i;
  fl_results : forall role b, program_outputs d !! role = Some b -> b ∈ producers d }.

Definition no_data_flow (d : ModelDescriptor) : Prop :=
  program_inputs d = ∅ /\ program_outputs d = ∅ /\ exact_decode_program d = None /\
  forall o, o ∈ operation_program d -> op_input_bindings o = ∅ /\ op_output_bindings o = ∅.

Record well_formed (d : ModelDescriptor) : Prop := mkWellFormed {
  wf_schema : schema_version d = 1 \/ schema_version d = 2 \/ schema_version d = 3;
  wf_sizes : architecture_id d <> [] /\ vocab_size d <> 0 /\ max_context_tokens d <> 0 /\ hidden_size d <> 0 /\
    layer_program d <> [] /\ required_kernels d <> [];
  wf_tensors : atoms (tensor_bindings d);
  wf_components : forall c, c ∈ routed_components d -> component_ok d c /\ router_ok d c;
  wf_names : NoDup (rc_name <$> routed_components d) /\ NoDup (rc_namespace_id <$> routed_components d);
  wf_kernels : NoDup (required_kernels d) /\
    forall k, k ∈ required_kernels d -> kr_capability k <> [] /\ kr_abi_version k <> 0;
  wf_decode : forall e, exact_decode_program d = Some e -> decode_ok d e;
  wf_layers : forall i l, layer_program d !! i = Some l -> layer_ok d i l;
  wf_explicit : 2 <= schema_version d -> operation_program d <> [];
  wf_operations : forall i o, operation_program d !! i = Some o -> operation_ok d i o;
  wf_order : StronglySorted Z.le (operation_levels (operation_program d));
  wf_covered : operation_program d <> [] ->
    forall n, 0 <= n < Z.of_nat (length (layer_program d)) -> n ∈ operation_levels (operation_program d);
  wf_routed : 2 <= schema_version d ->
    forall l, l ∈ layer_program d -> ly_routed_component l <> [] ->
    forall c, c ∈ routed_components d -> rc_name c = ly_routed_component l ->
    has_operation d l (rt_capability (rc_router c)) (rt_abi_version (rc_router c)) /\
    has_operation d l (rc_execution_capability c) (rc_execution_abi c);
  wf_flow : if schema_version d <? 3 then no_data_flow d else data_flow_ok d }.

(** Counts are 32-bit integers. *)
Definition component_typed (c : RoutedExpertComponentDescriptor) : Prop :=
  u32 (rc_layer_count c) /\ u32 (rc_experts_per_layer c).

(** ** The checking monad *)

Lemma cbind_inr {A B : Type} (m : checked A) (k : A -> checked B) b :
  cbind m k = inr b <-> exists a, m = inr a /\ k a = inr b.
Proof. destruct m; simpl; naive_solver. Qed.

Lemma guard_not_inr refused message u : guard_not refused message = inr u <-> refused = false.
Proof. destruct u. by destruct refused. Qed.

Lemma guard_then {B : Type} refused message (k : unit -> checked B) b :
  cbind (guard_not refused message) k = inr b <-> refused = false /\ k tt = inr b.
Proof. destruct refused; simpl; naive_solver. Qed.

Lemma if_invalid {A : Type} (refused : bool) message (m : checked A) a :
  (if refused then invalid message else m) = inr a <-> refused = false /\ m = inr a.
Proof. destruct refused; naive_solver. Qed.

Lemma inr_inr {A : Type} (x y : A) : (inr x : checked A) = inr y <-> y = x.
Proof. naive_solver. Qed.

(** Refusals carry the code of an invalid argument. *)
Definition rejects {A : Type} (m : checked A) : Prop :=
  match m with inl s => code s = invalid_arg | inr _ => True end.

Lemma rejects_cbind {A B : Type} (m : checked A) (k : A -> checked B) :
  rejects m -> (forall a, rejects (k a)) -> rejects (cbind m k).
Proof. destruct m; simpl; auto. Qed.

Lemma rejects_guard refused message : rejects (guard_not refused message).
Proof. by destruct refused. Qed.

Lemma rejects_each {A S : Type} (f : A -> S -> checked S) l s :
  (forall a s, rejects (f a s)) -> rejects (check_each f l s).
Proof. revert s. induction l as [|a l IH]; intros s Hf; simpl; [done|]. apply rejects_cbind; auto. Qed.

Lemma status_of_success {A : Type} (m : checked A) :
  rejects m -> status_of m = success <-> exists a, m = inr a.
Proof. destruct m as [s|a]; simpl; [|naive_solver]. intros H. split; [by intros ->|by intros [? ?]]. Qed.

(** Conjunctions out of the boolean guards of the code. *)
Ltac guards :=
  rewrite ?orb_false_iff, ?andb_true_iff, ?negb_false_iff, ?negb_true_iff, ?bool_decide_eq_true,
    ?bool_decide_eq_false, ?Z.eqb_eq, ?Z.eqb_neq, ?Z.ltb_lt, ?Z.ltb_ge, ?Z.leb_le.

Lemma forallb_elem {A : Type} (f : A -> bool) l : forallb f l = true <-> forall a, a ∈ l -> f a = true.
Proof. rewrite forallb_forall. by setoid_rewrite list_elem_of_In. Qed.

Lemma valid_atom_iff t : valid_atom t = true <-> atom t.
Proof.
  unfold valid_atom, atom. rewrite andb_true_iff, negb_true_iff, bool_decide_eq_false, forallb_elem.
  split.
  - intros [Hne Ht]. split; [done|]. split_and!; intros Hin; by apply Ht in Hin.
  - intros (Hne & H9 & H10 & H13). split; [done|]. intros c Hc.
    destruct (Z.eqb_spec c 9), (Z.eqb_spec c 13), (Z.eqb_spec c 10); subst; simpl; done.
Qed.

Lemma forallb_ordered {V} (m : gmap (list Z) V) (f : list Z * V -> bool) :
  forallb f (ordered bytes_ltb m) = true <-> forall k v, m !! k = Some v -> f (k, v) = true.
Proof.
  rewrite forallb_elem. split.
  - intros H k v Hkv. apply H. by apply elem_of_ordered.
  - intros H [k v] Hin. apply H. by eapply elem_of_ordered.
Qed.

Lemma valid_tensors_iff m : valid_tensors m = true <-> atoms m.
Proof.
  unfold valid_tensors, atoms. rewrite forallb_ordered. setoid_rewrite andb_true_iff. simpl.
  by setoid_rewrite valid_atom_iff.
Qed.

Lemma valid_ports_iff m : valid_ports m = true <-> ports_ok m.
Proof.
  unfold valid_ports, ports_ok. rewrite forallb_ordered.
  split; intros H k b Hk; specialize (H k b Hk); revert H; cbn [fst snd];
    rewrite !andb_true_iff, !valid_atom_iff; tauto.
Qed.

(** ** Kernels and components *)

(** A loop that collects distinct keys in a set. *)
Lemma check_each_distinct {A K : Type} `{Countable K} (f : A -> gset K -> checked (gset K)) (key : A -> K)
    (P : A -> Prop) :
  (forall a s s', f a s = inr s' <-> P a /\ key a ∉ s /\ s' = {[key a]} ∪ s) ->
  forall l s s', check_each f l s = inr s' <->
    (forall a, a ∈ l -> P a) /\ NoDup (key <$> l) /\ (forall a, a ∈ l -> key a ∉ s) /\
    s' = list_to_set (key <$> l) ∪ s.
Proof.
  intros Hf. induction l as [|a l IH]; intros s s'; simpl.
  - split.
    + intros [= <-]. split_and!; [set_solver|constructor|set_solver|by rewrite union_empty_l_L].
    + intros (_ & _ & _ & ->). by rewrite union_empty_l_L.
  - rewrite cbind_inr, NoDup_cons. split.
    + intros (s1 & (HP & Hk & ->)%Hf & (HPl & Hnd & Hfresh & ->)%IH). split_and!; [| |done| |].
      * intros b [->|Hb]%elem_of_cons; [done|auto].
      * intros (b & Hb & Hbl)%list_elem_of_fmap. specialize (Hfresh b Hbl). set_solver.
      * intros b [->|Hb]%elem_of_cons; [done|]. specialize (Hfresh b Hb). set_solver.
      * set_solver.
    + intros (HP & [Hk Hnd] & Hfresh & ->). exists ({[key a]} ∪ s). split.
      * apply Hf. split_and!; [apply HP; by left|apply Hfresh; by left|done].
      * apply IH. split_and!; [intros; apply HP; by right|done| |set_solver].
        intros b Hb. specialize (Hfresh b ltac:(by right)).
        intros [Hkb%elem_of_singleton|?]%elem_of_union; [|done].
        apply Hk. rewrite <- Hkb. apply list_elem_of_fmap. by exists b.
Qed.

Lemma check_requirements_inr l s' :
  check_each check_requirement l ∅ = inr s' <->
  (forall k, k ∈ l -> kr_capability k <> [] /\ kr_abi_version k <> 0) /\ NoDup l /\
  s' = list_to_set (requirement_key <$> l).
Proof.
  rewrite (check_each_distinct check_requirement requirement_key
    (fun k => kr_capability k <> [] /\ kr_abi_version k <> 0)).
  - rewrite union_empty_r_L, NoDup_fmap; [|intros [] []; unfold requirement_key; simpl; congruence]. set_solver.
  - intros k s s''. unfold check_requirement. rewrite if_invalid, inr_inr. guards. tauto.
Qed.

Lemma requirement_elem d capability abi :
  (capability, abi) ∈ (list_to_set (requirement_key <$> required_kernels d) : gset (list Z * Z)) <->
  kernel_required d capability abi.
Proof.
  rewrite elem_of_list_to_set, list_elem_of_fmap. unfold kernel_required, requirement_key. split.
  - intros ([] & [= -> ->] & ?). done.
  - intros ?. by exists (mkRequirement capability abi).
Qed.

Lemma validate_component_iff d c :
  component_typed c -> status_ok (validate_routed_component c (hidden_size d)) = true <->
  component_ok d c /\ hidden_size d <> 0.
Proof.
  intros [[? ?] [? ?]]. unfold validate_routed_component, expert_table_entries.
  unfold mul64. rewrite wrap64_small; [|unfold u64, u32, U32_MAX, U64_MAX in *; nia].
  match goal with |- context [if ?c then _ else _] => destruct c eqn:E end; [split; [done|]|].
  - intros [[(?&?&?) (?&?&?&?) (?&?&?&?&?&?) ?] ?]. exfalso. revert E. apply not_true_iff_false.
    guards. split_and!; congruence || lia || done.
  - revert E. guards. intros. destruct (Z.ltb_spec (U64_MAX / 128) (rc_layer_count c * rc_experts_per_layer c)).
    + split; [done|]. intros [[] _]. lia.
    + split; [|done]. intros _. repeat match goal with H : _ /\ _ |- _ => destruct H end.
      split; [split; split_and?; (done || lia || congruence)|congruence].
Qed.

Lemma check_component_inr d c seen seen' :
  component_typed c -> check_component d c seen = inr seen' <->
  (component_ok d c /\ hidden_size d <> 0) /\ rc_name c ∉ seen.1 /\ rc_namespace_id c ∉ seen.2 /\
  seen' = ({[rc_name c]} ∪ seen.1, {[rc_namespace_id c]} ∪ seen.2).
Proof.
  intros Ht. unfold check_component. rewrite <- (validate_component_iff d c Ht).
  destruct (status_ok _); simpl; [|split; [done|by intros [? _]]].
  rewrite if_invalid, inr_inr. guards. tauto.
Qed.

Lemma check_components_inr d l seen :
  Forall component_typed l ->
  (exists seen', check_each (check_component d) l seen = inr seen') <->
  (forall c, c ∈ l -> component_ok d c /\ hidden_size d <> 0) /\
  NoDup (rc_name <$> l) /\ NoDup (rc_namespace_id <$> l) /\
  forall c, c ∈ l -> rc_name c ∉ seen.1 /\ rc_namespace_id c ∉ seen.2.
Proof.
  intros Ht. revert seen. induction Ht as [|c l Hc _ IH]; intros seen; simpl.
  - split; [intros _|by eexists]. split_and!; try apply NoDup_nil_2; intros ? []%not_elem_of_nil.
  - setoid_rewrite cbind_inr. setoid_rewrite (check_component_inr d c seen _ Hc). rewrite !NoDup_cons. split.
    + intros (seen' & s1 & (Hok & Hn & Hi & ->) & Hl).
      destruct (proj1 (IH _) (ex_intro _ _ Hl)) as (Hall & Hdn & Hdi & Hfresh).
      assert (forall c', c' ∈ c :: l -> rc_name c' ∉ seen.1 /\ rc_namespace_id c' ∉ seen.2).
      { intros c' [->|Hin]%elem_of_cons; [done|]. specialize (Hfresh c' Hin). simpl in Hfresh. set_solver. }
      split_and!; try done.
      * intros c' [->|Hin]%elem_of_cons; [done|auto].
      * intros (c' & Heq & Hin)%list_elem_of_fmap. specialize (Hfresh c' Hin). simpl in Hfresh. set_solver.
      * intros (c' & Heq & Hin)%list_elem_of_fmap. specialize (Hfresh c' Hin). simpl in Hfresh. set_solver.
    + intros (Hall & [Hn Hdn] & [Hi Hdi] & Hfresh).
      destruct (Hfresh c ltac:(by left)) as [Hn1 Hi1].
      destruct (proj2 (IH ({[rc_name c]} ∪ seen.1, {[rc_namespace_id c]} ∪ seen.2))) as [s2 Hs2].
      { split_and!; [intros; apply Hall; by right|done|done|]. intros c' Hin. simpl.
        destruct (Hfresh c' ltac:(by right)). rewrite !not_elem_of_union, !not_elem_of_singleton.
        split_and!; try done; intros Heq; [apply Hn|apply Hi]; rewrite <- Heq; by apply list_elem_of_fmap_2. }
      exists s2. eexists. split; [|exact Hs2]. destruct (Hall c ltac:(by left)). done.
Qed.

Lemma check_exact_decode_inr d :
  check_exact_decode d (list_to_set (requirement_key <$> required_kernels d)) = inr tt <->
  forall e, exact_decode_program d = Some e -> decode_ok d e.
Proof.
  unfold check_exact_decode, decode_ok. destruct (exact_decode_program d) as [e|]; [|naive_solver].
  rewrite !guard_then, guard_not_inr.
  rewrite !orb_false_iff, !negb_false_iff, valid_atom_iff, bool_decide_eq_true, requirement_elem, valid_tensors_iff,
    forallb_ordered, Z.eqb_neq, !Z.ltb_ge. split.
  - intros (? & Hp & ?) e' [= <-]. split_and!; try tauto.
    intros k v Hk. apply valid_atom_iff. by apply (Hp k v).
  - intros H. destruct (H e eq_refl) as (? & ? & ? & ? & ? & Hp & ?). split; [tauto|].
    split; [|done]. intros k v Hk. simpl. apply valid_atom_iff. by eapply Hp.
Qed.

Lemma check_each_unit {A : Type} (f : A -> unit -> checked unit) (P : A -> Prop) l :
  (forall a, f a tt = inr tt <-> P a) -> check_each f l tt = inr tt <-> forall a, a ∈ l -> P a.
Proof.
  intros Hf. induction l as [|a l IH]; simpl.
  - split; [intros _ ? []%not_elem_of_nil|done].
  - rewrite cbind_inr. split.
    + intros ([] & Ha%Hf & Hl) b [->|Hb]%elem_of_cons; [done|]. by apply IH.
    + intros H. exists tt. split; [apply Hf, H; by left|]. apply IH. intros; apply H; by right.
Qed.

Lemma check_component_kernels_inr d c :
  check_component_kernels d (list_to_set (requirement_key <$> required_kernels d)) c tt = inr tt <->
  router_ok d c.
Proof.
  unfold check_component_kernels, router_ok. rewrite guard_then, guard_not_inr.
  rewrite negb_false_iff, bool_decide_eq_true, requirement_elem.
  destruct (decide (rt_capability (rc_router c) = [])) as [E|E].
  - rewrite (bool_decide_eq_true_2 _ E). simpl. rewrite orb_false_r, andb_true_r, Z.leb_gt. split.
    + intros (? & ?). split_and!; [done|lia|done].
    + intros (? & Hs & _). split; [done|]. destruct (decide (2 <= schema_version d)); [by apply Hs in l|lia].
  - rewrite (bool_decide_eq_false_2 _ E). simpl. rewrite andb_false_r. simpl.
    rewrite orb_false_iff, negb_false_iff, bool_decide_eq_true, requirement_elem, Z.eqb_neq. split.
    + intros (? & ? & ?). split_and!; done.
    + intros (? & _ & Hr). destruct (Hr E). done.
Qed.

(** ** Components that layers and operations name *)

Lemma find_component_spec d name :
  match find_routed_component d name with
  | Some c => c ∈ routed_components d /\ rc_name c = name
  | None => forall c, c ∈ routed_components d -> rc_name c <> name
  end.
Proof.
  unfold find_routed_component. destruct (list_find _ _) as [[i c]|] eqn:E; simpl.
  - apply list_find_Some in E as (Hl & Hn & _). split; [by eapply list_elem_of_lookup_2|done].
  - apply list_find_None in E. intros c Hc. by eapply Forall_forall in E.
Qed.

Lemma NoDup_name_unique {A B : Type} (f : A -> B) (l : list A) x y :
  NoDup (f <$> l) -> x ∈ l -> y ∈ l -> f x = f y -> x = y.
Proof.
  intros Hnd (i & Hi)%list_elem_of_lookup (j & Hj)%list_elem_of_lookup Heq.
  assert (i = j) as ->; [|congruence].
  eapply (NoDup_lookup _ i j (f x) Hnd); rewrite list_lookup_fmap; [by rewrite Hi|by rewrite Hj, Heq].
Qed.

Lemma component_available_iff d name n :
  NoDup (rc_name <$> routed_components d) ->
  component_available d name n = true <->
  exists c, c ∈ routed_components d /\ rc_name c = name /\ n < rc_layer_count c.
Proof.
  intros Hnd. unfold component_available. pose proof (find_component_spec d name) as Hf.
  destruct (find_routed_component d name) as [c|].
  - rewrite Z.ltb_lt. destruct Hf as [Hin Hn]. split; [intros; by exists c|].
    intros (c' & Hin' & Hn' & ?). by rewrite (NoDup_name_unique rc_name _ c c' Hnd Hin Hin' ltac:(congruence)).
  - split; [done|]. intros (c & Hin & Hn & _). by apply Hf in Hin.
Qed.

(** ** Layers *)

(** The indices below [n]. *)
Definition upto (n : nat) : gset Z := list_to_set (seqZ 0 (Z.of_nat n)).

Lemma elem_of_upto n x : x ∈ upto n <-> 0 <= x < Z.of_nat n.
Proof. unfold upto. rewrite elem_of_list_to_set, elem_of_seqZ. lia. Qed.

Lemma size_upto n : size (upto n) = n.
Proof. unfold upto. rewrite size_list_to_set by apply NoDup_seqZ. rewrite length_seqZ. lia. Qed.

Lemma upto_S n : {[Z.of_nat n]} ∪ upto n = upto (S n).
Proof. apply set_eq. intros x. rewrite elem_of_union, elem_of_singleton, !elem_of_upto. lia. Qed.

Lemma upto_ascending n : stable_sort Z.ltb (elements (upto n)) = seqZ 0 (Z.of_nat n).
Proof.
  apply sort_unique; [apply seqZ_sorted|]. unfold upto. apply elements_list_to_set, NoDup_seqZ.
Qed.

Lemma upto_contiguous n : (0 < n)%nat -> not_contiguous (upto n) = false.
Proof.
  intros Hn. unfold not_contiguous. rewrite upto_ascending, size_upto.
  destruct n as [|n]; [lia|]. rewrite orb_false_iff, !negb_false_iff, !bool_decide_eq_true. split.
  - by rewrite seqZ_cons by lia.
  - rewrite seqZ_S, last_snoc. simpl. f_equal. lia.
Qed.

Lemma component_named_iff d name n :
  NoDup (rc_name <$> routed_components d) ->
  component_named d name n <->
  if bool_decide (name = []) then n = 0 else component_available d name n = true.
Proof.
  intros Hnd. unfold component_named. case_bool_decide as E.
  - split; [by intros [[_ ?]|[? _]]|]. intros ?. by left.
  - rewrite component_available_iff by done. split; [by intros [[? _]|[_ ?]]|]. intros ?. by right.
Qed.

Lemma check_layer_inr d n l s :
  NoDup (rc_name <$> routed_components d) ->
  check_layer d (list_to_set (requirement_key <$> required_kernels d)) l (upto n) = inr s <->
  layer_ok d n l /\ s = upto (S n).
Proof.
  intros Hnd. unfold check_layer, layer_ok. rewrite component_named_iff by done.
  rewrite if_invalid, !orb_false_iff, !negb_false_iff, !bool_decide_eq_false, bool_decide_eq_true,
    requirement_elem, Z.eqb_neq, Z.eqb_eq, size_upto, elem_of_upto.
  assert (ly_logical_layer l = Z.of_nat n -> {[ly_logical_layer l]} ∪ upto n = upto (S n)) as Hs
    by (intros ->; apply upto_S).
  case_bool_decide as E; cbn [negb].
  - rewrite if_invalid, negb_false_iff, Z.eqb_eq, inr_inr. split.
    + intros (H & ? & ->). rewrite Hs by tauto. tauto.
    + intros (H & ->). rewrite Hs by tauto.
      assert (~ (0 <= ly_logical_layer l < Z.of_nat n)) by lia. tauto.
  - rewrite if_invalid, negb_false_iff, inr_inr. split.
    + intros (H & ? & ->). rewrite Hs by tauto. tauto.
    + intros (H & ->). rewrite Hs by tauto.
      assert (~ (0 <= ly_logical_layer l < Z.of_nat n)) by lia. tauto.
Qed.

(** A loop whose [n]-th round checks [P n] and goes from state [st n] to [st (n + 1)]. *)
Lemma check_each_indexed {A S : Type} (f : A -> S -> checked S) (P : nat -> A -> Prop) (st : nat -> S) :
  (forall n a s, f a (st n) = inr s <-> P n a /\ s = st (1 + n)%nat) ->
  forall l n s, check_each f l (st n) = inr s <->
    (forall i a, l !! i = Some a -> P (n + i)%nat a) /\ s = st (n + length l)%nat.
Proof.
  intros Hf. induction l as [|a l IH]; intros n s; simpl.
  - rewrite inr_inr, Nat.add_0_r. split; [intros ->; split; [intros i a [=]|done]|by intros [_ ->]].
  - rewrite cbind_inr. split.
    + intros (s1 & (Ha & ->)%Hf & (Hl & ->)%IH). split; [|f_equal; lia].
      intros [|i] b Hb; simpl in Hb; [injection Hb as <-; by rewrite Nat.add_0_r|].
      replace (n + Datatypes.S i)%nat with (1 + n + i)%nat by lia. by apply Hl.
    + intros [Hall ->]. exists (st (1 + n)%nat). split.
      * apply Hf. split; [|done]. rewrite <- (Nat.add_0_r n). by apply Hall.
      * apply IH. split; [|f_equal; lia]. intros i b Hb.
        replace (1 + n + i)%nat with (n + Datatypes.S i)%nat by lia. by apply Hall.
Qed.

Lemma check_layers_inr d s :
  NoDup (rc_name <$> routed_components d) ->
  check_each (check_layer d (list_to_set (requirement_key <$> required_kernels d))) (layer_program d) ∅ = inr s <->
  (forall i l, layer_program d !! i = Some l -> layer_ok d i l) /\ s = upto (length (layer_program d)).
Proof.
  intros Hnd. change ∅ with (upto 0).
  rewrite (check_each_indexed _ (layer_ok d) upto); [done|]. intros n l s'. by apply check_layer_inr.
Qed.

(** ** Operations *)

Lemma ascending_snoc (l : list Z) x :
  StronglySorted Z.le (l ++ [x]) <-> StronglySorted Z.le l /\ forall y, last l = Some y -> y <= x.
Proof.
  rewrite StronglySorted_app. split.
  - intros (H & Hl & _). split; [done|]. intros y Hy. apply H; [by apply last_Some_elem_of|by left].
  - intros (Hl & H). split_and!; [|done|by repeat constructor]. intros y z Hy Hz.
    apply list_elem_of_singleton in Hz as ->. destruct l as [|m l _] using rev_ind; [by apply not_elem_of_nil in Hy|].
    rewrite last_snoc in H. specialize (H m eq_refl). apply elem_of_app in Hy as [Hy|Hy%list_elem_of_singleton]; [|lia].
    rewrite StronglySorted_app in Hl. destruct Hl as (Hl & _). specialize (Hl y m Hy ltac:(by left)). lia.
Qed.

(** The variables of the loop after the operations [done]. *)
Definition scan_of (past : list OperationProgramDescriptor) : OperationScan :=
  mkScan (upto (length past)) (list_to_set (operation_levels past)) (default 0 (last (operation_levels past)))
    (bool_decide (operation_levels past = [])).

Lemma operation_levels_snoc past o :
  operation_levels (past ++ [o]) =
  operation_levels past ++ (if op_logical_layer o =? kModelLevelOperationLayer then [] else [op_logical_layer o]).
Proof.
  unfold operation_levels. rewrite fmap_app, filter_app. f_equal. simpl.
  destruct (Z.eqb_spec (op_logical_layer o) kModelLevelOperationLayer); [by rewrite filter_cons_False by tauto|].
  by rewrite filter_cons_True by done.
Qed.

Lemma scan_of_snoc past o :
  scan_of (past ++ [o]) =
  if op_logical_layer o =? kModelLevelOperationLayer
  then mkScan (upto (S (length past))) (operation_layers (scan_of past)) (previous_layer (scan_of past))
         (first_operation (scan_of past))
  else mkScan (upto (S (length past))) ({[op_logical_layer o]} ∪ operation_layers (scan_of past))
         (op_logical_layer o) false.
Proof.
  unfold scan_of. rewrite operation_levels_snoc, length_app, Nat.add_comm. simpl.
  destruct (op_logical_layer o =? kModelLevelOperationLayer); [by rewrite !app_nil_r|].
  rewrite last_snoc, bool_decide_false by (by intros [_ [=]]%app_eq_nil). f_equal. set_solver.
Qed.

(** The comparison with the previous layer. *)
Lemma not_descending past o :
  negb (first_operation (scan_of past)) && (op_logical_layer o <? previous_layer (scan_of past)) = false <->
  forall x, last (operation_levels past) = Some x -> x <= op_logical_layer o.
Proof.
  simpl. case_bool_decide as E; simpl; [rewrite E; simpl; split; [intros _ ? [=]|done]|].
  apply last_is_Some in E as [x Hx]. rewrite Hx, Z.ltb_ge. simpl. naive_solver.
Qed.

Lemma check_operation_inr d past o s :
  NoDup (rc_name <$> routed_components d) ->
  check_operation d (list_to_set (requirement_key <$> required_kernels d)) (upto (length (layer_program d))) o
    (scan_of past) = inr s <->
  operation_ok d (length past) o /\
  (~ model_level o -> forall x, last (operation_levels past) = Some x -> x <= op_logical_layer o) /\
  s = scan_of (past ++ [o]).
Proof.
  intros Hnd. unfold check_operation, operation_ok, model_level. rewrite <- not_descending, scan_of_snoc.
  rewrite !guard_then, !negb_false_iff, valid_tensors_iff, !valid_ports_iff, component_named_iff by done.
  rewrite !orb_false_iff, !negb_false_iff, !bool_decide_eq_false, bool_decide_eq_true,
    requirement_elem, Z.eqb_neq, Z.eqb_eq.
  change (logical_operations (scan_of past)) with (upto (length past)). rewrite size_upto, elem_of_upto.
  assert (op_logical_operation o = Z.of_nat (length past) ->
    {[op_logical_operation o]} ∪ upto (length past) = upto (S (length past))) as Hs by (intros ->; apply upto_S).
  assert (op_logical_operation o = Z.of_nat (length past) ->
    ~ (0 <= op_logical_operation o < Z.of_nat (length past))) as Hf by lia.
  destruct (Z.eqb_spec (op_logical_layer o) kModelLevelOperationLayer) as [El|El]; simpl negb; rewrite ?andb_true_l, ?andb_false_l;
    (destruct (decide (op_routed_component o = [])) as [E|E];
     [rewrite (bool_decide_eq_true_2 _ E)|rewrite (bool_decide_eq_false_2 _ E)]); cbn [negb]; rewrite ?if_invalid, ?inr_inr, ?negb_false_iff, ?Z.eqb_eq, ?Z.ltb_ge,
      ?bool_decide_eq_true, ?elem_of_upto, ?Z.ltb_lt.
  - split.
    + intros (H & ? & ? & ? & ? & ->). cbn [logical_operations operation_layers previous_layer first_operation].
      rewrite Hs by tauto. tauto.
    + intros (H & _ & ->). cbn [logical_operations operation_layers previous_layer first_operation].
      rewrite Hs by tauto. assert (op_logical_operation o = Z.of_nat (length past)) as ?%Hf by tauto. tauto.
  - split; [intros (_ & _ & _ & _ & H); discriminate H|tauto].
  - split.
    + intros (H & ? & ? & ? & ? & ->). cbn [logical_operations operation_layers previous_layer first_operation].
      rewrite Hs by tauto. tauto.
    + intros (H & ? & ->). cbn [logical_operations operation_layers previous_layer first_operation].
      rewrite Hs by tauto. assert (op_logical_operation o = Z.of_nat (length past)) as ?%Hf by tauto. tauto.
  - split.
    + intros (H & ? & ? & ? & ? & ->). cbn [logical_operations operation_layers previous_layer first_operation].
      rewrite Hs by tauto. tauto.
    + intros (H & ? & ->). cbn [logical_operations operation_layers previous_layer first_operation].
      rewrite Hs by tauto. assert (op_logical_operation o = Z.of_nat (length past)) as ?%Hf by tauto. tauto.
Qed.

Lemma ascending_levels_snoc past o :
  StronglySorted Z.le (operation_levels (past ++ [o])) <->
  StronglySorted Z.le (operation_levels past) /\
  (~ model_level o -> forall x, last (operation_levels past) = Some x -> x <= op_logical_layer o).
Proof.
  rewrite operation_levels_snoc. unfold model_level.
  destruct (Z.eqb_spec (op_logical_layer o) kModelLevelOperationLayer); [rewrite app_nil_r; tauto|].
  rewrite ascending_snoc. tauto.
Qed.

Lemma ascending_prefix l k : StronglySorted Z.le (operation_levels (l ++ k)) -> StronglySorted Z.le (operation_levels l).
Proof. unfold operation_levels. rewrite fmap_app, filter_app, StronglySorted_app. tauto. Qed.

Lemma operations_loop_inr d l past s :
  NoDup (rc_name <$> routed_components d) -> StronglySorted Z.le (operation_levels past) ->
  check_each (check_operation d (list_to_set (requirement_key <$> required_kernels d))
    (upto (length (layer_program d)))) l (scan_of past) = inr s <->
  (forall i o, l !! i = Some o -> operation_ok d (length past + i) o) /\
  StronglySorted Z.le (operation_levels (past ++ l)) /\ s = scan_of (past ++ l).
Proof.
  intros Hnd. revert past. induction l as [|o l IH]; intros past Hs; simpl.
  - rewrite inr_inr, !app_nil_r. split; [intros ->|tauto]. split; [intros i o [=]|done].
  - rewrite cbind_inr. setoid_rewrite (check_operation_inr d past o _ Hnd).
    replace (past ++ o :: l) with ((past ++ [o]) ++ l) by (by rewrite <- app_assoc). split.
    + intros (s1 & (Ho & Hle & ->) & Hl). apply IH in Hl as (Hl & Hss & ->); [|by apply ascending_levels_snoc].
      split_and!; [|done|done]. intros [|i] o' Ho'; simpl in Ho'; [injection Ho' as <-; by rewrite Nat.add_0_r|].
      specialize (Hl i o' Ho'). rewrite length_app in Hl. simpl in Hl. by replace (length past + S i)%nat with (length past + 1 + i)%nat by lia.
    + intros (Hall & Hss & ->). pose proof (ascending_prefix _ _ Hss) as Hs1.
      exists (scan_of (past ++ [o])). split.
      * split_and!; [|by apply ascending_levels_snoc in Hs1 as [_ ?]|done].
        rewrite <- (Nat.add_0_r (length past)). by apply Hall.
      * apply IH; [done|]. split_and!; [|done|done]. intros i o' Ho'. rewrite length_app. simpl.
        replace (length past + 1 + i)%nat with (length past + S i)%nat by lia. by apply Hall.
Qed.

Lemma existsb_elem {A : Type} (f : A -> bool) l : existsb f l = true <-> exists a, a ∈ l /\ f a = true.
Proof. rewrite existsb_exists. by setoid_rewrite list_elem_of_In. Qed.

Lemma operation_present_iff d l capability abi :
  operation_present d l capability abi = true <-> has_operation d l capability abi.
Proof.
  unfold operation_present, has_operation. rewrite existsb_elem. split.
  - intros (o & Hin & H). exists o. revert H. guards. tauto.
  - intros (o & Hin & H). exists o. split; [done|]. guards. tauto.
Qed.

Lemma check_routed_layers_inr d :
  NoDup (rc_name <$> routed_components d) ->
  (forall i l, layer_program d !! i = Some l -> layer_ok d i l) ->
  check_each (check_routed_layer d) (layer_program d) tt = inr tt <->
  forall l, l ∈ layer_program d -> ly_routed_component l <> [] ->
    forall c, c ∈ routed_components d -> rc_name c = ly_routed_component l ->
    has_operation d l (rt_capability (rc_router c)) (rt_abi_version (rc_router c)) /\
    has_operation d l (rc_execution_capability c) (rc_execution_abi c).
Proof.
  intros Hnd Hlayers.
  rewrite (check_each_unit _ (fun l => check_routed_layer d l tt = inr tt)) by done.
  apply forall_proper. intros l. split; intros H Hin.
  - intros Hne c Hc Hname. specialize (H Hin). unfold check_routed_layer in H.
    rewrite bool_decide_false in H by done. apply guard_not_inr in H.
    pose proof (find_component_spec d (ly_routed_component l)) as Hf.
    destruct (find_routed_component d (ly_routed_component l)) as [c'|]; [|done].
    destruct Hf as [Hin' Hn']. rewrite (NoDup_name_unique rc_name _ c c' Hnd Hc Hin' ltac:(congruence)).
    apply orb_false_iff in H as [H1%negb_false_iff H2%negb_false_iff].
    apply operation_present_iff in H1, H2. done.
  - specialize (H Hin). unfold check_routed_layer. case_bool_decide as E; [done|]. specialize (H E).
    apply guard_not_inr. pose proof (find_component_spec d (ly_routed_component l)) as Hf.
    destruct (find_routed_component d (ly_routed_component l)) as [c|].
    + destruct Hf as [Hc Hn]. destruct (H c Hc Hn) as [H1 H2].
      apply operation_present_iff in H1, H2. by rewrite H1, H2.
    + exfalso. apply list_elem_of_lookup in Hin as [i Hi]. destruct (Hlayers i l Hi) as (_ & _ & _ & _ & Hc).
      destruct Hc as [[? _]|(_ & c & Hc & Hn & _)]; [done|]. by apply (Hf c Hc).
Qed.

Lemma levels_covered l n :
  (forall i o, l !! i = Some o -> model_level o \/ 0 <= op_logical_layer o < Z.of_nat n) ->
  (list_to_set (operation_levels l) : gset Z) = upto n <->
  forall k, 0 <= k < Z.of_nat n -> k ∈ operation_levels l.
Proof.
  intros Hl. split.
  - intros Heq k Hk. apply elem_of_upto in Hk. rewrite <- Heq in Hk. by apply elem_of_list_to_set in Hk.
  - intros H. apply set_eq. intros k. rewrite elem_of_list_to_set, elem_of_upto. split; [|apply H].
    unfold operation_levels. rewrite list_elem_of_filter, list_elem_of_fmap.
    intros (Hne & o & -> & Ho). apply list_elem_of_lookup in Ho as [i Hi]. by destruct (Hl i o Hi).
Qed.

Lemma check_operations_inr d :
  NoDup (rc_name <$> routed_components d) ->
  (forall i l, layer_program d !! i = Some l -> layer_ok d i l) ->
  check_operations d (list_to_set (requirement_key <$> required_kernels d)) (upto (length (layer_program d))) = inr tt <->
  (2 <= schema_version d -> operation_program d <> []) /\
  (forall i o, operation_program d !! i = Some o -> operation_ok d i o) /\
  StronglySorted Z.le (operation_levels (operation_program d)) /\
  (operation_program d <> [] ->
    forall n, 0 <= n < Z.of_nat (length (layer_program d)) -> n ∈ operation_levels (operation_program d)) /\
  (2 <= schema_version d ->
    forall l, l ∈ layer_program d -> ly_routed_component l <> [] ->
    forall c, c ∈ routed_components d -> rc_name c = ly_routed_component l ->
    has_operation d l (rt_capability (rc_router c)) (rt_abi_version (rc_router c)) /\
    has_operation d l (rc_execution_capability c) (rc_execution_abi c)).
Proof.
  intros Hnd Hlayers. unfold check_operations. rewrite guard_then, andb_false_iff, Z.leb_gt, bool_decide_eq_false.
  destruct (decide (operation_program d = [])) as [E|E].
  - rewrite (bool_decide_eq_true_2 _ E), E. split; [|intros (H & _); split; [|done]].
    + intros [H _]. assert (schema_version d < 2) by (destruct H as [H|H]; [done|by destruct H]).
      split_and!; [lia|intros i o [=]|constructor|done|lia].
    + destruct (decide (2 <= schema_version d)); [by apply H in l|left; lia].
  - rewrite (bool_decide_eq_false_2 _ E), cbind_inr. change (mkScan ∅ ∅ 0 true) with (scan_of []).
    setoid_rewrite (operations_loop_inr d _ [] _ Hnd (SSorted_nil _)). simpl.
    rewrite <- (check_routed_layers_inr d Hnd Hlayers).
    assert (forall s, s = scan_of (operation_program d) ->
      (forall i o, operation_program d !! i = Some o -> operation_ok d i o) ->
      (not_contiguous (logical_operations s) || negb (bool_decide (operation_layers s = upto (length (layer_program d)))) = false
       <-> forall n, 0 <= n < Z.of_nat (length (layer_program d)) -> n ∈ operation_levels (operation_program d))) as Hcov.
    { intros s -> Hok. unfold scan_of. cbn [logical_operations operation_layers]. rewrite upto_contiguous by (destruct (operation_program d); [done|simpl; lia]). simpl.
      rewrite negb_false_iff, bool_decide_eq_true. apply levels_covered. intros i o Ho.
      destruct (Hok i o Ho) as (_ & _ & _ & _ & _ & _ & _ & _ & [[? _]|[_ ?]]); auto. }
    destruct (Z.leb_spec 2 (schema_version d)) as [Hv|Hv]; split.
    + intros (_ & s & (Hok & Hs & ->) & [Hc Hr]%guard_then). rewrite (Hcov _ eq_refl Hok) in Hc. tauto.
    + intros (_ & Hok & Hs & Hc & Hr). split; [by right|]. exists (scan_of (operation_program d)).
      split; [done|]. apply guard_then. split; [|by apply Hr]. apply Hcov; auto.
    + intros (_ & s & (Hok & Hs & ->) & [Hc Hr]%guard_then). rewrite (Hcov _ eq_refl Hok) in Hc. split_and!; try done. lia.
    + intros (_ & Hok & Hs & Hc & _). split; [by right|]. exists (scan_of (operation_program d)).
      split; [done|]. apply guard_then. split; [|done]. apply Hcov; auto.
Qed.

(** ** Data flow *)

(** The values that the producers [bs] make available. *)
Definition env (bs : list ValueBinding) : Values :=
  list_to_map ((fun b => (vb_value b, vb_abi b)) <$> bs).

Lemma env_keys bs : ((fun b => (vb_value b, vb_abi b)) <$> bs).*1 = vb_value <$> bs.
Proof. by rewrite <- list_fmap_compose. Qed.

Lemma env_lookup bs name abi :
  NoDup (vb_value <$> bs) -> env bs !! name = Some abi <-> mkBinding name abi ∈ bs.
Proof.
  intros Hnd. unfold env. rewrite <- elem_of_list_to_map by (by rewrite env_keys).
  rewrite list_elem_of_fmap. split; [by intros ([] & [= -> ->] & ?)|]. intros ?. by exists (mkBinding name abi).
Qed.

Lemma env_fresh bs name : env bs !! name = None <-> name ∉ vb_value <$> bs.
Proof. unfold env. by rewrite <- not_elem_of_list_to_map, env_keys. Qed.

Lemma env_snoc bs b : vb_value b ∉ vb_value <$> bs -> <[vb_value b := vb_abi b]> (env bs) = env (bs ++ [b]).
Proof. intros H. unfold env. rewrite fmap_app. simpl. rewrite list_to_map_snoc; [done|]. by rewrite env_keys. Qed.

Lemma value_available_iff bs b : NoDup (vb_value <$> bs) -> value_available (env bs) b = true <-> b ∈ bs.
Proof. intros Hnd. unfold value_available. rewrite bool_decide_eq_true, env_lookup by done. by destruct b. Qed.

(** A loop that defines values, all of them fresh. *)
Lemma check_each_defines (f : list Z * ValueBinding -> Values -> checked Values) (P : list Z * ValueBinding -> Prop) :
  (forall kv m m', f kv m = inr m' <-> P kv /\ m !! vb_value kv.2 = None /\ m' = <[vb_value kv.2 := vb_abi kv.2]> m) ->
  forall l bs m, NoDup (vb_value <$> bs) -> check_each f l (env bs) = inr m <->
    (forall kv, kv ∈ l -> P kv) /\ NoDup (vb_value <$> (bs ++ l.*2)) /\ m = env (bs ++ l.*2).
Proof.
  intros Hf. induction l as [|kv l IH]; intros bs m Hnd; cbn [check_each].
  - rewrite inr_inr, app_nil_r. split; [intros ->|tauto]. split; [intros ? []%not_elem_of_nil|done].
  - rewrite cbind_inr. replace (bs ++ (kv :: l).*2) with ((bs ++ [kv.2]) ++ l.*2) by (by rewrite <- app_assoc).
    assert (vb_value kv.2 ∉ vb_value <$> bs -> NoDup (vb_value <$> bs ++ [kv.2])) as Hsnoc.
    { intros Hk. rewrite fmap_app. apply NoDup_app. split_and!; [done| |apply NoDup_singleton].
      intros x Hx ->%list_elem_of_singleton. done. }
    split.
    + intros (m1 & (HP & Hk%env_fresh & ->)%Hf & Hl). rewrite env_snoc in Hl by done.
      apply IH in Hl as (HPl & Hn & ->); [|by apply Hsnoc]. split_and!; [|done|done].
      intros kv' [->|Hin]%elem_of_cons; [done|auto].
    + intros (HP & Hn & ->). assert (vb_value kv.2 ∉ vb_value <$> bs) as Hk.
      { rewrite !fmap_app, <- app_assoc in Hn. apply NoDup_app in Hn as (_ & Hn & _).
        intros Hin. apply (Hn _ Hin). simpl. by left. }
      exists (env (bs ++ [kv.2])). split; [apply Hf|].
      * rewrite env_snoc by done. split_and!; [apply HP; by left|by apply env_fresh|done].
      * apply IH; [by apply Hsnoc|]. split_and!; [|done|done]. intros; apply HP; by right.
Qed.

Definition binding_atoms (kv : list Z * ValueBinding) : Prop :=
  atom kv.1 /\ atom (vb_value kv.2) /\ atom (vb_abi kv.2).

Lemma check_input_inr kv m m' :
  check_input kv m = inr m' <->
  binding_atoms kv /\ m !! vb_value kv.2 = None /\ m' = <[vb_value kv.2 := vb_abi kv.2]> m.
Proof.
  unfold check_input, binding_atoms. rewrite if_invalid, inr_inr, !orb_false_iff, !negb_false_iff, !valid_atom_iff,
    bool_decide_eq_false, <- eq_None_not_Some. tauto.
Qed.

Lemma check_output_inr kv m m' :
  check_output kv m = inr m' <-> True /\ m !! vb_value kv.2 = None /\ m' = <[vb_value kv.2 := vb_abi kv.2]> m.
Proof. unfold check_output. rewrite if_invalid, inr_inr, bool_decide_eq_false, <- eq_None_not_Some. tauto. Qed.

Lemma ordered_bindings (m : gmap (list Z) ValueBinding) (P : list Z * ValueBinding -> Prop) :
  (forall kv, kv ∈ ordered bytes_ltb m -> P kv) <-> forall k b, m !! k = Some b -> P (k, b).
Proof.
  split; intros H.
  - intros k b Hk. apply H. by apply elem_of_ordered.
  - intros [k b] Hin. apply H. by eapply elem_of_ordered.
Qed.

Lemma check_data_flow_inr o bs m :
  NoDup (vb_value <$> bs) -> check_data_flow o (env bs) = inr m <->
  (op_input_bindings o <> ∅ \/ op_output_bindings o <> ∅) /\
  (forall port b, op_input_bindings o !! port = Some b -> b ∈ bs) /\
  NoDup (vb_value <$> (bs ++ bindings_of (op_output_bindings o))) /\
  m = env (bs ++ bindings_of (op_output_bindings o)).
Proof.
  intros Hnd. unfold check_data_flow. rewrite !guard_then, andb_false_iff, !bool_decide_eq_false, negb_false_iff.
  rewrite (check_each_defines check_output (fun _ => True) check_output_inr _ _ _ Hnd), forallb_ordered. simpl.
  split.
  - intros (? & Hin & _ & ? & ?). split_and!; try done. intros port b Hb. by eapply value_available_iff, Hin.
  - intros (? & Hin & ? & ?). split_and!; try done. intros port b Hb. by eapply value_available_iff, Hin.
Qed.

Lemma data_flow_loop l bs m :
  NoDup (vb_value <$> bs) -> check_each check_data_flow l (env bs) = inr m <->
  (forall o, o ∈ l -> op_input_bindings o <> ∅ \/ op_output_bindings o <> ∅) /\
  (forall i o port b, l !! i = Some o -> op_input_bindings o !! port = Some b -> b ∈ bs ++ produced (take i l)) /\
  NoDup (vb_value <$> (bs ++ produced l)) /\ m = env (bs ++ produced l).
Proof.
  revert bs. induction l as [|o l IH]; intros bs Hnd; simpl.
  - rewrite inr_inr, app_nil_r. split; [intros ->|tauto]. split; [intros ? []%not_elem_of_nil|]. done.
  - rewrite cbind_inr. setoid_rewrite (check_data_flow_inr o bs _ Hnd).
    change (produced (o :: l)) with (bindings_of (op_output_bindings o) ++ produced l). rewrite app_assoc. split.
    + intros (m1 & (Hc & Hu & Hn & ->) & Hl). apply IH in Hl as (Hcs & Hus & Hns & ->); [|done].
      split_and!; [| |done|done].
      * intros o' [->|Hin]%elem_of_cons; [done|auto].
      * intros [|i] o' port b Ho' Hb; simpl in *; [injection Ho' as <-; rewrite app_nil_r; by eapply Hu|].
        change (produced (o :: take i l)) with (bindings_of (op_output_bindings o) ++ produced (take i l)).
        rewrite app_assoc. by eapply Hus.
    + intros (Hcs & Hus & Hns & ->).
      assert (NoDup (vb_value <$> (bs ++ bindings_of (op_output_bindings o)))) as Hn
        by (rewrite fmap_app in Hns; by apply NoDup_app in Hns as (? & _)).
      exists (env (bs ++ bindings_of (op_output_bindings o))). split.
      * split_and!; [apply Hcs; by left| |done|done]. intros port b Hb.
        specialize (Hus 0%nat o port b eq_refl Hb). simpl in Hus. by rewrite app_nil_r in Hus.
      * apply IH; [done|]. split_and!; [intros; apply Hcs; by right| |done|done].
        intros i o' port b Ho' Hb. specialize (Hus (S i) o' port b Ho' Hb). simpl in Hus.
        change (produced (o :: take i l)) with (bindings_of (op_output_bindings o) ++ produced (take i l)) in Hus.
        by rewrite app_assoc in Hus.
Qed.

Lemma check_program_inr d :
  check_program d = inr tt <-> if schema_version d <? 3 then no_data_flow d else data_flow_ok d.
Proof.
  unfold check_program. destruct (Z.ltb_spec (schema_version d) 3).
  - rewrite guard_not_inr, !orb_false_iff, !negb_false_iff, !bool_decide_eq_true, <- not_true_iff_false, existsb_elem.
    unfold no_data_flow. split.
    + intros (((? & ?) & ?) & Ho). split_and!; try done. intros o Hin.
      destruct (decide (op_input_bindings o = ∅)), (decide (op_output_bindings o = ∅)); try done;
        exfalso; apply Ho; exists o; rewrite orb_true_iff, !negb_true_iff, !bool_decide_eq_false; tauto.
    + intros (? & ? & ? & Ho). split_and!; try done. intros (o & Hin & Hne). destruct (Ho o Hin) as [Hi Hp].
      by rewrite Hi, Hp, !bool_decide_eq_true_2 in Hne.
  - rewrite guard_then, orb_false_iff, !bool_decide_eq_false, cbind_inr. change ∅ with (env []) at 3.
    setoid_rewrite (check_each_defines check_input binding_atoms check_input_inr _ [] _ (NoDup_nil_2)).
    setoid_rewrite ordered_bindings. simpl.
    change ((ordered bytes_ltb (program_inputs d)).*2) with (bindings_of (program_inputs d)). split.
    + intros (? & m1 & (Hi & Hn & ->) & (m2 & Hl & Ho%guard_not_inr)%cbind_inr). apply data_flow_loop in Hl as (Hc & Hu & Hs & ->); [|done].
      apply negb_false_iff in Ho. rewrite forallb_ordered in Ho. unfold check_endpoint in Ho. simpl in Ho.
      assert (forall k b, program_outputs d !! k = Some b ->
        (atom k /\ atom (vb_value b) /\ atom (vb_abi b)) /\ b ∈ producers d) as Ho'.
      { intros k b Hb. specialize (Ho k b Hb). rewrite !andb_true_iff, !valid_atom_iff in Ho.
        rewrite <- (value_available_iff (producers d)) by done. tauto. }
      split; try done; intros k b Hb; by destruct (Ho' k b Hb).
    + intros [He Hi Ho Hc Hs Hu Hr]. split; [done|]. exists (env (bindings_of (program_inputs d))).
      assert (NoDup (vb_value <$> bindings_of (program_inputs d))) as Hn.
      { unfold producers in Hs. rewrite fmap_app in Hs. by apply NoDup_app in Hs as (? & _). }
      split; [done|]. apply cbind_inr. exists (env (producers d)). split; [by apply data_flow_loop|].
      apply guard_not_inr, negb_false_iff, forallb_ordered. intros k b Hb. unfold check_endpoint. simpl.
      rewrite !andb_true_iff, !valid_atom_iff, value_available_iff by done.
      destruct (Ho k b Hb) as (? & ? & ?). split_and!; try done. by eapply Hr.
Qed.

(** ** Validation as a whole *)

Lemma validate_component_code c n : code (validate_routed_component c n) = ok \/ code (validate_routed_component c n) = invalid_arg.
Proof. unfold validate_routed_component. do 2 (case_match; [by right|]). by left. Qed.

Create HintDb rejects.
#[local] Hint Resolve rejects_cbind rejects_guard rejects_each : rejects.
#[local] Hint Extern 1 (rejects (inr _)) => exact I : rejects.
#[local] Hint Extern 1 (rejects (invalid _)) => reflexivity : rejects.
#[local] Hint Extern 2 (rejects (if ?b then _ else _)) => destruct b : rejects.

Lemma rejects_component d c s : rejects (check_component d c s).
Proof.
  unfold check_component. destruct (validate_component_code c (hidden_size d)) as [E|E];
    unfold status_ok; rewrite E; simpl; [auto with rejects|done].
Qed.

Lemma rejects_program d : rejects (check_program d).
Proof.
  unfold check_program, check_input, check_data_flow, check_output. auto 20 with rejects.
Qed.

Lemma rejects_operations d r s : rejects (check_operations d r s).
Proof.
  unfold check_operations, check_operation, check_routed_layer. auto 20 with rejects.
Qed.

Lemma rejects_decode d r : rejects (check_exact_decode d r).
Proof. unfold check_exact_decode. destruct (exact_decode_program d); auto 10 with rejects. Qed.
#[local] Hint Resolve rejects_component rejects_program rejects_operations rejects_decode : rejects.

Lemma incomplete_iff d :
  incomplete d = false <->
  (schema_version d = 1 \/ schema_version d = 2 \/ schema_version d = 3) /\
  architecture_id d <> [] /\ vocab_size d <> 0 /\ max_context_tokens d <> 0 /\ hidden_size d <> 0 /\
  layer_program d <> [] /\ required_kernels d <> [].
Proof.
  unfold incomplete. rewrite !orb_false_iff, !andb_false_iff, !negb_false_iff, !bool_decide_eq_false, !Z.eqb_eq, !Z.eqb_neq.
  tauto.
Qed.

Lemma validation_exact d :
  Forall component_typed (routed_components d) ->
  (validate_model_descriptor d = success <-> well_formed d) /\
  (validate_model_descriptor d <> success -> code (validate_model_descriptor d) = invalid_arg).
Proof.
  intros Ht. unfold validate_model_descriptor.
  match goal with |- context [status_of ?m] => assert (rejects m) as Hr end.
  { unfold check_requirement, check_component_kernels, check_layer. auto 20 with rejects. }
  split; [|by destruct (cbind _ _); [|done]]. rewrite (status_of_success _ Hr). clear Hr.
  pose proof (check_components_inr d (routed_components d) (∅, ∅) Ht) as Hcomponents.
  split.
  - intros [[] H]. apply guard_then in H as [Hi%incomplete_iff H].
    apply guard_then in H as [Htb%negb_false_iff%valid_tensors_iff H].
    apply cbind_inr in H as (seen & Hc & H). destruct (proj1 Hcomponents (ex_intro _ _ Hc)) as (Hok & Hn & Hns & _).
    apply cbind_inr in H as (r & (Hk & Hkd & ->)%check_requirements_inr & H).
    apply cbind_inr in H as ([] & Hd & H). rewrite check_exact_decode_inr in Hd.
    apply cbind_inr in H as ([] & Hck & H). rewrite (check_each_unit _ _ _ (check_component_kernels_inr d)) in Hck.
    apply cbind_inr in H as (s & (Hl & ->)%(check_layers_inr d _ Hn) & H). apply guard_then in H as [_ H].
    apply cbind_inr in H as ([] & (He & Ho & Hs & Hcov & Hrt)%(check_operations_inr d Hn Hl) & Hf%check_program_inr).
    split; try tauto. intros c Hin. split; [by apply Hok|by apply Hck].
  - intros [Hs Hz Htb Hc [Hn Hns] [Hkd Hk] Hd Hl He Ho Ha Hcov Hrt Hf]. exists tt.
    apply guard_then. split; [by apply incomplete_iff|]. apply guard_then. split; [by apply negb_false_iff, valid_tensors_iff|].
    destruct (proj2 Hcomponents) as [seen Hseen].
    { split_and!; try done. intros c Hin. split; [by apply Hc|tauto]. }
    apply cbind_inr. exists seen. split; [done|].
    apply cbind_inr. eexists. split; [by apply check_requirements_inr|].
    apply cbind_inr. exists tt. split; [by apply check_exact_decode_inr|].
    apply cbind_inr. exists tt. split.
    { apply (check_each_unit _ _ _ (check_component_kernels_inr d)). intros c Hin. by apply Hc. }
    apply cbind_inr. eexists. split; [by apply check_layers_inr|].
    apply guard_then. split; [apply upto_contiguous; destruct Hz as (_ & _ & _ & _ & Hz & _); destruct (layer_program d); [done|simpl; lia]|].
    apply cbind_inr. exists tt. split; [by apply check_operations_inr|by apply check_program_inr].
Qed.

(** ** A small model

    One routed layer and one dense layer, with an embedding and a head that belong to no
    layer, as schema 3 describes it. *)
Definition demo_binding (port value abi : string) : list Z * ValueBinding :=
  (bytes port, mkBinding (bytes value) (bytes abi)).

Definition demo_operation (n layer : Z) (capability component : string)
    (ins outs : list (list Z * ValueBinding)) : OperationProgramDescriptor :=
  mkOperation n layer (bytes capability) 1 (bytes component) 0 ∅ ∅ (list_to_map ins) (list_to_map outs).

Definition demo_model : ModelDescriptor :=
  mkDescriptor 3 (bytes "demo") [] 100 64 8 ∅ (list_to_map [(bytes "norm", bytes "model.norm")])
    [mkComponent (bytes "main") 7 1 4 2 0 8 16 (bytes "moe") 1 1 1 (bytes "fp4") ∅ (mkRouter (bytes "router") 1 ∅)]
    [mkRequirement (bytes "embed") 1; mkRequirement (bytes "router") 1; mkRequirement (bytes "moe") 1;
     mkRequirement (bytes "head") 1]
    [mkLayer 0 (bytes "moe") 1 (bytes "main") 0 ∅; mkLayer 1 (bytes "head") 1 [] 0 ∅]
    [demo_operation 0 U32_MAX "embed" "" [demo_binding "ids" "tokens" "i32"] [demo_binding "out" "h0" "f32"];
     demo_operation 1 0 "router" "main" [demo_binding "in" "h0" "f32"] [demo_binding "routes" "r0" "i32"];
     demo_operation 2 0 "moe" "main" [demo_binding "in" "h0" "f32"; demo_binding "routes" "r0" "i32"]
       [demo_binding "out" "h1" "f32"];
     demo_operation 3 1 "head" "" [demo_binding "in" "h1" "f32"] [demo_binding "logits" "l" "f32"]]
    (list_to_map [demo_binding "tokens" "tokens" "i32"]) (list_to_map [demo_binding "logits" "l" "f32"]) None.

Definition demo_capabilities : list KernelCapability :=
  (fun name => mkCapability (bytes name) 1 2 None) <$> ["moe"; "head"; "embed"; "router"]%string.

(** C27: Validation decides well-formedness: a descriptor is accepted exactly when its
    names, components, kernels, layers and operations are consistent and, from schema 3
    on, its values form a program in which each has one producer and is used after it.
    What is refused is refused as an invalid argument. *)
Theorem descriptor_validation_exact d :
  Forall component_typed (routed_components d) ->
  (validate_model_descriptor d = success <-> well_formed d) /\
  (validate_model_descriptor d <> success -> code (validate_model_descriptor d) = invalid_arg).
Proof. apply validation_exact. Qed.

Lemma descriptor_validation_exact_witness : well_formed demo_model.
Proof.
  apply (descriptor_validation_exact demo_model).
  - repeat constructor; vm_compute; discriminate.
  - vm_compute. reflexivity.
Defined.
