(* ===== verification/ModelProgram.v ===== *)
(** Model of [compile_model_program] of [model_descriptor.cpp]: the program of numeric
    indices a model is executed from. A lookup by [at] throws when the key is missing;
    casts to 32 bits wrap around. *)

From S2P Require Import Prelude.
From S2P Require Import Storage.
From S2P Require Import Text.
From S2P Require Import ModelDescriptor.

Record CompiledKernelBinding := mkKernel {
  requirement_index : Z;
  provider_registry_index : Z;
  provider_capability_index : Z }.

#[export] Instance eta_CompiledKernelBinding : Eta CompiledKernelBinding := fun k =>
  mkKernel (requirement_index k) (provider_registry_index k) (provider_capability_index k).

Record CompiledLayerProgram := mkCompiledLayer {
  cl_logical_layer : Z;
  cl_block_kernel_binding : Z;
  cl_routed_component_index : option Z;
  cl_component_layer : Z;
  cl_parameters : Parameters }.

(** [ValueBinding] and [CompiledProgramEndpoint]: a port or role, and the index of its value. *)
Record CompiledBinding := mkPort { port : list Z; value_index : Z }.

Record CompiledOperationProgram := mkCompiledOperation {
  co_logical_operation : Z;
  co_logical_layer : Z;
  co_kernel_binding : Z;
  co_routed_component_index : option Z;
  co_component_layer : Z;
  co_parameters : Parameters;
  co_tensor_bindings : TensorBindings;
  input_values : list CompiledBinding;
  output_values : list CompiledBinding }.

#[export] Instance eta_CompiledOperationProgram : Eta CompiledOperationProgram := fun o =>
  mkCompiledOperation (co_logical_operation o) (co_logical_layer o) (co_kernel_binding o)
    (co_routed_component_index o) (co_component_layer o) (co_parameters o) (co_tensor_bindings o)
    (input_values o) (output_values o).

Record CompiledProgramValue := mkValue { value_name : list Z; value_abi : list Z }.

Record CompiledExactDecodeProgram := mkCompiledDecode {
  cd_kernel_binding : Z;
  cd_maximum_emitted_tokens : Z;
  cd_parameters : Parameters;
  cd_tensor_bindings : TensorBindings }.

Record CompiledModelProgram := mkProgram {
  kernels : list CompiledKernelBinding;
  layers : list CompiledLayerProgram;
  operations : list CompiledOperationProgram;
  values : list CompiledProgramValue;
  inputs : list CompiledBinding;
  outputs : list CompiledBinding;
  exact_decode : option CompiledExactDecodeProgram }.

Definition empty_program : CompiledModelProgram := mkProgram [] [] [] [] [] [] None.

(** ** The indices *)

(** [size()] or an iterator difference, cast to 32 bits. *)
Definition index32 (n : nat) : Z := wrap32 (Z.of_nat n).

(** [map::at]. *)
Definition at_key {K : Type} `{Countable K} (m : gmap K Z) (k : K) : outcome Z :=
  match m !! k with Some v => Ok v | None => Throw out_of_range end.

(** [map::emplace] keeps what is there. *)
Definition emplace_index {K : Type} `{Countable K} (k : K) (v : Z) (m : gmap K Z) : gmap K Z :=
  match m !! k with Some _ => m | None => <[k := v]> m end.

(** [std::find_if] as a distance from [begin]; the end when there is none. *)
Definition capability_index (capabilities : list KernelCapability) (required : KernelRequirement) : nat :=
  match list_find (fun c => implements required c = true) capabilities with
  | Some (i, _) => i
  | None => length capabilities
  end.

Notation KernelBindings := (gmap (list Z * Z) Z).

(** The loop over the requirements; [done]: the bindings made so far. *)
Fixpoint bind_kernels (capabilities : list KernelCapability) (done : list CompiledKernelBinding)
    (kernel_bindings : KernelBindings) (l : list KernelRequirement) : list CompiledKernelBinding * KernelBindings :=
  match l with
  | [] => (done, kernel_bindings)
  | required :: l =>
    let binding := index32 (length done) in
    bind_kernels capabilities (done ++ [mkKernel binding 0 (index32 (capability_index capabilities required))])
      (emplace_index (requirement_key required) binding kernel_bindings) l
  end.

(** The loop over the components, from the [index]-th. *)
Fixpoint component_indices (index : nat) (m : gmap (list Z) Z) (l : list RoutedExpertComponentDescriptor)
  : gmap (list Z) Z :=
  match l with
  | [] => m
  | c :: l => component_indices (S index) (emplace_index (rc_name c) (index32 index) m) l
  end.

Definition component_of (indices : gmap (list Z) Z) (name : list Z) : outcome (option Z) :=
  if bool_decide (name = []) then Ok None else let! i := at_key indices name in Ok (Some i).

Fixpoint map_outcome {A B : Type} (f : A -> outcome B) (l : list A) : outcome (list B) :=
  match l with
  | [] => Ok []
  | a :: l => let! b := f a in let! bs := map_outcome f l in Ok (b :: bs)
  end.

Definition compile_layer (kernel_bindings : KernelBindings) (indices : gmap (list Z) Z)
    (layer : LayerProgramDescriptor) : outcome CompiledLayerProgram :=
  let! component := component_of indices (ly_routed_component layer) in
  let! kernel := at_key kernel_bindings (ly_block_capability layer, ly_block_abi_version layer) in
  Ok (mkCompiledLayer (ly_logical_layer layer) kernel component (ly_component_layer layer) (ly_parameters layer)).

(** A model without operations gets one per layer; [index]: the operations so far. *)
Fixpoint layer_operations (kernel_bindings : KernelBindings) (indices : gmap (list Z) Z) (index : nat)
    (l : list LayerProgramDescriptor) : outcome (list CompiledOperationProgram) :=
  match l with
  | [] => Ok []
  | layer :: l =>
    let! component := component_of indices (ly_routed_component layer) in
    let! kernel := at_key kernel_bindings (ly_block_capability layer, ly_block_abi_version layer) in
    let! rest := layer_operations kernel_bindings indices (S index) l in
    Ok (mkCompiledOperation (index32 index) (ly_logical_layer layer) kernel component (ly_component_layer layer)
          (ly_parameters layer) ∅ [] [] :: rest)
  end.

Definition compile_operation (kernel_bindings : KernelBindings) (indices : gmap (list Z) Z)
    (operation : OperationProgramDescriptor) : outcome CompiledOperationProgram :=
  let! component := component_of indices (op_routed_component operation) in
  let! kernel := at_key kernel_bindings (op_capability operation, op_abi_version operation) in
  Ok (mkCompiledOperation (op_logical_operation operation) (op_logical_layer operation) kernel component
        (op_component_layer operation) (op_parameters operation) (op_tensor_bindings operation) [] []).

(** ** The data flow *)

(** [program.values] and [value_indices]. *)
Record ValueTable := mkValues { table : list CompiledProgramValue; value_indices : gmap (list Z) Z }.

Definition add_value (b : ValueBinding) (t : ValueTable) : Z * ValueTable :=
  let index := index32 (length (table t)) in
  (index, mkValues (table t ++ [mkValue (vb_value b) (vb_abi b)]) (emplace_index (vb_value b) index (value_indices t))).

(** Every binding of a map defines its value, in the order of the ports. *)
Fixpoint define_values (l : list (list Z * ValueBinding)) (t : ValueTable) : list CompiledBinding * ValueTable :=
  match l with
  | [] => ([], t)
  | (port, binding) :: l =>
    let '(index, t) := add_value binding t in
    let '(rest, t) := define_values l t in
    (mkPort port index :: rest, t)
  end.

Definition use_value (t : ValueTable) (kv : list Z * ValueBinding) : outcome CompiledBinding :=
  let! index := at_key (value_indices t) (vb_value kv.2) in Ok (mkPort kv.1 index).

(** The loop that fills in the ports of the operations. *)
Fixpoint connect (l : list (OperationProgramDescriptor * CompiledOperationProgram)) (t : ValueTable)
  : outcome (list CompiledOperationProgram * ValueTable) :=
  match l with
  | [] => Ok ([], t)
  | (source, compiled) :: l =>
    let! ins := map_outcome (use_value t) (ordered bytes_ltb (op_input_bindings source)) in
    let '(outs, t) := define_values (ordered bytes_ltb (op_output_bindings source)) t in
    let! rest := connect l t in
    Ok (compiled <| input_values := ins |> <| output_values := outs |> :: rest.1, rest.2)
  end.

(** The values and ports of a program of schema 3. *)
Definition compile_flow (d : ModelDescriptor) (program : CompiledModelProgram) : outcome CompiledModelProgram :=
  if 3 <=? schema_version d then
    let '(inputs, t) := define_values (ordered bytes_ltb (program_inputs d)) (mkValues [] ∅) in
    let! connected := connect (combine (operation_program d) (operations program)) t in
    let! outputs := map_outcome (use_value connected.2) (ordered bytes_ltb (program_outputs d)) in
    Ok (mkProgram (kernels program) (layers program)
          (connected.1 ++ drop (length (operation_program d)) (operations program))
          (table connected.2) inputs outputs (exact_decode program))
  else Ok program.

Definition compile_decode (d : ModelDescriptor) (kernel_bindings : KernelBindings) (program : CompiledModelProgram)
  : outcome CompiledModelProgram :=
  match exact_decode_program d with
  | None => Ok program
  | Some decode =>
    let! kernel := at_key kernel_bindings (ed_capability decode, ed_abi_version decode) in
    Ok (mkProgram (kernels program) (layers program) (operations program) (values program) (inputs program)
          (outputs program)
          (Some (mkCompiledDecode kernel (ed_maximum_emitted_tokens decode) (ed_parameters decode)
                   (ed_tensor_bindings decode))))
  end.

Definition compile_body (d : ModelDescriptor) (capabilities : list KernelCapability) : outcome CompiledModelProgram :=
  let '(kernels, kernel_bindings) := bind_kernels capabilities [] ∅ (required_kernels d) in
  let indices := component_indices 0 ∅ (routed_components d) in
  let! layers := map_outcome (compile_layer kernel_bindings indices) (layer_program d) in
  let! operations :=
    if bool_decide (operation_program d = [])
    then layer_operations kernel_bindings indices 0 (layer_program d)
    else map_outcome (compile_operation kernel_bindings indices) (operation_program d) in
  let! program := compile_flow d (mkProgram kernels layers operations [] [] [] None) in
  compile_decode d kernel_bindings program.

Definition compile_model_program (d : ModelDescriptor) (capabilities : list KernelCapability)
  : Status * CompiledModelProgram :=
  let supported := provider_supports_model d capabilities in
  if negb (status_ok supported) then (supported, empty_program)
  else
    match compile_body d capabilities with
    | Ok program => (success, program)
    | Throw e => (mkStatus internal ("model program compilation failed: " +:+ what e), empty_program)
    end.
