(* ===== verification/ModelProgramTheorems.v ===== *)
(** What [compile_model_program] promises: a model that its provider supports always
    compiles, and the program denotes the model. Every index resolves to the kernel,
    component or value that the descriptor names; values are numbered in the order of
    their producers, so that an operation only uses values of smaller index. *)

From S2P Require Import Prelude.
From S2P Require Import Storage.
From S2P Require Import Text.
From S2P Require Import ModelDescriptor.
From S2P Require Import ModelDescriptorTheorems.
From S2P Require Import ModelProgram.

(** ** What a program denotes *)

(** A kernel index, a component index, and a port that stands for a binding. *)
Definition kernel_at (d : ModelDescriptor) (k : Z) (capability : list Z) (abi : Z) : Prop :=
  0 <= k /\ required_kernels d !! Z.to_nat k = Some (mkRequirement capability abi).

Definition component_at (d : ModelDescriptor) (index : option Z) (name : list Z) : Prop :=
  match index with
  | None => name = []
  | Some i => 0 <= i /\ exists c, routed_components d !! Z.to_nat i = Some c /\ rc_name c = name
  end.

Definition port_denotes (bs : list ValueBinding) (kv : list Z * ValueBinding) (c : CompiledBinding) : Prop :=
  port c = kv.1 /\ 0 <= value_index c /\ bs !! Z.to_nat (value_index c) = Some kv.2.

(** Ports that define values, the first of them number [first]. *)
Definition defining_ports (first : nat) (l : list (list Z * ValueBinding)) : list CompiledBinding :=
  imap (fun j kv => mkPort kv.1 (Z.of_nat (first + j))) l.

Definition layer_denotes (d : ModelDescriptor) (l : LayerProgramDescriptor) (c : CompiledLayerProgram) : Prop :=
  cl_logical_layer c = ly_logical_layer l /\
  kernel_at d (cl_block_kernel_binding c) (ly_block_capability l) (ly_block_abi_version l) /\
  component_at d (cl_routed_component_index c) (ly_routed_component l) /\
  cl_component_layer c = ly_component_layer l /\ cl_parameters c = ly_parameters l.

(** An operation apart from its ports. *)
Definition operation_denotes (d : ModelDescriptor) (o : OperationProgramDescriptor) (c : CompiledOperationProgram)
  : Prop :=
  co_logical_operation c = op_logical_operation o /\ co_logical_layer c = op_logical_layer o /\
  kernel_at d (co_kernel_binding c) (op_capability o) (op_abi_version o) /\
  component_at d (co_routed_component_index c) (op_routed_component o) /\
  co_component_layer c = op_component_layer o /\ co_parameters c = op_parameters o /\
  co_tensor_bindings c = op_tensor_bindings o.

Definition ports_denote (d : ModelDescriptor) (i : nat) (o : OperationProgramDescriptor) (c : CompiledOperationProgram)
  : Prop :=
  Forall2 (port_denotes (producers_before d i)) (ordered bytes_ltb (op_input_bindings o)) (input_values c) /\
  output_values c = defining_ports (length (producers_before d i)) (ordered bytes_ltb (op_output_bindings o)).

(** The operation a model without operations gets for its [i]-th layer. *)
Definition block_denotes (d : ModelDescriptor) (i : nat) (l : LayerProgramDescriptor) (c : CompiledOperationProgram)
  : Prop :=
  co_logical_operation c = Z.of_nat i /\ co_logical_layer c = ly_logical_layer l /\
  kernel_at d (co_kernel_binding c) (ly_block_capability l) (ly_block_abi_version l) /\
  component_at d (co_routed_component_index c) (ly_routed_component l) /\
  co_component_layer c = ly_component_layer l /\ co_parameters c = ly_parameters l /\
  co_tensor_bindings c = ∅ /\ input_values c = [] /\ output_values c = [].

Definition decode_denotes (d : ModelDescriptor) (e : option ExactDecodeProgramDescriptor)
    (c : option CompiledExactDecodeProgram) : Prop :=
  match e, c with
  | None, None => True
  | Some e, Some c =>
    kernel_at d (cd_kernel_binding c) (ed_capability e) (ed_abi_version e) /\
    cd_maximum_emitted_tokens c = ed_maximum_emitted_tokens e /\
    cd_parameters c = ed_parameters e /\ cd_tensor_bindings c = ed_tensor_bindings e
  | _, _ => False
  end.

Definition value_of (b : ValueBinding) : CompiledProgramValue := mkValue (vb_value b) (vb_abi b).

(** Everything but the kernels. *)
Record structure_denotes (d : ModelDescriptor) (p : CompiledModelProgram) : Prop := mkDenotes {
  pd_layers : Forall2 (layer_denotes d) (layer_program d) (layers p);
  pd_operations : if bool_decide (operation_program d = [])
    then length (operations p) = length (layer_program d) /\
      forall i l c, layer_program d !! i = Some l -> operations p !! i = Some c -> block_denotes d i l c
    else Forall2 (operation_denotes d) (operation_program d) (operations p);
  pd_flow : if schema_version d <? 3
    then values p = [] /\ inputs p = [] /\ outputs p = [] /\
      forall c, c ∈ operations p -> input_values c = [] /\ output_values c = []
    else values p = value_of <$> producers d /\
      inputs p = defining_ports 0 (ordered bytes_ltb (program_inputs d)) /\
      Forall2 (port_denotes (producers d)) (ordered bytes_ltb (program_outputs d)) (outputs p) /\
      forall i o c, operation_program d !! i = Some o -> operations p !! i = Some c -> ports_denote d i o c;
  pd_decode : decode_denotes d (exact_decode_program d) (exact_decode p) }.

Definition program_denotes (d : ModelDescriptor) (capabilities : list KernelCapability) (p : CompiledModelProgram)
  : Prop :=
  kernels p =
    imap (fun i r => mkKernel (Z.of_nat i) 0 (Z.of_nat (capability_index capabilities r))) (required_kernels d) /\
  structure_denotes d p.

(** A capability table supports a model when the first capability that implements a
    required kernel also accepts the model. *)
Definition accepts (c : KernelCapability) (d : ModelDescriptor) : Prop :=
  match kc_validate c with None => True | Some f => exists s, f d = Ok s /\ status_ok s = true end.

Definition supported_by (capabilities : list KernelCapability) (d : ModelDescriptor) (r : KernelRequirement) : Prop :=
  exists i c, list_find (fun c => implements r c = true) capabilities = Some (i, c) /\ accepts c d.

(** The counts that the program numbers with 32 bits. *)
Definition indexable (d : ModelDescriptor) (capabilities : list KernelCapability) : Prop :=
  Z.of_nat (length (required_kernels d)) <= 2 ^ 32 /\ Z.of_nat (length (routed_components d)) <= 2 ^ 32 /\
  Z.of_nat (length capabilities) < 2 ^ 32 /\ Z.of_nat (length (layer_program d)) <= 2 ^ 32 /\
  Z.of_nat (length (producers d)) <= 2 ^ 32.

(** ** Support *)

Lemma validate_ok d :
  Forall component_typed (routed_components d) ->
  (status_ok (validate_model_descriptor d) = true <-> well_formed d).
Proof.
  intros Ht. destruct (validation_exact d Ht) as [Hiff Hcode]. rewrite status_ok_true, <- Hiff. split; [|by intros ->].
  intros Hok. destruct (decide (validate_model_descriptor d = success)); [done|]. by rewrite Hcode in Hok.
Qed.

Lemma supports_loop_ok d capabilities l :
  status_ok (catching "execution provider validation failed: " (supports_loop d capabilities l)) = true <->
  forall r, r ∈ l -> supported_by capabilities d r.
Proof.
  induction l as [|r l IH]; simpl; [split; [intros _ ? []%not_elem_of_nil|done]|].
  assert (forall (P : Prop), (supported_by capabilities d r -> (P <-> forall r, r ∈ l -> supported_by capabilities d r)) ->
    (P -> supported_by capabilities d r) -> (P <-> forall r', r' ∈ r :: l -> supported_by capabilities d r')) as Hcons.
  { intros P H1 H2. split.
    - intros HP r' [->|Hin]%elem_of_cons; [auto|]. by apply H1; [apply H2| |].
    - intros H. apply H1; [apply H; by left|]. intros; apply H; by right. }
  destruct (list_find (fun c => implements r c = true) capabilities) as [[i c]|] eqn:E.
  - destruct (kc_validate c) as [f|] eqn:Ef.
    + destruct (f d) as [s|e] eqn:Es; simpl.
      * destruct (status_ok s) eqn:Eok; simpl; [|rewrite Eok].
        -- apply Hcons; [done|]. intros _. exists i, c. split; [done|]. unfold accepts. rewrite Ef. by exists s.
        -- split; [done|]. intros H. destruct (H r ltac:(by left)) as (i' & c' & E' & Ha).
           rewrite E in E'. injection E' as <- <-. unfold accepts in Ha. rewrite Ef in Ha.
           destruct Ha as (s' & Hs' & ?). congruence.
      * split; [done|]. intros H. destruct (H r ltac:(by left)) as (i' & c' & E' & Ha).
        rewrite E in E'. injection E' as <- <-. unfold accepts in Ha. rewrite Ef in Ha.
        destruct Ha as (s' & Hs' & ?). congruence.
    + apply Hcons; [done|]. intros _. exists i, c. split; [done|]. unfold accepts. by rewrite Ef.
  - split; [done|]. intros H. destruct (H r ltac:(by left)) as (i' & c' & E' & _). congruence.
Qed.

Lemma provider_supports_ok d capabilities :
  Forall component_typed (routed_components d) ->
  status_ok (provider_supports_model d capabilities) = true <->
  well_formed d /\ forall r, r ∈ required_kernels d -> supported_by capabilities d r.
Proof.
  intros Ht. unfold provider_supports_model. rewrite <- (validate_ok d Ht), <- supports_loop_ok.
  destruct (status_ok (validate_model_descriptor d)) eqn:E; simpl; [tauto|]. rewrite E. split; [done|by intros [? _]].
Qed.

(** ** Indices *)

Lemma index32_small n : Z.of_nat n < 2 ^ 32 -> index32 n = Z.of_nat n.
Proof. intros H. unfold index32. apply wrap32_small. unfold u32, U32_MAX. lia. Qed.

Lemma emplace_index_lookup {K : Type} `{Countable K} (k k' : K) v m i :
  emplace_index k v m !! k' = Some i -> m !! k' = Some i \/ (k' = k /\ i = v).
Proof.
  unfold emplace_index. destruct (m !! k) eqn:E; [by left|].
  destruct (decide (k' = k)) as [->|]; [rewrite lookup_insert_eq; intros [= <-]; by right|].
  rewrite lookup_insert_ne by done. by left.
Qed.

Lemma emplace_index_here {K : Type} `{Countable K} (k : K) v m : is_Some (emplace_index k v m !! k).
Proof. unfold emplace_index. destruct (m !! k) eqn:E; [by rewrite E|]. by rewrite lookup_insert_eq. Qed.

Lemma emplace_index_mono {K : Type} `{Countable K} (k k' : K) v m :
  is_Some (m !! k') -> is_Some (emplace_index k v m !! k').
Proof.
  unfold emplace_index. destruct (m !! k) eqn:E; [done|]. intros [x Hx].
  rewrite lookup_insert_ne; [by rewrite Hx|]. intros ->. congruence.
Qed.

Lemma at_key_ok {K : Type} `{Countable K} (m : gmap K Z) k v : m !! k = Some v -> at_key m k = Ok v.
Proof. unfold at_key. by intros ->. Qed.

(** The kernels, and a table from which every required kernel is found. *)
Lemma bind_kernels_spec capabilities past kb l :
  Z.of_nat (length past + length l) <= 2 ^ 32 -> Z.of_nat (length capabilities) < 2 ^ 32 ->
  (bind_kernels capabilities past kb l).1 =
    past ++ imap (fun i r => mkKernel (Z.of_nat (length past + i)) 0 (Z.of_nat (capability_index capabilities r))) l /\
  (forall k i, (bind_kernels capabilities past kb l).2 !! k = Some i ->
    kb !! k = Some i \/ exists j r, l !! j = Some r /\ k = requirement_key r /\ i = Z.of_nat (length past + j)) /\
  (forall k, is_Some (kb !! k) \/ (exists r, r ∈ l /\ k = requirement_key r) ->
    is_Some ((bind_kernels capabilities past kb l).2 !! k)).
Proof.
  intros Hl Hc. revert past kb Hl. induction l as [|r l IH]; intros past kb Hl; simpl.
  - split_and!; [by rewrite app_nil_r|by left|]. intros k [?|(r & []%not_elem_of_nil & _)]. done.
  - simpl in Hl. destruct (IH (past ++ [mkKernel (index32 (length past)) 0 (index32 (capability_index capabilities r))])
      (emplace_index (requirement_key r) (index32 (length past)) kb)) as (Hks & Hfrom & Hto).
    { rewrite length_app. simpl. lia. }
    rewrite index32_small in * by lia. rewrite length_app in *. simpl in *. split_and!.
    + rewrite Hks, <- app_assoc. simpl. f_equal. f_equal.
      * rewrite Nat.add_0_r. f_equal. apply index32_small. unfold capability_index.
        destruct (list_find _ _) as [[i c]|] eqn:E; [|done].
        apply list_find_Some in E as (E & _). apply lookup_lt_Some in E. lia.
      * apply imap_ext. intros i r' _. simpl. f_equal. lia.
    + intros k i [Hk%emplace_index_lookup|(j & r' & Hj & -> & ->)]%Hfrom.
      * destruct Hk as [?|[-> ->]]; [by left|]. right. exists 0%nat, r. split_and!; [done|done|]. f_equal. lia.
      * right. exists (S j), r'. split_and!; [done|done|]. f_equal. lia.
    + intros k [Hk|(r' & [->|Hin]%elem_of_cons & ->)]; apply Hto; [left|left|right].
      * by apply emplace_index_mono.
      * apply emplace_index_here.
      * by exists r'.
Qed.

Lemma component_indices_spec n m l :
  Z.of_nat (n + length l) <= 2 ^ 32 ->
  (forall k i, component_indices n m l !! k = Some i ->
    m !! k = Some i \/ exists j c, l !! j = Some c /\ rc_name c = k /\ i = Z.of_nat (n + j)) /\
  (forall k, is_Some (m !! k) \/ (exists c, c ∈ l /\ rc_name c = k) -> is_Some (component_indices n m l !! k)).
Proof.
  revert n m. induction l as [|c l IH]; intros n m Hl; simpl.
  - split; [by left|]. intros k [?|(c & []%not_elem_of_nil & _)]. done.
  - simpl in Hl. destruct (IH (S n) (emplace_index (rc_name c) (index32 n) m)) as [Hfrom Hto]; [lia|].
    rewrite index32_small in * by lia. split.
    + intros k i [Hk%emplace_index_lookup|(j & c' & Hj & <- & ->)]%Hfrom.
      * destruct Hk as [?|[-> ->]]; [by left|]. right. exists 0%nat, c. split_and!; [done|done|]. f_equal. lia.
      * right. exists (S j), c'. split_and!; [done|done|]. f_equal. lia.
    + intros k [Hk|(c' & [->|Hin]%elem_of_cons & <-)]; apply Hto; [left|left|right].
      * by apply emplace_index_mono.
      * apply emplace_index_here.
      * by exists c'.
Qed.

(** Tables that resolve: what the two specifications give. *)
Definition kernels_resolve (d : ModelDescriptor) (kb : KernelBindings) : Prop :=
  forall capability abi, kernel_required d capability abi ->
  exists k, at_key kb (capability, abi) = Ok k /\ kernel_at d k capability abi.

Definition components_resolve (d : ModelDescriptor) (indices : gmap (list Z) Z) : Prop :=
  forall name n, component_named d name n -> exists i, component_of indices name = Ok i /\ component_at d i name.

Lemma kernels_resolved d capabilities :
  Z.of_nat (length (required_kernels d)) <= 2 ^ 32 -> Z.of_nat (length capabilities) < 2 ^ 32 ->
  kernels_resolve d (bind_kernels capabilities [] ∅ (required_kernels d)).2.
Proof.
  intros Hl Hc capability abi Hr.
  destruct (bind_kernels_spec capabilities [] ∅ (required_kernels d)) as (_ & Hfrom & Hto); [done|done|].
  destruct (Hto (capability, abi)) as [k Hk]; [right; by exists (mkRequirement capability abi)|].
  exists k. split; [by apply at_key_ok|].
  apply Hfrom in Hk as [Hk|(j & [capability' abi'] & Hj & [= -> ->] & ->)]; [by rewrite lookup_empty in Hk|].
  split; [lia|]. simpl. by rewrite Nat2Z.id.
Qed.

Lemma components_resolved d :
  Z.of_nat (length (routed_components d)) <= 2 ^ 32 ->
  components_resolve d (component_indices 0 ∅ (routed_components d)).
Proof.
  intros Hl name n Hn. destruct (component_indices_spec 0 ∅ (routed_components d)) as (Hfrom & Hto); [done|].
  unfold component_of. destruct Hn as [[-> _]|(Hne & c & Hin & Hc & _)].
  - rewrite bool_decide_eq_true_2 by done. by exists None.
  - rewrite bool_decide_eq_false_2 by done.
    destruct (Hto name) as [i Hi]; [right; by exists c|]. exists (Some i). rewrite (at_key_ok _ _ _ Hi). split; [done|].
    apply Hfrom in Hi as [Hi|(j & c' & Hj & Hn' & ->)]; [by rewrite lookup_empty in Hi|].
    simpl. split; [lia|]. exists c'. by rewrite Nat2Z.id.
Qed.

Lemma map_outcome_Forall2 {A B : Type} (f : A -> outcome B) (R : A -> B -> Prop) l :
  (forall a, a ∈ l -> exists b, f a = Ok b /\ R a b) -> exists bs, map_outcome f l = Ok bs /\ Forall2 R l bs.
Proof.
  induction l as [|a l IH]; intros H; simpl; [exists []; by constructor|].
  destruct (H a ltac:(by left)) as (b & Hb & HR). destruct IH as (bs & Hbs & Hall); [intros; apply H; by right|].
  exists (b :: bs). rewrite Hb. cbn [obind]. rewrite Hbs. cbn [obind]. by split; [|constructor].
Qed.

Lemma compile_layers_denote d kb indices :
  kernels_resolve d kb -> components_resolve d indices ->
  (forall i l, layer_program d !! i = Some l -> layer_ok d i l) ->
  exists ls, map_outcome (compile_layer kb indices) (layer_program d) = Ok ls /\
    Forall2 (layer_denotes d) (layer_program d) ls.
Proof.
  intros Hk Hc Hl. apply map_outcome_Forall2. intros l (i & Hi)%list_elem_of_lookup.
  destruct (Hl i l Hi) as (_ & _ & _ & Hr & Hn). destruct (Hk _ _ Hr) as (k & Ek & Hka).
  destruct (Hc _ _ Hn) as (c & Ec & Hca). unfold compile_layer. rewrite Ec. cbn [obind]. rewrite Ek. cbn [obind].
  eexists. split; [done|]. by split_and!.
Qed.

Lemma compile_operations_denote d kb indices :
  kernels_resolve d kb -> components_resolve d indices ->
  (forall i o, operation_program d !! i = Some o -> operation_ok d i o) ->
  exists cs, map_outcome (compile_operation kb indices) (operation_program d) = Ok cs /\
    Forall2 (fun o c => operation_denotes d o c /\ input_values c = [] /\ output_values c = []) (operation_program d) cs.
Proof.
  intros Hk Hc Ho. apply map_outcome_Forall2. intros o (i & Hi)%list_elem_of_lookup.
  destruct (Ho i o Hi) as (_ & _ & _ & Hr & _ & _ & _ & Hn & _). destruct (Hk _ _ Hr) as (k & Ek & Hka).
  destruct (Hc _ _ Hn) as (c & Ec & Hca). unfold compile_operation. rewrite Ec. cbn [obind]. rewrite Ek. cbn [obind].
  eexists. split; [done|]. by split_and!.
Qed.

Lemma layer_operations_denote d kb indices n l :
  kernels_resolve d kb -> components_resolve d indices -> Z.of_nat (n + length l) <= 2 ^ 32 ->
  (forall x, x ∈ l -> exists i, layer_ok d i x) ->
  exists cs, layer_operations kb indices n l = Ok cs /\ length cs = length l /\
    forall i x c, l !! i = Some x -> cs !! i = Some c -> block_denotes d (n + i) x c.
Proof.
  intros Hk Hc. revert n. induction l as [|x l IH]; intros n Hlen Hl; simpl; [by exists []|].
  simpl in Hlen. destruct (Hl x ltac:(by left)) as (i & _ & _ & _ & Hr & Hn).
  destruct (Hk _ _ Hr) as (k & Ek & Hka). destruct (Hc _ _ Hn) as (c & Ec & Hca).
  destruct (IH (S n)) as (cs & Ecs & Hlcs & Hcs); [lia|intros; apply Hl; by right|].
  rewrite Ec. cbn [obind]. rewrite Ek. cbn [obind]. rewrite Ecs. cbn [obind].
  eexists. split; [done|]. split; [simpl; by rewrite Hlcs|].
  intros [|j] y c' Hy Hc'; simpl in *.
  - injection Hy as <-. injection Hc' as <-. rewrite index32_small by lia. rewrite Nat.add_0_r. by split_and!.
  - replace (n + S j)%nat with (S n + j)%nat by lia. by eapply Hcs.
Qed.

(** ** Values *)

(** The table after the producers [bs]: the value of each is at its own place. *)
Definition numbers (bs : list ValueBinding) (t : ValueTable) : Prop :=
  table t = value_of <$> bs /\
  (forall i b, bs !! i = Some b -> value_indices t !! vb_value b = Some (Z.of_nat i)) /\
  forall name, is_Some (value_indices t !! name) -> name ∈ vb_value <$> bs.

Lemma numbers_nil : numbers [] (mkValues [] ∅).
Proof. split_and!; [done|intros i b [=]|]. intros name [? Hn]. simpl in Hn. by rewrite lookup_empty in Hn. Qed.

Lemma NoDup_prefix_fresh {A B : Type} (f : A -> B) (l k : list A) x :
  NoDup (f <$> (l ++ x :: k)) -> f x ∉ f <$> l.
Proof. rewrite fmap_app. intros (_ & H & _)%NoDup_app Hin. apply (H _ Hin). by left. Qed.

Lemma add_value_numbers bs t b :
  numbers bs t -> vb_value b ∉ vb_value <$> bs -> Z.of_nat (length bs) < 2 ^ 32 ->
  exists t', add_value b t = (Z.of_nat (length bs), t') /\ numbers (bs ++ [b]) t'.
Proof.
  intros (Ht & Hi & Honly) Hfresh Hl. unfold add_value. rewrite Ht, length_fmap, index32_small by done.
  eexists. split; [done|].
  assert (value_indices t !! vb_value b = None) as Hnone.
  { apply eq_None_not_Some. intros Hs. by apply Hfresh, Honly. }
  unfold emplace_index. rewrite Hnone. split_and!; simpl; [by rewrite fmap_app| |].
  - intros i b' [Hb'|[Hge Hb']]%lookup_app_Some.
    + rewrite lookup_insert_ne; [by apply Hi|]. intros Heq. apply Hfresh. rewrite Heq.
      apply list_elem_of_fmap_2. by eapply list_elem_of_lookup_2.
    + apply list_lookup_singleton_Some in Hb' as [Hi0 <-]. replace i with (length bs) by lia.
      by rewrite lookup_insert_eq.
  - intros name Hn. rewrite fmap_app, elem_of_app. destruct (decide (name = vb_value b)) as [->|].
    + right. by left.
    + left. apply Honly. by rewrite lookup_insert_ne in Hn.
Qed.

Lemma define_values_numbers l bs t :
  numbers bs t -> NoDup (vb_value <$> (bs ++ l.*2)) -> Z.of_nat (length (bs ++ l.*2)) <= 2 ^ 32 ->
  exists t', define_values l t = (defining_ports (length bs) l, t') /\ numbers (bs ++ l.*2) t'.
Proof.
  revert bs t. induction l as [|[p b] l IH]; intros bs t Hn Hnd Hlen; cbn [define_values].
  - exists t. split; [done|]. simpl. by rewrite app_nil_r.
  - rewrite length_app, fmap_cons in Hlen. cbn [length] in Hlen.
    destruct (add_value_numbers bs t b Hn) as (t1 & -> & Hn1); [by eapply NoDup_prefix_fresh|lia|].
    destruct (IH (bs ++ [b]) t1 Hn1) as (t2 & -> & Hn2).
    { by rewrite <- app_assoc. }
    { rewrite !length_app. cbn [length]. lia. }
    rewrite <- app_assoc in Hn2. exists t2. split; [|done]. unfold defining_ports. simpl. f_equal. f_equal.
    + f_equal. f_equal. lia.
    + apply imap_ext. intros i [p' b'] _. simpl. f_equal. rewrite length_app. simpl. lia.
Qed.

Lemma use_value_denotes bs t l :
  numbers bs t -> (forall kv, kv ∈ l -> kv.2 ∈ bs) ->
  exists ports, map_outcome (use_value t) l = Ok ports /\ Forall2 (port_denotes bs) l ports.
Proof.
  intros (_ & Hi & _) Hl. apply map_outcome_Forall2. intros [p b] Hin.
  destruct (proj1 (list_elem_of_lookup _ _) (Hl _ Hin)) as [i Hb]. unfold use_value. cbn [fst snd].
  rewrite (at_key_ok _ _ _ (Hi i b Hb)). eexists. split; [done|]. split_and!; simpl; [done|lia|by rewrite Nat2Z.id].
Qed.

(** The operations with their ports, from the producers [bs] on. *)
Lemma connect_denotes l cs bs t :
  length l = length cs -> numbers bs t ->
  NoDup (vb_value <$> (bs ++ produced l)) -> Z.of_nat (length (bs ++ produced l)) <= 2 ^ 32 ->
  (forall i o port b, l !! i = Some o -> op_input_bindings o !! port = Some b -> b ∈ bs ++ produced (take i l)) ->
  exists cs' t', connect (combine l cs) t = Ok (cs', t') /\ numbers (bs ++ produced l) t' /\
    length cs' = length l /\
    forall i o c', l !! i = Some o -> cs' !! i = Some c' -> exists c, cs !! i = Some c /\
      c' = c <| input_values := input_values c' |> <| output_values := output_values c' |> /\
      Forall2 (port_denotes (bs ++ produced (take i l))) (ordered bytes_ltb (op_input_bindings o)) (input_values c') /\
      output_values c' = defining_ports (length (bs ++ produced (take i l))) (ordered bytes_ltb (op_output_bindings o)).
Proof.
  revert cs bs t. induction l as [|o l IH]; intros [|c cs] bs t Hlen Hn Hnd Hsize Huse; simpl in Hlen; try done.
  - exists [], t. simpl. rewrite app_nil_r. by split_and!.
  - change (produced (o :: l)) with (bindings_of (op_output_bindings o) ++ produced l) in *.
    rewrite app_assoc in Hnd, Hsize. simpl.
    destruct (use_value_denotes bs t (ordered bytes_ltb (op_input_bindings o)) Hn) as (ins & Hins & Hall).
    { intros [p b] Hin%elem_of_ordered. specialize (Huse 0%nat o p b eq_refl Hin). simpl in Huse. by rewrite app_nil_r in Huse. }
    rewrite Hins. cbn [obind].
    destruct (define_values_numbers (ordered bytes_ltb (op_output_bindings o)) bs t Hn) as (t1 & -> & Hn1).
    { rewrite fmap_app in Hnd. by apply NoDup_app in Hnd as (? & _). }
    { rewrite length_app in Hsize. unfold bindings_of in Hsize. lia. }
    destruct (IH cs (bs ++ bindings_of (op_output_bindings o)) t1) as (cs' & t2 & -> & Hn2 & Hl2 & Hcs); [lia|done|done|done| |].
    { intros i o' p b Ho' Hb. specialize (Huse (S i) o' p b Ho' Hb). simpl in Huse.
      change (produced (o :: take i l)) with (bindings_of (op_output_bindings o) ++ produced (take i l)) in Huse.
      by rewrite app_assoc in Huse. }
    cbn [obind fst snd]. eexists _, t2. split; [done|]. split; [by rewrite app_assoc|]. split; [simpl; by rewrite Hl2|].
    intros [|i] o' c' Ho' Hc'; simpl in Ho', Hc'.
    + injection Ho' as <-. injection Hc' as <-. exists c. simpl. rewrite app_nil_r. split_and!; done.
    + destruct (Hcs i o' c' Ho' Hc') as (c0 & Hc0 & Heq & Hin & Hout). exists c0. simpl.
      change (produced (o :: take i l)) with (bindings_of (op_output_bindings o) ++ produced (take i l)).
      rewrite app_assoc. split_and!; done.
Qed.

(** ** The program *)

(** The operations before their ports are connected. *)
Lemma operations_compile d kb indices :
  well_formed d -> Z.of_nat (length (layer_program d)) <= 2 ^ 32 ->
  kernels_resolve d kb -> components_resolve d indices ->
  exists cs,
    (if bool_decide (operation_program d = [])
     then layer_operations kb indices 0 (layer_program d)
     else map_outcome (compile_operation kb indices) (operation_program d)) = Ok cs /\
    if bool_decide (operation_program d = [])
    then length cs = length (layer_program d) /\
      forall i l c, layer_program d !! i = Some l -> cs !! i = Some c -> block_denotes d i l c
    else Forall2 (fun o c => operation_denotes d o c /\ input_values c = [] /\ output_values c = []) (operation_program d) cs.
Proof.
  intros Hwf Hlen Hk Hc. case_bool_decide.
  - destruct (layer_operations_denote d kb indices 0 (layer_program d) Hk Hc Hlen) as (cs & Ecs & Hcs); [|by exists cs].
    intros l (i & Hi)%list_elem_of_lookup. exists i. by apply (wf_layers d Hwf).
  - destruct (compile_operations_denote d kb indices Hk Hc (wf_operations d Hwf)) as (cs & Ecs & Hcs). by exists cs.
Qed.

Lemma no_ports d cs :
  (if bool_decide (operation_program d = [])
   then length cs = length (layer_program d) /\
     forall i l c, layer_program d !! i = Some l -> cs !! i = Some c -> block_denotes d i l c
   else Forall2 (fun o c => operation_denotes d o c /\ input_values c = [] /\ output_values c = []) (operation_program d) cs) ->
  forall c, c ∈ cs -> input_values c = [] /\ output_values c = [].
Proof.
  intros H c (i & Hi)%list_elem_of_lookup. case_bool_decide.
  - destruct H as [Hl H]. destruct (lookup_lt_is_Some_2 (layer_program d) i) as [l Hli].
    { rewrite <- Hl. by eapply lookup_lt_Some. }
    by destruct (H i l c Hli Hi) as (_ & _ & _ & _ & _ & _ & _ & ? & ?).
  - destruct (Forall2_lookup_r _ _ _ _ _ H Hi) as (o & _ & _ & ?). done.
Qed.

(** With ports, an operation denotes what it did before. *)
Lemma ports_keep d o c ins outs :
  operation_denotes d o c -> operation_denotes d o (c <| input_values := ins |> <| output_values := outs |>).
Proof. done. Qed.

Lemma compile_flow_denotes d ks ls cs :
  well_formed d -> Z.of_nat (length (producers d)) <= 2 ^ 32 ->
  (if bool_decide (operation_program d = [])
   then length cs = length (layer_program d) /\
     forall i l c, layer_program d !! i = Some l -> cs !! i = Some c -> block_denotes d i l c
   else Forall2 (fun o c => operation_denotes d o c /\ input_values c = [] /\ output_values c = []) (operation_program d) cs) ->
  exists p, compile_flow d (mkProgram ks ls cs [] [] [] None) = Ok p /\
    kernels p = ks /\ layers p = ls /\ exact_decode p = None /\
    (if bool_decide (operation_program d = [])
     then length (operations p) = length (layer_program d) /\
       forall i l c, layer_program d !! i = Some l -> operations p !! i = Some c -> block_denotes d i l c
     else Forall2 (operation_denotes d) (operation_program d) (operations p)) /\
    (if schema_version d <? 3
     then values p = [] /\ inputs p = [] /\ outputs p = [] /\
       forall c, c ∈ operations p -> input_values c = [] /\ output_values c = []
     else values p = value_of <$> producers d /\
       inputs p = defining_ports 0 (ordered bytes_ltb (program_inputs d)) /\
       Forall2 (port_denotes (producers d)) (ordered bytes_ltb (program_outputs d)) (outputs p) /\
       forall i o c, operation_program d !! i = Some o -> operations p !! i = Some c -> ports_denote d i o c).
Proof.
  intros Hwf Hlen Hcs. pose proof (wf_flow d Hwf) as Hflow. pose proof (no_ports d cs Hcs) as Hno. unfold compile_flow.
  destruct (Z.ltb_spec (schema_version d) 3) as [Hv|Hv].
  - rewrite (proj2 (Z.leb_gt 3 _)) by lia. eexists. split; [done|]. simpl. split_and!; try done.
    case_bool_decide; [done|]. eapply Forall2_impl; [exact Hcs|]. by intros o c [? _].
  - rewrite (proj2 (Z.leb_le 3 _)) by lia. assert (operation_program d <> []) as Hne by (apply (wf_explicit d Hwf); lia).
    rewrite bool_decide_eq_false_2 in * by done. pose proof (Forall2_length _ _ _ Hcs) as Hl.
    destruct Hflow as [_ _ _ _ Hsingle Huses Hresults]. unfold producers in Hsingle, Hlen, Hresults.
    destruct (define_values_numbers (ordered bytes_ltb (program_inputs d)) [] _ numbers_nil) as (t1 & -> & Hn1).
    { rewrite fmap_app in Hsingle. by apply NoDup_app in Hsingle as (? & _). }
    { rewrite length_app in Hlen. unfold bindings_of in Hlen. simpl. lia. }
    destruct (connect_denotes (operation_program d) cs _ t1 Hl Hn1) as (cs' & t2 & Eq & Hn2 & Hl' & Hports);
      [done|done|by apply Huses|].
    cbn [operations kernels layers exact_decode]. rewrite Eq. cbn [obind fst snd].
    destruct (use_value_denotes _ t2 (ordered bytes_ltb (program_outputs d)) Hn2) as (outs & -> & Houts).
    { intros [r b] Hin%elem_of_ordered. by eapply Hresults. }
    cbn [obind]. eexists. split; [done|]. cbn [kernels layers operations values inputs outputs exact_decode].
    rewrite drop_ge, app_nil_r by lia. split_and!; try done.
    + apply Forall2_same_length_lookup. split; [done|]. intros i o c' Ho Hc'.
      destruct (Hports i o c' Ho Hc') as (c & Hc & -> & _ & _). apply ports_keep.
      by destruct (Forall2_lookup_lr _ _ _ _ _ _ Hcs Ho Hc) as [? _].
    + by destruct Hn2 as (? & _).
    + intros i o c' Ho Hc'. destruct (Hports i o c' Ho Hc') as (c & _ & _ & Hin & Hout). by split.
Qed.

Lemma compile_decode_denotes d kb p :
  kernels_resolve d kb -> (forall e, exact_decode_program d = Some e -> decode_ok d e) -> exact_decode p = None ->
  exists e, compile_decode d kb p =
      Ok (mkProgram (kernels p) (layers p) (operations p) (values p) (inputs p) (outputs p) e) /\
    decode_denotes d (exact_decode_program d) e.
Proof.
  intros Hk He Hp. unfold compile_decode. destruct (exact_decode_program d) as [e|].
  - destruct (He e eq_refl) as (_ & _ & _ & _ & Hr & _). destruct (Hk _ _ Hr) as (k & Ek & Hka).
    rewrite Ek. cbn [obind]. eexists. split; [done|]. by split_and!.
  - exists None. split; [|done]. destruct p. simpl in *. by rewrite Hp.
Qed.

Lemma compile_body_ok d capabilities :
  well_formed d -> indexable d capabilities ->
  exists p, compile_body d capabilities = Ok p /\ program_denotes d capabilities p.
Proof.
  intros Hwf (Hlk & Hlc & Hlcap & Hll & Hlv). unfold compile_body.
  pose proof (kernels_resolved d capabilities Hlk Hlcap) as Hk.
  destruct (bind_kernels_spec capabilities [] ∅ (required_kernels d)) as (Hks & _ & _); [done|done|].
  destruct (bind_kernels capabilities [] ∅ (required_kernels d)) as [ks kb]. simpl in Hks, Hk.
  pose proof (components_resolved d Hlc) as Hc.
  destruct (compile_layers_denote d kb _ Hk Hc (wf_layers d Hwf)) as (ls & -> & Hls). cbn [obind].
  destruct (operations_compile d kb _ Hwf Hll Hk Hc) as (cs & -> & Hcs). cbn [obind].
  destruct (compile_flow_denotes d ks ls cs Hwf Hlv Hcs) as (p & -> & Hpk & Hpl & Hpe & Hpo & Hpf). cbn [obind].
  destruct (compile_decode_denotes d kb p Hk (wf_decode d Hwf) Hpe) as (e & -> & He).
  eexists. split; [done|]. unfold program_denotes. cbn [kernels]. split; [by rewrite Hpk|].
  split; cbn [kernels layers operations values inputs outputs exact_decode]; try done. by rewrite Hpl.
Qed.

(** Compilation succeeds exactly for a well-formed model whose kernels the capabilities
    implement and accept; the program then denotes the model. *)
Lemma compile_spec d capabilities :
  Forall component_typed (routed_components d) -> indexable d capabilities ->
  let '(status, program) := compile_model_program d capabilities in
  (status_ok status = true <->
   well_formed d /\ forall r, r ∈ required_kernels d -> supported_by capabilities d r) /\
  (status_ok status = true -> status = success /\ program_denotes d capabilities program) /\
  (status_ok status = false -> status = provider_supports_model d capabilities /\ program = empty_program).
Proof.
  intros Ht Hi. pose proof (provider_supports_ok d capabilities Ht) as Hs. unfold compile_model_program.
  destruct (status_ok (provider_supports_model d capabilities)) eqn:E; simpl.
  - destruct (proj1 Hs eq_refl) as [Hwf _]. destruct (compile_body_ok d capabilities Hwf Hi) as (p & -> & Hp). done.
  - rewrite E. done.
Qed.

(** C28: A model compiles exactly when it is well formed and the first capability that
    implements each of its kernels accepts it; compilation itself never fails. The
    program denotes the model: kernel and component indices resolve to what the
    descriptor names, values are numbered in the order of their producers, an operation
    uses values that were produced before it and defines the next ones. A model that is
    refused compiles to nothing, with the status of the refusal. *)
Theorem compiled_program_denotes_model d capabilities status program :
  Forall component_typed (routed_components d) -> indexable d capabilities ->
  compile_model_program d capabilities = (status, program) ->
  (status_ok status = true <->
   well_formed d /\ forall r, r ∈ required_kernels d -> supported_by capabilities d r) /\
  (status_ok status = true -> status = success /\ program_denotes d capabilities program) /\
  (status_ok status = false -> status = provider_supports_model d capabilities /\ program = empty_program).
Proof. intros Ht Hi H. pose proof (compile_spec d capabilities Ht Hi) as Hc. by rewrite H in Hc. Qed.

Lemma compiled_program_denotes_model_witness :
  program_denotes demo_model demo_capabilities (compile_model_program demo_model demo_capabilities).2.
Proof.
  destruct (compile_model_program demo_model demo_capabilities) as [status program] eqn:E.
  destruct (compiled_program_denotes_model demo_model demo_capabilities status program) as (_ & H & _); [| |exact E|].
  - repeat constructor; vm_compute; discriminate.
  - vm_compute. by split_and!.
  - simpl. apply H. replace status with (compile_model_program demo_model demo_capabilities).1 by (by rewrite E).
    vm_compute. reflexivity.
Defined.
