(* ===== verification/ProviderRegistry.v ===== *)
(** Model of [execution_provider.cpp] and [worker_provider.cpp]: the registries that
    choose who runs a model. Execution providers are chosen for each kernel, worker
    providers for a whole model; in both the greatest priority wins, then the smallest
    name. What a provider implements is an opaque value. *)

From S2P Require Import Prelude.
From S2P Require Import Storage.
From S2P Require Import Text.
From S2P Require Import ModelDescriptor.
From S2P Require Import ModelProgram.

Section Registries.
Context {Implementation : Type}.

(** ** Execution providers *)

Inductive ExecutionProviderBindingMode : Type := metadata | executable.

Record ExecutionProviderDefinition := mkProvider {
  ep_name : list Z;
  ep_priority : Z;
  ep_capabilities : list KernelCapability;
  ep_implementation : option Implementation }.

Record BoundExecutionProviderReference := mkReference {
  br_name : list Z;
  br_registry_index : Z;
  br_implementation : option Implementation }.

Record BoundExecutionProvider := mkBound {
  bound_providers : list BoundExecutionProviderReference;
  model_content_hash : list Z;
  model_schema_version : Z;
  program : CompiledModelProgram }.

Definition empty_bound : BoundExecutionProvider := mkBound [] (replicate 32 0) 0 empty_program.

(** The loop over the capabilities of a provider that is added. *)
Definition check_capability (c : KernelCapability) (names : gset (list Z)) : checked (gset (list Z)) :=
  if bool_decide (kc_capability c = []) || (kc_minimum_abi c =? 0) || (kc_maximum_abi c <? kc_minimum_abi c) ||
     bool_decide (kc_capability c ∈ names)
  then invalid "execution provider capability is invalid or duplicated"
  else inr ({[kc_capability c]} ∪ names).

Definition add_execution_provider (provider : ExecutionProviderDefinition)
    (providers : list ExecutionProviderDefinition) : Status * list ExecutionProviderDefinition :=
  if bool_decide (ep_name provider = []) || bool_decide (length (ep_capabilities provider) = 0%nat)
  then (mkStatus invalid_arg "execution provider definition is incomplete", providers)
  else if existsb (fun item => bool_decide (ep_name item = ep_name provider)) providers
  then (mkStatus invalid_arg "execution provider name is duplicated", providers)
  else
    match check_each check_capability (ep_capabilities provider) ∅ with
    | inl status => (status, providers)
    | inr _ => (success, providers ++ [provider])
    end.

(** The best provider so far, with its capability and their indices. *)
Record Selection := mkSelection {
  best_provider : ExecutionProviderDefinition;
  best_capability : KernelCapability;
  best_provider_index : Z;
  best_capability_index : Z }.

(** A greater priority comes first, then a smaller name. *)
Definition preferred (priority : Z) (name : list Z) (other_priority : Z) (other_name : list Z) : bool :=
  (other_priority <? priority) || ((priority =? other_priority) && bytes_ltb name other_name).

(** The inner loop, over the capabilities of one provider from the [ci]-th. *)
Fixpoint scan_capabilities (d : ModelDescriptor) (required : KernelRequirement)
    (candidate : ExecutionProviderDefinition) (pi ci : nat) (l : list KernelCapability) (best : option Selection)
  : outcome (option Selection) :=
  match l with
  | [] => Ok best
  | capability :: l =>
    if negb (implements required capability) then scan_capabilities d required candidate pi (S ci) l best
    else
      let! constrained := match kc_validate capability with Some validate => validate d | None => Ok success end in
      if negb (status_ok constrained) then scan_capabilities d required candidate pi (S ci) l best
      else
        let better := match best with
                      | None => true
                      | Some b => preferred (ep_priority candidate) (ep_name candidate)
                                    (ep_priority (best_provider b)) (ep_name (best_provider b))
                      end in
        scan_capabilities d required candidate pi (S ci) l
          (if better then Some (mkSelection candidate capability (index32 pi) (index32 ci)) else best)
  end.

(** [mode == executable && !candidate.implementation]. *)
Definition not_callable (mode : ExecutionProviderBindingMode) (candidate : ExecutionProviderDefinition) : bool :=
  match mode, ep_implementation candidate with executable, None => true | _, _ => false end.

(** The outer loop, over the providers from the [pi]-th. *)
Fixpoint scan_providers (d : ModelDescriptor) (mode : ExecutionProviderBindingMode) (required : KernelRequirement)
    (pi : nat) (l : list ExecutionProviderDefinition) (best : option Selection) : outcome (option Selection) :=
  match l with
  | [] => Ok best
  | candidate :: l =>
    if not_callable mode candidate then scan_providers d mode required (S pi) l best
    else
      let! best := scan_capabilities d required candidate pi 0 (ep_capabilities candidate) best in
      scan_providers d mode required (S pi) l best
  end.

(** The loop over the requirements: a selection for each, or the status that ends it. *)
Fixpoint select_all (d : ModelDescriptor) (mode : ExecutionProviderBindingMode)
    (providers : list ExecutionProviderDefinition) (l : list KernelRequirement) : outcome (checked (list Selection)) :=
  match l with
  | [] => Ok (inr [])
  | required :: l =>
    let! best := scan_providers d mode required 0 providers None in
    match best with
    | None =>
      Ok (invalid ("no execution provider implements required kernel: " +:+ text (kr_capability required)))
    | Some b =>
      let! rest := select_all d mode providers l in
      Ok (let? rest := rest in inr (b :: rest))
    end
  end.

(** [selected.at(index)]. *)
Definition at_index {A : Type} (l : list A) (i : Z) : outcome A :=
  match l !! Z.to_nat i with Some a => Ok a | None => Throw out_of_range end.

Definition assign_kernel (selected : list Selection) (kernel : CompiledKernelBinding) : outcome CompiledKernelBinding :=
  let! s := at_index selected (requirement_index kernel) in
  Ok (mkKernel (requirement_index kernel) (best_provider_index s) (best_capability_index s)).

Definition reference (providers : list ExecutionProviderDefinition) (index : Z)
  : outcome BoundExecutionProviderReference :=
  let! provider := at_index providers index in
  Ok (mkReference (ep_name provider) index (ep_implementation provider)).

(** The indices of the providers that own a kernel: a [std::set], in ascending order. *)
Definition referenced (l : list CompiledKernelBinding) : list Z :=
  stable_sort Z.ltb (elements (list_to_set (provider_registry_index <$> l) : gset Z)).

Definition with_kernels (p : CompiledModelProgram) (l : list CompiledKernelBinding) : CompiledModelProgram :=
  mkProgram l (layers p) (operations p) (values p) (inputs p) (outputs p) (exact_decode p).

Definition bind_body (d : ModelDescriptor) (mode : ExecutionProviderBindingMode)
    (providers : list ExecutionProviderDefinition) : outcome (Status * BoundExecutionProvider) :=
  let valid := validate_model_descriptor d in
  if negb (status_ok valid) then Ok (valid, empty_bound)
  else
    let! selected := select_all d mode providers (required_kernels d) in
    match selected with
    | inl status => Ok (status, empty_bound)
    | inr selected =>
      let '(status, compiled) := compile_model_program d (best_capability <$> selected) in
      if negb (status_ok status) then Ok (status, empty_bound)
      else
        let! kernels := map_outcome (assign_kernel selected) (kernels compiled) in
        let! references := map_outcome (reference providers) (referenced kernels) in
        Ok (success, mkBound references (content_hash d) (schema_version d) (with_kernels compiled kernels))
    end.

Definition bind (d : ModelDescriptor) (mode : ExecutionProviderBindingMode)
    (providers : list ExecutionProviderDefinition) : Status * BoundExecutionProvider :=
  match bind_body d mode providers with
  | Ok r => r
  | Throw e => (mkStatus internal ("execution provider binding failed: " +:+ what e), empty_bound)
  end.

(** ** Worker providers *)

(** The entry point of a worker is an opaque value that can be null. *)
Record WorkerProviderDefinition := mkWorker {
  wp_name : list Z;
  wp_priority : Z;
  wp_capabilities : list KernelCapability;
  wp_entry : option Implementation }.

Definition add_worker_provider (provider : WorkerProviderDefinition) (providers : list WorkerProviderDefinition)
  : Status * list WorkerProviderDefinition :=
  if bool_decide (wp_name provider = []) || bool_decide (length (wp_capabilities provider) = 0%nat) ||
     match wp_entry provider with None => true | Some _ => false end
  then (mkStatus invalid_arg "worker provider definition is incomplete", providers)
  else if existsb (fun item => bool_decide (wp_name item = wp_name provider)) providers
  then (mkStatus invalid_arg "worker provider name is duplicated", providers)
  else (success, providers ++ [provider]).

(** The loop of [select]. *)
Fixpoint select_loop (d : ModelDescriptor) (l : list WorkerProviderDefinition)
    (selected : option WorkerProviderDefinition) : option WorkerProviderDefinition :=
  match l with
  | [] => selected
  | provider :: l =>
    if negb (status_ok (provider_supports_model d (wp_capabilities provider))) then select_loop d l selected
    else
      let better := match selected with
                    | None => true
                    | Some s => preferred (wp_priority provider) (wp_name provider) (wp_priority s) (wp_name s)
                    end in
      select_loop d l (if better then Some provider else selected)
  end.

(** The provider is a pointer into the registry; [None] is null. *)
Definition select_worker (d : ModelDescriptor) (providers : list WorkerProviderDefinition)
  : Status * option WorkerProviderDefinition :=
  match select_loop d providers None with
  | None => (mkStatus invalid_arg "no worker provider implements the artifact operation set", None)
  | Some selected => (success, Some selected)
  end.
End Registries.
Arguments ExecutionProviderDefinition : clear implicits.
Arguments BoundExecutionProviderReference : clear implicits.
Arguments BoundExecutionProvider : clear implicits.
Arguments Selection : clear implicits.
Arguments WorkerProviderDefinition : clear implicits.
