(* ===== verification/ProviderRegistryTheorems.v ===== *)
(** What the registries promise: a model binds exactly when every kernel it requires has
    a provider that accepts it, each kernel goes to the best such provider whatever the
    order of registration, and the bound program denotes the model. *)

From S2P Require Import Prelude.
From S2P Require Import Storage.
From S2P Require Import Text.
From S2P Require Import ModelDescriptor.
From S2P Require Import ModelDescriptorTheorems.
From S2P Require Import ModelProgram.
From S2P Require Import ModelProgramTheorems.
From S2P Require Import ProviderRegistry.

(** ** Preference *)

Definition rank_ltb (a b : Z * list Z) : bool := preferred a.1 a.2 b.1 b.2.

#[export] Instance rank_order : StrictWeakOrder rank_ltb.
Proof.
  split; unfold rank_ltb, preferred.
  - intros [p n] [q m]. simpl. rewrite orb_true_iff, orb_false_iff, andb_true_iff, andb_false_iff, Z.ltb_lt, Z.ltb_ge, Z.eqb_eq, Z.eqb_neq.
    intros [?|[-> H%swo_asym]]; [split; [lia|left; lia]|]. split; [lia|by right].
  - intros [p n] [q m] [o l]. simpl. rewrite !orb_false_iff, !andb_false_iff, !Z.ltb_ge, !Z.eqb_neq.
    intros [H1 H2] [H3 H4]. split; [lia|]. destruct H2 as [H2|H2]; [left; lia|]. destruct H4 as [H4|H4]; [left; lia|].
    destruct (decide (o = p)); [|by left]. right. by eapply (swo_trans (ltb := bytes_ltb)).
Qed.

Section Binding.
Context {Implementation : Type}.
Implicit Types (providers : list (ExecutionProviderDefinition Implementation)) (s b : Selection Implementation).

Definition rank (p : ExecutionProviderDefinition Implementation) : Z * list Z := (ep_priority p, ep_name p).

(** A provider that can be used in the mode. *)
Definition usable (mode : ExecutionProviderBindingMode) (p : ExecutionProviderDefinition Implementation) : Prop :=
  mode = executable -> is_Some (ep_implementation p).

(** The offers of a registry for a kernel. *)
Definition offers (d : ModelDescriptor) (mode : ExecutionProviderBindingMode)
    (providers : list (ExecutionProviderDefinition Implementation)) (r : KernelRequirement)
    (s : Selection Implementation) : Prop :=
  exists pi ci, providers !! pi = Some (best_provider s) /\ usable mode (best_provider s) /\
    ep_capabilities (best_provider s) !! ci = Some (best_capability s) /\
    implements r (best_capability s) = true /\ accepts (best_capability s) d /\
    best_provider_index s = index32 pi /\ best_capability_index s = index32 ci.

(** The best of the offers [P], if there is one. *)
Definition best_of (P : Selection Implementation -> Prop) (best : option (Selection Implementation)) : Prop :=
  match best with
  | None => forall s, ~ P s
  | Some b => P b /\ forall s, P s -> rank_ltb (rank (best_provider s)) (rank (best_provider b)) = false
  end.

Lemma best_of_ext P Q best : (forall s, P s <-> Q s) -> best_of P best -> best_of Q best.
Proof. intros H. destruct best as [b|]; simpl; naive_solver. Qed.

Lemma best_of_step P s best :
  best_of P best ->
  best_of (fun s' => P s' \/ s' = s)
    (if match best with
        | None => true
        | Some b => preferred (ep_priority (best_provider s)) (ep_name (best_provider s))
                      (ep_priority (best_provider b)) (ep_name (best_provider b))
        end then Some s else best).
Proof.
  destruct best as [b|]; simpl.
  - intros [Hb Hbest].
    change (preferred _ _ _ _) with (rank_ltb (rank (best_provider s)) (rank (best_provider b))).
    destruct (rank_ltb (rank (best_provider s)) (rank (best_provider b))) eqn:E; simpl.
    + split; [by right|]. intros s' [Hs'| ->].
      * eapply (swo_trans (ltb := rank_ltb)); [apply swo_asym, E|by apply Hbest].
      * destruct (rank_ltb (rank (best_provider s)) (rank (best_provider s))) eqn:Es; [|done].
        pose proof (swo_asym _ _ Es). congruence.
    + split; [by left|]. intros s' [Hs'| ->]; [by apply Hbest|done].
  - intros Hnone. split; [by right|]. intros s' [Hs'| ->]; [by apply Hnone in Hs'|].
    destruct (rank_ltb (rank (best_provider s)) (rank (best_provider s))) eqn:Es; [|done].
    pose proof (swo_asym _ _ Es). congruence.
Qed.

(** Whether a capability constrains the model away. *)
Lemma constrained_accepts (c : KernelCapability) d st :
  match kc_validate c with Some f => f d | None => Ok success end = Ok st ->
  (status_ok st = true <-> accepts c d).
Proof.
  unfold accepts. destruct (kc_validate c) as [f|].
  - intros Hf. split; [intros; by exists st|]. intros (st' & Hf' & ?). congruence.
  - intros [= <-]. done.
Qed.

(** The offers of one provider, from its [ci]-th capability on. *)
Definition offered (d : ModelDescriptor) (r : KernelRequirement) (p : ExecutionProviderDefinition Implementation)
    (pi ci : nat) (l : list KernelCapability) (s : Selection Implementation) : Prop :=
  exists j c, l !! j = Some c /\ implements r c = true /\ accepts c d /\
    s = mkSelection p c (index32 pi) (index32 (ci + j)).

Lemma offered_cons d r p pi ci c l s :
  offered d r p pi ci (c :: l) s <->
  (implements r c = true /\ accepts c d /\ s = mkSelection p c (index32 pi) (index32 ci)) \/
  offered d r p pi (S ci) l s.
Proof.
  unfold offered. split.
  - intros ([|j] & c' & Hj & ? & ? & ->); simpl in Hj.
    + injection Hj as <-. left. by rewrite Nat.add_0_r.
    + right. exists j, c'. by replace (ci + S j)%nat with (S ci + j)%nat by lia.
  - intros [(? & ? & ->)|(j & c' & Hj & ? & ? & ->)].
    + exists 0%nat, c. by rewrite Nat.add_0_r.
    + exists (S j), c'. by replace (ci + S j)%nat with (S ci + j)%nat by lia.
Qed.

Lemma scan_capabilities_best d r p pi ci l P best best' :
  best_of P best -> scan_capabilities d r p pi ci l best = Ok best' ->
  best_of (fun s => P s \/ offered d r p pi ci l s) best'.
Proof.
  revert ci P best. induction l as [|c l IH]; intros ci P best HP H; simpl in H.
  - injection H as <-. eapply best_of_ext; [|exact HP]. intros s. split; [by left|].
    intros [?|(j & c & [=] & _)]. done.
  - destruct (implements r c) eqn:Ei; simpl in H.
    + destruct (match kc_validate c with Some f => f d | None => Ok success end) as [st|] eqn:Ev; simpl in H; [|done].
      pose proof (constrained_accepts c d st Ev) as Ha. destruct (status_ok st) eqn:Es; simpl in H.
      * pose proof (best_of_step P (mkSelection p c (index32 pi) (index32 ci)) best HP) as Hstep.
        eapply IH in H; [|exact Hstep]. eapply best_of_ext; [|exact H]. intros s. rewrite offered_cons. tauto.
      * eapply IH in H; [|exact HP]. eapply best_of_ext; [|exact H]. intros s. rewrite offered_cons.
        assert (~ accepts c d) by (intros ?%Ha; done). tauto.
    + eapply IH in H; [|exact HP]. eapply best_of_ext; [|exact H]. intros s. rewrite offered_cons.
      assert (implements r c <> true) by congruence. tauto.
Qed.

(** The offers of the providers from the [pi]-th on. *)
Definition offered_from (d : ModelDescriptor) (mode : ExecutionProviderBindingMode) (r : KernelRequirement) (pi : nat)
    (l : list (ExecutionProviderDefinition Implementation)) (s : Selection Implementation) : Prop :=
  exists k p, l !! k = Some p /\ usable mode p /\ offered d r p (pi + k) 0 (ep_capabilities p) s.

Lemma offered_from_cons d mode r pi p l s :
  offered_from d mode r pi (p :: l) s <->
  (usable mode p /\ offered d r p pi 0 (ep_capabilities p) s) \/ offered_from d mode r (S pi) l s.
Proof.
  unfold offered_from. split.
  - intros ([|k] & q & Hk & ? & ?); simpl in Hk.
    + injection Hk as <-. rewrite Nat.add_0_r in *. by left.
    + right. exists k, q. by replace (S pi + k)%nat with (pi + S k)%nat by lia.
  - intros [[? ?]|(k & q & Hk & ? & ?)].
    + exists 0%nat, p. by rewrite Nat.add_0_r.
    + exists (S k), q. by replace (pi + S k)%nat with (S pi + k)%nat by lia.
Qed.

Lemma offered_from_offers d mode r providers s : offered_from d mode r 0 providers s <-> offers d mode providers r s.
Proof.
  split.
  - intros (k & p & Hk & Hu & j & c & Hj & ? & ? & ->). exists k, j. done.
  - intros (pi & ci & Hp & Hu & Hc & ? & ? & Hpi & Hci). exists pi, (best_provider s).
    split_and!; [done|done|]. exists ci, (best_capability s). split_and!; [done|done|done|].
    destruct s. simpl in *. by subst.
Qed.

Lemma not_callable_usable mode (p : ExecutionProviderDefinition Implementation) :
  not_callable mode p = false <-> usable mode p.
Proof. unfold usable, not_callable. destruct mode, (ep_implementation p); try done. split; [done|]. intros H. by destruct (H eq_refl). Qed.

Lemma scan_providers_best d mode r pi l P best best' :
  best_of P best -> scan_providers d mode r pi l best = Ok best' ->
  best_of (fun s => P s \/ offered_from d mode r pi l s) best'.
Proof.
  revert pi P best. induction l as [|p l IH]; intros pi P best HP H; simpl in H.
  - injection H as <-. eapply best_of_ext; [|exact HP]. intros s. split; [by left|].
    intros [?|(k & p & [=] & _)]. done.
  - pose proof (not_callable_usable mode p) as Hu. destruct (not_callable mode p).
    + eapply IH in H; [|exact HP]. eapply best_of_ext; [|exact H]. intros s. rewrite offered_from_cons.
      assert (~ usable mode p) by (intros ?%Hu; done). tauto.
    + destruct (scan_capabilities d r p pi 0 (ep_capabilities p) best) as [best1|] eqn:E; simpl in H; [|done].
      apply (scan_capabilities_best _ _ _ _ _ _ _ _ _ HP) in E. eapply IH in H; [|exact E].
      eapply best_of_ext; [|exact H]. intros s. rewrite offered_from_cons. tauto.
Qed.

(** ** Validators that return *)

(** No validator of the registry throws on the model. *)
Definition validators_return (d : ModelDescriptor) providers : Prop :=
  forall p c f, p ∈ providers -> c ∈ ep_capabilities p -> kc_validate c = Some f -> exists st, f d = Ok st.

Lemma scan_capabilities_returns d r (p : ExecutionProviderDefinition Implementation) pi ci l best :
  (forall c f, c ∈ l -> kc_validate c = Some f -> exists st, f d = Ok st) ->
  exists best', scan_capabilities d r p pi ci l best = Ok best'.
Proof.
  revert ci best. induction l as [|c l IH]; intros ci best Hf; simpl; [by eexists|].
  assert (forall c' f, c' ∈ l -> kc_validate c' = Some f -> exists st, f d = Ok st) as Hf' by (intros; eapply Hf; [by right|done]).
  destruct (implements r c); simpl; [|by apply IH].
  destruct (kc_validate c) as [f|] eqn:E.
  - destruct (Hf c f ltac:(by left) E) as [st ->]. cbn [obind]. destruct (negb (status_ok st)); by apply IH.
  - cbn [obind]. destruct (negb (status_ok success)); by apply IH.
Qed.

Lemma scan_providers_returns d mode r pi l best :
  validators_return d l -> exists best', scan_providers d mode r pi l best = Ok best'.
Proof.
  revert pi best. induction l as [|p l IH]; intros pi best Hv; simpl; [by eexists|].
  assert (validators_return d l) as Hv' by (intros q c f ? ? ?; eapply Hv; [by right|done|done]).
  destruct (not_callable mode p); [by apply IH|].
  destruct (scan_capabilities_returns d r p pi 0 (ep_capabilities p) best) as [b ->].
  - intros c f Hc Hk. by eapply (Hv p c f); [left| |].
  - cbn [obind]. by apply IH.
Qed.

(** ** Selection of all kernels *)

Definition chosen (d : ModelDescriptor) mode providers (r : KernelRequirement) (s : Selection Implementation) : Prop :=
  best_of (offers d mode providers r) (Some s).

Lemma scan_chosen d mode providers r best :
  scan_providers d mode r 0 providers None = Ok best -> best_of (offers d mode providers r) best.
Proof.
  intros H. apply (scan_providers_best _ _ _ _ _ (fun _ => False)) in H; [|by intros s []].
  eapply best_of_ext; [|exact H]. intros s. cbv beta. rewrite offered_from_offers. tauto.
Qed.

Lemma select_all_spec d mode providers l :
  validators_return d providers ->
  exists m, select_all d mode providers l = Ok m /\
  match m with
  | inr selected => Forall2 (chosen d mode providers) l selected
  | inl status => exists l1 r l2, l = l1 ++ r :: l2 /\ (forall r', r' ∈ l1 -> exists s, offers d mode providers r' s) /\
      (forall s, ~ offers d mode providers r s) /\
      status = mkStatus invalid_arg ("no execution provider implements required kernel: " +:+ text (kr_capability r))
  end.
Proof.
  intros Hv. induction l as [|r l (m & IHm & IH)]; simpl; [exists (inr []); by split|].
  destruct (scan_providers_returns d mode r 0 providers None Hv) as [best Hb]. rewrite Hb. cbn [obind].
  apply scan_chosen in Hb. destruct best as [b|].
  - rewrite IHm. cbn [obind]. eexists. split; [done|]. destruct m as [status|selected]; simpl.
    + destruct IH as (l1 & r' & l2 & -> & Hl1 & Hr' & ->). exists (r :: l1), r', l2. split_and!; try done.
      intros r'' [->|?]%elem_of_cons; [destruct Hb; by exists b|auto].
    + by constructor.
  - eexists. split; [done|]. exists [], r, l. split_and!; try done. intros ? []%not_elem_of_nil.
Qed.
(** ** What is bound *)

(** The counts that are cast to 32 bits. *)
Definition countable_sizes (d : ModelDescriptor) providers : Prop :=
  Z.of_nat (length (required_kernels d)) < 2 ^ 32 /\ Z.of_nat (length (routed_components d)) <= 2 ^ 32 /\
  Z.of_nat (length (layer_program d)) <= 2 ^ 32 /\ Z.of_nat (length (ModelDescriptorTheorems.producers d)) <= 2 ^ 32 /\
  Z.of_nat (length providers) <= 2 ^ 32 /\
  forall p, p ∈ providers -> Z.of_nat (length (ep_capabilities p)) <= 2 ^ 32.

(** A provider of the registry offers a capability for a kernel. *)
Definition offer (d : ModelDescriptor) mode providers (r : KernelRequirement)
    (p : ExecutionProviderDefinition Implementation) (c : KernelCapability) : Prop :=
  p ∈ providers /\ usable mode p /\ c ∈ ep_capabilities p /\ implements r c = true /\ accepts c d.

(** The best of the offers for a kernel. *)
Definition best_offer (d : ModelDescriptor) mode providers (r : KernelRequirement)
    (p : ExecutionProviderDefinition Implementation) (c : KernelCapability) : Prop :=
  offer d mode providers r p c /\
  forall p' c', offer d mode providers r p' c' -> rank_ltb (rank p') (rank p) = false.

Definition kernel_owner (d : ModelDescriptor) mode providers (r : KernelRequirement) (k : CompiledKernelBinding) : Prop :=
  exists pi ci p c, provider_registry_index k = Z.of_nat pi /\ provider_capability_index k = Z.of_nat ci /\
    providers !! pi = Some p /\ ep_capabilities p !! ci = Some c /\ best_offer d mode providers r p c.

Record bound_ok (d : ModelDescriptor) mode providers (plan : BoundExecutionProvider Implementation) : Prop := mkBoundOk {
  bo_model : model_content_hash plan = content_hash d /\ model_schema_version plan = schema_version d;
  bo_kernels : length (kernels (program plan)) = length (required_kernels d) /\
    forall i r k, required_kernels d !! i = Some r -> kernels (program plan) !! i = Some k ->
    requirement_index k = Z.of_nat i /\ kernel_owner d mode providers r k;
  bo_structure : structure_denotes d (program plan);
  bo_indices : br_registry_index <$> bound_providers plan = referenced (kernels (program plan));
  bo_providers : forall ref, ref ∈ bound_providers plan -> exists p,
    providers !! Z.to_nat (br_registry_index ref) = Some p /\
    br_name ref = ep_name p /\ br_implementation ref = ep_implementation p /\ usable mode p }.

Lemma offer_offers d mode providers r :
  (exists p c, offer d mode providers r p c) <-> exists s, offers d mode providers r s.
Proof.
  split.
  - intros (p & c & (pi & Hp)%list_elem_of_lookup & Hu & (ci & Hc)%list_elem_of_lookup & ? & ?).
    exists (mkSelection p c (index32 pi) (index32 ci)), pi, ci. done.
  - intros (s & pi & ci & Hp & Hu & Hc & ? & ? & _). exists (best_provider s), (best_capability s).
    split_and!; try done; by eapply list_elem_of_lookup_2.
Qed.

Lemma chosen_owner d mode providers r s n :
  countable_sizes d providers -> chosen d mode providers r s ->
  kernel_owner d mode providers r (mkKernel n (best_provider_index s) (best_capability_index s)).
Proof.
  intros (_ & _ & _ & _ & Hp & Hc) [(pi & ci & Hpi & Hu & Hci & Hi & Ha & Ep & Ec) Hbest].
  pose proof (list_elem_of_lookup_2 _ _ _ Hpi) as Hpin. pose proof (list_elem_of_lookup_2 _ _ _ Hci) as Hcin.
  specialize (Hc _ Hpin). exists pi, ci, (best_provider s), (best_capability s). simpl.
  apply lookup_lt_Some in Hpi as Hplt. apply lookup_lt_Some in Hci as Hclt.
  rewrite Ep, Ec, !index32_small by lia. split_and!; try done. split; [by split_and!|].
  intros p' c' (Hp' & Hu' & Hc' & ? & ?). apply list_elem_of_lookup in Hp' as [pi' Hp'], Hc' as [ci' Hc'].
  apply (Hbest (mkSelection p' c' (index32 pi') (index32 ci'))). by exists pi', ci'.
Qed.

Lemma selected_supported d mode providers selected :
  Forall2 (chosen d mode providers) (required_kernels d) selected ->
  forall r, r ∈ required_kernels d -> supported_by (best_capability <$> selected) d r.
Proof.
  intros Hall r (i & Hi)%list_elem_of_lookup.
  destruct (Forall2_lookup_l _ _ _ _ _ Hall Hi) as (s & Hs & (pi & ci & _ & _ & _ & Himp & _) & _).
  destruct (list_find_elem_of (fun c => implements r c = true) (best_capability <$> selected) (best_capability s))
    as [[j c] Hf]; [by apply list_elem_of_fmap_2, (list_elem_of_lookup_2 _ i)|done|].
  exists j, c. split; [done|]. apply list_find_Some in Hf as (Hj & _ & _).
  apply list_lookup_fmap_Some in Hj as (s' & -> & Hs').
  destruct (Forall2_lookup_r _ _ _ _ _ Hall Hs') as (r' & _ & (pi' & ci' & _ & _ & _ & _ & Hacc & _) & _). done.
Qed.

Lemma assign_kernels d mode providers selected capabilities :
  Forall2 (chosen d mode providers) (required_kernels d) selected ->
  map_outcome (assign_kernel selected)
    (imap (fun i r => mkKernel (Z.of_nat i) 0 (Z.of_nat (capability_index capabilities r))) (required_kernels d)) =
  Ok (imap (fun i s => mkKernel (Z.of_nat i) (best_provider_index s) (best_capability_index s)) selected).
Proof.
  intros Hall. pose proof (Forall2_length _ _ _ Hall) as Hlen. clear Hall.
  assert (forall n l (rs : list KernelRequirement), (forall i, l !! i = selected !! (n + i)%nat) -> length rs = length l ->
    map_outcome (assign_kernel selected)
      (imap (fun i r => mkKernel (Z.of_nat (n + i)) 0 (Z.of_nat (capability_index capabilities r))) rs) =
    Ok (imap (fun i s => mkKernel (Z.of_nat (n + i)) (best_provider_index s) (best_capability_index s)) l)) as H;
    [|by apply (H 0%nat)].
  intros n l rs. revert n l. induction rs as [|r rs IH]; intros n [|s l] Hl Hrs; simpl in *; try done.
  unfold assign_kernel at 1. cbn [requirement_index]. unfold at_index. rewrite Nat2Z.id, <- (Hl 0%nat). simpl.
  erewrite (imap_ext _ (fun i r => mkKernel (Z.of_nat (S n + i)) 0 (Z.of_nat (capability_index capabilities r)))).
  - rewrite (IH (S n) l); [|intros i; change (l !! i) with ((s :: l) !! S i); rewrite (Hl (S i)); f_equal; lia|lia]. cbn [obind].
    rewrite Nat.add_0_r. do 2 f_equal. apply imap_ext. intros i s' _. simpl. do 2 f_equal. lia.
  - intros i r' _. simpl. do 2 f_equal. lia.
Qed.
Lemma elem_of_referenced x l : x ∈ referenced l <-> exists k, k ∈ l /\ provider_registry_index k = x.
Proof.
  unfold referenced. rewrite stable_sort_perm, elem_of_elements, elem_of_list_to_set, list_elem_of_fmap. naive_solver.
Qed.

Lemma references_of d mode providers (ks : list CompiledKernelBinding) :
  (forall k, k ∈ ks -> exists r, kernel_owner d mode providers r k) ->
  exists refs, map_outcome (reference providers) (referenced ks) = Ok refs /\
    br_registry_index <$> refs = referenced ks /\
    forall ref, ref ∈ refs -> exists p, providers !! Z.to_nat (br_registry_index ref) = Some p /\
      br_name ref = ep_name p /\ br_implementation ref = ep_implementation p /\ usable mode p.
Proof.
  intros Hks.
  destruct (map_outcome_Forall2 (reference providers) (fun i ref => br_registry_index ref = i /\
    exists p, providers !! Z.to_nat i = Some p /\ br_name ref = ep_name p /\
      br_implementation ref = ep_implementation p /\ usable mode p) (referenced ks)) as (refs & Hr & Hall).
  { intros i (k & Hk & <-)%elem_of_referenced.
    destruct (Hks k Hk) as (r & pi & ci & p & c & -> & _ & Hp & _ & (_ & Hu & _) & _).
    unfold reference, at_index. rewrite Nat2Z.id, Hp. cbn [obind]. eexists. split; [done|]. simpl. split; [done|]. by exists p. }
  exists refs. split; [done|]. split.
  - clear Hr Hks. induction Hall as [|i ref l k [<- _] _ IH]; [done|]. simpl. by f_equal.
  - intros ref (i & Hi)%list_elem_of_lookup.
    destruct (Forall2_lookup_r _ _ _ _ _ Hall Hi) as (j & _ & <- & p & ?). by exists p.
Qed.

Lemma bind_spec d mode providers :
  Forall component_typed (routed_components d) -> countable_sizes d providers -> validators_return d providers ->
  (well_formed d /\ (forall r, r ∈ required_kernels d -> exists p c, offer d mode providers r p c) /\
   exists plan, bind d mode providers = (success, plan) /\ bound_ok d mode providers plan) \/
  (~ well_formed d /\ bind d mode providers = (validate_model_descriptor d, empty_bound)) \/
  (well_formed d /\ exists l1 r l2, required_kernels d = l1 ++ r :: l2 /\
   (forall r', r' ∈ l1 -> exists p c, offer d mode providers r' p c) /\ (forall p c, ~ offer d mode providers r p c) /\
   bind d mode providers =
     (mkStatus invalid_arg ("no execution provider implements required kernel: " +:+ text (kr_capability r)), empty_bound)).
Proof.
  intros Ht Hsizes Hv. unfold bind, bind_body. pose proof (validate_ok d Ht) as Hwf.
  destruct (status_ok (validate_model_descriptor d)); cbn [negb]; [|right; left; split; [by intros ?%Hwf|done]].
  assert (well_formed d) as Hd by (by apply Hwf). clear Hwf.
  destruct (select_all_spec d mode providers (required_kernels d) Hv) as (m & -> & Hm). cbn [obind].
  destruct m as [status|selected].
  { right. right. split; [done|]. destruct Hm as (l1 & r & l2 & Hl & H1 & Hr & ->). exists l1, r, l2.
    split_and!; [done| | |done].
    - intros r' Hr'. apply offer_offers. auto.
    - intros p c Ho. destruct (proj1 (offer_offers d mode providers r)) as [s Hs]; [by exists p, c|]. by apply (Hr s). }
  left. pose proof (selected_supported d mode providers selected Hm) as Hsup.
  pose proof (Forall2_length _ _ _ Hm) as Hlen.
  destruct Hsizes as (Hk & Hc & Hll & Hpr & Hrest).
  pose proof (compile_spec d (best_capability <$> selected) Ht) as Hcomp.
  destruct (compile_model_program d (best_capability <$> selected)) as [status compiled].
  destruct Hcomp as (Hiff & Hok & _).
  { split_and!; try done; [lia|]. rewrite length_fmap, <- Hlen. done. }
  assert (status_ok status = true) as Hs by (by apply Hiff). rewrite Hs. cbn [negb].
  destruct (Hok Hs) as (_ & Hks & Hstr). rewrite Hks, (assign_kernels d mode providers selected _ Hm). cbn [obind].
  set (ks := imap _ selected).
  assert (forall i r k, required_kernels d !! i = Some r -> ks !! i = Some k ->
    requirement_index k = Z.of_nat i /\ kernel_owner d mode providers r k) as Howner.
  { intros i r k Hr Hki. unfold ks in Hki. rewrite list_lookup_imap in Hki.
    destruct (selected !! i) as [s|] eqn:Es; [|done]. simpl in Hki. injection Hki as <-. split; [done|].
    apply chosen_owner; [exact (conj Hk (conj Hc (conj Hll (conj Hpr Hrest))))|]. by destruct (Forall2_lookup_lr _ _ _ _ _ _ Hm Hr Es). }
  assert (length ks = length (required_kernels d)) as Hlks by (unfold ks; by rewrite length_imap).
  destruct (references_of d mode providers ks) as (refs & -> & Hidx & Hrefs).
  { intros k (i & Hi)%list_elem_of_lookup. destruct (lookup_lt_is_Some_2 (required_kernels d) i) as [r Hr].
    { rewrite <- Hlks. by eapply lookup_lt_Some. }
    exists r. exact (proj2 (Howner i r k Hr Hi)). }
  cbn [obind]. split_and!; [done| |].
  - intros r (i & Hi)%list_elem_of_lookup. destruct (Forall2_lookup_l _ _ _ _ _ Hm Hi) as (s & _ & Ho & _).
    apply offer_offers. by exists s.
  - eexists. split; [done|]. split; simpl; try done. destruct Hstr. by split.
Qed.
(** ** Registration *)

Definition capability_ok (c : KernelCapability) : Prop :=
  kc_capability c <> [] /\ kc_minimum_abi c <> 0 /\ kc_minimum_abi c <= kc_maximum_abi c.

Definition provider_ok (p : ExecutionProviderDefinition Implementation) : Prop :=
  ep_name p <> [] /\ ep_capabilities p <> [] /\ NoDup (kc_capability <$> ep_capabilities p) /\
  forall c, c ∈ ep_capabilities p -> capability_ok c.

Definition registry_ok providers : Prop :=
  NoDup (ep_name <$> providers) /\ forall p, p ∈ providers -> provider_ok p.

Lemma check_capabilities_inr (l : list KernelCapability) (s : gset (list Z)) :
  check_each check_capability l ∅ = inr s <->
  (forall c, c ∈ l -> capability_ok c) /\ NoDup (kc_capability <$> l) /\ s = list_to_set (kc_capability <$> l).
Proof.
  rewrite (check_each_distinct check_capability kc_capability capability_ok).
  - rewrite union_empty_r_L. set_solver.
  - intros c s1 s2. unfold check_capability, capability_ok. rewrite if_invalid, inr_inr. guards. tauto.
Qed.

Lemma add_provider_spec p providers :
  (provider_ok p /\ ep_name p ∉ ep_name <$> providers /\
   add_execution_provider p providers = (success, providers ++ [p])) \/
  (~ (provider_ok p /\ ep_name p ∉ ep_name <$> providers) /\
   exists st, add_execution_provider p providers = (st, providers) /\ code st = invalid_arg).
Proof.
  unfold add_execution_provider, provider_ok. destruct (bool_decide _ || bool_decide _) eqn:E1.
  { right. split; [|by eexists]. intros ((Hn & Hc & _) & _).
    apply orb_true_iff in E1 as [E1%bool_decide_eq_true|E1%bool_decide_eq_true]; [done|by apply length_zero_iff_nil in E1]. }
  apply orb_false_iff in E1 as [En%bool_decide_eq_false Ec%bool_decide_eq_false].
  assert (ep_capabilities p <> []) as Hc by (intros E; by rewrite E in Ec).
  destruct (existsb _ providers) eqn:E2.
  { right. split; [|by eexists]. intros [_ Hf]. apply Hf. apply existsb_elem in E2 as (q & Hq & E2%bool_decide_eq_true).
    rewrite <- E2. by apply list_elem_of_fmap_2. }
  assert (ep_name p ∉ ep_name <$> providers) as Hf.
  { intros (q & Eq & Hq)%list_elem_of_fmap. apply not_true_iff_false in E2. apply E2, existsb_elem. exists q.
    by rewrite bool_decide_eq_true. }
  destruct (check_each check_capability (ep_capabilities p) ∅) as [st|s] eqn:E3.
  - right. split.
    + intros ((_ & _ & Hnd & Hok) & _). pose proof (proj2 (check_capabilities_inr _ _) (conj Hok (conj Hnd eq_refl))). congruence.
    + exists st. split; [done|]. assert (rejects (check_each check_capability (ep_capabilities p) ∅)) as Hr.
      { apply rejects_each. intros c s. unfold check_capability. by case_match. }
      by rewrite E3 in Hr.
  - left. apply check_capabilities_inr in E3 as (Hok & Hnd & _). by split_and!.
Qed.

(** Whatever is registered, in whatever order, the registry is consistent. *)
Definition registrations (l : list (ExecutionProviderDefinition Implementation)) :=
  foldl (fun providers p => (add_execution_provider p providers).2) [] l.

Lemma registrations_ok l : registry_ok (registrations l).
Proof.
  unfold registrations. assert (registry_ok []) as H by (split; [apply NoDup_nil_2|intros ? []%not_elem_of_nil]).
  revert H. generalize (@nil (ExecutionProviderDefinition Implementation)).
  induction l as [|p l IH]; intros ps [Hnd Hok]; simpl; [done|]. apply IH.
  destruct (add_provider_spec p ps) as [(Hp & Hf & ->)|(_ & st & -> & _)]; [|done]. simpl. split.
  - rewrite fmap_app. apply NoDup_app. split_and!; [done| |apply NoDup_singleton].
    intros n Hn Hn'. apply list_elem_of_singleton in Hn' as ->. done.
  - intros q [?|Hq%list_elem_of_singleton]%elem_of_app; [auto|by subst].
Qed.

(** ** The best offer is unique *)

Lemma rank_equal (p q : ExecutionProviderDefinition Implementation) :
  rank_ltb (rank p) (rank q) = false -> rank_ltb (rank q) (rank p) = false -> ep_name p = ep_name q.
Proof.
  unfold rank_ltb, preferred. simpl.
  rewrite !orb_false_iff, !andb_false_iff, !Z.ltb_ge, !Z.eqb_neq. intros [H1 H2] [H3 H4].
  apply bytes_ltb_total; [destruct H2 as [H2|H2]|destruct H4 as [H4|H4]]; try done; lia.
Qed.

Lemma best_offer_unique d mode providers r p c p' c' :
  registry_ok providers -> best_offer d mode providers r p c -> best_offer d mode providers r p' c' -> p = p' /\ c = c'.
Proof.
  intros [Hnd Hok] [Ho Hb] [Ho' Hb'].
  assert (p = p') as ->.
  { apply (NoDup_name_unique ep_name providers); [done|by destruct Ho|by destruct Ho'|].
    apply rank_equal; [by eapply Hb'|by eapply Hb]. }
  split; [done|]. destruct Ho as (Hp & _ & Hc & Hi & _), Ho' as (_ & _ & Hc' & Hi' & _).
  destruct (Hok p' Hp) as (_ & _ & Hcn & _).
  apply (NoDup_name_unique kc_capability (ep_capabilities p')); [done|done|done|].
  unfold implements in Hi, Hi'. rewrite !andb_true_iff, bool_decide_eq_true in Hi, Hi'.
  destruct Hi as [[-> _] _], Hi' as [[-> _] _]. done.
Qed.

Lemma offer_perm d mode providers providers' r p c :
  providers ≡ₚ providers' -> offer d mode providers r p c <-> offer d mode providers' r p c.
Proof. intros Hp. unfold offer. by rewrite Hp. Qed.

Lemma best_offer_perm d mode providers providers' r p c :
  providers ≡ₚ providers' -> best_offer d mode providers r p c -> best_offer d mode providers' r p c.
Proof.
  intros Hp [Ho Hb]. split; [by eapply offer_perm|]. intros p' c' Ho'. eapply Hb. by eapply offer_perm.
Qed.

Lemma countable_sizes_perm d providers providers' :
  providers ≡ₚ providers' -> countable_sizes d providers -> countable_sizes d providers'.
Proof. intros Hp (? & ? & ? & ? & ? & Hc). unfold countable_sizes. rewrite <- Hp. split_and!; try done. intros p Hin. apply Hc. by rewrite Hp. Qed.

Lemma validators_return_perm d providers providers' :
  providers ≡ₚ providers' -> validators_return d providers -> validators_return d providers'.
Proof. intros Hp Hv p c f Hin. apply Hv. by rewrite Hp. Qed.

(** The first kernel without an offer is the same. *)
Lemma first_unserved {A : Type} (P : A -> Prop) l1 x l2 l1' x' l2' :
  l1 ++ x :: l2 = l1' ++ x' :: l2' -> (forall a, a ∈ l1 -> P a) -> ~ P x -> (forall a, a ∈ l1' -> P a) -> ~ P x' -> x = x'.
Proof.
  revert l1'. induction l1 as [|a l1 IH]; intros [|a' l1'] Heq H1 Hx H1' Hx'; simpl in Heq; injection Heq as Ha Hl.
  - done.
  - exfalso. apply Hx. subst. apply H1'. by left.
  - exfalso. apply Hx'. subst. apply H1. by left.
  - apply (IH l1' Hl); [intros; apply H1; by right|done|intros; apply H1'; by right|done].
Qed.

Lemma bind_status_perm d mode providers providers' :
  Forall component_typed (routed_components d) -> countable_sizes d providers -> validators_return d providers ->
  providers ≡ₚ providers' -> (bind d mode providers).1 = (bind d mode providers').1.
Proof.
  intros Ht Hs Hv Hp.
  assert (forall r, (exists p c, offer d mode providers r p c) <-> exists p c, offer d mode providers' r p c) as Hoff.
  { intros r. split; intros (p & c & Ho); exists p, c; by eapply offer_perm. }
  assert (forall r, (forall p c, ~ offer d mode providers' r p c) -> ~ exists p c, offer d mode providers r p c) as Hnone.
  { intros r Hn Ho. apply Hoff in Ho as (p & c & Ho). by eapply Hn. }
  destruct (bind_spec d mode providers Ht Hs Hv) as [(Hwf & Hall & plan & -> & _)|[(Hwf & ->)|(Hwf & l1 & r & l2 & Hl & H1 & Hr & ->)]];
  destruct (bind_spec d mode providers' Ht (countable_sizes_perm _ _ _ Hp Hs) (validators_return_perm _ _ _ Hp Hv))
    as [(Hwf' & Hall' & plan' & -> & _)|[(Hwf' & ->)|(Hwf' & l1' & r' & l2' & Hl' & H1' & Hr' & ->)]]; try done.
  - exfalso. apply (Hnone r' Hr'), Hall. rewrite Hl'. set_solver.
  - exfalso. assert (r ∈ required_kernels d) as Hin by (rewrite Hl; set_solver).
    apply Hall', Hoff in Hin as (p & c & ?). by eapply Hr.
  - simpl. rewrite Hl in Hl'.
    rewrite (first_unserved (fun r => exists p c, offer d mode providers r p c) _ _ _ _ _ _ Hl' H1); try done.
    + intros (p & c & ?). by eapply Hr.
    + intros a Ha. by apply Hoff, H1'.
    + by apply Hnone.
Qed.
Lemma bind_same_owner d mode providers providers' i k k' :
  Forall component_typed (routed_components d) -> countable_sizes d providers -> validators_return d providers ->
  registry_ok providers -> providers ≡ₚ providers' ->
  kernels (program (bind d mode providers).2) !! i = Some k ->
  kernels (program (bind d mode providers').2) !! i = Some k' ->
  exists p, providers !! Z.to_nat (provider_registry_index k) = Some p /\
    providers' !! Z.to_nat (provider_registry_index k') = Some p /\
    provider_capability_index k = provider_capability_index k'.
Proof.
  intros Ht Hs Hv Hreg Hp Hk Hk'. pose proof (countable_sizes_perm _ _ _ Hp Hs) as Hs'.
  pose proof (validators_return_perm _ _ _ Hp Hv) as Hv'.
  destruct (bind_spec d mode providers Ht Hs Hv) as [(_ & _ & plan & E & Hok)|[(_ & E)|(_ & ? & ? & ? & ? & ? & ? & E)]];
    rewrite E in Hk; [|done|done].
  destruct (bind_spec d mode providers' Ht Hs' Hv') as [(_ & _ & plan' & E' & Hok')|[(_ & E')|(_ & ? & ? & ? & ? & ? & ? & E')]];
    rewrite E' in Hk'; [|done|done]. simpl in Hk, Hk'.
  destruct (bo_kernels _ _ _ _ Hok) as [Hl Howner], (bo_kernels _ _ _ _ Hok') as [_ Howner'].
  destruct (lookup_lt_is_Some_2 (required_kernels d) i) as [r Hr]; [rewrite <- Hl; by eapply lookup_lt_Some|].
  destruct (Howner i r k Hr Hk) as (_ & pi & ci & p & c & Epi & Eci & Hpi & Hci & Hbest).
  destruct (Howner' i r k' Hr Hk') as (_ & pi' & ci' & p' & c' & Epi' & Eci' & Hpi' & Hci' & Hbest').
  apply (best_offer_perm _ _ _ _ _ _ _ (symmetry Hp)) in Hbest'.
  destruct (best_offer_unique _ _ _ _ _ _ _ _ Hreg Hbest Hbest') as [<- <-].
  exists p. rewrite Epi, Epi', !Nat2Z.id. split_and!; [done|done|]. rewrite Eci, Eci'. f_equal.
  destruct Hreg as [_ Hreg]. destruct (Hreg p) as (_ & _ & Hnd & _); [by destruct Hbest as [[? _] _]|].
  eapply (NoDup_lookup _ _ _ _ Hnd); rewrite list_lookup_fmap; [by rewrite Hci|by rewrite Hci'].
Qed.

(** ** Workers *)

Implicit Types (w : WorkerProviderDefinition Implementation) (workers : list (WorkerProviderDefinition Implementation)).

Definition worker_rank w : Z * list Z := (wp_priority w, wp_name w).

Definition worker_supports (d : ModelDescriptor) w : Prop :=
  well_formed d /\ forall r, r ∈ required_kernels d -> supported_by (wp_capabilities w) d r.

(** The best of the workers that support the model. *)
Definition best_worker (d : ModelDescriptor) workers (best : option (WorkerProviderDefinition Implementation)) : Prop :=
  match best with
  | None => forall w, w ∈ workers -> ~ worker_supports d w
  | Some b => b ∈ workers /\ worker_supports d b /\
    forall w, w ∈ workers -> worker_supports d w -> rank_ltb (worker_rank w) (worker_rank b) = false
  end.

Lemma best_worker_snoc d workers w best :
  best_worker d workers best -> worker_supports d w ->
  best_worker d (workers ++ [w])
    (if match best with
        | None => true
        | Some s => preferred (wp_priority w) (wp_name w) (wp_priority s) (wp_name s)
        end then Some w else best).
Proof.
  assert (rank_ltb (worker_rank w) (worker_rank w) = false) as Hirr.
  { destruct (rank_ltb (worker_rank w) (worker_rank w)) eqn:E; [|done]. pose proof (swo_asym _ _ E). congruence. }
  destruct best as [b|]; simpl.
  - intros (Hb & Hsb & Hbest) Hw. change (preferred _ _ _ _) with (rank_ltb (worker_rank w) (worker_rank b)).
    destruct (rank_ltb (worker_rank w) (worker_rank b)) eqn:E; simpl.
    + split_and!; [apply elem_of_app; right; by left|done|].
      intros v [Hv|Hv%list_elem_of_singleton]%elem_of_app Hsv; [|by subst].
      eapply (swo_trans (ltb := rank_ltb)); [apply swo_asym, E|by apply Hbest].
    + split_and!; [apply elem_of_app; by left|done|].
      intros v [Hv|Hv%list_elem_of_singleton]%elem_of_app Hsv; [by apply Hbest|by subst].
  - intros Hnone Hw. split_and!; [apply elem_of_app; right; by left|done|].
    intros v [Hv|Hv%list_elem_of_singleton]%elem_of_app Hsv; [by apply Hnone in Hsv|by subst].
Qed.

Lemma select_loop_best d past workers best :
  Forall component_typed (routed_components d) ->
  best_worker d past best -> best_worker d (past ++ workers) (select_loop d workers best).
Proof.
  intros Ht. revert past best. induction workers as [|w workers IH]; intros past best Hb; cbn [select_loop]; [rewrite app_nil_r; exact Hb|].
  pose proof (provider_supports_ok d (wp_capabilities w) Ht) as Hs.
  replace (past ++ w :: workers) with ((past ++ [w]) ++ workers) by (by rewrite <- app_assoc).
  destruct (status_ok (provider_supports_model d (wp_capabilities w))); simpl; apply IH.
  - apply best_worker_snoc; [done|by apply Hs].
  - assert (~ worker_supports d w) as Hn by (intros ?%Hs; done). destruct best as [b|]; simpl in *.
    + destruct Hb as (Hb & Hsb & Hbest). split_and!; [apply elem_of_app; by left|done|].
      intros v [Hv|Hv%list_elem_of_singleton]%elem_of_app Hsv; [by apply Hbest|by subst].
    + intros v [Hv|Hv%list_elem_of_singleton]%elem_of_app; [auto|by subst].
Qed.

Lemma best_worker_unique d workers workers' best best' :
  NoDup (wp_name <$> workers) -> workers ≡ₚ workers' ->
  best_worker d workers best -> best_worker d workers' best' -> best = best'.
Proof.
  intros Hnd Hp. destruct best as [b|], best' as [b'|]; simpl; try done.
  - intros (Hb & Hs & Hbest) (Hb' & Hs' & Hbest'). rewrite <- Hp in Hb'. f_equal.
    apply (NoDup_name_unique wp_name workers); [done|done|done|].
    pose proof (Hbest b' Hb' Hs') as H1. assert (b ∈ workers') as Hb2 by (by rewrite <- Hp).
    pose proof (Hbest' b Hb2 Hs) as H2. unfold rank_ltb, preferred in H1, H2. simpl in H1, H2.
    rewrite !orb_false_iff, !andb_false_iff, !Z.ltb_ge, !Z.eqb_neq in H1, H2. destruct H1 as [? H1], H2 as [? H2].
    apply bytes_ltb_total; [destruct H2 as [H2|H2]|destruct H1 as [H1|H1]]; try done; lia.
  - intros (Hb & Hs & _) Hn. rewrite Hp in Hb. by apply Hn in Hs.
  - intros Hn (Hb & Hs & _). rewrite <- Hp in Hb. by apply Hn in Hs.
Qed.

Definition worker_registrations (l : list (WorkerProviderDefinition Implementation)) :=
  foldl (fun workers w => (add_worker_provider w workers).2) [] l.

Lemma worker_registrations_names l : NoDup (wp_name <$> worker_registrations l).
Proof.
  unfold worker_registrations. assert (NoDup (wp_name <$> ([] : list (WorkerProviderDefinition Implementation)))) as H
    by apply NoDup_nil_2.
  revert H. generalize (@nil (WorkerProviderDefinition Implementation)).
  induction l as [|w l IH]; intros ws Hnd; simpl; [done|]. apply IH.
  unfold add_worker_provider. case_match; [done|]. destruct (existsb _ ws) eqn:E; [done|]. simpl.
  rewrite fmap_app. apply NoDup_app. split_and!; [done| |apply NoDup_singleton].
  intros n (v & -> & Hv)%list_elem_of_fmap Hn. apply list_elem_of_singleton in Hn.
  apply not_true_iff_false in E. apply E, existsb_elem. exists v. by rewrite bool_decide_eq_true.
Qed.
End Binding.

(** ** The theorems *)

(** C40: A model binds exactly when it is well formed and every kernel it requires has an
    offer: a provider that can be used, with a capability that covers the ABI and accepts
    the model. Each kernel is then owned by its best offer, of greatest priority and
    smallest name; the plan lists the owners, and its program denotes the model. A
    refusal is an invalid argument and binds nothing. *)
Theorem bind_takes_best_offers {Implementation} d mode (l : list (ExecutionProviderDefinition Implementation)) :
  Forall component_typed (routed_components d) -> countable_sizes d (registrations l) ->
  validators_return d (registrations l) ->
  let '(status, plan) := bind d mode (registrations l) in
  (status_ok status = true <->
   well_formed d /\ forall r, r ∈ required_kernels d -> exists p c, offer d mode (registrations l) r p c) /\
  (status_ok status = true -> status = success /\ bound_ok d mode (registrations l) plan) /\
  (status_ok status = false -> code status = invalid_arg /\ plan = empty_bound).
Proof.
  intros Ht Hs Hv. pose proof (validate_ok d Ht) as Hwf. destruct (validation_exact d Ht) as [_ Hcode].
  destruct (bind_spec d mode (registrations l) Ht Hs Hv) as
    [(Hd & Hall & plan & -> & Hok)|[(Hd & ->)|(Hd & l1 & r & l2 & Hl & _ & Hr & ->)]].
  - done.
  - destruct (status_ok (validate_model_descriptor d)) eqn:E; [by destruct Hd; apply Hwf|].
    split_and!; [split; [done|by intros [? _]]|done|]. intros _. split; [|done]. apply Hcode. intros E'. by rewrite E' in E.
  - split_and!; [split; [done|]|done|done]. intros [_ Hall]. destruct (Hall r) as (p & c & Ho); [rewrite Hl; set_solver|].
    by apply Hr in Ho.
Qed.

(** The order in which providers are registered does not matter: the status is the
    same, and every kernel is owned by the same provider through the same capability. *)
Theorem binding_ignores_registration_order {Implementation} d mode
    (l : list (ExecutionProviderDefinition Implementation)) providers' i k k' :
  Forall component_typed (routed_components d) -> countable_sizes d (registrations l) ->
  validators_return d (registrations l) -> registrations l ≡ₚ providers' ->
  (bind d mode (registrations l)).1 = (bind d mode providers').1 /\
  (kernels (program (bind d mode (registrations l)).2) !! i = Some k ->
   kernels (program (bind d mode providers').2) !! i = Some k' ->
   exists p, registrations l !! Z.to_nat (provider_registry_index k) = Some p /\
     providers' !! Z.to_nat (provider_registry_index k') = Some p /\
     provider_capability_index k = provider_capability_index k').
Proof.
  intros Ht Hs Hv Hp. split; [by apply bind_status_perm|]. apply bind_same_owner; try done. apply registrations_ok.
Qed.

(** A worker is selected exactly when one supports the model; it is the one of
    greatest priority and smallest name among those, in whatever order they were
    registered. *)
Theorem worker_selection_is_canonical {Implementation} d (l : list (WorkerProviderDefinition Implementation)) workers' :
  Forall component_typed (routed_components d) -> worker_registrations l ≡ₚ workers' ->
  select_worker d (worker_registrations l) = select_worker d workers' /\
  best_worker d workers' (select_worker d workers').2 /\
  (status_ok (select_worker d workers').1 = true <-> exists w, w ∈ workers' /\ worker_supports d w).
Proof.
  intros Ht Hp. unfold select_worker.
  assert (forall ws : list (WorkerProviderDefinition Implementation), best_worker d ws (select_loop d ws None)) as Hbest.
  { intros ws. apply (select_loop_best d [] ws None Ht). intros ? []%not_elem_of_nil. }
  rewrite (best_worker_unique d _ workers' _ _ (worker_registrations_names l) Hp (Hbest _) (Hbest _)).
  pose proof (Hbest workers') as Hb. destruct (select_loop d workers' None) as [w|]; simpl in *.
  - split; [done|]. split; [exact Hb|]. split; [|done]. intros _. exists w. by destruct Hb as (? & ? & _).
  - split; [done|]. split; [exact Hb|]. split; [done|]. intros (w & Hw & Hs). by apply Hb in Hs.
Qed.

(** ** A small registry *)

Definition demo_moe (limit : Z) : KernelCapability :=
  mkCapability (bytes "moe") 1 2 (Some (fun d =>
    Ok (if hidden_size d <=? limit then success else mkStatus invalid_arg "hidden size"))).

Definition demo_providers : list (ExecutionProviderDefinition unit) :=
  [mkProvider (bytes "cuda") 2 [demo_moe 8] (Some tt); mkProvider (bytes "cpu") 1 demo_capabilities (Some tt);
   mkProvider (bytes "wide") 3 [demo_moe 4] (Some tt); mkProvider (bytes "cublas") 2 [demo_moe 64] (Some tt);
   mkProvider (bytes "cpu") 9 [demo_moe 64] (Some tt)].

Lemma demo_registered : registrations demo_providers = take 4 demo_providers.
Proof. vm_compute. reflexivity. Qed.

Lemma demo_typed : Forall component_typed (routed_components demo_model).
Proof. repeat constructor; vm_compute; discriminate. Qed.

Lemma demo_sizes : countable_sizes demo_model (registrations demo_providers).
Proof.
  rewrite demo_registered. unfold countable_sizes. split; [vm_compute; reflexivity|].
  do 4 (split; [vm_compute; discriminate|]). apply Forall_forall. repeat constructor; vm_compute; discriminate.
Qed.

Lemma demo_validators : validators_return demo_model (registrations demo_providers).
Proof.
  rewrite demo_registered.
  assert (Forall (fun p => Forall (fun c => forall f, kc_validate c = Some f -> exists st, f demo_model = Ok st)
    (ep_capabilities p)) (take 4 demo_providers)) as H.
  { repeat constructor; intros f [=]; subst; by eexists. }
  intros p c f Hp Hc. rewrite Forall_forall in H. specialize (H p Hp). rewrite Forall_forall in H. by apply H.
Qed.

Lemma bind_takes_best_offers_witness :
  bound_ok demo_model executable (registrations demo_providers)
    (bind demo_model executable (registrations demo_providers)).2.
Proof.
  pose proof (bind_takes_best_offers demo_model executable demo_providers demo_typed demo_sizes demo_validators) as H.
  destruct (bind demo_model executable (registrations demo_providers)) as [status plan] eqn:E. simpl.
  apply H. replace status with (bind demo_model executable (registrations demo_providers)).1 by (by rewrite E).
  vm_compute. reflexivity.
Defined.

Lemma binding_ignores_registration_order_witness :
  exists p, registrations demo_providers !! 3%nat = Some p /\ reverse (registrations demo_providers) !! 0%nat = Some p.
Proof.
  destruct (binding_ignores_registration_order demo_model executable demo_providers
    (reverse (registrations demo_providers)) 2 (mkKernel 2 3 0) (mkKernel 2 0 0)
    demo_typed demo_sizes demo_validators) as [_ H].
  - symmetry. apply reverse_Permutation.
  - destruct H as (p & Hp & Hp' & _); [vm_compute; reflexivity|vm_compute; reflexivity|]. exists p. done.
Defined.

Lemma worker_selection_is_canonical_witness :
  exists w, (select_worker demo_model
    (worker_registrations [mkWorker (bytes "moe") 9 [demo_moe 8] (Some tt); mkWorker (bytes "cpu") 1 demo_capabilities (Some tt)])).2
    = Some w /\ wp_name w = bytes "cpu".
Proof.
  destruct (worker_selection_is_canonical demo_model
    [mkWorker (bytes "moe") 9 [demo_moe 8] (Some tt); mkWorker (bytes "cpu") 1 demo_capabilities (Some tt)]
    (worker_registrations
      [mkWorker (bytes "cpu") 1 demo_capabilities (Some tt); mkWorker (bytes "moe") 9 [demo_moe 8] (Some tt)])
    demo_typed) as (-> & _ & _).
  - apply Permutation_swap.
  - eexists. split; vm_compute; reflexivity.
Defined.
