(* ===== verification/Handles.v ===== *)
(** The pollable handles of [active_expert_executor.cpp] and [expert_store.cpp]: a handle
    owns two callbacks, one that may publish a result and one that cancels, and calls
    neither after it has settled. The callbacks share a state [S] and run on a world [W],
    which stands for everything that they can observe and change. A handle without a core
    is [None]; [X] is what else the core keeps. *)

From S2P Require Import Prelude.

(** A call of code that is not modelled. *)
Definition ask {W A : Type} (f : W -> A * W) : ST W A := fun w => Ok (f w).

(** A call on a part of the world. *)
Definition inner {T W A : Type} (m : ST W A) : ST (T * W) A := fun w =>
  match m w.2 with Ok (a, w') => Ok (a, (w.1, w')) | Throw e => Throw e end.

(** An outcome, in a world that it does not touch. *)
Definition lift {W A : Type} (m : outcome A) : ST W A := fun w =>
  match m with Ok a => Ok (a, w) | Throw e => Throw e end.

Lemma wpe_inner {T W A} (m : ST W A) (Q : A -> T * W -> Prop) E w :
  wpe m (fun a w' => Q a (w.1, w')) E w.2 -> wpe (inner m) Q E w.
Proof. unfold wpe, inner. by destruct (m w.2) as [[a w']|e]. Qed.

Lemma wpe_ask {W A} (f : W -> A * W) Q E w : Q (f w).1 (f w).2 -> wpe (ask f) Q E w.
Proof. unfold wpe, ask. by destruct (f w). Qed.

Lemma wpe_modify {W} (f : W -> W) (Q : unit -> W -> Prop) E w : Q tt (f w) -> wpe (modify f) Q E w.
Proof. done. Qed.

Lemma wpe_lift {W A} (a : A) (Q : A -> W -> Prop) E w : Q a w -> wpe (lift (Ok a)) Q E w.
Proof. done. Qed.

Lemma wpe_when {W} b (m : ST W unit) (Q : unit -> W -> Prop) E w :
  (b = true -> wpe m Q E w) -> (b = false -> Q tt w) -> wpe (when b m) Q E w.
Proof. destruct b; cbn; auto. Qed.

Class Callbacks (W S R : Type) := {
  call_poll : S -> ST W (option R * S);
  call_cancel : S -> ST W S }.

Record HandleCore (S X : Type) := mkCore { shared : S; extra : X; handle_terminal : bool }.
Arguments mkCore {S X} _ _ _.
Arguments shared {S X} _.
Arguments extra {S X} _.
Arguments handle_terminal {S X} _.

Notation Handle S X := (option (HandleCore S X)).

Section Handles.
Context {W S R X : Type} `{!Callbacks W S R}.

(** The callbacks are never empty here. *)
Definition handle_of (s : S) (x : X) : Handle S X := Some (mkCore s x false).

Definition handle_valid (h : Handle S X) : bool :=
  match h with Some core => negb (handle_terminal core) | None => false end.

Definition handle_poll (h : Handle S X) : ST W (option R * Handle S X) :=
  match h with
  | None => ret (None, None)
  | Some core =>
    if handle_terminal core then ret (None, h)
    else
      let* p := call_poll (shared core) in
      let '(result, s) := p in
      ret (result, Some (mkCore s (extra core) (bool_decide (is_Some result))))
  end.

Definition handle_cancel (h : Handle S X) : ST W (Handle S X) :=
  match h with
  | None => ret None
  | Some core =>
    if handle_terminal core then ret h
    else let* s := call_cancel (shared core) in ret (Some (mkCore s (extra core) true))
  end.

(** ** What a handle promises

    [live] is an invariant of the shared state while the handle has not settled, [good] what
    is published. *)
Class CallbacksSpec (live : S -> Prop) (good : R -> Prop) : Prop := {
  poll_spec s w : live s ->
    wpe (call_poll s) (fun rs _ => match rs.1 with Some r => good r | None => live rs.2 end) (fun _ => False) w;
  cancel_spec s w : live s -> wpe (call_cancel s) (fun _ _ => True) (fun _ => False) w }.

(** The same of a handle. *)
Definition live_handle (live : S -> Prop) (h : Handle S X) : Prop :=
  forall core, h = Some core -> handle_terminal core = false -> live (shared core).

Lemma live_handle_of live s x : live s -> live_handle live (handle_of s x).
Proof. intros Hs core [= <-] _. done. Qed.

Lemma handle_poll_settles {live good} `{!CallbacksSpec live good} (h : Handle S X) w :
  live_handle live h ->
  wpe (handle_poll h) (fun rh _ => match rh.1 with
                                   | Some r => good r /\ handle_valid rh.2 = false
                                   | None => live_handle live rh.2
                                   end) (fun _ => False) w.
Proof.
  intros Hh. destruct h as [[s x []]|].
  1, 3: by apply wpe_ret; cbn; intros core E; simplify_eq.
  apply wpe_bind. eapply wpe_mono; [apply poll_spec, (Hh _ eq_refl eq_refl)|].
  intros [[r|] s'] w' Hr; cbn in *; [done|]. intros core E. by simplify_eq.
Qed.

Lemma handle_poll_spec {live good} `{!CallbacksSpec live good} (h : Handle S X) w :
  live_handle live h ->
  wpe (handle_poll h) (fun rh _ => (forall r, rh.1 = Some r -> good r) /\ live_handle live rh.2) (fun _ => False) w.
Proof.
  intros Hh. eapply wpe_mono; [by apply handle_poll_settles|]. intros [[r|] h'] w'; cbn.
  - intros [Hg Hv]. split; [naive_solver|]. intros core -> Ht. cbn in Hv. by rewrite Ht in Hv.
  - intros Hl. by split.
Qed.

Lemma handle_cancel_spec {live good} `{!CallbacksSpec live good} (h : Handle S X) w :
  live_handle live h -> wpe (handle_cancel h) (fun h' _ => handle_valid h' = false) (fun _ => False) w.
Proof.
  intros Hh. destruct h as [[s x []]|]; [by apply wpe_ret| |by apply wpe_ret].
  apply wpe_bind. eapply wpe_mono; [apply cancel_spec, (Hh _ eq_refl eq_refl)|]. intros s' w' _. by apply wpe_ret.
Qed.

(** What a client does with a handle. *)
Inductive HandleCall : Type := poll_call | cancel_call.

(** The results that a sequence of calls publishes. *)
Fixpoint run_calls (calls : list HandleCall) (h : Handle S X) : ST W (list R * Handle S X) :=
  match calls with
  | [] => ret ([], h)
  | poll_call :: calls =>
    let* p := handle_poll h in
    let '(result, h) := p in
    let* q := run_calls calls h in
    let '(results, h) := q in
    ret (match result with Some r => r :: results | None => results end, h)
  | cancel_call :: calls => let* h := handle_cancel h in run_calls calls h
  end.

Lemma settled_publishes_nothing calls (h : Handle S X) w :
  handle_valid h = false -> run_calls calls h w = Ok ([], h, w).
Proof.
  intros Hh. induction calls as [|[] calls IH]; [done|..]; cbn.
  - unfold bind. assert (handle_poll h w = Ok (None, h, w)) as ->.
    { destruct h as [[s x []]|]; done. }
    by rewrite IH.
  - unfold bind. assert (handle_cancel h w = Ok (h, w)) as ->; [|done].
    destruct h as [[s x []]|]; done.
Qed.

(** However a handle is used, it publishes at most one result, and a good one. *)
Lemma handle_publishes_once {live good} `{!CallbacksSpec live good} calls (h : Handle S X) w :
  live_handle live h ->
  exists results h' w', run_calls calls h w = Ok (results, h', w') /\ (length results <= 1)%nat /\ Forall good results.
Proof.
  revert h w. induction calls as [|c calls IH]; intros h w Hlive.
  { exists [], h, w. split_and!; [done|simpl; lia|by constructor]. }
  destruct (handle_valid h) eqn:Hv.
  2: { exists [], h, w. rewrite settled_publishes_nothing by done. split_and!; [done|simpl; lia|by constructor]. }
  destruct h as [[s x []]|]; try done. specialize (Hlive _ eq_refl eq_refl). cbn in Hlive.
  destruct c; cbn; unfold bind.
  - pose proof (poll_spec s w Hlive) as Hp. unfold wpe in Hp.
    destruct (call_poll s w) as [[[[r|] s'] w']|e]; cbn in *; [| |done].
    + rewrite settled_publishes_nothing by done. eexists _, _, _. split; [done|].
      split; [simpl; lia|by repeat constructor].
    + destruct (IH (Some (mkCore s' x false)) w') as (rs & h' & w'' & E & Hn & Hg).
      { intros core [= <-] _. done. }
      rewrite E. eauto 6.
  - pose proof (cancel_spec s w Hlive) as Hc. unfold wpe in Hc.
    destruct (call_cancel s w) as [[s' w']|e]; [|done]. cbn.
    rewrite settled_publishes_nothing by done. eexists _, _, _. split; [done|]. split; [simpl; lia|by constructor].
Qed.
End Handles.
