(* ===== verification/ActiveExpert.v ===== *)
(** Model of [active_expert_executor.cpp], first part: the data of an expert that executes
    elsewhere, the registry of executors, and the frames that carry an invocation to its
    owner and the result back. A frame is a header, fields in little-endian order and the
    SHA-256 of all that precedes it. Bytes and machine words are integers; the readings of
    the steady clock, in nanoseconds, are arguments. *)

From Stdlib Require Import String.
From S2P Require Import Prelude.
From S2P Require Import Storage.
From S2P Require Import Text.
From S2P Require Import Sha256.
From S2P Require Import ModelDescriptor.

#[local] Open Scope bool_scope.

(** ** Data *)

(** [owner] says whether the owning pointer is set; [buf_data] is what [data] points to, or
    [None] when it is null. *)
Record ActiveExpertBuffer := mkBuffer {
  buf_abi : list Z;
  memory_domain : list Z;
  buf_owner : bool;
  buf_data : option (list Z);
  buf_bytes : Z }.

Definition empty_buffer : ActiveExpertBuffer := mkBuffer [] [] false None 0.

Definition buffer_valid (b : ActiveExpertBuffer) : bool :=
  negb (bool_decide (buf_abi b = [])) && negb (bool_decide (memory_domain b = [])) && buf_owner b &&
  negb (bool_decide (buf_data b = None)) && negb (buf_bytes b =? 0).

Record ActiveExpertIdentity := mkIdentity {
  id_model_content_hash : list Z;
  id_key : ExpertKey;
  id_capability : list Z;
  id_execution_abi : Z;
  id_source_abi : Z }.

#[export] Instance ActiveExpertIdentity_eq_dec : EqDecision ActiveExpertIdentity.
Proof. solve_decision. Defined.

Definition empty_identity : ActiveExpertIdentity := mkIdentity (replicate 32 0) (mkExpertKey 0 0 0 0) [] 0 0.

(** [time_point::max()] stands for no deadline. *)
Definition INT64_MAX : Z := 2 ^ 63 - 1.
Definition no_deadline : Z := INT64_MAX.

Record ActiveExpertInvocation := mkInvocation {
  av_request_id : Z;
  av_invocation_id : Z;
  av_selection_index : Z;
  av_route_width : Z;
  av_deadline : Z;
  av_input : ActiveExpertBuffer;
  av_output_abi : list Z;
  av_output_bytes : Z }.

#[export] Instance eta_Invocation : Eta ActiveExpertInvocation := fun v =>
  mkInvocation (av_request_id v) (av_invocation_id v) (av_selection_index v) (av_route_width v)
    (av_deadline v) (av_input v) (av_output_abi v) (av_output_bytes v).

#[export] Instance up_av_deadline : Update av_deadline := ltac:(derive_update av_deadline).
#[export] Instance up_av_input : Update av_input := ltac:(derive_update av_input).

Record ActiveExpertExecutionRequest := mkExecution {
  ar_identity : ActiveExpertIdentity;
  ar_invocation : ActiveExpertInvocation }.

Definition empty_request : ActiveExpertExecutionRequest :=
  mkExecution empty_identity (mkInvocation 0 0 0 0 no_deadline empty_buffer [] 0).

Record ActiveExpertExecutionEvidence := mkEvidence {
  activation_input_bytes : Z;
  activation_output_bytes : Z;
  wire_request_bytes : Z;
  wire_response_bytes : Z;
  weight_transport_bytes : Z;
  owner_weight_read_bytes : Z;
  owner_storage_read_bytes : Z;
  owner_ram_read_bytes : Z;
  owner_vram_read_bytes : Z;
  owner_execution_ns : Z;
  transport_wait_ns : Z }.

#[export] Instance eta_Evidence : Eta ActiveExpertExecutionEvidence := fun e =>
  mkEvidence (activation_input_bytes e) (activation_output_bytes e) (wire_request_bytes e)
    (wire_response_bytes e) (weight_transport_bytes e) (owner_weight_read_bytes e)
    (owner_storage_read_bytes e) (owner_ram_read_bytes e) (owner_vram_read_bytes e)
    (owner_execution_ns e) (transport_wait_ns e).

#[export] Instance up_activation_input : Update activation_input_bytes := ltac:(derive_update activation_input_bytes).
#[export] Instance up_activation_output : Update activation_output_bytes := ltac:(derive_update activation_output_bytes).
#[export] Instance up_wire_request : Update wire_request_bytes := ltac:(derive_update wire_request_bytes).
#[export] Instance up_wire_response : Update wire_response_bytes := ltac:(derive_update wire_response_bytes).
#[export] Instance up_owner_execution : Update owner_execution_ns := ltac:(derive_update owner_execution_ns).
#[export] Instance up_transport_wait : Update transport_wait_ns := ltac:(derive_update transport_wait_ns).

Definition no_evidence : ActiveExpertExecutionEvidence := mkEvidence 0 0 0 0 0 0 0 0 0 0 0.

Record ActiveExpertExecutionResult := mkResult {
  rs_status : Status;
  rs_identity : ActiveExpertIdentity;
  rs_request_id : Z;
  rs_invocation_id : Z;
  rs_selection_index : Z;
  rs_request_sha256 : list Z;
  rs_output : ActiveExpertBuffer;
  rs_evidence : ActiveExpertExecutionEvidence }.

#[export] Instance eta_Result : Eta ActiveExpertExecutionResult := fun r =>
  mkResult (rs_status r) (rs_identity r) (rs_request_id r) (rs_invocation_id r)
    (rs_selection_index r) (rs_request_sha256 r) (rs_output r) (rs_evidence r).

#[export] Instance up_rs_request_sha256 : Update rs_request_sha256 := ltac:(derive_update rs_request_sha256).
#[export] Instance up_rs_output : Update rs_output := ltac:(derive_update rs_output).
#[export] Instance up_rs_evidence : Update rs_evidence := ltac:(derive_update rs_evidence).

Definition zero_digest : list Z := replicate 32 0.

Definition empty_result : ActiveExpertExecutionResult :=
  mkResult success empty_identity 0 0 0 zero_digest empty_buffer no_evidence.

(** ** Validation *)

Definition kWireMagic : list Z := bytes "QMOEAX01".
Definition kWireVersion : Z := 1.
Definition kRequestFrame : Z := 1.
Definition kResponseFrame : Z := 2.
Definition kMaximumFrameBytes : Z := 64 * 2 ^ 20.
Definition kMaximumStringBytes : Z := 4096.

Definition nonzero (digest : list Z) : bool := existsb (fun b => negb (b =? 0)) digest.

Definition validate_identity (i : ActiveExpertIdentity) : Status :=
  if negb (nonzero (id_model_content_hash i)) || (model_id (id_key i) =? 0) || (encoding_abi (id_key i) =? 0) ||
     bool_decide (id_capability i = []) || (id_execution_abi i =? 0) || (id_source_abi i =? 0)
  then mkStatus invalid_arg "active-expert identity is incomplete"
  else success.

Definition validate_invocation (now : Z) (v : ActiveExpertInvocation) : Status :=
  if (av_request_id v =? 0) || (av_invocation_id v =? 0) || (av_route_width v =? 0) ||
     (av_route_width v <=? av_selection_index v) || negb (buffer_valid (av_input v)) ||
     bool_decide (av_output_abi v = []) || (av_output_bytes v =? 0)
  then mkStatus invalid_arg "active-expert invocation is incomplete"
  else if negb (av_deadline v =? no_deadline) && (av_deadline v <=? now)
  then mkStatus deadline_exceeded "active-expert invocation deadline expired"
  else success.

(** ** Writing *)

Definition put_u8 (v : Z) : list Z := [v mod 256].

(** The loop over the shifts of [u16], [u32] and [u64]. *)
Definition put_integer (count : nat) (v : Z) : list Z :=
  map (fun i => Z.shiftr v (8 * Z.of_nat i) mod 256) (seq 0 count).
Definition put_u16 : Z -> list Z := put_integer 2.
Definition put_u32 : Z -> list Z := put_integer 4.
Definition put_u64 : Z -> list Z := put_integer 8.

Definition put_text (t : list Z) : list Z := put_u32 (wrap32 (Z.of_nat (length t))) ++ t.

Definition put_header (kind : Z) : list Z := kWireMagic ++ put_u16 kWireVersion ++ put_u16 kind.

Definition put_identity (i : ActiveExpertIdentity) : list Z :=
  id_model_content_hash i ++ put_u64 (model_id (id_key i)) ++ put_u32 (layer (id_key i)) ++
  put_u32 (expert (id_key i)) ++ put_u32 (encoding_abi (id_key i)) ++ put_u32 (id_execution_abi i) ++
  put_u32 (id_source_abi i) ++ put_text (id_capability i).

Definition put_evidence (e : ActiveExpertExecutionEvidence) : list Z :=
  put_u64 (activation_input_bytes e) ++ put_u64 (activation_output_bytes e) ++ put_u64 (wire_request_bytes e) ++
  put_u64 (wire_response_bytes e) ++ put_u64 (weight_transport_bytes e) ++ put_u64 (owner_weight_read_bytes e) ++
  put_u64 (owner_storage_read_bytes e) ++ put_u64 (owner_ram_read_bytes e) ++ put_u64 (owner_vram_read_bytes e) ++
  put_u64 (owner_execution_ns e) ++ put_u64 (transport_wait_ns e).

(** ** Reading

    A reader takes the bytes from the cursor on, and leaves those that follow. It fails
    where the method of [Reader] returns false. *)

Definition Reader (A : Type) : Type := list Z -> option (A * list Z).

Definition read {A B} (r : Reader A) (k : A -> Reader B) : Reader B := fun l =>
  match r l with Some (a, l) => k a l | None => None end.
Definition give {A} (a : A) : Reader A := fun l => Some (a, l).
Definition expect (b : bool) : Reader unit := fun l => if b then Some (tt, l) else None.

Notation "'let+' x ':=' r 'in' k" := (read r (fun x => k)) (at level 10, x pattern, r at level 100, k at level 200).

Definition get_u8 : Reader Z := fun l => match l with [] => None | b :: l => Some (b, l) end.

Definition get_integer (count : nat) : Reader Z := fun l =>
  if (length l <? count)%nat then None
  else Some (foldl (fun v i => Z.lor v (Z.shiftl (nth i l 0) (8 * Z.of_nat i))) 0 (seq 0 count), drop count l).
Definition get_u16 : Reader Z := get_integer 2.
Definition get_u32 : Reader Z := get_integer 4.
Definition get_u64 : Reader Z := get_integer 8.

Definition get_raw (count : Z) : Reader (list Z) := fun l =>
  if Z.of_nat (length l) <? count then None else Some (take (Z.to_nat count) l, drop (Z.to_nat count) l).

(** [find_first_of] is given a C string, which ends at its first byte: the set it looks for
    is empty, and no byte is found. *)
Definition forbidden : list Z := [].

Definition get_text : Reader (list Z) :=
  let+ n := get_u32 in
  let+ _ := expect (negb (kMaximumStringBytes <? n)) in
  let+ value := get_raw n in
  let+ _ := expect (forallb (fun c => negb (bool_decide (c ∈ forbidden))) value) in
  give value.

Definition get_header (expected_kind : Z) : Reader unit :=
  let+ magic := get_raw 8 in
  let+ _ := expect (bool_decide (magic = kWireMagic)) in
  let+ version := get_u16 in
  let+ _ := expect (version =? kWireVersion) in
  let+ kind := get_u16 in
  expect (kind =? expected_kind).

Definition get_identity : Reader ActiveExpertIdentity :=
  let+ hash := get_raw 32 in
  let+ model := get_u64 in
  let+ layer := get_u32 in
  let+ expert := get_u32 in
  let+ encoding := get_u32 in
  let+ execution := get_u32 in
  let+ source := get_u32 in
  let+ capability := get_text in
  give (mkIdentity hash (mkExpertKey model layer expert encoding) capability execution source).

Definition get_evidence : Reader ActiveExpertExecutionEvidence :=
  let+ a := get_u64 in
  let+ b := get_u64 in
  let+ c := get_u64 in
  let+ d := get_u64 in
  let+ e := get_u64 in
  let+ f := get_u64 in
  let+ g := get_u64 in
  let+ h := get_u64 in
  let+ i := get_u64 in
  let+ j := get_u64 in
  let+ k := get_u64 in
  give (mkEvidence a b c d e f g h i j k).

(** ** Deadlines

    What remains of a deadline travels, not the deadline. Both conversions overflow where
    the result is not a time that the clock can represent. *)

Definition deadline_budget (now deadline : Z) : outcome Z :=
  if deadline =? no_deadline then Ok U64_MAX
  else if deadline <=? now then Ok 0
  else if INT64_MAX <? deadline - now then Throw (undefined_behavior "signed overflow")
  else Ok (deadline - now).

Definition decode_deadline (now budget : Z) : outcome Z :=
  if budget =? U64_MAX then Ok no_deadline
  else
    let deadline := now + Z.min budget INT64_MAX in
    if INT64_MAX <? deadline then Throw (undefined_behavior "signed overflow") else Ok deadline.

(** [{data, bytes}]: to read past what the pointer owns is undefined. *)
Definition buffer_view (b : ActiveExpertBuffer) : outcome (list Z) :=
  match buf_data b with
  | Some l => if Z.of_nat (length l) <? buf_bytes b then Throw (undefined_behavior "out of bounds read")
              else Ok (take (Z.to_nat (buf_bytes b)) l)
  | None => Throw (undefined_behavior "null pointer")
  end.

(** ** Requests *)

Record EncodedRequest := mkEncoded { en_status : Status; en_frame : list Z; en_request_sha256 : list Z }.
Record DecodedRequest := mkDecoded { de_status : Status; de_request : ActiveExpertExecutionRequest; de_request_sha256 : list Z }.

Definition encode_failure (s : Status) : EncodedRequest := mkEncoded s [] zero_digest.
Definition decode_failure (s : Status) : DecodedRequest := mkDecoded s empty_request zero_digest.

Definition host_accessible (domain : list Z) : bool :=
  bool_decide (domain = bytes "host") || bool_decide (domain = bytes "host.pinned") ||
  bool_decide (domain = bytes "host.wire").

Definition too_long (t : list Z) : bool := kMaximumStringBytes <? Z.of_nat (length t).

Definition request_fields (r : ActiveExpertExecutionRequest) (budget : Z) (input : list Z) : list Z :=
  let v := ar_invocation r in
  put_header kRequestFrame ++ put_u64 (av_request_id v) ++ put_u64 (av_invocation_id v) ++
  put_u32 (av_selection_index v) ++ put_u32 (av_route_width v) ++ put_u64 budget ++
  put_identity (ar_identity r) ++ put_text (buf_abi (av_input v)) ++ put_text (av_output_abi v) ++
  put_u64 (av_output_bytes v) ++ put_u64 (buf_bytes (av_input v)) ++ input.

(** The clock is read by [validate_invocation], then by [deadline_budget]. *)
Definition encode_active_expert_request (now1 now2 : Z) (r : ActiveExpertExecutionRequest) : outcome EncodedRequest :=
  let v := ar_invocation r in
  let identity_status := validate_identity (ar_identity r) in
  if negb (status_ok identity_status) then Ok (encode_failure identity_status)
  else
    let invocation_status := validate_invocation now1 v in
    if negb (status_ok invocation_status) then Ok (encode_failure invocation_status)
    else if negb (host_accessible (memory_domain (av_input v)))
    then Ok (encode_failure (mkStatus invalid_arg "remote active-expert input is not host accessible"))
    else if too_long (id_capability (ar_identity r)) || too_long (buf_abi (av_input v)) || too_long (av_output_abi v) ||
            (kMaximumFrameBytes <? buf_bytes (av_input v)) || (kMaximumFrameBytes <? av_output_bytes v)
    then Ok (encode_failure (mkStatus invalid_arg "active-expert request metadata or activation is too large"))
    else
      let! budget := deadline_budget now2 (av_deadline v) in
      if budget =? 0 then Ok (encode_failure (mkStatus deadline_exceeded "active-expert request deadline expired"))
      else
        let! input := buffer_view (av_input v) in
        let fields := request_fields r budget input in
        let digest := sha256 fields in
        let frame := fields ++ digest in
        if kMaximumFrameBytes <? Z.of_nat (length frame)
        then Ok (encode_failure (mkStatus invalid_arg "active-expert request frame is too large"))
        else Ok (mkEncoded success frame digest).

(** The fields up to the input, as far as the condition that rejects them reads. *)
Definition get_request : Reader (ActiveExpertExecutionRequest * Z * list Z * Z) :=
  let+ _ := get_header kRequestFrame in
  let+ request_id := get_u64 in
  let+ invocation_id := get_u64 in
  let+ selection_index := get_u32 in
  let+ route_width := get_u32 in
  let+ _ := (fun l => expect (negb (bool_decide (length l = 0%nat))) l) in
  let+ budget := get_u64 in
  let+ identity := get_identity in
  let+ input_abi := get_text in
  let+ output_abi := get_text in
  let+ output_bytes := get_u64 in
  let+ input_bytes := get_u64 in
  let+ _ := (fun l => expect (negb ((input_bytes =? 0) || (Z.of_nat (length l) <? input_bytes))) l) in
  give (mkExecution identity
          (mkInvocation request_id invocation_id selection_index route_width no_deadline empty_buffer
             output_abi output_bytes),
        budget, input_abi, input_bytes).

(** A buffer over a fresh copy of the bytes. *)
Definition wire_buffer (abi data : list Z) : ActiveExpertBuffer :=
  mkBuffer abi (bytes "host.wire") true (Some data) (Z.of_nat (length data)).

(** The size and the checksum of a frame: its payload, or the status that rejects it. *)
Definition open_frame (what : string) (frame : list Z) : checked (list Z * list Z) :=
  let size := Z.of_nat (length frame) in
  if (size <=? 8 + 4 + 32) || (kMaximumFrameBytes <? size)
  then inl (mkStatus invalid_arg ("active-expert " +:+ what +:+ " frame size is invalid"))
  else
    let payload := take (length frame - 32) frame in
    let claimed := drop (length frame - 32) frame in
    if negb (constant_time_equal (sha256 payload) claimed)
    then inl (mkStatus checksum_mismatch ("active-expert " +:+ what +:+ " checksum mismatch"))
    else inr (payload, claimed).

(** The clock is read by [decode_deadline], then by [validate_invocation]. *)
Definition decode_active_expert_request (now1 now2 : Z) (frame : list Z) : outcome DecodedRequest :=
  match open_frame "request" frame with
  | inl status => Ok (decode_failure status)
  | inr (payload, claimed) =>
    match get_request payload with
    | None => Ok (decode_failure (mkStatus invalid_arg "active-expert request frame is malformed"))
    | Some ((request, budget, input_abi, input_bytes), rest) =>
      match get_raw input_bytes rest with
      | Some (input, []) =>
        if budget =? 0
        then Ok (decode_failure (mkStatus deadline_exceeded "active-expert request deadline expired"))
        else
          let! deadline := decode_deadline now1 budget in
          let invocation := (ar_invocation request) <| av_deadline := deadline |>
                                                    <| av_input := wire_buffer input_abi input |> in
          let identity_status := validate_identity (ar_identity request) in
          let invocation_status := validate_invocation now2 invocation in
          if negb (status_ok identity_status) then Ok (decode_failure identity_status)
          else if negb (status_ok invocation_status) then Ok (decode_failure invocation_status)
          else Ok (mkDecoded success (mkExecution (ar_identity request) invocation) claimed)
      | _ =>
        Ok (decode_failure (if budget =? 0 then mkStatus deadline_exceeded "active-expert request deadline expired"
                            else mkStatus invalid_arg "active-expert request has trailing data"))
      end
    end
  end.

(** ** Results *)

(** [static_cast<std::uint8_t>] of an error code, and back. *)
Definition error_codes : list ErrorCode :=
  [ok; cancelled; deadline_exceeded; backpressure; invalid_arg; open_failed; io_failed; short_read;
   checksum_mismatch; upload_failed; internal].

Definition code_number (c : ErrorCode) : Z :=
  match c with
  | ok => 0 | cancelled => 1 | deadline_exceeded => 2 | backpressure => 3 | invalid_arg => 4 | open_failed => 5
  | io_failed => 6 | short_read => 7 | checksum_mismatch => 8 | upload_failed => 9 | internal => 10
  end.

Definition failed_result (r : ActiveExpertExecutionRequest) (digest : list Z) (status : Status)
  : ActiveExpertExecutionResult :=
  let v := ar_invocation r in
  mkResult status (ar_identity r) (av_request_id v) (av_invocation_id v) (av_selection_index v) digest empty_buffer
    (no_evidence <| activation_input_bytes := buf_bytes (av_input v) |>).

(** Only a success carries its output. *)
Definition encode_response_once (r : ActiveExpertExecutionResult) : outcome (list Z) :=
  let succeeded := status_ok (rs_status r) in
  let! output := if succeeded then buffer_view (rs_output r) else Ok [] in
  let fields :=
    put_header kResponseFrame ++ put_u64 (rs_request_id r) ++ put_u64 (rs_invocation_id r) ++
    put_u32 (rs_selection_index r) ++ put_identity (rs_identity r) ++ rs_request_sha256 r ++
    put_u8 (code_number (code (rs_status r))) ++ put_text (bytes (message (rs_status r))) ++
    put_text (if succeeded then buf_abi (rs_output r) else []) ++
    put_u64 (if succeeded then buf_bytes (rs_output r) else 0) ++ put_evidence (rs_evidence r) ++ output in
  Ok (fields ++ sha256 fields).

(** [result] is updated with the size of its own frame; [destination] starts empty. *)
Definition encode_response (r : ActiveExpertExecutionResult)
  : outcome (Status * ActiveExpertExecutionResult * list Z) :=
  if negb (status_ok (validate_identity (rs_identity r))) || (rs_request_id r =? 0) || (rs_invocation_id r =? 0) ||
     negb (nonzero (rs_request_sha256 r)) || negb (weight_transport_bytes (rs_evidence r) =? 0)
  then Ok (mkStatus invalid_arg "active-expert response identity or evidence is invalid", r, [])
  else if status_ok (rs_status r) &&
          (negb (buffer_valid (rs_output r)) || negb (bool_decide (memory_domain (rs_output r) = bytes "host")))
  then Ok (mkStatus invalid_arg "active-expert wire response is not host accessible", r, [])
  else if too_long (bytes (message (rs_status r))) ||
          (status_ok (rs_status r) && too_long (buf_abi (rs_output r)))
  then Ok (mkStatus invalid_arg "active-expert response metadata is too large", r, [])
  else
    let! first := encode_response_once r in
    let r := r <| rs_evidence %= fun e => e <| wire_response_bytes := Z.of_nat (length first) |> |> in
    let! destination := encode_response_once r in
    if kMaximumFrameBytes <? Z.of_nat (length destination)
    then Ok (mkStatus invalid_arg "active-expert response frame is too large", r, destination)
    else Ok (success, r, destination).

Definition response_failure (c : ErrorCode) (m : string) : Status * ActiveExpertExecutionResult :=
  (mkStatus c m, empty_result).

(** The fields up to the output; the result has none yet. *)
Definition get_response : Reader (ActiveExpertExecutionResult * list Z * Z) :=
  let+ _ := get_header kResponseFrame in
  let+ request_id := get_u64 in
  let+ invocation_id := get_u64 in
  let+ selection_index := get_u32 in
  let+ identity := get_identity in
  let+ request_digest := get_raw 32 in
  let+ number := get_u8 in
  let+ _ := expect (negb (code_number internal <? number)) in
  let+ message := get_text in
  let+ output_abi := get_text in
  let+ output_bytes := get_u64 in
  let+ evidence := get_evidence in
  give (mkResult (mkStatus (nth (Z.to_nat number) error_codes internal) (text message)) identity request_id
          invocation_id selection_index request_digest empty_buffer evidence,
        output_abi, output_bytes).

(** The output of a success, and what follows it. *)
Definition get_output (succeeded : bool) (abi : list Z) (output_bytes : Z) (rest : list Z)
  : checked (ActiveExpertBuffer * list Z) :=
  if succeeded then
    if bool_decide (abi = []) || (output_bytes =? 0)
    then invalid "active-expert response output is malformed"
    else
      match get_raw output_bytes rest with
      | Some (output, rest) => inr (wire_buffer abi output, rest)
      | None => invalid "active-expert response output is malformed"
      end
  else if negb (bool_decide (abi = [])) || negb (output_bytes =? 0)
  then invalid "failed active-expert response contains an output"
  else inr (empty_buffer, rest).

Definition decode_response (frame : list Z) : Status * ActiveExpertExecutionResult :=
  match open_frame "response" frame with
  | inl status => (status, empty_result)
  | inr (payload, _) =>
    match get_response payload with
    | None => response_failure invalid_arg "active-expert response frame is malformed"
    | Some ((result, output_abi, output_bytes), rest) =>
      if negb (wire_response_bytes (rs_evidence result) =? Z.of_nat (length frame)) ||
         negb (weight_transport_bytes (rs_evidence result) =? 0)
      then response_failure invalid_arg "active-expert response transfer evidence is invalid"
      else
        match get_output (status_ok (rs_status result)) output_abi output_bytes rest with
        | inl status => (status, empty_result)
        | inr (output, rest) =>
          if negb (bool_decide (rest = [])) || negb (status_ok (validate_identity (rs_identity result))) ||
             (rs_request_id result =? 0) || (rs_invocation_id result =? 0) || negb (nonzero (rs_request_sha256 result))
          then response_failure invalid_arg "active-expert response correlation is invalid"
          else (success, result <| rs_output := output |>)
        end
    end
  end.

(** ** The registry of executors *)

Section Registry.
Context {Executor : Type}.

(** [validate] can throw. *)
Record ActiveExpertExecutorDefinition := mkExecutorDefinition {
  ed_name : list Z;
  ed_capability : list Z;
  ed_minimum_abi : Z;
  ed_maximum_abi : Z;
  ed_priority : Z;
  ed_validate : option (ActiveExpertIdentity -> outcome Status);
  ed_implementation : option Executor }.

(** [remote] is the method of the executor. *)
Definition add_executor (remote : Executor -> bool) (d : ActiveExpertExecutorDefinition)
    (definitions : list ActiveExpertExecutorDefinition) : Status * list ActiveExpertExecutorDefinition :=
  if bool_decide (ed_name d = []) || bool_decide (ed_capability d = []) || (ed_minimum_abi d =? 0) ||
     (ed_maximum_abi d <? ed_minimum_abi d) || match ed_implementation d with Some e => remote e | None => true end
  then (mkStatus invalid_arg "active-expert executor definition is incomplete", definitions)
  else if existsb (fun item => bool_decide (ed_name item = ed_name d)) definitions
  then (mkStatus invalid_arg "active-expert executor name is duplicated", definitions)
  else (success, definitions ++ [d]).

Definition implements_identity (i : ActiveExpertIdentity) (d : ActiveExpertExecutorDefinition) : bool :=
  bool_decide (ed_capability d = id_capability i) && negb (id_execution_abi i <? ed_minimum_abi d) &&
  negb (ed_maximum_abi d <? id_execution_abi i).

(** The loop of [select]. *)
Fixpoint select_executor (i : ActiveExpertIdentity) (l : list ActiveExpertExecutorDefinition)
    (selected : option ActiveExpertExecutorDefinition) : outcome (option ActiveExpertExecutorDefinition) :=
  match l with
  | [] => Ok selected
  | candidate :: l =>
    if negb (implements_identity i candidate) then select_executor i l selected
    else
      let! accepted := match ed_validate candidate with Some validate => validate i | None => Ok success end in
      if negb (status_ok accepted) then select_executor i l selected
      else
        let better := match selected with
                      | None => true
                      | Some s => (ed_priority s <? ed_priority candidate) ||
                                  ((ed_priority candidate =? ed_priority s) && bytes_ltb (ed_name candidate) (ed_name s))
                      end in
        select_executor i l (if better then Some candidate else selected)
  end.

Definition select (definitions : list ActiveExpertExecutorDefinition) (i : ActiveExpertIdentity)
  : Status * option Executor :=
  let valid := validate_identity i in
  if negb (status_ok valid) then (valid, None)
  else
    match select_executor i definitions None with
    | Throw e => (mkStatus internal ("active-expert executor selection failed: " +:+ what e), None)
    | Ok None => (mkStatus invalid_arg "no active-expert executor implements the requested ABI", None)
    | Ok (Some d) => (success, ed_implementation d)
    end.
End Registry.
Arguments ActiveExpertExecutorDefinition : clear implicits.
