(* ===== verification/ActiveExpertTheorems.v ===== *)
(** What is proved of the frames of [active_expert_executor.cpp]: every writer has a reader
    that undoes it, a decoder accepts the frame of its encoder and no other, and the
    registry chooses by priority and name whatever the order of registration. *)

From Stdlib Require Import Ascii String.
From S2P Require Import Prelude.
From S2P Require Import Storage.
From S2P Require Import Text.
From S2P Require Import Sha256.
From S2P Require Import ModelDescriptor.
From S2P Require Import ActiveExpert.

#[local] Open Scope bool_scope.

(** ** Little-endian integers *)

Fixpoint le_value (l : list Z) : Z :=
  match l with [] => 0 | b :: l => b + 256 * le_value l end.

Lemma le_value_app a b : le_value (a ++ b) = le_value a + 2 ^ (8 * Z.of_nat (length a)) * le_value b.
Proof.
  induction a as [|x a IH]; [cbn [app length le_value]; change (2 ^ (8 * Z.of_nat 0)) with 1; lia|].
  cbn [app length le_value]. rewrite IH, Nat2Z.inj_succ.
  replace (8 * Z.succ (Z.of_nat (length a))) with (8 + 8 * Z.of_nat (length a)) by lia.
  rewrite Z.pow_add_r by lia. change (2 ^ 8) with 256. lia.
Qed.

Lemma le_value_bounds l : Forall byte l -> 0 <= le_value l < 2 ^ (8 * Z.of_nat (length l)).
Proof.
  induction 1 as [|b l Hb Hl IH]; [cbn; lia|]. cbn [le_value length].
  rewrite Nat2Z.inj_succ. replace (8 * Z.succ (Z.of_nat (length l))) with (8 + 8 * Z.of_nat (length l)) by lia.
  rewrite Z.pow_add_r by lia. change (2 ^ 8) with 256. unfold byte in Hb. lia.
Qed.

Lemma le_value_inj a b :
  Forall byte a -> Forall byte b -> length a = length b -> le_value a = le_value b -> a = b.
Proof.
  intros Ha. revert b. induction Ha as [|x a Hx Ha IH]; intros [|y b] Hb Hl E; simplify_eq/=; [done|].
  apply Forall_cons in Hb as [Hy Hb]. unfold byte in *.
  assert (x = y /\ le_value a = le_value b) as [-> E'] by lia. f_equal. by apply IH.
Qed.

Lemma put_integer_bytes n v : Forall byte (put_integer n v).
Proof.
  unfold put_integer. apply Forall_fmap, Forall_true. intros i. simpl. unfold byte.
  apply Z.mod_pos_bound. lia.
Qed.

Lemma length_put_integer n v : length (put_integer n v) = n.
Proof. unfold put_integer. by rewrite length_map, length_seq. Qed.

Lemma le_value_put n v : 0 <= v -> le_value (put_integer n v) = v mod 2 ^ (8 * Z.of_nat n).
Proof.
  intros Hv. induction n as [|n IH]; [cbn; by rewrite Z.mod_1_r|].
  unfold put_integer in *. rewrite seq_S, map_app, le_value_app, IH, length_map, length_seq.
  cbn [map le_value Nat.add]. rewrite Z.shiftr_div_pow2, Nat2Z.inj_succ by lia.
  replace (8 * Z.succ (Z.of_nat n)) with (8 * Z.of_nat n + 8) by lia. rewrite Z.pow_add_r by lia.
  change (2 ^ 8) with 256. rewrite Z.rem_mul_r by lia. lia.
Qed.

Lemma read_loop_value n l :
  Forall byte l -> (n <= length l)%nat ->
  foldl (fun v i => Z.lor v (Z.shiftl (nth i l 0) (8 * Z.of_nat i))) 0 (seq 0 n) = le_value (take n l).
Proof.
  intros Hl. induction n as [|n IH]; intros Hn; [done|].
  destruct (lookup_lt_is_Some_2 l n ltac:(lia)) as [b Hb].
  rewrite seq_S, foldl_app, IH by lia. cbn [foldl Nat.add].
  rewrite (take_S_r _ _ _ Hb), le_value_app. cbn [le_value].
  rewrite length_take, Nat.min_l by lia. pose proof (le_value_bounds (take n l) (Forall_take _ _ _ Hl)) as Hv.
  rewrite length_take, Nat.min_l in Hv by lia.
  rewrite Z.lor_comm, lor_disjoint, Z.shiftl_mul_pow2 by lia.
  rewrite nth_lookup, Hb. cbn. lia.
Qed.

(** ** Readers and writers *)

(** [get] undoes [put] on the values of [valid], and reads nothing else. *)
Record inverses {A} (put : A -> list Z) (get : Reader A) (valid : A -> Prop) : Prop := {
  get_put a rest : valid a -> get (put a ++ rest) = Some (a, rest);
  put_get l a rest : Forall byte l -> get l = Some (a, rest) -> l = put a ++ rest /\ valid a }.

Definition fits (n : nat) (v : Z) : Prop := 0 <= v < 2 ^ (8 * Z.of_nat n).

Lemma integer_inverses n : inverses (put_integer n) (get_integer n) (fits n).
Proof.
  split.
  - intros v rest Hv. unfold get_integer. rewrite length_app, length_put_integer.
    destruct (Nat.ltb_spec (n + length rest) n); [lia|].
    (* only the first [n] bytes are looked at *)
    assert (forall i, i ∈ seq 0 n -> nth i (put_integer n v ++ rest) 0 = nth i (put_integer n v) 0) as Hsame.
    { intros i Hi%elem_of_seq. apply app_nth1. rewrite length_put_integer. lia. }
    rewrite drop_app_length' by (by rewrite length_put_integer). do 2 f_equal.
    transitivity (le_value (take n (put_integer n v))).
    + rewrite <- read_loop_value by (rewrite ?length_put_integer; auto using put_integer_bytes).
      assert (forall js u, (forall i, i ∈ js -> nth i (put_integer n v ++ rest) 0 = nth i (put_integer n v) 0) ->
        foldl (fun v' i => Z.lor v' (Z.shiftl (nth i (put_integer n v ++ rest) 0) (8 * Z.of_nat i))) u js =
        foldl (fun v' i => Z.lor v' (Z.shiftl (nth i (put_integer n v) 0) (8 * Z.of_nat i))) u js) as Hfold;
        [|by apply Hfold].
      induction js as [|j js IH]; intros u Hjs; [done|]. cbn [foldl].
      rewrite Hjs by constructor. apply IH. intros i Hi. apply Hjs. by constructor.
    + rewrite take_ge by (by rewrite length_put_integer). rewrite le_value_put by (apply Hv).
      apply Z.mod_small, Hv.
  - intros l v rest Hl. unfold get_integer. destruct (Nat.ltb_spec (length l) n) as [?|Hn]; [done|].
    intros [= <- <-]. rewrite read_loop_value by done.
    pose proof (le_value_bounds (take n l) (Forall_take _ _ _ Hl)) as Hv. rewrite length_take, Nat.min_l in Hv by lia.
    split; [|exact Hv]. rewrite <- (take_drop n l) at 1. f_equal.
    apply le_value_inj; [by apply Forall_take|apply put_integer_bytes| |].
    + by rewrite length_take, length_put_integer, Nat.min_l.
    + rewrite le_value_put by lia. by rewrite Z.mod_small.
Qed.

Existing Class inverses.
#[export] Existing Instance integer_inverses.

Section Compose.
Context {A B : Type} {put : A -> list Z} {get : Reader A} {valid : A -> Prop} `{!inverses put get valid}.

Lemma read_put (k : A -> Reader B) a rest : valid a -> read get k (put a ++ rest) = k a rest.
Proof. intros. unfold read. by rewrite (get_put put get valid _). Qed.

Lemma read_put_end (k : A -> Reader B) a : valid a -> read get k (put a) = k a [].
Proof. intros. rewrite <- (app_nil_r (put a)). by apply read_put. Qed.

Lemma unread (k : A -> Reader B) l r :
  Forall byte l -> read get k l = Some r ->
  exists a rest, l = put a ++ rest /\ valid a /\ Forall byte rest /\ k a rest = Some r.
Proof.
  intros Hl. unfold read. destruct (get l) as [[a rest]|] eqn:E; [|done]. intros Hk.
  apply (put_get put get valid _) in E as [-> Ha]; [|done]. apply Forall_app in Hl as [_ Hl]. eauto 6.
Qed.
End Compose.

Lemma read_expect {B} (b : bool) (k : unit -> Reader B) l : b = true -> read (expect b) k l = k tt l.
Proof. by intros ->. Qed.

Lemma unread_expect {B} (b : bool) (k : unit -> Reader B) l r :
  read (expect b) k l = Some r -> b = true /\ k tt l = Some r.
Proof. unfold read, expect. by destruct b. Qed.

(** A condition on the bytes that remain. *)
Lemma read_here {B} (p : list Z -> bool) (k : unit -> Reader B) l :
  p l = true -> read (fun l => expect (p l) l) k l = k tt l.
Proof. unfold read, expect. by intros ->. Qed.

Lemma unread_here {B} (p : list Z -> bool) (k : unit -> Reader B) l r :
  read (fun l => expect (p l) l) k l = Some r -> p l = true /\ k tt l = Some r.
Proof. unfold read, expect. by destruct (p l). Qed.

#[export] Instance u8_inverses : inverses put_u8 get_u8 (fits 1).
Proof.
  split.
  - intros v rest Hv. unfold put_u8. simpl. unfold fits in Hv. rewrite Z.mod_small by lia. done.
  - intros [|b l] v rest Hl H; [done|]. injection H as <- <-. apply Forall_cons in Hl as [Hb _].
    unfold put_u8, byte in *. split; [by rewrite Z.mod_small|exact Hb].
Qed.

#[export] Instance u16_inverses : inverses put_u16 get_u16 (fits 2) := integer_inverses 2.
#[export] Instance u32_inverses : inverses put_u32 get_u32 (fits 4) := integer_inverses 4.
#[export] Instance u64_inverses : inverses put_u64 get_u64 (fits 8) := integer_inverses 8.

#[local] Opaque put_u8 put_u16 put_u32 put_u64.

Definition raw_valid (n : Z) (l : list Z) : Prop := length l = Z.to_nat n /\ Forall byte l.

#[export] Instance raw_inverses n : inverses id (get_raw n) (raw_valid n).
Proof.
  split.
  - intros l rest [Hn _]. unfold get_raw, id. rewrite length_app.
    destruct (Z.ltb_spec (Z.of_nat (length l + length rest)) n); [lia|].
    by rewrite <- Hn, take_app_length, drop_app_length.
  - intros l a rest Hl. unfold get_raw, id. destruct (Z.ltb_spec (Z.of_nat (length l)) n) as [?|Hn]; [done|].
    intros [= <- <-]. rewrite take_drop. split; [done|]. split; [|by apply Forall_take].
    rewrite length_take. lia.
Qed.

(** What fits in a text field: any bytes at all, up to the limit. *)
Definition text_valid (t : list Z) : Prop := Z.of_nat (length t) <= kMaximumStringBytes /\ Forall byte t.

Lemma forbids_nothing t : forallb (fun c => negb (bool_decide (c ∈ forbidden))) t = true.
Proof. apply forallb_forall. intros c _. by rewrite bool_decide_eq_false_2 by (by intros ?%elem_of_nil). Qed.

#[export] Instance text_inverses : inverses put_text get_text text_valid.
Proof.
  split.
  - intros t rest [Ht Hb]. unfold put_text, get_text, kMaximumStringBytes in *.
    rewrite wrap32_small by (unfold u32, U32_MAX; lia). rewrite <- app_assoc, read_put by (unfold fits; lia).
    rewrite read_expect by (apply negb_true_iff, Z.ltb_ge; lia).
    change (t ++ rest) with (id t ++ rest). rewrite read_put by (split; [lia|done]).
    by rewrite read_expect by apply forbids_nothing.
  - intros l t rest Hl H. unfold get_text in H.
    apply unread in H as (n & l1 & -> & Hn & Hl1 & H); [|done]. apply unread_expect in H as [Hm H].
    apply unread in H as (u & l2 & -> & [Hu Hb] & Hl2 & H); [|done]. apply unread_expect in H as [_ H].
    injection H as <- <-. apply negb_true_iff, Z.ltb_ge in Hm. unfold fits, put_text, text_valid, id in *.
    rewrite Hu, Z2Nat.id by lia. split; [|split; [lia|done]].
    rewrite wrap32_small by (unfold u32, U32_MAX; unfold kMaximumStringBytes in Hm; lia). by rewrite <- app_assoc.
Qed.

#[export] Instance header_inverses kind :
  fits 2 kind -> inverses (fun _ : unit => put_header kind) (get_header kind) (fun _ => True).
Proof.
  intros Hk. split.
  - intros [] rest _. unfold put_header, get_header. rewrite <- !app_assoc.
    change (kWireMagic ++ put_u16 kWireVersion ++ put_u16 kind ++ rest)
      with (id kWireMagic ++ put_u16 kWireVersion ++ put_u16 kind ++ rest).
    rewrite read_put by (split; [done|apply bytes_byte]). rewrite read_expect by (by apply bool_decide_eq_true).
    rewrite read_put by done. rewrite read_expect by done. rewrite read_put by done.
    unfold expect. by rewrite Z.eqb_refl.
  - intros l [] rest Hl H. unfold get_header in H.
    apply unread in H as (m & l1 & -> & _ & Hl1 & H); [|done]. apply unread_expect in H as [->%bool_decide_eq_true H].
    apply unread in H as (v & l2 & -> & _ & Hl2 & H); [|done]. apply unread_expect in H as [->%Z.eqb_eq H].
    apply unread in H as (k & l3 & -> & _ & Hl3 & H); [|done]. unfold expect in H.
    destruct (Z.eqb_spec k kind) as [->|]; [|done]. injection H as <-.
    unfold put_header, id. by rewrite <- !app_assoc.
Qed.

#[export] Instance request_header : inverses (fun _ : unit => put_header kRequestFrame) (get_header kRequestFrame) (fun _ => True).
Proof. by apply header_inverses. Qed.
#[export] Instance response_header : inverses (fun _ : unit => put_header kResponseFrame) (get_header kResponseFrame) (fun _ => True).
Proof. by apply header_inverses. Qed.

(** One step of reading what was written, and of the converse. *)
Ltac put_step := rewrite read_put; [|solve [done | split; done | auto]]; cbv beta.
Ltac unput H :=
  let l := fresh "l" in let E := fresh "E" in
  apply unread in H as (? & l & E & ? & ? & H); [|done]; subst; cbv beta in H.

#[local] Opaque put_text.

Lemma put_u_bytes v :
  Forall byte (put_u8 v) /\ Forall byte (put_u16 v) /\ Forall byte (put_u32 v) /\ Forall byte (put_u64 v).
Proof.
  with_strategy transparent [put_u8 put_u16 put_u32 put_u64] unfold put_u8, put_u16, put_u32, put_u64.
  split_and!; [|apply put_integer_bytes..].
  constructor; [|constructor]. unfold byte. apply Z.mod_pos_bound. lia.
Qed.

Lemma put_text_bytes t : Forall byte t -> Forall byte (put_text t).
Proof. intros Ht. with_strategy transparent [put_text] unfold put_text. apply Forall_app. split; [apply put_u_bytes|done]. Qed.

(** The widths of the fields of an identity. *)
Record identity_typed (i : ActiveExpertIdentity) : Prop := {
  if_hash : raw_valid 32 (id_model_content_hash i);
  if_model : fits 8 (model_id (id_key i));
  if_layer : fits 4 (layer (id_key i));
  if_expert : fits 4 (expert (id_key i));
  if_encoding : fits 4 (encoding_abi (id_key i));
  if_execution : fits 4 (id_execution_abi i);
  if_source : fits 4 (id_source_abi i);
  if_capability : Forall byte (id_capability i) }.

Definition identity_fits (i : ActiveExpertIdentity) : Prop :=
  identity_typed i /\ Z.of_nat (length (id_capability i)) <= kMaximumStringBytes.

#[export] Instance identity_inverses : inverses put_identity get_identity identity_fits.
Proof.
  split.
  - intros [hash [] cap ex src] rest [[] ?]. unfold put_identity, get_identity. simpl in *. rewrite <- !app_assoc.
    change (hash ++ ?x) with (id hash ++ x). by repeat put_step.
  - intros l i rest Hl H. unfold get_identity in H. repeat unput H. injection H as <- <-.
    unfold put_identity, id. simpl. rewrite <- !app_assoc. split; [done|].
    match goal with H : text_valid _ |- _ => destruct H end. by split; [constructor|].
Qed.

Ltac byte_parts :=
  repeat first [apply Forall_app; split | apply put_u_bytes | apply bytes_byte | apply put_text_bytes | done].

Lemma put_identity_bytes i : identity_typed i -> Forall byte (put_identity i).
Proof. intros [[_ ?] ? ? ? ? ? ? ?]. unfold put_identity. byte_parts. Qed.

Record evidence_fits (e : ActiveExpertExecutionEvidence) : Prop := {
  ef_all : Forall (fits 8)
    [activation_input_bytes e; activation_output_bytes e; wire_request_bytes e; wire_response_bytes e;
     weight_transport_bytes e; owner_weight_read_bytes e; owner_storage_read_bytes e; owner_ram_read_bytes e;
     owner_vram_read_bytes e; owner_execution_ns e; transport_wait_ns e] }.

#[export] Instance evidence_inverses : inverses put_evidence get_evidence evidence_fits.
Proof.
  split.
  - intros [] rest [H]. simpl in H. repeat (apply Forall_cons in H as [? H]).
    unfold put_evidence, get_evidence. simpl. rewrite <- !app_assoc. by repeat put_step.
  - intros l e rest Hl H. unfold get_evidence in H. repeat unput H. injection H as <- <-.
    unfold put_evidence. simpl. rewrite <- !app_assoc. split; [done|]. split. simpl.
    repeat (apply Forall_cons_2; [done|]). by apply Forall_nil_2.
Qed.

(** ** Requests *)

(** The bytes of a buffer are as many as it says. *)
Definition buffer_typed (b : ActiveExpertBuffer) : Prop :=
  Forall byte (buf_abi b) /\ fits 8 (buf_bytes b) /\
  forall l, buf_data b = Some l -> Z.of_nat (length l) = buf_bytes b /\ Forall byte l.

(** What the types of the fields guarantee. *)
Record request_typed (r : ActiveExpertExecutionRequest) : Prop := {
  rt_identity : identity_typed (ar_identity r);
  rt_request_id : fits 8 (av_request_id (ar_invocation r));
  rt_invocation_id : fits 8 (av_invocation_id (ar_invocation r));
  rt_selection : fits 4 (av_selection_index (ar_invocation r));
  rt_route : fits 4 (av_route_width (ar_invocation r));
  rt_deadline : av_deadline (ar_invocation r) <= INT64_MAX;
  rt_input : buffer_typed (av_input (ar_invocation r));
  rt_output_abi : Forall byte (av_output_abi (ar_invocation r));
  rt_output_bytes : fits 8 (av_output_bytes (ar_invocation r)) }.

(** The text fields are within the limit. *)
Definition texts_fit (r : ActiveExpertExecutionRequest) : Prop :=
  Z.of_nat (length (id_capability (ar_identity r))) <= kMaximumStringBytes /\
  Z.of_nat (length (buf_abi (av_input (ar_invocation r)))) <= kMaximumStringBytes /\
  Z.of_nat (length (av_output_abi (ar_invocation r))) <= kMaximumStringBytes.

Definition input_data (r : ActiveExpertExecutionRequest) : list Z :=
  default [] (buf_data (av_input (ar_invocation r))).

#[local] Opaque bytes put_header put_identity put_evidence.

Lemma put_header_bytes kind : Forall byte (put_header kind).
Proof. with_strategy transparent [put_header] unfold put_header. byte_parts. Qed.

Lemma put_evidence_bytes e : Forall byte (put_evidence e).
Proof. with_strategy transparent [put_evidence] unfold put_evidence. byte_parts. Qed.

Lemma request_fields_bytes r budget input :
  request_typed r -> Forall byte input -> Forall byte (request_fields r budget input).
Proof.
  intros [Hi ? ? ? ? ? (? & _) ? ?] Hb. unfold request_fields.
  repeat first [apply Forall_app; split | apply put_header_bytes | by apply put_identity_bytes | byte_parts].
Qed.

Lemma get_request_put r budget input :
  request_typed r -> texts_fit r -> fits 8 budget -> buf_bytes (av_input (ar_invocation r)) <> 0 ->
  Z.of_nat (length input) = buf_bytes (av_input (ar_invocation r)) ->
  get_request (request_fields r budget input)
  = Some ((mkExecution (ar_identity r)
             ((ar_invocation r) <| av_deadline := no_deadline |> <| av_input := empty_buffer |>),
           budget, buf_abi (av_input (ar_invocation r)), buf_bytes (av_input (ar_invocation r))), input).
Proof.
  destruct r as [i [rid iid sel route deadline [abi dom own data n] oabi on]].
  intros [Hi ? ? ? ? ? (Hab & Hn & _) ? ?] (Hc & Ha & Ho) Hb Hn0 Hl.
  unfold get_request, request_fields, Prelude.update. cbn in *. rewrite <- ?app_assoc.
  change (put_header kRequestFrame) with ((fun _ : unit => put_header kRequestFrame) tt).
  do 5 put_step. rewrite (read_here (fun l => negb (bool_decide (length l = 0%nat)))).
  2: { apply negb_true_iff, bool_decide_eq_false. rewrite length_app. apply Nat.neq_0_lt_0.
       pose proof (length_put_integer 8 budget) as H8. change (put_integer 8 budget) with (put_u64 budget) in H8. lia. }
  do 6 put_step. rewrite (read_here (fun l => negb ((n =? 0) || (Z.of_nat (length l) <? n)))); [done|].
  apply negb_true_iff, orb_false_iff. split; [by apply Z.eqb_neq|apply Z.ltb_ge; lia].
Qed.

(** The converse: the fields of any payload that is read, and that are left with exactly the
    input. *)
Lemma get_request_inv l r budget abi n rest input deadline :
  Forall byte l -> get_request l = Some ((r, budget, abi, n), rest) -> deadline <= INT64_MAX ->
  get_raw n rest = Some (input, []) ->
  let r := mkExecution (ar_identity r)
             ((ar_invocation r) <| av_deadline := deadline |> <| av_input := wire_buffer abi input |>) in
  l = request_fields r budget input /\ request_typed r /\ texts_fit r /\ fits 8 budget /\ n <> 0.
Proof.
  intros Hl H Hd. unfold get_request in H.
  unput H. unput H. unput H. unput H. unput H. apply unread_here in H as [_ H].
  unput H. unput H. unput H. unput H. unput H. unput H. apply unread_here in H as [Hc H].
  apply negb_true_iff, orb_false_iff in Hc as [Hn0%Z.eqb_neq _].
  injection H as <- <- <- <- <-. intros Hr. apply (put_get _ _ _ (raw_inverses _)) in Hr as [-> [Hn Hi]]; [|done].
  unfold id in *. rewrite app_nil_r in *.
  assert (Z.of_nat (length input) = x9) as <- by (unfold fits in *; lia). clear Hn. unfold Prelude.update, up_av_deadline, up_av_input, request_fields, wire_buffer. cbn in *.
  repeat match goal with H : identity_fits _ |- _ => destruct H end.
  repeat match goal with H : text_valid _ |- _ => destruct H end.
  split; [|split; [split|split; [|split]]]; cbn; auto.
  - unfold buffer_typed. cbn. split_and!; auto. intros ? [= <-]. auto.
  - by split_and!.
Qed.

(** Everything that makes the code send a request. *)
Record sendable (now1 now2 : Z) (r : ActiveExpertExecutionRequest) : Prop := {
  sd_typed : request_typed r;
  sd_identity : status_ok (validate_identity (ar_identity r)) = true;
  sd_invocation : status_ok (validate_invocation now1 (ar_invocation r)) = true;
  sd_host : host_accessible (memory_domain (av_input (ar_invocation r))) = true;
  sd_texts : texts_fit r;
  sd_output : av_output_bytes (ar_invocation r) <= kMaximumFrameBytes;
  sd_now : 0 <= now2;
  sd_deadline : av_deadline (ar_invocation r) = no_deadline \/ now2 < av_deadline (ar_invocation r);
  sd_frame : Z.of_nat (length (request_fields r 0 (input_data r))) + 32 <= kMaximumFrameBytes }.

(** The request as its owner sees it: the deadline on the owner's clock, the input in
    memory of the owner. *)
Definition received (now2 now3 : Z) (r : ActiveExpertExecutionRequest) : ActiveExpertExecutionRequest :=
  let v := ar_invocation r in
  mkExecution (ar_identity r)
    (v <| av_deadline %= fun d => if d =? no_deadline then no_deadline else now3 + (d - now2) |>
       <| av_input := wire_buffer (buf_abi (av_input v)) (input_data r) |>).

Lemma decode_deadline_bounded now budget d : decode_deadline now budget = Ok d -> d <= INT64_MAX.
Proof.
  unfold decode_deadline. destruct (budget =? U64_MAX); [by intros [= <-]|].
  destruct (Z.ltb_spec INT64_MAX (now + Z.min budget INT64_MAX)); [done|]. by intros [= <-].
Qed.

Definition frame_size_ok (l : list Z) : Prop := 44 < Z.of_nat (length l) <= kMaximumFrameBytes.

Lemma open_frame_sealed what payload :
  frame_size_ok (payload ++ sha256 payload) ->
  open_frame what (payload ++ sha256 payload) = inr (payload, sha256 payload).
Proof.
  intros [Hlo Hhi]. unfold open_frame.
  rewrite (proj2 (orb_false_iff _ _)) by (split; [apply Z.leb_gt|apply Z.ltb_ge]; lia).
  rewrite take_app_sub, drop_app_sub by apply length_sha256. by rewrite constant_time_equal_refl.
Qed.

Lemma open_frame_inv what frame payload claimed :
  open_frame what frame = inr (payload, claimed) ->
  frame = payload ++ sha256 payload /\ claimed = sha256 payload /\ frame_size_ok frame.
Proof.
  unfold open_frame, frame_size_ok. destruct (_ || _) eqn:Es; [done|]. apply orb_false_iff in Es as [Hlo%Z.leb_gt Hhi%Z.ltb_ge].
  destruct (negb _) eqn:Ec; [done|]. intros [= <- <-].
  apply negb_false_iff, constant_time_equal_spec in Ec; [|rewrite length_sha256, length_drop; lia].
  rewrite Ec. split_and!; [by rewrite take_drop|done|lia|lia].
Qed.

Lemma length_put_header kind : length (put_header kind) = 12%nat.
Proof. reflexivity. Qed.

(** The budget that travels, and the deadline that arrives. *)
Lemma deadline_departs now d :
  0 <= now -> d <= INT64_MAX -> d = no_deadline \/ now < d ->
  exists budget, deadline_budget now d = Ok budget /\ fits 8 budget /\ budget <> 0.
Proof.
  intros H2 Hd Hor. unfold deadline_budget. destruct (Z.eqb_spec d no_deadline) as [->|Hne].
  { exists U64_MAX. split_and!; try done. }
  destruct Hor as [?|Hlt]; [done|]. exists (d - now).
  rewrite (proj2 (Z.leb_gt _ _)) by lia. rewrite (proj2 (Z.ltb_ge _ _)) by lia.
  unfold fits, INT64_MAX in *. split_and!; try done; lia.
Qed.

(** The sum that [decode_deadline] computes, which overflows or not. *)
Lemma decode_budget now2 now3 d budget :
  0 <= now2 -> d <= INT64_MAX -> d <> no_deadline -> now2 < d -> deadline_budget now2 d = Ok budget ->
  decode_deadline now3 budget =
  if INT64_MAX <? now3 + (d - now2) then Throw (undefined_behavior "signed overflow") else Ok (now3 + (d - now2)).
Proof.
  intros H2 Hd Hne Hlt. unfold deadline_budget, decode_deadline. rewrite (proj2 (Z.eqb_neq _ _) Hne).
  rewrite (proj2 (Z.leb_gt _ _)), (proj2 (Z.ltb_ge _ _)) by lia. intros [= <-].
  unfold INT64_MAX, U64_MAX in *. destruct (Z.eqb_spec (d - now2) (2 ^ 64 - 1)); [lia|]. by rewrite Z.min_l by lia.
Qed.

Lemma deadline_arrives now2 now3 d budget :
  0 <= now2 -> d <= INT64_MAX -> d = no_deadline \/ now2 < d -> deadline_budget now2 d = Ok budget ->
  d = no_deadline \/ now3 + (d - now2) <= INT64_MAX ->
  decode_deadline now3 budget = Ok (if d =? no_deadline then no_deadline else now3 + (d - now2)).
Proof.
  intros H2 Hd Hor Eb Ha. destruct (Z.eqb_spec d no_deadline) as [->|Hne].
  { unfold deadline_budget in Eb. rewrite Z.eqb_refl in Eb. by injection Eb as <-. }
  destruct Hor as [?|Hlt], Ha as [?|Ha]; try done.
  by rewrite (decode_budget now2 now3 d budget), (proj2 (Z.ltb_ge _ _)).
Qed.

Lemma buffer_view_typed b :
  buffer_valid b = true -> buffer_typed b ->
  buffer_view b = Ok (default [] (buf_data b)) /\ Z.of_nat (length (default [] (buf_data b))) = buf_bytes b /\
  buf_bytes b <> 0 /\ Forall byte (default [] (buf_data b)) /\ buf_abi b <> [].
Proof.
  unfold buffer_valid, buffer_view. intros Hv (_ & _ & Hd).
  rewrite !andb_true_iff, !negb_true_iff, !bool_decide_eq_false, Z.eqb_neq in Hv.
  destruct Hv as ((((Ha & _) & _) & Hn) & Hz). destruct (buf_data b) as [l|]; [|done].
  destruct (Hd l eq_refl) as [E Hl]. cbn. rewrite <- E in *. rewrite (proj2 (Z.ltb_ge _ _)) by lia.
  split_and!; auto. by rewrite take_ge by lia.
Qed.

(** The request reaches its owner in time: the clock there is read at [now3] and [now4]. *)
Definition in_time (now2 now3 now4 : Z) (r : ActiveExpertExecutionRequest) : Prop :=
  let d := av_deadline (ar_invocation r) in
  d = no_deadline \/ now3 + (d - now2) <= INT64_MAX /\ now4 < now3 + (d - now2).

Lemma validate_invocation_ok now v :
  status_ok (validate_invocation now v) = true <->
  av_request_id v <> 0 /\ av_invocation_id v <> 0 /\ av_route_width v <> 0 /\
  av_selection_index v < av_route_width v /\ buffer_valid (av_input v) = true /\ av_output_abi v <> [] /\
  av_output_bytes v <> 0 /\ (av_deadline v = no_deadline \/ now < av_deadline v).
Proof.
  unfold validate_invocation. destruct (_ || _) eqn:E; cbn.
  - rewrite !orb_true_iff, !Z.eqb_eq, Z.leb_le, negb_true_iff, bool_decide_eq_true in E.
    split; [done|]. intros (? & ? & ? & ? & Hb & ? & ? & _). rewrite Hb in E. naive_solver lia.
  - rewrite !orb_false_iff, !Z.eqb_neq, Z.leb_gt, negb_false_iff, bool_decide_eq_false in E.
    destruct (negb _ && _) eqn:Ed; cbn.
    + apply andb_true_iff in Ed as [H1%negb_true_iff%Z.eqb_neq H2%Z.leb_le]. split; [done|].
      intros (? & ? & ? & ? & ? & ? & ? & [?|?]); [done|lia].
    + split; [|done]. intros _. apply andb_false_iff in Ed as [H1%negb_false_iff%Z.eqb_eq|H2%Z.leb_gt]; naive_solver.
Qed.

Lemma length_request_fields r b1 b2 i1 i2 :
  length i1 = length i2 -> length (request_fields r b1 i1) = length (request_fields r b2 i2).
Proof.
  intros E. unfold request_fields. rewrite !length_app, E.
  change (put_u64 b1) with (put_integer 8 b1). change (put_u64 b2) with (put_integer 8 b2).
  by rewrite !length_put_integer.
Qed.

Lemma request_fields_long r budget input : (12 + 8 <= length (request_fields r budget input))%nat.
Proof.
  unfold request_fields. rewrite !length_app, length_put_header.
  change (put_u64 budget) with (put_integer 8 budget). rewrite length_put_integer. lia.
Qed.

(** The request with its input in the owner's memory. *)
Definition landed (deadline : Z) (r : ActiveExpertExecutionRequest) : ActiveExpertInvocation :=
  let v := ar_invocation r in
  v <| av_deadline := deadline |> <| av_input := wire_buffer (buf_abi (av_input v)) (input_data r) |>.

(** A request that can be sent is sent, and all that its owner still computes is the
    deadline. *)
Lemma sent_request now1 now2 r :
  sendable now1 now2 r ->
  exists budget frame digest,
    deadline_budget now2 (av_deadline (ar_invocation r)) = Ok budget /\ budget <> 0 /\ frame_size_ok frame /\
    raw_valid 32 digest /\ Forall byte frame /\
    encode_active_expert_request now1 now2 r = Ok (mkEncoded success frame digest) /\
    forall now3 now4,
      decode_active_expert_request now3 now4 frame =
      let! deadline := decode_deadline now3 budget in
      let status := validate_invocation now4 (landed deadline r) in
      if negb (status_ok status) then Ok (decode_failure status)
      else Ok (mkDecoded success (mkExecution (ar_identity r) (landed deadline r)) digest).
Proof.
  intros [Ht Hi Hv Hh Hx Ho Hn Hd Hf].
  pose proof Hv as (Hrid & Hiid & Hrw & Hsel & Hb & Hoa & Hob & _)%validate_invocation_ok.
  destruct (buffer_view_typed _ Hb (rt_input _ Ht)) as (Ev & El & Hz & Hbytes & Hab).
  destruct (deadline_departs now2 (av_deadline (ar_invocation r))) as (budget & Eb & Hfit & Hb0); [done|apply Ht|done|].
  set (payload := request_fields r budget (input_data r)).
  assert (length payload = length (request_fields r 0 (input_data r))) as Elen by by apply length_request_fields.
  pose proof (request_fields_long r budget (input_data r)) as Hlong. fold payload in Hlong.
  assert (frame_size_ok (payload ++ sha256 payload)) as Hsize.
  { unfold frame_size_ok. rewrite length_app, length_sha256. lia. }
  exists budget, (payload ++ sha256 payload), (sha256 payload).
  split; [done|]. split; [done|]. split; [done|].
  split; [split; [apply length_sha256|apply sha256_byte]|].
  split; [apply Forall_app; split; [by apply request_fields_bytes|apply sha256_byte]|]. split.
  - unfold encode_active_expert_request. rewrite Hi, Hv, Hh. cbn [negb].
    destruct Hx as (Hx1 & Hx2 & Hx3). unfold too_long.
    destruct (_ || _) eqn:Etoo.
    { exfalso. rewrite !orb_true_iff, !Z.ltb_lt in Etoo. unfold payload, request_fields in *.
      rewrite !length_app in *. unfold input_data in *. lia. }
    rewrite Eb. cbn [obind]. rewrite (proj2 (Z.eqb_neq _ _) Hb0), Ev. cbn [obind].
    change (request_fields r budget (default [] (buf_data (av_input (ar_invocation r))))) with payload.
    rewrite (proj2 (Z.ltb_ge _ _)); [done|]. apply Hsize.
  - intros now3 now4. unfold decode_active_expert_request. rewrite open_frame_sealed by done. unfold payload.
    rewrite get_request_put by done.
    assert (get_raw (buf_bytes (av_input (ar_invocation r))) (input_data r) = Some (input_data r, [])) as ->.
    { rewrite <- (app_nil_r (input_data r)) at 1. change (input_data r ++ []) with (id (input_data r) ++ []).
      rewrite (get_put _ _ _ (raw_inverses _)); [done|]. unfold raw_valid, input_data. split; [lia|done]. }
    rewrite (proj2 (Z.eqb_neq _ _) Hb0). cbn [ar_identity ar_invocation]. by rewrite Hi.
Qed.

Lemma sent_and_received now1 now2 now3 now4 r :
  sendable now1 now2 r -> in_time now2 now3 now4 r ->
  exists frame digest,
    encode_active_expert_request now1 now2 r = Ok (mkEncoded success frame digest) /\
    decode_active_expert_request now3 now4 frame = Ok (mkDecoded success (received now2 now3 r) digest) /\
    Forall byte frame.
Proof.
  intros Hs Hin. destruct (sent_request _ _ _ Hs) as (budget & frame & digest & Eb & _ & Hsize & _ & Hbytes & He & Hdec).
  exists frame, digest. split_and!; [done| |done].
  destruct Hs as [Ht Hi Hv _ _ _ Hn Hd _]. apply validate_invocation_ok in Hv as (Hrid & Hiid & Hrw & Hsel & Hb & Hoa & Hob & _).
  destruct (buffer_view_typed _ Hb (rt_input _ Ht)) as (_ & El & Hz & _ & Hab).
  rewrite Hdec, (deadline_arrives now2 now3 _ _ Hn (rt_deadline _ Ht) Hd Eb); [|by destruct Hin as [?|[? ?]]; auto].
  cbn [obind]. set (d := if av_deadline (ar_invocation r) =? no_deadline then _ else _).
  assert (status_ok (validate_invocation now4 (landed d r)) = true) as ->; [|done].
  apply validate_invocation_ok. unfold landed, Prelude.update, up_av_input, up_av_deadline. cbn. split_and!; auto.
  - unfold buffer_valid, wire_buffer. cbn. rewrite !andb_true_iff, !negb_true_iff, !bool_decide_eq_false, Z.eqb_neq.
    split_and!; try done. unfold input_data. lia.
  - subst d. destruct (Z.eqb_spec (av_deadline (ar_invocation r)) no_deadline); [by left|right].
    by destruct Hin as [?|[_ ?]].
Qed.

(** C36: a request that the code sends is the request that its owner receives: for every
    request with complete identity and invocation, host memory and sizes within the limits,
    [encode_active_expert_request] succeeds, and whenever the frame arrives before the
    deadline has passed, [decode_active_expert_request] accepts it with the digest that the
    sender keeps and gives back every field and every byte of the input; what is left of
    the deadline is counted on the owner's clock. *)
Theorem request_round_trip now1 now2 now3 now4 r :
  sendable now1 now2 r -> in_time now2 now3 now4 r ->
  exists frame digest,
    encode_active_expert_request now1 now2 r = Ok (mkEncoded success frame digest) /\
    decode_active_expert_request now3 now4 frame = Ok (mkDecoded success (received now2 now3 r) digest).
Proof.
  intros Hs Ht. destruct (sent_and_received _ _ _ _ _ Hs Ht) as (frame & digest & ? & ? & _). eauto.
Qed.

(** C37: [decode_active_expert_request] accepts nothing but encodings. A frame of bytes that
    it accepts is, bit for bit, the encoding of the request that it returns, sealed with its
    SHA-256: the header, the version, the lengths and the checksum are all determined by the
    request and by the budget that its deadline was computed from, the digest returned is
    that of the frame, and the request is complete, typed and not yet expired. *)
Theorem accepted_request_is_encoding now1 now2 frame d :
  Forall byte frame ->
  decode_active_expert_request now1 now2 frame = Ok d -> status_ok (de_status d) = true ->
  exists budget,
    fits 8 budget /\ budget <> 0 /\ decode_deadline now1 budget = Ok (av_deadline (ar_invocation (de_request d))) /\
    frame = request_fields (de_request d) budget (input_data (de_request d)) ++ de_request_sha256 d /\
    de_request_sha256 d = sha256 (request_fields (de_request d) budget (input_data (de_request d))) /\
    request_typed (de_request d) /\
    status_ok (validate_identity (ar_identity (de_request d))) = true /\
    status_ok (validate_invocation now2 (ar_invocation (de_request d))) = true.
Proof.
  intros Hbytes. unfold decode_active_expert_request.
  destruct (open_frame _ _) as [status|[payload claimed]] eqn:Eo.
  { intros [= <-]. cbn. unfold open_frame in Eo. repeat case_match; simplify_eq; done. }
  apply open_frame_inv in Eo as (-> & -> & _). apply Forall_app in Hbytes as [Hp _].
  destruct (get_request payload) as [[[[[r budget] abi] n] rest]|] eqn:Er; [|by intros [= <-]].
  destruct (get_raw n rest) as [[input [|? ?]]|] eqn:Ei; try (intros [= <-]; by destruct (budget =? 0)).
  destruct (Z.eqb_spec budget 0) as [->|Hb]; [by intros [= <-]|].
  destruct (decode_deadline now1 budget) as [deadline|?] eqn:Ed; [|done]. cbn [obind].
  destruct (status_ok (validate_identity _)) eqn:Hi; [|intros [= <-]; cbn; congruence].
  destruct (status_ok (validate_invocation _ _)) eqn:Hv; [|intros [= <-]; cbn; congruence].
  intros [= <-] _. cbn [de_request de_request_sha256 ar_identity ar_invocation].
  eapply get_request_inv in Er as (Ep & Ht & _ & Hf & _); [|done|by eapply decode_deadline_bounded|done].
  exists budget. split_and!; auto; rewrite Ep at 1; reflexivity.
Qed.

(** ** Results *)

Lemma text_bytes s : text (bytes s) = s.
Proof.
  with_strategy transparent [bytes] unfold bytes, text. rewrite map_map.
  rewrite <- (string_of_list_ascii_of_string s) at 2. f_equal.
  rewrite <- (map_id (list_ascii_of_string s)) at 2. apply map_ext. intros c.
  by rewrite N2Z.id, ascii_N_embedding.
Qed.

Lemma bytes_text l : Forall byte l -> bytes (text l) = l.
Proof.
  intros H. with_strategy transparent [bytes] unfold bytes, text.
  rewrite list_ascii_of_string_of_list_ascii, map_map. rewrite <- (map_id l) at 2. apply map_ext_in.
  intros b Hb%list_elem_of_In. rewrite Forall_forall in H. specialize (H b Hb). unfold byte in H.
  rewrite N_ascii_embedding by lia. lia.
Qed.

Lemma number_of_code n : 0 <= n <= code_number internal -> code_number (nth (Z.to_nat n) error_codes internal) = n.
Proof.
  cbn [code_number]. intros H.
  assert (n ∈ seqZ 0 11) as Hn by (apply elem_of_seqZ; lia). clear H. revert n Hn.
  apply Forall_forall. by repeat constructor.
Qed.

Lemma code_number_nth c : nth (Z.to_nat (code_number c)) error_codes internal = c.
Proof. by destruct c. Qed.

#[local] Opaque error_codes.

Lemma code_number_range c : 0 <= code_number c <= code_number internal.
Proof. destruct c; cbn; lia. Qed.

Record result_typed (r : ActiveExpertExecutionResult) : Prop := {
  rst_identity : identity_typed (rs_identity r);
  rst_request_id : fits 8 (rs_request_id r);
  rst_invocation_id : fits 8 (rs_invocation_id r);
  rst_selection : fits 4 (rs_selection_index r);
  rst_digest : raw_valid 32 (rs_request_sha256 r);
  rst_output : buffer_typed (rs_output r);
  rst_evidence : evidence_fits (rs_evidence r) }.

(** What keeps [encode_response] from failing before the size of the frame is known. *)
Record respondable (r : ActiveExpertExecutionResult) : Prop := {
  rp_typed : result_typed r;
  rp_identity : status_ok (validate_identity (rs_identity r)) = true;
  rp_capability : Z.of_nat (length (id_capability (rs_identity r))) <= kMaximumStringBytes;
  rp_request_id : rs_request_id r <> 0;
  rp_invocation_id : rs_invocation_id r <> 0;
  rp_digest : nonzero (rs_request_sha256 r) = true;
  rp_weights : weight_transport_bytes (rs_evidence r) = 0;
  rp_message : Z.of_nat (length (bytes (message (rs_status r)))) <= kMaximumStringBytes;
  rp_output : status_ok (rs_status r) = true ->
    buffer_valid (rs_output r) = true /\ memory_domain (rs_output r) = bytes "host" /\
    Z.of_nat (length (buf_abi (rs_output r))) <= kMaximumStringBytes }.

Definition output_data (r : ActiveExpertExecutionResult) : list Z :=
  if status_ok (rs_status r) then default [] (buf_data (rs_output r)) else [].

(** The fields of a response, with its output. *)
Definition response_fields (r : ActiveExpertExecutionResult) : list Z :=
  put_header kResponseFrame ++ put_u64 (rs_request_id r) ++ put_u64 (rs_invocation_id r) ++
  put_u32 (rs_selection_index r) ++ put_identity (rs_identity r) ++ rs_request_sha256 r ++
  put_u8 (code_number (code (rs_status r))) ++ put_text (bytes (message (rs_status r))) ++
  put_text (if status_ok (rs_status r) then buf_abi (rs_output r) else []) ++
  put_u64 (if status_ok (rs_status r) then buf_bytes (rs_output r) else 0) ++ put_evidence (rs_evidence r) ++
  output_data r.

Definition with_wire_size (n : Z) (r : ActiveExpertExecutionResult) : ActiveExpertExecutionResult :=
  r <| rs_evidence %= fun e => e <| wire_response_bytes := n |> |>.

(** The result as the caller sees it: the output of a success in memory of the caller, none
    for a failure. *)
Definition returned (r : ActiveExpertExecutionResult) : ActiveExpertExecutionResult :=
  r <| rs_output := if status_ok (rs_status r)
                    then wire_buffer (buf_abi (rs_output r)) (default [] (buf_data (rs_output r))) else empty_buffer |>.

Lemma encode_once_output r :
  (status_ok (rs_status r) = true -> buffer_valid (rs_output r) = true) -> buffer_typed (rs_output r) ->
  encode_response_once r = Ok (response_fields r ++ sha256 (response_fields r)).
Proof.
  intros Hv Ht. unfold encode_response_once, response_fields, output_data.
  destruct (status_ok (rs_status r)) eqn:E; [|done].
  destruct (buffer_view_typed _ (Hv eq_refl) Ht) as (-> & _). reflexivity.
Qed.

Lemma encode_once r :
  respondable r -> encode_response_once r = Ok (response_fields r ++ sha256 (response_fields r)).
Proof. intros H. apply encode_once_output; [intros Hok; by apply (rp_output _ H)|apply (rp_typed _ H)]. Qed.

Lemma respondable_with_size n r : fits 8 n -> respondable r -> respondable (with_wire_size n r).
Proof.
  intros Hn [[] ? ? ? ? ? ? ? ?]. split; auto. split; auto. cbn.
  destruct (rs_evidence r) as [a b c d e f g h i j k], rst_evidence0 as [H]. cbn in *.
  repeat (apply Forall_cons in H as [? H]). split. cbn.
  repeat (apply Forall_cons_2; [done|]). by apply Forall_nil_2.
Qed.

Lemma length_put_evidence e : length (put_evidence e) = 88%nat.
Proof.
  with_strategy transparent [put_evidence] unfold put_evidence.
  with_strategy transparent [put_u64] unfold put_u64. by rewrite !length_app, !length_put_integer.
Qed.

Lemma length_response_with_size n r : length (response_fields (with_wire_size n r)) = length (response_fields r).
Proof. unfold response_fields. rewrite !length_app, !length_put_evidence. reflexivity. Qed.

Lemma response_fields_long r : (12 + 88 <= length (response_fields r))%nat.
Proof. unfold response_fields. rewrite !length_app, length_put_evidence, length_put_header. lia. Qed.

Lemma get_response_put r :
  respondable r ->
  get_response (response_fields r)
  = Some ((r <| rs_output := empty_buffer |>,
           if status_ok (rs_status r) then buf_abi (rs_output r) else [],
           if status_ok (rs_status r) then buf_bytes (rs_output r) else 0), output_data r).
Proof.
  intros [[] ? ? ? ? ? ? Hm Hout]. unfold get_response, response_fields.
  set (abi := if status_ok (rs_status r) then buf_abi (rs_output r) else []).
  set (n := if status_ok (rs_status r) then buf_bytes (rs_output r) else 0).
  assert (text_valid abi) as Habi.
  { subst abi. destruct rst_output0 as [Ha _]. destruct (status_ok (rs_status r)); [|by split; [cbn; lia|apply Forall_nil_2]].
    split; [by apply Hout|done]. }
  assert (fits 8 n) as Hn.
  { subst n. destruct rst_output0 as (_ & Hb & _). by destruct (status_ok (rs_status r)). }
  assert (text_valid (bytes (message (rs_status r)))) as Htext by (split; [done|apply bytes_byte]).
  assert (fits 1 (code_number (code (rs_status r)))) as Hcode.
  { pose proof (code_number_range (code (rs_status r))). unfold fits. cbn in *. lia. }
  change (put_header kResponseFrame) with ((fun _ : unit => put_header kResponseFrame) tt).
  change (rs_request_sha256 r ++ ?x) with (id (rs_request_sha256 r) ++ x).
  do 7 put_step. rewrite read_expect by (apply negb_true_iff, Z.ltb_ge, code_number_range).
  do 4 put_step. rewrite code_number_nth, text_bytes. by destruct r as [[] ? ? ? ? ? ? ?].
Qed.

(** What a response that is read says, the output aside. *)
Lemma get_response_inv l r abi n rest :
  Forall byte l -> get_response l = Some ((r, abi, n), rest) ->
  l = put_header kResponseFrame ++ put_u64 (rs_request_id r) ++ put_u64 (rs_invocation_id r) ++
      put_u32 (rs_selection_index r) ++ put_identity (rs_identity r) ++ rs_request_sha256 r ++
      put_u8 (code_number (code (rs_status r))) ++ put_text (bytes (message (rs_status r))) ++
      put_text abi ++ put_u64 n ++ put_evidence (rs_evidence r) ++ rest /\
  rs_output r = empty_buffer /\ Forall byte rest /\ text_valid abi /\ fits 8 n /\ result_typed r /\
  Z.of_nat (length (id_capability (rs_identity r))) <= kMaximumStringBytes /\
  Z.of_nat (length (bytes (message (rs_status r)))) <= kMaximumStringBytes.
Proof.
  intros Hl H. unfold get_response in H.
  unput H. unput H. unput H. unput H. unput H. unput H. unput H. apply unread_expect in H as [Hc%negb_true_iff%Z.ltb_ge H].
  unput H. unput H. unput H. unput H. injection H as <- <- <- <-.
  repeat match goal with H : identity_fits _ |- _ => destruct H | H : text_valid _ |- _ => destruct H end.
  cbn [rs_request_id rs_invocation_id rs_selection_index rs_identity rs_request_sha256 rs_status code message rs_evidence
       rs_output].
  rewrite number_of_code by (split; [unfold fits in *; lia|done]). rewrite bytes_text by done. unfold id in *. split_and!; auto.
  - by split.
  - split; cbn; auto. unfold buffer_typed. cbn. split_and!; [apply Forall_nil_2|unfold fits; lia|done].
Qed.

Lemma response_fields_bytes r : respondable r -> Forall byte (response_fields r).
Proof.
  intros [[Hi ? ? ? [_ ?] (? & _ & Hd) ?] ? ? ? ? ? ? ? ?]. unfold response_fields, output_data.
  assert (Forall byte (default [] (buf_data (rs_output r)))).
  { destruct (buf_data (rs_output r)) as [l|]; [by apply Hd|apply Forall_nil_2]. }
  repeat first [apply Forall_app; split | apply put_header_bytes | by apply put_identity_bytes | apply put_evidence_bytes
    | apply put_text_bytes; case_match | progress byte_parts | case_match | apply Forall_nil_2].
Qed.

Lemma get_output_put r :
  respondable r ->
  get_output (status_ok (rs_status r)) (if status_ok (rs_status r) then buf_abi (rs_output r) else [])
    (if status_ok (rs_status r) then buf_bytes (rs_output r) else 0) (output_data r)
  = inr (rs_output (returned r), []).
Proof.
  intros H. unfold get_output, output_data, returned, Prelude.update, up_rs_output. cbn.
  destruct (status_ok (rs_status r)) eqn:E; [|done].
  destruct (rp_output _ H E) as (Hb & _ & _).
  destruct (buffer_view_typed _ Hb (rst_output _ (rp_typed _ H))) as (_ & Hl & Hz & Hd & Ha).
  rewrite bool_decide_eq_false_2, (proj2 (Z.eqb_neq _ _) Hz) by done. cbn [orb].
  set (data := default [] (buf_data (rs_output r))) in *.
  assert (get_raw (buf_bytes (rs_output r)) data = Some (data, [])) as ->; [|done].
  rewrite <- (app_nil_r data) at 1. change (data ++ []) with (id data ++ []).
  rewrite (get_put _ _ _ (raw_inverses _)); [done|]. split; [lia|done].
Qed.

Lemma sent_response r :
  respondable r -> Z.of_nat (length (response_fields r)) + 32 <= kMaximumFrameBytes ->
  exists frame,
    let final := with_wire_size (Z.of_nat (length frame)) r in
    encode_response r = Ok (success, final, frame) /\ decode_response frame = (success, returned final) /\
    frame = response_fields final ++ sha256 (response_fields final).
Proof.
  intros H Hsize. set (n := Z.of_nat (length (response_fields r)) + Z.of_nat 32).
  assert (respondable (with_wire_size n r)) as Hn.
  { apply respondable_with_size; [|done]. unfold fits, kMaximumFrameBytes in *. lia. }
  pose proof (response_fields_long r) as Hlong.
  exists (response_fields (with_wire_size n r) ++ sha256 (response_fields (with_wire_size n r))).
  rewrite length_app, length_sha256, length_response_with_size, Nat2Z.inj_add. fold n. split; [|split; [|done]].
  - destruct H as [Ht Hi Hc Hr Hv Hg Hw Hm Ho]. unfold encode_response.
    rewrite Hi, (proj2 (Z.eqb_neq _ _) Hr), (proj2 (Z.eqb_neq _ _) Hv), Hg, Hw. cbn [negb orb Z.eqb].
    assert (status_ok (rs_status r) && (negb (buffer_valid (rs_output r)) ||
              negb (bool_decide (memory_domain (rs_output r) = bytes "host"))) = false) as ->.
    { destruct (status_ok (rs_status r)); [|done]. destruct Ho as (-> & -> & _); [done|].
      by rewrite bool_decide_eq_true_2. }
    assert (too_long (bytes (message (rs_status r))) ||
            status_ok (rs_status r) && too_long (buf_abi (rs_output r)) = false) as ->.
    { unfold too_long. apply orb_false_iff. split; [by apply Z.ltb_ge|].
      destruct (status_ok (rs_status r)); [|done]. by apply Z.ltb_ge, Ho. }
    rewrite encode_once by done. cbn [obind].
    rewrite length_app, length_sha256, Nat2Z.inj_add. fold n. change (r <| rs_evidence %= _ |>) with (with_wire_size n r).
    rewrite encode_once by done. cbn [obind].
    rewrite length_app, length_sha256, length_response_with_size, Nat2Z.inj_add. fold n.
    by rewrite (proj2 (Z.ltb_ge _ _)) by done.
  - unfold decode_response. rewrite open_frame_sealed.
    2: { unfold frame_size_ok. rewrite length_app, length_sha256, length_response_with_size. lia. }
    rewrite get_response_put by done. rewrite length_app, length_sha256, length_response_with_size, Nat2Z.inj_add. fold n.
    change (wire_response_bytes (rs_evidence ((with_wire_size n r) <| rs_output := empty_buffer |>))) with n.
    change (weight_transport_bytes (rs_evidence ((with_wire_size n r) <| rs_output := empty_buffer |>)))
      with (weight_transport_bytes (rs_evidence r)).
    rewrite (rp_weights _ H), !Z.eqb_refl. cbn [negb orb].
    change (rs_status ((with_wire_size n r) <| rs_output := empty_buffer |>)) with (rs_status (with_wire_size n r)).
    rewrite get_output_put by done. rewrite bool_decide_eq_true_2 by done. cbn [negb orb].
    destruct Hn as [_ Hi _ Hr Hv Hg _ _ _]. cbn in Hi, Hr, Hv, Hg. cbn.
    by rewrite Hi, (proj2 (Z.eqb_neq _ _) Hr), (proj2 (Z.eqb_neq _ _) Hv), Hg.
Qed.

(** A result that its owner sends is the result that the caller receives. For every
    result with a complete identity, a digest, no weight bytes and, on success, an output in
    host memory, whose frame is within the limit, [encode_response] succeeds and records in
    the result the size of the very frame it returns, and [decode_response] accepts that
    frame and gives back every field, the status with its message and every byte of the
    output; a failure arrives without an output. *)
Theorem response_round_trip r :
  respondable r -> Z.of_nat (length (response_fields r)) + 32 <= kMaximumFrameBytes ->
  exists frame,
    let final := with_wire_size (Z.of_nat (length frame)) r in
    encode_response r = Ok (success, final, frame) /\ decode_response frame = (success, returned final).
Proof.
  intros H Hs. destruct (sent_response r H Hs) as (frame & He & Hd & _). by exists frame.
Qed.

Lemma get_output_inv succeeded abi n rest b left :
  Forall byte rest -> text_valid abi -> fits 8 n -> get_output succeeded abi n rest = inr (b, left) ->
  if succeeded then
    exists data, rest = data ++ left /\ Z.of_nat (length data) = n /\ n <> 0 /\ abi <> [] /\ Forall byte data /\
      b = wire_buffer abi data
  else abi = [] /\ n = 0 /\ b = empty_buffer /\ left = rest.
Proof.
  intros Hr Ha Hn. unfold get_output. destruct succeeded.
  - destruct (_ || _) eqn:E; [done|]. apply orb_false_iff in E as [E1%bool_decide_eq_false E2%Z.eqb_neq].
    destruct (get_raw n rest) as [[data l]|] eqn:Er; [|done]. intros [= <- <-].
    apply (put_get _ _ _ (raw_inverses _)) in Er as [-> [Hl Hb]]; [|done]. exists data. unfold fits in Hn.
    split_and!; auto. lia.
  - destruct (_ || _) eqn:E; [done|].
    apply orb_false_iff in E as [E1%negb_false_iff%bool_decide_eq_true E2%negb_false_iff%Z.eqb_eq].
    intros [= <- <-]. done.
Qed.

(** [decode_response] accepts nothing but encodings. A frame of bytes that it accepts is
    the encoding of the result that it returns, sealed with its SHA-256; the evidence in it
    states the size of the frame itself and no weight byte, and the result has an output,
    in the caller's memory and not empty, exactly when its status is a success. *)
Theorem accepted_response_is_encoding frame status r :
  Forall byte frame -> decode_response frame = (status, r) -> status_ok status = true ->
  frame = response_fields r ++ sha256 (response_fields r) /\
  wire_response_bytes (rs_evidence r) = Z.of_nat (length frame) /\ weight_transport_bytes (rs_evidence r) = 0 /\
  result_typed r /\ status_ok (validate_identity (rs_identity r)) = true /\ nonzero (rs_request_sha256 r) = true /\
  if status_ok (rs_status r) then rs_output r = wire_buffer (buf_abi (rs_output r)) (output_data r) /\
                                  buf_abi (rs_output r) <> [] /\ output_data r <> []
  else rs_output r = empty_buffer.
Proof.
  intros Hbytes. unfold decode_response.
  destruct (open_frame _ _) as [?|[payload claimed]] eqn:Eo.
  { intros [= <- <-]. unfold open_frame in Eo. repeat case_match; simplify_eq; done. }
  apply open_frame_inv in Eo as (-> & -> & _). apply Forall_app in Hbytes as [Hp _].
  destruct (get_response payload) as [[[[q abi] n] rest]|] eqn:Er; [|by intros [= <- <-]].
  destruct (_ || _) eqn:Ee; [by intros [= <- <-]|].
  apply orb_false_iff in Ee as [Es%negb_false_iff%Z.eqb_eq Ew%negb_false_iff%Z.eqb_eq].
  destruct (get_output _ _ _ _) as [?|[b left]] eqn:Eo.
  { intros [= <- <-]. unfold get_output, invalid in Eo. repeat case_match; simplify_eq; done. }
  destruct (_ || _) eqn:Ec; [by intros [= <- <-]|]. intros [= <- <-] _.
  rewrite !orb_false_iff, !negb_false_iff, bool_decide_eq_true in Ec. destruct Ec as ((((-> & Hi) & _) & _) & Hg).
  apply get_response_inv in Er as (Ep & Hout & Hrest & Ha & Hn & Ht & _); [|done].
  apply get_output_inv in Eo; [|done..].
  set (r := q <| rs_output := b |>).
  assert (payload = response_fields r) as Epay.
  { rewrite Ep. unfold response_fields, output_data, r, Prelude.update, up_rs_output. cbn.
    destruct (status_ok (rs_status q)).
    - destruct Eo as (data & -> & <- & _ & _ & _ & ->). cbn. by rewrite app_nil_r.
    - by destruct Eo as (-> & -> & -> & <-). }
  rewrite <- Epay. split_and!; [done|exact Es|exact Ew| |exact Hi|exact Hg|].
  - destruct Ht. split; auto. change (rs_output r) with b. destruct (status_ok (rs_status q)).
    + destruct Eo as (data & _ & <- & _ & _ & Hd & ->). destruct Ha. unfold buffer_typed. cbn.
      split_and!; auto. intros ? [= <-]. auto.
    + destruct Eo as (_ & _ & -> & _). by rewrite <- Hout.
  - unfold output_data. change (rs_status r) with (rs_status q). change (rs_output r) with b.
    destruct (status_ok (rs_status q)).
    + destruct Eo as (data & _ & <- & Hz & Hne & _ & ->). cbn. split_and!; auto. by intros ->.
    + by destruct Eo as (_ & _ & -> & _).
Qed.

(** ** What the modelling showed *)

(** A text field with a line break, a carriage return or a NUL is read like any other,
    although [Reader::text] looks for them. *)
Theorem text_keeps_line_breaks rest : get_text (put_text [10; 13; 0] ++ rest) = Some ([10; 13; 0], rest).
Proof. apply (get_put _ _ _ text_inverses). split; [vm_compute; discriminate|]. by repeat constructor. Qed.

(** A frame that the code itself sends can make its owner overflow: the budget is added to
    the owner's clock, which may be ahead of the sender's. *)
Theorem owner_clock_overflow now1 now2 now3 now4 r :
  sendable now1 now2 r -> av_deadline (ar_invocation r) <> no_deadline ->
  INT64_MAX < now3 + (av_deadline (ar_invocation r) - now2) ->
  exists frame digest,
    encode_active_expert_request now1 now2 r = Ok (mkEncoded success frame digest) /\
    decode_active_expert_request now3 now4 frame = Throw (undefined_behavior "signed overflow").
Proof.
  intros Hs Hne Hover. destruct (sent_request _ _ _ Hs) as (budget & frame & digest & Eb & _ & _ & _ & _ & He & Hdec).
  exists frame, digest. split; [done|]. destruct Hs as [Ht _ _ _ _ _ Hn [?|Hd] _]; [done|].
  rewrite Hdec, (decode_budget now2 now3 _ budget Hn (rt_deadline _ Ht) Hne Hd Eb).
  by rewrite (proj2 (Z.ltb_lt _ _) Hover).
Qed.

(** ** Examples *)

Definition demo_identity : ActiveExpertIdentity :=
  mkIdentity (1 :: replicate 31 0) (mkExpertKey 7 2 5 1) (bytes "moe.fp4") 1 3.

Definition demo_request : ActiveExpertExecutionRequest :=
  mkExecution demo_identity
    (mkInvocation 11 12 0 2 1000 (mkBuffer (bytes "f32") (bytes "host") true (Some [1; 2; 3; 4]) 4) (bytes "f32") 4).

Lemma demo_identity_typed : identity_typed demo_identity.
Proof.
  split; cbn; unfold fits; try lia.
  - split; [done|]. repeat constructor; cbn; lia.
  - apply bytes_byte.
Qed.

Lemma demo_sendable : sendable 100 101 demo_request.
Proof.
  split; try (vm_compute; reflexivity); try (vm_compute; discriminate); [|by vm_compute|by right].
  split; cbn; try (unfold fits; lia); [apply demo_identity_typed|vm_compute; discriminate| |apply bytes_byte].
  unfold buffer_typed. cbn. split_and!; [apply bytes_byte|unfold fits; lia..|].
  intros l [= <-]. split; [done|]. repeat constructor; cbn; lia.
Qed.

Lemma request_round_trip_witness :
  exists frame digest,
    encode_active_expert_request 100 101 demo_request = Ok (mkEncoded success frame digest) /\
    decode_active_expert_request 5000 5001 frame = Ok (mkDecoded success (received 101 5000 demo_request) digest).
Proof. apply (request_round_trip 100 101 5000 5001 demo_request demo_sendable). right. split; vm_compute; done. Defined.

Lemma accepted_request_is_encoding_witness :
  exists frame d budget,
    decode_active_expert_request 5000 5001 frame = Ok d /\
    frame = request_fields (de_request d) budget (input_data (de_request d)) ++ de_request_sha256 d.
Proof.
  destruct (sent_and_received 100 101 5000 5001 demo_request demo_sendable) as (frame & digest & _ & Hd & Hb).
  { right. split; vm_compute; done. }
  destruct (accepted_request_is_encoding 5000 5001 frame _ Hb Hd eq_refl) as (budget & _ & _ & _ & Hf & _).
  by exists frame, (mkDecoded success (received 101 5000 demo_request) digest), budget.
Defined.

Definition demo_response : ActiveExpertExecutionResult :=
  mkResult success demo_identity 11 12 0 (replicate 32 5)
    (mkBuffer (bytes "f32") (bytes "host") true (Some [9; 8; 7; 6]) 4) no_evidence.

Lemma demo_respondable : respondable demo_response.
Proof.
  split; try (vm_compute; reflexivity); try (vm_compute; discriminate).
  - split; cbn; try (unfold fits; lia); [apply demo_identity_typed|split; [done|by repeat constructor]| |].
    + unfold buffer_typed. cbn. split_and!; [apply (bytes_byte "f32")|unfold fits; lia..|].
      intros l [= <-]. split; [done|]. by repeat constructor.
    + split. cbn. repeat (apply Forall_cons_2; [by unfold fits|]). apply Forall_nil_2.
  - intros _. split_and!; vm_compute; done.
Qed.

Lemma response_round_trip_witness :
  exists frame,
    let final := with_wire_size (Z.of_nat (length frame)) demo_response in
    encode_response demo_response = Ok (success, final, frame) /\ decode_response frame = (success, returned final).
Proof. apply (response_round_trip demo_response demo_respondable). vm_compute. discriminate. Defined.

Lemma accepted_response_is_encoding_witness :
  exists frame r, decode_response frame = (success, r) /\ frame = response_fields r ++ sha256 (response_fields r).
Proof.
  destruct (sent_response demo_response demo_respondable) as (frame & _ & Hd & Hf); [vm_compute; discriminate|].
  eexists frame, _. split; [exact Hd|].
  refine (proj1 (accepted_response_is_encoding frame success _ _ Hd eq_refl)).
  rewrite Hf. apply Forall_app. split; [|apply sha256_byte]. apply response_fields_bytes.
  apply respondable_with_size; [|apply demo_respondable].
  apply (f_equal length) in Hf. rewrite length_app, length_sha256, length_response_with_size in Hf. rewrite Hf.
  by vm_compute.
Defined.
