(* ===== verification/ActiveExpertWire.v ===== *)
(** Model of [active_expert_executor.cpp], second part: the endpoint that executes the
    requests it receives in frames, and the executor that sends its requests to such an
    endpoint. Both return handles; both count in a telemetry of their own, the first
    component of their world. The executors and the transport are interfaces. *)

From Stdlib Require Import String.
From S2P Require Import Prelude.
From S2P Require Import Storage.
From S2P Require Import Text.
From S2P Require Import Sha256.
From S2P Require Import Handles.
From S2P Require Import ActiveExpert.

#[local] Open Scope bool_scope.

(** ** Telemetry *)

Record ActiveExpertExecutorTelemetry := mkTelemetry {
  tl_requests : Z;
  tl_completed : Z;
  tl_failed : Z;
  tl_cancelled : Z;
  tl_deadline_exceeded : Z;
  tl_checksum_failures : Z;
  tl_activation_input_bytes : Z;
  tl_activation_output_bytes : Z;
  tl_wire_request_bytes : Z;
  tl_wire_response_bytes : Z;
  tl_weight_transport_bytes : Z;
  tl_owner_weight_read_bytes : Z;
  tl_owner_storage_read_bytes : Z;
  tl_owner_ram_read_bytes : Z;
  tl_owner_vram_read_bytes : Z;
  tl_owner_execution_ns : Z;
  tl_transport_wait_ns : Z }.

#[export] Instance eta_Telemetry : Eta ActiveExpertExecutorTelemetry := fun t =>
  mkTelemetry (tl_requests t) (tl_completed t) (tl_failed t) (tl_cancelled t) (tl_deadline_exceeded t)
    (tl_checksum_failures t) (tl_activation_input_bytes t) (tl_activation_output_bytes t) (tl_wire_request_bytes t)
    (tl_wire_response_bytes t) (tl_weight_transport_bytes t) (tl_owner_weight_read_bytes t)
    (tl_owner_storage_read_bytes t) (tl_owner_ram_read_bytes t) (tl_owner_vram_read_bytes t)
    (tl_owner_execution_ns t) (tl_transport_wait_ns t).

#[export] Instance up_tl_requests : Update tl_requests := ltac:(derive_update tl_requests).
#[export] Instance up_tl_completed : Update tl_completed := ltac:(derive_update tl_completed).
#[export] Instance up_tl_failed : Update tl_failed := ltac:(derive_update tl_failed).
#[export] Instance up_tl_cancelled : Update tl_cancelled := ltac:(derive_update tl_cancelled).
#[export] Instance up_tl_deadline : Update tl_deadline_exceeded := ltac:(derive_update tl_deadline_exceeded).
#[export] Instance up_tl_checksum : Update tl_checksum_failures := ltac:(derive_update tl_checksum_failures).
#[export] Instance up_tl_input : Update tl_activation_input_bytes := ltac:(derive_update tl_activation_input_bytes).
#[export] Instance up_tl_request_bytes : Update tl_wire_request_bytes := ltac:(derive_update tl_wire_request_bytes).
#[export] Instance up_tl_response_bytes : Update tl_wire_response_bytes := ltac:(derive_update tl_wire_response_bytes).

Definition no_telemetry : ActiveExpertExecutorTelemetry := mkTelemetry 0 0 0 0 0 0 0 0 0 0 0 0 0 0 0 0 0.

(** [AtomicTelemetry::add_completion]. *)
Definition add_completion (e : ActiveExpertExecutionEvidence) (t : ActiveExpertExecutorTelemetry)
  : ActiveExpertExecutorTelemetry :=
  mkTelemetry (tl_requests t) (tl_completed t) (tl_failed t) (tl_cancelled t) (tl_deadline_exceeded t)
    (tl_checksum_failures t) (tl_activation_input_bytes t)
    (add64 (tl_activation_output_bytes t) (activation_output_bytes e)) (tl_wire_request_bytes t)
    (add64 (tl_wire_response_bytes t) (wire_response_bytes e))
    (add64 (tl_weight_transport_bytes t) (weight_transport_bytes e))
    (add64 (tl_owner_weight_read_bytes t) (owner_weight_read_bytes e))
    (add64 (tl_owner_storage_read_bytes t) (owner_storage_read_bytes e))
    (add64 (tl_owner_ram_read_bytes t) (owner_ram_read_bytes e))
    (add64 (tl_owner_vram_read_bytes t) (owner_vram_read_bytes e))
    (add64 (tl_owner_execution_ns t) (owner_execution_ns e)) (add64 (tl_transport_wait_ns t) (transport_wait_ns e)).

(** [fetch_add] on one counter. *)
Definition one_request (t : ActiveExpertExecutorTelemetry) := t <| tl_requests %= inc64 |>.
Definition one_completed (t : ActiveExpertExecutorTelemetry) := t <| tl_completed %= inc64 |>.
Definition one_failed (t : ActiveExpertExecutorTelemetry) := t <| tl_failed %= inc64 |>.
Definition one_cancelled (t : ActiveExpertExecutorTelemetry) := t <| tl_cancelled %= inc64 |>.
Definition one_deadline (t : ActiveExpertExecutorTelemetry) := t <| tl_deadline_exceeded %= inc64 |>.
Definition one_checksum (t : ActiveExpertExecutorTelemetry) := t <| tl_checksum_failures %= inc64 |>.
Definition input_read (n : Z) (t : ActiveExpertExecutorTelemetry) := t <| tl_activation_input_bytes %= add64 n |>.
Definition request_wired (n : Z) (t : ActiveExpertExecutorTelemetry) := t <| tl_wire_request_bytes %= add64 n |>.
Definition response_wired (n : Z) (t : ActiveExpertExecutorTelemetry) := t <| tl_wire_response_bytes %= add64 n |>.

(** ** Interfaces *)

Record ActiveExpertWireResult := mkWireResult { wr_status : Status; wr_frame : list Z }.

Class SteadyClock (W : Type) := { clock_now : W -> Z * W }.

(** [IActiveExpertExecutor]; [E] is what its handles share. *)
Class ActiveExpertExecutor (W Executor E : Type) := {
  executor_execute : Executor -> ActiveExpertExecutionRequest -> ST W (Handle E unit);
  #[global] executor_callbacks :: Callbacks W E ActiveExpertExecutionResult }.

(** [IActiveExpertTransport]; [T] is what its handles share. *)
Class ActiveExpertTransport (W Transport T : Type) := {
  transport_submit : Transport -> list Z -> list Z -> Z -> ST W (Handle T unit);
  #[global] transport_callbacks :: Callbacks W T ActiveExpertWireResult }.

Section Common.
Context {W : Type} `{!SteadyClock W}.

Definition count (f : ActiveExpertExecutorTelemetry -> ActiveExpertExecutorTelemetry)
  : ST (ActiveExpertExecutorTelemetry * W) unit := modify (fun w => (f w.1, w.2)).

Definition now : ST W Z := ask clock_now.

(** [deadline != max() && deadline <= now()]; the clock is not read without a deadline. *)
Definition expired (deadline : Z) : ST W bool :=
  if deadline =? no_deadline then ret false else let* t := now in ret (deadline <=? t).
End Common.

(** [static_cast<std::uint64_t>] of a duration in nanoseconds. *)
Definition elapsed (started now : Z) : Z := wrap64 (now - started).

(** The result is that of the request. *)
Definition correlated (r : ActiveExpertExecutionRequest) (c : ActiveExpertExecutionResult) : bool :=
  bool_decide (rs_identity c = ar_identity r) && (rs_request_id c =? av_request_id (ar_invocation r)) &&
  (rs_invocation_id c =? av_invocation_id (ar_invocation r)) &&
  (rs_selection_index c =? av_selection_index (ar_invocation r)).

(** ** The endpoint *)

Section Endpoint.
Context {W Executor E : Type} `{!SteadyClock W} `{!ActiveExpertExecutor W Executor E}.

Record EndpointState := mkEndpoint {
  es_request : ActiveExpertExecutionRequest;
  es_request_sha256 : list Z;
  es_request_wire_bytes : Z;
  es_execution : Handle E unit;
  es_started : Z;
  es_terminal : bool }.

(** What the handle of a submission shares: a result that is already known, or the state of
    an execution. *)
Inductive Submission : Type :=
| settled (result : ActiveExpertWireResult) (terminal : bool)
| executing (s : EndpointState).

Definition settle (execution : Handle E unit) (s : EndpointState) : EndpointState :=
  mkEndpoint (es_request s) (es_request_sha256 s) (es_request_wire_bytes s) execution (es_started s) true.

Definition keep (execution : Handle E unit) (s : EndpointState) : EndpointState :=
  mkEndpoint (es_request s) (es_request_sha256 s) (es_request_wire_bytes s) execution (es_started s) (es_terminal s).

(** [failed_result] with the size of the request frame. *)
Definition endpoint_failure (s : EndpointState) (status : Status) : ActiveExpertExecutionResult :=
  (failed_result (es_request s) (es_request_sha256 s) status)
    <| rs_evidence %= fun e => e <| wire_request_bytes := es_request_wire_bytes s |> |>.

(** What the endpoint makes of a completed execution: a result that is not of this request,
    or whose output is not what the request asked for, becomes a failure. [t] is the time
    of the completion, of which only a result without an execution time makes use. *)
Definition audit (s : EndpointState) (t : Z) (c : ActiveExpertExecutionResult) : ActiveExpertExecutionResult :=
  let v := ar_invocation (es_request s) in
  let c := if correlated (es_request s) c then c <| rs_request_sha256 := es_request_sha256 s |>
           else failed_result (es_request s) (es_request_sha256 s)
                  (mkStatus internal "active-expert owner result correlation mismatch") in
  let c := c <| rs_evidence %= fun e => e <| activation_input_bytes := buf_bytes (av_input v) |>
                                          <| wire_request_bytes := es_request_wire_bytes s |>
                                          <| owner_execution_ns %= fun n => if n =? 0 then elapsed (es_started s) t else n |> |> in
  if negb (status_ok (rs_status c)) then c
  else if negb (buffer_valid (rs_output c)) || negb (bool_decide (buf_abi (rs_output c) = av_output_abi v)) ||
          negb (buf_bytes (rs_output c) =? av_output_bytes v) ||
          negb (bool_decide (memory_domain (rs_output c) = bytes "host")) ||
          negb (weight_transport_bytes (rs_evidence c) =? 0)
  then endpoint_failure s (mkStatus internal "active-expert owner violated the output/weight contract")
  else c <| rs_evidence %= fun e => e <| activation_output_bytes := buf_bytes (rs_output c) |> |>.

Definition submission_poll (p : Submission)
  : ST (ActiveExpertExecutorTelemetry * W) (option ActiveExpertWireResult * Submission) :=
  match p with
  | settled result terminal => ret (if terminal then None else Some result, settled result true)
  | executing s =>
    if es_terminal s then ret (None, p)
    else
      let* late := inner (expired (av_deadline (ar_invocation (es_request s)))) in
      if late : bool then
        let* execution := inner (handle_cancel (es_execution s)) in
        count (fun t => one_deadline (one_failed t)) ;*
        let* e := lift (encode_response (endpoint_failure s
                     (mkStatus deadline_exceeded "active-expert owner execution deadline expired"))) in
        let '(encoded, _, response) := e in
        when (status_ok encoded) (count (response_wired (Z.of_nat (length response)))) ;*
        ret (Some (mkWireResult encoded response), executing (settle execution s))
      else if negb (handle_valid (es_execution s)) then
        count one_failed ;*
        let* e := lift (encode_response (endpoint_failure s
                     (mkStatus internal "active-expert owner returned no execution handle"))) in
        let '(encoded, _, response) := e in
        ret (Some (mkWireResult encoded response), executing (settle (es_execution s) s))
      else
        let* q := inner (handle_poll (es_execution s)) in
        let '(completed, execution) := q in
        match completed with
        | None => ret (None, executing (keep execution s))
        | Some completed =>
          let* t := inner now in
          let* e := lift (encode_response (audit s t completed)) in
          let '(encoded, completed, response) := e in
          if negb (status_ok encoded) then
            count one_failed ;* ret (Some (mkWireResult encoded []), executing (settle execution s))
          else
            count (add_completion (rs_evidence completed)) ;*
            count (if status_ok (rs_status completed) then one_completed else one_failed) ;*
            ret (Some (mkWireResult success response), executing (settle execution s))
        end
  end.

Definition submission_cancel (p : Submission) : ST (ActiveExpertExecutorTelemetry * W) Submission :=
  match p with
  | settled result _ => ret (settled result true)
  | executing s =>
    if es_terminal s then ret p
    else
      let* execution := inner (handle_cancel (es_execution s)) in
      count one_cancelled ;* ret (executing (settle execution s))
  end.

#[export] Instance submission_callbacks
  : Callbacks (ActiveExpertExecutorTelemetry * W) Submission ActiveExpertWireResult :=
  {| call_poll := submission_poll; call_cancel := submission_cancel |}.

(** [ActiveExpertWireEndpoint::submit]. The decoder may read the clock twice. *)
Definition submit (registry : list (ActiveExpertExecutorDefinition Executor)) (frame : list Z)
  : ST (ActiveExpertExecutorTelemetry * W) (Handle Submission unit) :=
  let size := Z.of_nat (length frame) in
  let* now1 := inner now in
  let* now2 := inner now in
  let* decoded := lift (decode_active_expert_request now1 now2 frame) in
  if negb (status_ok (de_status decoded)) then
    when (bool_decide (code (de_status decoded) = checksum_mismatch)) (count one_checksum) ;*
    ret (handle_of (settled (mkWireResult (de_status decoded) []) false) tt)
  else
    let '(selected, executor) := select registry (ar_identity (de_request decoded)) in
    if negb (status_ok selected) then
      let result := (failed_result (de_request decoded) (de_request_sha256 decoded) selected)
                      <| rs_evidence %= fun e => e <| wire_request_bytes := size |> |> in
      let* e := lift (encode_response result) in
      let '(encoded, _, response) := e in
      count one_request ;* count one_failed ;* count (request_wired size) ;*
      count (response_wired (Z.of_nat (length response))) ;*
      ret (handle_of (settled (mkWireResult encoded response) false) tt)
    else
      let* started := inner now in
      match executor with
      | None => throw (undefined_behavior "null executor")
      | Some executor =>
        let* execution := inner (executor_execute executor (de_request decoded)) in
        count one_request ;*
        count (input_read (buf_bytes (av_input (ar_invocation (de_request decoded))))) ;*
        count (request_wired size) ;*
        ret (handle_of (executing (mkEndpoint (de_request decoded) (de_request_sha256 decoded) size execution started
                                     false)) tt)
      end.
End Endpoint.
Arguments EndpointState : clear implicits.
Arguments Submission : clear implicits.

(** ** The remote executor *)

Section Remote.
Context {W Transport T : Type} `{!SteadyClock W} `{!ActiveExpertTransport W Transport T}.

(** The transport is a pointer that may be null. *)
Record RemoteActiveExpertExecutor := mkRemote {
  re_owner : list Z;
  re_transport : option Transport }.

Record RemoteState := mkRemoteState {
  ms_request : ActiveExpertExecutionRequest;
  ms_request_sha256 : list Z;
  ms_wire_request_bytes : Z;
  ms_transport : Handle T unit;
  ms_started : Z;
  ms_terminal : bool }.

(** What the handle of an execution shares: a result that is already known
    ([completed_execution]), or the state of a transmission. *)
Inductive Execution : Type :=
| completed (result : ActiveExpertExecutionResult) (terminal : bool)
| transmitted (s : RemoteState).

Definition arrive (transport : Handle T unit) (terminal : bool) (s : RemoteState) : RemoteState :=
  mkRemoteState (ms_request s) (ms_request_sha256 s) (ms_wire_request_bytes s) transport (ms_started s) terminal.

Definition remote_failure (s : RemoteState) (status : Status) : ActiveExpertExecutionResult :=
  failed_result (ms_request s) (ms_request_sha256 s) status.

(** The response is that of the request, and its output what the request asked for. *)
Definition response_matches (s : RemoteState) (r : ActiveExpertExecutionResult) : bool :=
  let v := ar_invocation (ms_request s) in
  correlated (ms_request s) r && constant_time_equal (rs_request_sha256 r) (ms_request_sha256 s) &&
  (weight_transport_bytes (rs_evidence r) =? 0) &&
  negb (status_ok (rs_status r) &&
        (negb (bool_decide (buf_abi (rs_output r) = av_output_abi v)) ||
         negb (buf_bytes (rs_output r) =? av_output_bytes v))).

(** A failed frame or decoder: the failure of the request, and whether it was the
    checksum. *)
Definition wire_failed (s : RemoteState) (status : Status)
  : ST (ActiveExpertExecutorTelemetry * W) ActiveExpertExecutionResult :=
  when (bool_decide (code status = checksum_mismatch)) (count one_checksum) ;*
  count one_failed ;*
  ret (remote_failure s status).

(** What the executor makes of a wire result. *)
Definition accept (s : RemoteState) (wire : ActiveExpertWireResult)
  : ST (ActiveExpertExecutorTelemetry * W) ActiveExpertExecutionResult :=
  if negb (status_ok (wr_status wire)) then wire_failed s (wr_status wire)
  else
    let '(status, result) := decode_response (wr_frame wire) in
    if negb (status_ok status) then wire_failed s status
    else if negb (response_matches s result) then
      count one_failed ;*
      ret (remote_failure s (mkStatus checksum_mismatch "remote active-expert response correlation mismatch"))
    else
      let* t := inner now in
      let result := result <| rs_evidence %= fun e =>
        e <| wire_request_bytes := ms_wire_request_bytes s |>
          <| wire_response_bytes := Z.of_nat (length (wr_frame wire)) |>
          <| transport_wait_ns := elapsed (ms_started s) t |> |> in
      count (add_completion (rs_evidence result)) ;*
      count (if status_ok (rs_status result) then one_completed else one_failed) ;*
      ret result.

Definition execution_poll (p : Execution)
  : ST (ActiveExpertExecutorTelemetry * W) (option ActiveExpertExecutionResult * Execution) :=
  match p with
  | completed result terminal => ret (if terminal then None else Some result, completed result true)
  | transmitted s =>
    if ms_terminal s then ret (None, p)
    else
      let* late := inner (expired (av_deadline (ar_invocation (ms_request s)))) in
      if late : bool then
        let* transport := inner (handle_cancel (ms_transport s)) in
        count (fun t => one_deadline (one_failed t)) ;*
        ret (Some (remote_failure s (mkStatus deadline_exceeded "remote active-expert deadline expired")),
             transmitted (arrive transport true s))
      else
        let* q := inner (handle_poll (ms_transport s)) in
        let '(wire, transport) := q in
        match wire with
        | None => ret (None, transmitted (arrive transport false s))
        | Some wire =>
          let* result := accept s wire in
          ret (Some result, transmitted (arrive transport true s))
        end
  end.

Definition execution_cancel (p : Execution) : ST (ActiveExpertExecutorTelemetry * W) Execution :=
  match p with
  | completed result _ => ret (completed result true)
  | transmitted s =>
    if ms_terminal s then ret p
    else
      let* transport := inner (handle_cancel (ms_transport s)) in
      count one_cancelled ;* ret (transmitted (arrive transport true s))
  end.

(** [RemoteActiveExpertExecutor::execute]. The encoder may read the clock twice. *)
Definition execute (e : RemoteActiveExpertExecutor) (request : ActiveExpertExecutionRequest)
  : ST (ActiveExpertExecutorTelemetry * W) (Handle Execution unit) :=
  match re_transport e with
  | None => ret None
  | Some transport =>
    if bool_decide (re_owner e = []) then ret None
    else
      count one_request ;*
      let* now1 := inner now in
      let* now2 := inner now in
      let* encoded := lift (encode_active_expert_request now1 now2 request) in
      if negb (status_ok (en_status encoded)) then
        count one_failed ;*
        when (bool_decide (code (en_status encoded) = deadline_exceeded)) (count one_deadline) ;*
        ret (handle_of (completed (failed_result request zero_digest (en_status encoded)) false) tt)
      else
        let wire_bytes := Z.of_nat (length (en_frame encoded)) in
        let* handle := inner (transport_submit transport (re_owner e) (en_frame encoded)
                                (av_deadline (ar_invocation request))) in
        if negb (handle_valid handle) then
          count one_failed ;*
          ret (handle_of (completed (failed_result request (en_request_sha256 encoded)
                 (mkStatus backpressure "active-expert transport rejected the invocation")) false) tt)
        else
          count (input_read (buf_bytes (av_input (ar_invocation request)))) ;*
          count (request_wired wire_bytes) ;*
          let* started := inner now in
          ret (handle_of (transmitted (mkRemoteState request (en_request_sha256 encoded) wire_bytes handle started
                                         false)) tt)
  end.

(** A remote executor is itself an executor. *)
#[export] Instance remote_executor
  : ActiveExpertExecutor (ActiveExpertExecutorTelemetry * W) RemoteActiveExpertExecutor Execution :=
  {| executor_execute := execute;
     executor_callbacks := {| call_poll := execution_poll; call_cancel := execution_cancel |} |}.
End Remote.
Arguments RemoteActiveExpertExecutor : clear implicits.
Arguments RemoteState : clear implicits.
Arguments Execution : clear implicits.
