(* ===== verification/ActiveExpertWireTheorems.v ===== *)
(** What is proved of [active_expert_executor.cpp] as a whole: an executor behind a transport
    and an endpoint keeps the promise of the executor that runs at the owner, and the
    telemetry accounts for every request exactly once. *)

From Stdlib Require Import String.
From S2P Require Import Prelude.
From S2P Require Import Storage.
From S2P Require Import Text.
From S2P Require Import Sha256.
From S2P Require Import Handles.
From S2P Require Import ActiveExpert.
From S2P Require Import ActiveExpertTheorems.
From S2P Require Import ActiveExpertWire.

#[local] Open Scope bool_scope.

(** ** Encoders that succeed *)

(** A request that is encoded satisfied every condition for being sent. *)
Lemma encoded_sendable now1 now2 r :
  request_typed r -> 0 <= now2 ->
  exists e, encode_active_expert_request now1 now2 r = Ok e /\
    (status_ok (en_status e) = true -> sendable now1 now2 r).
Proof.
  intros Ht Hn. unfold encode_active_expert_request.
  destruct (status_ok (validate_identity _)) eqn:Hi; cbn [negb]; [|eexists; split; [done|cbn; congruence]].
  destruct (status_ok (validate_invocation _ _)) eqn:Hv; cbn [negb]; [|eexists; split; [done|cbn; congruence]].
  destruct (host_accessible _) eqn:Hh; cbn [negb]; [|eexists; split; [done|done]].
  destruct (_ || _) eqn:Etoo; [eexists; split; [done|done]|].
  unfold too_long in Etoo. rewrite !orb_false_iff, !Z.ltb_ge in Etoo. destruct Etoo as ((((Hc & Ha) & Ho) & Hib) & Hob).
  pose proof Hv as (_ & _ & _ & _ & Hb & _ & _ & _)%validate_invocation_ok.
  destruct (buffer_view_typed _ Hb (rt_input _ Ht)) as (Ev & El & _).
  assert (exists budget, deadline_budget now2 (av_deadline (ar_invocation r)) = Ok budget /\
    (budget <> 0 -> av_deadline (ar_invocation r) = no_deadline \/ now2 < av_deadline (ar_invocation r)))
    as (budget & Eb & Hd).
  { unfold deadline_budget. destruct (Z.eqb_spec (av_deadline (ar_invocation r)) no_deadline); [eauto|].
    destruct (Z.leb_spec (av_deadline (ar_invocation r)) now2); [by exists 0|].
    pose proof (rt_deadline _ Ht). rewrite (proj2 (Z.ltb_ge _ _)) by lia. eauto. }
  rewrite Eb. cbn [obind]. destruct (Z.eqb_spec budget 0) as [?|Hb0]; [eexists; split; [done|done]|].
  rewrite Ev. cbn [obind]. destruct (Z.ltb_spec kMaximumFrameBytes
    (Z.of_nat (length (request_fields r budget (default [] (buf_data (av_input (ar_invocation r)))) ++
                       sha256 (request_fields r budget (default [] (buf_data (av_input (ar_invocation r)))))))))
    as [?|Hs]; [eexists; split; [done|done]|].
  eexists. split; [done|]. intros _. split; auto; [by split_and!|].
  rewrite length_app, length_sha256 in Hs. rewrite (length_request_fields r 0 budget _ (input_data r)) by done.
  unfold input_data. lia.
Qed.

(** A result that is encoded satisfied every condition for being sent, and is decoded. *)
Lemma encoded_response r :
  result_typed r -> Z.of_nat (length (id_capability (rs_identity r))) <= kMaximumStringBytes ->
  exists status final frame,
    encode_response r = Ok (status, final, frame) /\
    (status_ok status = true ->
     respondable r /\ final = with_wire_size (Z.of_nat (length frame)) r /\
     decode_response frame = (success, returned final)).
Proof.
  intros Ht Hc. unfold encode_response.
  destruct (_ || _) eqn:E1; [by eexists _, _, _|].
  destruct (_ && _) eqn:E2; [by eexists _, _, _|].
  destruct (too_long _ || _) eqn:E3; [by eexists _, _, _|].
  rewrite !orb_false_iff, !Z.eqb_neq, !negb_false_iff, Z.eqb_eq in E1. destruct E1 as ((((Hi & Hr) & Hv) & Hg) & Hw).
  unfold too_long in E3. apply orb_false_iff in E3 as [Hm%Z.ltb_ge Ha].
  assert (respondable r) as Hresp.
  { split; auto. intros Hok. rewrite Hok in E2, Ha. cbn [andb] in E2, Ha.
    apply orb_false_iff in E2 as [Hb%negb_false_iff Hd%negb_false_iff%bool_decide_eq_true].
    apply Z.ltb_ge in Ha. done. }
  rewrite encode_once by done. cbn [obind]. rewrite length_app, length_sha256, Nat2Z.inj_add.
  set (n := Z.of_nat (length (response_fields r)) + Z.of_nat 32).
  change (r <| rs_evidence %= _ |>) with (with_wire_size n r).
  destruct (decide (n <= kMaximumFrameBytes)) as [Hs|Hs].
  - destruct (sent_response r Hresp ltac:(lia)) as (frame & He & Hd & Hf).
    assert (Z.of_nat (length frame) = n) as En.
    { rewrite Hf, length_app, length_sha256, length_response_with_size. lia. }
    rewrite En in *. rewrite encode_once.
    2: { apply respondable_with_size; [|done]. unfold fits, kMaximumFrameBytes in *. lia. }
    cbn [obind]. rewrite <- Hf, (proj2 (Z.ltb_ge _ _)) by lia.
    eexists success, _, frame. split; [done|]. intros _. by rewrite En.
  - rewrite encode_once_output; [|intros Hok; by apply (rp_output _ Hresp)|apply Ht]. cbn [obind].
    rewrite length_app, length_sha256, length_response_with_size, Nat2Z.inj_add. fold n.
    rewrite (proj2 (Z.ltb_lt _ _)) by lia. by eexists _, _, _.
Qed.

(** ** What executors promise *)

(** The steady clock has counted less than 146 years. *)
Class SteadyClockSpec (W : Type) `{!SteadyClock W} : Prop :=
  clock_range w : 0 <= (clock_now w).1 < 2 ^ 62.

(** An executor given a request that it [accepts] does not fail, and what its handle
    publishes keeps its [promise] for that request. *)
Class ExecutorSpec {W Executor E : Type} `{!ActiveExpertExecutor W Executor E}
    (accepts : ActiveExpertExecutionRequest -> Prop) (live : ActiveExpertExecutionRequest -> E -> Prop)
    (promise : ActiveExpertExecutionRequest -> ActiveExpertExecutionResult -> Prop) : Prop := {
  execute_spec e r w : accepts r -> wpe (executor_execute e r) (fun h _ => live_handle (live r) h) (fun _ => False) w;
  #[global] execution_spec r :: CallbacksSpec (live r) (promise r) }.

(** A success that is the request's and has the output that the request asked for. *)
Record honest (r : ActiveExpertExecutionRequest) (c : ActiveExpertExecutionResult) : Prop := {
  hn_correlated : correlated r c = true;
  hn_status : status_ok (rs_status c) = true;
  hn_valid : buffer_valid (rs_output c) = true;
  hn_abi : buf_abi (rs_output c) = av_output_abi (ar_invocation r);
  hn_bytes : buf_bytes (rs_output c) = av_output_bytes (ar_invocation r);
  hn_domain : memory_domain (rs_output c) = bytes "host";
  hn_weights : weight_transport_bytes (rs_evidence c) = 0 }.

(** The status and the output of [a] are those of [c]. *)
Definition same_outcome (c a : ActiveExpertExecutionResult) : Prop :=
  rs_status a = rs_status c /\
  rs_output a = wire_buffer (buf_abi (rs_output c)) (default [] (buf_data (rs_output c))).

(** A request as its owner gets it: all the same but the deadline and where the input is. *)
Definition carries (r r' : ActiveExpertExecutionRequest) : Prop :=
  exists deadline, r' = mkExecution (ar_identity r) (landed deadline r).

(** The promise of the remote executor: the result is always the request's, and a success
    is an honest result of the owner for the same request, with the same bytes. *)
Definition delivered (promise : ActiveExpertExecutionRequest -> ActiveExpertExecutionResult -> Prop)
    (r : ActiveExpertExecutionRequest) (a : ActiveExpertExecutionResult) : Prop :=
  correlated r a = true /\
  (status_ok (rs_status a) = true ->
   exists r' c, carries r r' /\ promise r' c /\ honest r' c /\ same_outcome c a).

Lemma correlated_failed r digest status : correlated r (failed_result r digest status) = true.
Proof. unfold correlated, failed_result. cbn. by rewrite bool_decide_eq_true_2, !Z.eqb_refl. Qed.

(** ** Steps of the two state machines *)

Section Steps.
Context {W : Type} `{!SteadyClock W}.

Lemma wpe_now (Q : Z -> W -> Prop) E w : (forall t w', Q t w') -> wpe now Q E w.
Proof. intros H. unfold now. by apply wpe_ask. Qed.

Lemma wpe_expired d (Q : bool -> W -> Prop) E w : (forall b w', Q b w') -> wpe (expired d) Q E w.
Proof.
  intros H. unfold expired. case_match; [by apply wpe_ret|]. apply wpe_bind, wpe_now. intros t w'. by apply wpe_ret.
Qed.

Lemma wpe_count f (Q : unit -> ActiveExpertExecutorTelemetry * W -> Prop) E w :
  (forall w', Q tt w') -> wpe (count f) Q E w.
Proof. intros H. unfold count. by apply wpe_modify. Qed.

Lemma wpe_count_if b f (Q : unit -> ActiveExpertExecutorTelemetry * W -> Prop) E w :
  (forall w', Q tt w') -> wpe (when b (count f)) Q E w.
Proof. intros H. apply wpe_when; intros _; [by apply wpe_count|done]. Qed.
End Steps.

(** [frame] carries the request [r], and its deadline is within the reach of the clock. *)
Record carried (r : ActiveExpertExecutionRequest) (frame : list Z) (budget : Z) (digest : list Z) : Prop := {
  cd_typed : request_typed r;
  cd_texts : texts_fit r;
  cd_input : buffer_valid (av_input (ar_invocation r)) = true;
  cd_digest : raw_valid 32 digest;
  cd_size : frame_size_ok frame;
  cd_reach : forall t, 0 <= t < 2 ^ 62 -> exists deadline, decode_deadline t budget = Ok deadline;
  cd_decodes now3 now4 :
    decode_active_expert_request now3 now4 frame =
    let! deadline := decode_deadline now3 budget in
    let status := validate_invocation now4 (landed deadline r) in
    if negb (status_ok status) then Ok (decode_failure status)
    else Ok (mkDecoded success (mkExecution (ar_identity r) (landed deadline r)) digest) }.

Definition frame_of (r : ActiveExpertExecutionRequest) (frame : list Z) : Prop :=
  exists budget digest, carried r frame budget digest.

(** What a response frame to [r] contains. *)
Definition good_reply (promise : ActiveExpertExecutionRequest -> ActiveExpertExecutionResult -> Prop)
    (r : ActiveExpertExecutionRequest) (wire : ActiveExpertWireResult) : Prop :=
  status_ok (wr_status wire) = true ->
  exists a, decode_response (wr_frame wire) = (success, a) /\
    (status_ok (rs_status a) = true -> exists c, promise r c /\ honest r c /\ same_outcome c a).

(** A transport takes frames to an owner: what comes back answers the request that the
    frame carries. *)
Class TransportSpec {W Transport T : Type} `{!ActiveExpertTransport W Transport T}
    (transport : Transport) (live : ActiveExpertExecutionRequest -> T -> Prop)
    (promise : ActiveExpertExecutionRequest -> ActiveExpertExecutionResult -> Prop) : Prop := {
  transport_submit_spec owner r frame deadline w : frame_of r frame ->
    wpe (transport_submit transport owner frame deadline) (fun h _ => live_handle (live r) h) (fun _ => False) w;
  #[global] transport_reply_spec r ::
    CallbacksSpec (live r) (fun wire => exists r', carries r r' /\ good_reply promise r' wire) }.

Section Owner.
Context {W Executor E : Type} `{!SteadyClock W} `{!ActiveExpertExecutor W Executor E}.
Context {accepts : ActiveExpertExecutionRequest -> Prop} {live : ActiveExpertExecutionRequest -> E -> Prop}.
Context {promise : ActiveExpertExecutionRequest -> ActiveExpertExecutionResult -> Prop}.
Context `{!ExecutorSpec (W:=W) (Executor:=Executor) accepts live promise}.
Hypothesis promise_typed : forall r c, promise r c -> result_typed c.

#[local] Notation good_reply := (good_reply promise).

Definition live_submission (r : ActiveExpertExecutionRequest) (p : Submission E) : Prop :=
  match p with
  | settled wire terminal => terminal = false /\ good_reply r wire
  | executing s =>
    es_terminal s = false /\ es_request s = r /\ request_typed r /\
    Z.of_nat (length (id_capability (ar_identity r))) <= kMaximumStringBytes /\
    raw_valid 32 (es_request_sha256 s) /\ fits 8 (es_request_wire_bytes s) /\ live_handle (live r) (es_execution s)
  end.

Lemma failed_typed r digest status :
  request_typed r -> raw_valid 32 digest -> result_typed (failed_result r digest status).
Proof.
  intros [? ? ? ? ? ? (_ & Hb & _) ? ?] Hd. split; auto; cbn.
  - unfold buffer_typed. cbn. split_and!; [apply Forall_nil_2|unfold fits; lia|done].
  - split. cbn.
    repeat (apply Forall_cons_2; [first [done | unfold fits; lia]|]). apply Forall_nil_2.
Qed.

Lemma elapsed_fits a b : fits 8 (elapsed a b).
Proof. unfold elapsed, fits, wrap64. apply Z.mod_pos_bound. lia. Qed.

Lemma wrap_fits (s : EndpointState E) status :
  request_typed (es_request s) -> raw_valid 32 (es_request_sha256 s) -> fits 8 (es_request_wire_bytes s) ->
  result_typed (@endpoint_failure E s status).
Proof.
  intros Hr Hd Hw. destruct (failed_typed _ _ status Hr Hd) as [? ? ? ? ? ? [He]]. split; auto. split.
  cbn in *. repeat (apply Forall_cons in He as [? He]).
  repeat (apply Forall_cons_2; [done|]). apply Forall_nil_2.
Qed.
(** The three steps of [audit]: whose result it is, the evidence, the output. *)
Definition claimed (s : EndpointState E) (c : ActiveExpertExecutionResult) : ActiveExpertExecutionResult :=
  if correlated (es_request s) c then c <| rs_request_sha256 := es_request_sha256 s |>
  else failed_result (es_request s) (es_request_sha256 s)
         (mkStatus internal "active-expert owner result correlation mismatch").

Definition measured (s : EndpointState E) (t : Z) (c : ActiveExpertExecutionResult) : ActiveExpertExecutionResult :=
  c <| rs_evidence %= fun e =>
    e <| activation_input_bytes := buf_bytes (av_input (ar_invocation (es_request s))) |>
      <| wire_request_bytes := es_request_wire_bytes s |>
      <| owner_execution_ns %= fun n => if n =? 0 then elapsed (es_started s) t else n |> |>.

Lemma claimed_typed (s : EndpointState E) c :
  request_typed (es_request s) -> raw_valid 32 (es_request_sha256 s) -> result_typed c ->
  result_typed (claimed s c) /\ rs_identity (claimed s c) = ar_identity (es_request s) /\
  (status_ok (rs_status (claimed s c)) = true -> correlated (es_request s) c = true).
Proof.
  intros Hr Hd Hc. unfold claimed. destruct (correlated _ _) eqn:E0.
  - split; [|split; [|done]].
    + destruct Hc. by split.
    + unfold correlated in E0. rewrite !andb_true_iff, bool_decide_eq_true in E0. apply E0.
  - by split; [apply failed_typed|].
Qed.

Lemma measured_typed (s : EndpointState E) t c :
  request_typed (es_request s) -> fits 8 (es_request_wire_bytes s) -> result_typed c -> result_typed (measured s t c).
Proof.
  intros Hr Hw [? ? ? ? ? ? [He]]. split; auto. cbn. split. cbn. destruct (rt_input _ Hr) as (_ & Hb & _).
  repeat (apply Forall_cons in He as [? He]).
  repeat (apply Forall_cons_2; [by first [assumption|case_match; [apply elapsed_fits|assumption]]|]).
  apply Forall_nil_2.
Qed.

Lemma audit_spec (s : EndpointState E) t c :
  request_typed (es_request s) -> raw_valid 32 (es_request_sha256 s) -> fits 8 (es_request_wire_bytes s) ->
  result_typed c ->
  result_typed (audit s t c) /\ rs_identity (audit s t c) = ar_identity (es_request s) /\
  (status_ok (rs_status (audit s t c)) = true ->
   honest (es_request s) c /\ rs_status (audit s t c) = rs_status c /\ rs_output (audit s t c) = rs_output c).
Proof.
  intros Hr Hd Hw Hc. destruct (claimed_typed s c Hr Hd Hc) as (Ht & Hi & Hcor).
  pose proof (measured_typed s t _ Hr Hw Ht) as Hm.
  unfold audit. fold (claimed s c). fold (measured s t (claimed s c)).
  change (rs_status (measured s t (claimed s c))) with (rs_status (claimed s c)).
  change (rs_output (measured s t (claimed s c))) with (rs_output (claimed s c)).
  destruct (status_ok (rs_status (claimed s c))) eqn:Eok; cbn [negb].
  2: { split; [done|]. split; [done|]. change (rs_status (measured s t (claimed s c))) with (rs_status (claimed s c)). congruence. }
  specialize (Hcor eq_refl). destruct (_ || _) eqn:E0.
  { split; [by apply wrap_fits|]. split; [done|]. by vm_compute. }
  rewrite !orb_false_iff, !negb_false_iff, !bool_decide_eq_true, !Z.eqb_eq in E0.
  destruct E0 as ((((Hv & Ha) & Hb) & Hdom) & Hwt).
  unfold claimed in *. rewrite Hcor in *. cbn in Eok, Hv, Ha, Hb, Hdom, Hwt.
  split; [|split; [done|intros _; split; [by split|done]]].
  destruct Hm as [? ? ? ? ? ? [He]]. split; auto. split. cbn in *.
  destruct Hc as [? ? ? ? ? (_ & Hfit & _) _].
  repeat (apply Forall_cons in He as [? He]).
  repeat (apply Forall_cons_2; [assumption|]). apply Forall_nil_2.
Qed.

Lemma reply_good r a :
  result_typed a -> Z.of_nat (length (id_capability (rs_identity a))) <= kMaximumStringBytes ->
  (status_ok (rs_status a) = true ->
   exists c, promise r c /\ honest r c /\ rs_status a = rs_status c /\ rs_output a = rs_output c) ->
  exists status final frame, encode_response a = Ok (status, final, frame) /\ good_reply r (mkWireResult status frame).
Proof.
  intros Ht Hc Ha. destruct (encoded_response a Ht Hc) as (status & final & frame & He & Hs).
  exists status, final, frame. split; [done|]. intros Hok. destruct (Hs Hok) as (_ & -> & Hd).
  eexists. split; [exact Hd|]. intros Hok'. destruct (Ha Hok') as (c & Hp & Hh & Es & Eo).
  exists c. split; [done|]. split; [done|]. unfold same_outcome. rewrite <- Eo, <- Es. split; [done|].
  change (rs_output (returned (with_wire_size (Z.of_nat (length frame)) a)))
    with (if status_ok (rs_status a) then wire_buffer (buf_abi (rs_output a)) (default [] (buf_data (rs_output a)))
          else empty_buffer).
  by rewrite Es, (hn_status _ _ Hh).
Qed.

Lemma failure_reply s status :
  request_typed (es_request s) -> Z.of_nat (length (id_capability (ar_identity (es_request s)))) <= kMaximumStringBytes ->
  raw_valid 32 (es_request_sha256 s) -> fits 8 (es_request_wire_bytes s) -> status_ok status = false ->
  exists st final frame, encode_response (@endpoint_failure E s status) = Ok (st, final, frame) /\
    good_reply (es_request s) (mkWireResult st frame).
Proof.
  intros Hr Hc Hd Hw Hs. apply reply_good; [by apply wrap_fits|done|].
  change (rs_status (endpoint_failure s status)) with status. congruence.
Qed.

#[export] Instance submission_spec r : CallbacksSpec (live_submission r) (good_reply r).
Proof.
  split.
  - intros [wire terminal|s] w; cbn [live_submission call_poll submission_callbacks submission_poll].
    { intros [-> Hg]. by apply wpe_ret. }
    intros (Ht & <- & Hr & Hc & Hd & Hw & Hl). rewrite Ht.
    apply wpe_bind, wpe_inner, wpe_expired. intros late w1. destruct late.
    { apply wpe_bind, wpe_inner. eapply wpe_mono; [by apply handle_cancel_spec|]. intros h w2 _.
      apply wpe_bind, wpe_count. intros w3.
      destruct (failure_reply s (mkStatus deadline_exceeded "active-expert owner execution deadline expired"))
        as (st & final & frame & -> & Hg); [done..|].
      apply wpe_bind, wpe_lift, wpe_bind, wpe_count_if. intros w4. by apply wpe_ret. }
    destruct (handle_valid (es_execution s)); cbn [negb].
    2: { apply wpe_bind, wpe_count. intros w3.
      destruct (failure_reply s (mkStatus internal "active-expert owner returned no execution handle"))
        as (st & final & frame & -> & Hg); [done..|].
      apply wpe_bind, wpe_lift. by apply wpe_ret. }
    apply wpe_bind, wpe_inner. eapply wpe_mono; [by apply handle_poll_spec|].
    intros [[c|] h] w2 [Hg Hlive]; cbn in Hg, Hlive; cbn [fst snd]; [|by apply wpe_ret].
    apply wpe_bind, wpe_inner, wpe_now. intros t w3.
    destruct (audit_spec s t c Hr Hd Hw) as (Ha & Hi & Hhon); [by eapply promise_typed, Hg|].
    destruct (reply_good (es_request s) (audit s t c)) as (st & final & frame & -> & Hrep);
      [done|by rewrite Hi|intros Hok; destruct (Hhon Hok) as (? & ? & ?); eauto 6|].
    apply wpe_bind, wpe_lift. destruct (status_ok st) eqn:Est; cbn [negb].
    + apply wpe_bind, wpe_count. intros w4. apply wpe_bind, wpe_count. intros w5. apply wpe_ret.
      intros _. by apply Hrep.
    + apply wpe_bind, wpe_count. intros w4. apply wpe_ret. cbn. intros Hok. cbn in Hok. congruence.
  - intros [wire terminal|s] w; cbn [live_submission call_cancel submission_callbacks submission_cancel].
    { intros _. by apply wpe_ret. }
    intros (Ht & <- & Hr & Hc & Hd & Hw & Hl). rewrite Ht. apply wpe_bind, wpe_inner.
    eapply wpe_mono; [by apply handle_cancel_spec|]. intros h w2 _. apply wpe_bind, wpe_count. intros w3. by apply wpe_ret.
Qed.

(** The executors of the registry, as [add_executor] keeps them. *)
Definition executors_present (registry : list (ActiveExpertExecutorDefinition Executor)) : Prop :=
  Forall (fun d => is_Some (ed_implementation d)) registry.

Lemma select_present registry i status executor :
  executors_present registry -> select registry i = (status, executor) -> status_ok status = true -> is_Some executor.
Proof.
  intros Hall. unfold select. destruct (status_ok (validate_identity i)) eqn:Hi; cbn [negb]; [|intros [= <- <-]; congruence].
  assert (forall (l : list (ActiveExpertExecutorDefinition Executor)) best d,
    Forall (fun d => is_Some (ed_implementation d)) l ->
    (forall b, best = Some b -> is_Some (ed_implementation b)) -> select_executor i l best = Ok (Some d) ->
    is_Some (ed_implementation d)) as Hsel.
  { induction l as [|c l IH]; intros best d Hl Hbest; cbn.
    { intros [= ->]. by apply Hbest. }
    apply Forall_cons in Hl as [Hc Hl]. case_match; [by apply IH|].
    destruct (match ed_validate c with Some _ => _ | None => _ end) as [st|]; cbn; [|done].
    case_match; [by apply IH|]. apply IH; [done|]. intros b. case_match; [|by apply Hbest]. by intros [= <-]. }
  destruct (select_executor i registry None) as [[d|]|e] eqn:E0; intros [= <- <-]; [|by intros ?%status_ok_true..].
  intros _. by apply (Hsel registry None d).
Qed.

Hypothesis accepts_typed : forall r, request_typed r -> accepts r.

Definition live_loop (r : ActiveExpertExecutionRequest) (p : Submission E) : Prop :=
  exists r', carries r r' /\ live_submission r' p.

Lemma landed_typed deadline r :
  request_typed r -> deadline <= INT64_MAX -> buffer_valid (av_input (ar_invocation r)) = true ->
  request_typed (mkExecution (ar_identity r) (landed deadline r)).
Proof.
  intros [? ? ? ? ? ? Hin ? ?] Hd Hb. destruct (buffer_view_typed _ Hb Hin) as (_ & Hl & _ & Hbytes & _).
  destruct Hin as (Hab & Hn & _). split; auto. unfold buffer_typed. cbn. unfold input_data. rewrite Hl.
  split_and!; auto. intros ? [= <-]. auto.
Qed.

Lemma carries_landed deadline r : carries r (mkExecution (ar_identity r) (landed deadline r)).
Proof. by exists deadline. Qed.

Lemma failing_reply r status frame : status_ok status = false -> good_reply r (mkWireResult status frame).
Proof. intros Hs Hok. cbn in Hok. congruence. Qed.

(** The endpoint on a frame that carries a request. *)
Lemma submit_spec `{!SteadyClockSpec W} registry r frame w :
  executors_present registry -> frame_of r frame ->
  wpe (submit registry frame) (fun h _ => live_handle (live_loop r) h) (fun _ => False) w.
Proof.
  intros Hreg (budget & digest & [Hr (Hc & _) Hb Hg Hsize Hover Hdec]). unfold submit.
  apply wpe_bind, wpe_inner, wpe_ask. apply wpe_bind, wpe_inner, wpe_now. intros now4 w2.
  destruct (Hover (clock_now w.2).1) as [deadline Ed]; [apply clock_range|]. rewrite Hdec, Ed. cbn [obind].
  pose proof (landed_typed deadline r Hr (decode_deadline_bounded _ _ _ Ed) Hb) as Ht'.
  set (r' := mkExecution (ar_identity r) (landed deadline r)) in *.
  destruct (status_ok (validate_invocation now4 (landed deadline r))) eqn:Hv; cbn [negb]; apply wpe_bind, wpe_lift.
  2: { cbn [de_status decode_failure]. rewrite Hv. cbn [negb]. apply wpe_bind, wpe_count_if. intros w3. apply wpe_ret.
       apply live_handle_of. exists r'. split; [apply carries_landed|]. split; [done|]. by apply failing_reply. }
  cbn [de_status de_request de_request_sha256 negb].
  destruct (select registry (ar_identity r')) as [selected executor] eqn:Esel.
  destruct (status_ok selected) eqn:Hsel; cbn [negb].
  - apply wpe_bind, wpe_inner, wpe_now. intros started w3.
    destruct (select_present _ _ _ _ Hreg Esel Hsel) as [e ->].
    apply wpe_bind, wpe_inner. eapply wpe_mono; [by apply execute_spec, accepts_typed|]. intros h w4 Hh.
    apply wpe_bind, wpe_count. intros w5. apply wpe_bind, wpe_count. intros w6. apply wpe_bind, wpe_count. intros w7.
    apply wpe_ret, live_handle_of. exists r'. split; [apply carries_landed|]. cbn. split_and!; try done;
      unfold fits, frame_size_ok, kMaximumFrameBytes in *; lia.
  - pose proof (failure_reply (mkEndpoint r' digest (Z.of_nat (length frame)) (None : Handle E unit) 0 false) selected) as Hf.
    destruct Hf as (st & final & resp & He & Hrep); [done..| |done|].
    { unfold fits. unfold frame_size_ok, kMaximumFrameBytes in Hsize. cbn. lia. }
    unfold endpoint_failure in He. cbn [es_request es_request_sha256 es_request_wire_bytes] in He. rewrite He.
    apply wpe_bind, wpe_lift.
    apply wpe_bind, wpe_count. intros w4. apply wpe_bind, wpe_count. intros w5. apply wpe_bind, wpe_count. intros w6.
    apply wpe_bind, wpe_count. intros w7. apply wpe_ret, live_handle_of. exists r'. split; [apply carries_landed|done].
Qed.
#[export] Instance live_loop_spec r :
  CallbacksSpec (live_loop r) (fun wire => exists r', carries r r' /\ good_reply r' wire).
Proof.
  split.
  - intros p w (r' & Hr' & Hp). eapply wpe_mono; [by apply (poll_spec (CallbacksSpec := submission_spec r'))|].
    intros [[wire|] p'] w'; cbn; unfold live_loop; eauto.
  - intros p w (r' & Hr' & Hp). by apply (cancel_spec (CallbacksSpec := submission_spec r')).
Qed.
End Owner.

(** ** The endpoint as a transport

    An endpoint in the process of the caller; the frames go through unchanged. *)

#[export] Instance clock_beside {W} `{!SteadyClock W} : SteadyClock (ActiveExpertExecutorTelemetry * W) :=
  {| clock_now w := let '(t, w') := clock_now w.2 in (t, (w.1, w')) |}.

#[export] Instance clock_beside_spec {W} `{!SteadyClock W} `{!SteadyClockSpec W} :
  SteadyClockSpec (ActiveExpertExecutorTelemetry * W).
Proof. intros w. cbn. pose proof (clock_range w.2). by destruct (clock_now w.2). Qed.

#[export] Instance loopback {W Executor E} `{!SteadyClock W} `{!ActiveExpertExecutor W Executor E} :
  ActiveExpertTransport (ActiveExpertExecutorTelemetry * W) (list (ActiveExpertExecutorDefinition Executor)) (Submission E) :=
  {| transport_submit registry owner frame deadline := submit registry frame;
     transport_callbacks := submission_callbacks |}.

(** ** The remote executor keeps the owner's promise *)

Section Caller.
Context {W Transport T : Type} `{!SteadyClock W} `{!SteadyClockSpec W} `{!ActiveExpertTransport W Transport T}.
Context {transport : Transport} {live : ActiveExpertExecutionRequest -> T -> Prop}.
Context {promise : ActiveExpertExecutionRequest -> ActiveExpertExecutionResult -> Prop}.
Context `{!TransportSpec (W:=W) transport live promise}.

(** The requests for which no conversion of a deadline overflows. *)
Definition reachable_deadline (r : ActiveExpertExecutionRequest) : Prop :=
  request_typed r /\ (av_deadline (ar_invocation r) = no_deadline \/ av_deadline (ar_invocation r) < 2 ^ 62).

Definition live_execution (r : ActiveExpertExecutionRequest) (p : Execution T) : Prop :=
  match p with
  | completed result terminal => terminal = false /\ delivered promise r result
  | transmitted s =>
    ms_terminal s = false /\ ms_request s = r /\ raw_valid 32 (ms_request_sha256 s) /\
    live_handle (live r) (ms_transport s)
  end.

Lemma delivered_failure r digest status :
  status_ok status = false -> delivered promise r (failed_result r digest status).
Proof. intros Hs. split; [apply correlated_failed|]. cbn. congruence. Qed.

Lemma wire_failed_spec s status (w : ActiveExpertExecutorTelemetry * W) :
  status_ok status = false ->
  wpe (wire_failed s status) (fun a _ => delivered promise (@ms_request T s) a) (fun _ => False) w.
Proof.
  intros Hs. unfold wire_failed. apply wpe_bind, wpe_count_if. intros w1. apply wpe_bind, wpe_count. intros w2.
  apply wpe_ret. by apply delivered_failure.
Qed.

Lemma accept_spec s wire (w : ActiveExpertExecutorTelemetry * W) :
  (exists r', carries (@ms_request T s) r' /\ good_reply promise r' wire) ->
  wpe (accept s wire) (fun a _ => delivered promise (ms_request s) a) (fun _ => False) w.
Proof.
  intros (r' & Hr' & Hg). unfold accept. destruct (status_ok (wr_status wire)) eqn:Hw; cbn [negb].
  2: by apply wire_failed_spec.
  destruct (Hg Hw) as (a & -> & Ha). cbn [negb]. change (status_ok success) with true. cbn [negb].
  destruct (response_matches s a) eqn:Hm; cbn [negb].
  2: { apply wpe_bind, wpe_count. intros w1. apply wpe_ret. by apply delivered_failure. }
  apply wpe_bind, wpe_inner, wpe_now. intros t w1. apply wpe_bind, wpe_count. intros w2.
  apply wpe_bind, wpe_count. intros w3. apply wpe_ret. unfold response_matches in Hm. rewrite !andb_true_iff in Hm.
  destruct Hm as (((Hc & _) & _) & _). split; [exact Hc|]. intros Hok. destruct (Ha Hok) as (c & Hp & Hh & Hs).
  by exists r', c.
Qed.

#[export] Instance execution_callbacks_spec r : CallbacksSpec (live_execution r) (delivered promise r).
Proof.
  split.
  - intros [result terminal|s] w; cbn [live_execution call_poll executor_callbacks remote_executor execution_poll].
    { intros [-> Hd]. by apply wpe_ret. }
    intros (Ht & <- & Hd & Hl). rewrite Ht. apply wpe_bind, wpe_inner, wpe_expired. intros late w1. destruct late.
    { apply wpe_bind, wpe_inner. eapply wpe_mono; [by apply handle_cancel_spec|]. intros h w2 _.
      apply wpe_bind, wpe_count. intros w3. apply wpe_ret. by apply delivered_failure. }
    apply wpe_bind, wpe_inner. eapply wpe_mono; [by apply handle_poll_spec|].
    intros [[wire|] h] w2 [Hg Hlive]; cbn in Hg, Hlive; cbn [fst snd]; [|by apply wpe_ret].
    apply wpe_bind. eapply wpe_mono; [by apply accept_spec, Hg|]. intros a w3 Ha. by apply wpe_ret.
  - intros [result terminal|s] w; cbn [live_execution call_cancel executor_callbacks remote_executor execution_cancel].
    { intros _. by apply wpe_ret. }
    intros (Ht & <- & Hd & Hl). rewrite Ht. apply wpe_bind, wpe_inner.
    eapply wpe_mono; [by apply handle_cancel_spec|]. intros h w2 _. apply wpe_bind, wpe_count. intros w3. by apply wpe_ret.
Qed.

Lemma execute_keeps owner r (w : ActiveExpertExecutorTelemetry * W) :
  reachable_deadline r ->
  wpe (execute (mkRemote owner (Some transport)) r) (fun h _ => live_handle (live_execution r) h) (fun _ => False) w.
Proof.
  intros [Hr Hd]. unfold execute. cbn [re_transport re_owner].
  case_bool_decide; [by apply wpe_ret|]. apply wpe_bind, wpe_count. intros w1.
  apply wpe_bind, wpe_inner, wpe_now. intros now1 w2. apply wpe_bind, wpe_inner, wpe_ask.
  cbn [fst snd]. pose proof (clock_range w2) as Hnow. set (now2 := (clock_now w2).1) in *.
  destruct (encoded_sendable now1 now2 r Hr ltac:(lia)) as (e & Ee & Hs). rewrite Ee. apply wpe_bind, wpe_lift.
  destruct (status_ok (en_status e)) eqn:He; cbn [negb].
  2: { apply wpe_bind, wpe_count. intros w3. apply wpe_bind, wpe_count_if. intros w4. apply wpe_ret, live_handle_of.
       split; [done|]. by apply delivered_failure. }
  specialize (Hs eq_refl).
  destruct (sent_request _ _ _ Hs) as (budget & frame & digest & Eb & Hb0 & Hsize & Hdig & _ & Ef & Hdec).
  rewrite Ee in Ef. injection Ef as ->. cbn [en_frame en_request_sha256].
  assert (frame_of r frame) as Hframe.
  { exists budget, digest. split; try done.
    - apply Hs.
    - by pose proof (sd_invocation _ _ _ Hs) as (_ & _ & _ & _ & ? & _)%validate_invocation_ok.
    - intros t Ht. destruct (decide (av_deadline (ar_invocation r) = no_deadline)) as [En|Hne].
      + rewrite En in Eb. injection Eb as <-. by eexists.
      + destruct Hd as [?|Hd]; [done|]. destruct (sd_deadline _ _ _ Hs) as [?|Hlt]; [done|].
        rewrite (decode_budget now2 t _ budget ltac:(lia) (rt_deadline _ Hr) Hne Hlt Eb).
        rewrite (proj2 (Z.ltb_ge _ _)) by (unfold INT64_MAX; lia). by eexists. }
  apply wpe_bind, wpe_inner. eapply wpe_mono; [by apply transport_submit_spec|]. intros h w3 Hh.
  destruct (handle_valid h); cbn [negb].
  - apply wpe_bind, wpe_count. intros w4. apply wpe_bind, wpe_count. intros w5. apply wpe_bind, wpe_inner, wpe_now.
    intros started w6. by apply wpe_ret, live_handle_of.
  - apply wpe_bind, wpe_count. intros w4. apply wpe_ret, live_handle_of. split; [done|]. by apply delivered_failure.
Qed.
End Caller.

(** The endpoint in the process of the caller is such a transport. *)
Lemma loopback_spec {W Executor E : Type} `{!SteadyClock W} `{!SteadyClockSpec W} `{!ActiveExpertExecutor W Executor E}
    {accepts live promise} `{!ExecutorSpec (W:=W) (Executor:=Executor) (E:=E) accepts live promise}
    (promise_typed : forall r c, promise r c -> result_typed c) (accepts_typed : forall r, request_typed r -> accepts r)
    (registry : list (ActiveExpertExecutorDefinition Executor)) :
  executors_present registry ->
  TransportSpec (W := ActiveExpertExecutorTelemetry * W) registry (live_loop (live := live) (promise := promise)) promise.
Proof.
  intros Hreg. split.
  - intros owner r frame deadline w Hf. by eapply submit_spec.
  - intros r. by eapply live_loop_spec.
Qed.


(** ** What an owner computes does arrive *)

(** The two ends of one execution. *)
Record exchange {E T : Type} (s : EndpointState E) (m : RemoteState T) : Prop := {
  xc_carries : carries (ms_request m) (es_request s);
  xc_digest : es_request_sha256 s = ms_request_sha256 m;
  xc_digest_typed : raw_valid 32 (ms_request_sha256 m);
  xc_digest_nonzero : nonzero (ms_request_sha256 m) = true;
  xc_typed : request_typed (es_request s);
  xc_texts : texts_fit (ms_request m);
  xc_wire_bytes : fits 8 (es_request_wire_bytes s);
  xc_identity : status_ok (validate_identity (ar_identity (ms_request m))) = true;
  xc_request_id : av_request_id (ar_invocation (ms_request m)) <> 0;
  xc_invocation_id : av_invocation_id (ar_invocation (ms_request m)) <> 0 }.

Lemma correlated_iff r c :
  correlated r c = true <->
  rs_identity c = ar_identity r /\ rs_request_id c = av_request_id (ar_invocation r) /\
  rs_invocation_id c = av_invocation_id (ar_invocation r) /\
  rs_selection_index c = av_selection_index (ar_invocation r).
Proof. unfold correlated. rewrite !andb_true_iff, bool_decide_eq_true, !Z.eqb_eq. tauto. Qed.

(** An honest result passes the audit with its outcome unchanged. *)
Lemma audit_honest {E} (s : EndpointState E) t c :
  honest (es_request s) c ->
  exists e, audit s t c =
    mkResult (rs_status c) (rs_identity c) (rs_request_id c) (rs_invocation_id c) (rs_selection_index c)
      (es_request_sha256 s) (rs_output c) e /\ weight_transport_bytes e = 0.
Proof.
  intros [Hc Hs Hv Ha Hb Hd Hw]. unfold audit. rewrite Hc. cbn. rewrite Hs, Hv, Ha, Hb, Hd, Hw, !Z.eqb_refl.
  rewrite !bool_decide_eq_true_2 by done. cbn [negb orb]. eexists. split; [reflexivity|]. exact Hw.
Qed.

Lemma honest_respondable {E T} (s : EndpointState E) (m : RemoteState T) t c :
  exchange s m -> result_typed c -> honest (es_request s) c ->
  Z.of_nat (length (bytes (message (rs_status c)))) <= kMaximumStringBytes -> respondable (audit s t c).
Proof.
  intros [(deadline & Er) Edig Hdig Hnz Hr (Hcap & _ & Hoa) Hw Hi Hrid Hiid] Hc Hh Hm.
  destruct (audit_spec s t c Hr ltac:(by rewrite Edig) Hw Hc) as (Ht & _).
  destruct (audit_honest s t c Hh) as (e & Ea & He). rewrite Ea in *.
  pose proof (proj1 (correlated_iff _ _) (hn_correlated _ _ Hh)) as (Ei & E1 & E2 & E3).
  rewrite Er in Ei, E1, E2. cbn in Ei, E1, E2.
  split; cbn [rs_identity rs_request_id rs_invocation_id rs_request_sha256 rs_evidence rs_status rs_output]; try done.
  - by rewrite Ei.
  - by rewrite Ei.
  - by rewrite E1.
  - by rewrite E2.
  - by rewrite Edig.
  - intros _. split; [apply Hh|]. split; [apply Hh|]. rewrite (hn_abi _ _ Hh), Er. exact Hoa.
Qed.

(** an honest result of the owner arrives. At the two ends of one execution, when the
    owner's executor completes with an honest result whose message and frame are within the
    limits, the endpoint encodes it without error, and the remote executor accepts that
    frame: it publishes a success for the request with the owner's status and every byte of
    the owner's output, its evidence states the size of the frame, and exactly one more
    request is counted as completed. *)
Theorem honest_result_arrives {E T W : Type} `{!SteadyClock W} (s : EndpointState E) (m : RemoteState T) t c
    (w : ActiveExpertExecutorTelemetry * W) :
  exchange s m -> result_typed c -> honest (es_request s) c ->
  Z.of_nat (length (bytes (message (rs_status c)))) <= kMaximumStringBytes ->
  Z.of_nat (length (response_fields (audit s t c))) + 32 <= kMaximumFrameBytes ->
  exists final frame a w',
    encode_response (audit s t c) = Ok (success, final, frame) /\
    accept m (mkWireResult success frame) w = Ok (a, w') /\
    correlated (ms_request m) a = true /\ status_ok (rs_status a) = true /\ same_outcome c a /\
    wire_response_bytes (rs_evidence a) = Z.of_nat (length frame) /\
    tl_completed w'.1 = inc64 (tl_completed w.1) /\ tl_failed w'.1 = tl_failed w.1.
Proof.
  intros Hx Hc Hh Hm Hs. pose proof (honest_respondable s m t c Hx Hc Hh Hm) as Hr.
  destruct (sent_response _ Hr Hs) as (frame & He & Hd & _).
  destruct (audit_honest s t c Hh) as (e & Ea & Hw). rewrite Ea in *. set (n := Z.of_nat (length frame)) in *.
  pose proof (proj1 (correlated_iff _ _) (hn_correlated _ _ Hh)) as Hcor.
  destruct (xc_carries _ _ Hx) as (deadline & Er). rewrite Er in Hcor. cbn in Hcor.
  destruct (buffer_view_typed _ (hn_valid _ _ Hh) (rst_output _ Hc)) as (_ & Hl & _).
  set (a := returned _) in Hd.
  assert (rs_output a = wire_buffer (buf_abi (rs_output c)) (default [] (buf_data (rs_output c)))) as Eout.
  { unfold a, returned. cbn. by rewrite (hn_status _ _ Hh). }
  assert (response_matches m a = true) as Hmatch.
  { unfold response_matches. rewrite Eout. cbn [wire_buffer buf_abi buf_bytes]. rewrite Hl, (hn_abi _ _ Hh), (hn_bytes _ _ Hh), Er.
    cbn [ar_invocation landed]. rewrite bool_decide_eq_true_2, Z.eqb_refl by done. cbn [negb orb]. rewrite andb_false_r.
    change (rs_request_sha256 a) with (es_request_sha256 s). rewrite (xc_digest _ _ Hx), constant_time_equal_refl.
    change (weight_transport_bytes (rs_evidence a)) with (weight_transport_bytes e). rewrite Hw. cbn [negb andb Z.eqb].
    rewrite (proj2 (correlated_iff (ms_request m) a)); [done|exact Hcor]. }
  exists (with_wire_size n (mkResult (rs_status c) (rs_identity c) (rs_request_id c) (rs_invocation_id c)
            (rs_selection_index c) (es_request_sha256 s) (rs_output c) e)), frame.
  unfold accept. cbn [wr_status wr_frame]. rewrite Hd. change (status_ok success) with true. cbn [negb]. rewrite Hmatch.
  cbn [negb]. change (rs_status (a <| rs_evidence %= _ |>)) with (rs_status c).
  destruct w as [tl w]. cbn. unfold bind, inner, now, ask, count, modify. cbn. destruct (clock_now w) as [t' w'].
  cbn. eexists _, _. split; [done|]. split; [reflexivity|]. cbn. rewrite (hn_status _ _ Hh). cbn.
  split_and!; try done. by apply correlated_iff.
Qed.

(** ** Every request is counted once *)

(** What is counted of a handle that has not settled. *)
Definition outstanding {T : Type} (h : Handle (Execution T) unit) : Z :=
  match h with
  | Some (mkCore (transmitted s) _ false) => if ms_terminal s then 0 else 1
  | _ => 0
  end.

Section Accounting.
Context {W Transport T : Type} `{!SteadyClock W} `{!ActiveExpertTransport W Transport T}.

(** The executor with all the handles that it has returned. *)
Record Deployment := mkDeployment {
  dp_telemetry : ActiveExpertExecutorTelemetry;
  dp_world : W;
  dp_handles : gmap nat (Handle (Execution T) unit) }.

(** The calls of its clients, in any order. *)
Inductive deployment_step (e : RemoteActiveExpertExecutor Transport) : Deployment -> Deployment -> Prop :=
| step_execute d r i h tl w :
    dp_handles d !! i = None -> execute e r (dp_telemetry d, dp_world d) = Ok (h, (tl, w)) ->
    deployment_step e d (mkDeployment tl w (<[i := h]> (dp_handles d)))
| step_poll d i h result h' tl w :
    dp_handles d !! i = Some h -> handle_poll h (dp_telemetry d, dp_world d) = Ok ((result, h'), (tl, w)) ->
    deployment_step e d (mkDeployment tl w (<[i := h']> (dp_handles d)))
| step_cancel d i h h' tl w :
    dp_handles d !! i = Some h -> handle_cancel h (dp_telemetry d, dp_world d) = Ok (h', (tl, w)) ->
    deployment_step e d (mkDeployment tl w (<[i := h']> (dp_handles d)))
| step_world d w : deployment_step e d (mkDeployment (dp_telemetry d) w (dp_handles d)).

(** The counters of the requests that have come to an end. *)
Definition settled_requests (t : ActiveExpertExecutorTelemetry) : Z :=
  tl_completed t + tl_failed t + tl_cancelled t.

Definition balance (t : ActiveExpertExecutorTelemetry) : Z := tl_requests t - settled_requests t.

(** Equal as 64-bit counters. *)
Definition same_count (a b : Z) : Prop := exists k, a = b + k * 2 ^ 64.

(** [m] changes the balance by [delta] of its result. *)
Definition moves {A} (m : ST (ActiveExpertExecutorTelemetry * W) A) (delta : A -> Z) : Prop :=
  forall w a w', m w = Ok (a, w') -> u64 (tl_requests w.1) ->
    same_count (balance w'.1) (balance w.1 + delta a) /\ u64 (tl_requests w'.1).

Lemma moves_ret {A} (a : A) delta : delta a = 0 -> moves (ret a) delta.
Proof. intros Hd w b w' [= <- <-] Hu. split; [exists 0; lia|done]. Qed.

Lemma moves_bind {A B} d (m : ST _ A) (k : A -> ST _ B) delta :
  moves m (fun _ => d) -> (forall a, moves (k a) (fun b => delta b - d)) -> moves (bind m k) delta.
Proof.
  intros Hm Hk w b w' E0 Hu. unfold bind in E0. destruct (m w) as [[a w1]|] eqn:Em; [|done].
  destruct (Hm _ _ _ Em Hu) as [[k1 H1] Hu1]. destruct (Hk _ _ _ _ E0 Hu1) as [[k2 H2] Hu2].
  split; [exists (k1 + k2); lia|done].
Qed.

Lemma moves_inner {A} (m : ST W A) : moves (inner m) (fun _ => 0).
Proof.
  intros w a w' E0 Hu. unfold inner in E0. destruct (m w.2) as [[b u]|]; [|done]. injection E0 as <- <-.
  split; [exists 0; cbn; lia|done].
Qed.

Lemma moves_lift {A} (m : outcome A) : moves (lift m) (fun _ => 0).
Proof. intros w a w' E0 Hu. unfold lift in E0. destruct m; [|done]. injection E0 as <- <-. split; [exists 0; lia|done]. Qed.

Lemma moves_count f d :
  (forall t, u64 (tl_requests t) -> same_count (balance (f t)) (balance t + d) /\ u64 (tl_requests (f t))) ->
  moves (count f) (fun _ => d).
Proof. intros Hf w a w' [= <- <-] Hu. by apply Hf. Qed.

Lemma moves_count_if b f :
  moves (count f) (fun _ => 0) -> moves (when b (count f)) (fun _ => 0).
Proof. intros Hf. destruct b; [done|]. by apply moves_ret. Qed.

Lemma wrap64_count z : exists k, wrap64 z = z + k * 2 ^ 64.
Proof. exists (- (z / 2 ^ 64)). unfold wrap64. pose proof (Z.div_mod z (2 ^ 64)). lia. Qed.

#[local] Arguments wrap64 : simpl never.

(** A counter that is not one of the four leaves the balance as it is. *)
Ltac counts k :=
  apply moves_count; intros t Hu; split;
  [unfold same_count, balance, settled_requests, one_request, one_completed, one_failed, one_cancelled, one_deadline,
     one_checksum, input_read, request_wired, add_completion, Prelude.update, inc64, add64; cbn; k
  |first [exact Hu | cbn; unfold inc64, add64; auto with word]].

Ltac one_wrap := idtac;
  match goal with |- context [wrap64 ?z] => destruct (wrap64_count z) as [k ->]; first [exists k; lia | exists (- k); lia] end.

Ltac no_wrap := idtac; exists 0; lia.

Lemma moves_request : moves (count one_request) (fun _ => 1).
Proof. counts one_wrap. Qed.
Lemma moves_failed : moves (count one_failed) (fun _ => -1).
Proof. counts one_wrap. Qed.
Lemma moves_cancelled : moves (count one_cancelled) (fun _ => -1).
Proof. counts one_wrap. Qed.
Lemma moves_late : moves (count (fun t => one_deadline (one_failed t))) (fun _ => -1).
Proof. counts one_wrap. Qed.
Lemma moves_finished (b : bool) : moves (count (if b then one_completed else one_failed)) (fun _ => -1).
Proof. destruct b; counts one_wrap. Qed.
Lemma moves_deadline : moves (count one_deadline) (fun _ => 0).
Proof. counts no_wrap. Qed.
Lemma moves_checksum : moves (count one_checksum) (fun _ => 0).
Proof. counts no_wrap. Qed.
Lemma moves_input n : moves (count (input_read n)) (fun _ => 0).
Proof. counts no_wrap. Qed.
Lemma moves_wired n : moves (count (request_wired n)) (fun _ => 0).
Proof. counts no_wrap. Qed.
Lemma moves_evidence e : moves (count (add_completion e)) (fun _ => 0).
Proof. counts no_wrap. Qed.

Create HintDb accounting.
Hint Resolve moves_inner moves_lift moves_request moves_failed moves_cancelled moves_late moves_finished moves_deadline
  moves_checksum moves_input moves_wired moves_evidence moves_count_if : accounting.

(** One statement of a program after the other. *)
Ltac account := repeat first
  [ apply moves_ret; cbn; lia
  | eapply moves_bind; [solve [eauto with accounting]|]; intros ?; cbv beta zeta
  | case_match; cbn [fst snd] in * ].

Lemma accept_moves (s : RemoteState T) wire : moves (accept s wire) (fun _ => -1).
Proof. unfold accept, wire_failed. account. Qed.

Lemma execute_moves (e : RemoteActiveExpertExecutor Transport) r : moves (execute e r) outstanding.
Proof. unfold execute. account. Qed.

Hint Resolve accept_moves : accounting.

Definition pending (p : Execution T) : Z := outstanding (Some (mkCore p tt false)).

Lemma execution_poll_moves p :
  moves (execution_poll p) (fun rp => (if bool_decide (is_Some rp.1) then 0 else pending rp.2) - pending p).
Proof.
  destruct p as [result terminal|s]; unfold execution_poll, pending.
  { apply moves_ret. by destruct terminal. }
  cbn [outstanding]. destruct (ms_terminal s) eqn:Et; [apply moves_ret; cbn; rewrite Et; lia|]. account.
Qed.

Lemma execution_cancel_moves p : moves (execution_cancel p) (fun _ => - pending p).
Proof.
  destruct p as [result terminal|s]; unfold execution_cancel, pending; [by apply moves_ret|].
  cbn [outstanding]. destruct (ms_terminal s); [by apply moves_ret|]. account.
Qed.

(** From the callbacks to the handle. *)
Lemma moves_after {A B} (m : ST (ActiveExpertExecutorTelemetry * W) A) (f : A -> B) delta :
  moves m (fun a => delta (f a)) -> moves (let* a := m in ret (f a)) delta.
Proof.
  intros Hm w b w' E0 Hu. unfold bind in E0. destruct (m w) as [[a w1]|] eqn:Em; [|done].
  injection E0 as <- <-. by apply (Hm _ _ _ Em).
Qed.

Lemma poll_moves (h : Handle (Execution T) unit) :
  moves (handle_poll h) (fun rh => outstanding rh.2 - outstanding h).
Proof.
  destruct h as [[p [] []]|]; try (by apply moves_ret; cbn; lia).
  intros w r w' E0. revert w r w' E0.
  assert (moves (let* rp := execution_poll p in
                 ret (rp.1, Some (mkCore rp.2 tt (bool_decide (is_Some rp.1)))))
    (fun rh => outstanding rh.2 - pending p)) as Hm.
  { apply moves_after. intros w [r q] w' E0 Hu. destruct (execution_poll_moves p w _ w' E0 Hu) as [Hc Hu'].
    split; [|done]. cbn [fst snd] in *. destruct r; [destruct q|]; exact Hc. }
  intros w r w' E0. apply Hm. cbn in E0 |- *. unfold bind in *.
  change (call_poll p w) with (execution_poll p w) in E0. by destruct (execution_poll p w) as [[[? ?] ?]|].
Qed.

Lemma cancel_moves (h : Handle (Execution T) unit) :
  moves (handle_cancel h) (fun h' => outstanding h' - outstanding h).
Proof.
  destruct h as [[p [] []]|]; try (by apply moves_ret; cbn; lia).
  apply (moves_after (execution_cancel p) (fun q => Some (mkCore q tt true))).
  intros w q w' E0 Hu. destruct (execution_cancel_moves p w _ w' E0 Hu) as [Hc Hu'].
  split; [|done]. destruct q; exact Hc.
Qed.

Definition deployed (w : W) : Deployment := mkDeployment no_telemetry w ∅.

(** The handles whose requests are still counted as running. *)
Definition running (d : Deployment) : Z := msum outstanding (dp_handles d).

Definition balanced (d : Deployment) : Prop :=
  u64 (tl_requests (dp_telemetry d)) /\ same_count (balance (dp_telemetry d)) (running d).

Lemma step_balanced e d d' : deployment_step e d d' -> balanced d -> balanced d'.
Proof.
  intros Hs [Hu [k Hk]]. unfold balanced, running in *. inversion Hs; subst; cbn [dp_telemetry dp_handles] in *.
  - destruct (execute_moves e r (dp_telemetry d, dp_world d) _ _ H0 Hu) as [[j Hj] Hu']. split; [done|].
    rewrite msum_insert_new by done. exists (k + j). cbn in Hj. lia.
  - destruct (poll_moves h (dp_telemetry d, dp_world d) _ _ H0 Hu) as [[j Hj] Hu']. split; [done|].
    rewrite (msum_insert _ _ _ h) by done. exists (k + j). cbn in Hj. lia.
  - destruct (cancel_moves h (dp_telemetry d, dp_world d) _ _ H0 Hu) as [[j Hj] Hu']. split; [done|].
    rewrite (msum_insert _ _ _ h) by done. exists (k + j). cbn in Hj. lia.
  - split; [done|]. by exists k.
Qed.

(** C39: the telemetry of a remote executor accounts for every request exactly once. After
    any sequence of executions, polls and cancellations of any number of handles, over any
    transport and with the world changing in between, the 64-bit counter of requests is the
    sum of those completed, failed and cancelled and of the handles whose result is still
    to come. *)
Theorem remote_requests_balance (e : RemoteActiveExpertExecutor Transport) w d :
  rtc (deployment_step e) (deployed w) d ->
  tl_requests (dp_telemetry d) = wrap64 (settled_requests (dp_telemetry d) + running d).
Proof.
  intros Hr. assert (balanced d) as [Hu [k Hk]].
  { revert Hr. apply (rtc_ind_r (fun d => balanced d)); [|by eauto using step_balanced].
    split; [by vm_compute|]. exists 0. unfold running, deployed. cbn. by rewrite msum_empty. }
  unfold balance in Hk. rewrite <- (wrap64_small (tl_requests (dp_telemetry d))) at 1 by done.
  replace (tl_requests (dp_telemetry d)) with (settled_requests (dp_telemetry d) + running d + k * 2 ^ 64) by lia.
  unfold wrap64. by rewrite Z.mod_add.
Qed.
End Accounting.

(** ** Examples *)

(** A world that is its clock, and an executor that answers at the second poll. *)
#[local] Instance demo_clock : SteadyClock Z := {| clock_now t := (t mod 2 ^ 62, t + 1) |}.

Definition demo_output : ActiveExpertBuffer := mkBuffer (bytes "f32") (bytes "host") true (Some [9; 8; 7; 6]) 4.

Definition demo_result (r : ActiveExpertExecutionRequest) : ActiveExpertExecutionResult :=
  (failed_result r zero_digest success) <| rs_output := demo_output |>.

#[local] Instance demo_executor : ActiveExpertExecutor Z unit (ActiveExpertExecutionRequest * bool) :=
  {| executor_execute _ r := ret (handle_of (r, false) tt);
     executor_callbacks :=
       {| call_poll p := ret (if p.2 : bool then Some (demo_result p.1) else None, (p.1, true));
          call_cancel p := ret p |} |}.

Definition demo_live (r : ActiveExpertExecutionRequest) (p : ActiveExpertExecutionRequest * bool) : Prop :=
  p.1 = r /\ request_typed r.

Definition demo_promise (r : ActiveExpertExecutionRequest) (c : ActiveExpertExecutionResult) : Prop :=
  c = demo_result r /\ request_typed r.

#[local] Instance demo_clock_spec : SteadyClockSpec Z.
Proof. intros t. cbn. apply Z.mod_pos_bound. lia. Qed.

#[local] Instance demo_executor_spec : ExecutorSpec (W := Z) (Executor := unit) request_typed demo_live demo_promise.
Proof.
  split.
  - intros [] r w Hr. apply wpe_ret. by apply live_handle_of.
  - intros r. split.
    + intros [q []] w [<- Hr]; by apply wpe_ret.
    + intros p w _. by apply wpe_ret.
Qed.

Lemma demo_request_typed : request_typed demo_request.
Proof. apply demo_sendable. Qed.

Lemma demo_result_typed r : request_typed r -> result_typed (demo_result r).
Proof.
  intros Hr. destruct (failed_typed r zero_digest success Hr) as []; [by split; [|repeat constructor]|].
  split; auto. unfold buffer_typed. cbn. split_and!; [apply (bytes_byte "f32")|unfold fits; lia..|].
  intros l [= <-]. split; [done|]. repeat constructor; cbn; lia.
Qed.

Definition demo_registry : list (ActiveExpertExecutorDefinition unit) :=
  [mkExecutorDefinition (bytes "cpu") (bytes "moe.fp4") 1 1 0 None (Some tt)].


(** The two ends of the execution of the demonstration, with an execution that is over. *)
Definition demo_received : ActiveExpertExecutionRequest := mkExecution demo_identity (landed 6000 demo_request).
Definition demo_endpoint : EndpointState unit := mkEndpoint demo_received (replicate 32 5) 300 None 5000 false.
Definition demo_remote : RemoteState unit := mkRemoteState demo_request (replicate 32 5) 300 None 100 false.

Lemma demo_received_typed : request_typed demo_received.
Proof. apply (landed_typed 6000 demo_request); [apply demo_request_typed|by vm_compute|by vm_compute]. Qed.

Lemma demo_exchange : exchange demo_endpoint demo_remote.
Proof.
  split; try (vm_compute; reflexivity); try (vm_compute; discriminate).
  - by exists 6000.
  - split; [done|by repeat constructor].
  - apply demo_received_typed.
  - split_and!; vm_compute; discriminate.
  - by vm_compute.
Qed.

Lemma honest_result_arrives_witness :
  exists final frame a w',
    encode_response (audit demo_endpoint 5500 (demo_result demo_received)) = Ok (success, final, frame) /\
    accept demo_remote (mkWireResult success frame) (no_telemetry, 100) = Ok (a, w') /\
    status_ok (rs_status a) = true /\ same_outcome (demo_result demo_received) a.
Proof.
  destruct (honest_result_arrives demo_endpoint demo_remote 5500 (demo_result demo_received) (no_telemetry, 100))
    as (final & frame & a & w' & He & Ha & _ & Hok & Hsame & _).
  - apply demo_exchange.
  - apply demo_result_typed, demo_received_typed.
  - by split.
  - vm_compute. discriminate.
  - vm_compute. discriminate.
  - exists final, frame, a, w'. exact (conj He (conj Ha (conj Hok Hsame))).
Defined.

(** A transport that never answers. *)
#[local] Instance silent_transport : ActiveExpertTransport Z unit unit :=
  {| transport_submit _ _ _ _ := ret (handle_of tt tt);
     transport_callbacks := {| call_poll _ := ret (None, tt); call_cancel _ := ret tt |} |}.

Definition demo_caller : RemoteActiveExpertExecutor unit := mkRemote (bytes "node-1") (Some tt).

(** An incomplete request is refused, and polled. *)
Lemma remote_requests_balance_witness :
  exists d, rtc (deployment_step demo_caller) (deployed 100) d /\ tl_requests (dp_telemetry d) = 1 /\
    tl_requests (dp_telemetry d) = wrap64 (settled_requests (dp_telemetry d) + running d).
Proof.
  assert (exists d, rtc (deployment_step demo_caller) (deployed 100) d /\ tl_requests (dp_telemetry d) = 1) as (d & Hd & H1).
  { eexists. split.
    - eapply rtc_l; [apply (step_execute demo_caller (deployed 100) empty_request 0); [done|by vm_compute]|].
      eapply rtc_l; [eapply (step_poll demo_caller _ 0); [by vm_compute|by vm_compute]|]. apply rtc_refl.
    - done. }
  exists d. split; [exact Hd|]. split; [exact H1|]. apply (remote_requests_balance demo_caller 100 d Hd).
Defined.
