(* ===== verification/ExpertStore.v ===== *)
(** Model of [expert_store.cpp]: resolving a set of experts to the places where they can
    run. A store answers a request with a handle that is polled; the local store asks the
    cache for device and host leases, the remote store names the owner of each expert, and
    the placement store splits a request between the two and joins the answers. The cache
    and the executors are interfaces. *)

From S2P Require Import Prelude.
From S2P Require Import Storage.
From S2P Require Import Text.
From S2P Require Import ExpertCache.
From S2P Require Import Handles.
From S2P Require Import ActiveExpert.

#[local] Open Scope bool_scope.

(** ** Requests and results *)

Inductive ExpertResolveTarget : Type :=
| to_device | to_host | to_host_ready | to_remote | to_automatic.

#[export] Instance ExpertResolveTarget_eq_dec : EqDecision ExpertResolveTarget.
Proof. solve_decision. Defined.

Inductive ExpertPlacementKind : Type := on_device | on_host | on_remote.

Record ExpertResolveRequest := mkResolveRequest {
  rq_key : ExpertKey;
  rq_record : PayloadRecord;
  rq_target : ExpertResolveTarget;
  rq_options : ExpertAcquireOptions }.

(** The part of a union that one store resolves: the places of its members in the union. *)
Record Batch (T : Type) := mkBatch { indices : list nat; batch_handle : Handle T Z; batch_complete : bool }.
Arguments mkBatch {T} _ _ _.
Arguments indices {T} _.
Arguments batch_handle {T} _.
Arguments batch_complete {T} _.

Section Leases.
Context {DeviceLease HostLease Executor : Type}.

(** A lease that is [None] converts to false. *)
Record ResolvedExpert := mkResolved {
  re_key : ExpertKey;
  re_placement : ExpertPlacementKind;
  device_lease : option DeviceLease;
  host_lease : option HostLease;
  remote_lease : option (ActiveExpertIdentity * Executor) }.

(** [operator bool]. *)
Definition has_lease (e : ResolvedExpert) : bool :=
  match re_placement e with
  | on_device => bool_decide (is_Some (device_lease e))
  | on_host => bool_decide (is_Some (host_lease e))
  | on_remote => bool_decide (is_Some (remote_lease e))
  end.

Record ExpertResolveResult := mkResolveResult { rr_status : Status; rr_experts : list ResolvedExpert }.

(** ** Handles

    The size of the union is kept with the core of the handle. *)
Notation ExpertResolveHandle S := (Handle S Z).

(** What a store does: [resolve], and the callbacks of the handles it returns. *)
Class ExpertStore (W S : Type) := {
  store_resolve : list ExpertResolveRequest -> ST W (ExpertResolveHandle S);
  #[global] store_callbacks :: Callbacks W S ExpertResolveResult }.

Definition resolve_valid {S} (h : ExpertResolveHandle S) : bool := handle_valid h.

Definition resolve_size {S} (h : ExpertResolveHandle S) : Z :=
  match h with Some core => if resolve_valid h then extra core else 0 | None => 0 end.

Definition resolve_poll {W S} `{!ExpertStore W S} (h : ExpertResolveHandle S)
  : ST W (option ExpertResolveResult * ExpertResolveHandle S) := handle_poll h.

Definition resolve_cancel {W S} `{!ExpertStore W S} (h : ExpertResolveHandle S) : ST W (ExpertResolveHandle S) :=
  handle_cancel h.

(** The callbacks are never empty here. *)
Definition from_callbacks {S} (s : S) (size : Z) : ExpertResolveHandle S :=
  if size =? 0 then None else handle_of s size.

(** ** The local store *)

(** What the store asks of the cache and of the handles it gets. [Acquire] and [Preload]
    are the handles; other threads may run during every call. *)
Class CacheClient (W Acquire Preload : Type) := {
  cl_acquire : ExpertKey -> PayloadRecord -> ExpertAcquireOptions -> W -> Acquire * W;
  cl_ready : Acquire -> W -> bool * W;
  cl_get : Acquire -> W -> (Status * option DeviceLease) * W;
  cl_cancel : Acquire -> W -> unit * W;
  cl_preload_host : ExpertKey -> PayloadRecord -> HostPreloadOptions -> W -> Preload * W;
  cl_preload_valid : Preload -> bool;
  cl_preload_ready : Preload -> W -> bool * W;
  cl_preload_get : Preload -> W -> (Status * bool * option HostLease) * W;
  cl_preload_cancel : Preload -> W -> unit * W;
  cl_try_acquire_host : ExpertKey -> PayloadRecord -> bool -> ExpertRequestPriority -> W -> option HostLease * W;
  cl_record_access : ExpertKey -> W -> bool * W }.

Section Local.
Context {W Acquire Preload : Type} `{!CacheClient W Acquire Preload}.

Record Item := mkItem {
  it_key : ExpertKey;
  it_target : ExpertResolveTarget;
  it_options : ExpertAcquireOptions;
  it_handle : option Acquire;
  it_host_handle : option Preload;
  it_result : option (Status * option DeviceLease);
  it_host : option HostLease;
  it_error : option Status }.

Definition with_result (r : Status * option DeviceLease) (i : Item) : Item :=
  mkItem (it_key i) (it_target i) (it_options i) (it_handle i) (it_host_handle i) (Some r) (it_host i) (it_error i).
Definition with_host (l : HostLease) (i : Item) : Item :=
  mkItem (it_key i) (it_target i) (it_options i) (it_handle i) (it_host_handle i) (it_result i) (Some l) (it_error i).
Definition with_error (s : Status) (i : Item) : Item :=
  mkItem (it_key i) (it_target i) (it_options i) (it_handle i) (it_host_handle i) (it_result i) (it_host i) (Some s).

Record LocalResolveState := mkLocal { items : list Item; local_terminal : bool }.

(** Cancelling a default-constructed handle does nothing. *)
Definition cancel_acquire (i : Item) : ST W unit :=
  match it_handle i with Some h => ask (cl_cancel h) | None => ret tt end.
Definition cancel_preload (i : Item) : ST W unit :=
  match it_host_handle i with Some h => ask (cl_preload_cancel h) | None => ret tt end.

(** The two conditional cancellations of one item. *)
Definition cancel_unresolved (i : Item) : ST W unit :=
  when (bool_decide (it_target i = to_device) && bool_decide (it_result i = None)) (cancel_acquire i) ;*
  when (bool_decide (it_target i = to_host) && bool_decide (it_host i = None)) (cancel_preload i).

Definition failure (s : Status) : ExpertResolveResult := mkResolveResult s [].

(** The loop of [poll]: the items done, those to come, and whether all are complete so
    far. The result is a failure, or none. *)
Fixpoint poll_items (past rest : list Item) (complete : bool)
  : ST W (option ExpertResolveResult * list Item * bool) :=
  match rest with
  | [] => ret (None, past, complete)
  | item :: rest =>
    match it_error item with
    | Some error =>
      for_each (past ++ item :: rest) cancel_unresolved ;*
      ret (Some (failure error), past ++ item :: rest, complete)
    | None =>
      match it_target item with
      | to_host_ready => poll_items (past ++ [item]) rest complete
      | to_host =>
        match it_host item, it_host_handle item with
        | Some _, _ => poll_items (past ++ [item]) rest complete
        | None, None => throw (undefined_behavior "wait on a future without state")
        | None, Some h =>
          let* ready := ask (cl_preload_ready h) in
          if negb ready then poll_items (past ++ [item]) rest false
          else
            let* retained := ask (cl_preload_get h) in
            let '(status, kept, lease) := retained in
            match lease with
            | Some l =>
              if negb (status_ok status) || negb kept then
                let error := if status_ok status
                             then mkStatus internal "host expert resolve completed without ownership" else status in
                poll_items (past ++ [with_error error item]) rest false
              else
                let item := with_host l item in
                when (acquire_record_access (it_options item))
                  (let* _ := ask (cl_record_access (it_key item)) in ret tt) ;*
                poll_items (past ++ [item]) rest complete
            | None =>
              let error := if status_ok status
                           then mkStatus internal "host expert resolve completed without ownership" else status in
              poll_items (past ++ [with_error error item]) rest false
            end
        end
      | _ =>
        match it_result item, it_handle item with
        | Some _, _ => poll_items (past ++ [item]) rest complete
        | None, None => throw (undefined_behavior "wait on a future without state")
        | None, Some h =>
          let* ready := ask (cl_ready h) in
          if negb ready then poll_items (past ++ [item]) rest false
          else
            let* result := ask (cl_get h) in
            let item := with_result result item in
            if negb (status_ok result.1) || bool_decide (result.2 = None) then
              let status := if status_ok result.1
                            then mkStatus internal "expert store member returned no lease" else result.1 in
              let all := past ++ item :: rest in
              for_each all (fun i => when (bool_decide (it_result i = None)) (cancel_acquire i)) ;*
              ret (Some (failure status), all, complete)
            else poll_items (past ++ [item]) rest complete
        end
      end
    end
  end.

(** The leases are moved out; to dereference one that is not there is undefined. *)
Fixpoint publish (l : list Item) : outcome (list ResolvedExpert) :=
  match l with
  | [] => Ok []
  | item :: l =>
    let! e :=
      match it_target item with
      | to_host_ready | to_host =>
        match it_host item with
        | Some h => Ok (mkResolved (it_key item) on_host None (Some h) None)
        | None => Throw (undefined_behavior "empty optional")
        end
      | _ =>
        match it_result item with
        | Some r => Ok (mkResolved (it_key item) on_device r.2 None None)
        | None => Throw (undefined_behavior "empty optional")
        end
      end in
    let! rest := publish l in
    Ok (e :: rest)
  end.

Definition local_poll (s : LocalResolveState) : ST W (option ExpertResolveResult * LocalResolveState) :=
  if local_terminal s || bool_decide (length (items s) = 0%nat) then ret (None, s)
  else
    let* r := poll_items [] (items s) true in
    let '(failed, l, complete) := r in
    match failed with
    | Some result => ret (Some result, mkLocal l true)
    | None =>
      if negb complete then ret (None, mkLocal l false)
      else
        let* experts := (fun w => let! e := publish l in Ok (e, w)) in
        ret (Some (mkResolveResult success experts), mkLocal l true)
    end.

Definition local_cancel (s : LocalResolveState) : ST W LocalResolveState :=
  if local_terminal s then ret s
  else for_each (items s) cancel_unresolved ;* ret (mkLocal (items s) true).

(** [unique.insert(key).second] fails for some key. *)
Fixpoint duplicated_key (seen : gset ExpertKey) (l : list ExpertKey) : bool :=
  match l with
  | [] => false
  | k :: l => if bool_decide (k ∈ seen) then true else duplicated_key ({[k]} ∪ seen) l
  end.

(** The item of one request. *)
Definition start_item (r : ExpertResolveRequest) : ST W Item :=
  let target := if bool_decide (rq_target r = to_automatic) then to_device else rq_target r in
  let o := rq_options r in
  match rq_target r with
  | to_host_ready =>
    let* host := ask (cl_try_acquire_host (rq_key r) (rq_record r) (acquire_record_access o) (acquire_priority o)) in
    ret (mkItem (rq_key r) target o None None None host
           (match host with
            | Some _ => None
            | None => Some (mkStatus backpressure "requested expert is not ready in host memory")
            end))
  | to_host =>
    let* h := ask (cl_preload_host (rq_key r) (rq_record r) (mkPreloadOptions (acquire_priority o) false true)) in
    ret (mkItem (rq_key r) target o None (Some h) None None
           (if cl_preload_valid h then None else Some (mkStatus backpressure "host expert-page resolve was rejected")))
  | _ =>
    let* h := ask (cl_acquire (rq_key r) (rq_record r) o) in
    ret (mkItem (rq_key r) target o (Some h) None None None None)
  end.

(** The loop over the requests; a remote target ends it. *)
Fixpoint start_items (l : list ExpertResolveRequest) : ST W (option (list Item)) :=
  match l with
  | [] => ret (Some [])
  | r :: l =>
    if bool_decide (rq_target r = to_remote) then ret None
    else
      let* item := start_item r in
      let* rest := start_items l in
      ret (match rest with Some rest => Some (item :: rest) | None => None end)
  end.

Definition local_resolve (requests : list ExpertResolveRequest) : ST W (ExpertResolveHandle LocalResolveState) :=
  if bool_decide (length requests = 0%nat) then ret None
  else if duplicated_key ∅ (rq_key <$> requests) then ret None
  else
    let* started := start_items requests in
    match started with
    | None => ret None
    | Some items => ret (from_callbacks (mkLocal items false) (Z.of_nat (length requests)))
    end.

#[export] Instance local_store : ExpertStore W LocalResolveState :=
  {| store_resolve := local_resolve;
     store_callbacks := {| call_poll := local_poll; call_cancel := local_cancel |} |}.
End Local.

(** ** Owners *)

(** [owner] names the owner of an executor. *)
Context (owner : Executor -> list Z).

(** [ro_executor] is a pointer that may be null. *)
Record RemoteExpertOwnerRange := mkOwnerRange {
  namespace_id : Z;
  first_layer : Z;
  layer_count : Z;
  first_expert : Z;
  expert_count : Z;
  ro_executor : option Executor }.

Definition invalid_range (r : RemoteExpertOwnerRange) : bool :=
  (namespace_id r =? 0) || (layer_count r =? 0) || (expert_count r =? 0) ||
  match ro_executor r with Some e => bool_decide (owner e = []) | None => true end ||
  (U32_MAX - layer_count r <? first_layer r) || (U32_MAX - expert_count r <? first_expert r).

(** The ends are computed in 32 bits. *)
Definition overlaps (r existing : RemoteExpertOwnerRange) : bool :=
  (namespace_id existing =? namespace_id r) &&
  ((first_layer r <? add32 (first_layer existing) (layer_count existing)) &&
   (first_layer existing <? add32 (first_layer r) (layer_count r))) &&
  ((first_expert r <? add32 (first_expert existing) (expert_count existing)) &&
   (first_expert existing <? add32 (first_expert r) (expert_count r))).

Definition add_range (r : RemoteExpertOwnerRange) (ranges : list RemoteExpertOwnerRange)
  : Status * list RemoteExpertOwnerRange :=
  if invalid_range r then (mkStatus invalid_arg "active expert owner range is invalid", ranges)
  else if existsb (overlaps r) ranges then (mkStatus invalid_arg "active expert owner ranges overlap", ranges)
  else (success, ranges ++ [r]).

(** The subtractions are reached only where they do not wrap. *)
Definition range_covers (key : ExpertKey) (r : RemoteExpertOwnerRange) : bool :=
  (model_id key =? namespace_id r) && (first_layer r <=? layer key) &&
  (layer key - first_layer r <? layer_count r) && (first_expert r <=? expert key) &&
  (expert key - first_expert r <? expert_count r).

Definition find_owner (key : ExpertKey) (ranges : list RemoteExpertOwnerRange) : option Executor :=
  match List.find (range_covers key) ranges with Some r => ro_executor r | None => None end.

(** ** The remote store *)

Record ActiveExpertComponentContract := mkContract {
  cc_model_content_hash : list Z;
  cc_namespace_id : Z;
  cc_layer_count : Z;
  cc_experts_per_layer : Z;
  cc_encoding_abi : Z;
  execution_capability : list Z;
  execution_abi : Z;
  cc_source_abi : Z }.

Definition valid_component_contract (c : ActiveExpertComponentContract) : bool :=
  nonzero (cc_model_content_hash c) && negb (cc_namespace_id c =? 0) && negb (cc_layer_count c =? 0) &&
  negb (cc_experts_per_layer c =? 0) && negb (cc_encoding_abi c =? 0) &&
  negb (bool_decide (execution_capability c = [])) && negb (execution_abi c =? 0) && negb (cc_source_abi c =? 0).

Record RemoteExpertStore := mkRemoteStore {
  contract : ActiveExpertComponentContract;
  owners : list RemoteExpertOwnerRange }.

Definition owns (s : RemoteExpertStore) (key : ExpertKey) : bool :=
  valid_component_contract (contract s) && (model_id key =? cc_namespace_id (contract s)) &&
  (layer key <? cc_layer_count (contract s)) && (expert key <? cc_experts_per_layer (contract s)) &&
  (encoding_abi key =? cc_encoding_abi (contract s)) && bool_decide (is_Some (find_owner key (owners s))).

Record ImmediateRemoteResolveState := mkImmediate { immediate : ExpertResolveResult; immediate_terminal : bool }.

(** The identity that the owner executes. *)
Definition identity_of (c : ActiveExpertComponentContract) (key : ExpertKey) : ActiveExpertIdentity :=
  mkIdentity (cc_model_content_hash c) key (execution_capability c) (execution_abi c) (cc_source_abi c).

(** The loop over the requests, with the keys seen. *)
Fixpoint bind_owners (s : RemoteExpertStore) (seen : gset ExpertKey) (l : list ExpertResolveRequest)
  : option (list ResolvedExpert) :=
  match l with
  | [] => Some []
  | r :: l =>
    if (negb (bool_decide (rq_target r = to_remote)) && negb (bool_decide (rq_target r = to_automatic))) ||
       bool_decide (rq_key r ∈ seen) || negb (owns s (rq_key r)) ||
       negb (source_abi (rq_record r) =? cc_source_abi (contract s))
    then None
    else
      match find_owner (rq_key r) (owners s) with
      | None => None
      | Some executor =>
        match bind_owners s ({[rq_key r]} ∪ seen) l with
        | Some rest =>
          Some (mkResolved (rq_key r) on_remote None None (Some (identity_of (contract s) (rq_key r), executor)) :: rest)
        | None => None
        end
      end
  end.

Section Remote.
Context {W : Type}.

Definition remote_resolve (s : RemoteExpertStore) (requests : list ExpertResolveRequest)
  : ST W (ExpertResolveHandle ImmediateRemoteResolveState) :=
  if bool_decide (length requests = 0%nat) || negb (valid_component_contract (contract s)) then ret None
  else
    match bind_owners s ∅ requests with
    | None => ret None
    | Some experts =>
      ret (from_callbacks (mkImmediate (mkResolveResult success experts) false) (Z.of_nat (length requests)))
    end.

Definition remote_poll (s : ImmediateRemoteResolveState) : ST W (option ExpertResolveResult * ImmediateRemoteResolveState) :=
  if immediate_terminal s then ret (None, s) else ret (Some (immediate s), mkImmediate (immediate s) true).

Definition remote_cancel (s : ImmediateRemoteResolveState) : ST W ImmediateRemoteResolveState :=
  ret (mkImmediate (immediate s) true).

#[export] Instance remote_callbacks : Callbacks W ImmediateRemoteResolveState ExpertResolveResult :=
  {| call_poll := remote_poll; call_cancel := remote_cancel |}.
End Remote.

(** ** The placement store *)

Section Placement.
Context {W S : Type} `{!ExpertStore W S}.

Record PlacementResolveState := mkPlacement {
  expected : list ExpertKey;
  resolved : list (option ResolvedExpert);
  local_batch : Batch S;
  remote_batch : Batch ImmediateRemoteResolveState;
  placement_terminal : bool }.

(** The loop over the members of a batch: each result goes to its place, or the batch is not
    what was asked for. To index out of range is undefined. *)
Fixpoint place (expected : list ExpertKey) (indices : list nat) (experts : list ResolvedExpert)
    (resolved : list (option ResolvedExpert)) : outcome (option Status * list (option ResolvedExpert)) :=
  match indices, experts with
  | [], _ => Ok (None, resolved)
  | destination :: indices, e :: experts =>
    match expected !! destination with
    | None => Throw (undefined_behavior "out of range")
    | Some key =>
      if negb (has_lease e) || negb (bool_decide (re_key e = key))
      then Ok (Some (mkStatus internal "placement store batch identity mismatch"), resolved)
      else place expected indices experts (<[destination := Some e]> resolved)
    end
  | _ :: _, [] => Throw (undefined_behavior "out of range")
  end.

(** [poll_batch]. *)
Definition poll_batch {T} `{!Callbacks W T ExpertResolveResult} (expected : list ExpertKey)
    (resolved : list (option ResolvedExpert)) (b : Batch T)
  : ST W (option Status * list (option ResolvedExpert) * Batch T) :=
  if batch_complete b then ret (None, resolved, b)
  else
    let* q := handle_poll (batch_handle b) in
    let '(result, h) := q in
    match result with
    | None => ret (None, resolved, mkBatch (indices b) h false)
    | Some result =>
      let b := mkBatch (indices b) h true in
      if negb (status_ok (rr_status result)) then ret (Some (rr_status result), resolved, b)
      else if negb (bool_decide (length (rr_experts result) = length (indices b)))
      then ret (Some (mkStatus internal "placement store batch cardinality mismatch"), resolved, b)
      else
        let* p := lift (place expected (indices b) (rr_experts result) resolved) in
        let '(error, resolved) := p in
        ret (error, resolved, b)
    end.

Definition cancel_batch {T} `{!Callbacks W T ExpertResolveResult} (b : Batch T) : ST W (Batch T) :=
  let* h := handle_cancel (batch_handle b) in ret (mkBatch (indices b) h (batch_complete b)).

(** The joined answer: everything or nothing. *)
Definition join (resolved : list (option ResolvedExpert)) : ExpertResolveResult :=
  match mapM id resolved with
  | Some experts => mkResolveResult success experts
  | None => failure (mkStatus internal "placement store completed with an unresolved member")
  end.

Definition placement_poll (s : PlacementResolveState) : ST W (option ExpertResolveResult * PlacementResolveState) :=
  if placement_terminal s then ret (None, s)
  else
    let* p := poll_batch (expected s) (resolved s) (local_batch s) in
    let '(error, found, local) := p in
    match error with
    | Some error =>
      let* remote := cancel_batch (remote_batch s) in
      ret (Some (failure error), mkPlacement (expected s) found local remote true)
    | None =>
      let* q := poll_batch (expected s) found (remote_batch s) in
      let '(error, found, remote) := q in
      match error with
      | Some error =>
        let* local := cancel_batch local in
        ret (Some (failure error), mkPlacement (expected s) found local remote true)
      | None =>
        if negb (batch_complete local) || negb (batch_complete remote)
        then ret (None, mkPlacement (expected s) found local remote false)
        else ret (Some (join found), mkPlacement (expected s) found local remote true)
      end
    end.

Definition placement_cancel (s : PlacementResolveState) : ST W PlacementResolveState :=
  if placement_terminal s then ret s
  else
    let* local := cancel_batch (local_batch s) in
    let* remote := cancel_batch (remote_batch s) in
    ret (mkPlacement (expected s) (resolved s) local remote true).

Definition with_target (t : ExpertResolveTarget) (r : ExpertResolveRequest) : ExpertResolveRequest :=
  mkResolveRequest (rq_key r) (rq_record r) t (rq_options r).

(** Whether the owner directory decides for the remote store. *)
Definition use_remote (remote : RemoteExpertStore) (r : ExpertResolveRequest) : bool :=
  bool_decide (rq_target r = to_remote) || (bool_decide (rq_target r = to_automatic) && owns remote (rq_key r)).

(** The loop over the requests from the [index]-th: the local and the remote ones, each with
    its index. *)
Fixpoint split_requests (remote : RemoteExpertStore) (seen : gset ExpertKey) (index : nat) (l : list ExpertResolveRequest)
  : option (list (nat * ExpertResolveRequest) * list (nat * ExpertResolveRequest)) :=
  match l with
  | [] => Some ([], [])
  | r :: l =>
    if bool_decide (rq_key r ∈ seen) then None
    else if use_remote remote r && negb (owns remote (rq_key r)) then None
    else
      match split_requests remote ({[rq_key r]} ∪ seen) (Datatypes.S index) l with
      | None => None
      | Some (locals, remotes) =>
        if use_remote remote r then Some (locals, (index, with_target to_remote r) :: remotes)
        else Some ((index, if bool_decide (rq_target r = to_automatic) then with_target to_device r else r) :: locals,
                   remotes)
      end
  end.

Definition placement_resolve (remote : RemoteExpertStore) (requests : list ExpertResolveRequest)
  : ST W (ExpertResolveHandle PlacementResolveState) :=
  if bool_decide (length requests = 0%nat) then ret None
  else
    match split_requests remote ∅ 0 requests with
    | None => ret None
    | Some (locals, remotes) =>
      let no_locals := bool_decide (length locals = 0%nat) in
      let no_remotes := bool_decide (length remotes = 0%nat) in
      let* local := if no_locals then ret None else store_resolve (snd <$> locals) in
      if negb no_locals && negb (resolve_valid local) then ret None
      else
        let* theirs := if no_remotes then ret None else remote_resolve remote (snd <$> remotes) in
        if negb no_remotes && negb (resolve_valid theirs) then let* _ := resolve_cancel local in ret None
        else
          ret (from_callbacks
                 (mkPlacement (rq_key <$> requests) (replicate (length requests) None)
                    (mkBatch (fst <$> locals) local no_locals) (mkBatch (fst <$> remotes) theirs no_remotes) false)
                 (Z.of_nat (length requests)))
    end.

Definition placement_store (remote : RemoteExpertStore) : ExpertStore W PlacementResolveState :=
  {| store_resolve := placement_resolve remote;
     store_callbacks := {| call_poll := placement_poll; call_cancel := placement_cancel |} |}.
End Placement.
End Leases.
