(* ===== verification/ExpertStoreTheorems.v ===== *)
(** What is proved of [expert_store.cpp]: a store answers a union of requests with
    everything or nothing, each expert where its request asked for it; the local store and
    the remote store keep this promise, and the placement store keeps it whenever the store
    that it delegates to does; and the directory of owners is a function of the key. *)

From Stdlib Require Import String.
From S2P Require Import Prelude.
From S2P Require Import Storage.
From S2P Require Import Text.
From S2P Require Import ExpertCache.
From S2P Require Import Handles.
From S2P Require Import ActiveExpert.
From S2P Require Import ExpertStore.

#[local] Open Scope bool_scope.

Section Stores.
Context {DeviceLease HostLease Executor : Type}.
#[local] Notation ResolvedExpert := (@ResolvedExpert DeviceLease HostLease Executor).
#[local] Notation ExpertResolveResult := (@ExpertResolveResult DeviceLease HostLease Executor).

(** ** The promise of a store *)

(** A success with one expert for every request, in their order, or a failure with none. *)
Definition all_or_nothing (serves : ExpertResolveRequest -> ResolvedExpert -> Prop)
    (requests : list ExpertResolveRequest) (result : ExpertResolveResult) : Prop :=
  (status_ok (rr_status result) = true /\ Forall2 serves requests (rr_experts result)) \/
  (status_ok (rr_status result) = false /\ rr_experts result = []).

(** [serves r e]: the expert [e] is an answer to [r]. A store never fails, its handles know
    the size of the union, and what they publish is everything or nothing. *)
Class StoreSpec {W S : Type} `{!ExpertStore W S} (serves : ExpertResolveRequest -> ResolvedExpert -> Prop)
    (live : list ExpertResolveRequest -> S -> Prop) : Prop := {
  store_resolve_spec requests w :
    wpe (store_resolve requests)
      (fun h _ => live_handle (live requests) h /\
                  forall core, h = Some core -> extra core = Z.of_nat (length requests)) (fun _ => False) w;
  #[global] store_result_spec requests :: CallbacksSpec (live requests) (all_or_nothing serves requests);
  serves_key r e : serves r e -> re_key e = rq_key r /\ has_lease e = true }.

Lemma failed_union serves requests status :
  status_ok status = false -> all_or_nothing serves requests (failure status).
Proof. by right. Qed.

Lemma from_callbacks_spec {S} (live : S -> Prop) s n :
  live s -> live_handle live (from_callbacks s n) /\ forall core, from_callbacks s n = Some core -> extra core = n.
Proof.
  intros Hs. unfold from_callbacks. case_match; [by split|]. split; [by apply live_handle_of|]. by intros core [= <-].
Qed.

Lemma no_handle {S} (live : S -> Prop) n :
  live_handle live (None : Handle S Z) /\
  forall core, (None : Handle S Z) = Some core -> extra core = n.
Proof. by split. Qed.

(** ** The local store *)

Section LocalStore.
Context {W Acquire Preload : Type} `{!CacheClient (DeviceLease:=DeviceLease) (HostLease:=HostLease) W Acquire Preload}.

Definition local_target (r : ExpertResolveRequest) : ExpertResolveTarget :=
  if bool_decide (rq_target r = to_automatic) then to_device else rq_target r.

(** Device and automatic requests get a device lease, host requests a host lease. *)
Definition local_serves (r : ExpertResolveRequest) (e : ResolvedExpert) : Prop :=
  re_key e = rq_key r /\
  match local_target r with
  | to_device => re_placement e = on_device /\ is_Some (device_lease e)
  | to_host | to_host_ready => re_placement e = on_host /\ is_Some (host_lease e)
  | _ => False
  end.

#[local] Notation Item := (@Item DeviceLease HostLease Acquire Preload).

(** An item has failed, or it has what it needs to be waited for or published. *)
Definition item_state (i : Item) : Prop :=
  match it_error i with
  | Some error => status_ok error = false
  | None =>
    match it_target i with
    | to_host_ready => is_Some (it_host i)
    | to_host => is_Some (it_host i) \/ is_Some (it_host_handle i)
    | to_device =>
      match it_result i with
      | Some r => status_ok r.1 = true /\ is_Some r.2
      | None => is_Some (it_handle i)
      end
    | _ => False
    end
  end.

Definition item_for (r : ExpertResolveRequest) (i : Item) : Prop :=
  it_key i = rq_key r /\ it_target i = local_target r /\ item_state i.

Definition item_done (i : Item) : Prop :=
  it_error i = None /\
  match it_target i with
  | to_host | to_host_ready => is_Some (it_host i)
  | _ => is_Some (it_result i)
  end.

Definition local_live (requests : list ExpertResolveRequest) (s : LocalResolveState) : Prop :=
  local_terminal s = false /\ items s <> [] /\ Forall2 item_for requests (items s).

Lemma wpe_for_each {A} (l : list A) (f : A -> ST W unit) (Q : unit -> W -> Prop) E w :
  (forall a w (P : unit -> W -> Prop), (forall w', P tt w') -> wpe (f a) P E w) -> (forall w', Q tt w') ->
  wpe (for_each l f) Q E w.
Proof.
  intros Hf HQ. revert w. induction l as [|a l IH]; intros w; [by apply wpe_ret|].
  apply wpe_bind, Hf. intros w'. apply IH.
Qed.

Lemma wpe_cancel_acquire (i : Item) (Q : unit -> W -> Prop) E w :
  (forall w', Q tt w') -> wpe (cancel_acquire i) Q E w.
Proof.
  intros HQ. unfold cancel_acquire. case_match; [|by apply wpe_ret]. apply wpe_ask. by destruct (cl_cancel _ _).1.
Qed.

Lemma wpe_cancel_unresolved (i : Item) (Q : unit -> W -> Prop) E w :
  (forall w', Q tt w') -> wpe (cancel_unresolved i) Q E w.
Proof.
  intros HQ. unfold cancel_unresolved. apply wpe_bind, wpe_when; intros _.
  - apply wpe_cancel_acquire. intros w1. apply wpe_when; intros _; [|done].
    unfold cancel_preload. case_match; [|by apply wpe_ret]. apply wpe_ask. by destruct (cl_preload_cancel _ _).1.
  - apply wpe_when; intros _; [|done].
    unfold cancel_preload. case_match; [|by apply wpe_ret]. apply wpe_ask. by destruct (cl_preload_cancel _ _).1.
Qed.
(** What the loop of [poll] leaves. *)
Definition polled (requests : list ExpertResolveRequest) (r : option ExpertResolveResult * list Item * bool) : Prop :=
  let '(failed, l, complete) := r in
  match failed with
  | Some result => exists status, result = failure status /\ status_ok status = false
  | None => Forall2 item_for requests l /\ (complete = true -> Forall item_done l)
  end.

Lemma lookup_internal m : status_ok (mkStatus internal m) = false.
Proof. done. Qed.

Lemma poll_items_spec rest past complete done_requests requests w :
  Forall2 item_for done_requests past -> Forall2 item_for requests rest ->
  (complete = true -> Forall item_done past) ->
  wpe (poll_items past rest complete) (fun r _ => polled (done_requests ++ requests) r) (fun _ => False) w.
Proof.
  revert past complete done_requests requests w.
  induction rest as [|i rest IH]; intros past complete dones requests w Hpast Hrest Hdone.
  { apply Forall2_nil_inv_r in Hrest as ->. rewrite app_nil_r. by apply wpe_ret. }
  apply Forall2_cons_inv_r in Hrest as (r & requests' & (Hk & Ht & Hi) & Hrest & ->).
  (* to go on with the item as it is now *)
  assert (forall i' complete' w', it_key i' = rq_key r -> it_target i' = local_target r -> item_state i' ->
    (complete' = true -> complete = true /\ item_done i') ->
    wpe (poll_items (past ++ [i']) rest complete') (fun q _ => polled (dones ++ r :: requests') q) (fun _ => False) w')
    as Hnext.
  { intros i' complete' w' ? ? ? Hc. rewrite (assoc app dones [r] requests' : dones ++ r :: requests' = _).
    apply IH; [apply Forall2_app; [done|]; by constructor|done|].
    intros Hc'. destruct (Hc Hc') as [? ?]. apply Forall_app. split; [by apply Hdone|by constructor]. }
  cbn [poll_items]. unfold item_state in Hi. destruct (it_error i) as [error|] eqn:Ee.
  { apply wpe_bind, wpe_for_each; [intros; by apply wpe_cancel_unresolved|]. intros w1. apply wpe_ret. cbn. eauto. }
  destruct (it_target i) eqn:Et; try done.
  - destruct (it_result i) as [result|] eqn:Er.
    { apply Hnext; [done|congruence| |].
      + unfold item_state. by rewrite Ee, Et, Er.
      + intros ->. split; [done|]. unfold item_done. rewrite Ee, Et, Er. done. }
    destruct Hi as [h Eh]. rewrite Eh. apply wpe_bind, wpe_ask. destruct (cl_ready h w).1; cbn [negb].
    2: { apply Hnext; [done|congruence| |done]. unfold item_state. by rewrite Ee, Et, Er. }
    apply wpe_bind, wpe_ask. set (result := (cl_get h _).1).
    destruct (negb _ || _) eqn:Eb.
    + apply wpe_bind, wpe_for_each; [intros; apply wpe_when; intros _; [by apply wpe_cancel_acquire|done]|].
      intros w1. apply wpe_ret. cbn. eexists. split; [done|]. by destruct (status_ok result.1) eqn:Eok.
    + apply orb_false_iff in Eb as [Hok%negb_false_iff Hl%bool_decide_eq_false].
      apply Hnext; [done|cbn; congruence| |].
      * unfold item_state. cbn. rewrite Ee, Et. split; [done|]. by apply not_eq_None_Some.
      * intros ->. split; [done|]. unfold item_done. cbn. by rewrite Ee, Et.
  - destruct (it_host i) as [lease|] eqn:El.
    { apply Hnext; [done|congruence| |].
      + unfold item_state. rewrite Ee, Et, El. by left.
      + intros ->. split; [done|]. unfold item_done. rewrite Ee, Et, El. done. }
    destruct Hi as [[? ?]|[h Eh]]; [done|]. rewrite Eh. apply wpe_bind, wpe_ask. destruct (cl_preload_ready h w).1; cbn [negb].
    2: { apply Hnext; [done|congruence| |done]. unfold item_state. rewrite Ee, Et, Eh. by right. }
    apply wpe_bind, wpe_ask. destruct (cl_preload_get h _).1 as [[status kept] lease].
    assert (forall w', wpe (poll_items (past ++ [with_error
        (if status_ok status then mkStatus internal "host expert resolve completed without ownership" else status) i]) rest
        false) (fun q _ => polled (dones ++ r :: requests') q) (fun _ => False) w') as Hfail.
    { intros w'. apply Hnext; [done|cbn; congruence| |done]. unfold item_state. cbn. by destruct (status_ok status) eqn:Es. }
    destruct lease as [lease|]; [|apply Hfail]. destruct (_ || _); [apply Hfail|].
    apply wpe_bind, wpe_when; intros _.
    + apply wpe_bind, wpe_ask, wpe_ret. apply Hnext; [done|cbn; congruence| |].
      * unfold item_state. cbn. rewrite Ee, Et. by left.
      * intros ->. split; [done|]. unfold item_done. cbn. by rewrite Ee, Et.
    + apply Hnext; [done|cbn; congruence| |].
      * unfold item_state. cbn. rewrite Ee, Et. by left.
      * intros ->. split; [done|]. unfold item_done. cbn. by rewrite Ee, Et.
  - apply Hnext; [done|congruence| |].
    + unfold item_state. by rewrite Ee, Et.
    + intros ->. split; [done|]. unfold item_done. by rewrite Ee, Et.
Qed.

(** Items that are done are published, each for its request. *)
Lemma publish_spec l requests :
  Forall2 item_for requests l -> Forall item_done l ->
  exists experts, publish (Executor := Executor) l = Ok experts /\ Forall2 local_serves requests experts.
Proof.
  intros H. induction H as [|r i requests l (Hk & Ht & Hi) H IH]; intros Hd; [by exists []|].
  apply Forall_cons in Hd as [[He Hi'] Hd]. destruct (IH Hd) as (experts & Hp & Hs). cbn [publish].
  unfold item_state in Hi. rewrite He in Hi.
  destruct (it_target i) eqn:Et; try done.
  - destruct Hi' as [x Ex]. rewrite Ex in *. cbn [obind]. rewrite Hp. cbn [obind]. eexists. split; [done|].
    constructor; [|done]. unfold local_serves. rewrite <- Ht. cbn. naive_solver.
  - destruct Hi' as [x Ex]. rewrite Ex. cbn [obind]. rewrite Hp. cbn [obind]. eexists. split; [done|].
    constructor; [|done]. unfold local_serves. rewrite <- Ht. cbn. naive_solver.
  - destruct Hi' as [x Ex]. rewrite Ex. cbn [obind]. rewrite Hp. cbn [obind]. eexists. split; [done|].
    constructor; [|done]. unfold local_serves. rewrite <- Ht. cbn. naive_solver.
Qed.

Lemma start_item_spec r w :
  rq_target r <> to_remote ->
  wpe (start_item (Acquire := Acquire) (Preload := Preload) r) (fun i _ => item_for r i) (fun _ => False) w.
Proof.
  intros Hr. unfold start_item, item_for, local_target.
  destruct (rq_target r) eqn:Et; try done; apply wpe_bind, wpe_ask, wpe_ret; cbn; (split; [done|]);
    (split; [done|]); unfold item_state; cbn.
  - by eexists.
  - destruct (cl_preload_valid _); [right; by eexists|done].
  - destruct (cl_try_acquire_host _ _ _ _ _).1; [by eexists|done].
  - by eexists.
Qed.

Lemma start_items_spec l w :
  wpe (start_items (Acquire := Acquire) (Preload := Preload) l)
    (fun r _ => match r with Some items => Forall2 item_for l items | None => True end) (fun _ => False) w.
Proof.
  revert w. induction l as [|r l IH]; intros w; cbn; [by cbn; constructor|].
  case_bool_decide as Hr; [by apply wpe_ret|]. apply wpe_bind.
  eapply wpe_mono; [by apply start_item_spec|]. intros i w1 Hi. apply wpe_bind.
  eapply wpe_mono; [apply IH|]. intros [items|] w2 Hl; apply wpe_ret; [by constructor|done].
Qed.

#[export] Instance local_store_spec :
  StoreSpec (W := W) (S := LocalResolveState) local_serves local_live.
Proof.
  split.
  - intros requests w. cbn. unfold local_resolve. case_bool_decide as Hn; [by apply wpe_ret, no_handle|].
    destruct (duplicated_key _ _); [by apply wpe_ret, no_handle|].
    apply wpe_bind. eapply wpe_mono; [apply start_items_spec|]. intros [l|] w1 Hl; apply wpe_ret; [|apply no_handle].
    apply from_callbacks_spec. split; [done|]. split; [|done]. cbn. intros ->. by apply Forall2_nil_inv_r in Hl as ->.
  - intros requests. split.
    + intros s w (Ht & Hne & Hl). cbn. unfold local_poll. rewrite Ht. destruct (items s) as [|i l0] eqn:Ei; [done|]. rewrite <- Ei in *. clear Ei i l0.
      rewrite bool_decide_eq_false_2 by (by destruct (items s)). cbn [orb].
      apply wpe_bind. eapply wpe_mono; [apply (poll_items_spec _ _ _ [] requests); [constructor|done|constructor]|].
      intros [[[result|] l] complete] w1; cbn [polled app].
      * intros (status & -> & Hs). apply wpe_ret; cbn. by apply failed_union.
      * intros [Hl' Hc]. destruct complete; cbn [negb].
        2: { apply wpe_ret. cbn. split; [done|]. split; [|done]. cbn. intros ->. apply Forall2_length in Hl', Hl. by destruct requests, (items s). }
        destruct (publish_spec l requests Hl' (Hc eq_refl)) as (experts & -> & Hs). cbn.
        by left.
    + intros s w (Ht & _). cbn. unfold local_cancel. rewrite Ht.
      apply wpe_bind, wpe_for_each; [intros; by apply wpe_cancel_unresolved|]. intros w1. by apply wpe_ret.
  - intros r e [Hk Hs]. split; [done|]. unfold has_lease.
    destruct (local_target r); try done; destruct Hs as [-> ?]; by apply bool_decide_eq_true.
Qed.
End LocalStore.
(** ** Owners *)

Context (owner : Executor -> list Z).

#[local] Notation RemoteExpertOwnerRange := (@RemoteExpertOwnerRange Executor).

(** A range that [add] accepts names an owner and ends within 32 bits. *)
Record range_ok (r : RemoteExpertOwnerRange) : Prop := {
  rg_executor : is_Some (ro_executor r);
  rg_layers : 0 <= first_layer r /\ 0 < layer_count r /\ first_layer r + layer_count r <= U32_MAX;
  rg_experts : 0 <= first_expert r /\ 0 < expert_count r /\ first_expert r + expert_count r <= U32_MAX }.

(** The fields of a range are unsigned. *)
Definition range_typed (r : RemoteExpertOwnerRange) : Prop :=
  0 <= first_layer r /\ 0 <= layer_count r /\ 0 <= first_expert r /\ 0 <= expert_count r.

Definition disjoint (a b : RemoteExpertOwnerRange) : Prop :=
  forall key, range_covers key a = true -> range_covers key b = true -> False.

Record directory_ok (l : list RemoteExpertOwnerRange) : Prop := {
  dy_ranges : Forall range_ok l;
  dy_disjoint i j a b : l !! i = Some a -> l !! j = Some b -> i <> j -> disjoint a b }.

Lemma invalid_range_false r : range_typed r -> invalid_range owner r = false -> range_ok r.
Proof.
  intros (H1 & H2 & H3 & H4). unfold invalid_range. rewrite !orb_false_iff, !Z.eqb_neq, !Z.ltb_ge.
  intros (((((_ & Hl) & He) & Hx) & Hle) & Hee). destruct (ro_executor r) as [e|] eqn:Ex; [|done].
  split; [by eexists|lia..].
Qed.

(** Ranges that do not overlap cover no common key. *)
Lemma not_overlaps a b : range_ok a -> range_ok b -> overlaps a b = false -> disjoint a b.
Proof.
  intros [_ La Ea] [_ Lb Eb] Ho key Ha Hb. unfold overlaps, add32 in Ho.
  rewrite !wrap32_small in Ho by (unfold u32; lia). unfold range_covers in Ha, Hb.
  rewrite !andb_true_iff, !Z.eqb_eq, !Z.leb_le, !Z.ltb_lt in Ha, Hb.
  rewrite !andb_false_iff, Z.eqb_neq, !Z.ltb_ge in Ho. lia.
Qed.

Lemma add_range_ok r l : range_typed r -> directory_ok l -> directory_ok (add_range owner r l).2.
Proof.
  intros Ht Hl. unfold add_range. destruct (invalid_range owner r) eqn:Hi; [done|].
  destruct (existsb (overlaps r) l) eqn:Ho; [done|]. destruct Hl as [Hr Hd].
  pose proof (invalid_range_false r Ht Hi) as Hok.
  assert (forall a, a ∈ l -> disjoint r a) as Hnew.
  { intros a Ha. apply not_overlaps; [done|by eapply Forall_forall|]. destruct (overlaps r a) eqn:E; [|done].
    rewrite <- not_true_iff_false in Ho. destruct Ho. apply existsb_exists. exists a. by rewrite <- list_elem_of_In. }
  split; [apply Forall_app; split; [done|by constructor]|].
  intros i j a b Ha Hb Hij key Hka Hkb. cbn in Ha, Hb.
  apply lookup_app_Some in Ha as [Ha|[Hla Ha]], Hb as [Hb|[Hlb Hb]];
    try apply list_lookup_singleton_Some in Ha as [? <-]; try apply list_lookup_singleton_Some in Hb as [? <-].
  - exact (Hd i j a b Ha Hb Hij key Hka Hkb).
  - exact (Hnew a (list_elem_of_lookup_2 _ _ _ Ha) key Hkb Hka).
  - exact (Hnew b (list_elem_of_lookup_2 _ _ _ Hb) key Hka Hkb).
  - lia.
Qed.

(** The directory after adding ranges one after the other, those refused included. *)
Definition add_all (l : list RemoteExpertOwnerRange) : list RemoteExpertOwnerRange :=
  foldl (fun ranges r => (add_range owner r ranges).2) [] l.

Lemma add_all_ok l : Forall range_typed l -> directory_ok (add_all l).
Proof.
  unfold add_all. assert (directory_ok []) as H0 by by (split; [constructor|]).
  revert H0. generalize ([] : list RemoteExpertOwnerRange). induction l as [|r l IH]; intros d Hd Hl; [done|].
  apply Forall_cons in Hl as [Hr Hl]. apply IH; [by apply add_range_ok|done].
Qed.

(** No two ranges that share a key differ in their executor. *)
Definition unambiguous (d : list RemoteExpertOwnerRange) : Prop :=
  forall key a b, a ∈ d -> b ∈ d -> range_covers key a = true -> range_covers key b = true -> ro_executor a = ro_executor b.

Lemma directory_unambiguous d : directory_ok d -> unambiguous d.
Proof.
  intros [_ Hd] key a b Ha Hb Hka Hkb. apply list_elem_of_lookup in Ha as [i Hi], Hb as [j Hj].
  destruct (decide (i = j)) as [->|Hne]; [by simplify_eq|]. by destruct (Hd i j a b Hi Hj Hne key).
Qed.

Lemma find_owner_covers d key r :
  unambiguous d -> r ∈ d -> range_covers key r = true -> find_owner key d = ro_executor r.
Proof.
  intros Hd Hr Hk. unfold find_owner. destruct (List.find (range_covers key) d) as [q|] eqn:Ef.
  - apply find_some in Ef as [Hq Hkq]. apply list_elem_of_In in Hq. by apply (Hd key).
  - apply list_elem_of_In in Hr. by rewrite (find_none _ _ Ef r Hr) in Hk.
Qed.

Lemma find_owner_some (d : list RemoteExpertOwnerRange) key : is_Some (find_owner key d) -> exists r, r ∈ d /\ range_covers key r = true.
Proof.
  unfold find_owner. destruct (List.find (range_covers key) d) as [q|] eqn:Ef; [|by intros [? ?]].
  intros _. apply find_some in Ef as [Hq Hkq]. apply list_elem_of_In in Hq. eauto.
Qed.

(** one logical expert page has at most one owner. Whatever ranges are added, in whatever
    order, the ranges that [ActiveExpertOwnerDirectory::add] keeps never share a key, so
    [find] answers a key with the executor of the one range that covers it, answers every
    covered key, and gives the same answer for every order of the kept ranges. *)
Theorem owners_are_unambiguous l key d :
  Forall range_typed l -> Permutation (add_all l) d ->
  (forall r, r ∈ add_all l -> range_covers key r = true -> find_owner key d = ro_executor r) /\
  ((exists r, r ∈ add_all l /\ range_covers key r = true) <-> is_Some (find_owner key d)) /\
  find_owner key d = find_owner key (add_all l).
Proof.
  intros Hl Hp. pose proof (add_all_ok l Hl) as Hok.
  assert (unambiguous d) as Hd.
  { intros key' a b Ha Hb. rewrite <- Hp in Ha, Hb. by apply (directory_unambiguous _ Hok key'). }
  split; [|split].
  - intros r Hr. rewrite Hp in Hr. by apply find_owner_covers.
  - split; [|intros (r & Hr & Hk)%find_owner_some; rewrite <- Hp in Hr; eauto].
    intros (r & Hr & Hk). pose proof (dy_ranges _ Hok) as Hall. rewrite Forall_forall in Hall.
    pose proof (rg_executor _ (Hall r Hr)). rewrite Hp in Hr. by rewrite (find_owner_covers d key r).
  - destruct (find_owner key (add_all l)) as [e|] eqn:Ef.
    + destruct (find_owner_some (add_all l) key ltac:(by eexists)) as (r & Hr & Hk). rewrite <- Ef.
      rewrite (find_owner_covers (add_all l) key r (directory_unambiguous _ Hok) Hr Hk). rewrite Hp in Hr.
      by apply find_owner_covers.
    + destruct (find_owner key d) as [e|] eqn:Ed; [|done].
      destruct (find_owner_some d key ltac:(by eexists)) as (r & Hr & Hk). rewrite <- Ef, <- Ed.
      rewrite (find_owner_covers d key r Hd Hr Hk). rewrite <- Hp in Hr. symmetry.
      by apply find_owner_covers; [apply directory_unambiguous|..].
Qed.

(** ** The remote store *)

Definition remote_serves (s : @RemoteExpertStore Executor) (r : ExpertResolveRequest) (e : ResolvedExpert) : Prop :=
  re_key e = rq_key r /\ re_placement e = on_remote /\
  exists executor, find_owner (rq_key r) (owners s) = Some executor /\
    remote_lease e = Some (identity_of (contract s) (rq_key r), executor).

Definition immediate_live (s : @RemoteExpertStore Executor) (requests : list ExpertResolveRequest)
    (i : @ImmediateRemoteResolveState DeviceLease HostLease Executor) : Prop :=
  immediate_terminal i = false /\ all_or_nothing (remote_serves s) requests (immediate i).

Lemma bind_owners_spec s l seen experts :
  bind_owners s seen l = Some experts -> Forall2 (remote_serves s) l experts.
Proof.
  revert seen experts. induction l as [|r l IH]; intros seen experts; cbn; [by intros [= <-]|].
  case_match; [done|]. destruct (find_owner (rq_key r) (owners s)) as [executor|] eqn:Ef; [|done].
  destruct (bind_owners _ _ _) as [rest|] eqn:Eb; [|done]. intros [= <-]. constructor; [|by eapply IH].
  split; [done|]. split; [done|]. eauto.
Qed.

Section RemoteStore.
Context {W : Type} (s : @RemoteExpertStore Executor).

Lemma remote_resolve_spec requests (w : W) :
  wpe (remote_resolve (DeviceLease := DeviceLease) (HostLease := HostLease) s requests)
    (fun h _ => live_handle (immediate_live s requests) h) (fun _ => False) w.
Proof.
  unfold remote_resolve. destruct (_ || _); [by apply wpe_ret|].
  destruct (bind_owners s ∅ requests) as [experts|] eqn:Eb; apply wpe_ret; [|done].
  apply (from_callbacks_spec (immediate_live s requests)). split; [done|]. left. split; [done|].
  by eapply bind_owners_spec.
Qed.

#[export] Instance immediate_spec requests :
  CallbacksSpec (W := W) (immediate_live s requests) (all_or_nothing (remote_serves s) requests).
Proof.
  split; intros i w [Ht Hr]; cbn; [|done]. unfold remote_poll. rewrite Ht. exact Hr.
Qed.
End RemoteStore.
(** ** The placement store *)

Section PlacementStore.
Context {W S : Type} `{!ExpertStore (DeviceLease:=DeviceLease) (HostLease:=HostLease) (Executor:=Executor) W S}.
Context {serves : ExpertResolveRequest -> ResolvedExpert -> Prop} {live : list ExpertResolveRequest -> S -> Prop}.
Context `{!StoreSpec (W:=W) (S:=S) serves live} (remote : @RemoteExpertStore Executor).

(** The request as the store that it is sent to sees it. *)
Definition routed (r : ExpertResolveRequest) : ExpertResolveRequest :=
  if use_remote remote r then with_target to_remote r
  else if bool_decide (rq_target r = to_automatic) then with_target to_device r else r.

(** Explicit and owned automatic remote requests are answered by their owner, the others by
    the local store. *)
Definition placement_serves (r : ExpertResolveRequest) (e : ResolvedExpert) : Prop :=
  if use_remote remote r then remote_serves remote (routed r) e else serves (routed r) e.

Lemma routed_key r : rq_key (routed r) = rq_key r.
Proof. unfold routed. by repeat case_match. Qed.

Lemma placement_serves_key r e : placement_serves r e -> re_key e = rq_key r /\ has_lease e = true.
Proof.
  unfold placement_serves. rewrite <- routed_key. destruct (use_remote remote r).
  - intros (Hk & Hp & ex & _ & Hl). split; [done|]. unfold has_lease. rewrite Hp. apply bool_decide_eq_true. by eexists.
  - apply (serves_key (S := S)).
Qed.

(** What a split sends to one of the stores. *)
Definition part_of (to : bool) (requests : list ExpertResolveRequest) (part : list (nat * ExpertResolveRequest)) : Prop :=
  Forall (fun ir => exists r, requests !! ir.1 = Some r /\ ir.2 = routed r /\ use_remote remote r = to) part.

Definition covered (requests : list ExpertResolveRequest) (locals remotes : list (nat * ExpertResolveRequest)) : Prop :=
  forall i, (i < length requests)%nat -> i ∈ locals.*1 \/ i ∈ remotes.*1.

Lemma split_requests_spec l past seen locals remotes :
  split_requests remote seen (length past) l = Some (locals, remotes) ->
  part_of false (past ++ l) locals /\ part_of true (past ++ l) remotes /\
  forall i, (length past <= i < length (past ++ l))%nat -> i ∈ locals.*1 \/ i ∈ remotes.*1.
Proof.
  revert past seen locals remotes. induction l as [|r l IH]; intros past seen locals remotes; cbn.
  { intros [= <- <-]. split; [constructor|]. split; [constructor|]. intros i Hi. rewrite app_nil_r in Hi. lia. }
  case_match; [done|]. case_match; [done|].
  destruct (split_requests _ _ _ _) as [[locals' remotes']|] eqn:E; [|done].
  replace (Datatypes.S (length past)) with (length (past ++ [r])) in E by (rewrite length_app; cbn; lia).
  apply IH in E. rewrite <- app_assoc in E. cbn [app] in E. destruct E as (Hl & Hr & Hc).
  assert ((past ++ r :: l) !! length past = Some r) as Hlook.
  { rewrite lookup_app_r, Nat.sub_diag by lia. done. }
  assert (routed r = if use_remote remote r then with_target to_remote r
                     else if bool_decide (rq_target r = to_automatic) then with_target to_device r else r) as Er by done.
  destruct (use_remote remote r) eqn:Eu; intros [= <- <-].
  - split; [done|]. split; [constructor; [by exists r|done]|]. intros i Hi.
    destruct (decide (i = length past)) as [->|]; [right; by constructor|].
    destruct (Hc i) as [?|?]; [rewrite !length_app in *; cbn in *; lia|by left|right; by constructor].
  - split; [constructor; [by exists r|done]|]. split; [done|]. intros i Hi.
    destruct (decide (i = length past)) as [->|]; [left; by constructor|].
    destruct (Hc i) as [?|?]; [rewrite !length_app in *; cbn in *; lia|left; by constructor|by right].
Qed.

(** The places filled so far hold answers to their requests. *)
Definition filled_ok (requests : list ExpertResolveRequest) (found : list (option ResolvedExpert)) : Prop :=
  length found = length requests /\
  forall i e, found !! i = Some (Some e) -> exists r, requests !! i = Some r /\ placement_serves r e.

Definition filled (found : list (option ResolvedExpert)) (i : nat) : Prop := exists e, found !! i = Some (Some e).

Lemma place_spec requests part experts found to :
  part_of to requests part ->
  Forall2 (if to then remote_serves remote else serves) part.*2 experts -> filled_ok requests found ->
  exists found', place (rq_key <$> requests) part.*1 experts found = Ok (None, found') /\ filled_ok requests found' /\
    (forall i, filled found i -> filled found' i) /\ (forall i, i ∈ part.*1 -> filled found' i).
Proof.
  revert experts found. induction part as [|[i r'] part IH]; intros experts found Hp He Hf.
  { cbn. exists found. split_and!; [done..|]. by intros i ?%elem_of_nil. }
  apply Forall_cons in Hp as [(r & Hr & Er & Ht) Hp]. cbn in Hr, Er, Ht, He. subst r'.
  apply Forall2_cons_inv_l in He as (e & experts' & Hs & He & ->).
  assert (placement_serves r e) as Hse by (unfold placement_serves; rewrite Ht; by destruct to).
  destruct (placement_serves_key r e Hse) as [Hk Hl].
  assert (filled_ok requests (<[i := Some e]> found)) as Hf'.
  { destruct Hf as [Hlen Hf]. split; [by rewrite length_insert|]. intros j e' Hj.
    destruct (decide (j = i)) as [->|Hne].
    - rewrite list_lookup_insert_eq in Hj by (rewrite Hlen; by eapply lookup_lt_Some). simplify_eq. eauto.
    - rewrite list_lookup_insert_ne in Hj by done. by apply Hf. }
  destruct (IH experts' _ Hp He Hf') as (found' & Hplace & Hok & Hkeep & Hall).
  cbn [place fmap list_fmap fst]. rewrite list_lookup_fmap, Hr. cbn [fmap option_fmap option_map]. rewrite Hl, Hk.
  rewrite bool_decide_eq_true_2 by done. cbn [negb orb]. exists found'. split; [exact Hplace|]. split; [done|].
  assert (filled (<[i := Some e]> found) i) as Hi.
  { exists e. destruct Hf as [Hlen _]. apply list_lookup_insert_eq. rewrite Hlen. by eapply lookup_lt_Some. }
  split.
  - intros j [e' Hj]. apply Hkeep. destruct (decide (j = i)) as [->|Hne]; [done|]. exists e'.
    by rewrite list_lookup_insert_ne.
  - intros j [->|Hj]%elem_of_cons; [by apply Hkeep|by apply Hall].
Qed.
(** A batch in progress: its handle is live, or its members are in their places. *)
Record batch_state {T} (to : bool) (live_t : list ExpertResolveRequest -> T -> Prop)
    (requests : list ExpertResolveRequest) (part : list (nat * ExpertResolveRequest))
    (found : list (option ResolvedExpert)) (b : Batch T) : Prop := {
  bs_part : part_of to requests part;
  bs_indices : indices b = part.*1;
  bs_state : if batch_complete b then handle_valid (batch_handle b) = false /\ forall i, i ∈ part.*1 -> filled found i
             else live_handle (live_t part.*2) (batch_handle b) }.

Lemma poll_batch_spec {T} (to : bool) (live_t : list ExpertResolveRequest -> T -> Prop) `{!Callbacks W T ExpertResolveResult}
    `{!forall l, CallbacksSpec (W:=W) (live_t l) (all_or_nothing (if to then remote_serves remote else serves) l)}
    requests part found b w :
  batch_state to live_t requests part found b -> filled_ok requests found ->
  wpe (poll_batch (rq_key <$> requests) found b)
    (fun p _ => match p.1.1 with
                | Some error => status_ok error = false
                | None => filled_ok requests p.1.2 /\ (forall i, filled found i -> filled p.1.2 i) /\
                          batch_state to live_t requests part p.1.2 p.2
                end) (fun _ => False) w.
Proof.
  intros [Hp Hi Hs] Hf. unfold poll_batch. destruct (batch_complete b) eqn:Ec.
  { apply wpe_ret. cbn. split; [done|]. split; [done|]. split; [done..|by rewrite Ec]. }
  apply wpe_bind. eapply wpe_mono; [by apply handle_poll_settles|].
  intros [[result|] h] w1; cbn [fst snd].
  2: { intros Hl. apply wpe_ret. cbn. split; [done|]. split; [done|]. by split. }
  intros [[[Hok He]|[Hok He]] Hv]; rewrite Hok; cbn [negb].
  2: { by apply wpe_ret. }
  rewrite bool_decide_eq_true_2.
  2: { apply Forall2_length in He. cbn [indices]. rewrite Hi, <- He. by rewrite !length_fmap. }
  cbn [negb indices]. rewrite Hi.
  destruct (place_spec _ _ _ _ _ Hp He Hf) as (found' & -> & Hf' & Hkeep & Hall).
  apply wpe_bind, wpe_lift, wpe_ret. cbn. split; [done|]. split; [done|]. by split.
Qed.

Lemma cancel_batch_spec {T} (to : bool) (live_t : list ExpertResolveRequest -> T -> Prop) `{!Callbacks W T ExpertResolveResult}
    `{!forall l, CallbacksSpec (W:=W) (live_t l) (all_or_nothing (if to then remote_serves remote else serves) l)}
    requests part found b (Q : Batch T -> W -> Prop) w :
  batch_state to live_t requests part found b -> (forall b' w', Q b' w') ->
  wpe (cancel_batch b) Q (fun _ => False) w.
Proof.
  intros [_ _ Hs] HQ. unfold cancel_batch. apply wpe_bind.
  assert (exists l, live_handle (live_t l) (batch_handle b)) as [l Hl].
  { destruct (batch_complete b); [|eauto]. exists []. destruct Hs as [Hv _]. intros core E Ht.
    rewrite E in Hv. cbn in Hv. by rewrite Ht in Hv. }
  eapply wpe_mono; [by eapply handle_cancel_spec|]. intros h w' _. by apply wpe_ret.
Qed.

Definition placement_live (requests : list ExpertResolveRequest) (s : PlacementResolveState) : Prop :=
  placement_terminal s = false /\ expected s = rq_key <$> requests /\ filled_ok requests (resolved s) /\
  exists locals remotes, covered requests locals remotes /\
    batch_state false live requests locals (resolved s) (local_batch s) /\
    batch_state true (immediate_live remote) requests remotes (resolved s) (remote_batch s).

Lemma batch_state_mono {T} (to : bool) (live_t : list ExpertResolveRequest -> T -> Prop) requests part found found' b :
  (forall i, filled found i -> filled found' i) -> batch_state to live_t requests part found b ->
  batch_state to live_t requests part found' b.
Proof. intros Hm [? ? Hs]. split; [done..|]. destruct (batch_complete b); [|done]. destruct Hs. split; auto. Qed.

(** When every place is filled the union is answered. *)
Lemma join_spec requests found :
  filled_ok requests found -> (forall i, (i < length requests)%nat -> filled found i) ->
  all_or_nothing placement_serves requests (join found).
Proof.
  intros [Hlen Hf] Hall. left. unfold join.
  assert (exists experts, found = Some <$> experts) as [experts ->].
  { clear Hf. revert requests Hlen Hall. induction found as [|e found IH]; intros requests Hlen Hall; [by exists []|].
    destruct requests as [|r requests]; [done|]. destruct (Hall 0%nat) as [e' He]; [cbn; lia|]. cbn in He. simplify_eq/=.
    destruct (IH requests) as [experts ->]; [done| |by exists (e' :: experts)].
    intros i Hi. destruct (Hall (Datatypes.S i)) as [e He]; [cbn; lia|]. by exists e. }
  assert (mapM id (Some <$> experts) = Some experts) as ->.
  { clear. induction experts as [|e experts IH]; cbn; [done|]. by rewrite IH. }
  cbn. split; [done|]. rewrite length_fmap in Hlen. apply Forall2_same_length_lookup. split; [done|].
  intros i r e Hr He. destruct (Hf i e) as (r' & Hr' & Hs); [by rewrite list_lookup_fmap, He|]. by simplify_eq.
Qed.
#[local] Existing Instance placement_store.

Lemma placement_poll_spec requests s w :
  placement_live requests s ->
  wpe (placement_poll s) (fun rs _ => match rs.1 with
                                      | Some r => all_or_nothing placement_serves requests r
                                      | None => placement_live requests rs.2
                                      end) (fun _ => False) w.
Proof.
  intros (Ht & He & Hf & locals & remotes & Hc & Hl & Hr). unfold placement_poll. rewrite Ht, He.
  apply wpe_bind. eapply wpe_mono; [by apply (poll_batch_spec false live)|].
  intros [[[error|] found] local] w1; cbn [fst snd].
  { intros Herr. apply wpe_bind. eapply (cancel_batch_spec true (immediate_live remote)); [exact Hr|]. intros b w2. apply wpe_ret.
    by apply failed_union. }
  intros (Hf1 & Hm1 & Hl1). apply wpe_bind.
  eapply wpe_mono; [apply (poll_batch_spec true (immediate_live remote)); [by eapply batch_state_mono|done]|].
  intros [[[error|] found'] theirs] w2; cbn [fst snd].
  { intros Herr. apply wpe_bind. eapply (cancel_batch_spec false live); [exact Hl1|]. intros b w3. apply wpe_ret.
    by apply failed_union. }
  intros (Hf2 & Hm2 & Hr2). destruct (negb _ || negb _) eqn:Eb; apply wpe_ret; cbn [fst snd].
  - split; [done|]. split; [done|]. split; [done|]. exists locals, remotes. split; [done|].
    split; [by eapply batch_state_mono|done].
  - apply orb_false_iff in Eb as [Ecl%negb_false_iff Ecr%negb_false_iff].
    destruct Hl1 as [_ _ Hsl], Hr2 as [_ _ Hsr]. rewrite Ecl in Hsl. rewrite Ecr in Hsr.
    apply join_spec; [done|]. intros i Hi. destruct (Hc i Hi) as [Hin|Hin]; [apply Hm2|]; by (apply Hsl || apply Hsr).
Qed.

Lemma placement_cancel_spec requests s w :
  placement_live requests s -> wpe (placement_cancel s) (fun _ _ => True) (fun _ => False) w.
Proof.
  intros (Ht & He & Hf & locals & remotes & Hc & Hl & Hr). unfold placement_cancel. rewrite Ht.
  apply wpe_bind. eapply (cancel_batch_spec false live); [exact Hl|]. intros b w1.
  apply wpe_bind. eapply (cancel_batch_spec true (immediate_live remote)); [exact Hr|]. intros b' w2. by apply wpe_ret.
Qed.

Lemma placement_resolve_spec requests w :
  wpe (placement_resolve remote requests)
    (fun h _ => live_handle (placement_live requests) h /\
                forall core, h = Some core -> extra core = Z.of_nat (length requests)) (fun _ => False) w.
Proof.
  unfold placement_resolve. case_bool_decide as Hn; [by apply wpe_ret, no_handle|].
  destruct (split_requests _ _ _ _) as [[locals remotes]|] eqn:Es; [|by apply wpe_ret, no_handle].
  apply (split_requests_spec requests [] ∅) in Es as (Hpl & Hpr & Hcov).
  apply wpe_bind.
  apply (wpe_mono _ (fun local _ => if bool_decide (length locals = 0%nat) then local = None
                                    else live_handle (live locals.*2) local)).
  { case_bool_decide; [by apply wpe_ret|]. eapply wpe_mono; [apply (store_resolve_spec (serves := serves))|]. by intros ? ? [? _]. }
  intros local w1 Hlocal. destruct (negb _ && negb _); [by apply wpe_ret, no_handle|]. apply wpe_bind.
  apply (wpe_mono _ (fun theirs _ => if bool_decide (length remotes = 0%nat) then theirs = None
                                     else live_handle (immediate_live remote remotes.*2) theirs)).
  { destruct (bool_decide (length remotes = 0%nat)); [by apply wpe_ret|]. apply remote_resolve_spec. }
  intros theirs w2 Htheirs. destruct (negb _ && negb _).
  { apply wpe_bind. unfold resolve_cancel.
    eapply (wpe_mono _ (fun _ _ => True)); [|intros ? ? _; by apply wpe_ret, no_handle].
    assert (exists l, live_handle (live l) local) as [l Hl].
    { destruct (bool_decide (length locals = 0%nat)); [|eauto]. exists []. rewrite Hlocal. intros core Hcore. discriminate Hcore. }
    eapply wpe_mono; [by apply (handle_cancel_spec (live := live l) (good := all_or_nothing serves l))|done]. }
  apply wpe_ret, from_callbacks_spec. split; [done|]. split; [done|]. split.
  { split; [cbn; by rewrite length_replicate|]. cbn. intros i e He. by apply lookup_replicate in He as [? _]. }
  exists locals, remotes. split; [intros i Hi; apply Hcov; cbn; lia|].
  split; (split; [done|done|]); cbn.
  - destruct (bool_decide (length locals = 0%nat)) eqn:Hz; [|done]. apply bool_decide_eq_true, nil_length_inv in Hz as ->.
    rewrite Hlocal. split; [done|]. by intros i ?%elem_of_nil.
  - destruct (bool_decide (length remotes = 0%nat)) eqn:Hz; [|done]. apply bool_decide_eq_true, nil_length_inv in Hz as ->.
    rewrite Htheirs. split; [done|]. by intros i ?%elem_of_nil.
Qed.

#[export] Instance placement_store_spec :
  @StoreSpec W (@PlacementResolveState DeviceLease HostLease Executor S) (placement_store remote) placement_serves placement_live.
Proof.
  split.
  - apply placement_resolve_spec.
  - intros requests. split; intros s w Hs; [by apply placement_poll_spec|by eapply placement_cancel_spec].
  - apply placement_serves_key.
Qed.
End PlacementStore.
(** C35: a union of experts is resolved entirely or not at all. For every list of requests,
    over any cache and any owner directory, [PlacementExpertStore::resolve] over a local store
    returns, and so does every later poll and cancellation; the handle publishes at most one
    result, and that result is either a failure without experts, or a success with exactly
    one expert per request, in the order of the requests, each with the key asked for and
    with the lease that its target calls for: a device lease, a host lease, or the lease of
    the owner that the directory names, bound to the identity of the component. *)
Theorem union_is_all_or_nothing {W Acquire Preload : Type}
    `{!CacheClient (DeviceLease:=DeviceLease) (HostLease:=HostLease) W Acquire Preload}
    (remote : @RemoteExpertStore Executor) requests calls (w : W) :
  exists results h w',
    (let* h := placement_resolve remote requests in
     run_calls (Callbacks0 := @store_callbacks _ _ _ _ _ (placement_store remote)) calls h) w = Ok ((results, h), w') /\
    (length results <= 1)%nat /\
    Forall (all_or_nothing (placement_serves (serves := local_serves) remote) requests) results.
Proof.
  pose proof (placement_resolve_spec (serves := local_serves) (live := local_live) remote requests w) as Hr.
  unfold wpe in Hr. unfold bind. destruct (placement_resolve remote requests w) as [[h w1]|]; [|done].
  destruct Hr as [Hr _].
  destruct (handle_publishes_once (good := all_or_nothing (placement_serves (serves := local_serves) remote) requests)
    (CallbacksSpec0 := @store_result_spec _ _ _ _ _ (placement_store_spec remote) requests) calls h w1 Hr)
    as (results & h' & w' & E & ? & ?). eauto 6.
Qed.
End Stores.

(** ** Examples *)

Definition demo_range (first count : Z) (name : string) : RemoteExpertOwnerRange (Executor := string) :=
  mkOwnerRange 7 0 4 first count (Some name).

Definition demo_ranges : list (RemoteExpertOwnerRange (Executor := string)) :=
  [demo_range 0 8 "a"; demo_range 4 8 "b"; demo_range 8 8 "c"].

(** The second range overlaps the first and is refused. *)
Lemma owners_are_unambiguous_witness :
  add_all bytes demo_ranges = [demo_range 0 8 "a"; demo_range 8 8 "c"] /\
  find_owner (mkExpertKey 7 2 9 1) [demo_range 8 8 "c"; demo_range 0 8 "a"] = Some "c"%string.
Proof.
  assert (add_all bytes demo_ranges = [demo_range 0 8 "a"; demo_range 8 8 "c"]) as E by reflexivity.
  split; [exact E|].
  assert (Forall range_typed demo_ranges) as Ht by (repeat constructor; cbn; lia).
  destruct (owners_are_unambiguous bytes demo_ranges (mkExpertKey 7 2 9 1) [demo_range 8 8 "c"; demo_range 0 8 "a"] Ht)
    as (Hf & _); [rewrite E; constructor|].
  apply (Hf (demo_range 8 8 "c")); [|reflexivity]. rewrite E. by do 2 constructor.
Defined.

(** ** What the modelling showed *)

(** A cache whose device acquires fail and whose host preloads never end; the world lists
    the calls. *)
Inductive CacheCall : Type := called_acquire | called_cancel | called_preload | called_preload_cancel.

#[local] Instance failing_cache : CacheClient (DeviceLease := unit) (HostLease := unit) (list CacheCall) unit unit :=
  {| cl_acquire _ _ _ w := (tt, w ++ [called_acquire]);
     cl_ready _ w := (true, w);
     cl_get _ w := ((mkStatus io_failed "", None), w);
     cl_cancel _ w := (tt, w ++ [called_cancel]);
     cl_preload_host _ _ _ w := (tt, w ++ [called_preload]);
     cl_preload_valid _ := true;
     cl_preload_ready _ w := (false, w);
     cl_preload_get _ w := ((success, true, Some tt), w);
     cl_preload_cancel _ w := (tt, w ++ [called_preload_cancel]);
     cl_try_acquire_host _ _ _ _ w := (None, w);
     cl_record_access _ w := (true, w) |}.

Definition demo_union : list ExpertResolveRequest :=
  let record := mkPayloadRecord "" [] 0 0 0 0 0 0 0 0 0 0 0 [] in
  let options := mkAcquireOptions demand true true false false in
  [mkResolveRequest (mkExpertKey 7 0 1 1) record to_host options;
   mkResolveRequest (mkExpertKey 7 0 2 1) record to_device options].

(** A device member that fails ends the union, but the host preload of the same union is
    never cancelled: not then, and not by a later [cancel]. *)
Theorem failed_member_leaves_preload :
  exists h (result : @ExpertResolveResult unit unit unit),
    (let* h := store_resolve (Executor := unit) demo_union in run_calls [poll_call; cancel_call] h) []
    = Ok (([result], h), [called_preload; called_acquire]) /\ code (rr_status result) = io_failed.
Proof. eexists _, _. split; vm_compute; reflexivity. Qed.
