(* ===== verification/MoeVm.v ===== *)
(** Model of [routed_expert_runtime.cpp] and [moe_virtual_machine.cpp]: the control plane of
    one sparse component, which turns a route into a union of page requests, and the
    machine that owns a model's program and finds the component of a layer or of an
    operation. The stores behind the components are the interface of [ExpertStore]. *)

From S2P Require Import Prelude.
From S2P Require Import Storage.
From S2P Require Import Text.
From S2P Require Import RouteCensus.
From S2P Require Import ExpertCatalog.
From S2P Require Import ExpertCache.
From S2P Require Import Handles.
From S2P Require Import ExpertStore.
From S2P Require Import ModelDescriptor.
From S2P Require Import ModelProgram.
From S2P Require Import ProviderRegistry.

#[local] Open Scope bool_scope.
#[local] Notation ExpertResolveHandle S := (Handle S Z).

(** [W]: the world that the stores run on; [S]: the state shared by the callbacks of their
    handles; [Implementation]: the numeric providers. *)
Section MoeVm.
Context {W S Implementation : Type}.

(** ** The runtime of one component *)

(** [store_]: the method of the store that the runtime was given. *)
Record RoutedExpertRuntime := mkRuntime {
  component_ : RoutedExpertComponentDescriptor;
  model_content_hash_ : list Z;
  catalog_ : ExpertCatalog;
  store_ : list ExpertResolveRequest -> ST W (ExpertResolveHandle S) }.

(** The constructors, which throw. *)
Definition make_runtime (component : RoutedExpertComponentDescriptor) (hash : list Z) (catalog : ExpertCatalog)
    (store : list ExpertResolveRequest -> ST W (ExpertResolveHandle S)) : outcome RoutedExpertRuntime :=
  let status := validate_routed_component component (rc_hidden_size component) in
  if negb (status_ok status) || negb (layers_ catalog =? rc_layer_count component) ||
     negb (experts_ catalog =? rc_experts_per_layer component) ||
     negb (Z.of_nat (length (records_ catalog)) =? expert_table_entries component)
  then Throw (invalid_argument (if status_ok status then "expert catalog does not match routed component"
                                else message status))
  else Ok (mkRuntime component hash catalog store).

Definition key (r : RoutedExpertRuntime) (layer expert : Z) : ExpertKey :=
  mkExpertKey (rc_namespace_id (component_ r)) layer expert (rc_encoding_abi (component_ r)).

Definition record (r : RoutedExpertRuntime) (layer expert : Z) : option PayloadRecord :=
  find_record layer expert (catalog_ r).

(** The loop over the members, with those seen: some member is refused. *)
Fixpoint invalid_member (r : RoutedExpertRuntime) (unique : gset Z) (experts : list Z) : bool :=
  match experts with
  | [] => false
  | expert :: experts =>
    if (rc_experts_per_layer (component_ r) <=? expert) || bool_decide (expert ∈ unique) then true
    else invalid_member r ({[expert]} ∪ unique) experts
  end.

Definition validate_route (r : RoutedExpertRuntime) (layer : Z) (experts : list Z) : Status :=
  if (rc_layer_count (component_ r) <=? layer) ||
     negb (Z.of_nat (length experts) =? rc_route_width (component_ r))
  then mkStatus invalid_arg "routed expert selection has wrong shape"
  else if invalid_member r ∅ experts then mkStatus invalid_arg "routed expert selection has an invalid member"
  else success.

(** The loop that builds the requests; [None] is the early return. *)
Fixpoint route_requests (r : RoutedExpertRuntime) (layer : Z) (target : ExpertResolveTarget)
    (options : ExpertAcquireOptions) (unique : gset Z) (experts : list Z) : option (list ExpertResolveRequest) :=
  match experts with
  | [] => Some []
  | expert :: experts =>
    match record r layer expert with
    | None => None
    | Some payload =>
      if bool_decide (expert ∈ unique) then None
      else
        match route_requests r layer target options ({[expert]} ∪ unique) experts with
        | Some rest => Some (mkResolveRequest (key r layer expert) payload target options :: rest)
        | None => None
        end
    end
  end.

Definition resolve (r : RoutedExpertRuntime) (layer : Z) (experts : list Z) (target : ExpertResolveTarget)
    (options : ExpertAcquireOptions) : ST W (ExpertResolveHandle S) :=
  if (rc_layer_count (component_ r) <=? layer) || bool_decide (experts = []) then ret None
  else
    match route_requests r layer target options ∅ experts with
    | None => ret None
    | Some requests => store_ r requests
    end.

Definition census_config (r : RoutedExpertRuntime) (decay_interval_observations : Z) : RouteCensusConfig :=
  mkRouteCensusConfig (rc_namespace_id (component_ r)) (model_content_hash_ r) (rc_encoding_abi (component_ r))
    (rc_layer_count (component_ r)) (rc_experts_per_layer (component_ r)) (rc_route_width (component_ r))
    decay_interval_observations.

(** ** The machine *)

(** A pointer that may be null. *)
Record MoeVmComponentBinding := mkVmBinding { cb_name : list Z; cb_runtime : option RoutedExpertRuntime }.

Record MoeVmResolveResult := mkVmResult { vr_status : Status; vr_handle : ExpertResolveHandle S }.

Record MoeVirtualMachine := mkVm {
  descriptor_ : ModelDescriptor;
  provider_ : @BoundExecutionProvider Implementation;
  components_ : list (option RoutedExpertRuntime) }.

(** What a binding's runtime has in common with the descriptor's component. *)
Definition disagrees (runtime found : RoutedExpertComponentDescriptor) : bool :=
  negb (bool_decide (rc_name runtime = rc_name found)) ||
  negb (rc_namespace_id runtime =? rc_namespace_id found) ||
  negb (rc_layer_count runtime =? rc_layer_count found) ||
  negb (rc_experts_per_layer runtime =? rc_experts_per_layer found) ||
  negb (rc_route_width runtime =? rc_route_width found) ||
  negb (rc_encoding_abi runtime =? rc_encoding_abi found).

(** One turn of the loop over the bindings. *)
Definition bind_component (d : ModelDescriptor) (binding : MoeVmComponentBinding)
    (s : gset (list Z) * list (option RoutedExpertRuntime))
  : checked (gset (list Z) * list (option RoutedExpertRuntime)) :=
  match cb_runtime binding with
  | None => invalid "MoE VM component binding is invalid or duplicated"
  | Some runtime =>
    if bool_decide (cb_name binding = []) || bool_decide (cb_name binding ∈ s.1)
    then invalid "MoE VM component binding is invalid or duplicated"
    else
      match list_find (fun c => rc_name c = cb_name binding) (routed_components d) with
      | None => invalid "MoE VM component binding is unknown to the artifact"
      | Some (i, found) =>
        if disagrees (component_ runtime) found
        then invalid "MoE VM runtime component disagrees with the artifact"
        else inr ({[cb_name binding]} ∪ s.1, <[i := Some runtime]> s.2)
      end
  end.

(** The guard before the loop. *)
Definition incomplete_binding (d : ModelDescriptor) (provider : @BoundExecutionProvider Implementation)
    (bindings : list MoeVmComponentBinding) (destination : MoeVirtualMachine) : bool :=
  negb (bool_decide (components_ destination = [])) || bool_decide (length (bound_providers provider) = 0%nat) ||
  negb (bool_decide (ProviderRegistry.model_content_hash provider = ModelDescriptor.content_hash d)) ||
  negb (model_schema_version provider =? schema_version d) ||
  negb (length (layers (program provider)) =? length (layer_program d))%nat ||
  bool_decide (length (operations (program provider)) = 0%nat) ||
  negb (length bindings =? length (routed_components d))%nat.

Definition create (d : ModelDescriptor) (provider : @BoundExecutionProvider Implementation)
    (bindings : list MoeVmComponentBinding) (destination : MoeVirtualMachine) : Status * MoeVirtualMachine :=
  let valid := validate_model_descriptor d in
  if negb (status_ok valid) then (valid, destination)
  else if incomplete_binding d provider bindings destination
  then (mkStatus invalid_arg "MoE VM provider or component binding is incomplete", destination)
  else
    match check_each (bind_component d) bindings (∅, replicate (length (routed_components d)) None) with
    | inl status => (status, destination)
    | inr (_, components) =>
      if existsb (fun c => bool_decide (c = None)) (map (fmap (fun _ => tt)) components)
      then (mkStatus invalid_arg "MoE VM lacks a routed component binding", destination)
      else (success, mkVm d provider components)
    end.

(** ** Binary search

    [std::lower_bound] and [std::upper_bound] of libstdc++: the first position in the
    [len] elements from [first] on where the search may stop; [before]: the element lies
    before the position. Every turn at least halves [len], which is the fuel. *)
Fixpoint partition_point {A : Type} (fuel : nat) (before : A -> bool) (l : list A) (first len : nat) : nat :=
  match fuel with
  | O => first
  | Datatypes.S fuel =>
    if (len =? 0)%nat then first
    else
      let half := Nat.div2 len in
      match l !! (first + half)%nat with
      | None => first
      | Some middle =>
        if before middle then partition_point fuel before l (Datatypes.S (first + half)) (len - half - 1)
        else partition_point fuel before l first half
      end
  end.

Definition lower_bound {A : Type} (before : A -> bool) (l : list A) (first : nat) : nat :=
  partition_point (length l - first) before l first (length l - first).

Definition operations_of (vm : MoeVirtualMachine) (logical_layer : Z) : list CompiledOperationProgram :=
  let l := operations (program (provider_ vm)) in
  let first := lower_bound (fun o => co_logical_layer o <? logical_layer) l 0 in
  let last := lower_bound (fun o => negb (logical_layer <? co_logical_layer o)) l first in
  take (last - first) (drop first l).

(** ** Routes *)

Definition refused (c : ErrorCode) (m : string) : ST W MoeVmResolveResult := ret (mkVmResult (mkStatus c m) None).

(** [component_index] is in range at both calls. *)
Definition resolve_component_route (vm : MoeVirtualMachine) (component_index : Z) (component_layer : Z)
    (experts : list Z) (target : ExpertResolveTarget) (options : ExpertAcquireOptions) : ST W MoeVmResolveResult :=
  match components_ vm !! Z.to_nat component_index with
  | Some (Some runtime) =>
    let route_status := validate_route runtime component_layer experts in
    if negb (status_ok route_status) then ret (mkVmResult route_status None)
    else
      let* handle := resolve runtime component_layer experts target options in
      if negb (resolve_valid handle)
      then refused backpressure "MoE VM expert store rejected the exact route"
      else ret (mkVmResult success handle)
  | _ => throw (undefined_behavior "null component runtime")
  end.

Definition has_component (vm : MoeVirtualMachine) (index : option Z) : option Z :=
  match index with
  | Some i => if Z.of_nat (length (components_ vm)) <=? i then None else Some i
  | None => None
  end.

Definition resolve_route (vm : MoeVirtualMachine) (logical_layer : Z) (experts : list Z)
    (target : ExpertResolveTarget) (options : ExpertAcquireOptions) : ST W MoeVmResolveResult :=
  match layers (program (provider_ vm)) !! Z.to_nat logical_layer with
  | None => refused invalid_arg "MoE VM logical layer is outside the model program"
  | Some layer =>
    match has_component vm (cl_routed_component_index layer) with
    | None => refused invalid_arg "MoE VM logical layer has no routed component"
    | Some i => resolve_component_route vm i (cl_component_layer layer) experts target options
    end
  end.

Definition resolve_operation_route (vm : MoeVirtualMachine) (logical_operation : Z) (experts : list Z)
    (target : ExpertResolveTarget) (options : ExpertAcquireOptions) : ST W MoeVmResolveResult :=
  match operations (program (provider_ vm)) !! Z.to_nat logical_operation with
  | None => refused invalid_arg "MoE VM logical operation is outside the model program"
  | Some operation =>
    match (if co_logical_operation operation =? logical_operation
           then has_component vm (co_routed_component_index operation) else None) with
    | None => refused invalid_arg "MoE VM operation has no routed component"
    | Some i => resolve_component_route vm i (co_component_layer operation) experts target options
    end
  end.
End MoeVm.

Arguments RoutedExpertRuntime : clear implicits.
Arguments MoeVmComponentBinding : clear implicits.
Arguments MoeVmResolveResult : clear implicits.
Arguments MoeVirtualMachine : clear implicits.
