(* ===== verification/MoeVmTheorems.v ===== *)
(** What is proved of the machine that owns a model: it is created exactly from a complete
    and consistent set of component runtimes; the operations of a layer are found by
    binary search, if the program is in the order of its layers; and a route becomes the
    requests of exactly its pages, in a call to the store of the component that the model
    names for the layer or the operation. *)

From Stdlib Require Import String.
From S2P Require Import Prelude.
From S2P Require Import Storage.
From S2P Require Import Text.
From S2P Require Import RouteCensus.
From S2P Require Import ExpertCatalog.
From S2P Require Import ExpertCache.
From S2P Require Import Handles.
From S2P Require Import ExpertStore.
From S2P Require Import ExpertStoreTheorems.
From S2P Require Import ModelDescriptor.
From S2P Require Import ModelDescriptorTheorems.
From S2P Require Import ModelProgram.
From S2P Require Import ModelProgramTheorems.
From S2P Require Import ProviderRegistry.
From S2P Require Import MoeVm.

#[local] Open Scope bool_scope.
#[local] Notation ExpertResolveHandle S := (Handle S Z).

(** ** Binary search *)

(** [l] is partitioned at [p], between [first] and [last]. *)
Definition partitioned {A : Type} (before : A -> bool) (l : list A) (first last p : nat) : Prop :=
  (first <= p <= last)%nat /\ (last <= length l)%nat /\
  (forall i a, (first <= i < p)%nat -> l !! i = Some a -> before a = true) /\
  (forall i a, (p <= i < last)%nat -> l !! i = Some a -> before a = false).

Lemma partition_point_spec {A : Type} (before : A -> bool) l fuel first len p :
  partitioned before l first (first + len) p -> (len <= fuel)%nat -> partition_point fuel before l first len = p.
Proof.
  revert first len. induction fuel as [|fuel IH]; intros first len (Hp & Hl & Hb & Ha) Hf; simpl; [lia|].
  destruct (Nat.eqb_spec len 0) as [->|Hlen]; [lia|].
  assert (Nat.div2 len < len)%nat as Hhalf by (apply Nat.lt_div2; lia).
  generalize dependent (Nat.div2 len). intros half Hhalf.
  destruct (lookup_lt_is_Some_2 l (first + half)) as [middle Hm]; [lia|]. rewrite Hm.
  destruct (before middle) eqn:Hmid.
  - apply IH; [|lia]. assert (~ (p <= first + half)%nat) as Hgt.
    { intros Hle. rewrite (Ha (first + half)%nat middle) in Hmid; [done|lia|done]. }
    replace (Datatypes.S (first + half) + (len - half - 1))%nat with (first + len)%nat by lia.
    split_and!; try lia; [|done]. intros i a Hi. apply Hb. lia.
  - apply IH; [|lia]. assert (~ (first + half < p)%nat) as Hgt.
    { intros Hlt. rewrite (Hb (first + half)%nat middle) in Hmid; [done|lia|done]. }
    split_and!; try lia; [done|]. intros i a Hi. apply Ha. lia.
Qed.

(** A list sorted by a key is partitioned where the keys pass a bound. *)
Lemma sorted_partitioned {A : Type} (f : A -> Z) (l : list A) (n : Z) :
  StronglySorted Z.le (f <$> l) ->
  exists low high mid, l = low ++ mid ++ high /\
    Forall (fun a => f a < n) low /\ Forall (fun a => f a = n) mid /\ Forall (fun a => n < f a) high.
Proof.
  induction l as [|a l IH]; [by exists [], [], []|]. rewrite fmap_cons. intros [Hs Hall]%StronglySorted_inv.
  destruct (IH Hs) as (low & high & mid & -> & Hlow & Hmid & Hhigh).
  rewrite Forall_fmap, !Forall_app in Hall. unfold compose in Hall. destruct Hall as (Hal & Ham & Hah).
  destruct (Z.lt_trichotomy (f a) n) as [Ha|[Ha|Ha]].
  - exists (a :: low), high, mid. split_and!; try done. by constructor.
  - exists [], high, (a :: mid). destruct low as [|b low].
    + split_and!; try done. by constructor.
    + apply Forall_cons in Hal as [Hal _]. apply Forall_cons in Hlow as [Hlow _]. lia.
  - exists [], (a :: high), []. destruct low as [|b low].
    + destruct mid as [|b mid].
      * split_and!; try done. by constructor.
      * apply Forall_cons in Ham as [Ham _]. apply Forall_cons in Hmid as [Hmid _]. lia.
    + apply Forall_cons in Hal as [Hal _]. apply Forall_cons in Hlow as [Hlow _]. lia.
Qed.

Lemma partitioned_app {A : Type} (before : A -> bool) past low high :
  Forall (fun a => before a = true) low -> Forall (fun a => before a = false) high ->
  partitioned before (past ++ low ++ high) (length past) (length (past ++ low ++ high)) (length past + length low).
Proof.
  intros Hlow Hhigh. unfold partitioned. rewrite !length_app. split_and!; try lia.
  - intros i a Hi. rewrite lookup_app_r, lookup_app_l by lia. intros Ha. by eapply (Forall_lookup_1 _ _ _ _ Hlow Ha).
  - intros i a Hi. rewrite lookup_app_r, lookup_app_r by lia. intros Ha. by eapply (Forall_lookup_1 _ _ _ _ Hhigh Ha).
Qed.

Lemma lower_bound_app {A : Type} (before : A -> bool) past low high :
  Forall (fun a => before a = true) low -> Forall (fun a => before a = false) high ->
  lower_bound before (past ++ low ++ high) (length past) = (length past + length low)%nat.
Proof.
  intros Hlow Hhigh. apply partition_point_spec; [|done].
  replace (length past + (length (past ++ low ++ high) - length past))%nat with (length (past ++ low ++ high))
    by (rewrite !length_app; lia).
  by apply partitioned_app.
Qed.

Lemma filter_all {A : Type} (P : A -> Prop) `{!forall a, Decision (P a)} l : Forall P l -> filter P l = l.
Proof. induction 1 as [|a l Ha _ IH]; [done|]. by rewrite filter_cons_True, IH. Qed.

Lemma filter_none {A : Type} (P : A -> Prop) `{!forall a, Decision (P a)} l : Forall (fun a => ~ P a) l -> filter P l = [].
Proof. induction 1 as [|a l Ha _ IH]; [done|]. by rewrite filter_cons_False. Qed.

Section Machine.
Context {W S Implementation : Type}.
#[local] Notation Runtime := (RoutedExpertRuntime W S).
#[local] Notation Machine := (MoeVirtualMachine W S Implementation).
#[local] Notation Binding := (MoeVmComponentBinding W S).
#[local] Notation Provider := (@BoundExecutionProvider Implementation).

(** ** The operations of a layer *)

Lemma operations_of_sorted (vm : Machine) n :
  StronglySorted Z.le (co_logical_layer <$> operations (program (provider_ vm))) ->
  operations_of vm n = filter (fun o => co_logical_layer o = n) (operations (program (provider_ vm))).
Proof.
  intros (low & high & mid & El & Hlow & Hmid & Hhigh)%(sorted_partitioned co_logical_layer _ n).
  unfold operations_of. rewrite El. cbv zeta.
  assert (lower_bound (fun o => co_logical_layer o <? n) (low ++ mid ++ high) 0 = length low) as ->.
  { apply (lower_bound_app _ [] low (mid ++ high)).
    - eapply Forall_impl; [exact Hlow|]. intros o Ho. by apply Z.ltb_lt.
    - apply Forall_app; split; (eapply Forall_impl; [eassumption|]); intros o Ho; cbn in Ho; apply Z.ltb_ge; lia. }
  assert (lower_bound (fun o => negb (n <? co_logical_layer o)) (low ++ mid ++ high) (length low) =
          (length low + length mid)%nat) as ->.
  { apply (lower_bound_app _ low mid high).
    - eapply Forall_impl; [exact Hmid|]. intros o Ho. cbn in Ho. apply negb_true_iff, Z.ltb_ge. lia.
    - eapply Forall_impl; [exact Hhigh|]. intros o Ho. cbn in Ho. by apply negb_false_iff, Z.ltb_lt. }
  rewrite drop_app_length, take_app_length' by lia. rewrite !filter_app, filter_none, filter_all, filter_none, app_nil_r.
  - done.
  - eapply Forall_impl; [exact Hhigh|]. intros o Ho. cbn in Ho. lia.
  - exact Hmid.
  - eapply Forall_impl; [exact Hlow|]. intros o Ho. cbn in Ho. lia.
Qed.

Lemma denoted_levels d p :
  structure_denotes d p -> operation_program d <> [] -> co_logical_layer <$> operations p = op_logical_layer <$> operation_program d.
Proof.
  intros Hp Hne. pose proof (pd_operations d p Hp) as Ho. rewrite bool_decide_eq_false_2 in Ho by done.
  clear Hne. induction Ho as [|o c os cs (_ & E & _) _ IH]; [done|]. by rewrite !fmap_cons, E, IH.
Qed.

Lemma levels_of_small_schema d :
  well_formed d -> schema_version d < 3 -> operation_levels (operation_program d) = op_logical_layer <$> operation_program d.
Proof.
  intros Hd Hs. unfold operation_levels. apply filter_all, Forall_fmap, Forall_forall.
  intros o (i & Hi)%list_elem_of_lookup. destruct (wf_operations d Hd i o Hi) as (_ & _ & _ & _ & _ & _ & _ & _ & Hl).
  cbn. unfold model_level in Hl. lia.
Qed.

Lemma block_levels d p :
  well_formed d -> structure_denotes d p -> operation_program d = [] ->
  co_logical_layer <$> operations p = seqZ 0 (Z.of_nat (length (operations p))).
Proof.
  intros Hd Hp He. pose proof (pd_operations d p Hp) as Ho. rewrite bool_decide_eq_true_2 in Ho by done.
  destruct Ho as [Hn Ho]. apply list_eq_same_length with (length (operations p)).
  1, 2: by rewrite ?length_fmap, ?length_seqZ, ?Nat2Z.id.
  intros i x y Hi. rewrite list_lookup_fmap, fmap_Some, lookup_seqZ. intros (c & Hc & ->) [-> _].
  destruct (lookup_lt_is_Some_2 (layer_program d) i) as [l Hl]; [lia|].
  destruct (Ho i l c Hl Hc) as (_ & -> & _). destruct (wf_layers d Hd i l Hl) as [-> _]. lia.
Qed.

(** [MoeVirtualMachine::operations] finds by two binary searches exactly the operations
    of a layer, in their order, in a program that denotes its model, if the model orders its
    operations by their layers: always before schema 3, where no operation is outside the
    layers, and from schema 3 on if those that are come last, as the number that stands for
    no layer is the greatest. *)
Theorem layer_operations_found (vm : Machine) n :
  well_formed (descriptor_ vm) -> structure_denotes (descriptor_ vm) (program (provider_ vm)) ->
  schema_version (descriptor_ vm) < 3 \/
    StronglySorted Z.le (op_logical_layer <$> operation_program (descriptor_ vm)) ->
  operations_of vm n = filter (fun o => co_logical_layer o = n) (operations (program (provider_ vm))).
Proof.
  intros Hd Hp Hs. apply operations_of_sorted.
  destruct (decide (operation_program (descriptor_ vm) = [])) as [He|He].
  - rewrite (block_levels _ _ Hd Hp He). apply seqZ_sorted.
  - rewrite (denoted_levels _ _ Hp He). destruct Hs as [Hs|Hs]; [|done].
    rewrite <- levels_of_small_schema by done. by apply wf_order.
Qed.

(** ** Creation *)

Definition agrees (runtime found : RoutedExpertComponentDescriptor) : Prop :=
  rc_name runtime = rc_name found /\ rc_namespace_id runtime = rc_namespace_id found /\
  rc_layer_count runtime = rc_layer_count found /\ rc_experts_per_layer runtime = rc_experts_per_layer found /\
  rc_route_width runtime = rc_route_width found /\ rc_encoding_abi runtime = rc_encoding_abi found.

Lemma disagrees_false runtime found : disagrees runtime found = false <-> agrees runtime found.
Proof. unfold disagrees, agrees. guards. tauto. Qed.

(** The binding of a component to a runtime that agrees with it. *)
Definition binds (c : RoutedExpertComponentDescriptor) (b : Binding) : Prop :=
  cb_name b = rc_name c /\ cb_name b <> [] /\ exists r, cb_runtime b = Some r /\ agrees (component_ r) c.

(** A machine can be made of a bound provider and one binding for each component. *)
Record creatable (d : ModelDescriptor) (provider : Provider) (bindings : list Binding) (destination : Machine) : Prop :=
  mkCreatable {
    cr_model : well_formed d;
    cr_fresh : components_ destination = [];
    cr_provider : bound_providers provider <> [] /\ operations (program provider) <> [] /\
      ProviderRegistry.model_content_hash provider = ModelDescriptor.content_hash d /\
      model_schema_version provider = schema_version d /\
      length (layers (program provider)) = length (layer_program d);
    cr_bindings : NoDup (cb_name <$> bindings) /\ (forall b, b ∈ bindings -> exists c, c ∈ routed_components d /\ binds c b) /\
      (forall c, c ∈ routed_components d -> exists b, b ∈ bindings /\ binds c b) }.

(** The runtime of the binding with a name, if there is one. *)
Definition bound_runtime (l : list Binding) (name : list Z) : option Runtime :=
  match list_find (fun b => cb_name b = name) l with Some (_, b) => cb_runtime b | None => None end.

(** What the loop has put into the table of components. *)
Definition table (d : ModelDescriptor) (l : list Binding) : list (option Runtime) :=
  (fun c => bound_runtime l (rc_name c)) <$> routed_components d.

Lemma component_found d name c :
  NoDup (rc_name <$> routed_components d) -> c ∈ routed_components d -> rc_name c = name ->
  exists i, list_find (fun c => rc_name c = name) (routed_components d) = Some (i, c) /\
    routed_components d !! i = Some c.
Proof.
  intros Hn Hc <-. destruct (list_find_elem_of (fun x => rc_name x = rc_name c) _ c Hc eq_refl) as [[i c'] E].
  rewrite E. apply list_find_Some in E as (Hi & Hname & _).
  assert (c' = c) as -> by (eapply NoDup_name_unique; [exact Hn|by eapply list_elem_of_lookup_2|done|done]). eauto.
Qed.

Lemma bound_runtime_snoc (l : list Binding) b name :
  bound_runtime (l ++ [b]) name = match list_find (fun b => cb_name b = name) l with
                                  | Some (_, b) => cb_runtime b
                                  | None => if decide (cb_name b = name) then cb_runtime b else None
                                  end.
Proof.
  unfold bound_runtime. destruct (list_find _ l) as [[i b']|] eqn:E.
  - by rewrite (list_find_app_l _ _ _ _ _ E).
  - rewrite list_find_app_r by done. simpl. by case_decide.
Qed.

Lemma unbound (l : list Binding) name : name ∉ cb_name <$> l <-> list_find (fun b => cb_name b = name) l = None.
Proof.
  rewrite list_find_None, Forall_forall, list_elem_of_fmap. split.
  - intros H b Hb E. apply H. by exists b.
  - intros H (b & -> & Hb). by apply (H b Hb).
Qed.

(** One turn: the table gets the runtime of one more binding. *)
Lemma bind_component_inr d (past : list Binding) b s' :
  NoDup (rc_name <$> routed_components d) ->
  bind_component d b (list_to_set (cb_name <$> past), table d past) = inr s' <->
  (cb_name b ∉ cb_name <$> past) /\ (exists c, c ∈ routed_components d /\ binds c b) /\
  s' = (list_to_set (cb_name <$> past ++ [b]), table d (past ++ [b])).
Proof.
  intros Hn. unfold bind_component. destruct (cb_runtime b) as [r|] eqn:Er.
  2: { split; [done|]. intros (_ & (c & _ & _ & _ & r & E & _) & _). congruence. }
  cbn [fst snd]. rewrite if_invalid, orb_false_iff, !bool_decide_eq_false, elem_of_list_to_set.
  destruct (list_find _ _) as [[i c]|] eqn:Ef.
  2: { split; [by intros [_ ?]|]. intros (_ & (c & Hc & E & _) & _).
       destruct (component_found d (cb_name b) c Hn Hc) as (i & Ei & _); [done|]. congruence. }
  rewrite if_invalid, disagrees_false, inr_inr. pose proof Ef as (Hi & Hc & Hfirst)%list_find_Some.
  assert (cb_name b ∉ cb_name <$> past -> <[i := Some r]> (table d past) = table d (past ++ [b])) as Ht.
  { intros Hnew. apply list_eq. intros j. unfold table. rewrite list_lookup_fmap.
    destruct (decide (i = j)) as [->|Hj].
    - rewrite list_lookup_insert_eq by (rewrite length_fmap; by eapply lookup_lt_Some). rewrite Hi. cbn.
      rewrite bound_runtime_snoc, Hc, (proj1 (unbound past (cb_name b)) Hnew), decide_True by done. by rewrite Er.
    - rewrite list_lookup_insert_ne by done. rewrite list_lookup_fmap.
      destruct (routed_components d !! j) as [c'|] eqn:Hj'; [|done]. cbn. rewrite bound_runtime_snoc.
      destruct (list_find _ past) as [[? ?]|] eqn:Ep; [by unfold bound_runtime; rewrite Ep|].
      unfold bound_runtime. rewrite Ep. case_decide as Heq; [|done]. exfalso. apply Hj.
      eapply (NoDup_lookup _ i j (rc_name c) Hn); rewrite list_lookup_fmap; [by rewrite Hi|rewrite Hj'; cbn; congruence]. }
  rewrite fmap_app, list_to_set_app_L. cbn [fmap list_fmap list_to_set]. rewrite union_empty_r_L, (union_comm_L {[_]}).
  split.
  - intros ((Hne & Hnew) & Ha & ->). rewrite Ht by done. split; [done|]. split; [|done]. exists c. split; [by eapply list_elem_of_lookup_2|].
    split; [done|]. split; [done|]. by exists r.
  - intros (Hnew & (c' & Hc' & E & Hne & r' & Er' & Ha) & ->). rewrite Ht by done. split; [done|]. split; [|done].
    destruct (component_found d (cb_name b) c' Hn Hc') as (j & Ej & _); [done|]. rewrite Er in Er'. congruence.
Qed.

Lemma bind_components_inr d (l past : list Binding) s' :
  NoDup (rc_name <$> routed_components d) -> NoDup (cb_name <$> past) ->
  check_each (bind_component d) l (list_to_set (cb_name <$> past), table d past) = inr s' <->
  NoDup (cb_name <$> past ++ l) /\ (forall b, b ∈ l -> exists c, c ∈ routed_components d /\ binds c b) /\
  s' = (list_to_set (cb_name <$> past ++ l), table d (past ++ l)).
Proof.
  intros Hn. revert past. induction l as [|b l IH]; intros past Hpast; cbn [check_each].
  { rewrite app_nil_r, inr_inr. split; [|by intros (_ & _ & ->)]. intros ->. split; [done|]. split; [|done].
    by intros b ?%not_elem_of_nil. }
  rewrite cbind_inr. setoid_rewrite (bind_component_inr d past b _ Hn).
  split.
  - intros (s1 & (Hb & Hc & ->) & Hl). apply IH in Hl as (Hnd & Hall & ->).
    + rewrite <- app_assoc in Hnd |- *. split; [done|]. split; [|done]. intros b' [->|Hb']%elem_of_cons; auto.
    + rewrite fmap_app. apply NoDup_app. split; [done|]. split; [|apply NoDup_singleton].
      intros x Hx ->%list_elem_of_singleton. done.
  - intros (Hnd & Hall & ->). assert (cb_name b ∉ cb_name <$> past) as Hb.
    { rewrite fmap_app in Hnd. apply NoDup_app in Hnd as (_ & Hd & _). intros Hx. apply (Hd _ Hx). by left. }
    eexists. split; [split; [done|]; split; [apply Hall; by left|done]|]. apply IH.
    + rewrite fmap_app. apply NoDup_app. split; [done|]. split; [|apply NoDup_singleton].
      intros x Hx ->%list_elem_of_singleton. done.
    + rewrite <- app_assoc. split; [done|]. split; [|done]. intros b' Hb'. apply Hall. by right.
Qed.

(** As many bindings as components, with distinct names of components: all are bound. *)
Lemma all_bound d (l : list Binding) :
  NoDup (rc_name <$> routed_components d) -> NoDup (cb_name <$> l) ->
  (forall b, b ∈ l -> exists c, c ∈ routed_components d /\ binds c b) ->
  length l = length (routed_components d) <->
  (forall c, c ∈ routed_components d -> exists b, b ∈ l /\ binds c b).
Proof.
  intros Hn Hl Hb.
  assert (cb_name <$> l ⊆+ rc_name <$> routed_components d) as Hsub.
  { apply NoDup_submseteq; [done|]. intros x (b & -> & Hin)%list_elem_of_fmap. destruct (Hb b Hin) as (c & Hc & -> & _).
    by apply list_elem_of_fmap_2. }
  split.
  - intros Hlen c Hc. assert (rc_name c ∈ cb_name <$> l) as (b & Hname & Hin)%list_elem_of_fmap.
    { rewrite (submseteq_length_Permutation _ _ Hsub) by (rewrite !length_fmap; lia). by apply list_elem_of_fmap_2. }
    exists b. split; [done|]. destruct (Hb b Hin) as (c' & Hc' & Hbinds). pose proof Hbinds as (E & _).
    by rewrite (NoDup_name_unique rc_name _ c c' Hn Hc Hc') by congruence.
  - intros Hc. apply submseteq_length in Hsub as Hle. rewrite !length_fmap in Hle.
    assert (rc_name <$> routed_components d ⊆+ cb_name <$> l) as Hsub'%submseteq_length.
    { apply NoDup_submseteq; [done|]. intros x (c & -> & Hin)%list_elem_of_fmap. destruct (Hc c Hin) as (b & Hin' & <- & _).
      by apply list_elem_of_fmap_2. }
    rewrite !length_fmap in Hsub'. lia.
Qed.

Lemma bound_runtime_of (l : list Binding) c b :
  NoDup (cb_name <$> l) -> b ∈ l -> binds c b -> bound_runtime l (rc_name c) = cb_runtime b.
Proof.
  intros Hl Hb (Hname & _). unfold bound_runtime.
  destruct (list_find_elem_of (fun x => cb_name x = rc_name c) l b Hb Hname) as [[i b'] E]. rewrite E.
  apply list_find_Some in E as (Hi & Hname' & _).
  by rewrite (NoDup_name_unique cb_name l b' b Hl (list_elem_of_lookup_2 _ _ _ Hi) Hb) by congruence.
Qed.

(** Every component has the runtime of its binding. *)
Definition runtimes_of (d : ModelDescriptor) (bindings : list Binding) (components : list (option Runtime)) : Prop :=
  Forall2 (fun c o => exists b r, b ∈ bindings /\ cb_name b = rc_name c /\ cb_runtime b = Some r /\ o = Some r /\
             agrees (component_ r) c) (routed_components d) components.

Lemma table_runtimes d (l : list Binding) :
  NoDup (cb_name <$> l) -> (forall c, c ∈ routed_components d -> exists b, b ∈ l /\ binds c b) ->
  runtimes_of d l (table d l).
Proof.
  intros Hl Hc. apply Forall2_fmap_r, Forall_Forall2_diag, Forall_forall. intros c Hin.
  destruct (Hc c Hin) as (b & Hb & Hbinds). cbn. rewrite (bound_runtime_of l c b Hl Hb Hbinds).
  destruct Hbinds as (E & _ & r & Er & Ha). eauto 10.
Qed.

Lemma incomplete_binding_false (d : ModelDescriptor) provider (bindings : list Binding) (dest : Machine) :
  incomplete_binding d provider bindings dest = false <->
  components_ dest = [] /\ bound_providers provider <> [] /\
  ProviderRegistry.model_content_hash provider = ModelDescriptor.content_hash d /\
  model_schema_version provider = schema_version d /\
  length (layers (program provider)) = length (layer_program d) /\ operations (program provider) <> [] /\
  length bindings = length (routed_components d).
Proof.
  unfold incomplete_binding. guards. rewrite !Nat.eqb_eq, !length_zero_iff_nil. tauto.
Qed.

Lemma rejects_binding (d : ModelDescriptor) (b : Binding) s : rejects (bind_component d b s).
Proof.
  unfold bind_component. destruct (cb_runtime b); [|done]. case_match; [done|]. case_match; [|done].
  destruct p. by case_match.
Qed.

Lemma create_cases (d : ModelDescriptor) (provider : Provider) (bindings : list Binding) (dest : Machine) :
  Forall component_typed (routed_components d) ->
  (creatable d provider bindings dest ->
   create d provider bindings dest = (success, mkVm d provider (table d bindings)) /\
   runtimes_of d bindings (table d bindings)) /\
  (creatable d provider bindings dest \/
   code (create d provider bindings dest).1 = invalid_arg /\ (create d provider bindings dest).2 = dest).
Proof.
  intros Ht. destruct (validation_exact d Ht) as [Hv Hcode]. unfold create.
  pose proof (incomplete_binding_false d provider bindings dest) as Hi.
  assert (((∅ : gset (list Z)), replicate (length (routed_components d)) (None : option Runtime)) =
          (list_to_set (cb_name <$> ([] : list Binding)), table d [])) as ->.
  { f_equal. unfold table. generalize (routed_components d). intros cs. induction cs; [done|]. cbn. by f_equal. }
  split.
  - intros [Hd Hf (Hp & Ho & Hh & Hsv & Hlay) (Hnd & Hb & Hc)]. pose proof (proj1 (wf_names d Hd)) as Hn.
    rewrite (proj2 Hv Hd). cbn [status_ok success code negb].
    rewrite (proj2 Hi) by (split_and!; try done; by apply (all_bound d bindings Hn Hnd Hb)).
    rewrite (proj2 (bind_components_inr d bindings [] _ Hn (NoDup_nil_2))) by (split_and!; [exact Hnd|exact Hb|reflexivity]).
    pose proof (table_runtimes d bindings Hnd Hc) as Hr. cbn [app].
    match goal with |- context [existsb ?f ?l] => assert (existsb f l = false) as -> end.
    { clear -Hr. induction Hr as [|c o cs os (b & r & _ & _ & _ & -> & _) _ IH]; [done|]. cbn. by rewrite IH. }
    done.
  - destruct (status_ok (validate_model_descriptor d)) eqn:Ev; cbn [negb].
    2: { right. cbn. split; [|done]. apply Hcode. intros E. by rewrite E in Ev. }
    destruct (incomplete_binding d provider bindings dest) eqn:Ei; [by right|].
    destruct (check_each _ _ _) as [st|[seen cs]] eqn:El.
    + right. cbn. split; [|done]. pose proof (rejects_each (bind_component d) bindings
        (list_to_set (cb_name <$> ([] : list Binding)), table d []) (rejects_binding d)) as Hr. by rewrite El in Hr.
    + left. assert (well_formed d) as Hd.
      { apply Hv. apply dec_stable. intros E%Hcode. unfold status_ok in Ev. rewrite E in Ev. done. }
      pose proof (proj1 (wf_names d Hd)) as Hn. destruct (proj1 Hi eq_refl) as (? & ? & ? & ? & ? & ? & Hlen).
      apply (bind_components_inr d bindings [] _ Hn (NoDup_nil_2)) in El as (Hnd & Hb & _). cbn in Hnd.
      split; try done. split_and!; try done. by apply (all_bound d bindings Hn Hnd Hb).
Qed.

(** [MoeVirtualMachine::create] makes a machine exactly when the descriptor is well
    formed, the destination is fresh, the bound provider is of this model, and the bindings
    and the model's components correspond one to one, each runtime agreeing with its
    component; the machine then has for every component the runtime of its binding, in the
    order of the components. Otherwise the argument is refused as invalid and the
    destination keeps its value. *)
Theorem machine_creation_exact d (provider : Provider) (bindings : list Binding) (destination : Machine) :
  Forall component_typed (routed_components d) ->
  let '(status, vm) := create d provider bindings destination in
  (status_ok status = true <-> creatable d provider bindings destination) /\
  (status_ok status = true ->
   descriptor_ vm = d /\ provider_ vm = provider /\ runtimes_of d bindings (components_ vm)) /\
  (status_ok status = false -> code status = invalid_arg /\ vm = destination).
Proof.
  intros Ht. destruct (create_cases d provider bindings destination Ht) as [Hyes Hno].
  destruct (create d provider bindings destination) as [status vm]. unfold status_ok.
  cbn in Hno. destruct Hno as [H|[E ->]].
  - destruct (Hyes H) as [[= -> ->] Hr]. by split_and!.
  - rewrite E. split_and!; try done. split; [done|]. intros H. by destruct (Hyes H) as [[= -> _] _].
Qed.

(** ** Routes *)

(** A runtime as its constructor makes it, of a component with 32-bit counts. *)
Definition made (r : Runtime) : Prop :=
  make_runtime (component_ r) (model_content_hash_ r) (catalog_ r) (store_ r) = Ok r /\ component_typed (component_ r).

(** A route: as many distinct experts as the component routes to, in one of its layers. *)
Definition valid_route (c : RoutedExpertComponentDescriptor) (layer : Z) (experts : list Z) : Prop :=
  layer < rc_layer_count c /\ Z.of_nat (length experts) = rc_route_width c /\ NoDup experts /\
  Forall (fun e => e < rc_experts_per_layer c) experts.

(** The request of one page. *)
Definition page_request (c : RoutedExpertComponentDescriptor) (catalog : ExpertCatalog) (layer : Z)
    (target : ExpertResolveTarget) (options : ExpertAcquireOptions) (e : Z) (q : ExpertResolveRequest) : Prop :=
  exists payload, find_record layer e catalog = Some payload /\
    q = mkResolveRequest (mkExpertKey (rc_namespace_id c) layer e (rc_encoding_abi c)) payload target options.

Lemma invalid_member_false (r : Runtime) unique experts :
  invalid_member r unique experts = false <->
  NoDup experts /\ Forall (fun e => e < rc_experts_per_layer (component_ r) /\ e ∉ unique) experts.
Proof.
  revert unique. induction experts as [|e l IH]; intros unique; cbn; [split; [|done]; split; by constructor|].
  rewrite NoDup_cons, Forall_cons. destruct (_ || _) eqn:E.
  - split; [done|]. intros (_ & [He Hu] & _). apply orb_true_iff in E as [?%Z.leb_le|?%bool_decide_eq_true]; [lia|done].
  - apply orb_false_iff in E as [He%Z.leb_gt Hu%bool_decide_eq_false]. rewrite IH, !Forall_forall.
    setoid_rewrite elem_of_union. setoid_rewrite elem_of_singleton. split.
    + intros [Hn Hf]. split_and!; try done; [|naive_solver]. intros Hin. by apply (Hf e Hin); left.
    + intros ([Hin Hn] & _ & Hf). split; [done|]. intros x Hx. split; [by apply Hf|].
      intros [->|Hx']; [done|]. by apply (Hf x Hx).
Qed.

Lemma validate_route_ok (r : Runtime) layer experts :
  (valid_route (component_ r) layer experts -> validate_route r layer experts = success) /\
  (~ valid_route (component_ r) layer experts -> code (validate_route r layer experts) = invalid_arg).
Proof.
  unfold validate_route, valid_route. destruct (_ || _) eqn:E.
  { split; [|done]. intros (Hl & Hw & _). apply orb_true_iff in E as [?%Z.leb_le|?%negb_true_iff%Z.eqb_neq]; lia. }
  apply orb_false_iff in E as [El%Z.leb_gt Ew%negb_false_iff%Z.eqb_eq].
  pose proof (invalid_member_false r ∅ experts) as Hm. destruct (invalid_member r ∅ experts); (split; [|done || intros H; exfalso]).
  - intros (_ & _ & Hn & Hf). exfalso. assert (true = false) as []%diff_true_false. apply Hm. split; [done|].
    eapply Forall_impl; [exact Hf|]. intros e He. split; [exact He|apply not_elem_of_empty].
  - done.
  - apply H. destruct (proj1 Hm eq_refl) as [Hn Hf]. split_and!; try done. eapply Forall_impl; [exact Hf|]. by intros e [? _].
Qed.

Lemma find_record_in_range (r : Runtime) layer e :
  made r -> u32 layer -> u32 e -> layer < rc_layer_count (component_ r) -> e < rc_experts_per_layer (component_ r) ->
  exists payload, find_record layer e (catalog_ r) = Some payload.
Proof.
  intros [Hm [Hlc Hec]] Hl He Hll Hel. unfold make_runtime in Hm. destruct (_ || _) eqn:E in Hm; [done|]. clear Hm.
  rewrite !orb_false_iff, !negb_false_iff, !Z.eqb_eq in E. destruct E as [[[_ El] Ee] En].
  unfold u32, U32_MAX in *. assert (u64 (rc_layer_count (component_ r) * rc_experts_per_layer (component_ r))) as Hmul.
  { unfold u64, U64_MAX. nia. }
  unfold expert_table_entries in En. unfold mul64 in En. rewrite wrap64_small in En by done.
  assert (layer * rc_experts_per_layer (component_ r) + e < rc_layer_count (component_ r) * rc_experts_per_layer (component_ r)) as Hi by nia.
  unfold find_record. rewrite El, Ee. unfold mul64, add64. rewrite (wrap64_small (_ * _)) by done.
  rewrite (proj2 (Z.leb_gt _ _)), (proj2 (Z.leb_gt _ _)), (proj2 (Z.eqb_eq _ _)) by lia. cbn [orb negb].
  apply lookup_lt_is_Some_2. unfold u64 in *. rewrite (wrap64_small (layer * _)) by (unfold u64; nia).
  rewrite wrap64_small by (unfold u64; nia). nia.
Qed.

Lemma route_requests_ok (r : Runtime) layer target options unique experts :
  made r -> u32 layer -> Forall u32 experts -> layer < rc_layer_count (component_ r) -> NoDup experts ->
  Forall (fun e => e < rc_experts_per_layer (component_ r)) experts -> (forall e, e ∈ experts -> e ∉ unique) ->
  exists requests, route_requests r layer target options unique experts = Some requests /\
    Forall2 (page_request (component_ r) (catalog_ r) layer target options) experts requests.
Proof.
  intros Hm Hl Hu Hll Hn Hf. revert unique.
  induction experts as [|e l IH]; intros unique Hd; cbn; [by exists []|].
  apply Forall_cons in Hu as [He Hu]. apply NoDup_cons in Hn as [Hin Hn]. apply Forall_cons in Hf as [Hef Hf].
  unfold record. destruct (find_record_in_range r layer e) as [payload Ep]; try done. rewrite Ep.
  rewrite bool_decide_eq_false_2 by (apply Hd; left).
  destruct (IH Hu Hn Hf ({[e]} ∪ unique)) as (requests & -> & Hr).
  { intros x Hx. rewrite elem_of_union, elem_of_singleton. intros [->|Hx']; [done|]. apply (Hd x); [by right|done]. }
  eexists. split; [done|]. constructor; [|done]. exists payload. by split.
Qed.

(** ** The route of a layer or of an operation *)

(** What a route of the component [name] answers: the store of its runtime is called with
    exactly the requests of the pages of a valid route, and nothing is called otherwise. *)
Definition routed_exactly (vm : Machine) (name : list Z) (layer : Z) (experts : list Z) (target : ExpertResolveTarget)
    (options : ExpertAcquireOptions) (m : ST W (MoeVmResolveResult S)) : Prop :=
  (exists i c r requests, routed_components (descriptor_ vm) !! i = Some c /\ rc_name c = name /\
     components_ vm !! i = Some (Some r) /\ valid_route c layer experts /\
     Forall2 (page_request c (catalog_ r) layer target options) experts requests /\
     forall w, m w = (let* h := store_ r requests in
                      ret (if resolve_valid h then mkVmResult success h
                           else mkVmResult (mkStatus backpressure "MoE VM expert store rejected the exact route") None)) w) \/
  ((forall c, c ∈ routed_components (descriptor_ vm) -> rc_name c = name -> ~ valid_route c layer experts) /\
   exists st, code st = invalid_arg /\ forall w, m w = Ok (mkVmResult st None, w)).

(** The runtimes of a machine, with the components they run. *)
Definition equipped (vm : Machine) : Prop :=
  NoDup (rc_name <$> routed_components (descriptor_ vm)) /\
  Forall (fun c => rc_name c <> [] /\ rc_route_width c <> 0) (routed_components (descriptor_ vm)) /\
  Forall2 (fun c o => exists r, o = Some r /\ agrees (component_ r) c /\ made r)
    (routed_components (descriptor_ vm)) (components_ vm).

Lemma valid_route_agrees a c layer experts : agrees a c -> valid_route a layer experts <-> valid_route c layer experts.
Proof. unfold agrees, valid_route. intros (_ & _ & -> & -> & -> & _). done. Qed.

Lemma page_request_agrees a c catalog layer target options e q :
  agrees a c -> page_request a catalog layer target options e q -> page_request c catalog layer target options e q.
Proof. unfold agrees, page_request. by intros (_ & -> & _ & _ & _ & ->). Qed.

Lemma component_route (vm : Machine) i c layer experts target options :
  equipped vm -> routed_components (descriptor_ vm) !! i = Some c -> u32 layer -> Forall u32 experts ->
  routed_exactly vm (rc_name c) layer experts target options
    (resolve_component_route vm (Z.of_nat i) layer experts target options).
Proof.
  intros (Hn & Hne & Hr) Hc Hl Hu. destruct (Forall2_lookup_l _ _ _ _ _ Hr Hc) as (o & Ho & r & -> & Ha & Hm).
  unfold resolve_component_route. rewrite Nat2Z.id, Ho. destruct (validate_route_ok r layer experts) as [Hyes Hno].
  destruct (status_ok (validate_route r layer experts)) eqn:Es; cbn [negb].
  - left. assert (valid_route (component_ r) layer experts) as Hv.
    { unfold validate_route, valid_route in *. destruct (_ || _) eqn:E in Es; [done|].
      apply orb_false_iff in E as [El%Z.leb_gt Ew%negb_false_iff%Z.eqb_eq].
      destruct (invalid_member r ∅ experts) eqn:Em; [done|]. apply invalid_member_false in Em as [? Hf]. split_and!; try done.
      eapply Forall_impl; [exact Hf|]. by intros e [? _]. }
    pose proof Hv as (Hll & Hw & Hnd & Hf).
    destruct (route_requests_ok r layer target options ∅ experts) as (requests & Eq & Hpages); try done.
    exists i, c, r, requests. do 3 (split; [done|]). split; [|split].
    + by apply (valid_route_agrees (component_ r)).
    + eapply Forall2_impl; [exact Hpages|]. intros e q. by apply page_request_agrees.
    + intros w. unfold resolve. rewrite (proj2 (Z.leb_gt _ _)) by done. rewrite bool_decide_eq_false_2.
      2: { intros ->. destruct Ha as (_ & _ & _ & _ & Hrw & _). destruct (Forall_lookup_1 _ _ _ _ Hne Hc) as [_ Hz].
           apply Hz. transitivity (rc_route_width (component_ r)); [by symmetry|]. by symmetry. }
      cbn [orb]. rewrite Eq. unfold Prelude.bind. destruct (store_ r requests w) as [[h w']|]; [|done].
      by destruct (resolve_valid h).
  - right. assert (~ valid_route (component_ r) layer experts) as Hv.
    { intros Hv. by rewrite (Hyes Hv) in Es. }
    split.
    + intros c' Hc' Hname. rewrite (NoDup_name_unique rc_name _ c' c Hn Hc' (list_elem_of_lookup_2 _ _ _ Hc) Hname).
      by rewrite <- (valid_route_agrees (component_ r)).
    + eexists. split; [exact (Hno Hv)|]. done.
Qed.

(** A machine that was created of runtimes made by their constructor is equipped. *)
Lemma created_equipped d provider (bindings : list Binding) (destination vm : Machine) :
  Forall component_typed (routed_components d) ->
  create d provider bindings destination = (success, vm) ->
  (forall b r, b ∈ bindings -> cb_runtime b = Some r -> made r) ->
  descriptor_ vm = d /\ provider_ vm = provider /\ well_formed d /\ equipped vm.
Proof.
  intros Ht E Hm. destruct (create_cases d provider bindings destination Ht) as [Hyes [H|[Ec _]]].
  2: { by rewrite E in Ec. }
  destruct (Hyes H) as [E' Hr]. rewrite E in E'. simplify_eq. cbn [descriptor_ provider_].
  pose proof (cr_model _ _ _ _ H) as Hd. split_and!; try done. unfold equipped. cbn [descriptor_ components_].
  split; [apply (wf_names d Hd)|]. split.
  - apply Forall_forall. intros c Hc. destruct (wf_components d Hd c Hc) as [[Hname _ Hshape _] _]. tauto.
  - eapply Forall2_impl; [exact Hr|]. intros c o (b & r & Hb & _ & Er & -> & Ha). eauto.
Qed.

Lemma index_denotes (vm : Machine) d index name :
  descriptor_ vm = d -> equipped vm -> component_at d index name ->
  match has_component vm index with
  | Some i => exists c, 0 <= i /\ routed_components d !! Z.to_nat i = Some c /\ rc_name c = name
  | None => name = []
  end.
Proof.
  intros Ed (_ & _ & Hr) Hi. unfold has_component. destruct index as [i|]; [|done].
  destruct Hi as (Hpos & c & Hc & Hname). apply Forall2_length in Hr. rewrite Ed in Hr.
  apply lookup_lt_Some in Hc as Hlt. rewrite (proj2 (Z.leb_gt _ _)) by lia. eauto.
Qed.

Lemma no_component_route (vm : Machine) layer experts target options m :
  equipped vm -> routed_exactly vm [] layer experts target options (refused invalid_arg m).
Proof.
  intros (_ & Hne & _). right. split; [|by exists (mkStatus invalid_arg m)].
  intros c (i & Hc)%list_elem_of_lookup Hname. by destruct (Forall_lookup_1 _ _ _ _ Hne Hc) as [? _].
Qed.

(** C34: a machine resolves the route of a layer, or of an operation, to exactly the pages of
    the model. When it was created of runtimes that their constructor accepted, and its
    program denotes its model, then [resolve_route] of the [n]-th layer and
    [resolve_operation_route] of the [n]-th operation answer a route that is valid for the
    component that the model names there by calling the store of that component's runtime
    once, with one request for each expert, in order, each with the key and the record of
    its page; a route that is not valid, of any component, is refused as an invalid argument
    and no store is called. *)
Theorem routes_resolve_exactly d provider (bindings : list Binding) (destination vm : Machine)
    n experts target options :
  Forall component_typed (routed_components d) ->
  create d provider bindings destination = (success, vm) ->
  (forall b r, b ∈ bindings -> cb_runtime b = Some r -> made r) ->
  structure_denotes d (program provider) -> 0 <= n -> Forall u32 experts ->
  (forall l, layer_program d !! Z.to_nat n = Some l -> u32 (ly_component_layer l) ->
     routed_exactly vm (ly_routed_component l) (ly_component_layer l) experts target options
       (resolve_route vm n experts target options)) /\
  (forall o, operation_program d !! Z.to_nat n = Some o -> u32 (op_component_layer o) ->
     routed_exactly vm (op_routed_component o) (op_component_layer o) experts target options
       (resolve_operation_route vm n experts target options)).
Proof.
  intros Ht E Hm Hp Hn Hu. destruct (created_equipped d provider bindings destination vm Ht E Hm) as (Ed & Epr & Hd & Heq).
  assert (forall index name layer m, component_at d index name -> u32 layer ->
    routed_exactly vm name layer experts target options
      match has_component vm index with
      | Some i => resolve_component_route vm i layer experts target options
      | None => refused invalid_arg m
      end) as Hroute.
  { intros index name layer m Hc Hl. pose proof (index_denotes vm d index name Ed Heq Hc) as Hi.
    destruct (has_component vm index) as [i|]; [|subst name; by apply no_component_route].
    destruct Hi as (c & Hpos & Hc' & <-). rewrite <- (Z2Nat.id i) by done. rewrite <- Ed in Hc'. by apply component_route. }
  split.
  - intros l Hl Hcl. unfold resolve_route. rewrite Epr.
    destruct (Forall2_lookup_l _ _ _ _ _ (pd_layers d _ Hp) Hl) as (c & -> & _ & _ & Hc & Ecl & _).
    rewrite <- Ecl in Hcl |- *. by apply Hroute.
  - intros o Ho Hcl. unfold resolve_operation_route. rewrite Epr. pose proof (pd_operations d _ Hp) as Hops.
    rewrite bool_decide_eq_false_2 in Hops by (intros Hnil; by rewrite Hnil in Ho).
    destruct (Forall2_lookup_l _ _ _ _ _ Hops Ho) as (c & -> & El & _ & _ & Hc & Ecl & _).
    destruct (wf_operations d Hd _ o Ho) as [Elo _].
    rewrite (proj2 (Z.eqb_eq _ _)) by (rewrite El, Elo; lia). rewrite <- Ecl in Hcl |- *. by apply Hroute.
Qed.
End Machine.

(** ** Examples *)

(** A store that logs its requests and answers with a handle of their number. *)
Definition logging_store (requests : list ExpertResolveRequest)
  : ST (list ExpertResolveRequest) (ExpertResolveHandle unit) :=
  modify (fun log => log ++ requests) ;* ret (from_callbacks tt (Z.of_nat (length requests))).

Definition demo_record (offset : Z) : PayloadRecord := mkPayloadRecord "" [] offset 16 16 16 0 8 16 0 1 1 1 [].

Definition demo_runtime : RoutedExpertRuntime (list ExpertResolveRequest) unit :=
  mkRuntime (nth 0 (routed_components demo_model) (mkComponent [] 0 0 0 0 0 0 0 [] 0 0 0 [] ∅ (mkRouter [] 0 ∅)))
    (replicate 32 1) (mkCatalog (demo_record <$> [0; 16; 32; 48]) 64 1 4) logging_store.

Definition demo_bindings : list (MoeVmComponentBinding (list ExpertResolveRequest) unit) :=
  [mkVmBinding (bytes "main") (Some demo_runtime)].

Definition bound_to (d : ModelDescriptor) : @BoundExecutionProvider unit :=
  mkBound [mkReference (bytes "cpu") 0 (Some tt)] (ModelDescriptor.content_hash d) (schema_version d)
    (compile_model_program d demo_capabilities).2.

Definition fresh_vm : MoeVirtualMachine (list ExpertResolveRequest) unit unit :=
  mkVm demo_model empty_bound [].

Definition demo_vm (d : ModelDescriptor) : MoeVirtualMachine (list ExpertResolveRequest) unit unit :=
  (create d (bound_to d) demo_bindings fresh_vm).2.

(** The same layers, as schema 2 describes them: no operation is outside a layer. *)
Definition demo_layered : ModelDescriptor :=
  mkDescriptor 2 (bytes "demo") [] 100 64 8 ∅ ∅ (routed_components demo_model) (required_kernels demo_model)
    (layer_program demo_model)
    [demo_operation 0 0 "router" "main" [] []; demo_operation 1 0 "moe" "main" [] []; demo_operation 2 1 "head" "" [] []]
    ∅ ∅ None.

Lemma demo_denotes d :
  Forall component_typed (routed_components d) -> indexable d demo_capabilities ->
  status_ok (compile_model_program d demo_capabilities).1 = true -> structure_denotes d (program (bound_to d)).
Proof.
  intros Ht Hi Hs. pose proof (compile_spec d demo_capabilities Ht Hi) as H. unfold bound_to. cbn [program].
  destruct (compile_model_program d demo_capabilities) as [status p]. cbn in Hs |- *. by apply H.
Qed.

Lemma layer_operations_found_witness :
  map co_logical_operation (operations_of (demo_vm demo_layered) 0) = [0; 1] /\
  descriptor_ (demo_vm demo_layered) = demo_layered.
Proof.
  assert (descriptor_ (demo_vm demo_layered) = demo_layered) as E by reflexivity.
  assert (Forall component_typed (routed_components demo_layered)) as Ht by (repeat constructor; vm_compute; discriminate).
  split; [|exact E].
  rewrite (layer_operations_found (demo_vm demo_layered) 0).
  - vm_compute. reflexivity.
  - rewrite E. apply (validation_exact demo_layered Ht). vm_compute. reflexivity.
  - apply demo_denotes; [exact Ht|vm_compute; by split_and!|vm_compute; reflexivity].
  - left. vm_compute. reflexivity.
Defined.

Lemma demo_vm_created : create demo_model (bound_to demo_model) demo_bindings fresh_vm = (success, demo_vm demo_model).
Proof. reflexivity. Qed.

Lemma machine_creation_exact_witness : creatable demo_model (bound_to demo_model) demo_bindings fresh_vm.
Proof.
  pose proof (machine_creation_exact demo_model (bound_to demo_model) demo_bindings fresh_vm) as H.
  rewrite demo_vm_created in H. apply H; [|reflexivity]. repeat constructor; vm_compute; discriminate.
Defined.

Lemma demo_made b r : b ∈ demo_bindings -> cb_runtime b = Some r -> made r.
Proof.
  intros ->%list_elem_of_singleton [= <-]. split; [reflexivity|]. split; vm_compute; by split.
Qed.

(** Two of the four experts of the routed layer, by their operation. *)
Lemma routes_resolve_exactly_witness :
  routed_exactly (demo_vm demo_model) (bytes "main") 0 [3; 1] to_automatic
    (mkAcquireOptions demand true true false false)
    (resolve_operation_route (demo_vm demo_model) 2 [3; 1] to_automatic (mkAcquireOptions demand true true false false)).
Proof.
  destruct (routes_resolve_exactly demo_model (bound_to demo_model) demo_bindings fresh_vm (demo_vm demo_model) 2 [3; 1]
    to_automatic (mkAcquireOptions demand true true false false)) as [_ H].
  - repeat constructor; vm_compute; discriminate.
  - exact demo_vm_created.
  - exact demo_made.
  - apply demo_denotes; [|vm_compute; by split_and!|vm_compute; reflexivity]. repeat constructor; vm_compute; discriminate.
  - lia.
  - repeat constructor; vm_compute; discriminate.
  - specialize (H _ eq_refl). cbn in H. apply H. vm_compute. split; discriminate.
Defined.

(** ** What the modelling showed *)

(** The embedding of the small model comes first and belongs to no layer, so its program is
    not in the order of the layers: the search for the operations of layer 0 answers the
    embedding, too, and the search for the operations outside the layers answers none. *)
Theorem model_operations_misplaced :
  create demo_model (bound_to demo_model) demo_bindings fresh_vm = (success, demo_vm demo_model) /\
  (fun o => (co_logical_operation o, co_logical_layer o)) <$> operations_of (demo_vm demo_model) 0 =
    [(0, U32_MAX); (1, 0); (2, 0)] /\
  operations_of (demo_vm demo_model) U32_MAX = [].
Proof. split; [exact demo_vm_created|]. split; vm_compute; reflexivity. Qed.
