(* ===== verification/DescriptorText.v ===== *)
(** Model of the artifact reader of [model_descriptor.cpp]: a model descriptor is a text of
    tab-separated lines, each of which adds to the descriptor read so far. *)

From Stdlib Require Import String.
From S2P Require Import Prelude.
From S2P Require Import Storage.
From S2P Require Import Text.
From S2P Require Import Sha256.
From S2P Require Import ExpertCatalog.
From S2P Require Import ModelDescriptor.

#[local] Open Scope bool_scope.
#[local] Open Scope Z_scope.

(** ** Updates *)

#[export] Instance eta_RouterProgramDescriptor : Eta RouterProgramDescriptor := fun r =>
  mkRouter (rt_capability r) (rt_abi_version r) (rt_parameters r).

#[export] Instance eta_RoutedExpertComponentDescriptor : Eta RoutedExpertComponentDescriptor := fun c =>
  mkComponent (rc_name c) (rc_namespace_id c) (rc_layer_count c) (rc_experts_per_layer c) (rc_route_width c)
    (rc_shared_experts_per_layer c) (rc_hidden_size c) (rc_intermediate_size c) (rc_execution_capability c)
    (rc_execution_abi c) (rc_source_abi c) (rc_encoding_abi c) (rc_encoding c) (rc_attributes c) (rc_router c).

#[export] Instance eta_LayerProgramDescriptor : Eta LayerProgramDescriptor := fun l =>
  mkLayer (ly_logical_layer l) (ly_block_capability l) (ly_block_abi_version l) (ly_routed_component l)
    (ly_component_layer l) (ly_parameters l).

#[export] Instance eta_OperationProgramDescriptor : Eta OperationProgramDescriptor := fun o =>
  mkOperation (op_logical_operation o) (op_logical_layer o) (op_capability o) (op_abi_version o)
    (op_routed_component o) (op_component_layer o) (op_parameters o) (op_tensor_bindings o) (op_input_bindings o)
    (op_output_bindings o).

#[export] Instance eta_ExactDecodeProgramDescriptor : Eta ExactDecodeProgramDescriptor := fun e =>
  mkDecode (ed_capability e) (ed_abi_version e) (ed_maximum_emitted_tokens e) (ed_parameters e) (ed_tensor_bindings e).

#[export] Instance eta_ModelDescriptor : Eta ModelDescriptor := fun d =>
  mkDescriptor (schema_version d) (architecture_id d) (content_hash d) (vocab_size d) (max_context_tokens d)
    (hidden_size d) (attributes d) (tensor_bindings d) (routed_components d) (required_kernels d) (layer_program d)
    (operation_program d) (program_inputs d) (program_outputs d) (exact_decode_program d).

(** ** Reading fields *)

(** [split_fields] splits at tabs, as [fields] of the catalog does. *)
Definition split_fields (line : list Z) : list (list Z) := fields line.

Definition parse_u64 (t : list Z) : option Z :=
  match from_chars_u64 t with Some (value, []) => Some value | _ => None end.

Definition parse_u32 (t : list Z) : option Z :=
  match parse_u64 t with Some wide => if U32_MAX <? wide then None else Some wide | None => None end.

Definition get_atom (t : list Z) : option (list Z) := if valid_atom t then Some t else None.

(** A field that may be a dash, for none. *)
Definition dash : list Z := [45].
Definition get_component_name (t : list Z) : option (list Z) :=
  if bool_decide (t = dash) then Some [] else get_atom t.

(** [emplace(k, v).second]. *)
Definition emplace {V : Type} (k : list Z) (v : V) (m : gmap (list Z) V) : option (gmap (list Z) V) :=
  match m !! k with Some _ => None | None => Some (<[k := v]> m) end.

(** [std::find_if], and what is then done to the element found. *)
Fixpoint update_first {A : Type} (p : A -> bool) (f : A -> option A) (l : list A) : option (list A) :=
  match l with
  | [] => None
  | a :: l =>
    if p a then match f a with Some a => Some (a :: l) | None => None end
    else match update_first p f l with Some l => Some (a :: l) | None => None end
  end.

Definition at_component (name : list Z) (f : RoutedExpertComponentDescriptor -> option RoutedExpertComponentDescriptor)
    (d : ModelDescriptor) : option ModelDescriptor :=
  l ← update_first (fun c => bool_decide (rc_name c = name)) f (routed_components d);
  Some (d <| routed_components := l |>).

Definition at_layer (number : list Z) (f : LayerProgramDescriptor -> option LayerProgramDescriptor)
    (d : ModelDescriptor) : option ModelDescriptor :=
  n ← parse_u32 number;
  l ← update_first (fun y => ly_logical_layer y =? n) f (layer_program d);
  Some (d <| layer_program := l |>).

Definition at_operation (number : list Z) (f : OperationProgramDescriptor -> option OperationProgramDescriptor)
    (d : ModelDescriptor) : option ModelDescriptor :=
  n ← parse_u32 number;
  l ← update_first (fun o => op_logical_operation o =? n) f (operation_program d);
  Some (d <| operation_program := l |>).

(** A pair of a name and a number, of a name and a name, or of a name and a binding, that is
    added to a map. *)
Definition add_parameter (name value : list Z) (m : Parameters) : option Parameters :=
  k ← get_atom name; v ← parse_u64 value; emplace k v m.

Definition add_tensor (role name : list Z) (m : TensorBindings) : option TensorBindings :=
  k ← get_atom role; v ← get_atom name; emplace k v m.

Definition add_binding (port value abi : list Z) (m : gmap (list Z) ValueBinding) : option (gmap (list Z) ValueBinding) :=
  k ← get_atom port; v ← get_atom value; a ← get_atom abi; emplace k (mkBinding v a) m.

(** ** The lines

    [None] is a malformed line. A line's first field says what it is; most of them need
    the model line before them. *)

Definition model_line (args : list (list Z)) (d : ModelDescriptor) : option ModelDescriptor :=
  match args with
  | [version; architecture; vocab; context; hidden] =>
    a ← get_atom architecture;
    v ← parse_u32 version; s ← parse_u32 vocab; c ← parse_u32 context; h ← parse_u32 hidden;
    Some (d <| schema_version := v |> <| vocab_size := s |> <| max_context_tokens := c |> <| hidden_size := h |>
            <| architecture_id := a |>)
  | _ => None
  end.

Definition attribute_line (args : list (list Z)) (d : ModelDescriptor) : option ModelDescriptor :=
  match args with
  | [name; value] => m ← add_parameter name value (attributes d); Some (d <| attributes := m |>)
  | _ => None
  end.

Definition model_tensor_line (args : list (list Z)) (d : ModelDescriptor) : option ModelDescriptor :=
  match args with
  | [role; name] => m ← add_tensor role name (tensor_bindings d); Some (d <| tensor_bindings := m |>)
  | _ => None
  end.

Definition endpoint_line (input : bool) (args : list (list Z)) (d : ModelDescriptor) : option ModelDescriptor :=
  match args with
  | [role; value; abi] =>
    m ← add_binding role value abi (if input then program_inputs d else program_outputs d);
    Some (if input then d <| program_inputs := m |> else d <| program_outputs := m |>)
  | _ => None
  end.

Definition kernel_line (args : list (list Z)) (d : ModelDescriptor) : option ModelDescriptor :=
  match args with
  | [capability; abi] =>
    c ← get_atom capability; v ← parse_u32 abi;
    Some (d <| required_kernels %= fun l => l ++ [mkRequirement c v] |>)
  | _ => None
  end.

Definition exact_decode_line (args : list (list Z)) (d : ModelDescriptor) : option ModelDescriptor :=
  match exact_decode_program d, args with
  | None, [capability; abi; tokens] =>
    c ← get_atom capability; v ← parse_u32 abi; n ← parse_u32 tokens;
    Some (d <| exact_decode_program := Some (mkDecode c v n ∅ ∅) |>)
  | _, _ => None
  end.

Definition exact_decode_parameter_line (args : list (list Z)) (d : ModelDescriptor) : option ModelDescriptor :=
  match exact_decode_program d, args with
  | Some e, [name; value] =>
    m ← add_parameter name value (ed_parameters e);
    Some (d <| exact_decode_program := Some (e <| ed_parameters := m |>) |>)
  | _, _ => None
  end.

Definition exact_decode_tensor_line (args : list (list Z)) (d : ModelDescriptor) : option ModelDescriptor :=
  match exact_decode_program d, args with
  | Some e, [role; name] =>
    m ← add_tensor role name (ed_tensor_bindings e);
    Some (d <| exact_decode_program := Some (e <| ed_tensor_bindings := m |>) |>)
  | _, _ => None
  end.

(** [base]: the start of the namespaces that the runtime has chosen. *)
Definition component_line (base : Z) (args : list (list Z)) (d : ModelDescriptor) : option ModelDescriptor :=
  match args with
  | [name; offset; layers; experts; width; shared; hidden; intermediate; capability; abi; source; encoding_abi; encoding] =>
    n ← get_atom name; c ← get_atom capability; e ← get_atom encoding;
    o ← parse_u64 offset;
    if U64_MAX - base <? o then None
    else
      l ← parse_u32 layers; x ← parse_u32 experts; w ← parse_u32 width; s ← parse_u32 shared; h ← parse_u32 hidden;
      i ← parse_u32 intermediate; v ← parse_u32 abi; sa ← parse_u32 source; ea ← parse_u32 encoding_abi;
      Some (d <| routed_components %= fun cs =>
                cs ++ [mkComponent n (base + o) l x w s h i c v sa ea e ∅ (mkRouter [] 1 ∅)] |>)
  | _ => None
  end.

Definition component_attribute_line (args : list (list Z)) (d : ModelDescriptor) : option ModelDescriptor :=
  match args with
  | [component; name; value] =>
    at_component component (fun c => m ← add_parameter name value (rc_attributes c); Some (c <| rc_attributes := m |>)) d
  | _ => None
  end.

Definition router_line (args : list (list Z)) (d : ModelDescriptor) : option ModelDescriptor :=
  match args with
  | [component; capability; abi] =>
    at_component component (fun c =>
      k ← get_atom capability;
      if negb (bool_decide (rt_capability (rc_router c) = [])) then None
      else v ← parse_u32 abi; Some (c <| rc_router %= fun r => r <| rt_abi_version := v |> <| rt_capability := k |> |>)) d
  | _ => None
  end.

Definition router_parameter_line (args : list (list Z)) (d : ModelDescriptor) : option ModelDescriptor :=
  match args with
  | [component; name; value] =>
    at_component component (fun c =>
      if bool_decide (rt_capability (rc_router c) = []) then None
      else
        m ← add_parameter name value (rt_parameters (rc_router c));
        Some (c <| rc_router %= fun r => r <| rt_parameters := m |> |>)) d
  | _ => None
  end.

Definition layer_line (args : list (list Z)) (d : ModelDescriptor) : option ModelDescriptor :=
  match args with
  | [logical; block; abi; component; component_layer] =>
    b ← get_atom block; n ← parse_u32 logical; v ← parse_u32 abi; cl ← parse_u32 component_layer;
    c ← get_component_name component;
    Some (d <| layer_program %= fun l => l ++ [mkLayer n b v c cl ∅] |>)
  | _ => None
  end.

Definition layer_parameter_line (args : list (list Z)) (d : ModelDescriptor) : option ModelDescriptor :=
  match args with
  | [logical; name; value] =>
    at_layer logical (fun l => m ← add_parameter name value (ly_parameters l); Some (l <| ly_parameters := m |>)) d
  | _ => None
  end.

Definition operation_line (args : list (list Z)) (d : ModelDescriptor) : option ModelDescriptor :=
  match args with
  | [logical; layer; capability; abi; component; component_layer] =>
    c ← get_atom capability; n ← parse_u32 logical;
    y ← (if bool_decide (layer = dash) then Some kModelLevelOperationLayer else parse_u32 layer);
    v ← parse_u32 abi; cl ← parse_u32 component_layer; r ← get_component_name component;
    Some (d <| operation_program %= fun l => l ++ [mkOperation n y c v r cl ∅ ∅ ∅ ∅] |>)
  | _ => None
  end.

Definition operation_parameter_line (args : list (list Z)) (d : ModelDescriptor) : option ModelDescriptor :=
  match args with
  | [logical; name; value] =>
    at_operation logical (fun o => m ← add_parameter name value (op_parameters o); Some (o <| op_parameters := m |>)) d
  | _ => None
  end.

Definition operation_tensor_line (args : list (list Z)) (d : ModelDescriptor) : option ModelDescriptor :=
  match args with
  | [logical; role; name] =>
    at_operation logical (fun o => m ← add_tensor role name (op_tensor_bindings o); Some (o <| op_tensor_bindings := m |>)) d
  | _ => None
  end.

Definition operation_port_line (input : bool) (args : list (list Z)) (d : ModelDescriptor) : option ModelDescriptor :=
  match args with
  | [logical; port; value; abi] =>
    at_operation logical (fun o =>
      m ← add_binding port value abi (if input then op_input_bindings o else op_output_bindings o);
      Some (if input then o <| op_input_bindings := m |> else o <| op_output_bindings := m |>)) d
  | _ => None
  end.

(** ** The text *)

(** What a line may say. The first ten need a model line before them by themselves, the
    others change something that such a line has added. *)
Inductive LineKind : Type :=
| is_model | is_attribute | is_model_tensor | is_program_input | is_program_output | is_kernel | is_exact_decode
| is_component | is_layer | is_operation
| is_exact_decode_parameter | is_exact_decode_tensor | is_component_attribute | is_router | is_router_parameter
| is_layer_parameter | is_operation_parameter | is_operation_tensor | is_operation_input | is_operation_output.

Definition kind_name (k : LineKind) : list Z :=
  bytes match k with
        | is_model => "model" | is_attribute => "attribute" | is_model_tensor => "model_tensor"
        | is_program_input => "program_input" | is_program_output => "program_output" | is_kernel => "kernel"
        | is_exact_decode => "exact_decode" | is_component => "component" | is_layer => "layer"
        | is_operation => "operation" | is_exact_decode_parameter => "exact_decode_parameter"
        | is_exact_decode_tensor => "exact_decode_tensor" | is_component_attribute => "component_attribute"
        | is_router => "router" | is_router_parameter => "router_parameter" | is_layer_parameter => "layer_parameter"
        | is_operation_parameter => "operation_parameter" | is_operation_tensor => "operation_tensor"
        | is_operation_input => "operation_input" | is_operation_output => "operation_output"
        end.

Definition line_kinds : list LineKind :=
  [is_model; is_attribute; is_model_tensor; is_program_input; is_program_output; is_kernel; is_exact_decode;
   is_exact_decode_parameter; is_exact_decode_tensor; is_component; is_component_attribute; is_router;
   is_router_parameter; is_layer; is_layer_parameter; is_operation; is_operation_parameter; is_operation_tensor;
   is_operation_input; is_operation_output].

(** The chain of comparisons with the first field. *)
Definition kind_of (t : list Z) : option LineKind := snd <$> list_find (fun k => kind_name k = t) line_kinds.

(** The descriptor, and whether the model line has been read. *)
Definition ParseState : Type := ModelDescriptor * bool.

(** A line that is malformed without a model line. *)
Definition with_model (f : ModelDescriptor -> option ModelDescriptor) (s : ParseState) : option ParseState :=
  if s.2 then d ← f s.1; Some (d, true) else None.

(** A line that looks up what it changes, and is malformed if it finds nothing. *)
Definition changing (f : ModelDescriptor -> option ModelDescriptor) (s : ParseState) : option ParseState :=
  d ← f s.1; Some (d, s.2).

Definition parse_kind (base : Z) (k : LineKind) (args : list (list Z)) (s : ParseState) : option ParseState :=
  match k with
  | is_model => if s.2 then None else d ← model_line args s.1; Some (d, true)
  | is_attribute => with_model (attribute_line args) s
  | is_model_tensor => with_model (model_tensor_line args) s
  | is_program_input => with_model (endpoint_line true args) s
  | is_program_output => with_model (endpoint_line false args) s
  | is_kernel => with_model (kernel_line args) s
  | is_exact_decode => with_model (exact_decode_line args) s
  | is_exact_decode_parameter => changing (exact_decode_parameter_line args) s
  | is_exact_decode_tensor => changing (exact_decode_tensor_line args) s
  | is_component => with_model (component_line base args) s
  | is_component_attribute => changing (component_attribute_line args) s
  | is_router => changing (router_line args) s
  | is_router_parameter => changing (router_parameter_line args) s
  | is_layer => with_model (layer_line args) s
  | is_layer_parameter => changing (layer_parameter_line args) s
  | is_operation => with_model (operation_line args) s
  | is_operation_parameter => changing (operation_parameter_line args) s
  | is_operation_tensor => changing (operation_tensor_line args) s
  | is_operation_input => changing (operation_port_line true args) s
  | is_operation_output => changing (operation_port_line false args) s
  end.

Definition parse_fields (base : Z) (l : list (list Z)) (s : ParseState) : option ParseState :=
  match l with
  | [] => None
  | name :: args => match kind_of name with Some k => parse_kind base k args s | None => None end
  end.

(** A carriage return that ends the line is dropped. *)
Definition strip_return (line : list Z) : list Z :=
  if bool_decide (last line = Some 13) then removelast line else line.

Definition descriptor_header : list Z := bytes "expert-runtime-model-v1".

(** The loop over the lines, of which [number] have been read; the header comes first. *)
Fixpoint parse_lines (base : Z) (number : Z) (header : bool) (lines : list (list Z)) (s : ParseState)
  : checked (bool * ParseState) :=
  match lines with
  | [] => inr (header, s)
  | line :: lines =>
    let number := number + 1 in
    let line := strip_return line in
    if bool_decide (line = []) then parse_lines base number header lines s
    else if negb header then
      if bool_decide (line = descriptor_header) then parse_lines base number true lines s
      else invalid "unknown model descriptor artifact header"
    else
      match parse_fields base (split_fields line) s with
      | None => invalid ("malformed model descriptor line " +:+ text (to_string number))
      | Some s => parse_lines base number true lines s
      end
  end.

(** A descriptor that nothing has been read into. *)
Definition new_descriptor (content_hash : list Z) : ModelDescriptor :=
  mkDescriptor 1 [] content_hash 0 0 0 ∅ ∅ [] [] [] [] ∅ ∅ None.

Definition no_descriptor : ModelDescriptor := new_descriptor (replicate 32 0).

Definition parse_model_descriptor_artifact (t : list Z) (content_hash : list Z) (namespace_base : Z)
  : Status * ModelDescriptor :=
  if namespace_base =? 0 then (mkStatus invalid_arg "model descriptor namespace base is zero", no_descriptor)
  else
    match parse_lines namespace_base 0 false (lines_from [] t) (new_descriptor content_hash, false) with
    | inl status => (status, no_descriptor)
    | inr (header, (descriptor, model)) =>
      if negb header || negb model
      then (mkStatus invalid_arg "model descriptor artifact is incomplete", no_descriptor)
      else
        let valid := validate_model_descriptor descriptor in
        if negb (status_ok valid) then (valid, no_descriptor) else (success, descriptor)
    end.

(** ** Loading *)

(** What the file system knows of a path: the contents of a regular file, and whether
    reading it succeeds. Anything else is [None]. *)
Definition FileSystem : Type := list Z -> option (list Z * bool).

Definition maximum_descriptor_bytes : Z := Z.shiftl 64 20.

Definition load_model_descriptor_artifact (fs : FileSystem) (path : list Z) (expected_bytes : Z)
    (expected_sha256 content_hash : list Z) (namespace_base : Z) : Status * ModelDescriptor :=
  if (expected_bytes =? 0) || (maximum_descriptor_bytes <? expected_bytes)
  then (mkStatus invalid_arg "model descriptor artifact size is invalid", no_descriptor)
  else
    match fs path with
    | None => (mkStatus invalid_arg "model descriptor artifact size is invalid", no_descriptor)
    | Some (contents, readable) =>
      if negb (Z.of_nat (length contents) =? expected_bytes)
      then (mkStatus invalid_arg "model descriptor artifact size is invalid", no_descriptor)
      else if negb readable then (mkStatus invalid_arg "model descriptor artifact read failed", no_descriptor)
      else if negb (bool_decide (sha256 contents = expected_sha256))
      then (mkStatus invalid_arg "model descriptor artifact checksum mismatch", no_descriptor)
      else parse_model_descriptor_artifact contents content_hash namespace_base
    end.
