(* ===== verification/DescriptorTextTheorems.v ===== *)
(** What is proved of the artifact reader of model descriptors. The format has a printer,
    written here; a valid descriptor that the format can carry, printed, is read back as it
    was, whatever its maps, components, layers and operations. *)

From Stdlib Require Import String.
From S2P Require Import Prelude.
From S2P Require Import Storage.
From S2P Require Import Text.
From S2P Require Import Sha256.
From S2P Require Import ExpertCatalog.
From S2P Require Import ModelDescriptor.
From S2P Require Import ModelDescriptorTheorems.
From S2P Require Import DescriptorText.

#[local] Open Scope bool_scope.
#[local] Open Scope Z_scope.

(** ** Fields and lines *)

(** A field that no delimiter breaks. *)
Definition clean (t : list Z) : Prop := Forall (fun c => c <> 9 /\ c <> 10 /\ c <> 13) t.

Lemma atom_clean t : atom t -> clean t.
Proof. intros (_ & H9 & H10 & H13). apply Forall_forall. intros c Hc. split_and!; intros ->; done. Qed.

Lemma to_string_clean n : u64 n -> clean (to_string n).
Proof.
  intros Hn. destruct (to_string_spec n Hn) as (Hd & _). eapply Forall_impl; [exact Hd|].
  intros c Hc%is_digit_iff. lia.
Qed.

Lemma kind_name_clean k : clean (kind_name k).
Proof. apply (bool_decide_unpack _). destruct k; vm_compute; exact I. Qed.

Lemma kind_name_nonempty k : kind_name k <> [].
Proof. by destruct k. Qed.

Lemma kind_of_name k : kind_of (kind_name k) = Some k.
Proof. destruct k; vm_compute; reflexivity. Qed.

(** The fields of a line with tabs between them. *)
Fixpoint join_fields (l : list (list Z)) : list Z :=
  match l with
  | [] => []
  | [t] => t
  | t :: l => t ++ 9 :: join_fields l
  end.

Lemma fields_from_clean t l acc : clean t -> fields_from acc (t ++ 9 :: l) = (rev acc ++ t) :: fields_from [] l.
Proof.
  intros Ht. revert acc. induction Ht as [|c t (H9 & _ & _) _ IH]; intros acc; cbn.
  - by rewrite app_nil_r.
  - rewrite (proj2 (Z.eqb_neq c 9)) by done. rewrite IH. cbn. by rewrite <- app_assoc.
Qed.

Lemma fields_from_last t acc : clean t -> fields_from acc t = [rev acc ++ t].
Proof.
  intros Ht. revert acc. induction Ht as [|c t (H9 & _ & _) _ IH]; intros acc; cbn.
  - by rewrite app_nil_r.
  - rewrite (proj2 (Z.eqb_neq c 9)) by done. rewrite IH. cbn. by rewrite <- app_assoc.
Qed.

Lemma split_join l : l <> [] -> Forall clean l -> split_fields (join_fields l) = l.
Proof.
  intros Hne Hl. unfold split_fields, fields. induction Hl as [|t l Ht Hl IH]; [done|].
  destruct l as [|t' l]; [by apply fields_from_last|].
  change (join_fields (t :: t' :: l)) with (t ++ 9 :: join_fields (t' :: l)).
  rewrite fields_from_clean by done. by rewrite IH.
Qed.

(** A line of text without its end. *)
Definition clean_line (t : list Z) : Prop := Forall (fun c => c <> 10 /\ c <> 13) t.

Lemma join_clean l : Forall clean l -> clean_line (join_fields l).
Proof.
  induction 1 as [|t l Ht _ IH]; [constructor|].
  assert (clean_line t) as Ht' by (eapply Forall_impl; [exact Ht|]; cbn; tauto).
  destruct l as [|t' l]; [done|]. apply Forall_app. split; [done|]. constructor; [done|exact IH].
Qed.

Lemma lines_from_clean t rest acc : clean_line t -> lines_from acc (t ++ 10 :: rest) = (rev acc ++ t) :: lines_from [] rest.
Proof.
  intros Ht. revert acc. induction Ht as [|c t (H10 & _) _ IH]; intros acc; cbn.
  - by rewrite app_nil_r.
  - rewrite (proj2 (Z.eqb_neq c 10)) by done. rewrite IH. cbn. by rewrite <- app_assoc.
Qed.

(** A text of lines, each of which ends. *)
Definition text_of (lines : list (list Z)) : list Z := lines ≫= fun line => line ++ [10].

Lemma lines_of_text lines : Forall clean_line lines -> lines_from [] (text_of lines) = lines.
Proof.
  unfold text_of. induction 1 as [|line lines Hl _ IH]; [done|]. cbn [mbind list_bind].
  rewrite <- app_assoc. cbn [app]. rewrite lines_from_clean by done. cbn. by rewrite IH.
Qed.

Lemma strip_clean t : clean_line t -> strip_return t = t.
Proof.
  intros Ht. unfold strip_return. rewrite bool_decide_eq_false_2; [done|].
  intros Hlast%last_Some_elem_of. by eapply Forall_forall in Ht as [_ ?].
Qed.

(** ** Entries *)

(** The lines of a text, as what they say and their arguments. *)
Definition Entry : Type := LineKind * list (list Z).

Definition entry_line (e : Entry) : list Z := join_fields (kind_name e.1 :: e.2).
Definition printed (entries : list Entry) : list Z := text_of (descriptor_header :: (entry_line <$> entries)).

(** What a list of entries makes of a state. *)
Fixpoint run (base : Z) (entries : list Entry) (s : ParseState) : option ParseState :=
  match entries with
  | [] => Some s
  | e :: entries => s ← parse_kind base e.1 e.2 s; run base entries s
  end.

Lemma run_app base a b s : run base (a ++ b) s = (s ← run base a s; run base b s).
Proof. revert s. induction a as [|e a IH]; intros s; [done|]. cbn. destruct (parse_kind _ _ _ _); [apply IH|done]. Qed.

Lemma run_then base a b s s' r : run base a s = Some s' -> run base b s' = r -> run base (a ++ b) s = r.
Proof. intros Ha <-. by rewrite run_app, Ha. Qed.

Definition clean_entry (e : Entry) : Prop := Forall clean e.2.

Lemma entry_line_clean e : clean_entry e -> clean_line (entry_line e).
Proof. intros He. apply join_clean. constructor; [apply kind_name_clean|done]. Qed.

Lemma join_fields_nonempty t l : t <> [] -> join_fields (t :: l) <> [].
Proof. destruct t; [done|]. by destruct l. Qed.

Lemma parse_entries base number entries s s' :
  Forall clean_entry entries -> run base entries s = Some s' ->
  parse_lines base number true (entry_line <$> entries) s = inr (true, s').
Proof.
  intros He. revert number s. induction He as [|e entries Hc He IH]; intros number s Hr; [by injection Hr as ->|].
  cbn [fmap list_fmap parse_lines]. cbv zeta. rewrite strip_clean by by apply entry_line_clean.
  rewrite bool_decide_eq_false_2 by apply join_fields_nonempty, kind_name_nonempty. cbn [negb].
  unfold entry_line at 1. rewrite split_join by (done || (constructor; [apply kind_name_clean|done])).
  unfold parse_fields. rewrite kind_of_name. cbn [run] in Hr. destruct (parse_kind base e.1 e.2 s); [|done]. by apply IH.
Qed.

Lemma read_printed base entries hash d :
  base <> 0 -> Forall clean_entry entries -> run base entries (new_descriptor hash, false) = Some (d, true) ->
  validate_model_descriptor d = success ->
  parse_model_descriptor_artifact (printed entries) hash base = (success, d).
Proof.
  intros Hb He Hr Hv. unfold parse_model_descriptor_artifact, printed. rewrite (proj2 (Z.eqb_neq _ _)) by done.
  assert (clean_line descriptor_header) as Hh by (apply (bool_decide_unpack _); vm_compute; exact I).
  rewrite lines_of_text.
  2: { constructor; [done|]. apply Forall_fmap. eapply Forall_impl; [exact He|]. apply entry_line_clean. }
  cbn [parse_lines]. cbv zeta. rewrite strip_clean by done. rewrite bool_decide_eq_false_2 by done.
  rewrite bool_decide_eq_true_2 by done. cbn [negb]. rewrite (parse_entries _ _ _ _ _ He Hr). cbn [negb orb].
  by rewrite Hv.
Qed.

(** ** The printer *)

Section Printer.
Context (base : Z).

Definition parameters_entries (k : LineKind) (context : list (list Z)) (m : Parameters) : list Entry :=
  (fun kv => (k, context ++ [kv.1; to_string kv.2])) <$> ordered bytes_ltb m.

Definition tensor_entries (k : LineKind) (context : list (list Z)) (m : TensorBindings) : list Entry :=
  (fun kv => (k, context ++ [kv.1; kv.2])) <$> ordered bytes_ltb m.

Definition binding_entries (k : LineKind) (context : list (list Z)) (m : gmap (list Z) ValueBinding) : list Entry :=
  (fun kv => (k, context ++ [kv.1; vb_value kv.2; vb_abi kv.2])) <$> ordered bytes_ltb m.

Definition or_dash (t : list Z) : list Z := if bool_decide (t = []) then dash else t.

Definition model_entry (d : ModelDescriptor) : Entry :=
  (is_model, [to_string (schema_version d); architecture_id d; to_string (vocab_size d);
              to_string (max_context_tokens d); to_string (hidden_size d)]).

Definition kernel_entry (k : KernelRequirement) : Entry := (is_kernel, [kr_capability k; to_string (kr_abi_version k)]).

Definition decode_entries (e : ExactDecodeProgramDescriptor) : list Entry :=
  (is_exact_decode, [ed_capability e; to_string (ed_abi_version e); to_string (ed_maximum_emitted_tokens e)]) ::
  parameters_entries is_exact_decode_parameter [] (ed_parameters e) ++
  tensor_entries is_exact_decode_tensor [] (ed_tensor_bindings e).

Definition router_entries (name : list Z) (r : RouterProgramDescriptor) : list Entry :=
  if bool_decide (rt_capability r = []) then []
  else (is_router, [name; rt_capability r; to_string (rt_abi_version r)]) ::
       parameters_entries is_router_parameter [name] (rt_parameters r).

Definition component_entries (c : RoutedExpertComponentDescriptor) : list Entry :=
  (is_component, [rc_name c; to_string (rc_namespace_id c - base); to_string (rc_layer_count c);
     to_string (rc_experts_per_layer c); to_string (rc_route_width c); to_string (rc_shared_experts_per_layer c);
     to_string (rc_hidden_size c); to_string (rc_intermediate_size c); rc_execution_capability c;
     to_string (rc_execution_abi c); to_string (rc_source_abi c); to_string (rc_encoding_abi c); rc_encoding c]) ::
  parameters_entries is_component_attribute [rc_name c] (rc_attributes c) ++ router_entries (rc_name c) (rc_router c).

Definition layer_entries (l : LayerProgramDescriptor) : list Entry :=
  (is_layer, [to_string (ly_logical_layer l); ly_block_capability l; to_string (ly_block_abi_version l);
     or_dash (ly_routed_component l); to_string (ly_component_layer l)]) ::
  parameters_entries is_layer_parameter [to_string (ly_logical_layer l)] (ly_parameters l).

Definition operation_entries (o : OperationProgramDescriptor) : list Entry :=
  let n := to_string (op_logical_operation o) in
  (is_operation, [n; (if op_logical_layer o =? kModelLevelOperationLayer then dash else to_string (op_logical_layer o));
     op_capability o; to_string (op_abi_version o); or_dash (op_routed_component o); to_string (op_component_layer o)]) ::
  parameters_entries is_operation_parameter [n] (op_parameters o) ++
  tensor_entries is_operation_tensor [n] (op_tensor_bindings o) ++
  binding_entries is_operation_input [n] (op_input_bindings o) ++
  binding_entries is_operation_output [n] (op_output_bindings o).

Definition descriptor_entries (d : ModelDescriptor) : list Entry :=
  model_entry d ::
  parameters_entries is_attribute [] (attributes d) ++
  tensor_entries is_model_tensor [] (tensor_bindings d) ++
  binding_entries is_program_input [] (program_inputs d) ++
  binding_entries is_program_output [] (program_outputs d) ++
  (required_kernels d ≫= fun k => [kernel_entry k]) ++
  match exact_decode_program d with Some e => decode_entries e | None => [] end ++
  (routed_components d ≫= component_entries) ++
  (layer_program d ≫= layer_entries) ++
  (operation_program d ≫= operation_entries).

(** The text of a descriptor. *)
Definition print_descriptor (d : ModelDescriptor) : list Z := printed (descriptor_entries d).

(** ** What the format can carry

    Names without delimiters, numbers of the width of their fields, and no component that is
    called by the sign for none. *)

Definition parameters_ok (m : Parameters) : Prop := forall k v, m !! k = Some v -> atom k /\ u64 v.

Definition named (t : list Z) : Prop := t = [] \/ atom t /\ t <> dash.

Record component_printable (c : RoutedExpertComponentDescriptor) : Prop := {
  cp_atoms : atom (rc_name c) /\ atom (rc_execution_capability c) /\ atom (rc_encoding c);
  cp_namespace : base <= rc_namespace_id c <= U64_MAX;
  cp_counts : u32 (rc_layer_count c) /\ u32 (rc_experts_per_layer c) /\ u32 (rc_route_width c) /\
    u32 (rc_shared_experts_per_layer c) /\ u32 (rc_hidden_size c) /\ u32 (rc_intermediate_size c);
  cp_abis : u32 (rc_execution_abi c) /\ u32 (rc_source_abi c) /\ u32 (rc_encoding_abi c);
  cp_attributes : parameters_ok (rc_attributes c);
  cp_router : rc_router c = mkRouter [] 1 ∅ \/
    atom (rt_capability (rc_router c)) /\ u32 (rt_abi_version (rc_router c)) /\ parameters_ok (rt_parameters (rc_router c)) }.

Record layer_printable (l : LayerProgramDescriptor) : Prop := {
  lp_atom : atom (ly_block_capability l);
  lp_numbers : u32 (ly_logical_layer l) /\ u32 (ly_block_abi_version l) /\ u32 (ly_component_layer l);
  lp_component : named (ly_routed_component l);
  lp_parameters : parameters_ok (ly_parameters l) }.

Record operation_printable (o : OperationProgramDescriptor) : Prop := {
  opp_atom : atom (op_capability o);
  opp_numbers : u32 (op_logical_operation o) /\ u32 (op_logical_layer o) /\ u32 (op_abi_version o) /\ u32 (op_component_layer o);
  opp_component : named (op_routed_component o);
  opp_parameters : parameters_ok (op_parameters o) }.

Record printable (d : ModelDescriptor) : Prop := {
  pr_base : 0 < base <= U64_MAX;
  pr_atom : atom (architecture_id d);
  pr_numbers : u32 (schema_version d) /\ u32 (vocab_size d) /\ u32 (max_context_tokens d) /\ u32 (hidden_size d);
  pr_attributes : parameters_ok (attributes d);
  pr_kernels : forall k, k ∈ required_kernels d -> atom (kr_capability k) /\ u32 (kr_abi_version k);
  pr_decode : forall e, exact_decode_program d = Some e ->
    u32 (ed_abi_version e) /\ u32 (ed_maximum_emitted_tokens e) /\ parameters_ok (ed_parameters e);
  pr_components : forall c, c ∈ routed_components d -> component_printable c;
  pr_layers : forall l, l ∈ layer_program d -> layer_printable l;
  pr_operations : forall o, o ∈ operation_program d -> operation_printable o }.


(** ** Reading what was written *)

#[local] Arguments parse_u32 _ : simpl never.
#[local] Arguments parse_u64 _ : simpl never.
#[local] Arguments get_atom _ : simpl never.
#[local] Arguments to_string _ : simpl never.
#[local] Arguments get_component_name _ : simpl never.
#[local] Arguments add_parameter _ _ _ : simpl never.
#[local] Arguments add_tensor _ _ _ : simpl never.
#[local] Arguments add_binding _ _ _ _ : simpl never.

Lemma get_atom_atom t : atom t -> get_atom t = Some t.
Proof. intros Ht. unfold get_atom. by rewrite (proj2 (valid_atom_iff t) Ht). Qed.

Lemma parse_u64_to_string n : u64 n -> parse_u64 (to_string n) = Some n.
Proof.
  intros Hn. unfold parse_u64. pose proof (from_chars_to_string n [] Hn) as H. rewrite app_nil_r in H.
  by rewrite H by done.
Qed.

Lemma field_u64 n : u32 n -> u64 n.
Proof. unfold u32, u64, U32_MAX, U64_MAX. lia. Qed.

Lemma read_u32_to_string n : u32 n -> parse_u32 (to_string n) = Some n.
Proof.
  intros Hn. unfold parse_u32. rewrite parse_u64_to_string by by apply field_u64.
  unfold u32 in Hn. by rewrite (proj2 (Z.ltb_ge _ _)) by lia.
Qed.

Lemma component_name_read t : named t -> get_component_name (or_dash t) = Some t.
Proof.
  intros [->|[Ht Hd]]; [done|]. unfold or_dash, get_component_name. destruct Ht as (Hne & Ht).
  rewrite (bool_decide_eq_false_2 (t = [])) by done. rewrite bool_decide_eq_false_2 by done. by apply get_atom_atom.
Qed.

Lemma emplace_fresh {V} (k : list Z) (v : V) (m : gmap (list Z) V) : m !! k = None -> emplace k v m = Some (<[k := v]> m).
Proof. intros Hk. unfold emplace. by rewrite Hk. Qed.

Lemma add_parameter_fresh (k : list Z) (v : Z) (m : Parameters) : atom k -> u64 v -> m !! k = None -> add_parameter k (to_string v) m = Some (<[k := v]> m).
Proof.
  intros Hk Hv Hm. unfold add_parameter. rewrite get_atom_atom, parse_u64_to_string by done. by apply emplace_fresh.
Qed.

Lemma add_tensor_fresh (k v : list Z) (m : TensorBindings) : atom k -> atom v -> m !! k = None -> add_tensor k v m = Some (<[k := v]> m).
Proof. intros Hk Hv Hm. unfold add_tensor. rewrite !get_atom_atom by done. by apply emplace_fresh. Qed.

Lemma add_binding_fresh (k : list Z) (b : ValueBinding) (m : gmap (list Z) ValueBinding) :
  atom k -> atom (vb_value b) -> atom (vb_abi b) -> m !! k = None ->
  add_binding k (vb_value b) (vb_abi b) m = Some (<[k := b]> m).
Proof.
  intros Hk Hv Ha Hm. unfold add_binding. rewrite !get_atom_atom by done. destruct b. by apply emplace_fresh.
Qed.

Lemma update_first_last {A : Type} (p : A -> bool) (f : A -> option A) past a a' :
  (forall x, x ∈ past -> p x = false) -> p a = true -> f a = Some a' ->
  update_first p f (past ++ [a]) = Some (past ++ [a']).
Proof.
  intros Hp Ha Hf. induction past as [|x past IH]; cbn; [by rewrite Ha, Hf|].
  rewrite Hp by constructor. rewrite IH; [done|]. intros y Hy. apply Hp. by constructor.
Qed.

(** The entries of a map, read one by one. *)
Lemma run_pairs {V : Type} (entry : list Z * V -> Entry) (put : gmap (list Z) V -> ModelDescriptor)
    (P : list Z -> V -> Prop) (l : list (list Z * V)) (m0 : gmap (list Z) V) :
  (forall k v m, P k v -> m !! k = None ->
    parse_kind base (entry (k, v)).1 (entry (k, v)).2 (put m, true) = Some (put (<[k := v]> m), true)) ->
  Forall (fun kv => P kv.1 kv.2) l -> NoDup l.*1 -> (forall k, k ∈ l.*1 -> m0 !! k = None) ->
  run base (entry <$> l) (put m0, true) = Some (put (list_to_map l ∪ m0), true).
Proof.
  intros Hstep Hl. revert m0. induction Hl as [|[k v] l Hkv Hl IH]; intros m0 Hnd Hfresh; cbn.
  - by rewrite (left_id_L ∅ (∪)).
  - cbn in Hnd. apply NoDup_cons in Hnd as [Hk Hnd]. rewrite Hstep; [|done|apply Hfresh; by constructor].
    cbn. rewrite IH; [|done|].
    + do 2 f_equal. by rewrite <- insert_union_r, insert_union_l by by apply not_elem_of_list_to_map_1.
    + intros k' Hk'. rewrite lookup_insert_ne by (intros ->; done). apply Hfresh. by constructor.
Qed.

Lemma run_map {V : Type} (entry : list Z * V -> Entry) (put : gmap (list Z) V -> ModelDescriptor)
    (P : list Z -> V -> Prop) (m : gmap (list Z) V) :
  (forall k v, m !! k = Some v -> P k v) ->
  (forall k v m0, P k v -> m0 !! k = None ->
    parse_kind base (entry (k, v)).1 (entry (k, v)).2 (put m0, true) = Some (put (<[k := v]> m0), true)) ->
  run base (entry <$> ordered bytes_ltb m) (put ∅, true) = Some (put m, true).
Proof.
  intros HP Hstep. rewrite (run_pairs entry put P).
  - rewrite (right_id_L ∅ (∪)). do 3 f_equal. rewrite (list_to_map_proper _ (map_to_list m)).
    + apply list_to_map_to_list.
    + apply ordered_keys_NoDup.
    + apply ordered_perm.
  - done.
  - apply Forall_forall. intros [k v] Hkv%elem_of_ordered. by apply HP.
  - apply ordered_keys_NoDup.
  - intros k _. apply lookup_empty.
Qed.

Lemma run_parameters (k : LineKind) (context : list (list Z)) (put : Parameters -> ModelDescriptor) m :
  parameters_ok m ->
  (forall (name value : list Z) m0 m1, add_parameter name value m0 = Some m1 ->
    parse_kind base k (context ++ [name; value]) (put m0, true) = Some (put m1, true)) ->
  run base (parameters_entries k context m) (put ∅, true) = Some (put m, true).
Proof.
  intros Hm Hstep. apply (run_map _ put _ m Hm). intros name v m0 [Hn Hv] Hfresh. cbn. apply Hstep.
  by apply add_parameter_fresh.
Qed.

Lemma run_tensors (k : LineKind) (context : list (list Z)) (put : TensorBindings -> ModelDescriptor) m :
  atoms m ->
  (forall (name value : list Z) m0 m1, add_tensor name value m0 = Some m1 ->
    parse_kind base k (context ++ [name; value]) (put m0, true) = Some (put m1, true)) ->
  run base (tensor_entries k context m) (put ∅, true) = Some (put m, true).
Proof.
  intros Hm Hstep. apply (run_map _ put _ m Hm). intros name v m0 [Hn Hv] Hfresh. cbn. apply Hstep.
  by apply add_tensor_fresh.
Qed.

Lemma run_bindings (k : LineKind) (context : list (list Z)) (put : gmap (list Z) ValueBinding -> ModelDescriptor) m :
  ports_ok m ->
  (forall (port value abi : list Z) m0 m1, add_binding port value abi m0 = Some m1 ->
    parse_kind base k (context ++ [port; value; abi]) (put m0, true) = Some (put m1, true)) ->
  run base (binding_entries k context m) (put ∅, true) = Some (put m, true).
Proof.
  intros Hm Hstep. apply (run_map _ put _ m Hm). intros port b m0 (Hp & Hv & Ha) Hfresh. cbn. apply Hstep.
  by apply add_binding_fresh.
Qed.

(** The elements of a list, each of which adds itself to the end. *)
Lemma run_list {A : Type} (entries : A -> list Entry) (put : list A -> ModelDescriptor) (l : list A) :
  (forall past a rest, l = past ++ a :: rest ->
    run base (entries a) (put past, true) = Some (put (past ++ [a]), true)) ->
  run base (l ≫= entries) (put [], true) = Some (put l, true).
Proof.
  intros Hstep. enough (forall rest past, l = past ++ rest ->
    run base (rest ≫= entries) (put past, true) = Some (put l, true)) as H by by apply H.
  induction rest as [|a rest IH]; intros past Hl.
  - rewrite app_nil_r in Hl. by subst past.
  - cbn [mbind list_bind]. rewrite run_app, (Hstep past a rest Hl). cbn. apply IH. by rewrite <- app_assoc.
Qed.

(** *** Components *)

Definition with_components (d : ModelDescriptor) (l : list RoutedExpertComponentDescriptor) : ModelDescriptor :=
  d <| routed_components := l |>.

Lemma at_component_last name c c' (f : RoutedExpertComponentDescriptor -> option RoutedExpertComponentDescriptor)
    (d : ModelDescriptor) (past : list RoutedExpertComponentDescriptor) :
  name ∉ rc_name <$> past -> rc_name c = name -> f c = Some c' ->
  at_component name f (with_components d (past ++ [c])) = Some (with_components d (past ++ [c'])).
Proof.
  intros Hnew Hc Hf. unfold at_component. cbn.
  rewrite (update_first_last _ _ _ _ c'); [done| |by apply bool_decide_eq_true_2|done].
  intros x Hx. apply bool_decide_eq_false_2. intros He. apply Hnew, list_elem_of_fmap. eauto.
Qed.

Lemma run_router (c : RoutedExpertComponentDescriptor) (d : ModelDescriptor) past :
  rc_name c ∉ rc_name <$> past -> component_printable c ->
  run base (router_entries (rc_name c) (rc_router c))
    (with_components d (past ++ [c <| rc_router := mkRouter [] 1 ∅ |>]), true) =
  Some (with_components d (past ++ [c]), true).
Proof.
  intros Hnew Hc. destruct (cp_router _ Hc) as [Hr|(Hcap & Habi & Hp)].
  { destruct c. cbn in *. by subst. }
  destruct Hcap as (Hne & Hrest). unfold router_entries. rewrite bool_decide_eq_false_2 by done.
  cbn [run fst snd parse_kind]. unfold changing, router_line. cbn [fst snd].
  rewrite (at_component_last _ _ (c <| rc_router := (rc_router c) <| rt_parameters := ∅ |> |>)); [|done|done|].
  2: { cbn. rewrite get_atom_atom, read_u32_to_string by done. by destruct c. }
  cbn [mbind option_bind].
  replace (with_components d (past ++ [c])) with
    (with_components d (past ++ [c <| rc_router := (rc_router c) <| rt_parameters := rt_parameters (rc_router c) |> |>]))
    by (by destruct c as [????????????? ? []]).
  apply (run_parameters _ _ (fun m => with_components d (past ++ [c <| rc_router := (rc_router c) <| rt_parameters := m |> |>]))
    _ Hp).
  intros k v m0 m1 Hadd. cbn [app parse_kind]. unfold changing, router_parameter_line. cbn [fst snd].
  erewrite at_component_last; [|done|done|]; [done|]. cbn. rewrite bool_decide_eq_false_2 by done. by rewrite Hadd.
Qed.

Lemma run_component (c : RoutedExpertComponentDescriptor) (d : ModelDescriptor) past :
  0 < base <= U64_MAX -> rc_name c ∉ rc_name <$> past -> component_printable c ->
  run base (component_entries c) (with_components d past, true) = Some (with_components d (past ++ [c]), true).
Proof.
  intros Hb Hnew Hc. destruct Hc as [(Hname & Hexec & Henc) Hns (H1 & H2 & H3 & H4 & H5 & H6) (H7 & H8 & H9) Hattr Hrt] eqn:E.
  unfold component_entries. cbn [run fst snd parse_kind]. unfold with_model, component_line. cbn [fst snd].
  rewrite !get_atom_atom, !read_u32_to_string by done. rewrite parse_u64_to_string by (unfold u64; lia).
  cbn [mbind option_bind]. rewrite (proj2 (Z.ltb_ge _ _)) by lia.
  replace (base + (rc_namespace_id c - base)) with (rc_namespace_id c) by lia. cbn [mbind option_bind].
  rewrite run_app.
  set (put m := with_components d (past ++ [c <| rc_router := mkRouter [] 1 ∅ |> <| rc_attributes := m |>])).
  assert (run base (parameters_entries is_component_attribute [rc_name c] (rc_attributes c)) (put ∅, true) =
          Some (put (rc_attributes c), true)) as H.
  { apply run_parameters; [done|]. intros k v m0 m1 Hadd. cbn [app parse_kind]. unfold changing, component_attribute_line.
    cbn [fst snd]. unfold put. erewrite at_component_last; [|done|done|]; [done|]. cbn. by rewrite Hadd. }
  match goal with |- context [run base (parameters_entries _ _ _) ?s] => change s with (put ∅, true) end.
  rewrite H. cbn [mbind option_bind]. subst put. cbn beta.
  replace (c <| rc_router := mkRouter [] 1 ∅ |> <| rc_attributes := rc_attributes c |>) with
    (c <| rc_router := mkRouter [] 1 ∅ |>) by done.
  by apply run_router.
Qed.

Lemma run_components (d : ModelDescriptor) l :
  0 < base <= U64_MAX -> NoDup (rc_name <$> l) -> (forall c, c ∈ l -> component_printable c) ->
  run base (l ≫= component_entries) (with_components d [], true) = Some (with_components d l, true).
Proof.
  intros Hb Hnd Hc. apply run_list. intros past c rest ->. apply run_component; [done| |].
  - rewrite fmap_app in Hnd. cbn in Hnd. apply NoDup_app in Hnd as (_ & Hd & _). intros Hin. apply (Hd _ Hin). constructor.
  - apply Hc. apply elem_of_app. right. constructor.
Qed.

(** *** Layers and operations, which are found by their positions *)

Definition with_layers (d : ModelDescriptor) (l : list LayerProgramDescriptor) : ModelDescriptor :=
  d <| layer_program := l |>.

Definition with_operations (d : ModelDescriptor) (l : list OperationProgramDescriptor) : ModelDescriptor :=
  d <| operation_program := l |>.

(** Numbered in order, so that no other element has the number of the last. *)
Definition numbered {A : Type} (number : A -> Z) (l : list A) : Prop :=
  forall i a, l !! i = Some a -> number a = Z.of_nat i.

Lemma numbered_last {A : Type} (number : A -> Z) (past rest : list A) a x :
  numbered number (past ++ a :: rest) -> x ∈ past -> number x <> number a.
Proof.
  intros Hn (i & Hi)%list_elem_of_lookup. pose proof (lookup_lt_Some _ _ _ Hi).
  rewrite (Hn i x), (Hn (length past) a); [lia| |].
  - by apply list_lookup_middle.
  - by apply lookup_app_l_Some.
Qed.

Lemma at_layer_last n y y' (f : LayerProgramDescriptor -> option LayerProgramDescriptor) (d : ModelDescriptor)
    (past : list LayerProgramDescriptor) :
  u32 n -> (forall x, x ∈ past -> ly_logical_layer x <> n) -> ly_logical_layer y = n -> f y = Some y' ->
  at_layer (to_string n) f (with_layers d (past ++ [y])) = Some (with_layers d (past ++ [y'])).
Proof.
  intros Hu Hnew Hn Hf. unfold at_layer. rewrite read_u32_to_string by done. cbn.
  rewrite (update_first_last _ _ _ _ y'); [done| |by apply Z.eqb_eq|done].
  intros x Hx. apply Z.eqb_neq. by apply Hnew.
Qed.

Lemma at_operation_last n o o' (f : OperationProgramDescriptor -> option OperationProgramDescriptor) (d : ModelDescriptor)
    (past : list OperationProgramDescriptor) :
  u32 n -> (forall x, x ∈ past -> op_logical_operation x <> n) -> op_logical_operation o = n -> f o = Some o' ->
  at_operation (to_string n) f (with_operations d (past ++ [o])) = Some (with_operations d (past ++ [o'])).
Proof.
  intros Hu Hnew Hn Hf. unfold at_operation. rewrite read_u32_to_string by done. cbn.
  rewrite (update_first_last _ _ _ _ o'); [done| |by apply Z.eqb_eq|done].
  intros x Hx. apply Z.eqb_neq. by apply Hnew.
Qed.

Lemma run_layer (y : LayerProgramDescriptor) (d : ModelDescriptor) past :
  (forall x, x ∈ past -> ly_logical_layer x <> ly_logical_layer y) -> layer_printable y ->
  run base (layer_entries y) (with_layers d past, true) = Some (with_layers d (past ++ [y]), true).
Proof.
  intros Hnew [Ha (H1 & H2 & H3) Hn Hp]. unfold layer_entries. cbn [run fst snd parse_kind].
  unfold with_model, layer_line. cbn [fst snd].
  rewrite get_atom_atom, !read_u32_to_string, component_name_read by done. cbn [mbind option_bind].
  replace (with_layers d (past ++ [y])) with (with_layers d (past ++ [y <| ly_parameters := ly_parameters y |>]))
    by by destruct y.
  set (put m := with_layers d (past ++ [y <| ly_parameters := m |>])).
  match goal with |- run base _ ?s = _ => change s with (put ∅, true) end.
  apply (run_parameters _ _ put _ Hp).
  intros k v m0 m1 Hadd. cbn [app parse_kind]. unfold changing, layer_parameter_line. cbn [fst snd]. unfold put.
  erewrite at_layer_last; [|done|done|done|]; [done|]. cbn. by rewrite Hadd.
Qed.

Lemma run_layers (d : ModelDescriptor) l :
  numbered ly_logical_layer l -> (forall y, y ∈ l -> layer_printable y) ->
  run base (l ≫= layer_entries) (with_layers d [], true) = Some (with_layers d l, true).
Proof.
  intros Hn Hl. apply run_list. intros past y rest ->. apply run_layer.
  - intros x. by apply (numbered_last _ _ rest).
  - apply Hl. apply elem_of_app. right. constructor.
Qed.

(** An operation with its maps set. *)
Definition with_maps (o : OperationProgramDescriptor) ps ts ins outs : OperationProgramDescriptor :=
  o <| op_parameters := ps |> <| op_tensor_bindings := ts |> <| op_input_bindings := ins |>
    <| op_output_bindings := outs |>.

Definition operation_maps_ok (o : OperationProgramDescriptor) : Prop :=
  atoms (op_tensor_bindings o) /\ ports_ok (op_input_bindings o) /\ ports_ok (op_output_bindings o).

Lemma run_operation_line (o : OperationProgramDescriptor) (d : ModelDescriptor) past :
  operation_printable o ->
  operation_line [to_string (op_logical_operation o);
    (if op_logical_layer o =? kModelLevelOperationLayer then dash else to_string (op_logical_layer o));
    op_capability o; to_string (op_abi_version o); or_dash (op_routed_component o);
    to_string (op_component_layer o)] (with_operations d past) =
  Some (with_operations d (past ++ [with_maps o ∅ ∅ ∅ ∅])).
Proof.
  intros [Ha (H1 & H2 & H3 & H4) Hn _]. unfold operation_line.
  rewrite get_atom_atom, !read_u32_to_string, component_name_read by done. cbn [mbind option_bind].
  assert ((if bool_decide ((if op_logical_layer o =? kModelLevelOperationLayer then dash
    else to_string (op_logical_layer o)) = dash) then Some kModelLevelOperationLayer
    else parse_u32 (if op_logical_layer o =? kModelLevelOperationLayer then dash else to_string (op_logical_layer o))) =
    Some (op_logical_layer o)) as ->; [|by destruct o].
  destruct (Z.eqb_spec (op_logical_layer o) kModelLevelOperationLayer) as [->|Hne]; [done|].
  rewrite bool_decide_eq_false_2; [by apply read_u32_to_string|].
  intros Hd. apply field_u64 in H2. destruct (to_string_spec _ H2) as (Hdig & _). rewrite Hd in Hdig.
  apply Forall_cons in Hdig as [Hdig _]. by vm_compute in Hdig.
Qed.

Lemma run_operation (o : OperationProgramDescriptor) (d : ModelDescriptor) past :
  (forall x, x ∈ past -> op_logical_operation x <> op_logical_operation o) ->
  operation_printable o -> operation_maps_ok o ->
  run base (operation_entries o) (with_operations d past, true) = Some (with_operations d (past ++ [o]), true).
Proof.
  intros Hnew Ho (Hts & Hins & Houts). pose proof (opp_parameters _ Ho) as Hps.
  pose proof (proj1 (opp_numbers _ Ho)) as Hu.
  unfold operation_entries. cbn [run fst snd parse_kind]. unfold with_model. cbn [fst snd].
  rewrite run_operation_line by done. cbn [mbind option_bind]. rewrite !run_app.
  rewrite (run_parameters _ _ (fun m => with_operations d (past ++ [with_maps o m ∅ ∅ ∅])) _ Hps).
  2: { intros k v m0 m1 Hadd. cbn [app parse_kind]. unfold changing, operation_parameter_line. cbn [fst snd].
       erewrite at_operation_last; [|done|done|done|]; [done|]. cbn. by rewrite Hadd. }
  cbn [mbind option_bind]. rewrite run_app.
  rewrite (run_tensors _ _ (fun m => with_operations d (past ++ [with_maps o (op_parameters o) m ∅ ∅])) _ Hts).
  2: { intros k v m0 m1 Hadd. cbn [app parse_kind]. unfold changing, operation_tensor_line. cbn [fst snd].
       erewrite at_operation_last; [|done|done|done|]; [done|]. cbn. by rewrite Hadd. }
  cbn [mbind option_bind]. rewrite run_app.
  rewrite (run_bindings _ _ (fun m => with_operations d (past ++ [with_maps o (op_parameters o) (op_tensor_bindings o) m ∅])) _ Hins).
  2: { intros k v a m0 m1 Hadd. cbn [app parse_kind]. unfold changing, operation_port_line. cbn [fst snd].
       erewrite at_operation_last; [|done|done|done|]; [done|]. cbn. by rewrite Hadd. }
  cbn [mbind option_bind].
  rewrite (run_bindings _ _ (fun m => with_operations d (past ++ [with_maps o (op_parameters o) (op_tensor_bindings o)
    (op_input_bindings o) m])) _ Houts).
  2: { intros k v a m0 m1 Hadd. cbn [app parse_kind]. unfold changing, operation_port_line. cbn [fst snd].
       erewrite at_operation_last; [|done|done|done|]; [done|]. cbn. by rewrite Hadd. }
  by destruct o.
Qed.

Lemma run_operations (d : ModelDescriptor) l :
  numbered op_logical_operation l -> (forall o, o ∈ l -> operation_printable o /\ operation_maps_ok o) ->
  run base (l ≫= operation_entries) (with_operations d [], true) = Some (with_operations d l, true).
Proof.
  intros Hn Hl. apply run_list. intros past o rest ->.
  destruct (Hl o) as [Ho Hm]; [apply elem_of_app; right; constructor|]. apply run_operation; [|done|done].
  intros x. by apply (numbered_last _ _ rest).
Qed.

(** *** Whole descriptors *)

(** What validation adds to what the format can carry. *)
Record readable (d : ModelDescriptor) : Prop := {
  rd_tensors : atoms (tensor_bindings d);
  rd_inputs : ports_ok (program_inputs d);
  rd_outputs : ports_ok (program_outputs d);
  rd_decode : forall e, exact_decode_program d = Some e -> atom (ed_capability e) /\ atoms (ed_tensor_bindings e);
  rd_names : NoDup (rc_name <$> routed_components d);
  rd_layers : numbered ly_logical_layer (layer_program d);
  rd_operations : numbered op_logical_operation (operation_program d);
  rd_maps : forall o, o ∈ operation_program d -> operation_maps_ok o }.

Lemma ports_ok_empty : ports_ok ∅.
Proof. intros k b. by rewrite lookup_empty. Qed.

Lemma well_formed_readable d : well_formed d -> readable d.
Proof.
  intros W. pose proof (wf_flow _ W) as Hf. constructor.
  - apply W.
  - destruct (schema_version d <? 3); [destruct Hf as (-> & _); apply ports_ok_empty|apply Hf].
  - destruct (schema_version d <? 3); [destruct Hf as (_ & -> & _); apply ports_ok_empty|apply Hf].
  - intros e He. destruct (wf_decode _ W e He) as (_ & ? & _ & _ & _ & _ & ?). done.
  - apply W.
  - intros i y Hy. apply (wf_layers _ W i y Hy).
  - intros i o Ho. apply (wf_operations _ W i o Ho).
  - intros o (i & Ho)%list_elem_of_lookup. destruct (wf_operations _ W i o Ho) as (_ & _ & _ & _ & ? & ? & ? & _). done.
Qed.

Lemma run_kernels (d : ModelDescriptor) l :
  (forall k, k ∈ l -> atom (kr_capability k) /\ u32 (kr_abi_version k)) ->
  run base (l ≫= fun k => [kernel_entry k]) (d <| required_kernels := [] |>, true) =
  Some (d <| required_kernels := l |>, true).
Proof.
  intros Hl. apply (run_list _ (fun l => d <| required_kernels := l |>)). intros past [c v] rest ->.
  destruct (Hl (mkRequirement c v)) as [Hc Hv]; [apply elem_of_app; right; constructor|].
  cbn in *. unfold with_model, kernel_line. cbn. by rewrite get_atom_atom, read_u32_to_string by done.
Qed.

Lemma run_decode (e : ExactDecodeProgramDescriptor) (d : ModelDescriptor) :
  atom (ed_capability e) -> u32 (ed_abi_version e) -> u32 (ed_maximum_emitted_tokens e) ->
  parameters_ok (ed_parameters e) -> atoms (ed_tensor_bindings e) ->
  run base (decode_entries e) (d <| exact_decode_program := None |>, true) =
  Some (d <| exact_decode_program := Some e |>, true).
Proof.
  intros Hc Hv Hn Hp Ht. unfold decode_entries. cbn [run fst snd parse_kind]. unfold with_model, exact_decode_line.
  cbn [fst snd]. cbn [exact_decode_program]. cbn -[run parameters_entries tensor_entries].
  rewrite get_atom_atom, !read_u32_to_string by done. cbn [mbind option_bind]. rewrite run_app.
  set (put ps ts := d <| exact_decode_program := Some (e <| ed_parameters := ps |> <| ed_tensor_bindings := ts |>) |>).
  match goal with |- context [run base (parameters_entries _ _ _) ?s] => change s with (put ∅ ∅, true) end.
  rewrite (run_parameters _ _ (fun m => put m ∅) _ Hp).
  2: { intros k v m0 m1 Hadd. cbn [app parse_kind]. unfold changing, exact_decode_parameter_line. cbn. by rewrite Hadd. }
  cbn [mbind option_bind]. rewrite (run_tensors _ _ (fun m => put (ed_parameters e) m) _ Ht).
  2: { intros k v m0 m1 Hadd. cbn [app parse_kind]. unfold changing, exact_decode_tensor_line. cbn. by rewrite Hadd. }
  subst put. by destruct e.
Qed.

Lemma run_model (d : ModelDescriptor) hash :
  printable d ->
  run base [model_entry d] (new_descriptor hash, false) =
  Some (mkDescriptor (schema_version d) (architecture_id d) hash (vocab_size d) (max_context_tokens d) (hidden_size d)
          ∅ ∅ [] [] [] [] ∅ ∅ None, true).
Proof.
  intros P. destruct (pr_numbers _ P) as (H1 & H2 & H3 & H4). unfold model_entry. cbn [run fst snd parse_kind].
  unfold model_line. rewrite get_atom_atom by apply P. by rewrite !read_u32_to_string by done.
Qed.

Lemma run_descriptor (d : ModelDescriptor) :
  printable d -> readable d -> run base (descriptor_entries d) (new_descriptor (content_hash d), false) = Some (d, true).
Proof.
  intros P R. pose proof (pr_base _ P) as Hb. unfold descriptor_entries.
  change (?a :: ?l) with ([a] ++ l). rewrite run_app, run_model by done. cbn [mbind option_bind].
  destruct d as [sv ar ch vs mc hs ats tbs rcs rks lp op ins outs ed]. cbn -[run] in *.
  rewrite run_app, (run_parameters _ _ (fun m => mkDescriptor sv ar ch vs mc hs m ∅ [] [] [] [] ∅ ∅ None) _ (pr_attributes _ P)).
  2: { intros k v m0 m1 Hadd. cbn. unfold with_model, attribute_line. cbn. by rewrite Hadd. }
  cbn [mbind option_bind].
  rewrite run_app, (run_tensors _ _ (fun m => mkDescriptor sv ar ch vs mc hs ats m [] [] [] [] ∅ ∅ None) _ (rd_tensors _ R)).
  2: { intros k v m0 m1 Hadd. cbn. unfold with_model, model_tensor_line. cbn. by rewrite Hadd. }
  cbn [mbind option_bind].
  rewrite run_app, (run_bindings _ _ (fun m => mkDescriptor sv ar ch vs mc hs ats tbs [] [] [] [] m ∅ None) _ (rd_inputs _ R)).
  2: { intros k v a m0 m1 Hadd. cbn. unfold with_model, endpoint_line. cbn. by rewrite Hadd. }
  cbn [mbind option_bind].
  rewrite run_app, (run_bindings _ _ (fun m => mkDescriptor sv ar ch vs mc hs ats tbs [] [] [] [] ins m None) _ (rd_outputs _ R)).
  2: { intros k v a m0 m1 Hadd. cbn. unfold with_model, endpoint_line. cbn. by rewrite Hadd. }
  cbn [mbind option_bind].
  pose (state cs ks ls os e := mkDescriptor sv ar ch vs mc hs ats tbs cs ks ls os ins outs e).
  apply (run_then _ _ _ _ (state [] rks [] [] None, true)).
  { exact (run_kernels (state [] [] [] [] None) rks (pr_kernels _ P)). }
  apply (run_then _ _ _ _ (state [] rks [] [] ed, true)).
  { destruct ed as [e|]; [|done]. destruct (pr_decode _ P e eq_refl) as (? & ? & ?).
    destruct (rd_decode _ R e eq_refl) as (? & ?). by apply (run_decode e (state [] rks [] [] None)). }
  apply (run_then _ _ _ _ (state rcs rks [] [] ed, true)).
  { exact (run_components (state [] rks [] [] ed) rcs Hb (rd_names _ R) (pr_components _ P)). }
  apply (run_then _ _ _ _ (state rcs rks lp [] ed, true)).
  { exact (run_layers (state rcs rks [] [] ed) lp (rd_layers _ R) (pr_layers _ P)). }
  apply (run_operations (state rcs rks lp [] ed) op (rd_operations _ R)).
  intros o Ho. split; [by apply (pr_operations _ P)|by apply (rd_maps _ R)].
Qed.

(** *** No delimiter inside a field *)

Definition clean_entries (l : list Entry) : Prop := Forall clean_entry l.

Lemma clean_entries_cons e l : clean_entry e -> clean_entries l -> clean_entries (e :: l).
Proof. by constructor. Qed.

Lemma clean_entries_app a b : clean_entries a -> clean_entries b -> clean_entries (a ++ b).
Proof. intros. by apply Forall_app. Qed.

Lemma clean_entries_nil : clean_entries [].
Proof. constructor. Qed.

Create HintDb clean discriminated.
#[local] Hint Resolve atom_clean to_string_clean field_u64 : clean.
Lemma context_clean t : clean t -> Forall clean [t].
Proof. intros Ht. by constructor. Qed.

Lemma no_context_clean : Forall clean [].
Proof. constructor. Qed.

#[local] Hint Resolve context_clean no_context_clean : clean.

Ltac fields_clean :=
  unfold clean_entry; cbn [fst snd]; repeat (apply Forall_cons; split; [by auto with clean|]); apply Forall_nil_2.

Lemma map_entries_clean {V : Type} (k : LineKind) (context : list (list Z)) (f : list Z * V -> list (list Z))
    (m : gmap (list Z) V) :
  Forall clean context -> (forall name v, m !! name = Some v -> Forall clean (f (name, v))) ->
  clean_entries ((fun kv => (k, context ++ f kv)) <$> ordered bytes_ltb m).
Proof.
  intros Hc Hm. apply Forall_fmap, Forall_forall. intros [name v] Hin%elem_of_ordered.
  apply Forall_app. split; [done|by apply Hm].
Qed.

Lemma parameters_clean k context m :
  Forall clean context -> parameters_ok m -> clean_entries (parameters_entries k context m).
Proof. intros Hc Hm. apply map_entries_clean; [done|]. intros name v [? ?]%Hm. fields_clean. Qed.

Lemma tensors_clean k context m : Forall clean context -> atoms m -> clean_entries (tensor_entries k context m).
Proof. intros Hc Hm. apply map_entries_clean; [done|]. intros name v [? ?]%Hm. fields_clean. Qed.

Lemma bindings_clean k context m : Forall clean context -> ports_ok m -> clean_entries (binding_entries k context m).
Proof. intros Hc Hm. apply map_entries_clean; [done|]. intros name v (? & ? & ?)%Hm. fields_clean. Qed.

Lemma or_dash_clean t : named t -> clean (or_dash t).
Proof.
  intros [->|[Ht _]]; [apply (bool_decide_unpack _); vm_compute; exact I|].
  unfold or_dash. case_bool_decide; [by subst; destruct Ht|by apply atom_clean].
Qed.

#[local] Hint Resolve parameters_clean tensors_clean bindings_clean or_dash_clean : clean.

Lemma bind_clean {A : Type} (f : A -> list Entry) l :
  (forall a, a ∈ l -> clean_entries (f a)) -> clean_entries (l ≫= f).
Proof.
  intros Hl. apply Forall_forall. intros e (a & He & Ha)%list_elem_of_bind. by eapply Forall_forall in He; [|apply Hl].
Qed.

Lemma component_clean c : component_printable c -> 0 < base -> clean_entries (component_entries c).
Proof.
  intros [(? & ? & ?) Hns (? & ? & ? & ? & ? & ?) (? & ? & ?) Ha Hr] Hb.
  assert (clean (to_string (rc_namespace_id c - base))) by (apply to_string_clean; unfold u64; lia).
  unfold component_entries. apply clean_entries_cons; [fields_clean|].
  apply clean_entries_app; [by auto with clean|]. unfold router_entries. case_bool_decide as He; [constructor|].
  destruct Hr as [Hr|(Hcap & Habi & Hps)]; [by rewrite Hr in He|].
  match goal with H : clean (to_string _) |- _ => clear H end. apply clean_entries_cons; [fields_clean|by auto with clean].
Qed.

Lemma layer_clean y : layer_printable y -> clean_entries (layer_entries y).
Proof.
  intros [? (? & ? & ?) ? ?]. apply clean_entries_cons; [fields_clean|]. auto with clean.
Qed.

Lemma operation_clean o : operation_printable o -> operation_maps_ok o -> clean_entries (operation_entries o).
Proof.
  intros [? (? & ? & ? & ?) ? ?] (? & ? & ?). unfold operation_entries. apply clean_entries_cons.
  - assert (clean dash) by (apply (bool_decide_unpack _); vm_compute; exact I).
    destruct (_ =? _); fields_clean.
  - repeat apply clean_entries_app; auto with clean.
Qed.

Lemma descriptor_clean d : printable d -> readable d -> clean_entries (descriptor_entries d).
Proof.
  intros P R. destruct (pr_numbers _ P) as (? & ? & ? & ?). pose proof (pr_atom _ P). pose proof (pr_base _ P) as [? _].
  unfold descriptor_entries. apply clean_entries_cons; [fields_clean|].
  repeat apply clean_entries_app; try (destruct P, R; by auto with clean).
  - apply bind_clean. intros k [? ?]%(pr_kernels _ P). apply clean_entries_cons; [fields_clean|apply clean_entries_nil].
  - destruct (exact_decode_program d) as [e|] eqn:He; [|apply clean_entries_nil].
    destruct (pr_decode _ P e He) as (? & ? & ?). destruct (rd_decode _ R e He) as (? & ?).
    apply clean_entries_cons; [fields_clean|]. apply clean_entries_app; auto with clean.
  - apply bind_clean. intros c Hc. apply component_clean; [by apply (pr_components _ P)|done].
  - apply bind_clean. intros y Hy. by apply layer_clean, (pr_layers _ P).
  - apply bind_clean. intros o Ho. apply operation_clean; [by apply (pr_operations _ P)|by apply (rd_maps _ R)].
Qed.
End Printer.

Lemma printable_typed base d : printable base d -> Forall component_typed (routed_components d).
Proof.
  intros P. apply Forall_forall. intros c Hc. destruct (cp_counts _ _ (pr_components _ _ P c Hc)) as (? & ? & _). done.
Qed.

(** C29: What the artifact reader accepts is what was meant: a valid model descriptor that the
    format can carry, with any maps, components and routers, layers, operations with their
    tensors and values, and decoding program, when printed line by line, is read back as
    exactly that descriptor. *)
Theorem descriptor_round_trip base d :
  printable base d -> validate_model_descriptor d = success ->
  parse_model_descriptor_artifact (print_descriptor base d) (content_hash d) base = (success, d).
Proof.
  intros P Hv. assert (readable d) as R.
  { apply well_formed_readable. by apply (validation_exact d (printable_typed base d P)). }
  apply read_printed; [pose proof (pr_base _ _ P); lia|by apply descriptor_clean|by apply run_descriptor|done].
Qed.

Lemma atom_decide t : valid_atom t = true -> atom t.
Proof. apply valid_atom_iff. Qed.

Lemma no_parameters_ok : parameters_ok ∅.
Proof. intros k v. by rewrite lookup_empty. Qed.

Lemma named_decide t : bool_decide (t = []) || valid_atom t && negb (bool_decide (t = dash)) = true -> named t.
Proof.
  intros [H%bool_decide_eq_true|[H Hd%negb_true_iff%bool_decide_eq_false]%andb_prop]%orb_prop; [by left|].
  right. split; [by apply atom_decide|done].
Qed.

Ltac demo_field :=
  split_and?;
  lazymatch goal with
  | |- atom _ => apply atom_decide; vm_compute; reflexivity
  | |- named _ => apply named_decide; vm_compute; reflexivity
  | |- parameters_ok _ => apply no_parameters_ok
  | |- u32 _ => vm_compute; split; discriminate
  | |- (_ <= _)%Z => vm_compute; discriminate
  | |- (_ < _)%Z => reflexivity
  end.

Lemma demo_printable : printable 1 demo_model.
Proof.
  constructor; try demo_field.
  - apply Forall_forall. repeat (apply Forall_cons; split; [demo_field|]). apply Forall_nil_2.
  - intros e [=].
  - apply Forall_forall, Forall_singleton. constructor; try demo_field. right. demo_field.
  - apply Forall_forall. repeat (apply Forall_cons; split; [constructor; demo_field|]). apply Forall_nil_2.
  - apply Forall_forall. repeat (apply Forall_cons; split; [constructor; demo_field|]). apply Forall_nil_2.
Qed.

Lemma descriptor_round_trip_witness :
  parse_model_descriptor_artifact (print_descriptor 1 demo_model) [] 1 = (success, demo_model).
Proof. apply (descriptor_round_trip 1 demo_model); [exact demo_printable|vm_compute; reflexivity]. Defined.

(** ** Where a descriptor that was read comes from *)

Lemma parse_u64_u64 t n : parse_u64 t = Some n -> u64 n.
Proof.
  unfold parse_u64. destruct (from_chars_u64 t) as [[v [|]]|] eqn:E; [|done..]. intros [= <-].
  by eapply from_chars_u64_range.
Qed.

Lemma parse_u32_u32 t n : parse_u32 t = Some n -> u32 n.
Proof.
  unfold parse_u32. destruct (parse_u64 t) eqn:E; [|done]. apply parse_u64_u64 in E. unfold u64, u32 in *.
  destruct (U32_MAX <? z) eqn:Hz; [done|]. intros [= <-]. lia.
Qed.

Lemma update_first_Forall {A : Type} (P : A -> Prop) (p : A -> bool) (f : A -> option A) l l' :
  (forall a a', P a -> f a = Some a' -> P a') -> Forall P l -> update_first p f l = Some l' -> Forall P l'.
Proof.
  intros Hf Hl. revert l'. induction Hl as [|a l Ha Hl IH]; intros l'; cbn; [done|].
  destruct (p a).
  - destruct (f a) eqn:E; [|done]. intros [= <-]. constructor; [by eapply Hf|done].
  - destruct (update_first p f l); [|done]. intros [= <-]. constructor; [done|by apply IH].
Qed.

Section Origin.
Context (base : Z) (hash : list Z).

(** A component's counts are 32-bit numbers, and its namespace lies above the base. *)
Definition component_origin (c : RoutedExpertComponentDescriptor) : Prop :=
  component_typed c /\ base <= rc_namespace_id c <= U64_MAX.

Definition origin (d : ModelDescriptor) : Prop :=
  content_hash d = hash /\ Forall component_origin (routed_components d).

Lemma origin_kept d d' : content_hash d' = content_hash d -> routed_components d' = routed_components d -> origin d -> origin d'.
Proof. intros H1 H2 [Hh Hc]. split; congruence. Qed.

Lemma at_component_origin name f d d' :
  (forall c c', component_origin c -> f c = Some c' -> component_origin c') ->
  at_component name f d = Some d' -> origin d -> origin d'.
Proof.
  intros Hf Hd [Hh Hc]. unfold at_component in Hd. apply bind_Some in Hd as (l & Hl & [= <-]).
  split; [done|]. by eapply update_first_Forall.
Qed.

Ltac binds H := repeat (apply bind_Some in H as (? & ? & H)).

Lemma component_line_origin args d d' : 0 < base -> component_line base args d = Some d' -> origin d -> origin d'.
Proof.
  unfold component_line. intros Hb Hd [Hh Hc]. do 13 (destruct args as [|? args]; [done|]). destruct args; [|done].
  binds Hd. destruct (Z.ltb_spec (U64_MAX - base) x2); [done|].
  apply bind_Some in Hd as (layers & Hl & Hd). apply bind_Some in Hd as (experts & He & Hd). binds Hd. injection Hd as <-.
  split; [done|]. apply Forall_app. split; [done|]. apply Forall_singleton.
  apply parse_u32_u32 in Hl, He. split; [by split|]. cbn.
  match goal with H : parse_u64 _ = Some x2 |- _ => apply parse_u64_u64 in H; unfold u64 in H end. lia.
Qed.

(** A line that sets something else. *)
Ltac kept :=
  intros Hd; apply origin_kept; revert Hd;
  repeat case_match; intros Hd; try done; binds Hd; repeat case_match; try done; by injection Hd as <-.

Lemma at_layer_origin number f d d' : at_layer number f d = Some d' -> origin d -> origin d'.
Proof. unfold at_layer. kept. Qed.

Lemma at_operation_origin number f d d' : at_operation number f d = Some d' -> origin d -> origin d'.
Proof. unfold at_operation. kept. Qed.

Lemma changing_origin (f : ModelDescriptor -> option ModelDescriptor) s s' :
  (forall d', f s.1 = Some d' -> origin s.1 -> origin d') -> changing f s = Some s' -> origin s.1 -> origin s'.1.
Proof. intros Hf Hs. apply bind_Some in Hs as (d & Hd & [= <-]). by apply Hf. Qed.

Lemma with_model_origin (f : ModelDescriptor -> option ModelDescriptor) s s' :
  (forall d', f s.1 = Some d' -> origin s.1 -> origin d') -> with_model f s = Some s' -> origin s.1 -> origin s'.1.
Proof.
  intros Hf Hs. unfold with_model in Hs. destruct s.2; [|done]. apply bind_Some in Hs as (d & Hd & [= <-]). by apply Hf.
Qed.

Lemma parse_kind_origin k args s s' :
  0 < base -> parse_kind base k args s = Some s' -> origin s.1 -> origin s'.1.
Proof.
  intros Hb. assert (forall d d', model_line args d = Some d' -> origin d -> origin d') as Hmodel.
  { intros d d'. unfold model_line. kept. }
  destruct k; cbn [parse_kind]; try (apply with_model_origin || apply changing_origin; intros d').
  { destruct s as [d []]; [done|]. intros Hs. apply bind_Some in Hs as (d1 & Hd & [= <-]). by apply Hmodel. }
  - unfold attribute_line. kept.
  - unfold model_tensor_line. kept.
  - unfold endpoint_line. kept.
  - unfold endpoint_line. kept.
  - unfold kernel_line. kept.
  - unfold exact_decode_line. kept.
  - by apply component_line_origin.
  - unfold layer_line. kept.
  - unfold operation_line. kept.
  - unfold exact_decode_parameter_line. kept.
  - unfold exact_decode_tensor_line. kept.
  - unfold component_attribute_line. repeat case_match; try done. apply at_component_origin.
    intros c c' Hc Hf. binds Hf. by injection Hf as <-.
  - unfold router_line. repeat case_match; try done. apply at_component_origin.
    intros c c' Hc Hf. binds Hf. destruct (negb _); [done|]. binds Hf. by injection Hf as <-.
  - unfold router_parameter_line. repeat case_match; try done. apply at_component_origin.
    intros c c' Hc Hf. case_bool_decide; [done|]. binds Hf. by injection Hf as <-.
  - unfold layer_parameter_line. repeat case_match; try done. apply at_layer_origin.
  - unfold operation_parameter_line. repeat case_match; try done. apply at_operation_origin.
  - unfold operation_tensor_line. repeat case_match; try done. apply at_operation_origin.
  - unfold operation_port_line. repeat case_match; try done; apply at_operation_origin.
  - unfold operation_port_line. repeat case_match; try done; apply at_operation_origin.
Qed.

Lemma parse_lines_origin number header lines s header' s' :
  0 < base -> parse_lines base number header lines s = inr (header', s') -> origin s.1 -> origin s'.1.
Proof.
  intros Hb. revert number header s. induction lines as [|line lines IH]; intros number header s; cbn; [by intros [= <- <-]|].
  case_bool_decide; [apply IH|]. destruct header; cbn.
  - unfold parse_fields. destruct (split_fields _) as [|name args]; [done|].
    destruct (kind_of name) as [k|]; [|done]. destruct (parse_kind base k args s) as [s1|] eqn:Hk; [|done].
    intros Hl Hs. eapply IH; [exact Hl|]. by eapply parse_kind_origin.
  - case_bool_decide; [apply IH|done].
Qed.
End Origin.

Lemma status_decides s : (s <> success -> code s = invalid_arg) -> status_ok s = true -> s = success.
Proof.
  intros Hbad Hs%status_ok_true. destruct s as [c m]. destruct (decide (mkStatus c m = success)) as [|Hne]; [done|].
  apply Hbad in Hne. cbn in *. congruence.
Qed.

Lemma invalid_code {A : Type} m status : (invalid m : checked A) = inl status -> code status = invalid_arg.
Proof. intros H. by injection H as <-. Qed.

Lemma parse_lines_invalid base number header lines s status :
  parse_lines base number header lines s = inl status -> code status = invalid_arg.
Proof.
  revert number header s. induction lines as [|line lines IH]; intros number header s; cbn [parse_lines]; [done|].
  cbv zeta. case_bool_decide; [apply IH|]. destruct header; cbn [negb].
  - destruct (parse_fields _ _ _); [apply IH|apply invalid_code].
  - case_bool_decide; [apply IH|apply invalid_code].
Qed.

Lemma parse_origin t hash base status d :
  0 <= base -> parse_model_descriptor_artifact t hash base = (status, d) -> status_ok status = true ->
  origin base hash d /\ well_formed d.
Proof.
  intros Hb. unfold parse_model_descriptor_artifact. destruct (Z.eqb_spec base 0); [by intros [= <- _]|].
  destruct (parse_lines _ _ _ _ _) as [st|[header [d1 model]]] eqn:Hp.
  { intros [= <- _] Hok%status_ok_true. apply parse_lines_invalid in Hp. congruence. }
  destruct (negb header || negb model); [by intros [= <- _]|]. destruct (negb (status_ok _)) eqn:Hs.
  { intros [= <- _] Hok. by rewrite Hok in Hs. }
  intros [= <- <-] _. apply (parse_lines_origin base hash) in Hp; [|lia|by split].
  split; [exact Hp|]. destruct (validation_exact d1) as [Hv Hbad].
  { eapply Forall_impl; [exact (proj2 Hp)|]. by intros c [? _]. }
  apply Hv, status_decides; [exact Hbad|]. by apply negb_false_iff.
Qed.

Definition authentic (fs : FileSystem) (path : list Z) (size : Z) (digest : list Z) : Prop :=
  exists contents, fs path = Some (contents, true) /\ Z.of_nat (length contents) = size /\
    size <= maximum_descriptor_bytes /\ sha256 contents = digest.

Lemma load_origin fs path size digest hash base status d :
  0 <= base -> load_model_descriptor_artifact fs path size digest hash base = (status, d) ->
  status_ok status = true ->
  authentic fs path size digest /\ origin base hash d /\ well_formed d.
Proof.
  intros Hb. unfold load_model_descriptor_artifact.
  destruct (Z.eqb_spec size 0); [by intros [= <- _]|].
  destruct (Z.ltb_spec maximum_descriptor_bytes size); [by intros [= <- _]|]. cbn [orb].
  destruct (fs path) as [[contents readable]|] eqn:Hf; [|by intros [= <- _]].
  destruct (Z.eqb_spec (Z.of_nat (length contents)) size); [|by intros [= <- _]].
  destruct readable; [|by intros [= <- _]]. case_bool_decide as Hd; [|by intros [= <- _]]. cbn [negb].
  intros Hp Hok. split; [by exists contents|]. by eapply parse_origin.
Qed.

(** C30: A descriptor that was loaded is authentic and valid: the file has the size and the
    digest that were asked for and is at most 64 MiB, what it says is well-formed, carries
    the given content hash, and every component's namespace lies at or above the base, so
    that no other model's experts are named. *)
Theorem loaded_descriptor_authentic fs path size digest hash base d :
  0 <= base -> load_model_descriptor_artifact fs path size digest hash base = (success, d) ->
  authentic fs path size digest /\ well_formed d /\ content_hash d = hash /\
  forall c, c ∈ routed_components d -> base <= rc_namespace_id c <= U64_MAX.
Proof.
  intros Hb Hl. destruct (load_origin _ _ _ _ _ _ _ _ Hb Hl eq_refl) as (Ha & [Hh Hc] & Hw).
  split_and!; [done|done|done|]. intros c Hin. by eapply Forall_forall in Hc as [_ Hc].
Qed.

Definition demo_file : list Z := print_descriptor 1 demo_model.

Lemma loaded_descriptor_authentic_witness : well_formed demo_model /\ content_hash demo_model = [].
Proof.
  destruct (loaded_descriptor_authentic (fun _ => Some (demo_file, true)) [] (Z.of_nat (length demo_file))
    (sha256 demo_file) [] 1 demo_model) as (_ & Hw & Hh & _); [lia|vm_compute; reflexivity|].
  exact (conj Hw Hh).
Defined.
