(* ===== verification/ModelArtifact.v ===== *)
(** Model of [model_artifact.cpp]: the published artifact of a model, read from its manifest
    and its descriptor. The file system is a snapshot; paths are those of a POSIX system. *)

From Stdlib Require Import String.
From S2P Require Import Prelude.
From S2P Require Import Storage.
From S2P Require Import Text.
From S2P Require Import Json.
From S2P Require Import Sha256.
From S2P Require Import ExpertRecord.
From S2P Require Import ExpertCatalog.
From S2P Require Import ModelDescriptor.
From S2P Require Import DescriptorText.

#[local] Open Scope bool_scope.
#[local] Open Scope Z_scope.

Record ArtifactPack := mkPack {
  pk_name : list Z;
  pk_kind : list Z;
  pk_path : list Z;
  pk_bytes : Z;
  pk_sha256 : list Z }.

Record ArtifactDenseTensor := mkTensor {
  dt_name : list Z;
  dt_pack : list Z;
  dt_record_offset : Z;
  dt_stored_bytes : Z;
  dt_encoding : list Z;
  dt_quant_abi : Z;
  dt_shape : list Z;
  dt_data_offset : Z;
  dt_data_bytes : Z;
  dt_scale_offset : Z;
  dt_scale_bytes : Z;
  dt_payload_sha256 : list Z }.

Record ArtifactRoutedComponent := mkRouted { ar_name : list Z; ar_catalog : ExpertCatalog }.

Record ModelArtifact := mkArtifact {
  root_ : list Z;
  model_ : ModelDescriptor;
  packs_ : list ArtifactPack;
  dense_tensors_ : list ArtifactDenseTensor;
  components_ : list ArtifactRoutedComponent }.

Definition empty_artifact : ModelArtifact := mkArtifact [] no_descriptor [] [] [].

(** What is known of the files: which paths are directories, the regular files with their
    contents and whether reading them succeeds, and what inserting a stream's buffer yields,
    which does not tell whether the end of the file was reached; [None] does not open. *)
Record Files := mkFiles {
  is_directory : list Z -> bool;
  regular_file : FileSystem;
  stream_text : list Z -> option (list Z) }.

Definition is_regular_file (fs : Files) (path : list Z) : bool := bool_decide (is_Some (regular_file fs path)).
Definition file_size (fs : Files) (path : list Z) : Z :=
  match regular_file fs path with Some (contents, _) => Z.of_nat (length contents) | None => 0 end.

(** ** Text and paths *)

Definition read_text (fs : Files) (path : list Z) : outcome (list Z) :=
  match stream_text fs path with
  | None => Throw (invalid_argument "cannot open artifact metadata")
  | Some t => Ok t
  end.

Definition nibble (value : Z) : outcome Z :=
  if (48 <=? value) && (value <=? 57) then Ok (value - 48)
  else if (97 <=? value) && (value <=? 102) then Ok (value - 97 + 10)
  else if (65 <=? value) && (value <=? 70) then Ok (value - 65 + 10)
  else Throw (invalid_argument "artifact SHA-256 contains an invalid digit").

Fixpoint digest_bytes (t : list Z) : outcome (list Z) :=
  match t with
  | high :: low :: t =>
    let! h := nibble high in
    let! l := nibble low in
    let! rest := digest_bytes t in
    Ok (Z.lor (Z.shiftl h 4) l :: rest)
  | _ => Ok []
  end.

Definition digest (t : list Z) : outcome (list Z) :=
  if negb (length t =? 64)%nat then Throw (invalid_argument "artifact SHA-256 has the wrong length")
  else digest_bytes t.

Definition to_u32 (value : Z) (label : string) : outcome Z :=
  if U32_MAX <? value then Throw (invalid_argument (label +:+ " exceeds uint32")) else Ok value.

(** The names between the slashes of a path. *)
Fixpoint path_parts (part t : list Z) : list (list Z) :=
  match t with
  | [] => [rev part]
  | c :: t => if c =? 47 then rev part :: path_parts [] t else path_parts (c :: part) t
  end.

Definition dot_dot : list Z := [46; 46].

(** A path without root names: it is absolute if it begins with a slash. *)
Definition safe_child (root t : list Z) : outcome (list Z) :=
  if bool_decide (t = []) || bool_decide (head t = Some 47)
  then Throw (invalid_argument "artifact path is not relative")
  else if bool_decide (dot_dot ∈ path_parts [] t)
  then Throw (invalid_argument "artifact path escapes root")
  else Ok (join_path root t).

Definition fp4_device_bytes (hidden intermediate : Z) (relu2 : bool) : Z :=
  let elements := hidden * intermediate in
  let matrices := if relu2 then 2 else 3 in
  mul64 matrices (add64 (elements / 2) (elements / kExpertFp4BlockSize)).

(** ** Members of objects *)

Notation Object := (list (list Z * Value)).

Definition object_at (o : Object) (key where_ label : string) : outcome Object :=
  let! v := Required o (bytes key) (bytes where_) in AsObject (bytes label) v.
Definition array_at (o : Object) (key where_ label : string) : outcome (list Value) :=
  let! v := Required o (bytes key) (bytes where_) in AsArray (bytes label) v.
Definition string_at (o : Object) (key where_ label : string) : outcome (list Z) :=
  let! v := Required o (bytes key) (bytes where_) in AsString (bytes label) v.
Definition u64_at (o : Object) (key where_ label : string) : outcome Z :=
  let! v := Required o (bytes key) (bytes where_) in AsU64 (bytes label) v.
Definition digest_at (o : Object) (key where_ label : string) : outcome (list Z) :=
  let! t := string_at o key where_ label in digest t.

(** ** The index of packs *)

Definition parse_pack (fs : Files) (root : list Z) (sizes : gmap (list Z) Z) (value : Value) : outcome ArtifactPack :=
  let! item := AsObject (bytes "pack") value in
  let! name := string_at item "name" "pack" "pack.name" in
  let! kind := string_at item "kind" "pack" "pack.kind" in
  let! path := safe_child root name in
  let! n := u64_at item "bytes" "pack" "pack.bytes" in
  let! sha := digest_at item "sha256" "pack" "pack.sha256" in
  if (negb (bool_decide (kind = bytes "dense")) && negb (bool_decide (kind = bytes "experts"))) ||
     negb (is_regular_file fs path) || negb (file_size fs path =? n) || bool_decide (is_Some (sizes !! name))
  then Throw (invalid_argument "artifact pack index is invalid")
  else Ok (mkPack name kind path n sha).

(** The loop over the packs, with the map of their sizes. *)
Fixpoint parse_packs (fs : Files) (root : list Z) (sizes : gmap (list Z) Z) (values : list Value)
  : outcome (list ArtifactPack * gmap (list Z) Z) :=
  match values with
  | [] => Ok ([], sizes)
  | value :: values =>
    let! pack := parse_pack fs root sizes value in
    let! rest := parse_packs fs root (<[pk_name pack := pk_bytes pack]> sizes) values in
    Ok (pack :: rest.1, rest.2)
  end.

(** ** The index of dense tensors *)

Fixpoint collect {A B : Type} (f : A -> outcome B) (l : list A) : outcome (list B) :=
  match l with
  | [] => Ok []
  | a :: l => let! b := f a in let! rest := collect f l in Ok (b :: rest)
  end.

Definition tensor_encodings : list (list Z) :=
  bytes <$> ["I8"; "F32"; "I64"; "BF16"; "FP4_E2M1"; "MXFP6_E3M2"]%string.

(** The bytes [offset .. offset + count - 1] do not leave the pack. *)
Definition outside (offset count size : Z) : bool := (size <? offset) || (sub64 size offset <? count).

Definition parse_tensor (sizes : gmap (list Z) Z) (value : Value) : outcome ArtifactDenseTensor :=
  let! item := AsObject (bytes "tensor") value in
  let! name := string_at item "name" "tensor" "tensor.name" in
  let! pack := string_at item "pack" "tensor" "tensor.pack" in
  let! offset := u64_at item "offset" "tensor" "tensor.offset" in
  let! stored := u64_at item "stored_bytes" "tensor" "tensor.stored_bytes" in
  let! encoding := string_at item "stored_dtype" "tensor" "tensor.stored_dtype" in
  let! wide_abi := u64_at item "quant_abi" "tensor" "tensor.quant_abi" in
  let! quant_abi := to_u32 wide_abi "tensor quant ABI" in
  let! dimensions := array_at item "source_shape" "tensor" "tensor.shape" in
  let! shape := collect (fun dimension =>
    let! n := AsU64 (bytes "tensor.dimension") dimension in to_u32 n "tensor dimension") dimensions in
  let! sections := object_at item "sections" "tensor" "tensor.sections" in
  let! data := object_at sections "data" "sections" "tensor.data" in
  let! scales := object_at sections "scales" "sections" "tensor.scales" in
  let! data_offset := u64_at data "offset" "data" "data.offset" in
  let! data_bytes := u64_at data "bytes" "data" "data.bytes" in
  let! scale_offset := u64_at scales "offset" "scales" "scales.offset" in
  let! scale_bytes := u64_at scales "bytes" "scales" "scales.bytes" in
  let! sha := digest_at item "payload_sha256" "tensor" "tensor.payload_sha256" in
  match sizes !! pack with
  | Some size =>
    if bool_decide (shape = []) || outside offset stored size || negb (bool_decide (encoding ∈ tensor_encodings))
    then Throw (invalid_argument "dense tensor index is invalid")
    else Ok (mkTensor name pack offset stored encoding quant_abi shape data_offset data_bytes scale_offset scale_bytes sha)
  | None => Throw (invalid_argument "dense tensor index is invalid")
  end.

(** ** The index of experts *)

Definition native_nvfp4 (abi : Z) : bool := abi =? kExpertRecordAbiNvfp4Block16W4A4.

(** [2U * intermediate + hidden] is computed in 32 bits. *)
Definition expert_device_bytes (abi hidden intermediate : Z) : Z :=
  if native_nvfp4 abi then
    mul64 3 (add64 (add64 (hidden * intermediate / 2) (hidden * intermediate / kExpertNvfp4BlockSize)) 8)
  else if (abi =? kExpertRecordAbiFp4Block32) || (abi =? kExpertRecordAbiFp4Relu2Block32) then
    fp4_device_bytes hidden intermediate (abi =? kExpertRecordAbiFp4Relu2Block32)
  else add64 (mul64 (mul64 3 hidden) intermediate) (add32 (wrap32 (2 * intermediate)) hidden * 4).

(** The records of a component by their positions, as far as they are present. *)
Notation ExpertTable := (list (option PayloadRecord)).

Definition parse_expert (root : list Z) (sizes : gmap (list Z) Z) (c : RoutedExpertComponentDescriptor)
    (table : ExpertTable) (value : Value) : outcome ExpertTable :=
  let! item := AsObject (bytes "expert") value in
  let! wide_layer := u64_at item "layer" "expert" "expert.layer" in
  let! layer := to_u32 wide_layer "expert layer" in
  let! wide_expert := u64_at item "expert" "expert" "expert.expert" in
  let! expert := to_u32 wide_expert "expert index" in
  if (rc_layer_count c <=? layer) || (rc_experts_per_layer c <=? expert)
  then Throw (invalid_argument "expert is outside component geometry")
  else
    let index := Z.to_nat (add64 (mul64 layer (rc_experts_per_layer c)) expert) in
    match table !! index with
    | None => Throw (undefined_behavior "record outside of the table")
    | Some (Some _) => Throw (invalid_argument "duplicate expert record")
    | Some None =>
      let! pack := string_at item "pack" "expert" "expert.pack" in
      match sizes !! pack with
      | None => Throw (invalid_argument "expert references an unknown pack")
      | Some size =>
        let! path := safe_child root pack in
        let! offset := u64_at item "offset" "expert" "expert.offset" in
        let! stored := u64_at item "stored_bytes" "expert" "expert.stored_bytes" in
        let! decoded := u64_at item "decoded_bytes" "expert" "expert.decoded_bytes" in
        let! wide_abi := u64_at item "quant_abi" "expert" "expert.quant_abi" in
        let! abi := to_u32 wide_abi "expert record ABI" in
        let! sha := digest_at item "payload_sha256" "expert" "expert.payload_sha256" in
        if outside offset stored size || negb (rc_source_abi c =? kExpertSourceAbiExpertPackV1) ||
           (negb (abi =? kExpertRecordAbiInt8PerRow) && negb (abi =? kExpertRecordAbiFp4Block32) &&
            negb (abi =? kExpertRecordAbiFp4Relu2Block32) && negb (abi =? kExpertRecordAbiNvfp4Block16W4A4))
        then Throw (invalid_argument "expert record index is invalid")
        else
          Ok (<[index := Some (mkPayloadRecord (text path) [] offset stored decoded
                (expert_device_bytes abi (rc_hidden_size c) (rc_intermediate_size c))
                (rc_hidden_size c) (rc_intermediate_size c)
                (if native_nvfp4 abi then kExpertNvfp4BlockSize else kExpertFp4BlockSize)
                (rc_source_abi c) abi kExpertHeaderBytes kExpertPackAlignment sha)]> table)
      end
    end.

Fixpoint parse_experts (root : list Z) (sizes : gmap (list Z) Z) (c : RoutedExpertComponentDescriptor)
    (table : ExpertTable) (values : list Value) : outcome ExpertTable :=
  match values with
  | [] => Ok table
  | value :: values => let! table := parse_expert root sizes c table value in parse_experts root sizes c table values
  end.

(** The catalog of the component the descriptor has. *)
Definition load_component (root : list Z) (sizes : gmap (list Z) Z) (c : RoutedExpertComponentDescriptor)
    (values : list Value) : outcome (checked ArtifactRoutedComponent) :=
  let! table := parse_experts root sizes c (replicate (Z.to_nat (expert_table_entries c)) None) values in
  match mapM id table with
  | None => Throw (invalid_argument "routed component catalog is incomplete")
  | Some records =>
    let '(status, catalog) := from_records (rc_layer_count c) (rc_experts_per_layer c) records empty_catalog in
    Ok (if status_ok status then inr (mkRouted (rc_name c) catalog) else inl status)
  end.

(** ** Loading *)

Definition manifest_path (root : list Z) : list Z := join_path root (bytes "manifest.json").

Definition read_manifest (fs : Files) (root : list Z) : outcome Object :=
  let! t := read_text fs (manifest_path root) in
  let! document := Parse t in
  AsObject (bytes "manifest") document.

(** The descriptor that the manifest announces. Its arguments are evaluated in order; the
    language leaves the order open, which only changes what is said of a manifest that has
    several faults. *)
Definition load_program (fs : Files) (root content_hash : list Z) (program : Object) : outcome (checked ModelDescriptor) :=
  let! name := string_at program "path" "model_program" "model_program.path" in
  let! path := safe_child root name in
  let! n := u64_at program "bytes" "model_program" "model_program.bytes" in
  let! sha := digest_at program "sha256" "model_program" "model_program.sha256" in
  let '(status, descriptor) :=
    load_model_descriptor_artifact (regular_file fs) path n sha content_hash (namespace_id_from_content_hash content_hash) in
  if negb (status_ok status) then Ok (inl status)
  else if (1 <? length (routed_components descriptor))%nat
  then Ok (invalid "Expert Pack v1 indexes at most one routed component")
  else Ok (inr descriptor).

(** What follows once the descriptor is there. *)
Definition load_indexes (fs : Files) (root : list Z) (manifest : Object) (descriptor : ModelDescriptor)
  : outcome (checked ModelArtifact) :=
  let! pack_values := array_at manifest "packs" "manifest" "manifest.packs" in
  let! packs := parse_packs fs root ∅ pack_values in
  let! tensor_values := array_at manifest "tensors" "manifest" "manifest.tensors" in
  let! tensors := collect (parse_tensor packs.2) tensor_values in
  let! expert_values := array_at manifest "experts" "manifest" "manifest.experts" in
  match routed_components descriptor with
  | [] =>
    if negb (bool_decide (expert_values = []))
    then Throw (invalid_argument "dense-only artifact contains routed expert records")
    else Ok (inr (mkArtifact root descriptor packs.1 tensors []))
  | component :: _ =>
    let! routed := load_component root packs.2 component expert_values in
    Ok (let? routed := routed in inr (mkArtifact root descriptor packs.1 tensors [routed]))
  end.

Definition load_body (fs : Files) (root : list Z) : outcome (checked ModelArtifact) :=
  let! manifest := read_manifest fs root in
  let! format := object_at manifest "format" "manifest" "manifest.format" in
  let! name := string_at format "name" "format" "format.name" in
  if negb (bool_decide (name = bytes "expert-pack")) then Ok (invalid "artifact is not Expert Pack v1")
  else
    let! version := u64_at format "version" "format" "format.version" in
    if negb (version =? 1) then Ok (invalid "artifact is not Expert Pack v1")
    else
      let! integrity := object_at manifest "integrity" "manifest" "manifest.integrity" in
      let! content_hash := digest_at integrity "content_sha256" "integrity" "integrity.content_sha256" in
      let! program := object_at manifest "model_program" "manifest" "manifest.model_program" in
      let! program_format := string_at program "format" "model_program" "model_program.format" in
      if negb (bool_decide (program_format = descriptor_header))
      then Ok (invalid "artifact model program format is unsupported")
      else
        let! descriptor := load_program fs root content_hash program in
        match descriptor with
        | inl status => Ok (inl status)
        | inr descriptor => load_indexes fs root manifest descriptor
        end.

Definition load_expert_pack_v1 (fs : Files) (root : list Z) (destination : ModelArtifact) : Status * ModelArtifact :=
  if negb (bool_decide (root_ destination = [])) || negb (is_directory fs root) ||
     negb (is_regular_file fs (manifest_path root)) || negb (is_regular_file fs (join_path root (bytes "COMPLETED")))
  then (mkStatus invalid_arg "artifact destination is non-empty or container is incomplete", destination)
  else
    match load_body fs root with
    | Ok (inr candidate) => (success, candidate)
    | Ok (inl status) => (status, destination)
    | Throw e => (mkStatus invalid_arg ("invalid model artifact: " +:+ what e), destination)
    end.

(** Which adapter reads a manifest. *)
Definition manifest_format (fs : Files) (root : list Z) : outcome (list Z * Z) :=
  let! manifest := read_manifest fs root in
  let! format := object_at manifest "format" "manifest" "manifest.format" in
  let! name := string_at format "name" "format" "format.name" in
  let! version := u64_at format "version" "format" "format.version" in
  Ok (name, version).

Definition load (fs : Files) (root : list Z) (destination : ModelArtifact) : Status * ModelArtifact :=
  if negb (bool_decide (root_ destination = [])) || negb (is_directory fs root) ||
     negb (is_regular_file fs (manifest_path root))
  then (mkStatus invalid_arg "artifact destination is non-empty or manifest is absent", destination)
  else
    match manifest_format fs root with
    | Ok (name, version) =>
      if bool_decide (name = bytes "expert-pack") && (version =? 1) then load_expert_pack_v1 fs root destination
      else (mkStatus invalid_arg "no artifact storage adapter implements manifest format", destination)
    | Throw e => (mkStatus invalid_arg ("invalid artifact manifest: " +:+ what e), destination)
    end.

(** ** Queries *)

Definition find_pack (name : list Z) (a : ModelArtifact) : option ArtifactPack :=
  snd <$> list_find (fun item => pk_name item = name) (packs_ a).

Definition find_component (name : list Z) (a : ModelArtifact) : option ArtifactRoutedComponent :=
  snd <$> list_find (fun item => ar_name item = name) (components_ a).
