(* ===== verification/ModelArtifactTheorems.v ===== *)
(** What is proved of artifacts: one that was loaded is well-formed, complete and stays
    inside its root and its packs; one that is refused changes nothing. *)

From Stdlib Require Import String.
From S2P Require Import Prelude.
From S2P Require Import Storage.
From S2P Require Import Text.
From S2P Require Import Json.
From S2P Require Import Sha256.
From S2P Require Import ExpertRecord.
From S2P Require Import ExpertCatalog.
From S2P Require Import ExpertCatalogTheorems.
From S2P Require Import ModelDescriptor.
From S2P Require Import ModelDescriptorTheorems.
From S2P Require Import DescriptorText.
From S2P Require Import DescriptorTextTheorems.
From S2P Require Import ModelArtifact.

#[local] Open Scope bool_scope.
#[local] Open Scope Z_scope.

(** ** What a sound artifact is *)

(** A path that leads from the root downwards. *)
Definition below (root path : list Z) : Prop :=
  exists name, path = join_path root name /\ name <> [] /\ head name <> Some 47 /\ dot_dot ∉ path_parts [] name.

Definition inside_pack (p : ArtifactPack) (offset count : Z) : Prop := offset + count <= pk_bytes p.

Definition pack_sound (fs : Files) (root : list Z) (p : ArtifactPack) : Prop :=
  pk_path p = join_path root (pk_name p) /\ below root (pk_path p) /\ is_regular_file fs (pk_path p) = true /\
  file_size fs (pk_path p) = pk_bytes p /\ (pk_kind p = bytes "dense" \/ pk_kind p = bytes "experts").

Definition tensor_sound (packs : list ArtifactPack) (t : ArtifactDenseTensor) : Prop :=
  dt_shape t <> [] /\ dt_encoding t ∈ tensor_encodings /\
  exists p, p ∈ packs /\ pk_name p = dt_pack t /\ inside_pack p (dt_record_offset t) (dt_stored_bytes t).

Definition known_record_abi (abi : Z) : Prop :=
  abi = kExpertRecordAbiInt8PerRow \/ abi = kExpertRecordAbiFp4Block32 \/
  abi = kExpertRecordAbiFp4Relu2Block32 \/ abi = kExpertRecordAbiNvfp4Block16W4A4.

(** The record of an expert: bytes inside of a pack, the geometry of the component. *)
Definition record_sound (packs : list ArtifactPack) (c : RoutedExpertComponentDescriptor) (r : PayloadRecord) : Prop :=
  extents r = [] /\ rec_hidden r = rc_hidden_size c /\ rec_intermediate r = rc_intermediate_size c /\
  known_record_abi (record_abi r) /\
  rec_device_bytes r = expert_device_bytes (record_abi r) (rc_hidden_size c) (rc_intermediate_size c) /\
  exists p, p ∈ packs /\ path r = text (pk_path p) /\ inside_pack p (record_offset r) (stored_bytes r).

(** The catalog has a record of every expert of the component. *)
Definition catalog_sound (packs : list ArtifactPack) (c : RoutedExpertComponentDescriptor) (r : ArtifactRoutedComponent) : Prop :=
  ar_name r = rc_name c /\
  forall layer expert, 0 <= layer < rc_layer_count c -> 0 <= expert < rc_experts_per_layer c ->
  exists record, find_record layer expert (ar_catalog r) = Some record /\ record_sound packs c record /\
    stored_bytes record <> 0.

Record artifact_sound (fs : Files) (root : list Z) (a : ModelArtifact) : Prop := mkArtifactSound {
  as_root : root_ a = root;
  as_model : well_formed (model_ a);
  as_namespaces : forall c, c ∈ routed_components (model_ a) ->
    namespace_id_from_content_hash (content_hash (model_ a)) <= rc_namespace_id c <= U64_MAX;
  as_names : NoDup (pk_name <$> packs_ a);
  as_packs : forall p, p ∈ packs_ a -> pack_sound fs root p;
  as_tensors : forall t, t ∈ dense_tensors_ a -> tensor_sound (packs_ a) t;
  as_components : Forall2 (catalog_sound (packs_ a)) (routed_components (model_ a)) (components_ a) }.

(** ** Steps of the reader *)

(** Takes the first step of a reader that returned. *)
Ltac reads H :=
  repeat match type of H with
  | obind ?m _ = Ok _ => let E := fresh "E" in destruct m eqn:E; [cbn [obind] in H|discriminate H]
  end.

Lemma obind_ok {A B : Type} (m : outcome A) (k : A -> outcome B) b :
  obind m k = Ok b -> exists a, m = Ok a /\ k a = Ok b.
Proof. destruct m as [a|]; [|done]. by exists a. Qed.

Lemma safe_child_below root t p : safe_child root t = Ok p -> p = join_path root t /\ below root p.
Proof.
  unfold safe_child. case_bool_decide as H1; [done|]. case_bool_decide as H2; [done|]. cbn.
  case_bool_decide as H3; [done|]. intros [= <-]. split; [done|]. by exists t.
Qed.

Lemma outside_false offset count size : 0 <= size - offset -> outside offset count size = false -> offset + count <= size.
Proof.
  unfold outside, sub64, wrap64. intros Hs [_ H%Z.ltb_ge]%orb_false_iff. pose proof (Z.mod_le (size - offset) (2 ^ 64)).
  lia.
Qed.

Lemma outside_inside offset count size : outside offset count size = false -> offset + count <= size.
Proof. intros H. apply outside_false; [|done]. unfold outside in H. apply orb_false_iff in H as [H%Z.ltb_ge _]. lia. Qed.

(** *** Packs *)

(** The map of sizes knows the packs read so far. *)
Definition sizes_of (packs : list ArtifactPack) (sizes : gmap (list Z) Z) : Prop :=
  forall name n, sizes !! name = Some n <-> exists p, p ∈ packs /\ pk_name p = name /\ pk_bytes p = n.

Lemma parse_pack_sound fs root sizes v p :
  parse_pack fs root sizes v = Ok p -> pack_sound fs root p /\ sizes !! pk_name p = None.
Proof.
  unfold parse_pack. intros H. reads H. destruct (_ || _) eqn:Hc; [done|]. injection H as <-.
  apply orb_false_iff in Hc as [[[Hk Hr%negb_false_iff]%orb_false_iff Hs%negb_false_iff%Z.eqb_eq]%orb_false_iff Hn].
  apply bool_decide_eq_false in Hn. apply eq_None_not_Some in Hn.
  match goal with E : safe_child _ _ = Ok _ |- _ => apply safe_child_below in E as [-> Hb] end.
  split; [|done]. split_and!; [done..|]. cbn.
  apply andb_false_iff in Hk as [Hk%negb_false_iff%bool_decide_eq_true|Hk%negb_false_iff%bool_decide_eq_true]; auto.
Qed.

Lemma parse_packs_sound fs root past sizes values r :
  sizes_of past sizes -> NoDup (pk_name <$> past) -> (forall p, p ∈ past -> pack_sound fs root p) ->
  parse_packs fs root sizes values = Ok r ->
  sizes_of (past ++ r.1) r.2 /\ NoDup (pk_name <$> past ++ r.1) /\ forall p, p ∈ past ++ r.1 -> pack_sound fs root p.
Proof.
  revert past sizes r. induction values as [|v values IH]; intros past sizes r Hs Hn Hp; cbn.
  { intros [= <-]. cbn. by rewrite app_nil_r. }
  intros (p & Hv & (rest & Hr & [= <-])%obind_ok)%obind_ok. apply parse_pack_sound in Hv as [Hsound Hfresh]. cbn.
  rewrite (cons_middle p), app_assoc. apply (IH (past ++ [p])) in Hr; [done|..].
  - intros name n. destruct (decide (pk_name p = name)) as [<-|Hne].
    + rewrite lookup_insert_eq. split.
      * intros [= <-]. exists p. split; [apply elem_of_app; right; constructor|done].
      * intros (q & [Hq| <-%list_elem_of_singleton]%elem_of_app & Hname & <-); [|done].
        assert (sizes !! pk_name p = Some (pk_bytes q)) by (apply Hs; eauto). congruence.
    + rewrite lookup_insert_ne by done. rewrite (Hs name n). split.
      * intros (q & Hq & ?). exists q. split; [apply elem_of_app; by left|done].
      * intros (q & [Hq| ->%list_elem_of_singleton]%elem_of_app & Hname & <-); [by exists q|done].
  - rewrite fmap_app. apply NoDup_app. split_and!; [done| |apply NoDup_singleton].
    intros name (q & -> & Hq)%list_elem_of_fmap Hin%list_elem_of_singleton.
    assert (sizes !! pk_name p = Some (pk_bytes q)) by (apply Hs; eauto). congruence.
  - intros q [Hq| ->%list_elem_of_singleton]%elem_of_app; [by apply Hp|done].
Qed.

(** *** Tensors *)

Lemma collect_Forall {A B : Type} (f : A -> outcome B) (P : B -> Prop) l r :
  (forall a b, f a = Ok b -> P b) -> collect f l = Ok r -> Forall P r.
Proof.
  intros Hf. revert r. induction l as [|a l IH]; intros r; cbn; [intros [= <-]; constructor|].
  intros (b & Hb & (rest & Hr & [= <-])%obind_ok)%obind_ok. constructor; [by eapply Hf|by apply IH].
Qed.

Lemma parse_tensor_sound packs sizes v t :
  sizes_of packs sizes -> parse_tensor sizes v = Ok t -> tensor_sound packs t.
Proof.
  intros Hs. unfold parse_tensor. intros H. reads H.
  match type of H with context [sizes !! ?name] => destruct (sizes !! name) as [size|] eqn:Hp; [|done] end.
  destruct (_ || _) eqn:Hc; [done|]. injection H as <-.
  apply orb_false_iff in Hc as [[Hsh%bool_decide_eq_false Ho%outside_inside]%orb_false_iff He%negb_false_iff%bool_decide_eq_true].
  apply Hs in Hp as (p & Hin & Hname & Hbytes). split_and!; [done..|]. exists p. split_and!; [done..|].
  unfold inside_pack. cbn. lia.
Qed.

(** *** Experts *)

Definition table_sound (packs : list ArtifactPack) (c : RoutedExpertComponentDescriptor) (t : ExpertTable) : Prop :=
  forall i r, t !! i = Some (Some r) -> record_sound packs c r.

Lemma parse_expert_sound root packs sizes c t v t' :
  sizes_of packs sizes -> (forall p, p ∈ packs -> pk_path p = join_path root (pk_name p)) -> table_sound packs c t ->
  parse_expert root sizes c t v = Ok t' -> table_sound packs c t' /\ length t' = length t.
Proof.
  intros Hs Hpaths Ht. unfold parse_expert. intros H. reads H. destruct (_ || _) eqn:Hg; [done|].
  match type of H with context [t !! ?i] => set (index := i) in H; destruct (t !! index) as [[|]|] eqn:Hi; [done| |done] end.
  reads H.
  match type of H with context [sizes !! ?name] => destruct (sizes !! name) as [size|] eqn:Hp; [|done] end.
  reads H. destruct (_ || _) eqn:Hc in H; [done|]. injection H as <-.
  apply orb_false_iff in Hc as [[Ho%outside_inside _]%orb_false_iff Habi].
  apply Hs in Hp as (p & Hin & Hname & Hbytes). split; [|apply length_insert].
  intros i r. destruct (decide (index = i)) as [<-|Hne]; [|rewrite list_lookup_insert_ne by done; apply Ht].
  rewrite list_lookup_insert_eq by by eapply lookup_lt_Some. intros [= <-].
  split_and!; try done; cbn.
  - unfold known_record_abi. rewrite !andb_false_iff, !negb_false_iff, !Z.eqb_eq in Habi. tauto.
  - exists p. split_and!; [done| |unfold inside_pack; lia].
    match goal with E : safe_child _ _ = Ok _ |- _ => apply safe_child_below in E as [-> _] end.
    by rewrite (Hpaths p Hin), Hname.
Qed.

Lemma parse_experts_sound root packs sizes c t values t' :
  sizes_of packs sizes -> (forall p, p ∈ packs -> pk_path p = join_path root (pk_name p)) -> table_sound packs c t ->
  parse_experts root sizes c t values = Ok t' -> table_sound packs c t' /\ length t' = length t.
Proof.
  intros Hs Hpaths. revert t. induction values as [|v values IH]; intros t Ht; cbn; [by intros [= <-]|].
  intros (t1 & Hv & Hr)%obind_ok. apply (parse_expert_sound _ packs) in Hv as [H1 <-]; [|done..]. by apply IH.
Qed.

Lemma sum_records_sound l source : status_ok (sum_records source l).1 = true -> Forall sound_record l.
Proof.
  revert source. induction l as [|r l IH]; intros source; cbn; [constructor|].
  destruct (_ || _) eqn:Hb; [done|]. apply orb_false_iff in Hb as [H1%Z.eqb_neq H2%Z.eqb_neq].
  destruct (_ <? _); [done|]. intros H%IH. constructor; [by split|done].
Qed.

(** What a catalog made from records answers. *)
Lemma from_records_found layers experts rs st k :
  layers * experts <= U64_MAX -> 0 <= layers -> 0 <= experts ->
  from_records layers experts rs empty_catalog = (st, k) -> status_ok st = true ->
  forall layer expert, 0 <= layer < layers -> 0 <= expert < experts ->
  exists r, find_record layer expert k = Some r /\ r ∈ rs /\ stored_bytes r <> 0.
Proof.
  intros Hmax Hl He. unfold from_records. cbn. destruct (_ || _) eqn:Hb; [by intros [= <- _]|].
  apply orb_false_iff in Hb as [_ Hlen%negb_false_iff%Z.eqb_eq].
  pose proof (sum_records_sound rs 0) as Hsum. destruct (sum_records 0 rs) as [status source]. cbn in Hsum.
  destruct (status_ok status) eqn:Hok; cbn; [|intros [= <- _]; congruence].
  intros [= <- <-] _ layer expert ? ?. unfold find_record. cbn. rewrite <- Hlen, Z.eqb_refl.
  assert (mul64 layers experts = layers * experts) as Em by (unfold mul64; apply wrap64_small; unfold u64; nia).
  rewrite !(proj2 (Z.leb_gt _ _)) by lia. cbn. unfold mul64, add64. rewrite wrap64_add_l.
  rewrite wrap64_small by (unfold u64; nia).
  destruct (lookup_lt_is_Some_2 rs (Z.to_nat (layer * experts + expert))) as [r Hr]; [nia|].
  exists r. split; [done|]. apply list_elem_of_lookup_2 in Hr as Hin. split; [done|].
  specialize (Hsum eq_refl). by eapply Forall_forall in Hsum as [? _].
Qed.

Lemma load_component_sound root packs sizes c values r :
  sizes_of packs sizes -> (forall p, p ∈ packs -> pk_path p = join_path root (pk_name p)) ->
  component_typed c -> rc_layer_count c * rc_experts_per_layer c <= U64_MAX ->
  load_component root sizes c values = Ok (inr r) -> catalog_sound packs c r.
Proof.
  intros Hs Hpaths [Hl He] Hmax (t & Ht & Hm)%obind_ok. apply (parse_experts_sound _ packs) in Ht as [Hsound _]; [|done..|].
  2: { intros i r' Hi. apply lookup_replicate in Hi as [? _]. done. }
  destruct (mapM id t) as [records|] eqn:Hrs; [|done].
  destruct (from_records _ _ _ _) as [status catalog] eqn:Hf. destruct (status_ok status) eqn:Hok; [|done].
  injection Hm as <-. split; [done|]. intros layer expert ? ?. cbn.
  destruct (from_records_found _ _ _ _ _ Hmax ltac:(apply Hl) ltac:(apply He) Hf Hok layer expert) as (record & Hr & Hin & ?);
    [done..|].
  exists record. split_and!; [done| |done]. apply list_elem_of_lookup in Hin as [i Hi].
  apply mapM_Some_1 in Hrs. destruct (Forall2_lookup_r _ _ _ _ _ Hrs Hi) as (x & Hx & Hid). cbn in Hid. subst x.
  by eapply Hsound.
Qed.

(** *** The whole artifact *)

Lemma nibble_nonneg c n : nibble c = Ok n -> 0 <= n.
Proof. unfold nibble. repeat case_match; intros [= <-]; lia. Qed.

Lemma digest_bytes_nonneg t h : digest_bytes t = Ok h -> Forall (fun b => 0 <= b) h.
Proof.
  revert t h. fix IH 1. intros [|high [|low t]] h; cbn; [by intros [= <-]..|].
  intros (a & Ha & (b & Hb & (rest & Hr & [= <-])%obind_ok)%obind_ok)%obind_ok.
  constructor; [|by eapply IH]. apply Z.lor_nonneg. split; [|by eapply nibble_nonneg].
  apply Z.shiftl_nonneg. by eapply nibble_nonneg.
Qed.

Lemma digest_nonneg t h : digest t = Ok h -> Forall (fun b => 0 <= b) h.
Proof. unfold digest. destruct (negb _); [done|]. apply digest_bytes_nonneg. Qed.

Lemma namespace_nonneg h : Forall (fun b => 0 <= b) h -> 0 <= namespace_id_from_content_hash h.
Proof.
  intros Hh. apply (Forall_take _ 8) in Hh. unfold namespace_id_from_content_hash.
  assert (0 <= foldr (fun b v => Z.lor b (Z.shiftl v 8)) 0 (take 8 h)); [|destruct (_ =? 0); lia].
  induction Hh as [|b l Hb _ IH]; cbn; [lia|]. apply Z.lor_nonneg. split; [done|]. by apply Z.shiftl_nonneg.
Qed.

Lemma load_program_sound fs root hash program d :
  0 <= namespace_id_from_content_hash hash -> load_program fs root hash program = Ok (inr d) ->
  well_formed d /\ origin (namespace_id_from_content_hash hash) hash d /\ (length (routed_components d) <= 1)%nat.
Proof.
  intros Hns H. unfold load_program in H. reads H. destruct (load_model_descriptor_artifact _ _ _ _ _ _) as [st d'] eqn:Hl.
  destruct (negb (status_ok st)) eqn:Hok; [done|]. destruct (Nat.ltb_spec 1 (length (routed_components d'))); [done|].
  injection H as <-. apply negb_false_iff in Hok. destruct (load_origin _ _ _ _ _ _ _ _ Hns Hl Hok) as (_ & ? & ?). done.
Qed.

(** What the indexes say together; the component is what is left to read. *)
Lemma parse_indexes_sound fs root manifest d a :
  load_indexes fs root manifest d = Ok (inr a) ->
  root_ a = root /\ model_ a = d /\ NoDup (pk_name <$> packs_ a) /\
  (forall p, p ∈ packs_ a -> pack_sound fs root p) /\
  (forall t, t ∈ dense_tensors_ a -> tensor_sound (packs_ a) t) /\
  exists sizes values, sizes_of (packs_ a) sizes /\
    match routed_components d with
    | [] => components_ a = []
    | c :: _ => exists r, load_component root sizes c values = Ok (inr r) /\ components_ a = [r]
    end.
Proof.
  intros H. unfold load_indexes in H.
  apply obind_ok in H as (pack_values & _ & H). apply obind_ok in H as ([packs sizes] & Hp & H).
  apply obind_ok in H as (tensor_values & _ & H). apply obind_ok in H as (tensors & Ht & H).
  apply obind_ok in H as (values & _ & H). cbn [fst snd] in *.
  destruct (parse_packs_sound _ _ [] _ _ _ ltac:(
    intros name n; rewrite lookup_empty; split; [done|]; by intros (p & Hin%not_elem_of_nil & _)) ltac:(constructor)
    ltac:(by intros p Hin%not_elem_of_nil) Hp) as (Hs & Hn & Hps). cbn [fst snd app] in *.
  assert (Forall (tensor_sound packs) tensors) as Hts.
  { eapply collect_Forall; [|exact Ht]. intros v t. by apply parse_tensor_sound. }
  rewrite Forall_forall in Hts. destruct (routed_components d) as [|c rest].
  - destruct (negb _); [done|]. injection H as <-. split_and!; try done. by exists sizes, values.
  - apply obind_ok in H as ([status|r] & Hr & H); [done|]. cbn in H. injection H as <-. split_and!; try done.
    exists sizes, values. split; [done|]. by exists r.
Qed.

Lemma load_indexes_sound fs root manifest d a :
  well_formed d -> origin (namespace_id_from_content_hash (content_hash d)) (content_hash d) d ->
  (length (routed_components d) <= 1)%nat -> load_indexes fs root manifest d = Ok (inr a) -> artifact_sound fs root a.
Proof.
  intros Hw [_ Ho] Hlen (Hroot & Hm & Hn & Hps & Hts & sizes & values & Hs & Hc)%parse_indexes_sound.
  rewrite Forall_forall in Ho. subst d. constructor; try done; [by intros c Hin; apply Ho|].
  destruct (routed_components (model_ a)) as [|c [|]] eqn:Hrc; cbn in Hlen; [by rewrite Hc; constructor| |lia].
  destruct Hc as (r & Hr & ->). assert (c ∈ routed_components (model_ a)) as Hin by (rewrite Hrc; constructor).
  constructor; [|constructor]. eapply load_component_sound; [exact Hs| | | |exact Hr].
  - intros p Hp. by apply Hps.
  - apply Ho. constructor.
  - destruct (wf_components _ Hw c Hin) as [Hok _]. pose proof (ck_table _ _ Hok).
    assert (U64_MAX / 128 <= U64_MAX) by (vm_compute; discriminate). lia.
Qed.

Lemma load_body_sound fs root a : load_body fs root = Ok (inr a) -> artifact_sound fs root a.
Proof.
  unfold load_body. intros H.
  apply obind_ok in H as (manifest & _ & H). apply obind_ok in H as (format & _ & H).
  apply obind_ok in H as (name & _ & H). destruct (negb _); [done|].
  apply obind_ok in H as (version & _ & H). destruct (negb _); [done|].
  apply obind_ok in H as (integrity & _ & H). apply obind_ok in H as (hash & Hhash & H).
  apply obind_ok in H as (program & _ & H). apply obind_ok in H as (program_format & _ & H). destruct (negb _); [done|].
  apply obind_ok in H as ([status|d] & Hd & H); [done|].
  apply obind_ok in Hhash as (t & _ & Hhash). apply digest_nonneg, namespace_nonneg in Hhash.
  apply load_program_sound in Hd as (Hw & Ho & Hlen); [|done]. destruct (Ho) as [Hh _]. subst hash.
  by eapply load_indexes_sound.
Qed.

(** A refusal is not a success. *)
Lemma load_body_refusal fs root status : load_body fs root = Ok (inl status) -> status_ok status = false.
Proof.
  unfold load_body. intros H.
  apply obind_ok in H as (manifest & _ & H). apply obind_ok in H as (format & _ & H).
  apply obind_ok in H as (name & _ & H). destruct (negb _); [by injection H as <-|].
  apply obind_ok in H as (version & _ & H). destruct (negb _); [by injection H as <-|].
  apply obind_ok in H as (integrity & _ & H). apply obind_ok in H as (hash & _ & H).
  apply obind_ok in H as (program & _ & H). apply obind_ok in H as (program_format & _ & H).
  destruct (negb _); [by injection H as <-|]. apply obind_ok in H as ([st|d] & Hd & H).
  - injection H as <-. unfold load_program in Hd. reads Hd. destruct (load_model_descriptor_artifact _ _ _ _ _ _) as [st' d'].
    destruct (negb (status_ok st')) eqn:Hok; [injection Hd as <-; by apply negb_true_iff|].
    destruct (1 <? _)%nat; [by injection Hd as <-|done].
  - unfold load_indexes in H.
    apply obind_ok in H as (pack_values & _ & H). apply obind_ok in H as (packs & _ & H).
    apply obind_ok in H as (tensor_values & _ & H). apply obind_ok in H as (tensors & _ & H).
    apply obind_ok in H as (values & _ & H). destruct (routed_components d) as [|c rest]; [by destruct (negb _)|].
    apply obind_ok in H as ([st|r] & Hr & H); [|done]. cbn in H. injection H as <-.
    unfold load_component in Hr. apply obind_ok in Hr as (t & _ & Hr). destruct (mapM id t); [|done].
    destruct (from_records _ _ _ _) as [st' k]. destruct (status_ok st') eqn:Hok; [done|by injection Hr as <-].
Qed.


(** ** An artifact of one component with four experts and one dense tensor *)

Definition hex_digit (n : Z) : Z := if n <? 10 then 48 + n else 87 + n.
Definition hex (l : list Z) : list Z := l ≫= fun b => [hex_digit (b / 16); hex_digit (b mod 16)].

Definition demo_hash : list Z := 1 :: replicate 31 0.
Definition demo_program : list Z := print_descriptor 1 demo_model.
Definition demo_dense : list Z := replicate 8 7.
Definition demo_experts : list Z := replicate 16 9.

Definition pair_of (key : string) (v : Value) : list Z * Value := (bytes key, v).
Definition str (s : string) : Value := VString (bytes s).

Definition demo_expert (n : Z) : Value :=
  VObject [pair_of "decoded_bytes" (VUInt 8); pair_of "expert" (VUInt n); pair_of "layer" (VUInt 0);
    pair_of "offset" (VUInt (4 * n)); pair_of "pack" (str "experts.pack"); pair_of "payload_sha256" (VString (hex demo_hash));
    pair_of "quant_abi" (VUInt 3); pair_of "stored_bytes" (VUInt 4)].

Definition demo_pack (name kind : string) (contents : list Z) : Value :=
  VObject [pair_of "bytes" (VUInt (Z.of_nat (length contents))); pair_of "kind" (str kind); pair_of "name" (str name);
    pair_of "sha256" (VString (hex (sha256 contents)))].

Definition demo_section (offset n : Z) : Value := VObject [pair_of "bytes" (VUInt n); pair_of "offset" (VUInt offset)].

Definition demo_manifest : Value :=
  VObject
    [pair_of "experts" (VArray (demo_expert <$> [0; 1; 2; 3]));
     pair_of "format" (VObject [pair_of "name" (str "expert-pack"); pair_of "version" (VUInt 1)]);
     pair_of "integrity" (VObject [pair_of "content_sha256" (VString (hex demo_hash))]);
     pair_of "model_program" (VObject [pair_of "bytes" (VUInt (Z.of_nat (length demo_program)));
       pair_of "format" (VString descriptor_header); pair_of "path" (str "model.txt");
       pair_of "sha256" (VString (hex (sha256 demo_program)))]);
     pair_of "packs" (VArray [demo_pack "dense.pack" "dense" demo_dense; demo_pack "experts.pack" "experts" demo_experts]);
     pair_of "tensors" (VArray [VObject
       [pair_of "name" (str "model.norm"); pair_of "offset" (VUInt 0); pair_of "pack" (str "dense.pack");
        pair_of "payload_sha256" (VString (hex demo_hash)); pair_of "quant_abi" (VUInt 0);
        pair_of "sections" (VObject [pair_of "data" (demo_section 0 8); pair_of "scales" (demo_section 8 0)]);
        pair_of "source_shape" (VArray [VUInt 8]); pair_of "stored_bytes" (VUInt 8); pair_of "stored_dtype" (str "I8")]])].

Definition demo_contents (path : list Z) : option (list Z) :=
  if bool_decide (path = bytes "/m/manifest.json") then Some (Canonicalize demo_manifest)
  else if bool_decide (path = bytes "/m/COMPLETED") then Some []
  else if bool_decide (path = bytes "/m/model.txt") then Some demo_program
  else if bool_decide (path = bytes "/m/dense.pack") then Some demo_dense
  else if bool_decide (path = bytes "/m/experts.pack") then Some demo_experts
  else None.

Definition demo_files : Files :=
  mkFiles (fun path => bool_decide (path = bytes "/m")) (fun path => (fun t => (t, true)) <$> demo_contents path) demo_contents.

Definition demo_artifact : ModelArtifact := (load demo_files (bytes "/m") empty_artifact).2.

