(* ===== verification/TensorStore.v ===== *)
(** Model of [model_tensor_store.cpp], with the values and tensors of [program_executor.hpp]
    that it hands out: the dense tensors of an artifact, served from packs that are mapped
    into memory. Mapping a file is the operating system's, a parameter. *)

From Stdlib Require Import String.
From S2P Require Import Prelude.
From S2P Require Import Storage.
From S2P Require Import Text.
From S2P Require Import Sha256.
From S2P Require Import ModelDescriptor.
From S2P Require Import ModelArtifact.

#[local] Open Scope bool_scope.
#[local] Open Scope Z_scope.

(** ** Values and tensors *)

(** The owner keeps an object alive, which is given by its bytes; the data is a position in
    it. [None] is a null pointer. *)
Record ExecutionValue := mkExecutionValue {
  ev_abi : list Z;
  ev_memory_domain : list Z;
  ev_owner : option (list Z);
  ev_data : option Z;
  ev_bytes : Z }.

#[export] Instance ExecutionValue_eq_dec : EqDecision ExecutionValue.
Proof. solve_decision. Defined.

Definition value_valid (v : ExecutionValue) : bool :=
  negb (bool_decide (ev_abi v = [])) && negb (bool_decide (ev_memory_domain v = [])) &&
  bool_decide (is_Some (ev_owner v)) && bool_decide (is_Some (ev_data v)) && negb (ev_bytes v =? 0).

Record ImmutableModelTensor := mkModelTensor {
  mt_name : list Z;
  mt_encoding : list Z;
  mt_quant_abi : Z;
  mt_shape : list Z;
  mt_data_offset : Z;
  mt_data_bytes : Z;
  mt_scale_offset : Z;
  mt_scale_bytes : Z;
  mt_value : ExecutionValue }.

(** The bytes that a value shows. *)
Definition contents (v : ExecutionValue) : option (list Z) :=
  match ev_owner v, ev_data v with
  | Some owner, Some data => Some (take (Z.to_nat (ev_bytes v)) (drop (Z.to_nat data) owner))
  | _, _ => None
  end.

(** ** Packs *)

(** What the operating system says of a file that is opened and mapped; a failure comes with
    its description. *)
Inductive MapResult : Type :=
| cannot_open (reason : string)
| cannot_map (reason : string)
| mapped (data : list Z).

Section Store.
Context (map_file : list Z -> Z -> MapResult).

(** [MappedPack::open]: the bytes of the pack. *)
Definition open_pack (artifact : ArtifactPack) : checked (list Z) :=
  if (pk_bytes artifact =? 0) || (U64_MAX <? pk_bytes artifact)
  then inl (mkStatus invalid_arg "dense artifact pack exceeds the address space")
  else
    match map_file (pk_path artifact) (pk_bytes artifact) with
    | cannot_open reason => inl (mkStatus open_failed ("cannot open dense artifact pack: " +:+ reason))
    | cannot_map reason => inl (mkStatus open_failed ("cannot map dense artifact pack: " +:+ reason))
    | mapped data =>
      if negb (bool_decide (sha256 data = pk_sha256 artifact))
      then inl (mkStatus checksum_mismatch "dense artifact pack checksum mismatch")
      else inr data
    end.

(** A mapped pack: its bytes and its size. *)
Record MappedPack := mkMapped { mp_data : list Z; mp_bytes : Z }.

Record TensorCore := mkTensorCore {
  tc_packs : gmap (list Z) MappedPack;
  tc_tensors : gmap (list Z) ImmutableModelTensor }.

(** Packs of experts are not mapped. *)
Fixpoint open_packs (packs : gmap (list Z) MappedPack) (l : list ArtifactPack) : checked (gmap (list Z) MappedPack) :=
  match l with
  | [] => inr packs
  | pack :: l =>
    if negb (bool_decide (pk_kind pack = bytes "dense")) then open_packs packs l
    else
      let? data := open_pack pack in
      match packs !! pk_name pack with
      | Some _ => invalid "dense artifact pack name is duplicated"
      | None => open_packs (<[pk_name pack := mkMapped data (pk_bytes pack)]> packs) l
      end
  end.

(** A range that does not lie inside of [size] bytes. *)
Definition leaves (offset count size : Z) : bool := (size <? offset) || (sub64 size offset <? count).

Definition tensor_of (packs : gmap (list Z) MappedPack) (entry : ArtifactDenseTensor) : checked ImmutableModelTensor :=
  match packs !! dt_pack entry with
  | None => invalid "dense tensor record is outside its mapped pack"
  | Some pack =>
    if (dt_stored_bytes entry =? 0) || leaves (dt_record_offset entry) (dt_stored_bytes entry) (mp_bytes pack) ||
       leaves (dt_data_offset entry) (dt_data_bytes entry) (dt_stored_bytes entry) ||
       leaves (dt_scale_offset entry) (dt_scale_bytes entry) (dt_stored_bytes entry)
    then invalid "dense tensor record is outside its mapped pack"
    else
      inr (mkModelTensor (dt_name entry) (dt_encoding entry) (dt_quant_abi entry) (dt_shape entry)
             (dt_data_offset entry) (dt_data_bytes entry) (dt_scale_offset entry) (dt_scale_bytes entry)
             (mkExecutionValue (bytes "artifact.dense-record.v1") (bytes "host.mmap.readonly") (Some (mp_data pack))
                (Some (dt_record_offset entry)) (dt_stored_bytes entry)))
  end.

Fixpoint add_tensors (packs : gmap (list Z) MappedPack) (tensors : gmap (list Z) ImmutableModelTensor)
    (l : list ArtifactDenseTensor) : checked (gmap (list Z) ImmutableModelTensor) :=
  match l with
  | [] => inr tensors
  | entry :: l =>
    let? tensor := tensor_of packs entry in
    match tensors !! mt_name tensor with
    | Some _ => invalid "dense artifact tensor name is duplicated"
    | None => add_tensors packs (<[mt_name tensor := tensor]> tensors) l
    end
  end.

(** A store that has not been created is [None]. *)
Definition create (artifact : ModelArtifact) (destination : option TensorCore) : Status * option TensorCore :=
  match destination with
  | Some _ => (mkStatus invalid_arg "mapped tensor store destination is already initialized", destination)
  | None =>
    match (let? packs := open_packs ∅ (packs_ artifact) in
           let? tensors := add_tensors packs ∅ (dense_tensors_ artifact) in
           inr (mkTensorCore packs tensors)) with
    | inl status => (status, destination)
    | inr core => (success, Some core)
    end
  end.
End Store.

Definition resolve (store : option TensorCore) (name : list Z) : Status * option ImmutableModelTensor :=
  match store with
  | None => (mkStatus invalid_arg "mapped model tensor store is not initialized", None)
  | Some core =>
    match tc_tensors core !! name with
    | None => (mkStatus invalid_arg "artifact tensor is absent from the dense index", None)
    | Some tensor => (success, Some tensor)
    end
  end.
