(* ===== verification/TensorStoreTheorems.v ===== *)
(** What is proved of the tensor store: it serves exactly the dense tensors of its artifact,
    each as the bytes of its record in a pack that has the digest of the artifact. *)

From Stdlib Require Import String.
From S2P Require Import Prelude.
From S2P Require Import Storage.
From S2P Require Import Text.
From S2P Require Import Sha256.
From S2P Require Import ModelDescriptor.
From S2P Require Import ModelDescriptorTheorems.
From S2P Require Import ModelArtifact.
From S2P Require Import ModelArtifactTheorems.
From S2P Require Import TensorStore.

#[local] Open Scope bool_scope.
#[local] Open Scope Z_scope.

(** A tensor as the artifact describes it. *)
Definition describes (t : ArtifactDenseTensor) (m : ImmutableModelTensor) : Prop :=
  mt_name m = dt_name t /\ mt_encoding m = dt_encoding t /\ mt_quant_abi m = dt_quant_abi t /\ mt_shape m = dt_shape t /\
  mt_data_offset m = dt_data_offset t /\ mt_data_bytes m = dt_data_bytes t /\
  mt_scale_offset m = dt_scale_offset t /\ mt_scale_bytes m = dt_scale_bytes t.

(** Its sections lie inside of its record. *)
Definition sections_inside (m : ImmutableModelTensor) : Prop :=
  mt_data_offset m + mt_data_bytes m <= ev_bytes (mt_value m) /\
  mt_scale_offset m + mt_scale_bytes m <= ev_bytes (mt_value m).

Section Store.
Context (map_file : list Z -> Z -> MapResult).

(** Its bytes are those of its record in a pack of the artifact that has been authenticated. *)
Definition record_of (artifact : ModelArtifact) (t : ArtifactDenseTensor) (m : ImmutableModelTensor) : Prop :=
  exists p data, p ∈ packs_ artifact /\ pk_name p = dt_pack t /\
    map_file (pk_path p) (pk_bytes p) = mapped data /\ sha256 data = pk_sha256 p /\
    dt_record_offset t + dt_stored_bytes t <= pk_bytes p /\ dt_stored_bytes t <> 0 /\
    ev_bytes (mt_value m) = dt_stored_bytes t /\ value_valid (mt_value m) = true /\
    contents (mt_value m) = Some (take (Z.to_nat (dt_stored_bytes t)) (drop (Z.to_nat (dt_record_offset t)) data)).

Definition served (artifact : ModelArtifact) (t : ArtifactDenseTensor) (m : ImmutableModelTensor) : Prop :=
  describes t m /\ sections_inside m /\ record_of artifact t m.

Lemma leaves_inside offset count size : leaves offset count size = false -> offset + count <= size.
Proof. apply outside_inside. Qed.

(** A mapped pack is one of the artifact's. *)
Definition pack_of (all : list ArtifactPack) (name : list Z) (pack : MappedPack) : Prop :=
  exists p, p ∈ all /\ pk_name p = name /\ map_file (pk_path p) (pk_bytes p) = mapped (mp_data pack) /\
    sha256 (mp_data pack) = pk_sha256 p /\ mp_bytes pack = pk_bytes p.

Lemma open_pack_mapped p data :
  open_pack map_file p = inr data -> map_file (pk_path p) (pk_bytes p) = mapped data /\ sha256 data = pk_sha256 p.
Proof.
  unfold open_pack. destruct (_ || _); [done|]. destruct (map_file _ _) as [| |found]; [done..|].
  case_bool_decide as Hs; [|done]. by intros [= <-].
Qed.

Lemma open_packs_sound all l packs packs' :
  l ⊆ all -> map_Forall (pack_of all) packs -> open_packs map_file packs l = inr packs' -> map_Forall (pack_of all) packs'.
Proof.
  revert packs. induction l as [|p l IH]; intros packs Hl Hp; cbn; [by intros [= <-]|].
  assert (l ⊆ all) as Hl' by set_solver. assert (p ∈ all) as Hin by set_solver.
  destruct (negb _); [by apply IH|]. intros (data & Hd & Hr)%cbind_inr.
  destruct (packs !! pk_name p) eqn:Hn; [done|]. apply (IH _ Hl') in Hr; [done|].
  apply map_Forall_insert_2; [|done]. apply open_pack_mapped in Hd as [Hm Hs]. by exists p.
Qed.

Lemma tensor_of_served artifact packs t m :
  map_Forall (pack_of (packs_ artifact)) packs -> tensor_of packs t = inr m -> served artifact t m.
Proof.
  intros Hp. unfold tensor_of. destruct (packs !! dt_pack t) as [pack|] eqn:Hpack; [|done].
  destruct (_ || _) eqn:Hc; [done|]. intros [= <-].
  apply orb_false_iff in Hc as [[[Hz%Z.eqb_neq Hr%leaves_inside]%orb_false_iff Hd%leaves_inside]%orb_false_iff Hs%leaves_inside].
  apply Hp in Hpack as (p & Hin & Hname & Hm & Hsha & Hsize). split; [done|]. split; [done|].
  exists p, (mp_data pack). split_and!; try done; [cbn; lia|].
  unfold value_valid. cbn -[bytes]. rewrite (proj2 (Z.eqb_neq _ _)) by done. by vm_compute.
Qed.

(** The tensors of the store are those of the entries read so far. *)
Definition tensors_are (artifact : ModelArtifact) (past : list ArtifactDenseTensor)
    (tensors : gmap (list Z) ImmutableModelTensor) : Prop :=
  NoDup (dt_name <$> past) /\
  (forall t, t ∈ past -> exists m, tensors !! dt_name t = Some m /\ served artifact t m) /\
  (forall name, name ∉ dt_name <$> past -> tensors !! name = None).

Lemma add_tensors_sound artifact packs past tensors l tensors' :
  map_Forall (pack_of (packs_ artifact)) packs -> tensors_are artifact past tensors ->
  add_tensors packs tensors l = inr tensors' -> tensors_are artifact (past ++ l) tensors'.
Proof.
  intros Hp. revert past tensors. induction l as [|t l IH]; intros past tensors Ht; cbn.
  { intros [= <-]. by rewrite app_nil_r. }
  intros (m & Hm & H)%cbind_inr. destruct (tensors !! mt_name m) eqn:Hfresh; [done|].
  apply (tensor_of_served artifact) in Hm as Hs; [|done]. destruct (Hs) as [(Hname & _) _]. rewrite Hname in *.
  rewrite (cons_middle t), app_assoc. apply (IH (past ++ [t])) in H; [done|].
  destruct Ht as (Hn & Hin & Hout). assert (dt_name t ∉ dt_name <$> past) as Hnew.
  { intros (u & Hu & Hpast)%list_elem_of_fmap. destruct (Hin u Hpast) as (m' & Hm' & _). congruence. }
  split_and!.
  - rewrite fmap_app. apply NoDup_app. split_and!; [done| |apply NoDup_singleton].
    intros name Hpast ->%list_elem_of_singleton. done.
  - intros u [Hu| ->%list_elem_of_singleton]%elem_of_app.
    + destruct (Hin u Hu) as (m' & Hm' & Hsu). exists m'. split; [|done]. rewrite lookup_insert_ne; [done|].
      intros He. apply Hnew, list_elem_of_fmap. eauto.
    + exists m. split; [apply lookup_insert_eq|done].
  - intros name Hna. rewrite fmap_app, not_elem_of_app in Hna. destruct Hna as [H1 H2].
    rewrite lookup_insert_ne; [by apply Hout|]. intros He. apply H2. rewrite <- He. constructor.
Qed.

Lemma cbind_inl {A B : Type} (m : checked A) (k : A -> checked B) s :
  cbind m k = inl s -> m = inl s \/ exists a, m = inr a /\ k a = inl s.
Proof. destruct m as [s'|a]; cbn; [by intros [= ->]; left|]. intros H. right. by exists a. Qed.

Lemma open_packs_refusal l packs s : open_packs map_file packs l = inl s -> status_ok s = false.
Proof.
  revert packs. induction l as [|p l IH]; intros packs; cbn; [done|]. destruct (negb _); [apply IH|].
  intros [Ho|(data & _ & Hr)]%cbind_inl.
  - unfold open_pack in Ho. destruct (_ || _); [by injection Ho as <-|].
    destruct (map_file _ _); try by injection Ho as <-. destruct (negb _); [by injection Ho as <-|done].
  - destruct (packs !! pk_name p); [by injection Hr as <-|by eapply IH].
Qed.

Lemma add_tensors_refusal packs tensors l s : add_tensors packs tensors l = inl s -> status_ok s = false.
Proof.
  revert tensors. induction l as [|t l IH]; intros tensors; cbn; [done|]. intros [Ht|(m & _ & Hr)]%cbind_inl.
  - unfold tensor_of in Ht. destruct (packs !! _); [|by injection Ht as <-].
    destruct (_ || _); [by injection Ht as <-|done].
  - destruct (tensors !! _); [by injection Hr as <-|by eapply IH].
Qed.

(** C32: A tensor store serves exactly the dense tensors of its artifact: each name resolves
    to the tensor that the artifact describes, as the bytes of its record in a pack whose
    digest is the artifact's, its sections inside of them; names of other tensors are
    refused, names are distinct, and a creation that fails changes nothing. *)
Theorem tensor_store_serves artifact destination status store :
  create map_file artifact destination = (status, store) ->
  (status_ok status = true ->
   destination = None /\ NoDup (dt_name <$> dense_tensors_ artifact) /\
   (forall t, t ∈ dense_tensors_ artifact ->
     exists m, resolve store (dt_name t) = (success, Some m) /\ served artifact t m) /\
   (forall name, name ∉ dt_name <$> dense_tensors_ artifact ->
     code (resolve store name).1 = invalid_arg /\ (resolve store name).2 = None)) /\
  (status_ok status = false -> store = destination).
Proof.
  unfold create. destruct destination as [core|]; [by intros [= <- <-]|].
  destruct (cbind _ _) as [st|core] eqn:Hc; intros [= <- <-].
  { split; [|done]. intros Hok. apply cbind_inl in Hc as [Hc%open_packs_refusal|(packs & _ & Hc)]; [congruence|].
    apply cbind_inl in Hc as [Hc%add_tensors_refusal|(tensors & _ & Hc)]; [congruence|done]. }
  split; [|done]. intros _. apply cbind_inr in Hc as (packs & Hp & (tensors & Ht & [= <-])%cbind_inr).
  apply (open_packs_sound (packs_ artifact)) in Hp; [|done|apply map_Forall_empty].
  apply (add_tensors_sound artifact packs []) in Ht as (Hn & Hin & Hout); [|done|].
  2: { split_and!; [apply NoDup_nil_2|by intros t Hnil%not_elem_of_nil|]. intros name _. apply lookup_empty. }
  split_and!; [done|done| |]; cbn.
  - intros t (m & Hm & Hs)%Hin. exists m. by rewrite Hm.
  - intros name Hname%Hout. by rewrite Hname.
Qed.
End Store.

Definition demo_map (path : list Z) (n : Z) : MapResult :=
  match demo_contents path with Some data => mapped data | None => cannot_open "No such file or directory" end.

Definition demo_store : Status * option TensorCore := create demo_map demo_artifact None.

Example demo_store_serves :
  (contents ∘ mt_value) <$> (resolve demo_store.2 (bytes "model.norm")).2 = Some (Some demo_dense).
Proof. vm_compute. reflexivity. Qed.

Lemma demo_store_created : status_ok demo_store.1 = true.
Proof. vm_compute. reflexivity. Qed.

Lemma tensor_store_serves_witness :
  NoDup (dt_name <$> dense_tensors_ demo_artifact) /\ code (resolve demo_store.2 (bytes "other")).1 = invalid_arg.
Proof.
  destruct (tensor_store_serves demo_map demo_artifact None demo_store.1 demo_store.2 (surjective_pairing _)) as [H _].
  destruct (H demo_store_created) as (_ & Hn & _ & Hout). split; [exact Hn|]. apply Hout.
  apply (bool_decide_unpack _). vm_compute. exact I.
Defined.
