(* ===== verification/ResidentExperts.v ===== *)
(** Model of [resident_expert_set.cpp] with what is proved of it: a set of leases that the
    cache gives for always-active experts is loaded whole or not at all. The cache is an
    interface; a lease is released when the value that holds it is destroyed, which the
    model does explicitly. *)

From S2P Require Import Prelude.
From S2P Require Import Storage.
From S2P Require Import ExpertCache.
From S2P Require Import Handles.

#[local] Open Scope bool_scope.
#[local] Open Scope Z_scope.

Record ResidentExpertSpec := mkSpec { sp_key : ExpertKey; sp_record : PayloadRecord }.

(** What the set asks of the cache: an acquisition that is waited for, the allocation of a
    lease ([None] for a null pointer) by its size, the end of a lease, and trimming. *)
Class ResidentCache (W Lease : Type) := {
  rs_acquire : ExpertKey -> PayloadRecord -> ExpertAcquireOptions -> W -> (Status * option Lease) * W;
  rs_bytes : Lease -> option Z;
  rs_release : Lease -> W -> unit * W;
  rs_trim : W -> Z * W }.

Section Resident.
Context {W Lease : Type} `{!ResidentCache W Lease}.

Record ResidentExpertSet := mkSet { leases_ : list Lease; bytes_ : Z }.

Definition empty_set : ResidentExpertSet := mkSet [] 0.
Definition set_size (s : ResidentExpertSet) : nat := length (leases_ s).

(** [std::set::insert] of every key. *)
Fixpoint has_duplicate (keys : gset ExpertKey) (specs : list ResidentExpertSpec) : bool :=
  match specs with
  | [] => false
  | spec :: specs =>
    bool_decide (sp_key spec ∈ keys) || has_duplicate ({[sp_key spec]} ∪ keys) specs
  end.

(** Destroying leases, the first one first. *)
Definition release_all (l : list Lease) : ST W unit := for_each l (fun lease => ask (rs_release lease)).

Definition clear (s : ResidentExpertSet) : ST W ResidentExpertSet := release_all (leases_ s) ;* ret empty_set.

Definition resident_options : ExpertAcquireOptions := mkAcquireOptions demand false false true false.

(** The end of a load that fails: the set so far is released, the cache is trimmed, and what
    the last acquisition gave goes out of scope. *)
Definition abandon (candidate : ResidentExpertSet) (lease : option Lease) (status : Status)
  : ST W (Status + ResidentExpertSet) :=
  let* _ := clear candidate in
  ask rs_trim ;*
  release_all (option_list lease) ;*
  ret (inl status).

Fixpoint load_loop (candidate : ResidentExpertSet) (specs : list ResidentExpertSpec)
  : ST W (Status + ResidentExpertSet) :=
  match specs with
  | [] => ret (inr candidate)
  | spec :: specs =>
    let* acquired := ask (rs_acquire (sp_key spec) (sp_record spec) resident_options) in
    if negb (status_ok acquired.1) then abandon candidate acquired.2 acquired.1
    else
      match acquired.2 with
      | None => abandon candidate None (mkStatus internal "resident expert acquisition returned no allocation")
      | Some lease =>
        match rs_bytes lease with
        | None => abandon candidate (Some lease) (mkStatus internal "resident expert acquisition returned no allocation")
        | Some n => load_loop (mkSet (leases_ candidate ++ [lease]) (add64 (bytes_ candidate) n)) specs
        end
      end
  end.

Definition load (specs : list ResidentExpertSpec) (destination : ResidentExpertSet)
  : ST W (Status * ResidentExpertSet) :=
  if bool_decide (specs = []) || negb (set_size destination =? 0)%nat
  then ret (mkStatus invalid_arg "resident expert load requires non-empty specs and destination", destination)
  else if has_duplicate ∅ specs
  then ret (mkStatus invalid_arg "resident expert set contains a duplicate key", destination)
  else
    let* loaded := load_loop empty_set specs in
    match loaded with
    | inl status => ret (status, destination)
    | inr candidate => ret (success, candidate)
    end.

(** ** What a cache promises

    [held w] are the leases that are out; a lease knows its key. *)
Class ResidentCacheSpec (held : W -> list Lease) (lease_key : Lease -> ExpertKey) : Prop := {
  rs_acquire_holds key record options w :
    let r := rs_acquire key record options w in held r.2 ≡ₚ option_list r.1.2 ++ held w;
  rs_acquire_key key record options w lease :
    (rs_acquire key record options w).1.2 = Some lease -> lease_key lease = key;
  rs_release_ends lease w rest : held w ≡ₚ lease :: rest -> held (rs_release lease w).2 ≡ₚ rest;
  rs_trim_keeps w : held (rs_trim w).2 ≡ₚ held w }.

Context (held : W -> list Lease) (lease_key : Lease -> ExpertKey) `{!ResidentCacheSpec held lease_key}.

Lemma wp_ask {A : Type} (f : W -> A * W) (Q : A -> W -> Prop) w : Q (f w).1 (f w).2 -> wp (ask f) Q w.
Proof. unfold wp, ask. by destruct (f w). Qed.

Lemma release_all_ends l w rest :
  held w ≡ₚ l ++ rest -> wp (release_all l) (fun _ w' => held w' ≡ₚ rest) w.
Proof.
  revert w. induction l as [|lease l IH]; intros w Hw; [done|].
  unfold release_all in *. cbn [for_each]. apply wp_bind, wp_ask, IH. by apply rs_release_ends.
Qed.

Lemma abandon_holds candidate lease status w rest :
  held w ≡ₚ option_list lease ++ leases_ candidate ++ rest ->
  wp (abandon candidate lease status) (fun r w' => r = inl status /\ held w' ≡ₚ rest) w.
Proof.
  intros Hw. unfold abandon. apply wp_bind. unfold clear. apply wp_bind.
  eapply wp_mono; [apply (release_all_ends _ w (option_list lease ++ rest)); rewrite Hw; solve_Permutation|].
  intros [] w1 H1. apply wp_ret, wp_bind, wp_ask, wp_bind.
  eapply wp_mono; [apply (release_all_ends _ _ rest); by rewrite rs_trim_keeps|]. intros [] w3 H3. by apply wp_ret.
Qed.

(** The leases so far belong to the keys so far; the size is theirs. *)
Definition loaded (specs : list ResidentExpertSpec) (s : ResidentExpertSet) : Prop :=
  lease_key <$> leases_ s = sp_key <$> specs /\
  exists sizes, Forall2 (fun lease n => rs_bytes lease = Some n) (leases_ s) sizes /\ bytes_ s = wrap64 (sumZ sizes).

Lemma load_loop_holds past candidate specs w rest :
  loaded past candidate -> held w ≡ₚ leases_ candidate ++ rest ->
  wp (load_loop candidate specs) (fun r w' =>
    match r with
    | inl status => status_ok status = false /\ held w' ≡ₚ rest
    | inr s => loaded (past ++ specs) s /\ held w' ≡ₚ leases_ s ++ rest
    end) w.
Proof.
  revert past candidate w. induction specs as [|spec specs IH]; intros past candidate w Hl Hw; cbn [load_loop].
  { apply wp_ret. by rewrite app_nil_r. }
  apply wp_bind, wp_ask.
  pose proof (rs_acquire_holds (sp_key spec) (sp_record spec) resident_options w) as Hheld. cbn in Hheld.
  pose proof (rs_acquire_key (sp_key spec) (sp_record spec) resident_options w) as Hkey.
  destruct (rs_acquire _ _ _ w) as [[status lease] w1]. cbn [fst snd] in *. rewrite Hw in Hheld.
  destruct (status_ok status) eqn:Hok; cbn [negb].
  2: { eapply wp_mono; [by apply (abandon_holds _ _ _ _ rest)|]. by intros r w' [-> ?]. }
  destruct lease as [lease|].
  2: { eapply wp_mono; [by apply (abandon_holds _ _ _ _ rest)|]. by intros r w' [-> ?]. }
  destruct (rs_bytes lease) as [n|] eqn:Hn.
  2: { eapply wp_mono; [by apply (abandon_holds _ _ _ _ rest)|]. by intros r w' [-> ?]. }
  rewrite (cons_middle spec), app_assoc. apply IH.
  - destruct Hl as (Hkeys & sizes & Hs & Hb). split; cbn.
    + rewrite !fmap_app, Hkeys. cbn. by rewrite (Hkey lease eq_refl).
    + exists (sizes ++ [n]). split; [by apply Forall2_app; [|constructor]|].
      rewrite Hb. unfold add64. rewrite wrap64_add_l. f_equal. unfold sumZ. rewrite foldr_app. cbn. 
      clear. induction sizes as [|z l IH]; cbn; lia.
  - cbn. rewrite Hheld. cbn. solve_Permutation.
Qed.

Lemma duplicate_free keys specs :
  has_duplicate keys specs = false <-> NoDup (sp_key <$> specs) /\ forall k, k ∈ sp_key <$> specs -> k ∉ keys.
Proof.
  revert keys. induction specs as [|spec specs IH]; intros keys; cbn.
  { split; [|done]. intros _. split; [apply NoDup_nil_2|]. by intros k Hk%not_elem_of_nil. }
  rewrite orb_false_iff, bool_decide_eq_false, IH, NoDup_cons. set_solver.
Qed.

(** C33: A set of resident experts is loaded whole or not at all: on success it holds exactly
    one lease for each of the distinct keys, in their order, and its size is the sum of
    theirs; on failure every lease that was taken is given back and the destination is
    unchanged. Either way the call returns. *)
Theorem resident_load_all_or_nothing specs destination w :
  wp (load specs destination) (fun r w' =>
    (r.1 = success /\ NoDup (sp_key <$> specs) /\ specs <> [] /\ loaded specs r.2 /\
     held w' ≡ₚ leases_ r.2 ++ held w) \/
    (status_ok r.1 = false /\ r.2 = destination /\ held w' ≡ₚ held w)) w.
Proof.
  unfold load. case_bool_decide as He; cbn [orb]; [by right|]. destruct (negb _); [by right|].
  destruct (has_duplicate ∅ specs) eqn:Hd; [by right|]. apply duplicate_free in Hd as [Hd _].
  apply wp_bind. eapply wp_mono; [apply (load_loop_holds [] empty_set specs w (held w))|].
  - split; [done|]. by exists [].
  - done.
  - intros [status|s] w' Hr; apply wp_ret; [right|left]; [by destruct Hr|]. by destruct Hr.
Qed.
End Resident.

(** ** A cache that serves everything except expert 9 *)

Definition DemoLease : Type := ExpertKey * Z.

Fixpoint remove_one (lease : DemoLease) (w : list DemoLease) : list DemoLease :=
  match w with
  | [] => []
  | other :: w => if bool_decide ((other.1, other.2) = (lease.1, lease.2)) then w else other :: remove_one lease w
  end.

Lemma remove_one_elem lease w : lease ∈ w -> lease :: remove_one lease w ≡ₚ w.
Proof.
  induction w as [|other w IH]; [by intros ?%not_elem_of_nil|]. cbn. case_bool_decide as He.
  - destruct lease, other. cbn in He. by injection He as -> ->.
  - intros [->|Hin]%elem_of_cons; [done|]. rewrite Permutation_swap. by rewrite IH.
Qed.

#[export] Instance demo_resident_cache : ResidentCache (list DemoLease) DemoLease := {
  rs_acquire key record options w :=
    if expert key =? 9 then ((mkStatus backpressure "no room", None), w)
    else ((success, Some (key, 16)), (key, 16) :: w);
  rs_bytes lease := Some lease.2;
  rs_release lease w := (tt, remove_one lease w);
  rs_trim w := (0, w) }.

#[export] Instance demo_resident_spec : ResidentCacheSpec (W := list DemoLease) (Lease := DemoLease) id fst.
Proof.
  split.
  - intros key record options w. cbn. by destruct (expert key =? 9).
  - intros key record options w lease. cbn. destruct (expert key =? 9); [done|]. by intros [= <-].
  - intros lease w rest Hw. apply (Permutation_cons_inv (a := lease)). cbn. rewrite remove_one_elem; [done|].
    unfold id in Hw. rewrite Hw. constructor.
  - done.
Qed.

Definition demo_specs (experts : list Z) : list ResidentExpertSpec :=
  (fun e => mkSpec (mkExpertKey 1 0 e 2) default_record) <$> experts.

(** Two experts are loaded; with expert 9 nothing is. *)
Example demo_resident_loads :
  (match load (demo_specs [3; 4]) empty_set ([] : list DemoLease) with
   | Ok (r, w) => Some (r.1, bytes_ r.2, length w) | Throw _ => None end) = Some (success, 32, 2%nat) /\
  (match load (demo_specs [3; 9]) empty_set ([] : list DemoLease) with
   | Ok (r, w) => Some (code r.1, bytes_ r.2, length w) | Throw _ => None end) = Some (backpressure, 0, 0%nat).
Proof. split; vm_compute; reflexivity. Qed.

Lemma resident_load_all_or_nothing_witness :
  wp (load (demo_specs [3; 4]) empty_set) (fun r w' => r.1 = success -> length w' = 2%nat) ([] : list DemoLease).
Proof.
  eapply wp_mono; [apply (resident_load_all_or_nothing id fst)|].
  intros [st s] w' [(Hs & _ & _ & (Hk & _) & Hw)|(Hs & _)] Hr; [|cbn in Hr, Hs; by rewrite Hr in Hs].
  apply (f_equal length) in Hk. rewrite !length_fmap in Hk. unfold id in Hw. rewrite Hw, app_nil_r. exact Hk.
Defined.
