(* ===== verification/ProgramExecutor.v ===== *)
(** Model of [program_executor.cpp]: preparing the operations of a compiled program with
    their providers, the sessions in which the program is run, and the interpreter that runs
    it operation by operation. Providers are an interface over a world that they change; any
    of their calls may throw. Objects outlive an exception, so here an exception comes with
    the state in which it was thrown. *)

From S2P Require Import Prelude.
From S2P Require Import Storage.
From S2P Require Import Text.
From S2P Require Import ExpertCatalog.
From S2P Require Import ModelDescriptor.

From S2P Require Import ModelProgram.
From S2P Require Import ProviderRegistry.
From S2P Require Import TensorStore.

#[local] Open Scope bool_scope.
#[local] Open Scope Z_scope.

(** ** Code whose exceptions keep the state *)

Definition EST (S A : Type) : Type := S -> outcome A * S.

Definition eret {S A} (a : A) : EST S A := fun s => (Ok a, s).
Definition ethrow {S A} (e : exn) : EST S A := fun s => (Throw e, s).
Definition ebind {S A B} (m : EST S A) (k : A -> EST S B) : EST S B := fun s =>
  match m s with (Ok a, s) => k a s | (Throw e, s) => (Throw e, s) end.
Definition eget {S} : EST S S := fun s => (Ok s, s).
Definition emodify {S} (f : S -> S) : EST S unit := fun s => (Ok tt, f s).

Declare Scope est_scope.
Notation "'let^' p ':=' m 'in' k" := (ebind m (fun p => k))
  (at level 10, p pattern, m at level 100, k at level 200) : est_scope.
Notation "m ;^ k" := (ebind m (fun _ => k)) (at level 100, k at level 200, right associativity) : est_scope.
#[global] Open Scope est_scope.

(** A function that returns early: [inl] is what it returns. *)
Definition early {S R A B} (m : EST S (R + A)) (k : A -> EST S (R + B)) : EST S (R + B) :=
  let^ r := m in match r with inl r => eret (inl r) | inr a => k a end.
Notation "'let~' p ':=' m 'in' k" := (early m (fun p => k))
  (at level 10, p pattern, m at level 100, k at level 200) : est_scope.

Definition returned {S R} (m : EST S (R + R)) : EST S R :=
  let^ r := m in eret match r with inl r | inr r => r end.

Fixpoint each_state {S R A T} (f : T -> A -> EST S (R + A)) (l : list T) (a : A) : EST S (R + A) :=
  match l with
  | [] => eret (inr a)
  | t :: l => let~ a := f t a in each_state f l a
  end.

(** What a handler can catch. *)
Definition caught (e : exn) : bool :=
  match e with undefined_behavior _ | out_of_fuel => false | _ => true end.

(** [try { m } catch (const std::exception& error) { return handler(error); }] *)
Definition catching_with {S A} (m : EST S A) (handler : exn -> EST S A) : EST S A := fun s =>
  match m s with
  | (Ok a, s) => (Ok a, s)
  | (Throw e, s) => if caught e then handler e s else (Throw e, s)
  end.

Definition internal_error (message : string) : Status := mkStatus internal message.

(** ** Requests and results *)

Record ProgramRequestContext := mkContext {
  request_id : Z;
  deadline : Z;
  request_parameters : Parameters }.

Record OperationExecutionResult := mkExecuted { ex_status : Status; ex_outputs : list ExecutionValue }.

Record ProgramExecutionResult := mkProgramResult { pr_status : Status; pr_outputs : gmap (list Z) ExecutionValue }.

Record ExactDecodeExecutionResult := mkDecoded {
  xd_status : Status;
  emitted_tokens : list Z;
  xd_next_token : Z;
  positions_advanced : Z }.

Record RequestStateParkingResult := mkParking { pk_status : Status; populated_pages : Z; parked_size : Z }.

Record RequestStateSnapshotResult := mkSnapshot {
  sn_status : Status;
  sn_generation : Z;
  sn_pages : Z;
  logical_bytes : Z;
  written_bytes : Z }.

Record PreparedTensorBinding := mkPreparedTensor { pt_role : list Z; pt_tensor : ImmutableModelTensor }.

(** A handle of a provider: its state, and whether it has settled. A handle without a core
    is [None]. *)
Record Running (T : Type) := mkRunning { running : T; settled : bool }.
Arguments mkRunning {T} _ _.
Arguments running {T} _.
Arguments settled {T} _.
Notation ProviderHandle T := (option (Running T)).

Definition running_valid {T} (h : ProviderHandle T) : bool :=
  match h with Some c => negb (settled c) | None => false end.

(** What is asked of providers. [Operation] is a prepared operation, [PState] the state of a
    request, which may be null; [OpRun] and [ExactRun] are what a handle's callbacks share. *)
Class Providers (W Provider Operation PState OpRun ExactRun : Type) := {
  pv_now : W -> Z * W;
  pv_prepare : Provider -> OperationProgramDescriptor -> CompiledOperationProgram -> list PreparedTensorBinding ->
    W -> outcome (Status * option Operation) * W;
  pv_prepare_exact : Provider -> ExactDecodeProgramDescriptor -> CompiledExactDecodeProgram ->
    list PreparedTensorBinding -> W -> outcome (Status * option Operation) * W;
  pv_create_state : Provider -> ProgramRequestContext -> W -> outcome (Status * PState) * W;
  pv_execute : Provider -> Operation -> PState -> ProgramRequestContext -> CompiledOperationProgram ->
    list ExecutionValue -> W -> outcome (ProviderHandle OpRun) * W;
  pv_supports_sequence : Provider -> CompiledModelProgram -> bool;
  pv_execute_sequence : Provider -> PState -> ProgramRequestContext -> CompiledModelProgram -> list Operation ->
    list ExecutionValue -> W -> outcome (ProviderHandle OpRun) * W;
  pv_checkpoint : Provider -> PState -> Z -> W -> outcome Status * W;
  pv_rewind : Provider -> PState -> Z -> W -> outcome Status * W;
  pv_rebind : Provider -> PState -> ProgramRequestContext -> W -> outcome Status * W;
  pv_supports_parking : Provider -> bool;
  pv_park : Provider -> PState -> Z -> W -> outcome RequestStateParkingResult * W;
  pv_restore : Provider -> PState -> W -> outcome RequestStateParkingResult * W;
  pv_supports_persistence : Provider -> bool;
  pv_save : Provider -> PState -> list Z -> Z -> W -> outcome RequestStateSnapshotResult * W;
  pv_load : Provider -> PState -> list Z -> Z -> W -> outcome RequestStateSnapshotResult * W;
  pv_prune : Provider -> list Z -> Z -> W -> outcome Status * W;
  pv_synchronize : Provider -> Operation -> PState -> ProgramRequestContext -> list Z -> Z -> bool ->
    W -> outcome Status * W;
  pv_execute_exact : Provider -> Operation -> PState -> ProgramRequestContext -> Z -> Z -> Z ->
    W -> outcome (ProviderHandle ExactRun) * W;
  pv_poll : OpRun -> W -> outcome (option OperationExecutionResult) * OpRun * W;
  pv_cancel : OpRun -> W -> OpRun * W;
  pv_poll_exact : ExactRun -> W -> outcome (option ExactDecodeExecutionResult) * ExactRun * W;
  pv_cancel_exact : ExactRun -> W -> ExactRun * W }.

(** ** Handles

    Polling catches what the callback throws, cancels it and publishes the failure. *)
Section Handles.
Context {W T R : Type} (poll : T -> W -> outcome (option R) * T * W) (cancel : T -> W -> T * W) (failed : exn -> R).

Definition handle_poll (h : ProviderHandle T) (w : W) : option R * ProviderHandle T * W :=
  match h with
  | None => (None, None, w)
  | Some c =>
    if settled c then (None, h, w)
    else
      match poll (running c) w with
      | (Ok result, t, w) => (result, Some (mkRunning t (bool_decide (is_Some result))), w)
      | (Throw e, t, w) => let '(t, w) := cancel t w in (Some (failed e), Some (mkRunning t true), w)
      end
  end.

Definition handle_cancel (h : ProviderHandle T) (w : W) : ProviderHandle T * W :=
  match h with
  | None => (None, w)
  | Some c => if settled c then (h, w) else let '(t, w) := cancel (running c) w in (Some (mkRunning t true), w)
  end.
End Handles.

Section Executor.
Context {W Provider Operation PState OpRun ExactRun : Type} `{!EqDecision Provider}
  `{!Providers W Provider Operation PState OpRun ExactRun}.

Notation OperationExecutionHandle := (ProviderHandle OpRun).
Notation ExactDecodeHandle := (ProviderHandle ExactRun).

(** ** Prepared programs *)

Record PreparedInstruction := mkPrepared {
  pi_registry_index : Z;
  pi_provider : Provider;
  pi_operation : Operation;
  pi_tensors : list PreparedTensorBinding }.

Record PreparedExactDecode := mkPreparedExact {
  px_registry_index : Z;
  px_provider : Provider;
  px_operation : Operation;
  px_tensors : list PreparedTensorBinding;
  px_maximum_emitted_tokens : Z }.

Record PreparedSequence := mkSequence {
  sq_registry_index : Z;
  sq_provider : Provider;
  sq_operations : list Operation }.

(** [MoeProgramExecutor::Core]. *)
Record ExecutorCore := mkExecutor {
  xc_descriptor : ModelDescriptor;
  xc_provider : BoundExecutionProvider Provider;
  xc_prepared : list PreparedInstruction;
  xc_exact_decode : option PreparedExactDecode;
  xc_sequence : option PreparedSequence }.

Definition xc_program (c : ExecutorCore) : CompiledModelProgram := program (xc_provider c).

(** *** Preparation *)

(** Resolving a tensor; the store may be absent. *)
Definition ModelTensorStore : Type := option (list Z -> W -> outcome (Status * option ImmutableModelTensor) * W).

Definition call_world {A} (f : W -> outcome A * W) : EST W A := f.

Definition stop {S A} (status : Status) : EST S (Status + A) := eret (inl status).
Definition refuse {S A} (message : string) : EST S (Status + A) := stop (mkStatus invalid_arg message).
Definition proceed {S A} (a : A) : EST S (Status + A) := eret (inr a).

(** The map of providers by their registry indices. *)
Fixpoint index_providers (m : gmap Z Provider) (l : list (BoundExecutionProviderReference Provider))
  : checked (gmap Z Provider) :=
  match l with
  | [] => inr m
  | item :: l =>
    match br_implementation item, m !! br_registry_index item with
    | Some implementation, None => index_providers (<[br_registry_index item := implementation]> m) l
    | _, _ => invalid "executable provider plan is incomplete or duplicated"
    end
  end.

(** A tensor that the store may return. *)
Definition tensor_usable (name : list Z) (t : ImmutableModelTensor) : bool :=
  bool_decide (mt_name t = name) && negb (bool_decide (mt_encoding t = [])) && negb (bool_decide (mt_shape t = [])) &&
  value_valid (mt_value t).

Notation TensorCache := (gmap (list Z) ImmutableModelTensor).

(** What an error is called in the two loops that bind tensors. *)
Record BindMessages := mkMessages { no_store : string; bad_tensor : string }.

Definition operation_messages : BindMessages :=
  mkMessages "operation tensor has no artifact tensor store" "artifact tensor store returned an invalid tensor".
Definition exact_messages : BindMessages :=
  mkMessages "exact decode tensor has no artifact tensor store"
    "artifact tensor store returned an invalid exact decode tensor".

Definition bind_tensor (store : ModelTensorStore) (messages : BindMessages) (binding : list Z * list Z)
    (cache : TensorCache) : EST W (Status + (ImmutableModelTensor * TensorCache)) :=
  match cache !! binding.2 with
  | Some retained => proceed (retained, cache)
  | None =>
    match store with
    | None => refuse (no_store messages)
    | Some resolve =>
      let^ resolved := call_world (resolve binding.2) in
      if negb (status_ok resolved.1) then stop resolved.1
      else
        match resolved.2 with
        | Some tensor =>
          if tensor_usable binding.2 tensor then proceed (tensor, <[binding.2 := tensor]> cache)
          else refuse (bad_tensor messages)
        | None => refuse (bad_tensor messages)
        end
    end
  end.

(** The loop over the tensor bindings of an operation, in the order of their roles. *)
Fixpoint bind_tensors (store : ModelTensorStore) (messages : BindMessages) (l : list (list Z * list Z))
    (cache : TensorCache) : EST W (Status + (list PreparedTensorBinding * TensorCache)) :=
  match l with
  | [] => proceed ([], cache)
  | binding :: l =>
    let~ bound := bind_tensor store messages binding cache in
    let~ rest := bind_tensors store messages l bound.2 in
    proceed (mkPreparedTensor binding.1 bound.1 :: rest.1, rest.2)
  end.

(** [kernels[index]], after the check that it is inside. *)
Definition kernel_provider (program : CompiledModelProgram) (kernel_binding : Z) : option Z :=
  provider_registry_index <$> (if Z.of_nat (length (kernels program)) <=? kernel_binding then None
                               else kernels program !! Z.to_nat kernel_binding).

(** One operation, the [index]-th. *)
Definition prepare_operation (store : ModelTensorStore) (program : CompiledModelProgram) (providers : gmap Z Provider)
    (index : nat) (source : OperationProgramDescriptor) (compiled : CompiledOperationProgram) (cache : TensorCache)
  : EST W (Status + (PreparedInstruction * TensorCache)) :=
  if negb (op_logical_operation source =? Z.of_nat index) || negb (co_logical_operation compiled =? Z.of_nat index)
  then refuse "compiled operation order or kernel binding is invalid"
  else
    match kernel_provider program (co_kernel_binding compiled) with
    | None => refuse "compiled operation order or kernel binding is invalid"
    | Some registry_index =>
      match providers !! registry_index with
      | None => refuse "compiled operation references no callable provider"
      | Some provider =>
        let~ bound := bind_tensors store operation_messages (ordered bytes_ltb (op_tensor_bindings source)) cache in
        let^ result := call_world (pv_prepare provider source compiled bound.1) in
        if negb (status_ok result.1) then stop result.1
        else
          match result.2 with
          | None => refuse "callable provider returned no prepared operation"
          | Some operation => proceed (mkPrepared registry_index provider operation bound.1, bound.2)
          end
      end
    end.

Fixpoint prepare_operations (store : ModelTensorStore) (program : CompiledModelProgram) (providers : gmap Z Provider)
    (index : nat) (l : list (OperationProgramDescriptor * CompiledOperationProgram)) (cache : TensorCache)
  : EST W (Status + (list PreparedInstruction * TensorCache)) :=
  match l with
  | [] => proceed ([], cache)
  | (source, compiled) :: l =>
    let~ one := prepare_operation store program providers index source compiled cache in
    let~ rest := prepare_operations store program providers (S index) l one.2 in
    proceed (one.1 :: rest.1, rest.2)
  end.

Definition prepare_exact (store : ModelTensorStore) (program : CompiledModelProgram) (providers : gmap Z Provider)
    (source : ExactDecodeProgramDescriptor) (compiled : CompiledExactDecodeProgram) (cache : TensorCache)
  : EST W (Status + PreparedExactDecode) :=
  match kernel_provider program (cd_kernel_binding compiled) with
  | None => refuse "compiled exact decode binding is invalid"
  | Some registry_index =>
    if negb (cd_maximum_emitted_tokens compiled =? ed_maximum_emitted_tokens source)
    then refuse "compiled exact decode binding is invalid"
    else
      match providers !! registry_index with
      | None => refuse "exact decode binding references no callable provider"
      | Some provider =>
        let~ bound := bind_tensors store exact_messages (ordered bytes_ltb (ed_tensor_bindings source)) cache in
        let^ prepared := call_world (pv_prepare_exact provider source compiled bound.1) in
        if negb (status_ok prepared.1) then stop prepared.1
        else
          match prepared.2 with
          | None => refuse "callable provider returned no exact decode program"
          | Some operation =>
            proceed (mkPreparedExact registry_index provider operation bound.1 (cd_maximum_emitted_tokens compiled))
          end
      end
  end.

(** Programs that one provider runs by itself. *)
Definition prepare_sequence (program : CompiledModelProgram) (prepared : list PreparedInstruction)
  : option PreparedSequence :=
  match prepared with
  | [] => None
  | first :: _ =>
    if forallb (fun item => (pi_registry_index item =? pi_registry_index first) &&
                            bool_decide (pi_provider item = pi_provider first)) prepared &&
       pv_supports_sequence (pi_provider first) program
    then Some (mkSequence (pi_registry_index first) (pi_provider first) (pi_operation <$> prepared))
    else None
  end.

(** What must hold before anything is prepared. *)
Definition plan_matches (d : ModelDescriptor) (p : BoundExecutionProvider Provider) : bool :=
  (3 <=? schema_version d) && bool_decide (model_content_hash p = content_hash d) &&
  (model_schema_version p =? schema_version d) &&
  (length (operations (program p)) =? length (operation_program d))%nat &&
  negb (bool_decide (length (values (program p)) = 0%nat)) && negb (bool_decide (length (inputs (program p)) = 0%nat)) &&
  negb (bool_decide (length (outputs (program p)) = 0%nat)).

Definition prepare_program (d : ModelDescriptor) (p : BoundExecutionProvider Provider)
    (store : ModelTensorStore) : EST W (Status + ExecutorCore) :=
  let valid := validate_model_descriptor d in
  if negb (status_ok valid) then stop valid
  else if negb (plan_matches d p) then refuse "callable interpreter requires a matching schema v3 plan"
  else
    let~ providers := eret (index_providers ∅ (bound_providers p)) in
    let~ prepared :=
      prepare_operations store (program p) providers 0 (combine (operation_program d) (operations (program p))) ∅ in
    let~ exact :=
      match exact_decode_program d, exact_decode (program p) with
      | None, None => proceed None
      | Some source, Some compiled =>
        let~ exact := prepare_exact store (program p) providers source compiled prepared.2 in proceed (Some exact)
      | _, _ => refuse "compiled exact decode program does not match its artifact"
      end in
    proceed (mkExecutor d p prepared.1 exact (prepare_sequence (program p) prepared.1)).

(** [MoeProgramExecutor::create]; an executor that has not been created is [None]. *)
Definition create (d : ModelDescriptor) (p : BoundExecutionProvider Provider)
    (store : ModelTensorStore) (destination : option ExecutorCore) : EST W (Status * option ExecutorCore) :=
  match destination with
  | Some _ => eret (mkStatus invalid_arg "model program executor destination is already initialized", destination)
  | None =>
    catching_with
      (let^ r := prepare_program d p store in
       eret match r with inl status => (status, destination) | inr core => (success, Some core) end)
      (fun e => eret (internal_error ("model program preparation failed: " +:+ what e), destination))
  end.

(** ** Sessions

    The objects of one session: its state, and the steps that handles share with it. The
    session refers to a step without keeping it alive: a step that is gone is not found. *)

Record RequestStep := mkStep {
  st_values : list (option ExecutionValue);
  st_current_inputs : list ExecutionValue;
  st_inflight : OperationExecutionHandle;
  st_next_operation : nat;
  st_close_after_success : bool;
  st_direct_sequence : bool;
  st_terminal : bool;
  st_cancelled_result_pending : bool }.

Record ExactStep := mkExactStep {
  xs_inflight : ExactDecodeHandle;
  xs_guaranteed_token : Z;
  xs_position : Z;
  xs_context_limit : Z;
  xs_vocabulary_size : Z;
  xs_maximum_emitted_tokens : Z;
  xs_terminal : bool }.

Record SessionState := mkSession {
  ss_program : ExecutorCore;
  ss_request : ProgramRequestContext;
  provider_states : gmap Z PState;
  active_step : option nat;
  active_exact : option nat;
  active : bool;
  parked : bool;
  closed : bool;
  retention_transaction : bool;
  parked_position : Z;
  parked_pages : Z;
  parked_bytes : Z }.

Record Objects := mkObjects {
  session : SessionState;
  request_steps : gmap nat RequestStep;
  exact_steps : gmap nat ExactStep;
  next_object : nat;
  world : W }.

#[export] Instance eta_RequestStep : Eta RequestStep := fun s =>
  mkStep (st_values s) (st_current_inputs s) (st_inflight s) (st_next_operation s) (st_close_after_success s)
    (st_direct_sequence s) (st_terminal s) (st_cancelled_result_pending s).
#[export] Instance eta_ExactStep : Eta ExactStep := fun s =>
  mkExactStep (xs_inflight s) (xs_guaranteed_token s) (xs_position s) (xs_context_limit s) (xs_vocabulary_size s)
    (xs_maximum_emitted_tokens s) (xs_terminal s).
#[export] Instance eta_SessionState : Eta SessionState := fun s =>
  mkSession (ss_program s) (ss_request s) (provider_states s) (active_step s) (active_exact s) (active s) (parked s)
    (closed s) (retention_transaction s) (parked_position s) (parked_pages s) (parked_bytes s).
#[export] Instance eta_Objects : Eta Objects := fun o =>
  mkObjects (session o) (request_steps o) (exact_steps o) (next_object o) (world o).

Definition call {A} (f : W -> outcome A * W) : EST Objects A := fun o =>
  let '(r, w) := f (world o) in (r, o <| world := w |>).

(** A call that cannot throw. *)
Definition observe {A} (f : W -> A * W) : EST Objects A := fun o =>
  let '(a, w) := f (world o) in (Ok a, o <| world := w |>).

Definition on_session (f : SessionState -> SessionState) : EST Objects unit := emodify (fun o => o <| session %= f |>).
Definition on_step (id : nat) (f : RequestStep -> RequestStep) : EST Objects unit :=
  emodify (fun o => o <| request_steps %= alter f id |>).
Definition on_exact (id : nat) (f : ExactStep -> ExactStep) : EST Objects unit :=
  emodify (fun o => o <| exact_steps %= alter f id |>).

Definition get_session : EST Objects SessionState := fun o => (Ok (session o), o).

(** The object that a pointer points to. *)
Definition get_step (id : nat) : EST Objects RequestStep := fun o =>
  match request_steps o !! id with Some s => (Ok s, o) | None => (Throw (undefined_behavior "step is gone"), o) end.
Definition get_exact (id : nat) : EST Objects ExactStep := fun o =>
  match exact_steps o !! id with Some s => (Ok s, o) | None => (Throw (undefined_behavior "step is gone"), o) end.

(** [weak_ptr::lock]. *)
Definition lock_step (s : SessionState) (o : Objects) : option nat :=
  match active_step s with Some id => if bool_decide (is_Some (request_steps o !! id)) then Some id else None | None => None end.
Definition lock_exact (s : SessionState) (o : Objects) : option nat :=
  match active_exact s with Some id => if bool_decide (is_Some (exact_steps o !! id)) then Some id else None | None => None end.

(** *** The end of a step *)

Definition clear_if_closed (s : SessionState) : SessionState := if closed s then s <| provider_states := ∅ |> else s.

Definition close_unless (success : bool) (s : SessionState) : SessionState :=
  if negb success && negb (retention_transaction s) then s <| closed := true |> else s.

(** [finish(step, success)], [finish_exact(step, success)]. *)
Definition finish (id : nat) (success : bool) : EST Objects unit :=
  on_session (fun s =>
    clear_if_closed (close_unless success
      (if bool_decide (active_step s = Some id) then s <| active_step := None |> <| active := false |> else s))).

Definition finish_exact (id : nat) (success : bool) : EST Objects unit :=
  on_session (fun s =>
    clear_if_closed (close_unless success
      (if bool_decide (active_exact s = Some id) then s <| active_exact := None |> <| active := false |> else s))).

Definition close : EST Objects unit :=
  on_session (fun s => if active s then s <| closed := true |> else s <| closed := true |> <| provider_states := ∅ |>).

(** *** Handles of the providers *)

Definition poll_failed (e : exn) : OperationExecutionResult :=
  mkExecuted (internal_error ("operation provider poll failed: " +:+ what e)) [].
Definition exact_poll_failed (e : exn) : ExactDecodeExecutionResult :=
  mkDecoded (internal_error ("exact decode provider poll failed: " +:+ what e)) [] 0 0.

Definition poll_inflight (id : nat) : EST Objects (option OperationExecutionResult) :=
  let^ step := get_step id in
  let^ r := observe (fun w => let '(r, h, w) := handle_poll pv_poll pv_cancel poll_failed (st_inflight step) w in ((r, h), w)) in
  on_step id (fun s => s <| st_inflight := r.2 |>) ;^
  eret r.1.

(** [if (inflight.valid()) inflight.cancel(); inflight = OperationExecutionHandle{};] *)
Definition drop_inflight (id : nat) : EST Objects unit :=
  let^ step := get_step id in
  let^ h := observe (handle_cancel pv_cancel (st_inflight step)) in
  on_step id (fun s => s <| st_inflight := None |>).

(** *** A step of the interpreter *)

Definition fail (id : nat) (status : Status) : EST Objects (option ProgramExecutionResult) :=
  drop_inflight id ;^
  on_step id (fun s => s <| st_current_inputs := [] |> <| st_values := [] |> <| st_terminal := true |>) ;^
  finish id false ;^
  eret (Some (mkProgramResult status ∅)).

(** [values[index]], after the check that it is inside and there. *)
Definition value_at (values : list (option ExecutionValue)) (index : Z) : option ExecutionValue :=
  if Z.of_nat (length values) <=? index then None else mjoin (values !! Z.to_nat index).

Definition value_abi_of (program : CompiledModelProgram) (index : Z) : option (list Z) :=
  if Z.of_nat (length (values program)) <=? index then None else value_abi <$> values program !! Z.to_nat index.

(** The loop that stores the outputs of an operation; [None] is an invalid output. *)
Fixpoint store_outputs (program : CompiledModelProgram) (values : list (option ExecutionValue))
    (l : list (ExecutionValue * CompiledBinding)) : option (list (option ExecutionValue)) :=
  match l with
  | [] => Some values
  | (value, binding) :: l =>
    if (Z.of_nat (length values) <=? value_index binding) || bool_decide (is_Some (value_at values (value_index binding))) ||
       negb (value_valid value) || negb (bool_decide (value_abi_of program (value_index binding) = Some (ev_abi value)))
    then None
    else store_outputs program (<[Z.to_nat (value_index binding) := Some value]> values) l
  end.

(** The loop over the outputs of the program. *)
Fixpoint collect_outputs (values : list (option ExecutionValue)) (l : list CompiledBinding)
    (result : gmap (list Z) ExecutionValue) : option (gmap (list Z) ExecutionValue) :=
  match l with
  | [] => Some result
  | endpoint :: l =>
    match value_at values (value_index endpoint) with
    | None => None
    | Some value =>
      collect_outputs values l (match result !! port endpoint with Some _ => result | None => <[port endpoint := value]> result end)
    end
  end.

(** The inputs of an operation. *)
Fixpoint gather_inputs (values : list (option ExecutionValue)) (l : list CompiledBinding) : option (list ExecutionValue) :=
  match l with
  | [] => Some []
  | binding :: l =>
    match value_at values (value_index binding), gather_inputs values l with
    | Some value, Some rest => Some (value :: rest)
    | _, _ => None
    end
  end.

(** What an operation that has completed leaves; [Some] is a failure. *)
Definition take_completed (id : nat) (completed : OperationExecutionResult)
  : EST Objects (option ProgramExecutionResult + unit) :=
  on_step id (fun s => s <| st_inflight := None |>) ;^
  if negb (status_ok (ex_status completed)) then let^ r := fail id (ex_status completed) in eret (inl r)
  else
    let^ s := get_session in
    let^ step := get_step id in
    let program := xc_program (ss_program s) in
    match operations program !! st_next_operation step with
    | None => ethrow out_of_range
    | Some compiled =>
      if negb (length (ex_outputs completed) =? length (output_values compiled))%nat
      then let^ r := fail id (internal_error "operation provider returned a partial or extra output set") in eret (inl r)
      else
        match store_outputs program (st_values step) (combine (ex_outputs completed) (output_values compiled)) with
        | None => let^ r := fail id (internal_error "operation provider returned an invalid output value") in eret (inl r)
        | Some stored =>
          on_step id (fun s => s <| st_values := stored |> <| st_current_inputs := [] |> <| st_next_operation %= S |>) ;^
          eret (inr tt)
        end
    end.

(** The program has ended. *)
Definition publish (id : nat) : EST Objects (option ProgramExecutionResult) :=
  let^ s := get_session in
  let^ step := get_step id in
  match collect_outputs (st_values step) (outputs (xc_program (ss_program s))) ∅ with
  | None => fail id (internal_error "model program completed without an external output")
  | Some results =>
    on_step id (fun s => s <| st_current_inputs := [] |> <| st_values := [] |> <| st_terminal := true |>) ;^
    finish id true ;^
    (if st_close_after_success step then close else eret tt) ;^
    eret (Some (mkProgramResult success results))
  end.

(** The next operation is started. *)
Definition issue (id : nat) : EST Objects (option ProgramExecutionResult + unit) :=
  let^ s := get_session in
  let^ step := get_step id in
  let program := xc_program (ss_program s) in
  match xc_prepared (ss_program s) !! st_next_operation step, operations program !! st_next_operation step with
  | Some instruction, Some compiled =>
    match gather_inputs (st_values step) (input_values compiled) with
    | None => let^ r := fail id (internal_error "model program attempted to consume an unavailable value") in eret (inl r)
    | Some current =>
      on_step id (fun s => s <| st_current_inputs := current |>) ;^
      match provider_states s !! pi_registry_index instruction with
      | None => let^ r := fail id (internal_error "model program lacks provider request state") in eret (inl r)
      | Some state =>
        let^ handle := call (pv_execute (pi_provider instruction) (pi_operation instruction) state (ss_request s) compiled current) in
        on_step id (fun s => s <| st_inflight := handle |>) ;^
        if negb (running_valid handle)
        then let^ r := fail id (internal_error "operation provider rejected a bound invocation") in eret (inl r)
        else eret (inr tt)
      end
    end
  | _, _ => ethrow (undefined_behavior "operation outside of the program")
  end.

(** One round of the loop; [inr] goes around again. *)
Definition poll_round (id : nat) : EST Objects (option ProgramExecutionResult + unit) :=
  let^ now := observe pv_now in
  let^ s := get_session in
  if deadline (ss_request s) <? now
  then let^ r := fail id (mkStatus deadline_exceeded "model program execution deadline expired") in eret (inl r)
  else
    let^ step := get_step id in
    let~ _ :=
      (if running_valid (st_inflight step) then
         let^ completed := poll_inflight id in
         match completed with
         | None => eret (inl None)
         | Some completed => take_completed id completed
         end
       else eret (inr tt)) in
    let^ step := get_step id in
    if (st_next_operation step =? length (xc_prepared (ss_program s)))%nat
    then let^ r := publish id in eret (inl r)
    else issue id.

Fixpoint poll_loop (fuel : nat) (id : nat) : EST Objects (option ProgramExecutionResult) :=
  match fuel with
  | O => ethrow out_of_fuel
  | S fuel => let^ r := poll_round id in match r with inl r => eret r | inr tt => poll_loop fuel id end
  end.

(** Every round but the last starts an operation. *)
Definition poll_fuel (s : SessionState) : nat := length (xc_prepared (ss_program s)) + 2.

(** What a provider that ran the whole program returned. *)
Fixpoint sequence_outputs (program : CompiledModelProgram) (l : list (ExecutionValue * CompiledBinding))
    (result : gmap (list Z) ExecutionValue) : option (gmap (list Z) ExecutionValue) :=
  match l with
  | [] => Some result
  | (value, endpoint) :: l =>
    if negb (value_valid value) || negb (bool_decide (value_abi_of program (value_index endpoint) = Some (ev_abi value)))
    then None
    else sequence_outputs program l (match result !! port endpoint with Some _ => result | None => <[port endpoint := value]> result end)
  end.

Definition poll_sequence (id : nat) : EST Objects (option ProgramExecutionResult) :=
  let^ now := observe pv_now in
  let^ s := get_session in
  if deadline (ss_request s) <? now
  then fail id (mkStatus deadline_exceeded "model program-sequence deadline expired")
  else
    let^ completed := poll_inflight id in
    match completed with
    | None => eret None
    | Some completed =>
      on_step id (fun s => s <| st_inflight := None |>) ;^
      let program := xc_program (ss_program s) in
      if negb (status_ok (ex_status completed)) then fail id (ex_status completed)
      else if negb (length (ex_outputs completed) =? length (outputs program))%nat
      then fail id (internal_error "program-sequence provider returned a partial or extra output set")
      else
        match sequence_outputs program (combine (ex_outputs completed) (outputs program)) ∅ with
        | None => fail id (internal_error "program-sequence provider returned an invalid output value")
        | Some results =>
          on_step id (fun s => s <| st_current_inputs := [] |> <| st_terminal := true |>) ;^
          finish id true ;^
          eret (Some (mkProgramResult success results))
        end
    end.

(** [RequestState::poll]. *)
Definition step_poll (id : nat) : EST Objects (option ProgramExecutionResult) :=
  let^ step := get_step id in
  if st_cancelled_result_pending step then
    on_step id (fun s => s <| st_cancelled_result_pending := false |>) ;^
    eret (Some (mkProgramResult (mkStatus cancelled "model execution session was cancelled") ∅))
  else if st_terminal step then eret None
  else if st_direct_sequence step then poll_sequence id
  else let^ s := get_session in poll_loop (poll_fuel s) id.

(** [RequestState::cancel]. *)
Definition step_cancel (id : nat) (publish_result : bool) : EST Objects unit :=
  let^ step := get_step id in
  if st_terminal step then eret tt
  else
    drop_inflight id ;^
    on_step id (fun s => s <| st_current_inputs := [] |> <| st_values := [] |> <| st_terminal := true |>
                          <| st_cancelled_result_pending := publish_result |>) ;^
    finish id false.

(** *** Handles of a step

    A program handle is the step it shares with its session, and whether it has settled. *)
Record ProgramHandle := mkProgramHandle { ph_step : nat; ph_terminal : bool }.

Definition program_poll (h : option ProgramHandle) : EST Objects (option ProgramExecutionResult * option ProgramHandle) :=
  match h with
  | None => eret (None, None)
  | Some h =>
    if ph_terminal h then eret (None, Some h)
    else
      catching_with
        (let^ r := step_poll (ph_step h) in
         eret (r, Some (mkProgramHandle (ph_step h) (bool_decide (is_Some r)))))
        (fun e =>
         catching_with (step_cancel (ph_step h) false) (fun _ => eret tt) ;^
         eret (Some (mkProgramResult (internal_error ("program execution poll failed: " +:+ what e)) ∅),
               Some (mkProgramHandle (ph_step h) true)))
  end.

Definition program_cancel (h : option ProgramHandle) : EST Objects (option ProgramHandle) :=
  match h with
  | None => eret None
  | Some h =>
    if ph_terminal h then eret (Some h)
    else
      catching_with (step_cancel (ph_step h) false) (fun _ => eret tt) ;^
      eret (Some (mkProgramHandle (ph_step h) true))
  end.

(** A handle that is destroyed cancels, and its step goes with it. *)
Definition program_destroy (h : option ProgramHandle) : EST Objects unit :=
  let^ _ := program_cancel h in
  match h with
  | None => eret tt
  | Some h => emodify (fun o => o <| request_steps %= delete (ph_step h) |>)
  end.

(** *** Starting a step *)

(** The loop over the inputs of the program; [None] is a bad input. *)
Fixpoint place_inputs (program : CompiledModelProgram) (inputs : gmap (list Z) ExecutionValue)
    (values : list (option ExecutionValue)) (l : list CompiledBinding) : option (list (option ExecutionValue)) :=
  match l with
  | [] => Some values
  | endpoint :: l =>
    match inputs !! port endpoint with
    | None => None
    | Some input =>
      if negb (value_valid input) || (Z.of_nat (length values) <=? value_index endpoint) ||
         negb (bool_decide (value_abi_of program (value_index endpoint) = Some (ev_abi input)))
      then None
      else place_inputs program inputs (<[Z.to_nat (value_index endpoint) := Some input]> values) l
    end
  end.

(** A new object; it is the session's active step. *)
Definition begin_step (step : RequestStep) : EST Objects nat := fun o =>
  (Ok (next_object o),
   o <| request_steps %= insert (next_object o) step |> <| next_object %= S |>
     <| session %= fun s => s <| active := true |> <| active_step := Some (next_object o) |> |>).

Definition session_closed : Status := mkStatus cancelled "model execution session is closed".
Definition step_active : Status := mkStatus backpressure "model execution session already has an active step".

Definition StartResult : Type := Status * option ProgramHandle.

(** [SessionState::start]. *)
Definition start (ins : gmap (list Z) ExecutionValue) (close_after : bool) : EST Objects StartResult :=
  let^ s := get_session in
  let program := xc_program (ss_program s) in
  if negb (size ins =? length (inputs program))%nat
  then eret (mkStatus invalid_arg "model execution input role set is incomplete", None)
  else
    match place_inputs program ins (replicate (length (values program)) None) (inputs program) with
    | None => eret (mkStatus invalid_arg "model execution input is absent, invalid, or ABI-mismatched", None)
    | Some placed =>
      if closed s then eret (session_closed, None)
      else if active s then eret (step_active, None)
      else
        let^ id := begin_step (mkStep placed [] None 0 close_after false false false) in
        eret (success, Some (mkProgramHandle id false))
    end.

(** The inputs of a whole program. *)
Fixpoint sequence_inputs (program : CompiledModelProgram) (inputs : gmap (list Z) ExecutionValue)
    (l : list CompiledBinding) : option (list ExecutionValue) :=
  match l with
  | [] => Some []
  | endpoint :: l =>
    match inputs !! port endpoint with
    | None => None
    | Some input =>
      if negb (value_valid input) ||
         negb (bool_decide (value_abi_of program (value_index endpoint) = Some (ev_abi input)))
      then None
      else match sequence_inputs program inputs l with Some rest => Some (input :: rest) | None => None end
    end
  end.

Definition sequence_available (s : SessionState) : bool := bool_decide (is_Some (xc_sequence (ss_program s))).

(** A call that leaves the function by an exception destroys the step that only it holds. *)
Definition or_forget {A} (id : nat) (m : EST Objects A) : EST Objects A :=
  catching_with m (fun e => emodify (fun o => o <| request_steps %= delete id |>) ;^ ethrow e).

(** [SessionState::start_sequence]. *)
Definition start_sequence (ins : gmap (list Z) ExecutionValue) : EST Objects StartResult :=
  let^ s := get_session in
  let program := xc_program (ss_program s) in
  match xc_sequence (ss_program s) with
  | None => eret (mkStatus invalid_arg "model program-sequence input role set is incomplete", None)
  | Some sequence =>
    if negb (size ins =? length (inputs program))%nat
    then eret (mkStatus invalid_arg "model program-sequence input role set is incomplete", None)
    else
      match sequence_inputs program ins (inputs program) with
      | None => eret (mkStatus invalid_arg "model program-sequence input is absent, invalid, or ABI-mismatched", None)
      | Some current =>
        if closed s then eret (session_closed, None)
        else if active s then eret (step_active, None)
        else
          match provider_states s !! sq_registry_index sequence with
          | None => eret (internal_error "program-sequence provider request state is absent", None)
          | Some state =>
            let^ id := begin_step (mkStep [] current None 0 false true false false) in
            let^ handle := or_forget id
              (call (pv_execute_sequence (sq_provider sequence) state (ss_request s) program (sq_operations sequence) current)) in
            on_step id (fun s => s <| st_inflight := handle |>) ;^
            if negb (running_valid handle) then
              step_cancel id false ;^
              emodify (fun o => o <| request_steps %= delete id |>) ;^
              eret (internal_error "operation provider rejected a program-sequence invocation", None)
            else eret (success, Some (mkProgramHandle id false))
          end
      end
  end.

(** ** Exact decoding *)

Record ExactHandle := mkExactHandle { xh_step : nat; xh_terminal : bool }.

Definition poll_exact_inflight (id : nat) : EST Objects (option ExactDecodeExecutionResult) :=
  let^ step := get_exact id in
  let^ r := observe (fun w =>
    let '(r, h, w) := handle_poll pv_poll_exact pv_cancel_exact exact_poll_failed (xs_inflight step) w in ((r, h), w)) in
  on_exact id (fun s => s <| xs_inflight := r.2 |>) ;^
  eret r.1.

(** What the provider decoded breaks its contract. *)
Definition decode_violates (step : ExactStep) (r : ExactDecodeExecutionResult) : bool :=
  let count := Z.of_nat (length (emitted_tokens r)) in
  (count =? 0) || (xs_maximum_emitted_tokens step <? count) ||
  negb (bool_decide (head (emitted_tokens r) = Some (xs_guaranteed_token step))) ||
  negb (positions_advanced r =? count) || (xs_vocabulary_size step <=? xd_next_token r) ||
  existsb (fun token => xs_vocabulary_size step <=? token) (emitted_tokens r) ||
  (xs_context_limit step <? xs_position step) || (xs_context_limit step - xs_position step <? count).

Definition end_exact (id : nat) (success : bool) : EST Objects unit :=
  on_exact id (fun s => s <| xs_terminal := true |>) ;^ finish_exact id success.

(** [ExactDecodeState::poll]. *)
Definition exact_poll (id : nat) : EST Objects (option ExactDecodeExecutionResult) :=
  let^ step := get_exact id in
  if xs_terminal step then eret None
  else
    let^ completed := poll_exact_inflight id in
    match completed with
    | None => eret None
    | Some completed =>
      on_exact id (fun s => s <| xs_inflight := None |>) ;^
      if negb (status_ok (xd_status completed)) then end_exact id false ;^ eret (Some completed)
      else if decode_violates step completed then
        end_exact id false ;^
        eret (Some (mkDecoded (internal_error "exact decode provider violated its artifact contract") [] 0 0))
      else end_exact id true ;^ eret (Some completed)
    end.

(** [ExactDecodeState::cancel]. *)
Definition exact_cancel (id : nat) : EST Objects unit :=
  let^ step := get_exact id in
  if xs_terminal step then eret tt
  else
    let^ h := observe (handle_cancel pv_cancel_exact (xs_inflight step)) in
    on_exact id (fun s => s <| xs_inflight := None |>) ;^
    end_exact id false.

Definition exact_handle_poll (h : option ExactHandle) : EST Objects (option ExactDecodeExecutionResult * option ExactHandle) :=
  match h with
  | None => eret (None, None)
  | Some h =>
    if xh_terminal h then eret (None, Some h)
    else
      catching_with
        (let^ r := exact_poll (xh_step h) in
         eret (r, Some (mkExactHandle (xh_step h) (bool_decide (is_Some r)))))
        (fun e =>
         catching_with (exact_cancel (xh_step h)) (fun _ => eret tt) ;^
         eret (Some (exact_poll_failed e), Some (mkExactHandle (xh_step h) true)))
  end.

Definition exact_handle_cancel (h : option ExactHandle) : EST Objects (option ExactHandle) :=
  match h with
  | None => eret None
  | Some h =>
    if xh_terminal h then eret (Some h)
    else
      catching_with (exact_cancel (xh_step h)) (fun _ => eret tt) ;^
      eret (Some (mkExactHandle (xh_step h) true))
  end.

Definition exact_destroy (h : option ExactHandle) : EST Objects unit :=
  let^ _ := exact_handle_cancel h in
  match h with
  | None => eret tt
  | Some h => emodify (fun o => o <| exact_steps %= delete (xh_step h) |>)
  end.

Definition exact_available (s : SessionState) : bool := bool_decide (is_Some (xc_exact_decode (ss_program s))).

(** An exception that leaves a function that promises to throw none. *)
Definition noexcept {A} (m : EST Objects A) : EST Objects A :=
  catching_with m (fun _ => ethrow (undefined_behavior "std::terminate")).

(** A draft is made only if the next invocation can verify it. *)
Definition effective_draft (request : ProgramRequestContext) (first count : Z) (draft : bool) : bool :=
  match request_parameters request !! bytes "reserved_context_tokens" with
  | Some limit => draft && (add64 (add64 first count) 1 <? limit)
  | None => draft
  end.

Definition synchronization_invalid (s : SessionState) (next_tokens : list Z) (first_target_position : Z) : bool :=
  let count := Z.of_nat (length next_tokens) in
  (count =? 0) || (U32_MAX <? count) || (U32_MAX - wrap32 (count - 1) <? first_target_position) ||
  existsb (fun token => vocab_size (xc_descriptor (ss_program s)) <=? token) next_tokens.

(** [SessionState::synchronize_exact]. *)
Definition synchronize_exact (next_tokens : list Z) (first_target_position : Z) (produce_final_draft : bool)
  : EST Objects Status :=
  let^ s := get_session in
  match xc_exact_decode (ss_program s) with
  | None => eret (mkStatus invalid_arg "exact decode synchronization is unavailable or invalid")
  | Some exact =>
    if synchronization_invalid s next_tokens first_target_position
    then eret (mkStatus invalid_arg "exact decode synchronization is unavailable or invalid")
    else if closed s then eret session_closed
    else if active s then eret step_active
    else
      match provider_states s !! px_registry_index exact with
      | None => eret (internal_error "exact decode provider request state is absent")
      | Some state =>
        on_session (fun s => s <| active := true |>) ;^
        let draft := effective_draft (ss_request s) first_target_position (Z.of_nat (length next_tokens)) produce_final_draft in
        let^ status := noexcept
          (call (pv_synchronize (px_provider exact) (px_operation exact) state (ss_request s) next_tokens first_target_position draft)) in
        on_session (fun s =>
          let s := s <| active := false |> in
          if negb (status_ok status) then s <| closed := true |> <| provider_states := ∅ |> else s) ;^
        eret status
      end
  end.

Definition begin_exact (step : ExactStep) : EST Objects nat := fun o =>
  (Ok (next_object o),
   o <| exact_steps %= insert (next_object o) step |> <| next_object %= S |>
     <| session %= fun s => s <| active := true |> <| active_exact := Some (next_object o) |> |>).

Definition forget_exact {A} (id : nat) (m : EST Objects A) : EST Objects A :=
  catching_with m (fun e => emodify (fun o => o <| exact_steps %= delete id |>) ;^ ethrow e).

(** [SessionState::start_exact]. *)
Definition start_exact (guaranteed_token position context_limit : Z) : EST Objects (Status * option ExactHandle) :=
  let^ s := get_session in
  let d := xc_descriptor (ss_program s) in
  match xc_exact_decode (ss_program s) with
  | None => eret (mkStatus invalid_arg "exact decode invocation is unavailable or invalid", None)
  | Some exact =>
    if (vocab_size d <=? guaranteed_token) || (context_limit <=? position) || (max_context_tokens d <? context_limit)
    then eret (mkStatus invalid_arg "exact decode invocation is unavailable or invalid", None)
    else if closed s then eret (session_closed, None)
    else if active s then eret (step_active, None)
    else
      match provider_states s !! px_registry_index exact with
      | None => eret (internal_error "exact decode provider request state is absent", None)
      | Some state =>
        let^ id := begin_exact (mkExactStep None guaranteed_token position context_limit (vocab_size d)
                                  (px_maximum_emitted_tokens exact) false) in
        let^ handle := forget_exact id
          (call (pv_execute_exact (px_provider exact) (px_operation exact) state (ss_request s) guaranteed_token position context_limit)) in
        on_exact id (fun s => s <| xs_inflight := handle |>) ;^
        if negb (running_valid handle) then
          end_exact id false ;^
          emodify (fun o => o <| exact_steps %= delete id |>) ;^
          eret (internal_error "exact decode provider rejected its invocation", None)
        else eret (success, Some (mkExactHandle id false))
      end
  end.

(** ** Retention

    The provider of a request state: that of the first operation with its index, or that of
    exact decoding. *)
Definition provider_for (c : ExecutorCore) (registry_index : Z) : option Provider :=
  match list_find (fun item => pi_registry_index item = registry_index) (xc_prepared c) with
  | Some (_, item) => Some (pi_provider item)
  | None =>
    match xc_exact_decode c with
    | Some exact => if px_registry_index exact =? registry_index then Some (px_provider exact) else None
    | None => None
    end
  end.

(** The loop over the states of the providers, in the order of their indices. *)
Definition states_of (s : SessionState) : list (Z * PState) := ordered Z.ltb (provider_states s).

(** A session in which nothing runs; [R] is what the functions return. *)
Definition when_idle {R} (refused : Status -> R) (k : SessionState -> EST Objects R) : EST Objects R :=
  let^ s := get_session in
  if closed s then eret (refused session_closed)
  else if active s then eret (refused step_active)
  else k s.

Definition failing {R} (refused : Status -> R) (prefix : string) (m : EST Objects R) : EST Objects R :=
  catching_with m (fun e => eret (refused (internal_error (prefix +:+ what e)))).

(** One state of [checkpoint_retention] and [rewind_retention]. *)
Definition control_state (f : Provider -> PState -> Z -> W -> outcome Status * W) (absent : string) (next_position : Z)
    (c : ExecutorCore) (item : Z * PState) (_ : unit) : EST Objects (Status + unit) :=
  match provider_for c item.1 with
  | None => eret (inl (internal_error absent))
  | Some provider =>
    let^ status := call (f provider item.2 next_position) in
    eret (if status_ok status then inr tt else inl status)
  end.

Definition checkpoint_retention (next_position : Z) : EST Objects Status :=
  failing id "retention checkpoint failed: " (when_idle id (fun s =>
    returned
      (let~ _ := each_state (control_state pv_checkpoint "retention checkpoint provider is absent" next_position (ss_program s))
                   (states_of s) tt in
       eret (inr success)))).

Definition rewind_retention (next_position : Z) : EST Objects Status :=
  failing id "retention rewind failed: " (when_idle id (fun s =>
    returned
      (let~ _ := each_state (control_state pv_rewind "retention rewind provider is absent" next_position (ss_program s))
                   (states_of s) tt in
       eret (inr success)))).

Definition parking_refused (status : Status) : RequestStateParkingResult := mkParking status 0 0.

(** [restore_request_state] of what has been parked, the last one first. *)
Fixpoint unpark (completed : list (Provider * PState)) : EST Objects unit :=
  match completed with
  | [] => eret tt
  | (provider, state) :: completed => let^ _ := call (pv_restore provider state) in unpark completed
  end.

(** The totals, and what has been parked, the last one first. *)
Record ParkProgress := mkParkProgress { pp_pages : Z; pp_bytes : Z; pp_completed : list (Provider * PState) }.

Definition park_state (next_position : Z) (c : ExecutorCore) (item : Z * PState) (p : ParkProgress)
  : EST Objects (RequestStateParkingResult + ParkProgress) :=
  let unsupported :=
    unpark (pp_completed p) ;^
    eret (inl (parking_refused (mkStatus invalid_arg "request-state parking is not supported by every provider"))) in
  match provider_for c item.1 with
  | None => unsupported
  | Some provider =>
    if negb (pv_supports_parking provider) then unsupported
    else
      let^ result := call (pv_park provider item.2 next_position) in
      if negb (status_ok (pk_status result)) then unpark (pp_completed p) ;^ eret (inl result)
      else if (U64_MAX - populated_pages result <? pp_pages p) || (U64_MAX - parked_size result <? pp_bytes p) then
        unpark ((provider, item.2) :: pp_completed p) ;^
        eret (inl (parking_refused (internal_error "request-state parking accounting overflowed")))
      else
        eret (inr (mkParkProgress (add64 (pp_pages p) (populated_pages result)) (add64 (pp_bytes p) (parked_size result))
                     ((provider, item.2) :: pp_completed p)))
  end.

Definition park_retention (next_position : Z) : EST Objects RequestStateParkingResult :=
  failing parking_refused "request-state parking failed: " (when_idle parking_refused (fun s =>
    if parked s then eret (parking_refused (mkStatus invalid_arg "model execution session is already parked"))
    else
      returned
        (let~ p := each_state (park_state next_position (ss_program s)) (states_of s) (mkParkProgress 0 0 []) in
         on_session (fun s => s <| parked := true |> <| parked_position := next_position |> <| parked_pages := pp_pages p |>
                                <| parked_bytes := pp_bytes p |>) ;^
         eret (inr (mkParking success (pp_pages p) (pp_bytes p)))))).

(** [park_request_state] of what has been restored, the last one first. *)
Fixpoint repark (position : Z) (restored : list (Provider * PState)) : EST Objects unit :=
  match restored with
  | [] => eret tt
  | (provider, state) :: restored => let^ _ := call (pv_park provider state position) in repark position restored
  end.

Definition restore_state (position : Z) (c : ExecutorCore) (item : Z * PState) (restored : list (Provider * PState))
  : EST Objects (RequestStateParkingResult + list (Provider * PState)) :=
  match provider_for c item.1 with
  | None => eret (inl (parking_refused (internal_error "request-state restore provider is absent")))
  | Some provider =>
    let^ result := call (pv_restore provider item.2) in
    if negb (status_ok (pk_status result)) then repark position restored ;^ eret (inl result)
    else eret (inr ((provider, item.2) :: restored))
  end.

Definition restore_retention : EST Objects RequestStateParkingResult :=
  failing parking_refused "request-state restore failed: " (when_idle parking_refused (fun s =>
    if negb (parked s) then eret (parking_refused (mkStatus invalid_arg "model execution session is not parked"))
    else
      returned
        (let~ _ := each_state (restore_state (parked_position s) (ss_program s)) (states_of s) [] in
         on_session (fun s => s <| parked := false |> <| parked_position := 0 |> <| parked_pages := 0 |> <| parked_bytes := 0 |>) ;^
         eret (inr (mkParking success (parked_pages s) (parked_bytes s)))))).

(** *** Snapshots *)

Definition snapshot_refused (status : Status) : RequestStateSnapshotResult := mkSnapshot status 0 0 0 0.

Definition provider_directory (root : list Z) (registry_index : Z) : list Z :=
  ExpertCatalog.join_path root (bytes "provider-" ++ to_string registry_index).

Definition persistence_unsupported : Status :=
  mkStatus invalid_arg "request-state persistence is not supported by every provider".

(** The totals of pages, logical and written bytes. *)
Record SnapshotTotals := mkTotals { tt_pages : Z; tt_logical : Z; tt_written : Z }.

Definition save_state (root : list Z) (generation : Z) (c : ExecutorCore) (item : Z * PState) (t : SnapshotTotals)
  : EST Objects (RequestStateSnapshotResult + SnapshotTotals) :=
  match provider_for c item.1 with
  | None => eret (inl (snapshot_refused persistence_unsupported))
  | Some provider =>
    if negb (pv_supports_persistence provider) then eret (inl (snapshot_refused persistence_unsupported))
    else
      let^ result := call (pv_save provider item.2 (provider_directory root item.1) generation) in
      if negb (status_ok (sn_status result)) then eret (inl result)
      else if (U64_MAX - sn_pages result <? tt_pages t) || (U64_MAX - logical_bytes result <? tt_logical t) ||
              (U64_MAX - written_bytes result <? tt_written t)
      then eret (inl (snapshot_refused (internal_error "request-state snapshot accounting overflowed")))
      else eret (inr (mkTotals (add64 (tt_pages t) (sn_pages result)) (add64 (tt_logical t) (logical_bytes result))
                        (add64 (tt_written t) (written_bytes result))))
  end.

Definition save_snapshot (root : list Z) (generation : Z) : EST Objects RequestStateSnapshotResult :=
  failing snapshot_refused "request-state snapshot save failed: " (when_idle snapshot_refused (fun s =>
    if negb (parked s) || (generation =? 0) || bool_decide (root = [])
    then eret (snapshot_refused (mkStatus invalid_arg "only parked request state can be persisted"))
    else
      returned
        (let~ t := each_state (save_state root generation (ss_program s)) (states_of s) (mkTotals 0 0 0) in
         eret (inr (mkSnapshot success generation (tt_pages t) (tt_logical t) (tt_written t)))))).

Definition load_state (root : list Z) (generation : Z) (c : ExecutorCore) (item : Z * PState) (t : SnapshotTotals)
  : EST Objects (RequestStateSnapshotResult + SnapshotTotals) :=
  match provider_for c item.1 with
  | None => eret (inl (snapshot_refused persistence_unsupported))
  | Some provider =>
    if negb (pv_supports_persistence provider) then eret (inl (snapshot_refused persistence_unsupported))
    else
      let^ result := call (pv_load provider item.2 (provider_directory root item.1) generation) in
      if negb (status_ok (sn_status result)) then eret (inl result)
      else if (U64_MAX - sn_pages result <? tt_pages t) || (U64_MAX - logical_bytes result <? tt_logical t)
      then eret (inl (snapshot_refused (internal_error "request-state snapshot accounting overflowed")))
      else eret (inr (mkTotals (add64 (tt_pages t) (sn_pages result)) (add64 (tt_logical t) (logical_bytes result)) 0))
  end.

Definition load_snapshot (root : list Z) (generation next_position : Z) : EST Objects RequestStateSnapshotResult :=
  failing snapshot_refused "request-state snapshot load failed: "
    (let^ s := get_session in
     if closed s || active s || parked s || (generation =? 0) || bool_decide (root = []) || (next_position =? 0)
     then eret (snapshot_refused (mkStatus invalid_arg "request-state snapshot load target is invalid"))
     else
       returned
         (let~ t := each_state (load_state root generation (ss_program s)) (states_of s) (mkTotals 0 0 0) in
          on_session (fun s => s <| parked := true |> <| parked_position := next_position |> <| parked_pages := tt_pages t |>
                                 <| parked_bytes := tt_logical t |>) ;^
          eret (inr (mkSnapshot success generation (tt_pages t) (tt_logical t) 0)))).

Definition prune_state (root : list Z) (generation : Z) (c : ExecutorCore) (item : Z * PState) (_ : unit)
  : EST Objects (Status + unit) :=
  match provider_for c item.1 with
  | None => eret (inl persistence_unsupported)
  | Some provider =>
    if negb (pv_supports_persistence provider) then eret (inl persistence_unsupported)
    else
      let^ status := call (pv_prune provider (provider_directory root item.1) generation) in
      eret (if status_ok status then inr tt else inl status)
  end.

Definition prune_snapshots (root : list Z) (generation : Z) : EST Objects Status :=
  failing id "request-state snapshot prune failed: "
    (let^ s := get_session in
     if closed s || active s || (generation =? 0) || bool_decide (root = [])
     then eret (mkStatus invalid_arg "request-state snapshot prune target is invalid")
     else
       returned
         (let~ _ := each_state (prune_state root generation (ss_program s)) (states_of s) tt in eret (inr success))).

(** *** Requests and transactions *)

(** [try_emplace] of the old parameters: the replacement's own come first. *)
Definition merge_parameters (replacement : ProgramRequestContext) (old : Parameters) : ProgramRequestContext :=
  mkContext (request_id replacement) (deadline replacement) (request_parameters replacement ∪ old).

Definition rebind_state (replacement : ProgramRequestContext) (c : ExecutorCore) (item : Z * PState) (_ : unit)
  : EST Objects (Status + unit) :=
  match provider_for c item.1 with
  | None => eret (inl (internal_error "request rebind provider is absent"))
  | Some provider =>
    let^ status := noexcept (call (pv_rebind provider item.2 replacement)) in
    eret (if status_ok status then inr tt else inl status)
  end.

Definition rebind (replacement : ProgramRequestContext) : EST Objects Status :=
  let^ now := observe pv_now in
  if (request_id replacement =? 0) || (deadline replacement <? now)
  then eret (mkStatus invalid_arg "replacement request context is invalid")
  else
    let^ s := get_session in
    if closed s then eret session_closed
    else if active s then eret (mkStatus backpressure "model execution session has an active step")
    else
      let replacement := merge_parameters replacement (request_parameters (ss_request s)) in
      returned
        (let~ _ := each_state (rebind_state replacement (ss_program s)) (states_of s) tt in
         on_session (fun s => s <| ss_request := replacement |>) ;^
         eret (inr success)).

Definition begin_transaction : EST Objects Status :=
  let^ s := get_session in
  if closed s then eret session_closed
  else if active s || parked s || retention_transaction s
  then eret (mkStatus backpressure "model execution session cannot start a retention transaction")
  else on_session (fun s => s <| retention_transaction := true |>) ;^ eret success.

Definition end_transaction : EST Objects Status :=
  let^ s := get_session in
  if closed s then eret session_closed
  else if active s || negb (retention_transaction s)
  then eret (mkStatus backpressure "model execution session cannot end a retention transaction")
  else on_session (fun s => s <| retention_transaction := false |>) ;^ eret success.

(** [SessionState::cancel]. *)
Definition session_cancel : EST Objects unit :=
  let^ o := eget in
  let s := session o in
  if closed s && negb (active s) then eret tt
  else
    on_session (fun s => s <| closed := true |>) ;^
    match lock_step s o, lock_exact s o with
    | None, None => on_session (fun s => s <| active := false |> <| provider_states := ∅ |>)
    | step, exact =>
      match step with Some id => step_cancel id true | None => eret tt end ;^
      match exact with Some id => exact_cancel id | None => eret tt end
    end.

(** ** Beginning a session *)

(** The states of the providers of the prepared operations, each once. *)
Fixpoint create_states (request : ProgramRequestContext) (l : list (Z * Provider)) (states : gmap Z PState)
  : EST W (Status + gmap Z PState) :=
  match l with
  | [] => proceed states
  | (registry_index, provider) :: l =>
    match states !! registry_index with
    | Some _ => create_states request l states
    | None =>
      let^ created := call_world (pv_create_state provider request) in
      if negb (status_ok created.1) then stop created.1
      else create_states request l (<[registry_index := created.2]> states)
    end
  end.

(** Who takes part in a request: the operations in order, then exact decoding. *)
Definition participants (c : ExecutorCore) : list (Z * Provider) :=
  ((fun item => (pi_registry_index item, pi_provider item)) <$> xc_prepared c) ++
  match xc_exact_decode c with Some exact => [(px_registry_index exact, px_provider exact)] | None => [] end.

Definition new_session (c : ExecutorCore) (request : ProgramRequestContext) (states : gmap Z PState) : SessionState :=
  mkSession c request states None None false false false false 0 0 0.

(** [Core::begin]. *)
Definition begin (c : option ExecutorCore) (request : ProgramRequestContext) : EST W (Status + SessionState) :=
  catching_with
    (match c with
     | None => refuse "model execution request or executor is invalid"
     | Some c =>
       if request_id request =? 0 then refuse "model execution request or executor is invalid"
       else
         let^ now := (fun w => let '(t, w) := pv_now w in (Ok t, w)) in
         if deadline request <? now
         then stop (mkStatus deadline_exceeded "model execution request deadline already expired")
         else
           let~ states := create_states request (participants c) ∅ in
           proceed (new_session c request states)
     end)
    (fun e => stop (internal_error ("model execution session start failed: " +:+ what e))).

Definition objects_of (s : SessionState) (w : W) : Objects := mkObjects s ∅ ∅ 0 w.

(** [MoeProgramExecutor::execute]: a session of one step; the handle keeps it alive. *)
Definition execute (c : option ExecutorCore) (request : ProgramRequestContext) (ins : gmap (list Z) ExecutionValue)
  : W -> outcome StartResult * (option Objects * W) := fun w =>
  match begin c request w with
  | (Ok (inr s), w) =>
    match noexcept (start ins true) (objects_of s w) with (r, o) => (r, (Some o, world o)) end
  | (Ok (inl status), w) => (Ok (status, None), (None, w))
  | (Throw e, w) => (Throw e, (None, w))
  end.

(** A session handle: whether it has been cancelled. Without a session it is [None]; its
    callbacks are those of the session and never empty. *)
Definition SessionHandle : Type := option bool.

Definition begin_session (c : option ExecutorCore) (request : ProgramRequestContext)
  : W -> outcome (Status * SessionHandle) * (option Objects * W) := fun w =>
  match begin c request w with
  | (Ok (inr s), w) => (Ok (success, Some false), (Some (objects_of s w), w))
  | (Ok (inl status), w) => (Ok (status, None), (None, w))
  | (Throw e, w) => (Throw e, (None, w))
  end.

Definition begin_session_from_snapshot (c : option ExecutorCore) (request : ProgramRequestContext) (root : list Z)
    (generation next_position : Z) : W -> outcome (Status * SessionHandle) * (option Objects * W) := fun w =>
  match begin c request w with
  | (Ok (inr s), w) =>
    match (let^ loaded := load_snapshot root generation next_position in
           if negb (status_ok (sn_status loaded))
           then session_cancel ;^ eret (sn_status loaded, None)
           else eret (success, Some false)) (objects_of s w) with
    | (r, o) => (r, (Some o, world o))
    end
  | (Ok (inl status), w) => (Ok (status, None), (None, w))
  | (Throw e, w) => (Throw e, (None, w))
  end.

(** *** Calls of a session handle *)

(** A call of a handle that is not valid returns [refused]; what it throws becomes an
    internal error. *)
Definition session_call {R} (h : SessionHandle) (refused : R) (handler : exn -> R) (m : EST Objects R) : EST Objects R :=
  match h with
  | Some false => catching_with m (fun e => eret (handler e))
  | _ => eret refused
  end.

Definition wrapped (prefix : string) (e : exn) : Status := internal_error (prefix +:+ what e).

Definition session_execute (h : SessionHandle) (ins : gmap (list Z) ExecutionValue) : EST Objects StartResult :=
  session_call h (session_closed, None) (fun e => (wrapped "model execution session step failed: " e, None)) (start ins false).

Definition session_sequence_available (h : SessionHandle) : EST Objects bool :=
  session_call h false (fun _ => false) (let^ s := get_session in eret (sequence_available s)).

Definition session_execute_sequence (h : SessionHandle) (ins : gmap (list Z) ExecutionValue) : EST Objects StartResult :=
  session_call h (mkStatus invalid_arg "model execution session has no program-sequence provider", None)
    (fun e => (wrapped "model program-sequence execution failed: " e, None)) (start_sequence ins).

Definition session_checkpoint (h : SessionHandle) (next_position : Z) : EST Objects Status :=
  session_call h session_closed (wrapped "retention checkpoint failed: ") (checkpoint_retention next_position).
Definition session_rewind (h : SessionHandle) (next_position : Z) : EST Objects Status :=
  session_call h session_closed (wrapped "retention rewind failed: ") (rewind_retention next_position).
Definition session_park (h : SessionHandle) (next_position : Z) : EST Objects RequestStateParkingResult :=
  session_call h (parking_refused session_closed) (fun e => parking_refused (wrapped "request-state parking failed: " e))
    (park_retention next_position).
Definition session_restore (h : SessionHandle) : EST Objects RequestStateParkingResult :=
  session_call h (parking_refused session_closed) (fun e => parking_refused (wrapped "request-state restore failed: " e))
    restore_retention.
Definition session_save (h : SessionHandle) (root : list Z) (generation : Z) : EST Objects RequestStateSnapshotResult :=
  session_call h (snapshot_refused session_closed)
    (fun e => snapshot_refused (wrapped "request-state snapshot save failed: " e)) (save_snapshot root generation).
Definition session_prune (h : SessionHandle) (root : list Z) (generation : Z) : EST Objects Status :=
  session_call h session_closed (wrapped "request-state snapshot prune failed: ") (prune_snapshots root generation).
Definition session_rebind (h : SessionHandle) (request : ProgramRequestContext) : EST Objects Status :=
  session_call h session_closed (wrapped "model execution session rebind failed: ") (rebind request).
Definition session_begin_transaction (h : SessionHandle) : EST Objects Status :=
  session_call h session_closed (fun _ => internal_error "retention transaction start failed") begin_transaction.
Definition session_end_transaction (h : SessionHandle) : EST Objects Status :=
  session_call h session_closed (fun _ => internal_error "retention transaction end failed") end_transaction.
Definition session_exact_available (h : SessionHandle) : EST Objects bool :=
  session_call h false (fun _ => false) (let^ s := get_session in eret (exact_available s)).
Definition session_synchronize_batch (h : SessionHandle) (next_tokens : list Z) (first_target_position : Z) (draft : bool)
  : EST Objects Status :=
  session_call h (mkStatus invalid_arg "model execution session has no exact decode program")
    (wrapped "exact decode synchronization failed: ") (synchronize_exact next_tokens first_target_position draft).
Definition session_synchronize (h : SessionHandle) (next_token target_position : Z) (draft : bool) : EST Objects Status :=
  session_synchronize_batch h [next_token] target_position draft.
Definition session_execute_exact (h : SessionHandle) (token position context_limit : Z)
  : EST Objects (Status * option ExactHandle) :=
  session_call h (mkStatus invalid_arg "model execution session has no exact decode program", None)
    (fun e => (wrapped "exact decode session step failed: " e, None)) (start_exact token position context_limit).

Definition session_handle_cancel (h : SessionHandle) : EST Objects SessionHandle :=
  match h with
  | Some false => catching_with session_cancel (fun _ => eret tt) ;^ eret (Some true)
  | _ => eret h
  end.
End Executor.
