(* ===== verification/ProgramExecutorLogic.v ===== *)
(** Reasoning about program execution: rules for code whose exceptions keep the state, the
    equations of a program and what it means to solve them, what providers promise, and the
    loops of the interpreter over values. *)

From S2P Require Import Prelude.
From S2P Require Import Storage.
From S2P Require Import Text.
From S2P Require Import ModelDescriptor.
From S2P Require Import ModelDescriptorTheorems.
From S2P Require Import ModelProgram.
From S2P Require Import ModelProgramTheorems.
From S2P Require Import ProviderRegistry.
From S2P Require Import TensorStore.
From S2P Require Import ProgramExecutor.

#[local] Open Scope bool_scope.
#[local] Open Scope Z_scope.

(** ** Rules for code whose exceptions keep the state

    [ewp m Q E s]: from [s], [m] returns with [Q] or throws with [E]. *)

Definition ewp {S A} (m : EST S A) (Q : A -> S -> Prop) (E : exn -> S -> Prop) (s : S) : Prop :=
  match m s with (Ok a, s) => Q a s | (Throw e, s) => E e s end.

Section Rules.
Context {S : Type}.
Implicit Types (s : S) (E : exn -> S -> Prop).

Lemma ewp_ret {A} (a : A) Q E s : Q a s -> ewp (eret a) Q E s.
Proof. done. Qed.

Lemma ewp_throw {A} e (Q : A -> S -> Prop) E s : E e s -> ewp (ethrow e) Q E s.
Proof. done. Qed.

Lemma ewp_bind {A B} (m : EST S A) (k : A -> EST S B) Q E s :
  ewp m (fun a => ewp (k a) Q E) E s -> ewp (ebind m k) Q E s.
Proof. unfold ewp, ebind. by destruct (m s) as [[a|e] s']. Qed.

Lemma ewp_mono {A} (m : EST S A) (P Q : A -> S -> Prop) (E F : exn -> S -> Prop) s :
  ewp m P E s -> (forall a s', P a s' -> Q a s') -> (forall e s', E e s' -> F e s') -> ewp m Q F s.
Proof. unfold ewp. destruct (m s) as [[a|e] s']; auto. Qed.

Lemma ewp_modify (f : S -> S) Q E s : Q tt (f s) -> ewp (emodify f) Q E s.
Proof. done. Qed.

Lemma ewp_early {R A B} (m : EST S (R + A)) (k : A -> EST S (R + B)) Q E s :
  ewp m (fun r s => match r with inl r => Q (inl r) s | inr a => ewp (k a) Q E s end) E s -> ewp (early m k) Q E s.
Proof. intros H. apply ewp_bind. eapply ewp_mono; [exact H| |done]. intros [r|a] s' Hr; [by apply ewp_ret|done]. Qed.

Lemma ewp_returned {R} (m : EST S (R + R)) Q E s :
  ewp m (fun r s => match r with inl r | inr r => Q r s end) E s -> ewp (returned m) Q E s.
Proof. intros H. apply ewp_bind. eapply ewp_mono; [exact H| |done]. by intros [r|r] s' Hr. Qed.

Lemma ewp_catch {A} (m : EST S A) (handler : exn -> EST S A) Q E s :
  ewp m Q (fun e s => if caught e then ewp (handler e) Q E s else E e s) s -> ewp (catching_with m handler) Q E s.
Proof. unfold ewp at 1 3, catching_with. destruct (m s) as [[a|e] s']; [done|]. by destruct (caught e). Qed.

(** A loop keeps what its body keeps. *)
Lemma ewp_each {R A T} (f : T -> A -> EST S (R + A)) (l : list T) (a : A) (I : A -> S -> Prop) (Q : R -> S -> Prop) E s :
  (forall t a s, t ∈ l -> I a s -> ewp (f t a) (fun r s => match r with inl r => Q r s | inr a => I a s end) E s) ->
  I a s -> ewp (each_state f l a) (fun r s => match r with inl r => Q r s | inr a => I a s end) E s.
Proof.
  intros Hf. revert a s. induction l as [|t l IH]; intros a s Ha; [by apply ewp_ret|].
  cbn [each_state]. apply ewp_early. eapply ewp_mono; [apply Hf; [constructor|done]| |done].
  intros [r|a'] s' Hr; [done|]. apply IH; [|done]. intros t' a0 s0 Ht'. apply Hf. by constructor.
Qed.
End Rules.

Section Executor.
Context {W Provider Operation PState OpRun ExactRun : Type} `{!EqDecision Provider}
  `{!Providers W Provider Operation PState OpRun ExactRun}.

Notation Core := (ExecutorCore (Provider := Provider) (Operation := Operation)).
Notation Objs := (Objects (W := W) (Provider := Provider) (Operation := Operation) (PState := PState)
                    (OpRun := OpRun) (ExactRun := ExactRun)).
Implicit Types (o : Objs).

Lemma ewp_call {A} (f : W -> outcome A * W) (Q : A -> Objs -> Prop) (E : exn -> Objs -> Prop) o :
  (forall r w, f (world o) = (r, w) ->
    match r with Ok a => Q a (o <| world := w |>) | Throw e => E e (o <| world := w |>) end) ->
  ewp (call f) Q E o.
Proof. intros H. unfold ewp, call. destruct (f (world o)) as [[a|e] w] eqn:Hf; exact (H _ _ eq_refl). Qed.

Lemma ewp_observe {A} (f : W -> A * W) (Q : A -> Objs -> Prop) (E : exn -> Objs -> Prop) o :
  (forall a w, f (world o) = (a, w) -> Q a (o <| world := w |>)) -> ewp (observe f) Q E o.
Proof. intros H. unfold ewp, observe. destruct (f (world o)) as [a w] eqn:Hf. exact (H _ _ eq_refl). Qed.

(** ** The equations of a program *)

(** Ports and values are distinct, as they are in every compiled program. *)
Record program_shape (program : CompiledModelProgram) : Prop := {
  sh_inputs : NoDup (value_index <$> inputs program);
  sh_nonneg : forall e, e ∈ inputs program -> 0 <= value_index e;
  sh_outputs : NoDup (port <$> outputs program);
  sh_values : (0 < length (values program))%nat }.

Notation Values := (list (option ExecutionValue)).

(** What the providers promise. [kernel operation compiled ins outs]: the prepared operation
    may make [outs] of [ins]; [runs_for t operation compiled ins]: what a handle shares
    computes that. *)
Context (kernel : Operation -> CompiledOperationProgram -> list ExecutionValue -> list ExecutionValue -> Prop)
  (runs_for : OpRun -> Operation -> CompiledOperationProgram -> list ExecutionValue -> Prop).

Class ProviderSpec : Prop := {
  execute_runs provider operation state request compiled ins w r w' :
    pv_execute provider operation state request compiled ins w = (Ok (Some r), w') -> settled r = false ->
    runs_for (running r) operation compiled ins;
  poll_runs t operation compiled ins w result t' w' :
    runs_for t operation compiled ins -> pv_poll t w = (Ok result, t', w') ->
    match result with
    | None => runs_for t' operation compiled ins
    | Some r => status_ok (ex_status r) = true -> kernel operation compiled ins (ex_outputs r)
    end }.

(** What a provider throws is an exception that can be caught. *)
Definition raises {A} (f : W -> outcome A * W) : Prop := forall w e w', f w = (Throw e, w') -> caught e = true.

Class CivilProviders : Prop := {
  raises_create_state provider request : raises (pv_create_state provider request);
  raises_execute provider operation state request compiled ins : raises (pv_execute provider operation state request compiled ins);
  raises_execute_sequence provider state request program ops ins :
    raises (pv_execute_sequence provider state request program ops ins);
  raises_checkpoint provider state position : raises (pv_checkpoint provider state position);
  raises_rewind provider state position : raises (pv_rewind provider state position);
  raises_rebind provider state request : raises (pv_rebind provider state request);
  raises_park provider state position : raises (pv_park provider state position);
  raises_restore provider state : raises (pv_restore provider state);
  raises_save provider state root generation : raises (pv_save provider state root generation);
  raises_load provider state root generation : raises (pv_load provider state root generation);
  raises_prune provider root generation : raises (pv_prune provider root generation);
  raises_synchronize provider operation state request tokens position draft :
    raises (pv_synchronize provider operation state request tokens position draft);
  raises_execute_exact provider operation state request token position limit :
    raises (pv_execute_exact provider operation state request token position limit) }.
Context `{!ProviderSpec}.

(** A value of the type that the program declares. *)
Definition well_typed (program : CompiledModelProgram) (env : Values) : Prop :=
  length env = length (values program) /\
  forall i v, value_at env i = Some v -> value_valid v = true /\ value_abi_of program i = Some (ev_abi v).

(** An operation that has been applied to the values it names, and whose results are the
    values it names. *)
Definition applied (env : Values) (instruction : PreparedInstruction (Operation := Operation) (Provider := Provider))
    (compiled : CompiledOperationProgram) : Prop :=
  exists ins outs, gather_inputs env (input_values compiled) = Some ins /\
    kernel (pi_operation instruction) compiled ins outs /\
    Forall2 (fun v b => value_at env (value_index b) = Some v) outs (output_values compiled).

(** The first [n] equations. *)
Definition applied_before (c : Core) (n : nat) (env : Values) : Prop :=
  forall i instruction compiled, (i < n)%nat -> xc_prepared c !! i = Some instruction ->
    operations (xc_program c) !! i = Some compiled -> applied env instruction compiled.

Definition inputs_placed (program : CompiledModelProgram) (ins : gmap (list Z) ExecutionValue) (env : Values) : Prop :=
  forall e, e ∈ inputs program -> exists v, ins !! port e = Some v /\ value_at env (value_index e) = Some v.

(** Outputs that solve the equations of a program for its inputs. *)
Definition solves (c : Core) (ins outs : gmap (list Z) ExecutionValue) : Prop :=
  exists env, well_typed (xc_program c) env /\ inputs_placed (xc_program c) ins env /\
    applied_before c (length (xc_prepared c)) env /\
    (forall role v, outs !! role = Some v <->
       exists e, e ∈ outputs (xc_program c) /\ port e = role /\ value_at env (value_index e) = Some v) /\
    (forall e, e ∈ outputs (xc_program c) -> is_Some (outs !! port e)).

(** *** Values are only added *)

Definition extends (env env' : Values) : Prop :=
  length env' = length env /\ forall i v, value_at env i = Some v -> value_at env' i = Some v.

Lemma extends_refl env : extends env env.
Proof. done. Qed.

Lemma extends_trans env1 env2 env3 : extends env1 env2 -> extends env2 env3 -> extends env1 env3.
Proof. intros [L1 H1] [L2 H2]. split; [congruence|auto]. Qed.

Lemma value_at_nat (env : Values) i : i < Z.of_nat (length env) -> value_at env i = mjoin (env !! Z.to_nat i).
Proof. intros Hi. unfold value_at. by rewrite (proj2 (Z.leb_gt _ _)) by lia. Qed.

Lemma value_at_Some (env : Values) i v :
  value_at env i = Some v -> i < Z.of_nat (length env) /\ env !! Z.to_nat i = Some (Some v).
Proof.
  unfold value_at. destruct (Z.leb_spec (Z.of_nat (length env)) i); [done|].
  destruct (env !! Z.to_nat i) as [[u|]|]; cbn; [by intros [= ->]|done..].
Qed.

Lemma value_at_insert (env : Values) i j v :
  (0 < length env)%nat -> i < Z.of_nat (length env) ->
  value_at (<[Z.to_nat i := Some v]> env) j =
  if (decide (Z.to_nat j = Z.to_nat i /\ j < Z.of_nat (length env))) then Some v else value_at env j.
Proof.
  intros Hl0 Hi. unfold value_at. rewrite length_insert. destruct (Z.leb_spec (Z.of_nat (length env)) j).
  - rewrite decide_False by lia. done.
  - destruct (decide (Z.to_nat j = Z.to_nat i)) as [He|Hne].
    + rewrite decide_True by done. by rewrite He, list_lookup_insert_eq by lia.
    + rewrite decide_False by tauto. by rewrite list_lookup_insert_ne.
Qed.

Lemma extends_insert (env : Values) i v :
  (0 < length env)%nat -> i < Z.of_nat (length env) -> value_at env i = None -> extends env (<[Z.to_nat i := Some v]> env).
Proof.
  intros Hpos Hi Hfree. split; [apply length_insert|]. intros j u Hj. rewrite value_at_insert by done.
  destruct (decide _) as [[He Hl]|]; [|done]. apply value_at_Some in Hj as [_ Hj].
  rewrite value_at_nat in Hfree by done. rewrite He in Hj. by rewrite Hj in Hfree.
Qed.

Lemma gather_extends env env' l vs : extends env env' -> gather_inputs env l = Some vs -> gather_inputs env' l = Some vs.
Proof.
  intros [_ He]. revert vs. induction l as [|b l IH]; intros vs; cbn; [done|].
  destruct (value_at env (value_index b)) as [v|] eqn:Hv; [|done]. rewrite (He _ _ Hv).
  destruct (gather_inputs env l) as [rest|]; [|done]. by rewrite (IH rest).
Qed.

Lemma applied_extends env env' i c : extends env env' -> applied env i c -> applied env' i c.
Proof.
  intros He (ins & outs & Hg & Hk & Ho). exists ins, outs. split_and!; [by eapply gather_extends|done|].
  eapply Forall2_impl; [exact Ho|]. intros v b. apply He.
Qed.

Lemma store_outputs_sound program outs bs env env' :
  (0 < length (values program))%nat -> well_typed program env -> length outs = length bs -> store_outputs program env (combine outs bs) = Some env' ->
  extends env env' /\ well_typed program env' /\ Forall2 (fun v b => value_at env' (value_index b) = Some v) outs bs.
Proof.
  intros Hpos. revert bs env. induction outs as [|v outs IH]; intros [|b bs] env Hw Hlen; cbn; [by intros [= <-]|done..|].
  destruct (_ || _) eqn:Hc; [done|]. intros Hs.
  apply orb_false_iff in Hc as [[[Hl%Z.leb_gt Hfree%bool_decide_eq_false]%orb_false_iff Hv%negb_false_iff]%orb_false_iff
    Ha%negb_false_iff%bool_decide_eq_true].
  destruct Hw as [Hwl Hwt]. assert (0 < length env)%nat as Hne by lia.
  apply eq_None_not_Some in Hfree. pose proof (extends_insert env _ v Hne Hl Hfree) as Hext. apply IH in Hs as (He & Hw' & Hf); [|split|by injection Hlen].
  - split_and!; [by eapply extends_trans|done|]. constructor; [|done]. apply He. rewrite value_at_insert by done.
    by rewrite decide_True.
  - by rewrite length_insert.
  - intros j u. rewrite value_at_insert by done. destruct (decide _) as [[Hj Hjl]|]; [|apply Hwt].
    intros [= <-]. split; [done|]. unfold value_abi_of in *. rewrite Hj.
    destruct (Z.leb_spec (Z.of_nat (length (values program))) (value_index b)); [lia|].
    by rewrite (proj2 (Z.leb_gt _ _)) by lia.
Qed.

Lemma collect_outputs_sound env l acc outs :
  NoDup (port <$> l) -> (forall e, e ∈ l -> acc !! port e = None) -> collect_outputs env l acc = Some outs ->
  (forall role v, outs !! role = Some v <->
     acc !! role = Some v \/ exists e, e ∈ l /\ port e = role /\ value_at env (value_index e) = Some v) /\
  (forall e, e ∈ l -> is_Some (outs !! port e)).
Proof.
  revert acc. induction l as [|e l IH]; intros acc Hn Hfresh; cbn.
  { intros [= <-]. split; [|by intros e ?%not_elem_of_nil]. intros role v. split; [by left|].
    intros [?|(e & ?%not_elem_of_nil & _)]; done. }
  cbn in Hn. apply NoDup_cons in Hn as [He Hn]. destruct (value_at env (value_index e)) as [v|] eqn:Hv; [|done].
  rewrite Hfresh by constructor. intros Hc. apply IH in Hc as [H1 H2]; [|done|].
  2: { intros e' He'. rewrite lookup_insert_ne; [apply Hfresh; by constructor|]. intros Hp. apply He.
       rewrite Hp. by apply list_elem_of_fmap_2. }
  split.
  - intros role u. rewrite H1. split.
    + intros [Hu|(e' & He' & Hp & Hu)].
      * destruct (decide (port e = role)) as [<-|Hne].
        -- rewrite lookup_insert_eq in Hu. injection Hu as <-. right. exists e. split_and!; [constructor|done|done].
        -- rewrite lookup_insert_ne in Hu by done. by left.
      * right. exists e'. split_and!; [by constructor|done|done].
    + intros [Hu|(e' & [->|He']%elem_of_cons & Hp & Hu)].
      * left. rewrite lookup_insert_ne; [done|]. intros <-. by rewrite Hfresh in Hu by constructor.
      * left. subst role. rewrite lookup_insert_eq. congruence.
      * right. by exists e'.
  - intros e' [->|He']%elem_of_cons; [|by apply H2]. exists v. apply H1. left. apply lookup_insert_eq.
Qed.

Lemma place_inputs_sound program ins l env env' :
  (0 < length (values program))%nat -> well_typed program env -> NoDup (value_index <$> l) -> (forall e, e ∈ l -> 0 <= value_index e) ->
  (forall e, e ∈ l -> value_at env (value_index e) = None) ->
  place_inputs program ins env l = Some env' ->
  well_typed program env' /\ extends env env' /\
  forall e, e ∈ l -> exists v, ins !! port e = Some v /\ value_at env' (value_index e) = Some v.
Proof.
  intros Hvs. revert env. induction l as [|e l IH]; intros env Hw Hn Hpos Hfree; cbn.
  { intros [= <-]. split_and!; [done|done|by intros e ?%not_elem_of_nil]. }
  cbn in Hn. apply NoDup_cons in Hn as [He Hn]. destruct (ins !! port e) as [v|] eqn:Hv; [|done].
  destruct (_ || _) eqn:Hc; [done|]. intros Hp.
  apply orb_false_iff in Hc as [[Hval%negb_false_iff Hl%Z.leb_gt]%orb_false_iff Ha%negb_false_iff%bool_decide_eq_true].
  destruct Hw as [Hwl Hwt]. assert (0 < length env)%nat as Hne by lia.
  pose proof (extends_insert env _ v Hne Hl (Hfree e ltac:(constructor))) as Hext.
  apply IH in Hp as (Hw' & He' & Hin); [|split| | |].
  - split_and!; [done|by eapply extends_trans|]. intros e' [->|Hi]%elem_of_cons; [|by apply Hin].
    exists v. split; [done|]. apply He'. rewrite value_at_insert by done. by rewrite decide_True.
  - by rewrite length_insert.
  - intros j u. rewrite value_at_insert by done. destruct (decide _) as [[Hj Hjl]|]; [|apply Hwt].
    intros [= <-]. split; [done|]. unfold value_abi_of in *. rewrite Hj.
    destruct (Z.leb_spec (Z.of_nat (length (values program))) (value_index e)); [lia|].
    by rewrite (proj2 (Z.leb_gt _ _)) by lia.
  - done.
  - intros e' Hi. apply Hpos. by constructor.
  - intros e' Hi. rewrite value_at_insert by done. rewrite decide_False; [apply Hfree; by constructor|].
    intros [Hj _]. apply He. apply Z2Nat.inj in Hj; [|apply Hpos; by constructor..]. rewrite <- Hj.
    by apply list_elem_of_fmap_2.
Qed.

(** Outputs under the ports of a program, each a value of the type that is declared. *)
Definition typed_outputs (program : CompiledModelProgram) (outs : gmap (list Z) ExecutionValue) : Prop :=
  forall role v, outs !! role = Some v ->
    exists e, e ∈ outputs program /\ port e = role /\ value_valid v = true /\
      value_abi_of program (value_index e) = Some (ev_abi v).

Lemma sequence_outputs_sound program vs l acc outs :
  (forall e, e ∈ l -> e ∈ outputs program) -> typed_outputs program acc -> length vs = length l ->
  sequence_outputs program (combine vs l) acc = Some outs ->
  typed_outputs program outs /\ (forall role, is_Some (acc !! role) -> is_Some (outs !! role)) /\
  forall e, e ∈ l -> is_Some (outs !! port e).
Proof.
  revert vs acc. induction l as [|e l IH]; intros [|v vs] acc Hl Ha Hn; cbn; try done.
  { intros [= <-]. split_and!; [done|done|by intros e ?%not_elem_of_nil]. }
  destruct (_ || _) eqn:Hc; [done|].
  apply orb_false_iff in Hc as [Hv%negb_false_iff Habi%negb_false_iff%bool_decide_eq_true].
  intros Hs. apply IH in Hs as (Ht & Hk & Hin); [| |clear IH Hs|by injection Hn].
  - assert (is_Some (outs !! port e)) as Hp.
    { apply Hk. destruct (acc !! port e) eqn:He; [by rewrite He|]. rewrite lookup_insert_eq. by eexists. }
    split_and!; [done| |].
    + intros role Hr. apply Hk. destruct (acc !! port e); [done|]. apply lookup_insert_is_Some'. by right.
    + intros e' [->|He']%elem_of_cons; [done|by apply Hin].
  - intros e' He'. apply Hl. by constructor.
  - destruct (acc !! port e) eqn:He; [done|]. intros role u. destruct (decide (port e = role)) as [<-|Hne].
    + rewrite lookup_insert_eq. intros [= <-]. exists e. split_and!; [apply Hl; constructor|done..].
    + rewrite lookup_insert_ne by done. apply Ha.
Qed.
End Executor.
