(* ===== verification/ProgramExecutorSession.v ===== *)
(** The invariant of a session and its steps, and that every operation of a session keeps it:
    at most one step runs, a session that is closed gives its request states up, and the
    values of a step of the interpreter solve the equations of the operations that are done. *)

From S2P Require Import Prelude.
From S2P Require Import Storage.
From S2P Require Import Text.
From S2P Require Import ModelDescriptor.
From S2P Require Import ModelProgram.
From S2P Require Import ProviderRegistry.
From S2P Require Import TensorStore.
From S2P Require Import ProgramExecutor.
From S2P Require Import ProgramExecutorLogic.

#[local] Open Scope bool_scope.
#[local] Open Scope Z_scope.

Section Session.
Context {W Provider Operation PState OpRun ExactRun : Type} `{!EqDecision Provider}
  `{!Providers W Provider Operation PState OpRun ExactRun}.
Context (kernel : Operation -> CompiledOperationProgram -> list ExecutionValue -> list ExecutionValue -> Prop)
  (runs_for : OpRun -> Operation -> CompiledOperationProgram -> list ExecutionValue -> Prop)
  `{!ProviderSpec kernel runs_for} `{!CivilProviders}.

Notation Core := (ExecutorCore (Provider := Provider) (Operation := Operation)).
Notation Step := (RequestStep (OpRun := OpRun)).
Notation Sess := (SessionState (Provider := Provider) (Operation := Operation) (PState := PState)).
Notation Objs := (Objects (W := W) (Provider := Provider) (Operation := Operation) (PState := PState)
                    (OpRun := OpRun) (ExactRun := ExactRun)).
Notation Values := (gmap (list Z) ExecutionValue).
Implicit Types (o : Objs) (s : Step) (Q : Objs -> Prop).

(** The program of the session. *)
Context (c : Core) (Hshape : program_shape (xc_program c))
  (Hprepared : length (xc_prepared c) = length (operations (xc_program c))).

(** ** The invariant *)

(** A step of the interpreter that was given [ins]. *)
Record interpreting (ins : Values) (s : Step) : Prop := {
  in_typed : well_typed (xc_program c) (st_values s);
  in_inputs : inputs_placed (xc_program c) ins (st_values s);
  in_applied : applied_before kernel c (st_next_operation s) (st_values s);
  in_bound : (st_next_operation s <= length (xc_prepared c))%nat;
  in_flight : forall h, st_inflight s = Some h -> settled h = false ->
    exists instruction compiled current,
      xc_prepared c !! st_next_operation s = Some instruction /\
      operations (xc_program c) !! st_next_operation s = Some compiled /\
      gather_inputs (st_values s) (input_values compiled) = Some current /\
      runs_for (running h) (pi_operation instruction) compiled current }.

Definition step_ok (ins : option Values) (s : Step) : Prop :=
  st_direct_sequence s = false -> exists i, ins = Some i /\ interpreting i s.

(** [inputs !! id] is what the [id]-th step was given. *)
Record objects_ok (given : gmap nat Values) (o : Objs) : Prop := {
  ok_program : ss_program (session o) = c;
  ok_steps : forall id, is_Some (request_steps o !! id) -> (id < next_object o)%nat;
  ok_exacts : forall id, is_Some (exact_steps o !! id) -> (id < next_object o)%nat;
  ok_given : forall id, is_Some (given !! id) -> (id < next_object o)%nat;
  ok_live : forall id s, request_steps o !! id = Some s -> st_terminal s = false ->
    active_step (session o) = Some id /\ active (session o) = true /\ step_ok (given !! id) s;
  ok_decoding : forall id x, exact_steps o !! id = Some x -> xs_terminal x = false ->
    active_exact (session o) = Some id /\ active (session o) = true;
  ok_single : active_step (session o) = None \/ active_exact (session o) = None;
  ok_idle : active (session o) = false -> closed (session o) = false ->
    active_step (session o) = None /\ active_exact (session o) = None;
  ok_closed : closed (session o) = true -> active (session o) = false -> provider_states (session o) = ∅ }.

(** What an exact decoding was asked for. *)
Definition exact_args (x : ExactStep (ExactRun := ExactRun)) : Z * Z * Z * Z * Z :=
  (xs_guaranteed_token x, xs_position x, xs_context_limit x, xs_vocabulary_size x, xs_maximum_emitted_tokens x).

(** Handles keep what they refer to. *)
Record keeps (o o' : Objs) : Prop := {
  keeps_steps : forall id s, request_steps o !! id = Some s ->
    exists s', request_steps o' !! id = Some s' /\ st_direct_sequence s' = st_direct_sequence s;
  keeps_exacts : forall id x, exact_steps o !! id = Some x ->
    exists x', exact_steps o' !! id = Some x' /\ exact_args x' = exact_args x;
  keeps_next : (next_object o <= next_object o')%nat }.

Lemma keeps_same o : keeps o o.
Proof. split; [by eauto|by eauto|done]. Qed.

Lemma keeps_chain o1 o2 o3 : keeps o1 o2 -> keeps o2 o3 -> keeps o1 o3.
Proof.
  intros [H1 H2 H3] [H4 H5 H6]. split; [| |lia].
  - intros id s Hs. apply H1 in Hs as (s' & Hs' & <-). by apply H4.
  - intros id x Hx. apply H2 in Hx as (x' & Hx' & <-). by apply H5.
Qed.

(** ** What only changes the world, or the parking of a session *)

Record same (o o' : Objs) : Prop := {
  same_steps : request_steps o' = request_steps o;
  same_exacts : exact_steps o' = exact_steps o;
  same_next : next_object o' = next_object o;
  same_program : ss_program (session o') = ss_program (session o);
  same_states : provider_states (session o') = provider_states (session o);
  same_active_step : active_step (session o') = active_step (session o);
  same_active_exact : active_exact (session o') = active_exact (session o);
  same_active : active (session o') = active (session o);
  same_closed : closed (session o') = closed (session o) }.

Lemma same_refl o : same o o.
Proof. done. Qed.

Lemma same_trans o1 o2 o3 : same o1 o2 -> same o2 o3 -> same o1 o3.
Proof. intros [] []. split; congruence. Qed.

Lemma same_world o w : same o (o <| world := w |>).
Proof. done. Qed.

Lemma same_keeps o o' : same o o' -> keeps o o'.
Proof. intros []. split; [rewrite same_steps0; by eauto|rewrite same_exacts0; by eauto|lia]. Qed.

Lemma same_ok given o o' : same o o' -> objects_ok given o -> objects_ok given o'.
Proof. intros [] []. split; intros; simplify_eq; repeat match goal with H : _ o' = _ |- _ => rewrite ?H in *; clear H end;
  repeat match goal with H : _ (session o') = _ |- _ => rewrite ?H in *; clear H end; eauto. Qed.

(** [m] only changes the world, and what it throws is [X]. *)
Definition calm {A} (X : exn -> Prop) (m : EST Objs A) : Prop :=
  forall o, ewp m (fun _ => same o) (fun e o' => X e /\ same o o') o.

Notation catchable := (fun e => caught e = true).

Lemma calm_ret {A} X (a : A) : calm X (eret a).
Proof. intros o. apply ewp_ret, same_refl. Qed.

Lemma calm_bind {A B} X (m : EST Objs A) (k : A -> EST Objs B) : calm X m -> (forall a, calm X (k a)) -> calm X (ebind m k).
Proof.
  intros Hm Hk o. apply ewp_bind. eapply ewp_mono; [apply Hm| |done]. intros a o1 H1.
  eapply ewp_mono; [apply Hk| |].
  - intros b o2 H2. exact (same_trans _ _ _ H1 H2).
  - intros e o2 [He H2]. split; [done|]. exact (same_trans _ _ _ H1 H2).
Qed.

Lemma calm_delegate {A} (f : W -> outcome A * W) : raises f -> calm catchable (call f).
Proof.
  intros Hf o. apply ewp_call. intros [a|e] w Hw; [apply same_world|]. split; [by eapply Hf|apply same_world].
Qed.

Lemma calm_observe {A} X (f : W -> A * W) : calm X (observe f).
Proof. intros o. apply ewp_observe. intros a w _. apply same_world. Qed.

Lemma calm_get X : calm X get_session.
Proof. intros o. apply same_refl. Qed.

Lemma calm_session X (f : Sess -> Sess) :
  (forall x, ss_program (f x) = ss_program x /\ provider_states (f x) = provider_states x /\
     active_step (f x) = active_step x /\ active_exact (f x) = active_exact x /\ active (f x) = active x /\ closed (f x) = closed x) ->
  calm X (on_session f).
Proof. intros Hf o. apply ewp_modify. destruct (Hf (session o)) as (?&?&?&?&?&?). by split. Qed.

Lemma calm_early {R A B} X (m : EST Objs (R + A)) (k : A -> EST Objs (R + B)) :
  calm X m -> (forall a, calm X (k a)) -> calm X (early m k).
Proof. intros Hm Hk. apply calm_bind; [done|]. intros [r|a]; [apply calm_ret|apply Hk]. Qed.

Lemma calm_returned {R} X (m : EST Objs (R + R)) : calm X m -> calm X (returned m).
Proof. intros Hm. apply calm_bind; [done|]. intros r. apply calm_ret. Qed.

Lemma calm_each {R A T} X (f : T -> A -> EST Objs (R + A)) (l : list T) (a : A) :
  (forall t a, calm X (f t a)) -> calm X (each_state f l a).
Proof. intros Hf. revert a. induction l as [|t l IH]; intros a; [apply calm_ret|]. by apply calm_early. Qed.

Lemma calm_idle {R} X (refused : Status -> R) (k : Sess -> EST Objs R) :
  (forall x, calm X (k x)) -> calm X (when_idle refused k).
Proof.
  intros Hk. apply calm_bind; [apply calm_get|]. intros x. destruct (closed x); [apply calm_ret|].
  by destruct (active x); [apply calm_ret|].
Qed.

(** What is caught is a result. *)
Lemma calm_caught {A} X (m : EST Objs A) (handler : exn -> EST Objs A) :
  calm catchable m -> (forall e, calm X (handler e)) -> calm X (catching_with m handler).
Proof.
  intros Hm Hh o. apply ewp_catch. eapply ewp_mono; [apply Hm|done|]. intros e o1 [-> H1].
  eapply ewp_mono; [apply Hh| |].
  - intros b o2 H2. exact (same_trans _ _ _ H1 H2).
  - intros e' o2 [He H2]. split; [done|]. exact (same_trans _ _ _ H1 H2).
Qed.

Lemma calm_failing {R} X (refused : Status -> R) prefix (m : EST Objs R) : calm catchable m -> calm X (failing refused prefix m).
Proof. intros Hm. apply calm_caught; [done|]. intros e. apply calm_ret. Qed.

(** *** Functions that promise to throw nothing

    If a provider throws there, the process is terminated. *)

Definition quiet : Prop :=
  (forall provider state request w e w', pv_rebind provider state request w <> (Throw e, w')) /\
  (forall provider operation state request tokens position draft w e w',
     pv_synchronize provider operation state request tokens position draft w <> (Throw e, w')).

Definition fatal (e : exn) : Prop := e = undefined_behavior "std::terminate" /\ ~ quiet.

Lemma calm_noexcept {A} (f : W -> outcome A * W) :
  raises f -> (quiet -> forall w e w', f w <> (Throw e, w')) -> calm fatal (noexcept (call f)).
Proof.
  intros Hf Hq o. apply ewp_catch. apply ewp_call. intros [a|e] w Hw; [apply same_world|].
  rewrite (Hf _ _ _ Hw). apply ewp_throw. split; [|apply same_world]. split; [done|]. intros Hquiet. by eapply Hq.
Qed.

(** *** The operations of retention *)

Ltac calm :=
  repeat first
    [ apply calm_ret | apply calm_get | apply calm_observe
    | apply calm_delegate; first [apply raises_checkpoint | apply raises_rewind | apply raises_park | apply raises_restore
        | apply raises_save | apply raises_load | apply raises_prune]
    | apply calm_session; done
    | apply calm_failing | apply calm_idle; intros ? | apply calm_returned | apply calm_each; intros ? ?
    | apply calm_early; [|intros ?] | apply calm_bind; [|intros ?]
    | case_match ].

Lemma control_calm f absent position (d : Core) items :
  (forall provider state, raises (f provider state position)) -> forall u, calm catchable (control_state f absent position d items u).
Proof.
  intros Hf u. unfold control_state. destruct (provider_for d items.1); [|apply calm_ret].
  apply calm_bind; [apply calm_delegate, Hf|]. intros. apply calm_ret.
Qed.

Lemma unpark_calm l : calm catchable (unpark l).
Proof. induction l as [|[p s] l IH]; cbn [unpark]; calm. done. Qed.

Lemma repark_calm position l : calm catchable (repark position l).
Proof. induction l as [|[p s] l IH]; cbn [repark]; calm. done. Qed.

Lemma checkpoint_calm X position : calm X (checkpoint_retention position).
Proof. unfold checkpoint_retention. calm. apply control_calm. intros. apply raises_checkpoint. Qed.

Lemma rewind_calm X position : calm X (rewind_retention position).
Proof. unfold rewind_retention. calm. apply control_calm. intros. apply raises_rewind. Qed.

Lemma park_calm X position : calm X (park_retention position).
Proof. unfold park_retention, park_state. calm; apply unpark_calm. Qed.

Lemma restore_calm X : calm X restore_retention.
Proof. unfold restore_retention, restore_state. calm. apply repark_calm. Qed.

Lemma save_calm X root generation : calm X (save_snapshot root generation).
Proof. unfold save_snapshot, save_state. calm. Qed.

Lemma load_calm X root generation position : calm X (load_snapshot root generation position).
Proof. unfold load_snapshot, load_state. calm. Qed.

Lemma prune_calm X root generation : calm X (prune_snapshots root generation).
Proof. unfold prune_snapshots, prune_state. calm. Qed.

Lemma begin_transaction_calm X : calm X begin_transaction.
Proof. unfold begin_transaction. calm. Qed.

Lemma end_transaction_calm X : calm X end_transaction.
Proof. unfold end_transaction. calm. Qed.

Lemma rebind_calm request : calm fatal (rebind request).
Proof.
  unfold rebind, rebind_state. calm. apply calm_noexcept; [apply raises_rebind|]. intros [Hr _] w e w'. apply Hr.
Qed.

(** ** Steps *)

Section Given.
Context (given : gmap nat Values).

(** A state in which a call on step [id] is at work. *)
Record poised (o0 : Objs) (id : nat) (s : Step) (o : Objs) : Prop := {
  po_ok : objects_ok given o;
  po_step : request_steps o !! id = Some s;
  po_keeps : keeps o0 o }.

Lemma poised_same o0 id s o o' : same o o' -> poised o0 id s o -> poised o0 id s o'.
Proof.
  intros Hs [H1 H2 H3]. split; [by eapply same_ok|by rewrite (same_steps _ _ Hs)|].
  eapply keeps_chain; [done|]. by apply same_keeps.
Qed.

Lemma ewp_get_step {o0 id s o} (Q : Step -> Objs -> Prop) E : poised o0 id s o -> Q s o -> ewp (get_step id) Q E o.
Proof. intros [_ Hs _] HQ. unfold ewp, get_step. by rewrite Hs. Qed.

Lemma ewp_get_session {o} (Q : Sess -> Objs -> Prop) E : Q (session o) o -> ewp get_session Q E o.
Proof. done. Qed.

(** A step may end, and otherwise must stay what it should be. *)
Definition may_become (id : nat) (s s' : Step) : Prop :=
  st_direct_sequence s' = st_direct_sequence s /\
  (st_terminal s' = false -> st_terminal s = false /\ step_ok (given !! id) s').

Lemma alter_ok id f s o : objects_ok given o -> request_steps o !! id = Some s -> may_become id s (f s) ->
  objects_ok given (o <| request_steps %= alter f id |>).
Proof.
  intros [H1 H2 H3 H4 H5 H6 H7 H8 H9] Hs [Hd Ht]. split; try done; cbn.
  - intros j Hj. apply H2. by rewrite lookup_alter_is_Some in Hj.
  - intros j s'. destruct (decide (id = j)) as [<-|Hne].
    + rewrite lookup_alter_eq, Hs. intros [= <-] Hl. apply Ht in Hl as [Hl Hok].
      destruct (H5 _ _ Hs Hl) as (?&?&_). done.
    + rewrite lookup_alter_ne by done. apply H5.
Qed.

Lemma alter_keeps id f s o : request_steps o !! id = Some s -> st_direct_sequence (f s) = st_direct_sequence s ->
  keeps o (o <| request_steps %= alter f id |>).
Proof.
  intros Hs Hd. split; cbn; [|by eauto|lia]. intros j s' Hj. destruct (decide (id = j)) as [<-|Hne].
  - rewrite lookup_alter_eq, Hj. simplify_eq. by eexists.
  - rewrite lookup_alter_ne by done. by eexists.
Qed.

Lemma ewp_on_step {o0 id s o} f (Q : unit -> Objs -> Prop) E :
  poised o0 id s o -> may_become id s (f s) ->
  (forall o', poised o0 id (f s) o' -> session o' = session o -> Q tt o') -> ewp (on_step id f) Q E o.
Proof.
  intros [H1 H2 H3] Hb HQ. apply ewp_modify. apply HQ; [|done]. split; [by eapply alter_ok| |].
  - cbn. by rewrite lookup_alter_eq, H2.
  - eapply keeps_chain; [done|]. eapply alter_keeps; [done|apply Hb].
Qed.

Lemma ewp_calm {A} {o0 id s o} X (m : EST Objs A) (Q : A -> Objs -> Prop) (E : exn -> Objs -> Prop) :
  calm X m -> poised o0 id s o -> (forall a o', poised o0 id s o' -> Q a o') ->
  (forall e o', X e -> poised o0 id s o' -> E e o') -> ewp m Q E o.
Proof.
  intros Hm Hp HQ HE. eapply ewp_mono; [apply Hm| |].
  - intros a o' Hs. apply HQ. exact (poised_same _ _ _ _ _ Hs Hp).
  - intros e o' [He Hs]. apply HE; [done|]. exact (poised_same _ _ _ _ _ Hs Hp).
Qed.

(** A session lets go of a step that has ended. *)
Definition released (id : nat) (b : bool) (x : Sess) : Sess :=
  clear_if_closed (close_unless b (if bool_decide (active_step x = Some id) then x <| active_step := None |> <| active := false |> else x)).

Definition with_session (x : Sess) (o : Objs) : Objs :=
  mkObjects x (request_steps o) (exact_steps o) (next_object o) (world o).

Lemma released_ok id s b o : objects_ok given o -> request_steps o !! id = Some s -> st_terminal s = true ->
  objects_ok given (with_session (released id b (session o)) o).
Proof.
  intros [H1 H2 H3 H4 H5 H6 H7 H8 H9] Hs Ht. unfold released, clear_if_closed, close_unless, with_session.
  assert (forall j s', request_steps o !! j = Some s' -> st_terminal s' = false -> active_step (session o) <> Some id) as Hother.
  { intros j s' Hj Hl Ha. destruct (H5 _ _ Hj Hl) as (He&_&_). rewrite Ha in He. injection He as ->. congruence. }
  destruct o as [[pg rq st as_ ae ac pk cl rt pp ppg pb] rs es nx w]; cbn in *.
  destruct (bool_decide_reflect (as_ = Some id)) as [Ha|Ha].
  - assert (ae = None) as Hx by (destruct H7 as [?|?]; congruence).
    destruct b, cl, rt; cbn in *; split; cbn; auto; try done.
    all: intros j x Hj Hl; first [by destruct (Hother j x Hj Hl) | destruct (H6 _ _ Hj Hl); congruence].
  - destruct b, cl, rt; cbn in *; split; cbn; auto; done.
Qed.

Lemma ewp_finish {o0 id s o} b (Q : unit -> Objs -> Prop) E :
  poised o0 id s o -> st_terminal s = true -> (forall o', poised o0 id s o' -> Q tt o') -> ewp (finish id b) Q E o.
Proof.
  intros [H1 H2 H3] Ht HQ. apply ewp_modify. change (Q tt (with_session (released id b (session o)) o)).
  apply HQ. split; [by eapply released_ok|done|by destruct H3].
Qed.

(** *** Polling a step *)

(** A result of step [id]. *)
Definition result_ok (id : nat) (direct : bool) (r : option ProgramExecutionResult) : Prop :=
  match r with
  | None => True
  | Some r =>
    status_ok (pr_status r) = true ->
    if direct then typed_outputs (xc_program c) (pr_outputs r)
    else exists i, given !! id = Some i /\ solves kernel c i (pr_outputs r)
  end.

Definition done_ok (o0 : Objs) (id : nat) (direct : bool) (r : option ProgramExecutionResult) (o : Objs) : Prop :=
  objects_ok given o /\ keeps o0 o /\ result_ok id direct r.

Definition thrown_ok (o0 : Objs) (e : exn) (o : Objs) : Prop := caught e = true /\ objects_ok given o /\ keeps o0 o.

Lemma may_end id s s' : st_direct_sequence s' = st_direct_sequence s -> st_terminal s' = true -> may_become id s s'.
Proof. intros Hd Ht. split; [done|]. by rewrite Ht. Qed.

Lemma poised_live o0 id s o : poised o0 id s o -> st_terminal s = false -> st_direct_sequence s = false ->
  exists i, given !! id = Some i /\ interpreting i s.
Proof. intros [Hok Hs _] Ht Hd. destruct (ok_live _ _ Hok _ _ Hs Ht) as (_&_&H1). by apply H1. Qed.

Lemma may_continue id s s' i : given !! id = Some i -> st_terminal s = false ->
  st_direct_sequence s' = st_direct_sequence s -> interpreting i s' -> may_become id s s'.
Proof. intros Hg Ht Hd Hi. split; [done|]. intros _. split; [done|]. intros _. by exists i. Qed.

(** A handle that is gone. *)
Lemma interpreting_idle i s : interpreting i s -> interpreting i (s <| st_inflight := None |>).
Proof. intros []. by split. Qed.

Lemma step_ok_idle ins s : step_ok ins s -> step_ok ins (s <| st_inflight := None |>).
Proof. intros Hs Hd. destruct (Hs Hd) as (i & -> & Hi). exists i. split; [done|]. by apply interpreting_idle. Qed.

Lemma may_idle {o0} id s o : poised o0 id s o -> may_become id s (s <| st_inflight := None |>).
Proof.
  intros [Hok Hs _]. split; [done|]. intros Ht. split; [done|]. apply step_ok_idle.
  by destruct (ok_live _ _ Hok _ _ Hs Ht) as (_&_&H1).
Qed.

Lemma ewp_drop_inflight {o0 id s o} (Q : unit -> Objs -> Prop) E :
  poised o0 id s o -> (forall o', poised o0 id (s <| st_inflight := None |>) o' -> Q tt o') -> ewp (drop_inflight id) Q E o.
Proof.
  intros Hp HQ. apply ewp_bind. eapply ewp_get_step; [exact Hp|]. apply ewp_bind, ewp_observe. intros h w _.
  pose proof (poised_same _ _ _ _ _ (same_world o w) Hp) as Hp'. eapply ewp_on_step; [exact Hp'|by eapply may_idle|auto].
Qed.

Lemma ewp_fail {o0 id s o} status E : poised o0 id s o -> status_ok status = false ->
  ewp (fail id status) (done_ok o0 id (st_direct_sequence s)) E o.
Proof.
  intros Hp Hst. apply ewp_bind. eapply ewp_drop_inflight; [exact Hp|]. intros o1 Hp1.
  apply ewp_bind. eapply ewp_on_step; [exact Hp1|by apply may_end|]. intros o2 Hp2 _.
  apply ewp_bind. eapply ewp_finish; [exact Hp2|done|]. intros o3 [H1 H2 H3].
  apply ewp_ret. split_and!; [done|done|]. intros Hc. cbn in Hc. congruence.
Qed.

(** What a handle that is polled promises. *)
Lemma flight_polled i s w r h w' : interpreting i s -> handle_poll pv_poll pv_cancel poll_failed (st_inflight s) w = (r, h, w') ->
  interpreting i (s <| st_inflight := h |>) /\
  match r with
  | None => True
  | Some r => status_ok (ex_status r) = true ->
      exists instruction compiled current,
      xc_prepared c !! st_next_operation s = Some instruction /\
      operations (xc_program c) !! st_next_operation s = Some compiled /\
      gather_inputs (st_values s) (input_values compiled) = Some current /\
      kernel (pi_operation instruction) compiled current (ex_outputs r)
  end.
Proof.
  intros Hi. unfold handle_poll. destruct (st_inflight s) as [h0|] eqn:Hf.
  2: { intros [= <- <- <-]. split; [|done]. destruct Hi. by split. }
  destruct (settled h0) eqn:Hset.
  { intros [= <- <- <-]. split; [|done]. destruct Hi. split; try done. intros h' [= <-] ?. congruence. }
  destruct (in_flight _ _ Hi _ Hf Hset) as (instruction & compiled & current & H1 & H2 & H3 & H4).
  destruct (pv_poll (running h0) w) as [[[result|e] t] w1] eqn:Hpoll.
  - pose proof (poll_runs _ _ _ _ _ _ _ _ _ _ H4 Hpoll) as Hr. intros [= <- <- <-]. split.
    + destruct Hi. split; try done. intros h' [= <-] Hs'. cbn in Hs'. apply bool_decide_eq_false in Hs'.
      destruct result; [by destruct Hs'|]. cbn. eauto 10.
    + destruct result; [|done]. intros Hok. exists instruction, compiled, current. auto.
  - destruct (pv_cancel t w1) as [t' w2]. intros [= <- <- <-]. split; [|done]. destruct Hi. split; try done. by intros h' [= <-].
Qed.

Lemma ewp_poll_inflight {o0 id s o} (Q : option OperationExecutionResult -> Objs -> Prop) E :
  poised o0 id s o ->
  (forall r h o' w w', handle_poll pv_poll pv_cancel poll_failed (st_inflight s) w = (r, h, w') ->
     poised o0 id (s <| st_inflight := h |>) o' -> Q r o') ->
  ewp (poll_inflight id) Q E o.
Proof.
  intros Hp HQ. apply ewp_bind. eapply ewp_get_step; [exact Hp|]. apply ewp_bind, ewp_observe. intros [r h] w Hw.
  destruct (handle_poll _ _ _ _ _) as [[r' h'] w'] eqn:Hpoll. injection Hw as -> -> ->.
  pose proof (poised_same _ _ _ _ _ (same_world o w) Hp) as Hp'. apply ewp_bind. eapply ewp_on_step; [exact Hp'| |].
  - split; [done|]. intros Ht. split; [done|]. intros Hd.
    destruct (poised_live _ _ _ _ Hp Ht Hd) as (i & Hg & Hi). exists i. split; [done|].
    by apply (flight_polled i s _ _ _ _ Hi Hpoll).
  - intros o' Hp1 _. apply ewp_ret. by eapply HQ.
Qed.

(** What one operation leaves is a step that has gone on by one. *)
Lemma stored_interpreting i s instruction compiled current outs env :
  interpreting i s -> xc_prepared c !! st_next_operation s = Some instruction ->
  operations (xc_program c) !! st_next_operation s = Some compiled ->
  gather_inputs (st_values s) (input_values compiled) = Some current ->
  kernel (pi_operation instruction) compiled current outs ->
  length outs = length (output_values compiled) ->
  store_outputs (xc_program c) (st_values s) (combine outs (output_values compiled)) = Some env ->
  interpreting i (s <| st_inflight := None |> <| st_values := env |> <| st_current_inputs := [] |> <| st_next_operation %= S |>).
Proof.
  intros [H1 H2 H3 H4 H5] Hi Hc Hg Hk Hl Hs.
  apply store_outputs_sound in Hs as (He & Hw & Hout); [|apply Hshape|done|done].
  split; [done| | |apply lookup_lt_Some in Hi; cbn; lia|by cbn].
  - intros e Hin. destruct (H2 e Hin) as (v & Hv & Hval). exists v. split; [done|]. by apply He.
  - intros j instr comp Hj Hij Hcj. cbn in Hj.
    destruct (decide (j = st_next_operation s)) as [->|Hne].
    + rewrite Hi in Hij. rewrite Hc in Hcj. injection Hij as <-. injection Hcj as <-.
      exists current, outs. split_and!; [by eapply gather_extends|done|done].
    + eapply applied_extends; [exact He|]. apply (H3 j); [lia|done|done].
Qed.

(** How many rounds of the loop are left. *)
Definition rounds_left (s : Step) : nat :=
  (2 + length (xc_prepared c) - st_next_operation s - if running_valid (st_inflight s) then 1 else 0)%nat.

(** The loop ends, or goes on with a step. *)
Definition round_ok (o0 : Objs) (id : nat) (P : Step -> Prop) (r : option ProgramExecutionResult + unit) (o : Objs) : Prop :=
  match r with
  | inl r => done_ok o0 id false r o
  | inr _ => exists s, poised o0 id s o /\ st_terminal s = false /\ st_direct_sequence s = false /\ P s
  end.

Lemma ewp_failed {o0 id s o} (P : Step -> Prop) status E : poised o0 id s o -> st_direct_sequence s = false -> status_ok status = false ->
  ewp (let^ r := fail id status in eret (inl r)) (round_ok o0 id P) E o.
Proof.
  intros Hp Hd Hst. apply ewp_bind. eapply ewp_mono; [by apply (ewp_fail _ E Hp)| |done].
  intros r o' Hr. apply ewp_ret. by rewrite Hd in Hr.
Qed.

Lemma ewp_take_completed {o0 id s h o} r : poised o0 id (s <| st_inflight := h |>) o -> st_terminal s = false -> st_direct_sequence s = false ->
  (status_ok (ex_status r) = true -> exists instruction compiled current,
      xc_prepared c !! st_next_operation s = Some instruction /\
      operations (xc_program c) !! st_next_operation s = Some compiled /\
      gather_inputs (st_values s) (input_values compiled) = Some current /\
      kernel (pi_operation instruction) compiled current (ex_outputs r)) ->
  ewp (take_completed id r)
    (round_ok o0 id (fun s' => st_inflight s' = None /\ st_next_operation s' = S (st_next_operation s) /\
       (st_next_operation s < length (xc_prepared c))%nat)) (thrown_ok o0) o.
Proof.
  intros Hp Ht Hd Hr. apply ewp_bind. eapply ewp_on_step; [exact Hp|exact (may_idle _ _ _ Hp)|]. intros o1 Hp1 _.
  destruct (status_ok (ex_status r)) eqn:Hst; cbn [negb]; [|by eapply ewp_failed].
  destruct (Hr eq_refl) as (instruction & compiled & current & Hi & Hc & Hg & Hk).
  apply ewp_bind, ewp_get_session, ewp_bind. eapply ewp_get_step; [exact Hp1|].
  rewrite (ok_program _ _ (po_ok _ _ _ _ Hp1)). cbn. rewrite Hc.
  destruct (length (ex_outputs r) =? length (output_values compiled))%nat eqn:Hl; cbn [negb]; [|by eapply ewp_failed].
  apply Nat.eqb_eq in Hl. destruct (store_outputs _ _ _) as [env|] eqn:Hs; [|by eapply ewp_failed].
  destruct (poised_live _ _ _ _ Hp Ht Hd) as (i & Hgi & Hint).
  pose proof (stored_interpreting _ _ _ _ _ _ _ Hint Hi Hc Hg Hk Hl Hs) as Hint'.
  apply ewp_bind. eapply ewp_on_step; [exact Hp1|by eapply may_continue|].
  intros o2 Hp2 _. apply ewp_ret. eexists. split; [exact Hp2|]. split_and!; try done. cbn. by apply lookup_lt_Some in Hi.
Qed.

Lemma ewp_close {o0 id s o} (Q : unit -> Objs -> Prop) E :
  poised o0 id s o -> (forall o', poised o0 id s o' -> Q tt o') -> ewp close Q E o.
Proof.
  intros [H1 H2 H3] HQ. apply ewp_modify.
  change (Q tt (with_session (if active (session o) then (session o) <| closed := true |>
                              else (session o) <| closed := true |> <| provider_states := ∅ |>) o)).
  apply HQ. split; [|done|by destruct H3]. destruct H1 as [I1 I2 I3 I4 I5 I6 I7 I8 I9].
  destruct o as [[pg rq st as_ ae ac pk cl rt pp ppg pb] rs es nx w]; cbn in *.
  destruct ac; split; cbn in *; auto; done.
Qed.

(** The results that are published solve the program's equations. *)
Lemma collected_solves i s outs : interpreting i s -> st_next_operation s = length (xc_prepared c) ->
  collect_outputs (st_values s) (outputs (xc_program c)) ∅ = Some outs -> solves kernel c i outs.
Proof.
  intros [H1 H2 H3 H4 H5] Hn Hc. apply collect_outputs_sound in Hc as [Ho Hall]; [|apply Hshape|done].
  exists (st_values s). split_and!; [done|done|by rewrite Hn in H3| |done].
  intros role v. rewrite Ho, lookup_empty. split; [by intros [?|?]|by right].
Qed.

Lemma ewp_publish {o0 id s o} E : poised o0 id s o -> st_terminal s = false -> st_direct_sequence s = false ->
  st_next_operation s = length (xc_prepared c) -> ewp (publish id) (done_ok o0 id false) E o.
Proof.
  intros Hp Ht Hd Hn. destruct (poised_live _ _ _ _ Hp Ht Hd) as (i & Hg & Hint).
  apply ewp_bind, ewp_get_session, ewp_bind. eapply ewp_get_step; [exact Hp|].
  rewrite (ok_program _ _ (po_ok _ _ _ _ Hp)). destruct (collect_outputs _ _ _) as [outs|] eqn:Hc.
  2: { rewrite <- Hd. by apply (ewp_fail _ E Hp). }
  pose proof (collected_solves _ _ _ Hint Hn Hc) as Hs.
  apply ewp_bind. eapply ewp_on_step; [exact Hp|by apply may_end|]. intros o1 Hp1 _.
  apply ewp_bind. eapply ewp_finish; [exact Hp1|done|]. intros o2 Hp2.
  apply ewp_bind. set (s1 := _ <| st_terminal := true |>) in Hp2.
  assert (ewp (if st_close_after_success s then close else eret tt) (fun _ => poised o0 id s1) E o2) as Hclose.
  { destruct (st_close_after_success s); [eapply ewp_close; [exact Hp2|auto]|by apply ewp_ret]. }
  eapply ewp_mono; [exact Hclose| |done]. intros [] o3 [P1 P2 P3]. apply ewp_ret. split_and!; [done..|]. intros _. by exists i.
Qed.

Lemma ewp_issue {o0 id s o} : poised o0 id s o -> st_terminal s = false -> st_direct_sequence s = false ->
  (st_next_operation s < length (xc_prepared c))%nat ->
  ewp (issue id) (round_ok o0 id (fun s' => running_valid (st_inflight s') = true /\ st_next_operation s' = st_next_operation s))
    (thrown_ok o0) o.
Proof.
  intros Hp Ht Hd Hn. destruct (poised_live _ _ _ _ Hp Ht Hd) as (i & Hg & Hint).
  apply ewp_bind, ewp_get_session, ewp_bind. eapply ewp_get_step; [exact Hp|].
  rewrite (ok_program _ _ (po_ok _ _ _ _ Hp)). cbn.
  destruct (lookup_lt_is_Some_2 (xc_prepared c) _ Hn) as [instruction Hi]. rewrite Hi.
  destruct (lookup_lt_is_Some_2 (operations (xc_program c)) (st_next_operation s)) as [compiled Hc]; [by rewrite <- Hprepared|].
  rewrite Hc. destruct (gather_inputs _ _) as [current|] eqn:Hin; [|by eapply ewp_failed].
  assert (interpreting i (s <| st_current_inputs := current |>)) as Hint1 by (destruct Hint; by split).
  apply ewp_bind. eapply ewp_on_step; [exact Hp|by eapply may_continue|]. intros o1 Hp1 Hsess.
  destruct (provider_states (session o) !! pi_registry_index instruction) as [state|]; [|by eapply ewp_failed].
  apply ewp_bind, ewp_call. intros [handle|e] w Hw.
  2: { split; [by eapply raises_execute|]. by destruct (poised_same _ _ _ _ _ (same_world o1 w) Hp1). }
  pose proof (poised_same _ _ _ _ _ (same_world o1 w) Hp1) as Hp2.
  assert (interpreting i (s <| st_current_inputs := current |> <| st_inflight := handle |>)) as Hint2.
  { destruct Hint1. split; try done. cbn. intros h -> Hh. exists instruction, compiled, current. split_and!; [done..|].
    by eapply execute_runs. }
  apply ewp_bind. eapply ewp_on_step; [exact Hp2|by eapply may_continue|]. intros o2 Hp3 _.
  destruct (running_valid handle) eqn:Hv; cbn [negb]; [|by eapply ewp_failed].
  apply ewp_ret. eexists. split; [exact Hp3|]. done.
Qed.

(** The operation in flight is polled, if there is one. *)
Lemma ewp_poll_pending {o0 id s o} : poised o0 id s o -> st_terminal s = false -> st_direct_sequence s = false ->
  ewp (if running_valid (st_inflight s) then
         let^ completed := poll_inflight id in
         match completed with None => eret (inl None) | Some completed => take_completed id completed end
       else eret (inr tt))
    (round_ok o0 id (fun s' => (2 + length (xc_prepared c) - st_next_operation s' <= rounds_left s)%nat)) (thrown_ok o0) o.
Proof.
  intros Hp Ht Hd. destruct (poised_live _ _ _ _ Hp Ht Hd) as (i & Hg & Hint).
  destruct (running_valid (st_inflight s)) eqn:Hv.
  2: { apply ewp_ret. exists s. split_and!; [done..|]. unfold rounds_left. rewrite Hv. lia. }
  apply ewp_bind. eapply ewp_poll_inflight; [exact Hp|]. intros r h o1 w w' Hr Hp1.
  destruct (flight_polled _ _ _ _ _ _ Hint Hr) as [_ Hk]. destruct r as [r|].
  2: { apply ewp_ret. by destruct Hp1. }
  eapply ewp_mono; [by apply (ewp_take_completed r Hp1)| |done].
  intros [r'|[]] o2; [done|]. intros (s' & Hp2 & Ht2 & Hd2 & _ & Hn & Hl). exists s'. split_and!; [done..|].
  unfold rounds_left. rewrite Hv, Hn. lia.
Qed.

(** One round makes progress. *)
Lemma ewp_poll_round {o0 id s o} : poised o0 id s o -> st_terminal s = false -> st_direct_sequence s = false ->
  ewp (poll_round id) (round_ok o0 id (fun s' => (rounds_left s' < rounds_left s)%nat)) (thrown_ok o0) o.
Proof.
  intros Hp Ht Hd. apply ewp_bind, ewp_observe. intros now w _.
  pose proof (poised_same _ _ _ _ _ (same_world o w) Hp) as Hp1.
  apply ewp_bind, ewp_get_session. destruct (_ <? now); [by eapply ewp_failed|].
  apply ewp_bind. eapply ewp_get_step; [exact Hp1|]. apply ewp_early.
  rewrite (ok_program _ _ (po_ok _ _ _ _ Hp1)).
  eapply ewp_mono; [exact (ewp_poll_pending Hp1 Ht Hd)| |done]. intros [r|[]] o2; [done|].
  intros (s2 & Hp2 & Ht2 & Hd2 & Hle). apply ewp_bind. eapply ewp_get_step; [exact Hp2|].
  destruct (Nat.eqb_spec (st_next_operation s2) (length (xc_prepared c))) as [Hn|Hn].
  - apply ewp_bind. eapply ewp_mono; [by apply (ewp_publish (thrown_ok o0) Hp2)| |done]. intros r o3 Hr. by apply ewp_ret.
  - destruct (poised_live _ _ _ _ Hp2 Ht2 Hd2) as (i & Hg & Hint). pose proof (in_bound _ _ Hint).
    assert (st_next_operation s2 < length (xc_prepared c))%nat as Hlt by lia.
    eapply ewp_mono; [exact (ewp_issue Hp2 Ht2 Hd2 Hlt)| |done]. intros [r|[]] o3; [done|].
    intros (s3 & Hp3 & Ht3 & Hd3 & Hv & Hn3). exists s3. split_and!; [done..|]. unfold rounds_left at 1. rewrite Hv, Hn3. lia.
Qed.

Lemma ewp_poll_loop fuel {o0 id s o} : poised o0 id s o -> st_terminal s = false -> st_direct_sequence s = false ->
  (rounds_left s <= fuel)%nat -> (0 < fuel)%nat -> ewp (poll_loop fuel id) (done_ok o0 id false) (thrown_ok o0) o.
Proof.
  revert s o. induction fuel as [|fuel IH]; intros s o Hp Ht Hd Hf Hpos; [lia|].
  cbn [poll_loop]. apply ewp_bind. eapply ewp_mono; [exact (ewp_poll_round Hp Ht Hd)| |done].
  intros [r|[]] o1; [by intros; apply ewp_ret|]. intros (s1 & Hp1 & Ht1 & Hd1 & Hlt).
  apply (IH s1); [done..|lia|]. destruct (poised_live _ _ _ _ Hp1 Ht1 Hd1) as (i & _ & Hint). pose proof (in_bound _ _ Hint).
  unfold rounds_left in Hlt at 1. case_match; lia.
Qed.

(** A provider that runs the whole program. *)
Lemma ewp_poll_sequence {o0 id s o} E : poised o0 id s o -> st_terminal s = false -> st_direct_sequence s = true ->
  ewp (poll_sequence id) (done_ok o0 id true) E o.
Proof.
  intros Hp Ht Hd. apply ewp_bind, ewp_observe. intros now w _.
  pose proof (poised_same _ _ _ _ _ (same_world o w) Hp) as Hp1.
  assert (forall status s' o', poised o0 id s' o' -> st_direct_sequence s' = st_direct_sequence s -> status_ok status = false ->
    ewp (fail id status) (done_ok o0 id true) E o') as Hfail.
  { intros status s' o' Hp' Hd' Hst. rewrite <- Hd, <- Hd'. by apply (ewp_fail _ E Hp'). }
  apply ewp_bind, ewp_get_session. destruct (_ <? now); [by eapply Hfail|].
  apply ewp_bind. eapply ewp_poll_inflight; [exact Hp1|]. intros [r|] h o1 w1 w2 _ Hp2.
  2: { apply ewp_ret. by destruct Hp2. }
  apply ewp_bind. eapply ewp_on_step; [exact Hp2|exact (may_idle _ _ _ Hp2)|]. intros o2 Hp3 _.
  destruct (status_ok (ex_status r)) eqn:Hst; cbn [negb]; [|by eapply Hfail].
  rewrite (ok_program _ _ (po_ok _ _ _ _ Hp1)).
  destruct (length (ex_outputs r) =? length (outputs (xc_program c)))%nat eqn:Hl; cbn [negb]; [|by eapply Hfail].
  apply Nat.eqb_eq in Hl. destruct (sequence_outputs _ _ _) as [outs|] eqn:Hs; [|by eapply Hfail].
  apply sequence_outputs_sound in Hs as (Hs & _ & _); [|done|by intros ? ? ?%lookup_empty_Some|done].
  apply ewp_bind. eapply ewp_on_step; [exact Hp3|by apply may_end|]. intros o3 Hp4 _.
  apply ewp_bind. eapply ewp_finish; [exact Hp4|done|]. intros o4 [P1 P2 P3]. apply ewp_ret. split_and!; [done|done|intros _; exact Hs].
Qed.

Lemma ewp_step_poll {o0 id s o} : poised o0 id s o ->
  ewp (step_poll id) (done_ok o0 id (st_direct_sequence s)) (thrown_ok o0) o.
Proof.
  intros Hp. apply ewp_bind. eapply ewp_get_step; [exact Hp|].
  destruct (st_cancelled_result_pending s).
  { apply ewp_bind. eapply ewp_on_step; [exact Hp| |].
    - split; [done|]. intros Ht. split; [done|]. intros Hd.
      destruct (poised_live _ _ _ _ Hp Ht Hd) as (i & Hg & []). exists i. split; [done|]. by split.
    - intros o1 [P1 P2 P3] _. by apply ewp_ret. }
  destruct (st_terminal s) eqn:Ht. { apply ewp_ret. by destruct Hp. }
  destruct (st_direct_sequence s) eqn:Hd; [by apply (ewp_poll_sequence _ Hp)|].
  apply ewp_bind, ewp_get_session. apply (ewp_poll_loop _ Hp); [done..| |unfold poll_fuel; lia].
  unfold poll_fuel. rewrite (ok_program _ _ (po_ok _ _ _ _ Hp)). unfold rounds_left. lia.
Qed.

Lemma ewp_step_cancel {o0 id s o} publish E : poised o0 id s o ->
  ewp (step_cancel id publish) (fun _ o' => exists s', poised o0 id s' o') E o.
Proof.
  intros Hp. apply ewp_bind. eapply ewp_get_step; [exact Hp|]. destruct (st_terminal s) eqn:Ht.
  { apply ewp_ret. by exists s. }
  apply ewp_bind. eapply ewp_drop_inflight; [exact Hp|]. intros o1 Hp1.
  apply ewp_bind. eapply ewp_on_step; [exact Hp1|by apply may_end|]. intros o2 Hp2 _.
  eapply ewp_finish; [exact Hp2|done|]. intros o3 Hp3. by eexists.
Qed.

(** *** Handles of a step *)

Lemma here id s o : objects_ok given o -> request_steps o !! id = Some s -> poised o id s o.
Proof. intros H1 H2. split; [done|done|apply keeps_same]. Qed.

(** Cancelling throws nothing, so that its handler is not used. *)
Lemma ewp_step_cancel_caught {o0 id s o} publish (handler : exn -> EST Objs unit) E : poised o0 id s o ->
  ewp (catching_with (step_cancel id publish) handler) (fun _ o' => exists s', poised o0 id s' o') E o.
Proof. intros Hp. apply ewp_catch. eapply ewp_step_cancel; exact Hp. Qed.

Lemma ewp_program_poll h s o E : objects_ok given o -> request_steps o !! ph_step h = Some s -> ph_terminal h = false ->
  ewp (program_poll (Some h))
    (fun r o' => done_ok o (ph_step h) (st_direct_sequence s) r.1 o' /\
       r.2 = Some (mkProgramHandle (ph_step h) (bool_decide (is_Some r.1)))) E o.
Proof.
  intros Ho Hs Ht. unfold program_poll. rewrite Ht. apply ewp_catch. apply ewp_bind.
  eapply ewp_mono; [apply (ewp_step_poll (here _ _ _ Ho Hs))| |].
  - intros r o' Hr. by apply ewp_ret.
  - intros e o1 (He & H1 & H2). rewrite He. destruct (keeps_steps _ _ H2 _ _ Hs) as (s1 & Hs1 & Hd).
    apply ewp_bind. eapply ewp_mono; [eapply ewp_step_cancel_caught; by split| |done].
    intros [] o2 (s2 & Hp2). apply ewp_ret. split; [|done]. destruct Hp2. by split_and!.
Qed.

Lemma ewp_program_cancel h s o E : objects_ok given o -> request_steps o !! ph_step h = Some s ->
  ewp (program_cancel (Some h)) (fun h' o' => objects_ok given o' /\ keeps o o' /\ h' = Some (mkProgramHandle (ph_step h) true)) E o.
Proof.
  intros Ho Hs. unfold program_cancel. destruct (ph_terminal h) eqn:Ht.
  { apply ewp_ret. split_and!; [done|apply keeps_same|]. destruct h. cbn in Ht. by subst. }
  apply ewp_bind. eapply ewp_mono; [eapply ewp_step_cancel_caught, here; done| |done].
  intros [] o1 (s1 & []). by apply ewp_ret.
Qed.

(** The step of a handle that is destroyed is gone. *)
Lemma forget_step_ok id o : objects_ok given o -> objects_ok given (o <| request_steps %= delete id |>).
Proof.
  intros [H1 H2 H3 H4 H5 H6 H7 H8 H9]. split; try done; cbn.
  - intros j [s Hj]. apply H2. apply lookup_delete_Some in Hj as [_ Hj]. by exists s.
  - intros j s [_ Hj]%lookup_delete_Some. by apply H5.
Qed.

Lemma ewp_program_destroy h s o E : objects_ok given o -> request_steps o !! ph_step h = Some s ->
  ewp (program_destroy (Some h)) (fun _ o' => objects_ok given o' /\
    exists o1, keeps o o1 /\ o' = o1 <| request_steps %= delete (ph_step h) |>) E o.
Proof.
  intros Ho Hs. unfold program_destroy. apply ewp_bind.
  eapply ewp_mono; [by apply (ewp_program_cancel _ _ _ E Ho Hs)| |done]. intros h' o1 (H1 & H2 & _).
  apply ewp_modify. split; [by apply forget_step_ok|]. by exists o1.
Qed.

(** ** Exact decoding *)

Notation Decoding := (ExactStep (ExactRun := ExactRun)).
Implicit Types (x : Decoding).

Record decoding (o0 : Objs) (id : nat) (x : Decoding) (o : Objs) : Prop := {
  de_ok : objects_ok given o;
  de_step : exact_steps o !! id = Some x;
  de_keeps : keeps o0 o }.

Lemma decoding_here id x o : objects_ok given o -> exact_steps o !! id = Some x -> decoding o id x o.
Proof. intros H1 H2. split; [done|done|apply keeps_same]. Qed.

Lemma decoding_same o0 id x o o' : same o o' -> decoding o0 id x o -> decoding o0 id x o'.
Proof.
  intros Hs [H1 H2 H3]. split; [by eapply same_ok|by rewrite (same_exacts _ _ Hs)|].
  eapply keeps_chain; [done|]. by apply same_keeps.
Qed.

Lemma ewp_get_exact {o0 id x o} (Q : Decoding -> Objs -> Prop) E : decoding o0 id x o -> Q x o -> ewp (get_exact id) Q E o.
Proof. intros [_ Hx _] HQ. unfold ewp, get_exact. by rewrite Hx. Qed.

Lemma ewp_on_exact {o0 id x o} f (Q : unit -> Objs -> Prop) E :
  decoding o0 id x o -> exact_args (f x) = exact_args x -> (xs_terminal (f x) = false -> xs_terminal x = false) ->
  (forall o', decoding o0 id (f x) o' -> Q tt o') -> ewp (on_exact id f) Q E o.
Proof.
  intros [Ho Hx Hk] Ha Ht HQ. apply ewp_modify. apply HQ. split.
  - destruct Ho as [H1 H2 H3 H4 H5 H6 H7 H8 H9]. split; try done; cbn.
    + intros j Hj. apply H3. by rewrite lookup_alter_is_Some in Hj.
    + intros j x'. destruct (decide (id = j)) as [<-|Hne].
      * rewrite lookup_alter_eq, Hx. intros [= <-] Hl. apply (H6 _ x); auto.
      * rewrite lookup_alter_ne by done. apply H6.
  - cbn. by rewrite lookup_alter_eq, Hx.
  - eapply keeps_chain; [done|]. split; cbn; [by eauto| |lia]. intros j x' Hj. destruct (decide (id = j)) as [<-|Hne].
    + rewrite lookup_alter_eq, Hj. assert (x' = x) as -> by congruence. by eexists.
    + rewrite lookup_alter_ne by done. by eexists.
Qed.

Definition released_exact (id : nat) (b : bool) (x : Sess) : Sess :=
  clear_if_closed (close_unless b (if bool_decide (active_exact x = Some id) then x <| active_exact := None |> <| active := false |> else x)).

Lemma released_exact_ok id x b o : objects_ok given o -> exact_steps o !! id = Some x -> xs_terminal x = true ->
  objects_ok given (with_session (released_exact id b (session o)) o).
Proof.
  intros [H1 H2 H3 H4 H5 H6 H7 H8 H9] Hx Ht. unfold released_exact, clear_if_closed, close_unless, with_session.
  assert (forall j x', exact_steps o !! j = Some x' -> xs_terminal x' = false -> active_exact (session o) <> Some id) as Hother.
  { intros j x' Hj Hl Ha. destruct (H6 _ _ Hj Hl) as (He&_). rewrite Ha in He. injection He as ->. congruence. }
  destruct o as [[pg rq st as_ ae ac pk cl rt pp ppg pb] rs es nx w]; cbn in *.
  destruct (bool_decide_reflect (ae = Some id)) as [Ha|Ha].
  - assert (as_ = None) as Hs by (destruct H7 as [?|?]; congruence).
    destruct b, cl, rt; cbn in *; split; cbn; auto; try done.
    all: intros j s Hj Hl; first [by destruct (Hother j s Hj Hl) | destruct (H5 _ _ Hj Hl); congruence].
  - destruct b, cl, rt; cbn in *; split; cbn; auto; done.
Qed.

Lemma ewp_end_exact {o0 id x o} b (Q : unit -> Objs -> Prop) E :
  decoding o0 id x o -> (forall o', decoding o0 id (x <| xs_terminal := true |>) o' -> Q tt o') -> ewp (end_exact id b) Q E o.
Proof.
  intros Hp HQ. apply ewp_bind. eapply ewp_on_exact; [exact Hp|done|done|]. intros o1 [H1 H2 H3]. apply ewp_modify.
  change (Q tt (with_session (released_exact id b (session o1)) o1)).
  apply HQ. split; [by eapply released_exact_ok|done|by destruct H3].
Qed.

(** A result of exact decoding that keeps the contract of the artifact. *)
Definition decoded_ok (x : Decoding) (r : option ExactDecodeExecutionResult) : Prop :=
  match r with None => True | Some r => status_ok (xd_status r) = true -> decode_violates x r = false end.

Definition decoded (o0 : Objs) (x : Decoding) (r : option ExactDecodeExecutionResult) (o : Objs) : Prop :=
  objects_ok given o /\ keeps o0 o /\ decoded_ok x r.

Lemma ewp_exact_poll {o0 id x o} E : decoding o0 id x o -> ewp (exact_poll id) (decoded o0 x) E o.
Proof.
  intros Hp. apply ewp_bind. eapply ewp_get_exact; [exact Hp|]. destruct (xs_terminal x) eqn:Ht.
  { apply ewp_ret. by destruct Hp. }
  apply ewp_bind. apply ewp_bind. eapply ewp_get_exact; [exact Hp|]. apply ewp_bind, ewp_observe. intros [r h] w _.
  pose proof (decoding_same _ _ _ _ _ (same_world o w) Hp) as Hp1. apply ewp_bind.
  eapply ewp_on_exact; [exact Hp1|done|done|]. intros o1 Hp2. apply ewp_ret. cbn. destruct r as [r|].
  2: { apply ewp_ret. by destruct Hp2. }
  apply ewp_bind. eapply ewp_on_exact; [exact Hp2|done|done|]. intros o2 Hp3.
  destruct (status_ok (xd_status r)) eqn:Hst; cbn [negb].
  2: { apply ewp_bind. eapply ewp_end_exact; [exact Hp3|]. intros o3 [P1 P2 P3]. apply ewp_ret.
       split_and!; [done|done|]. cbn. congruence. }
  destruct (decode_violates x r) eqn:Hv.
  - apply ewp_bind. eapply ewp_end_exact; [exact Hp3|]. intros o3 [P1 P2 P3]. apply ewp_ret.
    split_and!; [done|done|by intros [=]].
  - apply ewp_bind. eapply ewp_end_exact; [exact Hp3|]. intros o3 [P1 P2 P3]. apply ewp_ret.
    split_and!; [done|done|intros _; exact Hv].
Qed.

Lemma ewp_exact_cancel {o0 id x o} E : decoding o0 id x o ->
  ewp (exact_cancel id) (fun _ o' => objects_ok given o' /\ keeps o0 o') E o.
Proof.
  intros Hp. apply ewp_bind. eapply ewp_get_exact; [exact Hp|]. destruct (xs_terminal x) eqn:Ht.
  { apply ewp_ret. by destruct Hp. }
  apply ewp_bind, ewp_observe. intros h w _. pose proof (decoding_same _ _ _ _ _ (same_world o w) Hp) as Hp1. apply ewp_bind.
  eapply ewp_on_exact; [exact Hp1|done|done|]. intros o1 Hp2. eapply ewp_end_exact; [exact Hp2|]. by intros o2 [].
Qed.

Lemma ewp_exact_handle_poll h x o E : objects_ok given o -> exact_steps o !! xh_step h = Some x -> xh_terminal h = false ->
  ewp (exact_handle_poll (Some h))
    (fun r o' => decoded o x r.1 o' /\ r.2 = Some (mkExactHandle (xh_step h) (bool_decide (is_Some r.1)))) E o.
Proof.
  intros Ho Hx Ht. unfold exact_handle_poll. rewrite Ht. apply ewp_catch. apply ewp_bind.
  eapply ewp_mono; [apply (ewp_exact_poll (fun _ _ => False) (decoding_here _ _ _ Ho Hx))| |done].
  intros r o' Hr. by apply ewp_ret.
Qed.

Lemma ewp_exact_handle_cancel h x o E : objects_ok given o -> exact_steps o !! xh_step h = Some x ->
  ewp (exact_handle_cancel (Some h)) (fun h' o' => objects_ok given o' /\ keeps o o' /\ h' = Some (mkExactHandle (xh_step h) true)) E o.
Proof.
  intros Ho Hx. unfold exact_handle_cancel. destruct (xh_terminal h) eqn:Ht.
  { apply ewp_ret. split_and!; [done|apply keeps_same|]. destruct h. cbn in Ht. by subst. }
  apply ewp_bind, ewp_catch.
  eapply ewp_mono; [apply (ewp_exact_cancel (fun _ _ => False) (decoding_here _ _ _ Ho Hx))| |done].
  intros [] o1 (H1 & H2). by apply ewp_ret.
Qed.

Lemma forget_exact_ok id o : objects_ok given o -> objects_ok given (o <| exact_steps %= delete id |>).
Proof.
  intros [H1 H2 H3 H4 H5 H6 H7 H8 H9]. split; try done; cbn.
  - intros j [x Hj]. apply H3. apply lookup_delete_Some in Hj as [_ Hj]. by exists x.
  - intros j x [_ Hj]%lookup_delete_Some. by apply H6.
Qed.

Lemma ewp_exact_destroy h x o E : objects_ok given o -> exact_steps o !! xh_step h = Some x ->
  ewp (exact_destroy (Some h)) (fun _ o' => objects_ok given o' /\
    exists o1, keeps o o1 /\ o' = o1 <| exact_steps %= delete (xh_step h) |>) E o.
Proof.
  intros Ho Hx. unfold exact_destroy. apply ewp_bind.
  eapply ewp_mono; [by apply (ewp_exact_handle_cancel _ _ _ E Ho Hx)| |done]. intros h' o1 (H1 & H2 & _).
  apply ewp_modify. split; [by apply forget_exact_ok|]. by exists o1.
Qed.

(** What an operation of a session leaves. *)
Definition kept (o0 : Objs) (o : Objs) : Prop := objects_ok given o /\ keeps o0 o.

Lemma ewp_kept_calm {A} X (m : EST Objs A) o : calm X m -> objects_ok given o ->
  ewp m (fun _ => kept o) (fun e o' => X e /\ kept o o') o.
Proof.
  intros Hm Ho. eapply ewp_mono; [apply Hm| |].
  - intros a o' Hs. split; [exact (same_ok _ _ _ Hs Ho)|by apply same_keeps].
  - intros e o' [He Hs]. split; [done|]. split; [exact (same_ok _ _ _ Hs Ho)|by apply same_keeps].
Qed.

(** *** A session that is cancelled *)

Lemma closing_ok o : objects_ok given o -> active (session o) = true ->
  objects_ok given (with_session ((session o) <| closed := true |>) o).
Proof.
  intros [H1 H2 H3 H4 H5 H6 H7 H8 H9] Ha. destruct o as [[pg rq st as_ ae ac pk cl rt pp ppg pb] rs es nx w]; cbn in *.
  split; cbn in *; auto; congruence.
Qed.

(** What is live is what the session refers to. *)
Lemma locked_step id s o : request_steps o !! id = Some s -> active_step (session o) = Some id ->
  lock_step (session o) o = Some id.
Proof. intros Hs Ha. unfold lock_step. rewrite Ha, Hs. rewrite bool_decide_true; [done|by eexists]. Qed.

Lemma locked_exact id x o : exact_steps o !! id = Some x -> active_exact (session o) = Some id ->
  lock_exact (session o) o = Some id.
Proof. intros Hx Ha. unfold lock_exact. rewrite Ha, Hx. rewrite bool_decide_true; [done|by eexists]. Qed.

Lemma lock_step_there id o : lock_step (session o) o = Some id -> exists s, request_steps o !! id = Some s.
Proof.
  unfold lock_step. destruct (active_step (session o)) as [j|]; [|done].
  destruct (bool_decide_reflect (is_Some (request_steps o !! j))) as [[s Hs]|]; [|done]. intros [= <-]. by exists s.
Qed.

Lemma lock_exact_there id o : lock_exact (session o) o = Some id -> exists x, exact_steps o !! id = Some x.
Proof.
  unfold lock_exact. destruct (active_exact (session o)) as [j|]; [|done].
  destruct (bool_decide_reflect (is_Some (exact_steps o !! j))) as [[x Hx]|]; [|done]. intros [= <-]. by exists x.
Qed.

(** Nothing runs, so that the states can go. *)
Lemma clearing_ok o : objects_ok given o -> lock_step (session o) o = None -> lock_exact (session o) o = None ->
  objects_ok given (with_session ((session o) <| closed := true |> <| active := false |> <| provider_states := ∅ |>) o).
Proof.
  intros [H1 H2 H3 H4 H5 H6 H7 H8 H9] Hs Hx. split; cbn; auto; try done.
  - intros j s Hj Hl. destruct (H5 _ _ Hj Hl) as (Ha & _). by rewrite (locked_step _ _ _ Hj Ha) in Hs.
  - intros j x Hj Hl. destruct (H6 _ _ Hj Hl) as (Ha & _). by rewrite (locked_exact _ _ _ Hj Ha) in Hx.
Qed.

Lemma with_session_keeps (y : Sess) o0 o : keeps o0 o -> keeps o0 (with_session y o).
Proof. by intros []. Qed.

Lemma ewp_session_cancel o E : objects_ok given o -> ewp session_cancel (fun _ => kept o) E o.
Proof.
  intros Ho. unfold session_cancel. apply ewp_bind. unfold ewp at 1, eget.
  change (ewp (if closed (session o) && negb (active (session o)) then eret tt else
    on_session (fun y => y <| closed := true |>) ;^
    match lock_step (session o) o, lock_exact (session o) o with
    | None, None => on_session (fun y => y <| active := false |> <| provider_states := ∅ |>)
    | step, exact => match step with Some id => step_cancel id true | None => eret tt end ;^
                     match exact with Some id => exact_cancel id | None => eret tt end
    end) (fun _ => kept o) E o).
  destruct (closed (session o) && negb (active (session o))) eqn:Hopen.
  { apply ewp_ret. split; [done|apply keeps_same]. }
  apply ewp_bind, ewp_modify.
  change (o <| session %= fun y => y <| closed := true |> |>) with (with_session ((session o) <| closed := true |>) o).
  assert (lock_step (session o) o = None -> lock_exact (session o) o = None -> ewp
      (on_session (fun y => y <| active := false |> <| provider_states := ∅ |>)) (fun _ => kept o) E
      (with_session ((session o) <| closed := true |>) o)) as Hnone.
  { intros Hs Hx. apply ewp_modify. split; [exact (clearing_ok o Ho Hs Hx)|by apply (with_session_keeps _ o o), keeps_same]. }
  destruct (active (session o)) eqn:Hact.
  2: { rewrite andb_true_r in Hopen.
       assert (lock_step (session o) o = None /\ lock_exact (session o) o = None) as [Hs Hx]; [|rewrite Hs, Hx; by apply Hnone].
       destruct (ok_idle _ _ Ho Hact Hopen) as [Hs Hx]. unfold lock_step, lock_exact. by rewrite Hs, Hx. }
  pose proof (closing_ok _ Ho Hact) as Ho1.
  assert (keeps o (with_session ((session o) <| closed := true |>) o)) as Hk1 by apply with_session_keeps, keeps_same.
  destruct (lock_step (session o) o) as [id|] eqn:Hs.
  - apply lock_step_there in Hs as [s Hs].
    apply ewp_bind. eapply ewp_mono; [apply (ewp_step_cancel (o0 := o) (id := id) (s := s) true E); by split| |done].
    intros [] o1 (s1 & [P1 P2 P3]). destruct (lock_exact (session o) o) as [idx|] eqn:Hx; [|by apply ewp_ret].
    apply lock_exact_there in Hx as [x Hx]. destruct (keeps_exacts _ _ P3 _ _ Hx) as (x1 & Hx1 & _).
    apply (ewp_exact_cancel (o0 := o) (id := idx) (x := x1)). by split.
  - destruct (lock_exact (session o) o) as [idx|] eqn:Hx; [|by apply Hnone].
    apply lock_exact_there in Hx as [x Hx]. apply ewp_bind, ewp_ret. apply (ewp_exact_cancel (o0 := o) (id := idx) (x := x)). by split.
Qed.

(** *** Synchronizing *)

Lemma ewp_synchronize tokens position draft o : objects_ok given o ->
  ewp (synchronize_exact tokens position draft) (fun _ => kept o) (fun e _ => fatal e) o.
Proof.
  intros Ho. assert (kept o o) as Hsame by (split; [done|apply keeps_same]).
  apply ewp_bind, ewp_get_session. destruct (xc_exact_decode _) as [exact|]; [|by apply ewp_ret].
  destruct (synchronization_invalid _ _ _); [by apply ewp_ret|].
  destruct (closed (session o)) eqn:Hcl; [by apply ewp_ret|]. destruct (active (session o)) eqn:Hact; [by apply ewp_ret|].
  destruct (provider_states (session o) !! _) as [state|]; [|by apply ewp_ret].
  destruct (ok_idle _ _ Ho Hact Hcl) as [Hs Hx].
  apply ewp_bind, ewp_modify, ewp_bind. eapply ewp_mono; [apply calm_noexcept| |].
  - intros w e w' Hw. by eapply raises_synchronize.
  - intros [_ Hq] w e w'. apply Hq.
  - intros status o1 [S1 S2 S3 S4 S5 S6 S7 S8 S9]. apply ewp_bind, ewp_modify, ewp_ret.
    destruct Ho as [H1 H2 H3 H4 H5 H6 H7 H8 H9].
    destruct o as [[pg rq st as_ ae ac pk cl rt pp ppg pb] rs es nx w],
      o1 as [[pg' rq' st' as_' ae' ac' pk' cl' rt' pp' ppg' pb'] rs' es' nx' w']; cbn in *. subst.
    split; [|split; cbn; eauto].
    destruct (status_ok status); cbn; split; cbn; auto; try done.
    all: intros j y Hj Hl; first [by destruct (H5 _ _ Hj Hl) as (_ & ? & _) | by destruct (H6 _ _ Hj Hl) as (_ & ?)].
  - by intros e o1 [He _].
Qed.
End Given.

(** *** Starting a step *)

Lemma ok_mono given given' o : objects_ok given o -> (forall id, (id < next_object o)%nat -> given' !! id = given !! id) ->
  (forall id, is_Some (given' !! id) -> (id < next_object o)%nat) -> objects_ok given' o.
Proof.
  intros [H1 H2 H3 H4 H5 H6 H7 H8 H9] Hg Hd. split; try done. intros id s Hs Hl.
  rewrite Hg; [by apply H5|]. apply H2. by eexists.
Qed.

(** A session that is open and idle takes a new step. *)
Lemma begin_step_ok given given' step o : objects_ok given o -> closed (session o) = false -> active (session o) = false ->
  (forall id, (id < next_object o)%nat -> given' !! id = given !! id) ->
  (forall id, is_Some (given' !! id) -> (id <= next_object o)%nat) ->
  step_ok (given' !! next_object o) step ->
  forall (Q : nat -> Objs -> Prop) (E : exn -> Objs -> Prop), (forall o', objects_ok given' o' -> keeps o o' -> request_steps o' !! next_object o = Some step ->
                next_object o' = S (next_object o) -> Q (next_object o) o') ->
  ewp (begin_step step) Q E o.
Proof.
  intros Ho Hcl Hact Hg Hd Hok Q E HQ. destruct (ok_idle _ _ Ho Hact Hcl) as [Hs Hx].
  unfold ewp, begin_step. destruct Ho as [H1 H2 H3 H4 H5 H6 H7 H8 H9].
  assert (request_steps o !! next_object o = None) as Hfresh.
  { apply eq_None_not_Some. intros Hn. apply H2 in Hn. lia. }
  apply HQ.
  - split; cbn; auto; try done.
    + intros id Hid. apply lookup_insert_is_Some' in Hid as [->|Hid]; [lia|]. apply H2 in Hid. lia.
    + intros id Hid. apply H3 in Hid. lia.
    + intros id Hid. apply Hd in Hid. lia.
    + intros id s. destruct (decide (next_object o = id)) as [<-|Hne].
      * rewrite lookup_insert_eq. by intros [= <-].
      * rewrite lookup_insert_ne by done. intros Hid Hl. destruct (H5 _ _ Hid Hl) as (? & ? & _). congruence.
    + intros id x Hid Hl. destruct (H6 _ _ Hid Hl) as (? & ?). congruence.
  - split; cbn; [|by eauto|lia]. intros id s Hid. rewrite lookup_insert_ne by congruence. by eauto.
  - cbn. apply lookup_insert_eq.
  - done.
Qed.

(** Inputs that a step of the interpreter begins with. *)
Lemma placed_interpreting ins env :
  place_inputs (xc_program c) ins (replicate (length (values (xc_program c))) None) (inputs (xc_program c)) = Some env ->
  forall close_after, interpreting ins (mkStep env [] None 0 close_after false false false).
Proof.
  intros Hp close_after. assert (forall i, value_at (replicate (length (values (xc_program c))) None) i = None) as Hnone.
  { intros i. apply eq_None_not_Some. intros [v [_ Hv]%value_at_Some]. apply lookup_replicate in Hv as [? _]. done. }
  apply place_inputs_sound in Hp as (Hw & _ & Hin); [|apply Hshape| |apply Hshape|apply Hshape|auto].
  - split; cbn; [done|done| |lia|done]. intros i ? ? Hi. lia.
  - split; [apply length_replicate|]. intros i v. by rewrite Hnone.
Qed.

Lemma ewp_start given ins close_after o E : objects_ok given o ->
  ewp (start ins close_after)
    (fun r o' => match r.2 with
       | None => status_ok r.1 = false /\ o' = o
       | Some h => h = mkProgramHandle (next_object o) false /\ status_ok r.1 = true /\
           closed (session o) = false /\ active (session o) = false /\
           objects_ok (<[next_object o := ins]> given) o' /\ keeps o o' /\
           exists s, request_steps o' !! next_object o = Some s /\ st_direct_sequence s = false
       end) E o.
Proof.
  intros Ho. apply ewp_bind, ewp_get_session. cbv zeta. rewrite (ok_program _ _ Ho).
  destruct (size ins =? length (inputs (xc_program c)))%nat; cbn [negb]; [|by apply ewp_ret].
  destruct (place_inputs _ _ _ _) as [env|] eqn:Hp; [|by apply ewp_ret].
  destruct (closed (session o)) eqn:Hcl; [by apply ewp_ret|]. destruct (active (session o)) eqn:Hact; [by apply ewp_ret|].
  apply ewp_bind. eapply (begin_step_ok given (<[next_object o := ins]> given)); [done..| | | |].
  - intros id Hid. apply lookup_insert_ne. lia.
  - intros id Hid. apply lookup_insert_is_Some' in Hid as [->|Hid]; [lia|]. apply (ok_given _ _ Ho) in Hid. lia.
  - intros _. exists ins. split; [apply lookup_insert_eq|by apply placed_interpreting].
  - intros o' H1 H2 H3 H4. apply ewp_ret. split_and!; try done. by eexists.
Qed.

Lemma begin_exact_ok given step o : objects_ok given o -> closed (session o) = false -> active (session o) = false ->
  forall (Q : nat -> Objs -> Prop) (E : exn -> Objs -> Prop), (forall o', objects_ok given o' -> keeps o o' ->
    exact_steps o' !! next_object o = Some step -> Q (next_object o) o') -> ewp (begin_exact step) Q E o.
Proof.
  intros Ho Hcl Hact Q E HQ. destruct (ok_idle _ _ Ho Hact Hcl) as [Hs Hx].
  unfold ewp, begin_exact. destruct Ho as [H1 H2 H3 H4 H5 H6 H7 H8 H9].
  assert (exact_steps o !! next_object o = None) as Hfresh.
  { apply eq_None_not_Some. intros Hn. apply H3 in Hn. lia. }
  apply HQ.
  - split; cbn; auto; try done.
    + intros id Hid. apply H2 in Hid. lia.
    + intros id Hid. apply lookup_insert_is_Some' in Hid as [->|Hid]; [lia|]. apply H3 in Hid. lia.
    + intros id Hid. apply H4 in Hid. lia.
    + intros id s Hid Hl. destruct (H5 _ _ Hid Hl) as (? & ? & _). congruence.
    + intros id x. destruct (decide (next_object o = id)) as [<-|Hne].
      * rewrite lookup_insert_eq. by intros [= <-].
      * rewrite lookup_insert_ne by done. intros Hid Hl. destruct (H6 _ _ Hid Hl) as (? & ?). congruence.
  - split; cbn; [by eauto| |lia]. intros id x Hid. rewrite lookup_insert_ne by congruence. by eauto.
  - cbn. apply lookup_insert_eq.
Qed.

(** A step that nobody else has seen can go. *)
Lemma keeps_forget given o o' : objects_ok given o -> keeps o o' ->
  keeps o (o' <| request_steps %= delete (next_object o) |>).
Proof.
  intros Ho [H1 H2 H3]. split; cbn; [|done|done]. intros id s Hs. rewrite lookup_delete_ne; [by apply H1|].
  intros <-. assert (next_object o < next_object o)%nat; [|lia]. apply (ok_steps _ _ Ho). by eexists.
Qed.

Lemma keeps_forget_exact given o o' : objects_ok given o -> keeps o o' ->
  keeps o (o' <| exact_steps %= delete (next_object o) |>).
Proof.
  intros Ho [H1 H2 H3]. split; cbn; [done| |done]. intros id x Hx. rewrite lookup_delete_ne; [by apply H2|].
  intros <-. assert (next_object o < next_object o)%nat; [|lia]. apply (ok_exacts _ _ Ho). by eexists.
Qed.

Lemma ewp_start_sequence given ins o : objects_ok given o ->
  ewp (start_sequence ins)
    (fun r o' => match r.2 with
       | None => kept given o o'
       | Some h => h = mkProgramHandle (next_object o) false /\ kept given o o' /\
           exists s, request_steps o' !! next_object o = Some s /\ st_direct_sequence s = true
       end) (fun e o' => caught e = true /\ kept given o o') o.
Proof.
  intros Ho. assert (kept given o o) as Hsame by (split; [done|apply keeps_same]).
  apply ewp_bind, ewp_get_session. cbv zeta. rewrite (ok_program _ _ Ho).
  destruct (xc_sequence c) as [sequence|]; [|by apply ewp_ret].
  destruct (size ins =? length (inputs (xc_program c)))%nat; cbn [negb]; [|by apply ewp_ret].
  destruct (sequence_inputs _ _ _) as [current|]; [|by apply ewp_ret].
  destruct (closed (session o)) eqn:Hcl; [by apply ewp_ret|]. destruct (active (session o)) eqn:Hact; [by apply ewp_ret|].
  destruct (provider_states (session o) !! _) as [state|]; [|by apply ewp_ret].
  apply ewp_bind. eapply (begin_step_ok given given); [done..| | | |].
  { by intros. } { intros id Hid. apply (ok_given _ _ Ho) in Hid. lia. } { by intros ?. }
  intros o1 H1 H2 H3 _. apply ewp_bind, ewp_catch, ewp_call. intros [handle|e] w Hw.
  2: { rewrite (raises_execute_sequence _ _ _ _ _ _ _ _ _ Hw). apply ewp_bind, ewp_modify, ewp_throw.
       split; [by eapply raises_execute_sequence|]. split; [by apply forget_step_ok, (same_ok _ _ _ (same_world o1 w))|].
       apply (keeps_forget given); [done|by destruct H2]. }
  assert (poised given o (next_object o) (mkStep [] current None 0 false true false false) (o1 <| world := w |>)) as Hp.
  { split; [by apply (same_ok _ _ _ (same_world o1 w))|done|by destruct H2]. }
  apply ewp_bind. eapply ewp_on_step; [exact Hp|by split|]. intros o2 Hp2 _.
  destruct (running_valid handle); cbn [negb].
  - apply ewp_ret. destruct Hp2 as [P1 P2 P3]. split_and!; [done|by split|]. by eexists.
  - apply ewp_bind. eapply ewp_mono; [exact (ewp_step_cancel given false (fun _ _ => False) Hp2)| |done]. intros [] o3 (s3 & [P1 P2 P3]).
    apply ewp_bind, ewp_modify, ewp_ret. split; [by apply forget_step_ok|by apply (keeps_forget given)].
Qed.

Lemma ewp_start_exact given token position limit o : objects_ok given o ->
  ewp (start_exact token position limit)
    (fun r o' => match r.2 with
       | None => kept given o o'
       | Some h => h = mkExactHandle (next_object o) false /\ kept given o o' /\
           exists x exact, exact_steps o' !! next_object o = Some x /\ xc_exact_decode c = Some exact /\
             exact_args x = (token, position, limit, vocab_size (xc_descriptor c), px_maximum_emitted_tokens exact) /\
             token < vocab_size (xc_descriptor c) /\ position < limit /\ limit <= max_context_tokens (xc_descriptor c)
       end) (fun e o' => caught e = true /\ kept given o o') o.
Proof.
  intros Ho. assert (kept given o o) as Hsame by (split; [done|apply keeps_same]).
  apply ewp_bind, ewp_get_session. cbv zeta. rewrite (ok_program _ _ Ho).
  destruct (xc_exact_decode c) as [exact|] eqn:Hexact; [|by apply ewp_ret].
  destruct (_ || _) eqn:Hargs; [by apply ewp_ret|].
  apply orb_false_iff in Hargs as [[Htok%Z.leb_gt Hpos%Z.leb_gt]%orb_false_iff Hlim%Z.ltb_ge].
  destruct (closed (session o)) eqn:Hcl; [by apply ewp_ret|]. destruct (active (session o)) eqn:Hact; [by apply ewp_ret|].
  destruct (provider_states (session o) !! _) as [state|]; [|by apply ewp_ret].
  apply ewp_bind. eapply (begin_exact_ok given); [done..|].
  intros o1 H1 H2 H3. apply ewp_bind, ewp_catch, ewp_call. intros [handle|e] w Hw.
  2: { rewrite (raises_execute_exact _ _ _ _ _ _ _ _ _ _ Hw). apply ewp_bind, ewp_modify, ewp_throw.
       split; [by eapply raises_execute_exact|]. split; [by apply forget_exact_ok, (same_ok _ _ _ (same_world o1 w))|].
       apply (keeps_forget_exact given); [done|by destruct H2]. }
  assert (decoding given o (next_object o) (mkExactStep None token position limit (vocab_size (xc_descriptor c))
      (px_maximum_emitted_tokens exact) false) (o1 <| world := w |>)) as Hp.
  { split; [by apply (same_ok _ _ _ (same_world o1 w))|done|by destruct H2]. }
  apply ewp_bind. eapply ewp_on_exact; [exact Hp|done|done|]. intros o2 Hp2.
  destruct (running_valid handle); cbn [negb].
  - apply ewp_ret. destruct Hp2 as [P1 P2 P3]. split_and!; [done|by split|]. eexists _, exact. split_and!; done.
  - apply ewp_bind. eapply ewp_end_exact; [exact Hp2|]. intros o3 [P1 P2 P3].
    apply ewp_bind, ewp_modify, ewp_ret. split; [by apply forget_exact_ok|by apply (keeps_forget_exact given)].
Qed.
End Session.
