(* ===== verification/ProgramExecutorTheorems.v ===== *)
(** What is proved of program execution: how programs are prepared, what the clients of a
    session can observe, and that the results they are given solve the model's equations. *)

From S2P Require Import Prelude.
From S2P Require Import Storage.
From S2P Require Import Text.
From S2P Require Import ModelDescriptor.
From S2P Require Import ModelDescriptorTheorems.
From S2P Require Import ModelProgram.
From S2P Require Import ModelProgramTheorems.
From S2P Require Import ProviderRegistry.
From S2P Require Import ProviderRegistryTheorems.
From S2P Require Import TensorStore.
From S2P Require Import ProgramExecutor.
From S2P Require Import ProgramExecutorLogic.
From S2P Require Import ProgramExecutorSession.

#[local] Open Scope bool_scope.
#[local] Open Scope Z_scope.

(** ** Preparation *)

Section Preparation.
Context {W Provider Operation PState OpRun ExactRun : Type} `{!EqDecision Provider}
  `{!Providers W Provider Operation PState OpRun ExactRun}.

Notation Instruction := (PreparedInstruction (Provider := Provider) (Operation := Operation)).
Notation Decode := (PreparedExactDecode (Provider := Provider) (Operation := Operation)).
Notation Core := (ExecutorCore (Provider := Provider) (Operation := Operation)).
Notation Cache := (gmap (list Z) ImmutableModelTensor).
Notation Bound := (BoundExecutionProvider Provider).

(** The provider with a registry index. *)
Definition plan_provider (p : Bound) (registry_index : Z) (provider : Provider) : Prop :=
  exists item, item ∈ bound_providers p /\ br_registry_index item = registry_index /\ br_implementation item = Some provider.

(** Tensors under the roles of their bindings, those of one name being one tensor. *)
Definition tensors_bound (resolved : Cache) (bindings : list (list Z * list Z)) (tensors : list PreparedTensorBinding) : Prop :=
  Forall2 (fun b t => pt_role t = b.1 /\ resolved !! b.2 = Some (pt_tensor t) /\ tensor_usable b.2 (pt_tensor t) = true)
    bindings tensors.

(** An instruction that the provider of its kernel has prepared, with its tensors. *)
Record prepared_for (p : Bound) (resolved : Cache) (source : OperationProgramDescriptor) (compiled : CompiledOperationProgram)
    (i : Instruction) : Prop := {
  pf_index : kernel_provider (program p) (co_kernel_binding compiled) = Some (pi_registry_index i);
  pf_provider : plan_provider p (pi_registry_index i) (pi_provider i);
  pf_tensors : tensors_bound resolved (ordered bytes_ltb (op_tensor_bindings source)) (pi_tensors i);
  pf_prepared : exists status w w', status_ok status = true /\
    pv_prepare (pi_provider i) source compiled (pi_tensors i) w = (Ok (status, Some (pi_operation i)), w') }.

Record decode_prepared_for (p : Bound) (resolved : Cache) (source : ExactDecodeProgramDescriptor)
    (compiled : CompiledExactDecodeProgram) (x : Decode) : Prop := {
  pd_index : kernel_provider (program p) (cd_kernel_binding compiled) = Some (px_registry_index x);
  pd_provider : plan_provider p (px_registry_index x) (px_provider x);
  pd_tensors : tensors_bound resolved (ordered bytes_ltb (ed_tensor_bindings source)) (px_tensors x);
  pd_tokens : px_maximum_emitted_tokens x = ed_maximum_emitted_tokens source;
  pd_prepared : exists status w w', status_ok status = true /\
    pv_prepare_exact (px_provider x) source compiled (px_tensors x) w = (Ok (status, Some (px_operation x)), w') }.

(** An executor that carries out the plan [p] of the model [d]. *)
Record carries_out (d : ModelDescriptor) (p : Bound) (c : Core) : Prop := {
  ca_descriptor : xc_descriptor c = d;
  ca_plan : xc_provider c = p;
  ca_valid : status_ok (validate_model_descriptor d) = true;
  ca_schema : 3 <= schema_version d;
  ca_values : values (program p) <> [];
  ca_length : length (xc_prepared c) = length (operation_program d) /\ length (operations (program p)) = length (operation_program d);
  ca_operations : exists resolved,
    (forall n source compiled i, operation_program d !! n = Some source -> operations (program p) !! n = Some compiled ->
       xc_prepared c !! n = Some i -> prepared_for p resolved source compiled i) /\
    match exact_decode_program d, exact_decode (program p), xc_exact_decode c with
    | Some source, Some compiled, Some x => decode_prepared_for p resolved source compiled x
    | None, None, None => True
    | _, _, _ => False
    end;
  ca_sequence : forall q, xc_sequence c = Some q ->
    pv_supports_sequence (sq_provider q) (program p) = true /\ sq_operations q = pi_operation <$> xc_prepared c /\
    forall n i, xc_prepared c !! n = Some i -> pi_provider i = sq_provider q /\ pi_registry_index i = sq_registry_index q }.

(** *** The loops *)

Notation anything := (fun _ _ => True).

(** A loop that returns early says why. *)
Definition either {A} (P : A -> Prop) (r : Status + A) (w : W) : Prop := match r with inl status => status_ok status = false | inr a => P a end.

Lemma index_providers_refused l m st : index_providers (Provider := Provider) m l = inl st -> status_ok st = false.
Proof.
  revert m. induction l as [|item l IH]; intros m; cbn; [done|].
  destruct (br_implementation item), (m !! br_registry_index item); try (by intros [= <-]). apply IH.
Qed.

Lemma index_providers_sound l m r : index_providers (Provider := Provider) m l = inr r ->
  forall k provider, r !! k = Some provider -> m !! k = Some provider \/
    exists item, item ∈ l /\ br_registry_index item = k /\ br_implementation item = Some provider.
Proof.
  revert m. induction l as [|item l IH]; intros m; cbn; [intros [= ->]; auto|].
  destruct (br_implementation item) as [impl|] eqn:Hi; [|done]. destruct (m !! br_registry_index item) eqn:Hm; [done|].
  intros Hr k provider Hk. destruct (IH _ Hr k provider Hk) as [Hin|(it & Hit & ? & ?)].
  - destruct (decide (br_registry_index item = k)) as [<-|Hne].
    + rewrite lookup_insert_eq in Hin. injection Hin as <-. right. exists item. split_and!; [constructor|done..].
    + rewrite lookup_insert_ne in Hin by done. by left.
  - right. exists it. split_and!; [by constructor|done..].
Qed.

(** The tensors that have been resolved are usable, and are kept. *)
Definition cache_ok (m : Cache) : Prop := forall name t, m !! name = Some t -> tensor_usable name t = true.

Lemma bind_tensor_sound store messages b m w : cache_ok m ->
  ewp (bind_tensor store messages b m)
    (either (fun r => cache_ok r.2 /\ m ⊆ r.2 /\ r.2 !! b.2 = Some r.1 /\ tensor_usable b.2 r.1 = true)) anything w.
Proof.
  intros Hm. unfold bind_tensor. destruct (m !! b.2) as [t|] eqn:Hb.
  { apply ewp_ret. split_and!; cbn; [done|done|done|by apply Hm]. }
  destruct store as [resolve|]; [|done]. apply ewp_bind. unfold ewp at 1, call_world. destruct (resolve b.2 w) as [[r|e] w']; [|done].
  destruct (status_ok r.1) eqn:Hst; cbn [negb]; [|done]. destruct r.2 as [t|]; [|done].
  destruct (tensor_usable b.2 t) eqn:Ht; [|done]. apply ewp_ret. split_and!; cbn; [|by apply insert_subseteq|apply lookup_insert_eq|done].
  intros name t'. destruct (decide (b.2 = name)) as [<-|Hne].
  - rewrite lookup_insert_eq. by intros [= <-].
  - rewrite lookup_insert_ne by done. apply Hm.
Qed.

Lemma tensors_bound_mono m m' l ts : m ⊆ m' -> tensors_bound m l ts -> tensors_bound m' l ts.
Proof.
  intros Hm H. eapply Forall2_impl; [exact H|]. intros b t (H1 & H2 & H3). split_and!; [done|by eapply lookup_weaken|done].
Qed.

Lemma bind_tensors_sound store messages l m w : cache_ok m ->
  ewp (bind_tensors store messages l m)
    (either (fun r => cache_ok r.2 /\ m ⊆ r.2 /\ tensors_bound r.2 l r.1)) anything w.
Proof.
  revert m w. induction l as [|b l IH]; intros m w Hm; cbn [bind_tensors].
  { apply ewp_ret. split_and!; cbn; [done|done|constructor]. }
  apply ewp_early. eapply ewp_mono; [by apply bind_tensor_sound| |done]. intros [st|[t m1]] w1; [done|].
  intros (H1 & H2 & H3 & H4). cbn [fst snd] in *. apply ewp_early. eapply ewp_mono; [by apply IH| |done].
  intros [st|[ts m2]] w2; [done|]. intros (H5 & H6 & H7). cbn [fst snd] in *.
  apply ewp_ret. split_and!; cbn; [done|by transitivity m1|].
  constructor; [|done]. cbn. split_and!; [done|by eapply lookup_weaken|done].
Qed.

Lemma lookup_combine {A B} (l : list A) (k : list B) n a b : l !! n = Some a -> k !! n = Some b -> combine l k !! n = Some (a, b).
Proof. revert k n. induction l as [|x l IH]; intros [|y k] [|n]; cbn; try done; [congruence|apply IH]. Qed.

(** The map of providers is what the plan says. *)
Definition providers_of (p : Bound) (m : gmap Z Provider) : Prop :=
  forall k provider, m !! k = Some provider -> plan_provider p k provider.

Lemma prepare_operation_sound store p providers index source compiled m w : providers_of p providers -> cache_ok m ->
  ewp (prepare_operation store (program p) providers index source compiled m)
    (either (fun r => cache_ok r.2 /\ m ⊆ r.2 /\ prepared_for p r.2 source compiled r.1)) anything w.
Proof.
  intros Hps Hm. unfold prepare_operation. destruct (_ || _); [done|].
  destruct (kernel_provider _ _) as [index'|] eqn:Hk; [|done]. destruct (providers !! index') as [provider|] eqn:Hp; [|done].
  apply ewp_early. eapply ewp_mono; [by apply bind_tensors_sound| |done]. intros [st|[ts m1]] w1; [done|].
  intros (H1 & H2 & H3). cbn [fst snd] in *. apply ewp_bind. unfold ewp at 1, call_world.
  destruct (pv_prepare provider source compiled ts w1) as [[[status op]|e] w2] eqn:Hprep; [|done].
  cbn [fst snd]. destruct (status_ok status) eqn:Hst; cbn [negb]; [|done]. destruct op as [op|]; [|done].
  apply ewp_ret. split_and!; cbn; [done|done|]. split; cbn; [done|by apply Hps|done|]. by exists status, w1, w2.
Qed.

Lemma prepared_for_mono p m m' source compiled i : m ⊆ m' -> prepared_for p m source compiled i -> prepared_for p m' source compiled i.
Proof. intros Hm []. split; [done|done|by eapply tensors_bound_mono|done]. Qed.

Lemma prepare_operations_sound store p providers l : providers_of p providers -> forall index m w, cache_ok m ->
  ewp (prepare_operations store (program p) providers index l m)
    (either (fun r => cache_ok r.2 /\ m ⊆ r.2 /\ Forall2 (fun x i => prepared_for p r.2 x.1 x.2 i) l r.1)) anything w.
Proof.
  intros Hps. induction l as [|[source compiled] l IH]; intros index m w Hm; cbn [prepare_operations].
  { apply ewp_ret. by split_and!. }
  apply ewp_early. eapply ewp_mono; [by apply prepare_operation_sound| |done]. intros [st|[i m1]] w1; [done|].
  intros (H1 & H2 & H3). cbn [fst snd] in *. apply ewp_early. eapply ewp_mono; [by apply IH| |done].
  intros [st|[prep m2]] w2; [done|]. intros (H4 & H5 & H6). cbn [fst snd] in *. apply ewp_ret.
  split_and!; cbn; [done|by transitivity m1|]. constructor; [|done]. by eapply prepared_for_mono.
Qed.

Lemma prepare_exact_sound store p providers source compiled m w : providers_of p providers -> cache_ok m ->
  ewp (prepare_exact store (program p) providers source compiled m)
    (either (fun x => exists m', m ⊆ m' /\ decode_prepared_for p m' source compiled x)) anything w.
Proof.
  intros Hps Hm. unfold prepare_exact. destruct (kernel_provider _ _) as [index'|] eqn:Hk; [|done].
  destruct (cd_maximum_emitted_tokens compiled =? ed_maximum_emitted_tokens source) eqn:Hmax; cbn [negb]; [|done].
  apply Z.eqb_eq in Hmax. destruct (providers !! index') as [provider|] eqn:Hp; [|done].
  apply ewp_early. eapply ewp_mono; [by apply bind_tensors_sound| |done]. intros [st|[ts m1]] w1; [done|].
  intros (H1 & H2 & H3). cbn [fst snd] in *. apply ewp_bind. unfold ewp at 1, call_world.
  destruct (pv_prepare_exact provider source compiled ts w1) as [[[status op]|e] w2] eqn:Hprep; [|done].
  cbn [fst snd]. destruct (status_ok status) eqn:Hst; cbn [negb]; [|done]. destruct op as [op|]; [|done].
  apply ewp_ret. exists m1. split; [done|]. split; cbn; [done|by apply Hps|done|done|]. by exists status, w1, w2.
Qed.

Lemma prepare_sequence_sound (program : CompiledModelProgram) (prep : list Instruction) q : prepare_sequence program prep = Some q ->
  pv_supports_sequence (sq_provider q) program = true /\ sq_operations q = pi_operation <$> prep /\
  forall n i, prep !! n = Some i -> pi_provider i = sq_provider q /\ pi_registry_index i = sq_registry_index q.
Proof.
  unfold prepare_sequence. destruct prep as [|first prep]; [done|]. destruct (_ && _) eqn:Hc; [|done].
  apply andb_true_iff in Hc as [Hall Hs]. intros [= <-]. split_and!; [done|done|]. intros n i Hn.
  rewrite forallb_forall in Hall. specialize (Hall i). apply list_elem_of_lookup_2, list_elem_of_In in Hn.
  apply Hall in Hn. apply andb_true_iff in Hn as [Hi%Z.eqb_eq Hp%bool_decide_eq_true]. done.
Qed.

Lemma prepare_program_sound d p store w :
  ewp (prepare_program d p store) (either (carries_out d p)) anything w.
Proof.
  unfold prepare_program. cbv zeta. destruct (status_ok (validate_model_descriptor d)) eqn:Hvalid; cbn [negb]; [|done].
  destruct (plan_matches d p) eqn:Hplan; cbn [negb]; [|done].
  unfold plan_matches in Hplan. apply andb_true_iff in Hplan as [Hplan _]. apply andb_true_iff in Hplan as [Hplan _].
  apply andb_true_iff in Hplan as [Hplan Hvs%negb_true_iff%bool_decide_eq_false].
  apply andb_true_iff in Hplan as [Hplan Hlen%Nat.eqb_eq]. apply andb_true_iff in Hplan as [Hplan _].
  apply andb_true_iff in Hplan as [Hschema%Z.leb_le _].
  apply ewp_early, ewp_ret. destruct (index_providers ∅ (bound_providers p)) as [st|providers] eqn:Hproviders; [by eapply index_providers_refused|].
  assert (providers_of p providers) as Hps.
  { intros k provider Hk. destruct (index_providers_sound _ _ _ Hproviders k provider Hk) as [He|(item & ? & ? & ?)]; [done|].
    by exists item. }
  apply ewp_early. eapply ewp_mono; [by apply prepare_operations_sound| |done]. intros [st|[prep m]] w1; [done|].
  intros (H1 & _ & H3). cbn [fst snd] in *. apply ewp_early.
  assert (length prep = length (operation_program d)) as Hl.
  { apply Forall2_length in H3. rewrite length_combine in H3. lia. }
  assert (forall m' source compiled n i, m ⊆ m' -> operation_program d !! n = Some source -> operations (program p) !! n = Some compiled ->
    prep !! n = Some i -> prepared_for p m' source compiled i) as Hops.
  { intros m' source compiled n i Hm' Hn Hc Hi. eapply prepared_for_mono; [exact Hm'|].
    assert (combine (operation_program d) (operations (program p)) !! n = Some (source, compiled)) as Hpair.
    { by apply lookup_combine. }
    by apply (Forall2_lookup_lr _ _ _ _ _ _ H3 Hpair). }
  assert (values (program p) <> []) as Hvalues by (intros He; by rewrite He in Hvs).
  assert (forall x, (exists m', m ⊆ m' /\ match exact_decode_program d, exact_decode (program p), x with
      | Some source, Some compiled, Some x => decode_prepared_for p m' source compiled x
      | None, None, None => True | _, _, _ => False end) ->
    carries_out d p (mkExecutor d p prep x (prepare_sequence (program p) prep))) as Hdone.
  { intros x (m' & Hm' & Hx). split; try done; [by exists m'; split; [by eauto|]|].
    apply prepare_sequence_sound. }
  destruct (exact_decode_program d) as [source|], (exact_decode (program p)) as [compiled|]; try done.
  - apply ewp_early. eapply ewp_mono; [by apply prepare_exact_sound| |done]. intros [st|x] w2; [done|].
    intros (m' & Hm' & Hx). apply ewp_ret, ewp_ret, Hdone. by exists m'.
  - apply ewp_ret, ewp_ret, Hdone. by exists m.
Qed.

Lemma create_sound d p store destination w status r w' :
  create d p store destination w = (Ok (status, r), w') ->
  (status = success /\ destination = None /\ exists c, r = Some c /\ carries_out d p c) \/
  (status_ok status = false /\ r = destination).
Proof.
  unfold create. destruct destination as [c0|]; [intros [= <- <- <-]; by right|]. unfold catching_with, ebind.
  pose proof (prepare_program_sound d p store w) as Hp. unfold ewp in Hp.
  destruct (prepare_program d p store w) as [[[st|c]|e] w1]; cbn; cbn in Hp.
  - intros [= <- <- <-]. by right.
  - intros [= <- <- <-]. left. split_and!; [done|done|]. by exists c.
  - destruct (caught e); [|done]. intros [= <- <- <-]. by right.
Qed.
End Preparation.

(** ** Clients

    What a client does with a session that it has begun: it calls the session, and polls,
    cancels and destroys the handles that it was given, in any order. *)

Notation Inputs := (gmap (list Z) ExecutionValue).

Inductive SessionCall : Type :=
| call_execute (ins : Inputs)
| call_execute_sequence (ins : Inputs)
| call_execute_exact (token position context_limit : Z)
| call_synchronize (tokens : list Z) (position : Z) (draft : bool)
| call_checkpoint (position : Z)
| call_rewind (position : Z)
| call_park (position : Z)
| call_restore
| call_save (root : list Z) (generation : Z)
| call_prune (root : list Z) (generation : Z)
| call_rebind (request : ProgramRequestContext)
| call_begin_transaction
| call_end_transaction
| call_cancel_session
| call_poll (id : nat)
| call_cancel (id : nat)
| call_destroy (id : nat)
| call_poll_exact (id : nat)
| call_cancel_exact (id : nat)
| call_destroy_exact (id : nat).

Section Clients.
Context {W Provider Operation PState OpRun ExactRun : Type} `{!EqDecision Provider}
  `{!Providers W Provider Operation PState OpRun ExactRun}.

Notation Core := (ExecutorCore (Provider := Provider) (Operation := Operation)).
Notation Objs := (Objects (W := W) (Provider := Provider) (Operation := Operation) (PState := PState)
                    (OpRun := OpRun) (ExactRun := ExactRun)).

(** The handles that a client has, what it asked for, and what it has been given. *)
Record Client := mkClient {
  cl_objects : Objs;
  cl_session : SessionHandle;
  cl_programs : gmap nat ProgramHandle;
  cl_exacts : gmap nat ExactHandle;
  cl_given : gmap nat Inputs;
  cl_asked : gmap nat (Z * Z * Z);
  cl_results : list (nat * ProgramExecutionResult);
  cl_decoded : list (nat * ExactDecodeExecutionResult) }.

#[local] Instance eta_Client : Eta Client := fun cl =>
  mkClient (cl_objects cl) (cl_session cl) (cl_programs cl) (cl_exacts cl) (cl_given cl) (cl_asked cl) (cl_results cl) (cl_decoded cl).

Definition new_client (h : SessionHandle) (o : Objs) : Client := mkClient o h ∅ ∅ ∅ ∅ [] [].

(** A call, and what the client makes of its result. *)
Definition asking {A} (m : EST Objs A) (k : A -> Client -> Client) (cl : Client) : outcome Client :=
  match m (cl_objects cl) with
  | (Ok a, o) => Ok (k a (cl <| cl_objects := o |>))
  | (Throw e, _) => Throw e
  end.

Definition ignoring {A} (m : EST Objs A) : Client -> outcome Client := asking m (fun _ cl => cl).

Definition keep_program (h : option ProgramHandle) (cl : Client) : Client :=
  match h with Some h => cl <| cl_programs %= insert (ph_step h) h |> | None => cl end.
Definition keep_exact (h : option ExactHandle) (cl : Client) : Client :=
  match h with Some h => cl <| cl_exacts %= insert (xh_step h) h |> | None => cl end.

Definition run_call (k : SessionCall) (cl : Client) : outcome Client :=
  let sh := cl_session cl in
  match k with
  | call_execute ins =>
    asking (session_execute sh ins) (fun r cl =>
      match r.2 with Some h => keep_program (Some h) cl <| cl_given %= insert (ph_step h) ins |> | None => cl end) cl
  | call_execute_sequence ins => asking (session_execute_sequence sh ins) (fun r => keep_program r.2) cl
  | call_execute_exact token position limit =>
    asking (session_execute_exact sh token position limit) (fun r cl =>
      match r.2 with Some h => keep_exact (Some h) cl <| cl_asked %= insert (xh_step h) (token, position, limit) |> | None => cl end) cl
  | call_synchronize tokens position draft => ignoring (session_synchronize_batch sh tokens position draft) cl
  | call_checkpoint position => ignoring (session_checkpoint sh position) cl
  | call_rewind position => ignoring (session_rewind sh position) cl
  | call_park position => ignoring (session_park sh position) cl
  | call_restore => ignoring (session_restore sh) cl
  | call_save root generation => ignoring (session_save sh root generation) cl
  | call_prune root generation => ignoring (session_prune sh root generation) cl
  | call_rebind request => ignoring (session_rebind sh request) cl
  | call_begin_transaction => ignoring (session_begin_transaction sh) cl
  | call_end_transaction => ignoring (session_end_transaction sh) cl
  | call_cancel_session => asking (session_handle_cancel sh) (fun h cl => cl <| cl_session := h |>) cl
  | call_poll id =>
    match cl_programs cl !! id with
    | None => Ok cl
    | Some h =>
      asking (program_poll (Some h)) (fun r cl =>
        keep_program r.2 (match r.1 with Some result => cl <| cl_results %= cons (id, result) |> | None => cl end)) cl
    end
  | call_cancel id =>
    match cl_programs cl !! id with None => Ok cl | Some h => asking (program_cancel (Some h)) keep_program cl end
  | call_destroy id =>
    match cl_programs cl !! id with
    | None => Ok cl
    | Some h => asking (program_destroy (Some h)) (fun _ cl => cl <| cl_programs %= delete id |>) cl
    end
  | call_poll_exact id =>
    match cl_exacts cl !! id with
    | None => Ok cl
    | Some h =>
      asking (exact_handle_poll (Some h)) (fun r cl =>
        keep_exact r.2 (match r.1 with Some result => cl <| cl_decoded %= cons (id, result) |> | None => cl end)) cl
    end
  | call_cancel_exact id =>
    match cl_exacts cl !! id with None => Ok cl | Some h => asking (exact_handle_cancel (Some h)) keep_exact cl end
  | call_destroy_exact id =>
    match cl_exacts cl !! id with
    | None => Ok cl
    | Some h => asking (exact_destroy (Some h)) (fun _ cl => cl <| cl_exacts %= delete id |>) cl
    end
  end.

Fixpoint run_calls (l : list SessionCall) (cl : Client) : outcome Client :=
  match l with
  | [] => Ok cl
  | k :: l => match run_call k cl with Ok cl => run_calls l cl | Throw e => Throw e end
  end.

(** *** What clients can rely on *)

Context (kernel : Operation -> CompiledOperationProgram -> list ExecutionValue -> list ExecutionValue -> Prop)
  (runs_for : OpRun -> Operation -> CompiledOperationProgram -> list ExecutionValue -> Prop)
  `{!ProviderSpec kernel runs_for} `{!CivilProviders}.
Context (c : Core) (Hshape : program_shape (xc_program c))
  (Hprepared : length (xc_prepared c) = length (operations (xc_program c))).

Notation objects_ok := (objects_ok kernel runs_for c).

(** A result solves the program for the inputs of its step, or has values of the declared
    types if a provider ran the program as a whole. *)
Definition result_sound (cl : Client) (id : nat) (r : ProgramExecutionResult) : Prop :=
  status_ok (pr_status r) = true ->
  match cl_given cl !! id with
  | Some ins => solves kernel c ins (pr_outputs r)
  | None => typed_outputs (xc_program c) (pr_outputs r)
  end.

(** What was decoded keeps the contract of the artifact and stays within the context. *)
Definition decode_sound (cl : Client) (id : nat) (r : ExactDecodeExecutionResult) : Prop :=
  status_ok (xd_status r) = true ->
  exists token position limit exact rest,
    cl_asked cl !! id = Some (token, position, limit) /\ xc_exact_decode c = Some exact /\
    emitted_tokens r = token :: rest /\
    Z.of_nat (length (emitted_tokens r)) <= px_maximum_emitted_tokens exact /\
    positions_advanced r = Z.of_nat (length (emitted_tokens r)) /\
    position + positions_advanced r <= limit /\ limit <= max_context_tokens (xc_descriptor c) /\
    Forall (fun t => t < vocab_size (xc_descriptor c)) (xd_next_token r :: emitted_tokens r).

Definition asked_ok (cl : Client) (id : nat) (x : ExactStep (ExactRun := ExactRun)) : Prop :=
  exists token position limit exact,
    cl_asked cl !! id = Some (token, position, limit) /\ xc_exact_decode c = Some exact /\
    exact_args x = (token, position, limit, vocab_size (xc_descriptor c), px_maximum_emitted_tokens exact) /\
    limit <= max_context_tokens (xc_descriptor c).

Record client_ok (cl : Client) : Prop := {
  co_objects : objects_ok (cl_given cl) (cl_objects cl);
  co_programs : forall id h, cl_programs cl !! id = Some h -> ph_step h = id /\
    exists s, request_steps (cl_objects cl) !! id = Some s /\ (st_direct_sequence s = true <-> cl_given cl !! id = None);
  co_exacts : forall id h, cl_exacts cl !! id = Some h -> xh_step h = id /\
    exists x, exact_steps (cl_objects cl) !! id = Some x /\ asked_ok cl id x;
  co_results : forall id r, (id, r) ∈ cl_results cl -> (id < next_object (cl_objects cl))%nat /\
    (forall h, cl_programs cl !! id = Some h -> ph_terminal h = true) /\ result_sound cl id r;
  co_decoded : forall id r, (id, r) ∈ cl_decoded cl -> (id < next_object (cl_objects cl))%nat /\
    (forall h, cl_exacts cl !! id = Some h -> xh_terminal h = true) /\ decode_sound cl id r;
  co_once : NoDup (cl_results cl).*1 /\ NoDup (cl_decoded cl).*1 }.

Implicit Types (cl : Client).
Notation kept := (kept kernel runs_for c).
Notation fatal := (fatal (W := W) (Provider := Provider) (Operation := Operation) (PState := PState) (OpRun := OpRun) (ExactRun := ExactRun)).

(** Every call leaves the client well, or ends the process. *)
Definition goes_well (r : outcome Client) : Prop := match r with Ok cl => client_ok cl | Throw e => fatal e end.

Lemma asking_well {A} (m : EST Objs A) (k : A -> Client -> Client) cl :
  ewp m (fun a o => client_ok (k a (cl <| cl_objects := o |>))) (fun e _ => fatal e) (cl_objects cl) ->
  goes_well (asking m k cl).
Proof. unfold ewp, asking. by destruct (m (cl_objects cl)) as [[a|e] o]. Qed.

Lemma ewp_session_call {A} h (refused : A) handler (m : EST Objs A) (Q : A -> Objs -> Prop) E o :
  Q refused o -> ewp m Q (fun e o' => if caught e then Q (handler e) o' else E e o') o ->
  ewp (session_call h refused handler m) Q E o.
Proof.
  intros Hq Hm. unfold session_call. destruct h as [[]|]; [by apply ewp_ret| |by apply ewp_ret].
  apply ewp_catch. eapply ewp_mono; [exact Hm|done|]. intros e o1. cbv beta. by destruct (caught e).
Qed.

Lemma client_kept cl o : client_ok cl -> kept (cl_given cl) (cl_objects cl) o -> client_ok (cl <| cl_objects := o |>).
Proof.
  intros [H1 H2 H3 H4 H5 H6] [Ho Hk]. split; cbn; [done| | | | |done].
  - intros id h Hh. destruct (H2 _ _ Hh) as (He & s & Hs & Hd). split; [done|].
    destruct (keeps_steps _ _ Hk _ _ Hs) as (s' & Hs' & Hd'). exists s'. by rewrite Hd'.
  - intros id h Hh. destruct (H3 _ _ Hh) as (He & x & Hx & Ha). split; [done|].
    destruct (keeps_exacts _ _ Hk _ _ Hx) as (x' & Hx' & Ha'). exists x'. split; [done|].
    unfold asked_ok in *. by rewrite Ha'.
  - intros id r Hr. destruct (H4 _ _ Hr) as (Hn & ? & ?). split_and!; [|done|done]. pose proof (keeps_next _ _ Hk). lia.
  - intros id r Hr. destruct (H5 _ _ Hr) as (Hn & ? & ?). split_and!; [|done|done]. pose proof (keeps_next _ _ Hk). lia.
Qed.

(** Operations that only change the world, or the session. *)
Lemma calm_call_well {A} (refused : A) handler (m : EST Objs A) cl : client_ok cl -> calm fatal m ->
  goes_well (ignoring (session_call (cl_session cl) refused handler m) cl).
Proof.
  intros Hcl Hm. apply asking_well. pose proof (co_objects _ Hcl) as Ho. apply ewp_session_call.
  - apply client_kept; [done|]. split; [done|apply keeps_same].
  - eapply ewp_mono; [by apply (ewp_kept_calm kernel runs_for c Hprepared (cl_given cl) fatal)| |].
    + intros a o' Hk. by apply client_kept.
    + intros e o' [He Hk]. destruct (caught e); [by apply client_kept|done].
Qed.

(** A new handle: its step is new. *)
Lemma client_started cl o g s : client_ok cl -> objects_ok g o -> keeps (cl_objects cl) o ->
  (forall id, (id < next_object (cl_objects cl))%nat -> g !! id = cl_given cl !! id) ->
  request_steps o !! next_object (cl_objects cl) = Some s ->
  (st_direct_sequence s = true <-> g !! next_object (cl_objects cl) = None) ->
  client_ok (keep_program (Some (mkProgramHandle (next_object (cl_objects cl)) false)) (cl <| cl_objects := o |> <| cl_given := g |>)).
Proof.
  intros [H1 H2 H3 H4 H5 H6] Ho Hk Hg Hs Hd.
  assert (forall id s', request_steps (cl_objects cl) !! id = Some s' -> (id < next_object (cl_objects cl))%nat) as Hold.
  { intros id s' Hs'. apply (ok_steps _ _ _ _ _ H1). by eexists. }
  split; cbn; [done| | | | |done].
  - intros id h. destruct (decide (next_object (cl_objects cl) = id)) as [<-|Hne].
    + rewrite lookup_insert_eq. intros [= <-]. split; [done|]. by exists s.
    + rewrite lookup_insert_ne by done. intros Hh. destruct (H2 _ _ Hh) as (He & s' & Hs' & Hd'). split; [done|].
      destruct (keeps_steps _ _ Hk _ _ Hs') as (s2 & Hs2 & Hd2). exists s2. rewrite Hd2, Hg by eauto. done.
  - intros id h Hh. destruct (H3 _ _ Hh) as (He & x & Hx & Ha). split; [done|].
    destruct (keeps_exacts _ _ Hk _ _ Hx) as (x' & Hx' & Ha'). exists x'. split; [done|].
    unfold asked_ok in *. by rewrite Ha'.
  - intros id r Hr. destruct (H4 _ _ Hr) as (Hn & Ht & Hres). pose proof (keeps_next _ _ Hk). split_and!; [lia| |].
    + intros h. rewrite lookup_insert_ne by lia. apply Ht.
    + unfold result_sound in *. cbn. by rewrite Hg.
  - intros id r Hr. destruct (H5 _ _ Hr) as (Hn & ? & ?). split_and!; [|done|done]. pose proof (keeps_next _ _ Hk). lia.
Qed.

Lemma execute_well ins cl : client_ok cl -> goes_well (run_call (call_execute ins) cl).
Proof.
  intros Hcl. apply asking_well. pose proof (co_objects _ Hcl) as Ho.
  assert (client_ok (cl <| cl_objects := cl_objects cl |>)) as Hsame by (apply client_kept; [done|split; [done|apply keeps_same]]).
  apply ewp_session_call; [done|]. eapply ewp_mono; [by apply (ewp_start kernel runs_for c Hshape Hprepared (cl_given cl) ins false _ (fun _ _ => False))| |done].
  intros [st [h|]] o'; cbn [fst snd]; [|by intros (_ & ->)].
  intros (-> & _ & _ & _ & Hok & Hk & s & Hs & Hd).
  apply (client_started cl o' (<[next_object (cl_objects cl) := ins]> (cl_given cl)) s); try done.
  - intros id Hid. apply lookup_insert_ne. lia.
  - rewrite Hd, lookup_insert_eq. by split.
Qed.

Lemma execute_sequence_well ins cl : client_ok cl -> goes_well (run_call (call_execute_sequence ins) cl).
Proof.
  intros Hcl. apply asking_well. pose proof (co_objects _ Hcl) as Ho.
  assert (client_ok (cl <| cl_objects := cl_objects cl |>)) as Hsame by (apply client_kept; [done|split; [done|apply keeps_same]]).
  apply ewp_session_call; [done|]. eapply ewp_mono; [by apply (ewp_start_sequence kernel runs_for c Hprepared (cl_given cl) ins)| |].
  - intros [st [h|]] o'; cbn [fst snd]; [|by apply client_kept].
    intros (-> & [Hok Hk] & s & Hs & Hd). apply (client_started cl o' (cl_given cl) s); try done.
    rewrite Hd. split; [|done]. intros _. apply eq_None_not_Some. intros Hn. apply (ok_given _ _ _ _ _ Ho) in Hn. lia.
  - intros e o' [He Hk]. rewrite He. by apply client_kept.
Qed.

Lemma keep_same cl : client_ok cl -> client_ok (cl <| cl_objects := cl_objects cl |>).
Proof. intros Hcl. apply client_kept; [done|]. split; [apply Hcl|apply keeps_same]. Qed.

Lemma client_decoding cl o x token position limit exact : client_ok cl -> kept (cl_given cl) (cl_objects cl) o ->
  exact_steps o !! next_object (cl_objects cl) = Some x -> xc_exact_decode c = Some exact ->
  exact_args x = (token, position, limit, vocab_size (xc_descriptor c), px_maximum_emitted_tokens exact) ->
  limit <= max_context_tokens (xc_descriptor c) ->
  client_ok (keep_exact (Some (mkExactHandle (next_object (cl_objects cl)) false))
    (cl <| cl_objects := o |> <| cl_asked %= insert (next_object (cl_objects cl)) (token, position, limit) |>)).
Proof.
  intros [H1 H2 H3 H4 H5 H6] [Ho Hk] Hx Hexact Hargs Hlim.
  assert (forall id x', exact_steps (cl_objects cl) !! id = Some x' -> (id < next_object (cl_objects cl))%nat) as Hold.
  { intros id x' Hx'. apply (ok_exacts _ _ _ _ _ H1). by eexists. }
  split; cbn; [done| | | | |done].
  - intros id h Hh. destruct (H2 _ _ Hh) as (He & s & Hs & Hd). split; [done|].
    destruct (keeps_steps _ _ Hk _ _ Hs) as (s' & Hs' & Hd'). exists s'. by rewrite Hd'.
  - intros id h. destruct (decide (next_object (cl_objects cl) = id)) as [<-|Hne].
    + rewrite lookup_insert_eq. intros [= <-]. split; [done|]. exists x. split; [done|].
      exists token, position, limit, exact. cbn. by rewrite lookup_insert_eq.
    + rewrite lookup_insert_ne by done. intros Hh. destruct (H3 _ _ Hh) as (He & x' & Hx' & Ha). split; [done|].
      destruct (keeps_exacts _ _ Hk _ _ Hx') as (x2 & Hx2 & Ha2). exists x2. split; [done|].
      unfold asked_ok in *. cbn. rewrite Ha2, lookup_insert_ne by done. done.
  - intros id r Hr. destruct (H4 _ _ Hr) as (Hn & ? & ?). split_and!; [|done|done]. pose proof (keeps_next _ _ Hk). lia.
  - intros id r Hr. destruct (H5 _ _ Hr) as (Hn & Ht & Hres). pose proof (keeps_next _ _ Hk). split_and!; [lia| |].
    + intros h. rewrite lookup_insert_ne by lia. apply Ht.
    + unfold decode_sound in *. cbn. rewrite lookup_insert_ne by lia. done.
Qed.

Lemma execute_exact_well token position limit cl : client_ok cl -> goes_well (run_call (call_execute_exact token position limit) cl).
Proof.
  intros Hcl. apply asking_well. pose proof (co_objects _ Hcl) as Ho. pose proof (keep_same _ Hcl) as Hsame.
  apply ewp_session_call; [done|].
  eapply ewp_mono; [by apply (ewp_start_exact kernel runs_for c Hprepared (cl_given cl) token position limit)| |].
  - intros [st [h|]] o'; cbn [fst snd]; [|by apply client_kept].
    intros (-> & Hk & x & exact & Hx & Hexact & Ha & _ & _ & Hlim). by apply (client_decoding cl o' x token position limit exact).
  - intros e o' [He Hk]. rewrite He. by apply client_kept.
Qed.

Lemma synchronize_well tokens position draft cl : client_ok cl -> goes_well (run_call (call_synchronize tokens position draft) cl).
Proof.
  intros Hcl. apply asking_well. pose proof (co_objects _ Hcl) as Ho.
  apply ewp_session_call; [by apply keep_same|].
  eapply ewp_mono; [by apply (ewp_synchronize kernel runs_for c (cl_given cl) tokens position draft)| |].
  - intros st o' Hk. by apply client_kept.
  - intros e o' He. assert (caught e = false) as -> by (by destruct He as [-> _]). done.
Qed.

Lemma cancel_session_well cl : client_ok cl -> goes_well (run_call call_cancel_session cl).
Proof.
  intros Hcl. apply asking_well. pose proof (co_objects _ Hcl) as Ho.
  assert (forall h o, kept (cl_given cl) (cl_objects cl) o -> client_ok (cl <| cl_objects := o |> <| cl_session := h |>)) as Hk.
  { intros h o Hk. destruct (client_kept _ _ Hcl Hk). by split. }
  assert (kept (cl_given cl) (cl_objects cl) (cl_objects cl)) as Hsame by (split; [done|apply keeps_same]).
  unfold session_handle_cancel. destruct (cl_session cl) as [[]|]; [by apply ewp_ret, Hk| |by apply ewp_ret, Hk].
  apply ewp_bind, ewp_catch.
  eapply ewp_mono; [by apply (ewp_session_cancel kernel runs_for c Hprepared (cl_given cl) _ (fun _ _ => False))| |done].
  intros [] o' Hk'. by apply ewp_ret, Hk.
Qed.

(** A handle that is polled or cancelled stays with its step. *)
Lemma client_handle cl o h t : client_ok cl -> kept (cl_given cl) (cl_objects cl) o -> cl_programs cl !! ph_step h = Some h ->
  (ph_terminal h = true -> t = true) ->
  client_ok (keep_program (Some (mkProgramHandle (ph_step h) t)) (cl <| cl_objects := o |>)).
Proof.
  intros Hcl Hk Hh Ht. destruct (client_kept _ _ Hcl Hk) as [H1 H2 H3 H4 H5 H6]. split; cbn; try done.
  - intros id h'. destruct (decide (ph_step h = id)) as [<-|Hne].
    + rewrite lookup_insert_eq. intros [= <-]. split; [done|]. by apply (H2 _ h).
    + rewrite lookup_insert_ne by done. apply H2.
  - intros id r Hr. destruct (H4 _ _ Hr) as (Hn & Hterm & Hres). split_and!; [done| |done].
    intros h'. destruct (decide (ph_step h = id)) as [<-|Hne].
    + rewrite lookup_insert_eq. intros [= <-]. apply Ht, Hterm, Hh.
    + rewrite lookup_insert_ne by done. apply Hterm.
Qed.

Lemma client_exact_handle cl o h t : client_ok cl -> kept (cl_given cl) (cl_objects cl) o -> cl_exacts cl !! xh_step h = Some h ->
  (xh_terminal h = true -> t = true) ->
  client_ok (keep_exact (Some (mkExactHandle (xh_step h) t)) (cl <| cl_objects := o |>)).
Proof.
  intros Hcl Hk Hh Ht. destruct (client_kept _ _ Hcl Hk) as [H1 H2 H3 H4 H5 H6]. split; cbn; try done.
  - intros id h'. destruct (decide (xh_step h = id)) as [<-|Hne].
    + rewrite lookup_insert_eq. intros [= <-]. split; [done|]. by apply (H3 _ h).
    + rewrite lookup_insert_ne by done. apply H3.
  - intros id r Hr. destruct (H5 _ _ Hr) as (Hn & Hterm & Hres). split_and!; [done| |done].
    intros h'. destruct (decide (xh_step h = id)) as [<-|Hne].
    + rewrite lookup_insert_eq. intros [= <-]. apply Ht, Hterm, Hh.
    + rewrite lookup_insert_ne by done. apply Hterm.
Qed.

Lemma client_result cl id h r : client_ok cl -> cl_programs cl !! id = Some h -> ph_terminal h = true ->
  result_sound cl id r -> id ∉ (cl_results cl).*1 -> client_ok (cl <| cl_results %= cons (id, r) |>).
Proof.
  intros [H1 H2 H3 H4 H5 [H6 H7]] Hh Ht Hr Hn. split; cbn; try done; [|split; [by apply NoDup_cons|done]].
  intros id' r' [[= -> ->]|Hin]%elem_of_cons; [|by apply H4]. split_and!; [|by intros h' ?; simplify_eq|done].
  destruct (H2 _ _ Hh) as (_ & s & Hs & _). apply (ok_steps _ _ _ _ _ H1). by eexists.
Qed.

Lemma client_decode cl id h r : client_ok cl -> cl_exacts cl !! id = Some h -> xh_terminal h = true ->
  decode_sound cl id r -> id ∉ (cl_decoded cl).*1 -> client_ok (cl <| cl_decoded %= cons (id, r) |>).
Proof.
  intros [H1 H2 H3 H4 H5 [H6 H7]] Hh Ht Hr Hn. split; cbn; try done; [|split; [done|by apply NoDup_cons]].
  intros id' r' [[= -> ->]|Hin]%elem_of_cons; [|by apply H5]. split_and!; [|by intros h' ?; simplify_eq|done].
  destruct (H3 _ _ Hh) as (_ & x & Hx & _). apply (ok_exacts _ _ _ _ _ H1). by eexists.
Qed.

(** What has not ended has not published. *)
Lemma unpublished cl id h : client_ok cl -> cl_programs cl !! id = Some h -> ph_terminal h = false -> id ∉ (cl_results cl).*1.
Proof.
  intros Hcl Hh Ht Hin. apply list_elem_of_fmap in Hin as ([id' r] & -> & Hin).
  destruct (co_results _ Hcl _ _ Hin) as (_ & Hterm & _). by rewrite (Hterm h Hh) in Ht.
Qed.

Lemma undecoded cl id h : client_ok cl -> cl_exacts cl !! id = Some h -> xh_terminal h = false -> id ∉ (cl_decoded cl).*1.
Proof.
  intros Hcl Hh Ht Hin. apply list_elem_of_fmap in Hin as ([id' r] & -> & Hin).
  destruct (co_decoded _ Hcl _ _ Hin) as (_ & Hterm & _). by rewrite (Hterm h Hh) in Ht.
Qed.

Lemma poll_well id cl : client_ok cl -> goes_well (run_call (call_poll id) cl).
Proof.
  intros Hcl. unfold run_call. destruct (cl_programs cl !! id) as [h|] eqn:Hh; [|done].
  destruct (co_programs _ Hcl _ _ Hh) as (He & s & Hs & Hd). rewrite <- He in *. clear He.
  pose proof (co_objects _ Hcl) as Ho. apply asking_well. destruct (ph_terminal h) eqn:Ht.
  { unfold program_poll. rewrite Ht. apply ewp_ret. cbn [fst snd].
    pose proof (client_handle cl (cl_objects cl) h true Hcl (conj Ho (keeps_same _)) Hh (fun _ => eq_refl)) as Hc.
    by rewrite <- Ht in Hc; destruct h. }
  eapply ewp_mono; [by apply (ewp_program_poll kernel runs_for c Hshape Hprepared (cl_given cl) h s _ (fun _ _ => False))| |done].
  intros [r h'] o' [(Ho' & Hk & Hr) Hh']. cbn [fst snd] in *. subst h'.
  assert (client_ok (keep_program (Some (mkProgramHandle (ph_step h) (bool_decide (is_Some r)))) (cl <| cl_objects := o' |>))) as Hcl'.
  { apply client_handle; [done|by split|done|congruence]. }
  destruct r as [r|]; [|done].
  apply (client_result _ (ph_step h) (mkProgramHandle (ph_step h) true)) with (r := r) in Hcl'; [done|apply lookup_insert_eq|done| |].
  - intros Hok. cbn. specialize (Hr Hok). destruct (st_direct_sequence s).
    + by rewrite (proj1 Hd eq_refl).
    + destruct Hr as (i & Hi & Hsol). by rewrite Hi.
  - by apply (unpublished cl _ h).
Qed.

(** The contract of exact decoding, in the words of its arguments. *)
Lemma decoded_sound cl id x r : asked_ok cl id x -> decoded_ok x (Some r) -> decode_sound cl id r.
Proof.
  intros (token & position & limit & exact & Ha & Hx & Hargs & Hlim) Hr Hok. specialize (Hr Hok).
  unfold decode_violates in Hr. injection Hargs as E1 E2 E3 E4 E5. rewrite E1, E2, E3, E4, E5 in Hr.
  apply orb_false_iff in Hr as [Hr H8%Z.ltb_ge]. apply orb_false_iff in Hr as [Hr H7%Z.ltb_ge].
  apply orb_false_iff in Hr as [Hr H6]. apply orb_false_iff in Hr as [Hr H5%Z.leb_gt].
  apply orb_false_iff in Hr as [Hr H4%negb_false_iff%Z.eqb_eq]. apply orb_false_iff in Hr as [Hr H3%negb_false_iff%bool_decide_eq_true].
  apply orb_false_iff in Hr as [_ H2%Z.ltb_ge].
  destruct (emitted_tokens r) as [|t rest] eqn:Hemit; [done|]. cbn in H3. injection H3 as ->.
  exists token, position, limit, exact, rest. split_and!; try done; [lia..|].
  constructor; [done|]. apply Forall_forall. intros t Ht. destruct (Z.leb_spec (vocab_size (xc_descriptor c)) t) as [Hle|]; [|done].
  assert (existsb (fun t => vocab_size (xc_descriptor c) <=? t) (token :: rest) = true) as Hb; [|congruence].
  apply existsb_exists. exists t. split; [by apply list_elem_of_In|lia].
Qed.

Lemma poll_exact_well id cl : client_ok cl -> goes_well (run_call (call_poll_exact id) cl).
Proof.
  intros Hcl. unfold run_call. destruct (cl_exacts cl !! id) as [h|] eqn:Hh; [|done].
  destruct (co_exacts _ Hcl _ _ Hh) as (He & x & Hx & Ha). rewrite <- He in *. clear He.
  pose proof (co_objects _ Hcl) as Ho. apply asking_well. destruct (xh_terminal h) eqn:Ht.
  { unfold exact_handle_poll. rewrite Ht. apply ewp_ret. cbn [fst snd].
    pose proof (client_exact_handle cl (cl_objects cl) h true Hcl (conj Ho (keeps_same _)) Hh (fun _ => eq_refl)) as Hc.
    by rewrite <- Ht in Hc; destruct h. }
  eapply ewp_mono; [by apply (ewp_exact_handle_poll kernel runs_for c Hprepared (cl_given cl) h x _ (fun _ _ => False))| |done].
  intros [r h'] o' [(Ho' & Hk & Hr) Hh']. cbn [fst snd] in *. subst h'.
  assert (client_ok (keep_exact (Some (mkExactHandle (xh_step h) (bool_decide (is_Some r)))) (cl <| cl_objects := o' |>))) as Hcl'.
  { apply client_exact_handle; [done|by split|done|congruence]. }
  destruct r as [r|]; [|done].
  apply (client_decode _ (xh_step h) (mkExactHandle (xh_step h) true)) with (r := r) in Hcl'; [done|apply lookup_insert_eq|done| |].
  - by apply (decoded_sound cl (xh_step h) x).
  - by apply (undecoded cl _ h).
Qed.

Lemma cancel_well id cl : client_ok cl -> goes_well (run_call (call_cancel id) cl).
Proof.
  intros Hcl. unfold run_call. destruct (cl_programs cl !! id) as [h|] eqn:Hh; [|done].
  destruct (co_programs _ Hcl _ _ Hh) as (He & s & Hs & _). rewrite <- He in *. clear He.
  pose proof (co_objects _ Hcl) as Ho. apply asking_well.
  eapply ewp_mono; [by apply (ewp_program_cancel kernel runs_for c Hprepared (cl_given cl) h s _ (fun _ _ => False))| |done].
  intros h' o' (Ho' & Hk & ->). apply client_handle; [done|by split|done|done].
Qed.

Lemma cancel_exact_well id cl : client_ok cl -> goes_well (run_call (call_cancel_exact id) cl).
Proof.
  intros Hcl. unfold run_call. destruct (cl_exacts cl !! id) as [h|] eqn:Hh; [|done].
  destruct (co_exacts _ Hcl _ _ Hh) as (He & x & Hx & _). rewrite <- He in *. clear He.
  pose proof (co_objects _ Hcl) as Ho. apply asking_well.
  eapply ewp_mono; [by apply (ewp_exact_handle_cancel kernel runs_for c Hprepared (cl_given cl) h x _ (fun _ _ => False))| |done].
  intros h' o' (Ho' & Hk & ->). apply client_exact_handle; [done|by split|done|done].
Qed.

(** A handle that is destroyed takes its step with it. *)
Lemma client_destroyed cl id o o1 : client_ok cl -> objects_ok (cl_given cl) o -> keeps (cl_objects cl) o1 ->
  o = o1 <| request_steps %= delete id |> -> client_ok (cl <| cl_objects := o |> <| cl_programs %= delete id |>).
Proof.
  intros [H1 H2 H3 H4 H5 H6] Ho Hk ->. split; cbn; [done| | | | |done].
  - intros j h [Hne Hh]%lookup_delete_Some. destruct (H2 _ _ Hh) as (He & s & Hs & Hd). split; [done|].
    destruct (keeps_steps _ _ Hk _ _ Hs) as (s' & Hs' & Hd'). exists s'. by rewrite Hd', lookup_delete_ne.
  - intros j h Hh. destruct (H3 _ _ Hh) as (He & x & Hx & Ha). split; [done|].
    destruct (keeps_exacts _ _ Hk _ _ Hx) as (x' & Hx' & Ha'). exists x'. split; [done|].
    unfold asked_ok in *. by rewrite Ha'.
  - intros j r Hr. destruct (H4 _ _ Hr) as (Hn & Ht & ?). pose proof (keeps_next _ _ Hk). split_and!; [lia| |done].
    intros h [_ Hh]%lookup_delete_Some. by apply Ht.
  - intros j r Hr. destruct (H5 _ _ Hr) as (Hn & ? & ?). pose proof (keeps_next _ _ Hk). split_and!; [lia|done|done].
Qed.

Lemma client_exact_destroyed cl id o o1 : client_ok cl -> objects_ok (cl_given cl) o -> keeps (cl_objects cl) o1 ->
  o = o1 <| exact_steps %= delete id |> -> client_ok (cl <| cl_objects := o |> <| cl_exacts %= delete id |>).
Proof.
  intros [H1 H2 H3 H4 H5 H6] Ho Hk ->. split; cbn; [done| | | | |done].
  - intros j h Hh. destruct (H2 _ _ Hh) as (He & s & Hs & Hd). split; [done|].
    destruct (keeps_steps _ _ Hk _ _ Hs) as (s' & Hs' & Hd'). exists s'. by rewrite Hd'.
  - intros j h [Hne Hh]%lookup_delete_Some. destruct (H3 _ _ Hh) as (He & x & Hx & Ha). split; [done|].
    destruct (keeps_exacts _ _ Hk _ _ Hx) as (x' & Hx' & Ha'). exists x'. rewrite lookup_delete_ne by done. split; [done|].
    unfold asked_ok in *. by rewrite Ha'.
  - intros j r Hr. destruct (H4 _ _ Hr) as (Hn & ? & ?). pose proof (keeps_next _ _ Hk). split_and!; [lia|done|done].
  - intros j r Hr. destruct (H5 _ _ Hr) as (Hn & Ht & ?). pose proof (keeps_next _ _ Hk). split_and!; [lia| |done].
    intros h [_ Hh]%lookup_delete_Some. by apply Ht.
Qed.

Lemma destroy_well id cl : client_ok cl -> goes_well (run_call (call_destroy id) cl).
Proof.
  intros Hcl. unfold run_call. destruct (cl_programs cl !! id) as [h|] eqn:Hh; [|done].
  destruct (co_programs _ Hcl _ _ Hh) as (He & s & Hs & _). rewrite <- He in *. clear He.
  pose proof (co_objects _ Hcl) as Ho. apply asking_well.
  eapply ewp_mono; [by apply (ewp_program_destroy kernel runs_for c Hprepared (cl_given cl) h s _ (fun _ _ => False))| |done].
  intros [] o' (Ho' & o1 & Hk & He). by eapply client_destroyed.
Qed.

Lemma destroy_exact_well id cl : client_ok cl -> goes_well (run_call (call_destroy_exact id) cl).
Proof.
  intros Hcl. unfold run_call. destruct (cl_exacts cl !! id) as [h|] eqn:Hh; [|done].
  destruct (co_exacts _ Hcl _ _ Hh) as (He & x & Hx & _). rewrite <- He in *. clear He.
  pose proof (co_objects _ Hcl) as Ho. apply asking_well.
  eapply ewp_mono; [by apply (ewp_exact_destroy kernel runs_for c Hprepared (cl_given cl) h x _ (fun _ _ => False))| |done].
  intros [] o' (Ho' & o1 & Hk & He). by eapply client_exact_destroyed.
Qed.

Lemma run_call_well k cl : client_ok cl -> goes_well (run_call k cl).
Proof.
  intros Hcl. destruct k.
  - by apply execute_well.
  - by apply execute_sequence_well.
  - by apply execute_exact_well.
  - by apply synchronize_well.
  - apply calm_call_well; [done|apply checkpoint_calm].
  - apply calm_call_well; [done|apply rewind_calm].
  - apply calm_call_well; [done|apply park_calm].
  - apply calm_call_well; [done|apply restore_calm].
  - apply calm_call_well; [done|apply save_calm].
  - apply calm_call_well; [done|apply prune_calm].
  - apply calm_call_well; [done|apply rebind_calm].
  - apply calm_call_well; [done|apply begin_transaction_calm].
  - apply calm_call_well; [done|apply end_transaction_calm].
  - by apply cancel_session_well.
  - by apply poll_well.
  - by apply cancel_well.
  - by apply destroy_well.
  - by apply poll_exact_well.
  - by apply cancel_exact_well.
  - by apply destroy_exact_well.
Qed.

Lemma run_calls_well l cl : client_ok cl -> goes_well (run_calls l cl).
Proof.
  revert cl. induction l as [|k l IH]; intros cl Hcl; cbn; [done|].
  pose proof (run_call_well k cl Hcl) as Hk. destruct (run_call k cl) as [cl'|e]; [by apply IH|done].
Qed.

(** *** Sessions that have begun *)

(** A session that nothing has been asked of. *)
Lemma fresh_ok h request states w : client_ok (new_client h (objects_of (new_session c request states) w)).
Proof.
  split; cbn; [|by intros ? ? ?%lookup_empty_Some..|by intros ? ? ?%not_elem_of_nil|by intros ? ? ?%not_elem_of_nil|by split; constructor].
  split; cbn; try done; try (by intros ? [? ?%lookup_empty_Some]); by left.
Qed.

Lemma begin_new request w :
  ewp (begin (Some c) request) (fun r _ => match r with inr s => exists states, s = new_session c request states | inl _ => True end)
    (fun _ _ => True) w.
Proof.
  apply ewp_catch. destruct (request_id request =? 0); [done|]. apply ewp_bind. unfold ewp at 1. destruct (pv_now w) as [now w1].
  destruct (deadline request <? now); [done|]. apply ewp_early.
  assert (forall l states w0, ewp (create_states request l states)
    (fun r s => match r with inl _ => True | inr a => ewp (proceed (new_session c request a))
       (fun r _ => match r with inr s => exists states, s = new_session c request states | inl _ => True end)
       (fun _ _ => True) s end) (fun e s => if caught e then True else True) w0) as Hc.
  { induction l as [|[i provider] l IH]; intros states w0; cbn [create_states]; [by apply ewp_ret, ewp_ret; eexists|].
    destruct (states !! i); [apply IH|]. apply ewp_bind. unfold ewp at 1, call_world.
    destruct (pv_create_state provider request w0) as [[[st created]|e] w2]; [|by destruct (caught e)].
    cbn [fst snd]. destruct (status_ok st); cbn [negb]; [apply IH|done]. }
  eapply ewp_mono; [apply Hc| |]; [intros [st|a] s Hs; exact Hs|]. intros e s _. by destruct (caught e).
Qed.

(** The clients of sessions of the executor, as they begin. *)
Inductive opened : Client -> Prop :=
| opened_session request w status h o w' :
    begin_session (Some c) request w = (Ok (status, Some h), (Some o, w')) -> opened (new_client (Some h) o)
| opened_snapshot request root generation position w status h o w' :
    begin_session_from_snapshot (Some c) request root generation position w = (Ok (status, Some h), (Some o, w')) ->
    opened (new_client (Some h) o)
| opened_execution request ins w status h o w' :
    execute (Some c) request ins w = (Ok (status, Some h), (Some o, w')) ->
    opened (keep_program (Some h) ((new_client None o) <| cl_given := {[ph_step h := ins]} |>)).

Lemma opened_ok cl : opened cl -> client_ok cl.
Proof.
  intros [request w status h o w' Hb|request root generation position w status h o w' Hb|request ins w status h o w' Hb].
  - unfold begin_session in Hb. pose proof (begin_new request w) as Hn. unfold ewp in Hn.
    destruct (begin (Some c) request w) as [[[st|s]|e] w1]; [done| |done]. destruct Hn as [states ->].
    injection Hb as <- <- <- <-. apply fresh_ok.
  - unfold begin_session_from_snapshot in Hb. pose proof (begin_new request w) as Hn. unfold ewp in Hn.
    destruct (begin (Some c) request w) as [[[st|s]|e] w1]; [done| |done]. destruct Hn as [states ->].
    pose proof (fresh_ok (Some h) request states w1) as Hf.
    pose proof (ewp_kept_calm kernel runs_for c Hprepared ∅ fatal _ _ (load_calm fatal root generation position) (co_objects _ Hf)) as Hl.
    unfold ewp in Hl. unfold ebind in Hb. cbn [new_client cl_objects] in Hl.
    destruct (load_snapshot root generation position (objects_of (new_session c request states) w1)) as [[r|e] o1]; [|done].
    destruct (status_ok (sn_status r)); cbn [negb] in Hb.
    + injection Hb as <- <- <- <-. exact (client_kept _ _ Hf Hl).
    + destruct (session_cancel o1) as [[[]|e] o2]; done.
  - unfold execute in Hb. pose proof (begin_new request w) as Hn. unfold ewp in Hn.
    destruct (begin (Some c) request w) as [[[st|s]|e] w1]; [done| |done]. destruct Hn as [states ->].
    pose proof (fresh_ok None request states w1) as Hf.
    pose proof (ewp_start kernel runs_for c Hshape Hprepared ∅ ins true _ (fun _ _ => False) (co_objects _ Hf)) as Hs.
    unfold ewp in Hs. unfold noexcept, catching_with in Hb. cbn [new_client cl_objects] in Hs.
    destruct (start ins true (objects_of (new_session c request states) w1)) as [[[st [h'|]]|e] o1]; [| |by destruct Hs].
    2: { by injection Hb. }
    injection Hb as <- <- <- <-. cbn [fst snd] in Hs. destruct Hs as (-> & _ & _ & _ & Hok & Hk & s & Hs & Hd).
    apply (client_started _ o1 {[0%nat := ins]} s Hf); try done.
    + intros id Hid. cbn in Hid. lia.
    + rewrite Hd. cbn. rewrite lookup_singleton_eq. by split.
Qed.
End Clients.

(** ** Solutions of a model *)

Section Model.
Context {Provider Operation : Type}
  (kernel : Operation -> CompiledOperationProgram -> list ExecutionValue -> list ExecutionValue -> Prop).

(** Values for the names of a model: its inputs are what was given, every operation maps the
    values of its inputs to those of its outputs, in the order of their ports, and the
    results are the values of its outputs. *)
Record model_solution (d : ModelDescriptor) (c : ExecutorCore (Provider := Provider) (Operation := Operation)) (ins outs : Inputs)
    (env : list Z -> option ExecutionValue) : Prop := {
  ms_inputs : forall port b, program_inputs d !! port = Some b ->
    exists v, ins !! port = Some v /\ env (vb_value b) = Some v /\ ev_abi v = vb_abi b;
  ms_operations : forall i op instruction, operation_program d !! i = Some op -> xc_prepared c !! i = Some instruction ->
    exists compiled vs rs, operations (xc_program c) !! i = Some compiled /\
      kernel (pi_operation instruction) compiled vs rs /\
      Forall2 (fun kv v => env (vb_value kv.2) = Some v) (ordered bytes_ltb (op_input_bindings op)) vs /\
      Forall2 (fun kv v => env (vb_value kv.2) = Some v /\ ev_abi v = vb_abi kv.2) (ordered bytes_ltb (op_output_bindings op)) rs;
  ms_outputs : forall port, outs !! port = program_outputs d !! port ≫= fun b => env (vb_value b);
  ms_complete : forall port, is_Some (program_outputs d !! port) -> is_Some (outs !! port) }.

Context (d : ModelDescriptor) (p : CompiledModelProgram) (Hflow : data_flow_ok d) (Hdenotes : structure_denotes d p)
  (Hschema : 3 <= schema_version d) (Hvalues : values p <> []).

Notation Values := (list (option ExecutionValue)).

Lemma flow_of :
  values p = value_of <$> producers d /\
  inputs p = defining_ports 0 (ordered bytes_ltb (program_inputs d)) /\
  Forall2 (port_denotes (producers d)) (ordered bytes_ltb (program_outputs d)) (outputs p) /\
  forall i o c, operation_program d !! i = Some o -> operations p !! i = Some c -> ports_denote d i o c.
Proof. pose proof (pd_flow _ _ Hdenotes) as H. destruct (Z.ltb_spec (schema_version d) 3); [lia|done]. Qed.

Lemma defining_lookup first l j : defining_ports first l !! j = (fun kv => mkPort kv.1 (Z.of_nat (first + j))) <$> l !! j.
Proof. apply list_lookup_imap. Qed.

Lemma denotes_shape : program_shape p.
Proof.
  destruct flow_of as (Hv & Hi & Ho & _). split.
  - rewrite Hi. apply NoDup_alt. intros i j x. rewrite !list_lookup_fmap, !defining_lookup.
    destruct (_ !! i), (_ !! j); cbn; [|done..]. intros [= <-] [= He]. lia.
  - intros e He. rewrite Hi in He. apply list_elem_of_lookup in He as [j Hj]. rewrite defining_lookup in Hj.
    destruct (_ !! j); [|done]. cbn in Hj. injection Hj as <-. cbn. lia.
  - assert (port <$> outputs p = (ordered bytes_ltb (program_outputs d)).*1) as ->.
    { clear -Ho. induction Ho as [|kv c l k (Hp & _) _ IH]; cbn; [done|]. by rewrite Hp, IH. }
    apply ordered_keys_NoDup.
  - destruct (values p); [done|]. cbn. lia.
Qed.

(** The value of a name is where its producer is. *)
Definition name_env (vals : Values) (name : list Z) : option ExecutionValue :=
  match list_find (fun b => vb_value b = name) (producers d) with
  | Some (i, _) => value_at vals (Z.of_nat i)
  | None => None
  end.

Lemma name_env_at vals j b : producers d !! j = Some b -> name_env vals (vb_value b) = value_at vals (Z.of_nat j).
Proof.
  intros Hj. unfold name_env.
  destruct (list_find_elem_of (fun b' => vb_value b' = vb_value b) (producers d) b) as [[i b'] Hi];
    [by eapply list_elem_of_lookup_2|done|]. rewrite Hi. apply list_find_Some in Hi as (Hi & Hname & _).
  f_equal. f_equal. apply (NoDup_lookup (vb_value <$> producers d) i j (vb_value b)); [apply Hflow| |].
  - by rewrite list_lookup_fmap, Hi; cbn; rewrite Hname.
  - by rewrite list_lookup_fmap, Hj.
Qed.

Lemma name_env_port vals kv e : port_denotes (producers d) kv e -> name_env vals (vb_value kv.2) = value_at vals (value_index e).
Proof. intros (_ & Hpos & Hb). rewrite (name_env_at _ _ _ Hb). by rewrite Z2Nat.id. Qed.

Lemma typed_abi vals j b v : well_typed p vals -> producers d !! j = Some b -> value_at vals (Z.of_nat j) = Some v -> ev_abi v = vb_abi b.
Proof.
  intros [_ Hw] Hb Hv. apply Hw in Hv as [_ Ha]. unfold value_abi_of in Ha. destruct flow_of as (Hvs & _).
  destruct (_ <=? _); [done|]. rewrite Nat2Z.id, Hvs, list_lookup_fmap, Hb in Ha. cbn in Ha. by injection Ha.
Qed.

(** The outputs of the [i]-th operation come after everything before it. *)
Lemma producers_split i op : operation_program d !! i = Some op ->
  exists rest, producers d = producers_before d i ++ bindings_of (op_output_bindings op) ++ rest.
Proof.
  intros Hi. exists (produced (drop (S i) (operation_program d))). unfold producers, producers_before.
  rewrite <- (take_drop_middle _ _ _ Hi) at 1. unfold produced. rewrite bind_app. cbn. by rewrite <- app_assoc.
Qed.

Lemma port_denotes_mono bs bs' kv e : port_denotes bs kv e -> port_denotes (bs ++ bs') kv e.
Proof. intros (H1 & H2 & H3). split_and!; [done|done|]. by apply lookup_app_l_Some. Qed.

Lemma gather_spec vals l vs : gather_inputs vals l = Some vs -> Forall2 (fun b v => value_at vals (value_index b) = Some v) l vs.
Proof.
  revert vs. induction l as [|b l IH]; intros vs; cbn; [by intros [= <-]|].
  destruct (value_at vals (value_index b)) as [v|] eqn:Hv; [|done]. destruct (gather_inputs vals l) as [rest|]; [|done].
  intros [= <-]. constructor; [done|by apply IH].
Qed.

(** The [j]-th output of an operation. *)
Lemma output_at i op j kv : operation_program d !! i = Some op -> ordered bytes_ltb (op_output_bindings op) !! j = Some kv ->
  producers d !! (length (producers_before d i) + j)%nat = Some kv.2.
Proof.
  intros Hi Hj. destruct (producers_split _ _ Hi) as [rest ->]. rewrite lookup_app_r by lia.
  replace (length (producers_before d i) + j - length (producers_before d i))%nat with j by lia.
  apply lookup_app_l_Some. unfold bindings_of. by rewrite list_lookup_fmap, Hj.
Qed.

Lemma operation_solved vals i op (instruction : PreparedInstruction (Provider := Provider) (Operation := Operation)) compiled :
  well_typed p vals -> operation_program d !! i = Some op -> operations p !! i = Some compiled ->
  applied kernel vals instruction compiled ->
  exists vs rs, kernel (pi_operation instruction) compiled vs rs /\
    Forall2 (fun kv v => name_env vals (vb_value kv.2) = Some v) (ordered bytes_ltb (op_input_bindings op)) vs /\
    Forall2 (fun kv v => name_env vals (vb_value kv.2) = Some v /\ ev_abi v = vb_abi kv.2) (ordered bytes_ltb (op_output_bindings op)) rs.
Proof.
  intros Hw Hi Hcomp (vs & rs & Hg & Hk & Hr). exists vs, rs. destruct flow_of as (_ & _ & _ & Hports).
  destruct (Hports _ _ _ Hi Hcomp) as [Hin Hout]. split_and!; [done| |].
  - apply gather_spec in Hg. clear -Hg Hin Hi Hflow. destruct (producers_split _ _ Hi) as [rest Hp].
    revert vs Hg. induction Hin as [|kv e l k Hkv _ IH]; intros vs Hg; inversion_clear Hg; constructor; [|by apply IH].
    rewrite (name_env_port _ _ e); [done|]. rewrite Hp. by apply port_denotes_mono.
  - rewrite Hout in Hr. apply Forall2_same_length_lookup. apply Forall2_same_length_lookup in Hr as [Hlen Hr].
    unfold defining_ports in Hlen. rewrite length_imap in Hlen. split; [done|]. intros j kv v Hkv Hv.
    specialize (Hr j v (mkPort kv.1 (Z.of_nat (length (producers_before d i) + j))) Hv).
    rewrite defining_lookup, Hkv in Hr. specialize (Hr eq_refl). cbn in Hr.
    pose proof (output_at _ _ _ _ Hi Hkv) as Hp. rewrite (name_env_at _ _ _ Hp). split; [done|]. by eapply typed_abi.
Qed.

Lemma ordered_at (m : gmap (list Z) ValueBinding) k b : m !! k = Some b -> exists j, ordered bytes_ltb m !! j = Some (k, b).
Proof. intros H. by apply list_elem_of_lookup, elem_of_ordered. Qed.

(** Solving the program is solving the model. *)
Lemma solves_model (c : ExecutorCore (Provider := Provider) (Operation := Operation)) ins outs :
  xc_program c = p -> length (operation_program d) = length (operations p) -> length (xc_prepared c) = length (operations p) ->
  solves kernel c ins outs -> exists env, model_solution d c ins outs env.
Proof.
  intros Hc Hlen Hprep (vals & Hw & Hin & Happ & Houts & Hall). rewrite Hc in *.
  destruct flow_of as (_ & Hi & Ho & _).
  assert (forall role b, program_outputs d !! role = Some b -> exists e, e ∈ outputs p /\ port e = role /\
    name_env vals (vb_value b) = value_at vals (value_index e)) as Hout.
  { intros role b Hb. destruct (ordered_at _ _ _ Hb) as [j Hj]. destruct (Forall2_lookup_l _ _ _ _ _ Ho Hj) as (e & He & Hpe).
    exists e. split_and!; [by eapply list_elem_of_lookup_2|apply Hpe|exact (name_env_port vals (role, b) e Hpe)]. }
  exists (name_env vals). split.
  - intros role b Hb. destruct (ordered_at _ _ _ Hb) as [j Hj].
    assert (producers d !! j = Some b) as Hp.
    { unfold producers. apply lookup_app_l_Some. unfold bindings_of. by rewrite list_lookup_fmap, Hj. }
    destruct (Hin (mkPort role (Z.of_nat j))) as (v & Hv & Hval).
    { rewrite Hi. apply (list_elem_of_lookup_2 _ j). by rewrite defining_lookup, Hj. }
    exists v. cbn in *. rewrite (name_env_at _ _ _ Hp). split_and!; [done|done|by eapply typed_abi].
  - intros i op instruction Hop Hinst. destruct (lookup_lt_is_Some_2 (operations p) i) as [compiled Hcomp].
    { rewrite <- Hlen. by eapply lookup_lt_Some. }
    destruct (operation_solved vals i op instruction compiled) as (vs & rs & H); [done..| |by rewrite Hc; exists compiled, vs, rs].
    apply (Happ i); [|done|by rewrite Hc]. by eapply lookup_lt_Some.
  - intros role. destruct (program_outputs d !! role) as [b|] eqn:Hb; cbn.
    + destruct (Hout _ _ Hb) as (e & He & Hpe & ->). destruct (Hall e He) as [v Hv]. rewrite Hpe in Hv. rewrite Hv.
      apply Houts in Hv as (e' & He' & Hpe' & Hv). symmetry. rewrite <- Hv. f_equal.
      assert (e = e') as ->; [|done]. pose proof (sh_outputs _ denotes_shape) as Hn.
      apply list_elem_of_lookup in He as [j Hj]. apply list_elem_of_lookup in He' as [j' Hj'].
      assert (j = j') as ->; [|congruence]. apply (NoDup_lookup _ _ _ (port e) Hn); rewrite list_lookup_fmap.
      * by rewrite Hj. * rewrite Hj'. cbn. congruence.
    + apply eq_None_not_Some. intros [v Hv]. apply Houts in Hv as (e & He & <- & _).
      apply list_elem_of_lookup in He as [j Hj]. destruct (Forall2_lookup_r _ _ _ _ _ Ho Hj) as ([k b] & Hkv & Hp & _).
      apply list_elem_of_lookup_2, elem_of_ordered in Hkv. cbn in Hp. congruence.
  - intros role [b Hb]. destruct (Hout _ _ Hb) as (e & He & <- & _). by apply Hall.
Qed.
End Model.

(** ** The properties of program execution *)

Section Properties.
Context {W Provider Operation PState OpRun ExactRun : Type} `{!EqDecision Provider}
  `{!Providers W Provider Operation PState OpRun ExactRun}.
Context (kernel : Operation -> CompiledOperationProgram -> list ExecutionValue -> list ExecutionValue -> Prop)
  (runs_for : OpRun -> Operation -> CompiledOperationProgram -> list ExecutionValue -> Prop)
  `{!ProviderSpec kernel runs_for} `{!CivilProviders}.

(** A plan that denotes a model, as every plan that binding makes, and an executor that has
    been created for it. *)
Context (d : ModelDescriptor) (p : BoundExecutionProvider Provider)
  (Htyped : Forall component_typed (routed_components d)) (Hdenotes : structure_denotes d (program p))
  (store : ModelTensorStore (W := W)) (w0 w1 : W) (c : ExecutorCore (Provider := Provider) (Operation := Operation))
  (Hcreate : create d p store None w0 = (Ok (success, Some c), w1)).

Notation Cl := (Client (W := W) (Provider := Provider) (Operation := Operation) (PState := PState)
                  (OpRun := OpRun) (ExactRun := ExactRun)).

Lemma created : carries_out d p c.
Proof.
  destruct (create_sound _ _ _ _ _ _ _ _ Hcreate) as [(_ & _ & c' & [= <-] & Hc)|[Hst _]]; [done|done].
Qed.

Lemma created_flow : data_flow_ok d.
Proof.
  pose proof created as [_ _ Hv Hs _ _ _ _]. destruct (validation_exact d Htyped) as [Hwf Hcode].
  assert (well_formed d) as Hd.
  { apply Hwf. destruct (decide (validate_model_descriptor d = success)) as [|Hne]; [done|].
    unfold status_ok in Hv. by rewrite (Hcode Hne) in Hv. }
  pose proof (wf_flow _ Hd) as Hf. by rewrite (proj2 (Z.ltb_ge _ _) Hs) in Hf.
Qed.

Lemma created_shape : program_shape (xc_program c).
Proof.
  pose proof created as [_ Hp _ Hs Hv _ _ _]. unfold xc_program. rewrite Hp. by eapply denotes_shape.
Qed.

Lemma created_length : length (xc_prepared c) = length (operations (xc_program c)).
Proof. pose proof created as [_ Hp _ _ _ [H1 H2] _ _]. unfold xc_program. rewrite Hp. congruence. Qed.

Lemma runs_well (calls : list SessionCall) (cl : Cl) : opened c cl ->
  goes_well kernel runs_for c (run_calls calls cl).
Proof.
  intros Hcl. pose proof created_shape. pose proof created_length.
  apply run_calls_well; [done..|]. by apply opened_ok.
Qed.

(** C7: Whatever a client does with the sessions of an executor - steps, retention, parking,
    snapshots, cancellation, in any order - a step of the interpreter that publishes success
    publishes a solution of the model for the inputs that the step was given: there are
    values for the names of the model such that every operation, as its provider prepared
    it, makes its outputs of its inputs, and the results are the values that the model
    names, of the types that it declares. Every step publishes at most one result. A provider
    that runs the program as a whole is believed, but its results have the declared types. *)
Theorem published_results_solve_model (calls : list SessionCall) (cl cl' : Cl) :
  opened c cl -> run_calls calls cl = Ok cl' ->
  NoDup (cl_results cl').*1 /\
  forall id r, (id, r) ∈ cl_results cl' -> status_ok (pr_status r) = true ->
  match cl_given cl' !! id with
  | Some ins => exists env, model_solution kernel d c ins (pr_outputs r) env
  | None => typed_outputs (program p) (pr_outputs r)
  end.
Proof.
  intros Hcl Hrun. pose proof (runs_well calls cl Hcl) as Hok. rewrite Hrun in Hok.
  split; [apply (co_once _ _ _ _ Hok)|]. intros id r Hin Hst.
  destruct (co_results _ _ _ _ Hok _ _ Hin) as (_ & _ & Hr). specialize (Hr Hst).
  pose proof created as [_ Hp _ Hs Hv [H1 H2] _ _]. destruct (cl_given cl' !! id) as [ins|].
  - apply (solves_model kernel d (program p)); [apply created_flow|done|done|done|unfold xc_program; by rewrite Hp|congruence|congruence|done].
  - by rewrite <- Hp.
Qed.

(** What still runs: a step of the program, or an exact decoding. *)
Definition runs (cl : Cl) (id : nat + nat) : Prop :=
  match id with
  | inl id => exists s, request_steps (cl_objects cl) !! id = Some s /\ st_terminal s = false
  | inr id => exists x, exact_steps (cl_objects cl) !! id = Some x /\ xs_terminal x = false
  end.


(** C9: Every call that a client makes returns, whatever the providers return or throw: the
    loop of the interpreter ends, an exception becomes a result, and a handle never refers to
    an object that is gone. Only a provider that throws while a session is rebound or
    synchronized, where the code promises that nothing is thrown, ends the process. *)
Theorem calls_return (calls : list SessionCall) (cl : Cl) :
  opened c cl ->
  (quiet (Provider := Provider) (Operation := Operation) (PState := PState) (OpRun := OpRun) (ExactRun := ExactRun) (W := W) ->
   exists cl', run_calls calls cl = Ok cl') /\
  forall e, run_calls calls cl = Throw e -> e = undefined_behavior "std::terminate".
Proof.
  intros Hcl. pose proof (runs_well calls cl Hcl) as Hok. destruct (run_calls calls cl) as [cl'|e].
  - split; [by eexists|done].
  - destruct Hok as [-> Hq]. split; [by intros ?%Hq|by intros ? [= <-]].
Qed.

(** C10: A decoding that publishes success has emitted the token that was guaranteed and then
    at most as many as the artifact allows, all of the vocabulary, has advanced the position
    by their number, and ends within the context limit that the call named, which is within
    the model's; every decoding publishes at most one result. *)
Theorem exact_decode_within_bounds (calls : list SessionCall) (cl cl' : Cl) :
  opened c cl -> run_calls calls cl = Ok cl' ->
  NoDup (cl_decoded cl').*1 /\
  forall id r, (id, r) ∈ cl_decoded cl' -> status_ok (xd_status r) = true ->
  exists token position limit source rest,
    cl_asked cl' !! id = Some (token, position, limit) /\ exact_decode_program d = Some source /\
    emitted_tokens r = token :: rest /\
    Z.of_nat (length (emitted_tokens r)) <= ed_maximum_emitted_tokens source /\
    positions_advanced r = Z.of_nat (length (emitted_tokens r)) /\
    position + positions_advanced r <= limit /\ limit <= max_context_tokens d /\
    Forall (fun t => t < vocab_size d) (xd_next_token r :: emitted_tokens r).
Proof.
  intros Hcl Hrun. pose proof (runs_well calls cl Hcl) as Hok. rewrite Hrun in Hok.
  split; [apply (co_once _ _ _ _ Hok)|]. intros id r Hin Hst.
  destruct (co_decoded _ _ _ _ Hok _ _ Hin) as (_ & _ & Hr).
  destruct (Hr Hst) as (token & position & limit & exact & rest & Ha & Hx & He & Hmax & Hadv & Hlim & Hctx & Hall).
  pose proof created as [Hd _ _ _ _ _ (resolved & _ & Hdec) _]. rewrite Hx in Hdec. rewrite Hd in Hctx, Hall.
  destruct (exact_decode_program d) as [source|]; [|by destruct (exact_decode (program p))]. destruct (exact_decode (program p)); [|done].
  exists token, position, limit, source, rest. by rewrite <- (pd_tokens _ _ _ _ _ Hdec).
Qed.
End Properties.

(** C11: An executor is created exactly as its plan says: one instruction for every operation
    of the model, in order, which the provider of its kernel has prepared with the tensors
    that the model binds to it, one tensor for one name; likewise exact decoding; and a
    program sequence only if one provider owns every operation. A creation that is refused
    leaves its destination as it was. *)
Theorem creation_carries_out_plan {W Provider Operation PState OpRun ExactRun : Type} `{!EqDecision Provider}
    `{!Providers W Provider Operation PState OpRun ExactRun}
    (d : ModelDescriptor) (p : BoundExecutionProvider Provider) (store : ModelTensorStore (W := W))
    (destination result : option (ExecutorCore (Provider := Provider) (Operation := Operation))) status w w' :
  create d p store destination w = (Ok (status, result), w') ->
  (status = success /\ destination = None /\ exists c, result = Some c /\ carries_out d p c) \/
  (status_ok status = false /\ result = destination).
Proof. apply create_sound. Qed.

(** ** A small provider

    Values are one byte, the number of inputs they were made of; operations take one poll. *)

Definition demo_value (abi : list Z) (ins : list ExecutionValue) : ExecutionValue :=
  mkExecutionValue abi (bytes "host") (Some [Z.of_nat (length ins)]) (Some 0) 1.

(** A prepared operation is the types of its outputs. *)
Definition demo_kernel (op : list (list Z)) (compiled : CompiledOperationProgram) (ins outs : list ExecutionValue) : Prop :=
  outs = (fun abi => demo_value abi ins) <$> op.

Definition demo_runs (t : list ExecutionValue) (op : list (list Z)) (compiled : CompiledOperationProgram)
    (ins : list ExecutionValue) : Prop := t = (fun abi => demo_value abi ins) <$> op.

#[export] Instance demo_backend : Providers unit unit (list (list Z)) unit (list ExecutionValue) ExactDecodeExecutionResult := {
  pv_now w := (0, w);
  pv_prepare _ source _ _ w := (Ok (success, Some ((fun kv => vb_abi kv.2) <$> ordered bytes_ltb (op_output_bindings source))), w);
  pv_prepare_exact _ _ _ _ w := (Ok (success, Some []), w);
  pv_create_state _ _ w := (Ok (success, tt), w);
  pv_execute _ op _ _ _ ins w := (Ok (Some (mkRunning ((fun abi => demo_value abi ins) <$> op) false)), w);
  pv_supports_sequence _ _ := false;
  pv_execute_sequence _ _ _ _ _ _ w := (Ok None, w);
  pv_checkpoint _ _ _ w := (Ok success, w);
  pv_rewind _ _ _ w := (Ok success, w);
  pv_rebind _ _ _ w := (Ok success, w);
  pv_supports_parking _ := true;
  pv_park _ _ _ w := (Ok (mkParking success 1 64), w);
  pv_restore _ _ w := (Ok (mkParking success 1 64), w);
  pv_supports_persistence _ := false;
  pv_save _ _ _ _ w := (Throw (runtime_error "disk"), w);
  pv_load _ _ _ _ w := (Throw (runtime_error "disk"), w);
  pv_prune _ _ _ w := (Ok success, w);
  pv_synchronize _ _ _ _ _ _ _ w := (Ok success, w);
  pv_execute_exact _ _ _ _ token _ _ w := (Ok (Some (mkRunning (mkDecoded success [token; 5] 6 2) false)), w);
  pv_poll t w := (Ok (Some (mkExecuted success t)), t, w);
  pv_cancel t w := (t, w);
  pv_poll_exact t w := (Ok (Some t), t, w);
  pv_cancel_exact t w := (t, w) }.

#[export] Instance demo_backend_spec : ProviderSpec demo_kernel demo_runs.
Proof.
  split.
  - intros provider op [] request compiled ins w r w' [= <- _] _. done.
  - intros t op compiled ins w result t' w' Ht [= <- <- _] _. exact Ht.
Qed.

#[export] Instance demo_backend_civil : CivilProviders (W := unit) (Provider := unit).
Proof. split; intros; intros w e w' He; injection He; intros; by subst. Qed.

Lemma demo_quiet : quiet (W := unit) (Provider := unit) (Operation := list (list Z)) (PState := unit)
  (OpRun := list ExecutionValue) (ExactRun := ExactDecodeExecutionResult).
Proof. by split. Qed.

(** The small model, with exact decoding. *)
Definition demo_decoder : ModelDescriptor :=
  mkDescriptor 3 (bytes "demo") [] 100 64 8 ∅ ∅ (routed_components demo_model)
    (required_kernels demo_model ++ [mkRequirement (bytes "decode") 1]) (layer_program demo_model) (operation_program demo_model)
    (program_inputs demo_model) (program_outputs demo_model) (Some (mkDecode (bytes "decode") 1 4 ∅ ∅)).

Definition demo_backends : list (ExecutionProviderDefinition unit) :=
  [mkProvider (bytes "cpu") 1 (demo_capabilities ++ [mkCapability (bytes "decode") 1 1 None]) (Some tt)].

Definition demo_plan : BoundExecutionProvider unit := (bind demo_decoder executable demo_backends).2.

Definition demo_core : ExecutorCore (Provider := unit) (Operation := list (list Z)) :=
  match create demo_decoder demo_plan None None tt with
  | (Ok (_, Some c), _) => c
  | _ => mkExecutor demo_decoder demo_plan [] None None
  end.

Lemma demo_session_created : create demo_decoder demo_plan None None tt = (Ok (success, Some demo_core), tt).
Proof. vm_compute. reflexivity. Qed.

Lemma demo_decoder_typed : Forall component_typed (routed_components demo_decoder).
Proof. exact demo_typed. Qed.

Lemma demo_bound : length (bound_providers (bind demo_decoder executable demo_backends).2) = 1%nat.
Proof. vm_compute. reflexivity. Qed.

Lemma demo_countable : countable_sizes demo_decoder demo_backends.
Proof.
  unfold countable_sizes. split; [vm_compute; reflexivity|].
  do 4 (split; [vm_compute; discriminate|]). apply Forall_forall. repeat constructor; vm_compute; discriminate.
Qed.

Lemma demo_returning : validators_return demo_decoder demo_backends.
Proof.
  assert (Forall (fun q => Forall (fun k => kc_validate k = None) (ep_capabilities q)) demo_backends) as Hall.
  { constructor; [|constructor]. vm_compute. repeat constructor. }
  intros q k f Hq Hk Hf. rewrite Forall_forall in Hall. specialize (Hall q Hq). rewrite Forall_forall in Hall.
  by rewrite (Hall k Hk) in Hf.
Qed.

Lemma demo_program_denotes : structure_denotes demo_decoder (program demo_plan).
Proof.
  pose proof demo_bound as Hb. unfold demo_plan.
  destruct (bind_spec demo_decoder executable demo_backends demo_decoder_typed demo_countable demo_returning) as
    [(_ & _ & plan & Hp & Hok)|[(_ & Hp)|(_ & l1 & r & l2 & _ & _ & _ & Hp)]]; rewrite Hp in Hb |- *.
  - apply Hok.
  - destruct (O_S _ Hb).
  - destruct (O_S _ Hb).
Qed.

(** A client that begins a session, runs the program, decodes and parks. *)
Definition demo_request : ProgramRequestContext := mkContext 1 10 ∅.

Definition demo_inputs : Inputs := {[bytes "tokens" := demo_value (bytes "i32") []]}.

Definition demo_objects : Objects (W := unit) (Provider := unit) (Operation := list (list Z)) (PState := unit)
    (OpRun := list ExecutionValue) (ExactRun := ExactDecodeExecutionResult) :=
  match begin_session (Some demo_core) demo_request tt with
  | (_, (Some o, _)) => o
  | _ => objects_of (new_session demo_core demo_request ∅) tt
  end.

Lemma demo_began : begin_session (Some demo_core) demo_request tt = (Ok (success, Some false), (Some demo_objects, tt)).
Proof. vm_compute. reflexivity. Qed.

Definition demo_client := new_client (Some false) demo_objects.

Lemma demo_opened : opened demo_core demo_client.
Proof. exact (opened_session demo_core demo_request tt success false demo_objects tt demo_began). Qed.

Definition demo_calls : list SessionCall :=
  [call_execute demo_inputs; call_execute demo_inputs; call_poll 0; call_execute_exact 3 7 20; call_poll_exact 1;
   call_park 9; call_restore; call_rebind demo_request; call_execute demo_inputs].

Definition demo_end := match run_calls demo_calls demo_client with Ok cl => cl | Throw _ => demo_client end.

Lemma demo_ran : run_calls demo_calls demo_client = Ok demo_end.
Proof. vm_compute. reflexivity. Qed.

(** The program ran and made one value, of the one input of its last operation; two tokens
    were decoded; the second step of the program was refused, the third one runs. *)
Definition demo_outputs : Inputs := {[bytes "logits" := demo_value (bytes "f32") [demo_value [] []]]}.

Lemma demo_published : cl_results demo_end = [(0%nat, mkProgramResult success demo_outputs)].
Proof. vm_compute. reflexivity. Qed.

Lemma demo_was_given : cl_given demo_end !! 0%nat = Some demo_inputs.
Proof. vm_compute. reflexivity. Qed.

Lemma demo_decoded : cl_decoded demo_end = [(1%nat, mkDecoded success [3; 5] 6 2)].
Proof. vm_compute. reflexivity. Qed.

Lemma demo_runs_on : exists s, request_steps (cl_objects demo_end) !! 2%nat = Some s /\ st_terminal s = false.
Proof. eexists. split; [vm_compute; reflexivity|reflexivity]. Qed.

Lemma creation_carries_out_plan_witness : carries_out demo_decoder demo_plan demo_core.
Proof.
  destruct (creation_carries_out_plan demo_decoder demo_plan None None (Some demo_core) success tt tt demo_session_created)
    as [(_ & _ & c & Hsome & Hc)|[Hs _]]; [|discriminate Hs].
  apply (inj Some) in Hsome. rewrite Hsome. exact Hc.
Defined.

Lemma published_results_solve_model_witness :
  exists env, model_solution demo_kernel demo_decoder demo_core demo_inputs demo_outputs env.
Proof.
  destruct (published_results_solve_model demo_kernel demo_runs demo_decoder demo_plan demo_decoder_typed demo_program_denotes
    None tt tt demo_core demo_session_created demo_calls demo_client demo_end demo_opened demo_ran) as [_ H].
  specialize (H 0%nat (mkProgramResult success demo_outputs)). rewrite demo_published, demo_was_given in H.
  apply H; [constructor|reflexivity].
Defined.


Lemma calls_return_witness : exists cl, run_calls demo_calls demo_client = Ok cl.
Proof.
  destruct (calls_return demo_kernel demo_runs demo_decoder demo_plan demo_program_denotes
    None tt tt demo_core demo_session_created demo_calls demo_client demo_opened) as [H _].
  exact (H demo_quiet).
Defined.

Lemma exact_decode_within_bounds_witness :
  exists limit, cl_asked demo_end !! 1%nat = Some (3, 7, limit) /\ 7 + 2 <= limit.
Proof.
  destruct (exact_decode_within_bounds demo_kernel demo_runs demo_decoder demo_plan demo_program_denotes
    None tt tt demo_core demo_session_created demo_calls demo_client demo_end demo_opened demo_ran) as [_ H].
  specialize (H 1%nat (mkDecoded success [3; 5] 6 2)). rewrite demo_decoded in H.
  destruct H as (token & position & limit & source & rest & Ha & _ & He & _ & Hn & Hl & _); [constructor|reflexivity|].
  assert (cl_asked demo_end !! 1%nat = Some (3, 7, 20)) as Hasked by (vm_compute; reflexivity).
  rewrite Hasked in Ha. injection Ha as <- <- <-. exists 20. split; [exact Hasked|exact Hl].
Defined.
